(* ===== verification/_CoqProject ===== *)
-Q . S2P
Prelude.v
Hash.v
RawDB.v
Swap.v
Order.v
Reserve.v
OrderBook.v
Trade.v
Reward.v
TrackFee.v
PdexUtils.v
PoolPair.v
Staking.v
Params.v
WeightedFee.v
Instructions.v
LiquidityProducer.v
TradeProducer.v
OrderProducer.v
RewardProducer.v
StakingProducer.v
StateV2.v
Processor.v
Market.v
Solvency.v
Agreement.v
StateAgreement.v
Refinement.v
Chain.v
Genesis.v
Divergence.v
Validation.v
Timeslot.v
MultiView.v
SignatureCounter.v
Wallet.v
InstructionText.v
BeaconInstructions.v
InstructionRoundtrip.v
SwapRules.v
AssignRules.v
CommitteeChange.v
CommitteeState.v
CommitteeInvariant.v
CommitteeAgreement.v
BridgeVault.v
BridgeDB.v
BridgeState.v
BridgeInvariant.v
BridgeProducer.v
BridgeCall.v
BridgeShield.v
BridgeProcessor.v
BridgeSound.v
BridgeShieldSound.v
BridgeBlock.v
BridgeExample.v
BridgeSolvency.v
BridgeOnce.v
BridgeQueue.v
BridgeRequests.v
BridgeDivergence.v
Float64.v
Rewards.v
RewardPay.v
RewardEpoch.v
RewardLedger.v
RewardsSound.v
RewardCap.v
RewardWithdraw.v
RewardExample.v
BftVote.v
BftNode.v
BftActor.v
BftInvariant.v
BftSteps.v
BftAgreement.v
BftCertificate.v
BftExample.v
BftDivergence.v
