(* ===== verification/Prelude.v ===== *)
(** * Verification of the Incognito chain: consensus, exchange, bridge, rewards, committees, views

    The Incognito chain is a sharded blockchain node.  A beacon chain coordinates shards: once
    per beacon block a producer takes what the shards' blocks request, changes the state of the
    beacon chain and emits instructions; every node applies the instructions to its own copy
    and the shards pay users accordingly.  Nothing else guards the coins the beacon chain
    answers for, so the development models, for each of the parts below, the producing side, the
    processing side and what they call, and proves that value is neither created nor lost, that
    nobody is paid twice or forgotten, and that all nodes end up in the same state.  Which block
    comes next is decided by the consensus of the validators; of the beacon chain's it proves
    that two blocks of one height with different contents are never both certified.

    ** The program's parts and their models

    A file requires only files before it in the project file.  Foundations:

    - [Prelude]: results of Go calls ([outcome]: a value, an error, a panic, exhausted
      fuel), methods with a pointer receiver (the state monad [M], whose state survives an
      error), 64-bit wrap-around arithmetic, [big.Int] division and square root, sums over
      maps and lists, sorted keys, and the tactics.
    - [Hash]: [common/hash.go], the identifiers of tokens, NFTs and transactions.
    - [Float64]: Go's [float64] on non-negative numbers, rounding included, for the rewards.

    The exchange, pDEX v3 ([blockchain/pdex]):

    - [RawDB]: the records of [dataaccessobject/rawdbv2/accessor_pdexv3.go] (contribution,
      pool, order), their setters and well-formedness.
    - [Swap], [Order], [Reserve]: [v2utils/swap.go], [order.go], [reserve.go]: quotes,
      matching of one order, a partial swap with the pool up to an order's rate.
    - [OrderBook]: [order_book.go], with the iterator interface of [v2utils/order.go] as a
      class of operations ([OrderBookIterator]) and its laws ([OrderBookLaws]).  The trade
      and fee loops are proved against the laws; the sorted book is an instance.
    - [Trade]: [MaybeAcceptTrade], a trade along a path of pools.
    - [Reward], [TrackFee]: making volumes, splits between pool and order makers, booking of
      protocol, staking and provider fees, distribution of a trade's fee over its path.
    - [PdexUtils]: pool keys, virtual amounts, checked arithmetic, share amounts
      ([utils.go], [constants.go]).
    - [PoolPair]: [pool_pair_state.go] and [state_v2_utils.go]: the state of a pool
      ([PoolPairState]), contributions, withdrawals, shares, mining locks, accrued rewards.
    - [Staking]: [staking_pool_state.go].
    - [Params], [WeightedFee]: [params.go]; the conversion of fees paid in the native coin
      and the choice of reference pools ([utils.go]).
    - [Instructions]: the instructions with their payload, and the builders of [v2utils].
    - [LiquidityProducer], [TradeProducer], [OrderProducer], [RewardProducer],
      [StakingProducer]: the handlers of [state_producer_v2.go], one function per handler,
      over the block's whole list of requests.  A handler's loop body is the definition
      named [...Tx]; its state is the map of pools ([PoolPairs]) or of staking pools
      ([StakingPools]) it reads and writes.
    - [StateV2]: [state_v2.go]: the exchange as a whole ([stateV2]), the requests of a block
      sorted by kind, [BuildInstructions] as a sequence of sixteen steps on the state, and
      the first parameters ([readConfig]).
    - [Processor]: [state_processor_v2.go] and [Process] of [state_v2.go].
    - [Market], [Solvency]: invariants of the whole exchange; each step of
      [BuildInstructions] against one accounting of all tokens ([ledger], [moves]).
    - [Agreement], [StateAgreement], [Refinement]: when two exchanges are
      the same up to what the producer leaves behind ([agrees]), and, handler by handler,
      that processing the handler's instructions repeats its changes.
    - [Chain]: the loop of [beaconprocess.go] over blocks ([nextBlock], [runBlocks]).
    - [Genesis]: an exchange from its creation on, and a concrete chain under the parameters
      of the main network.
    - [Divergence]: blocks on which producer and nodes part ways, outside the hypotheses.
    - [Validation]: [metadata/pdexv3] and [restorebeststate.go]: the checks a request passes
      before a shard puts it into a block.

    Views, time and signatures:

    - [Timeslot]: [blockchain/timeslot.go], the numbering of the proposers' slots.
    - [MultiView]: [multiview]: the tree of blocks that may still win, the best and the final
      view, for both kinds of chain; views are shared objects on a [heap].
    - [SignatureCounter]: [signaturecounter]: who missed signatures and is slashed.

    Validators:

    - [Wallet]: [common/base58], [wallet/hdwallet.go]: base58, the text of keys and addresses, and
      its decoder, which slices by lengths it finds in the text.
    - [InstructionText], [BeaconInstructions], [InstructionRoundtrip]: [instruction]: printing,
      checking and reading back the beacon instructions.
    - [SwapRules], [AssignRules]: [committeestate/consensus_swap_rule*.go] and
      [consensus_assign_rule.go], each behind the class of its Go interface with its laws.
    - [CommitteeChange], [CommitteeState]: [beacon_committee_state_base.go], [_slashing_base.go],
      [_v2.go], [_v3.go]: the lists of validators and the handlers of a block's instructions.
    - [CommitteeInvariant], [CommitteeAgreement]: nobody is lost or in two places; swaps a
      producer generates are accepted.

    The bridge aggregator ([blockchain/bridgeagg]), unified tokens over several networks:

    - [BridgeVault], [BridgeState], [BridgeDB]: a vault and its fees; the state with the queue of
      waiting requests; the values a block accumulates and the records of the database.
    - [BridgeProducer], [BridgeShield], [BridgeCall]: the handlers of [state_producer.go].
    - [BridgeProcessor], [BridgeBlock]: [state_processor.go], [manager.go], and a whole block with
      its checkpoints and its order.
    - [BridgeInvariant], [BridgeSound], [BridgeShieldSound], [BridgeSolvency],
      [BridgeOnce], [BridgeQueue], [BridgeRequests]: what the vaults owe, handler by handler; the
      agreement of both sides; a deposit is credited once; the queue is served in order.
    - [BridgeExample], [BridgeDivergence]: a concrete bridge; defects.

    Rewards of validators:

    - [Rewards]: [salary.go], [consensus_reward_rule.go], [accessor_reward.go]: the reward of a
      block, the limit on minting, the requests of an epoch and the rules that split them.
    - [RewardPay]: the instructions of an epoch and what the shards credit for them.
    - [RewardWithdraw]: withdrawals of credits: the producer's responses, their check, the debit.
    - [RewardEpoch], [RewardLedger], [RewardsSound], [RewardCap]: the split is
      exact, the credits of all shards add up, the limit holds.
    - [RewardExample]: the parameters of the main network, the witnesses, and defects.

    The consensus of the beacon chain, a Tendermint-like protocol ([consensus_v2/blsbft]):

    - [BftVote]: [message.go], [validation.go], [CombineVotes]: votes and their signatures,
      certificates and their check.
    - [BftNode]: the state of a validator's actor ([actor_v3.go]: the proposals it received with
      their votes, its locks, the consensus database), messages, prevotes and votes, cleaning.
    - [BftActor]: proofs of lock change, proposing ([actor_v3_propose.go]), committing
      ([actor_v3_commit.go]), [run] as one function on an [Event], a restart.
    - [BftInvariant], [BftSteps]: why votes in the log of all honest nodes
      cannot certify two contents; the invariant that ties a node's locks to what it sent; that
      each phase of a tick and each message keep it.
    - [BftAgreement]: the nodes as a step relation, and agreement along all its runs.
    - [BftCertificate]: what a node aggregates, and what a proposer proves, is accepted.
    - [BftExample], [BftDivergence]: a committee of four; defects.

    A vote's signatures, hashes and encodings are the class [BftCrypto].  The chain an actor asks
    ([Chain] of [BftNode]) is a snapshot taken at each event; ranges over the map of proposals take
    their order from the event.

    Integers of the source are [Z]: [uint64] and [uint] operations wrap explicitly ([add64],
    [sub64]), [big.Int] operations are exact, [Uint64()] truncates ([bigUint64]).  Go maps
    are [gmap]; where the source iterates in Go's random order the model folds over the map, or
    takes the order as a parameter ([mapOrder] of the bridge), and the theorems hold for the
    result whatever the order ([getWeightedFee_deterministic] proves independence where ties
    are broken by the code).  Cloning before a change is the identity on values, except where
    the objects are shared ([MultiView], [BridgeDB]); a handler that returns before storing the
    clone leaves the old map.

    ** What the theorems show

    - The exchange as a whole: from its creation on, along every chain of valid and traceable
      blocks, it never stops and never pays more than it received ([exchange_solvent]); one block keeps
      every invariant ([nextBlock_sound]); processing refines producing ([Process_refines]);
      the accounting of one block ([BuildInstructions_solvent]).  The abstract specification
      is the ledger: for every token, holdings and claims after a block, plus payments, are
      at most those before it plus what came in.
    - Its handlers: conservation ([trade_conserves], [addLiquidity_conserves],
      [withdrawLiquidity_conserves], [MaybeAcceptTrade_conserves] and their like), fairness ([contribute_no_dilution],
      [contribute_withdraw_no_profit]), coverage of claims ([withdrawLPFee_covered]), refusal
      ([trade_rejected]), exact fees ([TrackFee_PRV_exact]), termination
      ([MaybeAcceptTrade_returns]), validation ([validated_block]).
    - The bridge: the vaults hold what the queue is owed, the rewards set aside and the unified
      tokens in circulation, along every chain of sane blocks ([bridge_solvent]); every node can
      process what a producer built and agrees with it ([block_processed]); on any chain of
      built blocks a deposit is credited at most once ([deposit_credited_once]); a waiting request is paid as soon as its
      vaults hold what it and those before it are owed ([waiting_request_paid]); a request is
      refunded, paid or queued ([unshield_settles]).
    - Rewards: what an epoch booked is what is credited on the shards, kept for custodians and
      given to the exchange, but for less than a unit per receiver ([rewards_conserved]);
      booking mints exactly what it counts and stays under the limit ([minting_capped]);
      withdrawals pay every key once, exactly what is debited ([withdrawals_settle]).
    - Validators: a block neither loses nor duplicates a key ([UpdateCommitteeState_conserves]),
      produced swaps are accepted ([produced_swaps_accepted]), the rules keep their promises
      ([ProcessV3_sound], [AssignRuleV3_fair]), slashing is what the signatures say
      ([slashing_exact]), instructions survive printing ([instruction_roundtrip]), and it
      is known which texts panic their importer ([import_panics]); keys and addresses survive
      printing in base58 ([key_roundtrip]).
    - Consensus: with less than a third of the committee byzantine, two certified blocks of one
      height have one content ([beacon_agreement]); a node that counted enough votes builds a
      certificate that the chain accepts ([aggregated_certificate_accepted]); an honest proof of
      lock change convinces every node ([built_POLC_verifies]), and under the configuration of
      the networks it proves other blocks as well ([polc_transfers]).
    - Views: a final beacon view stays final ([beacon_final_stable]), a restart restores the tree
      ([restart_roundtrip]), replacing a block keeps the final view ([replace_keeps_final]); beacon
      and shard number slots alike ([shard_anchor_agrees]).

    Defects the model shows are theorems and examples too, at the end of the files they concern
    and in [Divergence], [BridgeDivergence], [RewardExample] and [BftDivergence].

    ** Fuel

    Few loops are not structural.  The loop over the orders of a pool ([poolLoop]) takes one
    iteration per matchable order and a last one: every order that is matched without
    exhausting the trade stops being matchable.  The handlers pass [bookFuel], one more than
    the length of the longest book, and [MaybeAcceptTrade_returns], [TrackFee_token_path] and
    [trade_conserves] prove that fuel never runs out.  The binary search of [InsertOrder]
    takes the length of the list; the walks over the tree of views take the number of its views; the searches for the start of a slot
    take the seconds they may have to cover.

    ** Parameters and hypotheses

    Code outside the repository and encodings are parameters, with what is used of them as laws:
    receiver addresses are strings whose shard is a parameter, as are the wallet address of the
    protocol fund and the hash functions that name NFTs and inscriptions; committee keys and their
    parser ([Keys]); the hashes and key derivations of the wallet and the capacities of slices
    ([WalletOps], [WalletLaws]); random numbers, hashes and the unstable order of [sort.Slice] in the assignment
    rules ([AssignLibraries]); the receipts and events of external networks ([EVM],
    [EVMAddress], [ConfirmHash], [TokenRegistry]); what a conversion of an out-of-range float
    gives ([OutOfRange]); the one-time keys and salary transactions of private coins
    ([OneTimeKeys], [SalaryTxs]).  Configurations are records or classes
    ([BridgeAggParam] with [GoodBridgeAggParam], [RewardConfig] with [saneBlockTime] and
    [saneRewards]).

    The theorems on blocks of the exchange assume of every request that its amounts fit 64 bits
    and are positive where required, identifiers parse and receivers are present;
    [validated_block] proves that validation guarantees it, for [careful] transactions.  Sums of
    a token are assumed to fit 64 bits where the code adds them unchecked, as the token's supply
    does.  [traceable] also assumes that a transaction is named once, that contributions name
    NFTs the exchange knows, and that a trade over several pools sells the native coin or pays
    its fee in it.  The bridge's theorems assume well-formed requests ([saneBlock]) and, but for
    [deposit_credited_once], requests that do not mix deposits and redeposits ([unmixed]).  The
    committee's assume that somebody validates ([populated]), committees of the sizes the rules
    are meant for ([swappable]) and the order in which blocks are produced ([orderly]).  The trees of views live on a well-formed heap that only grows
    ([wf_heap], [extends]).  The rewards' theorems assume percentages, amounts below what a
    float holds exactly and committees with members ([saneView], [payableEpoch]), and of
    withdrawals that a transaction occurs once ([pendingTxs]).

    Agreement is about runs in which signatures are not forged ([unforged], [bls_unforged]), the
    honest validators sign at most one content per slot ([one_per_slot]), a proof of lock change
    is one that was signed for its block and slot ([genuine]), the chain of a node agrees on
    committees and final views ([good_chain]), no proposal is for a slot to come, and no node
    restarts.  [BftDivergence] has runs of the committee of four where, with one byzantine
    member, two contents are certified once a node accepts two blocks of a slot or a proof that
    is not genuine, and a restart that forgets a lock.

    Every theorem with hypotheses is
    applied to a concrete state in its witness, and what happens outside them is shown by the
    examples of the divergence files.

    ** Not modelled

    JSON encodings and the statuses stored for users to query; response transactions and the
    cryptography behind them ([privacy], [transaction]); version 1 of the exchange and versions
    1 and 4 of the committee state; the differences of states that are written to the database,
    and so a restart of the exchange or of the bridge; the requests of other features that share
    a block with the bridge's; delegation rewards; the actors 1 and 2 of the consensus with the
    byzantine detector, and the consensus of the shards; the insertion of blocks that runs beside
    an actor; the count of missing signatures under the first committee state; the portals, the relaying light clients, pools of transactions, networking,
    synchronisation and remote procedure calls.  The next parts a continuation would take are the
    fourth version of the committee state and the second actor. *)
From Stdlib Require Export ZArith Lia.
From stdpp Require Export sorting.
From stdpp Require Export base gmap strings fin_maps option list.

#[global] Set Default Goal Selector "!".
#[global] Open Scope Z_scope.

(** ** Results of Go calls

    A Go function of the modelled code either returns normally, returns a non-nil
    [error], or panics (a division of a [big.Int] by zero, a nil dereference, an
    index out of range).  Loops whose recursion is not structural take fuel and
    report [OutOfFuel] when it runs out, so that exhaustion is never mistaken for
    a result. *)
Inductive outcome (A : Type) : Type :=
  | Ok (a : A)
  | Err (e : string)
  | Panic
  | OutOfFuel.
Arguments Ok {_} _.
Arguments Err {_} _.
Arguments Panic {_}.
Arguments OutOfFuel {_}.

#[export] Instance outcome_ret : MRet outcome := λ A a, Ok a.
#[export] Instance outcome_bind : MBind outcome := λ A B f m,
  match m with
  | Ok a => f a
  | Err e => Err e
  | Panic => Panic
  | OutOfFuel => OutOfFuel
  end.

Definition is_Ok {A} (m : outcome A) : Prop := ∃ a, m = Ok a.

(** The call neither panicked nor ran out of fuel: it returned, with or without
    an error. *)
Definition returns {A} (m : outcome A) : Prop :=
  match m with Ok _ | Err _ => True | _ => False end.

Lemma outcome_bind_Ok {A B} (m : outcome A) (f : A → outcome B) b :
  (m ≫= f) = Ok b ↔ ∃ a, m = Ok a ∧ f a = Ok b.
Proof. destruct m; cbn; naive_solver. Qed.

(** A loop whose body needs the result of the iteration before fails as soon as one fails. *)
Lemma foldl_strict {A S} (f : outcome S → A → outcome S) l acc s' :
  (∀ acc x s', f acc x = Ok s' → is_Ok acc) → foldl f acc l = Ok s' → is_Ok acc.
Proof.
  intros Hf. revert acc. induction l as [|x l IH]; intros acc H; [by eexists|].
  by destruct (IH _ H) as [s1 H1]; apply Hf in H1.
Qed.

Lemma outcome_bind_returns {A B} (m : outcome A) (f : A → outcome B) :
  returns m → (∀ a, m = Ok a → returns (f a)) → returns (m ≫= f).
Proof. destruct m; cbn; naive_solver. Qed.

(** ** Methods with a pointer receiver

    A method that mutates its receiver is a state transformer; the state it leaves
    behind is kept also when it returns an error, because Go does not undo the
    assignments made before the error. *)
Definition M (S A : Type) : Type := S → outcome A * S.

#[export] Instance M_ret {S} : MRet (M S) := λ A a s, (Ok a, s).
#[export] Instance M_bind {S} : MBind (M S) := λ A B f m s,
  match m s with
  | (Ok a, s') => f a s'
  | (Err e, s') => (Err e, s')
  | (Panic, s') => (Panic, s')
  | (OutOfFuel, s') => (OutOfFuel, s')
  end.

Definition getS {S} : M S S := λ s, (Ok s, s).
Definition modifyS {S} (f : S → S) : M S unit := λ s, (Ok tt, f s).
Definition fail {S A} (e : string) : M S A := λ s, (Err e, s).
Definition panic {S A} : M S A := λ s, (Panic, s).
Definition lift {S A} (m : outcome A) : M S A := λ s, (m, s).

(** Run a method on a part of a larger object (an embedded struct). *)
Definition zoom {S T A} (get : S → T) (put : T → S → S) (m : M T A) : M S A :=
  λ s, let '(r, t) := m (get s) in (r, put t s).

(** Run a method on an object that is dropped if the method fails. *)
Definition runM {S A} (m : M S A) (s : S) : outcome (A * S) :=
  match m s with
  | (Ok a, s') => Ok (a, s')
  | (Err e, _) => Err e
  | (Panic, _) => Panic
  | (OutOfFuel, _) => OutOfFuel
  end.

Lemma runM_Ok {S A} (m : M S A) s a s' : runM m s = Ok (a, s') ↔ m s = (Ok a, s').
Proof. unfold runM. destruct (m s) as [[]]; naive_solver. Qed.

Lemma runM_returns {S A} (m : M S A) s : returns (m s).1 → returns (runM m s).
Proof. unfold runM. by destruct (m s) as [[]]. Qed.

Lemma M_bind_Ok {S A B} (m : M S A) (f : A → M S B) s b s' :
  (m ≫= f) s = (Ok b, s') ↔ ∃ a s1, m s = (Ok a, s1) ∧ f a s1 = (Ok b, s').
Proof.
  unfold mbind, M_bind. destruct (m s) as [[a|e| |] s1]; naive_solver.
Qed.

Lemma getS_bind {S A} (k : S → M S A) s : (getS ≫= k) s = k s s.
Proof. done. Qed.

Lemma M_bind_returns {S A B} (m : M S A) (f : A → M S B) s :
  returns (m s).1 → (∀ a s', m s = (Ok a, s') → returns (f a s').1) → returns ((m ≫= f) s).1.
Proof. unfold mbind, M_bind. destruct (m s) as [[]]; cbn; naive_solver. Qed.

(** [inv_ok] turns every hypothesis [(x ← m; k) = Ok b], or its state-passing form, into the
    successful results of the calls in it; the guards of the path become equations. *)
Ltac inv_ok_step :=
  match goal with
  | H : (_ ≫= _) = Ok _ |- _ =>
      let a := fresh "a" in let Ha := fresh "Hcall" in
      apply outcome_bind_Ok in H as (a & Ha & H)
  | H : (_ ≫= _) _ = (Ok _, _) |- _ =>
      let a := fresh "a" in let s := fresh "s" in let Ha := fresh "Hcall" in
      apply M_bind_Ok in H as (a & s & Ha & H)
  | H : Ok _ = Ok _ |- _ => injection H; clear H; intros; subst
  | H : (Ok _, _) = (Ok _, _) |- _ => injection H; clear H; intros; subst
  | H : mret _ = Ok _ |- _ => unfold mret, outcome_ret in H
  | H : mret _ _ = (Ok _, _) |- _ => unfold mret, M_ret in H
  | H : fail _ _ = (Ok _, _) |- _ => discriminate H
  | H : panic _ = (Ok _, _) |- _ => discriminate H
  | H : Err _ = Ok _ |- _ => discriminate H
  | H : Panic = Ok _ |- _ => discriminate H
  | H : OutOfFuel = Ok _ |- _ => discriminate H
  | H : getS _ = (Ok _, _) |- _ => unfold getS in H
  | H : modifyS _ _ = (Ok _, _) |- _ => unfold modifyS in H
  | H : lift _ _ = (Ok _, _) |- _ => unfold lift in H
  | H : (?m, ?s) = (Ok _, _) |- _ =>
      let H1 := fresh "Hcall" in
      apply pair_eq in H as [H1 H]; subst
  | H : (if ?b then _ else _) = Ok _ |- _ => destruct b eqn:?
  | H : (if ?b then _ else _) _ = (Ok _, _) |- _ => destruct b eqn:?
  end.
Ltac inv_ok := repeat (inv_ok_step; cbv beta iota in *; try discriminate).

(** ** Machine integers and big integers

    A Go [uint64] (and [uint], on the 64-bit platforms the node runs on) is an
    integer kept below [2^64]; additions and subtractions wrap around. *)
Definition word64 : Z := 18446744073709551616.
Definition u64 (x : Z) : Z := x mod word64.
Definition add64 (x y : Z) : Z := u64 (x + y).
Definition sub64 (x y : Z) : Z := u64 (x - y).
Definition in_u64 (x : Z) : Prop := 0 ≤ x < word64.
Definition isU64 (x : Z) : bool := (0 <=? x) && (x <? word64).

(** [big.Int.Uint64]: the low 64 bits of the magnitude. *)
Definition bigUint64 (x : Z) : Z := u64 (Z.abs x).

(** [big.Int.Div] is Euclidean division and panics on a zero divisor;
    [big.Int.Sqrt] panics on a negative argument. *)
Definition bigDiv (x y : Z) : outcome Z :=
  if y =? 0 then Panic else Ok (if 0 <? y then x / y else - (x / - y)).
Definition bigSqrt (x : Z) : outcome Z :=
  if x <? 0 then Panic else Ok (Z.sqrt x).

Lemma word64_pos : 0 < word64. Proof. reflexivity. Qed.

Lemma in_u64_iff x : isU64 x = true ↔ in_u64 x.
Proof. unfold isU64, in_u64. lia. Qed.

Lemma u64_small x : in_u64 x → u64 x = x.
Proof. intros H. by apply Z.mod_small. Qed.

Lemma u64_bound x : in_u64 (u64 x).
Proof. apply Z.mod_pos_bound, word64_pos. Qed.

Lemma bigUint64_small x : in_u64 x → bigUint64 x = x.
Proof. intros H. unfold bigUint64. rewrite Z.abs_eq by apply H. by apply u64_small. Qed.

Lemma add64_wrap x y : in_u64 x → in_u64 y →
  add64 x y = x + y ∧ x + y < word64 ∨ add64 x y = x + y - word64 ∧ word64 ≤ x + y.
Proof.
  unfold in_u64, add64. intros Hx Hy.
  destruct (decide (x + y < word64)); [left|right]; (split; [|lia]).
  - rewrite u64_small; unfold in_u64; lia.
  - symmetry. apply (Z.mod_unique _ _ 1); lia.
Qed.

Lemma sub64_wrap x y : in_u64 x → in_u64 y →
  sub64 x y = x - y ∧ y ≤ x ∨ sub64 x y = x - y + word64 ∧ x < y.
Proof.
  unfold in_u64, sub64. intros Hx Hy.
  destruct (decide (y ≤ x)); [left|right]; (split; [|lia]).
  - rewrite u64_small; unfold in_u64; lia.
  - symmetry. apply (Z.mod_unique _ _ (-1)); lia.
Qed.

(** Go's overflow test on a sum. *)
Lemma add64_checked x y : in_u64 x → in_u64 y → (add64 x y <? x) = false →
  add64 x y = x + y ∧ in_u64 (x + y).
Proof.
  intros Hx Hy Hc. unfold in_u64 in *. destruct (add64_wrap x y) as [[-> ?]|[E ?]];
    unfold in_u64; try done; lia.
Qed.

Lemma sub64_exact x y : in_u64 x → 0 ≤ y ≤ x → sub64 x y = x - y.
Proof. intros. apply u64_small. unfold in_u64 in *. lia. Qed.

Lemma bigDiv_pos x y : 0 < y → bigDiv x y = Ok (x / y).
Proof. intros. unfold bigDiv. rewrite (proj2 (Z.eqb_neq y 0)) by lia. by rewrite (proj2 (Z.ltb_lt 0 y)). Qed.

Lemma bigSqrt_nonneg x : 0 ≤ x → bigSqrt x = Ok (Z.sqrt x).
Proof. intros. unfold bigSqrt. by rewrite (proj2 (Z.ltb_ge x 0)). Qed.

(** Floor division: the two inequalities the proofs use instead of [Z.div]. *)
Lemma div_spec a b : 0 < b → b * (a / b) ≤ a < b * (a / b) + b.
Proof. intros. pose proof (Z.mul_div_le a b). pose proof (Z.mul_succ_div_gt a b). lia. Qed.

Lemma div_nonneg a b : 0 ≤ a → 0 < b → 0 ≤ a / b.
Proof. intros. apply Z.div_pos; lia. Qed.

Lemma div_le_l a b c : 0 ≤ a → 0 < c → a ≤ b * c → a / c ≤ b.
Proof. intros. apply Z.div_le_upper_bound; lia. Qed.

Lemma sqrt_spec a : 0 ≤ a → 0 ≤ Z.sqrt a ∧ Z.sqrt a * Z.sqrt a ≤ a < (Z.sqrt a + 1) * (Z.sqrt a + 1).
Proof. intros Ha. pose proof (Z.sqrt_spec a Ha). pose proof (Z.sqrt_nonneg a). cbv zeta in *. nia. Qed.

Create HintDb go.
Create Rewrite HintDb go.
#[export] Hint Resolve u64_bound word64_pos div_nonneg : go.
#[export] Hint Rewrite bigDiv_pos bigSqrt_nonneg u64_small bigUint64_small using (unfold in_u64 in *; lia) : go.

(** ** Sums over Go maps

    The ledger invariants of the program are sums over a map: total shares, total
    stake, total rewards. *)
Section map_sum.
Context {K : Type} `{Countable K} {A : Type}.
Implicit Types (f : A → Z) (m : gmap K A).

Definition map_sum f m : Z := map_fold (λ _ a acc, f a + acc) 0 m.

Lemma map_sum_empty f : map_sum f ∅ = 0.
Proof. apply map_fold_empty. Qed.

Lemma map_sum_insert_new f m k a :
  m !! k = None → map_sum f (<[k:=a]> m) = f a + map_sum f m.
Proof. intros. unfold map_sum. by rewrite map_fold_insert_L; [|intros; lia|]. Qed.

Lemma map_sum_delete f m k :
  map_sum f (delete k m) = map_sum f m - from_option f 0 (m !! k).
Proof.
  destruct (m !! k) as [a|] eqn:E; cbn.
  - rewrite <- (insert_delete_id m k a E) at 2.
    rewrite map_sum_insert_new by apply lookup_delete_eq. lia.
  - rewrite delete_id by done. lia.
Qed.

Lemma map_sum_insert f m k a :
  map_sum f (<[k:=a]> m) = map_sum f m - from_option f 0 (m !! k) + f a.
Proof.
  rewrite <- (insert_delete_eq m k a).
  rewrite map_sum_insert_new by apply lookup_delete_eq.
  rewrite map_sum_delete. lia.
Qed.

Lemma map_sum_ext f g m :
  (∀ k a, m !! k = Some a → f a = g a) → map_sum f m = map_sum g m.
Proof.
  induction m as [|k a m Hk IH] using map_ind; intros Hfg; [by rewrite !map_sum_empty|].
  rewrite !map_sum_insert_new by done. rewrite (Hfg k a) by apply lookup_insert_eq.
  rewrite IH; [done|]. intros i b Hi. apply (Hfg i). rewrite lookup_insert_ne; [done|].
  intros ->. congruence.
Qed.

Lemma map_sum_le f g m :
  (∀ k a, m !! k = Some a → f a ≤ g a) → map_sum f m ≤ map_sum g m.
Proof.
  induction m as [|k a m Hk IH] using map_ind; intros Hfg; [by rewrite !map_sum_empty|].
  rewrite !map_sum_insert_new by done.
  pose proof (Hfg k a (lookup_insert_eq _ _ _)).
  enough (map_sum f m ≤ map_sum g m) by lia.
  apply IH. intros i b Hi. apply (Hfg i). rewrite lookup_insert_ne; [done|].
  intros ->. congruence.
Qed.

Lemma map_sum_zero m : map_sum (λ _, 0) m = 0.
Proof.
  induction m as [|k a m Hk IH] using map_ind; [apply map_sum_empty|].
  rewrite map_sum_insert_new by done. lia.
Qed.

Lemma map_sum_nonneg f m :
  (∀ k a, m !! k = Some a → 0 ≤ f a) → 0 ≤ map_sum f m.
Proof. intros Hf. rewrite <- (map_sum_zero m) at 1. by apply map_sum_le. Qed.

Lemma map_sum_elem_le f m k a :
  (∀ k a, m !! k = Some a → 0 ≤ f a) → m !! k = Some a → f a ≤ map_sum f m.
Proof.
  intros Hf Hk. pose proof (map_sum_delete f m k) as Hd. rewrite Hk in Hd. cbn in Hd.
  enough (0 ≤ map_sum f (delete k m)) by lia.
  apply map_sum_nonneg. intros i b [_ Hi]%lookup_delete_Some. eauto.
Qed.

Lemma map_sum_scale c f m : map_sum (λ a, c * f a) m = c * map_sum f m.
Proof.
  induction m as [|k a m Hk IH] using map_ind; [rewrite !map_sum_empty; lia|].
  rewrite !map_sum_insert_new by done. lia.
Qed.

Lemma map_sum_add f g m : map_sum (λ a, f a + g a) m = map_sum f m + map_sum g m.
Proof.
  induction m as [|k a m Hk IH] using map_ind; [by rewrite !map_sum_empty|].
  rewrite !map_sum_insert_new by done. lia.
Qed.
End map_sum.

Lemma map_sum_singleton {K} `{Countable K} {A} (f : A → Z) k a :
  map_sum f ({[k := a]} : gmap K A) = f a.
Proof. rewrite <- insert_empty, map_sum_insert_new by apply lookup_empty. rewrite map_sum_empty. lia. Qed.

Lemma map_sum_fmap {K} `{Countable K} {A B} (g : A → B) (f : B → Z) (m : gmap K A) :
  map_sum f (g <$> m) = map_sum (λ a, f (g a)) m.
Proof.
  induction m as [|k a m Hk IH] using map_ind.
  - by rewrite fmap_empty, !map_sum_empty.
  - rewrite fmap_insert, !map_sum_insert_new; [by rewrite IH|done|].
    by rewrite lookup_fmap, Hk.
Qed.

(** Sums over a list. *)
Definition list_sum {A} (f : A → Z) (l : list A) : Z := foldr (λ a acc, f a + acc) 0 l.

Arguments list_sum : simpl never.

Lemma list_sum_cons {A} (f : A → Z) a l : list_sum f (a :: l) = f a + list_sum f l.
Proof. done. Qed.

Lemma list_sum_app {A} (f : A → Z) l1 l2 : list_sum f (l1 ++ l2) = list_sum f l1 + list_sum f l2.
Proof. induction l1; [done|]. rewrite <- app_comm_cons, !list_sum_cons. lia. Qed.

Lemma list_sum_fmap {A B} (f : B → Z) (g : A → B) l :
  list_sum f (g <$> l) = list_sum (λ a, f (g a)) l.
Proof. induction l as [|a l IH]; [done|]. cbn [fmap list_fmap]. by rewrite !list_sum_cons, <- IH. Qed.

Lemma list_sum_insert {A} (f : A → Z) (l : list A) i x y :
  l !! i = Some x → list_sum f (<[i:=y]> l) = list_sum f l - f x + f y.
Proof.
  revert i. induction l as [|a l IH]; intros [|i] Hi; simpl in *; simplify_eq;
    rewrite !list_sum_cons; [lia|]. rewrite (IH i Hi). lia.
Qed.

Lemma list_sum_nonneg {A} (f : A → Z) l : Forall (λ a, 0 ≤ f a) l → 0 ≤ list_sum f l.
Proof. induction 1; [done|]. rewrite list_sum_cons. lia. Qed.

Lemma list_sum_Permutation {A} (f : A → Z) l1 l2 : l1 ≡ₚ l2 → list_sum f l1 = list_sum f l2.
Proof. induction 1; rewrite ?list_sum_cons; lia. Qed.

Lemma map_sum_list {K} `{Countable K} {A} (f : A → Z) (m : gmap K A) :
  map_sum f m = list_sum (λ ka, f ka.2) (map_to_list m).
Proof.
  unfold map_sum. rewrite map_fold_foldr.
  induction (map_to_list m) as [|[k a] l IH]; [done|]. rewrite list_sum_cons, <- IH. done.
Qed.

(** The keys of a map in increasing order: [sort.SliceStable] on the collected keys
    (the keys of a map are distinct, so stability plays no role). *)
Definition sortedKeys {A} (m : gmap string A) : list string :=
  merge_sort String.le (map_to_list m).*1.

Lemma sortedKeys_perm {A} (m : gmap string A) : sortedKeys m ≡ₚ (map_to_list m).*1.
Proof. apply merge_sort_Permutation. Qed.

Lemma elem_of_sortedKeys {A} (m : gmap string A) k : k ∈ sortedKeys m ↔ is_Some (m !! k).
Proof.
  rewrite (sortedKeys_perm m), list_elem_of_fmap. split.
  - intros ([k' a] & -> & Hin). apply elem_of_map_to_list in Hin. eauto.
  - intros [a Ha]. exists (k, a). by rewrite elem_of_map_to_list.
Qed.

Lemma NoDup_sortedKeys {A} (m : gmap string A) : NoDup (sortedKeys m).
Proof. rewrite (sortedKeys_perm m). apply NoDup_fst_map_to_list. Qed.

Lemma sortedKeys_Sorted {A} (m : gmap string A) : Sorted String.le (sortedKeys m).
Proof. apply Sorted_merge_sort. apply _. Qed.

Lemma map_sum_sortedKeys {A} (f : A → Z) (m : gmap string A) :
  map_sum f m = list_sum (λ k, from_option f 0 (m !! k)) (sortedKeys m).
Proof.
  rewrite (list_sum_Permutation _ _ _ (sortedKeys_perm m)), map_sum_list.
  assert (Hall : ∀ ka, ka ∈ map_to_list m → m !! ka.1 = Some ka.2).
  { intros [k a]. by rewrite elem_of_map_to_list. }
  induction (map_to_list m) as [|[k a] l IH]; [done|].
  rewrite fmap_cons, !list_sum_cons, (Hall (k, a)) by apply list_elem_of_here.
  cbn. f_equal. apply IH.
  intros ka Hka. apply Hall. by apply list_elem_of_further.
Qed.

Lemma StronglySorted_lookup_lt {A} (R : relation A) l i j x y :
  StronglySorted R l → l !! i = Some x → l !! j = Some y → (i < j)%nat → R x y.
Proof.
  intros Hs. revert i j. induction Hs as [|a l Hs IH Hall]; intros i j Hi Hj Hlt; [done|].
  destruct j as [|j]; [lia|]. destruct i as [|i]; cbn in *; [|apply (IH i j); (done || lia)].
  simplify_eq. by eapply Forall_lookup_1.
Qed.

(** *** Byte-wise comparison of strings *)
Lemma string_compare_Eq s1 s2 : String.compare s1 s2 = Eq ↔ s1 = s2.
Proof.
  split; [apply String.compare_eq_iff|]. intros ->.
  pose proof (String.compare_antisym s2 s2) as H. by destruct (String.compare s2 s2).
Qed.

Lemma string_compare_Lt s1 s2 : String.compare s1 s2 = Lt ↔ String.le s1 s2 ∧ s1 ≠ s2.
Proof.
  rewrite <- string_compare_Eq. unfold String.le, String.leb.
  destruct (String.compare s1 s2) eqn:E; naive_solver.
Qed.

Lemma string_compare_Lt_trans s1 s2 s3 :
  String.compare s1 s2 = Lt → String.compare s2 s3 = Lt → String.compare s1 s3 = Lt.
Proof.
  rewrite !string_compare_Lt. intros [H1 N1] [H2 N2]. split; [by etrans|].
  intros ->. by apply N1, (anti_symm String.le).
Qed.

Lemma string_compare_Gt s1 s2 : String.compare s1 s2 = Gt ↔ String.compare s2 s1 = Lt.
Proof. rewrite (String.compare_antisym s2 s1). destruct (String.compare s1 s2); cbn; naive_solver. Qed.
