(* ===== verification/Hash.v ===== *)
(** Hashes ([common/hash.go]): 32 raw bytes, printed as the hexadecimal string of the
    byte-reversed array.  Token, NFT and transaction identifiers are hashes; the maps of
    the exchange are keyed either by the raw hash or by its printed form, so the round
    trip between the two is what makes those keys interchangeable. *)
From S2P Require Import Prelude.
From Stdlib Require Import Ascii String.

Local Open Scope Z_scope.

(** A [Hash] is a Go [[32]byte]; its bytes are kept in a string. *)
Abbreviation Hash := string.

Definition HashSize : nat := 32.
Definition MaxHashStringSize : nat := HashSize * 2.

Definition wf_hash (h : Hash) : Prop := String.length h = HashSize.

(** *** [encoding/hex] *)
Definition hex_digit (n : nat) : ascii :=
  ascii_of_nat (if (n <? 10)%nat then 48 + n else 87 + n).

Definition hex_value (c : ascii) : option nat :=
  let n := nat_of_ascii c in
  if (48 <=? n)%nat && (n <=? 57)%nat then Some (n - 48)%nat
  else if (97 <=? n)%nat && (n <=? 102)%nat then Some (n - 87)%nat
  else if (65 <=? n)%nat && (n <=? 70)%nat then Some (n - 55)%nat
  else None.

Fixpoint hex_encode (bs : list ascii) : list ascii :=
  match bs with
  | [] => []
  | b :: bs =>
      hex_digit (nat_of_ascii b / 16) :: hex_digit (nat_of_ascii b mod 16) :: hex_encode bs
  end.

Fixpoint hex_decode (cs : list ascii) : option (list ascii) :=
  match cs with
  | [] => Some []
  | [_] => None
  | hi :: lo :: cs =>
      h ← hex_value hi; l ← hex_value lo; bs ← hex_decode cs;
      Some (ascii_of_nat (16 * h + l) :: bs)
  end.

(** *** [Hash.String], [Hash.Decode] and [Hash.NewHashFromStr] *)
Definition Hash_String (h : Hash) : string :=
  string_of_list_ascii (hex_encode (reverse (list_ascii_of_string h))).

Definition Hash_Decode (src : string) : outcome Hash :=
  let src := list_ascii_of_string src in
  if (MaxHashStringSize <? List.length src)%nat then Err "invalid max hash size"
  else
    let srcBytes := if (List.length src mod 2 =? 0)%nat then src else "0"%char :: src in
    match hex_decode srcBytes with
    | None => Err "encoding/hex: invalid byte"
    | Some bs =>
        let reversedHash := replicate (HashSize - List.length bs) "000"%char ++ bs in
        Ok (string_of_list_ascii (reverse reversedHash))
    end.

Definition NewHashFromStr (s : string) : outcome Hash := Hash_Decode s.

(** [Hash.SetBytes] on a hash: the array is replaced only by 32 bytes. *)
Definition Hash_SetBytes (newHash : list ascii) : M Hash unit :=
  if (List.length newHash =? HashSize)%nat
  then modifyS (λ _, string_of_list_ascii newHash)
  else fail "invalid hash size".

(** [Hash.Cmp]: byte-wise comparison of two non-nil hashes. *)
Fixpoint cmp_bytes (a b : list ascii) : Z :=
  match a, b with
  | x :: a, y :: b =>
      if (nat_of_ascii y <? nat_of_ascii x)%nat then 1
      else if (nat_of_ascii x <? nat_of_ascii y)%nat then -1
      else cmp_bytes a b
  | _, _ => 0
  end.

Definition Hash_Cmp (h target : Hash) : Z :=
  cmp_bytes (list_ascii_of_string h) (list_ascii_of_string target).

(** [common.PRVCoinID] is [Hash{4}] and [common.PRVIDStr] its printed form. *)
Definition PRVCoinID : Hash := string_of_list_ascii ("004"%char :: replicate 31 "000"%char).
Definition PRVIDStr : string := "0000000000000000000000000000000000000000000000000000000000000004".
Definition emptyHash : Hash := string_of_list_ascii (replicate 32 "000"%char).

(** A hash that is told by its last printed byte, for examples. *)
Definition named_hash (n : nat) : Hash := string_of_list_ascii (ascii_of_nat n :: replicate 31 "000"%char).

(** ** Round trip *)

Lemma hex_digits_byte b :
  hex_value (hex_digit (nat_of_ascii b / 16)) = Some (nat_of_ascii b / 16)%nat ∧
  hex_value (hex_digit (nat_of_ascii b mod 16)) = Some (nat_of_ascii b mod 16)%nat.
Proof. destruct b as [[] [] [] [] [] [] [] []]; split; reflexivity. Qed.

Lemma hex_decode_encode bs : hex_decode (hex_encode bs) = Some bs.
Proof.
  induction bs as [|b bs IH]; [done|].
  cbn [hex_encode hex_decode]. destruct (hex_digits_byte b) as [-> ->]. cbn [mbind option_bind].
  rewrite IH. cbn [mbind option_bind]. do 2 f_equal.
  rewrite <- (Nat.div_mod_eq (nat_of_ascii b) 16). apply ascii_nat_embedding.
Qed.

Lemma length_hex_encode bs : List.length (hex_encode bs) = (2 * List.length bs)%nat.
Proof. induction bs as [|b bs IH]; cbn; [done|]. rewrite IH. lia. Qed.

Lemma length_hex_decode n cs bs : (List.length cs ≤ n)%nat →
  hex_decode cs = Some bs → (2 * List.length bs = List.length cs)%nat.
Proof.
  revert cs bs. induction n as [|n IH]; intros [|hi [|lo cs]] bs Hn Hd;
    cbn in *; simplify_eq; try done; try lia.
  destruct (hex_value hi), (hex_value lo), (hex_decode cs) as [bs'|] eqn:E; cbn in *; simplify_eq.
  apply IH in E; cbn; lia.
Qed.

Lemma list_ascii_length s : List.length (list_ascii_of_string s) = String.length s.
Proof. induction s; cbn; congruence. Qed.

Lemma string_list_length l : String.length (string_of_list_ascii l) = List.length l.
Proof. induction l; cbn; congruence. Qed.

Lemma NewHashFromStr_String (h : Hash) : wf_hash h → NewHashFromStr (Hash_String h) = Ok h.
Proof.
  intros Hwf. unfold NewHashFromStr, Hash_Decode, Hash_String.
  set (bs := reverse (list_ascii_of_string h)).
  assert (Hlen : List.length bs = HashSize).
  { unfold bs. rewrite length_reverse, list_ascii_length. exact Hwf. }
  rewrite list_ascii_of_string_of_list_ascii, length_hex_encode, Hlen.
  change (MaxHashStringSize <? 2 * HashSize)%nat with false. cbn iota.
  change (2 * HashSize mod 2 =? 0)%nat with true. cbn iota.
  rewrite hex_decode_encode, Hlen. change (HashSize - HashSize)%nat with 0%nat. cbn [replicate app].
  unfold bs. rewrite reverse_involutive. by rewrite string_of_list_ascii_of_string.
Qed.

(** Parsing never yields anything but a 32-byte hash, whatever the input. *)
Lemma NewHashFromStr_wf s h : NewHashFromStr s = Ok h → wf_hash h.
Proof.
  unfold NewHashFromStr, Hash_Decode, wf_hash. intros H.
  destruct (_ <? _)%nat eqn:Hlen; [done|]. apply Nat.ltb_ge in Hlen.
  destruct (hex_decode _) as [bs|] eqn:Hd; [|done]. simplify_eq.
  apply (length_hex_decode _ _ _ (Nat.le_refl _)) in Hd.
  rewrite string_list_length, length_reverse, length_app, length_replicate.
  enough (List.length bs ≤ HashSize)%nat by lia.
  unfold MaxHashStringSize in Hlen. destruct (_ =? 0)%nat eqn:Hpar in Hd; [lia|].
  cbn in Hd. pose proof (Nat.div_mod_eq (List.length (list_ascii_of_string s)) 2).
  apply Nat.eqb_neq in Hpar. unfold HashSize in *. lia.
Qed.

(** Printing itself is injective, whatever the length. *)
#[export] Instance Hash_String_injective : Inj (=) (=) Hash_String.
Proof.
  intros h1 h2 E. apply (f_equal list_ascii_of_string) in E. unfold Hash_String in E.
  rewrite !list_ascii_of_string_of_list_ascii in E. apply (f_equal hex_decode) in E.
  rewrite !hex_decode_encode in E. injection E as E. apply (inj reverse) in E.
  apply (f_equal string_of_list_ascii) in E. by rewrite !string_of_list_ascii_of_string in E.
Qed.

Lemma Hash_String_inj h1 h2 : wf_hash h1 → wf_hash h2 → Hash_String h1 = Hash_String h2 → h1 = h2.
Proof.
  intros H1 H2 E.
  assert (He : Ok h1 = Ok h2).
  { rewrite <- (NewHashFromStr_String h1 H1), <- (NewHashFromStr_String h2 H2). by rewrite E. }
  by injection He.
Qed.

Example PRV_string : Hash_String PRVCoinID = PRVIDStr.
Proof. vm_compute. reflexivity. Qed.

(** Printing and parsing hashes are inverse: parsing the printed form of a 32-byte
    hash gives it back, so two distinct hashes never print alike, and whatever string is
    accepted (short ones are zero padded) the result is a 32-byte hash. *)
Theorem hash_roundtrip :
  (∀ h, wf_hash h → NewHashFromStr (Hash_String h) = Ok h) ∧
  (∀ h1 h2, wf_hash h1 → wf_hash h2 → Hash_String h1 = Hash_String h2 → h1 = h2) ∧
  (∀ s h, NewHashFromStr s = Ok h → wf_hash h).
Proof.
  split; [exact NewHashFromStr_String|]. split; [exact Hash_String_inj|exact NewHashFromStr_wf].
Qed.
