(* ===== verification/RawDB.v ===== *)
(** The stored records of the exchange ([dataaccessobject/rawdbv2/accessor_pdexv3.go]):
    contributions, pool pairs and orders, with the setters the code uses and the
    well-formedness the machine types give for free ([uint64] fields in range). *)
From S2P Require Import Prelude Hash.

Local Open Scope Z_scope.

(** [Pdexv3Contribution]: one half of an add-liquidity request. *)
Record Pdexv3Contribution := mkContribution {
  ct_poolPairID : string;
  ct_otaReceiver : string;
  ct_tokenID : Hash;
  ct_amount : Z;
  ct_amplifier : Z;
  ct_txReqID : Hash;
  ct_nftID : Hash;
  ct_shardID : Z }.

Definition ct_SetAmount (a : Z) (c : Pdexv3Contribution) : Pdexv3Contribution :=
  {| ct_poolPairID := ct_poolPairID c; ct_otaReceiver := ct_otaReceiver c;
     ct_tokenID := ct_tokenID c; ct_amount := a; ct_amplifier := ct_amplifier c;
     ct_txReqID := ct_txReqID c; ct_nftID := ct_nftID c; ct_shardID := ct_shardID c |}.

(** [Pdexv3PoolPair]: real reserves are [uint64], virtual reserves [*big.Int]. *)
Record Pdexv3PoolPair := mkPoolPair {
  pp_shareAmount : Z;
  pp_lmLockedShareAmount : Z;
  pp_token0ID : Hash;
  pp_token1ID : Hash;
  pp_token0RealAmount : Z;
  pp_token1RealAmount : Z;
  pp_token0VirtualAmount : Z;
  pp_token1VirtualAmount : Z;
  pp_amplifier : Z }.

Definition SetShareAmount (v : Z) (p : Pdexv3PoolPair) : Pdexv3PoolPair :=
  mkPoolPair v (pp_lmLockedShareAmount p) (pp_token0ID p) (pp_token1ID p)
    (pp_token0RealAmount p) (pp_token1RealAmount p)
    (pp_token0VirtualAmount p) (pp_token1VirtualAmount p) (pp_amplifier p).
Definition SetLmLockedShareAmount (v : Z) (p : Pdexv3PoolPair) : Pdexv3PoolPair :=
  mkPoolPair (pp_shareAmount p) v (pp_token0ID p) (pp_token1ID p)
    (pp_token0RealAmount p) (pp_token1RealAmount p)
    (pp_token0VirtualAmount p) (pp_token1VirtualAmount p) (pp_amplifier p).
Definition SetToken0RealAmount (v : Z) (p : Pdexv3PoolPair) : Pdexv3PoolPair :=
  mkPoolPair (pp_shareAmount p) (pp_lmLockedShareAmount p) (pp_token0ID p) (pp_token1ID p)
    v (pp_token1RealAmount p)
    (pp_token0VirtualAmount p) (pp_token1VirtualAmount p) (pp_amplifier p).
Definition SetToken1RealAmount (v : Z) (p : Pdexv3PoolPair) : Pdexv3PoolPair :=
  mkPoolPair (pp_shareAmount p) (pp_lmLockedShareAmount p) (pp_token0ID p) (pp_token1ID p)
    (pp_token0RealAmount p) v
    (pp_token0VirtualAmount p) (pp_token1VirtualAmount p) (pp_amplifier p).
Definition SetToken0VirtualAmount (v : Z) (p : Pdexv3PoolPair) : Pdexv3PoolPair :=
  mkPoolPair (pp_shareAmount p) (pp_lmLockedShareAmount p) (pp_token0ID p) (pp_token1ID p)
    (pp_token0RealAmount p) (pp_token1RealAmount p)
    v (pp_token1VirtualAmount p) (pp_amplifier p).
Definition SetToken1VirtualAmount (v : Z) (p : Pdexv3PoolPair) : Pdexv3PoolPair :=
  mkPoolPair (pp_shareAmount p) (pp_lmLockedShareAmount p) (pp_token0ID p) (pp_token1ID p)
    (pp_token0RealAmount p) (pp_token1RealAmount p)
    (pp_token0VirtualAmount p) v (pp_amplifier p).

(** [Pdexv3Order].  [tradeDirection] is a byte; [receiver] an array of two strings. *)
Record Pdexv3Order := mkOrder {
  ord_id : string;
  ord_nftID : Hash;
  ord_token0Rate : Z;
  ord_token1Rate : Z;
  ord_token0Balance : Z;
  ord_token1Balance : Z;
  ord_tradeDirection : Z;
  ord_receiver : string * string }.

Definition SetToken0Balance (b : Z) (o : Pdexv3Order) : Pdexv3Order :=
  mkOrder (ord_id o) (ord_nftID o) (ord_token0Rate o) (ord_token1Rate o)
    b (ord_token1Balance o) (ord_tradeDirection o) (ord_receiver o).
Definition SetToken1Balance (b : Z) (o : Pdexv3Order) : Pdexv3Order :=
  mkOrder (ord_id o) (ord_nftID o) (ord_token0Rate o) (ord_token1Rate o)
    (ord_token0Balance o) b (ord_tradeDirection o) (ord_receiver o).

#[export] Instance contribution_eq_dec : EqDecision Pdexv3Contribution.
Proof. solve_decision. Defined.
#[export] Instance poolPair_eq_dec : EqDecision Pdexv3PoolPair.
Proof. solve_decision. Defined.
#[export] Instance order_eq_dec : EqDecision Pdexv3Order.
Proof. solve_decision. Defined.

(** Everything but the balances of an order is fixed when it is placed. *)
Definition same_order (o o' : Pdexv3Order) : Prop :=
  ord_id o = ord_id o' ∧ ord_nftID o = ord_nftID o' ∧
  ord_token0Rate o = ord_token0Rate o' ∧ ord_token1Rate o = ord_token1Rate o' ∧
  ord_tradeDirection o = ord_tradeDirection o' ∧ ord_receiver o = ord_receiver o'.

#[export] Instance same_order_equivalence : Equivalence same_order.
Proof. split; unfold same_order; repeat intro; naive_solver congruence. Qed.

(** Field ranges given by the Go types, and the positive rates that [addOrder]
    metadata validation guarantees. *)
Record wf_order (o : Pdexv3Order) : Prop := {
  wo_rate0 : 0 < ord_token0Rate o < word64;
  wo_rate1 : 0 < ord_token1Rate o < word64;
  wo_bal0 : in_u64 (ord_token0Balance o);
  wo_bal1 : in_u64 (ord_token1Balance o) }.

(** A pool pair in the range of its types whose virtual reserves cover the real ones
    (the amplifier is at least [BaseAmplifier]). *)
Record wf_pair (p : Pdexv3PoolPair) : Prop := {
  wp_real0 : in_u64 (pp_token0RealAmount p);
  wp_real1 : in_u64 (pp_token1RealAmount p);
  wp_virt0 : pp_token0RealAmount p ≤ pp_token0VirtualAmount p;
  wp_virt1 : pp_token1RealAmount p ≤ pp_token1VirtualAmount p }.

(** The identity of a pool pair: what a trade must not touch. *)
Definition same_pair (p p' : Pdexv3PoolPair) : Prop :=
  pp_shareAmount p = pp_shareAmount p' ∧
  pp_lmLockedShareAmount p = pp_lmLockedShareAmount p' ∧
  pp_token0ID p = pp_token0ID p' ∧ pp_token1ID p = pp_token1ID p' ∧
  pp_amplifier p = pp_amplifier p'.

#[export] Instance same_pair_equivalence : Equivalence same_pair.
Proof. split; unfold same_pair; repeat intro; naive_solver congruence. Qed.

(** The product of the virtual reserves: the invariant of the constant-product pool. *)
Definition pool_k (p : Pdexv3PoolPair) : Z :=
  pp_token0VirtualAmount p * pp_token1VirtualAmount p.
