(* ===== verification/Swap.v ===== *)
(** Constant-product arithmetic ([blockchain/pdex/v2utils/swap.go]): quoting an output
    for an input on virtual reserves, and the inverse quote. *)
From S2P Require Import Prelude.

Local Open Scope Z_scope.

Definition quote (amount0 reserve0 reserve1 : Z) : outcome Z :=
  if amount0 <=? 0 then Err "Insufficient amount"
  else if (reserve0 <=? 0) || (reserve1 <=? 0) then Err "Insufficient liquidity"
  else
    result ← bigDiv (amount0 * reserve1) reserve0;
    if negb (isU64 result) then Err "Number out of range uint64"
    else Ok (bigUint64 result).

Definition calculateBuyAmount
    (amountIn reserveIn reserveOut virtualReserveIn virtualReserveOut : Z) : outcome Z :=
  if amountIn <=? 0 then Err "Insufficient input amount"
  else if (reserveIn <=? 0) || (reserveOut <=? 0) then Err "Insufficient liquidity"
  else
    result ← bigDiv (amountIn * virtualReserveOut) (amountIn + virtualReserveIn);
    if negb (isU64 result) then Err "Number out of range uint64"
    else Ok (bigUint64 result).

Definition calculateAmountToSell
    (amountOut reserveIn reserveOut virtualReserveIn virtualReserveOut : Z) : outcome Z :=
  if amountOut <=? 0 then Err "Insufficient input amount"
  else if (reserveIn <=? 0) || (reserveOut <=? 0) then Err "Insufficient liquidity"
  else
    result ← bigDiv (virtualReserveIn * amountOut) (virtualReserveOut - amountOut);
    let result := result + 1 in
    if negb (isU64 result) then Err "Number out of range uint64"
    else Ok (bigUint64 result).

(** ** What a successful quote says *)

Lemma quote_ok a r0 r1 out :
  quote a r0 r1 = Ok out → 0 < a ∧ 0 < r0 ∧ 0 < r1 ∧ out = a * r1 / r0 ∧ in_u64 out.
Proof.
  unfold quote. intros H. inv_ok. apply negb_false_iff, in_u64_iff in Heqb1.
  rewrite bigDiv_pos in Hcall by lia. inv_ok. rewrite bigUint64_small by done. split_and!; (done || lia).
Qed.

Lemma calculateBuyAmount_ok a rIn rOut vIn vOut out : 0 < vIn →
  calculateBuyAmount a rIn rOut vIn vOut = Ok out →
  0 < a ∧ 0 < rIn ∧ 0 < rOut ∧ out = a * vOut / (a + vIn) ∧ in_u64 out.
Proof.
  unfold calculateBuyAmount. intros Hv H. inv_ok. apply negb_false_iff, in_u64_iff in Heqb1.
  rewrite bigDiv_pos in Hcall by lia. inv_ok. rewrite bigUint64_small by done. split_and!; (done || lia).
Qed.

Lemma calculateBuyAmount_returns a rIn rOut vIn vOut :
  0 < vIn → returns (calculateBuyAmount a rIn rOut vIn vOut).
Proof.
  intros Hv. unfold calculateBuyAmount. destruct (a <=? 0) eqn:?; [done|].
  destruct (_ || _); [done|]. rewrite bigDiv_pos by lia. cbn. by destruct (negb _).
Qed.

Lemma calculateAmountToSell_ok o rIn rOut vIn vOut s : o < vOut →
  calculateAmountToSell o rIn rOut vIn vOut = Ok s →
  0 < o ∧ 0 < rIn ∧ 0 < rOut ∧ s = vIn * o / (vOut - o) + 1 ∧ in_u64 s.
Proof.
  unfold calculateAmountToSell. intros Hv H. inv_ok. apply negb_false_iff, in_u64_iff in Heqb1.
  rewrite bigDiv_pos in Hcall by lia. inv_ok. rewrite bigUint64_small by done. split_and!; (done || lia).
Qed.

(** The pool never pays out its whole virtual reserve, and the product of the virtual
    reserves does not decrease. *)
Lemma buy_product a vIn vOut : 0 < a → 0 < vIn → 0 < vOut →
  let out := a * vOut / (a + vIn) in
  0 ≤ out < vOut ∧ vIn * vOut ≤ (vIn + a) * (vOut - out).
Proof.
  intros Ha Hi Ho out. pose proof (div_spec (a * vOut) (a + vIn)) as Hd.
  assert (0 ≤ out) by (apply div_nonneg; nia). fold out in Hd. nia.
Qed.

(** A successful quote on a pool with positive virtual reserves follows the
    constant-product rule.  The output is the largest integer that keeps the product of
    the virtual reserves from decreasing, so rounding never favours the trader, and it is
    strictly below the virtual reserve, which therefore stays positive. *)
Theorem calculateBuyAmount_constant_product a rIn rOut vIn vOut out
    (HvIn : 0 < vIn) (HvOut : 0 < vOut)
    (Hq : calculateBuyAmount a rIn rOut vIn vOut = Ok out) :
  0 ≤ out < vOut ∧
  vIn * vOut ≤ (vIn + a) * (vOut - out) ∧
  (∀ out', out < out' → (vIn + a) * (vOut - out') < vIn * vOut).
Proof.
  apply calculateBuyAmount_ok in Hq as (Ha & _ & _ & -> & _); [|done].
  destruct (buy_product a vIn vOut) as [Hb Hk]; [done..|].
  do 2 (split; [done|]). intros out' Hlt.
  pose proof (div_spec (a * vOut) (a + vIn)). nia.
Qed.

Lemma calculateBuyAmount_constant_product_witness :
  calculateBuyAmount 1000 50000 80000 100000 160000 = Ok 1584 ∧
  100000 * 160000 ≤ (100000 + 1000) * (160000 - 1584).
Proof.
  split; [reflexivity|].
  apply (calculateBuyAmount_constant_product 1000 50000 80000 100000 160000 1584);
    [lia|lia|reflexivity].
Defined.

(** The inverse quote is sufficient and tight: selling the quoted amount buys at
    least the requested output, and no amount smaller than the quote by more than one
    unit would do. *)
Theorem calculateAmountToSell_sufficient o rIn rOut vIn vOut s
    (HvIn : 0 < vIn) (Ho : o < vOut)
    (Hq : calculateAmountToSell o rIn rOut vIn vOut = Ok s) :
  o ≤ s * vOut / (s + vIn) ∧
  (∀ s', 0 ≤ s' → s' < s - 1 → s' * vOut / (s' + vIn) < o).
Proof.
  apply calculateAmountToSell_ok in Hq as (Ho' & _ & _ & -> & _); [|done].
  set (d := vIn * o / (vOut - o)).
  pose proof (div_spec (vIn * o) (vOut - o)) as Hd. fold d in Hd.
  assert (0 ≤ d) by (apply div_nonneg; nia).
  split.
  - apply Z.div_le_lower_bound; nia.
  - intros s' Hs Hlt. apply Z.div_lt_upper_bound; nia.
Qed.

Lemma calculateAmountToSell_sufficient_witness :
  calculateAmountToSell 1584 50000 80000 100000 160000 = Ok 1000 ∧
  1584 ≤ 1000 * 160000 / (1000 + 100000).
Proof.
  split; [reflexivity|].
  apply (calculateAmountToSell_sufficient 1584 50000 80000 100000 160000 1000);
    [lia|lia|reflexivity].
Defined.

(** Larger inputs never buy less. *)
Lemma calculateBuyAmount_mono a a' rIn rOut vIn vOut out out' :
  0 < vIn → 0 < vOut → a ≤ a' →
  calculateBuyAmount a rIn rOut vIn vOut = Ok out →
  calculateBuyAmount a' rIn rOut vIn vOut = Ok out' → out ≤ out'.
Proof.
  intros Hi Ho Hle H H'.
  apply calculateBuyAmount_ok in H as (Ha & _ & _ & -> & _); [|done].
  apply calculateBuyAmount_ok in H' as (Ha' & _ & _ & -> & _); [|done].
  apply Z.div_le_lower_bound; [lia|].
  pose proof (div_spec (a * vOut) (a + vIn)).
  destruct (buy_product a vIn vOut) as [Hb _]; [done..|]. nia.
Qed.
