(* ===== verification/Order.v ===== *)
(** Limit orders seen by an incoming trade ([blockchain/pdex/v2utils/order.go]): the
    theoretical output by the order's rate, the inverse, and [Match], which swaps the
    order's balance with the token the trade sells. *)
From S2P Require Import Prelude RawDB.

Local Open Scope Z_scope.

Definition TradeDirectionSell0 : Z := 0.
Definition TradeDirectionSell1 : Z := 1.

(** *** [BuyAmountFromOrder] *)
Definition BuyAmountFromOrder (order : Pdexv3Order)
    (incomingTradeSellAmount incomingTradeDirection : Z) : outcome Z :=
  if ord_tradeDirection order =? incomingTradeDirection
  then Err "Cannot match order with trade of same direction"
  else
    rates ← (if incomingTradeDirection =? TradeDirectionSell0
             then Ok (ord_token0Rate order, ord_token1Rate order)
             else if incomingTradeDirection =? TradeDirectionSell1
             then Ok (ord_token1Rate order, ord_token0Rate order)
             else Err "Invalid trade direction");
    let '(sellRate, buyRate) := rates in
    result ← bigDiv (incomingTradeSellAmount * buyRate) sellRate;
    if negb (isU64 result) then Err "Buy-from-order amount out of uint64 range"
    else Ok (bigUint64 result).

(** *** [SellAmountToOrder] *)
Definition SellAmountToOrder (order : Pdexv3Order)
    (incomingTradeBuyAmount incomingTradeDirection : Z) : outcome Z :=
  if ord_tradeDirection order =? incomingTradeDirection
  then Err "Cannot match order with trade of same direction"
  else
    rates ← (if incomingTradeDirection =? TradeDirectionSell0
             then Ok (ord_token0Rate order, ord_token1Rate order, ord_token1Balance order)
             else if incomingTradeDirection =? TradeDirectionSell1
             then Ok (ord_token1Rate order, ord_token0Rate order, ord_token0Balance order)
             else Err "Invalid trade direction");
    let '(sellRate, buyRate, maxBuyingAmount) := rates in
    if maxBuyingAmount <? incomingTradeBuyAmount then Err "Insufficient order balance for swap"
    else
      result ← bigDiv (incomingTradeBuyAmount * sellRate) buyRate;
      if negb (isU64 result) then Err "Sell-to-order amount out of uint64 range"
      else Ok (bigUint64 result).

(** *** [ApplyBalanceChanges]: the two balances are set one after the other, so a failure
    on token1 leaves the new token0 balance in place. *)
Definition invalidSigns (change0 change1 : Z) : bool :=
  (0 <=? Z.sgn change0 * Z.sgn change1) &&
  negb ((Z.sgn change0 =? 0) && (Z.sgn change1 =? 0)).

Definition ApplyBalanceChanges (change0 change1 : Z) : M Pdexv3Order unit :=
  if invalidSigns change0 change1 then fail "Invalid signs for order changes"
  else
    order ← getS;
    let temp := ord_token0Balance order + change0 in
    if temp <? 0 then fail "Not enough token0 balance in order for trade"
    else if negb (isU64 temp) then fail "Cannot set token0 balance out of uint64 range"
    else
      modifyS (SetToken0Balance (bigUint64 temp)) ;;
      order ← getS;
      let temp := ord_token1Balance order + change1 in
      if temp <? 0 then fail "Not enough token1 balance in order for trade"
      else if negb (isU64 temp) then fail "Cannot set token1 balance out of uint64 range"
      else modifyS (SetToken1Balance (bigUint64 temp)).

(** *** [Match] returns (buyAmount, sellAmountRemain, token0Change, token1Change). *)
Definition matchChanges (tradeDirection finalSellAmount buyAmount : Z) : Z * Z :=
  if tradeDirection =? TradeDirectionSell0
  then (finalSellAmount, - buyAmount)
  else (- buyAmount, finalSellAmount).

Definition Match (maxSellAmountAfterFee tradeDirection : Z) : M Pdexv3Order (Z * Z * Z * Z) :=
  order ← getS;
  buyAmount ← lift (BuyAmountFromOrder order maxSellAmountAfterFee tradeDirection);
  let maxBuyingAmount :=
    if tradeDirection =? TradeDirectionSell0 then ord_token1Balance order
    else ord_token0Balance order in
  amounts ←
    (if maxBuyingAmount <? buyAmount then
       finalSellAmount ← lift (SellAmountToOrder order maxBuyingAmount tradeDirection);
       if finalSellAmount <? maxSellAmountAfterFee
       then mret (maxBuyingAmount, finalSellAmount, sub64 maxSellAmountAfterFee finalSellAmount)
       else fail "Final sell amount exceeds maximum"
     else mret (buyAmount, maxSellAmountAfterFee, 0));
  let '(buyAmount, finalSellAmount, sellAmountRemain) := amounts in
  let '(token0Change, token1Change) := matchChanges tradeDirection finalSellAmount buyAmount in
  ApplyBalanceChanges token0Change token1Change ;;
  mret (buyAmount, sellAmountRemain, token0Change, token1Change).

(** *** [CanMatch] *)
Definition CanMatch (order : Pdexv3Order) (incomingTradeDirection : Z) : outcome bool :=
  if ord_tradeDirection order =? incomingTradeDirection then Ok false
  else
    let amountBuyAllFromOrder :=
      if incomingTradeDirection =? TradeDirectionSell0 then ord_token1Balance order
      else if incomingTradeDirection =? TradeDirectionSell1 then ord_token0Balance order
      else 0 in
    sellAmountToOrder ← SellAmountToOrder order amountBuyAllFromOrder incomingTradeDirection;
    Ok (1 <=? sellAmountToOrder).

(** ** The order from the incoming trade's side *)
Definition dir_ok (d : Z) : Prop := d = TradeDirectionSell0 ∨ d = TradeDirectionSell1.
Definition sellRate (d : Z) (o : Pdexv3Order) : Z :=
  if d =? 0 then ord_token0Rate o else ord_token1Rate o.
Definition buyRate (d : Z) (o : Pdexv3Order) : Z :=
  if d =? 0 then ord_token1Rate o else ord_token0Rate o.
Definition buyBalance (d : Z) (o : Pdexv3Order) : Z :=
  if d =? 0 then ord_token1Balance o else ord_token0Balance o.
Definition sellBalance (d : Z) (o : Pdexv3Order) : Z :=
  if d =? 0 then ord_token0Balance o else ord_token1Balance o.

Ltac by_direction d :=
  match goal with H : dir_ok d |- _ => destruct H as [-> | ->] end;
  unfold TradeDirectionSell0, TradeDirectionSell1 in *;
  cbn [sellRate buyRate buyBalance sellBalance Z.eqb Pos.eqb] in *.

Lemma wf_order_dir d o : wf_order o →
  0 < sellRate d o < word64 ∧ 0 < buyRate d o < word64 ∧
  in_u64 (buyBalance d o) ∧ in_u64 (sellBalance d o).
Proof. intros []. unfold sellRate, buyRate, buyBalance, sellBalance. by destruct (d =? 0). Qed.

Lemma BuyAmountFromOrder_eq o a d : dir_ok d → wf_order o → ord_tradeDirection o ≠ d →
  BuyAmountFromOrder o a d =
    let r := a * buyRate d o / sellRate d o in
    if isU64 r then Ok r else Err "Buy-from-order amount out of uint64 range".
Proof.
  intros Hd Hwf Hne. unfold BuyAmountFromOrder. rewrite (proj2 (Z.eqb_neq _ _)) by done.
  destruct (wf_order_dir d o Hwf) as ((Hs & _) & (Hb & _) & _).
  by_direction d; cbn [mbind outcome_bind]; rewrite bigDiv_pos by done; cbn [mbind outcome_bind];
    destruct (isU64 _) eqn:E; cbn [negb]; [|done| |done];
    rewrite bigUint64_small by (by apply in_u64_iff); done.
Qed.

Lemma SellAmountToOrder_eq o b d : dir_ok d → wf_order o → ord_tradeDirection o ≠ d →
  SellAmountToOrder o b d =
    if buyBalance d o <? b then Err "Insufficient order balance for swap"
    else let r := b * sellRate d o / buyRate d o in
         if isU64 r then Ok r else Err "Sell-to-order amount out of uint64 range".
Proof.
  intros Hd Hwf Hne. unfold SellAmountToOrder. rewrite (proj2 (Z.eqb_neq _ _)) by done.
  destruct (wf_order_dir d o Hwf) as ((Hs & _) & (Hb & _) & _).
  by_direction d; cbn [mbind outcome_bind]; destruct (_ <? b); try done;
    rewrite bigDiv_pos by done; cbn [mbind outcome_bind];
    destruct (isU64 _) eqn:E; cbn [negb]; try done;
    rewrite bigUint64_small by (by apply in_u64_iff); done.
Qed.

(** [CanMatch] answers whether selling the order's whole balance is worth at least one
    unit at its rate. *)
Lemma CanMatch_true o d : dir_ok d → wf_order o → CanMatch o d = Ok true →
  ord_tradeDirection o ≠ d ∧ buyRate d o ≤ buyBalance d o * sellRate d o.
Proof.
  intros Hd Hwf. unfold CanMatch. destruct (_ =? d) eqn:E; [done|].
  assert (Hne : ord_tradeDirection o ≠ d) by lia. intros H. split; [done|].
  assert (Hamt : (if d =? TradeDirectionSell0 then ord_token1Balance o
     else if d =? TradeDirectionSell1 then ord_token0Balance o else 0) = buyBalance d o)
    by (by_direction d; reflexivity).
  rewrite Hamt, SellAmountToOrder_eq in H by done. cbv zeta in H.
  rewrite Z.ltb_irrefl in H. inv_ok.
  destruct (wf_order_dir d o Hwf) as ((Hs & _) & (Hb & _) & _).
  pose proof (div_spec (buyBalance d o * sellRate d o) (buyRate d o) Hb). nia.
Qed.

(** An order whose sold-token balance is exhausted cannot be matched again. *)
Lemma CanMatch_drained o d : dir_ok d → wf_order o → buyBalance d o = 0 → CanMatch o d = Ok false.
Proof.
  intros Hd Hwf H0. unfold CanMatch. destruct (_ =? d) eqn:E; [done|].
  assert (Hne : ord_tradeDirection o ≠ d) by lia.
  assert (Hamt : (if d =? TradeDirectionSell0 then ord_token1Balance o
     else if d =? TradeDirectionSell1 then ord_token0Balance o else 0) = buyBalance d o)
    by (by_direction d; reflexivity).
  rewrite Hamt, SellAmountToOrder_eq, Z.ltb_irrefl, H0 by done.
  rewrite Z.mul_0_l, Z.div_0_l; [done|]. destruct (wf_order_dir d o Hwf) as (_ & ? & _). lia.
Qed.

(** ** Balance changes *)
Lemma invalidSigns_false c0 c1 :
  invalidSigns c0 c1 = false ↔ (c0 = 0 ∧ c1 = 0) ∨ c0 * c1 < 0.
Proof.
  unfold invalidSigns. destruct (Z.sgn_spec c0) as [[? ->]|[[? ->]|[? ->]]];
    destruct (Z.sgn_spec c1) as [[? ->]|[[? ->]|[? ->]]]; cbn; split; intros; try done; nia.
Qed.

Lemma ApplyBalanceChanges_ok c0 c1 o u o' :
  ApplyBalanceChanges c0 c1 o = (Ok u, o') →
  ((c0 = 0 ∧ c1 = 0) ∨ c0 * c1 < 0) ∧
  in_u64 (ord_token0Balance o + c0) ∧ in_u64 (ord_token1Balance o + c1) ∧
  o' = SetToken1Balance (ord_token1Balance o + c1)
         (SetToken0Balance (ord_token0Balance o + c0) o).
Proof.
  unfold ApplyBalanceChanges. intros H. inv_ok.
  apply invalidSigns_false in Heqb.
  repeat match goal with
  | E : negb (isU64 _) = false |- _ => apply negb_false_iff, in_u64_iff in E
  end.
  cbn in *. rewrite !bigUint64_small by done. by split_and!.
Qed.

(** ** A successful match *)
Record matched (d sell : Z) (o : Pdexv3Order) (buy remain c0 c1 : Z) (o' : Pdexv3Order) : Prop := {
  mt_dir : ord_tradeDirection o ≠ d;
  mt_used : 0 ≤ sell - remain ≤ sell;
  mt_remain : 0 ≤ remain;
  mt_buy : 0 ≤ buy ≤ buyBalance d o;
  mt_changes : (c0, c1) = matchChanges d (sell - remain) buy;
  mt_same : same_order o o';
  mt_buyBal : buyBalance d o' = buyBalance d o - buy;
  mt_sellBal : sellBalance d o' = sellBalance d o + (sell - remain);
  mt_wf : wf_order o';
  mt_full : remain = 0 → buy = sell * buyRate d o / sellRate d o;
  mt_drain : 0 < remain → buy = buyBalance d o ∧
             sell - remain = buy * sellRate d o / buyRate d o }.

(** The branch in which the order cannot serve the whole trade: the amount charged is
    strictly smaller than what the trade offers. *)
Lemma drain_lt sell bal sr br : 0 < sr → 0 < br → bal < sell * br / sr → bal * sr / br < sell.
Proof.
  intros Hs Hb Hlt. apply Z.div_lt_upper_bound; [done|].
  pose proof (div_spec (sell * br) sr Hs). nia.
Qed.

Lemma matchChanges_apply d o fs b c0 c1 u o' : dir_ok d → wf_order o →
  matchChanges d fs b = (c0, c1) → ApplyBalanceChanges c0 c1 o = (Ok u, o') →
  same_order o o' ∧ wf_order o' ∧
  buyBalance d o' = buyBalance d o - b ∧ sellBalance d o' = sellBalance d o + fs.
Proof.
  intros Hd Hwf Hc H. destruct Hwf. by_direction d; cbn in Hc; simplify_eq;
    apply ApplyBalanceChanges_ok in H as (_ & H0 & H1 & ->);
    (split; [by repeat split|split; [by split|]]); cbn; lia.
Qed.

Lemma Match_matched d sell o buy remain c0 c1 o' :
  dir_ok d → wf_order o → in_u64 sell →
  Match sell d o = (Ok (buy, remain, c0, c1), o') →
  matched d sell o buy remain c0 c1 o'.
Proof.
  intros Hd Hwf Hsell H. unfold Match in H.
  apply M_bind_Ok in H as (? & ? & [= <- <-] & H).
  apply M_bind_Ok in H as (q & ? & [Hq <-]%pair_eq & H).
  assert (Hne : ord_tradeDirection o ≠ d).
  { intros E. unfold BuyAmountFromOrder in Hq. by rewrite E, Z.eqb_refl in Hq. }
  rewrite BuyAmountFromOrder_eq in Hq by done. cbv zeta in Hq.
  destruct (isU64 _) eqn:Hu in Hq; [|done]. apply in_u64_iff in Hu. injection Hq as <-.
  destruct (wf_order_dir d o Hwf) as ((Hs & _) & (Hb & _) & Hbb & Hsb).
  assert (Hmax : (if d =? TradeDirectionSell0 then ord_token1Balance o else ord_token0Balance o)
                 = buyBalance d o) by (by_direction d; done).
  rewrite Hmax in H. apply M_bind_Ok in H as ([[b fs] rem] & o1 & Hbr & H).
  destruct (buyBalance d o <? sell * buyRate d o / sellRate d o) eqn:Hcmp.
  - apply M_bind_Ok in Hbr as (f & ? & [Hf <-]%pair_eq & Hbr).
    rewrite SellAmountToOrder_eq, Z.ltb_irrefl in Hf by done. cbv zeta in Hf.
    destruct (isU64 _) eqn:Hu' in Hf; [|done]. apply in_u64_iff in Hu'. injection Hf as <-.
    assert (Hlt : buyBalance d o * sellRate d o / buyRate d o < sell)
      by (apply drain_lt; [done..|lia]).
    rewrite (proj2 (Z.ltb_lt _ _) Hlt) in Hbr. injection Hbr as <- <- <- <-.
    unfold in_u64 in *. rewrite sub64_exact in * by (unfold in_u64; lia).
    destruct (matchChanges d _ _) as [x0 x1] eqn:Hmc in H.
    apply M_bind_Ok in H as (u & o2 & Hcall & [= <- <- <- <- <-]).
    destruct (matchChanges_apply _ _ _ _ _ _ _ _ Hd Hwf Hmc Hcall) as (Hso & Hwo & Hbo & Hss).
    split; try done; try lia.
    + rewrite <- Hmc. f_equal. lia.
  - injection Hbr as <- <- <- <-. destruct (matchChanges d _ _) as [x0 x1] eqn:Hmc in H.
    apply M_bind_Ok in H as (u & o2 & Hcall & [= <- <- <- <- <-]).
    destruct (matchChanges_apply _ _ _ _ _ _ _ _ Hd Hwf Hmc Hcall) as (Hso & Hwo & Hbo & Hss).
    assert (0 ≤ sell * buyRate d o / sellRate d o) by (apply Hu).
    unfold in_u64 in *. split; try done; try lia; rewrite ?Z.sub_0_r in *; try done; try lia.
Qed.

(** The changes of a successful match have opposite signs, or are both zero. *)
Lemma Match_signs d sell o buy remain c0 c1 o' :
  Match sell d o = (Ok (buy, remain, c0, c1), o') → (c0 = 0 ∧ c1 = 0) ∨ c0 * c1 < 0.
Proof.
  intros H. unfold Match in H. apply M_bind_Ok in H as (o0 & s0 & _ & H).
  apply M_bind_Ok in H as (q & s1 & _ & H). apply M_bind_Ok in H as ([[b fs] rem] & o1 & _ & H).
  destruct (matchChanges d fs b) as [y0 y1].
  apply M_bind_Ok in H as (u & o2 & Hcall & [= <- <- <- <- <-]).
  by apply ApplyBalanceChanges_ok in Hcall as [? _].
Qed.

Lemma ApplyBalanceChanges_total c0 c1 o :
  c0 * c1 < 0 → in_u64 (ord_token0Balance o + c0) → in_u64 (ord_token1Balance o + c1) →
  ∃ o', ApplyBalanceChanges c0 c1 o = (Ok tt, o').
Proof.
  intros Hs H0 H1. unfold ApplyBalanceChanges.
  rewrite (proj2 (invalidSigns_false c0 c1)) by lia. unfold getS, mbind, M_bind.
  rewrite (proj2 (Z.ltb_ge _ 0)) by apply H0. rewrite (proj2 (in_u64_iff _) H0). cbn.
  rewrite (proj2 (Z.ltb_ge _ 0)) by apply H1. rewrite (proj2 (in_u64_iff _) H1). cbn. eauto.
Qed.

Lemma matchChanges_total d o fs b : dir_ok d → wf_order o → 0 < fs → 0 < b ≤ buyBalance d o →
  sellBalance d o + fs < word64 →
  ∃ o', (ApplyBalanceChanges (matchChanges d fs b).1 (matchChanges d fs b).2) o = (Ok tt, o').
Proof.
  intros Hd [] Hfs Hb Hs. unfold in_u64 in *. by_direction d; cbn in *;
    apply ApplyBalanceChanges_total; unfold in_u64; nia.
Qed.

(** A match moves tokens between trade and order at the order's rate.  What the trade
    gives up is what the order receives and conversely, the order is charged at most its
    balance, and the price the order maker gets is its own rate up to less than one unit
    of the token it buys (rounding in the draining branch is down). *)
Theorem Match_fair d sell o buy remain c0 c1 o'
    (Hd : dir_ok d) (Hwf : wf_order o) (Hsell : in_u64 sell)
    (Hm : Match sell d o = (Ok (buy, remain, c0, c1), o')) :
  same_order o o' ∧ wf_order o' ∧
  0 ≤ remain ≤ sell ∧ 0 ≤ buy ≤ buyBalance d o ∧
  buyBalance d o' = buyBalance d o - buy ∧
  sellBalance d o' = sellBalance d o + (sell - remain) ∧
  buy * sellRate d o < (sell - remain + 1) * buyRate d o.
Proof.
  destruct (Match_matched _ _ _ _ _ _ _ _ Hd Hwf Hsell Hm).
  split_and!; try done; try lia.
  destruct (wf_order_dir d o Hwf) as ((Hs & _) & (Hb & _) & _).
  destruct (decide (remain = 0)) as [->|Hr].
  - pose proof (div_spec (sell * buyRate d o) (sellRate d o) Hs).
    rewrite (mt_full0 eq_refl), Z.sub_0_r. nia.
  - destruct mt_drain0 as [-> ->]; [lia|].
    pose proof (div_spec (buyBalance d o * sellRate d o) (buyRate d o) Hb). nia.
Qed.

Definition sample_order : Pdexv3Order :=
  mkOrder "o1" "" 1000 2500 0 2500 TradeDirectionSell1 ("", "").

Lemma Match_fair_witness :
  Match 400 TradeDirectionSell0 sample_order =
    (Ok (1000, 0, 400, -1000), SetToken1Balance 1500 (SetToken0Balance 400 sample_order)) ∧
  1000 * 1000 < (400 - 0 + 1) * 2500.
Proof.
  split; [reflexivity|].
  apply (Match_fair TradeDirectionSell0 400 sample_order 1000 0 400 (-1000)
    (SetToken1Balance 1500 (SetToken0Balance 400 sample_order)));
    [by left|split; unfold in_u64, word64; cbn; lia|unfold in_u64, word64; lia|reflexivity].
Defined.

(** Matching an order that [NextOrder] may return ([CanMatch] holds) always succeeds
    for a trade worth at least one unit at the order's rate, as long as the amounts fit
    in 64 bits: in particular the "final sell amount exceeds maximum" error is
    unreachable. *)
Theorem Match_succeeds d sell o
    (Hd : dir_ok d) (Hwf : wf_order o) (Hcan : CanMatch o d = Ok true)
    (Hsell : in_u64 sell)
    (Hworth : sellRate d o ≤ sell * buyRate d o)
    (Hfit : sell * buyRate d o / sellRate d o < word64)
    (Hbal : sellBalance d o + sell < word64) :
  ∃ r o', Match sell d o = (Ok r, o').
Proof.
  destruct (CanMatch_true o d Hd Hwf Hcan) as [Hne Hone].
  destruct (wf_order_dir d o Hwf) as ((Hs & _) & (Hb & _) & Hbb & _).
  assert (Hq1 : 1 ≤ sell * buyRate d o / sellRate d o) by (apply Z.div_le_lower_bound; lia).
  assert (Hmax : (if d =? TradeDirectionSell0 then ord_token1Balance o else ord_token0Balance o)
                 = buyBalance d o) by (by_direction d; done).
  unfold Match, getS, lift, mbind, M_bind.
  rewrite BuyAmountFromOrder_eq by done. cbv zeta.
  rewrite (proj2 (in_u64_iff _)) by (unfold in_u64; lia). rewrite Hmax.
  destruct (buyBalance d o <? _) eqn:Hcmp.
  - assert (Hlt : buyBalance d o * sellRate d o / buyRate d o < sell)
      by (apply drain_lt; [done..|lia]).
    assert (H1 : 1 ≤ buyBalance d o * sellRate d o / buyRate d o)
      by (apply Z.div_le_lower_bound; lia).
    rewrite SellAmountToOrder_eq, Z.ltb_irrefl by done. cbv zeta.
    rewrite (proj2 (in_u64_iff _)) by (unfold in_u64 in *; lia).
    rewrite (proj2 (Z.ltb_lt _ _) Hlt). unfold mret, M_ret.
    destruct (matchChanges_total d o (buyBalance d o * sellRate d o / buyRate d o)
      (buyBalance d o)) as [o' Ho']; [done|done|lia|unfold in_u64 in *; nia|lia|].
    destruct (matchChanges d _ _); cbn in Ho'; rewrite Ho'; eauto.
  - unfold mret, M_ret.
    destruct (matchChanges_total d o sell (sell * buyRate d o / sellRate d o))
      as [o' Ho']; [done|done|nia|lia|lia|].
    destruct (matchChanges d _ _); cbn in Ho'; rewrite Ho'; eauto.
Qed.

Lemma Match_succeeds_witness :
  CanMatch sample_order TradeDirectionSell0 = Ok true ∧
  ∃ r o', Match 5000 TradeDirectionSell0 sample_order = (Ok r, o').
Proof.
  split; [reflexivity|].
  apply (Match_succeeds TradeDirectionSell0 5000 sample_order);
    [by left|split; unfold in_u64, word64; cbn; lia|reflexivity|unfold in_u64, word64; lia
    |cbn; lia|vm_compute; reflexivity|vm_compute; reflexivity].
Defined.
