(* ===== verification/Reserve.v ===== *)
(** Trading against the reserves of one pool
    ([blockchain/pdex/v2utils/reserve.go], [TradingPair]): quoting by direction, applying
    reserve changes, and the partial swap that stops at a limit order's rate. *)
From S2P Require Import Prelude RawDB Swap Order.

Local Open Scope Z_scope.

(** A [TradingPair] wraps a [Pdexv3PoolPair]. *)
Definition BuyAmount (tp : Pdexv3PoolPair) (sellAmount tradeDirection : Z) : outcome Z :=
  if tradeDirection =? TradeDirectionSell0
  then calculateBuyAmount sellAmount (pp_token0RealAmount tp) (pp_token1RealAmount tp)
         (pp_token0VirtualAmount tp) (pp_token1VirtualAmount tp)
  else calculateBuyAmount sellAmount (pp_token1RealAmount tp) (pp_token0RealAmount tp)
         (pp_token1VirtualAmount tp) (pp_token0VirtualAmount tp).

Definition AmountToSell (tp : Pdexv3PoolPair) (buyAmount tradeDirection : Z) : outcome Z :=
  if tradeDirection =? TradeDirectionSell0
  then calculateAmountToSell buyAmount (pp_token0RealAmount tp) (pp_token1RealAmount tp)
         (pp_token0VirtualAmount tp) (pp_token1VirtualAmount tp)
  else calculateAmountToSell buyAmount (pp_token1RealAmount tp) (pp_token0RealAmount tp)
         (pp_token1VirtualAmount tp) (pp_token0VirtualAmount tp).

Definition HasInsufficientLiquidity (poolPair : Pdexv3PoolPair) : bool :=
  (pp_token0RealAmount poolPair <=? 0) || (pp_token1RealAmount poolPair <=? 0).

(** *** [ApplyReserveChanges]: token0 is updated before token1 is checked. *)
Definition ApplyReserveChanges (change0 change1 : Z) : M Pdexv3PoolPair unit :=
  if invalidSigns change0 change1 then fail "Invalid signs for reserve changes"
  else
    tp ← getS;
    let temp := pp_token0RealAmount tp + change0 in
    if temp <? 0 then fail "Not enough token0 liquidity for trade"
    else if negb (isU64 temp) then fail "Cannot set real token0 reserve out of uint64 range"
    else
      modifyS (SetToken0RealAmount (bigUint64 temp)) ;;
      tp ← getS;
      modifyS (SetToken0VirtualAmount (pp_token0VirtualAmount tp + change0)) ;;
      tp ← getS;
      let temp := pp_token1RealAmount tp + change1 in
      if temp <? 0 then fail "Not enough token1 liquidity for trade"
      else if negb (isU64 temp) then fail "Cannot set real token1 reserve out of uint64 range"
      else
        modifyS (SetToken1RealAmount (bigUint64 temp)) ;;
        tp ← getS;
        modifyS (SetToken1VirtualAmount (pp_token1VirtualAmount tp + change1)).

(** *** [SwapToReachOrderRate] *)

(** How much could be sold before the price of the pool reaches the order's rate
    ([nil] when there is no order).  A direction other than 0 or 1 leaves the reserves
    [xV], [yV] nil, and multiplying them panics. *)
Definition targetDeltaX (tp : Pdexv3PoolPair) (tradeDirection : Z) (ord : option Pdexv3Order)
    : outcome (option Z) :=
  match ord with
  | None => Ok None
  | Some ord =>
      if tradeDirection =? ord_tradeDirection ord
      then Err "Cannot match trade with order of same direction"
      else
        let '(xOrd, yOrd) :=
          if tradeDirection =? TradeDirectionSell0
          then (ord_token0Rate ord, ord_token1Rate ord)
          else (ord_token1Rate ord, ord_token0Rate ord) in
        v ← (if tradeDirection =? TradeDirectionSell0
             then Ok (pp_token0VirtualAmount tp, pp_token1VirtualAmount tp)
             else if tradeDirection =? TradeDirectionSell1
             then Ok (pp_token1VirtualAmount tp, pp_token0VirtualAmount tp)
             else Panic);
        let '(xV, yV) := v in
        let L := xV * yV in
        t ← bigDiv (L * xOrd) yOrd;
        t ← bigSqrt t;
        Ok (Some (t - xV))
  end.

(** The amounts to swap: [None] is the early exit that leaves the pool alone. *)
Definition swapAmounts (tp : Pdexv3PoolPair) (maxSellAmountAfterFee tradeDirection : Z)
    (target : option Z) : outcome (option (Z * Z * Z)) :=
  match target with
  | Some t =>
      if maxSellAmountAfterFee <=? t then
        buyAmount ← BuyAmount tp maxSellAmountAfterFee tradeDirection;
        Ok (Some (maxSellAmountAfterFee, 0, buyAmount))
      else if t <=? 0 then Ok None
      else
        let finalSellAmount := bigUint64 t in
        let sellAmountRemain := bigUint64 (maxSellAmountAfterFee - t) in
        buyAmount ← BuyAmount tp finalSellAmount tradeDirection;
        if buyAmount =? 0 then Ok None
        else Ok (Some (finalSellAmount, sellAmountRemain, buyAmount))
  | None =>
      buyAmount ← BuyAmount tp maxSellAmountAfterFee tradeDirection;
      Ok (Some (maxSellAmountAfterFee, 0, buyAmount))
  end.

Definition SwapToReachOrderRate (maxSellAmountAfterFee tradeDirection : Z)
    (ord : option Pdexv3Order) : M Pdexv3PoolPair (Z * Z * Z * Z) :=
  tp ← getS;
  if HasInsufficientLiquidity tp then fail "No liquidity in pool for swap"
  else
    target ← lift (targetDeltaX tp tradeDirection ord);
    plan ← lift (swapAmounts tp maxSellAmountAfterFee tradeDirection target);
    match plan with
    | None => mret (0, maxSellAmountAfterFee, 0, 0)
    | Some (finalSellAmount, sellAmountRemain, buyAmount) =>
        let '(token0Change, token1Change) :=
          matchChanges tradeDirection finalSellAmount buyAmount in
        ApplyReserveChanges token0Change token1Change ;;
        mret (buyAmount, sellAmountRemain, token0Change, token1Change)
    end.

(** *** [MatchPoolAmount]: an order matched at the pool's price instead of its own. *)
Definition MatchPoolAmount (maxSellAmountAfterFee tradeDirection : Z) (pr : Pdexv3PoolPair)
    : M Pdexv3Order (Z * Z * Z * Z) :=
  order ← getS;
  buyAmount ← lift (BuyAmount pr maxSellAmountAfterFee tradeDirection);
  let maxBuyingAmount :=
    if tradeDirection =? TradeDirectionSell0 then ord_token1Balance order
    else ord_token0Balance order in
  amounts ←
    (if maxBuyingAmount <? buyAmount then
       finalSellAmount ← lift (AmountToSell pr maxBuyingAmount tradeDirection);
       if finalSellAmount <? maxSellAmountAfterFee
       then mret (maxBuyingAmount, finalSellAmount, sub64 maxSellAmountAfterFee finalSellAmount)
       else fail "Final sell amount exceeds maximum"
     else mret (buyAmount, maxSellAmountAfterFee, 0));
  let '(buyAmount, finalSellAmount, sellAmountRemain) := amounts in
  let '(token0Change, token1Change) := matchChanges tradeDirection finalSellAmount buyAmount in
  ApplyBalanceChanges token0Change token1Change ;;
  mret (buyAmount, sellAmountRemain, token0Change, token1Change).

(** ** The pool from the trade's side *)
Definition vSell (d : Z) (p : Pdexv3PoolPair) : Z :=
  if d =? 0 then pp_token0VirtualAmount p else pp_token1VirtualAmount p.
Definition vBuy (d : Z) (p : Pdexv3PoolPair) : Z :=
  if d =? 0 then pp_token1VirtualAmount p else pp_token0VirtualAmount p.
Definition rSell (d : Z) (p : Pdexv3PoolPair) : Z :=
  if d =? 0 then pp_token0RealAmount p else pp_token1RealAmount p.
Definition rBuy (d : Z) (p : Pdexv3PoolPair) : Z :=
  if d =? 0 then pp_token1RealAmount p else pp_token0RealAmount p.

Ltac by_dir d :=
  match goal with H : dir_ok d |- _ => destruct H as [-> | ->] end;
  unfold TradeDirectionSell0, TradeDirectionSell1 in *;
  cbn [sellRate buyRate buyBalance sellBalance vSell vBuy rSell rBuy Z.eqb Pos.eqb] in *.

Lemma pool_k_dir d p : pool_k p = vSell d p * vBuy d p.
Proof. unfold pool_k, vSell, vBuy. destruct (d =? 0); lia. Qed.

Lemma BuyAmount_eq tp a d : BuyAmount tp a d =
  calculateBuyAmount a (rSell d tp) (rBuy d tp) (vSell d tp) (vBuy d tp).
Proof. unfold BuyAmount, rSell, rBuy, vSell, vBuy, TradeDirectionSell0. by destruct (d =? 0). Qed.

Lemma wf_pair_dir d p : wf_pair p →
  in_u64 (rSell d p) ∧ in_u64 (rBuy d p) ∧ rSell d p ≤ vSell d p ∧ rBuy d p ≤ vBuy d p.
Proof. intros []. unfold rSell, rBuy, vSell, vBuy. by destruct (d =? 0). Qed.

Lemma HasInsufficientLiquidity_false p :
  HasInsufficientLiquidity p = false ↔ 0 < pp_token0RealAmount p ∧ 0 < pp_token1RealAmount p.
Proof. unfold HasInsufficientLiquidity. lia. Qed.

Lemma ApplyReserveChanges_ok c0 c1 p u p' :
  ApplyReserveChanges c0 c1 p = (Ok u, p') →
  ((c0 = 0 ∧ c1 = 0) ∨ c0 * c1 < 0) ∧
  in_u64 (pp_token0RealAmount p + c0) ∧ in_u64 (pp_token1RealAmount p + c1) ∧
  p' = mkPoolPair (pp_shareAmount p) (pp_lmLockedShareAmount p) (pp_token0ID p) (pp_token1ID p)
         (pp_token0RealAmount p + c0) (pp_token1RealAmount p + c1)
         (pp_token0VirtualAmount p + c0) (pp_token1VirtualAmount p + c1) (pp_amplifier p).
Proof.
  unfold ApplyReserveChanges. intros H. inv_ok.
  apply invalidSigns_false in Heqb.
  repeat match goal with
  | E : negb (isU64 _) = false |- _ => apply negb_false_iff, in_u64_iff in E
  end.
  cbn in *. rewrite !bigUint64_small by done. by split_and!.
Qed.

(** Real and virtual reserves move together and the pool stays well formed. *)
Lemma reserve_changes d p fs b c0 c1 u p' : dir_ok d → wf_pair p →
  matchChanges d fs b = (c0, c1) → ApplyReserveChanges c0 c1 p = (Ok u, p') →
  same_pair p p' ∧ wf_pair p' ∧
  rSell d p' = rSell d p + fs ∧ rBuy d p' = rBuy d p - b ∧
  vSell d p' = vSell d p + fs ∧ vBuy d p' = vBuy d p - b.
Proof.
  intros Hd Hwf Hc H. destruct Hwf. by_dir d; cbn in Hc; simplify_eq;
    apply ApplyReserveChanges_ok in H as (_ & H0 & H1 & ->);
    (split; [by repeat split|split; [split; cbn; (done || lia)|]]); cbn; lia.
Qed.

(** ** The partial swap *)
Record swapped (d sell : Z) (p : Pdexv3PoolPair) (buy remain c0 c1 : Z) (p' : Pdexv3PoolPair)
    : Prop := {
  sw_used : 0 ≤ sell - remain ≤ sell;
  sw_remain : 0 ≤ remain;
  sw_buy : 0 ≤ buy ≤ rBuy d p;
  sw_changes : (c0, c1) = matchChanges d (sell - remain) buy;
  sw_same : same_pair p p';
  sw_wf : wf_pair p';
  sw_rSell : rSell d p' = rSell d p + (sell - remain);
  sw_rBuy : rBuy d p' = rBuy d p - buy;
  sw_vSell : vSell d p' = vSell d p + (sell - remain);
  sw_vBuy : vBuy d p' = vBuy d p - buy;
  sw_k : pool_k p ≤ pool_k p';
  sw_out : sell - remain ≠ 0 →
           buy = (sell - remain) * vBuy d p / (sell - remain + vSell d p) ∧ 0 < buy;
  sw_idle : sell - remain = 0 → buy = 0 }.

Lemma targetDeltaX_ok d p o : dir_ok d → wf_pair p → wf_order o →
  0 < vSell d p → 0 < vBuy d p → ord_tradeDirection o ≠ d →
  targetDeltaX p d (Some o) =
    Ok (Some (Z.sqrt (vSell d p * vBuy d p * sellRate d o / buyRate d o) - vSell d p)).
Proof.
  intros Hd Hwf Ho Hvs Hvb Hne. unfold targetDeltaX.
  rewrite (proj2 (Z.eqb_neq _ _)) by congruence.
  destruct (wf_order_dir d o Ho) as ((Hs & _) & (Hb & _) & _).
  by_dir d; cbn [mbind outcome_bind]; rewrite bigDiv_pos by done; cbn [mbind outcome_bind];
    (rewrite bigSqrt_nonneg; [done|]); apply Z.div_pos; try done; apply Z.mul_nonneg_nonneg; nia.
Qed.

(** What the plan sells never crosses the target, and the quote is positive whenever
    something is sold towards an order. *)
Lemma swapAmounts_ok d p sell target fs rem b :
  in_u64 sell → 0 < vSell d p →
  swapAmounts p sell d target = Ok (Some (fs, rem, b)) →
  rem = sell - fs ∧ 0 < fs ≤ sell ∧ b = fs * vBuy d p / (fs + vSell d p) ∧ in_u64 b ∧
  match target with Some t => fs ≤ t | None => fs = sell end.
Proof.
  intros Hsell Hv H. unfold swapAmounts in H. destruct target as [t|].
  - destruct (sell <=? t) eqn:Hst; [|destruct (t <=? 0) eqn:Ht; [done|]].
    + inv_ok. rewrite BuyAmount_eq in Hcall.
      apply calculateBuyAmount_ok in Hcall as (?&_&_&?&?); [|done]. split_and!; (done || lia).
    + assert (Htu : in_u64 t) by (unfold in_u64 in *; lia).
      rewrite !bigUint64_small in H by (unfold in_u64 in *; lia). inv_ok.
      rewrite BuyAmount_eq in Hcall.
      apply calculateBuyAmount_ok in Hcall as (?&_&_&?&?); [|done]. split_and!; (done || lia).
  - inv_ok. rewrite BuyAmount_eq in Hcall.
    apply calculateBuyAmount_ok in Hcall as (?&_&_&?&?); [|done]. split_and!; (done || lia).
Qed.

Lemma swapAmounts_idle d p sell target :
  swapAmounts p sell d target = Ok None → is_Some target.
Proof. destruct target; [done|]. cbn. intros H. inv_ok. Qed.

Lemma swap_no_change d sell p : dir_ok d → in_u64 sell → wf_pair p →
  swapped d sell p 0 sell 0 0 p.
Proof.
  intros Hd Hs Hwf. destruct (wf_pair_dir d p Hwf) as (Hr1 & Hr2 & _).
  unfold in_u64 in *. rewrite <- (Z.sub_diag sell) at 1.
  split; rewrite ?Z.sub_diag; try done; try lia.
  by by_dir d.
Qed.

Lemma SwapToReachOrderRate_swapped d sell ord p buy remain c0 c1 p' :
  dir_ok d → wf_pair p → in_u64 sell →
  SwapToReachOrderRate sell d ord p = (Ok (buy, remain, c0, c1), p') →
  swapped d sell p buy remain c0 c1 p'.
Proof.
  intros Hd Hwf Hsell H. unfold SwapToReachOrderRate in H.
  apply M_bind_Ok in H as (? & ? & [= <- <-] & H).
  destruct (HasInsufficientLiquidity p) eqn:Hliq; [done|].
  apply HasInsufficientLiquidity_false in Hliq as [Hr0 Hr1].
  apply M_bind_Ok in H as (target & ? & [Ht <-]%pair_eq & H).
  apply M_bind_Ok in H as (plan & ? & [Hp <-]%pair_eq & H).
  destruct (wf_pair_dir d p Hwf) as (Hu1 & Hu2 & Hv1 & Hv2).
  assert (0 < vSell d p ∧ 0 < vBuy d p) as [Hvs Hvb] by (by_dir d; lia).
  destruct plan as [[[fs rem] b]|].
  - apply swapAmounts_ok in Hp as (-> & Hfs & Hb & Hbu & _); [|done..].
    destruct (matchChanges d fs b) as [x0 x1] eqn:Hmc.
    apply M_bind_Ok in H as (u & p2 & Hcall & [= <- <- <- <- <-]).
    destruct (reserve_changes _ _ _ _ _ _ _ _ Hd Hwf Hmc Hcall)
      as (Hsame & Hwf' & E1 & E2 & E3 & E4).
    apply ApplyReserveChanges_ok in Hcall as (Hsg & _ & _ & _).
    assert (Hbpos : 0 < b).
    { unfold in_u64 in Hbu. by_dir d; cbn in Hmc; simplify_eq; nia. }
    destruct (wf_pair_dir d p2 Hwf') as (Hu1' & Hu2' & _).
    assert (Hfs' : sell - (sell - fs) = fs) by lia. unfold in_u64 in *.
    split; rewrite ?Hfs'; try done; try lia.
    rewrite !(pool_k_dir d), E3, E4, Hb.
    destruct (buy_product fs (vSell d p) (vBuy d p)) as [_ Hk]; [lia|done|done|].
    cbv zeta in Hk. lia.
  - injection H as <- <- <- <- <-. by apply swap_no_change.
Qed.

(** Without an order in sight everything is sold to the pool. *)
Lemma swap_none_remain d sell p buy remain c0 c1 p' :
  SwapToReachOrderRate sell d None p = (Ok (buy, remain, c0, c1), p') → remain = 0.
Proof.
  unfold SwapToReachOrderRate. intros H. apply M_bind_Ok in H as (? & ? & [= <- <-] & H).
  destruct (HasInsufficientLiquidity p); [done|].
  apply M_bind_Ok in H as (target & ? & [[= <-] <-]%pair_eq & H).
  apply M_bind_Ok in H as (plan & ? & [Hp <-]%pair_eq & H). cbn in Hp. inv_ok.
  destruct (matchChanges _ _ _). by inv_ok.
Qed.

(** The arithmetic of stopping at a rate: if [x'] squared is at most [L * xOrd / yOrd] and
    the product did not fall below [L], the price [y' / x'] is still at least
    [yOrd / xOrd]. *)
Lemma price_bound x' y' L xOrd yOrd :
  0 < x' → L ≤ x' * y' → 0 < xOrd → 0 < yOrd → x' * x' * yOrd ≤ L * xOrd →
  x' * yOrd ≤ y' * xOrd.
Proof. intros Hx HL Hxo Hyo Hsq. apply (Z.mul_le_mono_pos_l _ _ x'); nia. Qed.

(** A partial swap towards a limit order never pushes the pool past the order's rate
    (so the order, not the pool, serves what is left), and it keeps the pool well formed:
    real reserves are [uint64] and covered by the virtual ones, real and virtual reserves
    move by the same amounts, the constant product does not decrease, the sold amount is
    split exactly between pool and remainder. *)
Theorem SwapToReachOrderRate_safe d sell o p buy remain c0 c1 p'
    (Hd : dir_ok d) (Hwf : wf_pair p) (Ho : wf_order o) (Hsell : in_u64 sell)
    (Hs : SwapToReachOrderRate sell d (Some o) p = (Ok (buy, remain, c0, c1), p')) :
  swapped d sell p buy remain c0 c1 p' ∧
  (remain < sell → vSell d p' * buyRate d o ≤ vBuy d p' * sellRate d o).
Proof.
  assert (Hsw := SwapToReachOrderRate_swapped _ _ _ _ _ _ _ _ _ Hd Hwf Hsell Hs).
  split; [done|]. intros Hlt. destruct Hsw.
  unfold SwapToReachOrderRate in Hs.
  apply M_bind_Ok in Hs as (? & ? & [= <- <-] & Hs).
  destruct (HasInsufficientLiquidity p) eqn:Hliq; [done|].
  apply HasInsufficientLiquidity_false in Hliq as [Hr0 Hr1].
  destruct (wf_pair_dir d p Hwf) as (Hu1 & Hu2 & Hv1 & Hv2).
  assert (0 < vSell d p ∧ 0 < vBuy d p) as [Hvs Hvb] by (by_dir d; lia).
  apply M_bind_Ok in Hs as (target & ? & [Ht <-]%pair_eq & Hs).
  destruct (decide (ord_tradeDirection o = d)) as [E|Hne].
  { cbn in Ht. by rewrite E, Z.eqb_refl in Ht. }
  rewrite targetDeltaX_ok in Ht by done. injection Ht as <-.
  apply M_bind_Ok in Hs as (plan & ? & [Hp <-]%pair_eq & Hs).
  destruct plan as [[[fs rem] b]|]; [|injection Hs as <- <- <- <- <-; lia].
  apply swapAmounts_ok in Hp as (-> & Hfs & Hb & Hbu & Htgt); [|done..].
  destruct (matchChanges d fs b) as [x0 x1].
  apply M_bind_Ok in Hs as (u & p2 & _ & [= <- <- <- <- <-]).
  destruct (wf_order_dir d o Ho) as ((Hs' & _) & (Hb' & _) & _).
  set (L := vSell d p * vBuy d p) in *.
  assert (0 ≤ L * sellRate d o / buyRate d o) as Hq by (apply div_nonneg; nia).
  pose proof (sqrt_spec _ Hq) as (_ & Hsq & _).
  pose proof (div_spec (L * sellRate d o) (buyRate d o) Hb') as [Hdv _].
  assert (Hx : 0 < vSell d p2 ≤ Z.sqrt (L * sellRate d o / buyRate d o)) by lia.
  rewrite !(pool_k_dir d) in sw_k0.
  apply (price_bound (vSell d p2) (vBuy d p2) L); [lia|done|done|done|].
  transitivity (L * sellRate d o / buyRate d o * buyRate d o); [|lia].
  apply Z.mul_le_mono_nonneg_r; [lia|]. nia.
Qed.

Definition sample_pool : Pdexv3PoolPair :=
  mkPoolPair 100000 0 "A" "B" 50000 120000 100000 240000 20000.

Lemma SwapToReachOrderRate_safe_witness :
  SwapToReachOrderRate 5000 TradeDirectionSell0
    (Some (mkOrder "o1" "" 1000 2300 0 2300 TradeDirectionSell1 ("", ""))) sample_pool =
    (Ok (5051, 2850, 2150, -5051),
     mkPoolPair 100000 0 "A" "B" 52150 114949 102150 234949 20000) ∧
  102150 * 2300 ≤ 234949 * 1000.
Proof.
  split; [vm_compute; reflexivity|].
  apply (SwapToReachOrderRate_safe TradeDirectionSell0 5000
    (mkOrder "o1" "" 1000 2300 0 2300 TradeDirectionSell1 ("", "")) sample_pool
    5051 2850 2150 (-5051) (mkPoolPair 100000 0 "A" "B" 52150 114949 102150 234949 20000));
    [by left|split; unfold in_u64, word64; cbn; lia|split; unfold in_u64, word64; cbn; lia
    |unfold in_u64, word64; lia|vm_compute; reflexivity|lia].
Defined.

(** ** Absence of panics *)
Lemma ApplyReserveChanges_returns c0 c1 p : returns (ApplyReserveChanges c0 c1 p).1.
Proof.
  unfold ApplyReserveChanges, getS, modifyS, mbind, M_bind. cbv beta iota zeta.
  repeat (case_match; try done; simplify_eq).
Qed.

Lemma ApplyBalanceChanges_returns c0 c1 o : returns (ApplyBalanceChanges c0 c1 o).1.
Proof.
  unfold ApplyBalanceChanges, getS, modifyS, mbind, M_bind. cbv beta iota zeta.
  repeat (case_match; try done; simplify_eq).
Qed.

Lemma BuyAmount_returns tp a d : 0 < vSell d tp → returns (BuyAmount tp a d).
Proof. intros. rewrite BuyAmount_eq. by apply calculateBuyAmount_returns. Qed.

Lemma Match_returns d sell o : dir_ok d → wf_order o → returns (Match sell d o).1.
Proof.
  intros Hd Hwf. unfold Match. apply M_bind_returns; [done|]. intros ?? [= <- <-].
  destruct (decide (ord_tradeDirection o = d)) as [E|Hne].
  { apply M_bind_returns; unfold lift, BuyAmountFromOrder; rewrite E, Z.eqb_refl; done. }
  apply M_bind_returns.
  { cbn. rewrite BuyAmountFromOrder_eq by done. cbv zeta. by destruct (isU64 _). }
  intros b ? [_ <-]%pair_eq. apply M_bind_returns.
  - destruct (_ <? b); [|done]. apply M_bind_returns.
    + cbn. rewrite SellAmountToOrder_eq by done. cbv zeta. by repeat case_match.
    + intros ?? _. by case_match.
  - intros [[b' fs] rem] o' Hbr. destruct (matchChanges d fs b').
    apply M_bind_returns; [|done]. apply ApplyBalanceChanges_returns.
Qed.

Lemma SwapToReachOrderRate_returns d sell ord p : dir_ok d → wf_pair p →
  (∀ o, ord = Some o → wf_order o) → returns (SwapToReachOrderRate sell d ord p).1.
Proof.
  intros Hd Hwf Ho. unfold SwapToReachOrderRate. apply M_bind_returns; [done|].
  intros ?? [= <- <-]. destruct (HasInsufficientLiquidity p) eqn:Hliq; [done|].
  apply HasInsufficientLiquidity_false in Hliq as [Hr0 Hr1].
  destruct (wf_pair_dir d p Hwf) as (Hu1 & Hu2 & Hv1 & Hv2).
  assert (0 < vSell d p ∧ 0 < vBuy d p) as [Hvs Hvb] by (by_dir d; lia).
  apply M_bind_returns.
  { cbn. destruct ord as [o|]; [|done]. destruct (decide (ord_tradeDirection o = d)) as [E|Hne].
    - cbn. by rewrite E, Z.eqb_refl.
    - by rewrite targetDeltaX_ok by auto. }
  intros t ? [_ <-]%pair_eq. apply M_bind_returns.
  { pose proof (λ a, BuyAmount_returns p a d Hvs) as HB. unfold lift, swapAmounts; cbn [fst].
    destruct t as [t|]; repeat case_match; try done; apply outcome_bind_returns; auto;
      intros; by repeat case_match. }
  intros [[[fs rem] b]|] ? [_ <-]%pair_eq; [|done]. destruct (matchChanges d fs b).
  apply M_bind_returns; [|done]. apply ApplyReserveChanges_returns.
Qed.
