(* ===== verification/OrderBook.v ===== *)
(** The order book of a pool ([blockchain/pdex/order_book.go]) and the interface
    [OrderBookIterator] of [v2utils/order.go] through which trades consume it.

    The book is a slice of pointers kept sorted by rate; [NextOrder] hands out a pointer
    into the slice and the trade mutates the order through it.  The model of such a
    pointer is the index of the order in the slice, with [orderAt] for reading and
    [putOrder] for writing through it. *)
From S2P Require Import Prelude Hash RawDB Order.

Local Open Scope Z_scope.

(** ** The interface *)
Class OrderBookIterator (B : Type) := {
  NextOrder : B → Z → outcome (option (nat * string));
  orderAt : B → nat → option Pdexv3Order;
  putOrder : B → nat → Pdexv3Order → B;
  NftIDs : B → gmap string string }.

(** What a trade relies on: a well-formed book answers, what it hands out can be
    matched, writing an order back with other balances keeps the shape of the book
    ([book_same]), and writing a drained one strictly reduces what is left to match. *)
Class OrderBookLaws (B : Type) `{OrderBookIterator B} := {
  book_wf : B → Prop;
  matchable : Z → B → nat;
  bookSell : Z → B → Z;
  bookBuy : Z → B → Z;
  book_same : B → B → Prop;
  same_preorder :: PreOrder book_same;
  next_returns b d : book_wf b → dir_ok d → is_Ok (NextOrder b d);
  next_order b d h id : book_wf b → dir_ok d → NextOrder b d = Ok (Some (h, id)) →
    ∃ o, orderAt b h = Some o ∧ ord_id o = id ∧ wf_order o ∧ CanMatch o d = Ok true;
  put_wf b h o o' : book_wf b → orderAt b h = Some o → same_order o o' → wf_order o' →
    book_wf (putOrder b h o');
  put_same b h o o' : orderAt b h = Some o → same_order o o' → book_same b (putOrder b h o');
  put_sell b d h o o' : orderAt b h = Some o →
    bookSell d (putOrder b h o') = bookSell d b - sellBalance d o + sellBalance d o';
  put_buy b d h o o' : orderAt b h = Some o →
    bookBuy d (putOrder b h o') = bookBuy d b - buyBalance d o + buyBalance d o';
  put_drained b d h o o' : orderAt b h = Some o →
    CanMatch o d = Ok true → CanMatch o' d = Ok false →
    (matchable d (putOrder b h o') < matchable d b)%nat }.

(** ** [Orderbook] *)
Record Orderbook := mkOrderbook { orders : list Pdexv3Order }.

(** [sort.Search]: binary search for the first index at which [f] holds. *)
Fixpoint search_loop (fuel i j : nat) (f : nat → bool) : nat :=
  match fuel with
  | O => i
  | S fuel =>
      if (i <? j)%nat then
        let h := Nat.div2 (i + j) in
        if negb (f h) then search_loop fuel (S h) j f else search_loop fuel i h f
      else i
  end.
Definition sort_Search (n : nat) (f : nat → bool) : nat := search_loop n 0 n f.

(** The comparison of [InsertOrder]: must [ord] stand before the listed order [o]? *)
Definition insertBefore (ord o : Pdexv3Order) : bool :=
  let ordRate := ord_token0Rate o * ord_token1Rate ord in
  let myRate := ord_token1Rate o * ord_token0Rate ord in
  if ordRate =? myRate then
    if negb (ord_tradeDirection ord =? ord_tradeDirection o)
    then ord_tradeDirection ord =? TradeDirectionSell0
    else if ord_tradeDirection ord =? TradeDirectionSell0
    then match String.compare (ord_id ord) (ord_id o) with Lt => true | _ => false end
    else match String.compare (ord_id ord) (ord_id o) with Gt => true | _ => false end
  else ordRate <? myRate.

Definition insertAt (lst : list Pdexv3Order) (i : nat) (newItem : Pdexv3Order) : list Pdexv3Order :=
  if (i =? length lst)%nat then lst ++ [newItem]
  else <[i := newItem]> (take (S i) lst ++ drop i lst).

Definition InsertOrder (ord : Pdexv3Order) (ob : Orderbook) : Orderbook :=
  let index := sort_Search (length (orders ob))
    (λ i, match orders ob !! i with Some o => insertBefore ord o | None => false end) in
  mkOrderbook (insertAt (orders ob) index ord).

(** [NextOrder]: from the end of the list for a trade selling token0, from its start for
    one selling token1; orders that cannot be matched (or whose check errs) are skipped. *)
Fixpoint firstMatch (ob : list Pdexv3Order) (tradeDirection : Z) (idxs : list nat)
    : outcome (option (nat * string)) :=
  match idxs with
  | [] => Ok None
  | i :: idxs =>
      match ob !! i with
      | None => Panic
      | Some currentOrder =>
          match CanMatch currentOrder tradeDirection with
          | Ok true => Ok (Some (i, ord_id currentOrder))
          | Ok false | Err _ => firstMatch ob tradeDirection idxs
          | Panic => Panic
          | OutOfFuel => OutOfFuel
          end
      end
  end.

Definition Orderbook_NextOrder (ob : Orderbook) (tradeDirection : Z)
    : outcome (option (nat * string)) :=
  let idx := seq 0 (length (orders ob)) in
  if tradeDirection =? TradeDirectionSell0 then firstMatch (orders ob) tradeDirection (reverse idx)
  else if tradeDirection =? TradeDirectionSell1 then firstMatch (orders ob) tradeDirection idx
  else Err "Invalid trade direction".

Definition RemoveOrder (index : Z) : M Orderbook unit :=
  ob ← getS;
  if (index <? 0) || (Z.of_nat (length (orders ob)) <=? index)
  then fail "Invalid order index for orderbook length"
  else modifyS (λ ob, mkOrderbook
         (take (Z.to_nat index) (orders ob) ++ drop (S (Z.to_nat index)) (orders ob))).

(** [getDiff]: the identifiers of new, changed and deleted orders are marked in
    [PoolPairChange.OrderIDs]. *)
Definition ordersByID (l : list Pdexv3Order) : gmap string Pdexv3Order :=
  foldl (λ m ord, <[ord_id ord := ord]> m) ∅ l.

Definition Orderbook_getDiff (ob otherBook : Orderbook) (orderIDs : gmap string bool)
    : gmap string bool :=
  let theirOrdersByID := ordersByID (orders otherBook) in
  let myOrdersByID := ordersByID (orders ob) in
  let marked := foldl (λ m ord,
    match theirOrdersByID !! ord_id ord with
    | Some existingOrder => if decide (ord = existingOrder) then m else <[ord_id ord := true]> m
    | None => <[ord_id ord := true]> m
    end) orderIDs (orders ob) in
  foldl (λ m ord,
    match myOrdersByID !! ord_id ord with
    | Some _ => m
    | None => <[ord_id ord := true]> m
    end) marked (orders otherBook).

Definition Orderbook_NftIDs (ob : Orderbook) : gmap string string :=
  foldl (λ m ord, <[ord_id ord := Hash_String (ord_nftID ord)]> m) ∅ (orders ob).

#[export] Instance Orderbook_iterator : OrderBookIterator Orderbook := {
  NextOrder := Orderbook_NextOrder;
  orderAt ob i := orders ob !! i;
  putOrder ob i o := mkOrderbook (<[i := o]> (orders ob));
  NftIDs := Orderbook_NftIDs }.

(** ** The order of the book *)
Definition bk_order (o : Pdexv3Order) : Prop := wf_order o ∧ dir_ok (ord_tradeDirection o).
Definition before (a b : Pdexv3Order) : Prop := insertBefore a b = true.

(** Cross-multiplied comparison of fractions [n/d]. *)
Lemma cross_trans n1 d1 n2 d2 n3 d3 : 0 < d1 → 0 < d2 → 0 < d3 →
  n1 * d2 ≤ n2 * d1 → n2 * d3 ≤ n3 * d2 →
  n1 * d3 ≤ n3 * d1 ∧ (n1 * d2 < n2 * d1 ∨ n2 * d3 < n3 * d2 → n1 * d3 < n3 * d1).
Proof.
  intros H1 H2 H3 Ha Hb. split; [|intros [Hc|Hc]];
    [apply (Z.mul_le_mono_pos_l _ _ d2)|apply (Z.mul_lt_mono_pos_l d2)..]; try done; nia.
Qed.

(** [before] spelled out: by rate, then sell0 before sell1, then by identifier
    (ascending among sell0 orders, descending among sell1 orders). *)
Lemma before_spec a b : bk_order a → bk_order b →
  before a b ↔
    ord_token1Rate a * ord_token0Rate b < ord_token1Rate b * ord_token0Rate a ∨
    (ord_token1Rate a * ord_token0Rate b = ord_token1Rate b * ord_token0Rate a ∧
     (ord_tradeDirection a < ord_tradeDirection b ∨
      (ord_tradeDirection a = ord_tradeDirection b ∧
       ((ord_tradeDirection a = TradeDirectionSell0 ∧ String.compare (ord_id a) (ord_id b) = Lt) ∨
        (ord_tradeDirection a = TradeDirectionSell1 ∧ String.compare (ord_id b) (ord_id a) = Lt))))).
Proof.
  intros [_ Ha] [_ Hb]. unfold before, insertBefore. rewrite <- (string_compare_Gt (ord_id a)).
  unfold dir_ok, TradeDirectionSell0, TradeDirectionSell1 in *.
  destruct (_ =? _) eqn:Er; [|rewrite Z.ltb_lt; lia].
  destruct Ha as [-> | ->], Hb as [-> | ->]; cbn; try lia;
    destruct (String.compare (ord_id a) (ord_id b)); naive_solver lia.
Qed.

Lemma before_trans a b c : bk_order a → bk_order b → bk_order c →
  before a b → before b c → before a c.
Proof.
  intros Ha Hb Hc. rewrite !before_spec by done.
  destruct Ha as [[[Ha _] _ _ _] Da], Hb as [[[Hb _] _ _ _] Db], Hc as [[[Hc _] _ _ _] Dc].
  intros H1 H2.
  destruct (cross_trans (ord_token1Rate a) (ord_token0Rate a) (ord_token1Rate b)
    (ord_token0Rate b) (ord_token1Rate c) (ord_token0Rate c)) as [Hle Hlt]; [done..|lia|lia|].
  destruct H1 as [H1|(E1 & H1)]; [left; lia|]. destruct H2 as [H2|(E2 & H2)]; [left; lia|].
  destruct (cross_trans (ord_token1Rate c) (ord_token0Rate c) (ord_token1Rate b)
    (ord_token0Rate b) (ord_token1Rate a) (ord_token0Rate a)) as [Hle' _]; [done..|lia|lia|].
  right. split; [lia|].
  destruct H1 as [H1|(D1 & H1)]; [left; destruct H2 as [|[]]; lia|].
  destruct H2 as [H2|(D2 & H2)]; [left; lia|]. right. split; [lia|].
  destruct H1 as [[X1 H1]|[X1 H1]], H2 as [[X2 H2]|[X2 H2]];
    [left|unfold TradeDirectionSell0, TradeDirectionSell1 in *; lia..|right];
    (split; [done|]); eauto using string_compare_Lt_trans.
Qed.

Lemma before_total a b : bk_order a → bk_order b → ord_id a ≠ ord_id b →
  ¬ before a b → before b a.
Proof.
  intros Ha Hb Hne. rewrite !before_spec by done. destruct Ha as [_ Da], Hb as [_ Db].
  assert (Hid : String.compare (ord_id a) (ord_id b) = Lt ∨ String.compare (ord_id b) (ord_id a) = Lt).
  { rewrite <- (string_compare_Gt (ord_id a)). destruct (String.compare _ _) eqn:E; auto.
    by apply string_compare_Eq in E. }
  unfold dir_ok, TradeDirectionSell0, TradeDirectionSell1 in *. intros Hn.
  destruct (Z.lt_trichotomy (ord_token1Rate a * ord_token0Rate b)
    (ord_token1Rate b * ord_token0Rate a)) as [|[E|]]; [naive_solver| |left; lia].
  right. split; [lia|]. destruct Da as [Da|Da], Db as [Db|Db]; rewrite Da, Db in *; naive_solver lia.
Qed.

(** ** Binary search *)
Lemma search_loop_spec f n fuel i j : (j - i ≤ fuel)%nat → (i ≤ j ≤ n)%nat →
  (∀ a b, (a ≤ b)%nat → f a = true → (b < n)%nat → f b = true) →
  (∀ k, (k < i)%nat → f k = false) → (∀ k, (j ≤ k < n)%nat → f k = true) →
  let r := search_loop fuel i j f in
  (i ≤ r ≤ j)%nat ∧ (∀ k, (k < r)%nat → f k = false) ∧ (∀ k, (r ≤ k < n)%nat → f k = true).
Proof.
  intros Hf Hij Hmono. revert i j Hf Hij.
  induction fuel as [|fuel IH]; intros i j Hf Hij Hlo Hhi; cbn [search_loop]; cbv zeta.
  { split; [lia|]. split; [done|]. intros. apply Hhi. lia. }
  destruct (i <? j)%nat eqn:Hlt; [|apply Nat.ltb_ge in Hlt; split; [lia|]; split; [done|];
    intros; apply Hhi; lia].
  apply Nat.ltb_lt in Hlt.
  pose proof (Nat.div2_odd (i + j)). set (h := Nat.div2 (i + j)) in *.
  assert (Hh : (i ≤ h < j)%nat) by (destruct (Nat.odd (i + j)); cbn in *; lia).
  destruct (f h) eqn:Efh; cbn [negb].
  - destruct (IH i h) as (? & ? & ?); try done; try lia.
    { intros k Hk. apply (Hmono h); try done; lia. }
    split; [lia|]. done.
  - destruct (IH (S h) j) as (? & ? & ?); try done; try lia.
    { intros k Hk. destruct (f k) eqn:E; [|done]. rewrite (Hmono k h) in Efh; (done || lia). }
    split; [lia|]. done.
Qed.

Lemma insertAt_eq l i o : (i ≤ length l)%nat → insertAt l i o = take i l ++ o :: drop i l.
Proof.
  intros Hi. unfold insertAt. destruct (i =? length l)%nat eqn:E.
  - apply Nat.eqb_eq in E. subst. by rewrite firstn_all, drop_all.
  - apply Nat.eqb_neq in E. destruct (lookup_lt_is_Some_2 l i) as [x Hx]; [lia|].
    rewrite (take_S_r _ _ _ Hx), <- app_assoc. rewrite insert_app_r_alt;
      rewrite length_take, Nat.min_l by lia; [|lia]. by rewrite Nat.sub_diag.
Qed.

(** The invariant of a book: well-formed orders with distinct identifiers, sorted. *)
Record sorted_book (ob : Orderbook) : Prop := {
  sb_orders : Forall bk_order (orders ob);
  sb_sorted : StronglySorted before (orders ob);
  sb_ids : NoDup (ord_id <$> orders ob) }.

Lemma search_loop_bound fuel i j f : (i ≤ j)%nat → (i ≤ search_loop fuel i j f ≤ j)%nat.
Proof.
  revert i j. induction fuel as [|fuel IH]; intros i j Hij; cbn [search_loop]; [lia|].
  destruct (i <? j)%nat eqn:Hlt; [|lia]. apply Nat.ltb_lt in Hlt.
  pose proof (Nat.div2_odd (i + j)). set (h := Nat.div2 (i + j)) in *.
  assert (Hh : (i ≤ h < j)%nat) by (destruct (Nat.odd (i + j)); cbn in *; lia).
  destruct (negb (f h)); [specialize (IH (S h) j)|specialize (IH i h)]; lia.
Qed.

(** Whatever the book, the new order is added to it. *)
Lemma InsertOrder_perm ord ob : orders (InsertOrder ord ob) ≡ₚ ord :: orders ob.
Proof.
  unfold InsertOrder, sort_Search. cbn [orders]. set (r := search_loop _ _ _ _).
  assert (Hr : (r ≤ length (orders ob))%nat) by (apply search_loop_bound; lia).
  rewrite insertAt_eq by done. rewrite <- Permutation_middle. by rewrite take_drop.
Qed.

Lemma InsertOrder_keeps ord ob :
  sorted_book ob → bk_order ord → ord_id ord ∉ (ord_id <$> orders ob) →
  sorted_book (InsertOrder ord ob) ∧ orders (InsertOrder ord ob) ≡ₚ ord :: orders ob.
Proof.
  intros Hob Hord Hfresh. destruct Hob as [Hall Hsort Hids]. set (l := orders ob) in *.
  set (f := λ i, match l !! i with Some o => insertBefore ord o | None => false end).
  assert (Hlk : ∀ i o, l !! i = Some o → bk_order o ∧ ord_id ord ≠ ord_id o).
  { intros i o Hi. split; [by eapply Forall_lookup_1|]. intros E. apply Hfresh.
    rewrite E. apply list_elem_of_fmap. exists o. split; [done|]. by eapply list_elem_of_lookup_2. }
  destruct (search_loop_spec f (length l) (length l) 0 (length l)) as (Hr & Hlo & Hhi);
    [lia|lia| |lia|lia|].
  { intros a b Hab Ha Hb. unfold f in *. destruct (l !! a) as [x|] eqn:Ex; [|done].
    destruct (lookup_lt_is_Some_2 l b Hb) as [y Hy]. rewrite Hy.
    destruct (decide (a = b)) as [->|]; [congruence|].
    apply (before_trans _ x); try done; [by apply (Hlk a)|by apply (Hlk b)|].
    eapply StronglySorted_lookup_lt; [exact Hsort|exact Ex|exact Hy|lia]. }
  unfold InsertOrder, sort_Search. fold l. fold f.
  set (r := search_loop (length l) 0 (length l) f) in *.
  rewrite insertAt_eq by lia. cbn [orders].
  assert (Hperm : take r l ++ ord :: drop r l ≡ₚ ord :: l).
  { rewrite <- Permutation_middle. by rewrite take_drop. }
  split; [|done]. split; cbn [orders].
  - rewrite Hperm. by constructor.
  - rewrite <- (take_drop r l) in Hsort.
    apply StronglySorted_app in Hsort as (Hx & Hs1 & Hs2).
    apply StronglySorted_app. split; [|split; [done|]].
    + intros x1 x2 H1 H2. apply elem_of_cons in H2 as [->|H2]; [|by apply Hx].
      apply list_elem_of_lookup in H1 as [k Hk]. apply lookup_take_Some in Hk as [Hk Hkr].
      destruct (Hlk k x1 Hk). apply before_total; try done.
      specialize (Hlo k Hkr). unfold f, before in *. rewrite Hk in Hlo. congruence.
    + constructor; [done|]. apply Forall_lookup_2. intros k y Hk. rewrite lookup_drop in Hk.
      assert (r + k < length l)%nat by by eapply lookup_lt_Some.
      specialize (Hhi (r + k)%nat). unfold f in Hhi. rewrite Hk in Hhi. apply Hhi. lia.
  - rewrite Hperm. cbn. by constructor.
Qed.

(** Inserting an order with a fresh identifier by binary search keeps the book
    sorted (ascending rate, sell0 before sell1, identifiers in matching order), with
    exactly the new order added. *)
Theorem InsertOrder_sorted ord ob
    (Hob : sorted_book ob) (Hord : bk_order ord)
    (Hfresh : ord_id ord ∉ (ord_id <$> orders ob)) :
  sorted_book (InsertOrder ord ob) ∧ orders (InsertOrder ord ob) ≡ₚ ord :: orders ob.
Proof. by apply InsertOrder_keeps. Qed.

Definition sample_book : Orderbook := mkOrderbook
  [mkOrder "a" "" 100 50 100 0 TradeDirectionSell0 ("", "");
   mkOrder "c" "" 100 90 0 90 TradeDirectionSell1 ("", "");
   mkOrder "b" "" 100 90 0 90 TradeDirectionSell1 ("", "")].

Lemma sample_book_sorted : sorted_book sample_book.
Proof.
  split.
  - repeat constructor; cbn; unfold in_u64, word64; try lia; by (left + right).
  - repeat constructor.
  - apply (bool_decide_unpack _). vm_compute. exact I.
Qed.

Lemma InsertOrder_sorted_witness :
  sorted_book (InsertOrder (mkOrder "d" "" 100 60 0 60 TradeDirectionSell1 ("", "")) sample_book).
Proof.
  apply (InsertOrder_sorted (mkOrder "d" "" 100 60 0 60 TradeDirectionSell1 ("", "")) sample_book).
  - exact sample_book_sorted.
  - split; [split; unfold in_u64, word64; cbn; lia|by right].
  - apply (bool_decide_unpack _). vm_compute. exact I.
Defined.

(** ** [NextOrder] *)
Lemma CanMatch_returns o d : dir_ok d → wf_order o → returns (CanMatch o d).
Proof.
  intros Hd Hwf. unfold CanMatch. destruct (_ =? d) eqn:E; [done|].
  apply outcome_bind_returns; [|done]. rewrite SellAmountToOrder_eq by (done || lia).
  cbv zeta. by repeat case_match.
Qed.

Definition skipped (l : list Pdexv3Order) (d : Z) (k : nat) : Prop :=
  ∃ o, l !! k = Some o ∧ CanMatch o d ≠ Ok true.

Lemma firstMatch_spec l d idxs r : firstMatch l d idxs = Ok r →
  match r with
  | None => Forall (skipped l d) idxs
  | Some (i, id) => ∃ pre post o, idxs = pre ++ i :: post ∧ l !! i = Some o ∧
      ord_id o = id ∧ CanMatch o d = Ok true ∧ Forall (skipped l d) pre
  end.
Proof.
  induction idxs as [|k idxs IH]; cbn; intros H; [by inv_ok|].
  destruct (l !! k) as [o|] eqn:Hk; [|done].
  destruct (CanMatch o d) as [[]| | |] eqn:Hc; try done.
  - injection H as <-. exists [], idxs, o. by split_and!.
  - specialize (IH H). assert (skipped l d k) by (exists o; by rewrite Hc).
    destruct r as [[i id]|]; [|by constructor].
    destruct IH as (pre & post & o' & -> & ? & ? & ? & ?). exists (k :: pre), post, o'.
    split_and!; try done. by constructor.
  - specialize (IH H). assert (skipped l d k) by (exists o; by rewrite Hc).
    destruct r as [[i id]|]; [|by constructor].
    destruct IH as (pre & post & o' & -> & ? & ? & ? & ?). exists (k :: pre), post, o'.
    split_and!; try done. by constructor.
Qed.

Lemma firstMatch_total l d idxs : dir_ok d → Forall wf_order l →
  Forall (λ k, k < length l)%nat idxs → is_Ok (firstMatch l d idxs).
Proof.
  intros Hd Hwf. induction 1 as [|k idxs Hk _ IH]; cbn; [by eexists|].
  destruct (lookup_lt_is_Some_2 l k Hk) as [o Ho]. rewrite Ho.
  assert (Hr := CanMatch_returns o d Hd). specialize (Hr (Forall_lookup_1 _ _ _ _ Hwf Ho)).
  destruct (CanMatch o d) as [[]| | |]; try done. by eexists.
Qed.

Lemma Forall_seq_lt n : Forall (λ k, k < n)%nat (seq 0 n).
Proof. apply Forall_seq. lia. Qed.

Lemma Orderbook_NextOrder_total ob d : Forall wf_order (orders ob) → dir_ok d →
  is_Ok (Orderbook_NextOrder ob d).
Proof.
  intros Hwf Hd. unfold Orderbook_NextOrder.
  assert (Hseq := Forall_seq_lt (length (orders ob))).
  destruct Hd as [-> | ->]; cbn; apply firstMatch_total; try done; [by left| |by right].
  by apply Forall_reverse.
Qed.

(** An index skipped or not before [i] in the scan order lies on the scanned side. *)
Lemma seq_split_lt n pre i post k : seq 0 n = pre ++ i :: post → k ∈ pre → (k < i)%nat.
Proof.
  intros E Hk. apply list_elem_of_lookup in Hk as [j Hj].
  assert (Hj' : seq 0 n !! j = Some k) by (rewrite E; by apply lookup_app_l_Some).
  assert (Hi : seq 0 n !! length pre = Some i) by (rewrite E; by apply list_lookup_middle).
  apply lookup_seq in Hj', Hi. apply lookup_lt_Some in Hj. lia.
Qed.

Lemma seq_split_pre n pre i post k : seq 0 n = pre ++ i :: post → (k < n)%nat →
  k ∈ pre ∨ k = i ∨ (i < k)%nat.
Proof.
  intros E Hk. assert (Hin : k ∈ seq 0 n) by (apply elem_of_seq; lia).
  rewrite E, elem_of_app, elem_of_cons in Hin. destruct Hin as [|[|Hp]]; auto.
  right; right. apply list_elem_of_lookup in Hp as [j Hj].
  assert (Hi : seq 0 n !! length pre = Some i) by (rewrite E; by apply list_lookup_middle).
  assert (Hj' : seq 0 n !! (length pre + S j)%nat = Some k).
  { rewrite E, lookup_app_r by lia. by replace (length pre + S j - length pre)%nat with (S j) by lia. }
  apply lookup_seq in Hj', Hi. lia.
Qed.

(** Of two matchable orders the one the scan meets first has the better rate for the
    trade, and on equal rates the smaller identifier. *)
Definition better (d : Z) (o o' : Pdexv3Order) : Prop :=
  buyRate d o' * sellRate d o ≤ buyRate d o * sellRate d o' ∧
  (buyRate d o' * sellRate d o = buyRate d o * sellRate d o' →
   String.compare (ord_id o) (ord_id o') = Lt).

Lemma before_better d a b : dir_ok d → bk_order a → bk_order b → before a b →
  CanMatch a d = Ok true → CanMatch b d = Ok true →
  if d =? 0 then better d b a else better d a b.
Proof.
  intros Hd Ha Hb Hab Ca Cb.
  destruct (CanMatch_true a d Hd (proj1 Ha) Ca) as [Na _].
  destruct (CanMatch_true b d Hd (proj1 Hb) Cb) as [Nb _].
  apply before_spec in Hab; [|done..]. destruct Ha as [_ Da], Hb as [_ Db].
  unfold better. destruct Hd as [-> | ->], Da as [Da|Da], Db as [Db|Db];
    unfold TradeDirectionSell0, TradeDirectionSell1, sellRate, buyRate in *; try lia;
    cbn; rewrite Da, Db in *; (split; [lia|]; intros);
    destruct Hab as [|(_ & [|(_ & [[? ?]|[? ?]])])]; try done; lia.
Qed.

(** [NextOrder] returns the best matchable order of a sorted book: no other
    matchable order offers the trade a better rate, ties going to the smaller identifier;
    it returns none only when no order of the book can be matched. *)
Theorem NextOrder_best ob d r
    (Hob : sorted_book ob) (Hd : dir_ok d) (Hn : Orderbook_NextOrder ob d = Ok r) :
  match r with
  | None => ∀ o, o ∈ orders ob → CanMatch o d ≠ Ok true
  | Some (i, id) => ∃ o, orders ob !! i = Some o ∧ ord_id o = id ∧ CanMatch o d = Ok true ∧
      ∀ j o', orders ob !! j = Some o' → CanMatch o' d = Ok true → j = i ∨ better d o o'
  end.
Proof.
  destruct Hob as [Hall Hsort _]. set (l := orders ob) in *.
  assert (Hscan : ∃ rv : bool, (d =? 0) = rv ∧
    firstMatch l d (if rv then reverse (seq 0 (length l)) else seq 0 (length l)) = Ok r).
  { unfold Orderbook_NextOrder in Hn. destruct Hd as [-> | ->]; cbn in *; eauto. }
  destruct Hscan as (rv & Hrv & Hf). apply firstMatch_spec in Hf. destruct r as [[i id]|].
  - destruct Hf as (pre & post & o & E & Hi & Hid & Hcan & Hpre).
    exists o. split_and!; try done. intros j o' Hj Hcan'.
    assert (Hnpre : j ∉ pre).
    { intros Hin. rewrite Forall_forall in Hpre.
      destruct (Hpre j Hin) as (? & ? & ?). congruence. }
    assert (Hlj : (j < length l)%nat) by by eapply lookup_lt_Some.
    destruct (decide (j = i)) as [|Hji]; [by left|]. right.
    assert (Hbo := Forall_lookup_1 _ _ _ _ Hall Hi). assert (Hbo' := Forall_lookup_1 _ _ _ _ Hall Hj).
    destruct rv.
    + apply (f_equal reverse) in E. rewrite reverse_involutive, reverse_app, reverse_cons in E.
      rewrite <- app_assoc in E. cbn in E.
      destruct (decide (j < i)%nat) as [Hlt|Hge].
      * pose proof (before_better d o' o Hd Hbo' Hbo) as Hb. rewrite Hrv in Hb. apply Hb; try done.
        by eapply StronglySorted_lookup_lt.
      * exfalso. assert (Hin : j ∈ seq 0 (length l)) by (apply elem_of_seq; lia).
        rewrite E, elem_of_app, elem_of_cons, !elem_of_reverse in Hin.
        destruct Hin as [Hin|[|]]; [|done..]. apply elem_of_reverse in Hin.
        pose proof (seq_split_lt _ _ _ _ _ E Hin). lia.
    + destruct (seq_split_pre _ _ _ _ _ E Hlj) as [|[|Hlt]]; [done..|].
      pose proof (before_better d o o' Hd Hbo Hbo') as Hb. rewrite Hrv in Hb. apply Hb; try done.
      by eapply StronglySorted_lookup_lt.
  - intros o Ho Hcan. apply list_elem_of_lookup in Ho as [k Hk].
    assert (Hs : skipped l d k).
    { assert (Hlk : (k < length l)%nat) by by eapply lookup_lt_Some.
      rewrite Forall_forall in Hf. apply Hf.
      destruct rv; rewrite ?elem_of_reverse; apply elem_of_seq; lia. }
    destruct Hs as (? & ? & ?). congruence.
Qed.

Lemma NextOrder_best_witness :
  Orderbook_NextOrder sample_book TradeDirectionSell0 = Ok (Some (2%nat, "b")) ∧
  ∃ o, orders sample_book !! 2%nat = Some o ∧ ord_id o = "b" ∧
    CanMatch o TradeDirectionSell0 = Ok true ∧
    ∀ j o', orders sample_book !! j = Some o' → CanMatch o' TradeDirectionSell0 = Ok true →
      j = 2%nat ∨ better TradeDirectionSell0 o o'.
Proof.
  split; [reflexivity|].
  apply (NextOrder_best sample_book TradeDirectionSell0 (Some (2%nat, "b")));
    [exact sample_book_sorted|by left|reflexivity].
Defined.

(** ** The book implements the interface *)
Definition canMatchb (d : Z) (o : Pdexv3Order) : bool :=
  match CanMatch o d with Ok true => true | _ => false end.

Definition matchCount (d : Z) (l : list Pdexv3Order) : nat := length (List.filter (canMatchb d) l).

Lemma matchCount_insert d l i o o' : l !! i = Some o →
  canMatchb d o = true → canMatchb d o' = false →
  (matchCount d (<[i:=o']> l) < matchCount d l)%nat.
Proof.
  intros Hi Ho Ho'. revert i Hi. unfold matchCount.
  induction l as [|a l IH]; intros [|i] Hi; cbn in *; simplify_eq.
  - rewrite Ho, Ho'. cbn. lia.
  - specialize (IH i Hi). destruct (canMatchb d a); [by apply -> Nat.succ_lt_mono|exact IH].
Qed.

#[export] Instance Orderbook_laws : OrderBookLaws Orderbook.
Proof.
  unshelve refine {|
    book_wf ob := Forall wf_order (orders ob);
    matchable d ob := matchCount d (orders ob);
    bookSell d ob := list_sum (sellBalance d) (orders ob);
    bookBuy d ob := list_sum (buyBalance d) (orders ob);
    book_same ob ob' := Forall2 same_order (orders ob) (orders ob') |}; cbn.
  - split; [by intros ?|]. intros a b c. apply transitivity.
  - apply Orderbook_NextOrder_total.
  - intros b d h id Hwf Hd Hn. cbn in *.
    assert (Hf : ∃ idxs, firstMatch (orders b) d idxs = Ok (Some (h, id))).
    { unfold Orderbook_NextOrder in Hn. destruct Hd as [-> | ->]; cbn in Hn; eauto. }
    destruct Hf as [idxs Hf]. apply firstMatch_spec in Hf as (_ & _ & o & _ & Ho & ? & ? & _).
    exists o. split_and!; try done. by eapply Forall_lookup_1.
  - intros b h o o' Hwf _ _ Ho'. cbn. by apply Forall_insert.
  - intros b h o o' Ho Hs. cbn in *. rewrite <- (list_insert_id _ _ _ Ho) at 1.
    by apply Forall2_insert.
  - intros b d h o o' Ho. cbn. by apply list_sum_insert.
  - intros b d h o o' Ho. cbn. by apply list_sum_insert.
  - intros b d h o o' Ho Hc Hc'. cbn. apply (matchCount_insert d _ _ o); [done|..];
      unfold canMatchb; by rewrite ?Hc, ?Hc'.
Defined.

(** ** Differences between two versions of a book *)
Lemma ordersByID_lookup l id o : NoDup (ord_id <$> l) →
  ordersByID l !! id = Some o ↔ o ∈ l ∧ ord_id o = id.
Proof.
  intros Hnd. unfold ordersByID.
  assert (Hgen : ∀ (m : gmap string Pdexv3Order), (∀ x, x ∈ l → m !! ord_id x = None) →
    foldl (λ m ord, <[ord_id ord:=ord]> m) m l !! id = Some o ↔
      m !! id = Some o ∨ (o ∈ l ∧ ord_id o = id)); last first.
  { rewrite Hgen; [rewrite lookup_empty; naive_solver|]. intros. apply lookup_empty. }
  induction l as [|a l IH]; intros m Hm; cbn; [rewrite elem_of_nil; naive_solver|].
  apply NoDup_cons in Hnd as [Ha Hnd]. rewrite IH; [|done|].
  - rewrite lookup_insert. case_decide as Hd; rewrite elem_of_cons; [|naive_solver].
    subst id. rewrite (Hm a) by apply list_elem_of_here. naive_solver.
  - intros x Hx. rewrite lookup_insert_ne; [apply Hm; by right|].
    intros E. apply Ha. rewrite E. by apply list_elem_of_fmap_2.
Qed.

Lemma ordersByID_None l id : NoDup (ord_id <$> l) →
  ordersByID l !! id = None ↔ ∀ o, o ∈ l → ord_id o ≠ id.
Proof.
  intros Hnd. rewrite eq_None_not_Some. split.
  - intros Hn o Ho E. apply Hn. exists o. by apply ordersByID_lookup.
  - intros Ha [o Ho]. apply ordersByID_lookup in Ho as [Ho E]; [|done]. by eapply Ha.
Qed.

(** A left fold that only ever marks keys: a key ends up marked iff some element marks it. *)
Lemma foldl_mark (test : Pdexv3Order → bool) l (m : gmap string bool) id :
  foldl (λ m ord, if test ord then <[ord_id ord:=true]> m else m) m l !! id =
    if existsb (λ o, test o && bool_decide (ord_id o = id)) l then Some true else m !! id.
Proof.
  revert m. induction l as [|a l IH]; intros m; cbn; [done|]. rewrite IH.
  destruct (test a); cbn; [|done]. rewrite lookup_insert. case_decide as E.
  - rewrite bool_decide_eq_true_2 by done. cbn. by destruct (existsb _ _).
  - by rewrite bool_decide_eq_false_2.
Qed.

Lemma foldl_ext_fun {A B} (f g : A → B → A) l a : (∀ a b, f a b = g a b) → foldl f a l = foldl g a l.
Proof. intros H. revert a. induction l; intros; cbn; [done|]. by rewrite H. Qed.

(** Comparing two versions of a book marks exactly the identifiers whose order was
    added, removed or changed, and leaves earlier marks of other identifiers alone. *)
Theorem Orderbook_getDiff_exact ob other marks id
    (Hids : NoDup (ord_id <$> orders ob)) (Hids' : NoDup (ord_id <$> orders other)) :
  Orderbook_getDiff ob other marks !! id =
    if decide (ordersByID (orders ob) !! id = ordersByID (orders other) !! id)
    then marks !! id else Some true.
Proof.
  unfold Orderbook_getDiff.
  pose proof (λ o, ordersByID_lookup _ id o Hids) as Lm.
  pose proof (λ i o, ordersByID_lookup _ i o Hids') as Lt.
  pose proof (λ i, ordersByID_None _ i Hids') as Nt.
  set (mine := ordersByID (orders ob)) in *. set (theirs := ordersByID (orders other)) in *.
  rewrite (foldl_ext_fun _ (λ m ord, if bool_decide (mine !! ord_id ord = None)
    then <[ord_id ord:=true]> m else m)); [rewrite foldl_mark|by intros; repeat case_match].
  rewrite (foldl_ext_fun _ (λ m ord, if bool_decide (theirs !! ord_id ord ≠ Some ord)
    then <[ord_id ord:=true]> m else m)); [rewrite foldl_mark|].
  2:{ intros m o. destruct (theirs !! ord_id o) as [o'|] eqn:E; repeat case_decide;
        case_bool_decide; naive_solver. }
  destruct (existsb _ (orders other)) eqn:E2.
  { apply existsb_exists in E2 as (o & Ho & [H1 H2]%andb_prop).
    apply bool_decide_eq_true in H1, H2. rewrite decide_False; [done|]. subst id.
    apply list_elem_of_In in Ho. rewrite H1. intros E. symmetry in E.
    by eapply (proj1 (Nt _) E). }
  destruct (existsb _ (orders ob)) eqn:E1.
  { apply existsb_exists in E1 as (o & Ho & [H1 H2]%andb_prop).
    apply bool_decide_eq_true in H1, H2. rewrite decide_False; [done|]. subst id.
    intros E. apply H1. rewrite <- E. apply Lm. split; [|done].
    by apply list_elem_of_In. }
  rewrite decide_True; [done|].
  destruct (mine !! id) as [o|] eqn:Em.
  - destruct (proj1 (Lm o) eq_refl) as [Ho Hi].
    apply not_true_iff_false in E1. rewrite existsb_exists in E1.
    destruct (decide (theirs !! id = Some o)) as [|Hne]; [congruence|].
    exfalso. apply E1. exists o. split; [by apply list_elem_of_In|].
    rewrite !bool_decide_eq_true_2; [done|done|congruence].
  - destruct (theirs !! id) as [o|] eqn:Et; [|done].
    apply Lt in Et as [Ho Hi].
    apply not_true_iff_false in E2. rewrite existsb_exists in E2.
    exfalso. apply E2. exists o. split; [by apply list_elem_of_In|].
    rewrite !bool_decide_eq_true_2; [done|done|congruence].
Qed.

Lemma Orderbook_getDiff_exact_witness :
  Orderbook_getDiff (mkOrderbook (take 2 (orders sample_book))) sample_book ∅ !! "b" = Some true.
Proof.
  rewrite (Orderbook_getDiff_exact (mkOrderbook (take 2 (orders sample_book))) sample_book ∅ "b").
  - vm_compute. reflexivity.
  - apply (bool_decide_unpack _). vm_compute. exact I.
  - apply (bool_decide_unpack _). vm_compute. exact I.
Defined.
