(* ===== verification/Trade.v ===== *)
(** Trades along a path of pools ([MaybeAcceptTrade] of
    [blockchain/pdex/v2utils/reserve.go]).  In each pool the trade alternates between a
    partial swap with the reserves and the best limit order, through the
    [OrderBookIterator] interface, until the amount to sell is used up; what it bought is
    what it sells in the next pool.  The theorems are proved against the interface. *)
From S2P Require Import Prelude Hash RawDB Swap Order Reserve OrderBook.

Local Open Scope Z_scope.

(** [metadataPdexv3.AcceptedTrade]; [RewardEarned] is filled in by [TrackFee]. *)
Record AcceptedTrade := mkAcceptedTrade {
  at_Receiver : string;
  at_Amount : Z;
  at_TradePath : list string;
  at_TokenToBuy : Hash;
  at_PairChanges : list (Z * Z);
  at_OrderChanges : list (gmap string (Z * Z));
  at_RewardEarned : list (gmap Hash Z) }.

Section trade.
Context {B : Type} `{OrderBookIterator B}.

(** The variables of the loop over the orders of one pool. *)
Record PoolTrade := mkPoolTrade {
  pt_pair : Pdexv3PoolPair;
  pt_book : B;
  pt_sellAmountRemain : Z;
  pt_totalBuyAmount : Z;
  pt_token0Change : Z;
  pt_token1Change : Z;
  pt_orderChanges : gmap string (Z * Z) }.

(** The pointer returned by [NextOrder], dereferenced. *)
Definition derefOrder (b : B) (next : option (nat * string)) : outcome (option Pdexv3Order) :=
  match next with
  | None => Ok None
  | Some (h, _) => match orderAt b h with Some o => Ok (Some o) | None => Panic end
  end.

(** The first half of the loop body: swap with the pool up to the order's rate. *)
Definition poolStep (tradeDirection : Z) (order : option Pdexv3Order) (s : PoolTrade)
    : outcome PoolTrade :=
  r ← runM (SwapToReachOrderRate (pt_sellAmountRemain s) tradeDirection order) (pt_pair s);
  let '(buyAmount, temp, token0Change, token1Change, pr) := r in
  if add64 (pt_totalBuyAmount s) buyAmount <? pt_totalBuyAmount s
  then Err "Sum exceeds uint64 range after swapping in pool"
  else Ok (mkPoolTrade pr (pt_book s) temp (add64 (pt_totalBuyAmount s) buyAmount)
             (pt_token0Change s + token0Change) (pt_token1Change s + token1Change)
             (pt_orderChanges s)).

(** The second half: match the order at [h] with what is left.  [record] says how the
    change is entered in the accepted metadata: [MaybeAcceptTrade] overwrites the entry
    of the order, [TrackFee] adds to it. *)
Definition orderStep (record : option (Z * Z) → Z * Z → Z * Z) (tradeDirection : Z)
    (h : nat) (ordID : string) (order : Pdexv3Order) (s : PoolTrade) : outcome PoolTrade :=
  r ← runM (Match (pt_sellAmountRemain s) tradeDirection) order;
  let '(buyAmount, temp, token0Change, token1Change, order') := r in
  if add64 (pt_totalBuyAmount s) buyAmount <? pt_totalBuyAmount s
  then Err "Sum exceeds uint64 range after matching order"
  else Ok (mkPoolTrade (pt_pair s) (putOrder (pt_book s) h order') temp
             (add64 (pt_totalBuyAmount s) buyAmount) (pt_token0Change s) (pt_token1Change s)
             (<[ordID := record (pt_orderChanges s !! ordID) (token0Change, token1Change)]>
                (pt_orderChanges s))).

Fixpoint poolLoop (fuel : nat) (record : option (Z * Z) → Z * Z → Z * Z)
    (tradeDirection : Z) (s : PoolTrade) : outcome PoolTrade :=
  match fuel with
  | O => OutOfFuel
  | S fuel =>
      match NextOrder (pt_book s) tradeDirection with
      | Err _ => Ok s
      | Panic => Panic
      | OutOfFuel => OutOfFuel
      | Ok next =>
          order ← derefOrder (pt_book s) next;
          s ← poolStep tradeDirection order s;
          if pt_sellAmountRemain s =? 0 then Ok s
          else
            match next, order with
            | Some (h, ordID), Some order =>
                s ← orderStep record tradeDirection h ordID order s;
                if pt_sellAmountRemain s =? 0 then Ok s
                else poolLoop fuel record tradeDirection s
            | _, _ => poolLoop fuel record tradeDirection s
            end
      end
  end.

Definition overwriteChange (_ : option (Z * Z)) (c : Z * Z) : Z * Z := c.

Definition enterPool (pr : Pdexv3PoolPair) (book : B) (sellAmount : Z)
    (changes : gmap string (Z * Z)) : PoolTrade :=
  mkPoolTrade pr book sellAmount 0 0 0 changes.

(** The loop over the pools of the path: the amount bought in one pool is sold in the
    next, [totalBuyAmount] is what the last pool gave. *)
Fixpoint tradePools (fuel : nat) (pools : list (Pdexv3PoolPair * Z * B))
    (sellAmountRemain totalBuyAmount : Z) : outcome (list PoolTrade * Z) :=
  match pools with
  | [] => Ok ([], totalBuyAmount)
  | (pr, tradeDirection, book) :: pools =>
      s ← poolLoop fuel overwriteChange tradeDirection (enterPool pr book sellAmountRemain ∅);
      r ← tradePools fuel pools (pt_totalBuyAmount s) (pt_totalBuyAmount s);
      let '(ss, out) := r in Ok (s :: ss, out)
  end.

Definition zip3 {X Y W} (a : list X) (b : list Y) (c : list W) : list (X * Y * W) :=
  zip (zip a b) c.

Definition MaybeAcceptTrade (fuel : nat) (amountIn fee : Z) (tradePath : list string)
    (receiver : string) (reserves : list Pdexv3PoolPair) (tradeDirections : list Z)
    (tokenToBuy : Hash) (minAmount : Z) (orderbooks : list B)
    : outcome (AcceptedTrade * list Pdexv3PoolPair * list B) :=
  let mutualLen := length reserves in
  if negb (length tradeDirections =? mutualLen)%nat || negb (length orderbooks =? mutualLen)%nat
  then Err "Trade path vs directions vs orderbooks length mismatch"
  else if amountIn <? fee then Err "Trade input insufficient for trading fee"
  else
    r ← tradePools fuel (zip3 reserves tradeDirections orderbooks) (sub64 amountIn fee) 0;
    let '(ss, totalBuyAmount) := r in
    if totalBuyAmount <? minAmount then Err "Min acceptable amount not reached"
    else Ok (mkAcceptedTrade receiver totalBuyAmount tradePath tokenToBuy
               ((λ s, (pt_token0Change s, pt_token1Change s)) <$> ss)
               (pt_orderChanges <$> ss) [],
             pt_pair <$> ss, pt_book <$> ss).
End trade.
Arguments PoolTrade : clear implicits.
Arguments mkPoolTrade {_} _ _ _ _ _ _ _.

(** ** One pool *)
Section trade_props.
Context {B : Type} `{OrderBookLaws B}.
Implicit Types (s : PoolTrade B) (b : B) (d : Z).

(** The ledger of a trade of [sell0] units that entered pool [p0] with book [b0]: what
    the trade gave up is in the pool or with the orders, what it bought came from them,
    and the pool's product did not decrease. *)
Record trading d (sell0 : Z) (p0 : Pdexv3PoolPair) (b0 : B) s : Prop := {
  tr_sell : 0 ≤ pt_sellAmountRemain s ≤ sell0;
  tr_buy : in_u64 (pt_totalBuyAmount s);
  tr_same : same_pair p0 (pt_pair s);
  tr_wf : wf_pair (pt_pair s);
  tr_book : book_wf (pt_book s);
  tr_shape : book_same b0 (pt_book s);
  tr_in : rSell d (pt_pair s) + bookSell d (pt_book s) =
          rSell d p0 + bookSell d b0 + (sell0 - pt_sellAmountRemain s);
  tr_out : rBuy d (pt_pair s) + bookBuy d (pt_book s) =
           rBuy d p0 + bookBuy d b0 - pt_totalBuyAmount s;
  tr_acc : (pt_token0Change s, pt_token1Change s) =
           matchChanges d (rSell d (pt_pair s) - rSell d p0) (rBuy d p0 - rBuy d (pt_pair s));
  tr_virt : vSell d (pt_pair s) - vSell d p0 = rSell d (pt_pair s) - rSell d p0 ∧
            vBuy d (pt_pair s) - vBuy d p0 = rBuy d (pt_pair s) - rBuy d p0;
  tr_k : pool_k p0 ≤ pool_k (pt_pair s) }.

Lemma enterPool_trading d p b sell ch : dir_ok d → wf_pair p → book_wf b → 0 ≤ sell →
  trading d sell p b (enterPool p b sell ch).
Proof.
  intros Hd Hp Hb Hs. split; cbn; try done; try lia.
  by by_dir d; cbn; rewrite !Z.sub_diag.
Qed.

Lemma matchChanges_add d (f1 b1 f2 b2 x0 x1 y0 y1 : Z) :
  (x0, x1) = matchChanges d f1 b1 → (y0, y1) = matchChanges d f2 b2 →
  (x0 + y0, x1 + y1) = matchChanges d (f1 + f2) (b1 + b2).
Proof. unfold matchChanges. destruct (d =? _); intros; simplify_eq; f_equal; lia. Qed.

Lemma poolStep_trading d sell0 p0 b0 order s s' :
  dir_ok d → in_u64 sell0 → trading d sell0 p0 b0 s →
  poolStep d order s = Ok s' →
  trading d sell0 p0 b0 s' ∧ pt_book s' = pt_book s ∧
  (order = None → pt_sellAmountRemain s' = 0).
Proof.
  intros Hd Hs0 [] Hstep. unfold poolStep in Hstep.
  apply outcome_bind_Ok in Hstep as ([[[[buy rem] c0] c1] pr] & Hrun & Hstep).
  apply runM_Ok in Hrun.
  unfold in_u64 in Hs0. destruct (add64 _ buy <? _) eqn:Hov; [done|].
  edestruct SwapToReachOrderRate_swapped as [? ? ? ? ? ? ? ? ? ? ? ? ?];
    [exact Hd|exact tr_wf0| |exact Hrun|]; [unfold in_u64; lia|].
  destruct (wf_pair_dir d _ tr_wf0) as (_ & Hbu & _).
  destruct (add64_checked (pt_totalBuyAmount s) buy) as [Eadd Hadd]; try done.
  { unfold in_u64 in *. lia. }
  injection Hstep as <-. rewrite Eadd. split; [|split; [done|]].
  - split; cbn; try done; try lia.
    + by transitivity (pt_pair s).
    + rewrite (matchChanges_add _ _ _ _ _ _ _ _ _ tr_acc0 sw_changes). f_equal; lia.
  - intros ->. cbn. by eapply swap_none_remain.
Qed.

Lemma orderStep_trading d sell0 p0 b0 rec h id o s s' :
  dir_ok d → in_u64 sell0 → trading d sell0 p0 b0 s →
  orderAt (pt_book s) h = Some o → wf_order o → CanMatch o d = Ok true →
  orderStep rec d h id o s = Ok s' →
  trading d sell0 p0 b0 s' ∧
  (pt_sellAmountRemain s' ≠ 0 → (matchable d (pt_book s') < matchable d (pt_book s))%nat).
Proof.
  intros Hd Hs0 [] Hat Hwo Hcan Hstep. unfold orderStep in Hstep.
  apply outcome_bind_Ok in Hstep as ([[[[buy rem] c0] c1] o'] & Hrun & Hstep).
  apply runM_Ok in Hrun. unfold in_u64 in Hs0.
  destruct (add64 _ buy <? _) eqn:Hov; [done|].
  edestruct Match_matched as [? ? ? ? ? ? ? ? ? ? ?];
    [exact Hd|exact Hwo| |exact Hrun|]; [unfold in_u64; lia|].
  destruct (wf_order_dir d o Hwo) as (_ & _ & Hbb & _).
  destruct (add64_checked (pt_totalBuyAmount s) buy) as [Eadd Hadd]; try done.
  { unfold in_u64 in *. lia. }
  injection Hstep as <-. rewrite Eadd. split.
  - split; cbn; try done; try lia.
    + by eapply put_wf.
    + by etransitivity; [|eapply put_same].
    + rewrite (put_sell _ d _ _ _ Hat). lia.
    + rewrite (put_buy _ d _ _ _ Hat). lia.
  - cbn. intros Hr. destruct mt_drain as [-> _]; [lia|].
    eapply put_drained; try done. apply CanMatch_drained; try done. lia.
Qed.

(** The loop over one pool ends with the whole amount sold. *)
Lemma poolLoop_trading d sell0 p0 b0 rec fuel s s' :
  dir_ok d → in_u64 sell0 → trading d sell0 p0 b0 s →
  poolLoop fuel rec d s = Ok s' →
  trading d sell0 p0 b0 s' ∧ pt_sellAmountRemain s' = 0.
Proof.
  intros Hd Hs0. revert s. induction fuel as [|fuel IH]; intros s Htr Hrun; [done|].
  cbn in Hrun. destruct (next_returns (pt_book s) d (tr_book _ _ _ _ _ Htr) Hd) as [next Hn].
  rewrite Hn in Hrun.
  apply outcome_bind_Ok in Hrun as (order & Hder & Hrun).
  apply outcome_bind_Ok in Hrun as (s1 & Hps & Hrun).
  destruct (poolStep_trading _ _ _ _ _ _ _ Hd Hs0 Htr Hps) as (Htr1 & Hbk & Hnone).
  destruct (pt_sellAmountRemain s1 =? 0) eqn:E1; [injection Hrun as <-; split; [done|lia]|].
  destruct next as [[h id]|]; cbn in Hder; [|injection Hder as <-; rewrite Hnone in E1; done].
  destruct (next_order _ _ _ _ (tr_book _ _ _ _ _ Htr) Hd Hn) as (o & Hat & _ & Hwo & Hcan).
  rewrite Hat in Hder. injection Hder as <-.
  apply outcome_bind_Ok in Hrun as (s2 & Hos & Hrun). rewrite <- Hbk in Hat.
  destruct (orderStep_trading _ _ _ _ _ _ _ _ _ _ Hd Hs0 Htr1 Hat Hwo Hcan Hos) as [Htr2 _].
  destruct (pt_sellAmountRemain s2 =? 0) eqn:E2; [injection Hrun as <-; split; [done|lia]|].
  by eapply IH.
Qed.

(** Enough fuel is one more than the number of matchable orders: every iteration that
    does not end the loop drains one of them. *)
Lemma poolLoop_returns d sell0 p0 b0 rec fuel s :
  dir_ok d → in_u64 sell0 → trading d sell0 p0 b0 s →
  (matchable d (pt_book s) < fuel)%nat → returns (poolLoop fuel rec d s).
Proof.
  intros Hd Hs0. revert s. induction fuel as [|fuel IH]; intros s Htr Hm; [lia|].
  cbn. destruct (next_returns (pt_book s) d (tr_book _ _ _ _ _ Htr) Hd) as [next Hn].
  rewrite Hn.
  assert (Hdr : ∃ order, derefOrder (pt_book s) next = Ok order ∧
    (∀ o, order = Some o → wf_order o ∧ CanMatch o d = Ok true ∧
      ∃ h id, next = Some (h, id) ∧ orderAt (pt_book s) h = Some o) ∧
    (order = None → next = None)).
  { destruct next as [[h id]|]; cbn; [|exists None; naive_solver].
    destruct (next_order _ _ _ _ (tr_book _ _ _ _ _ Htr) Hd Hn) as (o & Hat & _ & Hwo & Hcan).
    rewrite Hat. exists (Some o). naive_solver. }
  destruct Hdr as (order & -> & Hsome & Hnone). cbn [mbind outcome_bind].
  apply outcome_bind_returns.
  { unfold poolStep. apply outcome_bind_returns.
    - apply runM_returns, SwapToReachOrderRate_returns; [done|by destruct Htr|naive_solver].
    - intros [[[[??]?]?]?] _. by case_match. }
  intros s1 Hps.
  destruct (poolStep_trading _ _ _ _ _ _ _ Hd Hs0 Htr Hps) as (Htr1 & Hbk & Hz).
  destruct (pt_sellAmountRemain s1 =? 0) eqn:E1; [done|].
  destruct order as [o|]; [|rewrite Hz in E1; done].
  destruct (Hsome o eq_refl) as (Hwo & Hcan & h & id & -> & Hat).
  apply outcome_bind_returns.
  { unfold orderStep. apply outcome_bind_returns.
    - by apply runM_returns, Match_returns.
    - intros [[[[??]?]?]?] _. by case_match. }
  intros s2 Hos. rewrite <- Hbk in Hat.
  destruct (orderStep_trading _ _ _ _ _ _ _ _ _ _ Hd Hs0 Htr1 Hat Hwo Hcan Hos) as [Htr2 Hlt].
  destruct (pt_sellAmountRemain s2 =? 0) eqn:E2; [done|].
  apply IH; [done|]. rewrite Hbk in Hlt. specialize (Hlt ltac:(lia)). lia.
Qed.

(** ** The path *)
Definition pool_done d (sell : Z) (p : Pdexv3PoolPair) b s : Prop :=
  trading d sell p b s ∧ pt_sellAmountRemain s = 0.

Inductive path_trade : list (Pdexv3PoolPair * Z * B) → list (PoolTrade B) → Z → Z → Z → Prop :=
| path_nil sell total : path_trade [] [] sell total total
| path_cons p d b pools s ss sell total out :
    pool_done d sell p b s →
    path_trade pools ss (pt_totalBuyAmount s) (pt_totalBuyAmount s) out →
    path_trade ((p, d, b) :: pools) (s :: ss) sell total out.

Definition wf_pool (pool : Pdexv3PoolPair * Z * B) : Prop :=
  wf_pair pool.1.1 ∧ dir_ok pool.1.2 ∧ book_wf pool.2.

Lemma tradePools_path fuel pools sell total ss out :
  Forall wf_pool pools → in_u64 sell → tradePools fuel pools sell total = Ok (ss, out) →
  path_trade pools ss sell total out.
Proof.
  intros Hwf. revert sell total ss out.
  induction Hwf as [|[[p d] b] pools (Hp & Hd & Hb) _ IH]; intros sell total ss out Hs Hrun; cbn in *.
  - injection Hrun as <- <-. constructor.
  - apply outcome_bind_Ok in Hrun as (s & Hl & Hrun).
    apply outcome_bind_Ok in Hrun as ([ss' out'] & Ht & [= <- <-]).
    assert (Hen : trading d sell p b (enterPool p b sell ∅))
      by (apply enterPool_trading; [..|apply Hs]; done).
    destruct (poolLoop_trading _ _ _ _ _ _ _ _ Hd Hs Hen Hl) as [Htr H0'].
    constructor; [done|]. apply IH; [by destruct Htr|done].
Qed.

Lemma tradePools_returns fuel pools sell total :
  Forall wf_pool pools → in_u64 sell →
  Forall (λ pool, matchable pool.1.2 pool.2 < fuel)%nat pools →
  returns (tradePools fuel pools sell total).
Proof.
  intros Hwf. revert sell total.
  induction Hwf as [|[[p d] b] pools (Hp & Hd & Hb) _ IH]; intros sell total Hs Hm; [done|].
  apply Forall_cons in Hm as [Hm1 Hm]. cbn in *.
  assert (Htr : trading d sell p b (enterPool p b sell ∅))
    by (apply enterPool_trading; [..|apply Hs]; done).
  apply outcome_bind_returns; [by eapply poolLoop_returns|].
  intros s Hl. destruct (poolLoop_trading _ _ _ _ _ _ _ _ Hd Hs Htr Hl) as [Htr' _].
  apply outcome_bind_returns; [|by intros []]. apply IH; [by destruct Htr'|done].
Qed.

Lemma zip3_lookup_wf (ps : list Pdexv3PoolPair) (ds : list Z) (bs : list B) :
  Forall wf_pair ps → Forall dir_ok ds → Forall book_wf bs → Forall wf_pool (zip3 ps ds bs).
Proof.
  intros Hp Hd Hb. apply Forall_lookup_2. intros i [[p d] b] Hi. unfold zip3 in Hi.
  apply lookup_zip_with_Some in Hi as (pd & b' & [= <- <-] & Hpd & Hb').
  apply lookup_zip_with_Some in Hpd as (p' & d' & [= <- <-] & Hp' & Hd').
  split_and!; by eapply Forall_lookup_1.
Qed.

(** ** What a trade records

    The changes entered for the pool and for the orders: one token in and the other out,
    and something is entered as soon as something is sold. *)
Record made d (sell0 : Z) s : Prop := {
  md_pair : ∃ f g, (pt_token0Change s, pt_token1Change s) = matchChanges d f g ∧
                   (f = 0 ∧ g = 0 ∨ 0 < f ∧ 0 < g);
  md_orders : ∀ id c, pt_orderChanges s !! id = Some c →
                ∃ f g, c = matchChanges d f g ∧ 0 < f ∧ 0 < g;
  md_some : pt_sellAmountRemain s < sell0 → 0 < pt_totalBuyAmount s ∧
              ((∃ f g, (pt_token0Change s, pt_token1Change s) = matchChanges d f g ∧ 0 < f ∧ 0 < g) ∨
               pt_orderChanges s ≠ ∅) }.

Lemma poolStep_made d sell0 p0 b0 order s s' :
  dir_ok d → in_u64 sell0 → trading d sell0 p0 b0 s → made d sell0 s →
  poolStep d order s = Ok s' → made d sell0 s'.
Proof.
  intros Hd Hs0 [] [(f1 & b1 & Ep & Hp) Ho Hsome] Hstep. unfold poolStep in Hstep.
  apply outcome_bind_Ok in Hstep as ([[[[buy rem] c0] c1] pr] & Hrun & Hstep).
  apply runM_Ok in Hrun. unfold in_u64 in Hs0. destruct (add64 _ buy <? _) eqn:Hov; [done|].
  edestruct SwapToReachOrderRate_swapped as [? ? ? Hc ? ? ? ? ? ? ? Hout Hidle];
    [exact Hd|exact tr_wf0| |exact Hrun|]; [unfold in_u64; lia|].
  destruct (wf_pair_dir d _ tr_wf0) as (_ & Hbu & _).
  destruct (add64_checked (pt_totalBuyAmount s) buy) as [Eadd Hadd]; try done.
  { unfold in_u64 in *. lia. }
  injection Hstep as <-. rewrite Eadd. set (f2 := pt_sellAmountRemain s - rem) in *.
  assert (H2 : f2 = 0 ∧ buy = 0 ∨ 0 < f2 ∧ 0 < buy).
  { destruct (decide (f2 = 0)) as [E|E]; [left; auto|right]. destruct (Hout E). lia. }
  pose proof (matchChanges_add _ _ _ _ _ _ _ _ _ Ep Hc) as Esum. unfold in_u64 in *.
  split; cbn [pt_token0Change pt_token1Change pt_orderChanges pt_sellAmountRemain pt_totalBuyAmount].
  - exists (f1 + f2), (b1 + buy). split; [done|]. lia.
  - done.
  - intros Hlt. destruct H2 as [[Ef Eb]|[Hf Hb]].
    + destruct Hsome as [Hpos Hany]; [lia|]. split; [lia|]. destruct Hany as [(f & b & E & ? & ?)|?]; [|by right].
      left. exists f, b. rewrite (matchChanges_add _ _ _ _ _ _ _ _ _ E Hc). split; [|done]. f_equal; lia.
    + split; [lia|]. left. exists (f1 + f2), (b1 + buy). split; [done|]. lia.
Qed.

Lemma orderStep_made d sell0 p0 b0 h id o s s' :
  dir_ok d → in_u64 sell0 → trading d sell0 p0 b0 s → made d sell0 s →
  wf_order o → CanMatch o d = Ok true → 0 < pt_sellAmountRemain s →
  orderStep overwriteChange d h id o s = Ok s' → made d sell0 s'.
Proof.
  intros Hd Hs0 [] [Hp Ho Hsome] Hwo Hcan Hrem Hstep. unfold orderStep in Hstep.
  apply outcome_bind_Ok in Hstep as ([[[[buy rem] c0] c1] o'] & Hrun & Hstep).
  apply runM_Ok in Hrun. unfold in_u64 in Hs0. destruct (add64 _ buy <? _) eqn:Hov; [done|].
  pose proof (Match_signs _ _ _ _ _ _ _ _ Hrun) as Hsg.
  edestruct Match_matched as [? ? ? ? Hc ? ? ? ? ? Hdrain];
    [exact Hd|exact Hwo| |exact Hrun|]; [unfold in_u64; lia|].
  destruct (wf_order_dir d o Hwo) as (_ & _ & Hbb & _).
  destruct (add64_checked (pt_totalBuyAmount s) buy) as [Eadd Hadd]; try done.
  { unfold in_u64 in *. lia. }
  assert (Hbal : buyBalance d o ≠ 0).
  { intros E. rewrite (CanMatch_drained o d Hd Hwo E) in Hcan. done. }
  assert (Hpos : 0 < pt_sellAmountRemain s - rem ∧ 0 < buy).
  { assert (Hany : 0 < pt_sellAmountRemain s - rem ∨ 0 < buy).
    { destruct (decide (rem = 0)); [left; lia|right]. destruct Hdrain as [-> _]; lia. }
    by_dir d; cbn in Hc; simplify_eq; nia. }
  injection Hstep as <-. rewrite Eadd. unfold in_u64 in *.
  split; cbn [pt_token0Change pt_token1Change pt_orderChanges pt_sellAmountRemain pt_totalBuyAmount].
  - done.
  - intros i c. rewrite lookup_insert. case_decide; [|apply Ho]. intros [= <-].
    exists (pt_sellAmountRemain s - rem), buy. done.
  - intros _. split; [lia|]. right. apply insert_non_empty.
Qed.

Lemma poolLoop_made d sell0 p0 b0 fuel s s' :
  dir_ok d → in_u64 sell0 → trading d sell0 p0 b0 s → made d sell0 s →
  poolLoop fuel overwriteChange d s = Ok s' → made d sell0 s'.
Proof.
  intros Hd Hs0. revert s. induction fuel as [|fuel IH]; intros s Htr Hm Hrun; [done|].
  cbn in Hrun. destruct (next_returns (pt_book s) d (tr_book _ _ _ _ _ Htr) Hd) as [next Hn].
  rewrite Hn in Hrun.
  apply outcome_bind_Ok in Hrun as (order & Hder & Hrun).
  apply outcome_bind_Ok in Hrun as (s1 & Hps & Hrun).
  destruct (poolStep_trading _ _ _ _ _ _ _ Hd Hs0 Htr Hps) as (Htr1 & Hbk & Hnone).
  pose proof (poolStep_made _ _ _ _ _ _ _ Hd Hs0 Htr Hm Hps) as Hm1.
  destruct (pt_sellAmountRemain s1 =? 0) eqn:E1; [by injection Hrun as <-|].
  destruct next as [[h id]|]; cbn in Hder; [|injection Hder as <-; rewrite Hnone in E1; done].
  destruct (next_order _ _ _ _ (tr_book _ _ _ _ _ Htr) Hd Hn) as (o & Hat & _ & Hwo & Hcan).
  rewrite Hat in Hder. injection Hder as <-.
  apply outcome_bind_Ok in Hrun as (s2 & Hos & Hrun). rewrite <- Hbk in Hat.
  pose proof (tr_sell _ _ _ _ _ Htr1) as Hr1.
  destruct (orderStep_trading _ _ _ _ _ _ _ _ _ _ Hd Hs0 Htr1 Hat Hwo Hcan Hos) as [Htr2 _].
  pose proof (orderStep_made _ _ _ _ _ _ _ _ _ Hd Hs0 Htr1 Hm1 Hwo Hcan ltac:(lia) Hos) as Hm2.
  destruct (pt_sellAmountRemain s2 =? 0) eqn:E2; [by injection Hrun as <-|].
  by eapply IH.
Qed.

(** Every pool of a path that sells something records a change. *)
Lemma tradePools_made fuel pools sell total ss out :
  Forall wf_pool pools → in_u64 sell → 0 < sell → tradePools fuel pools sell total = Ok (ss, out) →
  Forall2 (λ pool s, ∃ sell, 0 < sell ∧ pt_sellAmountRemain s = 0 ∧ made pool.1.2 sell s) pools ss.
Proof.
  intros Hwf. revert sell total ss out.
  induction Hwf as [|[[p d] b] pools (Hp & Hd & Hb) _ IH]; intros sell total ss out Hs Hpos Hrun; cbn in *.
  - injection Hrun as <- <-. constructor.
  - apply outcome_bind_Ok in Hrun as (s & Hl & Hrun).
    apply outcome_bind_Ok in Hrun as ([ss' out'] & Ht & [= <- <-]).
    assert (Hen : trading d sell p b (enterPool p b sell ∅))
      by (apply enterPool_trading; [..|apply Hs]; done).
    assert (Hm0 : made d sell (enterPool p b sell ∅)).
    { split; cbn; [|intros id c Hc; by rewrite lookup_empty in Hc|lia].
      exists 0, 0. split; [by by_dir d|by left]. }
    destruct (poolLoop_trading _ _ _ _ _ _ _ _ Hd Hs Hen Hl) as [Htr Hz].
    pose proof (poolLoop_made _ _ _ _ _ _ _ Hd Hs Hen Hm0 Hl) as Hm.
    destruct (md_some _ _ _ Hm) as [Hb0 _]; [lia|].
    constructor; [by exists sell|]. eapply IH; [by destruct Htr|done|done].
Qed.

(** C32: an accepted trade conserves tokens in every pool of the path.  In each pool the
    whole amount to sell ends up in the reserves or with the matched orders, everything
    bought came out of them, the reserves stay well formed and their product does not
    decrease; the amount bought in a pool is what is sold in the next, and the amount
    paid out is that of the last pool, at least the requested minimum. *)
Theorem MaybeAcceptTrade_conserves fuel amountIn fee path recv reserves dirs tok minAmount books
    md reserves' books'
    (Hres : Forall wf_pair reserves) (Hdirs : Forall dir_ok dirs) (Hbooks : Forall book_wf books)
    (Hin : in_u64 amountIn) (Hfee : in_u64 fee)
    (Hacc : MaybeAcceptTrade fuel amountIn fee path recv reserves dirs tok minAmount books =
              Ok (md, reserves', books')) :
  fee ≤ amountIn ∧ minAmount ≤ at_Amount md ∧
  ∃ ss, path_trade (zip3 reserves dirs books) ss (amountIn - fee) 0 (at_Amount md) ∧
    reserves' = pt_pair <$> ss ∧ books' = pt_book <$> ss ∧
    at_PairChanges md = (λ s, (pt_token0Change s, pt_token1Change s)) <$> ss.
Proof.
  unfold MaybeAcceptTrade in Hacc. destruct (_ || _); [done|].
  destruct (amountIn <? fee) eqn:Hlt; [done|].
  assert (Hsub : sub64 amountIn fee = amountIn - fee)
    by (apply sub64_exact; unfold in_u64 in *; lia).
  apply outcome_bind_Ok in Hacc as ([ss out] & Ht & Hacc).
  destruct (out <? minAmount) eqn:Hmin; [done|]. injection Hacc as <- <- <-.
  split; [lia|]. cbn. split; [lia|]. exists ss. split_and!; try done.
  rewrite Hsub in Ht. apply (tradePools_path fuel); [|unfold in_u64 in *; lia|done].
  by apply zip3_lookup_wf.
Qed.

(** C39: trades terminate.  One iteration per matchable order plus one is enough for
    every pool, and on well-formed state the handler returns (accepted or refunded with
    an error): it neither panics nor loops. *)
Theorem MaybeAcceptTrade_returns fuel amountIn fee path recv reserves dirs tok minAmount books
    (Hres : Forall wf_pair reserves) (Hdirs : Forall dir_ok dirs) (Hbooks : Forall book_wf books)
    (Hin : in_u64 amountIn) (Hfee : in_u64 fee)
    (Hfuel : ∀ d b, d ∈ dirs → b ∈ books → (matchable d b < fuel)%nat) :
  returns (MaybeAcceptTrade fuel amountIn fee path recv reserves dirs tok minAmount books).
Proof.
  unfold MaybeAcceptTrade. destruct (_ || _); [done|].
  destruct (amountIn <? fee) eqn:Hlt; [done|].
  apply outcome_bind_returns; [|intros [ss out] _; by case_match].
  apply tradePools_returns; [by apply zip3_lookup_wf|apply u64_bound|].
  apply Forall_lookup_2. intros i [[p d] b] Hi. unfold zip3 in Hi.
  apply lookup_zip_with_Some in Hi as (pd & b' & [= <- <-] & Hpd & Hb').
  apply lookup_zip_with_Some in Hpd as (p' & d' & [= <- <-] & Hp' & Hd').
  apply Hfuel; by eapply list_elem_of_lookup_2.
Qed.
End trade_props.

(** A two-pool path with an order book in the first pool. *)
Definition trade_pools : list Pdexv3PoolPair :=
  [sample_pool; mkPoolPair 1000 0 "B" "C" 90000 90000 90000 90000 10000].
Definition trade_book : Orderbook :=
  mkOrderbook [mkOrder "o1" "" 1000 2300 0 2300 TradeDirectionSell1 ("", "")].
Definition trade_books : list Orderbook := [trade_book; mkOrderbook []].
Abbreviation sample_trade :=
  (MaybeAcceptTrade 2 5000 0 ["p1"; "p2"] "recv" trade_pools
    [TradeDirectionSell0; TradeDirectionSell0] "C" 9000 trade_books).

Lemma sample_trade_wf : Forall wf_pair trade_pools ∧
  Forall dir_ok [TradeDirectionSell0; TradeDirectionSell0] ∧ Forall book_wf trade_books.
Proof.
  split_and!.
  - repeat constructor; cbn; unfold in_u64, word64; lia.
  - repeat constructor.
  - repeat constructor; cbn; unfold in_u64, word64; lia.
Qed.

Lemma MaybeAcceptTrade_conserves_witness :
  match sample_trade with Ok (md, _, _) => 9000 ≤ at_Amount md | _ => False end.
Proof.
  destruct sample_trade as [[[md r] b]| | |] eqn:E; [|vm_compute in E; discriminate E..].
  destruct sample_trade_wf as (Hp & Hd & Hb).
  apply (MaybeAcceptTrade_conserves 2 5000 0 ["p1"; "p2"] "recv" trade_pools
    [TradeDirectionSell0; TradeDirectionSell0] "C" 9000 trade_books md r b Hp Hd Hb);
    [unfold in_u64, word64; lia|unfold in_u64, word64; lia|exact E].
Defined.

Lemma MaybeAcceptTrade_returns_witness : returns sample_trade.
Proof.
  destruct sample_trade_wf as (Hp & Hd & Hb).
  apply (MaybeAcceptTrade_returns 2 5000 0 ["p1"; "p2"] "recv" trade_pools
    [TradeDirectionSell0; TradeDirectionSell0] "C" 9000 trade_books Hp Hd Hb);
    [unfold in_u64, word64; lia|unfold in_u64, word64; lia|].
  intros d b Hd' Hb'. repeat (apply elem_of_cons in Hd' as [->|Hd']); try by apply elem_of_nil in Hd'.
  all: repeat (apply elem_of_cons in Hb' as [->|Hb']); try by apply elem_of_nil in Hb'.
  all: apply Nat.ltb_lt; vm_compute; reflexivity.
Defined.
