(* ===== verification/Reward.v ===== *)
(** Fees and rewards: splitting a trading reward between the pool and its limit orders
    ([blockchain/pdex/v2utils/utils.go]) and booking the parts of a fee on a pool
    ([AddStakingAndProtocolFee], [AddLPFee], [AddLMRewards] of [v2utils/reserve.go]). *)
From S2P Require Import Prelude Hash RawDB Order.

Local Open Scope Z_scope.

(** ** Making volumes *)
Definition getMakingAmountFromChange (change : Z * Z) : Z :=
  if change.1 <? 0 then - change.1 else - change.2.

(** [m[k] += v] on a map whose missing entries read as zero. *)
Definition map_add {K} `{Countable K} (k : K) (v : Z) (m : gmap K Z) : gmap K Z :=
  <[k := default 0 (m !! k) + v]> m.

Definition GetMakingVolumes (pairChange : Z * Z) (orderChange : gmap string (Z * Z))
    (nftIDs : gmap string string) : Z * gmap string Z * Z :=
  let ammMakingAmt := getMakingAmountFromChange pairChange in
  let orderMakingAmts := map_fold (λ ordID change m,
    map_add (default "" (nftIDs !! ordID)) (getMakingAmountFromChange change) m) ∅ orderChange in
  let sellToken0 := (0 <? pairChange.1) ||
    existsb (λ oc : string * (Z * Z), 0 <? oc.2.1) (map_to_list orderChange) in
  (ammMakingAmt, orderMakingAmts,
   if sellToken0 then TradeDirectionSell0 else TradeDirectionSell1).

(** ** Proportional splits

    The loop shared by [SplitTradingReward] and [SplitOrderRewardLiquidityMining]: the keys
    in increasing order, each paid in proportion to its weight among the weights that are
    left.  Returns the rewards and what remains of the amount. *)
Fixpoint splitLoop (keys : list string) (weights : gmap string Z) (total reward : Z)
    (orderRewards : gmap string Z) : outcome (gmap string Z * Z) :=
  match keys with
  | [] => Ok (orderRewards, reward)
  | nftID :: keys =>
      let weight := default 0 (weights !! nftID) in
      orderReward ← (if 0 <? weight then bigDiv (reward * weight) total else Ok 0);
      splitLoop keys weights (total - weight) (reward - orderReward)
        (<[nftID := bigUint64 orderReward]> orderRewards)
  end.

(** The caller passes a fresh [big.Int]; its in-place update is not observed. *)
Definition SplitTradingReward (reward ratio bps ammMakingAmt : Z)
    (orderMakingAmts : gmap string Z) : outcome (Z * gmap string Z) :=
  if ratio =? 0 then Ok (bigUint64 reward, ∅)
  else
    let weightedAmmMakingAmt := ammMakingAmt * bps in
    let weightedOrderMakingAmts := (λ amt, amt * ratio) <$> orderMakingAmts in
    let weightedMakingAmt := weightedAmmMakingAmt + map_sum (λ w, w) weightedOrderMakingAmts in
    ammReward ← (if 0 <? weightedAmmMakingAmt
                 then bigDiv (reward * weightedAmmMakingAmt) weightedMakingAmt else Ok 0);
    r ← splitLoop (sortedKeys weightedOrderMakingAmts) weightedOrderMakingAmts
          (weightedMakingAmt - weightedAmmMakingAmt) (reward - ammReward) ∅;
    Ok (bigUint64 ammReward, r.1).

Definition SplitOrderRewardLiquidityMining (volume : gmap string Z) (amount : Z) (tokenID : Hash)
    : outcome (gmap string Z) :=
  r ← splitLoop (sortedKeys volume) volume (map_sum (λ v, v) volume) amount ∅;
  Ok r.1.

(** ** Booking a fee on a pool *)

(** [rootFees[tokenID] += fee], skipped when the fee is zero or out of range. *)
Definition bookFee (tokenID : Hash) (fee : Z) (rootFees : gmap Hash Z) : gmap Hash Z :=
  if isU64 fee && negb (bigUint64 fee =? 0)
  then <[tokenID := add64 (default 0 (rootFees !! tokenID)) (bigUint64 fee)]> rootFees
  else rootFees.

(** The percentages that apply, given whether the token is distributed to stakers and
    whether the pool has any share. *)
Definition feePercents (shareAmount : Z) (isStakingRewardToken : bool)
    (protocolFeePercent stakingPoolRewardPercent : Z) : Z * Z :=
  let stakingPoolRewardPercent :=
    if negb isStakingRewardToken then 0 else stakingPoolRewardPercent in
  if shareAmount =? 0 then
    if negb isStakingRewardToken then (100, stakingPoolRewardPercent)
    else (protocolFeePercent, sub64 100 protocolFeePercent)
  else (protocolFeePercent, stakingPoolRewardPercent).

Definition AddStakingAndProtocolFee (tp : Pdexv3PoolPair) (tokenID : Hash) (amount : Z)
    (rootProtocolFees rootStakingPoolFees : gmap Hash Z)
    (protocolFeePercent stakingPoolRewardPercent : Z) (stakingRewardTokens : list Hash)
    : gmap Hash Z * gmap Hash Z * Z :=
  let isStakingRewardToken := bool_decide (tokenID ∈ stakingRewardTokens) in
  let '(protocolFeePercent, stakingPoolRewardPercent) :=
    feePercents (pp_shareAmount tp) isStakingRewardToken
      protocolFeePercent stakingPoolRewardPercent in
  let protocolFees := amount * protocolFeePercent / 100 in
  let rootProtocolFees := bookFee tokenID protocolFees rootProtocolFees in
  let stakingRewards := amount * stakingPoolRewardPercent / 100 in
  let rootStakingPoolFees := bookFee tokenID stakingRewards rootStakingPoolFees in
  (rootProtocolFees, rootStakingPoolFees, amount - protocolFees - stakingRewards).

Definition AddLPFee (tp : Pdexv3PoolPair) (tokenID : Hash) (amount baseLPPerShare : Z)
    (rootLpFeesPerShare : gmap Hash Z) : gmap Hash Z :=
  if pp_shareAmount tp =? 0 then rootLpFeesPerShare
  else
    let oldLPFeesPerShare := default 0 (rootLpFeesPerShare !! tokenID) in
    let deltaLPFeesPerShare := amount * baseLPPerShare / pp_shareAmount tp in
    <[tokenID := oldLPFeesPerShare + deltaLPFeesPerShare]> rootLpFeesPerShare.

Definition AddLMRewards (tp : Pdexv3PoolPair) (tokenID : Hash) (amount baseLPPerShare : Z)
    (rootLmRewardsPerShare : gmap Hash Z) : gmap Hash Z :=
  if pp_shareAmount tp =? pp_lmLockedShareAmount tp then rootLmRewardsPerShare
  else
    let oldLMRewardsPerShare := default 0 (rootLmRewardsPerShare !! tokenID) in
    let unlockedShareAmount := sub64 (pp_shareAmount tp) (pp_lmLockedShareAmount tp) in
    let deltaLMRewardsPerShare := amount * baseLPPerShare / unlockedShareAmount in
    <[tokenID := oldLMRewardsPerShare + deltaLMRewardsPerShare]> rootLmRewardsPerShare.

(** ** The splits are exact *)
Lemma splitLoop_spec keys weights total reward acc :
  NoDup keys → (∀ k, k ∈ keys → acc !! k = None) →
  (∀ k w, weights !! k = Some w → 0 ≤ w) →
  total = list_sum (λ k, default 0 (weights !! k)) keys → in_u64 reward →
  ∃ rs left, splitLoop keys weights total reward acc = Ok (rs, left) ∧
    map_sum (λ r, r) rs = map_sum (λ r, r) acc + (reward - left) ∧
    left = (if 0 <? total then 0 else reward) ∧
    (∀ k r, rs !! k = Some r → acc !! k = Some r ∨ 0 ≤ r ≤ reward).
Proof.
  revert total reward acc. induction keys as [|k keys IH]; intros total reward acc Hnd Hacc Hw Ht Hr.
  - cbn in Ht. subst. eexists acc, reward. cbn. split_and!; auto. lia.
  - apply NoDup_cons in Hnd as [Hk Hnd]. rewrite list_sum_cons in Ht.
    cbn [splitLoop]. set (w := default 0 (weights !! k)) in *.
    assert (Hw0 : 0 ≤ w). { unfold w. destruct (weights !! k) eqn:E; cbn; [by eapply Hw|lia]. }
    assert (Hrest : 0 ≤ list_sum (λ k, default 0 (weights !! k)) keys).
    { apply list_sum_nonneg, Forall_forall. intros x _.
      destruct (weights !! x) eqn:E; cbn; [by eapply Hw|lia]. }
    assert (Hq : ∃ q, (if 0 <? w then bigDiv (reward * w) total else Ok 0) = Ok q ∧
      0 ≤ q ≤ reward ∧ (w = total → 0 < total → q = reward) ∧ (w = 0 → q = 0)).
    { unfold in_u64 in Hr. destruct (0 <? w) eqn:Hpos; [|exists 0; split_and!; (done || lia)].
      rewrite bigDiv_pos by lia. eexists. split; [done|].
      assert (0 ≤ reward * w / total) by (apply div_nonneg; nia).
      assert (reward * w / total ≤ reward) by (apply div_le_l; nia).
      split; [lia|]. split; [|lia]. intros -> _. apply Z.div_mul. lia. }
    destruct Hq as (q & -> & Hq & Hqall & Hq0). cbn [mbind outcome_bind].
    assert (Hqu : in_u64 q) by (unfold in_u64 in *; lia).
    rewrite bigUint64_small by done.
    destruct (IH (total - w) (reward - q) (<[k:=q]> acc)) as (rs & left & Hrun & Hsum & Hleft & Hb);
      try done.
    + intros x Hx. rewrite lookup_insert_ne; [by apply Hacc; right|]. intros ->. done.
    + lia.
    + unfold in_u64 in *. lia.
    + exists rs, left. split; [done|].
      rewrite map_sum_insert_new in Hsum by (apply Hacc; left). split; [lia|]. split.
      * destruct (0 <? total - w) eqn:E1, (0 <? total) eqn:E2; lia.
      * intros x r Hx. apply Hb in Hx as [Hx|Hx]; [|right; lia].
        destruct (decide (k = x)) as [->|]; [rewrite lookup_insert_eq in Hx; simplify_eq; right; lia|].
        rewrite lookup_insert_ne in Hx by done. by left.
Qed.

Lemma default_from_option (o : option Z) : from_option (λ w, w) 0 o = default 0 o.
Proof. by destruct o. Qed.

Lemma splitLoop_map weights total reward :
  (∀ k w, weights !! k = Some w → 0 ≤ w) → total = map_sum (λ w, w) weights → in_u64 reward →
  ∃ rs left, splitLoop (sortedKeys weights) weights total reward ∅ = Ok (rs, left) ∧
    map_sum (λ r, r) rs = reward - left ∧ left = (if 0 <? total then 0 else reward) ∧
    (∀ k r, rs !! k = Some r → 0 ≤ r ≤ reward).
Proof.
  intros Hw Ht Hr.
  destruct (splitLoop_spec (sortedKeys weights) weights total reward ∅)
    as (rs & left & Hrun & Hsum & Hleft & Hb); try done.
  - apply NoDup_sortedKeys.
  - rewrite Ht, map_sum_sortedKeys. unfold list_sum. induction (sortedKeys weights); cbn; [done|].
    by rewrite default_from_option, IHl.
  - exists rs, left. rewrite map_sum_empty in Hsum. split_and!; try done. 
    intros k r Hk. destruct (Hb k r Hk) as [Hx|]; [|done]. by rewrite lookup_empty in Hx.
Qed.

Lemma SplitTradingReward_spec reward ratio bps amm orders
    (Hr : in_u64 reward) (Hratio : 0 ≤ ratio) (Hbps : 0 < bps) (Hamm : 0 ≤ amm)
    (Hord : ∀ k v, orders !! k = Some v → 0 ≤ v) :
  ∃ a rs, SplitTradingReward reward ratio bps amm orders = Ok (a, rs) ∧
    0 ≤ a ≤ reward ∧ (∀ k r, rs !! k = Some r → 0 ≤ r ≤ reward) ∧
    (ratio = 0 ∨ 0 < amm + map_sum (λ v, v) orders → a + map_sum (λ r, r) rs = reward).
Proof.
  unfold SplitTradingReward. unfold in_u64 in Hr. destruct (ratio =? 0) eqn:Hz.
  { exists reward, ∅. rewrite bigUint64_small by done. split_and!; try done; try lia.
    intros _. rewrite map_sum_empty. lia. }
  set (ws := (λ amt, amt * ratio) <$> orders).
  assert (Hws : map_sum (λ w, w) ws = ratio * map_sum (λ v, v) orders).
  { unfold ws. rewrite map_sum_fmap, <- map_sum_scale. apply map_sum_ext. intros; lia. }
  assert (Hpos : ∀ k w, ws !! k = Some w → 0 ≤ w).
  { intros k w Hk. unfold ws in Hk. rewrite lookup_fmap in Hk.
    destruct (orders !! k) as [v|] eqn:E; cbn in Hk; [|done]. simplify_eq.
    specialize (Hord _ _ E). nia. }
  assert (Hsum0 : 0 ≤ map_sum (λ v, v) orders) by by apply map_sum_nonneg.
  rewrite Hws. set (W := amm * bps + ratio * map_sum (λ v, v) orders).
  assert (Hq : ∃ q, (if 0 <? amm * bps then bigDiv (reward * (amm * bps)) W else Ok 0) = Ok q ∧
    0 ≤ q ≤ reward ∧ (0 < amm → map_sum (λ v, v) orders = 0 → q = reward)).
  { destruct (0 <? amm * bps) eqn:E; [|exists 0; split_and!; [done|lia|lia|intros; nia]].
    rewrite bigDiv_pos by nia. eexists. split; [done|].
    assert (0 ≤ reward * (amm * bps) / W) by (apply div_nonneg; nia).
    assert (reward * (amm * bps) / W ≤ reward) by (apply div_le_l; nia).
    split; [lia|]. intros _ Hnone. unfold W. rewrite Hnone, Z.mul_0_r, Z.add_0_r.
    apply Z.div_mul. lia. }
  destruct Hq as (q & -> & Hq & Hqall). cbn [mbind outcome_bind].
  destruct (splitLoop_map ws (W - amm * bps) (reward - q)) as (rs & left & -> & Hsum & Hleft & Hb);
    [done|lia|unfold in_u64; lia|].
  cbn [mbind outcome_bind fst]. exists q, rs. rewrite bigUint64_small by (unfold in_u64; lia).
  split_and!; try done; try lia; [intros k r Hk; specialize (Hb k r Hk); lia|].
  intros [|Hp]; [lia|]. rewrite Hsum, Hleft.
  destruct (0 <? W - amm * bps) eqn:E; [lia|].
  rewrite Hqall; [lia|nia|nia].
Qed.

(** Splitting a trading reward loses nothing.  For non-negative making volumes the
    split always succeeds, every party gets a non-negative amount, and the pool's part
    plus the parts of all order makers is exactly the reward (unless nobody made any
    volume, when nothing is paid). *)
Theorem SplitTradingReward_exact reward ratio bps amm orders
    (Hr : in_u64 reward) (Hratio : 0 ≤ ratio) (Hbps : 0 < bps) (Hamm : 0 ≤ amm)
    (Hord : ∀ k v, orders !! k = Some v → 0 ≤ v) :
  ∃ a rs, SplitTradingReward reward ratio bps amm orders = Ok (a, rs) ∧
    0 ≤ a ≤ reward ∧ (∀ k r, rs !! k = Some r → 0 ≤ r ≤ reward) ∧
    (ratio = 0 ∨ 0 < amm + map_sum (λ v, v) orders → a + map_sum (λ r, r) rs = reward).
Proof. by apply SplitTradingReward_spec. Qed.

Lemma SplitTradingReward_exact_witness :
  ∃ a rs, SplitTradingReward 100 500 10000 30 {["n1" := 7; "n2" := 0]} = Ok (a, rs) ∧
    (500 = 0 ∨ 0 < 30 + map_sum (λ v, v) ({["n1" := 7; "n2" := 0]} : gmap string Z) →
     a + map_sum (λ r, r) rs = 100).
Proof.
  destruct (SplitTradingReward_exact 100 500 10000 30 {["n1" := 7; "n2" := 0]})
    as (a & rs & H1 & _ & _ & H2); [unfold in_u64, word64; lia|lia|lia|lia| |eauto].
  intros k v Hk. apply lookup_insert_Some in Hk as [[_ <-]|[_ Hk]]; [lia|].
  apply lookup_singleton_Some in Hk as [_ <-]. lia.
Defined.

(** The mining reward of one token's order makers is paid out in full. *)
Theorem SplitOrderRewardLiquidityMining_exact volume amount tok
    (Ha : in_u64 amount) (Hv : ∀ k v, volume !! k = Some v → 0 ≤ v)
    (Hpos : 0 < map_sum (λ v, v) volume) :
  ∃ rs, SplitOrderRewardLiquidityMining volume amount tok = Ok rs ∧
    map_sum (λ r, r) rs = amount ∧ (∀ k r, rs !! k = Some r → 0 ≤ r ≤ amount).
Proof.
  unfold SplitOrderRewardLiquidityMining.
  destruct (splitLoop_map volume _ amount Hv eq_refl Ha) as (rs & left & -> & Hsum & Hleft & Hb).
  exists rs. cbn. split_and!; try done. rewrite Hsum, Hleft.
  rewrite (proj2 (Z.ltb_lt _ _) Hpos). lia.
Qed.

Lemma SplitOrderRewardLiquidityMining_exact_witness :
  ∃ rs, SplitOrderRewardLiquidityMining {["n1" := 3; "n2" := 4]} 1000 PRVCoinID = Ok rs ∧
    map_sum (λ r, r) rs = 1000.
Proof.
  destruct (SplitOrderRewardLiquidityMining_exact {["n1" := 3; "n2" := 4]} 1000 PRVCoinID)
    as (rs & H1 & H2 & _); [unfold in_u64, word64; lia| |reflexivity|eauto].
  intros k v Hk. apply lookup_insert_Some in Hk as [[_ <-]|[_ Hk]]; [lia|].
  apply lookup_singleton_Some in Hk as [_ <-]. lia.
Defined.

(** ** Booking fees *)
Definition feeOf (tok : Hash) (m : gmap Hash Z) : Z := default 0 (m !! tok).

Lemma bookFee_spec tok fee m tok' : 0 ≤ fee → 0 ≤ feeOf tok m → feeOf tok m + fee < word64 →
  feeOf tok' (bookFee tok fee m) = feeOf tok' m + (if decide (tok = tok') then fee else 0).
Proof.
  intros H0 Hm Hb. unfold bookFee.
  assert (Hu : in_u64 fee) by (unfold in_u64; lia).
  rewrite (proj2 (in_u64_iff fee) Hu), bigUint64_small by done.
  destruct (fee =? 0) eqn:E; cbn [negb andb].
  - apply Z.eqb_eq in E as ->. case_decide; lia.
  - unfold feeOf in *. rewrite lookup_insert. case_decide as Hd; cbn; [|lia].
    subst. unfold add64. rewrite u64_small; [done|]. unfold in_u64. lia.
Qed.

Lemma percent_split amount p q : 0 ≤ amount → 0 ≤ p → 0 ≤ q → p + q ≤ 100 →
  0 ≤ amount * p / 100 ∧ 0 ≤ amount * q / 100 ∧
  amount * p / 100 + amount * q / 100 ≤ amount ∧
  (p + q = 100 → amount - 1 ≤ amount * p / 100 + amount * q / 100).
Proof.
  intros Ha Hp Hq Hs. pose proof (div_spec (amount * p) 100 ltac:(lia)).
  pose proof (div_spec (amount * q) 100 ltac:(lia)).
  assert (0 ≤ amount * p / 100) by (apply div_nonneg; nia).
  assert (0 ≤ amount * q / 100) by (apply div_nonneg; nia).
  split_and!; try done; [nia|]. intros E. replace q with (100 - p) in * by lia. nia.
Qed.

Lemma feePercents_sum share st p q : 0 ≤ p → 0 ≤ q → p + q ≤ 100 →
  let '(p', q') := feePercents share st p q in
  0 ≤ p' ∧ 0 ≤ q' ∧ p' + q' ≤ 100 ∧ (share = 0 → p' + q' = 100).
Proof.
  intros Hp Hq Hs. unfold feePercents.
  destruct (share =? 0) eqn:E; destruct st; cbn; try lia.
  rewrite sub64_exact; unfold in_u64, word64; lia.
Qed.

Lemma AddStakingAndProtocolFee_spec tp tok amount P S p q toks
    (Ha : 0 ≤ amount) (Hp : 0 ≤ p) (Hq : 0 ≤ q) (Hpq : p + q ≤ 100)
    (HP : 0 ≤ feeOf tok P) (HS : 0 ≤ feeOf tok S)
    (HbP : feeOf tok P + amount < word64) (HbS : feeOf tok S + amount < word64) :
  let '(P', S', remain) := AddStakingAndProtocolFee tp tok amount P S p q toks in
  (feeOf tok P' - feeOf tok P) + (feeOf tok S' - feeOf tok S) + remain = amount ∧
  feeOf tok P ≤ feeOf tok P' ∧ feeOf tok S ≤ feeOf tok S' ∧ 0 ≤ remain ∧
  (∀ tok', tok' ≠ tok → feeOf tok' P' = feeOf tok' P ∧ feeOf tok' S' = feeOf tok' S) ∧
  (pp_shareAmount tp = 0 → remain ≤ 1).
Proof.
  unfold AddStakingAndProtocolFee. set (st := bool_decide _).
  pose proof (feePercents_sum (pp_shareAmount tp) st p q Hp Hq Hpq) as Hs.
  destruct (feePercents _ st p q) as [p' q']. destruct Hs as (Hp' & Hq' & Hs & Hs0).
  destruct (percent_split amount p' q') as (H1 & H2 & H3 & H4); [done..|].
  rewrite !bookFee_spec by lia. rewrite !decide_True by done.
  split_and!; [lia|lia|lia|lia|..].
  - intros tok' Hne. rewrite !bookFee_spec by lia. rewrite !decide_False by done. lia.
  - intros E. specialize (H4 (Hs0 E)). lia.
Qed.

Lemma AddStakingAndProtocolFee_remain tp tok amount P S p q toks :
  0 ≤ amount → 0 ≤ p → 0 ≤ q → p + q ≤ 100 →
  let '(_, _, remain) := AddStakingAndProtocolFee tp tok amount P S p q toks in
  0 ≤ remain ≤ amount.
Proof.
  intros Ha Hp Hq Hpq. unfold AddStakingAndProtocolFee. set (st := bool_decide _).
  pose proof (feePercents_sum (pp_shareAmount tp) st p q Hp Hq Hpq) as Hs.
  destruct (feePercents _ st p q) as [p' q']. destruct Hs as (Hp' & Hq' & Hs & _).
  destruct (percent_split amount p' q') as (H1 & H2 & H3 & _); [done..|]. lia.
Qed.

(** Without room a fee account wraps around, which only loses fees. *)
Lemma bookFee_le tok fee m t : 0 ≤ fee → 0 ≤ feeOf t m →
  0 ≤ feeOf t (bookFee tok fee m) ≤ feeOf t m + (if decide (tok = t) then fee else 0).
Proof.
  intros H0 Hm. unfold bookFee. destruct (isU64 fee && _) eqn:E; [|case_decide; lia].
  apply andb_true_iff in E as [Hu _]. apply in_u64_iff in Hu.
  unfold feeOf in *. rewrite lookup_insert. case_decide as Hd; cbn; [subst|lia].
  rewrite bigUint64_small by done. unfold add64, u64. set (x := default 0 (m !! t)) in *.
  pose proof (Z.mod_pos_bound (x + fee) word64 word64_pos).
  pose proof (Z.mod_le (x + fee) word64 ltac:(lia) word64_pos). lia.
Qed.

Lemma AddStakingAndProtocolFee_le tp tok amount P S p q toks t :
  0 ≤ amount → 0 ≤ p → 0 ≤ q → p + q ≤ 100 → 0 ≤ feeOf t P → 0 ≤ feeOf t S →
  let '(P', S', remain) := AddStakingAndProtocolFee tp tok amount P S p q toks in
  0 ≤ feeOf t P' ∧ 0 ≤ feeOf t S' ∧
  feeOf t P' + feeOf t S' + (if decide (tok = t) then remain else 0) ≤
    feeOf t P + feeOf t S + (if decide (tok = t) then amount else 0).
Proof.
  intros Ha Hp Hq Hpq HP HS. unfold AddStakingAndProtocolFee. set (st := bool_decide _).
  pose proof (feePercents_sum (pp_shareAmount tp) st p q Hp Hq Hpq) as Hs.
  destruct (feePercents _ st p q) as [p' q']. destruct Hs as (Hp' & Hq' & Hs & _).
  destruct (percent_split amount p' q') as (H1 & H2 & H3 & _); [done..|].
  pose proof (bookFee_le tok _ P t H1 HP). pose proof (bookFee_le tok _ S t H2 HS).
  case_decide; lia.
Qed.

(** Booking a fee on a pool is exact: protocol part, staking part and the part left
    for liquidity providers and order makers add up to the fee, no part is negative, no
    other token's account moves, and a pool without shares keeps at most one unit back. *)
Theorem AddStakingAndProtocolFee_exact tp tok amount P S p q toks
    (Ha : 0 ≤ amount) (Hp : 0 ≤ p) (Hq : 0 ≤ q) (Hpq : p + q ≤ 100)
    (HP : 0 ≤ feeOf tok P) (HS : 0 ≤ feeOf tok S)
    (HbP : feeOf tok P + amount < word64) (HbS : feeOf tok S + amount < word64) :
  let '(P', S', remain) := AddStakingAndProtocolFee tp tok amount P S p q toks in
  (feeOf tok P' - feeOf tok P) + (feeOf tok S' - feeOf tok S) + remain = amount ∧
  feeOf tok P ≤ feeOf tok P' ∧ feeOf tok S ≤ feeOf tok S' ∧ 0 ≤ remain ∧
  (∀ tok', tok' ≠ tok → feeOf tok' P' = feeOf tok' P ∧ feeOf tok' S' = feeOf tok' S) ∧
  (pp_shareAmount tp = 0 → remain ≤ 1).
Proof. by apply AddStakingAndProtocolFee_spec. Qed.

Lemma AddStakingAndProtocolFee_exact_witness :
  let '(P', S', remain) := AddStakingAndProtocolFee
    (mkPoolPair 5 0 "A" "B" 10 10 10 10 10000) PRVCoinID 1001 ∅ ∅ 10 20 [PRVCoinID] in
  (feeOf PRVCoinID P' - feeOf PRVCoinID ∅) + (feeOf PRVCoinID S' - feeOf PRVCoinID ∅) + remain
    = 1001.
Proof.
  pose proof (AddStakingAndProtocolFee_exact (mkPoolPair 5 0 "A" "B" 10 10 10 10 10000) PRVCoinID
    1001 ∅ ∅ 10 20 [PRVCoinID]) as H.
  destruct (AddStakingAndProtocolFee _ _ _ _ _ _ _ _) as [[P' S'] remain].
  apply H; first [lia|vm_compute; congruence].
Defined.

(** ** Making volumes *)
Lemma making_nonneg c : (c.1 = 0 ∧ c.2 = 0) ∨ c.1 * c.2 < 0 → 0 ≤ getMakingAmountFromChange c.
Proof. unfold getMakingAmountFromChange. destruct (c.1 <? 0) eqn:E; nia. Qed.

Lemma map_sum_map_add k v (m : gmap string Z) :
  map_sum (λ x, x) (map_add k v m) = map_sum (λ x, x) m + v.
Proof. unfold map_add. rewrite map_sum_insert, default_from_option. lia. Qed.

Lemma GetMakingVolumes_spec pc oc nft :
  (∀ id c, oc !! id = Some c → 0 ≤ getMakingAmountFromChange c) →
  let '(amm, vols, _) := GetMakingVolumes pc oc nft in
  amm = getMakingAmountFromChange pc ∧
  map_sum (λ v, v) vols = map_sum getMakingAmountFromChange oc ∧
  (∀ k v, vols !! k = Some v → 0 ≤ v).
Proof.
  intros Hc. unfold GetMakingVolumes. split; [done|].
  set (f := λ ordID change m, map_add (default "" (nft !! ordID)) (getMakingAmountFromChange change) m).
  revert Hc. apply (map_fold_weak_ind (λ vols oc,
    (∀ id c, oc !! id = Some c → 0 ≤ getMakingAmountFromChange c) →
    map_sum (λ v, v) vols = map_sum getMakingAmountFromChange oc ∧
    (∀ k v, vols !! k = Some v → 0 ≤ v))).
  - intros _. rewrite !map_sum_empty. split; [done|]. intros k v Hk. by rewrite lookup_empty in Hk.
  - intros id c m vols Hid IH Hc. destruct IH as [Hs Hv].
    { intros i x Hi. apply (Hc i). rewrite lookup_insert_ne; [done|]. intros ->. congruence. }
    pose proof (Hc id c (lookup_insert_eq _ _ _)) as H0. unfold f.
    rewrite map_sum_map_add, map_sum_insert_new, Hs by done. split; [lia|].
    intros k v Hk. unfold map_add in Hk. rewrite lookup_insert in Hk. case_decide; [|by eapply Hv].
    injection Hk as <-. destruct (vols !! _) as [x|] eqn:Ex; cbn; [|lia].
    specialize (Hv _ _ Ex). lia.
Qed.
