(* ===== verification/TrackFee.v ===== *)
(** Distribution of the trading fee over the pools of a path ([TrackFee] of
    [blockchain/pdex/v2utils/reserve.go]).  A fee paid in PRV is divided between the pools
    by their fee rates; a fee paid in the sold token is taken pool by pool and what is left
    is traded onwards, through the same loop as the trade itself. *)
From S2P Require Import Prelude Hash RawDB Swap Order Reserve OrderBook Trade Reward.

Local Open Scope Z_scope.

(** The parameters of the exchange [TrackFee] reads. *)
Record FeeParams := mkFeeParams {
  fc_baseLPPerShare : Z;
  fc_bps : Z;
  fc_protocolFeePercent : Z;
  fc_stakingPoolRewardPercent : Z;
  fc_stakingRewardTokens : list Hash;
  fc_defaultOrderTradingRewardRatioBPS : Z;
  fc_orderTradingRewardRatioBPS : gmap string Z }.

Section track.
Context {B : Type} `{OrderBookIterator B}.

(** What the function reads and updates at one index of its slices. *)
Record FeePool := mkFeePool {
  fp_pathID : string;
  fp_pair : Pdexv3PoolPair;
  fp_dir : Z;
  fp_book : B;
  fp_poolFee : Z;
  fp_lpFeesPerShare : gmap Hash Z;
  fp_protocolFees : gmap Hash Z;
  fp_stakingPoolFees : gmap Hash Z;
  fp_pairChange : Z * Z;
  fp_orderChange : gmap string (Z * Z) }.

Record FeeResult := mkFeeResult {
  fr_pair : Pdexv3PoolPair;
  fr_book : B;
  fr_lpFeesPerShare : gmap Hash Z;
  fr_protocolFees : gmap Hash Z;
  fr_stakingPoolFees : gmap Hash Z;
  fr_pairChange : Z * Z;
  fr_orderChange : gmap string (Z * Z);
  fr_rewardEarned : gmap Hash Z;
  fr_orderRewardChanges : gmap string (gmap Hash Z);
  fr_orderMakingChanges : gmap Hash (gmap string Z) }.

(** The common part of the two loops: book the reward of one pool. *)
Definition distributeReward (cfg : FeeParams) (fp : FeePool) (rewardToken : Hash) (reward : Z)
    : outcome FeeResult :=
  let ratio := default (fc_defaultOrderTradingRewardRatioBPS cfg)
                 (fc_orderTradingRewardRatioBPS cfg !! fp_pathID fp) in
  let '(protocolFees, stakingPoolFees, remain) :=
    AddStakingAndProtocolFee (fp_pair fp) rewardToken reward
      (fp_protocolFees fp) (fp_stakingPoolFees fp)
      (fc_protocolFeePercent cfg) (fc_stakingPoolRewardPercent cfg)
      (fc_stakingRewardTokens cfg) in
  let '(ammMakingVolume, orderMakingVolumes, tradeDirection) :=
    GetMakingVolumes (fp_pairChange fp) (fp_orderChange fp) (NftIDs (fp_book fp)) in
  let makingToken :=
    if tradeDirection =? TradeDirectionSell0 then pp_token1ID (fp_pair fp)
    else pp_token0ID (fp_pair fp) in
  split ← SplitTradingReward remain ratio (fc_bps cfg) ammMakingVolume orderMakingVolumes;
  let '(ammReward, orderRewards) := split in
  Ok {| fr_pair := fp_pair fp;
        fr_book := fp_book fp;
        fr_lpFeesPerShare := AddLPFee (fp_pair fp) rewardToken ammReward
                               (fc_baseLPPerShare cfg) (fp_lpFeesPerShare fp);
        fr_protocolFees := protocolFees;
        fr_stakingPoolFees := stakingPoolFees;
        fr_pairChange := fp_pairChange fp;
        fr_orderChange := fp_orderChange fp;
        fr_rewardEarned := {[rewardToken := bigUint64 reward]};
        fr_orderRewardChanges := (λ r, {[rewardToken := r]}) <$> orderRewards;
        fr_orderMakingChanges := {[makingToken := orderMakingVolumes]} |}.

(** Fee in PRV: reward of a pool = feeRemain * feeRate / sumPoolFeesRemain. *)
Fixpoint trackFeePRV (cfg : FeeParams) (fps : list FeePool) (sumPoolFees feeRemain : Z)
    : outcome (list FeeResult) :=
  match fps with
  | [] => Ok []
  | fp :: fps =>
      reward ← bigDiv (feeRemain * fp_poolFee fp) sumPoolFees;
      fr ← distributeReward cfg fp PRVCoinID reward;
      frs ← trackFeePRV cfg fps (sub64 sumPoolFees (fp_poolFee fp))
              (sub64 feeRemain (bigUint64 reward));
      Ok (fr :: frs)
  end.

Definition addChange (prev : option (Z * Z)) (c : Z * Z) : Z * Z :=
  let p := default (0, 0) prev in (p.1 + c.1, p.2 + c.2).

(** Trade what is left of the fee in this pool. *)
Definition tradeFee (fuel : nat) (fp : FeePool) (sellAmountRemain : Z) (fr : FeeResult)
    : outcome (FeeResult * Z) :=
  s ← poolLoop fuel addChange (fp_dir fp)
        (enterPool (fp_pair fp) (fp_book fp) sellAmountRemain (fp_orderChange fp));
  Ok ({| fr_pair := pt_pair s;
         fr_book := pt_book s;
         fr_lpFeesPerShare := fr_lpFeesPerShare fr;
         fr_protocolFees := fr_protocolFees fr;
         fr_stakingPoolFees := fr_stakingPoolFees fr;
         fr_pairChange := ((fp_pairChange fp).1 + pt_token0Change s,
                           (fp_pairChange fp).2 + pt_token1Change s);
         fr_orderChange := pt_orderChanges s;
         fr_rewardEarned := fr_rewardEarned fr;
         fr_orderRewardChanges := fr_orderRewardChanges fr;
         fr_orderMakingChanges := fr_orderMakingChanges fr |},
      pt_totalBuyAmount s).

Definition rewardTokenOf (fp : FeePool) : Hash :=
  if fp_dir fp =? TradeDirectionSell1 then pp_token1ID (fp_pair fp)
  else pp_token0ID (fp_pair fp).

(** Fee in the sold token. *)
Fixpoint trackFeeToken (fuel : nat) (cfg : FeeParams) (fps : list FeePool)
    (sumPoolFees sellAmountRemain : Z) : outcome (list FeeResult) :=
  match fps with
  | [] => Ok []
  | fp :: fps =>
      reward ← bigDiv (sellAmountRemain * fp_poolFee fp) sumPoolFees;
      fr ← distributeReward cfg fp (rewardTokenOf fp) reward;
      let sumPoolFees := sub64 sumPoolFees (fp_poolFee fp) in
      let sellAmountRemain := sub64 sellAmountRemain (bigUint64 reward) in
      match fps with
      | [] => Ok [fr]
      | _ =>
          r ← tradeFee fuel fp sellAmountRemain fr;
          let '(fr, sellAmountRemain) := r in
          frs ← trackFeeToken fuel cfg fps sumPoolFees sellAmountRemain;
          Ok (fr :: frs)
      end
  end.

(** The slices, indexed together; reading past the end of one of them panics. *)
Fixpoint feePools (tradePath : list string) (reserves : list Pdexv3PoolPair)
    (tradeDirections : list Z) (orderbooks : list B) (poolFees : list Z)
    (lpFeesPerShares protocolFees stakingPoolFees : list (gmap Hash Z))
    (pairChanges : list (Z * Z)) (orderChanges : list (gmap string (Z * Z)))
    : outcome (list FeePool) :=
  match reserves with
  | [] => Ok []
  | r :: reserves =>
      match tradePath, tradeDirections, orderbooks, poolFees,
            lpFeesPerShares, protocolFees, stakingPoolFees, pairChanges, orderChanges with
      | t :: ts, d :: ds, b :: bs, f :: fs, l :: ls, p :: ps, s :: ss, c :: cs, o :: os =>
          rest ← feePools ts reserves ds bs fs ls ps ss cs os;
          Ok (mkFeePool t r d b f l p s c o :: rest)
      | _, _, _, _, _, _, _, _, _ => Panic
      end
  end.

(** The accepted metadata with the results entered, and the reward changes per pool. *)
Definition TrackFee (fuel : nat) (cfg : FeeParams) (fee : Z) (feeInPRV : bool)
    (sellingTokenID : Hash) (tradePath : list string) (reserves : list Pdexv3PoolPair)
    (lpFeesPerShares protocolFees stakingPoolFees : list (gmap Hash Z))
    (tradeDirections : list Z) (orderbooks : list B) (poolFees : list Z) (feeRateBPS : Z)
    (acceptedMeta : AcceptedTrade) : outcome (AcceptedTrade * list FeeResult) :=
  let mutualLen := length reserves in
  if negb (length tradeDirections =? mutualLen)%nat || negb (length orderbooks =? mutualLen)%nat
  then Err "Trade path vs directions vs orderbooks length mismatch"
  else
    fps ← feePools tradePath reserves tradeDirections orderbooks poolFees
            lpFeesPerShares protocolFees stakingPoolFees
            (at_PairChanges acceptedMeta) (at_OrderChanges acceptedMeta);
    frs ← (if feeInPRV || bool_decide (sellingTokenID = PRVCoinID)
           then trackFeePRV cfg fps feeRateBPS fee
           else trackFeeToken fuel cfg fps feeRateBPS fee);
    Ok (mkAcceptedTrade (at_Receiver acceptedMeta) (at_Amount acceptedMeta)
          (at_TradePath acceptedMeta) (at_TokenToBuy acceptedMeta)
          (fr_pairChange <$> frs) (fr_orderChange <$> frs) (fr_rewardEarned <$> frs), frs).
End track.
Arguments FeePool : clear implicits.
Arguments FeeResult : clear implicits.

(** ** Accounting of the distributed fee *)
Section track_props.
Context {B : Type} `{OrderBookLaws B}.
Implicit Types (fp : FeePool B) (fr : FeeResult B).

(** Fee parameters the chain accepts. *)
Definition wf_cfg (cfg : FeeParams) : Prop :=
  0 < fc_bps cfg ∧ 0 ≤ fc_protocolFeePercent cfg ∧ 0 ≤ fc_stakingPoolRewardPercent cfg ∧
  fc_protocolFeePercent cfg + fc_stakingPoolRewardPercent cfg ≤ 100 ∧
  0 ≤ fc_defaultOrderTradingRewardRatioBPS cfg ∧
  (∀ id r, fc_orderTradingRewardRatioBPS cfg !! id = Some r → 0 ≤ r).

(** The changes an accepted trade records: nothing, or one side in and the other out. *)
Definition opposite (c : Z * Z) : Prop := (c.1 = 0 ∧ c.2 = 0) ∨ c.1 * c.2 < 0.

(** The volume the pool and its orders made in the trade. *)
Definition makingVolume fp : Z :=
  getMakingAmountFromChange (fp_pairChange fp) +
  map_sum getMakingAmountFromChange (fp_orderChange fp).

Record wf_fee fp : Prop := {
  wff_rate : 0 < fp_poolFee fp;
  wff_pair : opposite (fp_pairChange fp);
  wff_orders : ∀ id c, fp_orderChange fp !! id = Some c → opposite c;
  wff_volume : 0 < makingVolume fp }.

(** Room left in a fee account. *)
Definition room (tok : Hash) (fee : Z) (m : gmap Hash Z) : Prop :=
  0 ≤ feeOf tok m ∧ feeOf tok m + fee < word64.

(** The reward of a pool is booked: the parts of the liquidity providers, of the protocol,
    of the stakers and of the order makers together are at most the reward, and exactly the
    reward as long as the fee accounts do not overflow. *)
Definition booked (cfg : FeeParams) (tok : Hash) (reward : Z) fp fr : Prop :=
  fr_rewardEarned fr = {[tok := reward]} ∧
  ∃ lp rs making vols, 0 ≤ lp ≤ reward ∧
    fr_lpFeesPerShare fr = AddLPFee (fp_pair fp) tok lp (fc_baseLPPerShare cfg)
                             (fp_lpFeesPerShare fp) ∧
    fr_orderRewardChanges fr = (λ r, {[tok := r]}) <$> rs ∧
    (∀ k r, rs !! k = Some r → 0 ≤ r) ∧
    fr_orderMakingChanges fr = {[making := vols]} ∧ (∀ k v, vols !! k = Some v → 0 ≤ v) ∧
    (∀ t, 0 ≤ feeOf t (fp_protocolFees fp) → 0 ≤ feeOf t (fp_stakingPoolFees fp) →
     0 ≤ feeOf t (fr_protocolFees fr) ∧ 0 ≤ feeOf t (fr_stakingPoolFees fr) ∧
     feeOf t (fr_protocolFees fr) + feeOf t (fr_stakingPoolFees fr) +
       (if decide (tok = t) then lp + map_sum (λ r, r) rs else 0) ≤
     feeOf t (fp_protocolFees fp) + feeOf t (fp_stakingPoolFees fp) +
       (if decide (tok = t) then reward else 0)) ∧
    (room tok reward (fp_protocolFees fp) → room tok reward (fp_stakingPoolFees fp) →
     (feeOf tok (fr_protocolFees fr) - feeOf tok (fp_protocolFees fp)) +
     (feeOf tok (fr_stakingPoolFees fr) - feeOf tok (fp_stakingPoolFees fp)) +
     lp + map_sum (λ r, r) rs = reward).

(** What [distributeReward] returns: the reward is booked, reserves and orders stay. *)
Definition accounted (cfg : FeeParams) (tok : Hash) (reward : Z) fp fr : Prop :=
  distributeReward cfg fp tok reward = Ok fr ∧ fr_pair fr = fp_pair fp ∧ fr_book fr = fp_book fp ∧
  booked cfg tok reward fp fr.

Lemma distributeReward_accounted cfg fp tok reward :
  wf_cfg cfg → wf_fee fp → in_u64 reward →
  ∃ fr, distributeReward cfg fp tok reward = Ok fr ∧ accounted cfg tok reward fp fr.
Proof.
  intros (Hbps & Hp & Hq & Hpq & Hdef & Hratio) [] Hr. unfold distributeReward.
  set (ratio := default _ _).
  assert (Hr0 : 0 ≤ ratio).
  { unfold ratio. destruct (_ !! fp_pathID fp) eqn:E; cbn; [by eapply Hratio|done]. }
  pose proof (AddStakingAndProtocolFee_remain (fp_pair fp) tok reward (fp_protocolFees fp)
    (fp_stakingPoolFees fp) (fc_protocolFeePercent cfg) (fc_stakingPoolRewardPercent cfg)
    (fc_stakingRewardTokens cfg) (proj1 Hr) Hp Hq Hpq) as Hrem.
  pose proof (AddStakingAndProtocolFee_spec (fp_pair fp) tok reward (fp_protocolFees fp)
    (fp_stakingPoolFees fp) (fc_protocolFeePercent cfg) (fc_stakingPoolRewardPercent cfg)
    (fc_stakingRewardTokens cfg) (proj1 Hr) Hp Hq Hpq) as Hfee.
  pose proof (λ t, AddStakingAndProtocolFee_le (fp_pair fp) tok reward (fp_protocolFees fp)
    (fp_stakingPoolFees fp) (fc_protocolFeePercent cfg) (fc_stakingPoolRewardPercent cfg)
    (fc_stakingRewardTokens cfg) t (proj1 Hr) Hp Hq Hpq) as Hle.
  destruct (AddStakingAndProtocolFee _ _ _ _ _ _ _ _) as [[P' S'] remain] eqn:EA.
  pose proof (GetMakingVolumes_spec (fp_pairChange fp) (fp_orderChange fp) (NftIDs (fp_book fp))
    (λ id c Hc, making_nonneg c (wff_orders0 id c Hc))) as Hvol.
  destruct (GetMakingVolumes _ _ _) as [[amm vols] td] eqn:EG. destruct Hvol as (-> & Hvs & Hv0).
  unfold in_u64 in Hr.
  destruct (SplitTradingReward_spec remain ratio (fc_bps cfg)
    (getMakingAmountFromChange (fp_pairChange fp)) vols) as (lp & rs & Esplit & Hlp & Hrs & Hex);
    [unfold in_u64; lia|done|done|by apply making_nonneg|done|].
  assert (Hsum : lp + map_sum (λ r, r) rs = remain).
  { apply Hex. right. unfold makingVolume in *. lia. }
  unfold accounted. rewrite Esplit. cbn [mbind outcome_bind].
  eexists. split; [reflexivity|]. split.
  { unfold distributeReward. fold ratio. rewrite EA, EG, Esplit. reflexivity. }
  unfold booked. cbn [fr_lpFeesPerShare fr_protocolFees fr_stakingPoolFees fr_orderRewardChanges
    fr_rewardEarned fr_pair fr_book].
  do 2 (split; [done|]). rewrite bigUint64_small by done. split; [done|].
  eexists lp, rs, _, vols. split_and!; try done; try lia.
  - intros k r Hk. apply (Hrs k r Hk).
  - intros t HP HS. specialize (Hle t HP HS). rewrite Hsum. done.
  - intros [HP1 HP2] [HS1 HS2]. destruct Hfee as (Hs & _); [done..|]. lia.
Qed.

(** What a trade records can be rewarded. *)
Lemma making_of_changes d f b : dir_ok d → f = 0 ∧ b = 0 ∨ 0 < f ∧ 0 < b →
  opposite (matchChanges d f b) ∧ getMakingAmountFromChange (matchChanges d f b) = b.
Proof.
  intros Hd Hfb. unfold opposite, getMakingAmountFromChange.
  by_dir d; cbn -[Z.ltb]; (split; [nia|]); case_match; lia.
Qed.

Lemma made_volume d sell (s : PoolTrade B) : dir_ok d → made d sell s → 0 < sell →
  pt_sellAmountRemain s = 0 →
  opposite (pt_token0Change s, pt_token1Change s) ∧
  (∀ id c, pt_orderChanges s !! id = Some c → opposite c) ∧
  0 < getMakingAmountFromChange (pt_token0Change s, pt_token1Change s) +
      map_sum getMakingAmountFromChange (pt_orderChanges s).
Proof.
  intros Hd [(f & b & Ep & Hfb) Ho Hsome] Hpos Hz. destruct Hsome as [_ Hany]; [lia|].
  destruct (making_of_changes d f b Hd Hfb) as [Hop Hmk]. rewrite Ep, Hmk.
  assert (Hord : ∀ id c, pt_orderChanges s !! id = Some c →
    opposite c ∧ 0 < getMakingAmountFromChange c).
  { intros id c Hc. destruct (Ho id c Hc) as (f' & b' & -> & ? & ?).
    destruct (making_of_changes d f' b' Hd (or_intror (conj H1 H2))) as [? ->]. done. }
  split; [done|]. split; [intros id c Hc; by destruct (Hord id c Hc)|].
  assert (Hnn : 0 ≤ map_sum getMakingAmountFromChange (pt_orderChanges s)).
  { apply map_sum_nonneg. intros id c Hc. destruct (Hord id c Hc). lia. }
  destruct Hany as [(f' & b' & E' & ? & ?)|Hne].
  - rewrite Ep in E'. assert (b = b'); [|lia]. unfold matchChanges in E'. destruct (d =? _); simplify_eq; lia.
  - apply map_choose in Hne as (id & c & Hc). destruct (Hord id c Hc) as [_ Hc0].
    assert (getMakingAmountFromChange c ≤ map_sum getMakingAmountFromChange (pt_orderChanges s)); [|lia].
    apply (map_sum_elem_le getMakingAmountFromChange _ id); [|done].
    intros k a Ha. destruct (Hord k a Ha). lia.
Qed.

(** The division of a fee by rates: the part of the first pool. *)
Lemma fee_part fp fps remain : wf_fee fp → Forall wf_fee fps → 0 ≤ remain →
  let total := list_sum fp_poolFee (fp :: fps) in
  0 < total ∧ 0 ≤ remain * fp_poolFee fp / total ≤ remain ∧
  total - fp_poolFee fp = list_sum fp_poolFee fps ∧ fp_poolFee fp ≤ total ∧
  (fps = [] → remain * fp_poolFee fp / total = remain).
Proof.
  intros Hfp Hfps Hr total. pose proof (wff_rate _ Hfp) as Hrate.
  assert (Hrest : 0 ≤ list_sum fp_poolFee fps).
  { apply list_sum_nonneg. eapply Forall_impl; [done|]. intros x Hx.
    pose proof (wff_rate _ Hx). lia. }
  unfold total. rewrite list_sum_cons. split_and!; try lia.
  - apply div_nonneg; nia.
  - apply div_le_l; nia.
  - intros ->. change (list_sum fp_poolFee []) with 0. rewrite Z.add_0_r, Z.div_mul; lia.
Qed.

Lemma trackFeePRV_loop cfg fps fee :
  wf_cfg cfg → Forall wf_fee fps → in_u64 fee → list_sum fp_poolFee fps < word64 →
  ∃ frs rewards, trackFeePRV cfg fps (list_sum fp_poolFee fps) fee = Ok frs ∧
    (fps ≠ [] → list_sum (λ r, r) rewards = fee) ∧
    Forall3 (accounted cfg PRVCoinID) rewards fps frs.
Proof.
  intros Hcfg Hwf. revert fee.
  induction Hwf as [|fp fps Hfp Hfps IH]; intros fee Hr Hs.
  { exists [], []. split; [done|]. split; [done|constructor]. }
  destruct (fee_part fp fps fee Hfp Hfps (proj1 Hr)) as (Htot & Hq & Hsub & Hle & Hlast).
  cbn [trackFeePRV]. set (total := list_sum fp_poolFee (fp :: fps)) in *.
  rewrite bigDiv_pos by lia. cbn [mbind outcome_bind].
  set (q := fee * fp_poolFee fp / total) in *.
  assert (Hqu : in_u64 q) by (unfold in_u64 in *; lia).
  destruct (distributeReward_accounted cfg fp PRVCoinID q) as (fr & -> & Hacc); [done..|].
  cbn [mbind outcome_bind]. pose proof (wff_rate _ Hfp) as Hrate.
  rewrite (bigUint64_small q), !sub64_exact, Hsub by (unfold in_u64 in *; lia).
  destruct (IH (fee - q)) as (frs & rs & -> & Hsum & HF); [unfold in_u64 in *; lia|lia|].
  exists (fr :: frs), (q :: rs). split; [done|]. split; [|by constructor]. intros _.
  rewrite list_sum_cons. destruct fps as [|fp' fps]; [|rewrite Hsum by done; lia].
  inversion HF; subst. unfold list_sum. cbn. rewrite Hlast by done. lia.
Qed.

(** What happens to a fee of [remain] in the sold token: every pool but the last takes its
    part and the rest is traded in that pool, tokens conserved; the last pool takes all. *)
Inductive fee_path (cfg : FeeParams) : list (FeePool B) → list (FeeResult B) → Z → Prop :=
| fee_last fp fr remain :
    accounted cfg (rewardTokenOf fp) remain fp fr → fee_path cfg [fp] [fr] remain
| fee_cons fp fps fr0 fr frs remain reward s :
    fps ≠ [] → 0 ≤ reward ≤ remain →
    accounted cfg (rewardTokenOf fp) reward fp fr0 →
    pool_done (fp_dir fp) (remain - reward) (fp_pair fp) (fp_book fp) s →
    fr_pair fr = pt_pair s → fr_book fr = pt_book s →
    fr_rewardEarned fr = fr_rewardEarned fr0 →
    fr_orderRewardChanges fr = fr_orderRewardChanges fr0 →
    fr_orderMakingChanges fr = fr_orderMakingChanges fr0 →
    fr_protocolFees fr = fr_protocolFees fr0 → fr_stakingPoolFees fr = fr_stakingPoolFees fr0 →
    fr_lpFeesPerShare fr = fr_lpFeesPerShare fr0 →
    fee_path cfg fps frs (pt_totalBuyAmount s) →
    fee_path cfg (fp :: fps) (fr :: frs) remain.

(** The pools of the path in the state the trade left them in. *)
Definition wf_fee_pool (fuel : nat) fp : Prop :=
  wf_fee fp ∧ wf_pool (fp_pair fp, fp_dir fp, fp_book fp) ∧
  (matchable (fp_dir fp) (fp_book fp) < fuel)%nat.

Lemma tradeFee_done fuel fp sell fr : wf_fee_pool fuel fp → in_u64 sell →
  returns (tradeFee fuel fp sell fr) ∧
  ∀ fr' out, tradeFee fuel fp sell fr = Ok (fr', out) →
    ∃ s, pool_done (fp_dir fp) sell (fp_pair fp) (fp_book fp) s ∧ in_u64 out ∧
      out = pt_totalBuyAmount s ∧ fr_pair fr' = pt_pair s ∧ fr_book fr' = pt_book s ∧
      fr_rewardEarned fr' = fr_rewardEarned fr ∧
      fr_orderRewardChanges fr' = fr_orderRewardChanges fr ∧
      fr_orderMakingChanges fr' = fr_orderMakingChanges fr ∧
      fr_protocolFees fr' = fr_protocolFees fr ∧
      fr_stakingPoolFees fr' = fr_stakingPoolFees fr ∧
      fr_lpFeesPerShare fr' = fr_lpFeesPerShare fr.
Proof.
  intros (_ & (Hp & Hd & Hb) & Hfuel) Hs. unfold tradeFee. cbn in Hp, Hd, Hb.
  assert (Htr : trading (fp_dir fp) sell (fp_pair fp) (fp_book fp)
    (enterPool (fp_pair fp) (fp_book fp) sell (fp_orderChange fp)))
    by (apply enterPool_trading; [..|apply Hs]; done).
  split; [apply outcome_bind_returns; [by eapply poolLoop_returns|done]|].
  intros fr' out Hrun. apply outcome_bind_Ok in Hrun as (s & Hl & [= <- <-]).
  destruct (poolLoop_trading _ _ _ _ _ _ _ _ Hd Hs Htr Hl) as [Hdone Hz].
  exists s. split; [done|]. split; [by destruct Hdone|]. done.
Qed.

Lemma trackFeeToken_loop fuel cfg fps fee :
  wf_cfg cfg → Forall (wf_fee_pool fuel) fps → in_u64 fee → list_sum fp_poolFee fps < word64 →
  returns (trackFeeToken fuel cfg fps (list_sum fp_poolFee fps) fee) ∧
  ∀ frs, fps ≠ [] → trackFeeToken fuel cfg fps (list_sum fp_poolFee fps) fee = Ok frs →
    fee_path cfg fps frs fee.
Proof.
  intros Hcfg Hwf. revert fee.
  induction Hwf as [|fp fps Hfp Hfps IH]; intros fee Hr Hs; [done|].
  assert (Hfees : Forall wf_fee fps) by (eapply Forall_impl; [done|]; by intros ? []).
  destruct (fee_part fp fps fee (proj1 Hfp) Hfees (proj1 Hr)) as (Htot & Hq & Hsub & Hle & Hlast).
  cbn [trackFeeToken]. set (total := list_sum fp_poolFee (fp :: fps)) in *.
  rewrite bigDiv_pos by lia. cbn [mbind outcome_bind].
  set (q := fee * fp_poolFee fp / total) in *.
  assert (Hqu : in_u64 q) by (unfold in_u64 in *; lia).
  destruct (distributeReward_accounted cfg fp (rewardTokenOf fp) q) as (fr & -> & Hacc);
    [done|apply Hfp|done|]. cbn [mbind outcome_bind].
  pose proof (wff_rate _ (proj1 Hfp)) as Hrate.
  rewrite (bigUint64_small q), !sub64_exact, Hsub by (unfold in_u64 in *; lia).
  destruct fps as [|fp' fps].
  { split; [done|]. intros frs _ [= <-]. rewrite Hlast in Hacc by done. by constructor. }
  destruct (tradeFee_done fuel fp (fee - q) fr Hfp) as [Hret Hok]; [unfold in_u64 in *; lia|].
  set (rest := fp' :: fps) in *. split.
  - apply outcome_bind_returns; [done|]. intros [fr' out] Ht.
    destruct (Hok _ _ Ht) as (s & _ & Hout & _).
    apply outcome_bind_returns; [apply IH; [done|lia]|done].
  - intros frs _ Hrun. apply outcome_bind_Ok in Hrun as ([fr' out] & Ht & Hrun).
    destruct (Hok _ _ Ht) as (s & Hd & Hout & -> & H1 & H2 & H3 & H4 & H5 & H6 & H7 & H8).
    apply outcome_bind_Ok in Hrun as (frs' & Hf & [= <-]).
    eapply fee_cons; try done. apply IH; [done|lia|done|done].
Qed.

(** C38: a fee paid in PRV is distributed to the last unit.  When the slices of the call
    line up as [fps] and the total fee rate is the sum of the pools' rates, [TrackFee]
    succeeds, the rewards of the pools add up to the fee, and in every pool the parts of
    the protocol, the stakers, the liquidity providers and the order makers add up to the
    pool's reward. *)
Theorem TrackFee_PRV_exact fuel cfg fee inPRV sellTok path reserves lps ps ss dirs books fees md
    (fps : list (FeePool B))
    (Hmode : inPRV = true ∨ sellTok = PRVCoinID) (Hcfg : wf_cfg cfg) (Hfee : in_u64 fee)
    (Hdirs : length dirs = length reserves) (Hbooks : length books = length reserves)
    (Hpools : feePools path reserves dirs books fees lps ps ss
                (at_PairChanges md) (at_OrderChanges md) = Ok fps)
    (Hne : fps ≠ []) (Hwf : Forall wf_fee fps) (Hrate : list_sum fp_poolFee fps < word64) :
  ∃ md' frs rewards,
    TrackFee fuel cfg fee inPRV sellTok path reserves lps ps ss dirs books fees
      (list_sum fp_poolFee fps) md = Ok (md', frs) ∧
    list_sum (λ r, r) rewards = fee ∧
    Forall3 (accounted cfg PRVCoinID) rewards fps frs ∧
    at_RewardEarned md' = fr_rewardEarned <$> frs ∧ at_Amount md' = at_Amount md.
Proof.
  unfold TrackFee. rewrite Hdirs, Hbooks, Nat.eqb_refl. cbn [negb orb].
  rewrite Hpools. cbn [mbind outcome_bind].
  replace (inPRV || bool_decide (sellTok = PRVCoinID)) with true
    by (symmetry; apply orb_true_iff; rewrite bool_decide_eq_true; done).
  destruct (trackFeePRV_loop cfg fps fee) as (frs & rs & -> & Hsum & HF); [done..|].
  cbn [mbind outcome_bind]. eexists _, frs, rs. split; [done|].
  split; [by apply Hsum|]. done.
Qed.

(** A fee paid in the sold token is collected safely.  [TrackFee] returns (it cannot
    panic or loop), and when it succeeds every pool but the last takes its part of the fee
    and trades the rest in that pool conserving tokens, the amount bought is what the next
    pool distributes, and the last pool's reward is everything that arrives there. *)
Theorem TrackFee_token_path fuel cfg fee sellTok path reserves lps ps ss dirs books fees md
    (fps : list (FeePool B))
    (Hmode : sellTok ≠ PRVCoinID) (Hcfg : wf_cfg cfg) (Hfee : in_u64 fee)
    (Hdirs : length dirs = length reserves) (Hbooks : length books = length reserves)
    (Hpools : feePools path reserves dirs books fees lps ps ss
                (at_PairChanges md) (at_OrderChanges md) = Ok fps)
    (Hne : fps ≠ []) (Hwf : Forall (wf_fee_pool fuel) fps)
    (Hrate : list_sum fp_poolFee fps < word64) :
  let result := TrackFee fuel cfg fee false sellTok path reserves lps ps ss dirs books fees
                  (list_sum fp_poolFee fps) md in
  returns result ∧ ∀ md' frs, result = Ok (md', frs) → fee_path cfg fps frs fee.
Proof.
  unfold TrackFee. rewrite Hdirs, Hbooks, Nat.eqb_refl. cbn [negb orb].
  rewrite Hpools. cbn [mbind outcome_bind]. rewrite bool_decide_eq_false_2 by done.
  destruct (trackFeeToken_loop fuel cfg fps fee Hcfg Hwf Hfee Hrate) as [Hret Hok]. split.
  - by apply outcome_bind_returns.
  - intros md' frs Hrun. apply outcome_bind_Ok in Hrun as (frs' & Ht & [= _ <-]). by apply Hok.
Qed.
End track_props.

(** A fee of 100 on the two-pool path of the sample trade. *)
Definition fee_cfg : FeeParams :=
  mkFeeParams 1000000000000000000 10000 10 20 [PRVCoinID] 1500 {["p2" := 500]}.
Definition fee_md : AcceptedTrade :=
  mkAcceptedTrade "recv" 0 ["p1"; "p2"] "C" [(4000, -8000); (9000, -7000)]
    [{["o1" := (1000, -2300)]}; ∅] [].
Definition fee_pool1 : FeePool Orderbook :=
  mkFeePool "p1" sample_pool TradeDirectionSell0 trade_book 30 ∅ ∅ ∅
    (4000, -8000) {["o1" := (1000, -2300)]}.
Definition fee_pool2 : FeePool Orderbook :=
  mkFeePool "p2" (mkPoolPair 1000 0 "B" "C" 90000 90000 90000 90000 10000) TradeDirectionSell0
    (mkOrderbook []) 25 ∅ ∅ ∅ (9000, -7000) ∅.
Definition fee_pools : list (FeePool Orderbook) := [fee_pool1; fee_pool2].

Lemma fee_cfg_wf : wf_cfg fee_cfg.
Proof.
  unfold wf_cfg. cbn. split_and!; try lia.
  intros id r [_ <-]%lookup_singleton_Some. lia.
Qed.

Lemma fee_pools_wf : Forall (wf_fee_pool 2) fee_pools.
Proof.
  destruct sample_trade_wf as (Hp & _ & Hb).
  inversion_clear Hp as [|?? Hp1 Hp']. inversion_clear Hp' as [|?? Hp2 _].
  inversion_clear Hb as [|?? Hb1 Hb']. inversion_clear Hb' as [|?? Hb2 _].
  assert (H1 : wf_fee fee_pool1).
  { split; [done|right; cbn; lia|intros id c Hc|vm_compute; reflexivity].
    cbn [fee_pool1 fp_orderChange] in Hc.
    apply lookup_singleton_Some in Hc as [_ <-]. right. cbn. lia. }
  assert (H2 : wf_fee fee_pool2).
  { split; [done|right; cbn; lia|intros id c Hc|vm_compute; reflexivity].
    cbn [fee_pool2 fp_orderChange] in Hc. by rewrite lookup_empty in Hc. }
  assert (Hd : dir_ok TradeDirectionSell0) by by left.
  repeat apply Forall_cons_2; [| |apply Forall_nil_2];
    (split; [done|split; [done|apply Nat.ltb_lt; vm_compute; reflexivity]]).
Qed.

Lemma TrackFee_PRV_exact_witness : ∃ md' frs rewards,
  TrackFee 2 fee_cfg 100 true "A" ["p1"; "p2"] trade_pools [∅; ∅] [∅; ∅] [∅; ∅]
    [TradeDirectionSell0; TradeDirectionSell0] trade_books [30; 25] 55 fee_md = Ok (md', frs) ∧
  list_sum (λ r, r) rewards = 100 ∧
  Forall3 (accounted fee_cfg PRVCoinID) rewards fee_pools frs.
Proof.
  destruct (TrackFee_PRV_exact 2 fee_cfg 100 true "A" ["p1"; "p2"] trade_pools [∅; ∅] [∅; ∅] [∅; ∅]
    [TradeDirectionSell0; TradeDirectionSell0] trade_books [30; 25] fee_md fee_pools)
    as (md' & frs & rs & H1 & H2 & H3 & _);
    [by left|apply fee_cfg_wf|unfold in_u64, word64; lia|reflexivity|reflexivity|reflexivity|
     discriminate|eapply Forall_impl; [apply fee_pools_wf|by intros ? []]|reflexivity|].
  change (list_sum fp_poolFee fee_pools) with 55 in H1.
  exists md', frs, rs. exact (conj H1 (conj H2 H3)).
Defined.

Lemma TrackFee_token_path_witness :
  match TrackFee 2 fee_cfg 100 false "A" ["p1"; "p2"] trade_pools [∅; ∅] [∅; ∅] [∅; ∅]
    [TradeDirectionSell0; TradeDirectionSell0] trade_books [30; 25] 55 fee_md with
  | Ok (_, frs) => fee_path fee_cfg fee_pools frs 100
  | _ => False
  end.
Proof.
  destruct (TrackFee_token_path 2 fee_cfg 100 "A" ["p1"; "p2"] trade_pools [∅; ∅] [∅; ∅] [∅; ∅]
    [TradeDirectionSell0; TradeDirectionSell0] trade_books [30; 25] fee_md fee_pools)
    as [_ H]; [discriminate|apply fee_cfg_wf|unfold in_u64, word64; lia|reflexivity|reflexivity|
      reflexivity|discriminate|apply fee_pools_wf|reflexivity|].
  change (list_sum fp_poolFee fee_pools) with 55 in H.
  destruct (TrackFee _ _ _ _ _ _ _ _ _ _ _ _ _ _) as [[md' frs]| | |] eqn:E;
    [exact (H md' frs eq_refl)|vm_compute in E; discriminate E..].
Defined.
