(* ===== verification/PdexUtils.v ===== *)
(** Shared helpers of the exchange ([blockchain/pdex/utils.go], constants of
    [blockchain/pdex/constants.go]): pool keys, amplified reserves, checked arithmetic,
    share computation and reward maps. *)
From S2P Require Import Prelude Hash RawDB Reward.
From Stdlib Require Import Ascii String.

Local Open Scope Z_scope.

Definition BPS : Z := 10000.
Definition BaseAmplifier : Z := 10000.
Definition BaseLPFeesPerShare : Z := 1000000000000000000.
Definition addOperator : Z := 0.
Definition subOperator : Z := 1.

(** ** Pool keys *)
Definition joinDash (a b c : string) : string := (a +:+ "-" +:+ b +:+ "-" +:+ c)%string.

Definition generatePoolPairKey (token0Name token1Name txReqID : string) : string :=
  if String.leb token0Name token1Name then joinDash token0Name token1Name txReqID
  else joinDash token1Name token0Name txReqID.

(** [strings.Split(s, "-")]: the separator is a single byte. *)
Fixpoint splitDash (s : string) : list string :=
  match s with
  | EmptyString => [EmptyString]
  | String c s =>
      if Ascii.eqb c "-" then EmptyString :: splitDash s
      else match splitDash s with
           | [] => [String c EmptyString]
           | w :: ws => String c w :: ws
           end
  end.

Definition validateTokenIDsByPoolPairID (tokenIDs : list Hash) (poolPairID : string)
    : outcome unit :=
  match splitDash poolPairID with
  | [t0; t1; _] =>
      if forallb (λ tokenID, String.eqb (Hash_String tokenID) t0 ||
                             String.eqb (Hash_String tokenID) t1) tokenIDs
      then Ok tt else Err "token is not in pool"
  | _ => Err "Length is invalid"
  end.

(** ** Arithmetic *)
Definition calculateVirtualAmount (amount0 amount1 amplifier : Z) : Z * Z :=
  if amplifier =? BaseAmplifier then (amount0, amount1)
  else (amount0 * amplifier / BaseAmplifier, amount1 * amplifier / BaseAmplifier).

Definition executeOperationUint64 (amount0 amount1 operator : Z) : outcome Z :=
  if operator =? addOperator then
    let temp := add64 amount0 amount1 in
    if temp <? amount0 then Err "operation is out of range" else Ok temp
  else if operator =? subOperator then
    let temp := sub64 amount0 amount1 in
    if amount0 <? temp then Err "operation is out of range" else Ok temp
  else Err "Not recognize operator".

Definition executeOperationBigInt (amount0 amount1 operator : Z) : outcome Z :=
  if operator =? addOperator then Ok (amount0 + amount1)
  else if operator =? subOperator then Ok (amount0 - amount1)
  else Err "Not recognize operator".

Definition CalculateShareAmount (token0Amount token1Amount amount0 amount1 poolPairShareAmount : Z)
    : outcome Z :=
  liquidityToken0 ← bigDiv (amount0 * poolPairShareAmount) token0Amount;
  liquidityToken1 ← bigDiv (amount1 * poolPairShareAmount) token1Amount;
  Ok (if bigUint64 liquidityToken0 <? bigUint64 liquidityToken1
      then bigUint64 liquidityToken0 else bigUint64 liquidityToken1).

(** ** Reward maps *)
Definition resetKeyValueToZero (m : gmap Hash Z) : gmap Hash Z := (λ _, 0) <$> m.

Definition getMapWithoutZeroValue (m : gmap Hash Z) : gmap Hash Z :=
  filter (λ kv, kv.2 ≠ 0) m.

Definition CombineReward (reward1 reward2 : gmap Hash Z) : gmap Hash Z :=
  getMapWithoutZeroValue (union_with (λ v1 v2, Some (add64 v2 v1)) reward1 reward2).

(** ** Lemmas *)
Lemma executeOperation_add a b r : in_u64 a → in_u64 b →
  executeOperationUint64 a b addOperator = Ok r ↔ r = a + b ∧ a + b < word64.
Proof.
  intros Ha Hb. unfold executeOperationUint64. cbn -[add64 Z.ltb].
  destruct (add64_wrap a b Ha Hb) as [[-> ?]|[-> ?]]; unfold in_u64 in *;
    case_match; naive_solver lia.
Qed.

Lemma executeOperation_sub a b r : in_u64 a → in_u64 b →
  executeOperationUint64 a b subOperator = Ok r ↔ r = a - b ∧ b ≤ a.
Proof.
  intros Ha Hb. unfold executeOperationUint64. cbn -[sub64 Z.ltb].
  destruct (sub64_wrap a b Ha Hb) as [[-> ?]|[-> ?]]; unfold in_u64 in *;
    case_match; naive_solver lia.
Qed.

(** Checked arithmetic never panics. *)
Lemma executeOperation_returns a b op : returns (executeOperationUint64 a b op).
Proof. unfold executeOperationUint64. by repeat case_match. Qed.

Lemma calculateVirtualAmount_ge a0 a1 amp : 0 ≤ a0 → 0 ≤ a1 → BaseAmplifier ≤ amp →
  let '(v0, v1) := calculateVirtualAmount a0 a1 amp in a0 ≤ v0 ∧ a1 ≤ v1.
Proof.
  intros H0 H1 Hamp. unfold calculateVirtualAmount, BaseAmplifier in *. destruct (amp =? 10000); [lia|].
  split; apply Z.div_le_lower_bound; nia.
Qed.

(** The share for a contribution: at most proportional on both sides, and the larger one
    that is (up to the width of the counter). *)
Lemma CalculateShareAmount_spec r0 r1 a0 a1 S : 0 < r0 → 0 < r1 → 0 ≤ a0 → 0 ≤ a1 → 0 ≤ S →
  ∃ s, CalculateShareAmount r0 r1 a0 a1 S = Ok s ∧ in_u64 s ∧ s * r0 ≤ a0 * S ∧ s * r1 ≤ a1 * S.
Proof.
  intros. unfold CalculateShareAmount. rewrite !bigDiv_pos by done. cbn [mbind outcome_bind].
  set (l0 := a0 * S / r0). set (l1 := a1 * S / r1).
  assert (Hle : ∀ x, 0 ≤ x → bigUint64 x ≤ x).
  { intros x Hx. unfold bigUint64, u64. rewrite Z.abs_eq by done. apply Z.mod_le; [done|reflexivity]. }
  assert (0 ≤ l0 ∧ 0 ≤ l1) as [P0 P1] by (split; apply div_nonneg; nia).
  pose proof (div_spec (a0 * S) r0). pose proof (div_spec (a1 * S) r1).
  pose proof (Hle l0 P0). pose proof (Hle l1 P1).
  pose proof (u64_bound (Z.abs l0)). pose proof (u64_bound (Z.abs l1)).
  eexists. split; [done|]. unfold bigUint64 in *. unfold in_u64 in *.
  case_match; (split; [lia|]); nia.
Qed.

Lemma feeOf_resetKeyValueToZero tok m : feeOf tok (resetKeyValueToZero m) = 0.
Proof. unfold feeOf, resetKeyValueToZero. rewrite lookup_fmap. by destruct (m !! tok). Qed.

Lemma feeOf_getMapWithoutZeroValue tok m : feeOf tok (getMapWithoutZeroValue m) = feeOf tok m.
Proof.
  unfold feeOf, getMapWithoutZeroValue. rewrite map_lookup_filter.
  destruct (m !! tok) as [v|]; [|done]. cbn. case_guard as Hv; cbn; [done|].
  destruct (decide (v = 0)); [done|]. destruct Hv. done.
Qed.

Lemma feeOf_CombineReward tok m1 m2 : in_u64 (feeOf tok m1) → in_u64 (feeOf tok m2) →
  feeOf tok m1 + feeOf tok m2 < word64 →
  feeOf tok (CombineReward m1 m2) = feeOf tok m1 + feeOf tok m2.
Proof.
  intros H1 H2 Hs. unfold CombineReward. rewrite feeOf_getMapWithoutZeroValue.
  unfold feeOf in *. rewrite lookup_union_with.
  destruct (m1 !! tok), (m2 !! tok); cbn in *; try lia.
  unfold add64, in_u64 in *. rewrite u64_small; unfold in_u64; lia.
Qed.

(** ** A pool key names its tokens *)
Definition no_dash (s : string) : Prop := ∀ c, c ∈ list_ascii_of_string s → c ≠ "-"%char.

Lemma splitDash_app s t : no_dash s → splitDash (s +:+ "-" +:+ t)%string = s :: splitDash t.
Proof.
  induction s as [|c s IH]; intros Hs; [done|].
  change (String c s +:+ "-" +:+ t)%string with (String c (s +:+ "-" +:+ t))%string.
  cbn [splitDash]. rewrite (proj2 (Ascii.eqb_neq c "-")) by (apply Hs; left).
  rewrite IH; [done|]. intros x Hx. apply Hs. by right.
Qed.

Lemma splitDash_single s : no_dash s → splitDash s = [s].
Proof.
  induction s as [|c s IH]; intros Hs; [done|]. cbn [splitDash].
  rewrite (proj2 (Ascii.eqb_neq c "-")) by (apply Hs; left).
  rewrite IH; [done|]. intros x Hx. apply Hs. by right.
Qed.

Lemma hex_digit_no_dash b :
  hex_digit (nat_of_ascii b / 16) ≠ "-"%char ∧ hex_digit (nat_of_ascii b mod 16) ≠ "-"%char.
Proof. destruct b as [[] [] [] [] [] [] [] []]; split; discriminate. Qed.

Lemma Hash_String_no_dash h : no_dash (Hash_String h).
Proof.
  intros c Hc. unfold Hash_String in Hc. rewrite list_ascii_of_string_of_list_ascii in Hc.
  induction (reverse (list_ascii_of_string h)) as [|b bs IH]; cbn [hex_encode] in Hc.
  - by apply elem_of_nil in Hc.
  - destruct (hex_digit_no_dash b). rewrite !elem_of_cons in Hc. naive_solver.
Qed.

Lemma splitDash_key a b c : no_dash a → no_dash b → no_dash c →
  splitDash (joinDash a b c) = [a; b; c].
Proof.
  intros. unfold joinDash. rewrite !splitDash_app by done. by rewrite splitDash_single.
Qed.

Lemma poolPairKey_comm a b tx : generatePoolPairKey a b tx = generatePoolPairKey b a tx.
Proof.
  unfold generatePoolPairKey. destruct (String.leb a b) eqn:E1, (String.leb b a) eqn:E2; try done.
  - by rewrite (String.leb_antisym _ _ E1 E2).
  - destruct (String.leb_total a b); congruence.
Qed.

(** A generated key splits back into its parts. *)
Lemma validate_generated a b tx tokens : no_dash a → no_dash b → no_dash tx →
  validateTokenIDsByPoolPairID tokens (generatePoolPairKey a b tx) = Ok tt ↔
  Forall (λ t, Hash_String t = a ∨ Hash_String t = b) tokens.
Proof.
  intros Ha Hb Htx.
  assert (Hok : ∀ x y, forallb (λ t, String.eqb (Hash_String t) x || String.eqb (Hash_String t) y) tokens
    = true ↔ Forall (λ t, Hash_String t = x ∨ Hash_String t = y) tokens).
  { intros x y. induction tokens as [|t ts IH]; [by split|]. cbn [forallb].
    rewrite andb_true_iff, orb_true_iff, Forall_cons, !String.eqb_eq, IH. done. }
  unfold generatePoolPairKey, validateTokenIDsByPoolPairID.
  destruct (String.leb _ _); rewrite splitDash_key by done;
    match goal with |- context [forallb ?f ?l] =>
      transitivity (forallb f l = true); [destruct (forallb f l); naive_solver|] end;
    rewrite Hok; split; intros HF; (eapply Forall_impl; [exact HF|naive_solver]).
Qed.

Lemma poolPairKey_accepts t0 t1 tx tokens :
  wf_hash t0 → wf_hash t1 → Forall wf_hash tokens →
  validateTokenIDsByPoolPairID tokens
    (generatePoolPairKey (Hash_String t0) (Hash_String t1) (Hash_String tx)) = Ok tt ↔
  Forall (λ t, t = t0 ∨ t = t1) tokens.
Proof.
  intros H0 H1 Hts. rewrite validate_generated by apply Hash_String_no_dash.
  split; intros HF; apply Forall_forall; intros t Ht; rewrite Forall_forall in HF, Hts.
  - destruct (HF t Ht); [left|right]; apply Hash_String_inj; auto.
  - destruct (HF t Ht) as [->| ->]; [by left|by right].
Qed.

(** A generated pool key admits exactly the two tokens of the pool.  A contribution
    passes the token check against the key of the pool of [t0] and [t1] iff each of its
    tokens is one of the two, and the key does not depend on the order of the tokens. *)
Theorem poolPairKey_tokens t0 t1 tx tokens
    (H0 : wf_hash t0) (H1 : wf_hash t1) (Hts : Forall wf_hash tokens) :
  let key := generatePoolPairKey (Hash_String t0) (Hash_String t1) (Hash_String tx) in
  key = generatePoolPairKey (Hash_String t1) (Hash_String t0) (Hash_String tx) ∧
  (validateTokenIDsByPoolPairID tokens key = Ok tt ↔ Forall (λ t, t = t0 ∨ t = t1) tokens).
Proof. split; [apply poolPairKey_comm|by apply poolPairKey_accepts]. Qed.

Lemma poolPairKey_tokens_witness :
  validateTokenIDsByPoolPairID [PRVCoinID; emptyHash]
    (generatePoolPairKey (Hash_String PRVCoinID) (Hash_String emptyHash) (Hash_String emptyHash))
    = Ok tt.
Proof.
  destruct (poolPairKey_tokens PRVCoinID emptyHash emptyHash [PRVCoinID; emptyHash])
    as [_ [_ H]]; [reflexivity|reflexivity|repeat constructor|].
  apply H. apply Forall_cons_2; [by left|]. apply Forall_cons_2; [by right|constructor].
Defined.
