(* ===== verification/PoolPair.v ===== *)
(** The state of one pool ([blockchain/pdex/pool_pair_state.go]) and of its liquidity shares
    ([Share], [OrderReward], [MakingVolume] of [blockchain/pdex/state_v2_utils.go]):
    contributions, withdrawals, reward bookkeeping and the locking of mining rewards. *)
From S2P Require Import Prelude Hash RawDB Order OrderBook Reward PdexUtils.

Local Open Scope Z_scope.

(** ** Data *)
Record Share := mkShare {
  sh_amount : Z;
  sh_lmLockedAmount : Z;
  sh_tradingFees : gmap Hash Z;
  sh_lastLPFeesPerShare : gmap Hash Z;
  sh_lastLmRewardsPerShare : gmap Hash Z }.

Definition NewShare : Share := mkShare 0 0 ∅ ∅ ∅.

Definition sh_with_amount (v : Z) (s : Share) : Share :=
  mkShare v (sh_lmLockedAmount s) (sh_tradingFees s) (sh_lastLPFeesPerShare s)
    (sh_lastLmRewardsPerShare s).
Definition sh_with_locked (v : Z) (s : Share) : Share :=
  mkShare (sh_amount s) v (sh_tradingFees s) (sh_lastLPFeesPerShare s)
    (sh_lastLmRewardsPerShare s).
Definition sh_with_fees (v : gmap Hash Z) (s : Share) : Share :=
  mkShare (sh_amount s) (sh_lmLockedAmount s) v (sh_lastLPFeesPerShare s)
    (sh_lastLmRewardsPerShare s).
Definition sh_with_last (lp lm : gmap Hash Z) (s : Share) : Share :=
  mkShare (sh_amount s) (sh_lmLockedAmount s) (sh_tradingFees s) lp lm.

(** [OrderReward] wraps its map of uncollected rewards, [MakingVolume] its map of volumes. *)
Record OrderReward := mkOrderReward { uncollectedRewards : gmap Hash Z }.
Record MakingVolume := mkMakingVolume { volume : gmap string Z }.

Definition NewOrderReward : OrderReward := mkOrderReward ∅.
Definition NewMakingVolume : MakingVolume := mkMakingVolume ∅.

Definition OrderReward_AddReward (tokenID : Hash) (amount : Z) (r : OrderReward) : OrderReward :=
  let oldAmount := default 0 (uncollectedRewards r !! tokenID) in
  mkOrderReward (<[tokenID := add64 oldAmount amount]> (uncollectedRewards r)).

Definition MakingVolume_AddVolume (nftID : string) (amount : Z) (v : MakingVolume) : MakingVolume :=
  let oldAmount := default 0 (volume v !! nftID) in
  mkMakingVolume (<[nftID := oldAmount + amount]> (volume v)).

Record PoolPairState := mkPoolPairState {
  ps_makingVolume : gmap Hash MakingVolume;
  ps_state : Pdexv3PoolPair;
  ps_shares : gmap string Share;
  ps_orderRewards : gmap string OrderReward;
  ps_orderbook : Orderbook;
  ps_lpFeesPerShare : gmap Hash Z;
  ps_lmRewardsPerShare : gmap Hash Z;
  ps_protocolFees : gmap Hash Z;
  ps_stakingPoolFees : gmap Hash Z;
  ps_lmLockedShare : gmap string (gmap Z Z) }.

Definition ps_with_state (s : Pdexv3PoolPair) (p : PoolPairState) : PoolPairState :=
  mkPoolPairState (ps_makingVolume p) s (ps_shares p) (ps_orderRewards p) (ps_orderbook p)
    (ps_lpFeesPerShare p) (ps_lmRewardsPerShare p) (ps_protocolFees p) (ps_stakingPoolFees p)
    (ps_lmLockedShare p).
Definition ps_with_shares (v : gmap string Share) (p : PoolPairState) : PoolPairState :=
  mkPoolPairState (ps_makingVolume p) (ps_state p) v (ps_orderRewards p) (ps_orderbook p)
    (ps_lpFeesPerShare p) (ps_lmRewardsPerShare p) (ps_protocolFees p) (ps_stakingPoolFees p)
    (ps_lmLockedShare p).
Definition ps_with_lmLockedShare (v : gmap string (gmap Z Z)) (p : PoolPairState) : PoolPairState :=
  mkPoolPairState (ps_makingVolume p) (ps_state p) (ps_shares p) (ps_orderRewards p)
    (ps_orderbook p) (ps_lpFeesPerShare p) (ps_lmRewardsPerShare p) (ps_protocolFees p)
    (ps_stakingPoolFees p) v.

(** ** Creating a pool *)
Definition isEmpty (p : PoolPairState) : bool :=
  let s := ps_state p in
  (pp_token0RealAmount s =? 0) || (pp_token1RealAmount s =? 0) ||
  (pp_token0VirtualAmount s <=? 0) || (pp_token1VirtualAmount s <=? 0) ||
  (pp_shareAmount s =? 0).

(** The two contributions sorted by the printed token. *)
Definition initPoolPairState (contribution0 contribution1 : Pdexv3Contribution) : PoolPairState :=
  let '(c0, c1) :=
    if String.ltb (Hash_String (ct_tokenID contribution1)) (Hash_String (ct_tokenID contribution0))
    then (contribution1, contribution0) else (contribution0, contribution1) in
  let '(v0, v1) := calculateVirtualAmount (ct_amount c0) (ct_amount c1) (ct_amplifier c0) in
  mkPoolPairState ∅
    (mkPoolPair 0 0 (ct_tokenID c0) (ct_tokenID c1) (ct_amount c0) (ct_amount c1) v0 v1
       (ct_amplifier c0))
    ∅ ∅ (mkOrderbook []) ∅ ∅ ∅ ∅ ∅.

(** ** Contributing *)
Definition getContributionsByOrder (p : PoolPairState) (contribution0 contribution1 : Pdexv3Contribution)
    : Pdexv3Contribution * Pdexv3Contribution :=
  if bool_decide (ct_tokenID contribution0 = pp_token0ID (ps_state p))
  then (contribution0, contribution1) else (contribution1, contribution0).

(** Results: actual and returned amount of token 0, actual and returned amount of token 1. *)
Definition computeActualContributedAmounts (p : PoolPairState)
    (contribution0 contribution1 : Pdexv3Contribution) : outcome (Z * Z * Z * Z) :=
  if isEmpty p then Err "Pool is invalid to contribute"
  else
    let s := ps_state p in
    tempAmt ← bigDiv (ct_amount contribution1 * pp_token0RealAmount s) (pp_token1RealAmount s);
    let contribution0Amount :=
      if ct_amount contribution0 <? tempAmt then ct_amount contribution0 else tempAmt in
    contribution1Amount ← bigDiv (contribution0Amount * pp_token1RealAmount s) (pp_token0RealAmount s);
    if negb (isU64 contribution0Amount) || negb (isU64 contribution1Amount)
    then Err "contributed amount is not uint64"
    else
      let actual0 := bigUint64 contribution0Amount in
      let actual1 := bigUint64 contribution1Amount in
      Ok (actual0, sub64 (ct_amount contribution0) actual0,
          actual1, sub64 (ct_amount contribution1) actual1).

Definition ps_calculateShareAmount (p : PoolPairState) (amount0 amount1 : Z) : outcome Z :=
  let s := ps_state p in
  CalculateShareAmount (pp_token0RealAmount s) (pp_token1RealAmount s) amount0 amount1
    (pp_shareAmount s).

(** The new virtual reserve of a token. *)
Definition newVirtual (s : Pdexv3PoolPair) (virtualAmount newRealAmount tempShareAmount amount
    operator : Z) : outcome Z :=
  if negb (pp_amplifier s =? BaseAmplifier) then
    tempVirtualAmount ← bigDiv (virtualAmount * tempShareAmount) (pp_shareAmount s);
    Ok (if newRealAmount <? tempVirtualAmount then tempVirtualAmount else newRealAmount)
  else executeOperationBigInt virtualAmount amount operator.

Definition updateSingleTokenAmount (tokenID : Hash) (amount shareAmount operator : Z)
    : M PoolPairState unit :=
  p ← getS;
  let s := ps_state p in
  let is0 := String.eqb (Hash_String tokenID) (Hash_String (pp_token0ID s)) in
  let is1 := String.eqb (Hash_String tokenID) (Hash_String (pp_token1ID s)) in
  if negb is0 && negb is1 then fail "Can't find tokenID"
  else
    let realAmount := if is0 then pp_token0RealAmount s else pp_token1RealAmount s in
    let virtualAmount := if is0 then pp_token0VirtualAmount s else pp_token1VirtualAmount s in
    tempShareAmount ← lift (executeOperationUint64 (pp_shareAmount s) shareAmount operator);
    newRealAmount ← lift (executeOperationUint64 realAmount amount operator);
    newVirtualAmount ← lift (newVirtual s virtualAmount newRealAmount tempShareAmount amount operator);
    modifyS (ps_with_state
      (if is0 then SetToken0VirtualAmount newVirtualAmount (SetToken0RealAmount newRealAmount s)
       else SetToken1VirtualAmount newVirtualAmount (SetToken1RealAmount newRealAmount s))).

Definition updateReserveData (amount0 amount1 shareAmount operator : Z) : M PoolPairState unit :=
  p ← getS;
  _ ← updateSingleTokenAmount (pp_token0ID (ps_state p)) amount0 shareAmount operator;
  p ← getS;
  updateSingleTokenAmount (pp_token1ID (ps_state p)) amount1 shareAmount operator.

Definition addReserveDataAndCalculateShare (token0ID token1ID : string)
    (token0Amount token1Amount : Z) : M PoolPairState Z :=
  let '(amount0, amount1) :=
    if String.ltb token0ID token1ID then (token0Amount, token1Amount)
    else (token1Amount, token0Amount) in
  p ← getS;
  shareAmount ← lift (ps_calculateShareAmount p amount0 amount1);
  _ ← updateReserveData amount0 amount1 shareAmount addOperator;
  mret shareAmount.

(** ** Rewards of a share

    One loop of [RecomputeLPRewards]: the tokens of the accumulator [cur], each adding what
    [weight] shares earned since [last] to the uncollected fees. *)
Fixpoint accrue (toks : list (Hash * Z)) (last : gmap Hash Z) (weight : Z) (result : gmap Hash Z)
    : outcome (gmap Hash Z) :=
  match toks with
  | [] => Ok result
  | (tokenID, newFees) :: toks =>
      let tradingFee := default 0 (result !! tokenID) in
      let oldFees := default 0 (last !! tokenID) in
      let reward := (newFees - oldFees) * weight / BaseLPFeesPerShare + tradingFee in
      if negb (isU64 reward) then Err "Reward of token is out of range"
      else accrue toks last weight
             (if 0 <? bigUint64 reward then <[tokenID := bigUint64 reward]> result else result)
  end.

Definition RecomputeLPRewards (p : PoolPairState) (nftID : Hash) : outcome (gmap Hash Z) :=
  match ps_shares p !! Hash_String nftID with
  | None => Err "Share not found"
  | Some curShare =>
      result ← accrue (map_to_list (ps_lpFeesPerShare p)) (sh_lastLPFeesPerShare curShare)
                 (sh_amount curShare) (sh_tradingFees curShare);
      accrue (map_to_list (ps_lmRewardsPerShare p)) (sh_lastLmRewardsPerShare curShare)
        (sub64 (sh_amount curShare) (sh_lmLockedAmount curShare)) result
  end.

(** ** Changing a share *)

(** [x, err = m; if err != nil { return msg }] with [x] a field of the state: the field is
    assigned the zero value before the error is returned. *)
Definition assign {S A} (m : outcome A) (zero : A) (set : A → S → S) (msg : string) : M S unit :=
  λ s, match m with
       | Ok a => (Ok tt, set a s)
       | Err _ => (Err msg, set zero s)
       | Panic => (Panic, s)
       | OutOfFuel => (OutOfFuel, s)
       end.

(** [x, err := m; if err != nil { return msg }] *)
Definition orErr {A} (m : outcome A) (msg : string) : outcome A :=
  match m with Err _ => Err msg | m => m end.

Definition addLmLockedShare (shareID : string) (beaconHeight amount : Z) (p : PoolPairState)
    : PoolPairState :=
  let record := default ∅ (ps_lmLockedShare p !! shareID) in
  let amount := match record !! beaconHeight with None => amount | Some a => add64 a amount end in
  ps_with_lmLockedShare (<[shareID := <[beaconHeight := amount]> record]> (ps_lmLockedShare p)) p.

(** The second half of [updateShareValue], on the pool and the share it works on. *)
Definition changeShare (nftID : string) (shareAmount operator beaconHeight lmLockedBlocks : Z)
    : M (PoolPairState * Share) unit :=
  s ← getS;
  let p := s.1 in
  _ ← modifyS (λ s, (s.1, sh_with_last (ps_lpFeesPerShare p) (ps_lmRewardsPerShare p) s.2));
  _ ← assign (executeOperationUint64 (sh_amount s.2) shareAmount operator) 0
        (λ v s, (s.1, sh_with_amount v s.2)) "newShare.amount is out of range";
  poolPairShareAmount ← lift (orErr
    (executeOperationUint64 (pp_shareAmount (ps_state p)) shareAmount operator)
    "poolPairShareAmount is out of range");
  _ ← modifyS (λ s, (ps_with_state (SetShareAmount poolPairShareAmount (ps_state s.1)) s.1, s.2));
  let changeLocked amount :=
    _ ← assign (executeOperationUint64 (sh_lmLockedAmount s.2) amount operator) 0
          (λ v s, (s.1, sh_with_locked v s.2)) "newShare.lmLockedAmount is out of range";
    poolPairLmLockedShareAmount ← lift (orErr
      (executeOperationUint64 (pp_lmLockedShareAmount (ps_state p)) amount operator)
      "poolPairLmLockedShareAmount is out of range");
    modifyS (λ s, (ps_with_state
      (SetLmLockedShareAmount poolPairLmLockedShareAmount (ps_state s.1)) s.1, s.2)) in
  if (operator =? addOperator) && (0 <? lmLockedBlocks) then
    _ ← changeLocked shareAmount;
    modifyS (λ s, (addLmLockedShare nftID beaconHeight shareAmount s.1, s.2))
  else if operator =? subOperator then
    changeLocked (if shareAmount <? sh_lmLockedAmount s.2 then shareAmount
                  else sh_lmLockedAmount s.2)
  else mret tt.

(** A share found in the map is a pointer into it, so its changes stay also after an
    error; a new share is entered only at the end. *)
Definition updateShareValue (shareAmount : Z) (nftID : string)
    (operator beaconHeight lmLockedBlocks : Z) : M PoolPairState unit := λ p,
  match ps_shares p !! nftID with
  | None =>
      if operator =? subOperator then (Err "Deduct nil share amount", p)
      else
        let '(r, (p', share)) :=
          changeShare nftID shareAmount operator beaconHeight lmLockedBlocks (p, NewShare) in
        match r with
        | Ok _ => (r, ps_with_shares (<[nftID := share]> (ps_shares p')) p')
        | _ => (r, p')
        end
  | Some share =>
      match NewHashFromStr nftID with
      | Ok nftIDBytes =>
          let '(r, (p', share')) :=
            (_ ← assign (RecomputeLPRewards p nftIDBytes) ∅ (λ v s, (s.1, sh_with_fees v s.2))
                   "Error when tracking LP reward";
             changeShare nftID shareAmount operator beaconHeight lmLockedBlocks) (p, share) in
          (r, ps_with_shares (<[nftID := share']> (ps_shares p')) p')
      | _ => (Err "Invalid nftID", p)
      end
  end.

Definition addShare (nftID : Hash) (amount beaconHeight lmLockedBlocks : Z) : M PoolPairState unit :=
  updateShareValue amount (Hash_String nftID) addOperator beaconHeight lmLockedBlocks.

(** Withdrawing: the amounts of both tokens and the share that was deducted. *)
Definition deductShare (nftID : string) (shareAmount : Z) : M PoolPairState (Z * Z * Z) :=
  p ← getS;
  if shareAmount =? 0 then fail "shareAmount = 0 or share.amount = 0"
  else match ps_shares p !! nftID with
  | None => panic
  | Some share =>
      if sh_amount share =? 0 then fail "shareAmount = 0 or share.amount = 0"
      else
        let tempShareAmount :=
          if sh_amount share <? shareAmount then sh_amount share else shareAmount in
        let s := ps_state p in
        token0Amount ← lift (bigDiv (pp_token0RealAmount s * tempShareAmount) (pp_shareAmount s));
        token1Amount ← lift (bigDiv (pp_token1RealAmount s * tempShareAmount) (pp_shareAmount s));
        _ ← (λ p, let '(r, p') := updateReserveData (bigUint64 token0Amount) (bigUint64 token1Amount)
                                     tempShareAmount subOperator p in
                  (orErr r "shareAmount = 0 or share.amount = 0", p'));
        _ ← updateShareValue tempShareAmount nftID subOperator 0 0;
        mret (bigUint64 token0Amount, bigUint64 token1Amount, tempShareAmount)
  end.

(** ** Unlocking mining rewards ([unlockLmLockedShareAmount]), for one pool *)

(** Release one expired record of a share. *)
Definition unlockRecord (shareID : string) (lockedHeight lockedAmount : Z) : M PoolPairState unit :=
  _ ← modifyS (λ p, ps_with_lmLockedShare
        (alter (delete lockedHeight) shareID (ps_lmLockedShare p)) p);
  p ← getS;
  match ps_shares p !! shareID with
  | None => panic
  | Some share =>
      let releaseAmount := if sh_lmLockedAmount share <? lockedAmount
                           then sh_lmLockedAmount share else lockedAmount in
      let setShare f := λ p, ps_with_shares (alter f shareID (ps_shares p)) p in
      match NewHashFromStr shareID with
      | Ok shareIDBytes =>
          _ ← assign (RecomputeLPRewards p shareIDBytes) ∅ (λ v, setShare (sh_with_fees v))
                "Error when tracking LP reward";
          _ ← modifyS (setShare (sh_with_last (ps_lpFeesPerShare p) (ps_lmRewardsPerShare p)));
          _ ← assign (executeOperationUint64 (sh_lmLockedAmount share) releaseAmount subOperator) 0
                (λ v, setShare (sh_with_locked v)) "newShare.lmLockedAmount is out of range";
          poolPairLmLockedShareAmount ← lift (orErr (executeOperationUint64
            (pp_lmLockedShareAmount (ps_state p)) releaseAmount subOperator)
            "poolPairLmLockedShareAmount is out of range");
          modifyS (λ p, ps_with_state
            (SetLmLockedShareAmount poolPairLmLockedShareAmount (ps_state p)) p)
      | _ => fail "Invalid shareID"
      end
  end.

(** Release the expired records of one share, one height after the other. *)
Fixpoint unlockHeights (shareID : string) (records : list (Z * Z)) (pendingBlocks beaconHeight : Z)
    : M PoolPairState unit :=
  match records with
  | [] => mret tt
  | (lockedHeight, lockedAmount) :: records =>
      _ ← (if add64 lockedHeight pendingBlocks <? beaconHeight
           then unlockRecord shareID lockedHeight lockedAmount else mret tt);
      unlockHeights shareID records pendingBlocks beaconHeight
  end.

Fixpoint unlockShares (locked : list (string * gmap Z Z)) (pendingBlocks beaconHeight : Z)
    : M PoolPairState unit :=
  match locked with
  | [] => mret tt
  | (shareID, lockedRecord) :: locked =>
      p ← getS;
      _ ← (match ps_shares p !! shareID with
           | None => modifyS (λ p, ps_with_lmLockedShare (delete shareID (ps_lmLockedShare p)) p)
           | Some _ => unlockHeights shareID (map_to_list lockedRecord) pendingBlocks beaconHeight
           end);
      unlockShares locked pendingBlocks beaconHeight
  end.

Definition unlockLmLockedShareAmount (pendingBlocks beaconHeight : Z) : M PoolPairState unit :=
  p ← getS;
  unlockShares (map_to_list (ps_lmLockedShare p)) pendingBlocks beaconHeight.

(** ** Rewards are paid at most once

    [mono last cur]: an accumulator only grows. *)
Definition mono (last cur : gmap Hash Z) : Prop := ∀ tok, 0 ≤ feeOf tok last ≤ feeOf tok cur.

Lemma mono_refl m : (∀ tok, 0 ≤ feeOf tok m) → mono m m.
Proof. intros H tok. specialize (H tok). lia. Qed.

Lemma mono_empty m : (∀ tok, 0 ≤ feeOf tok m) → mono ∅ m.
Proof. intros H tok. specialize (H tok). unfold feeOf at 1 2. by rewrite lookup_empty. Qed.

Lemma feeOf_insert tok tok' v m :
  feeOf tok (<[tok' := v]> m) = if decide (tok' = tok) then v else feeOf tok m.
Proof. unfold feeOf. rewrite lookup_insert. by case_decide. Qed.

Lemma earned_nonneg last cur w tok : mono last cur → 0 ≤ w →
  0 ≤ (feeOf tok cur - feeOf tok last) * w / BaseLPFeesPerShare.
Proof. intros Hm Hw. specialize (Hm tok). apply div_nonneg; [nia|done]. Qed.

Lemma accrue_spec toks last w result result' :
  NoDup toks.*1 → 0 ≤ w → (∀ tok new, (tok, new) ∈ toks → 0 ≤ feeOf tok last ≤ new) →
  (∀ tok, 0 ≤ feeOf tok result) → accrue toks last w result = Ok result' →
  ∀ tok, 0 ≤ feeOf tok result' ∧
    (∀ new, (tok, new) ∈ toks →
       feeOf tok result' = feeOf tok result + (new - feeOf tok last) * w / BaseLPFeesPerShare) ∧
    (tok ∉ toks.*1 → feeOf tok result' = feeOf tok result).
Proof.
  revert result. induction toks as [|[t new] toks IH]; intros result Hnd Hw Hm Hr Hrun tok.
  - injection Hrun as <-. split; [done|]. split; [|done]. intros new Hin. by apply elem_of_nil in Hin.
  - cbn in Hrun. apply NoDup_cons in Hnd as [Ht Hnd].
    fold (feeOf t last) (feeOf t result) in Hrun.
    set (d := (new - feeOf t last) * w / BaseLPFeesPerShare) in *.
    assert (0 ≤ d).
    { destruct (Hm t new); [left|]. apply div_nonneg; [nia|done]. }
    pose proof (Hr t) as Hrt.
    destruct (isU64 (d + feeOf t result)) eqn:Hu; [|done]. apply in_u64_iff in Hu.
    cbn [negb] in Hrun. rewrite bigUint64_small in Hrun by done.
    set (res1 := if 0 <? _ then _ else _) in Hrun.
    assert (H1 : ∀ x, feeOf x res1 = feeOf x result + if decide (t = x) then d else 0).
    { intros x. unfold res1. destruct (0 <? _) eqn:E; [rewrite feeOf_insert|];
        case_decide; subst; lia. }
    assert (Hm1 : ∀ x n, (x, n) ∈ toks → 0 ≤ feeOf x last ≤ n) by (intros x n Hin; apply Hm; by right).
    assert (Hr1 : ∀ x, 0 ≤ feeOf x res1).
    { intros x. rewrite H1. specialize (Hr x). case_decide; lia. }
    destruct (IH res1 Hnd Hw Hm1 Hr1 Hrun tok) as (H2 & H3 & H4).
    split; [done|]. split.
    + intros new' Hin. apply elem_of_cons in Hin as [[= -> ->]|Hin].
      * rewrite H4, H1, decide_True by done. done.
      * rewrite (H3 new' Hin), H1, decide_False; [lia|].
        intros ->. apply Ht, list_elem_of_fmap. by exists (tok, new').
    + intros [Hne Hn]%not_elem_of_cons. rewrite H4, H1, decide_False by done. lia.
Qed.

Lemma accrue_map cur last w result result' tok :
  mono last cur → 0 ≤ w → (∀ tok, 0 ≤ feeOf tok result) →
  accrue (map_to_list cur) last w result = Ok result' →
  0 ≤ feeOf tok result' ∧
  feeOf tok result' = feeOf tok result +
    (feeOf tok cur - feeOf tok last) * w / BaseLPFeesPerShare.
Proof.
  intros Hm Hw Hr Hrun.
  assert (Hcur : ∀ t, feeOf t cur = default 0 (cur !! t)) by done.
  assert (Hl : ∀ t new, (t, new) ∈ map_to_list cur → 0 ≤ feeOf t last ≤ new).
  { intros t new Ht%elem_of_map_to_list. specialize (Hm t). by rewrite Hcur, Ht in Hm. }
  destruct (accrue_spec _ _ _ _ _ (NoDup_fst_map_to_list cur) Hw Hl Hr Hrun tok)
    as (H0 & Hin & Hout).
  split; [done|]. specialize (Hm tok). rewrite Hcur in *.
  destruct (cur !! tok) as [new|] eqn:E; cbn in *.
  - apply Hin. by apply elem_of_map_to_list.
  - rewrite Hout.
    + replace (feeOf tok last) with 0 by lia. rewrite Z.sub_diag, Z.mul_0_l.
      change (0 / BaseLPFeesPerShare) with 0. lia.
    + intros ([t n] & -> & Ht%elem_of_map_to_list)%list_elem_of_fmap. cbn in E. congruence.
Qed.

(** The invariant of a pool and its shares. *)
Record wf_share (p : PoolPairState) (s : Share) : Prop := {
  wsh_locked : 0 ≤ sh_lmLockedAmount s ≤ sh_amount s;
  wsh_fees : ∀ tok, 0 ≤ feeOf tok (sh_tradingFees s);
  wsh_lp : mono (sh_lastLPFeesPerShare s) (ps_lpFeesPerShare p);
  wsh_lm : mono (sh_lastLmRewardsPerShare s) (ps_lmRewardsPerShare p) }.

(** The ledger of shares: the counters of the pool are the sums over its shares. *)
Record wf_ledger (p : PoolPairState) : Prop := {
  wl_total : in_u64 (pp_shareAmount (ps_state p));
  wl_shares : map_sum sh_amount (ps_shares p) = pp_shareAmount (ps_state p);
  wl_locked : map_sum sh_lmLockedAmount (ps_shares p) = pp_lmLockedShareAmount (ps_state p);
  wl_each : ∀ nft s, ps_shares p !! nft = Some s → wf_share p s;
  wl_keys : ∀ nft, is_Some (ps_shares p !! nft) → ∃ h, wf_hash h ∧ nft = Hash_String h;
  wl_books : ∀ tok, 0 ≤ feeOf tok (ps_lpFeesPerShare p) ∧ 0 ≤ feeOf tok (ps_lmRewardsPerShare p) }.

Record wf_state (p : PoolPairState) : Prop := {
  wst_pair : wf_pair (ps_state p);
  wst_tokens : wf_hash (pp_token0ID (ps_state p)) ∧ wf_hash (pp_token1ID (ps_state p)) ∧
               pp_token0ID (ps_state p) ≠ pp_token1ID (ps_state p);
  wst_sorted : String.ltb (Hash_String (pp_token0ID (ps_state p)))
                 (Hash_String (pp_token1ID (ps_state p))) = true;
  wst_amplifier : BaseAmplifier ≤ pp_amplifier (ps_state p);
  wst_ledger : wf_ledger p }.

(** What a share may claim of a token, scaled by [BaseLPFeesPerShare]: uncollected fees and
    what it earned since it was last settled. *)
Definition entitlement (p : PoolPairState) (tok : Hash) (s : Share) : Z :=
  BaseLPFeesPerShare * feeOf tok (sh_tradingFees s) +
  (feeOf tok (ps_lpFeesPerShare p) - feeOf tok (sh_lastLPFeesPerShare s)) * sh_amount s +
  (feeOf tok (ps_lmRewardsPerShare p) - feeOf tok (sh_lastLmRewardsPerShare s)) *
    (sh_amount s - sh_lmLockedAmount s).

Definition liability (p : PoolPairState) (tok : Hash) : Z :=
  map_sum (entitlement p tok) (ps_shares p).

Lemma entitlement_nonneg p tok s : wf_share p s → 0 ≤ entitlement p tok s.
Proof.
  intros [? Hf Hlp Hlm]. unfold entitlement, BaseLPFeesPerShare.
  specialize (Hf tok). specialize (Hlp tok). specialize (Hlm tok). nia.
Qed.

Lemma entitlement_new p tok : entitlement p tok NewShare = 0.
Proof.
  unfold entitlement, NewShare, BaseLPFeesPerShare. cbn [sh_tradingFees sh_amount sh_lmLockedAmount].
  unfold feeOf at 1. rewrite lookup_empty. cbn [default]. lia.
Qed.

(** Settling a share never pays more than its entitlement, and less than two units short. *)
Lemma RecomputeLPRewards_spec p h s fees tok :
  ps_shares p !! Hash_String h = Some s → wf_share p s → in_u64 (sh_amount s) →
  RecomputeLPRewards p h = Ok fees →
  0 ≤ feeOf tok fees ∧
  BaseLPFeesPerShare * feeOf tok fees ≤ entitlement p tok s <
    BaseLPFeesPerShare * feeOf tok fees + 2 * BaseLPFeesPerShare.
Proof.
  intros Hs [Hl Hf Hlp Hlm] Hu Hrun. unfold RecomputeLPRewards in Hrun. rewrite Hs in Hrun.
  apply outcome_bind_Ok in Hrun as (r1 & H1 & H2).
  pose proof (λ t, accrue_map _ _ _ _ _ t Hlp (proj1 Hu) Hf H1) as Hacc1.
  assert (Hsub : sub64 (sh_amount s) (sh_lmLockedAmount s) = sh_amount s - sh_lmLockedAmount s)
    by (apply sub64_exact; [done|lia]).
  rewrite Hsub in H2. assert (Hw : 0 ≤ sh_amount s - sh_lmLockedAmount s) by lia.
  destruct (accrue_map _ _ _ _ _ tok Hlm Hw (λ t, proj1 (Hacc1 t)) H2) as [H0 ->].
  destruct (Hacc1 tok) as [_ ->]. unfold entitlement.
  pose proof (div_spec ((feeOf tok (ps_lpFeesPerShare p) - feeOf tok (sh_lastLPFeesPerShare s)) *
    sh_amount s) BaseLPFeesPerShare ltac:(reflexivity)) as D1.
  pose proof (div_spec ((feeOf tok (ps_lmRewardsPerShare p) - feeOf tok (sh_lastLmRewardsPerShare s)) *
    (sh_amount s - sh_lmLockedAmount s)) BaseLPFeesPerShare ltac:(reflexivity)) as D2.
  pose proof (earned_nonneg _ _ (sh_amount s) tok Hlp (proj1 Hu)).
  pose proof (earned_nonneg _ _ (sh_amount s - sh_lmLockedAmount s) tok Hlm Hw).
  specialize (Hf tok). lia.
Qed.

(** ** Changing a share *)

(** The lock records of a pool hold machine integers. *)
Definition locks_wf (p : PoolPairState) : Prop :=
  ∀ k r h a, ps_lmLockedShare p !! k = Some r → r !! h = Some a → 0 ≤ a.

(** Everything of the pool but its counters and its shares; the lock records stay well
    formed. *)
Definition same_books (p p' : PoolPairState) : Prop :=
  ps_lpFeesPerShare p' = ps_lpFeesPerShare p ∧ ps_lmRewardsPerShare p' = ps_lmRewardsPerShare p ∧
  ps_protocolFees p' = ps_protocolFees p ∧ ps_stakingPoolFees p' = ps_stakingPoolFees p ∧
  ps_orderbook p' = ps_orderbook p ∧ ps_orderRewards p' = ps_orderRewards p ∧
  ps_makingVolume p' = ps_makingVolume p ∧ (locks_wf p → locks_wf p').

Lemma same_books_refl p : same_books p p.
Proof. done. Qed.

Lemma same_books_trans p p' p'' : same_books p p' → same_books p' p'' → same_books p p''.
Proof.
  intros (? & ? & ? & ? & ? & ? & ? & Hl) (? & ? & ? & ? & ? & ? & ? & Hl').
  split_and!; try congruence. by intros Hp%Hl%Hl'.
Qed.

Lemma addLmLockedShare_locks k h a p : 0 ≤ a → locks_wf p → locks_wf (addLmLockedShare k h a p).
Proof.
  intros Ha Hp k' r h' x. cbn. rewrite lookup_insert. case_decide; [|by eauto]. intros [= <-].
  rewrite lookup_insert. case_decide as E; [|].
  - intros [= <-]. case_match; [apply u64_bound|done].
  - destruct (ps_lmLockedShare p !! k) as [m|] eqn:Em; cbn; [by eauto|by rewrite lookup_empty].
Qed.

#[export] Hint Resolve same_books_refl : go.

(** The counters after [amount] shares are added ([locked] of them locked), or removed
    (releasing [locked]); [sgn] is [1] or [-1]. *)
Definition recount (sgn amount locked : Z) (s : Pdexv3PoolPair) : Pdexv3PoolPair :=
  SetLmLockedShareAmount (pp_lmLockedShareAmount s + sgn * locked)
    (SetShareAmount (pp_shareAmount s + sgn * amount) s).

Definition reshare (p : PoolPairState) (sgn amount locked : Z) (s : Share) : Share :=
  mkShare (sh_amount s + sgn * amount) (sh_lmLockedAmount s + sgn * locked) (sh_tradingFees s)
    (ps_lpFeesPerShare p) (ps_lmRewardsPerShare p).

Record share_range (p : PoolPairState) (s : Share) : Prop := {
  sr_total : in_u64 (pp_shareAmount (ps_state p));
  sr_totalLocked : in_u64 (pp_lmLockedShareAmount (ps_state p));
  sr_amount : in_u64 (sh_amount s);
  sr_locked : in_u64 (sh_lmLockedAmount s) }.

Lemma assign_Ok {S A} (m : outcome A) zero (set : A → S → S) msg s r s' :
  assign m zero set msg s = (Ok r, s') ↔ ∃ a, m = Ok a ∧ s' = set a s.
Proof. unfold assign. destruct r, m; naive_solver. Qed.

Lemma orErr_Ok {A} (m : outcome A) msg a : orErr m msg = Ok a ↔ m = Ok a.
Proof. destruct m; naive_solver. Qed.

Ltac inv_change :=
  repeat first
    [ progress inv_ok
    | match goal with
      | H : assign _ _ _ _ _ = (Ok _, _) |- _ =>
          let a := fresh "v" in let Ha := fresh "Hop" in apply assign_Ok in H as (a & Ha & ->)
      | H : orErr _ _ = Ok _ |- _ => apply orErr_Ok in H
      end ].

(** Replace the results of checked operations by their exact values. *)
Ltac ops_exact :=
  repeat match goal with
  | H : executeOperationUint64 _ _ addOperator = Ok _ |- _ =>
      apply executeOperation_add in H as [-> ?]; [|done..]
  | H : executeOperationUint64 _ _ subOperator = Ok _ |- _ =>
      apply executeOperation_sub in H as [-> ?]; [|done..]
  end.
Ltac close_change :=
  unfold reshare, recount, SetShareAmount, SetLmLockedShareAmount; split_and!;
  try done; try (unfold sh_with_locked, sh_with_amount, sh_with_last; cbn; f_equal; lia).

Lemma changeShare_add nft amt h blocks p s p' s' :
  share_range p s → in_u64 amt →
  changeShare nft amt addOperator h blocks (p, s) = (Ok tt, (p', s')) →
  let l := if 0 <? blocks then amt else 0 in
  s' = reshare p 1 amt l s ∧ ps_state p' = recount 1 amt l (ps_state p) ∧
  ps_shares p' = ps_shares p ∧ same_books p p' ∧
  pp_shareAmount (ps_state p) + amt < word64.
Proof.
  intros [Ht HtL Ha Hl] Hamt Hrun. unfold changeShare in Hrun. inv_change;
    cbn -[Z.ltb Z.add executeOperationUint64 addOperator] in *; ops_exact.
  - change ((0 <? blocks) = true) in Heqb. subst l. rewrite Heqb. close_change.
    unfold same_books. split_and!; try done. intros Hlk. apply addLmLockedShare_locks; [apply Hamt|exact Hlk].
  - change ((0 <? blocks) = false) in Heqb. subst l. rewrite Heqb. close_change.
Qed.

Lemma changeShare_sub nft amt h blocks p s p' s' :
  share_range p s → in_u64 amt →
  changeShare nft amt subOperator h blocks (p, s) = (Ok tt, (p', s')) →
  let l := Z.min amt (sh_lmLockedAmount s) in
  s' = reshare p (-1) amt l s ∧ ps_state p' = recount (-1) amt l (ps_state p) ∧
  ps_shares p' = ps_shares p ∧ same_books p p' ∧ ps_lmLockedShare p' = ps_lmLockedShare p ∧
  amt ≤ sh_amount s ∧ amt ≤ pp_shareAmount (ps_state p) ∧
  l ≤ pp_lmLockedShareAmount (ps_state p).
Proof.
  intros [Ht HtL Ha Hl] Hamt Hrun. unfold changeShare in Hrun. inv_change;
    cbn -[Z.ltb Z.add executeOperationUint64 subOperator] in *; try done.
  assert (El : (if amt <? sh_lmLockedAmount s then amt else sh_lmLockedAmount s) = l)
    by (unfold l; case_match; lia).
  rewrite El in *. assert (in_u64 l) by (unfold l, in_u64 in *; lia). clearbody l.
  ops_exact. close_change.
Qed.

(** [reshared p p' sgn amt l h]: the share of NFT [h] was settled and changed, nothing else. *)
Definition reshared (p p' : PoolPairState) (sgn amt l : Z) (h : Hash) : Prop :=
  let s := default NewShare (ps_shares p !! Hash_String h) in
  ∃ fees, (∀ tok, 0 ≤ feeOf tok fees ∧ BaseLPFeesPerShare * feeOf tok fees ≤ entitlement p tok s) ∧
    ps_shares p' = <[Hash_String h := reshare p sgn amt l (sh_with_fees fees s)]> (ps_shares p) ∧
    ps_state p' = recount sgn amt l (ps_state p) ∧ same_books p p'.

Lemma wf_share_new p : wf_ledger p → wf_share p NewShare.
Proof.
  intros [_ _ _ _ _ Hb]. split; cbn; [lia| |apply mono_empty; intros; apply Hb..].
  intros tok. unfold feeOf. by rewrite lookup_empty.
Qed.

Lemma wf_share_default p nft : wf_ledger p → wf_share p (default NewShare (ps_shares p !! nft)).
Proof.
  intros Hp. destruct (ps_shares p !! nft) eqn:E; cbn; [by eapply wl_each|by apply wf_share_new].
Qed.

Lemma share_le_total p nft : wf_ledger p →
  sh_amount (default NewShare (ps_shares p !! nft)) ≤ pp_shareAmount (ps_state p).
Proof.
  intros Hp. pose proof (wl_total _ Hp) as Ht. rewrite <- (wl_shares _ Hp) in *.
  destruct (ps_shares p !! nft) as [s|] eqn:E; [|cbn; unfold in_u64 in *; lia].
  apply (map_sum_elem_le sh_amount _ nft); [|done].
  intros k a Ha. destruct (wl_each _ Hp _ _ Ha). lia.
Qed.

Lemma locked_le_total p : wf_ledger p →
  0 ≤ pp_lmLockedShareAmount (ps_state p) ≤ pp_shareAmount (ps_state p).
Proof.
  intros Hp. rewrite <- (wl_locked _ Hp), <- (wl_shares _ Hp).
  split; [apply map_sum_nonneg|apply map_sum_le]; intros k a Ha; destruct (wl_each _ Hp _ _ Ha); lia.
Qed.

Lemma share_range_ledger p nft : wf_ledger p →
  share_range p (default NewShare (ps_shares p !! nft)).
Proof.
  intros Hp. pose proof (wl_total _ Hp). pose proof (locked_le_total _ Hp).
  pose proof (share_le_total p nft Hp). destruct (wf_share_default p nft Hp).
  split; unfold in_u64 in *; lia.
Qed.

(** A share change of a well-formed pool. *)
Lemma recount_wf_pair sgn amt l s : wf_pair s → wf_pair (recount sgn amt l s).
Proof. by intros []. Qed.

(** A share that was settled and changed keeps the ledger and does not raise what the pool
    owes. *)
Lemma reshared_ledger p p' sgn amt l h :
  wf_ledger p → wf_hash h → reshared p p' sgn amt l h →
  in_u64 (pp_shareAmount (ps_state p) + sgn * amt) →
  (let s := default NewShare (ps_shares p !! Hash_String h) in
   0 ≤ sh_lmLockedAmount s + sgn * l ≤ sh_amount s + sgn * amt) →
  wf_ledger p' ∧ ∀ tok, liability p' tok ≤ liability p tok.
Proof.
  intros Hp Hh (fees & Hfees & Hsh & Hst & Hbooks) Hr Hl. cbv zeta in *.
  destruct Hbooks as (Hlp & Hlm & _). set (s := default NewShare _) in *.
  assert (Hsum : ∀ f : Share → Z, f NewShare = 0 →
    map_sum f (ps_shares p') = map_sum f (ps_shares p) - f s + f (reshare p sgn amt l (sh_with_fees fees s))).
  { intros f H0. rewrite Hsh, map_sum_insert. unfold s.
    destruct (ps_shares p !! _); cbn [from_option default id]; lia. }
  assert (Hbk : ∀ tok, 0 ≤ feeOf tok (ps_lpFeesPerShare p) ∧ 0 ≤ feeOf tok (ps_lmRewardsPerShare p))
    by apply Hp.
  split; [split|].
  - rewrite Hst. exact Hr.
  - rewrite Hsum, Hst, (wl_shares _ Hp) by done. cbn. lia.
  - rewrite Hsum, Hst, (wl_locked _ Hp) by done. cbn. lia.
  - intros nft x. rewrite Hsh, lookup_insert. case_decide as E; intros Hx.
    + injection Hx as <-. split; cbn; [done|apply Hfees|..]; rewrite ?Hlp, ?Hlm;
        apply mono_refl; intros; apply Hbk.
    + destruct (wl_each _ Hp _ _ Hx). by split; rewrite ?Hlp, ?Hlm.
  - intros nft [x Hx]. rewrite Hsh in Hx. apply lookup_insert_Some in Hx as [[<- _]|[_ Hx]];
      [by exists h|]. apply (wl_keys _ Hp). by exists x.
  - by rewrite Hlp, Hlm.
  - intros tok. unfold liability.
    assert (He : ∀ x, entitlement p' tok x = entitlement p tok x)
      by (intros; unfold entitlement; by rewrite Hlp, Hlm).
    rewrite (map_sum_ext _ (entitlement p tok)) by done.
    rewrite Hsum by apply entitlement_new.
    destruct (Hfees tok) as [_ Hf].
    unfold entitlement at 3. cbn [reshare sh_with_fees sh_tradingFees sh_amount sh_lmLockedAmount
      sh_lastLPFeesPerShare sh_lastLmRewardsPerShare]. rewrite !Z.sub_diag. lia.
Qed.

Lemma updateShareValue_reshared p p' op amt h bh blocks :
  wf_ledger p → wf_hash h → in_u64 amt → op = addOperator ∨ op = subOperator →
  updateShareValue amt (Hash_String h) op bh blocks p = (Ok tt, p') →
  let s := default NewShare (ps_shares p !! Hash_String h) in
  let '(sgn, l) := if op =? addOperator then (1, if 0 <? blocks then amt else 0)
                   else (-1, Z.min amt (sh_lmLockedAmount s)) in
  reshared p p' sgn amt l h ∧ in_u64 (pp_shareAmount (ps_state p) + sgn * amt) ∧
  0 ≤ sh_lmLockedAmount s + sgn * l ≤ sh_amount s + sgn * amt.
Proof.
  intros Hp Hh Hamt Hop Hrun s.
  pose proof (share_range_ledger p (Hash_String h) Hp) as Hsr. fold s in Hsr.
  pose proof (wf_share_default p (Hash_String h) Hp) as [Hlk Hfee _ _]. fold s in Hlk, Hfee.
  pose proof (wl_total _ Hp) as Htot. pose proof (share_le_total p (Hash_String h) Hp) as Hle.
  fold s in Hle.
  assert (Hcore : ∃ fees p1 s',
    (∀ tok, 0 ≤ feeOf tok fees ∧ BaseLPFeesPerShare * feeOf tok fees ≤ entitlement p tok s) ∧
    changeShare (Hash_String h) amt op bh blocks (p, sh_with_fees fees s) = (Ok tt, (p1, s')) ∧
    p' = ps_with_shares (<[Hash_String h := s']> (ps_shares p1)) p1).
  { unfold updateShareValue in Hrun. unfold s.
    destruct (ps_shares p !! Hash_String h) as [s0|] eqn:E; cbn [default from_option id].
    - rewrite NewHashFromStr_String in Hrun by done.
      match type of Hrun with (let '(_, _) := ?x in _) = _ => destruct x as [r [p1 s']] eqn:Hb end.
      injection Hrun as -> <-.
      apply M_bind_Ok in Hb as (? & ? & (fees & Hf & ->)%assign_Ok & Hb).
      exists fees, p1, s'. split; [|by split]. intros tok.
      unfold s in *. cbn in *.
      destruct (RecomputeLPRewards_spec p h s0 fees tok E) as (? & ? & _); [by eapply wl_each|
        apply Hsr|done|done].
    - destruct (op =? subOperator); [done|].
      destruct (changeShare _ _ _ _ _ _) as [r [p1 s']] eqn:Hb.
      destruct r as [[]|e| |]; try done. injection Hrun as <-. exists ∅, p1, s'.
      split; [|by split]. intros tok. rewrite entitlement_new. unfold feeOf. by rewrite lookup_empty. }
  destruct Hcore as (fees & p1 & s' & Hfees & Hch & ->).
  assert (Hsr' : share_range p (sh_with_fees fees s)) by (by destruct Hsr).
  destruct Hop as [->| ->].
  - destruct (changeShare_add _ _ _ _ _ _ _ _ Hsr' Hamt Hch) as (-> & Hst & Hsh & Hbk & Hlt).
    cbv [addOperator subOperator]. cbn [Z.eqb]. split; [|split].
    + exists fees. rewrite Hsh. by split.
    + unfold in_u64 in *. lia.
    + unfold in_u64 in *. destruct (0 <? blocks); lia.
  - destruct (changeShare_sub _ _ _ _ _ _ _ _ Hsr' Hamt Hch)
      as (-> & Hst & Hsh & Hbk & _ & Ha & Ht & HL). cbn in Ha, HL.
    cbv [addOperator subOperator]. cbn [Z.eqb]. split; [|split].
    + exists fees. rewrite Hsh. by split.
    + unfold in_u64 in *. lia.
    + lia.
Qed.

(** ** Changing the reserves *)
Definition sign_of (op : Z) : Z := if op =? addOperator then 1 else -1.

Lemma executeOperation_sign op a b r : op = addOperator ∨ op = subOperator → in_u64 a → in_u64 b →
  executeOperationUint64 a b op = Ok r ↔ r = a + sign_of op * b ∧ in_u64 r.
Proof.
  intros [->| ->] Ha Hb; [rewrite executeOperation_add by done|rewrite executeOperation_sub by done];
    unfold sign_of, in_u64 in *; cbn; split; intros [-> ?]; lia.
Qed.

Lemma newVirtual_ge s op v r amt S' nv : op = addOperator ∨ op = subOperator → r ≤ v →
  newVirtual s v (r + sign_of op * amt) S' amt op = Ok nv → r + sign_of op * amt ≤ nv.
Proof.
  intros Hop Hle. unfold newVirtual. destruct (negb _).
  - intros (t & _ & [= <-])%outcome_bind_Ok. case_match; lia.
  - destruct Hop as [->| ->]; intros [= <-]; unfold sign_of; cbn; lia.
Qed.

(** Both reserves moved by the given amounts, nothing else of the pool changed. *)
Record moved (sgn a0 a1 : Z) (s s' : Pdexv3PoolPair) : Prop := {
  mv_real0 : pp_token0RealAmount s' = pp_token0RealAmount s + sgn * a0;
  mv_real1 : pp_token1RealAmount s' = pp_token1RealAmount s + sgn * a1;
  mv_share : pp_shareAmount s' = pp_shareAmount s;
  mv_locked : pp_lmLockedShareAmount s' = pp_lmLockedShareAmount s;
  mv_id0 : pp_token0ID s' = pp_token0ID s;
  mv_id1 : pp_token1ID s' = pp_token1ID s;
  mv_amplifier : pp_amplifier s' = pp_amplifier s;
  mv_wf : wf_pair s' }.

Lemma updateSingleTokenAmount_moved p p' op (side : bool) amt sh :
  wf_state p → op = addOperator ∨ op = subOperator → in_u64 amt →
  updateSingleTokenAmount (if side then pp_token0ID (ps_state p) else pp_token1ID (ps_state p))
    amt sh op p = (Ok tt, p') →
  ∃ s', p' = ps_with_state s' p ∧
    moved (sign_of op) (if side then amt else 0) (if side then 0 else amt) (ps_state p) s'.
Proof.
  intros [[Hr0 Hr1 Hv0 Hv1] (Hw0 & Hw1 & Hne) _ _ _] Hop Hamt Hrun.
  unfold updateSingleTokenAmount in Hrun. apply M_bind_Ok in Hrun as (? & ? & [= <- <-] & Hrun).
  cbv zeta in Hrun.
  assert (E1 : String.eqb (Hash_String (pp_token1ID (ps_state p)))
    (Hash_String (pp_token0ID (ps_state p))) = false).
  { apply String.eqb_neq. intros E. by apply Hne, Hash_String_inj. }
  destruct side; rewrite ?E1, ?String.eqb_refl in Hrun; cbn [negb andb] in Hrun;
    apply M_bind_Ok in Hrun as (S' & ? & [Hs <-]%pair_eq & Hrun);
    apply M_bind_Ok in Hrun as (r' & ? & [Hr <-]%pair_eq & Hrun);
    apply M_bind_Ok in Hrun as (v' & ? & [Hv <-]%pair_eq & [= <-]);
    apply executeOperation_sign in Hr as [-> Hu]; try done;
    apply newVirtual_ge in Hv; try done; (eexists; split; [reflexivity|]);
    split; cbn; try done; try lia; split; cbn; done.
Qed.

Lemma ps_with_state_wf p s' sgn a0 a1 :
  wf_state p → moved sgn a0 a1 (ps_state p) s' → wf_state (ps_with_state s' p).
Proof.
  intros [Hp Ht Hlt Ha [? ? ? Heach ? ?]] []. split; cbn; [done|by rewrite mv_id2, mv_id3..|by rewrite mv_amplifier0|].
  split; cbn; rewrite ?mv_share0, ?mv_locked0; try done.
  intros nft x Hx. by destruct (Heach _ _ Hx).
Qed.

Lemma updateReserveData_moved p p' op a0 a1 sh :
  wf_state p → op = addOperator ∨ op = subOperator → in_u64 a0 → in_u64 a1 →
  updateReserveData a0 a1 sh op p = (Ok tt, p') →
  ∃ s', p' = ps_with_state s' p ∧ moved (sign_of op) a0 a1 (ps_state p) s'.
Proof.
  intros Hp Hop Ha0 Ha1 Hrun. unfold updateReserveData in Hrun.
  apply M_bind_Ok in Hrun as (? & ? & [= <- <-] & Hrun).
  apply M_bind_Ok in Hrun as ([] & p1 & H1 & Hrun).
  apply M_bind_Ok in Hrun as (? & ? & [= <- <-] & H2).
  apply (updateSingleTokenAmount_moved p p1 op true) in H1 as (s1 & -> & M1); try done.
  apply (updateSingleTokenAmount_moved _ p' op false) in H2 as (s2 & -> & M2); try done;
    [|by eapply ps_with_state_wf].
  exists s2. split; [done|]. cbn in M2. destruct M1, M2. split; try congruence; try done; lia.
Qed.

(** When it cannot fail. *)
Lemma updateSingleTokenAmount_succeeds p op (side : bool) amt sh :
  wf_state p → op = addOperator ∨ op = subOperator → in_u64 amt → in_u64 sh →
  let r := if side then pp_token0RealAmount (ps_state p) else pp_token1RealAmount (ps_state p) in
  0 < pp_shareAmount (ps_state p) →
  in_u64 (pp_shareAmount (ps_state p) + sign_of op * sh) → in_u64 (r + sign_of op * amt) →
  ∃ p', updateSingleTokenAmount
    (if side then pp_token0ID (ps_state p) else pp_token1ID (ps_state p)) amt sh op p = (Ok tt, p').
Proof.
  intros [[Hr0 Hr1 Hv0 Hv1] (Hw0 & Hw1 & Hne) _ _ Hlg] Hop Hamt Hsh r Hpos HS Hr.
  assert (E1 : String.eqb (Hash_String (pp_token1ID (ps_state p)))
    (Hash_String (pp_token0ID (ps_state p))) = false).
  { apply String.eqb_neq. intros E. by apply Hne, Hash_String_inj. }
  unfold updateSingleTokenAmount, getS, lift, modifyS, mbind, M_bind. cbn -[executeOperationUint64].
  assert (Hex : ∀ a b, in_u64 a → in_u64 b → in_u64 (a + sign_of op * b) →
    executeOperationUint64 a b op = Ok (a + sign_of op * b)) by (intros; by apply executeOperation_sign).
  assert (Hnv : ∀ v r' S' a, ∃ nv, newVirtual (ps_state p) v r' S' a op = Ok nv).
  { intros. unfold newVirtual. destruct (negb _); [rewrite bigDiv_pos by done; by eexists|].
    destruct Hop as [->| ->]; by eexists. }
  pose proof (wl_total _ Hlg) as Ht.
  destruct side; rewrite ?E1, ?String.eqb_refl; cbn [negb andb]; rewrite !Hex by done;
    match goal with |- context [newVirtual ?s ?v ?r' ?S' ?a ?o] =>
      destruct (Hnv v r' S' a) as [nv ->] end; by eexists.
Qed.

Lemma updateReserveData_succeeds p op a0 a1 sh :
  wf_state p → op = addOperator ∨ op = subOperator → in_u64 a0 → in_u64 a1 → in_u64 sh →
  0 < pp_shareAmount (ps_state p) → in_u64 (pp_shareAmount (ps_state p) + sign_of op * sh) →
  in_u64 (pp_token0RealAmount (ps_state p) + sign_of op * a0) →
  in_u64 (pp_token1RealAmount (ps_state p) + sign_of op * a1) →
  ∃ p', updateReserveData a0 a1 sh op p = (Ok tt, p').
Proof.
  intros Hp Hop Ha0 Ha1 Hsh Hpos HS H0 H1.
  destruct (updateSingleTokenAmount_succeeds p op true a0 sh) as [p1 Hr1]; try done.
  destruct (updateSingleTokenAmount_moved _ _ _ true _ _ Hp Hop Ha0 Hr1) as (s1 & -> & M1).
  pose proof (ps_with_state_wf _ _ _ _ _ Hp M1) as Hp1.
  pose proof (mv_share _ _ _ _ _ M1) as Es. pose proof (mv_real1 _ _ _ _ _ M1) as Er.
  rewrite Z.mul_0_r, Z.add_0_r in Er.
  destruct (updateSingleTokenAmount_succeeds _ op false a1 sh Hp1) as [p2 Hr2]; try done;
    [cbn; by rewrite Es..|cbn; by rewrite Er|].
  exists p2. unfold updateReserveData, getS, mbind, M_bind. rewrite Hr1. exact Hr2.
Qed.

(** The identity of a pool and its orders. *)
Definition same_pool (p p' : PoolPairState) : Prop :=
  pp_token0ID (ps_state p') = pp_token0ID (ps_state p) ∧
  pp_token1ID (ps_state p') = pp_token1ID (ps_state p) ∧ ps_orderbook p' = ps_orderbook p.

Lemma moved_reshared_same p s' p' sgn a0 a1 sgn' amt l h :
  moved sgn a0 a1 (ps_state p) s' → reshared (ps_with_state s' p) p' sgn' amt l h → same_pool p p'.
Proof.
  intros [] (fees & _ & _ & Hst & Hbk). destruct Hbk as (_ & _ & _ & _ & Hob & _).
  unfold same_pool. by rewrite Hst, Hob.
Qed.

(** The two steps of a contribution to an existing pool, as [addLiquidity] performs them on
    a copy of the pool. *)
Definition contribute (token0ID token1ID : string) (token0Amount token1Amount : Z) (nftID : Hash)
    (beaconHeight lmLockedBlocks : Z) : M PoolPairState Z :=
  shareAmount ← addReserveDataAndCalculateShare token0ID token1ID token0Amount token1Amount;
  _ ← addShare nftID shareAmount beaconHeight lmLockedBlocks;
  mret shareAmount.

Lemma reshared_wf p p' sgn amt l h :
  wf_state p → wf_hash h → reshared p p' sgn amt l h →
  in_u64 (pp_shareAmount (ps_state p) + sgn * amt) →
  (let s := default NewShare (ps_shares p !! Hash_String h) in
   0 ≤ sh_lmLockedAmount s + sgn * l ≤ sh_amount s + sgn * amt) →
  wf_state p' ∧ ∀ tok, liability p' tok ≤ liability p tok.
Proof.
  intros [Hpair Htok Hsort Hamp Hlg] Hh Hre Hu Hl.
  destruct (reshared_ledger _ _ _ _ _ _ Hlg Hh Hre Hu Hl) as [Hlg' Hli].
  destruct Hre as (fees & _ & _ & Hst & _).
  split; [|done]. split; rewrite ?Hst; try done. by apply recount_wf_pair.
Qed.

Lemma liability_with_state p s' tok : liability (ps_with_state s' p) tok = liability p tok.
Proof. done. Qed.

(** What [contribute] does when it succeeds. *)
Lemma contribute_spec p p' a0 a1 h bh blocks s :
  wf_state p → isEmpty p = false → wf_hash h → in_u64 a0 → in_u64 a1 →
  contribute (Hash_String (pp_token0ID (ps_state p))) (Hash_String (pp_token1ID (ps_state p)))
    a0 a1 h bh blocks p = (Ok s, p') →
  wf_state p' ∧ in_u64 s ∧ (∀ tok, liability p' tok ≤ liability p tok) ∧
  s * pp_token0RealAmount (ps_state p) ≤ a0 * pp_shareAmount (ps_state p) ∧
  s * pp_token1RealAmount (ps_state p) ≤ a1 * pp_shareAmount (ps_state p) ∧
  pp_token0RealAmount (ps_state p') = pp_token0RealAmount (ps_state p) + a0 ∧
  pp_token1RealAmount (ps_state p') = pp_token1RealAmount (ps_state p) + a1 ∧
  pp_shareAmount (ps_state p') = pp_shareAmount (ps_state p) + s ∧
  sh_amount (default NewShare (ps_shares p' !! Hash_String h)) =
    sh_amount (default NewShare (ps_shares p !! Hash_String h)) + s ∧
  (∀ nft, nft ≠ Hash_String h → ps_shares p' !! nft = ps_shares p !! nft) ∧ same_pool p p' ∧
  same_books p p'.
Proof.
  intros Hp Hne Hh Ha0 Ha1 Hrun. unfold contribute in Hrun.
  apply M_bind_Ok in Hrun as (s1 & p1 & Hres & Hrun).
  apply M_bind_Ok in Hrun as ([] & p2 & Hadd & [= -> ->]).
  unfold addReserveDataAndCalculateShare in Hres. rewrite (wst_sorted _ Hp) in Hres.
  apply M_bind_Ok in Hres as (? & ? & [= <- <-] & Hres).
  apply M_bind_Ok in Hres as (s2 & ? & [Hcs <-]%pair_eq & Hres).
  apply M_bind_Ok in Hres as ([] & p3 & Hupd & [= -> ->]).
  unfold isEmpty in Hne. pose proof (wst_pair _ Hp) as [Hr0 Hr1 _ _].
  pose proof (wl_total _ (wst_ledger _ Hp)) as Ht. unfold in_u64 in Hr0, Hr1, Ht.
  destruct (CalculateShareAmount_spec (pp_token0RealAmount (ps_state p))
    (pp_token1RealAmount (ps_state p)) a0 a1 (pp_shareAmount (ps_state p)))
    as (s0 & Hs0 & Hu & Hd0 & Hd1); [lia|lia|apply Ha0|apply Ha1|lia|].
  unfold ps_calculateShareAmount in Hcs. rewrite Hs0 in Hcs. injection Hcs as ->.
  apply updateReserveData_moved in Hupd as (st & -> & Hmv); [|by auto..].
  pose proof (ps_with_state_wf _ _ _ _ _ Hp Hmv) as Hp1.
  apply updateShareValue_reshared in Hadd; [|by auto using wst_ledger..].
  cbn [sign_of addOperator Z.eqb] in *. cbv zeta in Hadd.
  destruct Hadd as (Hre & Hu' & Hl).
  destruct (reshared_wf _ _ _ _ _ _ Hp1 Hh Hre Hu' Hl) as [Hp2 Hli].
  pose proof (moved_reshared_same _ _ _ _ _ _ _ _ _ _ Hmv Hre) as Hsame.
  destruct Hre as (fees & _ & Hsh & Hst & Hbk). destruct Hmv.
  change (sign_of addOperator) with 1 in *.
  split_and!; try done; try (rewrite Hst; cbn; lia).
  - rewrite Hsh, lookup_insert_eq. cbn. lia.
  - intros nft Hn. rewrite Hsh, lookup_insert_ne by done. done.
Qed.

Lemma accrue_returns toks last w r : returns (accrue toks last w r).
Proof. revert r. induction toks as [|[] toks IH]; intros; cbn; [done|]. case_match; [done|apply IH]. Qed.

Lemma RecomputeLPRewards_returns p h : returns (RecomputeLPRewards p h).
Proof.
  unfold RecomputeLPRewards. case_match; [|done].
  apply outcome_bind_returns; intros; apply accrue_returns.
Qed.

(** [contribute] does not panic on a non-empty pool. *)
Lemma updateSingleTokenAmount_returns p tok amt sh op :
  op = addOperator ∨ op = subOperator → 0 < pp_shareAmount (ps_state p) →
  returns (updateSingleTokenAmount tok amt sh op p).1.
Proof.
  intros Hop Hpos. unfold updateSingleTokenAmount. rewrite getS_bind. case_match; [done|].
  apply M_bind_returns; [apply executeOperation_returns|]. intros S' ? [_ <-]%pair_eq.
  apply M_bind_returns; [apply executeOperation_returns|]. intros r' ? [_ <-]%pair_eq.
  apply M_bind_returns; [|done]. unfold lift, newVirtual. cbn [fst].
  destruct (negb (_ =? BaseAmplifier)); [rewrite bigDiv_pos by done; exact I|]. destruct Hop as [->| ->]; exact I.
Qed.

Lemma updateReserveData_returns p a0 a1 sh op :
  wf_state p → op = addOperator ∨ op = subOperator → in_u64 a0 → 0 < pp_shareAmount (ps_state p) →
  returns (updateReserveData a0 a1 sh op p).1.
Proof.
  intros Hp Hop Ha0 Hpos. unfold updateReserveData. rewrite getS_bind.
  apply M_bind_returns; [by apply updateSingleTokenAmount_returns|].
  intros [] p1 H1. rewrite getS_bind. apply updateSingleTokenAmount_returns; [done|].
  apply (updateSingleTokenAmount_moved p p1 op true) in H1 as (s1 & -> & [_ _ Hsh _ _ _ _ _]);
    [cbn; lia|done..].
Qed.

Lemma changeShare_returns nft amt op bh blocks s : returns (changeShare nft amt op bh blocks s).1.
Proof.
  assert (Hasg : ∀ (m : outcome Z) (set : Z → PoolPairState * Share → PoolPairState * Share) msg s,
    returns m → returns (assign m 0 set msg s).1) by (intros [] ??? ?; done).
  assert (Hlift : ∀ (m : outcome Z) msg (s : PoolPairState * Share), returns m →
    returns (lift (orErr m msg) s).1) by (intros [] ?? ?; done).
  unfold changeShare.
  repeat first [ apply M_bind_returns; [|intros ? ? _] | apply Hasg, executeOperation_returns
               | apply Hlift, executeOperation_returns | done | case_match ].
Qed.

Lemma updateShareValue_returns amt nft op bh blocks p :
  returns (updateShareValue amt nft op bh blocks p).1.
Proof.
  unfold updateShareValue. destruct (ps_shares p !! nft) as [share|].
  - destruct (NewHashFromStr nft) as [h| | |]; [|exact I..].
    pose proof (RecomputeLPRewards_returns p h) as Hrec.
    match goal with |- context [let '(_, _) := ?x in _] =>
      assert (Hr : returns x.1); [|destruct x as [r [p' s']]; exact Hr] end.
    apply M_bind_returns; [by destruct (RecomputeLPRewards p h)|]. intros. apply changeShare_returns.
  - case_match; [done|].
    pose proof (changeShare_returns nft amt op bh blocks (p, NewShare)) as Hr.
    destruct (changeShare _ _ _ _ _ _) as [[] [p' s']]; done.
Qed.

Lemma contribute_returns p a0 a1 h bh blocks :
  wf_state p → isEmpty p = false → in_u64 a0 → in_u64 a1 →
  returns (contribute (Hash_String (pp_token0ID (ps_state p)))
             (Hash_String (pp_token1ID (ps_state p))) a0 a1 h bh blocks p).1.
Proof.
  intros Hp Hne Ha0 Ha1. pose proof (wst_pair _ Hp) as [Hr0 Hr1 _ _].
  pose proof (wl_total _ (wst_ledger _ Hp)) as Ht. unfold isEmpty, in_u64 in *.
  unfold contribute. apply M_bind_returns.
  - unfold addReserveDataAndCalculateShare. rewrite (wst_sorted _ Hp), getS_bind.
    destruct (CalculateShareAmount_spec (pp_token0RealAmount (ps_state p))
      (pp_token1RealAmount (ps_state p)) a0 a1 (pp_shareAmount (ps_state p)))
      as (s & Hs & Hu & _); [lia..|].
    apply M_bind_returns; [unfold lift, ps_calculateShareAmount; by rewrite Hs|].
    intros s' ? [_ <-]%pair_eq. apply M_bind_returns; [|done].
    apply updateReserveData_returns; [done|by left|done|lia].
  - intros s p1 _. apply M_bind_returns; [apply updateShareValue_returns|done].
Qed.

(** What [deductShare] does when it succeeds. *)
Lemma deductShare_spec p p' h req t0 t1 s :
  wf_state p → wf_hash h → in_u64 req →
  deductShare (Hash_String h) req p = (Ok (t0, t1, s), p') →
  wf_state p' ∧ (∀ tok, liability p' tok ≤ liability p tok) ∧
  s = Z.min req (sh_amount (default NewShare (ps_shares p !! Hash_String h))) ∧ 0 < s ∧
  s ≤ pp_shareAmount (ps_state p) ∧
  t0 = pp_token0RealAmount (ps_state p) * s / pp_shareAmount (ps_state p) ∧
  t1 = pp_token1RealAmount (ps_state p) * s / pp_shareAmount (ps_state p) ∧
  0 ≤ t0 ≤ pp_token0RealAmount (ps_state p) ∧ 0 ≤ t1 ≤ pp_token1RealAmount (ps_state p) ∧
  pp_token0RealAmount (ps_state p') = pp_token0RealAmount (ps_state p) - t0 ∧
  pp_token1RealAmount (ps_state p') = pp_token1RealAmount (ps_state p) - t1 ∧
  pp_shareAmount (ps_state p') = pp_shareAmount (ps_state p) - s ∧
  (∀ nft, nft ≠ Hash_String h → ps_shares p' !! nft = ps_shares p !! nft) ∧ same_pool p p' ∧
  same_books p p'.
Proof.
  intros Hp Hh Hreq Hrun. pose proof (wst_ledger _ Hp) as Hlg.
  pose proof (share_le_total p (Hash_String h) Hlg) as Hle.
  pose proof (wf_share_default p (Hash_String h) Hlg) as [Hlk _ _ _].
  pose proof (wl_total _ Hlg) as Ht. pose proof (wst_pair _ Hp) as [Hr0 Hr1 _ _].
  unfold deductShare in Hrun. apply M_bind_Ok in Hrun as (? & ? & [= <- <-] & Hrun).
  destruct (req =? 0) eqn:E0; [done|].
  destruct (ps_shares p !! Hash_String h) as [sh|] eqn:Esh; [|done].
  cbn [default from_option id] in *.
  destruct (sh_amount sh =? 0) eqn:E1; [done|]. cbv zeta in Hrun.
  assert (Emin : (if sh_amount sh <? req then sh_amount sh else req) = Z.min req (sh_amount sh))
    by (case_match; lia).
  rewrite Emin in Hrun. set (m := Z.min req (sh_amount sh)) in *. unfold in_u64 in *.
  rewrite !bigDiv_pos in Hrun by lia.
  apply M_bind_Ok in Hrun as (? & ? & [= <- <-] & Hrun).
  apply M_bind_Ok in Hrun as (? & ? & [= <- <-] & Hrun).
  set (d0 := pp_token0RealAmount _ * m / _) in *. set (d1 := pp_token1RealAmount _ * m / _) in *.
  assert (B0 : 0 ≤ d0 ≤ pp_token0RealAmount (ps_state p))
    by (split; [apply div_nonneg; nia|apply div_le_l; nia]).
  assert (B1 : 0 ≤ d1 ≤ pp_token1RealAmount (ps_state p))
    by (split; [apply div_nonneg; nia|apply div_le_l; nia]).
  rewrite !bigUint64_small in Hrun by (unfold in_u64; lia).
  apply M_bind_Ok in Hrun as ([] & p1 & Hupd & Hrun).
  destruct (updateReserveData _ _ _ _ p) as [r pu] eqn:Hu.
  injection Hupd as Hor ->. apply orErr_Ok in Hor as ->.
  apply updateReserveData_moved in Hu as (st & -> & Hmv); [|unfold in_u64; auto; lia..].
  pose proof (ps_with_state_wf _ _ _ _ _ Hp Hmv) as Hp1.
  apply M_bind_Ok in Hrun as ([] & p2 & Hsub & [= <- <- <- <-]).
  apply updateShareValue_reshared in Hsub; [|first [by apply wst_ledger|unfold in_u64; auto; lia]..].
  change (subOperator =? addOperator) with false in Hsub. cbv iota zeta in Hsub.
  destruct Hsub as (Hre & Hu' & Hl).
  destruct (reshared_wf _ _ _ _ _ _ Hp1 Hh Hre Hu' Hl) as [Hp2 Hli].
  pose proof (moved_reshared_same _ _ _ _ _ _ _ _ _ _ Hmv Hre) as Hsame.
  destruct Hre as (fees & _ & Hsh & Hst & Hbk). destruct Hmv.
  change (sign_of subOperator) with (-1) in *.
  split_and!; try done; try lia; try (rewrite Hst; cbn; lia).
  intros nft Hn. rewrite Hsh, lookup_insert_ne by done. done.
Qed.

Lemma updateShareValue_sub_succeeds p h share amt fees bh blocks :
  wf_ledger p → wf_hash h → ps_shares p !! Hash_String h = Some share → in_u64 amt →
  amt ≤ sh_amount share → RecomputeLPRewards p h = Ok fees →
  ∃ p', updateShareValue amt (Hash_String h) subOperator bh blocks p = (Ok tt, p').
Proof.
  intros Hp Hh Hsh Hamt Hle Hrec.
  pose proof (share_range_ledger p (Hash_String h) Hp) as [Ht HtL Ha Hl].
  pose proof (share_le_total p (Hash_String h) Hp) as Hles.
  assert (HlL : sh_lmLockedAmount share ≤ pp_lmLockedShareAmount (ps_state p)).
  { rewrite <- (wl_locked _ Hp). apply (map_sum_elem_le sh_lmLockedAmount _ (Hash_String h)); [|done].
    intros k a Ha'. destruct (wl_each _ Hp _ _ Ha'). lia. }
  rewrite Hsh in *. cbn [default from_option id] in *.
  assert (Hex : ∀ a b, in_u64 a → 0 ≤ b ≤ a → executeOperationUint64 a b subOperator = Ok (a - b)).
  { intros a b Hua Hb. apply executeOperation_sub; unfold in_u64 in *; [lia|lia|split; lia]. }
  unfold updateShareValue. rewrite Hsh, NewHashFromStr_String, Hrec by done.
  unfold changeShare, assign, lift, modifyS, getS, mbind, M_bind, mret, M_ret.
  cbn -[executeOperationUint64 Z.ltb]. unfold in_u64 in *.
  rewrite !Hex by (try case_match; unfold in_u64; lia). by eexists.
Qed.

(** [deductShare] does not panic, and succeeds unless the reward counters overflow. *)
Lemma deductShare_outcome p h req share :
  wf_state p → wf_hash h → in_u64 req → ps_shares p !! Hash_String h = Some share →
  0 < req → 0 < sh_amount share →
  (∃ r p', deductShare (Hash_String h) req p = (Ok r, p')) ∨
  ∃ e, RecomputeLPRewards p h = Err e.
Proof.
  intros Hp Hh Hreq Hsh Hr0 Hs0. pose proof (wst_ledger _ Hp) as Hlg.
  pose proof (RecomputeLPRewards_returns p h) as Hret.
  destruct (RecomputeLPRewards p h) as [fees|e| |] eqn:Hrec; [left|by right; eexists|done..].
  pose proof (share_le_total p (Hash_String h) Hlg) as Hle. rewrite Hsh in Hle. cbn in Hle.
  pose proof (wl_total _ Hlg) as Ht. pose proof (wst_pair _ Hp) as [Hq0 Hq1 _ _].
  unfold deductShare, getS. unfold mbind at 1, M_bind at 1. cbv iota beta.
  rewrite Hsh, (proj2 (Z.eqb_neq req 0)), (proj2 (Z.eqb_neq (sh_amount share) 0)) by lia.
  set (m := if sh_amount share <? req then _ else _).
  assert (Hm : 0 < m ≤ sh_amount share) by (unfold m; case_match; lia).
  unfold in_u64 in *. rewrite !bigDiv_pos by lia.
  set (d0 := pp_token0RealAmount _ * m / _). set (d1 := pp_token1RealAmount _ * m / _).
  assert (B0 : 0 ≤ d0 ≤ pp_token0RealAmount (ps_state p))
    by (split; [apply div_nonneg; nia|apply div_le_l; nia]).
  assert (B1 : 0 ≤ d1 ≤ pp_token1RealAmount (ps_state p))
    by (split; [apply div_nonneg; nia|apply div_le_l; nia]).
  unfold lift, mbind, M_bind. rewrite !bigUint64_small by (unfold in_u64; lia).
  destruct (updateReserveData_succeeds p subOperator d0 d1 m) as [p1 Hu];
    try (change (sign_of subOperator) with (-1)); try done; try (unfold in_u64; lia); auto.
  rewrite Hu. cbn [orErr].
  apply updateReserveData_moved in Hu as (st & -> & Hmv); [|unfold in_u64; auto; lia..].
  destruct (updateShareValue_sub_succeeds (ps_with_state st p) h share m fees 0 0) as [p2 Hs];
    [by eapply wst_ledger, ps_with_state_wf|done|done|unfold in_u64; lia|lia|done|].
  rewrite Hs. by eexists _, _.
Qed.

Lemma deductShare_returns p h req share :
  wf_state p → wf_hash h → in_u64 req → ps_shares p !! Hash_String h = Some share →
  returns (deductShare (Hash_String h) req p).1.
Proof.
  intros Hp Hh Hreq Hsh. destruct (wl_each _ (wst_ledger _ Hp) _ _ Hsh) as [Hlk _ _ _].
  destruct (decide (0 < req ∧ 0 < sh_amount share)) as [[Hr Hs]|Hno].
  - destruct (deductShare_outcome p h req share Hp Hh Hreq Hsh Hr Hs) as [(r & p' & ->)|[e He]]; [done|].
    unfold deductShare. rewrite getS_bind, Hsh. do 2 (case_match; [done|]).
    unfold in_u64 in *. pose proof (share_le_total p (Hash_String h) (wst_ledger _ Hp)) as Hle.
    rewrite Hsh in Hle. cbn in Hle. cbv zeta.
    do 2 (apply M_bind_returns; [unfold lift; by rewrite bigDiv_pos by lia|intros ? ? [_ <-]%pair_eq]).
    apply M_bind_returns.
    + match goal with |- context [updateReserveData ?a ?b ?c ?d] =>
        pose proof (updateReserveData_returns p a b c d Hp (or_intror eq_refl) (u64_bound _)) as Hu end.
      destruct (updateReserveData _ _ _ _ p) as [[]?]; try done; by apply Hu; lia.
    + intros. apply M_bind_returns; [apply updateShareValue_returns|done].
  - unfold deductShare. rewrite getS_bind, Hsh. unfold in_u64 in *.
    destruct (req =? 0) eqn:E1; [done|]. by destruct (sh_amount share =? 0) eqn:E2; [|lia].
Qed.

(** ** What the operations guarantee *)

Lemma computeActual_spec p c0 c1 :
  wf_pair (ps_state p) → isEmpty p = false → in_u64 (ct_amount c0) → in_u64 (ct_amount c1) →
  ∃ a0 b0 a1 b1, computeActualContributedAmounts p c0 c1 = Ok (a0, b0, a1, b1) ∧
    a0 + b0 = ct_amount c0 ∧ a1 + b1 = ct_amount c1 ∧
    0 ≤ a0 ∧ 0 ≤ b0 ∧ 0 ≤ a1 ∧ 0 ≤ b1 ∧
    a1 * pp_token0RealAmount (ps_state p) ≤ a0 * pp_token1RealAmount (ps_state p)
      < (a1 + 1) * pp_token0RealAmount (ps_state p) ∧
    (b0 = 0 ∨ ct_amount c1 * pp_token0RealAmount (ps_state p) <
              (a0 + 1) * pp_token1RealAmount (ps_state p)).
Proof.
  intros Hp Hne H0 H1. destruct Hp as [Hr0 Hr1 _ _]. unfold computeActualContributedAmounts. rewrite Hne.
  unfold isEmpty in Hne. unfold in_u64 in *. set (r0 := pp_token0RealAmount _) in *.
  set (r1 := pp_token1RealAmount _) in *. rewrite !bigDiv_pos by lia. cbn [mbind outcome_bind].
  set (t := ct_amount c1 * r0 / r1).
  pose proof (div_spec (ct_amount c1 * r0) r1 ltac:(lia)) as Dt. fold t in Dt.
  assert (0 ≤ t) by (apply div_nonneg; nia).
  set (a0 := if ct_amount c0 <? t then _ else _).
  assert (Ha0 : 0 ≤ a0 ≤ t ∧ a0 ≤ ct_amount c0 ∧ (a0 = t ∨ a0 = ct_amount c0))
    by (unfold a0; case_match; lia).
  clearbody a0. rewrite bigDiv_pos by lia. cbn [mbind outcome_bind].
  pose proof (div_spec (a0 * r1) r0 ltac:(lia)) as Da. set (a1 := a0 * r1 / r0) in *.
  assert (0 ≤ a1) by (apply div_nonneg; nia).
  assert (a1 ≤ ct_amount c1) by (apply div_le_l; nia). clearbody a1 t.
  rewrite !(proj2 (in_u64_iff _)) by (unfold in_u64; lia). cbn [negb orb].
  rewrite !bigUint64_small, !sub64_exact by (unfold in_u64; lia).
  eexists _, _, _, _. split; [done|]. split_and!; try lia; nia.
Qed.

(** Matching a contribution to a pool.  A non-empty pool accepts any contribution: the
    part used and the part returned add up to what was sent, for both tokens, without
    underflow, and the part used respects the ratio of the reserves. *)
Theorem computeActualContributedAmounts_exact p c0 c1
    (Hp : wf_pair (ps_state p)) (Hne : isEmpty p = false) (H0 : in_u64 (ct_amount c0))
    (H1 : in_u64 (ct_amount c1)) :
  ∃ a0 b0 a1 b1, computeActualContributedAmounts p c0 c1 = Ok (a0, b0, a1, b1) ∧
    a0 + b0 = ct_amount c0 ∧ a1 + b1 = ct_amount c1 ∧
    0 ≤ a0 ∧ 0 ≤ b0 ∧ 0 ≤ a1 ∧ 0 ≤ b1 ∧
    a1 * pp_token0RealAmount (ps_state p) ≤ a0 * pp_token1RealAmount (ps_state p)
      < (a1 + 1) * pp_token0RealAmount (ps_state p) ∧
    (b0 = 0 ∨ ct_amount c1 * pp_token0RealAmount (ps_state p) <
              (a0 + 1) * pp_token1RealAmount (ps_state p)).
Proof. by apply computeActual_spec. Qed.

Definition sample_nft : Hash := emptyHash.
Definition sample_share : Share := mkShare 1000 0 ∅ ∅ ∅.
Definition sample_pair : Pdexv3PoolPair :=
  mkPoolPair 1000 0 emptyHash PRVCoinID 50000 20000 100000 40000 20000.
Definition sample_state : PoolPairState :=
  mkPoolPairState ∅ sample_pair {[Hash_String sample_nft := sample_share]} ∅ (mkOrderbook [])
    ∅ ∅ ∅ ∅ ∅.
Definition sample_contribution (tok : Hash) (amount : Z) : Pdexv3Contribution :=
  mkContribution "" "" tok amount 20000 emptyHash sample_nft 0.

Lemma sample_state_wf : wf_state sample_state.
Proof.
  split; try done. split; try done.
  2: { intros nft [s Hs]. unfold sample_state in Hs. cbn [ps_shares] in Hs.
       apply lookup_singleton_Some in Hs as [<- _]. by exists sample_nft. }
  intros nft s Hs. unfold sample_state in Hs. cbn [ps_shares] in Hs.
  apply lookup_singleton_Some in Hs as [_ <-].
  split; [|intros tok..]; vm_compute; repeat split; discriminate.
Qed.

Lemma computeActualContributedAmounts_exact_witness :
  ∃ a0 b0 a1 b1, computeActualContributedAmounts sample_state
    (sample_contribution emptyHash 1000) (sample_contribution PRVCoinID 900) = Ok (a0, b0, a1, b1) ∧
    a0 + b0 = 1000 ∧ a1 + b1 = 900.
Proof.
  destruct (computeActualContributedAmounts_exact sample_state
    (sample_contribution emptyHash 1000) (sample_contribution PRVCoinID 900))
    as (a0 & b0 & a1 & b1 & H & H0 & H1 & _);
    [apply sample_state_wf|reflexivity|unfold in_u64, word64; cbn; lia..|].
  by exists a0, b0, a1, b1.
Defined.

(** The result of a method that succeeds. *)
Definition succeeds {S A} (r : outcome A * S) : bool :=
  match r.1 with Ok _ => true | _ => false end.

(** C35: a contribution dilutes nobody.  When a contribution to a non-empty pool is
    accepted, the pool stays well formed (its share counters are the sums over the shares,
    virtual reserves cover the real ones), the reserves grow by exactly the contributed
    amounts, the contributor's share grows by the minted amount and no other share changes,
    the value of a share does not drop in either token, and the fees owed to the
    liquidity providers do not grow. *)
Theorem contribute_no_dilution p p' a0 a1 h bh blocks s
    (Hp : wf_state p) (Hne : isEmpty p = false) (Hh : wf_hash h) (Ha0 : in_u64 a0) (Ha1 : in_u64 a1)
    (Hrun : contribute (Hash_String (pp_token0ID (ps_state p)))
              (Hash_String (pp_token1ID (ps_state p))) a0 a1 h bh blocks p = (Ok s, p')) :
  wf_state p' ∧ (∀ tok, liability p' tok ≤ liability p tok) ∧
  pp_token0RealAmount (ps_state p') = pp_token0RealAmount (ps_state p) + a0 ∧
  pp_token1RealAmount (ps_state p') = pp_token1RealAmount (ps_state p) + a1 ∧
  sh_amount (default NewShare (ps_shares p' !! Hash_String h)) =
    sh_amount (default NewShare (ps_shares p !! Hash_String h)) + s ∧
  (∀ nft, nft ≠ Hash_String h → ps_shares p' !! nft = ps_shares p !! nft) ∧
  pp_token0RealAmount (ps_state p) * pp_shareAmount (ps_state p') ≤
    pp_token0RealAmount (ps_state p') * pp_shareAmount (ps_state p) ∧
  pp_token1RealAmount (ps_state p) * pp_shareAmount (ps_state p') ≤
    pp_token1RealAmount (ps_state p') * pp_shareAmount (ps_state p).
Proof.
  destruct (contribute_spec _ _ _ _ _ _ _ _ Hp Hne Hh Ha0 Ha1 Hrun)
    as (Hp' & _ & Hli & Hd0 & Hd1 & Hr0 & Hr1 & Hs & Hsh & Hoth & _).
  rewrite Hr0, Hr1, Hs. split_and!; try done; lia.
Qed.

Lemma contribute_no_dilution_witness :
  match contribute (Hash_String emptyHash) (Hash_String PRVCoinID) 500 200 sample_nft 7 0
          sample_state with
  | (Ok s, p') => wf_state p' ∧
      50000 * pp_shareAmount (ps_state p') ≤ pp_token0RealAmount (ps_state p') * 1000
  | _ => False
  end.
Proof.
  assert (Hok : succeeds (contribute (Hash_String emptyHash) (Hash_String PRVCoinID) 500 200
    sample_nft 7 0 sample_state) = true) by (vm_compute; reflexivity).
  destruct (contribute _ _ _ _ _ _ _ _) as [[s| | |] p'] eqn:E; [|discriminate Hok..].
  pose proof (contribute_no_dilution sample_state p' 500 200 sample_nft 7 0 s sample_state_wf
    eq_refl eq_refl) as H.
  destruct H as (H1 & _ & _ & _ & _ & _ & H2 & _);
    [unfold in_u64, word64; lia..|exact E|]. exact (conj H1 H2).
Defined.

(** Withdrawing pays a fair part.  [deductShare] on a well-formed pool does not panic;
    it succeeds unless the reward counter of the share overflows; and then it burns the
    smaller of the requested and the owned share, pays the proportional part of both reserves
    rounded down, leaves the pool well formed with no other share changed, never lowers the
    value of a remaining share, and does not raise the fees owed. *)
Theorem deductShare_fair p h req share
    (Hp : wf_state p) (Hh : wf_hash h) (Hreq : 0 < req < word64)
    (Hsh : ps_shares p !! Hash_String h = Some share) (Hpos : 0 < sh_amount share) :
  (∃ e, RecomputeLPRewards p h = Err e) ∨
  ∃ t0 t1 s p', deductShare (Hash_String h) req p = (Ok (t0, t1, s), p') ∧
    s = Z.min req (sh_amount share) ∧
    t0 = pp_token0RealAmount (ps_state p) * s / pp_shareAmount (ps_state p) ∧
    t1 = pp_token1RealAmount (ps_state p) * s / pp_shareAmount (ps_state p) ∧
    wf_state p' ∧ (∀ tok, liability p' tok ≤ liability p tok) ∧
    (∀ nft, nft ≠ Hash_String h → ps_shares p' !! nft = ps_shares p !! nft) ∧
    pp_token0RealAmount (ps_state p) * pp_shareAmount (ps_state p') ≤
      pp_token0RealAmount (ps_state p') * pp_shareAmount (ps_state p) ∧
    pp_token1RealAmount (ps_state p) * pp_shareAmount (ps_state p') ≤
      pp_token1RealAmount (ps_state p') * pp_shareAmount (ps_state p).
Proof.
  assert (Hu : in_u64 req) by (unfold in_u64; lia).
  destruct (deductShare_outcome p h req share Hp Hh Hu Hsh (proj1 Hreq) Hpos)
    as [([[t0 t1] s] & p' & Hrun)|]; [|by left].
  right. exists t0, t1, s, p'.
  destruct (deductShare_spec _ _ _ _ _ _ _ Hp Hh Hu Hrun)
    as (Hp' & Hli & Hs & Hs0 & Hle & Ht0 & Ht1 & B0 & B1 & Hr0 & Hr1 & HS & Hoth & _).
  rewrite Hsh in Hs. cbn in Hs. split_and!; try done; rewrite HS, ?Hr0, ?Hr1, ?Ht0, ?Ht1.
  - pose proof (div_spec (pp_token0RealAmount (ps_state p) * s) (pp_shareAmount (ps_state p))
      ltac:(lia)). nia.
  - pose proof (div_spec (pp_token1RealAmount (ps_state p) * s) (pp_shareAmount (ps_state p))
      ltac:(lia)). nia.
Qed.

Lemma deductShare_fair_witness :
  (∃ e, RecomputeLPRewards sample_state sample_nft = Err e) ∨
  ∃ t0 t1 s p', deductShare (Hash_String sample_nft) 300 sample_state = (Ok (t0, t1, s), p') ∧
    s = 300 ∧ wf_state p'.
Proof.
  destruct (deductShare_fair sample_state sample_nft 300 sample_share)
    as [H|(t0 & t1 & s & p' & H1 & H2 & _ & _ & H3 & _)];
    [apply sample_state_wf|reflexivity|unfold word64; lia|reflexivity|reflexivity|by left|].
  right. exists t0, t1, s, p'. exact (conj H1 (conj H2 H3)).
Defined.

(** C36: no profit from a round trip.  Withdrawing right away the share minted for a
    contribution returns at most the contributed amounts. *)
Theorem contribute_withdraw_no_profit p p1 p2 a0 a1 h bh blocks s t0 t1 s'
    (Hp : wf_state p) (Hne : isEmpty p = false) (Hh : wf_hash h) (Ha0 : in_u64 a0) (Ha1 : in_u64 a1)
    (Hadd : contribute (Hash_String (pp_token0ID (ps_state p)))
              (Hash_String (pp_token1ID (ps_state p))) a0 a1 h bh blocks p = (Ok s, p1))
    (Hsub : deductShare (Hash_String h) s p1 = (Ok (t0, t1, s'), p2)) :
  s' = s ∧ t0 ≤ a0 ∧ t1 ≤ a1.
Proof.
  destruct (contribute_spec _ _ _ _ _ _ _ _ Hp Hne Hh Ha0 Ha1 Hadd)
    as (Hp1 & Hsu & _ & Hd0 & Hd1 & Hr0 & Hr1 & HS & Hsh & _).
  destruct (deductShare_spec _ _ _ _ _ _ _ Hp1 Hh Hsu Hsub)
    as (_ & _ & Hs' & Hpos & Hle & Ht0 & Ht1 & _).
  destruct (wf_share_default p (Hash_String h) (wst_ledger _ Hp)) as [Hlk _ _ _].
  assert (s' = s) as -> by lia. split; [done|].
  pose proof (wst_pair _ Hp) as [Hq0 Hq1 _ _]. pose proof (wl_total _ (wst_ledger _ Hp)) as HT.
  unfold in_u64 in *. rewrite Ht0, Ht1, Hr0, Hr1, HS.
  split; apply div_le_l; nia.
Qed.

Lemma contribute_withdraw_no_profit_witness :
  match contribute (Hash_String emptyHash) (Hash_String PRVCoinID) 777 333 sample_nft 7 0
          sample_state with
  | (Ok s, p1) => match deductShare (Hash_String sample_nft) s p1 with
                  | (Ok (t0, t1, _), _) => t0 ≤ 777 ∧ t1 ≤ 333
                  | _ => False
                  end
  | _ => False
  end.
Proof.
  assert (Hok : match contribute (Hash_String emptyHash) (Hash_String PRVCoinID) 777 333
      sample_nft 7 0 sample_state with
    | (Ok s, p1) => succeeds (deductShare (Hash_String sample_nft) s p1)
    | _ => false
    end = true) by (vm_compute; reflexivity).
  destruct (contribute _ _ _ _ _ _ _ _) as [[s| | |] p1] eqn:E1; [|discriminate Hok..].
  destruct (deductShare _ _ p1) as [[[[t0 t1] s']| | |] p2] eqn:E2; [|discriminate Hok..].
  destruct (contribute_withdraw_no_profit sample_state p1 p2 777 333 sample_nft 7 0 s t0 t1 s'
    sample_state_wf eq_refl eq_refl) as (_ & H); [unfold in_u64, word64; lia..|exact E1|exact E2|].
  exact H.
Defined.

(** ** Accruing rewards *)
Definition ps_with_lpFeesPerShare (v : gmap Hash Z) (p : PoolPairState) : PoolPairState :=
  mkPoolPairState (ps_makingVolume p) (ps_state p) (ps_shares p) (ps_orderRewards p)
    (ps_orderbook p) v (ps_lmRewardsPerShare p) (ps_protocolFees p) (ps_stakingPoolFees p)
    (ps_lmLockedShare p).
Definition ps_with_lmRewardsPerShare (v : gmap Hash Z) (p : PoolPairState) : PoolPairState :=
  mkPoolPairState (ps_makingVolume p) (ps_state p) (ps_shares p) (ps_orderRewards p)
    (ps_orderbook p) (ps_lpFeesPerShare p) v (ps_protocolFees p) (ps_stakingPoolFees p)
    (ps_lmLockedShare p).

Lemma mono_grow last cur tok d : mono last cur → 0 ≤ d →
  mono last (<[tok := feeOf tok cur + d]> cur).
Proof.
  intros Hm Hd t. specialize (Hm t). rewrite feeOf_insert. case_decide; subst; lia.
Qed.

Lemma grow_lp_ledger p tok d : wf_ledger p → 0 ≤ d →
  let p' := ps_with_lpFeesPerShare (<[tok := feeOf tok (ps_lpFeesPerShare p) + d]>
              (ps_lpFeesPerShare p)) p in
  wf_ledger p' ∧ ∀ t, liability p' t =
    liability p t + if decide (tok = t) then d * pp_shareAmount (ps_state p) else 0.
Proof.
  intros Hp Hd p'. split.
  - destruct Hp as [? ? ? Heach ? Hb]. split; cbn; try done.
    + intros nft s Hs. destruct (Heach _ _ Hs). split; cbn; try done. by apply mono_grow.
    + intros t. rewrite feeOf_insert. destruct (Hb t), (Hb tok). case_decide; lia.
  - intros t. unfold liability. cbn. rewrite <- (wl_shares _ Hp). case_decide as Ht.
    + rewrite <- map_sum_scale, <- map_sum_add. apply map_sum_ext. intros k s _.
      unfold entitlement. cbn. rewrite feeOf_insert, decide_True by done. subst. lia.
    + rewrite Z.add_0_r. apply map_sum_ext. intros k s _.
      unfold entitlement. cbn. by rewrite feeOf_insert, decide_False.
Qed.

Lemma grow_lm_ledger p tok d : wf_ledger p → 0 ≤ d →
  let p' := ps_with_lmRewardsPerShare (<[tok := feeOf tok (ps_lmRewardsPerShare p) + d]>
              (ps_lmRewardsPerShare p)) p in
  wf_ledger p' ∧ ∀ t, liability p' t =
    liability p t + if decide (tok = t)
      then d * (pp_shareAmount (ps_state p) - pp_lmLockedShareAmount (ps_state p)) else 0.
Proof.
  intros Hp Hd p'. split.
  - destruct Hp as [? ? ? Heach ? Hb]. split; cbn; try done.
    + intros nft s Hs. destruct (Heach _ _ Hs). split; cbn; try done. by apply mono_grow.
    + intros t. rewrite feeOf_insert. destruct (Hb t), (Hb tok). case_decide; lia.
  - intros t. unfold liability. cbn. rewrite <- (wl_shares _ Hp), <- (wl_locked _ Hp).
    case_decide as Ht.
    + transitivity (map_sum (λ s, entitlement p t s + (d * sh_amount s + - d * sh_lmLockedAmount s))
        (ps_shares p)).
      * apply map_sum_ext. intros k s _.
        unfold entitlement. cbn. rewrite feeOf_insert, decide_True by done. subst. lia.
      * rewrite !map_sum_add, !map_sum_scale. lia.
    + rewrite Z.add_0_r. apply map_sum_ext. intros k s _.
      unfold entitlement. cbn. by rewrite feeOf_insert, decide_False.
Qed.

Lemma rewards_covered_spec p tok amount : wf_ledger p → 0 ≤ amount →
  let fees := ps_with_lpFeesPerShare (AddLPFee (ps_state p) tok amount BaseLPFeesPerShare
                (ps_lpFeesPerShare p)) p in
  let mining := ps_with_lmRewardsPerShare (AddLMRewards (ps_state p) tok amount BaseLPFeesPerShare
                  (ps_lmRewardsPerShare p)) p in
  wf_ledger fees ∧ wf_ledger mining ∧
  ∀ t, let room := if decide (tok = t) then BaseLPFeesPerShare * amount else 0 in
    liability p t ≤ liability fees t ≤ liability p t + room ∧
    liability p t ≤ liability mining t ≤ liability p t + room.
Proof.
  intros Hp Ha.
  pose proof (wl_total _ Hp) as Ht. pose proof (locked_le_total _ Hp) as HL. unfold in_u64 in Ht.
  assert (Hsame : ∀ t, liability p t ≤ liability p t ≤
    liability p t + if decide (tok = t) then BaseLPFeesPerShare * amount else 0)
    by (intros; unfold BaseLPFeesPerShare; case_decide; lia).
  unfold AddLPFee, AddLMRewards.
  set (S := pp_shareAmount (ps_state p)) in *. set (L := pp_lmLockedShareAmount (ps_state p)) in *.
  assert (Hfees : let fees := ps_with_lpFeesPerShare (if S =? 0 then ps_lpFeesPerShare p else
      <[tok := feeOf tok (ps_lpFeesPerShare p) + amount * BaseLPFeesPerShare / S]>
        (ps_lpFeesPerShare p)) p in
    wf_ledger fees ∧ ∀ t, liability p t ≤ liability fees t ≤
      liability p t + if decide (tok = t) then BaseLPFeesPerShare * amount else 0).
  { destruct (S =? 0) eqn:ES; [by destruct p|].
    assert (H0 : 0 ≤ amount * BaseLPFeesPerShare / S) by (apply div_nonneg; unfold BaseLPFeesPerShare; lia).
    destruct (grow_lp_ledger p tok _ Hp H0) as [Hw Hl]. split; [done|]. intros t. rewrite Hl.
    pose proof (div_spec (amount * BaseLPFeesPerShare) S ltac:(lia)). fold S. case_decide; nia. }
  assert (Hmin : let mining := ps_with_lmRewardsPerShare (if S =? L then ps_lmRewardsPerShare p else
      <[tok := feeOf tok (ps_lmRewardsPerShare p) + amount * BaseLPFeesPerShare / sub64 S L]>
        (ps_lmRewardsPerShare p)) p in
    wf_ledger mining ∧ ∀ t, liability p t ≤ liability mining t ≤
      liability p t + if decide (tok = t) then BaseLPFeesPerShare * amount else 0).
  { destruct (S =? L) eqn:ES; [by destruct p|].
    rewrite sub64_exact by (unfold in_u64; lia).
    assert (H0 : 0 ≤ amount * BaseLPFeesPerShare / (S - L))
      by (apply div_nonneg; unfold BaseLPFeesPerShare; lia).
    destruct (grow_lm_ledger p tok _ Hp H0) as [Hw Hl]. split; [done|]. intros t. rewrite Hl.
    pose proof (div_spec (amount * BaseLPFeesPerShare) (S - L) ltac:(lia)). fold S L.
    case_decide; nia. }
  split; [apply Hfees|]. split; [apply Hmin|]. intros t. split; [apply Hfees|apply Hmin].
Qed.

(** Rewards are covered.  Booking [amount] of a token for the liquidity providers, as
    trading fees or as mining rewards, keeps the ledger and raises what all shares together
    may claim of that token by at most [amount]; the claims on other tokens do not move.
    (Claims are scaled by [BaseLPFeesPerShare].) *)
Theorem rewards_covered p tok amount (Hp : wf_ledger p) (Ha : 0 ≤ amount) :
  let fees := ps_with_lpFeesPerShare (AddLPFee (ps_state p) tok amount BaseLPFeesPerShare
                (ps_lpFeesPerShare p)) p in
  let mining := ps_with_lmRewardsPerShare (AddLMRewards (ps_state p) tok amount BaseLPFeesPerShare
                  (ps_lmRewardsPerShare p)) p in
  wf_ledger fees ∧ wf_ledger mining ∧
  ∀ t, let room := if decide (tok = t) then BaseLPFeesPerShare * amount else 0 in
    liability p t ≤ liability fees t ≤ liability p t + room ∧
    liability p t ≤ liability mining t ≤ liability p t + room.
Proof. by apply rewards_covered_spec. Qed.

Lemma rewards_covered_witness :
  liability (ps_with_lpFeesPerShare (AddLPFee sample_pair PRVCoinID 12345 BaseLPFeesPerShare ∅)
    sample_state) PRVCoinID ≤
  liability sample_state PRVCoinID + BaseLPFeesPerShare * 12345.
Proof.
  destruct (rewards_covered sample_state PRVCoinID 12345 (wst_ledger _ sample_state_wf))
    as (_ & _ & H); [lia|]. destruct (H PRVCoinID) as [[_ H1] _]. exact H1.
Defined.

(** ** Unlocking *)
Lemma ps_with_locked_wf p v : wf_state p → wf_state (ps_with_lmLockedShare v p).
Proof.
  intros [? ? ? ? [? ? ? Heach ? ?]]. split; try done. split; try done.
  intros nft s Hs. by destruct (Heach nft s Hs).
Qed.

Lemma alter_found (f : Share → Share) nft (m : gmap string Share) s :
  m !! nft = Some s → alter f nft m = <[nft := f s]> m.
Proof. intros Hs. apply map_eq. intros i. rewrite lookup_alter, lookup_insert. case_decide; subst; [by rewrite Hs|done]. Qed.

Lemma delete_lock_wf p height id :
  locks_wf p → locks_wf (ps_with_lmLockedShare (alter (delete height) id (ps_lmLockedShare p)) p).
Proof.
  intros Hp k r h a. cbn. rewrite lookup_alter. case_decide; [|by eauto]. subst.
  destruct (ps_lmLockedShare p !! k) as [m|] eqn:Em; cbn; [|done]. intros [= <-].
  intros [_ Ha]%lookup_delete_Some. by eapply Hp.
Qed.

(** Recomputing the rewards of a share fails only if they do not fit 64 bits. *)
Lemma accrue_succeeds toks last w result :
  NoDup toks.*1 → 0 ≤ w → (∀ tok, 0 ≤ feeOf tok result) →
  (∀ tok new, (tok, new) ∈ toks → 0 ≤ feeOf tok last ≤ new ∧
     BaseLPFeesPerShare * feeOf tok result + (new - feeOf tok last) * w < BaseLPFeesPerShare * word64) →
  ∃ r, accrue toks last w result = Ok r.
Proof.
  intros Hnd Hw. revert result. induction toks as [|[t new] toks IH]; intros result Hr Hin; [by eexists|].
  apply NoDup_cons in Hnd as [Ht Hnd]. cbn [accrue]. fold (feeOf t last) (feeOf t result).
  destruct (Hin t new) as [Hl Hb]; [left|]. pose proof (Hr t) as Hrt.
  set (d := (new - feeOf t last) * w / BaseLPFeesPerShare).
  pose proof (div_spec ((new - feeOf t last) * w) BaseLPFeesPerShare ltac:(done)) as Hd. fold d in Hd.
  assert (0 ≤ d) by (apply div_nonneg; [nia|done]).
  assert (Hu : in_u64 (d + feeOf t result)) by (unfold in_u64, BaseLPFeesPerShare in *; nia).
  rewrite (proj2 (in_u64_iff _) Hu). cbn [negb]. apply IH; [done| |].
  - intros x. destruct (0 <? _); [|done]. rewrite feeOf_insert. case_decide; [|done].
    rewrite bigUint64_small by done. unfold in_u64 in Hu. lia.
  - intros x n Hx. destruct (Hin x n) as [? ?]; [by right|]. split; [done|].
    destruct (0 <? _); [|done]. rewrite feeOf_insert, decide_False; [done|].
    intros ->. apply Ht. by apply (list_elem_of_fmap_2 fst _ (x, n)).
Qed.

Lemma RecomputeLPRewards_succeeds p h s :
  ps_shares p !! Hash_String h = Some s → wf_share p s → in_u64 (sh_amount s) →
  (∀ tok, entitlement p tok s < BaseLPFeesPerShare * word64) →
  ∃ fees, RecomputeLPRewards p h = Ok fees.
Proof.
  intros Hs [Hl Hf Hlp Hlm] Hu Hb. unfold RecomputeLPRewards. rewrite Hs.
  assert (Hsub : sub64 (sh_amount s) (sh_lmLockedAmount s) = sh_amount s - sh_lmLockedAmount s)
    by (apply sub64_exact; [done|lia]). rewrite Hsub. unfold in_u64 in Hu.
  assert (Hlook : ∀ (m : gmap Hash Z) t new, (t, new) ∈ map_to_list m → new = feeOf t m).
  { intros m t new Ht%elem_of_map_to_list. unfold feeOf. by rewrite Ht. }
  assert (Hsplit : ∀ tok, 0 ≤ (feeOf tok (ps_lpFeesPerShare p) - feeOf tok (sh_lastLPFeesPerShare s)) * sh_amount s ∧
    0 ≤ (feeOf tok (ps_lmRewardsPerShare p) - feeOf tok (sh_lastLmRewardsPerShare s)) *
        (sh_amount s - sh_lmLockedAmount s)).
  { intros tok. specialize (Hlp tok). specialize (Hlm tok). nia. }
  destruct (accrue_succeeds (map_to_list (ps_lpFeesPerShare p)) (sh_lastLPFeesPerShare s) (sh_amount s)
    (sh_tradingFees s)) as [r Hr]; [apply NoDup_fst_map_to_list|lia|done| |].
  { intros tok new ->%Hlook. split; [apply Hlp|]. specialize (Hb tok). destruct (Hsplit tok).
    unfold entitlement in Hb. lia. }
  rewrite Hr. cbn [mbind outcome_bind].
  pose proof (λ t, accrue_map _ _ _ _ _ t Hlp (proj1 Hu) Hf Hr) as Hacc.
  apply accrue_succeeds; [apply NoDup_fst_map_to_list|lia|apply Hacc|].
  intros tok new ->%Hlook. split; [apply Hlm|]. specialize (Hb tok). destruct (Hacc tok) as [_ ->].
  pose proof (div_spec ((feeOf tok (ps_lpFeesPerShare p) - feeOf tok (sh_lastLPFeesPerShare s)) * sh_amount s)
    BaseLPFeesPerShare ltac:(done)). unfold entitlement in Hb. lia.
Qed.

(** What releasing locks does to a pool: it stays well formed, owes no more, and nothing but
    its shares, their counters and the lock records changes. *)
Record unlocked (p p' : PoolPairState) : Prop := {
  ul_wf : wf_state p';
  ul_owes : ∀ tok, liability p' tok ≤ liability p tok;
  ul_dom : dom (ps_shares p') = dom (ps_shares p);
  ul_books : same_books p p';
  ul_state : ∃ l, ps_state p' = SetLmLockedShareAmount l (ps_state p) }.

Lemma unlocked_refl p : wf_state p → unlocked p p.
Proof. intros Hp. split; [done..|auto with go|]. exists (pp_lmLockedShareAmount (ps_state p)). by destruct (ps_state p). Qed.

Lemma unlocked_trans p q r : unlocked p q → unlocked q r → unlocked p r.
Proof.
  intros [? L1 D1 B1 [l1 E1]] [? L2 D2 B2 [l2 E2]]. split; [done|..].
  - intros tok. specialize (L1 tok). specialize (L2 tok). lia.
  - congruence.
  - by eapply same_books_trans.
  - exists l2. by rewrite E2, E1.
Qed.

(** The rewards of every share fit 64 bits. *)
Definition payable (p : PoolPairState) : Prop :=
  ∀ tok, liability p tok < BaseLPFeesPerShare * word64.

(** A step of unlocking returns, unlocks when it succeeds, and succeeds on a payable pool. *)
Definition unlocks (m : M PoolPairState unit) (p : PoolPairState) : Prop :=
  returns (m p).1 ∧ (∀ p', m p = (Ok tt, p') → unlocked p p') ∧ (payable p → ∃ p', m p = (Ok tt, p')).

Lemma unlocks_ret p : wf_state p → unlocks (mret tt) p.
Proof. intros Hp. split; [done|]. split; [intros p' [= <-]; by apply unlocked_refl|by eexists]. Qed.

Lemma unlocks_bind m k p : unlocks m p → (∀ p', unlocked p p' → unlocks k p') → unlocks (_ ← m; k) p.
Proof.
  intros (R1 & O1 & S1) Hk. split; [|split].
  - apply M_bind_returns; [done|]. intros [] p1 E1. apply (Hk p1), O1, E1.
  - intros p' ([] & p1 & E1 & E2)%M_bind_Ok. pose proof (O1 _ E1) as U1.
    destruct (Hk p1 U1) as (_ & O2 & _). by eapply unlocked_trans, O2.
  - intros Hb. destruct (S1 Hb) as [p1 E1]. pose proof (O1 _ E1) as U1.
    destruct (Hk p1 U1) as (_ & _ & S2). destruct S2 as [p2 E2].
    + intros tok. pose proof (ul_owes _ _ U1 tok). specialize (Hb tok). lia.
    + exists p2. apply M_bind_Ok. by exists tt, p1.
Qed.

Lemma entitlement_le p nft s tok : wf_ledger p → ps_shares p !! nft = Some s →
  entitlement p tok s ≤ liability p tok.
Proof.
  intros Hl Hs. apply (map_sum_elem_le (entitlement p tok) _ nft); [|done].
  intros i a Ha. by eapply entitlement_nonneg, wl_each.
Qed.

(** Settling and releasing [l] of a share's lock: an instance of [reshared]. *)
Lemma unlockRecord_spec p h height amount :
  wf_state p → wf_hash h → is_Some (ps_shares p !! Hash_String h) → 0 ≤ amount →
  unlocks (unlockRecord (Hash_String h) height amount) p.
Proof.
  intros Hp Hh [share Hsh] Ham. pose proof (wst_ledger _ Hp) as Hlg.
  destruct (share_range_ledger p (Hash_String h) Hlg) as [Ht HtL Ha Hl].
  rewrite Hsh in *. cbn [default from_option id] in *.
  pose proof (wl_each _ Hlg _ _ Hsh) as Hws. pose proof Hws as [Hlk _ _ _].
  assert (HlL : sh_lmLockedAmount share ≤ pp_lmLockedShareAmount (ps_state p)).
  { rewrite <- (wl_locked _ Hlg). apply (map_sum_elem_le sh_lmLockedAmount _ (Hash_String h)); [|done].
    intros k a Ha'. destruct (wl_each _ Hlg _ _ Ha'). lia. }
  unfold unlocks. destruct (unlockRecord (Hash_String h) height amount p) as [r p'] eqn:Hrun.
  unfold unlockRecord, modifyS, getS in Hrun. unfold mbind at 1 2, M_bind at 1 2 in Hrun.
  cbv iota beta in Hrun. set (p0 := ps_with_lmLockedShare _ p) in Hrun.
  change (ps_shares p0) with (ps_shares p) in Hrun. change (ps_state p0) with (ps_state p) in Hrun.
  rewrite Hsh, NewHashFromStr_String in Hrun by done.
  set (l := if sh_lmLockedAmount share <? amount then _ else _) in Hrun.
  assert (Hl0 : 0 ≤ l ≤ sh_lmLockedAmount share) by (unfold l; case_match; lia). clearbody l.
  assert (Hex : ∀ a, in_u64 a → l ≤ a → executeOperationUint64 a l subOperator = Ok (a - l)).
  { intros a Hua Hb. apply executeOperation_sub; unfold in_u64 in *; [lia|lia|split; lia]. }
  rewrite !Hex in Hrun by (done || lia).
  change (RecomputeLPRewards p0 h) with (RecomputeLPRewards p h) in Hrun.
  pose proof (RecomputeLPRewards_returns p h) as Hret.
  assert (Hpay : payable p → ∃ fees, RecomputeLPRewards p h = Ok fees).
  { intros Hb. apply (RecomputeLPRewards_succeeds p h share); try done. intros tok.
    pose proof (entitlement_le p _ _ tok Hlg Hsh). specialize (Hb tok). lia. }
  unfold assign, lift, mbind, M_bind in Hrun.
  destruct (RecomputeLPRewards p h) as [fees|e| |] eqn:Hrec; [|injection Hrun as <- <-|done..].
  2: { split; [done|]. split; [by intros ? [=]|]. intros [? [=]]%Hpay. }
  cbn [orErr] in Hrun. injection Hrun as <- Hp'. split; [done|]. split; [|by eexists]. intros ? [= <-].
  assert (Hshp : ps_shares p' =
    <[Hash_String h := reshare p (-1) 0 l (sh_with_fees fees share)]> (ps_shares p)).
  { rewrite <- Hp'. cbn. rewrite !alter_alter_eq, (alter_found _ _ _ share) by done. f_equal.
    unfold reshare, sh_with_locked, sh_with_last, sh_with_fees. cbn. f_equal; lia. }
  assert (Hre : reshared p p' (-1) 0 l h).
  { unfold reshared. rewrite Hsh. exists fees. split.
    - intros tok. by destruct (RecomputeLPRewards_spec p h share fees tok Hsh) as (? & ? & _).
    - split; [done|]. rewrite <- Hp'. split; [|split_and!; try done; apply delete_lock_wf].
      cbn. unfold recount, SetLmLockedShareAmount, SetShareAmount. cbn. f_equal; lia. }
  destruct (reshared_wf _ _ _ _ _ _ Hp Hh Hre) as [Hwf Hli].
  - unfold in_u64 in *. lia.
  - cbv zeta. rewrite Hsh. cbn [default from_option id]. lia.
  - split; [done..| |by destruct Hre as (? & _ & _ & _ & ?)|by rewrite <- Hp'; eexists].
    rewrite Hshp, dom_insert_L. apply subseteq_union_1_L, singleton_subseteq_l, elem_of_dom.
    by exists share.
Qed.

Lemma unlocked_share p p' nft : unlocked p p' → is_Some (ps_shares p !! nft) → is_Some (ps_shares p' !! nft).
Proof. intros [_ _ D _ _]. by rewrite <- !elem_of_dom, D. Qed.

Lemma unlockHeights_spec p h records pending bh :
  wf_state p → wf_hash h → is_Some (ps_shares p !! Hash_String h) → Forall (λ r, 0 ≤ r.2) records →
  unlocks (unlockHeights (Hash_String h) records pending bh) p.
Proof.
  intros Hp Hh Hsh Hrec. revert p Hp Hsh.
  induction Hrec as [|[lh la] records Hla _ IH]; intros p Hp Hsh; cbn [unlockHeights]; [by apply unlocks_ret|].
  apply unlocks_bind.
  - destruct (add64 lh pending <? bh); [by apply unlockRecord_spec|by apply unlocks_ret].
  - intros p' U. apply IH; [apply U|by eapply unlocked_share].
Qed.

(** The same of a list of records. *)
Definition wf_locks (locks : list (string * gmap Z Z)) : Prop :=
  Forall (λ r, ∀ h a, r.2 !! h = Some a → 0 ≤ a) locks.

Lemma locks_wf_list p : locks_wf p → wf_locks (map_to_list (ps_lmLockedShare p)).
Proof. intros Hl. apply Forall_forall. intros [k r] Hk%elem_of_map_to_list h a Ha. by eapply Hl. Qed.

Lemma unlockShares_spec p locks pending bh :
  wf_state p → wf_locks locks → unlocks (unlockShares locks pending bh) p.
Proof.
  intros Hp Hlk. revert p Hp.
  induction Hlk as [|[id record] locks Hr _ IH]; intros p Hp; cbn [unlockShares]; [by apply unlocks_ret|].
  change (unlocks (_ ← (match ps_shares p !! id with
    | None => modifyS (λ p, ps_with_lmLockedShare (delete id (ps_lmLockedShare p)) p)
    | Some _ => unlockHeights id (map_to_list record) pending bh end);
    unlockShares locks pending bh) p).
  apply unlocks_bind; [|intros p' U; apply IH, U]. destruct (ps_shares p !! id) as [share|] eqn:Hsh.
  - destruct (wl_keys _ (wst_ledger _ Hp) id) as (h & Hh & ->); [by eexists|].
    apply unlockHeights_spec; [done..|by eexists|].
    apply Forall_forall. intros [x a] Hin%elem_of_map_to_list. by eapply Hr.
  - split; [done|]. split; [|by eexists]. intros p' [= <-].
    split; [by apply ps_with_locked_wf|done..| |].
    + split_and!; try done. intros Hlk' k r h a. cbn. intros [_ Hk]%lookup_delete_Some. by eapply Hlk'.
    + exists (pp_lmLockedShareAmount (ps_state p)). cbn. by destruct (ps_state p).
Qed.

Lemma unlock_spec p pending bh : wf_state p → wf_locks (map_to_list (ps_lmLockedShare p)) →
  unlocks (unlockLmLockedShareAmount pending bh) p.
Proof. intros Hp Hl. by apply unlockShares_spec. Qed.

(** Unlocking mining rewards is safe.  On a well-formed pool
    [unlockLmLockedShareAmount] does not panic; it succeeds if the rewards owed fit 64 bits;
    and then the pool is still well formed (in particular no lock exceeds its share and the
    pool's lock counter is the sum of the shares' locks), no share appears or disappears and
    the rewards owed do not grow: releasing a lock does not give a share rewards of the time
    it was locked. *)
Theorem unlock_safe p pending bh
    (Hp : wf_state p) (Hlk : wf_locks (map_to_list (ps_lmLockedShare p))) :
  returns (unlockLmLockedShareAmount pending bh p).1 ∧
  (payable p → ∃ p', unlockLmLockedShareAmount pending bh p = (Ok tt, p')) ∧
  ∀ p', unlockLmLockedShareAmount pending bh p = (Ok tt, p') →
    wf_state p' ∧ (∀ tok, liability p' tok ≤ liability p tok) ∧ dom (ps_shares p') = dom (ps_shares p).
Proof.
  destruct (unlock_spec p pending bh Hp Hlk) as (Hr & Ho & Hs). split; [done|]. split; [done|].
  intros p' Hrun. by destruct (Ho p' Hrun).
Qed.

Definition locked_state : PoolPairState :=
  mkPoolPairState ∅ (SetLmLockedShareAmount 400 sample_pair)
    {[Hash_String sample_nft := mkShare 1000 400 ∅ ∅ ∅]} ∅ (mkOrderbook [])
    ∅ {[PRVCoinID := 5 * BaseLPFeesPerShare]} ∅ ∅ {[Hash_String sample_nft := {[10 := 400]}]}.

Lemma locked_state_wf : wf_state locked_state.
Proof.
  assert (Hbk : ∀ tok, 0 ≤ feeOf tok (ps_lmRewardsPerShare locked_state)).
  { intros tok. unfold feeOf, locked_state. cbn [ps_lmRewardsPerShare].
    rewrite lookup_singleton. case_decide; vm_compute; discriminate. }
  split; [by split|by split_and!|reflexivity|vm_compute; discriminate|].
  split; [by split|reflexivity|reflexivity|..].
  - intros nft s Hs. unfold locked_state in Hs. cbn [ps_shares] in Hs.
    apply lookup_singleton_Some in Hs as [_ <-]. split; [vm_compute; split; discriminate|..].
    + intros tok. vm_compute. discriminate.
    + intros tok. vm_compute. repeat split; discriminate.
    + by apply mono_empty.
  - intros nft [s Hs]. unfold locked_state in Hs. cbn [ps_shares] in Hs.
    apply lookup_singleton_Some in Hs as [<- _]. by exists sample_nft.
  - intros tok. split; [vm_compute; discriminate|apply Hbk].
Qed.

Lemma unlock_safe_witness :
  match unlockLmLockedShareAmount 5 20 locked_state with
  | (Ok _, p') => wf_state p' ∧ liability p' PRVCoinID ≤ liability locked_state PRVCoinID
  | _ => False
  end.
Proof.
  assert (Hok : succeeds (unlockLmLockedShareAmount 5 20 locked_state) = true)
    by (vm_compute; reflexivity).
  destruct (unlock_safe locked_state 5 20 locked_state_wf) as (_ & _ & H).
  - unfold locked_state. cbn [ps_lmLockedShare]. rewrite map_to_list_singleton.
    apply Forall_singleton. cbn [snd]. intros h a [_ <-]%lookup_singleton_Some. lia.
  - destruct (unlockLmLockedShareAmount 5 20 locked_state) as [[[]| | |] p']; try discriminate Hok.
    destruct (H p' eq_refl) as (H1 & H2 & _). exact (conj H1 (H2 PRVCoinID)).
Defined.
