(* ===== verification/Staking.v ===== *)
(** Staking pools ([blockchain/pdex/staking_pool_state.go], [Staker] of
    [blockchain/pdex/state_v2_utils.go]): stakes of NFTs in one token and the rewards
    distributed to them. *)
From S2P Require Import Prelude Hash RawDB Order Reward PdexUtils OrderBook PoolPair.

Local Open Scope Z_scope.

Record Staker := mkStaker {
  sk_liquidity : Z;
  sk_rewards : gmap Hash Z;
  sk_lastRewardsPerShare : gmap Hash Z }.

Record StakingPoolState := mkStakingPool {
  sp_liquidity : Z;
  sp_stakers : gmap string Staker;
  sp_rewardsPerShare : gmap Hash Z }.

Definition NewStakingPoolState : StakingPoolState := mkStakingPool 0 ∅ ∅.

Definition sp_with_liquidity (v : Z) (s : StakingPoolState) : StakingPoolState :=
  mkStakingPool v (sp_stakers s) (sp_rewardsPerShare s).
Definition sp_with_stakers (v : gmap string Staker) (s : StakingPoolState) : StakingPoolState :=
  mkStakingPool (sp_liquidity s) v (sp_rewardsPerShare s).
Definition sp_with_rewardsPerShare (v : gmap Hash Z) (s : StakingPoolState) : StakingPoolState :=
  mkStakingPool (sp_liquidity s) (sp_stakers s) v.

(** The loop of [RecomputeStakingRewards] over the tokens of the accumulator. *)
Fixpoint accrueStake (toks : list (Hash * Z)) (staker : Staker) (result : gmap Hash Z)
    : outcome (gmap Hash Z) :=
  match toks with
  | [] => Ok result
  | (tokenID, newFees) :: toks =>
      let tradingFee := default 0 (sk_rewards staker !! tokenID) in
      let oldFees := default 0 (sk_lastRewardsPerShare staker !! tokenID) in
      let reward := (newFees - oldFees) * sk_liquidity staker / BaseLPFeesPerShare + tradingFee in
      if negb (isU64 reward) then Err "Reward of token is out of range"
      else accrueStake toks staker
             (if 0 <? bigUint64 reward then <[tokenID := bigUint64 reward]> result else result)
  end.

Definition RecomputeStakingRewards (s : StakingPoolState) (nftID : Hash) : outcome (gmap Hash Z) :=
  match sp_stakers s !! Hash_String nftID with
  | None => Err "Stakers not found"
  | Some curStaker => accrueStake (map_to_list (sp_rewardsPerShare s)) curStaker ∅
  end.

(** The counter of the pool: the switch has no default, so that another operator resets it. *)
Definition poolLiquidity (liquidity amount operator : Z) : outcome Z :=
  if operator =? subOperator then
    let temp := sub64 liquidity amount in
    if liquidity <=? temp then Err "Staking pool liquidity is out of range" else Ok temp
  else if operator =? addOperator then
    let temp := add64 liquidity amount in
    if temp <? liquidity then Err "Staking pool liquidity is out of range" else Ok temp
  else Ok 0.

(** Stakers are pointers in the map: what is assigned to one before an error stays. *)
Definition updateLiquidity (nftID : string) (liquidity beaconHeight operator : Z)
    : M StakingPoolState unit :=
  s ← getS;
  let setStaker f := λ s, sp_with_stakers (alter f nftID (sp_stakers s)) s in
  _ ← (match sp_stakers s !! nftID with
       | None =>
           if operator =? subOperator then fail "remove liquidity from invalid staker"
           else modifyS (λ s, sp_with_stakers
                  (<[nftID := mkStaker liquidity ∅ (sp_rewardsPerShare s)]> (sp_stakers s)) s)
       | Some staker =>
           tempLiquidity ← lift (executeOperationUint64 (sk_liquidity staker) liquidity operator);
           nftIDHash ← lift (orErr (NewHashFromStr nftID) "Invalid nftID");
           _ ← assign (RecomputeStakingRewards s nftIDHash) ∅
                 (λ v, setStaker (λ k, mkStaker (sk_liquidity k) v (sk_lastRewardsPerShare k)))
                 "Recompute staking rewards failed";
           modifyS (setStaker (λ k, mkStaker tempLiquidity (sk_rewards k) (sp_rewardsPerShare s)))
       end);
  total ← lift (poolLiquidity (sp_liquidity s) liquidity operator);
  modifyS (sp_with_liquidity total).

Definition sp_AddReward (tokenID : Hash) (amount : Z) (s : StakingPoolState) : StakingPoolState :=
  if sp_liquidity s =? 0 then s
  else
    let oldRewardsPerShare := default 0 (sp_rewardsPerShare s !! tokenID) in
    let deltaRewardsPerShare := amount * BaseLPFeesPerShare / sp_liquidity s in
    sp_with_rewardsPerShare
      (<[tokenID := oldRewardsPerShare + deltaRewardsPerShare]> (sp_rewardsPerShare s)) s.

(** ** Invariant *)
Record wf_staker (s : StakingPoolState) (k : Staker) : Prop := {
  wk_liquidity : 0 ≤ sk_liquidity k;
  wk_rewards : ∀ tok, 0 ≤ feeOf tok (sk_rewards k);
  wk_last : mono (sk_lastRewardsPerShare k) (sp_rewardsPerShare s) }.

Record wf_staking (s : StakingPoolState) : Prop := {
  wsp_total : in_u64 (sp_liquidity s);
  wsp_sum : map_sum sk_liquidity (sp_stakers s) = sp_liquidity s;
  wsp_each : ∀ nft k, sp_stakers s !! nft = Some k → wf_staker s k;
  wsp_books : ∀ tok, 0 ≤ feeOf tok (sp_rewardsPerShare s) }.

(** What a staker may claim, scaled by [BaseLPFeesPerShare]. *)
Definition stakeClaim (s : StakingPoolState) (tok : Hash) (k : Staker) : Z :=
  BaseLPFeesPerShare * feeOf tok (sk_rewards k) +
  (feeOf tok (sp_rewardsPerShare s) - feeOf tok (sk_lastRewardsPerShare k)) * sk_liquidity k.

Definition stakeLiability (s : StakingPoolState) (tok : Hash) : Z :=
  map_sum (stakeClaim s tok) (sp_stakers s).

Lemma accrueStake_spec toks k result result' :
  NoDup toks.*1 → 0 ≤ sk_liquidity k → (∀ tok, 0 ≤ feeOf tok (sk_rewards k)) →
  (∀ tok new, (tok, new) ∈ toks → 0 ≤ feeOf tok (sk_lastRewardsPerShare k) ≤ new) →
  (∀ tok, tok ∈ toks.*1 → feeOf tok result = 0) →
  accrueStake toks k result = Ok result' →
  ∀ tok,
    (∀ new, (tok, new) ∈ toks → feeOf tok result' = feeOf tok (sk_rewards k) +
       (new - feeOf tok (sk_lastRewardsPerShare k)) * sk_liquidity k / BaseLPFeesPerShare) ∧
    (tok ∉ toks.*1 → feeOf tok result' = feeOf tok result).
Proof.
  revert result. induction toks as [|[t new] toks IH]; intros result Hnd Hw Hr Hm Hres Hrun tok.
  - injection Hrun as <-. split; [|done]. intros new Hin. by apply elem_of_nil in Hin.
  - cbn in Hrun. apply NoDup_cons in Hnd as [Ht Hnd].
    fold (feeOf t (sk_lastRewardsPerShare k)) (feeOf t (sk_rewards k)) in Hrun.
    set (d := (new - feeOf t _) * sk_liquidity k / BaseLPFeesPerShare) in *.
    assert (0 ≤ d). { destruct (Hm t new); [left|]. apply div_nonneg; [nia|done]. }
    pose proof (Hr t) as Hrt.
    destruct (isU64 (d + feeOf t (sk_rewards k))) eqn:Hu; [|done]. apply in_u64_iff in Hu.
    cbn [negb] in Hrun. rewrite bigUint64_small in Hrun by done.
    set (res1 := if 0 <? _ then _ else _) in Hrun.
    assert (H1 : ∀ x, feeOf x res1 =
      if decide (t = x) then d + feeOf t (sk_rewards k) else feeOf x result).
    { intros x. unfold res1. destruct (0 <? _) eqn:E; [rewrite feeOf_insert; by case_decide|].
      case_decide; [|done]. subst. rewrite Hres by left. lia. }
    assert (Hm1 : ∀ x n, (x, n) ∈ toks → 0 ≤ feeOf x (sk_lastRewardsPerShare k) ≤ n)
      by (intros x n Hin; apply Hm; by right).
    assert (Hr1 : ∀ x, x ∈ toks.*1 → feeOf x res1 = 0).
    { intros x Hx. rewrite H1, decide_False; [apply Hres; by right|]. by intros ->. }
    destruct (IH res1 Hnd Hw Hr Hm1 Hr1 Hrun tok) as (H2 & H3). split.
    + intros new' Hin. apply elem_of_cons in Hin as [[= -> ->]|Hin]; [|by apply H2].
      rewrite H3, H1, decide_True by done. lia.
    + intros [Hne Hn]%not_elem_of_cons. rewrite H3, H1, decide_False by done. done.
Qed.

(** Settling pays at most the claim. *)
Lemma RecomputeStakingRewards_spec s h k rewards tok :
  sp_stakers s !! Hash_String h = Some k → wf_staker s k →
  RecomputeStakingRewards s h = Ok rewards →
  0 ≤ feeOf tok rewards ∧ BaseLPFeesPerShare * feeOf tok rewards ≤ stakeClaim s tok k ∧
  (is_Some (sp_rewardsPerShare s !! tok) →
   stakeClaim s tok k < BaseLPFeesPerShare * feeOf tok rewards + BaseLPFeesPerShare).
Proof.
  intros Hk [Hl Hr Hm] Hrun. unfold RecomputeStakingRewards in Hrun. rewrite Hk in Hrun.
  assert (Hcur : ∀ t, feeOf t (sp_rewardsPerShare s) = default 0 (sp_rewardsPerShare s !! t)) by done.
  assert (Hin : ∀ t new, (t, new) ∈ map_to_list (sp_rewardsPerShare s) →
    0 ≤ feeOf t (sk_lastRewardsPerShare k) ≤ new).
  { intros t new Ht%elem_of_map_to_list. specialize (Hm t). by rewrite Hcur, Ht in Hm. }
  destruct (accrueStake_spec _ k ∅ rewards (NoDup_fst_map_to_list _) Hl Hr Hin) with (tok := tok)
    as [H1 H2]; [intros t _; unfold feeOf; by rewrite lookup_empty|done|].
  specialize (Hm tok). specialize (Hr tok). unfold stakeClaim.
  destruct (sp_rewardsPerShare s !! tok) as [new|] eqn:E.
  - rewrite (H1 new) by (by apply elem_of_map_to_list).
    rewrite Hcur, E in *. cbn in *.
    pose proof (div_spec ((new - feeOf tok (sk_lastRewardsPerShare k)) * sk_liquidity k)
      BaseLPFeesPerShare ltac:(reflexivity)).
    assert (0 ≤ (new - feeOf tok (sk_lastRewardsPerShare k)) * sk_liquidity k / BaseLPFeesPerShare)
      by (apply div_nonneg; [nia|done]).
    split_and!; lia.
  - rewrite H2.
    + unfold feeOf at 1 2. rewrite lookup_empty. cbn [default]. unfold BaseLPFeesPerShare.
      split_and!; [done|nia|]. by intros [? ?].
    + intros ([t n] & -> & Ht%elem_of_map_to_list)%list_elem_of_fmap. cbn in E. congruence.
Qed.

Lemma accrueStake_returns toks k r : returns (accrueStake toks k r).
Proof. revert r. induction toks as [|[] toks IH]; intros; cbn; [done|]. case_match; [done|apply IH]. Qed.

Lemma poolLiquidity_exact L amt op r : op = addOperator ∨ op = subOperator → in_u64 L → in_u64 amt →
  poolLiquidity L amt op = Ok r → r = L + sign_of op * amt ∧ in_u64 r.
Proof.
  intros Hop HL Hamt. unfold poolLiquidity, sign_of, in_u64 in *. destruct Hop as [->| ->]; cbn -[Z.ltb Z.leb].
  - destruct (add64_wrap L amt HL Hamt) as [[-> ?]|[-> ?]]; case_match; intros [= <-]; lia.
  - destruct (sub64_wrap L amt HL Hamt) as [[-> ?]|[-> ?]]; case_match; intros [= <-]; lia.
Qed.

(** The staker an operation works on: absent stakers have no stake. *)
Definition stakerOf (s : StakingPoolState) (nft : string) : Staker :=
  default (mkStaker 0 ∅ (sp_rewardsPerShare s)) (sp_stakers s !! nft).

Lemma wf_stakerOf s nft : wf_staking s → wf_staker s (stakerOf s nft).
Proof.
  intros Hs. unfold stakerOf. destruct (sp_stakers s !! nft) eqn:E; cbn; [by eapply wsp_each|].
  split; cbn; [done| |by apply mono_refl, wsp_books].
  intros tok. unfold feeOf. by rewrite lookup_empty.
Qed.

Lemma stakerOf_le s nft : wf_staking s → sk_liquidity (stakerOf s nft) ≤ sp_liquidity s.
Proof.
  intros Hs. pose proof (wsp_total _ Hs) as Ht. rewrite <- (wsp_sum _ Hs) in *. unfold stakerOf.
  destruct (sp_stakers s !! nft) as [k|] eqn:E; [|cbn; unfold in_u64 in *; lia].
  apply (map_sum_elem_le sk_liquidity _ nft); [|done].
  intros i a Ha. by destruct (wsp_each _ Hs _ _ Ha).
Qed.

(** [restaked s s' nft k']: only the staker of [nft] changed, to a settled [k']. *)
Lemma restaked_wf s nft rewards liq total :
  wf_staking s →
  (∀ tok, 0 ≤ feeOf tok rewards ∧
     BaseLPFeesPerShare * feeOf tok rewards ≤ stakeClaim s tok (stakerOf s nft)) →
  0 ≤ liq → total = sp_liquidity s - sk_liquidity (stakerOf s nft) + liq → in_u64 total →
  let s' := mkStakingPool total
    (<[nft := mkStaker liq rewards (sp_rewardsPerShare s)]> (sp_stakers s)) (sp_rewardsPerShare s) in
  wf_staking s' ∧ ∀ tok, stakeLiability s' tok ≤
    stakeLiability s tok - stakeClaim s tok (stakerOf s nft) + BaseLPFeesPerShare * feeOf tok rewards.
Proof.
  intros Hs Hrw Hliq Htot Hu s'.
  assert (Hsum : ∀ f : Staker → Z, f (mkStaker 0 ∅ (sp_rewardsPerShare s)) = 0 →
    map_sum f (sp_stakers s') = map_sum f (sp_stakers s) - f (stakerOf s nft) +
      f (mkStaker liq rewards (sp_rewardsPerShare s))).
  { intros f H0. unfold s', stakerOf. cbn [sp_stakers]. rewrite map_sum_insert.
    destruct (sp_stakers s !! nft); cbn [from_option default id]; lia. }
  split.
  - split; [done| | |].
    + rewrite Hsum by done. rewrite (wsp_sum _ Hs). cbn. lia.
    + intros i k. unfold s'. cbn [sp_stakers]. rewrite lookup_insert. case_decide; intros Hk.
      * injection Hk as <-. split; cbn; [done|apply Hrw|by apply mono_refl, wsp_books].
      * by destruct (wsp_each _ Hs _ _ Hk).
    + apply Hs.
  - intros tok. unfold stakeLiability.
    rewrite (map_sum_ext _ (stakeClaim s tok)) by done. rewrite Hsum.
    + unfold stakeClaim at 3. cbn. rewrite Z.sub_diag. lia.
    + unfold stakeClaim, feeOf. cbn [sk_rewards sk_lastRewardsPerShare sk_liquidity].
      rewrite lookup_empty. cbn [default]. unfold BaseLPFeesPerShare. lia.
Qed.

Lemma updateLiquidity_spec s s' h amt bh op :
  wf_staking s → wf_hash h → in_u64 amt → op = addOperator ∨ op = subOperator →
  updateLiquidity (Hash_String h) amt bh op s = (Ok tt, s') →
  let k := stakerOf s (Hash_String h) in
  wf_staking s' ∧ (∀ tok, stakeLiability s' tok ≤ stakeLiability s tok) ∧
  sp_liquidity s' = sp_liquidity s + sign_of op * amt ∧
  sk_liquidity (stakerOf s' (Hash_String h)) = sk_liquidity k + sign_of op * amt ∧
  sp_rewardsPerShare s' = sp_rewardsPerShare s ∧
  (∀ nft, nft ≠ Hash_String h → sp_stakers s' !! nft = sp_stakers s !! nft).
Proof.
  intros Hs Hh Hamt Hop Hrun k. unfold updateLiquidity in Hrun. rewrite getS_bind in Hrun.
  apply M_bind_Ok in Hrun as ([] & s1 & Hst & Hrun).
  apply M_bind_Ok in Hrun as (total & ? & [Htot <-]%pair_eq & [= <-]).
  apply poolLiquidity_exact in Htot as [-> Hu]; [|done|apply Hs|done].
  pose proof (wf_stakerOf s (Hash_String h) Hs) as Hk. fold k in Hk.
  pose proof (stakerOf_le s (Hash_String h) Hs) as Hle. fold k in Hle.
  assert (Hs1 : ∃ rewards, s1 = mkStakingPool (sp_liquidity s)
      (<[Hash_String h := mkStaker (sk_liquidity k + sign_of op * amt) rewards
          (sp_rewardsPerShare s)]> (sp_stakers s)) (sp_rewardsPerShare s) ∧
    0 ≤ sk_liquidity k + sign_of op * amt ∧
    (∀ tok, 0 ≤ feeOf tok rewards ∧ BaseLPFeesPerShare * feeOf tok rewards ≤ stakeClaim s tok k)).
  { unfold k, stakerOf in *. destruct (sp_stakers s !! Hash_String h) as [k0|] eqn:E.
    - cbn [default from_option id] in *.
      apply M_bind_Ok in Hst as (liq & ? & [Hliq <-]%pair_eq & Hst).
      apply M_bind_Ok in Hst as (h' & ? & [Hh' <-]%pair_eq & Hst).
      rewrite NewHashFromStr_String in Hh' by done. injection Hh' as <-.
      apply M_bind_Ok in Hst as ([] & s2 & (rewards & Hr & ->)%assign_Ok & [= <-]).
      pose proof (wsp_total _ Hs). destruct Hk as [Hk0 ? ?].
      apply executeOperation_sign in Hliq as [-> Hliq]; [|done|unfold in_u64 in *; lia|done].
      exists rewards. split; [|split; [apply Hliq|]].
      + unfold sp_with_stakers. cbn. f_equal. rewrite alter_alter_eq. apply map_eq. intros i.
        rewrite lookup_alter, lookup_insert. case_decide; [subst; by rewrite E|done].
      + intros tok. destruct (RecomputeStakingRewards_spec s h k0 rewards tok E) as (? & ? & _); [|done|done].
        by eapply wsp_each.
    - destruct Hop as [->| ->]; [|done]. injection Hst as <-. exists ∅. split; [|split].
      + unfold sp_with_stakers, sign_of. cbn. do 3 f_equal. lia.
      + cbn. unfold in_u64 in Hamt. change (sign_of addOperator) with 1. lia.
      + intros tok. unfold stakeClaim, feeOf. cbn [default from_option id sk_rewards sk_liquidity].
        rewrite lookup_empty. cbn [default]. unfold BaseLPFeesPerShare. lia. }
  destruct Hs1 as (rewards & -> & Hl0 & Hrw).
  destruct (restaked_wf s (Hash_String h) rewards (sk_liquidity k + sign_of op * amt)
    (sp_liquidity s + sign_of op * amt) Hs Hrw Hl0) as [Hwf Hli]; [fold k; lia|done|].
  split; [done|]. split; [intros tok; specialize (Hli tok); destruct (Hrw tok); fold k in Hli;
    unfold sp_with_liquidity; cbn; lia|].
  split; [done|]. split; [|split; [done|]].
  - unfold stakerOf. cbn. by rewrite lookup_insert_eq.
  - intros nft Hne. cbn. by rewrite lookup_insert_ne.
Qed.

(** The staking ledger.  When a stake or an unstake is applied, the pool's total is
    still the sum of all stakes, exactly the requested amount is moved (so an unstake never
    exceeds the stake), no other staker changes, and settling the staker on the way does not
    raise the rewards owed. *)
Theorem updateLiquidity_ledger s s' h amt bh op
    (Hs : wf_staking s) (Hh : wf_hash h) (Hamt : in_u64 amt)
    (Hop : op = addOperator ∨ op = subOperator)
    (Hrun : updateLiquidity (Hash_String h) amt bh op s = (Ok tt, s')) :
  wf_staking s' ∧ (∀ tok, stakeLiability s' tok ≤ stakeLiability s tok) ∧
  sp_liquidity s' = sp_liquidity s + sign_of op * amt ∧
  sk_liquidity (stakerOf s' (Hash_String h)) =
    sk_liquidity (stakerOf s (Hash_String h)) + sign_of op * amt ∧
  (op = subOperator → amt ≤ sk_liquidity (stakerOf s (Hash_String h))) ∧
  (∀ nft, nft ≠ Hash_String h → sp_stakers s' !! nft = sp_stakers s !! nft).
Proof.
  destruct (updateLiquidity_spec s s' h amt bh op Hs Hh Hamt Hop Hrun) as (H1 & H2 & H3 & H4 & _ & H5).
  split_and!; try done. intros ->. destruct (wf_stakerOf s' (Hash_String h) H1) as [H0 _ _].
  rewrite H4 in H0. change (sign_of subOperator) with (-1) in H0. lia.
Qed.

Definition sample_staking : StakingPoolState :=
  mkStakingPool 700 {[Hash_String sample_nft := mkStaker 700 ∅ ∅]}
    {[PRVCoinID := 3 * BaseLPFeesPerShare]}.

Lemma sample_staking_wf : wf_staking sample_staking.
Proof.
  assert (Hbk : ∀ tok, 0 ≤ feeOf tok (sp_rewardsPerShare sample_staking)).
  { intros tok. unfold feeOf, sample_staking. cbn [sp_rewardsPerShare].
    rewrite lookup_singleton. case_decide; vm_compute; discriminate. }
  split; [by split|reflexivity| |done].
  intros nft k Hk. unfold sample_staking in Hk. cbn [sp_stakers] in Hk.
  apply lookup_singleton_Some in Hk as [_ <-]. split; [vm_compute; discriminate| |by apply mono_empty].
  intros tok. vm_compute. discriminate.
Qed.

Lemma updateLiquidity_ledger_witness :
  match updateLiquidity (Hash_String sample_nft) 300 9 subOperator sample_staking with
  | (Ok _, s') => wf_staking s' ∧ sp_liquidity s' = 400
  | _ => False
  end.
Proof.
  assert (Hok : succeeds (updateLiquidity (Hash_String sample_nft) 300 9 subOperator sample_staking)
    = true) by (vm_compute; reflexivity).
  destruct (updateLiquidity _ _ _ _ _) as [[[]| | |] s'] eqn:E; try discriminate Hok.
  destruct (updateLiquidity_ledger sample_staking s' sample_nft 300 9 subOperator sample_staking_wf)
    as (H1 & _ & H2 & _); [reflexivity|unfold in_u64, word64; lia|by right|exact E|].
  exact (conj H1 H2).
Defined.

Lemma sp_AddReward_spec s tok amount : wf_staking s → 0 ≤ amount →
  wf_staking (sp_AddReward tok amount s) ∧
  ∀ t, stakeLiability s t ≤ stakeLiability (sp_AddReward tok amount s) t ≤
    stakeLiability s t + if decide (tok = t) then BaseLPFeesPerShare * amount else 0.
Proof.
  intros Hs Ha. unfold sp_AddReward. destruct (sp_liquidity s =? 0) eqn:E.
  { split; [done|]. intros t. unfold BaseLPFeesPerShare. case_decide; lia. }
  pose proof (wsp_total _ Hs) as Ht. unfold in_u64 in Ht.
  fold (feeOf tok (sp_rewardsPerShare s)).
  set (d := amount * BaseLPFeesPerShare / sp_liquidity s).
  assert (Hd : 0 ≤ d) by (apply div_nonneg; unfold BaseLPFeesPerShare; lia).
  pose proof (div_spec (amount * BaseLPFeesPerShare) (sp_liquidity s) ltac:(lia)) as Hdiv.
  fold d in Hdiv. split.
  - destruct Hs as [? ? Heach Hb]. split; cbn; try done.
    + intros nft k Hk. destruct (Heach _ _ Hk). split; cbn; try done. by apply mono_grow.
    + intros t. rewrite feeOf_insert. pose proof (Hb tok). pose proof (Hb t). case_decide; lia.
  - intros t. unfold stakeLiability. cbn [sp_with_rewardsPerShare sp_stakers].
    assert (Hgrow : map_sum (stakeClaim (sp_with_rewardsPerShare
        (<[tok := feeOf tok (sp_rewardsPerShare s) + d]> (sp_rewardsPerShare s)) s) t) (sp_stakers s) =
      map_sum (stakeClaim s t) (sp_stakers s) + if decide (tok = t) then d * sp_liquidity s else 0).
    { rewrite <- (wsp_sum _ Hs). case_decide as Et.
      - rewrite <- map_sum_scale, <- map_sum_add. apply map_sum_ext. intros i k _.
        unfold stakeClaim. cbn. rewrite feeOf_insert, decide_True by done. subst. lia.
      - rewrite Z.add_0_r. apply map_sum_ext. intros i k _.
        unfold stakeClaim. cbn. by rewrite feeOf_insert, decide_False. }
    rewrite Hgrow. case_decide; nia.
Qed.

(** Staking rewards are covered.  Distributing [amount] of a token to a staking pool
    keeps its ledger and raises the claims of all stakers together by at most [amount];
    claims on other tokens do not move. *)
Theorem AddReward_covered s tok amount (Hs : wf_staking s) (Ha : 0 ≤ amount) :
  wf_staking (sp_AddReward tok amount s) ∧
  ∀ t, stakeLiability s t ≤ stakeLiability (sp_AddReward tok amount s) t ≤
    stakeLiability s t + if decide (tok = t) then BaseLPFeesPerShare * amount else 0.
Proof. by apply sp_AddReward_spec. Qed.

Lemma AddReward_covered_witness :
  stakeLiability (sp_AddReward PRVCoinID 1000 sample_staking) PRVCoinID ≤
  stakeLiability sample_staking PRVCoinID + BaseLPFeesPerShare * 1000.
Proof.
  destruct (AddReward_covered sample_staking PRVCoinID 1000 sample_staking_wf) as [_ H]; [lia|].
  destruct (H PRVCoinID) as [_ H1]. rewrite decide_True in H1 by reflexivity. exact H1.
Defined.
