(* ===== verification/Params.v ===== *)
(** The parameters of the exchange and their validation
    ([blockchain/pdex/params.go]). *)
From S2P Require Import Prelude Hash RawDB Swap Order Reserve OrderBook Trade Reward TrackFee PdexUtils PoolPair.

Local Open Scope Z_scope.

Definition MaxFeeRateBPS : Z := 200.
Definition MaxPRVDiscountPercent : Z := 75.

(** [uint] and [uint64] fields alike are 64 bits wide. *)
Record Params := mkParams {
  DefaultFeeRateBPS : Z;
  FeeRateBPS : gmap string Z;
  PRVDiscountPercent : Z;
  TradingProtocolFeePercent : Z;
  TradingStakingPoolRewardPercent : Z;
  PDEXRewardPoolPairsShare : gmap string Z;
  StakingPoolsShare : gmap string Z;
  StakingRewardTokens : list Hash;
  MintNftRequireAmount : Z;
  MaxOrdersPerNft : Z;
  AutoWithdrawOrderLimitAmount : Z;
  MinPRVReserveTradingRate : Z;
  DefaultOrderTradingRewardRatioBPS : Z;
  OrderTradingRewardRatioBPS : gmap string Z;
  OrderLiquidityMiningBPS : gmap string Z;
  DAOContributingPercent : Z;
  MiningRewardPendingBlocks : Z;
  OrderMiningRewardRatioBPS : gmap string Z }.

(** A loop over a Go map that returns at the first bad entry; [check] gives the message. *)
Fixpoint firstBad {A} (check : string → A → option string) (entries : list (string * A))
    : option string :=
  match entries with
  | [] => None
  | (k, v) :: entries =>
      match check k v with Some msg => Some msg | None => firstBad check entries end
  end.

(** The first failing test in the order of the source, or [None]. *)
Definition orElse (a b : option string) : option string :=
  match a with Some m => Some m | None => b end.
Definition reject (b : bool) (msg : string) : option string := if b then Some msg else None.

Definition checkParams {A} (params : Params) (pairs : gmap string A) : option string :=
  let absent k := bool_decide (pairs !! k = None) in
  let loop check (m : gmap string Z) := firstBad check (map_to_list m) in
  orElse (reject (MaxFeeRateBPS <? DefaultFeeRateBPS params) "Default fee rate is too high") $
  orElse (reject (DefaultFeeRateBPS params =? 0) "Default fee rate is 0") $
  orElse (loop (λ pairID feeRate,
            orElse (reject (absent pairID) "Pair is not existed") $
            orElse (reject (MaxFeeRateBPS <? feeRate) "Fee rate of pair is too high") $
            reject (feeRate =? 0) "Fee rate of pair is 0") (FeeRateBPS params)) $
  orElse (reject (MaxPRVDiscountPercent <? PRVDiscountPercent params)
            "PRV discount percent is too high") $
  orElse (reject (100 <? add64 (TradingStakingPoolRewardPercent params)
                           (TradingProtocolFeePercent params))
            "Sum of trading's staking pool + protocol fee is invalid") $
  orElse (loop (λ pairID _, reject (absent pairID) "Pair is not existed")
            (PDEXRewardPoolPairsShare params)) $
  orElse (loop (λ stakingPoolID _,
            match NewHashFromStr stakingPoolID with Err e => Some e | _ => None end)
            (StakingPoolsShare params)) $
  orElse (reject (BPS <? DefaultOrderTradingRewardRatioBPS params)
            "Default order trading reward ratio is too high") $
  orElse (loop (λ pairID ratioBPS,
            orElse (reject (absent pairID) "Pair does not exist") $
            reject (BPS <? ratioBPS) "Order trading reward ratio of pair is too high")
            (OrderTradingRewardRatioBPS params)) $
  orElse (loop (λ pairID ratioBPS,
            orElse (reject (absent pairID) "Pair does not exist") $
            reject (BPS / 2 <=? ratioBPS) "Order liquidity mining BPS of pair is too high")
            (OrderLiquidityMiningBPS params)) $
  orElse (reject (100 <? DAOContributingPercent params) "DAO contributing percent is too high") $
  reject ((0 <? DAOContributingPercent params) &&
          bool_decide (PDEXRewardPoolPairsShare params = ∅))
    "Liquidity mining is enabled but no reward pool is specified".

Definition isValidPdexv3Params {A} (params : Params) (pairs : gmap string A) : bool * string :=
  match checkParams params pairs with
  | None => (true, "")
  | Some msg => (false, msg)
  end.

(** ** What validation establishes *)
Record valid_params {A} (params : Params) (pairs : gmap string A) : Prop := {
  vp_default : 0 < DefaultFeeRateBPS params ≤ MaxFeeRateBPS;
  vp_rates : ∀ k r, FeeRateBPS params !! k = Some r → is_Some (pairs !! k) ∧ 0 < r ≤ MaxFeeRateBPS;
  vp_discount : PRVDiscountPercent params ≤ MaxPRVDiscountPercent;
  vp_percent : add64 (TradingStakingPoolRewardPercent params) (TradingProtocolFeePercent params) ≤ 100;
  vp_shares : ∀ k w, PDEXRewardPoolPairsShare params !! k = Some w → is_Some (pairs !! k);
  vp_pools : ∀ k w, StakingPoolsShare params !! k = Some w → ∃ h, NewHashFromStr k = Ok h;
  vp_ratio : DefaultOrderTradingRewardRatioBPS params ≤ BPS;
  vp_ratios : ∀ k r, OrderTradingRewardRatioBPS params !! k = Some r → is_Some (pairs !! k) ∧ r ≤ BPS;
  vp_mining : ∀ k r, OrderLiquidityMiningBPS params !! k = Some r → is_Some (pairs !! k) ∧ 2 * r < BPS;
  vp_dao : DAOContributingPercent params ≤ 100;
  vp_dao_pools : 0 < DAOContributingPercent params → PDEXRewardPoolPairsShare params ≠ ∅ }.

(** The [uint] fields are not negative. *)
Record unsigned_params (params : Params) : Prop := {
  up_default : in_u64 (DefaultFeeRateBPS params);
  up_rates : ∀ k r, FeeRateBPS params !! k = Some r → in_u64 r;
  up_protocol : in_u64 (TradingProtocolFeePercent params);
  up_staking : in_u64 (TradingStakingPoolRewardPercent params);
  up_ratio : in_u64 (DefaultOrderTradingRewardRatioBPS params);
  up_ratios : ∀ k r, OrderTradingRewardRatioBPS params !! k = Some r → in_u64 r }.

Lemma orElse_None a b : orElse a b = None ↔ a = None ∧ b = None.
Proof. destruct a; naive_solver. Qed.

Lemma reject_None b msg : reject b msg = None ↔ b = false.
Proof. destruct b; naive_solver. Qed.

Lemma firstBad_None {A} (check : string → A → option string) entries :
  firstBad check entries = None ↔ ∀ k v, (k, v) ∈ entries → check k v = None.
Proof.
  induction entries as [|[k v] entries IH]; cbn.
  - split; [|done]. intros _ k v Hin. by apply elem_of_nil in Hin.
  - destruct (check k v) eqn:E.
    + split; [done|]. intros H. specialize (H k v ltac:(left)). congruence.
    + rewrite IH. split.
      * intros H k' v' [[= -> ->]|Hin]%elem_of_cons; [done|by apply H].
      * intros H k' v' Hin. apply H. by right.
Qed.

Lemma firstBad_map {A} (check : string → A → option string) (m : gmap string A) :
  firstBad check (map_to_list m) = None ↔ ∀ k v, m !! k = Some v → check k v = None.
Proof. rewrite firstBad_None. by setoid_rewrite elem_of_map_to_list. Qed.

Lemma absent_false {A} (pairs : gmap string A) k :
  bool_decide (pairs !! k = None) = false ↔ is_Some (pairs !! k).
Proof. rewrite bool_decide_eq_false. destruct (pairs !! k); naive_solver. Qed.

Lemma isValidPdexv3Params_spec {A} (params : Params) (pairs : gmap string A) : unsigned_params params →
  (isValidPdexv3Params params pairs).1 = true ↔ valid_params params pairs.
Proof.
  intros Hu.
  assert (Hhash : ∀ k, (match NewHashFromStr k with Err e => Some e | _ => None end) = None ↔
    ∃ h, NewHashFromStr k = Ok h).
  { intros k. unfold NewHashFromStr, Hash_Decode. repeat case_match; naive_solver. }
  transitivity (checkParams params pairs = None).
  { unfold isValidPdexv3Params. destruct (checkParams params pairs); naive_solver. }
  unfold checkParams. rewrite !orElse_None, !reject_None, !firstBad_map.
  setoid_rewrite orElse_None. setoid_rewrite orElse_None. setoid_rewrite reject_None.
  setoid_rewrite absent_false. setoid_rewrite Hhash.
  destruct Hu as [[Hu1 _] Hu2 _ _ _ _]. unfold MaxFeeRateBPS, MaxPRVDiscountPercent, BPS in *.
  split.
  - intros (H1 & H2 & H3 & H4 & H5 & H6 & H7 & H8 & H9 & H10 & H11 & H12).
    split; unfold MaxFeeRateBPS, MaxPRVDiscountPercent, BPS; try lia; try done.
    + intros k r Hr. destruct (H3 k r Hr) as (? & ? & ?), (Hu2 k r Hr). split; [done|lia].
    + intros k r Hr. destruct (H9 k r Hr) as (? & ?). split; [done|lia].
    + intros k r Hr. destruct (H10 k r Hr) as (? & ?). split; [done|].
      change (10000 / 2) with 5000 in *. lia.
    + intros Hd He. rewrite bool_decide_true in H12 by done. lia.
  - intros []. unfold MaxFeeRateBPS, MaxPRVDiscountPercent, BPS in *.
    split_and!; try lia; try done.
    + intros k r Hr. destruct (vp_rates0 k r Hr). split_and!; [done|lia|lia].
    + intros k r Hr. destruct (vp_ratios0 k r Hr). split; [done|lia].
    + intros k r Hr. destruct (vp_mining0 k r Hr). split; [done|]. change (10000 / 2) with 5000. lia.
    + apply andb_false_iff. destruct (0 <? DAOContributingPercent params) eqn:E; [right|by left].
      rewrite bool_decide_eq_false. apply vp_dao_pools0. lia.
Qed.

(** Validation of new parameters is exact.  A parameter set is accepted iff every
    bound holds: fee rates positive and at most 2%, the discount at most 75%, order rewards
    at most 100%, mining shares below 50%, every pool it names exists, every staking token
    is a hash, and mining has a pool to reward.  The percentages of protocol and stakers are
    only bounded as a 64-bit sum. *)
Theorem isValidPdexv3Params_iff {A} (params : Params) (pairs : gmap string A)
    (Hu : unsigned_params params) :
  (isValidPdexv3Params params pairs).1 = true ↔ valid_params params pairs.
Proof. by apply isValidPdexv3Params_spec. Qed.

Definition sample_params : Params :=
  mkParams 30 {["p1" := 25]} 25 10 20 {["p1" := 100]} {[PRVIDStr := 10]} [PRVCoinID] 100 10 5 1000
    1500 {["p1" := 500]} {["p1" := 1500]} 10 20 ∅.

Lemma sample_params_unsigned : unsigned_params sample_params.
Proof.
  split; try done; intros k r Hr; unfold sample_params in Hr; cbn in Hr;
    apply lookup_singleton_Some in Hr as [_ <-]; done.
Qed.

Lemma isValidPdexv3Params_iff_witness :
  valid_params sample_params ({["p1" := tt]} : gmap string unit).
Proof.
  apply (isValidPdexv3Params_iff sample_params ({["p1" := tt]} : gmap string unit)
    sample_params_unsigned). vm_compute. reflexivity.
Defined.

(** The percentages can overflow.  The test on the protocol's and the stakers'
    percentage adds two 64-bit words, so a parameter set whose percentages add up to far
    more than 100 passes validation. *)
Theorem percent_sum_overflow :
  let params := mkParams 30 ∅ 25 (word64 - 1) 1 ∅ ∅ [] 100 10 5 1000 1500 ∅ ∅ 0 20 ∅ in
  unsigned_params params ∧ isValidPdexv3Params params (∅ : gmap string unit) = (true, "") ∧
  100 < TradingProtocolFeePercent params + TradingStakingPoolRewardPercent params.
Proof.
  cbv zeta. split; [|split; vm_compute; reflexivity].
  split; try done; intros k r Hr; cbn in Hr; by rewrite lookup_empty in Hr.
Qed.

(** The parameters a trade passes to [TrackFee]. *)
Definition feeConfig (params : Params) : FeeParams :=
  mkFeeParams BaseLPFeesPerShare BPS (TradingProtocolFeePercent params)
    (TradingStakingPoolRewardPercent params) (StakingRewardTokens params)
    (DefaultOrderTradingRewardRatioBPS params) (OrderTradingRewardRatioBPS params).

Lemma feeConfig_wf {A} params (pairs : gmap string A) :
  unsigned_params params → valid_params params pairs →
  TradingProtocolFeePercent params + TradingStakingPoolRewardPercent params < word64 →
  wf_cfg (feeConfig params).
Proof.
  intros [_ _ [Hp ?] [Hs ?] [Hr _] Hrs] Hv Hno. pose proof (vp_percent _ _ Hv) as Hsum.
  unfold add64 in Hsum. rewrite u64_small in Hsum by (unfold in_u64; lia).
  unfold wf_cfg. cbn. split_and!; try done; try lia.
  intros id r Hr'. by destruct (Hrs id r Hr').
Qed.
