(* ===== verification/WeightedFee.v ===== *)
(** Trading fees in PRV ([getTokenPricesAgainstPRV], [getWeightedFee] of
    [blockchain/pdex/utils.go]): the price of a token is taken from its deepest pool with
    PRV, whatever the order in which Go visits the map of pools. *)
From S2P Require Import Prelude Hash RawDB Swap Order Reserve OrderBook Trade Reward TrackFee PdexUtils PoolPair Params.

Local Open Scope Z_scope.

(** What the exchange reads of a transaction; [tx_burnedPRV] says whether it burns a PRV
    coin beside its own token ([GetTxFullBurnData]). *)
Record Tx (Md : Type) := mkTx {
  tx_Hash : Hash;
  tx_ShardID : Z;
  tx_burnedPRV : bool;
  tx_Metadata : Md }.
Arguments mkTx {_} _ _ _ _.
Arguments tx_Hash {_} _.
Arguments tx_ShardID {_} _.
Arguments tx_burnedPRV {_} _.
Arguments tx_Metadata {_} _.

Definition tx_id {Md} (tx : Tx Md) : string := Hash_String (tx_Hash tx).

(** Receivers ([privacy.OTAReceiver]) are opaque strings. *)
Record TradeRequest := mkTradeRequest {
  tr_TradePath : list string;
  tr_TokenToSell : Hash;
  tr_SellAmount : Z;
  tr_MinAcceptableAmount : Z;
  tr_TradingFee : Z;
  tr_Receiver : gmap Hash string }.

(** ** Prices *)

(** A price: virtual token reserve, virtual PRV reserve, normalized liquidity. *)
Record Price := mkPrice { pr_token : Z; pr_prv : Z; pr_liquidity : Z }.

(** The token of a pool with PRV and both virtual reserves; a pool without PRV leaves the
    zero values. *)
Definition prvSide (s : Pdexv3PoolPair) : Hash * Z * Z :=
  if bool_decide (pp_token0ID s = PRVCoinID)
  then (pp_token1ID s, pp_token1VirtualAmount s, pp_token0VirtualAmount s)
  else if bool_decide (pp_token1ID s = PRVCoinID)
  then (pp_token0ID s, pp_token0VirtualAmount s, pp_token1VirtualAmount s)
  else (emptyHash, 0, 0).

Definition normalize (s : Pdexv3PoolPair) (vToken vPRV : Z) : outcome Z :=
  l ← bigDiv (vToken * vPRV * BaseAmplifier) (pp_amplifier s);
  bigDiv (l * BaseAmplifier) (pp_amplifier s).

(** Whether a pool replaces the one chosen so far. *)
Definition isChosenPool (item : option Price) (vToken vPRV normalizedLiquidity : Z) : bool :=
  match item with
  | None => true
  | Some item =>
      (pr_liquidity item <? normalizedLiquidity) ||
      ((normalizedLiquidity =? pr_liquidity item) && (pr_token item * vPRV <? vToken * pr_prv item))
  end.

Definition priceStep (minPRVReserve : Z) (s : Pdexv3PoolPair) (resultMap : gmap Hash Price)
    : outcome (gmap Hash Price) :=
  let '(tokenID, vToken, vPRV) := prvSide s in
  if vPRV * BaseAmplifier <? minPRVReserve * pp_amplifier s then Ok resultMap
  else
    normalizedLiquidity ← normalize s vToken vPRV;
    Ok (if isChosenPool (resultMap !! tokenID) vToken vPRV normalizedLiquidity
        then <[tokenID := mkPrice vToken vPRV normalizedLiquidity]> resultMap else resultMap).

(** The pools in the order the map is traversed. *)
Fixpoint priceLoop (minPRVReserve : Z) (pools : list Pdexv3PoolPair) (resultMap : gmap Hash Price)
    : outcome (gmap Hash Price) :=
  match pools with
  | [] => Ok resultMap
  | s :: pools => r ← priceStep minPRVReserve s resultMap; priceLoop minPRVReserve pools r
  end.

Definition getTokenPricesAgainstPRV (pools : list Pdexv3PoolPair) (minPRVReserve : Z)
    : outcome (gmap Hash Price) := priceLoop minPRVReserve pools ∅.

(** ** Fees *)
Record Weighted := mkWeighted {
  wg_txs : list (Tx TradeRequest);
  wg_feeInPRV : gmap string bool;
  wg_fees : gmap string Z;
  wg_sellAmounts : gmap string Z;
  wg_invalid : list (Tx TradeRequest) }.

(** The fee of a request in its selling token; [None] if it cannot be expressed. *)
Definition weightedFee (rateMap : gmap Hash Price) (discountPercent : Z) (tx : Tx TradeRequest)
    : outcome (bool * option Z) :=
  let md := tx_Metadata tx in
  let ranged fee := if isU64 fee then Some (bigUint64 fee) else None in
  if bool_decide (tr_TokenToSell md = PRVCoinID) then
    fee ← bigDiv (tr_TradingFee md * 100) discountPercent;
    Ok (false, ranged fee)
  else if tx_burnedPRV tx then
    match rateMap !! tr_TokenToSell md with
    | None => Ok (true, None)
    | Some rates =>
        temp ← bigDiv (tr_TradingFee md * pr_token rates * 100) discountPercent;
        fee ← bigDiv temp (pr_prv rates);
        Ok (true, ranged fee)
    end
  else Ok (false, Some (tr_TradingFee md)).

Definition weightStep (rateMap : gmap Hash Price) (discountPercent : Z) (tx : Tx TradeRequest)
    (w : Weighted) : outcome Weighted :=
  r ← weightedFee rateMap discountPercent tx;
  let '(feeInPRV, fee) := r in
  let feeInPRVMap := <[tx_id tx := feeInPRV]> (wg_feeInPRV w) in
  Ok match fee with
     | None => mkWeighted (wg_txs w) feeInPRVMap (wg_fees w) (wg_sellAmounts w)
                 (wg_invalid w ++ [tx])
     | Some fee => mkWeighted (wg_txs w ++ [tx]) feeInPRVMap (<[tx_id tx := fee]> (wg_fees w))
                     (<[tx_id tx := tr_SellAmount (tx_Metadata tx)]> (wg_sellAmounts w)) (wg_invalid w)
     end.

Fixpoint weightLoop (rateMap : gmap Hash Price) (discountPercent : Z) (txs : list (Tx TradeRequest))
    (w : Weighted) : outcome Weighted :=
  match txs with
  | [] => Ok w
  | tx :: txs => w ← weightStep rateMap discountPercent tx w; weightLoop rateMap discountPercent txs w
  end.

Definition getWeightedFee (txs : list (Tx TradeRequest)) (pools : list Pdexv3PoolPair)
    (params : Params) : outcome Weighted :=
  let temp := sub64 100 (PRVDiscountPercent params) in
  if 100 <? temp then Err "PRV Discount percent invalid"
  else
    rateMap ← getTokenPricesAgainstPRV pools (MinPRVReserveTradingRate params);
    weightLoop rateMap temp txs (mkWeighted [] ∅ ∅ ∅ []).

(** ** The price does not depend on the order of the pools *)

(** A pool that can set a price. *)
Definition wf_price_pool (s : Pdexv3PoolPair) : Prop :=
  0 < pp_amplifier s ∧ 0 ≤ pp_token0VirtualAmount s ∧ 0 ≤ pp_token1VirtualAmount s.

Definition eligible (min : Z) (s : Pdexv3PoolPair) : option (Hash * Price) :=
  let '(tokenID, vToken, vPRV) := prvSide s in
  if vPRV * BaseAmplifier <? min * pp_amplifier s then None
  else Some (tokenID, mkPrice vToken vPRV
    (vToken * vPRV * BaseAmplifier / pp_amplifier s * BaseAmplifier / pp_amplifier s)).

(** Deeper pools first, then the better rate. *)
Definition price_le (a b : Price) : Prop :=
  pr_liquidity a < pr_liquidity b ∨
  pr_liquidity a = pr_liquidity b ∧ pr_token a * pr_prv b ≤ pr_token b * pr_prv a.

Definition pos_price (a : Price) : Prop := 0 ≤ pr_token a ∧ 0 < pr_prv a.

Lemma price_le_refl a : price_le a a.
Proof. right. lia. Qed.

Lemma price_le_trans a b c : pos_price a → pos_price b → pos_price c →
  price_le a b → price_le b c → price_le a c.
Proof.
  intros [? ?] [? ?] [? ?] [L1|[L1 R1]] [L2|[L2 R2]]; [left; lia..|]. right. split; [lia|].
  destruct (decide (pr_token b = 0)); nia.
Qed.

Lemma price_le_total a b : price_le a b ∨ price_le b a.
Proof. unfold price_le. lia. Qed.

Lemma eligible_pos min s tok pr : wf_price_pool s → 0 < min → eligible min s = Some (tok, pr) →
  pos_price pr.
Proof.
  intros (Ha & H0 & H1) Hmin. unfold eligible, prvSide, BaseAmplifier.
  repeat case_match; intros; simplify_eq; split; cbn in *; try lia; nia.
Qed.

Lemma priceStep_eligible min s m : wf_price_pool s →
  priceStep min s m = Ok (match eligible min s with
    | Some (tok, pr) =>
        if isChosenPool (m !! tok) (pr_token pr) (pr_prv pr) (pr_liquidity pr)
        then <[tok := pr]> m else m
    | None => m
    end).
Proof.
  intros (Ha & _). unfold priceStep, eligible, normalize. destruct (prvSide s) as [[tok vt] vp].
  destruct (_ <? _); [done|]. rewrite bigDiv_pos by done. cbn [mbind outcome_bind].
  by rewrite bigDiv_pos.
Qed.

(** The price entered for a token is the best of its pools. *)
Definition best (tok : Hash) (cands : list (Hash * Price)) (found : option Price) : Prop :=
  match found with
  | None => ∀ pr, (tok, pr) ∉ cands
  | Some pr => (tok, pr) ∈ cands ∧ ∀ pr', (tok, pr') ∈ cands → price_le pr' pr
  end.

Lemma isChosenPool_spec item pr :
  isChosenPool (Some item) (pr_token pr) (pr_prv pr) (pr_liquidity pr) = false ↔ price_le pr item.
Proof.
  unfold isChosenPool, price_le. rewrite orb_false_iff, andb_false_iff, !Z.ltb_ge, Z.eqb_neq. lia.
Qed.

Lemma priceLoop_best min pools done_ m :
  0 < min → Forall wf_price_pool pools →
  (∀ c, c ∈ done_ → pos_price c.2) → (∀ tok, best tok done_ (m !! tok)) →
  ∃ m', priceLoop min pools m = Ok m' ∧
    ∀ tok, best tok (done_ ++ omap (eligible min) pools) (m' !! tok).
Proof.
  intros Hmin Hwf. revert done_ m.
  induction Hwf as [|s pools Hs _ IH]; intros done_ m Hpos Hb; cbn [priceLoop omap list_omap].
  - exists m. split; [done|]. by rewrite app_nil_r.
  - rewrite priceStep_eligible by done. cbn [mbind outcome_bind].
    destruct (eligible min s) as [[tok pr]|] eqn:Eel; [|by apply IH].
    pose proof (eligible_pos _ _ _ _ Hs Hmin Eel) as Hpr.
    change ((tok, pr) :: omap (eligible min) pools) with ([(tok, pr)] ++ omap (eligible min) pools).
    rewrite (assoc_L (++)). apply IH.
    { intros c [Hc| ->%list_elem_of_singleton]%elem_of_app; [by apply Hpos|done]. }
    intros t. specialize (Hb t).
    set (chosen := isChosenPool (m !! tok) _ _ _).
    destruct (decide (tok = t)) as [<-|Hne].
    + destruct (m !! tok) as [item|] eqn:Em; cbn in Hb.
      * destruct Hb as [Hin Hall]. destruct chosen eqn:Ec; cbn.
        -- rewrite lookup_insert_eq. split; [apply elem_of_app; right; by left|].
           assert (Hle : price_le item pr).
           { destruct (price_le_total item pr) as [|Hle]; [done|].
             apply isChosenPool_spec in Hle. unfold chosen in Ec. congruence. }
           intros pr' [Hin'|[= ->]%list_elem_of_singleton]%elem_of_app; [|apply price_le_refl].
           eapply price_le_trans; [..|exact Hle]; [by apply (Hpos (tok, pr'))|
             by apply (Hpos (tok, item))|done|by apply Hall].
        -- rewrite Em. split; [apply elem_of_app; by left|].
           intros pr' [Hin'|[= ->]%list_elem_of_singleton]%elem_of_app; [by apply Hall|].
           by apply isChosenPool_spec.
      * unfold chosen. cbn. rewrite lookup_insert_eq. split; [apply elem_of_app; right; by left|].
        intros pr' [Hin'|[= ->]%list_elem_of_singleton]%elem_of_app; [by destruct (Hb pr')|].
        apply price_le_refl.
    + assert (El : (if chosen then <[tok := pr]> m else m) !! t = m !! t).
      { destruct chosen; [by rewrite lookup_insert_ne|done]. }
      rewrite El. destruct (m !! t) as [item|]; cbn in *.
      * destruct Hb as [Hin Hall]. split; [apply elem_of_app; by left|].
        intros pr' [Hin'|[= -> _]%list_elem_of_singleton]%elem_of_app; [by apply Hall|done].
      * intros pr' [Hin'|[= -> _]%list_elem_of_singleton]%elem_of_app; [by destruct (Hb pr')|done].
Qed.

Lemma best_unique tok c1 c2 f1 f2 : c1 ≡ₚ c2 → best tok c1 f1 → best tok c2 f2 →
  match f1, f2 with
  | None, None => True
  | Some a, Some b => pr_token a * pr_prv b = pr_token b * pr_prv a ∧ (tok, a) ∈ c1 ∧ (tok, b) ∈ c1
  | _, _ => False
  end.
Proof.
  intros Hperm. destruct f1 as [a|], f2 as [b|]; cbn; [|naive_solver (by rewrite ?Hperm in *)..].
  - intros [Ha Ha'] [Hb Hb']. rewrite <- Hperm in Hb.
    assert (Hba : price_le b a) by by apply Ha'.
    assert (Hab : price_le a b) by (apply Hb'; by rewrite <- Hperm).
    unfold price_le in *. split_and!; try done. lia.
Qed.

Lemma rate_equal a b fee d : pos_price a → pos_price b → 0 < d →
  pr_token a * pr_prv b = pr_token b * pr_prv a →
  fee * pr_token a * 100 / d / pr_prv a = fee * pr_token b * 100 / d / pr_prv b.
Proof.
  intros [_ Ha] [_ Hb] Hd E. rewrite !Z.div_div by lia.
  rewrite <- (Z.div_mul_cancel_r (fee * pr_token a * 100) (d * pr_prv a) (pr_prv b)) by lia.
  rewrite <- (Z.div_mul_cancel_r (fee * pr_token b * 100) (d * pr_prv b) (pr_prv a)) by lia.
  f_equal; [|ring]. transitivity (fee * 100 * (pr_token a * pr_prv b)); [ring|rewrite E; ring].
Qed.

(** Maps that agree up to the representation of the rates give the same fees. *)
Definition same_rates (m1 m2 : gmap Hash Price) : Prop := ∀ tok,
  match m1 !! tok, m2 !! tok with
  | None, None => True
  | Some a, Some b => pr_token a * pr_prv b = pr_token b * pr_prv a ∧ pos_price a ∧ pos_price b
  | _, _ => False
  end.

Lemma weightedFee_rates m1 m2 d tx : same_rates m1 m2 → 0 < d →
  weightedFee m1 d tx = weightedFee m2 d tx.
Proof.
  intros Hm Hd. unfold weightedFee. destruct (bool_decide _); [done|]. destruct (tx_burnedPRV tx); [|done].
  specialize (Hm (tr_TokenToSell (tx_Metadata tx))).
  destruct (m1 !! _) as [a|], (m2 !! _) as [b|]; [|done..]. destruct Hm as (E & Ha & Hb).
  rewrite !bigDiv_pos by done. cbn [mbind outcome_bind].
  rewrite !bigDiv_pos by (apply Ha || apply Hb). cbn [mbind outcome_bind].
  by rewrite (rate_equal a b).
Qed.

Lemma weightLoop_rates m1 m2 d txs w : same_rates m1 m2 → 0 < d →
  weightLoop m1 d txs w = weightLoop m2 d txs w.
Proof.
  intros Hm Hd. revert w. induction txs as [|tx txs IH]; intros w; [done|]. cbn [weightLoop].
  unfold weightStep. rewrite (weightedFee_rates m1 m2) by done.
  destruct (weightedFee m2 d tx) as [[b o]| | |]; [|done..]. cbn [mbind outcome_bind]. apply IH.
Qed.

Lemma weightLoop_partition m d txs w w' : weightLoop m d txs w = Ok w' →
  wg_txs w' ++ wg_invalid w' ≡ₚ wg_txs w ++ wg_invalid w ++ txs.
Proof.
  revert w. induction txs as [|tx txs IH]; intros w; cbn [weightLoop].
  { intros [= <-]. by rewrite app_nil_r. }
  intros (w1 & H1 & H2)%outcome_bind_Ok. rewrite (IH _ H2).
  apply outcome_bind_Ok in H1 as ([b [fee|]] & _ & [= <-]); cbn.
  - rewrite <- !(assoc_L (++)). cbn. solve_Permutation.
  - rewrite <- !(assoc_L (++)). done.
Qed.

Lemma getWeightedFee_spec txs pools pools' params :
  pools ≡ₚ pools' → Forall wf_price_pool pools → 0 < MinPRVReserveTradingRate params →
  0 ≤ PRVDiscountPercent params ≤ MaxPRVDiscountPercent →
  getWeightedFee txs pools params = getWeightedFee txs pools' params ∧
  ∃ w, getWeightedFee txs pools params = Ok w ∧ wg_txs w ++ wg_invalid w ≡ₚ txs.
Proof.
  intros Hperm Hwf Hmin Hdisc. unfold MaxPRVDiscountPercent in Hdisc. set (min := MinPRVReserveTradingRate params) in *.
  assert (Hwf' : Forall wf_price_pool pools') by by rewrite <- Hperm.
  assert (Hb0 : ∀ tok, best tok [] ((∅ : gmap Hash Price) !! tok)).
  { intros tok. rewrite lookup_empty. cbn. intros pr. apply not_elem_of_nil. }
  assert (Hp0 : ∀ c : Hash * Price, c ∈ [] → pos_price c.2) by (intros c Hc; by apply elem_of_nil in Hc).
  destruct (priceLoop_best min pools [] ∅ Hmin Hwf Hp0 Hb0) as (m1 & E1 & B1).
  destruct (priceLoop_best min pools' [] ∅ Hmin Hwf' Hp0 Hb0) as (m2 & E2 & B2).
  assert (Hrates : same_rates m1 m2).
  { assert (Hcand : omap (eligible min) pools ≡ₚ omap (eligible min) pools') by by rewrite Hperm.
    assert (Hpos : ∀ tok pr, (tok, pr) ∈ omap (eligible min) pools → pos_price pr).
    { intros tok pr (s & Hs & Hel)%list_elem_of_omap. eapply eligible_pos; [|done|done].
      rewrite Forall_forall in Hwf. by apply Hwf. }
    intros tok. pose proof (best_unique tok _ _ _ _ Hcand (B1 tok) (B2 tok)) as Hu.
    destruct (m1 !! tok), (m2 !! tok); try done. destruct Hu as (? & ? & ?).
    split_and!; [done|by apply (Hpos tok)..]. }
  unfold getWeightedFee, getTokenPricesAgainstPRV. fold min.
  rewrite sub64_exact by (unfold in_u64, word64; lia).
  rewrite (proj2 (Z.ltb_ge _ _)) by lia. rewrite E1, E2. cbn [mbind outcome_bind].
  split; [by apply weightLoop_rates; [|lia]|].
  assert (Hret : ∀ l w, ∃ w', weightLoop m1 (100 - PRVDiscountPercent params) l w = Ok w').
  { induction l as [|tx l IH]; intros w; [by eexists|]. cbn [weightLoop]. unfold weightStep.
    enough (∃ b o, weightedFee m1 (100 - PRVDiscountPercent params) tx = Ok (b, o))
      as (b & o & ->) by apply IH.
    unfold weightedFee. destruct (bool_decide _); [rewrite bigDiv_pos by lia; by eexists _, _|].
    destruct (tx_burnedPRV tx); [|by eexists _, _]. specialize (Hrates (tr_TokenToSell (tx_Metadata tx))).
    destruct (m1 !! _) as [a|], (m2 !! _); try done; [|by eexists _, _].
    destruct Hrates as (_ & [_ ?] & _).
    rewrite bigDiv_pos by lia. cbn [mbind outcome_bind]. rewrite bigDiv_pos by done. by eexists _, _. }
  destruct (Hret txs (mkWeighted [] ∅ ∅ ∅ [])) as [w Hw]. exists w. split; [done|].
  by apply weightLoop_partition in Hw.
Qed.

(** Whether a request pays its fee in PRV beside its own token, as recorded for every
    request. *)
Definition paysPRV (tx : Tx TradeRequest) : bool :=
  negb (bool_decide (tr_TokenToSell (tx_Metadata tx) = PRVCoinID)) && tx_burnedPRV tx.

Lemma weightedFee_flag m d tx b o : weightedFee m d tx = Ok (b, o) → b = paysPRV tx.
Proof.
  unfold weightedFee, paysPRV. destruct (bool_decide _).
  - intros (fee & _ & [= <- _])%outcome_bind_Ok. done.
  - destruct (tx_burnedPRV tx); [|by intros [= <- _]]. destruct (m !! _); [|by intros [= <- _]].
    intros (? & _ & (? & _ & [= <- _])%outcome_bind_Ok)%outcome_bind_Ok. done.
Qed.

Lemma weightLoop_flags m d txs w w' : weightLoop m d txs w = Ok w' → NoDup (tx_id <$> txs) →
  (∀ id, id ∉ tx_id <$> txs → wg_feeInPRV w' !! id = wg_feeInPRV w !! id) ∧
  ∀ tx, tx ∈ txs → wg_feeInPRV w' !! tx_id tx = Some (paysPRV tx).
Proof.
  revert w. induction txs as [|tx txs IH]; intros w; cbn [weightLoop].
  { intros [= <-] _. split; [done|]. intros tx Htx. by apply elem_of_nil in Htx. }
  intros (w1 & H1 & H2)%outcome_bind_Ok [Hnin Hnd]%NoDup_cons.
  destruct (IH _ H2 Hnd) as [Hout Hin].
  apply outcome_bind_Ok in H1 as ([b o] & Hf & [= <-]). apply weightedFee_flag in Hf as ->.
  assert (Hw : wg_feeInPRV (match o with
    | Some fee => mkWeighted (wg_txs w ++ [tx]) (<[tx_id tx := paysPRV tx]> (wg_feeInPRV w))
        (<[tx_id tx := fee]> (wg_fees w))
        (<[tx_id tx := tr_SellAmount (tx_Metadata tx)]> (wg_sellAmounts w)) (wg_invalid w)
    | None => mkWeighted (wg_txs w) (<[tx_id tx := paysPRV tx]> (wg_feeInPRV w)) (wg_fees w)
        (wg_sellAmounts w) (wg_invalid w ++ [tx]) end) = <[tx_id tx := paysPRV tx]> (wg_feeInPRV w))
    by by destruct o.
  split.
  - intros id Hid. rewrite fmap_cons, not_elem_of_cons in Hid.
    rewrite Hout by apply Hid. rewrite Hw, lookup_insert_ne; [done|]. destruct Hid; congruence.
  - intros tx' [->|Htx]%elem_of_cons; [|by apply Hin].
    by rewrite Hout, Hw, lookup_insert_eq.
Qed.

Lemma getWeightedFee_flags txs pools params w tx :
  getWeightedFee txs pools params = Ok w → NoDup (tx_id <$> txs) → tx ∈ txs →
  wg_feeInPRV w !! tx_id tx = Some (paysPRV tx).
Proof.
  unfold getWeightedFee. destruct (_ <? _); [done|]. intros (m & _ & H)%outcome_bind_Ok Hnd Htx.
  by eapply weightLoop_flags.
Qed.

(** C40: the weighted fees of a block do not depend on the order in which the pools are
    visited (Go randomises it): all validators sort the trades of a block by the same fees
    and refund the same requests.  With a positive minimal PRV reserve the computation
    succeeds, and every request is either kept or refunded. *)
Theorem getWeightedFee_deterministic txs pools pools' params
    (Hperm : pools ≡ₚ pools') (Hwf : Forall wf_price_pool pools)
    (Hmin : 0 < MinPRVReserveTradingRate params)
    (Hdisc : 0 ≤ PRVDiscountPercent params ≤ MaxPRVDiscountPercent) :
  getWeightedFee txs pools params = getWeightedFee txs pools' params ∧
  ∃ w, getWeightedFee txs pools params = Ok w ∧ wg_txs w ++ wg_invalid w ≡ₚ txs.
Proof. by apply getWeightedFee_spec. Qed.

Definition price_pool (reserve amp : Z) : Pdexv3PoolPair :=
  mkPoolPair 1000 0 PRVCoinID emptyHash reserve (2 * reserve) (2 * reserve) (4 * reserve) amp.
Definition price_request : Tx TradeRequest :=
  mkTx emptyHash 0 true (mkTradeRequest ["p1"] emptyHash 1000 1 50 ∅).

Lemma getWeightedFee_deterministic_witness :
  getWeightedFee [price_request] [price_pool 5000 20000; price_pool 7000 15000] sample_params =
  getWeightedFee [price_request] [price_pool 7000 15000; price_pool 5000 20000] sample_params.
Proof.
  apply (getWeightedFee_deterministic [price_request] [price_pool 5000 20000; price_pool 7000 15000]
    [price_pool 7000 15000; price_pool 5000 20000] sample_params).
  - apply Permutation_swap.
  - repeat apply Forall_cons_2; try apply Forall_nil_2; split_and!; cbn; lia.
  - cbn. lia.
  - cbn. unfold MaxPRVDiscountPercent. lia.
Defined.

(** A drained pool can stop block production.  With a minimal PRV reserve of zero,
    which validation accepts, the price of a token is taken also from a pool without any
    reserves, and a request that pays its fee in PRV makes [getWeightedFee] divide by zero. *)
Theorem getWeightedFee_drained_pool :
  let params := mkParams 30 ∅ 25 10 20 ∅ ∅ [] 100 10 5 0 1500 ∅ ∅ 0 20 ∅ in
  (isValidPdexv3Params params ({["p1" := tt]} : gmap string unit)).1 = true ∧
  getWeightedFee [price_request] [price_pool 0 20000] params = Panic.
Proof. split; vm_compute; reflexivity. Qed.
