(* ===== verification/Instructions.v ===== *)
(** Beacon instructions of the exchange.  The producer prints them as string lists with a
    JSON payload; here an instruction is its kind and the fields of its payload, and the
    builders of [blockchain/pdex/v2utils/add_liquidity.go], [withdraw_liquidity.go],
    [unstaking.go], [producer.go] and the refund builders of [blockchain/pdex/utils.go]
    construct them.  [payout] is what an instruction pays to users. *)
From S2P Require Import Prelude Hash RawDB Swap Order Reserve OrderBook Trade Reward TrackFee PdexUtils PoolPair Params WeightedFee.

Local Open Scope Z_scope.

(** The contribution of a request together with its pair hash
    ([statedb.Pdexv3ContributionState]). *)
Record ContributionState := mkContributionState {
  cs_value : Pdexv3Contribution;
  cs_pairHash : string }.

Record ReceiverInfo := mkReceiverInfo { ri_Address : string; ri_Amount : Z }.

Record AcceptedAddOrder := mkAcceptedAddOrder {
  ao_PoolPairID : string;
  ao_OrderID : string;
  ao_NftID : Hash;
  ao_Token0Rate : Z;
  ao_Token1Rate : Z;
  ao_Token0Balance : Z;
  ao_Token1Balance : Z;
  ao_TradeDirection : Z;
  ao_Receiver : string * string }.

(** The request metas that appear as the action of a mint-NFT instruction. *)
Inductive NftAction := WithdrawLiquidityMeta | WithdrawOrderMeta | WithdrawLPFeeMeta
  | UnstakingMeta | WithdrawStakingRewardMeta.

Inductive Instruction :=
  | RefundAddLiquidity (c : ContributionState)
  | WaitingAddLiquidity (c : ContributionState)
  | MatchAddLiquidity (c : ContributionState) (poolPairID : string)
  | MatchAndReturnAddLiquidity (c : ContributionState) (shareAmount returnAmount
      existedTokenActualAmount existedTokenReturnAmount : Z) (existedTokenID : Hash)
  | RejectWithdrawLiquidity (txReqID : Hash) (shardID : Z)
  | AcceptWithdrawLiquidity (poolPairID : string) (nftID tokenID : Hash)
      (tokenAmount shareAmount : Z) (otaReceiver : string) (txReqID : Hash) (shardID : Z)
  | MintNft (nftID : Hash) (otaReceiver : string) (shardID : Z) (txReqID : Hash) (action : NftAction)
  | ModifyParams (params : Params) (errorMsg : string) (shardID : Z) (txReqID : Hash) (accepted : bool)
  | MintPDEXGenesis (receivingAddressStr : string) (amount shardID : Z)
  | MintBlockReward (poolPairID : string) (amount : Z) (tokenID : Hash)
  | DistributeMiningOrderReward (poolPairID : string) (makingTokenID : Hash) (amount : Z)
      (tokenID : Hash)
  | RefundedTrade (receiver : string) (tokenID : Hash) (amount : Z) (txID : Hash) (shardID : Z)
  | AcceptedTradeInst (md : AcceptedTrade) (txID : Hash) (shardID : Z)
  | RefundedAddOrder (receiver : string) (tokenID : Hash) (amount : Z) (txID : Hash) (shardID : Z)
  | AcceptedAddOrderInst (md : AcceptedAddOrder) (txID : Hash) (shardID : Z)
  | RejectedWithdrawOrder (poolPairID orderID : string) (txID : Hash) (shardID : Z)
  | AcceptedWithdrawOrder (poolPairID orderID receiver : string) (tokenID : Hash) (amount : Z)
      (txID : Hash) (shardID : Z)
  | RejectedWithdrawLPFee (poolPairID : string) (nftID txReqID : Hash) (shardID : Z)
  | AcceptedWithdrawLPFee (poolPairID : string) (nftID tokenID : Hash) (receiver : ReceiverInfo)
      (isLastInst : bool) (txReqID : Hash) (shardID : Z)
  | RejectedWithdrawProtocolFee (poolPairID address : string) (txReqID : Hash) (shardID : Z)
  | AcceptedWithdrawProtocolFee (poolPairID address : string) (tokenID : Hash) (amount : Z)
      (isLastInst : bool) (txReqID : Hash) (shardID : Z)
  | RejectStaking (otaReceiver : string) (tokenID txReqID : Hash) (shardID amount : Z)
  | AcceptStaking (nftID stakingPoolID txReqID : Hash) (shardID liquidity : Z)
  | RejectUnstaking (txReqID : Hash) (shardID : Z)
  | AcceptUnstaking (stakingPoolID nftID : Hash) (amount : Z) (otaReceiver : string)
      (txReqID : Hash) (shardID : Z)
  | DistributeStakingReward (stakingPoolID : string) (rewards : gmap Hash Z)
  | RejectedWithdrawStakingReward (stakingPoolID : string) (nftID txReqID : Hash) (shardID : Z)
  | AcceptedWithdrawStakingReward (stakingPoolID : string) (nftID tokenID : Hash)
      (receiver : ReceiverInfo) (isLastInst : bool) (txReqID : Hash) (shardID : Z)
  | RejectUserMintNft (otaReceiver : string) (amount shardID : Z) (txReqID : Hash)
  | AcceptUserMintNft (otaReceiver : string) (amount shardID : Z) (nftID txReqID : Hash)
  | InscribeRejected (txReqID : Hash) (shardID : Z)
  | InscribeAccepted (tokenID : Hash) (receiver : string) (txReqID : Hash) (shardID : Z).

(** What the instruction pays out of token [tok].  Staking tokens are named by their printed
    hash; NFTs and the block reward are not payouts of deposited tokens. *)
Definition payout (tok : Hash) (i : Instruction) : Z :=
  match i with
  | RefundAddLiquidity c =>
      if decide (ct_tokenID (cs_value c) = tok) then ct_amount (cs_value c) else 0
  | MatchAndReturnAddLiquidity c _ ret _ _ _ =>
      if decide (ct_tokenID (cs_value c) = tok) then ret else 0
  | AcceptWithdrawLiquidity _ _ t amount _ _ _ _ => if decide (t = tok) then amount else 0
  | RefundedTrade _ t amount _ _ => if decide (t = tok) then amount else 0
  | AcceptedTradeInst md _ _ => if decide (at_TokenToBuy md = tok) then at_Amount md else 0
  | RefundedAddOrder _ t amount _ _ => if decide (t = tok) then amount else 0
  | AcceptedWithdrawOrder _ _ _ t amount _ _ => if decide (t = tok) then amount else 0
  | AcceptedWithdrawLPFee _ _ t r _ _ _ => if decide (t = tok) then ri_Amount r else 0
  | AcceptedWithdrawProtocolFee _ _ t amount _ _ _ => if decide (t = tok) then amount else 0
  | RejectStaking _ t _ _ amount => if decide (t = tok) then amount else 0
  | AcceptUnstaking t _ amount _ _ _ => if decide (t = tok) then amount else 0
  | AcceptedWithdrawStakingReward _ _ t r _ _ _ => if decide (t = tok) then ri_Amount r else 0
  | RejectUserMintNft _ amount _ _ => if decide (PRVCoinID = tok) then amount else 0
  | _ => 0
  end.

Definition payouts (tok : Hash) (insts : list Instruction) : Z := list_sum (payout tok) insts.

Lemma payouts_app tok a b : payouts tok (a ++ b) = payouts tok a + payouts tok b.
Proof. apply list_sum_app. Qed.

Definition isAddOrder (i : Instruction) : bool :=
  match i with AcceptedAddOrderInst _ _ _ => true | _ => false end.

(** An instruction that pays no negative amount and places no order. *)
Record plain (i : Instruction) : Prop := {
  pl_pays : ∀ tok, 0 ≤ payout tok i;
  pl_order : isAddOrder i = false }.

Lemma plain_payouts tok insts : Forall plain insts → 0 ≤ payouts tok insts.
Proof. intros H. apply list_sum_nonneg. eapply Forall_impl; [done|]. intros i Hi. apply Hi. Qed.

(** [solve_plain] goes through a list of instructions. *)
Ltac solve_plain :=
  repeat apply Forall_cons_2; try apply Forall_nil_2;
  (split; [intros ?tok; cbn [payout cs_value fst snd]; repeat case_decide; lia|reflexivity]).

(** ** Builders *)
Definition BuildRefundAddLiquidityInstructions (waiting incoming : ContributionState)
    : list Instruction := [RefundAddLiquidity waiting; RefundAddLiquidity incoming].

Definition BuildMatchAddLiquidityInstructions (incoming : ContributionState) (poolPairID : string)
    : list Instruction := [MatchAddLiquidity incoming poolPairID].

Definition BuildMatchAndReturnAddLiquidityInstructions (token0 token1 : ContributionState)
    (shareAmount returned0 actual0 returned1 actual1 : Z) : list Instruction :=
  [MatchAndReturnAddLiquidity token0 shareAmount returned0 actual1 returned1
     (ct_tokenID (cs_value token1));
   MatchAndReturnAddLiquidity token1 shareAmount returned1 actual0 returned0
     (ct_tokenID (cs_value token0))].

Record WithdrawLiquidityRequest := mkWithdrawLiquidityRequest {
  wl_poolPairID : string;
  wl_nftID : string;
  wl_otaReceivers : gmap string string;
  wl_shareAmount : Z }.

(** A missing entry of a map of receivers reads as the empty string. *)
Definition receiverOf (m : gmap string string) (k : string) : string := default ""%string (m !! k).

(** The parsed hash is dereferenced although the error is ignored. *)
Definition derefHash (s : string) : outcome Hash :=
  match NewHashFromStr s with Ok h => Ok h | _ => Panic end.

Definition BuildRejectWithdrawLiquidityInstructions (md : WithdrawLiquidityRequest)
    (txReqID : Hash) (shardID : Z) : outcome (list Instruction) :=
  nftHash ← derefHash (wl_nftID md);
  Ok [RejectWithdrawLiquidity txReqID shardID;
      MintNft nftHash (receiverOf (wl_otaReceivers md) (wl_nftID md)) shardID txReqID
        WithdrawLiquidityMeta].

Definition BuildAcceptWithdrawLiquidityInstructions (md : WithdrawLiquidityRequest)
    (token0ID token1ID : Hash) (token0Amount token1Amount shareAmount : Z)
    (txReqID : Hash) (shardID : Z) : outcome (list Instruction) :=
  nftHash ← NewHashFromStr (wl_nftID md);
  let receiver0 := receiverOf (wl_otaReceivers md) (Hash_String token0ID) in
  let receiver1 := receiverOf (wl_otaReceivers md) (Hash_String token1ID) in
  if String.eqb receiver0 "" then Err "invalid ota receivers"
  else if String.eqb receiver1 "" then Err "invalid ota receivers"
  else Ok [AcceptWithdrawLiquidity (wl_poolPairID md) nftHash token0ID token0Amount shareAmount
             receiver0 txReqID shardID;
           AcceptWithdrawLiquidity (wl_poolPairID md) nftHash token1ID token1Amount shareAmount
             receiver1 txReqID shardID;
           MintNft nftHash (receiverOf (wl_otaReceivers md) (wl_nftID md)) shardID txReqID
             WithdrawLiquidityMeta].

(** The tokens of a map in the order of their printed form, each with its entry. *)
Definition printed_le (a b : Hash) : Prop := String.le (Hash_String a) (Hash_String b).
#[export] Instance printed_le_dec a b : Decision (printed_le a b).
Proof. unfold printed_le. apply _. Defined.

Definition sortedTokens {A} (m : gmap Hash A) : list (Hash * A) :=
  merge_sort (λ a b, printed_le a.1 b.1) (map_to_list m).

(** One instruction per token; the last one is marked. *)
Fixpoint markLast {A B} (build : A → bool → B) (l : list A) : list B :=
  match l with
  | [] => []
  | [a] => [build a true]
  | a :: l => build a false :: markLast build l
  end.

Definition BuildWithdrawLPFeeInsts (pairID : string) (nftID : Hash)
    (receivers : gmap Hash ReceiverInfo) (shardID : Z) (reqTxID : Hash) (accepted : bool)
    : list Instruction :=
  if accepted
  then markLast (λ tr isLast, AcceptedWithdrawLPFee pairID nftID tr.1 tr.2 isLast reqTxID shardID)
         (sortedTokens receivers)
  else [RejectedWithdrawLPFee pairID nftID reqTxID shardID].

Definition BuildWithdrawProtocolFeeInsts (pairID address : string) (amounts : gmap Hash Z)
    (shardID : Z) (reqTxID : Hash) (accepted : bool) : list Instruction :=
  if accepted
  then markLast (λ ta isLast, AcceptedWithdrawProtocolFee pairID address ta.1 ta.2 isLast reqTxID
                                shardID) (sortedTokens amounts)
  else [RejectedWithdrawProtocolFee pairID address reqTxID shardID].

Definition BuildWithdrawStakingRewardInsts (stakingPoolID : string) (nftID : Hash)
    (receivers : gmap Hash ReceiverInfo) (shardID : Z) (reqTxID : Hash) (accepted : bool)
    : list Instruction :=
  if accepted
  then markLast (λ tr isLast, AcceptedWithdrawStakingReward stakingPoolID nftID tr.1 tr.2 isLast
                                reqTxID shardID) (sortedTokens receivers)
  else [RejectedWithdrawStakingReward stakingPoolID nftID reqTxID shardID].

Record UnstakingRequest := mkUnstakingRequest {
  us_stakingPoolID : string;
  us_nftID : string;
  us_unstakingAmount : Z;
  us_otaReceivers : gmap string string }.

Definition BuildRejectUnstakingInstructions (md : UnstakingRequest) (txReqID : Hash) (shardID : Z)
    : outcome (list Instruction) :=
  nftHash ← derefHash (us_nftID md);
  Ok [RejectUnstaking txReqID shardID;
      MintNft nftHash (receiverOf (us_otaReceivers md) (us_nftID md)) shardID txReqID UnstakingMeta].

Definition BuildAcceptUnstakingInstructions (stakingPoolID nftID : Hash) (unstakingAmount : Z)
    (otaReceiverNft otaReceiverUnstakingToken : string) (txReqID : Hash) (shardID : Z)
    : list Instruction :=
  [AcceptUnstaking stakingPoolID nftID unstakingAmount otaReceiverUnstakingToken txReqID shardID;
   MintNft nftID otaReceiverNft shardID txReqID UnstakingMeta].

(** ** Refunds *)
Definition getRefundedTradeInstructions (md : TradeRequest) (feeInPRV : bool) (txID : Hash)
    (shardID : Z) : outcome (list Instruction) :=
  match tr_Receiver md !! tr_TokenToSell md with
  | None => Err "Refund receiver not found in Trade Request"
  | Some refundReceiver =>
      let tokenRefundAmount :=
        if feeInPRV then tr_SellAmount md else add64 (tr_SellAmount md) (tr_TradingFee md) in
      let selling := RefundedTrade refundReceiver (tr_TokenToSell md) tokenRefundAmount txID shardID in
      if feeInPRV then
        match tr_Receiver md !! PRVCoinID with
        | None => Err "Fee (PRV) Refund receiver not found in Trade Request"
        | Some prvReceiver =>
            Ok [selling; RefundedTrade prvReceiver PRVCoinID (tr_TradingFee md) txID shardID]
        end
      else Ok [selling]
  end.

Record AddOrderRequest := mkAddOrderRequest {
  or_TokenToSell : Hash;
  or_PoolPairID : string;
  or_SellAmount : Z;
  or_MinAcceptableAmount : Z;
  or_Receiver : gmap Hash string;
  or_NftID : Hash }.

Definition getRefundedAddOrderInstructions (md : AddOrderRequest) (txID : Hash) (shardID : Z)
    : outcome (list Instruction) :=
  match or_Receiver md !! or_TokenToSell md with
  | None => Err "Refund receiver not found in Trade Request"
  | Some refundReceiver =>
      Ok [RefundedAddOrder refundReceiver (or_TokenToSell md) (or_SellAmount md) txID shardID]
  end.

(** ** The payout of a list of marked instructions *)
Lemma markLast_sum {A B} (build : A → bool → B) (f : B → Z) (g : A → Z) l :
  (∀ a b, f (build a b) = g a) → list_sum f (markLast build l) = list_sum g l.
Proof.
  intros H. induction l as [|a l IH]; [done|]. destruct l as [|a' l].
  - cbn [markLast]. by rewrite !list_sum_cons, H.
  - change (markLast build (a :: a' :: l)) with (build a false :: markLast build (a' :: l)).
    by rewrite list_sum_cons, H, IH, (list_sum_cons g a).
Qed.

Lemma sortedTokens_perm {A} (m : gmap Hash A) : sortedTokens m ≡ₚ map_to_list m.
Proof. apply merge_sort_Permutation. Qed.

(** The entry of one token in a map, found by summing over all tokens. *)
Lemma list_sum_token {A} (f : A → Z) (m : gmap Hash A) tok :
  list_sum (λ ta, if decide (ta.1 = tok) then f ta.2 else 0) (map_to_list m) =
  from_option f 0 (m !! tok).
Proof.
  induction m as [|k a m Hk IH] using map_ind.
  - by rewrite map_to_list_empty, lookup_empty.
  - rewrite (list_sum_Permutation _ _ _ (map_to_list_insert m k a Hk)), list_sum_cons, IH.
    cbn [fst snd]. rewrite lookup_insert. case_decide; subst; [rewrite Hk; cbn; lia|done].
Qed.

Lemma markLast_Forall {A B} (build : A → bool → B) (P : B → Prop) l :
  Forall (λ a, ∀ b, P (build a b)) l → Forall P (markLast build l).
Proof.
  induction 1 as [|a l Ha Hl IH]; [apply Forall_nil_2|]. destruct l as [|b l]; cbn.
  - apply Forall_cons_2; [done|apply Forall_nil_2].
  - by apply Forall_cons_2.
Qed.

Lemma sortedTokens_Forall {A} (P : Hash * A → Prop) (m : gmap Hash A) :
  (∀ t a, m !! t = Some a → P (t, a)) → Forall P (sortedTokens m).
Proof.
  intros H. rewrite (sortedTokens_perm m). apply Forall_forall. intros [t a] Hin%elem_of_map_to_list. auto.
Qed.
