(* ===== verification/LiquidityProducer.v ===== *)
(** Liquidity requests of a block ([addLiquidity] and [withdrawLiquidity] of
    [blockchain/pdex/state_producer_v2.go], [NewContributionWithMetaData] of
    [blockchain/pdex/state_v2.go]). *)
From S2P Require Import Prelude Hash RawDB Swap Order Reserve OrderBook Trade Reward TrackFee PdexUtils PoolPair Params WeightedFee Instructions.

Local Open Scope Z_scope.

Record AddLiquidityRequest := mkAddLiquidityRequest {
  al_poolPairID : string;
  al_pairHash : string;
  al_otaReceiver : string;
  al_tokenID : string;
  al_nftID : string;
  al_tokenAmount : Z;
  al_amplifier : Z }.

Abbreviation PoolPairs := (gmap string PoolPairState).
Abbreviation Waiting := (gmap string Pdexv3Contribution).

Definition NewContributionWithMetaData (md : AddLiquidityRequest) (txReqID : Hash) (shardID : Z)
    : outcome Pdexv3Contribution :=
  tokenHash ← derefHash (al_tokenID md);
  nftID ← (if String.eqb (al_nftID md) "" then Ok emptyHash else derefHash (al_nftID md));
  Ok (mkContribution (al_poolPairID md) (al_otaReceiver md) tokenHash (al_tokenAmount md)
        (al_amplifier md) txReqID nftID shardID).

(** The last part of [addLiquidity]: both contributions go to an existing pool. *)
Definition contributeToPool (params : Params) (beaconHeight : Z) (pairHash poolPairID : string)
    (nftHash : Hash) (rootPoolPair : PoolPairState) (waiting incoming : Pdexv3Contribution)
    (poolPairs : PoolPairs) : outcome (list Instruction * PoolPairs) :=
  let '(token0Contribution, token1Contribution) :=
    getContributionsByOrder rootPoolPair waiting incoming in
  let state0 := mkContributionState token0Contribution pairHash in
  let state1 := mkContributionState token1Contribution pairHash in
  let refund := BuildRefundAddLiquidityInstructions state0 state1 in
  match computeActualContributedAmounts rootPoolPair token0Contribution token1Contribution with
  | Panic => Panic
  | OutOfFuel => OutOfFuel
  | Err _ => Ok (refund, poolPairs)
  | Ok (actual0, returned0, actual1, returned1) =>
      if (actual0 =? 0) || (actual1 =? 0) then Ok (refund, poolPairs)
      else
        let lmLockedBlocks :=
          match PDEXRewardPoolPairsShare params !! poolPairID with
          | Some _ => MiningRewardPendingBlocks params
          | None => 0
          end in
        match runM (contribute (Hash_String (ct_tokenID token0Contribution))
                      (Hash_String (ct_tokenID token1Contribution)) actual0 actual1
                      nftHash beaconHeight lmLockedBlocks) rootPoolPair with
        | Panic => Panic
        | OutOfFuel => OutOfFuel
        | Err _ => Ok (refund, poolPairs)
        | Ok (shareAmount, poolPair) =>
            Ok (BuildMatchAndReturnAddLiquidityInstructions state0 state1 shareAmount
                  returned0 actual0 returned1 actual1,
                <[poolPairID := poolPair]> poolPairs)
        end
  end.

(** The first contribution of a pair creates the pool. *)
Definition createPool (beaconHeight : Z) (poolPairID : string) (nftHash : Hash)
    (waitingState incomingState : ContributionState) (poolPairs : PoolPairs)
    : outcome (list Instruction * PoolPairs) :=
  let waiting := cs_value waitingState in
  let incoming := cs_value incomingState in
  let newPoolPair := initPoolPairState waiting incoming in
  shareAmount ← bigSqrt (ct_amount waiting * ct_amount incoming);
  match runM (addShare nftHash (bigUint64 shareAmount) beaconHeight 0) newPoolPair with
  | Panic => Panic
  | OutOfFuel => OutOfFuel
  | Err _ => Ok (BuildRefundAddLiquidityInstructions waitingState incomingState, poolPairs)
  | Ok (_, newPoolPair) =>
      Ok (BuildMatchAddLiquidityInstructions incomingState poolPairID,
          <[poolPairID := newPoolPair]> poolPairs)
  end.

(** A waiting contribution meets an incoming one. *)
Definition matchContributions (params : Params) (beaconHeight : Z) (md : AddLiquidityRequest)
    (waiting incoming : Pdexv3Contribution) (poolPairs : PoolPairs)
    : outcome (list Instruction * PoolPairs) :=
  let waitingState := mkContributionState waiting (al_pairHash md) in
  let incomingState := mkContributionState incoming (al_pairHash md) in
  let refund := BuildRefundAddLiquidityInstructions waitingState incomingState in
  if String.eqb (Hash_String (ct_tokenID waiting)) (Hash_String (ct_tokenID incoming)) ||
     negb (ct_amplifier waiting =? ct_amplifier incoming) ||
     negb (String.eqb (ct_poolPairID waiting) (ct_poolPairID incoming)) ||
     negb (String.eqb (Hash_String (ct_nftID waiting)) (Hash_String (ct_nftID incoming)))
  then Ok (refund, poolPairs)
  else
    nftHash ← NewHashFromStr (al_nftID md);
    let poolPairID :=
      if String.eqb (ct_poolPairID waiting) ""
      then generatePoolPairKey (Hash_String (ct_tokenID waiting)) (al_tokenID md)
             (Hash_String (ct_txReqID waiting))
      else ct_poolPairID waiting in
    match poolPairs !! poolPairID with
    | None =>
        if String.eqb (ct_poolPairID waiting) ""
        then createPool beaconHeight poolPairID nftHash waitingState incomingState poolPairs
        else Ok (refund, poolPairs)
    | Some rootPoolPair =>
        match validateTokenIDsByPoolPairID [ct_tokenID waiting; ct_tokenID incoming] poolPairID with
        | Ok _ => contributeToPool params beaconHeight (al_pairHash md) poolPairID nftHash
                    rootPoolPair waiting incoming poolPairs
        | _ => Ok (refund, poolPairs)
        end
    end.

Definition addLiquidityTx (nftIDs : gmap string Z) (params : Params) (beaconHeight : Z)
    (tx : Tx AddLiquidityRequest) (poolPairs : PoolPairs) (waitingContributions : Waiting)
    : outcome (list Instruction * PoolPairs * Waiting) :=
  let md := tx_Metadata tx in
  incoming ← NewContributionWithMetaData md (tx_Hash tx) (tx_ShardID tx);
  let incomingState := mkContributionState incoming (al_pairHash md) in
  if String.eqb (al_nftID md) "" || bool_decide (nftIDs !! al_nftID md = None)
  then Ok ([RefundAddLiquidity incomingState], poolPairs, waitingContributions)
  else match waitingContributions !! al_pairHash md with
  | None => Ok ([WaitingAddLiquidity incomingState], poolPairs,
                <[al_pairHash md := incoming]> waitingContributions)
  | Some waiting =>
      r ← matchContributions params beaconHeight md waiting incoming poolPairs;
      Ok (r.1, r.2, delete (al_pairHash md) waitingContributions)
  end.

Fixpoint addLiquidity (nftIDs : gmap string Z) (params : Params) (beaconHeight : Z)
    (txs : list (Tx AddLiquidityRequest)) (poolPairs : PoolPairs) (waitingContributions : Waiting)
    : outcome (list Instruction * PoolPairs * Waiting) :=
  match txs with
  | [] => Ok ([], poolPairs, waitingContributions)
  | tx :: txs =>
      r ← addLiquidityTx nftIDs params beaconHeight tx poolPairs waitingContributions;
      let '(insts, poolPairs, waitingContributions) := r in
      r ← addLiquidity nftIDs params beaconHeight txs poolPairs waitingContributions;
      let '(insts', poolPairs, waitingContributions) := r in
      Ok (insts ++ insts', poolPairs, waitingContributions)
  end.

(** ** Withdrawing *)
Definition withdrawLiquidityTx (nftIDs : gmap string Z) (tx : Tx WithdrawLiquidityRequest)
    (poolPairs : PoolPairs) : outcome (list Instruction * PoolPairs) :=
  let md := tx_Metadata tx in
  rejectInsts ← BuildRejectWithdrawLiquidityInstructions md (tx_Hash tx) (tx_ShardID tx);
  let rejected := Ok (rejectInsts, poolPairs) in
  if String.eqb (wl_nftID md) "" || bool_decide (nftIDs !! wl_nftID md = None) then rejected
  else match poolPairs !! wl_poolPairID md with
  | None => rejected
  | Some rootPoolPair =>
      if isEmpty rootPoolPair then rejected
      else match ps_shares rootPoolPair !! wl_nftID md with
      | None => rejected
      | Some share =>
          if (sh_amount share =? 0) || (wl_shareAmount md =? 0) then rejected
          else match runM (deductShare (wl_nftID md) (wl_shareAmount md)) rootPoolPair with
          | Panic => Panic
          | OutOfFuel => OutOfFuel
          | Err _ => rejected
          | Ok (token0Amount, token1Amount, shareAmount, poolPair) =>
              match BuildAcceptWithdrawLiquidityInstructions md (pp_token0ID (ps_state poolPair))
                      (pp_token1ID (ps_state poolPair)) token0Amount token1Amount shareAmount
                      (tx_Hash tx) (tx_ShardID tx) with
              | Ok insts => Ok (insts, <[wl_poolPairID md := poolPair]> poolPairs)
              | Err _ => rejected
              | Panic => Panic
              | OutOfFuel => OutOfFuel
              end
          end
      end
  end.

Fixpoint withdrawLiquidity (nftIDs : gmap string Z) (txs : list (Tx WithdrawLiquidityRequest))
    (poolPairs : PoolPairs) : outcome (list Instruction * PoolPairs) :=
  match txs with
  | [] => Ok ([], poolPairs)
  | tx :: txs =>
      r ← withdrawLiquidityTx nftIDs tx poolPairs;
      let '(insts, poolPairs) := r in
      r ← withdrawLiquidity nftIDs txs poolPairs;
      let '(insts', poolPairs) := r in
      Ok (insts ++ insts', poolPairs)
  end.

(** ** Holdings

    What the exchange holds of a token: the reserves of the pools, the balances of the
    orders, and the waiting contributions. *)
Definition poolHoldings (tok : Hash) (p : PoolPairState) : Z :=
  (if decide (pp_token0ID (ps_state p) = tok)
   then pp_token0RealAmount (ps_state p) + list_sum ord_token0Balance (orders (ps_orderbook p))
   else 0) +
  (if decide (pp_token1ID (ps_state p) = tok)
   then pp_token1RealAmount (ps_state p) + list_sum ord_token1Balance (orders (ps_orderbook p))
   else 0).

Definition poolsHoldings (tok : Hash) (pools : PoolPairs) : Z := map_sum (poolHoldings tok) pools.

Definition contributed (tok : Hash) (c : Pdexv3Contribution) : Z :=
  if decide (ct_tokenID c = tok) then ct_amount c else 0.

Definition waitingHoldings (tok : Hash) (w : Waiting) : Z := map_sum (contributed tok) w.

(** The key of a pool names its tokens. *)
Definition keyed (id : string) (p : PoolPairState) : Prop :=
  ∃ tx, id = generatePoolPairKey (Hash_String (pp_token0ID (ps_state p)))
               (Hash_String (pp_token1ID (ps_state p))) (Hash_String tx).

Definition wf_pools (pools : PoolPairs) : Prop :=
  ∀ id p, pools !! id = Some p → wf_state p ∧ keyed id p.

Record wf_contribution (c : Pdexv3Contribution) : Prop := {
  wc_token : wf_hash (ct_tokenID c);
  wc_amount : in_u64 (ct_amount c);
  wc_amplifier : BaseAmplifier ≤ ct_amplifier c }.

Definition wf_waiting (w : Waiting) : Prop := ∀ k c, w !! k = Some c → wf_contribution c.

(** A valid request whose identifiers are in canonical form.  Request validation itself only
    checks that they parse. *)
Record wf_request (md : AddLiquidityRequest) : Prop := {
  wr_token : ∃ h, wf_hash h ∧ al_tokenID md = Hash_String h;
  wr_nft : ∃ h, wf_hash h ∧ al_nftID md = Hash_String h;
  wr_amount : in_u64 (al_tokenAmount md);
  wr_amplifier : BaseAmplifier ≤ al_amplifier md }.

(** ** Conservation *)
Lemma poolsHoldings_insert tok pools id p :
  poolsHoldings tok (<[id := p]> pools) =
  poolsHoldings tok pools - from_option (poolHoldings tok) 0 (pools !! id) + poolHoldings tok p.
Proof. apply map_sum_insert. Qed.

Lemma wf_pools_insert pools id p : wf_pools pools → wf_state p → keyed id p →
  wf_pools (<[id := p]> pools).
Proof. intros Hw Hp Hk i q. rewrite lookup_insert. case_decide; [intros [= <-]; by subst|apply Hw]. Qed.

(** A pool whose reserves grew by contributed amounts. *)
Lemma poolHoldings_moved tok p p' a0 a1 : same_pool p p' →
  pp_token0RealAmount (ps_state p') = pp_token0RealAmount (ps_state p) + a0 →
  pp_token1RealAmount (ps_state p') = pp_token1RealAmount (ps_state p) + a1 →
  poolHoldings tok p' = poolHoldings tok p +
    (if decide (pp_token0ID (ps_state p) = tok) then a0 else 0) +
    (if decide (pp_token1ID (ps_state p) = tok) then a1 else 0).
Proof.
  intros (H0 & H1 & Hb) Hr0 Hr1. unfold poolHoldings. rewrite H0, H1, Hb, Hr0, Hr1.
  repeat case_decide; lia.
Qed.

Lemma same_pool_keyed id p p' : same_pool p p' → keyed id p → keyed id p'.
Proof. intros (H0 & H1 & _) [tx ->]. exists tx. by rewrite H0, H1. Qed.

Lemma refund_payouts tok a b :
  payouts tok (BuildRefundAddLiquidityInstructions a b) =
  contributed tok (cs_value a) + contributed tok (cs_value b).
Proof. unfold payouts, list_sum, contributed. cbn. lia. Qed.

Lemma refund_plain a b : wf_contribution (cs_value a) → wf_contribution (cs_value b) →
  Forall plain (BuildRefundAddLiquidityInstructions a b).
Proof. intros [_ [? _] _] [_ [? _] _]. solve_plain. Qed.

(** The tokens of two distinct contributions that pass the key check are those of the pool. *)
Lemma contributions_by_order id p waiting incoming :
  wf_state p → keyed id p → wf_contribution waiting → wf_contribution incoming →
  ct_tokenID waiting ≠ ct_tokenID incoming →
  validateTokenIDsByPoolPairID [ct_tokenID waiting; ct_tokenID incoming] id = Ok tt →
  ∃ c0 c1, getContributionsByOrder p waiting incoming = (c0, c1) ∧
    ct_tokenID c0 = pp_token0ID (ps_state p) ∧ ct_tokenID c1 = pp_token1ID (ps_state p) ∧
    (c0 = waiting ∧ c1 = incoming ∨ c0 = incoming ∧ c1 = waiting).
Proof.
  intros Hp [tx ->] Hw Hi Hne Hval. destruct (wst_tokens _ Hp) as (H0 & H1 & Hd).
  apply poolPairKey_accepts in Hval; [|done|done|repeat constructor; apply Hw || apply Hi].
  rewrite Forall_cons, Forall_singleton in Hval. destruct Hval as [Vw Vi].
  unfold getContributionsByOrder. case_bool_decide as E; eexists _, _; (split; [done|]).
  - split; [done|]. split; [|by left]. destruct Vi; congruence.
  - destruct Vw as [|Vw]; [done|]. destruct Vi as [Vi|Vi]; [|congruence]. split_and!; try done. by right.
Qed.

(** What a liquidity request does to the pools besides moving reserves: an existing pool
    keeps its accounts and owes its providers no more than before, a new pool owes nothing. *)
Definition new_pool (p : PoolPairState) : Prop :=
  ps_protocolFees p = ∅ ∧ ps_stakingPoolFees p = ∅ ∧ ps_orderbook p = mkOrderbook [] ∧
  ps_orderRewards p = ∅ ∧ ps_makingVolume p = ∅ ∧ locks_wf p ∧ ∀ tok, liability p tok ≤ 0.

Inductive pool_changed (pools : PoolPairs) : PoolPairs → Prop :=
  | pool_reshared id p p' :
      pools !! id = Some p → same_pool p p' → same_books p p' → (∀ tok, liability p' tok ≤ liability p tok) →
      pool_changed pools (<[id := p']> pools)
  | pool_created id p' :
      pools !! id = None → new_pool p' → pool_changed pools (<[id := p']> pools).

Lemma contributeToPool_conserves params bh ph id h p waiting incoming pools :
  wf_pools pools → pools !! id = Some p → wf_hash h →
  wf_contribution waiting → wf_contribution incoming → ct_tokenID waiting ≠ ct_tokenID incoming →
  validateTokenIDsByPoolPairID [ct_tokenID waiting; ct_tokenID incoming] id = Ok tt →
  ∃ insts pools', contributeToPool params bh ph id h p waiting incoming pools = Ok (insts, pools') ∧
    wf_pools pools' ∧ rtc pool_changed pools pools' ∧ Forall plain insts ∧
    ∀ tok, poolsHoldings tok pools' + payouts tok insts =
      poolsHoldings tok pools + contributed tok waiting + contributed tok incoming.
Proof.
  intros Hw Hid Hh Hcw Hci Hne Hval. destruct (Hw _ _ Hid) as [Hp Hk].
  destruct (contributions_by_order id p waiting incoming Hp Hk Hcw Hci Hne Hval)
    as (c0 & c1 & Hord & T0 & T1 & Hc).
  unfold contributeToPool. rewrite Hord.
  set (refund := BuildRefundAddLiquidityInstructions _ _).
  assert (Hsum : ∀ tok, contributed tok c0 + contributed tok c1 =
    contributed tok waiting + contributed tok incoming) by (intros; destruct Hc as [[-> ->]|[-> ->]]; lia).
  assert (Href : ∃ insts pools', Ok (refund, pools) = Ok (insts, pools') ∧ wf_pools pools' ∧
    rtc pool_changed pools pools' ∧ Forall plain insts ∧ ∀ tok, poolsHoldings tok pools' + payouts tok insts =
      poolsHoldings tok pools + contributed tok waiting + contributed tok incoming).
  { exists refund, pools. do 2 (split; [done|]). split; [constructor|].
    split; [apply refund_plain; destruct Hc as [[-> ->]|[-> ->]]; done|]. intros tok. unfold refund.
    rewrite refund_payouts. cbn. specialize (Hsum tok). lia. }
  destruct (isEmpty p) eqn:Hem; [unfold computeActualContributedAmounts; by rewrite Hem|].
  assert (H0 : in_u64 (ct_amount c0)) by (destruct Hc as [[-> ->]|[-> ->]]; by apply wc_amount).
  assert (H1 : in_u64 (ct_amount c1)) by (destruct Hc as [[-> ->]|[-> ->]]; by apply wc_amount).
  destruct (computeActual_spec p c0 c1 (wst_pair _ Hp) Hem H0 H1)
    as (a0 & b0 & a1 & b1 & -> & S0 & S1 & P0 & Q0 & P1 & Q1 & _).
  destruct ((a0 =? 0) || (a1 =? 0)); [done|]. set (blocks := match _ !! id with Some _ => _ | _ => _ end).
  assert (U0 : in_u64 a0) by (unfold in_u64 in *; lia).
  assert (U1 : in_u64 a1) by (unfold in_u64 in *; lia). rewrite T0, T1.
  pose proof (contribute_returns p a0 a1 h bh blocks Hp Hem U0 U1) as Hret.
  destruct (contribute _ _ _ _ _ _ _ p) as [[s| | |] p'] eqn:Hrun; unfold runM; rewrite Hrun; try done.
  destruct (contribute_spec _ _ _ _ _ _ _ _ Hp Hem Hh U0 U1 Hrun)
    as (Hp' & _ & Hli & _ & _ & R0 & R1 & _ & _ & _ & Hsame & Hbk).
  eexists _, _. split; [done|]. split.
  { apply wf_pools_insert; [done..|]. by eapply same_pool_keyed. }
  split; [by eapply rtc_once, pool_reshared|]. split; [solve_plain|].
  intros tok. rewrite poolsHoldings_insert, Hid. cbn [from_option].
  rewrite (poolHoldings_moved tok p p' a0 a1) by done.
  specialize (Hsum tok). unfold contributed in *. unfold payouts, list_sum. cbn.
  rewrite T0, T1 in *. repeat case_decide; lia.
Qed.

Lemma ltb_total a b : a ≠ b → String.ltb a b = false → String.ltb b a = true.
Proof.
  unfold String.ltb. intros Hne. rewrite (String.compare_antisym a b).
  destruct (String.compare b a) eqn:E; [|done..]. by apply String.compare_eq_iff in E.
Qed.

Lemma initPoolPairState_wf w i :
  wf_contribution w → wf_contribution i → ct_tokenID w ≠ ct_tokenID i →
  let p := initPoolPairState w i in
  wf_state p ∧ (∀ tok, poolHoldings tok p = contributed tok w + contributed tok i) ∧
  (pp_token0ID (ps_state p) = ct_tokenID w ∧ pp_token1ID (ps_state p) = ct_tokenID i ∨
   pp_token0ID (ps_state p) = ct_tokenID i ∧ pp_token1ID (ps_state p) = ct_tokenID w).
Proof.
  intros Hw Hi Hne p.
  assert (Hcore : ∃ c0 c1 v0 v1, p = mkPoolPairState ∅ (mkPoolPair 0 0 (ct_tokenID c0) (ct_tokenID c1)
      (ct_amount c0) (ct_amount c1) v0 v1 (ct_amplifier c0)) ∅ ∅ (mkOrderbook []) ∅ ∅ ∅ ∅ ∅ ∧
    ct_amount c0 ≤ v0 ∧ ct_amount c1 ≤ v1 ∧ wf_contribution c0 ∧ wf_contribution c1 ∧
    String.ltb (Hash_String (ct_tokenID c0)) (Hash_String (ct_tokenID c1)) = true ∧
    (c0 = w ∧ c1 = i ∨ c0 = i ∧ c1 = w)).
  { unfold p, initPoolPairState.
    destruct (String.ltb (Hash_String (ct_tokenID i)) (Hash_String (ct_tokenID w))) eqn:E.
    - pose proof (calculateVirtualAmount_ge (ct_amount i) (ct_amount w) (ct_amplifier i)
        (proj1 (wc_amount _ Hi)) (proj1 (wc_amount _ Hw)) (wc_amplifier _ Hi)) as Hv.
      destruct (calculateVirtualAmount _ _ _) as [v0 v1]. exists i, w, v0, v1. naive_solver.
    - pose proof (calculateVirtualAmount_ge (ct_amount w) (ct_amount i) (ct_amplifier w)
        (proj1 (wc_amount _ Hw)) (proj1 (wc_amount _ Hi)) (wc_amplifier _ Hw)) as Hv.
      destruct (calculateVirtualAmount _ _ _) as [v0 v1]. exists w, i, v0, v1.
      split; [done|]. split_and!; try naive_solver. apply ltb_total; [|done].
      intros Heq. apply Hne, Hash_String_inj; [apply Hw|apply Hi|done]. }
  destruct Hcore as (c0 & c1 & v0 & v1 & -> & Hv0 & Hv1 & H0 & H1 & Hlt & Hc).
  assert (Hne' : ct_tokenID c0 ≠ ct_tokenID c1) by (destruct Hc as [[-> ->]|[-> ->]]; congruence).
  split; [|split].
  - destruct H0, H1. split; cbn; [by split|done|done|done|].
    split; cbn; try done; try (by apply map_sum_empty).
    intros nft [s Hs]. by rewrite lookup_empty in Hs.
  - intros tok. unfold poolHoldings, contributed, list_sum. cbn.
    destruct Hc as [[-> ->]|[-> ->]]; repeat case_decide; lia.
  - cbn. destruct Hc as [[-> ->]|[-> ->]]; [by left|by right].
Qed.

Lemma initPoolPairState_new w i : new_pool (initPoolPairState w i).
Proof.
  unfold initPoolPairState.
  by destruct (String.ltb _ _); destruct (calculateVirtualAmount _ _ _); split_and!.
Qed.

Lemma createPool_conserves bh id h ws is_ pools tx :
  let w := cs_value ws in let i := cs_value is_ in
  wf_pools pools → pools !! id = None → wf_hash h →
  wf_contribution w → wf_contribution i → ct_tokenID w ≠ ct_tokenID i →
  id = generatePoolPairKey (Hash_String (ct_tokenID w)) (Hash_String (ct_tokenID i)) (Hash_String tx) →
  ∃ insts pools', createPool bh id h ws is_ pools = Ok (insts, pools') ∧
    wf_pools pools' ∧ rtc pool_changed pools pools' ∧ Forall plain insts ∧
    ∀ tok, poolsHoldings tok pools' + payouts tok insts =
      poolsHoldings tok pools + contributed tok w + contributed tok i.
Proof.
  intros w i Hpools Hid Hh Hw Hi Hne Hkey.
  destruct (initPoolPairState_wf w i Hw Hi Hne) as (Hp & Hhold & Htok).
  unfold createPool. fold w i. set (p := initPoolPairState w i) in *.
  destruct (wc_amount _ Hw), (wc_amount _ Hi). rewrite bigSqrt_nonneg by nia.
  cbn [mbind outcome_bind]. set (amt := bigUint64 _).
  assert (Hamt : in_u64 amt) by apply u64_bound.
  unfold runM, addShare. pose proof (updateShareValue_returns amt (Hash_String h) addOperator bh 0 p) as Hret.
  destruct (updateShareValue amt (Hash_String h) addOperator bh 0 p) as [[[]| | |] p'] eqn:Hrun; try done.
  - apply updateShareValue_reshared in Hrun; [|by apply wst_ledger|done|done|by left].
    cbv zeta in Hrun. change (addOperator =? addOperator) with true in Hrun. cbv iota in Hrun.
    destruct Hrun as (Hre & Hu & Hl).
    destruct (reshared_wf _ _ _ _ _ _ Hp Hh Hre Hu Hl) as [Hp' Hli].
    destruct Hre as (fees & _ & _ & Hst & (_ & _ & Ep & Es & Hob & Eo & Em & Hlk)).
    assert (Hsame : same_pool p p') by (unfold same_pool; by rewrite Hst, Hob).
    assert (Hnew : new_pool p').
    { destruct (initPoolPairState_new w i) as (E1 & E2 & E3 & E4 & E5 & E6 & E7). fold p in E1, E2, E3, E4, E5, E6, E7.
      split_and!; try congruence; [by apply Hlk|]. intros tok. specialize (Hli tok). specialize (E7 tok). lia. }
    eexists _, _. split; [done|]. split; [|split; [by eapply rtc_once, pool_created|split; [solve_plain|]]].
    + apply wf_pools_insert; [done..|]. apply (same_pool_keyed _ p); [done|]. exists tx. rewrite Hkey.
      destruct Htok as [[-> ->]|[-> ->]]; [done|apply poolPairKey_comm].
    + intros tok. rewrite poolsHoldings_insert, Hid. cbn [from_option].
      rewrite (poolHoldings_moved tok p p' 0 0) by (rewrite ?Hst; cbn; lia || done).
      rewrite Hhold. unfold payouts, list_sum. cbn. repeat case_decide; lia.
  - eexists _, _. do 2 (split; [done|]). split; [constructor|]. split; [by apply refund_plain|].
    intros tok. rewrite refund_payouts. fold w i. lia.
Qed.

Lemma matchContributions_conserves params bh md h w i pools :
  wf_pools pools → wf_hash h → al_nftID md = Hash_String h →
  wf_contribution w → wf_contribution i → al_tokenID md = Hash_String (ct_tokenID i) →
  ∃ insts pools', matchContributions params bh md w i pools = Ok (insts, pools') ∧
    wf_pools pools' ∧ rtc pool_changed pools pools' ∧ Forall plain insts ∧
    ∀ tok, poolsHoldings tok pools' + payouts tok insts =
      poolsHoldings tok pools + contributed tok w + contributed tok i.
Proof.
  intros Hp Hh Hnft Hw Hi Htok. unfold matchContributions.
  set (refund := BuildRefundAddLiquidityInstructions _ _).
  assert (Href : ∃ insts pools', Ok (refund, pools) = Ok (insts, pools') ∧ wf_pools pools' ∧
    rtc pool_changed pools pools' ∧ Forall plain insts ∧ ∀ tok, poolsHoldings tok pools' + payouts tok insts =
      poolsHoldings tok pools + contributed tok w + contributed tok i).
  { exists refund, pools. do 2 (split; [done|]). split; [constructor|]. split; [by apply refund_plain|].
    intros tok. unfold refund. rewrite refund_payouts. cbn. lia. }
  destruct (String.eqb (Hash_String (ct_tokenID w)) (Hash_String (ct_tokenID i))) eqn:E1; [done|].
  assert (Hne : ct_tokenID w ≠ ct_tokenID i) by (intros E; rewrite E, String.eqb_refl in E1; done).
  destruct (_ || _); [done|]. rewrite Hnft, NewHashFromStr_String by done. cbn [mbind outcome_bind].
  rewrite Htok. set (id := if String.eqb (ct_poolPairID w) "" then _ else _).
  destruct (pools !! id) as [p|] eqn:Hid.
  - destruct (validateTokenIDsByPoolPairID _ id) as [[]| | |] eqn:Hval; [|done..].
    by apply contributeToPool_conserves.
  - destruct (String.eqb (ct_poolPairID w) "") eqn:Eid; [|done]. unfold id in *.
    by eapply (createPool_conserves _ _ _ (mkContributionState w _) (mkContributionState i _)).
Qed.

(** What a request brings. *)
Definition requested (tok : Hash) (tx : Tx AddLiquidityRequest) : Z :=
  match NewHashFromStr (al_tokenID (tx_Metadata tx)) with
  | Ok h => if decide (h = tok) then al_tokenAmount (tx_Metadata tx) else 0
  | _ => 0
  end.

Lemma addLiquidityTx_conserves nftIDs params bh tx pools waiting :
  wf_pools pools → wf_waiting waiting → wf_request (tx_Metadata tx) →
  ∃ insts pools' waiting', addLiquidityTx nftIDs params bh tx pools waiting =
      Ok (insts, pools', waiting') ∧ wf_pools pools' ∧ wf_waiting waiting' ∧
    rtc pool_changed pools pools' ∧ Forall plain insts ∧
    ∀ tok, poolsHoldings tok pools' + waitingHoldings tok waiting' + payouts tok insts =
      poolsHoldings tok pools + waitingHoldings tok waiting + requested tok tx.
Proof.
  intros Hp Hw [(t & Ht & Etok) (h & Hh & Enft) Hamt Hamp]. unfold addLiquidityTx.
  set (md := tx_Metadata tx) in *. unfold NewContributionWithMetaData, derefHash.
  rewrite Etok, Enft, !NewHashFromStr_String by done. cbn [mbind outcome_bind].
  assert (Hnft : (if String.eqb (Hash_String h) "" then Ok emptyHash else Ok h) = Ok h).
  { destruct (String.eqb (Hash_String h) "") eqn:E; [|done]. apply String.eqb_eq in E.
    pose proof (NewHashFromStr_String h Hh) as Hr. rewrite E in Hr. vm_compute in Hr. 
    injection Hr as <-. by vm_compute in E. }
  rewrite Hnft. cbn [mbind outcome_bind]. set (c := mkContribution _ _ t _ _ _ _ _).
  assert (Hc : wf_contribution c) by by split.
  assert (Hreq : ∀ tok, requested tok tx = contributed tok c).
  { intros tok. unfold requested. fold md. by rewrite Etok, NewHashFromStr_String. }
  destruct (_ || _).
  { eexists _, _, _. do 3 (split; [done|]). split; [constructor|].
    split; [destruct (wc_amount _ Hc); solve_plain|]. intros tok. rewrite Hreq.
    unfold payouts, list_sum, contributed. cbn. lia. }
  destruct (waiting !! al_pairHash md) as [w|] eqn:Ew.
  - destruct (matchContributions_conserves params bh md h w c pools) as (insts & pools' & -> & Hp' & Hch & Hpl & Hs);
      [done|done|done|by eapply Hw|done|done|].
    cbn [mbind outcome_bind]. eexists _, _, _. split; [done|]. split; [done|]. split; [|split; [done|split; [done|]]].
    + intros k x [_ Hx]%lookup_delete_Some. by eapply Hw.
    + intros tok. cbn. unfold waitingHoldings. rewrite map_sum_delete, Ew, Hreq. cbn [from_option].
      specialize (Hs tok). lia.
  - eexists _, _, _. split; [done|]. split; [done|]. split; [|split; [constructor|split; [solve_plain|]]].
    + intros k x. rewrite lookup_insert. case_decide; [by intros [= <-]|apply Hw].
    + intros tok. unfold waitingHoldings. rewrite map_sum_insert_new by done. rewrite Hreq.
      unfold payouts, list_sum. cbn. lia.
Qed.

Lemma addLiquidity_spec nftIDs params bh txs pools waiting :
  wf_pools pools → wf_waiting waiting → Forall (λ tx, wf_request (tx_Metadata tx)) txs →
  ∃ insts pools' waiting', addLiquidity nftIDs params bh txs pools waiting =
      Ok (insts, pools', waiting') ∧ wf_pools pools' ∧ wf_waiting waiting' ∧
    rtc pool_changed pools pools' ∧ Forall plain insts ∧
    ∀ tok, poolsHoldings tok pools' + waitingHoldings tok waiting' + payouts tok insts =
      poolsHoldings tok pools + waitingHoldings tok waiting + list_sum (requested tok) txs.
Proof.
  intros Hp Hw Hreq.
  revert pools waiting Hp Hw. induction Hreq as [|tx txs Htx _ IH]; intros pools waiting Hp Hw.
  - eexists _, _, _. do 3 (split; [done|]). split; [constructor|]. split; [apply Forall_nil_2|].
    intros tok. unfold payouts, list_sum. cbn. lia.
  - cbn [addLiquidity].
    destruct (addLiquidityTx_conserves nftIDs params bh tx pools waiting Hp Hw Htx)
      as (i1 & p1 & w1 & -> & Hp1 & Hw1 & Hc1 & L1 & H1). cbn [mbind outcome_bind].
    destruct (IH p1 w1 Hp1 Hw1) as (i2 & p2 & w2 & -> & Hp2 & Hw2 & Hc2 & L2 & H2). cbn [mbind outcome_bind].
    eexists _, _, _. do 3 (split; [done|]). split; [by etransitivity|]. split; [by apply Forall_app|]. intros tok.
    rewrite payouts_app, list_sum_cons. specialize (H1 tok). specialize (H2 tok). lia.
Qed.

(** C33: adding liquidity conserves tokens.  On a well-formed exchange a block of valid
    add-liquidity requests is always processed (no error, no panic), the pools and the
    waiting contributions stay well formed, and for every token what the pools hold plus
    what waits plus what is refunded or returned equals what was held before plus what the
    requests brought. *)
Theorem addLiquidity_conserves nftIDs params bh txs pools waiting
    (Hp : wf_pools pools) (Hw : wf_waiting waiting)
    (Hreq : Forall (λ tx, wf_request (tx_Metadata tx)) txs) :
  ∃ insts pools' waiting', addLiquidity nftIDs params bh txs pools waiting =
      Ok (insts, pools', waiting') ∧ wf_pools pools' ∧ wf_waiting waiting' ∧
    ∀ tok, poolsHoldings tok pools' + waitingHoldings tok waiting' + payouts tok insts =
      poolsHoldings tok pools + waitingHoldings tok waiting + list_sum (requested tok) txs.
Proof.
  destruct (addLiquidity_spec nftIDs params bh txs pools waiting Hp Hw Hreq)
    as (insts & pools' & waiting' & ? & ? & ? & _ & _ & ?). by exists insts, pools', waiting'.
Qed.

Definition sample_pools : PoolPairs :=
  {[generatePoolPairKey (Hash_String emptyHash) (Hash_String PRVCoinID) (Hash_String emptyHash) :=
      sample_state]}.

Lemma sample_pools_wf : wf_pools sample_pools.
Proof.
  intros id p Hid. unfold sample_pools in Hid. apply lookup_singleton_Some in Hid as [<- <-].
  split; [apply sample_state_wf|by exists emptyHash].
Qed.

Definition sample_nfts : gmap string Z := {[Hash_String sample_nft := 1]}.

Definition sample_add (pool : string) (tok : Hash) (amount : Z) : Tx AddLiquidityRequest :=
  mkTx emptyHash 0 false (mkAddLiquidityRequest pool "pair" "ota" (Hash_String tok)
    (Hash_String sample_nft) amount 20000).

Definition sample_adds : list (Tx AddLiquidityRequest) :=
  let id := generatePoolPairKey (Hash_String emptyHash) (Hash_String PRVCoinID)
              (Hash_String emptyHash) in
  [sample_add id PRVCoinID 900; sample_add id emptyHash 1000; sample_add "" PRVCoinID 5].

(** The three requests: the first waits, the second completes it, the third waits. *)
Lemma addLiquidity_conserves_witness :
  ∃ insts pools' waiting', addLiquidity sample_nfts sample_params 7 sample_adds sample_pools ∅ =
      Ok (insts, pools', waiting') ∧ length insts = 4%nat ∧
    poolsHoldings PRVCoinID pools' + waitingHoldings PRVCoinID waiting' + payouts PRVCoinID insts =
      20000 + 900 + 5.
Proof.
  destruct (addLiquidity_conserves sample_nfts sample_params 7 sample_adds sample_pools ∅)
    as (insts & pools' & waiting' & Hrun & _ & _ & Hs).
  - exact sample_pools_wf.
  - intros k c Hc. rewrite lookup_empty in Hc. discriminate Hc.
  - assert (Hw : ∀ pool tok amount, wf_hash tok → in_u64 amount →
      wf_request (tx_Metadata (sample_add pool tok amount))).
    { intros pool tok amount Ht Ha. split; cbn [sample_add tx_Metadata al_tokenID al_nftID
        al_tokenAmount al_amplifier]; [by exists tok|exists sample_nft; split; reflexivity|
        done|unfold BaseAmplifier; lia]. }
    repeat constructor; apply Hw; first [reflexivity|unfold in_u64, word64; lia].
  - exists insts, pools', waiting'. split; [exact Hrun|]. split.
    + assert (Hlen : match addLiquidity sample_nfts sample_params 7 sample_adds sample_pools ∅ with
        | Ok (i, _, _) => length i | _ => O end = 4%nat) by (vm_compute; reflexivity).
      rewrite Hrun in Hlen. exact Hlen.
    + rewrite Hs. vm_compute. reflexivity.
Defined.

(** ** Withdrawing conserves *)
Record wf_withdraw (md : WithdrawLiquidityRequest) : Prop := {
  ww_nft : ∃ h, wf_hash h ∧ wl_nftID md = Hash_String h;
  ww_amount : in_u64 (wl_shareAmount md) }.

Lemma withdrawLiquidityTx_conserves nftIDs tx pools :
  wf_pools pools → wf_withdraw (tx_Metadata tx) →
  ∃ insts pools', withdrawLiquidityTx nftIDs tx pools = Ok (insts, pools') ∧ wf_pools pools' ∧
    rtc pool_changed pools pools' ∧ Forall plain insts ∧
    ∀ tok, poolsHoldings tok pools' + payouts tok insts = poolsHoldings tok pools.
Proof.
  intros Hp [(h & Hh & Enft) Hamt]. unfold withdrawLiquidityTx. set (md := tx_Metadata tx) in *.
  unfold BuildRejectWithdrawLiquidityInstructions, derefHash, BuildAcceptWithdrawLiquidityInstructions.
  rewrite !Enft, !NewHashFromStr_String by done. cbn [mbind outcome_bind].
  set (rejected := Ok (_, pools)).
  assert (Hrej : ∃ insts pools', rejected = Ok (insts, pools') ∧ wf_pools pools' ∧
    rtc pool_changed pools pools' ∧ Forall plain insts ∧
    ∀ tok, poolsHoldings tok pools' + payouts tok insts = poolsHoldings tok pools).
  { eexists _, _. do 2 (split; [done|]). split; [constructor|]. split; [solve_plain|].
    intros tok. unfold payouts, list_sum. cbn. lia. }
  destruct (_ || _); [done|]. destruct (pools !! wl_poolPairID md) as [p|] eqn:Hid; [|done].
  destruct (Hp _ _ Hid) as [Hw Hk]. destruct (isEmpty p); [done|].
  destruct (ps_shares p !! Hash_String h) as [share|] eqn:Hsh; [|done]. destruct (_ || _); [done|].
  pose proof (deductShare_returns p h _ share Hw Hh Hamt Hsh) as Hret. unfold runM.
  destruct (deductShare (Hash_String h) (wl_shareAmount md) p) as [[[[t0 t1] s]|e| |] p'] eqn:Hrun; try done.
  destruct (deductShare_spec p p' h _ t0 t1 s Hw Hh Hamt Hrun)
    as (Hw' & Hli & _ & _ & _ & _ & _ & P0 & P1 & R0 & R1 & _ & _ & Hsame & Hbk).
  cbv zeta. destruct (String.eqb (receiverOf _ _) ""); [done|].
  destruct (String.eqb (receiverOf _ _) ""); [done|]. eexists _, _. split; [done|]. split.
  { apply wf_pools_insert; [done..|]. by eapply same_pool_keyed. }
  split; [by eapply rtc_once, pool_reshared|]. split; [solve_plain|].
  intros tok. rewrite poolsHoldings_insert, Hid. cbn [from_option].
  rewrite (poolHoldings_moved tok p p' (- t0) (- t1)) by (done || lia).
  destruct Hsame as (-> & -> & _). unfold payouts, list_sum. cbn. repeat case_decide; lia.
Qed.

Lemma withdrawLiquidity_spec nftIDs txs pools :
  wf_pools pools → Forall (λ tx, wf_withdraw (tx_Metadata tx)) txs →
  ∃ insts pools', withdrawLiquidity nftIDs txs pools = Ok (insts, pools') ∧ wf_pools pools' ∧
    rtc pool_changed pools pools' ∧ Forall plain insts ∧
    ∀ tok, poolsHoldings tok pools' + payouts tok insts = poolsHoldings tok pools.
Proof.
  intros Hp Hreq.
  revert pools Hp. induction Hreq as [|tx txs Htx _ IH]; intros pools Hp.
  - eexists _, _. do 2 (split; [done|]). split; [constructor|]. split; [apply Forall_nil_2|].
    intros tok. unfold payouts, list_sum. cbn. lia.
  - cbn [withdrawLiquidity].
    destruct (withdrawLiquidityTx_conserves nftIDs tx pools Hp Htx) as (i1 & p1 & -> & Hp1 & Hc1 & L1 & H1).
    cbn [mbind outcome_bind]. destruct (IH p1 Hp1) as (i2 & p2 & -> & Hp2 & Hc2 & L2 & H2).
    cbn [mbind outcome_bind]. eexists _, _. do 2 (split; [done|]).
    split; [by etransitivity|]. split; [by apply Forall_app|]. intros tok.
    rewrite payouts_app. specialize (H1 tok). specialize (H2 tok). lia.
Qed.

(** C34: withdrawing liquidity conserves tokens.  On a well-formed exchange a block of valid
    withdrawal requests is always processed, the pools stay well formed, and for every token
    what the pools hold afterwards plus what the instructions pay out is what they held
    before: nothing is created, and a rejected request pays nothing. *)
Theorem withdrawLiquidity_conserves nftIDs txs pools (Hp : wf_pools pools)
    (Hreq : Forall (λ tx, wf_withdraw (tx_Metadata tx)) txs) :
  ∃ insts pools', withdrawLiquidity nftIDs txs pools = Ok (insts, pools') ∧ wf_pools pools' ∧
    ∀ tok, poolsHoldings tok pools' + payouts tok insts = poolsHoldings tok pools.
Proof.
  destruct (withdrawLiquidity_spec nftIDs txs pools Hp Hreq) as (insts & pools' & ? & ? & _ & _ & ?).
  by exists insts, pools'.
Qed.

Definition sample_withdraw (amount : Z) : Tx WithdrawLiquidityRequest :=
  mkTx emptyHash 0 false (mkWithdrawLiquidityRequest
    (generatePoolPairKey (Hash_String emptyHash) (Hash_String PRVCoinID) (Hash_String emptyHash))
    (Hash_String sample_nft)
    {[Hash_String emptyHash := "a"%string; Hash_String PRVCoinID := "b"%string]} amount).

(** A withdrawal of three tenths of the pool, then one of nothing. *)
Lemma withdrawLiquidity_conserves_witness :
  ∃ insts pools', withdrawLiquidity sample_nfts [sample_withdraw 300; sample_withdraw 0] sample_pools =
      Ok (insts, pools') ∧ payouts PRVCoinID insts = 6000 ∧
    poolsHoldings PRVCoinID pools' + payouts PRVCoinID insts = 20000.
Proof.
  destruct (withdrawLiquidity_conserves sample_nfts [sample_withdraw 300; sample_withdraw 0] sample_pools)
    as (insts & pools' & Hrun & _ & Hs).
  - exact sample_pools_wf.
  - repeat constructor; try (exists sample_nft; split; reflexivity);
      unfold sample_withdraw, in_u64, word64; cbn; lia.
  - exists insts, pools'. split; [exact Hrun|]. split.
    + assert (Hpay : match withdrawLiquidity sample_nfts [sample_withdraw 300; sample_withdraw 0]
        sample_pools with Ok (i, _) => payouts PRVCoinID i | _ => 0 end = 6000)
        by (vm_compute; reflexivity).
      rewrite Hrun in Hpay. exact Hpay.
    + rewrite Hs. vm_compute. reflexivity.
Defined.

(** A request may spell its token in another way than the printed form of its hash.  The
    pool is then created under a key with that spelling, which does not name its token, and
    every later contribution of that token to the pool is refused. *)
Theorem noncanonical_pool_key :
  let add tok amount := mkTx emptyHash 0 false (mkAddLiquidityRequest "" "pair" "ota" tok
    (Hash_String sample_nft) amount 20000) in
  match addLiquidity sample_nfts sample_params 7 [add (Hash_String emptyHash) 1000; add "4"%string 900] ∅ ∅ with
  | Ok (_, pools, _) =>
      ∃ id p, map_to_list pools = [(id, p)] ∧ pp_token1ID (ps_state p) = PRVCoinID ∧
        validateTokenIDsByPoolPairID [pp_token1ID (ps_state p)] id ≠ Ok tt
  | _ => False
  end.
Proof.
  intros add. assert (H : match addLiquidity sample_nfts sample_params 7
      [add (Hash_String emptyHash) 1000; add "4"%string 900] ∅ ∅ with
    | Ok (_, pools, _) =>
        match map_to_list pools with
        | [(id, p)] => bool_decide (pp_token1ID (ps_state p) = PRVCoinID) &&
            match validateTokenIDsByPoolPairID [pp_token1ID (ps_state p)] id with Ok _ => false | _ => true end
        | _ => false
        end
    | _ => false
    end = true) by (vm_compute; reflexivity).
  destruct (addLiquidity _ _ _ _ _ _) as [[[i pools] w]| | |]; try discriminate H.
  destruct (map_to_list pools) as [|[id p] [|]]; try discriminate H.
  apply andb_prop in H as [H1 H2]. apply bool_decide_eq_true in H1. exists id, p. split; [done|].
  split; [done|]. intros E. rewrite E in H2. discriminate H2.
Qed.
