(* ===== verification/TradeProducer.v ===== *)
(** Trade requests of a block ([trade] of [blockchain/pdex/state_producer_v2.go], with
    [TradePathFromState], [addOrderReward] and [addMakingVolume] of
    [blockchain/pdex/utils.go]). *)
From S2P Require Import Prelude Hash RawDB Swap Order Reserve OrderBook Trade Reward TrackFee PdexUtils PoolPair Params WeightedFee Instructions LiquidityProducer.

Local Open Scope Z_scope.

(** ** The path of a trade

    The pools of the path (cloned by the source, so that a rejected trade leaves the state
    alone), the direction of the trade in each, and the token bought in the last one. *)
Fixpoint tradePathLoop (tradePathDupMap : gset string) (nextTokenToSell : Hash)
    (tradePath : list string) (pairs : PoolPairs) : outcome (list PoolPairState * list Z * Hash) :=
  match tradePath with
  | [] => Ok ([], [], nextTokenToSell)
  | pairID :: tradePath =>
      if decide (pairID ∈ tradePathDupMap) then Err "Path contains duplicate pool"
      else match pairs !! pairID with
      | None => Err "Path contains nonexistent pair"
      | Some pair_ =>
          let dups := {[pairID]} ∪ tradePathDupMap in
          let s := ps_state pair_ in
          if bool_decide (nextTokenToSell = pp_token0ID s) then
            r ← tradePathLoop dups (pp_token1ID s) tradePath pairs;
            let '(pools, directions, tokenToBuy) := r in
            Ok (pair_ :: pools, TradeDirectionSell0 :: directions, tokenToBuy)
          else if bool_decide (nextTokenToSell = pp_token1ID s) then
            r ← tradePathLoop dups (pp_token0ID s) tradePath pairs;
            let '(pools, directions, tokenToBuy) := r in
            Ok (pair_ :: pools, TradeDirectionSell1 :: directions, tokenToBuy)
          else Err "Incompatible selling token"
      end
  end.

Definition TradePathFromState (sellToken : Hash) (tradePath : list string) (pairs : PoolPairs)
    : outcome (list PoolPairState * list Z * Hash) := tradePathLoop ∅ sellToken tradePath pairs.

(** ** Crediting order makers *)
Definition addOrderReward (base : gmap string OrderReward) (additional : gmap string (gmap Hash Z))
    : gmap string OrderReward :=
  map_fold (λ nftID reward base,
    map_fold (λ tokenID amt base,
      <[nftID := OrderReward_AddReward tokenID amt (default NewOrderReward (base !! nftID))]> base)
      base reward) base additional.

Definition addMakingVolume (base : gmap Hash MakingVolume) (additional : gmap Hash (gmap string Z))
    : gmap Hash MakingVolume :=
  map_fold (λ tokenID volume base,
    map_fold (λ nftID amt base,
      <[tokenID := MakingVolume_AddVolume nftID amt (default NewMakingVolume (base !! tokenID))]> base)
      base volume) base additional.

(** ** The order of execution

    [sort.SliceStable] by the ratio of fee and amount, largest first, ratios compared by
    cross products; for up to 20 requests the library runs exactly this insertion sort, and
    a stable sort has one result when the comparison is a total preorder. *)
Definition payBetter (fees sellAmounts : gmap string Z) (a b : Tx TradeRequest) : bool :=
  default 0 (fees !! tx_id b) * default 0 (sellAmounts !! tx_id a) <?
  default 0 (fees !! tx_id a) * default 0 (sellAmounts !! tx_id b).

(** Insert behind the sorted prefix, given in reverse. *)
Fixpoint insertStable {A} (less : A → A → bool) (x : A) (prefix : list A) : list A :=
  match prefix with
  | y :: rest => if less x y then y :: insertStable less x rest else x :: prefix
  | [] => [x]
  end.

Definition SliceStable {A} (less : A → A → bool) (l : list A) : list A :=
  reverse (foldl (λ prefix x, insertStable less x prefix) [] l).

(** ** One request *)
Definition poolFeeOf (params : Params) (pairID : string) : Z :=
  default (DefaultFeeRateBPS params) (FeeRateBPS params !! pairID).

Definition pathFeeRate (params : Params) (tradePath : list string) : Z :=
  foldl (λ feeRateBPS pairID, add64 feeRateBPS (poolFeeOf params pairID)) 0 tradePath.

(** Enough iterations for any of the books: one per order and a last one. *)
Definition bookFuel (books : list Orderbook) : nat := S (list_max (length ∘ orders <$> books)).

(** The state changes of one pool of the path. *)
Definition changedPool (params : Params) (pairID : string) (p : PoolPairState)
    (fr : FeeResult Orderbook) : PoolPairState :=
  mkPoolPairState
    (if bool_decide (is_Some (PDEXRewardPoolPairsShare params !! pairID)) &&
        (0 <? DAOContributingPercent params)
     then addMakingVolume (ps_makingVolume p) (fr_orderMakingChanges fr) else ps_makingVolume p)
    (fr_pair fr) (ps_shares p) (addOrderReward (ps_orderRewards p) (fr_orderRewardChanges fr))
    (fr_book fr) (fr_lpFeesPerShare fr) (ps_lmRewardsPerShare p) (fr_protocolFees fr)
    (fr_stakingPoolFees fr) (ps_lmLockedShare p).

Fixpoint applyTrade (params : Params) (tradePath : list string) (frs : list (FeeResult Orderbook))
    (pairs : PoolPairs) : outcome PoolPairs :=
  match tradePath, frs with
  | [], _ => Ok pairs
  | pairID :: tradePath, fr :: frs =>
      match pairs !! pairID with
      | Some p => applyTrade params tradePath frs (<[pairID := changedPool params pairID p fr]> pairs)
      | None => Panic
      end
  | _ :: _, [] => Panic
  end.

(** The trade itself: [Err] makes the handler refund the request. *)
Definition executeTrade (params : Params) (feeInPRV : bool) (md : TradeRequest) (pairs : PoolPairs)
    : outcome (AcceptedTrade * PoolPairs) :=
  path ← TradePathFromState (tr_TokenToSell md) (tr_TradePath md) pairs;
  let '(pools, tradeDirections, tokenToBuy) := path in
  match tr_Receiver md !! tokenToBuy with
  | None => Err "Error preparing trade path"
  | Some tradeOutputReceiver =>
      let books := ps_orderbook <$> pools in
      acc ← MaybeAcceptTrade (bookFuel books) (tr_SellAmount md) 0 (tr_TradePath md)
              tradeOutputReceiver (ps_state <$> pools) tradeDirections tokenToBuy
              (tr_MinAcceptableAmount md) books;
      let '(acceptedTradeMd, reserves, orderbookList) := acc in
      fee ← TrackFee (bookFuel orderbookList) (feeConfig params) (tr_TradingFee md) feeInPRV
              (tr_TokenToSell md) (tr_TradePath md) reserves (ps_lpFeesPerShare <$> pools)
              (ps_protocolFees <$> pools) (ps_stakingPoolFees <$> pools) tradeDirections
              orderbookList (poolFeeOf params <$> tr_TradePath md)
              (pathFeeRate params (tr_TradePath md)) acceptedTradeMd;
      let '(acceptedTradeMd, frs) := fee in
      pairs ← applyTrade params (tr_TradePath md) frs pairs;
      Ok (acceptedTradeMd, pairs)
  end.

Definition tradeTx (params : Params) (w : Weighted) (tx : Tx TradeRequest) (pairs : PoolPairs)
    : outcome (list Instruction * PoolPairs) :=
  let currentTrade := tx_Metadata tx in
  let feeInPRV := default false (wg_feeInPRV w !! tx_id tx) in
  refundInstructions ← getRefundedTradeInstructions currentTrade feeInPRV (tx_Hash tx) (tx_ShardID tx);
  let refund := Ok (refundInstructions, pairs) in
  match tr_TradePath currentTrade with
  | [] => refund
  | _ =>
      let feeRateBPS := pathFeeRate params (tr_TradePath currentTrade) in
      if default 0 (wg_fees w !! tx_id tx) * BPS <?
         default 0 (wg_sellAmounts w !! tx_id tx) * feeRateBPS
      then refund
      else match executeTrade params feeInPRV currentTrade pairs with
      | Ok (acceptedTradeMd, pairs) =>
          Ok ([AcceptedTradeInst acceptedTradeMd (tx_Hash tx) (tx_ShardID tx)], pairs)
      | Err _ => refund
      | Panic => Panic
      | OutOfFuel => OutOfFuel
      end
  end.

Fixpoint tradeLoop (params : Params) (w : Weighted) (txs : list (Tx TradeRequest)) (pairs : PoolPairs)
    : outcome (list Instruction * PoolPairs) :=
  match txs with
  | [] => Ok ([], pairs)
  | tx :: txs =>
      r ← tradeTx params w tx pairs;
      let '(insts, pairs) := r in
      r ← tradeLoop params w txs pairs;
      let '(insts', pairs) := r in
      Ok (insts ++ insts', pairs)
  end.

(** Refunds of the requests whose fee could not be weighted. *)
Fixpoint refundLoop (w : Weighted) (txs : list (Tx TradeRequest)) : outcome (list Instruction) :=
  match txs with
  | [] => Ok []
  | tx :: txs =>
      insts ← getRefundedTradeInstructions (tx_Metadata tx)
                (default false (wg_feeInPRV w !! tx_id tx)) (tx_Hash tx) (tx_ShardID tx);
      insts' ← refundLoop w txs;
      Ok (insts ++ insts')
  end.

Definition trade (params : Params) (txs : list (Tx TradeRequest)) (pairs : PoolPairs)
    : outcome (list Instruction * PoolPairs) :=
  w ← getWeightedFee txs (ps_state <$> (map_to_list pairs).*2) params;
  let sorted := SliceStable (payBetter (wg_fees w) (wg_sellAmounts w)) (wg_txs w) in
  r ← tradeLoop params w sorted pairs;
  let '(insts, pairs) := r in
  refunds ← refundLoop w (wg_invalid w);
  Ok (insts ++ refunds, pairs).

(** ** Holdings along a path *)
Definition sellTok (d : Z) (s : Pdexv3PoolPair) : Hash :=
  if d =? TradeDirectionSell0 then pp_token0ID s else pp_token1ID s.
Definition buyTok (d : Z) (s : Pdexv3PoolPair) : Hash :=
  if d =? TradeDirectionSell0 then pp_token1ID s else pp_token0ID s.

(** [amount] if [t] is the token asked for. *)
Definition ofToken (tok t : Hash) (amount : Z) : Z := if decide (t = tok) then amount else 0.

Definition pairHoldings (tok : Hash) (s : Pdexv3PoolPair) (b : Orderbook) : Z :=
  ofToken tok (pp_token0ID s) (pp_token0RealAmount s + list_sum ord_token0Balance (orders b)) +
  ofToken tok (pp_token1ID s) (pp_token1RealAmount s + list_sum ord_token1Balance (orders b)).

Lemma poolHoldings_pair tok p : poolHoldings tok p = pairHoldings tok (ps_state p) (ps_orderbook p).
Proof. done. Qed.

Lemma book_sides d (b : Orderbook) :
  bookSell d b = (if d =? 0 then list_sum ord_token0Balance (orders b)
                  else list_sum ord_token1Balance (orders b)) ∧
  bookBuy d b = (if d =? 0 then list_sum ord_token1Balance (orders b)
                 else list_sum ord_token0Balance (orders b)).
Proof.
  cbn [bookSell bookBuy Orderbook_laws]. unfold sellBalance, buyBalance.
  by destruct (d =? 0).
Qed.

Lemma pool_done_holdings d sell p b s tok : dir_ok d → pool_done d sell p b s →
  pairHoldings tok (pt_pair s) (pt_book s) =
  pairHoldings tok p b + ofToken tok (sellTok d p) sell - ofToken tok (buyTok d p) (pt_totalBuyAmount s).
Proof.
  intros Hd [[_ _ (_ & _ & E0 & E1 & _) _ _ _ Hin Hout _ _ _] Hz].
  unfold pairHoldings, ofToken, sellTok, buyTok. rewrite <- E0, <- E1.
  rewrite Hz in Hin. rewrite !(proj1 (book_sides d _)) in Hin. rewrite !(proj2 (book_sides d _)) in Hout.
  unfold TradeDirectionSell0, rSell, rBuy in *. destruct (d =? 0); repeat case_decide; lia.
Qed.

(** A trade of [x] units of token [t] that was executed along the path and gave [out] units
    of token [t']. *)
Inductive executed : Hash → Z → list string → list PoolPairState → list Z →
    list (PoolTrade Orderbook) → Hash → Z → Prop :=
  | executed_nil t x : executed t x [] [] [] [] t x
  | executed_cons x id path p pools d dirs s ss t' out :
      dir_ok d → wf_state p → 0 < x → in_u64 x →
      pool_done d x (ps_state p) (ps_orderbook p) s → made d x s →
      executed (buyTok d (ps_state p)) (pt_totalBuyAmount s) path pools dirs ss t' out →
      executed (sellTok d (ps_state p)) x (id :: path) (p :: pools) (d :: dirs) (s :: ss) t' out.

(** The pools a trade may visit. *)
Record wf_exchange (pools : PoolPairs) : Prop := {
  we_pools : wf_pools pools;
  we_books : ∀ id p, pools !! id = Some p → book_wf (ps_orderbook p) }.

Lemma tradePathLoop_spec seen t path pairs :
  match tradePathLoop seen t path pairs with
  | Ok (pools, dirs, t') =>
      Forall2 (λ id p, pairs !! id = Some p) path pools ∧ NoDup path ∧
      Forall (λ id, id ∉ seen) path ∧ Forall dir_ok dirs ∧
      length dirs = length pools
  | Err _ => True
  | _ => False
  end.
Proof.
  revert seen t. induction path as [|id path IH]; intros seen t; cbn [tradePathLoop].
  { split_and!; try done; constructor. }
  case_decide as Hseen; [done|]. destruct (pairs !! id) as [p|] eqn:Hp; [|done].
  assert (Hgen : ∀ t d, dir_ok d →
    match r ← tradePathLoop ({[id]} ∪ seen) t path pairs;
          let '(pools, dirs, t') := r in Ok (p :: pools, d :: dirs, t') with
    | Ok (pools, dirs, t') =>
        Forall2 (λ id p, pairs !! id = Some p) (id :: path) pools ∧ NoDup (id :: path) ∧
        Forall (λ id, id ∉ seen) (id :: path) ∧ Forall dir_ok dirs ∧ length dirs = length pools
    | Err _ => True
    | _ => False
    end).
  { intros t1 d Hd. specialize (IH ({[id]} ∪ seen) t1).
    destruct (tradePathLoop _ t1 path pairs) as [[[pools dirs] t']| | |]; try done.
    destruct IH as (HF & Hnd & Hns & Hds & Hlen). cbn. split_and!.
    - by constructor.
    - constructor; [|done]. intros Hin. rewrite Forall_forall in Hns. apply Hns in Hin. set_solver.
    - constructor; [done|]. eapply Forall_impl; [done|]. set_solver.
    - by constructor.
    - by f_equal. }
  destruct (bool_decide _); [by apply Hgen; left|]. destruct (bool_decide _); [by apply Hgen; right|done].
Qed.

(** A path of the state on which the pools accept the trade. *)
Lemma tradePath_executed fuel seen t path pairs pools dirs t' x ss out :
  wf_exchange pairs → in_u64 x → 0 < x →
  tradePathLoop seen t path pairs = Ok (pools, dirs, t') →
  tradePools fuel (zip3 (ps_state <$> pools) dirs (ps_orderbook <$> pools)) x x = Ok (ss, out) →
  executed t x path pools dirs ss t' out.
Proof.
  intros Hwf. revert seen t pools dirs x ss out.
  induction path as [|id path IH]; intros seen t pools dirs x ss out Hx Hpos Hpath Hrun; cbn in Hpath.
  { injection Hpath as <- <- <-. cbn in Hrun. injection Hrun as <- <-. constructor. }
  case_decide; [done|]. destruct (pairs !! id) as [p|] eqn:Hp; [|done].
  assert (Hgen : ∀ d, dir_ok d → t = sellTok d (ps_state p) →
    (r ← tradePathLoop ({[id]} ∪ seen) (buyTok d (ps_state p)) path pairs;
     let '(pools, dirs, t') := r in Ok (p :: pools, d :: dirs, t')) = Ok (pools, dirs, t') →
    executed t x (id :: path) pools dirs ss t' out).
  { intros d Hd -> Hr. apply outcome_bind_Ok in Hr as ([[pools1 dirs1] t1] & Hl & [= <- <- <-]).
    cbn in Hrun. apply outcome_bind_Ok in Hrun as (s & Hs & Hrun).
    apply outcome_bind_Ok in Hrun as ([ss1 out1] & Ht & [= <- <-]).
    destruct (we_pools _ Hwf _ _ Hp) as [Hwp _]. pose proof (we_books _ Hwf _ _ Hp) as Hwb.
    assert (Hen : trading d x (ps_state p) (ps_orderbook p) (enterPool (ps_state p) (ps_orderbook p) x ∅))
      by (apply enterPool_trading; [done|apply Hwp|done|apply Hx]).
    assert (Hm0 : made d x (enterPool (ps_state p) (ps_orderbook p) x ∅)).
    { split; cbn; [|intros i c Hc; by rewrite lookup_empty in Hc|lia].
      exists 0, 0. split; [by by_dir d|by left]. }
    pose proof (poolLoop_trading _ _ _ _ _ _ _ _ Hd Hx Hen Hs) as Htr.
    pose proof (poolLoop_made _ _ _ _ _ _ _ Hd Hx Hen Hm0 Hs) as Hm.
    destruct (md_some _ _ _ Hm) as [Hb0 _]; [destruct Htr; lia|].
    constructor; try done. eapply IH; [|done|done|done]. by destruct Htr as [[] _]. }
  destruct (bool_decide _) eqn:E0; [apply bool_decide_eq_true in E0; by apply (Hgen TradeDirectionSell0); [left|..]|].
  destruct (bool_decide (t = _)) eqn:E1 in Hpath; [|done].
  apply bool_decide_eq_true in E1. by apply (Hgen TradeDirectionSell1); [right|..].
Qed.

(** The tokens along the path telescope: only the first and the last token move. *)
Lemma executed_holdings tok t x path pools dirs ss t' out :
  executed t x path pools dirs ss t' out →
  list_sum (λ s, pairHoldings tok (pt_pair s) (pt_book s)) ss =
  list_sum (poolHoldings tok) pools + ofToken tok t x - ofToken tok t' out.
Proof.
  induction 1 as [t x|x id path p pools d dirs s ss t' out Hd Hp Hx Hu Hdone Hm _ IH].
  { unfold list_sum. cbn. lia. }
  rewrite !list_sum_cons, IH, (pool_done_holdings _ _ _ _ _ tok Hd Hdone), poolHoldings_pair. lia.
Qed.

(** ** The fee *)

(** The slices [TrackFee] reads after the trade, indexed together. *)
Fixpoint fpsOf (params : Params) (path : list string) (pools : list PoolPairState) (dirs : list Z)
    (ss : list (PoolTrade Orderbook)) : list (FeePool Orderbook) :=
  match path, pools, dirs, ss with
  | id :: path, p :: pools, d :: dirs, s :: ss =>
      mkFeePool id (pt_pair s) d (pt_book s) (poolFeeOf params id) (ps_lpFeesPerShare p)
        (ps_protocolFees p) (ps_stakingPoolFees p) (pt_token0Change s, pt_token1Change s)
        (pt_orderChanges s) :: fpsOf params path pools dirs ss
  | _, _, _, _ => []
  end.

Lemma bookFuel_enough (d : Z) (books : list Orderbook) b : b ∈ books →
  (matchable d b < bookFuel books)%nat.
Proof.
  intros Hb. unfold bookFuel.
  assert (Hlen : (length (orders b) ≤ list_max (length ∘ orders <$> books))%nat).
  { assert (Hmax := proj1 (list_max_le (length ∘ orders <$> books) _) (Nat.le_refl _)).
    rewrite List.Forall_forall in Hmax. apply Hmax, list_elem_of_In.
    apply (list_elem_of_fmap_2 (length ∘ orders)). done. }
  change (matchable d b) with (matchCount d (orders b)). unfold matchCount.
  pose proof (List.filter_length_le (canMatchb d) (orders b)). lia.
Qed.

Lemma executed_fees params fuel t x path pools dirs ss t' out :
  (∀ id, id ∈ path → 0 < poolFeeOf params id) →
  (∀ b, b ∈ pt_book <$> ss → ∀ d, matchable d b < fuel)%nat →
  executed t x path pools dirs ss t' out →
  feePools path (pt_pair <$> ss) dirs (pt_book <$> ss) (poolFeeOf params <$> path)
    (ps_lpFeesPerShare <$> pools) (ps_protocolFees <$> pools) (ps_stakingPoolFees <$> pools)
    ((λ s, (pt_token0Change s, pt_token1Change s)) <$> ss) (pt_orderChanges <$> ss) =
    Ok (fpsOf params path pools dirs ss) ∧
  Forall (wf_fee_pool fuel) (fpsOf params path pools dirs ss) ∧
  list_sum fp_poolFee (fpsOf params path pools dirs ss) = list_sum (poolFeeOf params) path ∧
  length dirs = length ss ∧ length pools = length ss ∧ length path = length ss.
Proof.
  intros Hfee Hfuel. induction 1 as [t x|x id path p pools d dirs s ss t' out Hd Hp Hx Hu Hdone Hm _ IH].
  { split_and!; try done; constructor. }
  destruct IH as (IH1 & IH2 & IH3 & IH4 & IH5 & IH6).
  { intros i Hi. apply Hfee. by right. }
  { intros b Hb. apply Hfuel. by right. }
  cbn [fmap list_fmap feePools fpsOf]. rewrite IH1. cbn [mbind outcome_bind].
  split; [done|]. split; [|rewrite !list_sum_cons, IH3; cbn; split_and!; auto; f_equal; lia].
  constructor; [|done]. destruct Hdone as [Htr Hz]. split.
  - destruct (made_volume d x s Hd Hm Hx Hz) as (Hop & Hos & Hv). split; cbn; try done.
    apply Hfee. left.
  - split; [split_and!; [by destruct Htr|done|by destruct Htr]|]. apply Hfuel. left.
Qed.

(** What the pools hold once the fee is distributed. *)
Abbreviation frHoldings tok := (list_sum (λ fr, pairHoldings tok (fr_pair fr) (fr_book fr))).
Abbreviation fpHoldings tok := (list_sum (λ fp, pairHoldings tok (fp_pair fp) (fp_book fp))).
Abbreviation earned tok := (list_sum (λ fr, feeOf tok (fr_rewardEarned fr))).

Lemma feeOf_singleton tok t r : feeOf tok {[t := r]} = ofToken tok t r.
Proof. unfold feeOf, ofToken. rewrite lookup_singleton. by case_decide. Qed.

Lemma PRV_holdings tok cfg rewards fps (frs : list (FeeResult Orderbook)) :
  Forall3 (accounted cfg PRVCoinID) rewards fps frs →
  frHoldings tok frs = fpHoldings tok fps ∧
  earned tok frs = ofToken tok PRVCoinID (list_sum (λ r, r) rewards).
Proof.
  induction 1 as [|r fp fr rewards fps frs (_ & Ep & Eb & Er & _) _ [IH1 IH2]].
  { unfold list_sum, ofToken. cbn. by case_decide. }
  rewrite !list_sum_cons, IH1, IH2, Er, Ep, Eb, feeOf_singleton. split; [done|].
  unfold ofToken. case_decide; lia.
Qed.

Lemma token_holdings tok cfg params t x path pools dirs ss t' out frs fee :
  executed t x path pools dirs ss t' out →
  fee_path cfg (fpsOf params path pools dirs ss) frs fee →
  frHoldings tok frs + earned tok frs =
  fpHoldings tok (fpsOf params path pools dirs ss) + ofToken tok t fee.
Proof.
  intros Hex. revert frs fee.
  induction Hex as [t x|x id path p pools d dirs s ss t' out Hd Hp Hx Hu Hdone Hm _ IH];
    intros frs fee Hfp; [inversion Hfp|]. cbn [fpsOf] in *.
  set (fp := mkFeePool _ _ _ _ _ _ _ _ _ _) in *.
  assert (Etok : rewardTokenOf fp = sellTok d (ps_state p)).
  { destruct Hdone as [[_ _ (_ & _ & E0 & E1 & _) _ _ _ _ _ _ _ _] _].
    unfold rewardTokenOf, sellTok, fp. cbn [fp_dir fp_pair]. rewrite E0, E1. by by_dir d. }
  assert (Ebuy : buyTok d (pt_pair s) = buyTok d (ps_state p) ∧ sellTok d (pt_pair s) = sellTok d (ps_state p)).
  { destruct Hdone as [[_ _ (_ & _ & E0 & E1 & _) _ _ _ _ _ _ _ _] _]. unfold buyTok, sellTok. by rewrite E0, E1. }
  inversion Hfp as [fp1 fr1 r1 (_ & Ep & Eb & Er & _) E1 E2|fp1 fps1 fr0 fr1 frs1 r1 q s1 Hne Hq (_ & Ep & Eb & Er & _) Hd1 Ep1 Eb1 Er1 _ _ _ _ _ Hrest];
    subst.
  - unfold list_sum. cbn [foldr]. rewrite Er, Ep, Eb, feeOf_singleton, Etok. unfold fp. cbn. lia.
  - rewrite !list_sum_cons. specialize (IH _ _ Hrest). cbn [fp_dir fp_pair fp_book fp] in Hd1.
    rewrite Ep1, Eb1, Er1, Er, feeOf_singleton, Etok.
    rewrite (pool_done_holdings _ _ _ _ _ tok Hd Hd1). destruct Ebuy as [-> ->].
    unfold ofToken in *. cbn [fp_pair fp_book fp]. repeat case_decide; lia.
Qed.

(** ** Applying the trade *)

(** The reward [reward] of token [tok] was booked on pool [p]. *)
Definition credited (p : PoolPairState) (tok : Hash) (reward : Z) (fr : FeeResult Orderbook) : Prop :=
  fr_rewardEarned fr = {[tok := reward]} ∧
  ∃ lp rs making vols, 0 ≤ lp ∧
    fr_lpFeesPerShare fr = AddLPFee (ps_state p) tok lp BaseLPFeesPerShare (ps_lpFeesPerShare p) ∧
    fr_orderRewardChanges fr = (λ r, {[tok := r]}) <$> rs ∧ (∀ k r, rs !! k = Some r → 0 ≤ r) ∧
    fr_orderMakingChanges fr = {[making := vols]} ∧ (∀ k v, vols !! k = Some v → 0 ≤ v) ∧
    ∀ t, 0 ≤ feeOf t (ps_protocolFees p) → 0 ≤ feeOf t (ps_stakingPoolFees p) →
      0 ≤ feeOf t (fr_protocolFees fr) ∧ 0 ≤ feeOf t (fr_stakingPoolFees fr) ∧
      feeOf t (fr_protocolFees fr) + feeOf t (fr_stakingPoolFees fr) +
        ofToken t tok (lp + map_sum (λ r, r) rs) ≤
      feeOf t (ps_protocolFees p) + feeOf t (ps_stakingPoolFees p) + ofToken t tok reward.

(** The fee result belongs to the pool. *)
Record settled (p : PoolPairState) (fr : FeeResult Orderbook) : Prop := {
  st_same : same_pair (ps_state p) (fr_pair fr);
  st_pair : wf_pair (fr_pair fr);
  st_book : book_wf (fr_book fr);
  st_shape : book_same (ps_orderbook p) (fr_book fr);
  st_credit : ∃ tok reward, credited p tok reward fr }.

Lemma AddLPFee_grows s tok amount base m t : 0 ≤ amount → 0 ≤ base → 0 ≤ pp_shareAmount s →
  feeOf t m ≤ feeOf t (AddLPFee s tok amount base m).
Proof.
  intros Ha Hb Hs. unfold AddLPFee. destruct (_ =? 0) eqn:E; [done|].
  rewrite feeOf_insert. case_decide; [subst|done].
  assert (0 ≤ amount * base / pp_shareAmount s) by (apply div_nonneg; nia). unfold feeOf. lia.
Qed.

Lemma settled_lp p fr t : wf_state p → settled p fr →
  feeOf t (ps_lpFeesPerShare p) ≤ feeOf t (fr_lpFeesPerShare fr).
Proof.
  intros Hp [_ _ _ _ (tok & r & _ & lp & rs & mk & vols & Hlp & -> & _)].
  apply AddLPFee_grows; [done|done|]. apply (wl_total _ (wst_ledger _ Hp)).
Qed.

Lemma changedPool_wf params id p fr : wf_state p → settled p fr → wf_state (changedPool params id p fr).
Proof.
  intros Hwf Hst. pose proof (λ t, settled_lp p fr t Hwf Hst) as Hlp.
  destruct Hwf as [? ? ? ? [Ht ? ? Heach ? Hb]], Hst as [(E0 & E1 & E2 & E3 & E4) Hp Hbk _ _].
  split; cbn; rewrite <- ?E2, <- ?E3, <- ?E4; try done.
  split; cbn; rewrite <- ?E0, <- ?E1; try done.
  - intros nft s Hs. destruct (Heach nft s Hs) as [? ? Hm ?]. split; cbn; try done.
    intros tok. specialize (Hm tok). specialize (Hlp tok). lia.
  - intros tok. destruct (Hb tok). specialize (Hlp tok). lia.
Qed.

(** The pools a trade went through, each replaced by its settled state; [rewards] is what
    they earned. *)
Inductive trade_steps (params : Params) : PoolPairs → list (gmap Hash Z) → PoolPairs → Prop :=
  | trade_done pairs : trade_steps params pairs [] pairs
  | trade_step pairs id p fr rewards pairs' :
      pairs !! id = Some p → settled p fr →
      trade_steps params (<[id := changedPool params id p fr]> pairs) rewards pairs' →
      trade_steps params pairs (fr_rewardEarned fr :: rewards) pairs'.

Lemma trade_steps_app params a b c r r' :
  trade_steps params a r b → trade_steps params b r' c → trade_steps params a (r ++ r') c.
Proof. induction 1 as [|? id p fr rw ? Hp Hs _ IH]; cbn; [done|]. intros. econstructor; eauto. Qed.

Lemma applyTrade_spec params path pools frs pairs :
  wf_exchange pairs → NoDup path → Forall2 (λ id p, pairs !! id = Some p) path pools →
  Forall2 settled pools frs →
  ∃ pairs', applyTrade params path frs pairs = Ok pairs' ∧ wf_exchange pairs' ∧
    trade_steps params pairs (fr_rewardEarned <$> frs) pairs' ∧
    ∀ tok, poolsHoldings tok pairs' =
      poolsHoldings tok pairs - list_sum (poolHoldings tok) pools + frHoldings tok frs.
Proof.
  intros Hwf Hnd HF. revert frs pairs Hwf HF. revert pools.
  induction path as [|id path IH]; intros pools frs pairs Hwf HF Hset.
  { inversion HF; subst. inversion Hset; subst. exists pairs. cbn. do 2 (split; [done|]).
    split; [constructor|]. intros tok. unfold list_sum. cbn. lia. }
  apply NoDup_cons in Hnd as [Hid Hnd]. inversion HF as [|? p ? pools' Hp HF']; subst.
  inversion Hset as [|? fr ? frs' Hst Hset']; subst. cbn [applyTrade]. rewrite Hp.
  destruct (we_pools _ Hwf _ _ Hp) as [Hwp Hk]. set (q := changedPool params id p fr).
  destruct (IH Hnd pools' frs' (<[id := q]> pairs)) as (pairs' & -> & Hwf' & Hts & Hh); try done.
  - split.
    + apply wf_pools_insert; [apply Hwf|by apply changedPool_wf|].
      destruct Hk as [tx ->]. exists tx. destruct Hst as [(_ & _ & E0 & E1 & _) _ _ _ _]. cbn.
      by rewrite <- E0, <- E1.
    + intros i r. rewrite lookup_insert. case_decide; [intros [= <-]; apply Hst|apply Hwf].
  - clear -HF' Hid. induction HF' as [|i p' path pools' Hi HF' IH]; constructor.
    + rewrite lookup_insert_ne; [done|]. intros ->. apply Hid. left.
    + apply IH. intros Hin. apply Hid. by right.
  - exists pairs'. do 2 (split; [done|]). split; [by econstructor|]. intros tok.
    rewrite Hh, poolsHoldings_insert, Hp, !list_sum_cons. cbn [from_option].
    rewrite (poolHoldings_pair tok q). cbn. lia.
Qed.

(** ** Executing one request *)

(** Accepted parameters whose percentages did not overflow, with a positive minimal PRV
    reserve for prices. *)
Record wf_params (params : Params) : Prop := {
  wp_cfg : wf_cfg (feeConfig params);
  wp_rate : ∀ id, 0 < poolFeeOf params id ≤ MaxFeeRateBPS;
  wp_discount : 0 ≤ PRVDiscountPercent params ≤ MaxPRVDiscountPercent;
  wp_reserve : 0 < MinPRVReserveTradingRate params }.

Lemma valid_wf_params {A} params (pairs : gmap string A) :
  unsigned_params params → valid_params params pairs → 0 ≤ PRVDiscountPercent params →
  TradingProtocolFeePercent params + TradingStakingPoolRewardPercent params < word64 →
  0 < MinPRVReserveTradingRate params → wf_params params.
Proof.
  intros Hu Hv Hd Hp Hm. split; [by eapply feeConfig_wf| |split; [done|apply Hv]|done].
  intros id. unfold poolFeeOf. destruct (FeeRateBPS params !! id) as [r|] eqn:E; [|apply Hv].
  by destruct (vp_rates _ _ Hv _ _ E).
Qed.

(** What the validation of the transaction guarantees of a trade request. *)
Record wf_trade_request (md : TradeRequest) : Prop := {
  wtr_sell : 0 < tr_SellAmount md < word64;
  wtr_fee : in_u64 (tr_TradingFee md);
  wtr_path : (length (tr_TradePath md) ≤ 5)%nat;
  wtr_min : 0 ≤ tr_MinAcceptableAmount md }.

Lemma AddLPFee_shares s s' tok amount base m : pp_shareAmount s = pp_shareAmount s' →
  AddLPFee s tok amount base m = AddLPFee s' tok amount base m.
Proof. unfold AddLPFee. by intros ->. Qed.

(** What is booked on a pool of the path is credited to the pool. *)
Lemma booked_credited params tok reward id p d s fr :
  pp_shareAmount (pt_pair s) = pp_shareAmount (ps_state p) →
  booked (feeConfig params) tok reward (mkFeePool id (pt_pair s) d (pt_book s) (poolFeeOf params id)
    (ps_lpFeesPerShare p) (ps_protocolFees p) (ps_stakingPoolFees p)
    (pt_token0Change s, pt_token1Change s) (pt_orderChanges s)) fr →
  credited p tok reward fr.
Proof.
  intros Esh (Er & lp & rs & mk & vols & Hlp & Elp & Ers & Hrs & Emk & Hv & Hle & _). cbn in *.
  split; [done|]. exists lp, rs, mk, vols. split_and!; try done; try lia.
  rewrite Elp. by apply AddLPFee_shares.
Qed.

Lemma PRV_settled params t x path pools dirs ss t' out rewards frs :
  executed t x path pools dirs ss t' out →
  Forall3 (accounted (feeConfig params) PRVCoinID) rewards (fpsOf params path pools dirs ss) frs →
  Forall2 settled pools frs.
Proof.
  intros Hex. revert rewards frs.
  induction Hex as [t x|x id path p pools d dirs s ss t' out Hd Hp Hx Hu [Htr _] Hm _ IH];
    intros rewards frs HF; cbn in HF; inversion HF as [|r fp fr rs fps frs' Hacc HF']; subst; constructor.
  - destruct Hacc as (_ & Ep & Eb & Hbk). cbn in Ep, Eb. split; rewrite ?Ep, ?Eb; try apply Htr.
    eexists _, _. eapply booked_credited; [|exact Hbk]. symmetry. apply (tr_same _ _ _ _ _ Htr).
  - by eapply IH.
Qed.

Lemma token_settled params t x path pools dirs ss t' out fee frs :
  executed t x path pools dirs ss t' out →
  fee_path (feeConfig params) (fpsOf params path pools dirs ss) frs fee →
  Forall2 settled pools frs.
Proof.
  intros Hex. revert fee frs.
  induction Hex as [t x|x id path p pools d dirs s ss t' out Hd Hp Hx Hu [Htr _] Hm Hex IH];
    intros fee frs Hfp; cbn in Hfp; [inversion Hfp|].
  assert (Esh : pp_shareAmount (pt_pair s) = pp_shareAmount (ps_state p))
    by (symmetry; apply (tr_same _ _ _ _ _ Htr)).
  inversion Hfp as [fp1 fr1 r1 (_ & Ep & Eb & Hbk) E1 E2|
    fp1 fps1 fr0 fr1 frs1 r1 q s1 Hne Hq (_ & _ & _ & Hbk) Hd1 Ep1 Eb1 Er Eo Em EP ES El Hrest]; subst.
  - assert (Hnil : pools = []).
    { destruct Hex; [done|]. cbn in H. discriminate H. }
    subst pools. constructor; [|constructor]. cbn in Ep, Eb.
    split; rewrite ?Ep, ?Eb; try apply Htr. eexists _, _. by eapply booked_credited.
  - constructor; [|by eapply IH]. destruct Hd1 as [Htr1 _]. cbn in Htr1.
    split; rewrite ?Ep1, ?Eb1; try apply Htr1.
    + transitivity (pt_pair s); [apply Htr|apply Htr1].
    + transitivity (pt_book s); [apply Htr|apply Htr1].
    + eexists _, _. apply booked_credited in Hbk; [|exact Esh]. unfold credited in *.
      rewrite Er, Eo, Em, EP, ES, El. exact Hbk.
Qed.

Lemma pathFeeRate_sum params path : wf_params params → (length path ≤ 5)%nat →
  pathFeeRate params path = list_sum (poolFeeOf params) path ∧
  list_sum (poolFeeOf params) path < word64.
Proof.
  intros Hp Hlen. unfold pathFeeRate.
  assert (Hgen : ∀ l acc, 0 ≤ acc → acc + 200 * Z.of_nat (length l) < word64 →
    foldl (λ r id, add64 r (poolFeeOf params id)) acc l = acc + list_sum (poolFeeOf params) l ∧
    acc + list_sum (poolFeeOf params) l ≤ acc + 200 * Z.of_nat (length l)).
  { induction l as [|id l IH]; intros acc H0 Hlt; [unfold list_sum; cbn; lia|].
    pose proof (wp_rate _ Hp id) as Hr. unfold MaxFeeRateBPS in Hr. cbn [length] in Hlt.
    assert (Ha : add64 acc (poolFeeOf params id) = acc + poolFeeOf params id)
      by (apply u64_small; unfold in_u64; lia).
    cbn [foldl]. rewrite Ha, list_sum_cons.
    destruct (IH (acc + poolFeeOf params id)) as [-> ?]; [lia|lia|]. cbn [length]. lia. }
  unfold word64 in *. destruct (Hgen path 0) as [-> ?]; [lia|lia|]. lia.
Qed.

(** The token a request pays its fee in. *)
Definition feeToken (inPRV : bool) (md : TradeRequest) : Hash :=
  if inPRV then PRVCoinID else tr_TokenToSell md.

(** The distribution of the fee after the pools executed the trade. *)
Lemma TrackFee_settled params inPRV md t' pools dirs ss out recv :
  wf_params params → wf_trade_request md → tr_TradePath md ≠ [] →
  executed (tr_TokenToSell md) (tr_SellAmount md) (tr_TradePath md) pools dirs ss t' out →
  let amd := mkAcceptedTrade recv out (tr_TradePath md) t'
    ((λ s, (pt_token0Change s, pt_token1Change s)) <$> ss) (pt_orderChanges <$> ss) [] in
  match TrackFee (bookFuel (pt_book <$> ss)) (feeConfig params) (tr_TradingFee md) inPRV
          (tr_TokenToSell md) (tr_TradePath md) (pt_pair <$> ss) (ps_lpFeesPerShare <$> pools)
          (ps_protocolFees <$> pools) (ps_stakingPoolFees <$> pools) dirs (pt_book <$> ss)
          (poolFeeOf params <$> tr_TradePath md) (pathFeeRate params (tr_TradePath md)) amd with
  | Ok (amd', frs) =>
      Forall2 settled pools frs ∧ at_Amount amd' = out ∧ at_TokenToBuy amd' = t' ∧
      at_RewardEarned amd' = fr_rewardEarned <$> frs ∧
      ∀ tok, frHoldings tok frs + earned tok frs =
        list_sum (λ s, pairHoldings tok (pt_pair s) (pt_book s)) ss +
        ofToken tok (feeToken inPRV md) (tr_TradingFee md)
  | Err _ => True
  | _ => False
  end.
Proof.
  intros Hpar [Hs0 Hfee Hlen _] Hne Hex amd.
  destruct (pathFeeRate_sum params (tr_TradePath md) Hpar Hlen) as [-> Hrate].
  set (fuel := bookFuel (pt_book <$> ss)).
  destruct (executed_fees params fuel (tr_TokenToSell md) (tr_SellAmount md) (tr_TradePath md) pools
    dirs ss t' out) as (Hfps & Hwf & Hfs & L1 & L2 & L3);
    [intros id _; by destruct (wp_rate _ Hpar id)|intros b Hb d; by apply bookFuel_enough|done|].
  unfold TrackFee. rewrite !length_fmap, L1, Nat.eqb_refl. cbn [negb orb amd at_PairChanges at_OrderChanges].
  rewrite Hfps. cbn [mbind outcome_bind]. set (fps := fpsOf params _ _ _ _) in *.
  assert (Hfne : fps ≠ []).
  { unfold fps. destruct Hex; [done|]. done. }
  assert (Hhold : ∀ tok, fpHoldings tok fps = list_sum (λ s, pairHoldings tok (pt_pair s) (pt_book s)) ss).
  { intros tok. unfold fps. clear -Hex. induction Hex; [done|]. cbn [fpsOf]. by rewrite !list_sum_cons, IHHex. }
  rewrite <- Hfs in *.
  destruct (inPRV || bool_decide (tr_TokenToSell md = PRVCoinID)) eqn:Hmode.
  - destruct (trackFeePRV_loop (feeConfig params) fps (tr_TradingFee md)) as (frs & rs & -> & Hrs & HF);
      [apply Hpar|eapply Forall_impl; [done|by intros ? []]|done|done|].
    cbn [mbind outcome_bind]. split; [by eapply PRV_settled|]. do 3 (split; [done|]).
    intros tok. destruct (PRV_holdings tok _ _ _ _ HF) as [-> ->]. rewrite Hrs, Hhold by done.
    f_equal. unfold feeToken. destruct inPRV; [done|]. cbn in Hmode. by apply bool_decide_eq_true in Hmode as ->.
  - apply orb_false_iff in Hmode as [-> Hmode]. 
    destruct (trackFeeToken_loop fuel (feeConfig params) fps (tr_TradingFee md)) as [Hret Hok];
      [apply Hpar|done..|].
    destruct (trackFeeToken _ _ fps _ _) as [frs| | |] eqn:Hrun; try done. cbn [mbind outcome_bind].
    specialize (Hok frs Hfne eq_refl). split; [by eapply token_settled|]. do 3 (split; [done|]).
    intros tok. unfold feeToken. rewrite <- Hhold. by eapply token_holdings.
Qed.

Lemma executeTrade_conserves params inPRV md pairs :
  wf_exchange pairs → wf_params params → wf_trade_request md → tr_TradePath md ≠ [] →
  match executeTrade params inPRV md pairs with
  | Ok (amd, pairs') =>
      wf_exchange pairs' ∧ tr_MinAcceptableAmount md ≤ at_Amount amd ∧
      trade_steps params pairs (at_RewardEarned amd) pairs' ∧
      ∀ tok, poolsHoldings tok pairs' + list_sum (feeOf tok) (at_RewardEarned amd) +
             ofToken tok (at_TokenToBuy amd) (at_Amount amd) =
        poolsHoldings tok pairs + ofToken tok (tr_TokenToSell md) (tr_SellAmount md) +
        ofToken tok (feeToken inPRV md) (tr_TradingFee md)
  | Err _ => True
  | _ => False
  end.
Proof.
  intros Hwf Hpar Hmd Hne. unfold executeTrade, TradePathFromState. pose proof Hmd as [Hs0 _ Hlen _].
  pose proof (tradePathLoop_spec ∅ (tr_TokenToSell md) (tr_TradePath md) pairs) as Hpath.
  destruct (tradePathLoop _ _ _ _) as [[[pools dirs] t']| | |] eqn:Htp; try done.
  destruct Hpath as (HF & Hnd & _ & Hds & Hlens). cbn [mbind outcome_bind].
  destruct (tr_Receiver md !! t') as [recv|]; [|done].
  assert (Hws : Forall wf_pair (ps_state <$> pools) ∧ Forall book_wf (ps_orderbook <$> pools)).
  { rewrite !Forall_fmap. clear -HF Hwf. split; induction HF as [|id p path pools Hp HF IH]; constructor;
      try done; cbn; [apply (proj1 (we_pools _ Hwf _ _ Hp))|by eapply we_books]. }
  assert (Hsell : in_u64 (tr_SellAmount md)) by (unfold in_u64; lia).
  unfold MaybeAcceptTrade at 1. rewrite !length_fmap, Hlens, Nat.eqb_refl. cbn [negb orb].
  rewrite (proj2 (Z.ltb_ge _ _)), sub64_exact, Z.sub_0_r by (done || lia).
  set (books := ps_orderbook <$> pools) in *.
  pose proof (tradePools_returns (bookFuel books) (zip3 (ps_state <$> pools) dirs books)
    (tr_SellAmount md) 0) as Hret.
  destruct (tradePools _ _ _ 0) as [[ss out]| | |] eqn:Hrun; try done.
  2, 3: exfalso; apply Hret; [apply zip3_lookup_wf; [apply Hws|done|apply Hws]|done|];
    apply Forall_lookup_2; intros i [[p d] b] Hi;
    apply lookup_zip_with_Some in Hi as (pd & b' & [= <- <-] & _ & Hb');
    by apply bookFuel_enough; eapply list_elem_of_lookup_2.
  cbn [mbind outcome_bind]. destruct (out <? tr_MinAcceptableAmount md) eqn:Hmin; [done|].
  cbn [mbind outcome_bind].
  assert (Hex : executed (tr_TokenToSell md) (tr_SellAmount md) (tr_TradePath md) pools dirs ss t' out).
  { eapply (tradePath_executed (bookFuel books)); [done|done|lia|exact Htp|].
    destruct (tr_TradePath md); [done|]. inversion HF; subst.
    destruct dirs as [|d dirs]; [done|]. exact Hrun. }
  pose proof (TrackFee_settled params inPRV md t' pools dirs ss out recv Hpar Hmd Hne Hex) as Hfee.
  cbv zeta in Hfee. destruct (TrackFee _ _ _ _ _ _ _ _ _ _ _ _ _ _) as [[amd' frs]| | |]; try done.
  destruct Hfee as (Hset & Eamt & Ebuy & Erew & Hh). cbn [mbind outcome_bind].
  destruct (applyTrade_spec params (tr_TradePath md) pools frs pairs Hwf Hnd HF Hset)
    as (pairs' & -> & Hwf' & Hts & Hap). cbn [mbind outcome_bind].
  split; [done|]. split; [lia|]. split; [by rewrite Erew|]. intros tok. rewrite Hap, Erew, Eamt, Ebuy, list_sum_fmap.
  pose proof (executed_holdings tok _ _ _ _ _ _ _ _ Hex). specialize (Hh tok). lia.
Qed.

(** ** The order of execution *)
Lemma StronglySorted_reverse {A} (R : A → A → Prop) l :
  StronglySorted R l → StronglySorted (λ a b, R b a) (reverse l).
Proof.
  induction 1 as [|x l Hs IH Hx]; [constructor|]. rewrite reverse_cons.
  apply StronglySorted_app. split_and!; [|done|repeat constructor].
  intros a b Ha ->%list_elem_of_singleton.
  rewrite List.Forall_forall in Hx. by apply Hx, list_elem_of_In, elem_of_reverse.
Qed.

Lemma filter_reverse_list {A} (f : A → bool) l :
  List.filter f (reverse l) = reverse (List.filter f l).
Proof.
  induction l as [|x l IH]; [done|]. rewrite reverse_cons, List.filter_app, IH. cbn [List.filter].
  destruct (f x); [by rewrite reverse_cons|by rewrite app_nil_r].
Qed.

Section stable.
Context {A : Type} (less : A → A → bool) (Q : A → Prop).
Hypothesis less_trans : ∀ a b c, Q a → Q b → Q c →
  less a b = false → less b c = false → less a c = false.
Hypothesis less_asym : ∀ a b, less a b = true → less b a = false.

Lemma insertStable_perm x l : insertStable less x l ≡ₚ x :: l.
Proof.
  induction l as [|y l IH]; cbn; [done|]. destruct (less x y); [|done].
  rewrite IH. apply Permutation_swap.
Qed.

Lemma insertStable_sorted x l : Q x → Forall Q l →
  StronglySorted (λ a b, less a b = false) l →
  StronglySorted (λ a b, less a b = false) (insertStable less x l).
Proof.
  intros Hx HQ. induction 1 as [|y l Hs IH Hy]; cbn; [repeat constructor|].
  apply Forall_cons in HQ as [Qy Ql]. destruct (less x y) eqn:E.
  - constructor; [by apply IH|]. rewrite insertStable_perm. constructor; [by apply less_asym|done].
  - constructor; [by constructor|]. constructor; [done|].
    apply List.Forall_forall. intros z Hz. rewrite List.Forall_forall in Hy.
    apply (less_trans _ y); try done; [|by apply Hy].
    rewrite Forall_forall in Ql. by apply Ql, list_elem_of_In.
Qed.

(** Elements that compare equal to [c]. *)
Definition equivTo (c x : A) : bool := negb (less c x) && negb (less x c).

Lemma insertStable_filter c x l : Q c → Q x → Forall Q l →
  List.filter (equivTo c) (insertStable less x l) =
  (if equivTo c x then [x] else []) ++ List.filter (equivTo c) l.
Proof.
  intros Hc Hx HQ. induction l as [|y l IH]; cbn; [by destruct (equivTo c x)|].
  apply Forall_cons in HQ as [Qy Ql]. destruct (less x y) eqn:E; cbn; [|by destruct (equivTo c x)].
  rewrite IH by done. destruct (equivTo c x) eqn:Ex, (equivTo c y) eqn:Ey; try done.
  unfold equivTo in Ex, Ey. apply andb_prop in Ex as [_ Hxc], Ey as [Hcy _].
  rewrite (less_trans x c y) in E; try done; by apply negb_true_iff.
Qed.

Lemma SliceStable_spec l : Forall Q l →
  SliceStable less l ≡ₚ l ∧ StronglySorted (λ a b, less b a = false) (SliceStable less l) ∧
  ∀ c, Q c → List.filter (equivTo c) (SliceStable less l) = List.filter (equivTo c) l.
Proof.
  intros HQ. unfold SliceStable.
  assert (Hgen : ∀ acc, Forall Q acc → StronglySorted (λ a b, less a b = false) acc →
    let r := foldl (λ prefix x, insertStable less x prefix) acc l in
    r ≡ₚ l ++ acc ∧ StronglySorted (λ a b, less a b = false) r ∧
    ∀ c, Q c → List.filter (equivTo c) r =
      reverse (List.filter (equivTo c) l) ++ List.filter (equivTo c) acc).
  { induction HQ as [|x l Hx HQ IH]; intros acc Ha Hs; cbn [foldl List.filter]; cbv zeta; [done|].
    destruct (IH (insertStable less x acc)) as (H1 & H2 & H3).
    { rewrite insertStable_perm. by constructor. }
    { by apply insertStable_sorted. }
    split; [rewrite H1, insertStable_perm; solve_Permutation|]. split; [done|].
    intros c Hc. rewrite H3, insertStable_filter by done.
    destruct (equivTo c x); [|done]. by rewrite reverse_cons, <- (assoc_L (++)). }
  destruct (Hgen [] ltac:(constructor) ltac:(constructor)) as (H1 & H2 & H3).
  set (r := foldl _ _ _) in *. split; [rewrite reverse_Permutation, H1; by rewrite app_nil_r|].
  split; [by apply StronglySorted_reverse|].
  intros c Hc. rewrite filter_reverse_list, H3, app_nil_r by done. apply reverse_involutive.
Qed.
End stable.

(** Trades are executed in the order of what they pay.  For requests that sell a
    positive amount, sorting keeps every request exactly once, a request never runs before
    one with a larger ratio of fee and amount, and requests with the same ratio keep the
    order in which they arrived. *)
Theorem trade_order fees sellAmounts txs
    (Hpos : Forall (λ tx, 0 < default 0 (sellAmounts !! tx_id tx)) txs) :
  let less := payBetter fees sellAmounts in
  SliceStable less txs ≡ₚ txs ∧ StronglySorted (λ a b, less b a = false) (SliceStable less txs) ∧
  ∀ tx, tx ∈ txs →
    List.filter (equivTo less tx) (SliceStable less txs) = List.filter (equivTo less tx) txs.
Proof.
  intros less.
  destruct (SliceStable_spec less (λ tx, 0 < default 0 (sellAmounts !! tx_id tx))) with (l := txs)
    as (H1 & H2 & H3); try done.
  - intros a b c Ha Hb Hc. unfold less, payBetter. rewrite !Z.ltb_ge. cbn in *.
    set (fa := default 0 (fees !! tx_id a)). set (fb := default 0 (fees !! tx_id b)).
    set (fc := default 0 (fees !! tx_id c)). nia.
  - intros a b. unfold less, payBetter. rewrite Z.ltb_lt, Z.ltb_ge. lia.
  - split; [done|]. split; [done|]. intros tx Htx. apply H3. rewrite Forall_forall in Hpos. by apply Hpos.
Qed.

(** A request that pays 30 on 1000 runs before one that pays 20, and the second of two
    equal ratios stays behind. *)
Lemma trade_order_witness :
  let tx h := mkTx h 0 false (mkTradeRequest ["p1"] emptyHash 1000 1 50 ∅) in
  let fees := {[Hash_String emptyHash := 20; Hash_String PRVCoinID := 30]} in
  let sells := {[Hash_String emptyHash := 1000; Hash_String PRVCoinID := 1000]} in
  SliceStable (payBetter fees sells) [tx emptyHash; tx PRVCoinID] = [tx PRVCoinID; tx emptyHash] ∧
  StronglySorted (λ a b, payBetter fees sells b a = false)
    (SliceStable (payBetter fees sells) [tx emptyHash; tx PRVCoinID]).
Proof.
  intros tx fees sells. split; [vm_compute; reflexivity|].
  apply (trade_order fees sells [tx emptyHash; tx PRVCoinID]).
  repeat apply Forall_cons_2; [vm_compute; reflexivity..|apply Forall_nil_2].
Defined.

(** ** The block *)

(** What request validation guarantees: amounts that do not overflow together when they are
    of one token, and receivers for the refund. *)
Record wf_trade_tx (tx : Tx TradeRequest) : Prop := {
  wtx_md : wf_trade_request (tx_Metadata tx);
  wtx_sum : paysPRV tx = false → tr_SellAmount (tx_Metadata tx) + tr_TradingFee (tx_Metadata tx) < word64;
  wtx_receiver : is_Some (tr_Receiver (tx_Metadata tx) !! tr_TokenToSell (tx_Metadata tx));
  wtx_prv : paysPRV tx = true → is_Some (tr_Receiver (tx_Metadata tx) !! PRVCoinID) }.

(** What a request brings, and what an accepted trade leaves with the fee accounts. *)
Definition brought (tok : Hash) (tx : Tx TradeRequest) : Z :=
  let md := tx_Metadata tx in
  ofToken tok (tr_TokenToSell md) (tr_SellAmount md) +
  ofToken tok (feeToken (paysPRV tx) md) (tr_TradingFee md).

Definition rewardOf (tok : Hash) (i : Instruction) : Z :=
  match i with
  | AcceptedTradeInst md _ _ => list_sum (feeOf tok) (at_RewardEarned md)
  | _ => 0
  end.

(** The rewards an instruction books, pool by pool. *)
Definition earnedOf (i : Instruction) : list (gmap Hash Z) :=
  match i with AcceptedTradeInst md _ _ => at_RewardEarned md | _ => [] end.

Lemma rewardOf_earned tok insts :
  list_sum (rewardOf tok) insts = list_sum (feeOf tok) (mjoin (earnedOf <$> insts)).
Proof.
  induction insts as [|i insts IH]; [done|]. rewrite list_sum_cons, IH. cbn.
  rewrite list_sum_app. f_equal. by destruct i.
Qed.

Definition balance (tok : Hash) (insts : list Instruction) : Z :=
  list_sum (rewardOf tok) insts + payouts tok insts.

Lemma balance_app tok a b : balance tok (a ++ b) = balance tok a + balance tok b.
Proof. unfold balance. rewrite list_sum_app, payouts_app. lia. Qed.

(** A refund returns exactly what the request brought. *)
Lemma refund_trade tx : wf_trade_tx tx →
  ∃ insts, getRefundedTradeInstructions (tx_Metadata tx) (paysPRV tx) (tx_Hash tx) (tx_ShardID tx) =
    Ok insts ∧ mjoin (earnedOf <$> insts) = [] ∧ Forall plain insts ∧ ∀ tok, balance tok insts = brought tok tx.
Proof.
  intros [[Hs [Hf Hf'] _ _] Hsum [r Hr] Hprv]. unfold getRefundedTradeInstructions. rewrite Hr.
  assert (Hadd : paysPRV tx = false →
    add64 (tr_SellAmount (tx_Metadata tx)) (tr_TradingFee (tx_Metadata tx)) =
    tr_SellAmount (tx_Metadata tx) + tr_TradingFee (tx_Metadata tx))
    by (intros E; specialize (Hsum E); apply u64_small; split; lia).
  unfold balance, payouts, list_sum, brought, feeToken, ofToken.
  destruct (paysPRV tx).
  - destruct Hprv as [q ->]; [done|]. eexists. do 2 (split; [done|]). split; [solve_plain|]. intros tok. cbn. lia.
  - specialize (Hadd eq_refl). eexists. do 2 (split; [done|]).
    split; [rewrite Hadd; solve_plain|]. intros tok. cbn. rewrite Hadd. case_decide; lia.
Qed.

Section block.
Context (params : Params) (w : Weighted).
Hypothesis Hpar : wf_params params.

Lemma tradeTx_conserves tx pairs :
  wf_exchange pairs → wf_trade_tx tx → wg_feeInPRV w !! tx_id tx = Some (paysPRV tx) →
  ∃ insts pairs', tradeTx params w tx pairs = Ok (insts, pairs') ∧ wf_exchange pairs' ∧
    trade_steps params pairs (mjoin (earnedOf <$> insts)) pairs' ∧ Forall plain insts ∧
    ∀ tok, poolsHoldings tok pairs' + balance tok insts = poolsHoldings tok pairs + brought tok tx.
Proof.
  intros Hwf Htx Hflag. unfold tradeTx. rewrite Hflag. cbn [default from_option id].
  destruct (refund_trade tx Htx) as (refunds & -> & Hno & Hpl & Href). cbn [mbind outcome_bind].
  assert (Hr : ∃ insts pairs', Ok (refunds, pairs) = Ok (insts, pairs') ∧ wf_exchange pairs' ∧
    trade_steps params pairs (mjoin (earnedOf <$> insts)) pairs' ∧ Forall plain insts ∧
    ∀ tok, poolsHoldings tok pairs' + balance tok insts = poolsHoldings tok pairs + brought tok tx).
  { exists refunds, pairs. do 2 (split; [done|]). split; [rewrite Hno; constructor|]. split; [done|].
    intros tok. by rewrite Href. }
  destruct (tr_TradePath (tx_Metadata tx)) as [|id path] eqn:Ep; [done|]. rewrite <- Ep.
  destruct (_ <? _); [done|].
  pose proof (executeTrade_conserves params (paysPRV tx) (tx_Metadata tx) pairs Hwf Hpar (wtx_md _ Htx)) as Hex.
  rewrite Ep in Hex at 1. specialize (Hex ltac:(done)).
  destruct (executeTrade _ _ _ _) as [[amd pairs']| | |]; try done.
  destruct Hex as (Hwf' & Hmin & Hts & Hs). pose proof (wtr_min _ (wtx_md _ Htx)). eexists _, _. do 2 (split; [done|]).
  split; [cbn; by rewrite app_nil_r|]. split; [solve_plain|].
  intros tok. specialize (Hs tok). unfold balance, payouts, brought. rewrite !list_sum_cons.
  change (list_sum (payout tok) []) with 0. change (list_sum (rewardOf tok) []) with 0.
  cbn [payout rewardOf]. fold (ofToken tok (at_TokenToBuy amd) (at_Amount amd)). lia.
Qed.

Lemma tradeLoop_conserves txs pairs :
  wf_exchange pairs → Forall wf_trade_tx txs →
  (∀ tx, tx ∈ txs → wg_feeInPRV w !! tx_id tx = Some (paysPRV tx)) →
  ∃ insts pairs', tradeLoop params w txs pairs = Ok (insts, pairs') ∧ wf_exchange pairs' ∧
    trade_steps params pairs (mjoin (earnedOf <$> insts)) pairs' ∧ Forall plain insts ∧
    ∀ tok, poolsHoldings tok pairs' + balance tok insts =
      poolsHoldings tok pairs + list_sum (brought tok) txs.
Proof.
  intros Hwf Htxs. revert pairs Hwf. induction Htxs as [|tx txs Htx _ IH]; intros pairs Hwf Hfl.
  { eexists _, _. do 2 (split; [done|]). split; [constructor|]. split; [apply Forall_nil_2|]. intros tok.
    unfold balance, payouts, list_sum. cbn. lia. }
  cbn [tradeLoop]. destruct (tradeTx_conserves tx pairs Hwf Htx) as (i1 & p1 & -> & Hw1 & Ht1 & L1 & H1).
  { apply Hfl. left. }
  cbn [mbind outcome_bind]. destruct (IH p1 Hw1) as (i2 & p2 & -> & Hw2 & Ht2 & L2 & H2).
  { intros t Ht. apply Hfl. by right. }
  cbn [mbind outcome_bind]. eexists _, _. do 2 (split; [done|]).
  split; [rewrite fmap_app, join_app; by eapply trade_steps_app|]. split; [by apply Forall_app|]. intros tok.
  rewrite balance_app, list_sum_cons. specialize (H1 tok). specialize (H2 tok). lia.
Qed.

Lemma refundLoop_conserves txs : Forall wf_trade_tx txs →
  (∀ tx, tx ∈ txs → wg_feeInPRV w !! tx_id tx = Some (paysPRV tx)) →
  ∃ insts, refundLoop w txs = Ok insts ∧ mjoin (earnedOf <$> insts) = [] ∧ Forall plain insts ∧
    ∀ tok, balance tok insts = list_sum (brought tok) txs.
Proof.
  induction 1 as [|tx txs Htx _ IH]; intros Hfl; [exists []; by split_and!|]. cbn [refundLoop].
  rewrite (Hfl tx) by left. cbn [default from_option id].
  destruct (refund_trade tx Htx) as (i1 & -> & E1 & L1 & H1). cbn [mbind outcome_bind].
  destruct IH as (i2 & -> & E2 & L2 & H2); [intros t Ht; apply Hfl; by right|]. cbn [mbind outcome_bind].
  eexists. split; [done|]. split; [by rewrite fmap_app, join_app, E1, E2|]. split; [by apply Forall_app|].
  intros tok. by rewrite balance_app, H1, H2, list_sum_cons.
Qed.
End block.

(** The requests that are executed, in their order, and those that are refunded. *)
Lemma trade_weighted params txs pairs :
  wf_exchange pairs → wf_params params → Forall wf_trade_tx txs → NoDup (tx_id <$> txs) →
  ∃ w, getWeightedFee txs (ps_state <$> (map_to_list pairs).*2) params = Ok w ∧
    SliceStable (payBetter (wg_fees w) (wg_sellAmounts w)) (wg_txs w) ++ wg_invalid w ≡ₚ txs ∧
    ∀ tx, tx ∈ txs → wg_feeInPRV w !! tx_id tx = Some (paysPRV tx).
Proof.
  intros Hwf Hpar Htxs Hids. set (pools := ps_state <$> (map_to_list pairs).*2).
  assert (Hpp : Forall wf_price_pool pools).
  { unfold pools. rewrite !Forall_fmap, Forall_forall. intros [id p] Hin%elem_of_map_to_list. cbn.
    destruct (we_pools _ Hwf id p Hin) as [[[? ? ? ?] _ _ Ha _] _]. unfold BaseAmplifier, in_u64 in *.
    unfold wf_price_pool. lia. }
  destruct (getWeightedFee_spec txs pools pools params) as (_ & w & Hw & Hperm);
    [done|done|apply Hpar|apply Hpar|].
  exists w. split; [done|]. split; [|intros tx Htx; by eapply getWeightedFee_flags].
  rewrite <-Hperm. apply Permutation_app_tail. unfold SliceStable. rewrite reverse_Permutation.
  assert (Hgen : ∀ less l acc, foldl (λ prefix x, insertStable less x prefix) acc l ≡ₚ
    l ++ (acc : list (Tx TradeRequest))).
  { intros less l. induction l as [|x l IH]; intros acc; cbn; [done|].
    rewrite IH, insertStable_perm. solve_Permutation. }
  rewrite Hgen. by rewrite app_nil_r.
Qed.

Lemma trade_spec params txs pairs :
  wf_exchange pairs → wf_params params → Forall wf_trade_tx txs → NoDup (tx_id <$> txs) →
  ∃ insts pairs', trade params txs pairs = Ok (insts, pairs') ∧ wf_exchange pairs' ∧
    trade_steps params pairs (mjoin (earnedOf <$> insts)) pairs' ∧ Forall plain insts ∧
    ∀ tok, poolsHoldings tok pairs' + list_sum (rewardOf tok) insts + payouts tok insts =
      poolsHoldings tok pairs + list_sum (brought tok) txs.
Proof.
  intros Hwf Hpar Htxs Hids. unfold trade.
  destruct (trade_weighted params txs pairs Hwf Hpar Htxs Hids) as (w & -> & Hperm & Hflag).
  cbn [mbind outcome_bind]. set (sorted := SliceStable _ _) in *.
  assert (Hall : Forall wf_trade_tx (sorted ++ wg_invalid w)) by by rewrite Hperm.
  apply Forall_app in Hall as [Hv Hi].
  destruct (tradeLoop_conserves params w Hpar sorted pairs Hwf Hv) as (i1 & p1 & -> & Hw1 & Ht1 & L1 & H1).
  { intros tx Htx. apply Hflag. rewrite <-Hperm. apply elem_of_app. by left. }
  cbn [mbind outcome_bind]. destruct (refundLoop_conserves w (wg_invalid w) Hi) as (i2 & -> & E2 & L2 & H2).
  { intros tx Htx. apply Hflag. rewrite <-Hperm. apply elem_of_app. by right. }
  cbn [mbind outcome_bind]. eexists _, _. do 2 (split; [done|]).
  split; [by rewrite fmap_app, join_app, E2, app_nil_r|]. split; [by apply Forall_app|].
  intros tok. pose proof (balance_app tok i1 i2) as Hb. unfold balance in *. specialize (H1 tok). specialize (H2 tok).
  rewrite <- (list_sum_Permutation _ _ _ Hperm), (list_sum_app (brought tok)). lia.
Qed.

(** C30: trading conserves tokens. On a well-formed exchange, with parameters whose fee rates
    are positive and at most the maximum, whose discount is within its bounds, whose fee
    percentages fit without wrapping, and whose minimal PRV reserve for prices is positive
    ([wf_params], more than the check of new parameters demands), every block of well-formed
    trade requests ([wf_trade_tx]: a positive amount to sell, amounts that do not overflow
    together, at most five pools, receivers for the refunds) with distinct transactions is
    processed without error or panic, the exchange stays well formed, and for every token what
    the pools and orders hold afterwards, plus what the fee accounts earned, plus what is paid
    out (bought amounts and refunds) equals what they held before plus what the requests
    brought, fees included. *)
Theorem trade_conserves params txs pairs
    (Hwf : wf_exchange pairs) (Hpar : wf_params params) (Htxs : Forall wf_trade_tx txs)
    (Hids : NoDup (tx_id <$> txs)) :
  ∃ insts pairs', trade params txs pairs = Ok (insts, pairs') ∧ wf_exchange pairs' ∧
    ∀ tok, poolsHoldings tok pairs' + list_sum (rewardOf tok) insts + payouts tok insts =
      poolsHoldings tok pairs + list_sum (brought tok) txs.
Proof.
  destruct (trade_spec params txs pairs) as (insts & pairs' & Hrun & Hw & _ & _ & Hs); [done..|].
  by exists insts, pairs'.
Qed.

(** ** Requests that cannot be executed *)

(** Why a trade is refused: no path; a fee below the rate of the path; a pool twice on the
    path, or one that does not exist; a first pool without the sold token; no receiver for
    the token at the end of the path; pools or a minimal amount that the trade fails. *)
Inductive refused (params : Params) (w : Weighted) (pairs : PoolPairs) (tx : Tx TradeRequest) : Prop :=
  | no_path : tr_TradePath (tx_Metadata tx) = [] → refused params w pairs tx
  | low_fee :
      default 0 (wg_fees w !! tx_id tx) * BPS <
      default 0 (wg_sellAmounts w !! tx_id tx) * pathFeeRate params (tr_TradePath (tx_Metadata tx)) →
      refused params w pairs tx
  | repeated_pool : ¬ NoDup (tr_TradePath (tx_Metadata tx)) → refused params w pairs tx
  | unknown_pool id : id ∈ tr_TradePath (tx_Metadata tx) → pairs !! id = None → refused params w pairs tx
  | foreign_token id path p :
      tr_TradePath (tx_Metadata tx) = id :: path → pairs !! id = Some p →
      tr_TokenToSell (tx_Metadata tx) ≠ pp_token0ID (ps_state p) →
      tr_TokenToSell (tx_Metadata tx) ≠ pp_token1ID (ps_state p) → refused params w pairs tx
  | no_receiver pools dirs t :
      TradePathFromState (tr_TokenToSell (tx_Metadata tx)) (tr_TradePath (tx_Metadata tx)) pairs =
        Ok (pools, dirs, t) →
      tr_Receiver (tx_Metadata tx) !! t = None → refused params w pairs tx
  | failed_trade pools dirs t recv e :
      TradePathFromState (tr_TokenToSell (tx_Metadata tx)) (tr_TradePath (tx_Metadata tx)) pairs =
        Ok (pools, dirs, t) →
      MaybeAcceptTrade (bookFuel (ps_orderbook <$> pools)) (tr_SellAmount (tx_Metadata tx)) 0
        (tr_TradePath (tx_Metadata tx)) recv (ps_state <$> pools) dirs t
        (tr_MinAcceptableAmount (tx_Metadata tx)) (ps_orderbook <$> pools) = Err e →
      tr_Receiver (tx_Metadata tx) !! t = Some recv → refused params w pairs tx.

(** A path that [TradePathFromState] refuses. *)
Lemma bad_path t path pairs :
  ¬ NoDup path ∨ (∃ id, id ∈ path ∧ pairs !! id = None) →
  ∃ e, TradePathFromState t path pairs = Err e.
Proof.
  intros Hbad. unfold TradePathFromState. pose proof (tradePathLoop_spec ∅ t path pairs) as Hspec.
  destruct (tradePathLoop ∅ t path pairs) as [[[pools dirs] t']|e| |]; [|by eexists|done|done].
  destruct Hspec as (Hall & Hnd & _). destruct Hbad as [Hd|(id & Hid & Hnone)]; [done|].
  apply list_elem_of_lookup in Hid as [i Hi]. destruct (Forall2_lookup_l _ _ _ _ _ Hall Hi) as (p & _ & Hp).
  congruence.
Qed.

(** A refused trade fails before anything is stored. *)
Lemma refused_fails params w pairs tx : refused params w pairs tx →
  tr_TradePath (tx_Metadata tx) = [] ∨
  default 0 (wg_fees w !! tx_id tx) * BPS <
    default 0 (wg_sellAmounts w !! tx_id tx) * pathFeeRate params (tr_TradePath (tx_Metadata tx)) ∨
  ∀ inPRV, ∃ e, executeTrade params inPRV (tx_Metadata tx) pairs = Err e.
Proof.
  intros [H|H|H|id Hin H|id path p H Hp H0 H1|pools dirs t H Hr|pools dirs t recv e H Hm Hr];
    [by left|by right; left|right; right; intros inPRV; unfold executeTrade..].
  - destruct (bad_path (tr_TokenToSell (tx_Metadata tx)) (tr_TradePath (tx_Metadata tx)) pairs) as [e ->];
      [by left|by exists e].
  - destruct (bad_path (tr_TokenToSell (tx_Metadata tx)) (tr_TradePath (tx_Metadata tx)) pairs) as [e ->];
      [by right; exists id|by exists e].
  - rewrite H. unfold TradePathFromState. cbn [tradePathLoop]. rewrite Hp.
    rewrite decide_False by set_solver. rewrite !bool_decide_false by done. by eexists.
  - rewrite H. cbn [mbind outcome_bind]. rewrite Hr. by eexists.
  - rewrite H. cbn [mbind outcome_bind]. rewrite Hr, Hm. by eexists.
Qed.

(** C31: a trade that cannot be executed costs its sender nothing.  A request that is refused
    leaves every pool, order, reward and fee account as it was, and its refund pays back,
    token by token, exactly what the request brought: the amount sold and the fee, in the
    token it was paid in. *)
Theorem trade_rejected params w pairs tx (Htx : wf_trade_tx tx)
    (Hfee : wg_feeInPRV w !! tx_id tx = Some (paysPRV tx)) (Hno : refused params w pairs tx) :
  ∃ insts, tradeTx params w tx pairs = Ok (insts, pairs) ∧ Forall plain insts ∧
    mjoin (earnedOf <$> insts) = [] ∧ ∀ tok, payouts tok insts = brought tok tx.
Proof.
  destruct (refund_trade tx Htx) as (insts & Href & He & Hp & Hb). exists insts.
  assert (Hrun : tradeTx params w tx pairs = Ok (insts, pairs)).
  { unfold tradeTx. rewrite Hfee. cbn [default from_option]. unfold id. rewrite Href. cbn [mbind outcome_bind].
    destruct (refused_fails _ _ _ _ Hno) as [H|[H|H]].
    - by rewrite H.
    - destruct (tr_TradePath (tx_Metadata tx)); [done|]. apply Z.ltb_lt in H. unfold id, default in *. by rewrite H.
    - destruct (tr_TradePath (tx_Metadata tx)) eqn:E; [done|]. case_match; [done|].
      by destruct (H (paysPRV tx)) as [e ->]. }
  split; [done|]. split; [done|]. split; [done|]. intros tok. specialize (Hb tok). unfold balance in Hb.
  by rewrite rewardOf_earned, He in Hb.
Qed.

Definition sample_key : string :=
  generatePoolPairKey (Hash_String emptyHash) (Hash_String PRVCoinID) (Hash_String emptyHash).

Lemma sample_exchange_wf : wf_exchange sample_pools.
Proof.
  split; [exact sample_pools_wf|]. intros id p Hid. unfold sample_pools in Hid.
  apply lookup_singleton_Some in Hid as [_ <-]. constructor.
Qed.

Lemma sample_params_wf : wf_params sample_params.
Proof.
  split.
  - unfold wf_cfg, BPS. cbn [feeConfig sample_params fc_bps fc_protocolFeePercent
      fc_stakingPoolRewardPercent fc_defaultOrderTradingRewardRatioBPS fc_orderTradingRewardRatioBPS
      TradingProtocolFeePercent TradingStakingPoolRewardPercent DefaultOrderTradingRewardRatioBPS
      OrderTradingRewardRatioBPS]. split_and!; try lia; [unfold BPS; lia|].
    intros id r [_ <-]%lookup_singleton_Some. lia.
  - intros id. unfold poolFeeOf. cbn [sample_params FeeRateBPS DefaultFeeRateBPS].
    rewrite lookup_singleton. case_decide; cbn; unfold MaxFeeRateBPS; lia.
  - cbn. unfold MaxPRVDiscountPercent. lia.
  - cbn. lia.
Qed.

(** A trade of 1000 units that is accepted, and one without a path that is refunded. *)
Definition sample_trades : list (Tx TradeRequest) :=
  let recv : gmap Hash string := {[emptyHash := "a"%string; PRVCoinID := "b"%string]} in
  [mkTx emptyHash 0 false (mkTradeRequest [sample_key] emptyHash 1000 1 50 recv);
   mkTx PRVCoinID 0 true (mkTradeRequest [] emptyHash 70 1 5 recv)].

Lemma trade_conserves_witness :
  ∃ insts pairs', trade sample_params sample_trades sample_pools = Ok (insts, pairs') ∧
    length insts = 3%nat ∧
    poolsHoldings PRVCoinID pairs' + list_sum (rewardOf PRVCoinID) insts + payouts PRVCoinID insts =
      20000 + 5 ∧
    poolsHoldings emptyHash pairs' + list_sum (rewardOf emptyHash) insts + payouts emptyHash insts =
      50000 + 1000 + 50 + 70.
Proof.
  destruct (trade_conserves sample_params sample_trades sample_pools) as (insts & pairs' & Hrun & _ & Hs).
  - exact sample_exchange_wf.
  - exact sample_params_wf.
  - unfold sample_trades. repeat apply Forall_cons_2; [..|apply Forall_nil_2].
    + split; [split; cbn; unfold in_u64, word64; lia|cbn; unfold word64; lia|eexists; vm_compute; reflexivity|].
      intros Hp. vm_compute in Hp. discriminate Hp.
    + split; [split; cbn; unfold in_u64, word64; lia|cbn; unfold word64; lia|eexists; vm_compute; reflexivity|].
      intros _. eexists. vm_compute. reflexivity.
  - apply (bool_decide_unpack _). vm_compute. exact I.
  - exists insts, pairs'. split; [exact Hrun|]. split.
    + assert (Hlen : match trade sample_params sample_trades sample_pools with
        | Ok (i, _) => length i | _ => O end = 3%nat) by (vm_compute; reflexivity).
      rewrite Hrun in Hlen. exact Hlen.
    + rewrite !Hs. split; vm_compute; reflexivity.
Defined.

(** A request that names a pool twice. *)
Lemma trade_rejected_witness :
  let recv : gmap Hash string := {[emptyHash := "a"%string; PRVCoinID := "b"%string]} in
  let tx := mkTx emptyHash 0 false (mkTradeRequest [sample_key; sample_key] emptyHash 1000 1 50 recv) in
  ∃ insts w, getWeightedFee [tx] (ps_state <$> (map_to_list sample_pools).*2) sample_params = Ok w ∧
    tradeTx sample_params w tx sample_pools = Ok (insts, sample_pools) ∧
    payouts emptyHash insts = 1050 ∧ payouts PRVCoinID insts = 0.
Proof.
  intros recv tx. destruct (getWeightedFee _ _ _) as [w| | |] eqn:E; [|vm_compute in E; discriminate E..].
  assert (Hw : wg_feeInPRV w !! tx_id tx = Some (paysPRV tx)).
  { assert (H : match getWeightedFee [tx] (ps_state <$> (map_to_list sample_pools).*2) sample_params with
      | Ok w => wg_feeInPRV w !! tx_id tx | _ => None end = Some (paysPRV tx)) by (vm_compute; reflexivity).
    rewrite E in H. exact H. }
  assert (Htx : wf_trade_tx tx).
  { split; [split; cbn; unfold in_u64, word64; lia|cbn; unfold word64; lia|eexists; vm_compute; reflexivity|].
    intros Hp. vm_compute in Hp. discriminate Hp. }
  assert (Hdup : ¬ NoDup (tr_TradePath (tx_Metadata tx))).
  { intros [H _]%NoDup_cons. apply H. apply list_elem_of_here. }
  destruct (trade_rejected sample_params w sample_pools tx Htx Hw (repeated_pool _ _ _ _ Hdup))
    as (insts & Hrun & _ & _ & Hpay).
  exists insts, w. split; [reflexivity|]. split; [exact Hrun|].
  rewrite !Hpay. split; vm_compute; reflexivity.
Defined.
