(* ===== verification/OrderProducer.v ===== *)
(** Requests on limit orders ([addOrder], [withdrawOrder] and [withdrawAllMatchedOrders] of
    [blockchain/pdex/state_producer_v2.go]). *)
From S2P Require Import Prelude Hash RawDB Swap Order Reserve OrderBook Trade Reward TrackFee PdexUtils PoolPair Params WeightedFee Instructions LiquidityProducer TradeProducer.

Local Open Scope Z_scope.

(** ** Adding orders *)

(** The order a request asks for in pool [s]: direction, rates, balances and the token it
    buys; [None] if the pool does not trade the token. *)
Definition orderData (md : AddOrderRequest) (s : Pdexv3PoolPair)
    : option (Z * (Z * Z) * (Z * Z) * Hash) :=
  let sellAmountAfterFee := or_SellAmount md in
  if bool_decide (or_TokenToSell md = pp_token0ID s) then
    Some (TradeDirectionSell0, (sellAmountAfterFee, or_MinAcceptableAmount md),
          (sellAmountAfterFee, 0), pp_token1ID s)
  else if bool_decide (or_TokenToSell md = pp_token1ID s) then
    Some (TradeDirectionSell1, (or_MinAcceptableAmount md, sellAmountAfterFee),
          (0, sellAmountAfterFee), pp_token0ID s)
  else None.

(** The number of orders of an NFT. *)
Definition countOf (counts : gmap string Z) (nft : string) : Z := default 0 (counts !! nft).

Definition addOrderTx (params : Params) (nftIDs : gmap string Z) (pairs : PoolPairs)
    (tx : Tx AddOrderRequest) (orderCountByNftID : gmap string Z)
    : outcome (list Instruction * gmap string Z) :=
  let md := tx_Metadata tx in
  let nft := Hash_String (or_NftID md) in
  refundInstructions ← getRefundedAddOrderInstructions md (tx_Hash tx) (tx_ShardID tx);
  let refund := Ok (refundInstructions, orderCountByNftID) in
  if bool_decide (nftIDs !! nft = None) then refund
  else if MaxOrdersPerNft params <=? countOf orderCountByNftID nft then refund
  else match pairs !! or_PoolPairID md with
  | None => refund
  | Some p =>
      let s := ps_state p in
      let orderID := tx_id tx in
      if HasInsufficientLiquidity s then refund
      else if existsb (λ ord, String.eqb (ord_id ord) orderID) (orders (ps_orderbook p)) then refund
      else match orderData md s with
      | None => refund
      | Some (tradeDirection, rates, balances, tokenToBuy) =>
          if bool_decide (or_Receiver md !! tokenToBuy = None) then refund
          else
            let recv t := default ""%string (or_Receiver md !! t) in
            Ok ([AcceptedAddOrderInst
                   (mkAcceptedAddOrder (or_PoolPairID md) orderID (or_NftID md) rates.1 rates.2
                      balances.1 balances.2 tradeDirection
                      (recv (pp_token0ID s), recv (pp_token1ID s)))
                   (tx_Hash tx) (tx_ShardID tx)],
                <[nft := add64 (countOf orderCountByNftID nft) 1]> orderCountByNftID)
      end
  end.

Fixpoint addOrder (params : Params) (nftIDs : gmap string Z) (pairs : PoolPairs)
    (txs : list (Tx AddOrderRequest)) (orderCountByNftID : gmap string Z)
    : outcome (list Instruction * gmap string Z) :=
  match txs with
  | [] => Ok ([], orderCountByNftID)
  | tx :: txs =>
      r ← addOrderTx params nftIDs pairs tx orderCountByNftID;
      let '(insts, counts) := r in
      r ← addOrder params nftIDs pairs txs counts;
      let '(insts', counts) := r in
      Ok (insts ++ insts', counts)
  end.

(** ** Withdrawing from an order *)
Record WithdrawOrderRequest := mkWithdrawOrderRequest {
  wo_PoolPairID : string;
  wo_OrderID : string;
  wo_Amount : Z;
  wo_Receiver : gmap Hash string;
  wo_NftID : Hash }.

(** The first order with the identifier, and its place in the book. *)
Fixpoint findOrder (orderID : string) (l : list Pdexv3Order) : option (nat * Pdexv3Order) :=
  match l with
  | [] => None
  | ord :: l =>
      if String.eqb (ord_id ord) orderID then Some (O, ord)
      else match findOrder orderID l with Some (i, o) => Some (S i, o) | None => None end
  end.

Definition cappedAmount (currentBalance amount : Z) : Z :=
  if (currentBalance <? amount) || (amount =? 0) then currentBalance else amount.

(** What is taken of each token, and the order afterwards. *)
Definition takeBalances (withdrawToken0 withdrawToken1 : bool) (amount : Z) (ord : Pdexv3Order)
    : Z * Z * Pdexv3Order :=
  let amt0 := if withdrawToken0 then cappedAmount (ord_token0Balance ord) amount else 0 in
  let ord := if withdrawToken0 && (0 <? amt0)
             then SetToken0Balance (sub64 (ord_token0Balance ord) amt0) ord else ord in
  let amt1 := if withdrawToken1 then cappedAmount (ord_token1Balance ord) amount else 0 in
  let ord := if withdrawToken1 && (0 <? amt1)
             then SetToken1Balance (sub64 (ord_token1Balance ord) amt1) ord else ord in
  (amt0, amt1, ord).

Definition ps_with_orderbook (b : Orderbook) (p : PoolPairState) : PoolPairState :=
  mkPoolPairState (ps_makingVolume p) (ps_state p) (ps_shares p) (ps_orderRewards p) b
    (ps_lpFeesPerShare p) (ps_lmRewardsPerShare p) (ps_protocolFees p) (ps_stakingPoolFees p)
    (ps_lmLockedShare p).

Definition withdrawOrderTx (tx : Tx WithdrawOrderRequest) (pairs : PoolPairs)
    : outcome (list Instruction * PoolPairs) :=
  let md := tx_Metadata tx in
  match wo_Receiver md !! wo_NftID md with
  | None => Err "NFT receiver not found in WithdrawOrder Request"
  | Some recvStr =>
      let mintInstruction := MintNft (wo_NftID md) recvStr (tx_ShardID tx) (tx_Hash tx) WithdrawOrderMeta in
      let refund := Ok ([mintInstruction;
        RejectedWithdrawOrder (wo_PoolPairID md) (wo_OrderID md) (tx_Hash tx) (tx_ShardID tx)], pairs) in
      match pairs !! wo_PoolPairID md with
      | None => refund
      | Some p =>
          match findOrder (wo_OrderID md) (orders (ps_orderbook p)) with
          | None => refund
          | Some (i, ord) =>
              if negb (bool_decide (ord_nftID ord = wo_NftID md)) then refund
              else
                let token0 := pp_token0ID (ps_state p) in
                let token1 := pp_token1ID (ps_state p) in
                let withdrawToken0 := bool_decide (is_Some (wo_Receiver md !! token0)) in
                let withdrawToken1 := bool_decide (is_Some (wo_Receiver md !! token1)) in
                if withdrawToken0 && withdrawToken1 && negb (wo_Amount md =? 0) then refund
                else
                  let '(amt0, amt1, ord') :=
                    takeBalances withdrawToken0 withdrawToken1 (wo_Amount md) ord in
                  if negb (0 <? amt0) && negb (0 <? amt1) then refund
                  else
                    let withdrawResults0 : gmap Hash Z := if 0 <? amt0 then {[token0 := amt0]} else ∅ in
                    let withdrawResults :=
                      if 0 <? amt1 then <[token1 := amt1]> withdrawResults0 else withdrawResults0 in
                    Ok (mintInstruction ::
                        ((λ ta, AcceptedWithdrawOrder (wo_PoolPairID md) (wo_OrderID md)
                            (default ""%string (wo_Receiver md !! ta.1)) ta.1 ta.2 (tx_Hash tx)
                            (tx_ShardID tx)) <$> sortedTokens withdrawResults),
                        <[wo_PoolPairID md :=
                            ps_with_orderbook (mkOrderbook (<[i := ord']> (orders (ps_orderbook p)))) p]>
                          pairs)
          end
      end
  end.

Fixpoint withdrawOrder (txs : list (Tx WithdrawOrderRequest)) (pairs : PoolPairs)
    : outcome (list Instruction * PoolPairs) :=
  match txs with
  | [] => Ok ([], pairs)
  | tx :: txs =>
      r ← withdrawOrderTx tx pairs;
      let '(insts, pairs) := r in
      r ← withdrawOrder txs pairs;
      let '(insts', pairs) := r in
      Ok (insts ++ insts', pairs)
  end.

(** ** Automatic withdrawal of matched orders

    [shardOf] is the shard of a receiver address ([OTAReceiver.FromString] and
    [OTAReceiver.GetShardID]). *)
Section automatic.
Context (shardOf : string → Z) (limitTxsPerShard : Z).

(** The instructions that empty an order. *)
Definition outputInstructions (pairID : string) (s : Pdexv3PoolPair) (ord : Pdexv3Order)
    : outcome (list Instruction) :=
  let shardID := shardOf (ord_receiver ord).1 in
  out0 ← (if 0 <? ord_token0Balance ord then
            txHash ← derefHash (ord_id ord);
            Ok [AcceptedWithdrawOrder pairID (ord_id ord) (ord_receiver ord).1 (pp_token0ID s)
                  (ord_token0Balance ord) txHash shardID]
          else Ok []);
  out1 ← (if 0 <? ord_token1Balance ord then
            txHash ← derefHash (ord_id ord);
            Ok [AcceptedWithdrawOrder pairID (ord_id ord) (ord_receiver ord).2 (pp_token1ID s)
                  (ord_token1Balance ord) txHash shardID]
          else Ok []);
  Ok (out0 ++ out1).

(** Whether the order can be matched any further (or the test fails). *)
Definition stillMatchable (ord : Pdexv3Order) : bool :=
  match CanMatch ord ((1 - ord_tradeDirection ord) mod 256) with Ok b => b | _ => true end.

Definition emptyOrder (ord : Pdexv3Order) : Pdexv3Order :=
  SetToken1Balance 0 (SetToken0Balance 0 ord).

(** One order, unless the limit of its shard is reached. *)
Definition withdrawMatchedOrder (pairID : string) (s : Pdexv3PoolPair) (ord : Pdexv3Order)
    (numberTxsPerShard : gmap Z Z) : outcome (list Instruction * Pdexv3Order * gmap Z Z) :=
  if stillMatchable ord then Ok ([], ord, numberTxsPerShard)
  else
    insts ← outputInstructions pairID s ord;
    let shardID := shardOf (ord_receiver ord).1 in
    let count := add64 (default 0 (numberTxsPerShard !! shardID)) (Z.of_nat (length insts)) in
    Ok (if limitTxsPerShard <? count then ([], ord, numberTxsPerShard)
        else (insts, emptyOrder ord, <[shardID := count]> numberTxsPerShard)).

(** The orders of one pool. *)
Fixpoint withdrawMatched (pairID : string) (s : Pdexv3PoolPair) (l : list Pdexv3Order)
    (numberTxsPerShard : gmap Z Z) : outcome (list Instruction * list Pdexv3Order * gmap Z Z) :=
  match l with
  | [] => Ok ([], [], numberTxsPerShard)
  | ord :: l =>
      step ← withdrawMatchedOrder pairID s ord numberTxsPerShard;
      let '(insts, ord', counts) := step in
      rest ← withdrawMatched pairID s l counts;
      let '(insts', l', counts) := rest in
      Ok (insts ++ insts', ord' :: l', counts)
  end.

Fixpoint withdrawMatchedPools (pairIDs : list string) (pairs : PoolPairs)
    (numberTxsPerShard : gmap Z Z) : outcome (list Instruction * PoolPairs * gmap Z Z) :=
  match pairIDs with
  | [] => Ok ([], pairs, numberTxsPerShard)
  | pairID :: pairIDs =>
      match pairs !! pairID with
      | None => Panic
      | Some p =>
          r ← withdrawMatched pairID (ps_state p) (orders (ps_orderbook p)) numberTxsPerShard;
          let '(insts, l, counts) := r in
          r ← withdrawMatchedPools pairIDs (<[pairID := ps_with_orderbook (mkOrderbook l) p]> pairs)
                counts;
          let '(insts', pairs, counts) := r in
          Ok (insts ++ insts', pairs, counts)
      end
  end.

Definition withdrawAllMatchedOrders (pairs : PoolPairs) : outcome (list Instruction * PoolPairs) :=
  r ← withdrawMatchedPools (sortedKeys pairs) pairs ∅;
  let '(insts, pairs, _) := r in Ok (insts, pairs).
End automatic.

(** ** New orders: limits and deposits *)
Definition acceptedBy (nft : string) (i : Instruction) : Z :=
  match i with
  | AcceptedAddOrderInst md _ _ => if decide (Hash_String (ao_NftID md) = nft) then 1 else 0
  | _ => 0
  end.

(** What an accepted order holds of a token. *)
Definition deposited (pairs : PoolPairs) (tok : Hash) (i : Instruction) : Z :=
  match i with
  | AcceptedAddOrderInst md _ _ =>
      match pairs !! ao_PoolPairID md with
      | Some p => ofToken tok (pp_token0ID (ps_state p)) (ao_Token0Balance md) +
                  ofToken tok (pp_token1ID (ps_state p)) (ao_Token1Balance md)
      | None => 0
      end
  | _ => 0
  end.

Definition offered (tok : Hash) (tx : Tx AddOrderRequest) : Z :=
  ofToken tok (or_TokenToSell (tx_Metadata tx)) (or_SellAmount (tx_Metadata tx)).

Lemma orderData_balances md s d r b t tok : orderData md s = Some (d, r, b, t) →
  ofToken tok (pp_token0ID s) b.1 + ofToken tok (pp_token1ID s) b.2 =
  ofToken tok (or_TokenToSell md) (or_SellAmount md).
Proof.
  unfold orderData. cbv zeta. case_bool_decide as E0; [|case_bool_decide as E1; [|discriminate]];
    intros [= <- <- <- <-]; cbn; unfold ofToken.
  - rewrite E0. repeat case_decide; lia.
  - rewrite E1. repeat case_decide; lia.
Qed.

Lemma countOf_insert counts k v nft :
  countOf (<[k := v]> counts) nft = if decide (k = nft) then v else countOf counts nft.
Proof. unfold countOf. rewrite lookup_insert. by case_decide. Qed.

Lemma addOrderTx_spec params nftIDs pairs tx counts :
  is_Some (or_Receiver (tx_Metadata tx) !! or_TokenToSell (tx_Metadata tx)) →
  (∀ nft, 0 ≤ countOf counts nft) → MaxOrdersPerNft params < word64 →
  ∃ insts counts', addOrderTx params nftIDs pairs tx counts = Ok (insts, counts') ∧
    (∀ nft, countOf counts' nft = countOf counts nft + list_sum (acceptedBy nft) insts ∧
            countOf counts nft ≤ countOf counts' nft ≤
            Z.max (countOf counts nft) (MaxOrdersPerNft params)) ∧
    ∀ tok, list_sum (deposited pairs tok) insts + payouts tok insts = offered tok tx.
Proof.
  intros [r Hr] Hc Hmax. unfold addOrderTx, getRefundedAddOrderInstructions. rewrite Hr.
  cbn [mbind outcome_bind]. set (md := tx_Metadata tx) in *. set (nft0 := Hash_String (or_NftID md)).
  set (refund := Ok (_, counts)).
  assert (Hrefund : ∃ insts counts', refund = Ok (insts, counts') ∧
    (∀ nft, countOf counts' nft = countOf counts nft + list_sum (acceptedBy nft) insts ∧
            countOf counts nft ≤ countOf counts' nft ≤
            Z.max (countOf counts nft) (MaxOrdersPerNft params)) ∧
    ∀ tok, list_sum (deposited pairs tok) insts + payouts tok insts = offered tok tx).
  { eexists _, _. split; [done|]. unfold payouts, offered, ofToken, list_sum. cbn. fold md.
    split; [intros nft|intros tok]; lia. }
  destruct (bool_decide _); [done|]. destruct (_ <=? _) eqn:Hlim; [done|].
  destruct (pairs !! or_PoolPairID md) as [p|] eqn:Hp; [|done]. destruct (HasInsufficientLiquidity _); [done|].
  destruct (existsb _ _); [done|].
  destruct (orderData md (ps_state p)) as [[[[d rt] b] t]|] eqn:Hd; [|done].
  destruct (bool_decide _); [done|]. eexists _, _. split; [done|]. split.
  - intros nft. pose proof (Hc nft0) as H0. unfold add64. rewrite u64_small by (unfold in_u64; lia).
    unfold list_sum. cbn [foldr acceptedBy ao_NftID]. fold nft0.
    rewrite countOf_insert. case_decide as E; [rewrite <- E|]; lia.
  - intros tok. unfold payouts, list_sum. cbn [foldr deposited payout ao_PoolPairID ao_Token0Balance
      ao_Token1Balance]. rewrite Hp. unfold offered. fold md.
    rewrite <- (orderData_balances md (ps_state p) d rt b t tok Hd). lia.
Qed.

(** What validation guarantees of a request, and what an accepted order is: a well-formed
    order of a pool of the exchange, named by its transaction. *)
Record wf_order_request (md : AddOrderRequest) : Prop := {
  wor_receiver : is_Some (or_Receiver md !! or_TokenToSell md);
  wor_sell : 0 < or_SellAmount md < word64;
  wor_min : 0 < or_MinAcceptableAmount md < word64 }.

Definition orderOf (md : AcceptedAddOrder) : Pdexv3Order :=
  mkOrder (ao_OrderID md) (ao_NftID md) (ao_Token0Rate md) (ao_Token1Rate md) (ao_Token0Balance md)
    (ao_Token1Balance md) (ao_TradeDirection md) (ao_Receiver md).

Definition placed (pairs : PoolPairs) (i : Instruction) : Prop :=
  match i with
  | AcceptedAddOrderInst md tx _ =>
      is_Some (pairs !! ao_PoolPairID md) ∧ bk_order (orderOf md) ∧ ao_OrderID md = Hash_String tx
  | _ => plain i
  end.

Lemma addOrderTx_placed params nftIDs pairs tx counts insts counts' :
  wf_order_request (tx_Metadata tx) →
  addOrderTx params nftIDs pairs tx counts = Ok (insts, counts') → Forall (placed pairs) insts.
Proof.
  intros [[r Hr] Hs Hm]. unfold addOrderTx, getRefundedAddOrderInstructions. rewrite Hr.
  cbn [mbind outcome_bind]. set (md := tx_Metadata tx) in *. set (refund := Ok (_, counts)). intros Hrun.
  assert (Hrefund : refund = Ok (insts, counts') → Forall (placed pairs) insts).
  { intros [= <- _]. apply Forall_cons_2; [|apply Forall_nil_2]. split; [|done].
    intros tok. cbn [payout]. case_decide; lia. }
  destruct (bool_decide _); [by apply Hrefund|]. destruct (_ <=? _); [by apply Hrefund|].
  destruct (pairs !! or_PoolPairID md) as [p|] eqn:Hp; [|by apply Hrefund].
  destruct (HasInsufficientLiquidity _); [by apply Hrefund|]. destruct (existsb _ _); [by apply Hrefund|].
  destruct (orderData md (ps_state p)) as [[[[d rt] b] t]|] eqn:Hd; [|by apply Hrefund].
  destruct (bool_decide _); [by apply Hrefund|]. injection Hrun as <- _.
  apply Forall_cons_2; [|apply Forall_nil_2]. cbn. split; [by exists p|]. split; [|done].
  unfold orderData in Hd. destruct (bool_decide _); [|destruct (bool_decide _); [|done]];
    injection Hd as <- <- <- _; (split; [split; cbn; unfold in_u64; lia|cbn; by (left + right)]).
Qed.

Lemma addOrder_placed params nftIDs pairs txs counts insts counts' :
  Forall (λ tx, wf_order_request (tx_Metadata tx)) txs →
  addOrder params nftIDs pairs txs counts = Ok (insts, counts') → Forall (placed pairs) insts.
Proof.
  intros Htxs. revert counts insts counts'. induction Htxs as [|tx txs Htx _ IH]; intros counts insts counts'; cbn [addOrder].
  { intros [= <- _]. apply Forall_nil_2. }
  intros Hrun. apply outcome_bind_Ok in Hrun as ([i1 c1] & H1 & Hrun).
  apply outcome_bind_Ok in Hrun as ([i2 c2] & H2 & [= <- _]).
  apply Forall_app. split; [by eapply addOrderTx_placed|].
  by eapply IH.
Qed.

(** The request an accepted order answers; every request is answered at most once. *)
Definition orderTx (i : Instruction) : option Hash :=
  match i with AcceptedAddOrderInst _ tx _ => Some tx | _ => None end.

Lemma addOrderTx_answers params nftIDs pairs tx counts insts counts' :
  addOrderTx params nftIDs pairs tx counts = Ok (insts, counts') →
  sublist (omap orderTx insts) [tx_Hash tx].
Proof.
  unfold addOrderTx, getRefundedAddOrderInstructions. intros ([|i refund] & Hre & Hrun)%outcome_bind_Ok.
  { by destruct (_ !! _). }
  set (r := Ok (_, counts)) in Hrun.
  assert (Hr : r = Ok (insts, counts') → sublist (omap orderTx insts) [tx_Hash tx]).
  { destruct (_ !! _); [|done]. injection Hre as <- <-. intros [= <- _]. cbn. apply sublist_nil_l. }
  destruct (bool_decide _); [by apply Hr|]. destruct (_ <=? _); [by apply Hr|].
  destruct (pairs !! _); [|by apply Hr]. destruct (HasInsufficientLiquidity _); [by apply Hr|].
  destruct (existsb _ _); [by apply Hr|]. destruct (orderData _ _) as [[[[d rt] b] t]|]; [|by apply Hr].
  destruct (bool_decide _); [by apply Hr|]. by injection Hrun as <- _.
Qed.

Lemma addOrder_answers params nftIDs pairs txs counts insts counts' :
  addOrder params nftIDs pairs txs counts = Ok (insts, counts') →
  sublist (omap orderTx insts) (tx_Hash <$> txs).
Proof.
  revert counts insts. induction txs as [|tx txs IH]; intros counts insts; cbn [addOrder].
  { by intros [= <- _]. }
  intros ([i1 c1] & E1 & ([i2 c2] & E2 & [= <- <-])%outcome_bind_Ok)%outcome_bind_Ok.
  rewrite omap_app. change (tx_Hash <$> tx :: txs) with ([tx_Hash tx] ++ (tx_Hash <$> txs)).
  apply sublist_app; [by eapply addOrderTx_answers|by eapply IH].
Qed.

Lemma addOrder_spec params nftIDs pairs txs counts :
  Forall (λ tx, is_Some (or_Receiver (tx_Metadata tx) !! or_TokenToSell (tx_Metadata tx))) txs →
  (∀ nft, 0 ≤ countOf counts nft) → MaxOrdersPerNft params < word64 →
  ∃ insts counts', addOrder params nftIDs pairs txs counts = Ok (insts, counts') ∧
    (∀ nft, countOf counts' nft = countOf counts nft + list_sum (acceptedBy nft) insts ∧
            countOf counts' nft ≤ Z.max (countOf counts nft) (MaxOrdersPerNft params)) ∧
    ∀ tok, list_sum (deposited pairs tok) insts + payouts tok insts = list_sum (offered tok) txs.
Proof.
  intros Hrecv Hcounts Hmax. revert counts Hcounts.
  induction Hrecv as [|tx txs Htx _ IH]; intros counts Hc.
  { eexists _, _. split; [done|]. split; [intros nft|intros tok]; unfold payouts, list_sum; cbn; lia. }
  cbn [addOrder].
  destruct (addOrderTx_spec params nftIDs pairs tx counts Htx Hc Hmax) as (i1 & c1 & -> & H1 & P1).
  cbn [mbind outcome_bind]. destruct (IH c1) as (i2 & c2 & -> & H2 & P2).
  { intros nft. destruct (H1 nft). specialize (Hc nft). lia. }
  cbn [mbind outcome_bind]. eexists _, _. split; [done|]. split.
  - intros nft. rewrite list_sum_app. destruct (H1 nft), (H2 nft). lia.
  - intros tok. rewrite list_sum_app, payouts_app, list_sum_cons. specialize (P1 tok). specialize (P2 tok). lia.
Qed.

(** The order limit holds and no deposit is lost.  Every block of add-order requests
    (with a receiver for the refund) is processed; the counter of an NFT grows by exactly
    its accepted orders and never beyond [MaxOrdersPerNft]; and for every token the balances
    of the accepted orders plus the refunds are what the requests offered. *)
Theorem addOrder_limits params nftIDs pairs txs counts
    (Hrecv : Forall (λ tx, is_Some (or_Receiver (tx_Metadata tx) !! or_TokenToSell (tx_Metadata tx))) txs)
    (Hcounts : ∀ nft, 0 ≤ countOf counts nft) (Hmax : MaxOrdersPerNft params < word64) :
  ∃ insts counts', addOrder params nftIDs pairs txs counts = Ok (insts, counts') ∧
    (∀ nft, countOf counts' nft = countOf counts nft + list_sum (acceptedBy nft) insts ∧
            countOf counts' nft ≤ Z.max (countOf counts nft) (MaxOrdersPerNft params)) ∧
    ∀ tok, list_sum (deposited pairs tok) insts + payouts tok insts = list_sum (offered tok) txs.
Proof.
  by apply addOrder_spec.
Qed.

Definition sample_order_request (sell : Hash) (h : Hash) : Tx AddOrderRequest :=
  mkTx h 0 false (mkAddOrderRequest sell sample_key 500 100
    {[emptyHash := "a"%string; PRVCoinID := "b"%string]} sample_nft).

(** With a limit of one, the first of two orders is accepted and the second refunded. *)
Lemma addOrder_limits_witness :
  let params := mkParams 30 ∅ 25 10 20 ∅ ∅ [] 100 1 5 1000 1500 ∅ ∅ 0 20 ∅ in
  ∃ insts counts', addOrder params sample_nfts sample_pools
      [sample_order_request emptyHash emptyHash; sample_order_request PRVCoinID PRVCoinID] ∅ =
      Ok (insts, counts') ∧ countOf counts' (Hash_String sample_nft) = 1 ∧
    list_sum (deposited sample_pools PRVCoinID) insts + payouts PRVCoinID insts = 500.
Proof.
  intros params. destruct (addOrder_limits params sample_nfts sample_pools
    [sample_order_request emptyHash emptyHash; sample_order_request PRVCoinID PRVCoinID] ∅)
    as (insts & counts' & Hrun & _ & Hs).
  - repeat apply Forall_cons_2; [eexists; vm_compute; reflexivity..|apply Forall_nil_2].
  - intros nft. unfold countOf. rewrite lookup_empty. cbn. lia.
  - cbn. unfold word64. lia.
  - exists insts, counts'. split; [exact Hrun|]. split.
    + assert (Hc : match addOrder params sample_nfts sample_pools
          [sample_order_request emptyHash emptyHash; sample_order_request PRVCoinID PRVCoinID] ∅ with
        | Ok (_, c) => countOf c (Hash_String sample_nft) | _ => 0 end = 1) by (vm_compute; reflexivity).
      rewrite Hrun in Hc. exact Hc.
    + rewrite Hs. vm_compute. reflexivity.
Defined.

(** ** Withdrawals conserve *)
Lemma findOrder_spec id l i o : findOrder id l = Some (i, o) → l !! i = Some o ∧ ord_id o = id.
Proof.
  revert i. induction l as [|a l IH]; intros i; cbn; [done|].
  destruct (String.eqb (ord_id a) id) eqn:E; [intros [= <- <-]; by apply String.eqb_eq in E|].
  destruct (findOrder id l) as [[j o']|]; [|done]. intros [= <- <-]. by apply IH.
Qed.

Lemma cappedAmount_le b a : 0 ≤ b → 0 ≤ a → 0 ≤ cappedAmount b a ≤ b.
Proof. intros. unfold cappedAmount. destruct (_ || _) eqn:E; [lia|]. apply orb_false_iff in E. lia. Qed.

Lemma takeBalances_spec w0 w1 amt o a0 a1 o' : wf_order o → 0 ≤ amt →
  takeBalances w0 w1 amt o = (a0, a1, o') →
  same_order o o' ∧ wf_order o' ∧ 0 ≤ a0 ∧ 0 ≤ a1 ∧
  ord_token0Balance o' = ord_token0Balance o - a0 ∧ ord_token1Balance o' = ord_token1Balance o - a1.
Proof.
  intros [Hr0 Hr1 Hb0 Hb1] Ha. unfold takeBalances. unfold in_u64 in *.
  set (x0 := if w0 then cappedAmount (ord_token0Balance o) amt else 0).
  assert (H0 : 0 ≤ x0 ≤ ord_token0Balance o).
  { unfold x0. destruct w0; [apply cappedAmount_le; lia|lia]. }
  set (o1 := if w0 && (0 <? x0) then _ else o).
  assert (Ho1 : same_order o o1 ∧ wf_order o1 ∧ ord_token0Balance o1 = ord_token0Balance o - x0 ∧
    ord_token1Balance o1 = ord_token1Balance o).
  { unfold o1. destruct (w0 && (0 <? x0)) eqn:E.
    - rewrite sub64_exact by (unfold in_u64; lia). split; [by repeat split|].
      split; [split; cbn; unfold in_u64; lia|cbn; lia].
    - assert (x0 = 0) as -> by (unfold x0 in *; apply andb_false_iff in E as [->|E]; [done|lia]).
      split; [by repeat split|]. split; [by split|lia]. }
  destruct Ho1 as (S1 & [? ? W2 W3] & E0 & E1). clearbody o1. unfold in_u64 in *.
  set (x1 := if w1 then cappedAmount (ord_token1Balance o1) amt else 0).
  assert (H1 : 0 ≤ x1 ≤ ord_token1Balance o1).
  { unfold x1. destruct w1; [apply cappedAmount_le; lia|lia]. }
  intros [= <- <- <-]. destruct (w1 && (0 <? x1)) eqn:E.
  - rewrite sub64_exact by (unfold in_u64; lia). split; [by destruct S1 as (?&?&?&?&?&?); repeat split|].
    split; [split; cbn; unfold in_u64; lia|cbn; lia].
  - assert (x1 = 0) as -> by (unfold x1 in *; apply andb_false_iff in E as [->|E]; [done|lia]).
    split; [done|]. split; [by split|lia].
Qed.

(** Replacing an order by one with less. *)
Lemma holdings_put tok p i o o' : orders (ps_orderbook p) !! i = Some o →
  poolHoldings tok (ps_with_orderbook (mkOrderbook (<[i := o']> (orders (ps_orderbook p)))) p) =
  poolHoldings tok p +
    ofToken tok (pp_token0ID (ps_state p)) (ord_token0Balance o' - ord_token0Balance o) +
    ofToken tok (pp_token1ID (ps_state p)) (ord_token1Balance o' - ord_token1Balance o).
Proof.
  intros Ho. unfold poolHoldings, ofToken. cbn [ps_with_orderbook ps_state ps_orderbook orders].
  rewrite !(list_sum_insert _ _ _ _ _ Ho). repeat case_decide; lia.
Qed.

Lemma with_orderbook_wf pairs id p b : wf_exchange pairs → pairs !! id = Some p → book_wf b →
  wf_exchange (<[id := ps_with_orderbook b p]> pairs).
Proof.
  intros Hwf Hp Hb. destruct (we_pools _ Hwf _ _ Hp) as [[? ? ? ? [? ? ? Heach ? ?]] Hk]. split.
  - apply wf_pools_insert; [apply Hwf| |done]. split; try done. split; try done.
    intros nft s Hs. by destruct (Heach nft s Hs).
  - intros i q. rewrite lookup_insert. case_decide; [by intros [= <-]|apply Hwf].
Qed.

Lemma same_orders_put l i o o' : l !! i = Some o → same_order o o' →
  Forall2 same_order l (<[i := o']> l).
Proof. intros Hi Ho. rewrite <- (list_insert_id l i o Hi) at 1. by apply Forall2_insert. Qed.

(** The book of one pool is replaced by one with the same orders, other balances. *)
Inductive book_changed (pools : PoolPairs) : PoolPairs → Prop :=
  | book_replaced id p b :
      pools !! id = Some p → book_same (ps_orderbook p) b → book_wf b →
      book_changed pools (<[id := ps_with_orderbook b p]> pools).

(** The payments of a withdrawal. *)
Lemma withdraw_payouts (tok t0 t1 : Hash) (a0 a1 : Z) (build : Hash * Z → Instruction) :
  t0 ≠ t1 → 0 ≤ a0 → 0 ≤ a1 →
  (∀ ta tok, payout tok (build ta) = if decide (ta.1 = tok) then ta.2 else 0) →
  let m0 : gmap Hash Z := if 0 <? a0 then {[t0 := a0]} else ∅ in
  let m := if 0 <? a1 then <[t1 := a1]> m0 else m0 in
  payouts tok (build <$> sortedTokens m) = ofToken tok t0 a0 + ofToken tok t1 a1.
Proof.
  intros Hne H0 H1 Hb m0 m. unfold payouts. rewrite list_sum_fmap, (list_sum_Permutation _ _ _ (sortedTokens_perm m)).
  transitivity (from_option (λ x, x) 0 (m !! tok)).
  { rewrite <- (list_sum_token (λ x, x) m tok).
    induction (map_to_list m) as [|ta l IH]; [done|]. by rewrite !list_sum_cons, Hb, IH. }
  unfold m, m0, ofToken.
  destruct (0 <? a0) eqn:E0, (0 <? a1) eqn:E1;
    rewrite ?lookup_insert, ?lookup_singleton, ?lookup_empty; repeat case_decide; cbn; subst;
    try done; lia.
Qed.

Lemma withdrawResults_nonneg (t0 t1 : Hash) (a0 a1 : Z) t a : 0 ≤ a0 → 0 ≤ a1 →
  (let m0 : gmap Hash Z := if 0 <? a0 then {[t0 := a0]} else ∅ in
   if 0 <? a1 then <[t1 := a1]> m0 else m0) !! t = Some a → 0 ≤ a.
Proof.
  cbv zeta. intros H0 H1. destruct (0 <? a1), (0 <? a0);
    rewrite ?lookup_insert, ?lookup_singleton, ?lookup_empty; repeat case_decide; naive_solver.
Qed.

Definition ownedBy (txs : list (Tx WithdrawOrderRequest)) (o : Pdexv3Order) : Prop :=
  ord_nftID o ∈ (λ tx, wo_NftID (tx_Metadata tx)) <$> txs.

(** The order is still in its book, unchanged. *)
Definition kept (pairs : PoolPairs) (id : string) (o : Pdexv3Order) : Prop :=
  ∃ p, pairs !! id = Some p ∧ o ∈ orders (ps_orderbook p).

Record wf_withdraw_order (md : WithdrawOrderRequest) : Prop := {
  wwo_nft : is_Some (wo_Receiver md !! wo_NftID md);
  wwo_amount : 0 ≤ wo_Amount md }.

Lemma withdrawOrderTx_conserves tx pairs :
  wf_exchange pairs → wf_withdraw_order (tx_Metadata tx) →
  ∃ insts pairs', withdrawOrderTx tx pairs = Ok (insts, pairs') ∧ wf_exchange pairs' ∧
    rtc book_changed pairs pairs' ∧ Forall plain insts ∧
    (∀ tok, poolsHoldings tok pairs' + payouts tok insts = poolsHoldings tok pairs) ∧
    ∀ id o, kept pairs id o → ord_nftID o ≠ wo_NftID (tx_Metadata tx) → kept pairs' id o.
Proof.
  intros Hwf [[r Hr] Ha]. unfold withdrawOrderTx. set (md := tx_Metadata tx) in *. rewrite Hr.
  set (refund := Ok ([_; _], pairs)).
  assert (Href : ∃ insts pairs', refund = Ok (insts, pairs') ∧ wf_exchange pairs' ∧
    rtc book_changed pairs pairs' ∧ Forall plain insts ∧
    (∀ tok, poolsHoldings tok pairs' + payouts tok insts = poolsHoldings tok pairs) ∧
    ∀ id o, kept pairs id o → ord_nftID o ≠ wo_NftID md → kept pairs' id o).
  { eexists _, _. split; [done|]. split; [done|]. split; [done|]. split; [solve_plain|].
    split; [|done]. intros tok. unfold payouts, list_sum. cbn. lia. }
  destruct (pairs !! wo_PoolPairID md) as [p|] eqn:Hp; [|done].
  destruct (findOrder _ _) as [[i o]|] eqn:Hf; [|done]. apply findOrder_spec in Hf as [Ho _].
  destruct (negb (bool_decide (ord_nftID o = wo_NftID md))) eqn:Hown; [done|].
  apply negb_false_iff, bool_decide_eq_true in Hown. cbv zeta. destruct (_ && _ && _); [done|].
  destruct (takeBalances _ _ _ o) as [[a0 a1] o'] eqn:Ht.
  pose proof (we_books _ Hwf _ _ Hp) as Hbk. cbn [book_wf Orderbook_laws] in Hbk.
  assert (Hwo : wf_order o) by by eapply Forall_lookup_1.
  destruct (takeBalances_spec _ _ _ _ _ _ _ Hwo Ha Ht) as (Hso & Hwo' & Ha0 & Ha1 & E0 & E1).
  destruct (negb (0 <? a0) && negb (0 <? a1)); [done|].
  destruct (we_pools _ Hwf _ _ Hp) as [Hws _]. destruct (wst_tokens _ Hws) as (_ & _ & Hne).
  eexists _, _. split; [done|]. split; [|split; [|split; [|split]]].
  - apply with_orderbook_wf; [done..|]. cbn. by apply Forall_insert.
  - apply rtc_once. constructor; [done|by eapply same_orders_put|]. cbn. by apply Forall_insert.
  - apply Forall_cons_2; [solve_plain|]. apply Forall_fmap, sortedTokens_Forall. intros t a Hta.
    assert (0 ≤ a) by by eapply (withdrawResults_nonneg _ _ _ _ _ _ Ha0 Ha1 Hta). cbn. solve_plain.
  - intros tok. rewrite poolsHoldings_insert, Hp. cbn [from_option].
    rewrite (holdings_put tok p i o o' Ho), E0, E1.
    match goal with |- context [payouts tok (?a :: ?b)] =>
      change (a :: b) with ([a] ++ b) end. rewrite payouts_app.
    rewrite withdraw_payouts by done. unfold payouts, list_sum, ofToken. cbn [foldr payout].
    repeat case_decide; lia.
  - intros id x (q & Hq & Hx) Hnft. unfold kept. rewrite lookup_insert. case_decide as Hid; [|by exists q].
    subst id. rewrite Hp in Hq. injection Hq as <-. eexists. split; [done|]. cbn.
    apply list_elem_of_lookup in Hx as [j Hj]. apply list_elem_of_lookup. exists j.
    rewrite list_lookup_insert_ne; [done|]. intros ->. rewrite Ho in Hj. congruence.
Qed.

Lemma withdrawOrder_spec txs pairs :
  wf_exchange pairs → Forall (λ tx, wf_withdraw_order (tx_Metadata tx)) txs →
  ∃ insts pairs', withdrawOrder txs pairs = Ok (insts, pairs') ∧ wf_exchange pairs' ∧
    rtc book_changed pairs pairs' ∧ Forall plain insts ∧
    (∀ tok, poolsHoldings tok pairs' + payouts tok insts = poolsHoldings tok pairs) ∧
    ∀ id o, kept pairs id o → ¬ ownedBy txs o → kept pairs' id o.
Proof.
  intros Hwf Htxs. revert pairs Hwf. induction Htxs as [|tx txs Htx _ IH]; intros pairs Hwf.
  { eexists _, _. split; [done|]. split; [done|]. split; [done|]. split; [apply Forall_nil_2|].
    split; [|done]. intros tok. unfold payouts, list_sum. cbn. lia. }
  cbn [withdrawOrder].
  destruct (withdrawOrderTx_conserves tx pairs Hwf Htx) as (i1 & p1 & -> & Hw1 & R1 & L1 & H1 & K1).
  cbn [mbind outcome_bind]. destruct (IH p1 Hw1) as (i2 & p2 & -> & Hw2 & R2 & L2 & H2 & K2).
  cbn [mbind outcome_bind]. eexists _, _. split; [done|]. split; [done|]. split; [by etrans|].
  split; [by apply Forall_app|]. split.
  - intros tok. rewrite payouts_app. specialize (H1 tok). specialize (H2 tok). lia.
  - intros id o Ho Hown. unfold ownedBy in Hown. rewrite fmap_cons, not_elem_of_cons in Hown.
    apply K2; [|apply Hown]. apply K1; [done|apply Hown].
Qed.

(** Withdrawing from orders conserves tokens and respects ownership.  Every block of
    withdrawal requests is processed, the exchange stays well formed, for every token what
    it holds plus what is paid out is what it held, and an order whose NFT none of the
    requests names is left exactly as it was. *)
Theorem withdrawOrder_conserves txs pairs (Hwf : wf_exchange pairs)
    (Htxs : Forall (λ tx, wf_withdraw_order (tx_Metadata tx)) txs) :
  ∃ insts pairs', withdrawOrder txs pairs = Ok (insts, pairs') ∧ wf_exchange pairs' ∧
    (∀ tok, poolsHoldings tok pairs' + payouts tok insts = poolsHoldings tok pairs) ∧
    ∀ id o, kept pairs id o → ¬ ownedBy txs o → kept pairs' id o.
Proof.
  destruct (withdrawOrder_spec txs pairs Hwf Htxs) as (insts & pairs' & ? & ? & _ & _ & ? & ?).
  by exists insts, pairs'.
Qed.

(** A pool with one order that offers 100 units of the first token for 50 of the second,
    of which 40 are already bought. *)
Definition sample_ord (nft : Hash) (b0 b1 : Z) : Pdexv3Order :=
  mkOrder (Hash_String nft) nft 100 50 b0 b1 TradeDirectionSell0 ("r0"%string, "r1"%string).

Definition order_pools (o : Pdexv3Order) : PoolPairs :=
  {[sample_key := ps_with_orderbook (mkOrderbook [o]) sample_state]}.

Lemma order_pools_wf o : wf_order o → wf_exchange (order_pools o).
Proof.
  intros Ho. pose proof (with_orderbook_wf sample_pools sample_key sample_state (mkOrderbook [o])
    sample_exchange_wf) as H. unfold sample_pools in H. fold sample_key in H.
  rewrite insert_singleton_eq in H. apply H; [by rewrite lookup_singleton_eq|].
  apply Forall_cons_2; [done|apply Forall_nil_2].
Qed.

Lemma withdrawOrder_conserves_witness :
  let o := sample_ord sample_nft 20 40 in
  let tx := mkTx PRVCoinID 0 false (mkWithdrawOrderRequest sample_key (ord_id o) 0
    {[emptyHash := "a"%string; PRVCoinID := "b"%string]} sample_nft) in
  ∃ insts pairs', withdrawOrder [tx] (order_pools o) = Ok (insts, pairs') ∧
    payouts PRVCoinID insts = 40 ∧
    poolsHoldings PRVCoinID pairs' + payouts PRVCoinID insts = 20000 + 40.
Proof.
  intros o tx. destruct (withdrawOrder_conserves [tx] (order_pools o)) as (insts & pairs' & Hrun & _ & Hs & _).
  - apply order_pools_wf. split; cbn; unfold in_u64, word64; lia.
  - repeat constructor; [eexists; vm_compute; reflexivity|cbn; lia].
  - exists insts, pairs'. split; [exact Hrun|]. split.
    + assert (Hp : match withdrawOrder [tx] (order_pools o) with
        | Ok (i, _) => payouts PRVCoinID i | _ => 0 end = 40) by (vm_compute; reflexivity).
      rewrite Hrun in Hp. exact Hp.
    + rewrite Hs. vm_compute. reflexivity.
Defined.

(** ** Automatic withdrawals *)
Section automatic_props.
Context (shardOf : string → Z) (limit : Z).
Hypothesis Hlimit : 0 ≤ limit ∧ limit + 2 < word64.

Definition onShard (shard : Z) (i : Instruction) : Z :=
  match i with
  | AcceptedWithdrawOrder _ _ _ _ _ _ s => if decide (s = shard) then 1 else 0
  | _ => 0
  end.

Definition shardCount (counts : gmap Z Z) (shard : Z) : Z := default 0 (counts !! shard).

Lemma shardCount_insert counts k v shard :
  shardCount (<[k := v]> counts) shard = if decide (k = shard) then v else shardCount counts shard.
Proof. unfold shardCount. rewrite lookup_insert. by case_decide. Qed.

(** An order is left alone, or it was no longer matchable and is emptied. *)
Definition emptied (o o' : Pdexv3Order) : Prop :=
  o' = o ∨ stillMatchable o = false ∧ o' = emptyOrder o.

Lemma emptied_trans a b c : emptied a b → emptied b c → emptied a c.
Proof. unfold emptied. intros [->|[Ha ->]] [->|[Hb ->]]; auto. Qed.

Definition ids_ok (l : list Pdexv3Order) : Prop :=
  Forall (λ o, ∃ h, wf_hash h ∧ ord_id o = Hash_String h) l.

(** What a list of orders of pool [s] holds. *)
Definition ordersHold (tok : Hash) (s : Pdexv3PoolPair) (l : list Pdexv3Order) : Z :=
  ofToken tok (pp_token0ID s) (list_sum ord_token0Balance l) +
  ofToken tok (pp_token1ID s) (list_sum ord_token1Balance l).

Lemma ordersHold_cons tok s o l : ordersHold tok s (o :: l) =
  ofToken tok (pp_token0ID s) (ord_token0Balance o) +
  ofToken tok (pp_token1ID s) (ord_token1Balance o) + ordersHold tok s l.
Proof. unfold ordersHold, ofToken. rewrite !list_sum_cons. repeat case_decide; lia. Qed.

Lemma outputInstructions_spec pairID s o : wf_order o → (∃ h, wf_hash h ∧ ord_id o = Hash_String h) →
  ∃ insts, outputInstructions shardOf pairID s o = Ok insts ∧ (length insts ≤ 2)%nat ∧ Forall plain insts ∧
    (∀ tok, payouts tok insts = ofToken tok (pp_token0ID s) (ord_token0Balance o) +
                                ofToken tok (pp_token1ID s) (ord_token1Balance o)) ∧
    ∀ shard, list_sum (onShard shard) insts =
      if decide (shardOf (ord_receiver o).1 = shard) then Z.of_nat (length insts) else 0.
Proof.
  intros [_ _ H0 H1] (h & Hh & Eid). unfold outputInstructions, derefHash, in_u64 in *.
  rewrite !Eid, !NewHashFromStr_String by done.
  destruct (0 <? ord_token0Balance o) eqn:E0, (0 <? ord_token1Balance o) eqn:E1;
    cbn [mbind outcome_bind]; eexists; (split; [reflexivity|]); cbn [app length]; (split; [lia|]);
    (split; [repeat apply Forall_cons_2; try apply Forall_nil_2; solve_plain|]);
    (split; [intros tok; unfold payouts|intros shard]); unfold list_sum, ofToken;
    cbn [foldr payout onShard]; repeat case_decide; lia.
Qed.

Lemma withdrawMatched_spec pairID s l counts :
  Forall wf_order l → ids_ok l → (∀ shard, 0 ≤ shardCount counts shard ≤ limit) →
  ∃ insts l' counts', withdrawMatched shardOf limit pairID s l counts = Ok (insts, l', counts') ∧
    Forall2 emptied l l' ∧ Forall plain insts ∧
    (∀ tok, ordersHold tok s l' + payouts tok insts = ordersHold tok s l) ∧
    ∀ shard, shardCount counts' shard = shardCount counts shard + list_sum (onShard shard) insts ∧
      0 ≤ shardCount counts' shard ≤ limit.
Proof.
  intros Hwf. revert counts. induction Hwf as [|o l Ho _ IH]; intros counts Hids Hc.
  { eexists _, _, _. split; [done|]. split; [constructor|]. split; [apply Forall_nil_2|]. split.
    - intros tok. unfold payouts, list_sum, ordersHold. cbn. lia.
    - intros shard. specialize (Hc shard). unfold list_sum. cbn. lia. }
  apply Forall_cons in Hids as [Hid Hids]. cbn [withdrawMatched].
  assert (Hstep : ∃ insts o' c', withdrawMatchedOrder shardOf limit pairID s o counts = Ok (insts, o', c') ∧
    emptied o o' ∧ Forall plain insts ∧
    (∀ tok, ordersHold tok s [o'] + payouts tok insts = ordersHold tok s [o]) ∧
    ∀ shard, shardCount c' shard = shardCount counts shard + list_sum (onShard shard) insts ∧
      0 ≤ shardCount c' shard ≤ limit).
  { assert (Hskip : emptied o o ∧ Forall plain [] ∧ (∀ tok, ordersHold tok s [o] + payouts tok [] = ordersHold tok s [o]) ∧
      ∀ shard, shardCount counts shard = shardCount counts shard + list_sum (onShard shard) [] ∧
        0 ≤ shardCount counts shard ≤ limit).
    { split; [by left|]. split; [apply Forall_nil_2|]. split; [intros; unfold payouts, list_sum; cbn; lia|].
      intros shard. specialize (Hc shard). unfold list_sum. cbn. lia. }
    unfold withdrawMatchedOrder. destruct (stillMatchable o) eqn:Em; [by eexists _, _, _|].
    destruct (outputInstructions_spec pairID s o Ho Hid) as (insts & -> & Hlen & Hpl & Hpay & Hsh).
    cbn [mbind outcome_bind]. cbv zeta. set (sh := shardOf (ord_receiver o).1) in *.
    fold (shardCount counts sh). pose proof (Hc sh) as Hsc.
    assert (Eadd : add64 (shardCount counts sh) (Z.of_nat (length insts)) =
      shardCount counts sh + Z.of_nat (length insts)) by (apply u64_small; unfold in_u64; lia).
    rewrite Eadd. destruct (limit <? _) eqn:El; [by eexists _, _, _|].
    eexists _, _, _. split; [done|]. split; [by right|]. split; [done|]. split.
    - intros tok. rewrite Hpay, !ordersHold_cons. cbn [emptyOrder SetToken1Balance SetToken0Balance
        ord_token0Balance ord_token1Balance]. unfold ofToken. repeat case_decide; lia.
    - intros shard. specialize (Hc shard). rewrite Hsh, shardCount_insert.
      case_decide; subst; lia. }
  destruct Hstep as (i1 & o' & c1 & -> & He & L1 & H1 & C1). cbn [mbind outcome_bind].
  destruct (IH c1 Hids) as (i2 & l' & c2 & -> & HF & L2 & H2 & C2); [apply C1|].
  cbn [mbind outcome_bind]. eexists _, _, _. split; [done|]. split; [by constructor|].
  split; [by apply Forall_app|]. split.
  - intros tok. specialize (H1 tok). specialize (H2 tok). rewrite payouts_app, !ordersHold_cons in *. lia.
  - intros shard. destruct (C1 shard), (C2 shard). rewrite list_sum_app. lia.
Qed.

(** The identifiers of orders are hashes of transactions. *)
Definition ids_wf (pairs : PoolPairs) : Prop :=
  ∀ id p, pairs !! id = Some p → ids_ok (orders (ps_orderbook p)).

Definition pools_emptied (pairs pairs' : PoolPairs) : Prop :=
  ∀ id p, pairs !! id = Some p → ∃ p', pairs' !! id = Some p' ∧
    Forall2 emptied (orders (ps_orderbook p)) (orders (ps_orderbook p')).

Lemma emptied_refl l : Forall2 emptied l l.
Proof. induction l; constructor; [by left|done]. Qed.

Lemma pools_emptied_trans a b c : pools_emptied a b → pools_emptied b c → pools_emptied a c.
Proof.
  intros H1 H2 id p Hp. destruct (H1 id p Hp) as (q & Hq & F1). destruct (H2 id q Hq) as (r & Hr & F2).
  exists r. split; [done|]. clear -F1 F2. revert F2. generalize (orders (ps_orderbook r)).
  induction F1 as [|x y l k Hxy _ IH]; intros m F2; inversion F2; subst; constructor.
  - by eapply emptied_trans.
  - by apply IH.
Qed.

Lemma emptied_same l l' : Forall2 emptied l l' → Forall2 same_order l l'.
Proof. intros H. eapply Forall2_impl; [done|]. by intros o o' [->|[_ ->]]. Qed.

Lemma emptied_wf l l' : Forall2 emptied l l' → Forall wf_order l → ids_ok l →
  Forall wf_order l' ∧ ids_ok l'.
Proof.
  induction 1 as [|o o' l l' He _ IH]; intros Hw Hi; [done|].
  apply Forall_cons in Hw as [Ho Hw], Hi as [Hid Hi]. destruct (IH Hw Hi). destruct He as [->|[_ ->]].
  - by split; constructor.
  - destruct Ho. split; constructor; try done; by split.
Qed.

Lemma poolHoldings_orders tok p :
  poolHoldings tok p = ofToken tok (pp_token0ID (ps_state p)) (pp_token0RealAmount (ps_state p)) +
    ofToken tok (pp_token1ID (ps_state p)) (pp_token1RealAmount (ps_state p)) +
    ordersHold tok (ps_state p) (orders (ps_orderbook p)).
Proof. unfold poolHoldings, ordersHold, ofToken. repeat case_decide; lia. Qed.

Lemma withdrawMatchedPools_spec ids pairs counts :
  wf_exchange pairs → ids_wf pairs → Forall (λ id, is_Some (pairs !! id)) ids →
  (∀ shard, 0 ≤ shardCount counts shard ≤ limit) →
  ∃ insts pairs' counts',
    withdrawMatchedPools shardOf limit ids pairs counts = Ok (insts, pairs', counts') ∧
    wf_exchange pairs' ∧ rtc book_changed pairs pairs' ∧ Forall plain insts ∧ pools_emptied pairs pairs' ∧
    (∀ tok, poolsHoldings tok pairs' + payouts tok insts = poolsHoldings tok pairs) ∧
    ∀ shard, shardCount counts' shard = shardCount counts shard + list_sum (onShard shard) insts ∧
      0 ≤ shardCount counts' shard ≤ limit.
Proof.
  revert pairs counts. induction ids as [|id ids IH]; intros pairs counts Hwf Hids Hin Hc.
  { eexists _, _, _. split; [done|]. split; [done|]. split; [done|]. split; [apply Forall_nil_2|].
    split; [|split].
    - intros id p Hp. exists p. split; [done|apply emptied_refl].
    - intros tok. unfold payouts, list_sum. cbn. lia.
    - intros shard. specialize (Hc shard). unfold list_sum. cbn. lia. }
  apply Forall_cons in Hin as [[p Hp] Hin]. cbn [withdrawMatchedPools]. rewrite Hp.
  pose proof (we_books _ Hwf _ _ Hp) as Hbk. cbn [book_wf Orderbook_laws] in Hbk.
  destruct (withdrawMatched_spec id (ps_state p) _ counts Hbk (Hids _ _ Hp) Hc)
    as (i1 & l & c1 & -> & HF & L1 & H1 & C1). cbn [mbind outcome_bind].
  destruct (emptied_wf _ _ HF Hbk (Hids _ _ Hp)) as [Hl Hil].
  set (q := ps_with_orderbook (mkOrderbook l) p).
  assert (Hq : ∀ i r, <[id := q]> pairs !! i = Some r → i = id ∧ r = q ∨ pairs !! i = Some r).
  { intros i r. rewrite lookup_insert. case_decide; [intros [= <-]; by left|by right]. }
  destruct (IH (<[id := q]> pairs) c1) as (i2 & pairs' & c2 & -> & Hw2 & R2 & L2 & He2 & H2 & C2).
  { by apply with_orderbook_wf. }
  { intros i r [[-> ->]|Hr]%Hq; [done|by eapply Hids]. }
  { eapply Forall_impl; [done|]. intros i Hi. rewrite lookup_insert. by case_decide. }
  { apply C1. }
  cbn [mbind outcome_bind]. eexists _, _, _. split; [done|]. split; [done|]. split; [|split; [|split; [|split]]].
  - eapply rtc_l; [|done]. constructor; [done| |done]. by apply emptied_same.
  - by apply Forall_app.
  - eapply pools_emptied_trans; [|done]. intros i r Hr. rewrite lookup_insert. case_decide as E.
    + subst i. rewrite Hp in Hr. injection Hr as <-. by exists q.
    + exists r. split; [done|apply emptied_refl].
  - intros tok. specialize (H1 tok). specialize (H2 tok).
    rewrite poolsHoldings_insert, Hp in H2. cbn [from_option] in H2.
    rewrite !poolHoldings_orders in H2. cbn [ps_state ps_orderbook ps_with_orderbook q orders] in H2.
    rewrite payouts_app. lia.
  - intros shard. destruct (C1 shard), (C2 shard). rewrite list_sum_app. lia.
Qed.

Lemma withdrawAllMatchedOrders_spec pairs :
  wf_exchange pairs → ids_wf pairs →
  ∃ insts pairs', withdrawAllMatchedOrders shardOf limit pairs = Ok (insts, pairs') ∧
    wf_exchange pairs' ∧ rtc book_changed pairs pairs' ∧ Forall plain insts ∧ pools_emptied pairs pairs' ∧
    (∀ tok, poolsHoldings tok pairs' + payouts tok insts = poolsHoldings tok pairs) ∧
    ∀ shard, list_sum (onShard shard) insts ≤ limit.
Proof.
  intros Hwf Hids. unfold withdrawAllMatchedOrders.
  destruct (withdrawMatchedPools_spec (sortedKeys pairs) pairs ∅ Hwf Hids)
    as (insts & pairs' & counts & -> & Hw & Hr & Hpl & He & Hh & Hc).
  - apply Forall_forall. intros id. by rewrite elem_of_sortedKeys.
  - intros shard. unfold shardCount. rewrite lookup_empty. cbn. lia.
  - cbn [mbind outcome_bind]. eexists _, _. repeat (split; [done|]).
    intros shard. destruct (Hc shard) as [Hs ?]. unfold shardCount at 2 in Hs.
    rewrite lookup_empty in Hs. cbn in Hs. lia.
Qed.

(** Automatic withdrawal of finished orders.  It is always processed; only orders
    that cannot be matched any further are touched, and those are emptied; for every token
    what the exchange holds plus what it pays is what it held; and no shard gets more than
    [limit] payments in a block. *)
Theorem withdrawAllMatchedOrders_safe pairs (Hwf : wf_exchange pairs) (Hids : ids_wf pairs) :
  ∃ insts pairs', withdrawAllMatchedOrders shardOf limit pairs = Ok (insts, pairs') ∧
    wf_exchange pairs' ∧ pools_emptied pairs pairs' ∧
    (∀ tok, poolsHoldings tok pairs' + payouts tok insts = poolsHoldings tok pairs) ∧
    ∀ shard, list_sum (onShard shard) insts ≤ limit.
Proof.
  destruct (withdrawAllMatchedOrders_spec pairs Hwf Hids) as (insts & pairs' & ? & ? & _ & _ & ? & ? & ?).
  by exists insts, pairs'.
Qed.
End automatic_props.

(** A fully bought order is paid out in one payment; with a limit of zero it waits. *)
Lemma withdrawAllMatchedOrders_safe_witness :
  let o := sample_ord sample_nft 0 50 in
  ∃ insts pairs', withdrawAllMatchedOrders (λ _, 3) 1 (order_pools o) = Ok (insts, pairs') ∧
    payouts PRVCoinID insts = 50 ∧ list_sum (onShard 3) insts ≤ 1.
Proof.
  intros o. assert (Ho : wf_order o) by (split; cbn; unfold in_u64, word64; lia).
  destruct (withdrawAllMatchedOrders_safe (λ _, 3) 1 (conj (Z.le_0_1) eq_refl) (order_pools o))
    as (insts & pairs' & Hrun & _ & _ & _ & Hs).
  - by apply order_pools_wf.
  - intros id p Hp. unfold order_pools in Hp. apply lookup_singleton_Some in Hp as [_ <-].
    cbn [ps_with_orderbook ps_orderbook orders]. apply Forall_cons_2; [|apply Forall_nil_2].
    exists sample_nft. split; reflexivity.
  - exists insts, pairs'. split; [exact Hrun|]. split; [|apply Hs].
    assert (Hp : match withdrawAllMatchedOrders (λ _, 3) 1 (order_pools o) with
      | Ok (i, _) => payouts PRVCoinID i | _ => 0 end = 50) by (vm_compute; reflexivity).
    rewrite Hrun in Hp. exact Hp.
Defined.
