(* ===== verification/RewardProducer.v ===== *)
(** Rewards and parameters ([withdrawLPFee], [withdrawProtocolFee], [mintReward],
    [modifyParams], [userMintNft] and [inscribe] of
    [blockchain/pdex/state_producer_v2.go], [addStakingPoolState] of
    [blockchain/pdex/state_v2_utils.go]). *)
From S2P Require Import Prelude Hash RawDB Swap Order Reserve OrderBook Trade Reward TrackFee PdexUtils PoolPair Staking Params WeightedFee Instructions LiquidityProducer TradeProducer OrderProducer.

Local Open Scope Z_scope.

Definition ps_with_orderRewards (v : gmap string OrderReward) (p : PoolPairState) : PoolPairState :=
  mkPoolPairState (ps_makingVolume p) (ps_state p) (ps_shares p) v (ps_orderbook p)
    (ps_lpFeesPerShare p) (ps_lmRewardsPerShare p) (ps_protocolFees p) (ps_stakingPoolFees p)
    (ps_lmLockedShare p).
Definition ps_with_protocolFees (v : gmap Hash Z) (p : PoolPairState) : PoolPairState :=
  mkPoolPairState (ps_makingVolume p) (ps_state p) (ps_shares p) (ps_orderRewards p) (ps_orderbook p)
    (ps_lpFeesPerShare p) (ps_lmRewardsPerShare p) v (ps_stakingPoolFees p) (ps_lmLockedShare p).
Definition ps_with_makingVolume (v : gmap Hash MakingVolume) (p : PoolPairState) : PoolPairState :=
  mkPoolPairState v (ps_state p) (ps_shares p) (ps_orderRewards p) (ps_orderbook p)
    (ps_lpFeesPerShare p) (ps_lmRewardsPerShare p) (ps_protocolFees p) (ps_stakingPoolFees p)
    (ps_lmLockedShare p).

(** ** Collecting fees and rewards *)

(** A request that names a pool, an NFT and receivers. *)
Record RewardRequest := mkRewardRequest {
  rq_PoolID : string;
  rq_NftID : Hash;
  rq_Receivers : gmap Hash string }.

(** The receivers of a reward; [None] if one is missing. *)
Definition receiversInfo (receivers : gmap Hash string) (reward : gmap Hash Z)
    : option (gmap Hash ReceiverInfo) :=
  if forallb (λ ta, bool_decide (is_Some (receivers !! ta.1))) (map_to_list reward)
  then Some (map_imap (λ tokenID amount,
               Some (mkReceiverInfo (default ""%string (receivers !! tokenID)) amount)) reward)
  else None.

(** A share after its rewards are paid. *)
Definition collectedShare (p : PoolPairState) (share : Share) : Share :=
  mkShare (sh_amount share) (sh_lmLockedAmount share) (resetKeyValueToZero (sh_tradingFees share))
    (ps_lpFeesPerShare p) (ps_lmRewardsPerShare p).

Definition withdrawLPFeeTx (tx : Tx RewardRequest) (pairs : PoolPairs)
    : outcome (list Instruction * PoolPairs) :=
  let md := tx_Metadata tx in
  let nft := Hash_String (rq_NftID md) in
  match rq_Receivers md !! rq_NftID md with
  | None => Err "NFT receiver not found in WithdrawalLPFeeRequest"
  | Some addressStr =>
      let mintNftInst := MintNft (rq_NftID md) addressStr (tx_ShardID tx) (tx_Hash tx) WithdrawLPFeeMeta in
      let rejected := Ok (mintNftInst :: BuildWithdrawLPFeeInsts (rq_PoolID md) (rq_NftID md) ∅
                            (tx_ShardID tx) (tx_Hash tx) false, pairs) in
      match pairs !! rq_PoolID md with
      | None => rejected
      | Some poolPair =>
          let share := ps_shares poolPair !! nft in
          lpReward ← (match share with
                      | Some _ => RecomputeLPRewards poolPair (rq_NftID md)
                      | None => Ok ∅
                      end);
          let order := ps_orderRewards poolPair !! nft in
          let orderReward := match order with Some o => uncollectedRewards o | None => ∅ end in
          let reward := CombineReward lpReward orderReward in
          if bool_decide (reward = ∅) then rejected
          else match receiversInfo (rq_Receivers md) reward with
          | None => rejected
          | Some receivers =>
              let shares := match share with
                            | Some s => <[nft := collectedShare poolPair s]> (ps_shares poolPair)
                            | None => ps_shares poolPair
                            end in
              let poolPair' := ps_with_orderRewards (delete nft (ps_orderRewards poolPair))
                                 (ps_with_shares shares poolPair) in
              Ok (mintNftInst :: BuildWithdrawLPFeeInsts (rq_PoolID md) (rq_NftID md) receivers
                    (tx_ShardID tx) (tx_Hash tx) true,
                  <[rq_PoolID md := poolPair']> pairs)
          end
      end
  end.

Fixpoint withdrawLPFee (txs : list (Tx RewardRequest)) (pairs : PoolPairs)
    : outcome (list Instruction * PoolPairs) :=
  match txs with
  | [] => Ok ([], pairs)
  | tx :: txs =>
      r ← withdrawLPFeeTx tx pairs;
      let '(insts, pairs) := r in
      r ← withdrawLPFee txs pairs;
      let '(insts', pairs) := r in
      Ok (insts ++ insts', pairs)
  end.

(** The protocol fund: its address and the shard it decodes to
    ([wallet.Base58CheckDeserialize]). *)
Section protocol.
Context (receivingAddressStr : string) (fundShard : outcome Z).

Fixpoint withdrawProtocolFeeLoop (shardID : Z) (txs : list (Tx string)) (pairs : PoolPairs)
    : list Instruction * PoolPairs :=
  match txs with
  | [] => ([], pairs)
  | tx :: txs =>
      let poolPairID := tx_Metadata tx in
      let rejectInst := BuildWithdrawProtocolFeeInsts poolPairID receivingAddressStr ∅ shardID
                          (tx_Hash tx) false in
      let '(insts, pairs) :=
        match pairs !! poolPairID with
        | None => (rejectInst, pairs)
        | Some p =>
            let rewardAmount := getMapWithoutZeroValue (ps_protocolFees p) in
            if bool_decide (rewardAmount = ∅) then (rejectInst, pairs)
            else (BuildWithdrawProtocolFeeInsts poolPairID receivingAddressStr rewardAmount shardID
                    (tx_Hash tx) true,
                  <[poolPairID := ps_with_protocolFees (resetKeyValueToZero (ps_protocolFees p)) p]>
                    pairs)
        end in
      let '(insts', pairs) := withdrawProtocolFeeLoop shardID txs pairs in
      (insts ++ insts', pairs)
  end.

Definition withdrawProtocolFee (txs : list (Tx string)) (pairs : PoolPairs)
    : outcome (list Instruction * PoolPairs) :=
  shardID ← fundShard;
  Ok (withdrawProtocolFeeLoop shardID txs pairs).

Definition mintPDEXGenesis : outcome (list Instruction) :=
  shardID ← fundShard;
  Ok [MintPDEXGenesis receivingAddressStr 1 shardID].
End protocol.

(** ** Block rewards *)
Definition totalShare (shares : gmap string Z) : Z :=
  map_fold (λ _ shareAmount total, add64 total shareAmount) 0 shares.

Definition creditOrders (tokenID : Hash) (rewards : gmap string Z) (orderRewards : gmap string OrderReward)
    : gmap string OrderReward :=
  map_fold (λ nftID reward m,
    <[nftID := OrderReward_AddReward tokenID reward (default NewOrderReward (m !! nftID))]> m)
    orderRewards rewards.

(** The part of the makers of one token, with what is left for the liquidity providers. *)
Definition mintOrderReward (pairID : string) (tokenID makingToken : Hash) (orderRewardAmt : Z)
    (s : list Instruction * PoolPairState * Z) : outcome (list Instruction * PoolPairState * Z) :=
  let '(insts, p, lpRewardAmt) := s in
  match ps_makingVolume p !! makingToken with
  | None => Ok s
  | Some makingVolume =>
      if bool_decide (volume makingVolume = ∅) then Ok s
      else
        orderRewards ← SplitOrderRewardLiquidityMining (volume makingVolume) orderRewardAmt tokenID;
        Ok (insts ++ [DistributeMiningOrderReward pairID makingToken (bigUint64 orderRewardAmt) tokenID],
            ps_with_makingVolume (delete makingToken (ps_makingVolume p))
              (ps_with_orderRewards (creditOrders tokenID orderRewards (ps_orderRewards p)) p),
            lpRewardAmt - orderRewardAmt)
  end.

Definition mintPair (tokenID : Hash) (mintingAmount totalRewardShare : Z) (params : Params)
    (isLiquidityMining : bool) (pairID : string) (p : PoolPairState)
    : outcome (list Instruction * PoolPairState) :=
  let shareRewardAmount := default 0 (PDEXRewardPoolPairsShare params !! pairID) in
  pairReward ← bigDiv (mintingAmount * shareRewardAmount) totalRewardShare;
  if negb (isU64 pairReward) then Err "Could not calculate PDEX reward for pair"
  else if bigUint64 pairReward =? 0 then Ok ([], p)
  else
    let orderRewardBPS := default 0 (OrderLiquidityMiningBPS params !! pairID) in
    r ← (if isLiquidityMining && (0 <? orderRewardBPS) then
           orderRewardAmt ← bigDiv (pairReward * orderRewardBPS) BPS;
           s ← mintOrderReward pairID tokenID (pp_token0ID (ps_state p)) orderRewardAmt ([], p, pairReward);
           mintOrderReward pairID tokenID (pp_token1ID (ps_state p)) orderRewardAmt s
         else Ok ([], p, pairReward));
    let '(insts, p, lpRewardAmt) := r in
    Ok (insts ++ [MintBlockReward pairID (bigUint64 lpRewardAmt) tokenID],
        ps_with_lmRewardsPerShare (AddLMRewards (ps_state p) tokenID lpRewardAmt BaseLPFeesPerShare
          (ps_lmRewardsPerShare p)) p).

Fixpoint mintLoop (tokenID : Hash) (mintingAmount totalRewardShare : Z) (params : Params)
    (isLiquidityMining : bool) (keys : list string) (pairs : PoolPairs)
    : outcome (list Instruction * PoolPairs) :=
  match keys with
  | [] => Ok ([], pairs)
  | pairID :: keys =>
      match pairs !! pairID with
      | None => Err "Could not find pair for distributing PDEX reward"
      | Some p =>
          r ← mintPair tokenID mintingAmount totalRewardShare params isLiquidityMining pairID p;
          let '(insts, p) := r in
          r ← mintLoop tokenID mintingAmount totalRewardShare params isLiquidityMining keys
                (<[pairID := p]> pairs);
          let '(insts', pairs) := r in
          Ok (insts ++ insts', pairs)
      end
  end.

Definition mintReward (tokenID : Hash) (mintingAmount : Z) (params : Params) (pairs : PoolPairs)
    (isLiquidityMining : bool) : outcome (list Instruction * PoolPairs) :=
  mintLoop tokenID mintingAmount (totalShare (PDEXRewardPoolPairsShare params)) params
    isLiquidityMining (sortedKeys (PDEXRewardPoolPairsShare params)) pairs.

(** ** Parameters *)
Abbreviation StakingPools := (gmap string StakingPoolState).

Definition addStakingPoolState (stakingPoolStates : StakingPools) (stakingPoolIDs : gmap string Z)
    : StakingPools := stakingPoolStates ∪ ((λ _, NewStakingPoolState) <$> stakingPoolIDs).

Fixpoint modifyParams (txs : list (Tx Params)) (pairs : PoolPairs) (params : Params)
    (stakingPools : StakingPools) : list Instruction * Params * StakingPools :=
  match txs with
  | [] => ([], params, stakingPools)
  | tx :: txs =>
      let newParams := tx_Metadata tx in
      let '(isValidParams, errorMsg) := isValidPdexv3Params newParams pairs in
      let inst := ModifyParams newParams errorMsg (tx_ShardID tx) (tx_Hash tx) isValidParams in
      let '(params, stakingPools) :=
        if isValidParams then (newParams, addStakingPoolState stakingPools (StakingPoolsShare newParams))
        else (params, stakingPools) in
      let '(insts, params, stakingPools) := modifyParams txs pairs params stakingPools in
      (inst :: insts, params, stakingPools)
  end.

(** ** NFTs and inscriptions

    [genNFT] and [GetInscriptionTokenID] hash their arguments ([common.HashH]). *)
Section tokens.
Context (genNFT : Z → Z → Hash) (GetInscriptionTokenID : Z → Hash).

Record UserMintNftRequest := mkUserMintNftRequest { um_otaReceiver : string; um_amount : Z }.

Fixpoint userMintNft (txs : list (Tx UserMintNftRequest)) (beaconHeight mintNftRequireAmount : Z)
    (nftIDs : gmap string Z) (burningPRVAmount : Z) : list Instruction * gmap string Z * Z :=
  match txs with
  | [] => ([], nftIDs, burningPRVAmount)
  | tx :: txs =>
      let md := tx_Metadata tx in
      let '(inst, nftIDs, burningPRVAmount) :=
        if negb (um_amount md =? mintNftRequireAmount)
        then (RejectUserMintNft (um_otaReceiver md) (um_amount md) (tx_ShardID tx) (tx_Hash tx),
              nftIDs, burningPRVAmount)
        else
          let nftID := genNFT (Z.of_nat (size nftIDs)) beaconHeight in
          (AcceptUserMintNft (um_otaReceiver md) (um_amount md) (tx_ShardID tx) nftID (tx_Hash tx),
           <[Hash_String nftID := um_amount md]> nftIDs, add64 burningPRVAmount (um_amount md)) in
      let '(insts, nftIDs, burningPRVAmount) :=
        userMintNft txs beaconHeight mintNftRequireAmount nftIDs burningPRVAmount in
      (inst :: insts, nftIDs, burningPRVAmount)
  end.

(** [ir_rawData] is the length of the payload, if it decodes. *)
Record InscribeRequest := mkInscribeRequest { ir_rawData : option nat; ir_Receiver : string }.

Fixpoint inscribeLoop (txs : list (Tx InscribeRequest)) (isInscriptionsEnabled : bool) (insNumber : Z)
    : list Instruction :=
  match txs with
  | [] => []
  | tx :: txs =>
      let md := tx_Metadata tx in
      let rejected := InscribeRejected (tx_Hash tx) (tx_ShardID tx) in
      match ir_rawData md with
      | None | Some O => rejected :: inscribeLoop txs isInscriptionsEnabled insNumber
      | Some (S _) =>
          if isInscriptionsEnabled then
            InscribeAccepted (GetInscriptionTokenID insNumber) (ir_Receiver md) (tx_Hash tx)
              (tx_ShardID tx) :: inscribeLoop txs isInscriptionsEnabled (add64 insNumber 1)
          else rejected :: inscribeLoop txs isInscriptionsEnabled insNumber
      end
  end.

Definition inscribe (txs : list (Tx InscribeRequest)) (inscriptionNumber : Z)
    (isInscriptionsEnabled : bool) : list Instruction :=
  inscribeLoop txs isInscriptionsEnabled
    (if isInscriptionsEnabled then add64 inscriptionNumber 1 else 0).
End tokens.

(** ** Claims on the exchange

    What the liquidity providers and the order makers may claim of a token, scaled by
    [BaseLPFeesPerShare]. *)
Definition orderClaims (tok : Hash) (p : PoolPairState) : Z :=
  map_sum (λ o, feeOf tok (uncollectedRewards o)) (ps_orderRewards p).

Definition poolClaims (tok : Hash) (p : PoolPairState) : Z :=
  liability p tok + BaseLPFeesPerShare * orderClaims tok p.

Definition claims (tok : Hash) (pairs : PoolPairs) : Z := map_sum (poolClaims tok) pairs.

Definition wf_orderRewards (m : gmap string OrderReward) : Prop :=
  ∀ nft o tok, m !! nft = Some o → 0 ≤ feeOf tok (uncollectedRewards o).

(** An exchange whose accounts are in order. *)
Record wf_accounts (pairs : PoolPairs) : Prop := {
  wa_exchange : wf_exchange pairs;
  wa_orders : ∀ id p, pairs !! id = Some p → wf_orderRewards (ps_orderRewards p) }.

Lemma feeOf_empty tok : feeOf tok ∅ = 0.
Proof. unfold feeOf. by rewrite lookup_empty. Qed.

Lemma liability_nonneg p tok : wf_ledger p → 0 ≤ liability p tok.
Proof. intros Hp. apply map_sum_nonneg. intros nft s Hs. by eapply entitlement_nonneg, wl_each. Qed.

Lemma orderClaims_nonneg tok p : wf_orderRewards (ps_orderRewards p) → 0 ≤ orderClaims tok p.
Proof. intros Hp. apply map_sum_nonneg. intros nft o Ho. by eapply Hp. Qed.

Lemma poolClaims_nonneg tok pairs id p : wf_accounts pairs → pairs !! id = Some p →
  0 ≤ liability p tok ∧ 0 ≤ orderClaims tok p ∧ 0 ≤ poolClaims tok p.
Proof.
  intros Hw Hp. destruct (we_pools _ (wa_exchange _ Hw) _ _ Hp) as [Hs _].
  pose proof (liability_nonneg p tok (wst_ledger _ Hs)).
  pose proof (orderClaims_nonneg tok p (wa_orders _ Hw _ _ Hp)).
  unfold poolClaims, BaseLPFeesPerShare. lia.
Qed.

Lemma poolClaims_le tok pairs id p : wf_accounts pairs → pairs !! id = Some p →
  poolClaims tok p ≤ claims tok pairs.
Proof.
  intros Hw Hp. apply (map_sum_elem_le (poolClaims tok) _ id); [|done].
  intros i q Hq. by destruct (poolClaims_nonneg tok pairs i q Hw Hq) as (_ & _ & ?).
Qed.

Lemma claims_insert tok pairs id p q : pairs !! id = Some p →
  claims tok (<[id := q]> pairs) = claims tok pairs - poolClaims tok p + poolClaims tok q.
Proof. intros Hp. unfold claims. rewrite map_sum_insert, Hp. done. Qed.

(** The receivers of a reward get exactly the reward. *)
Lemma receiversInfo_amount recv reward info tok : receiversInfo recv reward = Some info →
  from_option ri_Amount 0 (info !! tok) = feeOf tok reward.
Proof.
  unfold receiversInfo. destruct (forallb _ _); [|done]. intros [= <-].
  rewrite map_lookup_imap. unfold feeOf. by destruct (reward !! tok).
Qed.

Lemma LPFee_payouts tok pool nft info shard tx recv reward : receiversInfo recv reward = Some info →
  payouts tok (BuildWithdrawLPFeeInsts pool nft info shard tx true) = feeOf tok reward.
Proof.
  intros Hi. unfold payouts, BuildWithdrawLPFeeInsts.
  rewrite (markLast_sum _ _ (λ tr : Hash * ReceiverInfo, if decide (tr.1 = tok) then ri_Amount tr.2 else 0)) by done.
  rewrite (list_sum_Permutation _ _ _ (sortedTokens_perm info)), list_sum_token.
  by eapply receiversInfo_amount.
Qed.

Lemma LPFee_plain pool nft info shard tx recv reward : receiversInfo recv reward = Some info →
  (∀ tok, 0 ≤ feeOf tok reward) → Forall plain (BuildWithdrawLPFeeInsts pool nft info shard tx true).
Proof.
  intros Hi Hr. apply markLast_Forall, sortedTokens_Forall. intros t a Ht b.
  pose proof (receiversInfo_amount _ _ _ t Hi) as E. rewrite Ht in E. cbn [from_option] in E. specialize (Hr t).
  cbn [fst snd]. solve_plain.
Qed.

(** Paying a share and the order makers of an NFT. *)
Lemma collected_claims p nft s tok : wf_state p → ps_shares p !! nft = Some s →
  let p' := ps_with_shares (<[nft := collectedShare p s]> (ps_shares p)) p in
  wf_state p' ∧ liability p' tok = liability p tok - entitlement p tok s.
Proof.
  intros [? ? ? ? [Ht Hsum Hlk Heach Hkeys Hb]] Hs p'. destruct (Heach _ _ Hs) as [Hl _ _ _]. split.
  - split; try done. split; try done.
    + cbn. rewrite map_sum_insert, Hs. cbn [from_option collectedShare sh_amount]. lia.
    + cbn. rewrite map_sum_insert, Hs. cbn [from_option collectedShare sh_lmLockedAmount]. lia.
    + intros i k Hk. cbn in Hk. rewrite lookup_insert in Hk. case_decide; [|by destruct (Heach i k Hk)].
      injection Hk as <-. split; cbn; [done| |apply mono_refl; intros t; apply Hb|apply mono_refl; intros t; apply Hb].
      intros t. by rewrite feeOf_resetKeyValueToZero.
    + intros i Hi. apply Hkeys. cbn in Hi. rewrite lookup_insert in Hi. case_decide; [subst; by eexists|done].
  - unfold liability. cbn [p' ps_with_shares ps_shares].
    rewrite (map_sum_ext _ (entitlement p tok)) by done. rewrite map_sum_insert, Hs. cbn [from_option].
    enough (entitlement p tok (collectedShare p s) = 0) by lia.
    unfold entitlement. cbn. rewrite feeOf_resetKeyValueToZero. lia.
Qed.

Definition wf_making (m : gmap Hash MakingVolume) : Prop :=
  ∀ t v nft x, m !! t = Some v → volume v !! nft = Some x → 0 ≤ x.

(** What paying or booking a reward leaves alone. *)
Definition same_reserves (p p' : PoolPairState) : Prop :=
  ps_state p' = ps_state p ∧ ps_orderbook p' = ps_orderbook p ∧
  ps_protocolFees p' = ps_protocolFees p ∧ ps_stakingPoolFees p' = ps_stakingPoolFees p ∧
  ps_lmLockedShare p' = ps_lmLockedShare p ∧
  (wf_making (ps_makingVolume p) → wf_making (ps_makingVolume p')).

Lemma same_reserves_trans p q r : same_reserves p q → same_reserves q r → same_reserves p r.
Proof. intros (? & ? & ? & ? & ? & ?) (? & ? & ? & ? & ? & ?). split_and!; (congruence || auto). Qed.

Inductive reward_changed (pools : PoolPairs) : PoolPairs → Prop :=
  | reward_moved id p p' :
      pools !! id = Some p → same_reserves p p' → reward_changed pools (<[id := p']> pools).

Record wf_reward_request (md : RewardRequest) : Prop := {
  wrq_nft : wf_hash (rq_NftID md);
  wrq_receiver : is_Some (rq_Receivers md !! rq_NftID md) }.

Lemma with_orderRewards_wf p v : wf_state p → wf_state (ps_with_orderRewards v p).
Proof.
  intros [? ? ? ? [? ? ? Heach ? ?]]. split; try done. split; try done.
  intros nft s Hs. by destruct (Heach nft s Hs).
Qed.

(** Replacing a pool by one with the same reserves, book and tokens. *)
Lemma accounts_insert pairs id p q : wf_accounts pairs → pairs !! id = Some p →
  wf_state q → wf_orderRewards (ps_orderRewards q) → ps_state q = ps_state p →
  ps_orderbook q = ps_orderbook p → wf_accounts (<[id := q]> pairs).
Proof.
  intros [Hw Ho] Hp Hq Hoq Es Eb. split; [split|].
  - apply wf_pools_insert; [apply Hw|done|]. destruct (we_pools _ Hw _ _ Hp) as [_ [tx ->]].
    exists tx. by rewrite Es.
  - intros i r. rewrite lookup_insert. case_decide; [|apply Hw].
    intros [= <-]. rewrite Eb. by eapply we_books.
  - intros i r. rewrite lookup_insert. case_decide; [by intros [= <-]|apply Ho].
Qed.

Lemma withdrawLPFeeTx_covered tx pairs :
  wf_accounts pairs → wf_reward_request (tx_Metadata tx) →
  (∀ tok, claims tok pairs < BaseLPFeesPerShare * word64) →
  ∃ insts pairs', withdrawLPFeeTx tx pairs = Ok (insts, pairs') ∧ wf_accounts pairs' ∧
    rtc reward_changed pairs pairs' ∧ Forall plain insts ∧ ∀ tok, 0 ≤ payouts tok insts ∧
      BaseLPFeesPerShare * payouts tok insts + claims tok pairs' ≤ claims tok pairs.
Proof.
  intros Hw [Hh [addr Haddr]] Hb. unfold withdrawLPFeeTx. set (md := tx_Metadata tx) in *. rewrite Haddr.
  set (mint := MintNft _ _ _ _ _). set (rejected := Ok (mint :: _, pairs)).
  assert (Hrej : ∃ insts pairs', rejected = Ok (insts, pairs') ∧ wf_accounts pairs' ∧
    rtc reward_changed pairs pairs' ∧ Forall plain insts ∧ ∀ tok, 0 ≤ payouts tok insts ∧
      BaseLPFeesPerShare * payouts tok insts + claims tok pairs' ≤ claims tok pairs).
  { eexists _, _. split; [done|]. split; [done|]. split; [done|]. split; [unfold mint; solve_plain|]. intros tok.
    unfold payouts, list_sum, BaseLPFeesPerShare. cbn. lia. }
  destruct (pairs !! rq_PoolID md) as [p|] eqn:Hp; [|done].
  destruct (we_pools _ (wa_exchange _ Hw) _ _ Hp) as [Hs _]. pose proof (wa_orders _ Hw _ _ Hp) as Ho.
  set (nft := Hash_String (rq_NftID md)).
  assert (Hlp : ∃ lp shares, (match ps_shares p !! nft with
      | Some _ => RecomputeLPRewards p (rq_NftID md) | None => Ok ∅ end) = Ok lp ∧
    match ps_shares p !! nft with
    | Some s => <[nft := collectedShare p s]> (ps_shares p) | None => ps_shares p end = shares ∧
    wf_state (ps_with_shares shares p) ∧
    ∀ tok, 0 ≤ feeOf tok lp ∧
      BaseLPFeesPerShare * feeOf tok lp + liability (ps_with_shares shares p) tok ≤ liability p tok).
  { destruct (ps_shares p !! nft) as [s|] eqn:Hsh.
    - pose proof (wl_each _ (wst_ledger _ Hs) _ _ Hsh) as Hws. pose proof Hws as [Hlk _ _ _].
      assert (Hu : in_u64 (sh_amount s)).
      { pose proof (share_le_total p nft (wst_ledger _ Hs)) as Hle. rewrite Hsh in Hle. cbn in Hle.
        pose proof (wl_total _ (wst_ledger _ Hs)). unfold in_u64 in *. lia. }
      destruct (RecomputeLPRewards_succeeds p (rq_NftID md) s Hsh Hws Hu) as [lp Hr].
      { intros tok. pose proof (poolClaims_le tok pairs _ _ Hw Hp). specialize (Hb tok).
        assert (entitlement p tok s ≤ liability p tok).
        { apply (map_sum_elem_le (entitlement p tok) _ nft); [|done].
          intros i a Ha. by eapply entitlement_nonneg, wl_each; [apply wst_ledger|]. }
        pose proof (orderClaims_nonneg tok p Ho). unfold poolClaims, BaseLPFeesPerShare in *. lia. }
      exists lp, (<[nft := collectedShare p s]> (ps_shares p)). split; [done|]. split; [done|].
      split; [by apply (collected_claims p nft s emptyHash)|]. intros tok.
      destruct (collected_claims p nft s tok Hs Hsh) as [_ ->].
      destruct (RecomputeLPRewards_spec p _ s lp tok Hsh Hws Hu Hr) as (? & ? & _). lia.
    - exists ∅, (ps_shares p). split; [done|]. split; [done|]. split; [by destruct p|]. intros tok.
      change (liability (ps_with_shares (ps_shares p) p) tok) with (liability p tok).
      rewrite feeOf_empty. lia. }
  destruct Hlp as (lp & shares & -> & -> & Hws' & Hlp). cbn [mbind outcome_bind]. cbv zeta.
  set (order := match ps_orderRewards p !! nft with Some o => uncollectedRewards o | None => ∅ end).
  set (p' := ps_with_orderRewards (delete nft (ps_orderRewards p)) (ps_with_shares shares p)).
  assert (Hord : ∀ tok, 0 ≤ feeOf tok order ∧ orderClaims tok p' = orderClaims tok p - feeOf tok order).
  { intros tok. unfold orderClaims, order. cbn [p' ps_with_orderRewards ps_orderRewards].
    rewrite map_sum_delete. destruct (ps_orderRewards p !! nft) as [o|] eqn:E; cbn [from_option].
    - split; [by eapply Ho|done].
    - rewrite feeOf_empty. lia. }
  assert (Hrew : ∀ tok, feeOf tok (CombineReward lp order) = feeOf tok lp + feeOf tok order).
  { intros tok. destruct (Hlp tok) as [? ?], (Hord tok) as [? Eo]. specialize (Hb tok).
    pose proof (poolClaims_le tok pairs _ _ Hw Hp) as Hle.
    pose proof (liability_nonneg _ tok (wst_ledger _ Hws')) as Hl0.
    assert (0 ≤ orderClaims tok p').
    { apply orderClaims_nonneg. cbn. intros i o t [_ Hi]%lookup_delete_Some. by eapply Ho. }
    unfold poolClaims, BaseLPFeesPerShare in *.
    apply feeOf_CombineReward; unfold in_u64; lia. }
  destruct (bool_decide _); [done|]. destruct (receiversInfo _ _) as [info|] eqn:Hi; [|done].
  eexists _, _. split; [done|]. split.
  { apply (accounts_insert _ _ p); try done; [by apply with_orderRewards_wf|].
    cbn. intros i o t [_ Hi']%lookup_delete_Some. by eapply Ho. }
  split; [by apply rtc_once; econstructor|].
  split.
  { apply Forall_cons_2; [unfold mint; solve_plain|]. eapply LPFee_plain; [done|]. intros tok. rewrite Hrew.
    destruct (Hlp tok) as [? _], (Hord tok) as [? _]. lia. }
  intros tok. change (mint :: ?b) with ([mint] ++ b). rewrite payouts_app, (LPFee_payouts _ _ _ _ _ _ _ _ Hi), Hrew.
  change (payouts tok [mint]) with 0. rewrite (claims_insert _ _ _ p) by done.
  destruct (Hlp tok) as [? Hl], (Hord tok) as [? Eo]. unfold poolClaims. rewrite Eo.
  change (liability p' tok) with (liability (ps_with_shares shares p) tok).
  unfold BaseLPFeesPerShare in *. lia.
Qed.

Lemma withdrawLPFee_spec txs pairs :
  wf_accounts pairs → Forall (λ tx, wf_reward_request (tx_Metadata tx)) txs →
  (∀ tok, claims tok pairs < BaseLPFeesPerShare * word64) →
  ∃ insts pairs', withdrawLPFee txs pairs = Ok (insts, pairs') ∧ wf_accounts pairs' ∧
    rtc reward_changed pairs pairs' ∧ Forall plain insts ∧ ∀ tok, 0 ≤ payouts tok insts ∧
      BaseLPFeesPerShare * payouts tok insts + claims tok pairs' ≤ claims tok pairs.
Proof.
  intros Hw Htxs Hb. revert pairs Hw Hb. induction Htxs as [|tx txs Htx _ IH]; intros pairs Hw Hb.
  { eexists _, _. split; [done|]. split; [done|]. split; [done|]. split; [apply Forall_nil_2|]. intros tok.
    unfold payouts, list_sum, BaseLPFeesPerShare. cbn. lia. }
  cbn [withdrawLPFee].
  destruct (withdrawLPFeeTx_covered tx pairs Hw Htx Hb) as (i1 & p1 & -> & Hw1 & R1 & L1 & H1).
  cbn [mbind outcome_bind]. destruct (IH p1 Hw1) as (i2 & p2 & -> & Hw2 & R2 & L2 & H2).
  { intros tok. specialize (H1 tok). specialize (Hb tok). unfold BaseLPFeesPerShare in *. lia. }
  cbn [mbind outcome_bind]. eexists _, _. split; [done|]. split; [done|]. split; [by etrans|].
  split; [by apply Forall_app|]. intros tok.
  rewrite payouts_app. specialize (H1 tok). specialize (H2 tok). unfold BaseLPFeesPerShare in *. lia.
Qed.

(** C37: fee withdrawals are covered and cannot be repeated.  As long as the claims on the
    exchange fit 64 bits (they are bounded by the supply of the token), every block of
    withdrawal requests is processed, the accounts stay in order, and for every token what is
    paid plus what may still be claimed never exceeds what could be claimed before: what is
    paid out once is gone from the claims. *)
Theorem withdrawLPFee_covered txs pairs (Hw : wf_accounts pairs)
    (Htxs : Forall (λ tx, wf_reward_request (tx_Metadata tx)) txs)
    (Hb : ∀ tok, claims tok pairs < BaseLPFeesPerShare * word64) :
  ∃ insts pairs', withdrawLPFee txs pairs = Ok (insts, pairs') ∧ wf_accounts pairs' ∧
    ∀ tok, 0 ≤ payouts tok insts ∧
      BaseLPFeesPerShare * payouts tok insts + claims tok pairs' ≤ claims tok pairs.
Proof.
  destruct (withdrawLPFee_spec txs pairs Hw Htxs Hb) as (insts & pairs' & ? & ? & _ & _ & ?).
  by exists insts, pairs'.
Qed.

(** A share with 12 units of collected fees and 7 accrued, in a pool of 1000 shares, and an
    order maker's reward of 5. *)
Definition reward_pool : PoolPairState :=
  mkPoolPairState ∅ sample_pair {[Hash_String sample_nft := mkShare 1000 0 {[PRVCoinID := 12]} ∅ ∅]}
    {[Hash_String sample_nft := mkOrderReward {[PRVCoinID := 5]}]} (mkOrderbook [])
    {[PRVCoinID := 7 * BaseLPFeesPerShare / 1000]} ∅ {[PRVCoinID := 9]} ∅ ∅.
Definition reward_pools : PoolPairs := {[sample_key := reward_pool]}.

Lemma feeOf_singleton_nonneg tok t v : 0 ≤ v → 0 ≤ feeOf tok {[t := v]}.
Proof. intros Hv. rewrite feeOf_singleton. unfold ofToken. case_decide; lia. Qed.

Lemma reward_pools_wf : wf_accounts reward_pools.
Proof.
  assert (Hp : ∀ id p, reward_pools !! id = Some p → sample_key = id ∧ p = reward_pool).
  { intros id p Hid. unfold reward_pools in Hid. apply lookup_singleton_Some in Hid as [<- <-]. done. }
  assert (Hb : 0 ≤ 7 * BaseLPFeesPerShare / 1000) by (vm_compute; discriminate).
  assert (Hs : wf_state reward_pool).
  { destruct sample_state_wf as [H1 H2 H3 H4 _]. split; try done. split.
    - split; vm_compute; [discriminate|reflexivity].
    - vm_compute. reflexivity.
    - vm_compute. reflexivity.
    - intros nft s Hs. unfold reward_pool in Hs. cbn [ps_shares] in Hs.
      apply lookup_singleton_Some in Hs as [_ <-]. split; [cbn; lia|..]; cbn [sh_tradingFees
        sh_lastLPFeesPerShare sh_lastLmRewardsPerShare reward_pool ps_lpFeesPerShare ps_lmRewardsPerShare].
      + intros tok. by apply feeOf_singleton_nonneg.
      + apply mono_empty. intros tok. by apply feeOf_singleton_nonneg.
      + apply mono_empty. intros tok. by rewrite feeOf_empty.
    - intros nft [s Hs]. unfold reward_pool in Hs. cbn [ps_shares] in Hs.
      apply lookup_singleton_Some in Hs as [<- _]. by exists sample_nft.
    - intros tok. cbn [reward_pool ps_lpFeesPerShare ps_lmRewardsPerShare]. rewrite feeOf_empty.
      split; [by apply feeOf_singleton_nonneg|done]. }
  split; [split|].
  - intros id p [<- ->]%Hp. split; [done|by exists emptyHash].
  - intros id p [<- ->]%Hp. constructor.
  - intros id p [<- ->]%Hp nft o tok Ho. cbn [reward_pool ps_orderRewards] in Ho.
    apply lookup_singleton_Some in Ho as [_ <-]. by apply feeOf_singleton_nonneg.
Qed.

(** The first of two requests is paid 24 units, the second nothing. *)
Lemma withdrawLPFee_covered_witness :
  let md := mkRewardRequest sample_key sample_nft
    {[sample_nft := "n"%string; PRVCoinID := "b"%string]} in
  ∃ insts pairs', withdrawLPFee [mkTx emptyHash 0 false md; mkTx PRVCoinID 0 false md] reward_pools =
      Ok (insts, pairs') ∧ payouts PRVCoinID insts = 24 ∧
    BaseLPFeesPerShare * payouts PRVCoinID insts + claims PRVCoinID pairs' ≤ claims PRVCoinID reward_pools.
Proof.
  intros md.
  destruct (withdrawLPFee_covered [mkTx emptyHash 0 false md; mkTx PRVCoinID 0 false md] reward_pools)
    as (insts & pairs' & Hrun & _ & Hs).
  - exact reward_pools_wf.
  - repeat apply Forall_cons_2; try apply Forall_nil_2; (split; [reflexivity|eexists; vm_compute; reflexivity]).
  - intros tok. unfold claims, reward_pools. rewrite map_sum_singleton. unfold poolClaims, liability, orderClaims.
    cbn [reward_pool ps_shares ps_orderRewards]. rewrite !map_sum_singleton. unfold entitlement.
    cbn [reward_pool sh_tradingFees ps_lpFeesPerShare sh_lastLPFeesPerShare sh_amount ps_lmRewardsPerShare
      sh_lastLmRewardsPerShare sh_lmLockedAmount uncollectedRewards].
    rewrite !feeOf_singleton, !feeOf_empty. unfold ofToken. case_decide; vm_compute; reflexivity.
  - exists insts, pairs'. split; [exact Hrun|]. split; [|apply Hs].
    assert (Hp : match withdrawLPFee [mkTx emptyHash 0 false md; mkTx PRVCoinID 0 false md] reward_pools with
      | Ok (i, _) => payouts PRVCoinID i | _ => 0 end = 24) by (vm_compute; reflexivity).
    rewrite Hrun in Hp. exact Hp.
Defined.

(** ** The protocol's fees *)
Definition protocolHoldings (tok : Hash) (pairs : PoolPairs) : Z :=
  map_sum (λ p, feeOf tok (ps_protocolFees p)) pairs.

Lemma ProtocolFee_payouts tok pool addr m shard tx :
  payouts tok (BuildWithdrawProtocolFeeInsts pool addr m shard tx true) = feeOf tok m.
Proof.
  unfold payouts, BuildWithdrawProtocolFeeInsts.
  rewrite (markLast_sum _ _ (λ ta : Hash * Z, if decide (ta.1 = tok) then ta.2 else 0)) by done.
  rewrite (list_sum_Permutation _ _ _ (sortedTokens_perm m)).
  pose proof (list_sum_token (λ x, x) m tok) as Ht. cbv beta in Ht. rewrite Ht.
  unfold feeOf. by destruct (m !! tok).
Qed.

(** The protocol's fees of one pool are paid. *)
Inductive fees_withdrawn (pools : PoolPairs) : PoolPairs → Prop :=
  | fees_reset id p :
      pools !! id = Some p →
      fees_withdrawn pools
        (<[id := ps_with_protocolFees (resetKeyValueToZero (ps_protocolFees p)) p]> pools).

Lemma withdrawProtocolFeeLoop_spec addr shard txs pairs :
  let r := withdrawProtocolFeeLoop addr shard txs pairs in
  rtc fees_withdrawn pairs r.2 ∧
  ∀ tok, protocolHoldings tok r.2 + payouts tok r.1 = protocolHoldings tok pairs.
Proof.
  revert pairs. induction txs as [|tx txs IH]; intros pairs; cbn [withdrawProtocolFeeLoop].
  { split; [done|]. intros tok. unfold payouts, list_sum. cbn. lia. }
  set (step := match pairs !! tx_Metadata tx with Some _ => _ | None => _ end).
  assert (Hstep : rtc fees_withdrawn pairs step.2 ∧
    ∀ tok, protocolHoldings tok step.2 + payouts tok step.1 = protocolHoldings tok pairs).
  { assert (Hrej : ∀ i, (∀ tok, payouts tok i = 0) → rtc fees_withdrawn pairs pairs ∧
      ∀ tok, protocolHoldings tok pairs + payouts tok i = protocolHoldings tok pairs).
    { intros i Hi. split; [done|]. intros tok. rewrite Hi. lia. }
    unfold step. destruct (pairs !! tx_Metadata tx) as [p|] eqn:Hp; [|by apply Hrej].
    cbv zeta. destruct (bool_decide _); [by apply Hrej|]. cbn [fst snd].
    split; [by apply rtc_once; constructor|].
    intros tok. rewrite ProtocolFee_payouts, feeOf_getMapWithoutZeroValue.
    unfold protocolHoldings. rewrite map_sum_insert, Hp. cbn [from_option ps_with_protocolFees ps_protocolFees].
    rewrite feeOf_resetKeyValueToZero. lia. }
  destruct step as [i1 p1]. destruct Hstep as [R1 H1]. destruct (IH p1) as [R2 H2].
  destruct (withdrawProtocolFeeLoop _ _ _ _) as [i2 p2]. cbn [fst snd] in *. split; [by etrans|].
  intros tok. rewrite payouts_app. specialize (H1 tok). specialize (H2 tok). lia.
Qed.

Lemma fees_withdrawn_lookup pairs pairs' id p : rtc fees_withdrawn pairs pairs' →
  pairs !! id = Some p → ∃ fees, pairs' !! id = Some (ps_with_protocolFees fees p).
Proof.
  intros H. revert p. induction H as [pairs|a b c [k q Hq] _ IH]; intros p Hp.
  { exists (ps_protocolFees p). by destruct p. }
  destruct (decide (k = id)) as [->|Hne].
  - rewrite Hq in Hp. injection Hp as <-. rewrite lookup_insert_eq in IH. destruct (IH _ eq_refl) as [f Hf].
    by exists f.
  - apply IH. by rewrite lookup_insert_ne.
Qed.

(** Withdrawing the protocol's fees pays exactly what was booked: for every token the
    fees still booked plus what is paid out are the fees booked before, so that a second
    request for the same pool gets nothing.  Reserves, shares and rewards do not change. *)
Theorem withdrawProtocolFee_exact addr shard txs pairs :
  ∃ insts pairs', withdrawProtocolFee addr (Ok shard) txs pairs = Ok (insts, pairs') ∧
    (∀ tok, protocolHoldings tok pairs' + payouts tok insts = protocolHoldings tok pairs) ∧
    ∀ id p, pairs !! id = Some p → ∃ fees, pairs' !! id = Some (ps_with_protocolFees fees p).
Proof.
  unfold withdrawProtocolFee. cbn [mbind outcome_bind].
  destruct (withdrawProtocolFeeLoop_spec addr shard txs pairs) as [Hr Hs].
  destruct (withdrawProtocolFeeLoop _ _ _ _) as [insts pairs']. exists insts, pairs'.
  split; [done|]. split; [done|]. intros id p. by apply fees_withdrawn_lookup.
Qed.

(** ** Block rewards *)
Definition mintedBy (tok : Hash) (i : Instruction) : Z :=
  match i with
  | MintBlockReward _ amount t => ofToken tok t amount
  | DistributeMiningOrderReward _ _ amount t => ofToken tok t amount
  | _ => 0
  end.

Lemma totalShare_sum shares : totalShare shares = u64 (map_sum (λ w, w) shares).
Proof.
  unfold totalShare. apply (map_fold_weak_ind (λ r m, r = u64 (map_sum (λ w, w) m))); [done|].
  intros k w m r Hk ->. rewrite map_sum_insert_new by done. unfold add64, u64.
  by rewrite Zplus_mod_idemp_l, Z.add_comm.
Qed.

Lemma add64_le a b : 0 ≤ a → 0 ≤ b → 0 ≤ add64 a b ≤ a + b.
Proof.
  intros Ha Hb. unfold add64, u64. split; [apply Z.mod_pos_bound; reflexivity|].
  apply Z.mod_le; [lia|reflexivity].
Qed.

Lemma creditOrders_spec tokenID rewards m : wf_orderRewards m →
  (∀ k r, rewards !! k = Some r → 0 ≤ r) →
  wf_orderRewards (creditOrders tokenID rewards m) ∧
  ∀ tok, map_sum (λ o, feeOf tok (uncollectedRewards o)) (creditOrders tokenID rewards m) ≤
    map_sum (λ o, feeOf tok (uncollectedRewards o)) m + ofToken tok tokenID (map_sum (λ r, r) rewards).
Proof.
  intros Hm. unfold creditOrders.
  apply (map_fold_weak_ind (λ res rewards, (∀ k r, rewards !! k = Some r → 0 ≤ r) →
    wf_orderRewards res ∧ ∀ tok, map_sum (λ o, feeOf tok (uncollectedRewards o)) res ≤
      map_sum (λ o, feeOf tok (uncollectedRewards o)) m + ofToken tok tokenID (map_sum (λ r, r) rewards))).
  { intros _. split; [done|]. intros tok. unfold ofToken. rewrite map_sum_empty. case_decide; lia. }
  intros nft r rw res Hk IH Hr. destruct IH as [Hw Hs].
  { intros k x Hx. apply (Hr k). rewrite lookup_insert_ne; [done|]. intros ->. congruence. }
  pose proof (Hr nft r (lookup_insert_eq _ _ _)) as Hr0. set (o := default NewOrderReward (res !! nft)).
  assert (Ho : ∀ tok, 0 ≤ feeOf tok (uncollectedRewards o) ∧
    from_option (λ o, feeOf tok (uncollectedRewards o)) 0 (res !! nft) = feeOf tok (uncollectedRewards o)).
  { intros tok. unfold o. destruct (res !! nft) as [x|] eqn:E; cbn; [split; [by eapply Hw|done]|].
    by rewrite feeOf_empty. }
  assert (Hadd : ∀ tok, 0 ≤ feeOf tok (uncollectedRewards (OrderReward_AddReward tokenID r o)) ≤
    feeOf tok (uncollectedRewards o) + ofToken tok tokenID r).
  { intros tok. unfold OrderReward_AddReward, ofToken. cbn [uncollectedRewards].
    fold (feeOf tokenID (uncollectedRewards o)). rewrite feeOf_insert. destruct (Ho tok), (Ho tokenID).
    case_decide; [subst; by apply add64_le|lia]. }
  split.
  - intros i x tok Hi. rewrite lookup_insert in Hi. case_decide; [|by eapply Hw].
    injection Hi as <-. apply Hadd.
  - intros tok. rewrite map_sum_insert, map_sum_insert_new by done. destruct (Ho tok) as [_ ->].
    specialize (Hs tok). specialize (Hadd tok). unfold ofToken in *. case_decide; lia.
Qed.

(** A pool that can be rewarded. *)
Definition rewardable (p : PoolPairState) : Prop :=
  wf_state p ∧ wf_orderRewards (ps_orderRewards p) ∧ wf_making (ps_makingVolume p).

Lemma with_makingVolume_wf p v : wf_state p → wf_state (ps_with_makingVolume v p).
Proof.
  intros [? ? ? ? [? ? ? Heach ? ?]]. split; try done. split; try done.
  intros nft s Hs. by destruct (Heach nft s Hs).
Qed.

Lemma mintOrderReward_spec pairID tokenID making amt insts p lp :
  rewardable p → in_u64 amt →
  ∃ insts' p' lp', mintOrderReward pairID tokenID making amt (insts, p, lp) = Ok (insts', p', lp') ∧
    rewardable p' ∧ same_reserves p p' ∧ 0 ≤ lp - lp' ≤ amt ∧
    ∀ tok, list_sum (mintedBy tok) insts' = list_sum (mintedBy tok) insts + ofToken tok tokenID (lp - lp') ∧
      poolClaims tok p' ≤ poolClaims tok p + BaseLPFeesPerShare * ofToken tok tokenID (lp - lp').
Proof.
  intros (Hs & Ho & Hm) Ha. unfold mintOrderReward.
  assert (Hskip : ∃ insts' p' lp', Ok (insts, p, lp) = Ok (insts', p', lp') ∧
    rewardable p' ∧ same_reserves p p' ∧ 0 ≤ lp - lp' ≤ amt ∧
    ∀ tok, list_sum (mintedBy tok) insts' = list_sum (mintedBy tok) insts + ofToken tok tokenID (lp - lp') ∧
      poolClaims tok p' ≤ poolClaims tok p + BaseLPFeesPerShare * ofToken tok tokenID (lp - lp')).
  { exists insts, p, lp. split; [done|]. split; [done|]. split; [done|]. unfold in_u64 in Ha.
    split; [lia|]. intros tok. unfold ofToken. case_decide; lia. }
  destruct (ps_makingVolume p !! making) as [v|] eqn:Hv; [|done].
  destruct (bool_decide _); [done|]. unfold SplitOrderRewardLiquidityMining.
  destruct (splitLoop_map (volume v) _ amt (λ k w Hk, Hm _ _ _ _ Hv Hk) eq_refl Ha)
    as (rs & left & -> & Hsum & Hleft & Hb). cbn [mbind outcome_bind fst].
  destruct (creditOrders_spec tokenID rs (ps_orderRewards p) Ho) as [Ho' Hc].
  { intros k r Hr. by destruct (Hb k r Hr). }
  eexists _, _, _. split; [done|]. split.
  { split; [by apply with_makingVolume_wf, with_orderRewards_wf|]. split; [done|].
    intros t w nft x Ht Hx. cbn in Ht. apply lookup_delete_Some in Ht as [_ Ht]. by eapply Hm. }
  split.
  { split_and!; try done. intros _ t w nft x Ht Hx. cbn in Ht.
    apply lookup_delete_Some in Ht as [_ Ht]. by eapply Hm. }
  unfold in_u64 in Ha. split; [lia|]. intros tok.
  replace (lp - (lp - amt)) with amt by lia. split.
  - rewrite list_sum_app. unfold list_sum at 2. cbn. rewrite bigUint64_small by done. lia.
  - unfold poolClaims, orderClaims. cbn [ps_with_makingVolume ps_with_orderRewards ps_orderRewards].
    change (liability (ps_with_makingVolume ?a (ps_with_orderRewards ?b p)) tok) with (liability p tok).
    specialize (Hc tok). assert (0 ≤ left) by (rewrite Hleft; case_match; lia).
    unfold ofToken, BaseLPFeesPerShare in *. case_decide; lia.
Qed.

Lemma mintPair_spec tokenID amount total params lm pairID p :
  rewardable p → 0 ≤ amount → 0 < total →
  let share := default 0 (PDEXRewardPoolPairsShare params !! pairID) in
  let bps := default 0 (OrderLiquidityMiningBPS params !! pairID) in
  0 ≤ share → in_u64 (amount * share / total) → 0 ≤ bps ∧ 2 * bps < BPS →
  ∃ insts p', mintPair tokenID amount total params lm pairID p = Ok (insts, p') ∧
    rewardable p' ∧ same_reserves p p' ∧
    ∀ tok, list_sum (mintedBy tok) insts = ofToken tok tokenID (amount * share / total) ∧
      poolClaims tok p' ≤ poolClaims tok p + BaseLPFeesPerShare * list_sum (mintedBy tok) insts.
Proof.
  intros Hp Ha Ht share bps Hsh Hu Hbps. unfold mintPair. fold share bps.
  rewrite bigDiv_pos by done. cbn [mbind outcome_bind]. set (r := amount * share / total) in *.
  rewrite (proj2 (in_u64_iff r) Hu), bigUint64_small by done. cbn [negb].
  destruct (r =? 0) eqn:Er.
  { exists [], p. split; [done|]. split; [done|]. split; [done|]. intros tok.
    assert (r = 0) as -> by lia. unfold list_sum, ofToken, BaseLPFeesPerShare. cbn. case_decide; lia. }
  assert (Hord : ∃ insts q lp, (if lm && (0 <? bps) then
      orderRewardAmt ← bigDiv (r * bps) BPS;
      s ← mintOrderReward pairID tokenID (pp_token0ID (ps_state p)) orderRewardAmt ([], p, r);
      mintOrderReward pairID tokenID (pp_token1ID (ps_state p)) orderRewardAmt s
    else Ok ([], p, r)) = Ok (insts, q, lp) ∧ rewardable q ∧ same_reserves p q ∧ 0 ≤ lp ≤ r ∧
    ∀ tok, list_sum (mintedBy tok) insts = ofToken tok tokenID (r - lp) ∧
      poolClaims tok q ≤ poolClaims tok p + BaseLPFeesPerShare * ofToken tok tokenID (r - lp)).
  { unfold in_u64 in Hu. destruct (lm && (0 <? bps)).
    - rewrite bigDiv_pos by done. cbn [mbind outcome_bind]. set (amt := r * bps / BPS).
      assert (Hamt : 0 ≤ amt ∧ 2 * amt ≤ r).
      { unfold BPS in *. pose proof (div_spec (r * bps) 10000 ltac:(lia)) as Hd. fold amt in Hd.
        split; [apply div_nonneg; nia|nia]. }
      assert (Hau : in_u64 amt) by (unfold in_u64; lia).
      destruct (mintOrderReward_spec pairID tokenID (pp_token0ID (ps_state p)) amt [] p r Hp Hau)
        as (i1 & p1 & l1 & -> & Hp1 & Hs1 & Hl1 & H1). cbn [mbind outcome_bind].
      destruct (mintOrderReward_spec pairID tokenID (pp_token1ID (ps_state p)) amt i1 p1 l1 Hp1 Hau)
        as (i2 & p2 & l2 & -> & Hp2 & Hs2 & Hl2 & H2).
      eexists _, _, _. split; [done|]. split; [done|]. split; [by eapply same_reserves_trans|].
      split; [lia|]. intros tok. destruct (H1 tok) as [E1 C1], (H2 tok) as [E2 C2].
      rewrite E2, E1. unfold list_sum at 1. cbn [foldr]. unfold ofToken, BaseLPFeesPerShare in *.
      case_decide; lia.
    - eexists _, _, _. split; [done|]. split; [done|]. split; [done|]. split; [lia|]. intros tok.
      unfold list_sum, ofToken. cbn. case_decide; lia. }
  destruct Hord as (insts & q & lp & -> & (Hq & Hqo & Hqm) & Hsame & Hlp & Hi). cbn [mbind outcome_bind].
  destruct (rewards_covered_spec q tokenID lp (wst_ledger _ Hq) (proj1 Hlp)) as (_ & Hlg & Hcov).
  eexists _, _. split; [done|]. split.
  { destruct Hq as [? ? ? ? _]. split; [by split|]. done. }
  split; [done|]. intros tok. destruct (Hi tok) as [Ei Ci].
  assert (Em : list_sum (mintedBy tok) (insts ++ [MintBlockReward pairID (bigUint64 lp) tokenID]) =
    ofToken tok tokenID r).
  { rewrite list_sum_app, Ei. unfold list_sum. cbn. rewrite bigUint64_small by (unfold in_u64 in *; lia).
    unfold ofToken. case_decide; lia. }
  split; [done|]. rewrite Em. destruct (Hcov tok) as (_ & _ & Hup). unfold poolClaims in *.
  set (q' := ps_with_lmRewardsPerShare _ q) in *.
  change (orderClaims tok q') with (orderClaims tok q).
  unfold ofToken, BaseLPFeesPerShare in *. case_decide; lia.
Qed.

Lemma mintLoop_spec tokenID amount total params lm keys pairs :
  wf_accounts pairs → (∀ id p, pairs !! id = Some p → wf_making (ps_makingVolume p)) →
  in_u64 amount → 0 < total →
  Forall (λ k, is_Some (pairs !! k) ∧ 0 ≤ default 0 (PDEXRewardPoolPairsShare params !! k) ≤ total ∧
    0 ≤ default 0 (OrderLiquidityMiningBPS params !! k) ∧
    2 * default 0 (OrderLiquidityMiningBPS params !! k) < BPS) keys →
  ∃ insts pairs', mintLoop tokenID amount total params lm keys pairs = Ok (insts, pairs') ∧
    wf_accounts pairs' ∧ rtc reward_changed pairs pairs' ∧ ∀ tok,
      list_sum (mintedBy tok) insts = ofToken tok tokenID
        (list_sum (λ k, amount * default 0 (PDEXRewardPoolPairsShare params !! k) / total) keys) ∧
      claims tok pairs' ≤ claims tok pairs + BaseLPFeesPerShare * list_sum (mintedBy tok) insts.
Proof.
  intros Hw Hv Ha Ht. revert pairs Hw Hv. induction keys as [|k keys IH]; intros pairs Hw Hv Hk.
  { eexists _, _. split; [done|]. split; [done|]. split; [done|]. intros tok.
    unfold list_sum, ofToken, BaseLPFeesPerShare. cbn. case_decide; lia. }
  apply Forall_cons in Hk as [([p Hp] & Hsh & Hbps) Hks]. cbn [mintLoop]. rewrite Hp.
  destruct (we_pools _ (wa_exchange _ Hw) _ _ Hp) as [Hs _]. unfold in_u64 in Ha.
  destruct (mintPair_spec tokenID amount total params lm k p) as (i1 & q & -> & (Hq & Hqo & Hqm) & Hsame & H1);
    [split; [done|split; [by eapply wa_orders|by eapply Hv]]|lia|done|lia| |done|].
  { assert (amount * default 0 (PDEXRewardPoolPairsShare params !! k) / total ≤ amount)
      by (apply div_le_l; nia). unfold in_u64. split; [apply div_nonneg; nia|lia]. }
  cbn [mbind outcome_bind].
  assert (Hw1 : wf_accounts (<[k := q]> pairs)) by (destruct Hsame as (? & ? & _); by apply (accounts_insert _ _ p)).
  destruct (IH (<[k := q]> pairs) Hw1) as (i2 & pairs' & -> & Hw2 & R2 & H2).
  { intros i x. rewrite lookup_insert. case_decide; [by intros [= <-]|apply Hv]. }
  { eapply Forall_impl; [done|]. intros i ([x Hx] & ?). split; [|done]. rewrite lookup_insert.
    case_decide; by eexists. }
  cbn [mbind outcome_bind]. eexists _, _. split; [done|]. split; [done|].
  split; [by eapply rtc_l; [econstructor|]|]. intros tok.
  destruct (H1 tok) as [E1 C1], (H2 tok) as [E2 C2]. rewrite (claims_insert _ _ _ p) in C2 by done.
  rewrite list_sum_app, list_sum_cons. rewrite E1, E2 in *. unfold ofToken, BaseLPFeesPerShare in *.
  case_decide; lia.
Qed.

Lemma floor_parts amount total (f : string → Z) keys : 0 ≤ amount → 0 < total →
  Forall (λ k, 0 ≤ f k) keys → list_sum f keys ≤ total →
  0 ≤ list_sum (λ k, amount * f k / total) keys ≤ amount.
Proof.
  intros Ha Ht Hf Hs.
  assert (H : 0 ≤ list_sum (λ k, amount * f k / total) keys ∧
    total * list_sum (λ k, amount * f k / total) keys ≤ amount * list_sum f keys).
  { clear Hs. induction Hf as [|k keys Hk _ IH]; [unfold list_sum; cbn; lia|].
    rewrite !list_sum_cons. pose proof (div_spec (amount * f k) total Ht).
    assert (0 ≤ amount * f k / total) by (apply div_nonneg; nia). nia. }
  nia.
Qed.

Lemma mintReward_spec tokenID amount params pairs lm :
  wf_accounts pairs → (∀ id p, pairs !! id = Some p → wf_making (ps_makingVolume p)) → in_u64 amount →
  (∀ k w, PDEXRewardPoolPairsShare params !! k = Some w → 0 ≤ w ∧ is_Some (pairs !! k)) →
  (∀ k r, OrderLiquidityMiningBPS params !! k = Some r → 0 ≤ r ∧ 2 * r < BPS) →
  PDEXRewardPoolPairsShare params = ∅ ∨ 0 < map_sum (λ w, w) (PDEXRewardPoolPairsShare params) < word64 →
  ∃ insts pairs', mintReward tokenID amount params pairs lm = Ok (insts, pairs') ∧ wf_accounts pairs' ∧
    rtc reward_changed pairs pairs' ∧
    ∀ tok, 0 ≤ list_sum (mintedBy tok) insts ≤ ofToken tok tokenID amount ∧
      claims tok pairs' ≤ claims tok pairs + BaseLPFeesPerShare * list_sum (mintedBy tok) insts.
Proof.
  intros Hw Hv Ha Hshares Hbps [Hnone|Htot]; unfold mintReward.
  { rewrite Hnone. eexists _, _. split; [done|]. split; [done|]. split; [done|]. intros tok.
    unfold in_u64 in Ha. unfold list_sum, ofToken. cbn. case_decide; lia. }
  rewrite totalShare_sum, u64_small by (unfold in_u64; lia).
  set (shares := PDEXRewardPoolPairsShare params) in *. set (total := map_sum _ shares) in *.
  assert (Hkeys : Forall (λ k, ∃ w, shares !! k = Some w) (sortedKeys shares)).
  { apply Forall_forall. intros k Hk. apply elem_of_sortedKeys in Hk as [w Hk]. by exists w. }
  assert (Hsum : list_sum (λ k, default 0 (shares !! k)) (sortedKeys shares) = total).
  { unfold total. rewrite map_sum_sortedKeys. done. }
  destruct (mintLoop_spec tokenID amount total params lm (sortedKeys shares) pairs Hw Hv Ha)
    as (insts & pairs' & -> & Hw' & Hr & H); [lia| |].
  { eapply Forall_impl; [done|]. intros k [w Hk]. destruct (Hshares k w Hk) as [Hw0 Hin].
    fold shares. rewrite Hk. cbn [default from_option id]. split; [done|]. split.
    - split; [done|]. apply (map_sum_elem_le (λ w, w) shares k); [|done].
      intros i x Hx. by destruct (Hshares i x Hx).
    - destruct (OrderLiquidityMiningBPS params !! k) as [r|] eqn:E; cbn; [by eapply Hbps|]. unfold BPS. lia. }
  eexists _, _. split; [done|]. split; [done|]. split; [done|]. intros tok.
  destruct (H tok) as [E C]. split; [|done]. rewrite E. unfold in_u64 in Ha.
  destruct (floor_parts amount total (λ k, default 0 (shares !! k)) (sortedKeys shares)); [lia|lia| |lia|].
  - eapply Forall_impl; [done|]. intros k [w Hk]. rewrite Hk. by destruct (Hshares k w Hk).
  - fold shares. unfold ofToken. case_decide; lia.
Qed.

(** Block rewards.  With weights whose sum is positive and fits 64 bits, minting
    succeeds for every set of well-formed pools, at most the block reward is handed out, of
    the reward token only, and the claims of liquidity providers and order makers together
    rise by at most what is handed out. *)
Theorem mintReward_bounded tokenID amount params pairs lm
    (Hw : wf_accounts pairs) (Hv : ∀ id p, pairs !! id = Some p → wf_making (ps_makingVolume p))
    (Ha : in_u64 amount)
    (Hshares : ∀ k w, PDEXRewardPoolPairsShare params !! k = Some w → 0 ≤ w ∧ is_Some (pairs !! k))
    (Hbps : ∀ k r, OrderLiquidityMiningBPS params !! k = Some r → 0 ≤ r ∧ 2 * r < BPS)
    (Htot : 0 < map_sum (λ w, w) (PDEXRewardPoolPairsShare params) < word64) :
  ∃ insts pairs', mintReward tokenID amount params pairs lm = Ok (insts, pairs') ∧ wf_accounts pairs' ∧
    ∀ tok, 0 ≤ list_sum (mintedBy tok) insts ≤ ofToken tok tokenID amount ∧
      claims tok pairs' ≤ claims tok pairs + BaseLPFeesPerShare * list_sum (mintedBy tok) insts.
Proof.
  destruct (mintReward_spec tokenID amount params pairs lm) as (insts & pairs' & ? & ? & _ & ?); eauto.
Qed.

Definition mint_params (weight : Z) : Params :=
  mkParams 30 ∅ 25 10 20 {[sample_key := weight]} ∅ [] 100 10 5 1000 1500 ∅ {[sample_key := 1500]} 10 20 ∅.

(** The sample pool with order makers of both tokens: 700 units for the providers, twice
    150 for the makers. *)
Definition mint_pool : PoolPairState :=
  ps_with_makingVolume {[emptyHash := mkMakingVolume {["n1"%string := 3]};
                         PRVCoinID := mkMakingVolume {["n2"%string := 5]}]} reward_pool.
Definition mint_pools : PoolPairs := {[sample_key := mint_pool]}.

Lemma mint_pools_wf : wf_accounts mint_pools ∧
  ∀ id p, mint_pools !! id = Some p → wf_making (ps_makingVolume p).
Proof.
  pose proof reward_pools_wf as Hr. assert (Hp : reward_pools !! sample_key = Some reward_pool)
    by apply lookup_singleton_eq.
  split.
  - assert (E : mint_pools = <[sample_key := mint_pool]> reward_pools)
      by (unfold mint_pools, reward_pools; by rewrite insert_singleton_eq).
    rewrite E. apply (accounts_insert reward_pools _ reward_pool _ Hr Hp);
      [|exact (wa_orders _ Hr _ _ Hp)|reflexivity|reflexivity].
    apply with_makingVolume_wf. exact (proj1 (we_pools _ (wa_exchange _ Hr) _ _ Hp)).
  - intros id p Hid t v nft x Ht Hx. unfold mint_pools in Hid.
    apply lookup_singleton_Some in Hid as [_ <-].
    cbn [mint_pool ps_with_makingVolume ps_makingVolume] in Ht.
    apply lookup_insert_Some in Ht as [[_ <-]|[_ Ht]]; [|apply lookup_singleton_Some in Ht as [_ <-]];
      cbn [volume] in Hx; apply lookup_singleton_Some in Hx as [_ <-]; lia.
Qed.

Lemma mintReward_bounded_witness :
  ∃ insts pairs', mintReward PRVCoinID 1000 (mint_params 7) mint_pools true = Ok (insts, pairs') ∧
    length insts = 3%nat ∧ 0 ≤ list_sum (mintedBy PRVCoinID) insts ≤ 1000.
Proof.
  destruct mint_pools_wf as [Hw Hv].
  destruct (mintReward_bounded PRVCoinID 1000 (mint_params 7) mint_pools true Hw Hv)
    as (insts & pairs' & Hrun & _ & Hs).
  - unfold in_u64, word64. lia.
  - intros k w Hk. cbn [mint_params PDEXRewardPoolPairsShare] in Hk.
    apply lookup_singleton_Some in Hk as [<- <-]. split; [lia|]. exists mint_pool. apply lookup_singleton_eq.
  - intros k r Hk. cbn [mint_params OrderLiquidityMiningBPS] in Hk.
    apply lookup_singleton_Some in Hk as [_ <-]. unfold BPS. lia.
  - cbn [mint_params PDEXRewardPoolPairsShare]. rewrite map_sum_singleton. unfold word64. lia.
  - exists insts, pairs'. split; [exact Hrun|]. split.
    + assert (Hl : match mintReward PRVCoinID 1000 (mint_params 7) mint_pools true with
        | Ok (i, _) => length i | _ => O end = 3%nat) by (vm_compute; reflexivity).
      rewrite Hrun in Hl. exact Hl.
    + apply (Hs PRVCoinID).
Defined.

(** Validation accepts a parameter set in which the only rewarded pool has weight zero, and
    minting then divides by the sum of the weights. *)
Theorem mintReward_zero_weights :
  (isValidPdexv3Params (mint_params 0) mint_pools).1 = true ∧
  mintReward PRVCoinID 1000 (mint_params 0) mint_pools true = Panic.
Proof. split; vm_compute; reflexivity. Qed.

(** ** Parameters *)

(** Every staking pool the parameters name exists. *)
Definition pools_cover (params : Params) (stakingPools : StakingPools) : Prop :=
  ∀ k, is_Some (StakingPoolsShare params !! k) → is_Some (stakingPools !! k).

Lemma addStakingPoolState_lookup pools ids k :
  addStakingPoolState pools ids !! k =
    match pools !! k with
    | Some p => Some p
    | None => match ids !! k with Some _ => Some NewStakingPoolState | None => None end
    end.
Proof.
  unfold addStakingPoolState. rewrite lookup_union, lookup_fmap.
  by destruct (pools !! k), (ids !! k).
Qed.

(** Changing parameters is safe.  After a block of parameter changes the parameters in
    force are the old ones or a set that passed validation against the pools of the state, in
    which case it is the last accepted request; the staking pools they name all exist, no
    existing staking pool is replaced, and every request gets its answer. *)
Theorem modifyParams_safe txs pairs params stakingPools (Hc : pools_cover params stakingPools) :
  let '(insts, params', stakingPools') := modifyParams txs pairs params stakingPools in
  (params' = params ∨ (isValidPdexv3Params params' pairs).1 = true ∧
     params' ∈ tx_Metadata <$> txs) ∧
  pools_cover params' stakingPools' ∧
  (∀ k p, stakingPools !! k = Some p → stakingPools' !! k = Some p) ∧ length insts = length txs.
Proof.
  revert params stakingPools Hc. induction txs as [|tx txs IH]; intros params pools Hc; cbn [modifyParams].
  { split_and!; auto. }
  set (new := tx_Metadata tx).
  destruct (isValidPdexv3Params new pairs) as [valid msg] eqn:Hv.
  set (st := if valid then (new, addStakingPoolState pools (StakingPoolsShare new)) else (params, pools)).
  assert (Hst : (st.1 = params ∨ valid = true ∧ st.1 = new) ∧ pools_cover st.1 st.2 ∧
    ∀ k p, pools !! k = Some p → st.2 !! k = Some p).
  { unfold st. destruct valid; cbn [fst snd]; [|auto]. split; [by right|]. split.
    - intros k [w Hk]. rewrite addStakingPoolState_lookup, Hk. destruct (pools !! k); by eexists.
    - intros k p Hk. by rewrite addStakingPoolState_lookup, Hk. }
  clearbody st. destruct st as [params1 pools1]. cbn [fst snd] in Hst. destruct Hst as (H1 & H2 & H3).
  specialize (IH params1 pools1 H2).
  destruct (modifyParams txs pairs params1 pools1) as [[insts params'] pools'].
  destruct IH as (I1 & I2 & I3 & I4). split_and!; [|done|by intros; apply I3, H3|cbn; by f_equal].
  rewrite fmap_cons. destruct I1 as [->|[? ?]]; [|right; split; [done|by right]].
  destruct H1 as [->|[-> ->]]; [by left|]. right. rewrite Hv. split; [done|left].
Qed.

Lemma modifyParams_safe_witness :
  let '(insts, params', pools') :=
    modifyParams [mkTx emptyHash 0 false (mint_params 7); mkTx PRVCoinID 0 false sample_params]
      mint_pools (mint_params 1) ∅ in
  length insts = 2%nat ∧ pools_cover params' pools'.
Proof.
  pose proof (modifyParams_safe
    [mkTx emptyHash 0 false (mint_params 7); mkTx PRVCoinID 0 false sample_params]
    mint_pools (mint_params 1) ∅) as H.
  destruct (modifyParams _ _ _ _) as [[insts params'] pools'] eqn:E.
  destruct H as (_ & Hc & _ & Hl).
  - intros k [w Hk]. cbn [mint_params StakingPoolsShare] in Hk. rewrite lookup_empty in Hk. discriminate Hk.
  - exact (conj Hl Hc).
Defined.
