(* ===== verification/StakingProducer.v ===== *)
(** Staking requests of a block ([staking], [unstaking], [distributeStakingReward] and
    [withdrawStakingReward] of [blockchain/pdex/state_producer_v2.go]). *)
From S2P Require Import Prelude Hash RawDB Swap Order Reserve OrderBook Trade Reward TrackFee PdexUtils PoolPair Staking Params WeightedFee Instructions LiquidityProducer TradeProducer OrderProducer RewardProducer.

Local Open Scope Z_scope.

Record StakingRequest := mkStakingRequest {
  st_tokenID : string;
  st_nftID : string;
  st_otaReceiver : string;
  st_tokenAmount : Z }.

Definition stakingTx (nftIDs : gmap string Z) (beaconHeight : Z) (tx : Tx StakingRequest)
    (pools : StakingPools) : outcome (list Instruction * StakingPools) :=
  let md := tx_Metadata tx in
  stakingTokenHash ← NewHashFromStr (st_tokenID md);
  let rejected := Ok ([RejectStaking (st_otaReceiver md) stakingTokenHash (tx_Hash tx) (tx_ShardID tx)
                         (st_tokenAmount md)], pools) in
  match pools !! st_tokenID md with
  | None => rejected
  | Some rootStakingPoolState =>
      if String.eqb (st_nftID md) "" || bool_decide (nftIDs !! st_nftID md = None) then rejected
      else match runM (updateLiquidity (st_nftID md) (st_tokenAmount md) beaconHeight addOperator)
                   rootStakingPoolState with
      | Panic => Panic
      | OutOfFuel => OutOfFuel
      | Err _ => rejected
      | Ok (_, stakingPoolState) =>
          nftHash ← NewHashFromStr (st_nftID md);
          Ok ([AcceptStaking nftHash stakingTokenHash (tx_Hash tx) (tx_ShardID tx) (st_tokenAmount md)],
              <[st_tokenID md := stakingPoolState]> pools)
      end
  end.

Definition unstakingTx (nftIDs : gmap string Z) (beaconHeight : Z) (tx : Tx UnstakingRequest)
    (pools : StakingPools) : outcome (list Instruction * StakingPools) :=
  let md := tx_Metadata tx in
  rejectInsts ← BuildRejectUnstakingInstructions md (tx_Hash tx) (tx_ShardID tx);
  let rejected := Ok (rejectInsts, pools) in
  match pools !! us_stakingPoolID md with
  | None => rejected
  | Some rootStakingPoolState =>
      if String.eqb (us_nftID md) "" || bool_decide (nftIDs !! us_nftID md = None) then rejected
      else match sp_stakers rootStakingPoolState !! us_nftID md with
      | None => rejected
      | Some staker =>
          if (sk_liquidity staker =? 0) || (us_unstakingAmount md =? 0) ||
             (sp_liquidity rootStakingPoolState =? 0) then rejected
          else match runM (updateLiquidity (us_nftID md) (us_unstakingAmount md) beaconHeight subOperator)
                       rootStakingPoolState with
          | Panic => Panic
          | OutOfFuel => OutOfFuel
          | Err _ => rejected
          | Ok (_, stakingPoolState) =>
              let receiver := receiverOf (us_otaReceivers md) (us_stakingPoolID md) in
              if String.eqb receiver "" then rejected
              else
                stakingPoolID ← derefHash (us_stakingPoolID md);
                nftHash ← derefHash (us_nftID md);
                Ok (BuildAcceptUnstakingInstructions stakingPoolID nftHash (us_unstakingAmount md)
                      (receiverOf (us_otaReceivers md) (us_nftID md)) receiver (tx_Hash tx) (tx_ShardID tx),
                    <[us_stakingPoolID md := stakingPoolState]> pools)
          end
      end
  end.

(** ** Rewards *)

(** The fees the pools set aside for the stakers, summed per token. *)
Definition stakingRewards (poolPairs : PoolPairs) : gmap Hash Z :=
  map_fold (λ _ poolPair rewards,
    map_fold (λ tokenID reward rewards,
      <[tokenID := add64 (default 0 (rewards !! tokenID)) reward]> rewards)
      rewards (ps_stakingPoolFees poolPair)) ∅ poolPairs.

(** One pool's part of the rewards. *)
Fixpoint rewardPool (share totalRewardShare : Z) (rewards : list (Hash * Z)) (pool : StakingPoolState)
    : outcome (gmap Hash Z * StakingPoolState) :=
  match rewards with
  | [] => Ok (∅, pool)
  | (rewardToken, rewardAmount) :: rewards =>
      pairReward ← bigDiv (rewardAmount * share) totalRewardShare;
      if negb (isU64 pairReward) then Err "Could not calculate staking reward for pool"
      else if bigUint64 pairReward =? 0 then rewardPool share totalRewardShare rewards pool
      else
        r ← rewardPool share totalRewardShare rewards (sp_AddReward rewardToken (bigUint64 pairReward) pool);
        let '(poolReward, pool) := r in
        Ok (<[rewardToken := bigUint64 pairReward]> poolReward, pool)
  end.

Fixpoint distributeLoop (shares : gmap string Z) (totalRewardShare : Z) (rewards : gmap Hash Z)
    (keys : list string) (stakingPools : StakingPools) : outcome (list Instruction * StakingPools) :=
  match keys with
  | [] => Ok ([], stakingPools)
  | stakingToken :: keys =>
      match stakingPools !! stakingToken with
      | None => Err "Could not find pool for distributing staking reward"
      | Some pool =>
          r ← rewardPool (default 0 (shares !! stakingToken)) totalRewardShare (map_to_list rewards) pool;
          let '(poolReward, pool) := r in
          let insts := if bool_decide (poolReward = ∅) then []
                       else [DistributeStakingReward stakingToken poolReward] in
          r ← distributeLoop shares totalRewardShare rewards keys (<[stakingToken := pool]> stakingPools);
          let '(insts', stakingPools) := r in
          Ok (insts ++ insts', stakingPools)
      end
  end.

Definition distributeStakingReward (poolPairs : PoolPairs) (params : Params) (stakingPools : StakingPools)
    : outcome (list Instruction * StakingPools) :=
  let rewards := stakingRewards poolPairs in
  let totalRewardShare := totalShare (StakingPoolsShare params) in
  if totalRewardShare =? 0 then Ok ([], stakingPools)
  else distributeLoop (StakingPoolsShare params) totalRewardShare rewards
         (sortedKeys (StakingPoolsShare params)) stakingPools.

Definition withdrawStakingRewardTx (tx : Tx RewardRequest) (pools : StakingPools)
    : outcome (list Instruction * StakingPools) :=
  let md := tx_Metadata tx in
  let nft := Hash_String (rq_NftID md) in
  match rq_Receivers md !! rq_NftID md with
  | None => Err "NFT receiver not found in WithdrawalStakingRewardRequest"
  | Some addressStr =>
      let mintNftInst := MintNft (rq_NftID md) addressStr (tx_ShardID tx) (tx_Hash tx)
                           WithdrawStakingRewardMeta in
      let rejected := Ok (mintNftInst :: BuildWithdrawStakingRewardInsts (rq_PoolID md) (rq_NftID md) ∅
                            (tx_ShardID tx) (tx_Hash tx) false, pools) in
      match pools !! rq_PoolID md with
      | None => rejected
      | Some pool =>
          match sp_stakers pool !! nft with
          | None => rejected
          | Some share =>
              reward ← RecomputeStakingRewards pool (rq_NftID md);
              if bool_decide (reward = ∅) then rejected
              else match receiversInfo (rq_Receivers md) reward with
              | None => rejected
              | Some receivers =>
                  let share' := mkStaker (sk_liquidity share) (resetKeyValueToZero (sk_rewards share))
                                  (sp_rewardsPerShare pool) in
                  Ok (mintNftInst :: BuildWithdrawStakingRewardInsts (rq_PoolID md) (rq_NftID md) receivers
                        (tx_ShardID tx) (tx_Hash tx) true,
                      <[rq_PoolID md := sp_with_stakers (<[nft := share']> (sp_stakers pool)) pool]> pools)
              end
          end
      end
  end.

(** The requests of a block one after the other. *)
Fixpoint eachTx {Md} (handle : Tx Md → StakingPools → outcome (list Instruction * StakingPools))
    (txs : list (Tx Md)) (pools : StakingPools) : outcome (list Instruction * StakingPools) :=
  match txs with
  | [] => Ok ([], pools)
  | tx :: txs =>
      r ← handle tx pools;
      let '(insts, pools) := r in
      r ← eachTx handle txs pools;
      let '(insts', pools) := r in
      Ok (insts ++ insts', pools)
  end.

Definition staking (txs : list (Tx StakingRequest)) (nftIDs : gmap string Z) (pools : StakingPools)
    (beaconHeight : Z) : outcome (list Instruction * StakingPools) :=
  eachTx (stakingTx nftIDs beaconHeight) txs pools.

Definition unstaking (txs : list (Tx UnstakingRequest)) (nftIDs : gmap string Z) (pools : StakingPools)
    (beaconHeight : Z) : outcome (list Instruction * StakingPools) :=
  eachTx (unstakingTx nftIDs beaconHeight) txs pools.

Definition withdrawStakingReward (txs : list (Tx RewardRequest)) (pools : StakingPools)
    : outcome (list Instruction * StakingPools) := eachTx withdrawStakingRewardTx txs pools.

(** ** Holdings *)
Definition staked (tok : Hash) (pools : StakingPools) : Z :=
  from_option sp_liquidity 0 (pools !! Hash_String tok).

Definition wf_stakings (pools : StakingPools) : Prop :=
  ∀ k s, pools !! k = Some s → wf_staking s.

Lemma wf_stakings_insert pools k s : wf_stakings pools → wf_staking s → wf_stakings (<[k := s]> pools).
Proof. intros Hw Hs i x. rewrite lookup_insert. case_decide; [by intros [= <-]|apply Hw]. Qed.

Lemma staked_insert pools h s tok :
  staked tok (<[Hash_String h := s]> pools) =
  if decide (h = tok) then sp_liquidity s else staked tok pools.
Proof.
  unfold staked. rewrite lookup_insert. case_decide as E; case_decide as E'; try done.
  - by apply (inj Hash_String) in E.
  - congruence.
Qed.

Lemma updateLiquidity_returns s nft amt bh op : op = addOperator ∨ op = subOperator →
  returns (updateLiquidity nft amt bh op s).1.
Proof.
  intros Hop. unfold updateLiquidity. rewrite getS_bind. apply M_bind_returns.
  - destruct (sp_stakers s !! nft) as [k|].
    + apply M_bind_returns; [apply executeOperation_returns|]. intros liq s1 _.
      apply M_bind_returns; [|intros h s2 _].
      { unfold lift, NewHashFromStr, Hash_Decode. cbn. repeat case_match; simplify_eq; done. }
      apply M_bind_returns; [|done]. unfold assign.
      assert (Hr : returns (RecomputeStakingRewards s h)).
      { unfold RecomputeStakingRewards. destruct (_ !! _); [apply accrueStake_returns|done]. }
      by destruct (RecomputeStakingRewards s h).
    + by destruct (op =? subOperator).
  - intros [] s1 _. apply M_bind_returns; [|done]. unfold lift, poolLiquidity. cbn.
    destruct Hop as [->| ->]; cbn; by destruct (_ <? _) || destruct (_ <=? _).
Qed.

(** ** Claims of the stakers *)
Definition stakeClaims (tok : Hash) (pools : StakingPools) : Z :=
  map_sum (λ s, stakeLiability s tok) pools.

Lemma stakeClaim_nonneg s tok k : wf_staker s k → 0 ≤ stakeClaim s tok k.
Proof.
  intros [? Hr Hm]. unfold stakeClaim, BaseLPFeesPerShare. specialize (Hr tok). specialize (Hm tok). nia.
Qed.

Lemma stakeLiability_nonneg s tok : wf_staking s → 0 ≤ stakeLiability s tok.
Proof. intros Hs. apply map_sum_nonneg. intros nft k Hk. by eapply stakeClaim_nonneg, wsp_each. Qed.

Lemma stakeLiability_le tok pools k s : wf_stakings pools → pools !! k = Some s →
  stakeLiability s tok ≤ stakeClaims tok pools.
Proof.
  intros Hw Hs. apply (map_sum_elem_le (λ s, stakeLiability s tok) _ k); [|done].
  intros i x Hx. by eapply stakeLiability_nonneg, Hw.
Qed.

Lemma stakeClaims_insert tok pools k s s' : pools !! k = Some s →
  stakeClaims tok (<[k := s']> pools) = stakeClaims tok pools - stakeLiability s tok + stakeLiability s' tok.
Proof. intros Hs. unfold stakeClaims. rewrite map_sum_insert, Hs. done. Qed.

(** No staking pool disappears and the stakers' claims do not grow. *)
Definition owes_less (pools pools' : StakingPools) : Prop :=
  (∀ k, is_Some (pools !! k) → is_Some (pools' !! k)) ∧
  ∀ tok, stakeClaims tok pools' ≤ stakeClaims tok pools.

#[export] Instance owes_less_preorder : PreOrder owes_less.
Proof.
  split; [by intros pools; split|]. intros a b c [K1 C1] [K2 C2]. split; [auto|].
  intros tok. specialize (C1 tok). specialize (C2 tok). lia.
Qed.

Lemma owes_less_insert pools k s s' : pools !! k = Some s →
  (∀ tok, stakeLiability s' tok ≤ stakeLiability s tok) → owes_less pools (<[k := s']> pools).
Proof.
  intros Hs Hl. split.
  - intros i Hi. rewrite lookup_insert. by case_decide.
  - intros tok. rewrite (stakeClaims_insert _ _ _ s) by done. specialize (Hl tok). lia.
Qed.

(** A handler of single requests that always succeeds, keeps an invariant and conserves. *)
Lemma eachTx_conserves {Md} handle (wf : Md → Prop) (inv : StakingPools → Prop)
    (hold : Hash → StakingPools → Z) (brings : Hash → Tx Md → Z) (txs : list (Tx Md)) pools :
  (∀ tx pools, inv pools → wf (tx_Metadata tx) →
    ∃ insts pools', handle tx pools = Ok (insts, pools') ∧ inv pools' ∧ Forall plain insts ∧
      ∀ tok, hold tok pools' + payouts tok insts = hold tok pools + brings tok tx) →
  inv pools → Forall (λ tx, wf (tx_Metadata tx)) txs →
  ∃ insts pools', eachTx handle txs pools = Ok (insts, pools') ∧ inv pools' ∧ Forall plain insts ∧
    ∀ tok, hold tok pools' + payouts tok insts =
      hold tok pools + list_sum (brings tok) txs.
Proof.
  intros Hh Hi Hw. revert pools Hi. induction Hw as [|tx txs Htx _ IH]; intros pools Hi.
  { eexists _, _. split; [done|]. split; [done|]. split; [apply Forall_nil_2|].
    intros tok. unfold payouts, list_sum. cbn. lia. }
  cbn [eachTx]. destruct (Hh tx pools Hi Htx) as (i1 & p1 & -> & Hi1 & L1 & H1). cbn [mbind outcome_bind].
  destruct (IH p1 Hi1) as (i2 & p2 & -> & Hi2 & L2 & H2). cbn [mbind outcome_bind].
  eexists _, _. split; [done|]. split; [done|]. split; [by apply Forall_app|]. intros tok. rewrite payouts_app, list_sum_cons.
  specialize (H1 tok). specialize (H2 tok). lia.
Qed.

(** ** Staking and unstaking conserve *)
Record wf_stake_request (md : StakingRequest) : Prop := {
  wsr_token : ∃ h, wf_hash h ∧ st_tokenID md = Hash_String h;
  wsr_nft : ∃ h, wf_hash h ∧ st_nftID md = Hash_String h;
  wsr_amount : in_u64 (st_tokenAmount md) }.

Definition stakeBrought (tok : Hash) (tx : Tx StakingRequest) : Z :=
  if decide (st_tokenID (tx_Metadata tx) = Hash_String tok) then st_tokenAmount (tx_Metadata tx) else 0.

Lemma decide_Hash_String {A} (h tok : Hash) (x y : A) :
  (if decide (Hash_String h = Hash_String tok) then x else y) = if decide (h = tok) then x else y.
Proof.
  case_decide as E; case_decide as E'; try done; [by apply (inj Hash_String) in E|congruence].
Qed.

Lemma stakingTx_conserves nftIDs bh tx pools :
  wf_stakings pools → wf_stake_request (tx_Metadata tx) →
  ∃ insts pools', stakingTx nftIDs bh tx pools = Ok (insts, pools') ∧ wf_stakings pools' ∧
    owes_less pools pools' ∧ Forall plain insts ∧ ∀ tok, staked tok pools' + payouts tok insts = staked tok pools + stakeBrought tok tx.
Proof.
  intros Hw [(t & Ht & Et) (h & Hh & En) Ha]. unfold stakingTx, stakeBrought. set (md := tx_Metadata tx) in *.
  rewrite Et, En, !NewHashFromStr_String by done. cbn [mbind outcome_bind].
  set (rejected := Ok ([_], pools)).
  assert (Hrej : ∃ insts pools', rejected = Ok (insts, pools') ∧ wf_stakings pools' ∧
    owes_less pools pools' ∧ Forall plain insts ∧ ∀ tok, staked tok pools' + payouts tok insts =
      staked tok pools + (if decide (Hash_String t = Hash_String tok) then st_tokenAmount md else 0)).
  { eexists _, _. split; [done|]. split; [done|]. split; [done|].
    split; [destruct Ha; solve_plain|]. intros tok. rewrite decide_Hash_String. unfold payouts, list_sum. cbn. lia. }
  destruct (pools !! Hash_String t) as [s|] eqn:Hp; [|done]. destruct (_ || _); [done|].
  pose proof (updateLiquidity_returns s (Hash_String h) (st_tokenAmount md) bh addOperator ltac:(by left)) as Hret.
  unfold runM. destruct (updateLiquidity _ _ _ _ s) as [[[]| | |] s'] eqn:Hrun; try done.
  destruct (updateLiquidity_spec s s' h _ bh addOperator (Hw _ _ Hp) Hh Ha ltac:(by left) Hrun)
    as (Hs' & Hc & Hl & _). change (sign_of addOperator) with 1 in Hl.
  eexists _, _. split; [done|]. split; [by apply wf_stakings_insert|].
  split; [by eapply owes_less_insert|]. split; [destruct Ha; solve_plain|]. intros tok.
  rewrite staked_insert, decide_Hash_String. unfold payouts, list_sum. cbn [foldr payout].
  case_decide; [subst|]; [|lia]. unfold staked. rewrite Hp. cbn [from_option]. lia.
Qed.

Lemma staking_spec txs nftIDs pools bh :
  wf_stakings pools → Forall (λ tx, wf_stake_request (tx_Metadata tx)) txs →
  ∃ insts pools', staking txs nftIDs pools bh = Ok (insts, pools') ∧
    (wf_stakings pools' ∧ owes_less pools pools') ∧ Forall plain insts ∧
    ∀ tok, staked tok pools' + payouts tok insts = staked tok pools + list_sum (stakeBrought tok) txs.
Proof.
  intros Hw Htxs.
  apply (eachTx_conserves _ wf_stake_request (λ p, wf_stakings p ∧ owes_less pools p) staked stakeBrought);
    [|done|done].
  intros tx p [Hp Ho] Htx. destruct (stakingTx_conserves nftIDs bh tx p Hp Htx)
    as (insts & p' & ? & ? & ? & ? & ?). exists insts, p'. split; [done|]. split; [|done]. split; [done|by etrans].
Qed.

(** Staking conserves tokens.  Every block of valid staking requests is processed, every
    staking pool's total stays the sum of its stakes, and for every token the stakes
    afterwards plus the refunds are the stakes before plus what the requests brought. *)
Theorem staking_conserves txs nftIDs pools bh (Hw : wf_stakings pools)
    (Htxs : Forall (λ tx, wf_stake_request (tx_Metadata tx)) txs) :
  ∃ insts pools', staking txs nftIDs pools bh = Ok (insts, pools') ∧ wf_stakings pools' ∧
    ∀ tok, staked tok pools' + payouts tok insts =
      staked tok pools + list_sum (stakeBrought tok) txs.
Proof.
  destruct (staking_spec txs nftIDs pools bh Hw Htxs) as (insts & pools' & ? & [? _] & _ & ?).
  by exists insts, pools'.
Qed.

Definition sample_stakes : StakingPools := {[Hash_String PRVCoinID := sample_staking]}.

Lemma sample_stakes_wf : wf_stakings sample_stakes.
Proof.
  intros k s Hs. unfold sample_stakes in Hs. apply lookup_singleton_Some in Hs as [_ <-].
  exact sample_staking_wf.
Qed.

Lemma staking_conserves_witness :
  let tx n := mkTx emptyHash 0 false (mkStakingRequest (Hash_String PRVCoinID) n "o" 250) in
  ∃ insts pools', staking [tx (Hash_String sample_nft); tx (Hash_String PRVCoinID)] sample_nfts sample_stakes 9 =
      Ok (insts, pools') ∧ payouts PRVCoinID insts = 250 ∧
    staked PRVCoinID pools' + payouts PRVCoinID insts = 700 + 500.
Proof.
  intros tx.
  destruct (staking_conserves [tx (Hash_String sample_nft); tx (Hash_String PRVCoinID)] sample_nfts sample_stakes 9)
    as (insts & pools' & Hrun & _ & Hs).
  - exact sample_stakes_wf.
  - repeat apply Forall_cons_2; [| |apply Forall_nil_2].
    + split; [exists PRVCoinID; split; reflexivity|exists sample_nft; split; reflexivity|
        unfold in_u64, word64; cbn; lia].
    + split; [exists PRVCoinID; split; reflexivity|exists PRVCoinID; split; reflexivity|
        unfold in_u64, word64; cbn; lia].
  - exists insts, pools'. split; [exact Hrun|]. split.
    + assert (Hp : match staking [tx (Hash_String sample_nft); tx (Hash_String PRVCoinID)] sample_nfts
          sample_stakes 9 with Ok (i, _) => payouts PRVCoinID i | _ => 0 end = 250)
        by (vm_compute; reflexivity).
      rewrite Hrun in Hp. exact Hp.
    + rewrite Hs. vm_compute. reflexivity.
Defined.

Record wf_unstake_request (md : UnstakingRequest) : Prop := {
  wur_token : ∃ h, wf_hash h ∧ us_stakingPoolID md = Hash_String h;
  wur_nft : ∃ h, wf_hash h ∧ us_nftID md = Hash_String h;
  wur_amount : in_u64 (us_unstakingAmount md) }.

Lemma unstakingTx_conserves nftIDs bh tx pools :
  wf_stakings pools → wf_unstake_request (tx_Metadata tx) →
  ∃ insts pools', unstakingTx nftIDs bh tx pools = Ok (insts, pools') ∧ wf_stakings pools' ∧
    owes_less pools pools' ∧ Forall plain insts ∧ ∀ tok, staked tok pools' + payouts tok insts = staked tok pools + 0.
Proof.
  intros Hw [(t & Ht & Et) (h & Hh & En) Ha]. unfold unstakingTx, BuildRejectUnstakingInstructions, derefHash.
  set (md := tx_Metadata tx) in *. rewrite !En, !Et, !NewHashFromStr_String by done. cbn [mbind outcome_bind].
  set (rejected := Ok (_, pools)).
  assert (Hrej : ∃ insts pools', rejected = Ok (insts, pools') ∧ wf_stakings pools' ∧
    owes_less pools pools' ∧ Forall plain insts ∧ ∀ tok, staked tok pools' + payouts tok insts = staked tok pools + 0).
  { eexists _, _. split; [done|]. split; [done|]. split; [done|]. split; [solve_plain|].
    intros tok. unfold payouts, list_sum. cbn. lia. }
  destruct (pools !! Hash_String t) as [s|] eqn:Hp; [|done]. destruct (_ || _); [done|].
  destruct (sp_stakers s !! Hash_String h) as [k|] eqn:Hk; [|done]. destruct (_ || _ || _); [done|].
  pose proof (updateLiquidity_returns s (Hash_String h) (us_unstakingAmount md) bh subOperator ltac:(by right)) as Hret.
  unfold runM. destruct (updateLiquidity _ _ _ _ s) as [[[]| | |] s'] eqn:Hrun; try done.
  destruct (updateLiquidity_spec s s' h _ bh subOperator (Hw _ _ Hp) Hh Ha ltac:(by right) Hrun)
    as (Hs' & Hc & Hl & _). change (sign_of subOperator) with (-1) in Hl.
  cbv zeta. destruct (String.eqb _ ""); [done|].
  eexists _, _. split; [done|]. split; [by apply wf_stakings_insert|].
  split; [by eapply owes_less_insert|]. split; [destruct Ha; solve_plain|]. intros tok.
  rewrite staked_insert. unfold payouts, list_sum, BuildAcceptUnstakingInstructions. cbn [foldr payout].
  case_decide; [subst|]; [|lia]. unfold staked. rewrite Hp. cbn [from_option]. lia.
Qed.

Lemma unstaking_spec txs nftIDs pools bh :
  wf_stakings pools → Forall (λ tx, wf_unstake_request (tx_Metadata tx)) txs →
  ∃ insts pools', unstaking txs nftIDs pools bh = Ok (insts, pools') ∧
    (wf_stakings pools' ∧ owes_less pools pools') ∧ Forall plain insts ∧
    ∀ tok, staked tok pools' + payouts tok insts = staked tok pools.
Proof.
  intros Hw Htxs.
  destruct (eachTx_conserves (unstakingTx nftIDs bh) wf_unstake_request
      (λ p, wf_stakings p ∧ owes_less pools p) staked (λ _ _, 0) txs pools)
    as (insts & pools' & Hrun & Hw' & Hpl & H); [|done|done|].
  - intros tx p [Hp Ho] Htx. destruct (unstakingTx_conserves nftIDs bh tx p Hp Htx)
      as (insts & p' & ? & ? & ? & ? & ?). exists insts, p'. split; [done|]. split; [|done]. split; [done|by etrans].
  - exists insts, pools'. split; [done|]. split; [done|]. split; [done|]. intros tok. rewrite (H tok).
    clear. induction txs as [|tx txs IH]; [unfold list_sum; cbn; lia|]. rewrite list_sum_cons. lia.
Qed.

(** Unstaking conserves tokens.  Every block of valid unstaking requests is processed,
    every staking pool's total stays the sum of its stakes, and for every token what is paid
    out is exactly what the stakes lose. *)
Theorem unstaking_conserves txs nftIDs pools bh (Hw : wf_stakings pools)
    (Htxs : Forall (λ tx, wf_unstake_request (tx_Metadata tx)) txs) :
  ∃ insts pools', unstaking txs nftIDs pools bh = Ok (insts, pools') ∧ wf_stakings pools' ∧
    ∀ tok, staked tok pools' + payouts tok insts = staked tok pools.
Proof.
  destruct (unstaking_spec txs nftIDs pools bh Hw Htxs) as (insts & pools' & ? & [? _] & _ & ?).
  by exists insts, pools'.
Qed.

(** An unstake of 300 is paid, one of more than is left is not. *)
Lemma unstaking_conserves_witness :
  let tx a := mkTx emptyHash 0 false (mkUnstakingRequest (Hash_String PRVCoinID) (Hash_String sample_nft) a
    {[Hash_String PRVCoinID := "o"%string]}) in
  ∃ insts pools', unstaking [tx 300; tx 401] sample_nfts sample_stakes 9 = Ok (insts, pools') ∧
    payouts PRVCoinID insts = 300 ∧ staked PRVCoinID pools' + payouts PRVCoinID insts = 700.
Proof.
  intros tx. destruct (unstaking_conserves [tx 300; tx 401] sample_nfts sample_stakes 9)
    as (insts & pools' & Hrun & _ & Hs).
  - exact sample_stakes_wf.
  - repeat apply Forall_cons_2; [| |apply Forall_nil_2]; (split; [exists PRVCoinID; split; reflexivity|
      exists sample_nft; split; reflexivity|unfold in_u64, word64; cbn; lia]).
  - exists insts, pools'. split; [exact Hrun|]. split.
    + assert (Hp : match unstaking [tx 300; tx 401] sample_nfts sample_stakes 9 with
        | Ok (i, _) => payouts PRVCoinID i | _ => 0 end = 300) by (vm_compute; reflexivity).
      rewrite Hrun in Hp. exact Hp.
    + rewrite Hs. vm_compute. reflexivity.
Defined.

(** ** Withdrawing staking rewards *)
Lemma accrueStake_succeeds toks k result :
  (∀ t new, (t, new) ∈ toks → in_u64 ((new - feeOf t (sk_lastRewardsPerShare k)) * sk_liquidity k /
     BaseLPFeesPerShare + feeOf t (sk_rewards k))) → ∃ r, accrueStake toks k result = Ok r.
Proof.
  revert result. induction toks as [|[t new] toks IH]; intros result Hin; [by eexists|].
  cbn [accrueStake]. fold (feeOf t (sk_rewards k)) (feeOf t (sk_lastRewardsPerShare k)).
  rewrite (proj2 (in_u64_iff _) (Hin t new ltac:(left))). cbn [negb]. apply IH.
  intros x n Hx. apply Hin. by right.
Qed.

Lemma RecomputeStakingRewards_succeeds s h k : sp_stakers s !! Hash_String h = Some k → wf_staker s k →
  (∀ tok, stakeClaim s tok k < BaseLPFeesPerShare * word64) → ∃ r, RecomputeStakingRewards s h = Ok r.
Proof.
  intros Hk [Hl Hr Hm] Hb. unfold RecomputeStakingRewards. rewrite Hk. apply accrueStake_succeeds.
  intros t new Ht%elem_of_map_to_list. assert (Ef : feeOf t (sp_rewardsPerShare s) = new)
    by (unfold feeOf; by rewrite Ht).
  specialize (Hb t). specialize (Hr t). specialize (Hm t). unfold stakeClaim in Hb. rewrite Ef in *.
  pose proof (div_spec ((new - feeOf t (sk_lastRewardsPerShare k)) * sk_liquidity k) BaseLPFeesPerShare
    ltac:(done)).
  assert (0 ≤ (new - feeOf t (sk_lastRewardsPerShare k)) * sk_liquidity k / BaseLPFeesPerShare)
    by (apply div_nonneg; [nia|done]).
  unfold in_u64, BaseLPFeesPerShare in *. lia.
Qed.

Lemma StakingReward_payouts tok pool nft info shard tx recv reward : receiversInfo recv reward = Some info →
  payouts tok (BuildWithdrawStakingRewardInsts pool nft info shard tx true) = feeOf tok reward.
Proof.
  intros Hi. unfold payouts, BuildWithdrawStakingRewardInsts.
  rewrite (markLast_sum _ _ (λ tr : Hash * ReceiverInfo, if decide (tr.1 = tok) then ri_Amount tr.2 else 0)) by done.
  rewrite (list_sum_Permutation _ _ _ (sortedTokens_perm info)), list_sum_token.
  by eapply receiversInfo_amount.
Qed.

Lemma StakingReward_plain pool nft info shard tx recv reward : receiversInfo recv reward = Some info →
  (∀ tok, 0 ≤ feeOf tok reward) →
  Forall plain (BuildWithdrawStakingRewardInsts pool nft info shard tx true).
Proof.
  intros Hi Hr. apply markLast_Forall, sortedTokens_Forall. intros t a Ht b.
  pose proof (receiversInfo_amount _ _ _ t Hi) as E. rewrite Ht in E. cbn [from_option] in E. specialize (Hr t).
  cbn [fst snd]. solve_plain.
Qed.

Lemma withdrawStakingRewardTx_covered tx pools :
  wf_stakings pools → wf_reward_request (tx_Metadata tx) →
  (∀ tok, stakeClaims tok pools < BaseLPFeesPerShare * word64) →
  ∃ insts pools', withdrawStakingRewardTx tx pools = Ok (insts, pools') ∧ wf_stakings pools' ∧
    owes_less pools pools' ∧ Forall plain insts ∧ (∀ tok, staked tok pools' = staked tok pools) ∧
    ∀ tok, 0 ≤ payouts tok insts ∧
      BaseLPFeesPerShare * payouts tok insts + stakeClaims tok pools' ≤ stakeClaims tok pools.
Proof.
  intros Hw [Hh [addr Haddr]] Hb. unfold withdrawStakingRewardTx. set (md := tx_Metadata tx) in *. rewrite Haddr.
  set (mint := MintNft _ _ _ _ _). set (rejected := Ok (mint :: _, pools)).
  assert (Hrej : ∃ insts pools', rejected = Ok (insts, pools') ∧ wf_stakings pools' ∧
    owes_less pools pools' ∧ Forall plain insts ∧ (∀ tok, staked tok pools' = staked tok pools) ∧
    ∀ tok, 0 ≤ payouts tok insts ∧
      BaseLPFeesPerShare * payouts tok insts + stakeClaims tok pools' ≤ stakeClaims tok pools).
  { eexists _, _. split; [done|]. split; [done|]. split; [done|]. split; [unfold mint; solve_plain|].
    split; [done|]. intros tok. unfold payouts, list_sum, BaseLPFeesPerShare. cbn. lia. }
  destruct (pools !! rq_PoolID md) as [s|] eqn:Hp; [|done]. pose proof (Hw _ _ Hp) as Hs.
  set (nft := Hash_String (rq_NftID md)). destruct (sp_stakers s !! nft) as [k|] eqn:Hk; [|done].
  pose proof (wsp_each _ Hs _ _ Hk) as Hwk.
  destruct (RecomputeStakingRewards_succeeds s (rq_NftID md) k Hk Hwk) as [reward Hr].
  { intros tok. pose proof (stakeLiability_le tok _ _ _ Hw Hp). specialize (Hb tok).
    assert (stakeClaim s tok k ≤ stakeLiability s tok); [|lia].
    apply (map_sum_elem_le (stakeClaim s tok) _ nft); [|done].
    intros i x Hx. by eapply stakeClaim_nonneg, wsp_each. }
  rewrite Hr. cbn [mbind outcome_bind]. destruct (bool_decide _); [done|].
  destruct (receiversInfo _ _) as [info|] eqn:Hi; [|done]. cbv zeta.
  set (k' := mkStaker _ (resetKeyValueToZero _) _).
  set (s' := sp_with_stakers (<[nft := k']> (sp_stakers s)) s).
  assert (Hzero : ∀ tok, stakeClaim s tok k' = 0).
  { intros tok. unfold stakeClaim, k'. cbn. rewrite feeOf_resetKeyValueToZero. lia. }
  assert (Hs' : wf_staking s').
  { destruct Hs as [? Hsum Heach Hbk]. split; try done.
    - cbn. rewrite map_sum_insert, Hk. cbn [from_option k' sk_liquidity]. lia.
    - intros i x Hx. cbn in Hx. rewrite lookup_insert in Hx. case_decide; [|by destruct (Heach i x Hx)].
      injection Hx as <-. split; cbn; [apply Hwk|intros; by rewrite feeOf_resetKeyValueToZero|by apply mono_refl]. }
  assert (El : ∀ tok, stakeLiability s' tok = stakeLiability s tok - stakeClaim s tok k).
  { intros tok. unfold stakeLiability. cbn [s' sp_with_stakers sp_stakers].
    rewrite (map_sum_ext _ (stakeClaim s tok)) by done. rewrite map_sum_insert, Hk. cbn [from_option].
    rewrite Hzero. lia. }
  eexists _, _. split; [done|]. split; [by apply wf_stakings_insert|]. split; [|split; [|split]].
  - eapply owes_less_insert; [done|]. intros tok. rewrite El.
    pose proof (stakeClaim_nonneg s tok k Hwk). lia.
  - apply Forall_cons_2; [unfold mint; solve_plain|]. eapply StakingReward_plain; [done|]. intros tok.
    by destruct (RecomputeStakingRewards_spec s _ k reward tok Hk Hwk Hr) as (? & _).
  - intros tok. unfold staked. rewrite lookup_insert. case_decide as E; [|done]. by rewrite <- E, Hp.
  - intros tok. change (mint :: ?b) with ([mint] ++ b).
    rewrite payouts_app, (StakingReward_payouts _ _ _ _ _ _ _ _ Hi).
    change (payouts tok [mint]) with 0. rewrite (stakeClaims_insert _ _ _ s) by done.
    rewrite El.
    destruct (RecomputeStakingRewards_spec s _ k reward tok Hk Hwk Hr) as (? & ? & _).
    unfold BaseLPFeesPerShare in *. lia.
Qed.

Lemma withdrawStakingReward_spec txs pools :
  wf_stakings pools → Forall (λ tx, wf_reward_request (tx_Metadata tx)) txs →
  (∀ tok, stakeClaims tok pools < BaseLPFeesPerShare * word64) →
  ∃ insts pools', withdrawStakingReward txs pools = Ok (insts, pools') ∧ wf_stakings pools' ∧
    owes_less pools pools' ∧ Forall plain insts ∧ (∀ tok, staked tok pools' = staked tok pools) ∧
    ∀ tok, 0 ≤ payouts tok insts ∧
      BaseLPFeesPerShare * payouts tok insts + stakeClaims tok pools' ≤ stakeClaims tok pools.
Proof.
  unfold withdrawStakingReward. intros Hw Htxs Hb. revert pools Hw Hb.
  induction Htxs as [|tx txs Htx _ IH]; intros pools Hw Hb.
  { eexists _, _. split; [done|]. split; [done|]. split; [done|]. split; [apply Forall_nil_2|].
    split; [done|]. intros tok. unfold payouts, list_sum, BaseLPFeesPerShare. cbn. lia. }
  cbn [eachTx]. destruct (withdrawStakingRewardTx_covered tx pools Hw Htx Hb)
    as (i1 & p1 & -> & Hw1 & O1 & L1 & S1 & H1).
  cbn [mbind outcome_bind]. destruct (IH p1 Hw1) as (i2 & p2 & -> & Hw2 & O2 & L2 & S2 & H2).
  { intros tok. specialize (H1 tok). specialize (Hb tok). unfold BaseLPFeesPerShare in *. lia. }
  cbn [mbind outcome_bind]. eexists _, _. split; [done|]. split; [done|]. split; [by etrans|].
  split; [by apply Forall_app|]. split.
  - intros tok. by rewrite S2, S1.
  - intros tok. rewrite payouts_app. specialize (H1 tok). specialize (H2 tok).
    unfold BaseLPFeesPerShare in *. lia.
Qed.

(** Staking rewards are covered and cannot be withdrawn twice.  As long as the claims
    fit 64 bits, every block of withdrawal requests is processed, no stake changes, and for
    every token what is paid plus what may still be claimed is at most what could be claimed
    before. *)
Theorem withdrawStakingReward_covered txs pools (Hw : wf_stakings pools)
    (Htxs : Forall (λ tx, wf_reward_request (tx_Metadata tx)) txs)
    (Hb : ∀ tok, stakeClaims tok pools < BaseLPFeesPerShare * word64) :
  ∃ insts pools', withdrawStakingReward txs pools = Ok (insts, pools') ∧ wf_stakings pools' ∧
    (∀ tok, staked tok pools' = staked tok pools) ∧
    ∀ tok, 0 ≤ payouts tok insts ∧
      BaseLPFeesPerShare * payouts tok insts + stakeClaims tok pools' ≤ stakeClaims tok pools.
Proof.
  destruct (withdrawStakingReward_spec txs pools Hw Htxs Hb) as (insts & pools' & ? & ? & _ & _ & ? & ?).
  by exists insts, pools'.
Qed.

(** 700 units of stake earned three each; the second request gets nothing. *)
Lemma withdrawStakingReward_covered_witness :
  let md := mkRewardRequest (Hash_String PRVCoinID) sample_nft
    {[sample_nft := "n"%string; PRVCoinID := "b"%string]} in
  ∃ insts pools', withdrawStakingReward [mkTx emptyHash 0 false md; mkTx PRVCoinID 0 false md] sample_stakes =
      Ok (insts, pools') ∧ payouts PRVCoinID insts = 2100.
Proof.
  intros md.
  destruct (withdrawStakingReward_covered [mkTx emptyHash 0 false md; mkTx PRVCoinID 0 false md] sample_stakes)
    as (insts & pools' & Hrun & _ & _ & _).
  - exact sample_stakes_wf.
  - repeat apply Forall_cons_2; try apply Forall_nil_2; (split; [reflexivity|eexists; vm_compute; reflexivity]).
  - intros tok. unfold stakeClaims, sample_stakes. rewrite map_sum_singleton. unfold stakeLiability.
    cbn [sample_staking sp_stakers]. rewrite map_sum_singleton. unfold stakeClaim.
    cbn [sample_staking sk_rewards sp_rewardsPerShare sk_lastRewardsPerShare sk_liquidity].
    rewrite feeOf_singleton, !feeOf_empty. unfold ofToken. case_decide; vm_compute; reflexivity.
  - exists insts, pools'. split; [exact Hrun|].
    assert (Hp : match withdrawStakingReward [mkTx emptyHash 0 false md; mkTx PRVCoinID 0 false md]
      sample_stakes with Ok (i, _) => payouts PRVCoinID i | _ => 0 end = 2100) by (vm_compute; reflexivity).
    rewrite Hrun in Hp. exact Hp.
Defined.

(** ** Distribution *)
Definition distributedBy (tok : Hash) (i : Instruction) : Z :=
  match i with DistributeStakingReward _ rewards => feeOf tok rewards | _ => 0 end.

Lemma rewardPool_spec share total rewards pool :
  NoDup rewards.*1 → 0 ≤ share ≤ total → 0 < total → Forall (λ ta, in_u64 ta.2) rewards →
  wf_staking pool →
  ∃ poolReward pool', rewardPool share total rewards pool = Ok (poolReward, pool') ∧ wf_staking pool' ∧
    sp_liquidity pool' = sp_liquidity pool ∧
    (∀ tok, feeOf tok poolReward =
       list_sum (λ ta : Hash * Z, if decide (ta.1 = tok) then ta.2 * share / total else 0) rewards) ∧
    ∀ tok, stakeLiability pool' tok ≤ stakeLiability pool tok + BaseLPFeesPerShare * feeOf tok poolReward.
Proof.
  intros Hnd Hsh Ht HF. revert pool. induction rewards as [|[t a] rewards IH]; intros pool Hp.
  { eexists _, _. split; [done|]. split; [done|]. split; [done|].
    split; intros tok; rewrite feeOf_empty; [done|].
    unfold BaseLPFeesPerShare. lia. }
  apply NoDup_cons in Hnd as [Hnt Hnd]. apply Forall_cons in HF as [Ha HF]. cbn in Ha, Hnt.
  cbn [rewardPool]. rewrite bigDiv_pos by done. cbn [mbind outcome_bind]. unfold in_u64 in Ha.
  set (r := a * share / total).
  assert (Hr : 0 ≤ r ≤ a) by (split; [apply div_nonneg; nia|apply div_le_l; nia]).
  assert (Hu : in_u64 r) by (unfold in_u64; lia).
  rewrite (proj2 (in_u64_iff r) Hu), bigUint64_small by done. cbn [negb].
  assert (Hrest : ∀ tok, t = tok →
    list_sum (λ ta : Hash * Z, if decide (ta.1 = tok) then ta.2 * share / total else 0) rewards = 0).
  { intros tok <-. clear -Hnt. induction rewards as [|[x b] rewards IH]; [done|].
    rewrite list_sum_cons. apply not_elem_of_cons in Hnt as [Hx Hnt]. cbn in *.
    rewrite decide_False by congruence. rewrite IH by done. lia. }
  destruct (r =? 0) eqn:E0.
  - destruct (IH Hnd HF pool Hp) as (pr & p' & -> & Hp' & Hq & Hf & Hl). eexists _, _. split; [done|].
    split; [done|]. split; [done|]. split; [|done]. intros tok. rewrite Hf, list_sum_cons. cbn. fold r. case_decide; lia.
  - destruct (sp_AddReward_spec pool t r Hp (proj1 Hr)) as [Hp1 Hadd].
    destruct (IH Hnd HF _ Hp1) as (pr & p' & -> & Hp' & Hq & Hf & Hl). cbn [mbind outcome_bind].
    eexists _, _. split; [done|]. split; [done|]. split.
    { rewrite Hq. unfold sp_AddReward. by destruct (sp_liquidity pool =? 0). }
    split.
    + intros tok. rewrite feeOf_insert, list_sum_cons. cbn. fold r. case_decide as E.
      * rewrite Hrest by done. lia.
      * by rewrite Hf.
    + intros tok. specialize (Hl tok). specialize (Hadd tok). rewrite feeOf_insert.
      case_decide as E; [|lia]. rewrite Hf, Hrest in Hl by done. unfold BaseLPFeesPerShare in *. lia.
Qed.

(** The totals of the staking pools do not change. *)
Definition same_stakes (pools pools' : StakingPools) : Prop :=
  ∀ k, sp_liquidity <$> pools' !! k = sp_liquidity <$> pools !! k.

Lemma same_stakes_staked pools pools' tok : same_stakes pools pools' → staked tok pools' = staked tok pools.
Proof.
  intros H. specialize (H (Hash_String tok)). unfold staked.
  destruct (pools !! _), (pools' !! _); cbn in *; congruence.
Qed.

Lemma same_stakes_dom pools pools' k : same_stakes pools pools' →
  is_Some (pools !! k) → is_Some (pools' !! k).
Proof.
  intros H [s Hs]. specialize (H k). rewrite Hs in H.
  destruct (pools' !! k) as [s'|]; cbn in H; [by exists s'|done].
Qed.

Lemma distributeLoop_spec shares total rewards keys pools :
  wf_stakings pools → 0 < total → (∀ t a, rewards !! t = Some a → in_u64 a) →
  Forall (λ k, is_Some (pools !! k) ∧ 0 ≤ default 0 (shares !! k) ≤ total) keys →
  ∃ insts pools', distributeLoop shares total rewards keys pools = Ok (insts, pools') ∧
    wf_stakings pools' ∧ same_stakes pools pools' ∧ ∀ tok,
      list_sum (distributedBy tok) insts =
        list_sum (λ k, feeOf tok rewards * default 0 (shares !! k) / total) keys ∧
      stakeClaims tok pools' ≤ stakeClaims tok pools +
        BaseLPFeesPerShare * list_sum (distributedBy tok) insts.
Proof.
  intros Hw Ht Hr. revert pools Hw. induction keys as [|k keys IH]; intros pools Hw HF.
  { eexists _, _. split; [done|]. split; [done|]. split; [done|]. intros tok.
    unfold list_sum, BaseLPFeesPerShare. cbn. lia. }
  apply Forall_cons in HF as [([s Hs] & Hsh) HF]. cbn [distributeLoop]. rewrite Hs.
  destruct (rewardPool_spec (default 0 (shares !! k)) total (map_to_list rewards) s)
    as (pr & s' & -> & Hs' & Hq & Hf & Hl); [apply NoDup_fst_map_to_list|done|done| |by eapply Hw|].
  { apply Forall_forall. intros [t a] Hta%elem_of_map_to_list. by eapply Hr. }
  cbn [mbind outcome_bind].
  destruct (IH (<[k := s']> pools)) as (i2 & pools' & -> & Hw2 & Q2 & H2).
  { by apply wf_stakings_insert. }
  { eapply Forall_impl; [done|]. intros i [Hi ?]. split; [|done]. rewrite lookup_insert. by case_decide. }
  cbn [mbind outcome_bind]. eexists _, _. split; [done|]. split; [done|]. split.
  { intros i. rewrite Q2, lookup_insert. case_decide as E; [|done]. subst i. rewrite Hs. cbn. f_equal. exact Hq. }
  intros tok. set (i1 := if bool_decide (pr = ∅) then [] else _).
  assert (E1 : list_sum (distributedBy tok) i1 = feeOf tok pr).
  { unfold i1. case_bool_decide as E; [subst pr; by rewrite feeOf_empty|].
    unfold list_sum. cbn. lia. }
  assert (E2 : feeOf tok pr = feeOf tok rewards * default 0 (shares !! k) / total).
  { rewrite Hf. pose proof (list_sum_token (λ a, a * default 0 (shares !! k) / total) rewards tok) as Hsum.
    cbv beta in Hsum. rewrite Hsum. unfold feeOf. destruct (rewards !! tok); cbn [from_option default id]; [done|].
    by rewrite Z.mul_0_l, Z.div_0_l by lia. }
  destruct (H2 tok) as [D2 C2]. rewrite (stakeClaims_insert _ _ _ s) in C2 by done. specialize (Hl tok).
  rewrite list_sum_app, list_sum_cons, E1, D2. rewrite D2 in C2. split; [lia|].
  unfold BaseLPFeesPerShare in *. lia.
Qed.

(** The rewards set aside are 64-bit words. *)
Lemma stakingRewards_u64 pairs t a : stakingRewards pairs !! t = Some a → in_u64 a.
Proof.
  unfold stakingRewards. revert t a.
  apply (map_fold_weak_ind (λ r _, ∀ t a, r !! t = Some a → in_u64 a)).
  { intros t a Ht. by rewrite lookup_empty in Ht. }
  intros id p _ r _ Hr.
  apply (map_fold_weak_ind (λ r _, ∀ t a, r !! t = Some a → in_u64 a)); [done|].
  intros tok x _ r' _ Hr' t a. rewrite lookup_insert. case_decide; [intros [= <-]; apply u64_bound|apply Hr'].
Qed.

Lemma distributeStakingReward_spec pairs params pools :
  wf_stakings pools → pools_cover params pools →
  (∀ k w, StakingPoolsShare params !! k = Some w → 0 ≤ w) →
  map_sum (λ w, w) (StakingPoolsShare params) < word64 →
  ∃ insts pools', distributeStakingReward pairs params pools = Ok (insts, pools') ∧ wf_stakings pools' ∧
    same_stakes pools pools' ∧
    ∀ tok, 0 ≤ list_sum (distributedBy tok) insts ≤ feeOf tok (stakingRewards pairs) ∧
      stakeClaims tok pools' ≤ stakeClaims tok pools +
        BaseLPFeesPerShare * list_sum (distributedBy tok) insts.
Proof.
  intros Hw Hc Hshares Htot. unfold distributeStakingReward. set (rewards := stakingRewards pairs). set (shares := StakingPoolsShare params) in *.
  assert (Hnn : 0 ≤ map_sum (λ w, w) shares) by (apply map_sum_nonneg; done).
  assert (Hr0 : ∀ tok, 0 ≤ feeOf tok rewards).
  { intros tok. unfold feeOf. destruct (rewards !! tok) as [a|] eqn:E; [|done].
    by apply stakingRewards_u64 in E as [? _]. }
  rewrite totalShare_sum, u64_small by (unfold in_u64; lia). set (total := map_sum _ shares) in *.
  destruct (total =? 0) eqn:E0.
  { eexists _, _. split; [done|]. split; [done|]. split; [done|]. intros tok. specialize (Hr0 tok).
    unfold list_sum, BaseLPFeesPerShare. cbn. lia. }
  assert (Hkeys : Forall (λ k, ∃ w, shares !! k = Some w) (sortedKeys shares)).
  { apply Forall_forall. intros k Hk. apply elem_of_sortedKeys in Hk as [w Hk]. by exists w. }
  destruct (distributeLoop_spec shares total rewards (sortedKeys shares) pools Hw)
    as (insts & pools' & -> & Hw' & Hq & H); [lia|by apply stakingRewards_u64| |].
  { eapply Forall_impl; [done|]. intros k [w Hk]. rewrite Hk. cbn [default from_option id].
    split; [apply Hc; by exists w|]. split; [by eapply Hshares|].
    apply (map_sum_elem_le (λ w, w) shares k); [|done]. intros i x Hx. by eapply Hshares. }
  eexists _, _. split; [done|]. split; [done|]. split; [done|]. intros tok. destruct (H tok) as [E C]. split; [|done].
  rewrite E. apply (floor_parts (feeOf tok rewards) total (λ k, default 0 (shares !! k))); [done|lia| |].
  - eapply Forall_impl; [done|]. intros k [w Hk]. rewrite Hk. by eapply Hshares.
  - unfold total. rewrite map_sum_sortedKeys. done.
Qed.

(** Staking rewards are distributed within what the pools set aside.  With weights that
    fit 64 bits, for which the staking pools exist, distribution succeeds, hands out at most
    the fees set aside of every token, and raises the stakers' claims by at most that. *)
Theorem distributeStakingReward_bounded pairs params pools
    (Hw : wf_stakings pools) (Hc : pools_cover params pools)
    (Hshares : ∀ k w, StakingPoolsShare params !! k = Some w → 0 ≤ w)
    (Htot : map_sum (λ w, w) (StakingPoolsShare params) < word64) :
  ∃ insts pools', distributeStakingReward pairs params pools = Ok (insts, pools') ∧ wf_stakings pools' ∧
    ∀ tok, 0 ≤ list_sum (distributedBy tok) insts ≤ feeOf tok (stakingRewards pairs) ∧
      stakeClaims tok pools' ≤ stakeClaims tok pools +
        BaseLPFeesPerShare * list_sum (distributedBy tok) insts.
Proof.
  destruct (distributeStakingReward_spec pairs params pools) as (insts & pools' & ? & ? & _ & ?); eauto.
Qed.

Lemma distributeStakingReward_bounded_witness :
  let params := mkParams 30 ∅ 25 10 20 ∅ {[Hash_String PRVCoinID := 3]} [] 100 10 5 1000 1500 ∅ ∅ 0 20 ∅ in
  let pool := mkPoolPairState ∅ sample_pair ∅ ∅ (mkOrderbook []) ∅ ∅ ∅ {[PRVCoinID := 90]} ∅ in
  ∃ insts pools', distributeStakingReward {[sample_key := pool]} params sample_stakes = Ok (insts, pools') ∧
    length insts = 1%nat ∧ 0 ≤ list_sum (distributedBy PRVCoinID) insts ≤ 90.
Proof.
  intros params pool.
  destruct (distributeStakingReward_bounded {[sample_key := pool]} params sample_stakes)
    as (insts & pools' & Hrun & _ & Hs).
  - exact sample_stakes_wf.
  - intros k [w Hk]. cbn [params StakingPoolsShare] in Hk. apply lookup_singleton_Some in Hk as [<- _].
    exists sample_staking. apply lookup_singleton_eq.
  - intros k w Hk. cbn [params StakingPoolsShare] in Hk. apply lookup_singleton_Some in Hk as [_ <-]. lia.
  - cbn [params StakingPoolsShare]. rewrite map_sum_singleton. unfold word64. lia.
  - exists insts, pools'. split; [exact Hrun|]. split.
    + assert (Hl : match distributeStakingReward {[sample_key := pool]} params sample_stakes with
        | Ok (i, _) => length i | _ => O end = 1%nat) by (vm_compute; reflexivity).
      rewrite Hrun in Hl. exact Hl.
    + destruct (Hs PRVCoinID) as [H _].
      assert (Hf : feeOf PRVCoinID (stakingRewards {[sample_key := pool]}) = 90) by (vm_compute; reflexivity).
      rewrite Hf in H. exact H.
Defined.
