(* ===== verification/StateV2.v ===== *)
(** The exchange as a whole ([stateV2] of [blockchain/pdex/state_v2.go]): its state, the
    environment of a block ([env.go]), the requests of a block sorted by kind, and
    [BuildInstructions], which runs the producer's handlers one after the other. *)
From S2P Require Import Prelude Hash RawDB Swap Order Reserve OrderBook Trade Reward TrackFee PdexUtils PoolPair Staking Params WeightedFee Instructions LiquidityProducer TradeProducer OrderProducer RewardProducer StakingProducer.

Local Open Scope Z_scope.

(** ** State and environment *)
Record stateV2 := mkStateV2 {
  waitingContributions : Waiting;
  deletedWaitingContributions : Waiting;
  poolPairs : PoolPairs;
  params : Params;
  stakingPoolStates : StakingPools;
  nftIDs : gmap string Z;
  inscriptionNumber : Z }.

Definition with_waiting (w : Waiting) (s : stateV2) : stateV2 :=
  mkStateV2 w (deletedWaitingContributions s) (poolPairs s) (params s) (stakingPoolStates s)
    (nftIDs s) (inscriptionNumber s).
Definition with_deleted (w : Waiting) (s : stateV2) : stateV2 :=
  mkStateV2 (waitingContributions s) w (poolPairs s) (params s) (stakingPoolStates s)
    (nftIDs s) (inscriptionNumber s).
Definition with_pools (p : PoolPairs) (s : stateV2) : stateV2 :=
  mkStateV2 (waitingContributions s) (deletedWaitingContributions s) p (params s)
    (stakingPoolStates s) (nftIDs s) (inscriptionNumber s).
Definition with_params (p : Params) (s : stateV2) : stateV2 :=
  mkStateV2 (waitingContributions s) (deletedWaitingContributions s) (poolPairs s) p
    (stakingPoolStates s) (nftIDs s) (inscriptionNumber s).
Definition with_stakings (p : StakingPools) (s : stateV2) : stateV2 :=
  mkStateV2 (waitingContributions s) (deletedWaitingContributions s) (poolPairs s) (params s)
    p (nftIDs s) (inscriptionNumber s).
Definition with_nfts (n : gmap string Z) (s : stateV2) : stateV2 :=
  mkStateV2 (waitingContributions s) (deletedWaitingContributions s) (poolPairs s) (params s)
    (stakingPoolStates s) n (inscriptionNumber s).
Definition with_inscriptions (n : Z) (s : stateV2) : stateV2 :=
  mkStateV2 (waitingContributions s) (deletedWaitingContributions s) (poolPairs s) (params s)
    (stakingPoolStates s) (nftIDs s) n.

(** The metadata of the requests the exchange answers; any other request is ignored. *)
Inductive Metadata :=
  | UserMintNftMd (md : UserMintNftRequest)
  | AddLiquidityMd (md : AddLiquidityRequest)
  | WithdrawLiquidityMd (md : WithdrawLiquidityRequest)
  | ModifyParamsMd (md : Params)
  | TradeMd (md : TradeRequest)
  | WithdrawLPFeeMd (md : RewardRequest)
  | WithdrawProtocolFeeMd (poolPairID : string)
  | AddOrderMd (md : AddOrderRequest)
  | WithdrawOrderMd (md : WithdrawOrderRequest)
  | StakingMd (md : StakingRequest)
  | UnstakingMd (md : UnstakingRequest)
  | WithdrawStakingRewardMd (md : RewardRequest)
  | InscribeMd (md : InscribeRequest)
  | OtherMd.

Record StateEnvironment := mkEnv {
  env_PrevBeaconHeight : Z;
  env_ListTxs : gmap Z (list (Tx Metadata));
  env_Reward : Z;
  env_IsInscriptionFeatureEnabled : bool }.

(** ** The requests of a block

    Shard by shard in increasing order, and of each kind in the order of their shard. *)
Definition blockTxs (env : StateEnvironment) : list (Tx Metadata) :=
  mjoin ((λ key, default [] (env_ListTxs env !! key)) <$>
           merge_sort Z.le (map_to_list (env_ListTxs env)).*1).

(** The requests of one kind: the [append]s of one case of the switch. *)
Definition select {Md} (pick : Metadata → option Md) (txs : list (Tx Metadata)) : list (Tx Md) :=
  omap (λ tx, (λ md, mkTx (tx_Hash tx) (tx_ShardID tx) (tx_burnedPRV tx) md) <$>
                pick (tx_Metadata tx)) txs.

Definition mintNftTxs := select (λ m, match m with UserMintNftMd md => Some md | _ => None end).
Definition addLiquidityTxs := select (λ m, match m with AddLiquidityMd md => Some md | _ => None end).
Definition withdrawLiquidityTxs :=
  select (λ m, match m with WithdrawLiquidityMd md => Some md | _ => None end).
Definition modifyParamsTxs := select (λ m, match m with ModifyParamsMd md => Some md | _ => None end).
Definition tradeTxs := select (λ m, match m with TradeMd md => Some md | _ => None end).
Definition withdrawLPFeeTxs := select (λ m, match m with WithdrawLPFeeMd md => Some md | _ => None end).
Definition withdrawProtocolFeeTxs :=
  select (λ m, match m with WithdrawProtocolFeeMd id => Some id | _ => None end).
Definition addOrderTxs := select (λ m, match m with AddOrderMd md => Some md | _ => None end).
Definition withdrawOrderTxs := select (λ m, match m with WithdrawOrderMd md => Some md | _ => None end).
Definition stakingTxs := select (λ m, match m with StakingMd md => Some md | _ => None end).
Definition unstakingTxs := select (λ m, match m with UnstakingMd md => Some md | _ => None end).
Definition withdrawStakingRewardTxs :=
  select (λ m, match m with WithdrawStakingRewardMd md => Some md | _ => None end).
Definition inscribeTxs := select (λ m, match m with InscribeMd md => Some md | _ => None end).

(** ** The start of a block *)

(** The fees set aside for stakers start at zero in every block. *)
Definition resetStakingFees (p : PoolPairState) : PoolPairState :=
  let s := ps_state p in
  mkPoolPairState (ps_makingVolume p) s (ps_shares p) (ps_orderRewards p) (ps_orderbook p)
    (ps_lpFeesPerShare p) (ps_lmRewardsPerShare p) (ps_protocolFees p)
    (<[pp_token1ID s := 0]> (<[pp_token0ID s := 0]> {[PRVCoinID := 0]})) (ps_lmLockedShare p).

Definition countOrder (counts : gmap string Z) (ord : Pdexv3Order) : gmap string Z :=
  <[Hash_String (ord_nftID ord) := add64 (countOf counts (Hash_String (ord_nftID ord))) 1]> counts.

Definition orderCountByNftID (pools : PoolPairs) : gmap string Z :=
  map_fold (λ _ p counts, foldl countOrder counts (orders (ps_orderbook p))) ∅ pools.

(** [unlockLmLockedShareAmount] over all pools. *)
Fixpoint unlockPools (ids : list string) (pendingBlocks beaconHeight : Z) (pools : PoolPairs)
    : outcome PoolPairs :=
  match ids with
  | [] => Ok pools
  | id :: ids =>
      match pools !! id with
      | None => unlockPools ids pendingBlocks beaconHeight pools
      | Some p =>
          r ← runM (unlockLmLockedShareAmount pendingBlocks beaconHeight) p;
          unlockPools ids pendingBlocks beaconHeight (<[id := r.2]> pools)
      end
  end.

Definition startBlock (pendingBlocks beaconHeight : Z) (pools : PoolPairs) : outcome PoolPairs :=
  let pools := resetStakingFees <$> pools in
  unlockPools (map_to_list pools).*1 pendingBlocks beaconHeight pools.

(** ** Building the instructions of a block

    The producer's state while it goes through the handlers: the instructions so far and the
    exchange.  The address of the protocol fund and its shard, the shard of a receiver, the
    two hash functions and the height at which the exchange starts come from outside. *)
Section build.
Context (receivingAddressStr : string) (fundShard : outcome Z) (shardOf : string → Z).
Context (genNFT : Z → Z → Hash) (GetInscriptionTokenID : Z → Hash) (breakPointHeight : Z).

(** A handler that changes the pools, or the staking pools, as a step on the whole state. *)
Definition onPools (handle : PoolPairs → outcome (list Instruction * PoolPairs)) (s : stateV2)
    : outcome (list Instruction * stateV2) :=
  r ← handle (poolPairs s);
  Ok (r.1, with_pools r.2 s).

Definition onStakings (handle : StakingPools → outcome (list Instruction * StakingPools)) (s : stateV2)
    : outcome (list Instruction * stateV2) :=
  r ← handle (stakingPoolStates s);
  Ok (r.1, with_stakings r.2 s).

(** One handler after another, their instructions appended. *)
Fixpoint inSequence (steps : list (stateV2 → outcome (list Instruction * stateV2))) (s : stateV2)
    : outcome (list Instruction * stateV2) :=
  match steps with
  | [] => Ok ([], s)
  | step :: steps =>
      r ← step s;
      let '(insts, s) := r in
      r ← inSequence steps s;
      let '(insts', s) := r in
      Ok (insts ++ insts', s)
  end.

Definition addLiquidityStep (txs : list (Tx AddLiquidityRequest)) (beaconHeight : Z) (s : stateV2)
    : outcome (list Instruction * stateV2) :=
  r ← addLiquidity (nftIDs s) (params s) beaconHeight txs (poolPairs s) (waitingContributions s);
  let '(insts, pools, waiting) := r in
  Ok (insts, with_waiting waiting (with_pools pools s)).

(** New orders enter the book when their instructions are processed, so the producer's pools
    stay as they are. *)
Definition addOrderStep (txs : list (Tx AddOrderRequest)) (counts : gmap string Z) (s : stateV2)
    : outcome (list Instruction * stateV2) :=
  r ← addOrder (params s) (nftIDs s) (poolPairs s) txs counts;
  Ok (r.1, s).

Definition mintPDEXGenesisStep (beaconHeight : Z) (s : stateV2) : outcome (list Instruction * stateV2) :=
  if beaconHeight =? breakPointHeight then
    insts ← mintPDEXGenesis receivingAddressStr fundShard;
    Ok (insts, s)
  else Ok ([], s).

Definition mintRewardStep (amount : Z) (isLiquidityMining : bool) (s : stateV2)
    : outcome (list Instruction * stateV2) :=
  if 0 <? amount
  then onPools (λ pools, mintReward PRVCoinID amount (params s) pools isLiquidityMining) s
  else Ok ([], s).

(** The NFTs of the block, the inscriptions, and the reward from what the NFTs burned. *)
Definition mintNftStep (mints : list (Tx UserMintNftRequest)) (inscribes : list (Tx InscribeRequest))
    (enabled : bool) (beaconHeight : Z) (s : stateV2) : outcome (list Instruction * stateV2) :=
  let '(insts, nfts, burningPRVAmount) :=
    userMintNft genNFT mints beaconHeight (MintNftRequireAmount (params s)) (nftIDs s) 0 in
  let inscribed := inscribe GetInscriptionTokenID inscribes (inscriptionNumber s) enabled in
  r ← mintRewardStep burningPRVAmount false (with_nfts nfts s);
  let '(minted, s) := r in
  Ok (insts ++ inscribed ++ minted, s).

Definition modifyParamsStep (txs : list (Tx Params)) (s : stateV2)
    : outcome (list Instruction * stateV2) :=
  let '(insts, params, stakings) := modifyParams txs (poolPairs s) (params s) (stakingPoolStates s) in
  Ok (insts, with_params params (with_stakings stakings s)).

(** The steps of a block, in the order of the source. *)
Definition blockSteps (env : StateEnvironment) (counts : gmap string Z)
    : list (stateV2 → outcome (list Instruction * stateV2)) :=
  let beaconHeight := add64 (env_PrevBeaconHeight env) 1 in
  let txs := blockTxs env in
  [ onPools (withdrawLPFee (withdrawLPFeeTxs txs));
    onPools (withdrawProtocolFee receivingAddressStr fundShard (withdrawProtocolFeeTxs txs));
    (λ s, onPools (withdrawLiquidity (nftIDs s) (withdrawLiquidityTxs txs)) s);
    onPools (withdrawOrder (withdrawOrderTxs txs));
    (λ s, onStakings (λ pools, unstaking (unstakingTxs txs) (nftIDs s) pools beaconHeight) s);
    onStakings (withdrawStakingReward (withdrawStakingRewardTxs txs));
    (λ s, onPools (trade (params s) (tradeTxs txs)) s);
    (λ s, onPools (withdrawAllMatchedOrders shardOf (AutoWithdrawOrderLimitAmount (params s))) s);
    (λ s, onStakings (distributeStakingReward (poolPairs s) (params s)) s);
    addLiquidityStep (addLiquidityTxs txs) beaconHeight;
    (λ s, onStakings (λ pools, staking (stakingTxs txs) (nftIDs s) pools beaconHeight) s);
    addOrderStep (addOrderTxs txs) counts;
    mintPDEXGenesisStep beaconHeight;
    mintRewardStep (env_Reward env) true;
    mintNftStep (mintNftTxs txs) (inscribeTxs txs) (env_IsInscriptionFeatureEnabled env) beaconHeight;
    modifyParamsStep (modifyParamsTxs txs) ].

Definition BuildInstructions (env : StateEnvironment) (s : stateV2)
    : outcome (list Instruction * stateV2) :=
  let beaconHeight := add64 (env_PrevBeaconHeight env) 1 in
  pools ← startBlock (MiningRewardPendingBlocks (params s)) beaconHeight (poolPairs s);
  inSequence (blockSteps env (orderCountByNftID (poolPairs s))) (with_pools pools s).
End build.

(** ** The first parameters

    The parameters of an exchange that has none yet are read from the configuration, which
    also names the first staking pools. *)
Definition NewParams : Params :=
  mkParams 0 ∅ 0 0 0 ∅ ∅ [] 0 0 0 0 0 ∅ ∅ 0 0 ∅.

#[export] Instance Params_eq_dec : EqDecision Params.
Proof. solve_decision. Defined.

Definition IsZeroValue (p : Params) : bool := bool_decide (p = NewParams).

(** [config.Param().PDexParams.Params]: the fields the exchange reads. *)
Record PDexConfig := mkPDexConfig {
  cf_DefaultFeeRateBPS : Z;
  cf_PRVDiscountPercent : Z;
  cf_TradingProtocolFeePercent : Z;
  cf_TradingStakingPoolRewardPercent : Z;
  cf_StakingPoolsShare : gmap string Z;
  cf_MintNftRequireAmount : Z;
  cf_MaxOrdersPerNft : Z;
  cf_AutoWithdrawOrderLimitAmount : Z;
  cf_MinPRVReserveTradingRate : Z }.

Definition Params_readConfig (c : PDexConfig) : Params :=
  mkParams (cf_DefaultFeeRateBPS c) ∅ (cf_PRVDiscountPercent c) (cf_TradingProtocolFeePercent c)
    (cf_TradingStakingPoolRewardPercent c) ∅ (cf_StakingPoolsShare c) [] (cf_MintNftRequireAmount c)
    (cf_MaxOrdersPerNft c) (cf_AutoWithdrawOrderLimitAmount c) (cf_MinPRVReserveTradingRate c) 0 ∅ ∅ 0 0 ∅.

Definition readConfig (c : PDexConfig) (s : stateV2) : stateV2 :=
  let params := Params_readConfig c in
  with_stakings ((λ _, NewStakingPoolState) <$> StakingPoolsShare params) (with_params params s).

Definition newStateV2 : stateV2 := mkStateV2 ∅ ∅ ∅ NewParams ∅ ∅ 0.

Definition ClearCache (s : stateV2) : stateV2 := with_deleted ∅ s.
