(* ===== verification/Processor.v ===== *)
(** Processing the instructions of a block ([blockchain/pdex/state_processor_v2.go] and
    [Process] of [blockchain/pdex/state_v2.go]).  Every node applies the instructions of a
    beacon block to its own copy of the exchange; the producer's changes are never sent.
    The statuses stored for users to query, and the caches they are assembled from, are not
    part of the state. *)
From S2P Require Import Prelude Hash RawDB Swap Order Reserve OrderBook Trade Reward TrackFee PdexUtils PoolPair Staking Params WeightedFee Instructions LiquidityProducer TradeProducer OrderProducer RewardProducer StakingProducer StateV2.

Local Open Scope Z_scope.

(** ** Contributions

    Pools, waiting and deleted contributions. *)
Definition Contributions : Type := PoolPairs * Waiting * Waiting.

(** A waiting contribution leaves the map and is remembered as deleted. *)
Definition moveToDeleted (pairHash : string) (c : Pdexv3Contribution) (s : Contributions) : Contributions :=
  let '(pools, waiting, deleted) := s in
  (pools, delete pairHash waiting, <[pairHash := c]> deleted).

Definition waitingContribution (c : ContributionState) (s : Contributions) : outcome Contributions :=
  let '(pools, waiting, deleted) := s in
  match waiting !! cs_pairHash c with
  | Some _ => Err "Pair Hash has been existed in list waitingContributions"
  | None => Ok (pools, <[cs_pairHash c := cs_value c]> waiting, deleted)
  end.

Definition refundContribution (c : ContributionState) (s : Contributions) : Contributions :=
  match s.1.2 !! cs_pairHash c with
  | Some existing => moveToDeleted (cs_pairHash c) existing s
  | None => s
  end.

(** The mining rewards of a new share are locked if its pool is rewarded. *)
Definition lockedBlocks (params : Params) (poolPairID : string) : Z :=
  match PDEXRewardPoolPairsShare params !! poolPairID with
  | Some _ => MiningRewardPendingBlocks params
  | None => 0
  end.

Definition matchContribution (params : Params) (beaconHeight : Z) (c : ContributionState)
    (s : Contributions) : outcome Contributions :=
  let '(pools, waiting, deleted) := s in
  match waiting !! cs_pairHash c with
  | None => Err "could not find out existing waiting contribution with unique pair id"
  | Some existed =>
      let value := cs_value c in
      let poolPairID := generatePoolPairKey (Hash_String (ct_tokenID existed))
                          (Hash_String (ct_tokenID value)) (Hash_String (ct_txReqID existed)) in
      shareAmount ← bigSqrt (ct_amount existed * ct_amount value);
      r ← runM (addShare (ct_nftID existed) (bigUint64 shareAmount) beaconHeight
                  (lockedBlocks params poolPairID)) (initPoolPairState existed value);
      Ok (moveToDeleted (cs_pairHash c) existed (<[poolPairID := r.2]> pools, waiting, deleted))
  end.

(** The first of the two instructions of a match finds the waiting contribution and changes
    the pool, the second finds none and changes nothing. *)
Definition matchAndReturnContribution (params : Params) (beaconHeight : Z) (c : ContributionState)
    (shareAmount returnAmount existedTokenActualAmount : Z) (existedTokenID : Hash)
    (s : Contributions) : outcome Contributions :=
  let '(pools, waiting, deleted) := s in
  match waiting !! cs_pairHash c with
  | None => Ok s
  | Some waitingC =>
      let value := cs_value c in
      let poolPairID := ct_poolPairID waitingC in
      if negb (String.eqb (ct_poolPairID value) poolPairID) then Err "Expect poolPairID"
      else match pools !! poolPairID with
      | None => Panic
      | Some poolPair =>
          let amount := sub64 (ct_amount value) returnAmount in
          let '(amount0, amount1) :=
            if String.ltb (Hash_String existedTokenID) (Hash_String (ct_tokenID value))
            then (existedTokenActualAmount, amount) else (amount, existedTokenActualAmount) in
          r ← runM (_ ← updateReserveData amount0 amount1 shareAmount addOperator;
                    addShare (ct_nftID waitingC) shareAmount beaconHeight
                      (lockedBlocks params poolPairID)) poolPair;
          Ok (moveToDeleted (cs_pairHash c) waitingC (<[poolPairID := r.2]> pools, waiting, deleted))
      end
  end.

(** ** Trades *)

(** The fee a pool earned, of one token: protocol and stakers, then pool and order makers by
    the volumes of the trade. *)
Definition bookReward (params : Params) (pairID : string) (pairChange : Z * Z)
    (orderChange : gmap string (Z * Z)) (tokenID : Hash) (amount : Z) (p : PoolPairState)
    : outcome PoolPairState :=
  let ratio := default (DefaultOrderTradingRewardRatioBPS params)
                 (OrderTradingRewardRatioBPS params !! pairID) in
  let s := ps_state p in
  let '(protocolFees, stakingPoolFees, remain) :=
    AddStakingAndProtocolFee s tokenID amount (ps_protocolFees p) (ps_stakingPoolFees p)
      (TradingProtocolFeePercent params) (TradingStakingPoolRewardPercent params)
      (StakingRewardTokens params) in
  let '(ammMakingVolume, orderMakingVolumes, tradeDirection) :=
    GetMakingVolumes pairChange orderChange (NftIDs (ps_orderbook p)) in
  split ← SplitTradingReward remain ratio BPS ammMakingVolume orderMakingVolumes;
  let '(ammReward, orderRewards) := split in
  let makingToken :=
    if tradeDirection =? TradeDirectionSell0 then pp_token1ID s else pp_token0ID s in
  let makingVolume :=
    if bool_decide (is_Some (PDEXRewardPoolPairsShare params !! pairID)) &&
       (0 <? DAOContributingPercent params)
    then <[makingToken := map_fold MakingVolume_AddVolume
             (default NewMakingVolume (ps_makingVolume p !! makingToken)) orderMakingVolumes]>
           (ps_makingVolume p)
    else ps_makingVolume p in
  Ok (mkPoolPairState makingVolume s (ps_shares p)
        (creditOrders tokenID orderRewards (ps_orderRewards p)) (ps_orderbook p)
        (AddLPFee s tokenID ammReward BaseLPFeesPerShare (ps_lpFeesPerShare p))
        (ps_lmRewardsPerShare p) protocolFees stakingPoolFees (ps_lmLockedShare p)).

Fixpoint bookRewards (params : Params) (pairID : string) (pairChange : Z * Z)
    (orderChange : gmap string (Z * Z)) (rewards : list (Hash * Z)) (p : PoolPairState)
    : outcome PoolPairState :=
  match rewards with
  | [] => Ok p
  | (tokenID, amount) :: rewards =>
      p ← bookReward params pairID pairChange orderChange tokenID amount p;
      bookRewards params pairID pairChange orderChange rewards p
  end.

(** The place of the last order with the identifier: the entry [ordersById] ends up with. *)
Fixpoint lastOrder (id : string) (l : list Pdexv3Order) : option nat :=
  match l with
  | [] => None
  | o :: l =>
      match lastOrder id l with
      | Some i => Some (S i)
      | None => if String.eqb (ord_id o) id then Some O else None
      end
  end.

(** The balance changes, order by order. *)
Fixpoint applyOrderChanges (changes : list (string * (Z * Z))) (l : list Pdexv3Order)
    : outcome (list Pdexv3Order) :=
  match changes with
  | [] => Ok l
  | (id, change) :: changes =>
      match lastOrder id l with
      | None => Err "Cannot find order ID for trade"
      | Some i =>
          match l !! i with
          | None => Err "Cannot find order ID for trade"
          | Some currentOrder =>
              r ← runM (ApplyBalanceChanges change.1 change.2) currentOrder;
              applyOrderChanges changes (<[i := r.2]> l)
          end
      end
  end.

(** One pool of the path. *)
Definition processTradePool (params : Params) (pairID : string) (pairChange : Z * Z)
    (orderChange : gmap string (Z * Z)) (rewardEarned : gmap Hash Z) (p : PoolPairState)
    : outcome PoolPairState :=
  r ← runM (ApplyReserveChanges pairChange.1 pairChange.2) (ps_state p);
  p ← bookRewards params pairID pairChange orderChange (map_to_list rewardEarned) (ps_with_state r.2 p);
  l ← applyOrderChanges (map_to_list orderChange) (orders (ps_orderbook p));
  Ok (ps_with_orderbook (mkOrderbook l) p).

(** The path with the three slices of the instruction, indexed together. *)
Fixpoint processTrade (params : Params) (tradePath : list string) (pairChanges : list (Z * Z))
    (orderChanges : list (gmap string (Z * Z))) (rewards : list (gmap Hash Z)) (pairs : PoolPairs)
    : outcome PoolPairs :=
  match tradePath with
  | [] => Ok pairs
  | pairID :: tradePath =>
      match pairs !! pairID with
      | None => Err "Cannot find pair for trade"
      | Some p =>
          match pairChanges, orderChanges, rewards with
          | pc :: pairChanges, oc :: orderChanges, rw :: rewards =>
              p ← processTradePool params pairID pc oc rw p;
              processTrade params tradePath pairChanges orderChanges rewards (<[pairID := p]> pairs)
          | _, _, _ => Panic
          end
      end
  end.

(** ** Liquidity and orders *)

(** [x, _ := m]: the changes made before an error stay, the error is dropped. *)
Definition ignoreErr {S} (m : M S unit) : M S unit := λ s,
  match m s with (Err _, s') => (Ok tt, s') | r => r end.

(** One instruction per token; the share is deducted with token 1. *)
Definition acceptWithdrawLiquidity (poolPairID : string) (nftID tokenID : Hash)
    (tokenAmount shareAmount : Z) (poolPairs : PoolPairs) : outcome PoolPairs :=
  match poolPairs !! poolPairID with
  | None => Err "Can't find poolPairID"
  | Some poolPair =>
      match ps_shares poolPair !! Hash_String nftID with
      | None => Err "Can't find nftID"
      | Some _ =>
          r ← runM (_ ← ignoreErr (updateSingleTokenAmount tokenID tokenAmount shareAmount subOperator);
                    p ← getS;
                    if String.eqb (Hash_String (pp_token1ID (ps_state p))) (Hash_String tokenID)
                    then updateShareValue shareAmount (Hash_String nftID) subOperator 0 0
                    else mret tt) poolPair;
          Ok (<[poolPairID := r.2]> poolPairs)
      end
  end.

Definition processAddOrder (md : AcceptedAddOrder) (pairs : PoolPairs) : outcome PoolPairs :=
  match pairs !! ao_PoolPairID md with
  | None => Err "Cannot find pair for new order"
  | Some p =>
      let newOrder := mkOrder (ao_OrderID md) (ao_NftID md) (ao_Token0Rate md) (ao_Token1Rate md)
        (ao_Token0Balance md) (ao_Token1Balance md) (ao_TradeDirection md) (ao_Receiver md) in
      Ok (<[ao_PoolPairID md := ps_with_orderbook (InsertOrder newOrder (ps_orderbook p)) p]> pairs)
  end.

(** The order at place [i] after a withdrawal; it is removed when nothing is left of it.
    Identifiers are distinct within a book, so that one order is concerned. *)
Definition withdrawFrom (s : Pdexv3PoolPair) (tokenID : Hash) (amount : Z) (i : nat) (ord : Pdexv3Order)
    (l : list Pdexv3Order) : outcome (list Pdexv3Order) :=
  let store ord :=
    let l := <[i := ord]> l in
    if (ord_token0Balance ord =? 0) && (ord_token1Balance ord =? 0)
    then take i l ++ drop (S i) l else l in
  if bool_decide (tokenID = pp_token0ID s) then
    let newBalance := sub64 (ord_token0Balance ord) amount in
    if ord_token0Balance ord <? newBalance
    then Err "Cannot withdraw more than current token0 balance from order"
    else Ok (store (SetToken0Balance newBalance ord))
  else if bool_decide (tokenID = pp_token1ID s) then
    let newBalance := sub64 (ord_token1Balance ord) amount in
    if ord_token1Balance ord <? newBalance
    then Err "Cannot withdraw more than current token1 balance from order"
    else Ok (store (SetToken1Balance newBalance ord))
  else Ok l.

Definition processWithdrawOrder (poolPairID orderID : string) (tokenID : Hash) (amount : Z)
    (pairs : PoolPairs) : outcome PoolPairs :=
  match pairs !! poolPairID with
  | None => Err "Cannot find pair for new order"
  | Some p =>
      let l := orders (ps_orderbook p) in
      l ← (match findOrder orderID l with
           | None => Ok l
           | Some (i, ord) => withdrawFrom (ps_state p) tokenID amount i ord l
           end);
      Ok (<[poolPairID := ps_with_orderbook (mkOrderbook l) p]> pairs)
  end.

(** ** Fees and rewards *)
Definition processWithdrawLPFee (poolPairID : string) (nftID : Hash) (pairs : PoolPairs)
    : outcome PoolPairs :=
  match pairs !! poolPairID with
  | None => Err "Could not find pair for withdrawal"
  | Some p =>
      let nft := Hash_String nftID in
      Ok (<[poolPairID := ps_with_orderRewards (delete nft (ps_orderRewards p))
              (ps_with_shares (alter (collectedShare p) nft (ps_shares p)) p)]> pairs)
  end.

Definition processWithdrawProtocolFee (poolPairID : string) (pairs : PoolPairs) : outcome PoolPairs :=
  match pairs !! poolPairID with
  | None => Err "Could not find pair for withdrawal"
  | Some p => Ok (<[poolPairID := ps_with_protocolFees (resetKeyValueToZero (ps_protocolFees p)) p]> pairs)
  end.

Definition processMintBlockReward (poolPairID : string) (amount : Z) (tokenID : Hash) (pairs : PoolPairs)
    : outcome PoolPairs :=
  match pairs !! poolPairID with
  | None => Err "Could not find pair for minting"
  | Some p =>
      Ok (<[poolPairID := ps_with_lmRewardsPerShare (AddLMRewards (ps_state p) tokenID amount
              BaseLPFeesPerShare (ps_lmRewardsPerShare p)) p]> pairs)
  end.

(** The making volume of the token is dereferenced unchecked. *)
Definition processDistributeMiningOrderReward (poolPairID : string) (makingTokenID : Hash) (amount : Z)
    (tokenID : Hash) (pairs : PoolPairs) : outcome PoolPairs :=
  match pairs !! poolPairID with
  | None => Err "Could not find pair for minting order reward"
  | Some p =>
      match ps_makingVolume p !! makingTokenID with
      | None => Panic
      | Some v =>
          orderRewards ← SplitOrderRewardLiquidityMining (volume v) amount tokenID;
          Ok (<[poolPairID := ps_with_makingVolume (delete makingTokenID (ps_makingVolume p))
                  (ps_with_orderRewards (creditOrders tokenID orderRewards (ps_orderRewards p)) p)]> pairs)
      end
  end.

(** ** Staking *)
Definition processLiquidity (stakingPoolID nftID : Hash) (amount beaconHeight operator : Z)
    (pools : StakingPools) : outcome StakingPools :=
  match pools !! Hash_String stakingPoolID with
  | None => Panic
  | Some pool =>
      r ← runM (updateLiquidity (Hash_String nftID) amount beaconHeight operator) pool;
      Ok (<[Hash_String stakingPoolID := r.2]> pools)
  end.

Definition processDistributeStakingReward (stakingPoolID : string) (rewards : gmap Hash Z)
    (pools : StakingPools) : outcome StakingPools :=
  match pools !! stakingPoolID with
  | None => Err "Could not find staking pool for distributing"
  | Some pool => Ok (<[stakingPoolID := map_fold sp_AddReward pool rewards]> pools)
  end.

Definition processWithdrawStakingReward (stakingPoolID : string) (nftID : Hash) (pools : StakingPools)
    : outcome StakingPools :=
  match pools !! stakingPoolID with
  | None => Err "Could not find staking pool for withdrawal"
  | Some pool =>
      match sp_stakers pool !! Hash_String nftID with
      | None => Err "Could not find staker for withdrawal"
      | Some share =>
          let share' := mkStaker (sk_liquidity share) (resetKeyValueToZero (sk_rewards share))
                          (sp_rewardsPerShare pool) in
          Ok (<[stakingPoolID := sp_with_stakers (<[Hash_String nftID := share']> (sp_stakers pool)) pool]>
                pools)
      end
  end.

(** ** One instruction *)
Definition setPools (r : outcome PoolPairs) (s : stateV2) : outcome stateV2 :=
  pools ← r; Ok (with_pools pools s).
Definition setStakings (r : outcome StakingPools) (s : stateV2) : outcome stateV2 :=
  pools ← r; Ok (with_stakings pools s).
Definition contributions (s : stateV2) : Contributions :=
  (poolPairs s, waitingContributions s, deletedWaitingContributions s).
Definition setContributions (r : outcome Contributions) (s : stateV2) : outcome stateV2 :=
  c ← r;
  let '(pools, waiting, deleted) := c in
  Ok (with_pools pools (with_waiting waiting (with_deleted deleted s))).

Section process.
Context (GetInscriptionTokenID : Z → Hash) (config : PDexConfig).

(** An inscription that is not the next one is skipped. *)
Definition processInscribe (tokenID : Hash) (s : stateV2) : stateV2 :=
  let number := add64 (inscriptionNumber s) 1 in
  if bool_decide (tokenID = GetInscriptionTokenID number) then with_inscriptions number s else s.

(** The NFT of a request, with the PRV that was burned for it. *)
Definition processUserMintNft (nftID : Hash) (burntAmount : Z) (s : stateV2) : stateV2 :=
  with_nfts (<[Hash_String nftID := burntAmount]> (nftIDs s)) s.

(** Accepted parameters replace the old ones, and their new staking pools are opened. *)
Definition processModifyParams (content : Params) (s : stateV2) : stateV2 :=
  with_params content
    (with_stakings (addStakingPoolState (stakingPoolStates s) (StakingPoolsShare content)) s).

Definition processInstruction (beaconHeight : Z) (i : Instruction) (s : stateV2) : outcome stateV2 :=
  match i with
  | RefundAddLiquidity c => setContributions (Ok (refundContribution c (contributions s))) s
  | WaitingAddLiquidity c => setContributions (waitingContribution c (contributions s)) s
  | MatchAddLiquidity c _ =>
      setContributions (matchContribution (params s) beaconHeight c (contributions s)) s
  | MatchAndReturnAddLiquidity c share ret actual _ existed =>
      setContributions (matchAndReturnContribution (params s) beaconHeight c share ret actual existed
                          (contributions s)) s
  | AcceptWithdrawLiquidity id nft tok amount share _ _ _ =>
      setPools (acceptWithdrawLiquidity id nft tok amount share (poolPairs s)) s
  | AcceptedTradeInst md _ _ =>
      setPools (processTrade (params s) (at_TradePath md) (at_PairChanges md) (at_OrderChanges md)
                  (at_RewardEarned md) (poolPairs s)) s
  | AcceptedAddOrderInst md _ _ => setPools (processAddOrder md (poolPairs s)) s
  | AcceptedWithdrawOrder id ordID _ tok amount _ _ =>
      setPools (processWithdrawOrder id ordID tok amount (poolPairs s)) s
  | AcceptedWithdrawLPFee id nft _ _ _ _ _ => setPools (processWithdrawLPFee id nft (poolPairs s)) s
  | AcceptedWithdrawProtocolFee id _ _ _ _ _ _ =>
      setPools (processWithdrawProtocolFee id (poolPairs s)) s
  | MintBlockReward id amount tok => setPools (processMintBlockReward id amount tok (poolPairs s)) s
  | DistributeMiningOrderReward id making amount tok =>
      setPools (processDistributeMiningOrderReward id making amount tok (poolPairs s)) s
  | AcceptStaking nft pool _ _ amount =>
      setStakings (processLiquidity pool nft amount beaconHeight addOperator (stakingPoolStates s)) s
  | AcceptUnstaking pool nft amount _ _ _ =>
      setStakings (processLiquidity pool nft amount beaconHeight subOperator (stakingPoolStates s)) s
  | DistributeStakingReward id rewards =>
      setStakings (processDistributeStakingReward id rewards (stakingPoolStates s)) s
  | AcceptedWithdrawStakingReward id nft _ _ _ _ _ =>
      setStakings (processWithdrawStakingReward id nft (stakingPoolStates s)) s
  | AcceptUserMintNft _ amount _ nft _ => Ok (processUserMintNft nft amount s)
  | InscribeAccepted tok _ _ _ => Ok (processInscribe tok s)
  | ModifyParams p _ _ _ true => Ok (processModifyParams p s)
  | _ => Ok s
  end.

Fixpoint processInstructions (beaconHeight : Z) (insts : list Instruction) (s : stateV2)
    : outcome stateV2 :=
  match insts with
  | [] => Ok s
  | i :: insts =>
      s ← processInstruction beaconHeight i s;
      processInstructions beaconHeight insts s
  end.

(** The whole block: what the block starts with, its instructions, and the first parameters
    of an exchange that has none. *)
Definition Process (prevBeaconHeight : Z) (insts : list Instruction) (s : stateV2) : outcome stateV2 :=
  let beaconHeight := add64 prevBeaconHeight 1 in
  pools ← startBlock (MiningRewardPendingBlocks (params s)) beaconHeight (poolPairs s);
  s ← processInstructions beaconHeight insts (with_pools pools s);
  Ok (if IsZeroValue (params s) then readConfig config s else s).
End process.
