(* ===== verification/Market.v ===== *)
(** The pools through a block: the invariant of all pools together, what they are worth of
    each token, and how every handler of the producer changes both.  [Solvency] composes
    these facts to the whole block. *)
From S2P Require Import Prelude Hash RawDB Swap Order Reserve OrderBook Trade Reward TrackFee PdexUtils PoolPair Staking Params WeightedFee Instructions LiquidityProducer TradeProducer OrderProducer RewardProducer StakingProducer StateV2.

Local Open Scope Z_scope.

(** ** The invariant

    Beside the ledger of shares and the reserves ([wf_accounts]): the accounts of a pool are
    not negative and its orders are named by hashes. *)
Record wf_side (p : PoolPairState) : Prop := {
  wd_making : wf_making (ps_makingVolume p);
  wd_protocol : ∀ tok, 0 ≤ feeOf tok (ps_protocolFees p);
  wd_staking : ∀ tok, 0 ≤ feeOf tok (ps_stakingPoolFees p);
  wd_locks : locks_wf p;
  wd_ids : ids_ok (orders (ps_orderbook p)) }.

Definition sides (pools : PoolPairs) : Prop := ∀ id p, pools !! id = Some p → wf_side p.

Record wf_market (pools : PoolPairs) : Prop := {
  wm_accounts : wf_accounts pools;
  wm_sides : sides pools }.

(** A pool never disappears and never changes its tokens. *)
Definition tokensOf (p : PoolPairState) : Hash * Hash :=
  (pp_token0ID (ps_state p), pp_token1ID (ps_state p)).

Lemma tokensOf_keyed id p q : tokensOf q = tokensOf p → keyed id p → keyed id q.
Proof. unfold tokensOf, keyed. by intros [= -> ->]. Qed.

Record evolves (pools pools' : PoolPairs) : Prop := {
  ev_keeps : ∀ id p, pools !! id = Some p → ∃ p', pools' !! id = Some p' ∧ tokensOf p' = tokensOf p;
  ev_sides : sides pools → sides pools' }.

#[export] Instance evolves_preorder : PreOrder evolves.
Proof.
  split; [intros a; split; [eauto|done]|]. intros a b c [K1 S1] [K2 S2]. split; [|auto].
  intros id p Hp. destruct (K1 id p Hp) as (q & Hq & E1). destruct (K2 id q Hq) as (r & Hr & E2).
  exists r. split; [done|congruence].
Qed.

Lemma evolves_some pools pools' id : evolves pools pools' → is_Some (pools !! id) → is_Some (pools' !! id).
Proof. intros [K _] [p Hp]. destruct (K id p Hp) as (q & Hq & _). by exists q. Qed.

(** A pool is replaced. *)
Lemma evolves_replace pools id p p' : pools !! id = Some p → tokensOf p' = tokensOf p →
  (wf_side p → wf_side p') → evolves pools (<[id := p']> pools).
Proof.
  intros Hp Ht Hs. split.
  - intros i q Hq. rewrite lookup_insert. case_decide as E; [|eauto]. subst i.
    rewrite Hp in Hq. injection Hq as <-. eauto.
  - intros Hall i q. rewrite lookup_insert. case_decide as E; [|apply Hall]. intros [= <-].
    apply Hs. by eapply Hall.
Qed.

(** ** What the pools are worth

    The fees set aside for the stakers of the block, and everything else: reserves, orders,
    the protocol's fees, and the claims of providers and order makers, scaled by
    [BaseLPFeesPerShare]. *)
Definition setAside (tok : Hash) (pools : PoolPairs) : Z :=
  map_sum (λ p, feeOf tok (ps_stakingPoolFees p)) pools.

Definition worth (tok : Hash) (pools : PoolPairs) : Z :=
  BaseLPFeesPerShare * (poolsHoldings tok pools + protocolHoldings tok pools) + claims tok pools.

(** A measure of the pools through the replacement of one of them. *)
Lemma map_sum_replace {A} (f : A → Z) (m : gmap string A) k a b : m !! k = Some a →
  map_sum f (<[k := b]> m) = map_sum f m + (f b - f a).
Proof. intros Hk. rewrite map_sum_insert, Hk. cbn. lia. Qed.

(** A measure that no step of a relation changes. *)
Lemma rtc_measure {A} (R : relation A) (f : A → Z) a b :
  (∀ a b, R a b → f b = f a) → rtc R a b → f b = f a.
Proof. intros H. induction 1 as [|a b c Hab _ IH]; [done|]. by rewrite IH, (H a b). Qed.

Lemma rtc_evolves (R : relation PoolPairs) a b :
  (∀ a b, R a b → evolves a b) → rtc R a b → evolves a b.
Proof. intros H. induction 1 as [|a b c Hab _ IH]; [done|]. etrans; [by apply H|done]. Qed.

(** ** Withdrawn fees and minted rewards *)
Lemma same_reserves_side p p' : same_reserves p p' → wf_side p → wf_side p'.
Proof.
  intros (_ & Hb & Hpf & Hsf & Hl & Hm) [? ? ? Hlk ?]. split; rewrite ?Hb, ?Hpf, ?Hsf; auto.
  intros k r h a. rewrite Hl. apply Hlk.
Qed.

Lemma reward_changed_frame pools pools' : rtc reward_changed pools pools' →
  evolves pools pools' ∧ ∀ tok, poolsHoldings tok pools' = poolsHoldings tok pools ∧
    protocolHoldings tok pools' = protocolHoldings tok pools ∧ setAside tok pools' = setAside tok pools.
Proof.
  intros H. split; [|intros tok; split_and!].
  - revert H. apply rtc_evolves. intros a _ [id p p' Hp Hs].
    apply (evolves_replace _ _ p); [done| |by apply same_reserves_side].
    destruct Hs as (E & _). unfold tokensOf. by rewrite E.
  - revert H. apply rtc_measure. intros a _ [id p p' Hp (E & Eb & _)].
    unfold poolsHoldings. rewrite (map_sum_replace _ _ _ p) by done. unfold poolHoldings. rewrite E, Eb. lia.
  - revert H. apply rtc_measure. intros a _ [id p p' Hp (_ & _ & E & _)].
    unfold protocolHoldings. rewrite (map_sum_replace _ _ _ p) by done. rewrite E. lia.
  - revert H. apply rtc_measure. intros a _ [id p p' Hp (_ & _ & _ & E & _)].
    unfold setAside. rewrite (map_sum_replace _ _ _ p) by done. rewrite E. lia.
Qed.

Lemma fees_withdrawn_frame pools pools' : rtc fees_withdrawn pools pools' →
  evolves pools pools' ∧ (wf_accounts pools → wf_accounts pools') ∧
  ∀ tok, poolsHoldings tok pools' = poolsHoldings tok pools ∧ claims tok pools' = claims tok pools ∧
    setAside tok pools' = setAside tok pools.
Proof.
  intros H. split; [|split; [|intros tok; split_and!]].
  - revert H. apply rtc_evolves. intros a _ [id p Hp]. apply (evolves_replace _ _ p); [done..|].
    intros [? ? ? ? ?]. split; try done. intros tok. cbn. by rewrite feeOf_resetKeyValueToZero.
  - induction H as [|a b c [id p Hp] _ IH]; [done|]. intros Hw. apply IH.
    apply (accounts_insert _ _ p); try done.
    + destruct (we_pools _ (wa_exchange _ Hw) _ _ Hp) as [[? ? ? ? [? ? ? Heach ? ?]] _].
      split; try done. split; try done. intros nft s Hs. by destruct (Heach nft s Hs).
    + by eapply (wa_orders _ Hw id p).
  - revert H. apply rtc_measure. intros a _ [id p Hp].
    unfold poolsHoldings. rewrite (map_sum_replace _ _ _ p) by done. unfold poolHoldings. cbn. lia.
  - revert H. apply rtc_measure. intros a _ [id p Hp].
    unfold claims. rewrite (map_sum_replace _ _ _ p) by done.
    set (q := ps_with_protocolFees _ p). change (poolClaims tok q) with (poolClaims tok p). lia.
  - revert H. apply rtc_measure. intros a _ [id p Hp].
    unfold setAside. rewrite (map_sum_replace _ _ _ p) by done. cbn. lia.
Qed.

(** ** Liquidity and orders *)
Lemma same_books_side p p' : same_books p p' → wf_side p → wf_side p'.
Proof.
  intros (_ & _ & Hpf & Hsf & Hb & _ & Hm & Hl) [? ? ? ? ?]. split; rewrite ?Hb, ?Hpf, ?Hsf, ?Hm; auto.
Qed.

Lemma new_pool_side p : new_pool p → wf_side p.
Proof.
  intros (Hpf & Hsf & Hb & _ & Hm & Hl & _). split; rewrite ?Hpf, ?Hsf, ?Hm, ?Hb; try done.
  apply Forall_nil_2.
Qed.

Lemma pool_changed_evolves a b : pool_changed a b → evolves a b.
Proof.
  intros [id p p' Hp (E0 & E1 & _) Hs _|id p' Hn Hnew].
  - apply (evolves_replace _ _ p); [done| |by apply same_books_side]. unfold tokensOf. congruence.
  - split.
    + intros i q Hq. rewrite lookup_insert_ne by congruence. eauto.
    + intros Hall i q. rewrite lookup_insert. case_decide as E; [|apply Hall]. intros [= <-].
      by apply new_pool_side.
Qed.

(** What a change of liquidity does to the accounts of a pool. *)
Lemma pool_changed_accounts tok a b : pool_changed a b →
  claims tok b ≤ claims tok a ∧ protocolHoldings tok b = protocolHoldings tok a ∧
  setAside tok b = setAside tok a ∧
  ((∀ id p, a !! id = Some p → wf_orderRewards (ps_orderRewards p) ∧ book_wf (ps_orderbook p)) →
   ∀ id p, b !! id = Some p → wf_orderRewards (ps_orderRewards p) ∧ book_wf (ps_orderbook p)).
Proof.
  intros [id p p' Hp (_ & _ & Eb) (_ & _ & Epf & Esf & _ & Eo & _) Hl|
          id p' Hn (Epf & Esf & Eb & Eo & _ & _ & Hl)].
  - unfold claims, protocolHoldings, setAside. rewrite !(map_sum_replace _ _ _ p) by done.
    rewrite Epf, Esf. specialize (Hl tok). unfold poolClaims, orderClaims. rewrite Eo.
    split; [lia|]. split; [lia|]. split; [lia|]. intros Hall i q. rewrite lookup_insert.
    case_decide; [intros [= <-]; rewrite Eo, Eb; by eapply Hall|apply Hall].
  - unfold claims, protocolHoldings, setAside. rewrite !map_sum_insert_new by done.
    rewrite Epf, Esf, feeOf_empty. specialize (Hl tok). unfold poolClaims, orderClaims. rewrite Eo, map_sum_empty.
    split; [unfold BaseLPFeesPerShare; lia|]. split; [lia|]. split; [lia|]. intros Hall i q. rewrite lookup_insert.
    case_decide; [|apply Hall]. intros [= <-]. rewrite Eo, Eb. split; [by intros ? ? ? [=]|apply Forall_nil_2].
Qed.

Lemma pool_changed_frame pools pools' : rtc pool_changed pools pools' →
  evolves pools pools' ∧ (wf_accounts pools → wf_pools pools' → wf_accounts pools') ∧
  ∀ tok, claims tok pools' ≤ claims tok pools ∧
    protocolHoldings tok pools' = protocolHoldings tok pools ∧ setAside tok pools' = setAside tok pools.
Proof.
  intros H. split; [|split].
  - revert H. apply rtc_evolves, pool_changed_evolves.
  - intros Hw Hp.
    assert (Hall : ∀ id p, pools' !! id = Some p → wf_orderRewards (ps_orderRewards p) ∧ book_wf (ps_orderbook p)).
    { assert (Hstart : ∀ id p, pools !! id = Some p → wf_orderRewards (ps_orderRewards p) ∧ book_wf (ps_orderbook p)).
      { intros id p Hid. split; [by eapply wa_orders|]. by eapply we_books; [apply wa_exchange|]. }
      clear Hw Hp. induction H as [|a b c Hab _ IH]; [done|]. apply IH.
      destruct (pool_changed_accounts emptyHash a b Hab) as (_ & _ & _ & Hk). by apply Hk. }
    split; [split; [done|]|]; intros id p Hid; by destruct (Hall id p Hid).
  - intros tok. induction H as [|a b c Hab _ IH]; [lia|].
    destruct (pool_changed_accounts tok a b Hab) as (? & ? & ? & _). lia.
Qed.

Lemma same_orders_ids l l' : Forall2 same_order l l' → ids_ok l → ids_ok l'.
Proof.
  unfold ids_ok. induction 1 as [|o o' l l' Ho _ IH]; [done|]. intros [(h & Hh & E) Hl]%Forall_cons.
  apply Forall_cons. split; [|by apply IH]. exists h. split; [done|]. destruct Ho as (Eo & _). congruence.
Qed.

Lemma book_changed_frame pools pools' : rtc book_changed pools pools' →
  evolves pools pools' ∧ (wf_accounts pools → wf_exchange pools' → wf_accounts pools') ∧
  ∀ tok, claims tok pools' = claims tok pools ∧
    protocolHoldings tok pools' = protocolHoldings tok pools ∧ setAside tok pools' = setAside tok pools.
Proof.
  intros H. split; [|split; [|intros tok; split_and!]].
  - revert H. apply rtc_evolves. intros a _ [id p b Hp Hs _]. apply (evolves_replace _ _ p); [done..|].
    intros [? ? ? ? Hids]. split; try done. exact (same_orders_ids _ _ Hs Hids).
  - intros Hw He. split; [done|]. intros id p Hid.
    assert (Hall : ∀ id p, pools' !! id = Some p → wf_orderRewards (ps_orderRewards p)); [|by eapply Hall].
    pose proof (wa_orders _ Hw) as Hstart. clear Hw He Hid. clear id p.
    induction H as [|a b c [k q bk Hq _ _] _ IH]; [done|]. apply IH. intros i r. rewrite lookup_insert.
    case_decide; [intros [= <-]; exact (Hstart k q Hq)|apply Hstart].
  - revert H. apply rtc_measure. intros a _ [id p b Hp _ _]. unfold claims.
    rewrite (map_sum_replace _ _ _ p) by done. set (q := ps_with_orderbook b p).
    change (poolClaims tok q) with (poolClaims tok p). lia.
  - revert H. apply rtc_measure. intros a _ [id p b Hp _ _]. unfold protocolHoldings.
    rewrite (map_sum_replace _ _ _ p) by done. cbn. lia.
  - revert H. apply rtc_measure. intros a _ [id p b Hp _ _]. unfold setAside.
    rewrite (map_sum_replace _ _ _ p) by done. cbn. lia.
Qed.

(** ** Trades *)
Lemma addOrderReward_credit tok rs base :
  addOrderReward base ((λ r, {[tok := r]}) <$> rs) = creditOrders tok rs base.
Proof.
  unfold addOrderReward, creditOrders. rewrite map_fold_fmap.
  induction rs as [|k r rs Hk Hf IH] using map_first_key_ind; [by rewrite !map_fold_empty|].
  rewrite !map_fold_insert_first_key, IH by done. cbn. by rewrite map_fold_singleton.
Qed.

Lemma addMakingVolume_wf base making vols : wf_making base → (∀ k v, vols !! k = Some v → 0 ≤ v) →
  wf_making (addMakingVolume base {[making := vols]}).
Proof.
  intros Hb. unfold addMakingVolume. rewrite map_fold_singleton. revert vols.
  induction vols as [|k v vols Hk Hf IH] using map_first_key_ind; intros Hv; [by rewrite map_fold_empty|].
  rewrite map_fold_insert_first_key by done.
  assert (Hm : wf_making (map_fold (λ nftID amt base, <[making := MakingVolume_AddVolume nftID amt
    (default NewMakingVolume (base !! making))]> base) base vols)).
  { apply IH. intros i x Hi. apply (Hv i). by rewrite lookup_insert_ne by congruence. }
  set (m := map_fold _ base vols) in *. clearbody m.
  assert (0 ≤ v) by (apply (Hv k), lookup_insert_eq).
  intros t w nft x. rewrite lookup_insert. case_decide as E; [|apply Hm]. intros [= <-]. cbn.
  rewrite lookup_insert. case_decide as E'.
  - intros [= <-]. destruct (m !! making) as [w|] eqn:Ew; cbn.
    + destruct (volume w !! k) as [y|] eqn:Ey; cbn; [|lia]. pose proof (Hm _ _ _ _ Ew Ey). lia.
    + rewrite lookup_empty. cbn. lia.
  - destruct (m !! making) as [w|] eqn:Ew; cbn; [by eapply Hm|by rewrite lookup_empty].
Qed.

(** What a pool that took part in a trade may claim: the fee accounts together rise by at
    most what the pool earned. *)
Lemma changedPool_account params id p fr : wf_state p → wf_orderRewards (ps_orderRewards p) →
  wf_side p → settled p fr →
  let q := changedPool params id p fr in
  wf_side q ∧ wf_orderRewards (ps_orderRewards q) ∧ tokensOf q = tokensOf p ∧
  ∀ tok, BaseLPFeesPerShare * (feeOf tok (ps_protocolFees q) + feeOf tok (ps_stakingPoolFees q)) +
      poolClaims tok q ≤
    BaseLPFeesPerShare * (feeOf tok (ps_protocolFees p) + feeOf tok (ps_stakingPoolFees p)) +
      poolClaims tok p + BaseLPFeesPerShare * feeOf tok (fr_rewardEarned fr).
Proof.
  intros Hp Ho [Hm Hpf Hsf Hl Hids] [Hsame _ _ Hshape (t & reward & Er & lp & rs & making & vols & Hlp &
    Elp & Ers & Hrs & Emk & Hvols & Hfees)] q.
  destruct (creditOrders_spec t rs (ps_orderRewards p) Ho Hrs) as [Ho' Hc].
  assert (Eo : ps_orderRewards q = creditOrders t rs (ps_orderRewards p)).
  { cbn. by rewrite Ers, addOrderReward_credit. }
  split; [|split; [by rewrite Eo|split]].
  - split; cbn; [|intros tok; by apply Hfees|intros tok; by apply Hfees|done|exact (same_orders_ids _ _ Hshape Hids)].
    destruct (_ && _); [|done]. rewrite Emk. by apply addMakingVolume_wf.
  - destruct Hsame as (_ & _ & E0 & E1 & _). unfold tokensOf. cbn. congruence.
  - intros tok. destruct (Hfees tok (Hpf tok) (Hsf tok)) as (_ & _ & Hle). cbn [q changedPool ps_protocolFees ps_stakingPoolFees].
    rewrite Er, feeOf_singleton. unfold poolClaims, orderClaims. rewrite Eo. specialize (Hc tok).
    assert (El : liability q tok = liability (ps_with_lpFeesPerShare (AddLPFee (ps_state p) t lp
      BaseLPFeesPerShare (ps_lpFeesPerShare p)) p) tok).
    { unfold liability. apply map_sum_ext. intros k s _. unfold entitlement. cbn. by rewrite Elp. }
    destruct (rewards_covered_spec p t lp (wst_ledger _ Hp) Hlp) as (_ & _ & Hcov).
    destruct (Hcov tok) as [[_ Hup] _]. rewrite El. unfold ofToken, BaseLPFeesPerShare in *.
    case_decide; lia.
Qed.

(** The sum of what all pools owe, the fees for the stakers included. *)
Definition owed (tok : Hash) (pools : PoolPairs) : Z :=
  BaseLPFeesPerShare * (protocolHoldings tok pools + setAside tok pools) + claims tok pools.

Lemma trade_steps_frame params pools rewards pools' : trade_steps params pools rewards pools' →
  wf_market pools →
  evolves pools pools' ∧ wf_market pools' ∧
  ∀ tok, owed tok pools' ≤ owed tok pools + BaseLPFeesPerShare * list_sum (feeOf tok) rewards.
Proof.
  induction 1 as [pools|pools id p fr rewards pools' Hp Hs _ IH]; intros [Hw Hside].
  { split; [done|]. split; [done|]. intros tok. unfold list_sum, BaseLPFeesPerShare. cbn. lia. }
  destruct (we_pools _ (wa_exchange _ Hw) _ _ Hp) as [Hst Hk]. pose proof (wa_orders _ Hw _ _ Hp) as Ho.
  destruct (changedPool_account params id p fr Hst Ho (Hside _ _ Hp) Hs) as (Hsq & Hoq & Et & Hle).
  pose proof (changedPool_wf params id p fr Hst Hs) as Hq. set (q := changedPool params id p fr) in *.
  assert (Hev : evolves pools (<[id := q]> pools)) by by apply (evolves_replace _ _ p).
  destruct IH as (Hev' & Hm' & Hle').
  - split; [|by apply Hev]. split; [split|].
    + apply wf_pools_insert; [apply Hw|done|by eapply tokensOf_keyed].
    + intros i x. rewrite lookup_insert. case_decide; [intros [= <-]; apply Hs|].
      apply (we_books _ (wa_exchange _ Hw)).
    + intros i x. rewrite lookup_insert. case_decide; [by intros [= <-]|by apply Hw].
  - split; [by etrans|]. split; [done|]. intros tok. specialize (Hle tok). specialize (Hle' tok).
    rewrite list_sum_cons. unfold owed, protocolHoldings, setAside, claims in *.
    rewrite !(map_sum_replace _ _ _ p) in Hle' by done. unfold BaseLPFeesPerShare in *. lia.
Qed.

(** ** The start of a block *)
Lemma unlocked_frame pools id p p' : wf_market pools → pools !! id = Some p → unlocked p p' →
  let pools' := <[id := p']> pools in
  wf_market pools' ∧ evolves pools pools' ∧
  ∀ tok, poolsHoldings tok pools' = poolsHoldings tok pools ∧
    protocolHoldings tok pools' = protocolHoldings tok pools ∧
    setAside tok pools' = setAside tok pools ∧ claims tok pools' ≤ claims tok pools.
Proof.
  intros [Hw Hside] Hp [Hst Hl _ Hb [l El]] pools'.
  pose proof Hb as (_ & _ & Epf & Esf & Eb & Eo & _ & _).
  assert (Et : tokensOf p' = tokensOf p) by (unfold tokensOf; by rewrite El).
  assert (Hev : evolves pools pools').
  { apply (evolves_replace _ _ p); [done..|]. by apply same_books_side. }
  split; [split|split; [done|]].
  - split; [split|]; unfold pools'.
    + apply wf_pools_insert; [apply Hw|done|]. eapply tokensOf_keyed; [done|]. by eapply we_pools; [apply Hw|].
    + intros i x. rewrite lookup_insert. case_decide; [intros [= <-]; rewrite Eb; by eapply we_books; [apply Hw|]|].
      apply (we_books _ (wa_exchange _ Hw)).
    + intros i x. rewrite lookup_insert. case_decide; [intros [= <-]; rewrite Eo; by eapply (wa_orders _ Hw id p)|].
      apply (wa_orders _ Hw).
  - by apply Hev.
  - intros tok. unfold pools', poolsHoldings, protocolHoldings, setAside, claims.
    rewrite !(map_sum_replace _ _ _ p) by done. rewrite Epf, Esf. specialize (Hl tok).
    unfold poolClaims, orderClaims, poolHoldings. rewrite Eo, Eb, El. cbn. lia.
Qed.

Lemma unlockPools_spec ids pending bh pools : wf_market pools →
  (∀ tok, claims tok pools < BaseLPFeesPerShare * word64) →
  ∃ pools', unlockPools ids pending bh pools = Ok pools' ∧ wf_market pools' ∧ evolves pools pools' ∧
    ps_orderbook <$> pools' = ps_orderbook <$> pools ∧
    ∀ tok, poolsHoldings tok pools' = poolsHoldings tok pools ∧
      protocolHoldings tok pools' = protocolHoldings tok pools ∧
      setAside tok pools' = setAside tok pools ∧ claims tok pools' ≤ claims tok pools.
Proof.
  revert pools. induction ids as [|id ids IH]; intros pools Hm Hb; cbn [unlockPools].
  { exists pools. split; [done|]. split; [done|]. split; [done|]. split; [done|]. intros tok. lia. }
  destruct (pools !! id) as [p|] eqn:Hp; [|by apply IH]. pose proof (wm_accounts _ Hm) as Hw.
  destruct (we_pools _ (wa_exchange _ Hw) _ _ Hp) as [Hst _].
  destruct (unlock_spec p pending bh Hst) as (_ & Ho & Hs).
  { by apply locks_wf_list, (wd_locks _ (wm_sides _ Hm _ _ Hp)). }
  destruct Hs as [p' Hrun].
  { intros tok. specialize (Hb tok). pose proof (poolClaims_le tok _ _ _ Hw Hp).
    destruct (poolClaims_nonneg tok _ _ _ Hw Hp) as (_ & ? & _).
    unfold poolClaims, BaseLPFeesPerShare in *. lia. }
  unfold runM. rewrite Hrun. cbn [mbind outcome_bind snd].
  destruct (unlocked_frame pools id p p' Hm Hp (Ho _ Hrun)) as (Hm1 & Hev1 & H1).
  destruct (IH (<[id := p']> pools) Hm1) as (pools' & -> & Hm2 & Hev2 & Hbk & H2).
  { intros tok. specialize (Hb tok). destruct (H1 tok) as (_ & _ & _ & ?). lia. }
  exists pools'. split; [done|]. split; [done|]. split; [by etrans|]. split.
  { rewrite Hbk, fmap_insert. apply insert_id. rewrite lookup_fmap, Hp. cbn. f_equal. symmetry.
    apply (ul_books _ _ (Ho _ Hrun)). }
  intros tok. destruct (H1 tok) as (? & ? & ? & ?), (H2 tok) as (? & ? & ? & ?). lia.
Qed.

Lemma resetStakingFees_fees tok p : feeOf tok (ps_stakingPoolFees (resetStakingFees p)) = 0.
Proof.
  unfold resetStakingFees. cbn [ps_stakingPoolFees]. rewrite !feeOf_insert. unfold feeOf.
  rewrite lookup_singleton. repeat case_decide; done.
Qed.

Lemma resetStakingFees_market pools : wf_market pools →
  let pools' := resetStakingFees <$> pools in
  wf_market pools' ∧ evolves pools pools' ∧
  ∀ tok, worth tok pools' = worth tok pools ∧ claims tok pools' = claims tok pools ∧ setAside tok pools' = 0.
Proof.
  intros [Hw Hside] pools'.
  assert (Hlk : ∀ id q, pools' !! id = Some q → ∃ p, pools !! id = Some p ∧ q = resetStakingFees p).
  { intros id q. unfold pools'. rewrite lookup_fmap. destruct (pools !! id) as [p|]; [|done].
    intros [= <-]. eauto. }
  assert (Hsides : sides pools').
  { intros id q (p & Hp & ->)%Hlk. destruct (Hside _ _ Hp). split; try done.
    intros tok. by rewrite resetStakingFees_fees. }
  split; [split; [|done]|split; [split|]].
  - split; [split|].
    + intros id q (p & Hp & ->)%Hlk. destruct (we_pools _ (wa_exchange _ Hw) _ _ Hp) as [[? ? ? ? [? ? ? He ? ?]] ?].
      split; [|done]. split; try done. split; try done. intros nft s Hs. by destruct (He nft s Hs).
    + intros id q (p & Hp & ->)%Hlk. exact (we_books _ (wa_exchange _ Hw) _ _ Hp).
    + intros id q (p & Hp & ->)%Hlk. exact (wa_orders _ Hw id p Hp).
  - intros id p Hp. exists (resetStakingFees p). unfold pools'. by rewrite lookup_fmap, Hp.
  - done.
  - intros tok. unfold worth, poolsHoldings, protocolHoldings, claims, setAside, pools'. rewrite !map_sum_fmap.
    split; [done|]. split; [done|]. rewrite <- (map_sum_zero pools). apply map_sum_ext.
    intros id p _. apply resetStakingFees_fees.
Qed.

(** Every block starts: mining rewards whose time has come are released, and no pool is
    worth more than before. *)
Lemma startBlock_spec pending bh pools : wf_market pools →
  (∀ tok, claims tok pools < BaseLPFeesPerShare * word64) →
  ∃ pools', startBlock pending bh pools = Ok pools' ∧ wf_market pools' ∧ evolves pools pools' ∧
    ps_orderbook <$> pools' = ps_orderbook <$> pools ∧
    ∀ tok, worth tok pools' ≤ worth tok pools ∧ claims tok pools' ≤ claims tok pools ∧
      setAside tok pools' = 0.
Proof.
  intros Hm Hb. unfold startBlock. destruct (resetStakingFees_market pools Hm) as (Hm1 & Hev1 & H1).
  destruct (unlockPools_spec (map_to_list (resetStakingFees <$> pools)).*1 pending bh _ Hm1)
    as (pools' & -> & Hm2 & Hev2 & Hbk & H2).
  { intros tok. destruct (H1 tok) as (_ & -> & _). apply Hb. }
  exists pools'. split; [done|]. split; [done|]. split; [by etrans|].
  split; [rewrite Hbk, <-map_fmap_compose; by apply map_fmap_ext|].
  intros tok. destruct (H1 tok) as (<- & <- & ?), (H2 tok) as (? & ? & ? & ?).
  unfold worth, BaseLPFeesPerShare in *. lia.
Qed.
