(* ===== verification/Solvency.v ===== *)
(** The exchange through a whole block.  [BuildInstructions] succeeds on every block of valid
    requests, keeps the invariant of the state, and stays solvent: for every token, what the
    exchange holds and owes after the block plus what the instructions pay is at most what
    it held and owed before plus what came in.

    Each handler is a step with a bound on what it may take out ([moves]); the block is the
    composition of the steps. *)
From S2P Require Import Prelude Hash RawDB Swap Order Reserve OrderBook Trade Reward TrackFee PdexUtils PoolPair Staking Params WeightedFee Instructions LiquidityProducer TradeProducer OrderProducer RewardProducer StakingProducer StateV2 Market.

Local Open Scope Z_scope.

(** ** The invariant of the state *)

(** Parameters a block can run with.  Validation gives most of it; it checks neither that
    the percentages do not overflow, nor that some reward weight is positive, nor the
    minimal PRV reserve. *)
Record sound_params (params : Params) (pools : PoolPairs) : Prop := {
  so_trading : wf_params params;
  so_rewards : ∀ k w, PDEXRewardPoolPairsShare params !! k = Some w → 0 ≤ w ∧ is_Some (pools !! k);
  so_total : PDEXRewardPoolPairsShare params = ∅ ∨
             0 < map_sum (λ w, w) (PDEXRewardPoolPairsShare params) < word64;
  so_mining : ∀ k r, OrderLiquidityMiningBPS params !! k = Some r → 0 ≤ r ∧ 2 * r < BPS;
  so_stakers : ∀ k w, StakingPoolsShare params !! k = Some w → 0 ≤ w;
  so_stakersTotal : map_sum (λ w, w) (StakingPoolsShare params) < word64;
  so_orders : MaxOrdersPerNft params < word64;
  so_withdrawals : 0 ≤ AutoWithdrawOrderLimitAmount params ∧
                   AutoWithdrawOrderLimitAmount params + 2 < word64 }.

Record wf_stateV2 (s : stateV2) : Prop := {
  ws_market : wf_market (poolPairs s);
  ws_waiting : wf_waiting (waitingContributions s);
  ws_params : sound_params (params s) (poolPairs s);
  ws_stakings : wf_stakings (stakingPoolStates s);
  ws_cover : pools_cover (params s) (stakingPoolStates s) }.

(** What the validation of new parameters leaves to those who propose them. *)
Record sane_params (params : Params) : Prop := {
  sa_unsigned : unsigned_params params;
  sa_percent : TradingProtocolFeePercent params + TradingStakingPoolRewardPercent params < word64;
  sa_discount : 0 ≤ PRVDiscountPercent params;
  sa_reserve : 0 < MinPRVReserveTradingRate params;
  sa_rewards : ∀ k w, PDEXRewardPoolPairsShare params !! k = Some w → 0 ≤ w;
  sa_total : PDEXRewardPoolPairsShare params = ∅ ∨
             0 < map_sum (λ w, w) (PDEXRewardPoolPairsShare params) < word64;
  sa_mining : ∀ k r, OrderLiquidityMiningBPS params !! k = Some r → 0 ≤ r;
  sa_stakers : ∀ k w, StakingPoolsShare params !! k = Some w → 0 ≤ w;
  sa_stakersTotal : map_sum (λ w, w) (StakingPoolsShare params) < word64;
  sa_orders : MaxOrdersPerNft params < word64;
  sa_withdrawals : 0 ≤ AutoWithdrawOrderLimitAmount params ∧
                   AutoWithdrawOrderLimitAmount params + 2 < word64 }.

Lemma sane_valid params pools : sane_params params → valid_params params pools → sound_params params pools.
Proof.
  intros [Hu Hp Hd Hr Hw Ht Hm Hs Hst Ho Ha] Hv. split; try done.
  - by eapply valid_wf_params.
  - intros k w Hk. split; [by eapply Hw|by eapply vp_shares].
  - intros k r Hk. split; [by eapply Hm|by eapply vp_mining].
Qed.

Lemma sound_evolves params pools pools' : evolves pools pools' →
  sound_params params pools → sound_params params pools'.
Proof.
  intros He [? Hr ? ? ? ? ? ?]. split; try done. intros k w Hk. destruct (Hr k w Hk).
  split; [done|]. by eapply evolves_some.
Qed.

(** ** The ledger

    Everything the exchange holds or owes of a token, scaled by [BaseLPFeesPerShare].  The
    fees set aside for the stakers count between the trades and their distribution
    ([c = 1]); outside of that window they are already among the stakers' claims ([c = 0]). *)
Definition ledger (c : Z) (tok : Hash) (s : stateV2) : Z :=
  worth tok (poolPairs s) + BaseLPFeesPerShare * (c * setAside tok (poolPairs s)) +
  BaseLPFeesPerShare * (waitingHoldings tok (waitingContributions s) + staked tok (stakingPoolStates s)) +
  stakeClaims tok (stakingPoolStates s).

(** What instructions take out of the producer's state: payments, and the deposits of the
    orders that enter the books when the instructions are processed. *)
Definition spent (tok : Hash) (pools : PoolPairs) (insts : list Instruction) : Z :=
  payouts tok insts + list_sum (deposited pools tok) insts.

Lemma spent_app tok pools a b : spent tok pools (a ++ b) = spent tok pools a + spent tok pools b.
Proof. unfold spent. rewrite payouts_app, list_sum_app. lia. Qed.

Lemma plain_placed pools insts : Forall plain insts → Forall (placed pools) insts.
Proof. intros H. eapply Forall_impl; [done|]. intros i Hi. destruct i; try exact Hi. by destruct Hi. Qed.

Lemma plain_spent tok pools insts : Forall plain insts → spent tok pools insts = payouts tok insts.
Proof.
  intros H. unfold spent. enough (list_sum (deposited pools tok) insts = 0) by lia.
  induction H as [|i insts Hi _ IH]; [done|]. rewrite list_sum_cons, IH.
  destruct i; try done. by destruct Hi.
Qed.

(** Placed orders deposit the same in any later state. *)
Lemma spent_evolves tok pools pools' insts : evolves pools pools' → Forall (placed pools) insts →
  spent tok pools' insts = spent tok pools insts ∧ Forall (placed pools') insts.
Proof.
  intros He H. unfold spent.
  enough (list_sum (deposited pools' tok) insts = list_sum (deposited pools tok) insts ∧
    Forall (placed pools') insts) as [-> ?] by done.
  induction H as [|i insts Hi _ [IH1 IH2]]; [done|]. rewrite !list_sum_cons, IH1.
  destruct i; try (cbn [deposited]; split; [lia|by apply Forall_cons_2]).
  destruct Hi as ([p Hp] & Hi). destruct (ev_keeps _ _ He _ _ Hp) as (p' & Hp' & Ht). cbn [deposited].
  rewrite Hp, Hp'. injection Ht as -> ->. split; [done|]. apply Forall_cons_2; [|done].
  split; [by exists p'|done].
Qed.

Lemma placed_spent tok pools insts : Forall (placed pools) insts → 0 ≤ spent tok pools insts.
Proof.
  unfold spent, payouts. induction 1 as [|i insts Hi _ IH]; [done|]. rewrite !list_sum_cons.
  assert (0 ≤ payout tok i + deposited pools tok i); [|lia].
  destruct i; try (cbn [deposited]; pose proof (pl_pays _ Hi tok); lia).
  destruct Hi as ([p Hp] & [[_ _ [? _] [? _]] _] & _). cbn [payout deposited]. rewrite Hp. unfold ofToken. cbn in *.
  repeat case_decide; lia.
Qed.

(** ** Steps *)

(** The claims of a state fit 64 bits, so that they can be paid. *)
Definition claims_fit (s : stateV2) : Prop :=
  ∀ tok, claims tok (poolPairs s) < BaseLPFeesPerShare * word64 ∧
         stakeClaims tok (stakingPoolStates s) < BaseLPFeesPerShare * word64.

(** The states before a step; those that pay claims need them to fit ([fit]). *)
Definition ready (fit : bool) (s : stateV2) : Prop := wf_stateV2 s ∧ (fit = true → claims_fit s).

(** The instructions of a step: placed orders answer requests among [txs], each at most
    once.  Most steps place no order. *)
Definition emits (txs : list Hash) (pools : PoolPairs) (insts : list Instruction) : Prop :=
  Forall (placed pools) insts ∧ sublist (omap orderTx insts) txs.

Lemma plain_emits txs pools insts : Forall plain insts → emits txs pools insts.
Proof.
  intros H. split; [by apply plain_placed|].
  replace (omap orderTx insts) with (@nil Hash); [apply sublist_nil_l|].
  induction H as [|i insts [_ Hi] _ IH]; [done|]. cbn. rewrite <-IH. by destruct i.
Qed.

Lemma emits_app o1 o2 pools a b :
  emits o1 pools a → emits o2 pools b → emits (o1 ++ o2) pools (a ++ b).
Proof.
  intros [Ha Ha'] [Hb Hb']. split; [by apply Forall_app|]. rewrite omap_app. by apply sublist_app.
Qed.

(** [moves]: from every ready state the step succeeds, its result is ready again, and for
    every token the ledger after it plus what it spends is at most the ledger before it plus
    [inflow]. *)
Definition moves (orders : list Hash) (fit fit' : bool) (c c' : Z) (inflow : Hash → Z)
    (step : stateV2 → outcome (list Instruction * stateV2)) : Prop :=
  ∀ s, ready fit s → ∃ insts s', step s = Ok (insts, s') ∧ ready fit' s' ∧
    evolves (poolPairs s) (poolPairs s') ∧ emits orders (poolPairs s') insts ∧
    ∀ tok, ledger c' tok s' + BaseLPFeesPerShare * spent tok (poolPairs s') insts ≤
      ledger c tok s + BaseLPFeesPerShare * inflow tok.

Lemma moves_nil fit c : moves [] fit fit c c (λ _, 0) (inSequence []).
Proof.
  intros s Hs. exists [], s. split; [done|]. split; [done|]. split; [done|]. split; [apply plain_emits, Forall_nil_2|].
  intros tok. unfold spent, payouts, list_sum. cbn [foldr]. lia.
Qed.

Lemma moves_then o1 o2 f1 f2 f3 c1 c2 c3 in1 in2 step steps :
  moves o1 f1 f2 c1 c2 in1 step → moves o2 f2 f3 c2 c3 in2 (inSequence steps) →
  moves (o1 ++ o2) f1 f3 c1 c3 (λ tok, in1 tok + in2 tok) (inSequence (step :: steps)).
Proof.
  intros H1 H2 s Hs. destruct (H1 s Hs) as (i1 & s1 & E1 & Hs1 & Hev1 & Hp1 & L1).
  destruct (H2 s1 Hs1) as (i2 & s2 & E2 & Hs2 & Hev2 & Hp2 & L2). exists (i1 ++ i2), s2.
  cbn [inSequence]. rewrite E1. cbn [mbind outcome_bind]. rewrite E2. cbn [mbind outcome_bind].
  split; [done|]. split; [done|]. split; [by etrans|].
  destruct Hp1 as [Hp1 Hn1].
  split; [apply emits_app; [split; [by eapply (spent_evolves emptyHash)|done]|done]|].
  intros tok. rewrite spent_app. destruct (spent_evolves tok _ _ _ Hev2 Hp1) as [-> _].
  specialize (L1 tok). specialize (L2 tok). lia.
Qed.

Lemma moves_cons o f1 f2 f3 c1 c2 c3 in1 in2 step steps :
  moves [] f1 f2 c1 c2 in1 step → moves o f2 f3 c2 c3 in2 (inSequence steps) →
  moves o f1 f3 c1 c3 (λ tok, in1 tok + in2 tok) (inSequence (step :: steps)).
Proof. apply moves_then. Qed.

Lemma moves_orders o f1 f2 f3 c1 c2 c3 in1 in2 step steps :
  moves o f1 f2 c1 c2 in1 step → moves [] f2 f3 c2 c3 in2 (inSequence steps) →
  moves o f1 f3 c1 c3 (λ tok, in1 tok + in2 tok) (inSequence (step :: steps)).
Proof. intros H1 H2. rewrite <-(app_nil_r o). by eapply moves_then. Qed.

Lemma moves_weaken orders fit fit' c c' inflow step :
  moves orders fit true c c' inflow step → moves orders fit fit' c c' inflow step.
Proof.
  intros H s Hs. destruct (H s Hs) as (insts & s' & ? & [Hw Hf] & ? & ? & ?). exists insts, s'.
  split; [done|]. split; [|done]. split; [done|]. intros _. by apply Hf.
Qed.

(** A step on the pools only. *)
Lemma moves_pools fit c inflow (handle : stateV2 → PoolPairs → outcome (list Instruction * PoolPairs)) :
  (∀ s, ready fit s → ∃ insts pools', handle s (poolPairs s) = Ok (insts, pools') ∧
    wf_market pools' ∧ evolves (poolPairs s) pools' ∧ Forall plain insts ∧
    ∀ tok, (fit = true → claims tok pools' ≤ claims tok (poolPairs s)) ∧
      worth tok pools' + BaseLPFeesPerShare * (c * setAside tok pools') +
        BaseLPFeesPerShare * payouts tok insts ≤
      worth tok (poolPairs s) + BaseLPFeesPerShare * (c * setAside tok (poolPairs s)) +
        BaseLPFeesPerShare * inflow tok) →
  moves [] fit fit c c inflow (λ s, onPools (handle s) s).
Proof.
  intros H s Hs. destruct (H s Hs) as (insts & pools' & Hrun & Hm & Hev & Hpl & Hle).
  exists insts, (with_pools pools' s). unfold onPools. rewrite Hrun. split; [done|].
  destruct Hs as [[_ Hw Hp Hst Hc] Hf]. split; [split|split; [done|split; [by apply plain_emits|]]].
  - split; try done. by eapply sound_evolves.
  - intros Hfit tok. destruct (Hle tok) as [Hcl _]. specialize (Hcl Hfit). destruct (Hf Hfit tok). cbn. lia.
  - intros tok. destruct (Hle tok) as [_ Hl]. rewrite plain_spent by done. unfold ledger. cbn. lia.
Qed.

(** A step on the staking pools only. *)
Lemma moves_stakings fit c inflow (handle : stateV2 → StakingPools → outcome (list Instruction * StakingPools)) :
  (∀ s, ready fit s → ∃ insts pools', handle s (stakingPoolStates s) = Ok (insts, pools') ∧
    wf_stakings pools' ∧ owes_less (stakingPoolStates s) pools' ∧ Forall plain insts ∧
    ∀ tok, BaseLPFeesPerShare * (staked tok pools' + payouts tok insts) + stakeClaims tok pools' ≤
      BaseLPFeesPerShare * (staked tok (stakingPoolStates s) + inflow tok) +
        stakeClaims tok (stakingPoolStates s)) →
  moves [] fit fit c c inflow (λ s, onStakings (handle s) s).
Proof.
  intros H s Hs. destruct (H s Hs) as (insts & pools' & Hrun & Hwf & [Hd Ho] & Hpl & Hle).
  exists insts, (with_stakings pools' s). unfold onStakings. rewrite Hrun. split; [done|].
  destruct Hs as [[Hm Hw Hp Hst Hc] Hf]. split; [split|split; [done|split; [by apply plain_emits|]]].
  - split; try done. intros k Hk. by apply Hd, Hc.
  - intros Hfit tok. destruct (Hf Hfit tok). specialize (Ho tok). cbn. lia.
  - intros tok. specialize (Hle tok). rewrite plain_spent by done. unfold ledger, BaseLPFeesPerShare in *.
    cbn. lia.
Qed.

(** ** The handlers on the pools *)
Lemma withdrawLPFee_moves c txs : Forall (λ tx, wf_reward_request (tx_Metadata tx)) txs →
  moves [] true true c c (λ _, 0) (onPools (withdrawLPFee txs)).
Proof.
  intros Htxs. apply (moves_pools _ _ _ (λ _, withdrawLPFee txs)). intros s [[[Hw Hside] _ _ _ _] Hf].
  destruct (withdrawLPFee_spec txs (poolPairs s) Hw Htxs) as (insts & pools' & Hrun & Hw' & Hr & Hpl & H).
  { intros tok. by apply Hf. }
  destruct (reward_changed_frame _ _ Hr) as [Hev Hsame]. exists insts, pools'.
  split; [done|]. split; [split; [done|by apply Hev]|]. split; [done|]. split; [done|].
  intros tok. destruct (H tok) as [H0 H1], (Hsame tok) as (E1 & E2 & E3).
  unfold worth, BaseLPFeesPerShare in *. lia.
Qed.

Lemma withdrawProtocolFee_plain addr shard txs pools : sides pools →
  Forall plain (withdrawProtocolFeeLoop addr shard txs pools).1.
Proof.
  revert pools. induction txs as [|tx txs IH]; intros pools Hs; cbn [withdrawProtocolFeeLoop]; [apply Forall_nil_2|].
  set (step := match pools !! tx_Metadata tx with Some _ => _ | None => _ end).
  assert (Hstep : Forall plain step.1 ∧ sides step.2).
  { unfold step. destruct (pools !! tx_Metadata tx) as [p|] eqn:Hp; [|split; [solve_plain|done]].
    cbv zeta. destruct (bool_decide _); [split; [solve_plain|done]|]. cbn [fst snd]. split.
    - apply markLast_Forall, sortedTokens_Forall. intros t a Ht b.
      assert (0 ≤ a).
      { pose proof (wd_protocol _ (Hs _ _ Hp) t) as H0.
        rewrite <- (feeOf_getMapWithoutZeroValue t) in H0. unfold feeOf in H0. by rewrite Ht in H0. }
      cbn beta. solve_plain.
    - destruct (fees_withdrawn_frame pools _ (rtc_once _ _ (fees_reset _ _ _ Hp))) as (Hev & _). by apply Hev. }
  destruct step as [i1 p1]. destruct Hstep as [L1 S1]. specialize (IH p1 S1).
  destruct (withdrawProtocolFeeLoop _ _ txs p1) as [i2 p2]. cbn [fst] in *. by apply Forall_app.
Qed.

Lemma withdrawProtocolFee_moves c addr shard txs :
  moves [] true true c c (λ _, 0) (onPools (withdrawProtocolFee addr (Ok shard) txs)).
Proof.
  apply (moves_pools _ _ _ (λ _, withdrawProtocolFee addr (Ok shard) txs)). intros s [[[Hw Hside] _ _ _ _] _].
  destruct (withdrawProtocolFeeLoop_spec addr shard txs (poolPairs s)) as [Hr H].
  pose proof (withdrawProtocolFee_plain addr shard txs _ Hside) as Hpl. unfold withdrawProtocolFee. cbn [mbind outcome_bind].
  destruct (withdrawProtocolFeeLoop _ _ _ _) as [insts pools']. cbn [fst snd] in *.
  destruct (fees_withdrawn_frame _ _ Hr) as (Hev & Hw' & Hsame). exists insts, pools'.
  split; [done|]. split; [split; [by apply Hw'|by apply Hev]|]. split; [done|]. split; [done|].
  intros tok. specialize (H tok). destruct (Hsame tok) as (E1 & E2 & E3).
  unfold worth, BaseLPFeesPerShare in *. lia.
Qed.

Lemma withdrawLiquidity_moves c txs : Forall (λ tx, wf_withdraw (tx_Metadata tx)) txs →
  moves [] true true c c (λ _, 0) (λ s, onPools (withdrawLiquidity (nftIDs s) txs) s).
Proof.
  intros Htxs. apply (moves_pools _ _ _ (λ s, withdrawLiquidity (nftIDs s) txs)).
  intros s [[[Hw Hside] _ _ _ _] _].
  destruct (withdrawLiquidity_spec (nftIDs s) txs (poolPairs s) (we_pools _ (wa_exchange _ Hw)) Htxs)
    as (insts & pools' & Hrun & Hp' & Hr & Hpl & H).
  destruct (pool_changed_frame _ _ Hr) as (Hev & Hw' & Hsame). exists insts, pools'.
  split; [done|]. split; [split; [by apply Hw'|by apply Hev]|]. split; [done|]. split; [done|].
  intros tok. specialize (H tok). destruct (Hsame tok) as (E1 & E2 & E3).
  unfold worth, BaseLPFeesPerShare in *. lia.
Qed.

Lemma withdrawOrder_moves c txs : Forall (λ tx, wf_withdraw_order (tx_Metadata tx)) txs →
  moves [] true true c c (λ _, 0) (onPools (withdrawOrder txs)).
Proof.
  intros Htxs. apply (moves_pools _ _ _ (λ _, withdrawOrder txs)). intros s [[[Hw Hside] _ _ _ _] _].
  destruct (withdrawOrder_spec txs (poolPairs s) (wa_exchange _ Hw) Htxs)
    as (insts & pools' & Hrun & Hp' & Hr & Hpl & H & _).
  destruct (book_changed_frame _ _ Hr) as (Hev & Hw' & Hsame). exists insts, pools'.
  split; [done|]. split; [split; [by apply Hw'|by apply Hev]|]. split; [done|]. split; [done|].
  intros tok. specialize (H tok). destruct (Hsame tok) as (E1 & E2 & E3).
  unfold worth, BaseLPFeesPerShare in *. lia.
Qed.

(** The fees of a trade go to the accounts: what the traders brought covers what they are
    paid and what is booked. *)
Lemma trade_moves txs : Forall wf_trade_tx txs → NoDup (tx_id <$> txs) →
  moves [] false false 1 1 (λ tok, list_sum (brought tok) txs) (λ s, onPools (trade (params s) txs) s).
Proof.
  intros Htxs Hnd. apply (moves_pools _ _ _ (λ s, trade (params s) txs)).
  intros s [[[Hw Hside] _ Hp _ _] _].
  destruct (trade_spec (params s) txs (poolPairs s) (wa_exchange _ Hw) (so_trading _ _ Hp) Htxs Hnd)
    as (insts & pools' & Hrun & He' & Hts & Hpl & H).
  destruct (trade_steps_frame _ _ _ _ Hts (Build_wf_market _ Hw Hside)) as (Hev & Hm' & Howed).
  exists insts, pools'. split; [done|]. split; [done|]. split; [done|]. split; [done|].
  intros tok. split; [done|]. specialize (H tok). specialize (Howed tok). rewrite rewardOf_earned in H.
  unfold owed, worth, BaseLPFeesPerShare in *. lia.
Qed.

Lemma withdrawAllMatchedOrders_moves c shardOf :
  moves [] false false c c (λ _, 0)
    (λ s, onPools (withdrawAllMatchedOrders shardOf (AutoWithdrawOrderLimitAmount (params s))) s).
Proof.
  apply (moves_pools _ _ _ (λ s, withdrawAllMatchedOrders shardOf (AutoWithdrawOrderLimitAmount (params s)))).
  intros s [[[Hw Hside] _ Hp _ _] _].
  destruct (withdrawAllMatchedOrders_spec shardOf _ (so_withdrawals _ _ Hp) (poolPairs s) (wa_exchange _ Hw))
    as (insts & pools' & Hrun & Hp' & Hr & Hpl & _ & H & _).
  { intros id p Hid. apply (wd_ids _ (Hside _ _ Hid)). }
  destruct (book_changed_frame _ _ Hr) as (Hev & Hw' & Hsame). exists insts, pools'.
  split; [done|]. split; [split; [by apply Hw'|by apply Hev]|]. split; [done|]. split; [done|].
  intros tok. specialize (H tok). destruct (Hsame tok) as (E1 & E2 & E3).
  unfold worth, BaseLPFeesPerShare in *. lia.
Qed.

(** Block rewards. *)
Definition silent (i : Instruction) : Prop := (∀ tok, payout tok i = 0) ∧ isAddOrder i = false.

Lemma silent_plain insts : Forall silent insts → Forall plain insts ∧ ∀ tok, payouts tok insts = 0.
Proof.
  unfold payouts. induction 1 as [|i insts [Hi Ho] _ [IH1 IH2]]; [by split|]. split.
  - apply Forall_cons_2; [|done]. split; [|done]. intros tok. by rewrite Hi.
  - intros tok. rewrite list_sum_cons, Hi, IH2. done.
Qed.

Lemma mintOrderReward_silent pairID tok making amt insts p lp insts' p' lp' :
  mintOrderReward pairID tok making amt (insts, p, lp) = Ok (insts', p', lp') →
  Forall silent insts → Forall silent insts'.
Proof.
  unfold mintOrderReward. intros Hrun Hs. destruct (ps_makingVolume p !! making) as [v|]; [|by injection Hrun as <- _ _].
  destruct (bool_decide _); [by injection Hrun as <- _ _|].
  apply outcome_bind_Ok in Hrun as (rs & _ & [= <- _ _]). apply Forall_app. split; [done|].
  apply Forall_cons_2; [done|apply Forall_nil_2].
Qed.

Lemma mintLoop_silent tok amount total params lm keys pools insts pools' :
  mintLoop tok amount total params lm keys pools = Ok (insts, pools') → Forall silent insts.
Proof.
  revert pools insts pools'. induction keys as [|k keys IH]; intros pools insts pools'; cbn [mintLoop].
  { intros [= <- _]. apply Forall_nil_2. }
  destruct (pools !! k) as [p|]; [|done]. intros Hrun.
  apply outcome_bind_Ok in Hrun as ([i1 q] & H1 & Hrun).
  apply outcome_bind_Ok in Hrun as ([i2 pools2] & H2 & [= <- _]). apply Forall_app. split; [|by eapply IH].
  unfold mintPair in H1. apply outcome_bind_Ok in H1 as (r & _ & H1). destruct (negb _); [done|].
  destruct (bigUint64 r =? 0); [injection H1 as <- _; apply Forall_nil_2|].
  apply outcome_bind_Ok in H1 as ([[i0 q'] lp] & H1 & [= <- _]). apply Forall_app.
  split; [|apply Forall_cons_2; [done|apply Forall_nil_2]].
  destruct (lm && _); [|injection H1 as <- _ _; apply Forall_nil_2].
  apply outcome_bind_Ok in H1 as (amt & _ & H1). apply outcome_bind_Ok in H1 as ([[i3 q3] l3] & H3 & H1).
  eapply mintOrderReward_silent; [done|]. eapply mintOrderReward_silent; [done|apply Forall_nil_2].
Qed.

Lemma mintReward_moves amount lm : in_u64 amount →
  moves [] false false 0 0 (λ tok, ofToken tok PRVCoinID amount) (mintRewardStep amount lm).
Proof.
  intros Ha s Hs. unfold mintRewardStep. destruct (0 <? amount) eqn:E.
  - revert s Hs. apply (moves_pools _ _ _ (λ s pools, mintReward PRVCoinID amount (params s) pools lm)).
    intros s [[[Hw Hside] _ Hp _ _] _]. destruct Hp as [_ Hr Ht Hmin _ _ _ _].
    destruct (mintReward_spec PRVCoinID amount (params s) (poolPairs s) lm Hw)
      as (insts & pools' & Hrun & Hw' & Hch & H); [|done..|].
    { intros id p Hid. apply (wd_making _ (Hside _ _ Hid)). }
    destruct (reward_changed_frame _ _ Hch) as [Hev Hsame]. exists insts, pools'.
    destruct (silent_plain insts) as [Hpl Hz]; [by eapply mintLoop_silent|].
    split; [done|]. split; [split; [done|by apply Hev]|]. split; [done|]. split; [done|].
    intros tok. split; [done|]. destruct (H tok) as [H0 H1], (Hsame tok) as (E1 & E2 & E3). rewrite Hz.
    unfold worth, BaseLPFeesPerShare in *. lia.
  - exists [], s. split; [done|]. split; [done|]. split; [done|]. split; [apply plain_emits, Forall_nil_2|].
    intros tok. unfold in_u64 in Ha. unfold spent, payouts, list_sum, ofToken, BaseLPFeesPerShare. cbn [foldr].
    case_decide; lia.
Qed.

(** ** The handlers on the staking pools *)
Lemma unstaking_moves c bh txs : Forall (λ tx, wf_unstake_request (tx_Metadata tx)) txs →
  moves [] true true c c (λ _, 0) (λ s, onStakings (λ pools, unstaking txs (nftIDs s) pools bh) s).
Proof.
  intros Htxs. apply (moves_stakings _ _ _ (λ s pools, unstaking txs (nftIDs s) pools bh)).
  intros s [[_ _ _ Hst _] _].
  destruct (unstaking_spec txs (nftIDs s) (stakingPoolStates s) bh Hst Htxs)
    as (insts & pools' & Hrun & [Hw' Ho] & Hpl & H).
  exists insts, pools'. split; [done|]. split; [done|]. split; [done|]. split; [done|].
  intros tok. specialize (H tok). pose proof (proj2 Ho tok). unfold BaseLPFeesPerShare in *. lia.
Qed.

Lemma staking_moves c bh txs : Forall (λ tx, wf_stake_request (tx_Metadata tx)) txs →
  moves [] false false c c (λ tok, list_sum (stakeBrought tok) txs)
    (λ s, onStakings (λ pools, staking txs (nftIDs s) pools bh) s).
Proof.
  intros Htxs. apply (moves_stakings _ _ _ (λ s pools, staking txs (nftIDs s) pools bh)).
  intros s [[_ _ _ Hst _] _].
  destruct (staking_spec txs (nftIDs s) (stakingPoolStates s) bh Hst Htxs)
    as (insts & pools' & Hrun & [Hw' Ho] & Hpl & H).
  exists insts, pools'. split; [done|]. split; [done|]. split; [done|]. split; [done|].
  intros tok. specialize (H tok). pose proof (proj2 Ho tok). unfold BaseLPFeesPerShare in *. lia.
Qed.

Lemma withdrawStakingReward_moves c txs : Forall (λ tx, wf_reward_request (tx_Metadata tx)) txs →
  moves [] true true c c (λ _, 0) (onStakings (withdrawStakingReward txs)).
Proof.
  intros Htxs. apply (moves_stakings _ _ _ (λ _, withdrawStakingReward txs)).
  intros s [[_ _ _ Hst _] Hf].
  destruct (withdrawStakingReward_spec txs (stakingPoolStates s) Hst Htxs)
    as (insts & pools' & Hrun & Hw' & Ho & Hpl & Hsame & H).
  { intros tok. by apply Hf. }
  exists insts, pools'. split; [done|]. split; [done|]. split; [done|]. split; [done|].
  intros tok. destruct (H tok) as [H0 H1]. rewrite Hsame. unfold BaseLPFeesPerShare in *. lia.
Qed.

(** The rewards of the stakers are at most the fees set aside. *)
Lemma stakingRewards_setAside tok pools : sides pools → feeOf tok (stakingRewards pools) ≤ setAside tok pools.
Proof.
  intros Hs. unfold stakingRewards, setAside.
  enough (0 ≤ feeOf tok (map_fold (λ _ p rewards, map_fold (λ t r rewards,
      <[t := add64 (default 0 (rewards !! t)) r]> rewards) rewards (ps_stakingPoolFees p)) ∅ pools) ≤
    map_sum (λ p, feeOf tok (ps_stakingPoolFees p)) pools) by lia.
  induction pools as [|i0 p pools Hi0 Hfst IH] using map_first_key_ind.
  { rewrite map_fold_empty, map_sum_empty, feeOf_empty. lia. }
  rewrite map_fold_insert_first_key, map_sum_insert_new by done.
  assert (Hp : ∀ t, 0 ≤ feeOf t (ps_stakingPoolFees p)).
  { intros t. apply (wd_staking _ (Hs i0 p (lookup_insert_eq _ _ _))). }
  destruct IH as [IH0 IH1].
  { intros i q Hi. apply (Hs i). by rewrite lookup_insert_ne by congruence. }
  set (r := map_fold _ ∅ pools) in *. clearbody r. revert Hp. generalize (ps_stakingPoolFees p). intros fees Hfees.
  enough (0 ≤ feeOf tok (map_fold (λ t x rewards, <[t := add64 (default 0 (rewards !! t)) x]> rewards) r fees) ≤
    feeOf tok r + feeOf tok fees) by lia.
  induction fees as [|t x fees Ht Hf IH] using map_first_key_ind.
  { rewrite map_fold_empty, feeOf_empty. lia. }
  rewrite map_fold_insert_first_key, !feeOf_insert by done.
  destruct IH as [? ?].
  { intros k. specialize (Hfees k). rewrite feeOf_insert in Hfees. case_decide; [|done].
    subst k. unfold feeOf. by rewrite Ht. }
  pose proof (Hfees t) as Hx. rewrite feeOf_insert, decide_True in Hx by done.
  case_decide as E; [|lia]. subst t. unfold feeOf in *. rewrite Ht in *. cbn [default from_option id] in *.
  pose proof (add64_le (default 0 (map_fold (λ t x rewards, <[t := add64 (default 0 (rewards !! t)) x]> rewards)
    r fees !! tok)) x). lia.
Qed.

Lemma distributeLoop_silent shares total rewards keys pools insts pools' :
  distributeLoop shares total rewards keys pools = Ok (insts, pools') → Forall silent insts.
Proof.
  revert pools insts pools'. induction keys as [|k keys IH]; intros pools insts pools'; cbn [distributeLoop].
  { intros [= <- _]. apply Forall_nil_2. }
  destruct (pools !! k) as [p|]; [|done]. intros Hrun.
  apply outcome_bind_Ok in Hrun as ([pr q] & _ & Hrun).
  apply outcome_bind_Ok in Hrun as ([i2 pools2] & H2 & [= <- _]). apply Forall_app. split; [|by eapply IH].
  destruct (bool_decide _); [apply Forall_nil_2|]. apply Forall_cons_2; [done|apply Forall_nil_2].
Qed.

(** The fees set aside become claims of the stakers. *)
Lemma distributeStakingReward_moves :
  moves [] false false 1 0 (λ _, 0) (λ s, onStakings (distributeStakingReward (poolPairs s) (params s)) s).
Proof.
  intros s [[Hm Hw Hp Hst Hc] _]. destruct Hm as [Hacc Hside]. destruct Hp as [Htr Hrw Ht Hmi Hsk Hskt Hor Hwd].
  destruct (distributeStakingReward_spec (poolPairs s) (params s) (stakingPoolStates s) Hst Hc Hsk Hskt)
    as (insts & pools' & Hrun & Hw' & Hsame & H).
  exists insts, (with_stakings pools' s). unfold onStakings. rewrite Hrun. split; [done|].
  destruct (silent_plain insts) as [Hpl Hz].
  { unfold distributeStakingReward in Hrun. destruct (_ =? 0); [injection Hrun as <- _; apply Forall_nil_2|].
    by eapply distributeLoop_silent. }
  split; [split; [|done]|split; [done|split; [by apply plain_emits|]]].
  - split; try done. intros k Hk. eapply same_stakes_dom; [done|]. by apply Hc.
  - intros tok. rewrite plain_spent, Hz by done. destruct (H tok) as [[_ H0] H1].
    pose proof (stakingRewards_setAside tok _ Hside). unfold ledger, BaseLPFeesPerShare in *. cbn.
    rewrite (same_stakes_staked _ _ tok Hsame). lia.
Qed.

(** ** Liquidity, orders, NFTs and parameters *)
Lemma addLiquidity_moves bh txs : Forall (λ tx, wf_request (tx_Metadata tx)) txs →
  moves [] false false 0 0 (λ tok, list_sum (requested tok) txs) (addLiquidityStep txs bh).
Proof.
  intros Htxs s [[[Hacc Hside] Hw Hp Hst Hc] _]. unfold addLiquidityStep.
  destruct (addLiquidity_spec (nftIDs s) (params s) bh txs (poolPairs s) (waitingContributions s)
    (we_pools _ (wa_exchange _ Hacc)) Hw Htxs) as (insts & pools' & waiting' & -> & Hp' & Hw' & Hr & Hpl & H).
  destruct (pool_changed_frame _ _ Hr) as (Hev & Hacc' & Hsame). cbn [mbind outcome_bind].
  eexists insts, _. split; [done|]. split; [split; [|done]|split; [done|split; [by apply plain_emits|]]].
  - split; try done; [split; [by apply Hacc'|by apply Hev]|by eapply sound_evolves].
  - intros tok. rewrite plain_spent by done. specialize (H tok). destruct (Hsame tok) as (E1 & E2 & E3).
    unfold ledger, worth, BaseLPFeesPerShare in *. cbn. lia.
Qed.

Lemma addOrder_moves counts txs : Forall (λ tx, wf_order_request (tx_Metadata tx)) txs →
  (∀ nft, 0 ≤ countOf counts nft) →
  moves (tx_Hash <$> txs) false false 0 0 (λ tok, list_sum (offered tok) txs) (addOrderStep txs counts).
Proof.
  intros Htxs Hcounts s Hs. pose proof Hs as [[_ _ Hp _ _] _]. unfold addOrderStep.
  destruct (addOrder_spec (params s) (nftIDs s) (poolPairs s) txs counts) as (insts & counts' & Hrun & _ & H).
  { eapply Forall_impl; [done|]. intros tx Htx. apply Htx. }
  { done. }
  { apply Hp. }
  rewrite Hrun. cbn [mbind outcome_bind]. exists insts, s. split; [done|]. split; [done|]. split; [done|].
  split; [split; [by eapply addOrder_placed|by eapply addOrder_answers]|]. intros tok. specialize (H tok). unfold spent, BaseLPFeesPerShare in *. lia.
Qed.

Lemma mintPDEXGenesis_moves addr shard height bh :
  moves [] false false 0 0 (λ _, 0) (mintPDEXGenesisStep addr (Ok shard) height bh).
Proof.
  intros s Hs. unfold mintPDEXGenesisStep, mintPDEXGenesis. cbn [mbind outcome_bind].
  destruct (bh =? height); eexists _, s; (split; [done|]; split; [done|]; split; [done|]).
  - split; [by apply plain_emits, Forall_cons_2; [|apply Forall_nil_2]|]. intros tok. unfold spent, payouts, list_sum. cbn. lia.
  - split; [apply plain_emits, Forall_nil_2|]. intros tok. unfold spent, payouts, list_sum. cbn. lia.
Qed.

Definition mintAmount (tx : Tx UserMintNftRequest) : Z := um_amount (tx_Metadata tx).

Lemma userMintNft_spec genNFT txs bh required nfts burned :
  Forall (λ tx, in_u64 (mintAmount tx)) txs → in_u64 burned →
  let '(insts, _, burned') := userMintNft genNFT txs bh required nfts burned in
  in_u64 burned' ∧ Forall plain insts ∧
  ∀ tok, payouts tok insts + ofToken tok PRVCoinID burned' ≤
    ofToken tok PRVCoinID (burned + list_sum mintAmount txs).
Proof.
  intros Htxs. revert nfts burned. induction Htxs as [|tx txs Htx _ IH]; intros nfts burned Hb.
  { cbn. split; [done|]. split; [apply Forall_nil_2|]. intros tok. unfold payouts, list_sum, ofToken. cbn.
    case_decide; lia. }
  cbn [userMintNft]. unfold mintAmount in Htx. set (a := um_amount (tx_Metadata tx)) in *.
  destruct (negb (a =? required)) eqn:E.
  - specialize (IH nfts burned Hb). destruct (userMintNft _ _ _ _ _ _) as [[insts nfts'] burned'].
    destruct IH as (Hb' & Hpl & H). split; [done|]. split.
    { apply Forall_cons_2; [|done]. destruct Htx. split; [|done]. intros tok. cbn [payout]. case_decide; lia. }
    intros tok. specialize (H tok). unfold payouts in *. rewrite !list_sum_cons. cbn [payout]. unfold ofToken in *.
    change (mintAmount tx) with a. case_decide; lia.
  - set (nft := genNFT _ _). set (nfts1 := <[_ := _]> nfts).
    specialize (IH nfts1 (add64 burned a) (u64_bound _)).
    destruct (userMintNft _ _ _ _ _ _) as [[insts nfts'] burned']. destruct IH as (Hb' & Hpl & H). split; [done|].
    split; [apply Forall_cons_2; [done|done]|]. intros tok. specialize (H tok).
    unfold payouts in *. rewrite !list_sum_cons. cbn [payout]. change (mintAmount tx) with a.
    destruct (add64_le burned a) as [_ ?]; [apply Hb|apply Htx|]. unfold ofToken in *. case_decide; lia.
Qed.

Lemma inscribeLoop_silent tokenOf txs enabled n : Forall silent (inscribeLoop tokenOf txs enabled n).
Proof.
  revert n. induction txs as [|tx txs IH]; intros n; cbn [inscribeLoop]; [apply Forall_nil_2|].
  destruct (ir_rawData _) as [[|m]|]; [|destruct enabled|]; by apply Forall_cons_2.
Qed.

Lemma mintNft_moves genNFT tokenOf mints inscribes enabled bh : Forall (λ tx, in_u64 (mintAmount tx)) mints →
  moves [] false false 0 0 (λ tok, ofToken tok PRVCoinID (list_sum mintAmount mints))
    (mintNftStep genNFT tokenOf mints inscribes enabled bh).
Proof.
  intros Hm s Hs. unfold mintNftStep.
  pose proof (userMintNft_spec genNFT mints bh (MintNftRequireAmount (params s)) (nftIDs s) 0 Hm) as Hmint.
  destruct (userMintNft _ _ _ _ _ _) as [[insts nfts] burned].
  destruct Hmint as (Hb & Hpl & H); [unfold in_u64, word64; lia|].
  destruct (silent_plain (inscribe tokenOf inscribes (inscriptionNumber s) enabled)) as [Hpi Hzi];
    [apply inscribeLoop_silent|].
  destruct (mintReward_moves burned false Hb (with_nfts nfts s)) as (minted & s' & Hrun & Hs' & Hev & Hpm & Hl).
  { destruct Hs as [[? ? ? ? ?] ?]. by split. }
  rewrite Hrun. cbn [mbind outcome_bind]. eexists _, s'. split; [done|]. split; [done|]. split; [done|]. split.
  { apply (emits_app [] []); [by apply plain_emits|]. by apply (emits_app [] []); [apply plain_emits|]. }
  intros tok. rewrite !spent_app, !(plain_spent tok _ insts), (plain_spent tok _ (inscribe _ _ _ _)) by done.
  rewrite Hzi. specialize (H tok). specialize (Hl tok).
  change (ledger 0 tok (with_nfts nfts s)) with (ledger 0 tok s) in Hl. rewrite Z.add_0_l in H.
  unfold BaseLPFeesPerShare in *. lia.
Qed.

(** New staking pools are empty. *)
Lemma addStakingPoolState_frame pools ids : wf_stakings pools →
  wf_stakings (addStakingPoolState pools ids) ∧
  ∀ tok, staked tok (addStakingPoolState pools ids) = staked tok pools ∧
    stakeClaims tok (addStakingPoolState pools ids) = stakeClaims tok pools.
Proof.
  intros Hw.
  assert (Hlk : ∀ k s, addStakingPoolState pools ids !! k = Some s → pools !! k = Some s ∨
    pools !! k = None ∧ s = NewStakingPoolState).
  { intros k s. rewrite addStakingPoolState_lookup. destruct (pools !! k); [by left|].
    destruct (ids !! k); [|done]. intros [= <-]. by right. }
  split.
  - intros k s [Hk|[_ ->]]%Hlk; [by eapply Hw|]. split; cbn; done.
  - intros tok. split.
    + unfold staked. rewrite addStakingPoolState_lookup. destruct (pools !! _); [done|]. by destruct (ids !! _).
    + unfold stakeClaims. clear Hlk Hw. unfold addStakingPoolState.
      induction ids as [|k w ids Hk IH] using map_ind.
      { by rewrite fmap_empty, (right_id_L ∅ (∪)). }
      rewrite fmap_insert. destruct (pools !! k) as [s|] eqn:Es.
      * rewrite <- IH. f_equal. apply map_eq. intros i. rewrite !lookup_union, lookup_insert.
        case_decide; [|done]. subst i. rewrite Es. rewrite lookup_fmap, Hk. done.
      * rewrite <- insert_union_r by done. rewrite map_sum_insert_new.
        { rewrite IH. unfold stakeLiability. cbn. rewrite map_sum_empty. lia. }
        apply lookup_union_None. split; [done|]. by rewrite lookup_fmap, Hk.
Qed.

Lemma modifyParams_moves txs : Forall (λ tx, sane_params (tx_Metadata tx)) txs →
  moves [] false false 0 0 (λ _, 0) (modifyParamsStep txs).
Proof.
  intros Htxs s [Hs _]. unfold modifyParamsStep.
  enough (H : ∀ params stakings, sound_params params (poolPairs s) → wf_stakings stakings →
    pools_cover params stakings →
    let '(insts, params', stakings') := modifyParams txs (poolPairs s) params stakings in
    sound_params params' (poolPairs s) ∧ wf_stakings stakings' ∧ pools_cover params' stakings' ∧
    Forall silent insts ∧ ∀ tok, staked tok stakings' = staked tok stakings ∧
      stakeClaims tok stakings' = stakeClaims tok stakings).
  { specialize (H (params s) (stakingPoolStates s)). destruct Hs as [Hm Hw Hp Hst Hc].
    destruct (modifyParams _ _ _ _) as [[insts params'] stakings'].
    destruct H as (Hp' & Hst' & Hc' & Hsil & Hsame); [done..|]. destruct (silent_plain _ Hsil) as [Hpl Hz].
    eexists insts, _. split; [done|]. split; [split; [by split|done]|]. split; [done|].
    split; [by apply plain_emits|]. intros tok. rewrite plain_spent, Hz by done.
    destruct (Hsame tok) as [E1 E2]. unfold ledger. cbn. rewrite E1, E2. lia. }
  induction Htxs as [|tx txs Htx _ IH]; intros params stakings Hp Hst Hc; cbn [modifyParams].
  { by split_and!. }
  destruct (isValidPdexv3Params (tx_Metadata tx) (poolPairs s)) as [ok msg] eqn:Ev.
  set (step := if ok then _ else _).
  assert (Hstep : sound_params step.1 (poolPairs s) ∧ wf_stakings step.2 ∧ pools_cover step.1 step.2 ∧
    ∀ tok, staked tok step.2 = staked tok stakings ∧ stakeClaims tok step.2 = stakeClaims tok stakings).
  { unfold step. destruct ok; [|by split_and!]. cbn [fst snd].
    destruct (addStakingPoolState_frame stakings (StakingPoolsShare (tx_Metadata tx)) Hst) as [? ?].
    split_and!; try done.
    - apply sane_valid; [done|]. apply (isValidPdexv3Params_spec _ _ (sa_unsigned _ Htx)). by rewrite Ev.
    - intros k [w Hk]. rewrite addStakingPoolState_lookup, Hk. destruct (stakings !! k); by eexists. }
  destruct step as [p1 st1]. destruct Hstep as (Hp1 & Hst1 & Hc1 & Hsame1). specialize (IH p1 st1 Hp1 Hst1 Hc1).
  cbn [fst snd] in *. destruct (modifyParams txs _ p1 st1) as [[insts p2] st2].
  destruct IH as (? & ? & ? & Hsil & Hsame2). split_and!; try done.
  - by apply Forall_cons_2.
  - intros tok. destruct (Hsame1 tok) as [<- <-]. apply Hsame2.
Qed.

(** ** The block *)
Record wf_block (env : StateEnvironment) : Prop := {
  wb_lpFees : Forall (λ tx, wf_reward_request (tx_Metadata tx)) (withdrawLPFeeTxs (blockTxs env));
  wb_withdrawals : Forall (λ tx, wf_withdraw (tx_Metadata tx)) (withdrawLiquidityTxs (blockTxs env));
  wb_orderWithdrawals : Forall (λ tx, wf_withdraw_order (tx_Metadata tx)) (withdrawOrderTxs (blockTxs env));
  wb_unstakes : Forall (λ tx, wf_unstake_request (tx_Metadata tx)) (unstakingTxs (blockTxs env));
  wb_stakeRewards : Forall (λ tx, wf_reward_request (tx_Metadata tx)) (withdrawStakingRewardTxs (blockTxs env));
  wb_trades : Forall wf_trade_tx (tradeTxs (blockTxs env));
  wb_tradeIds : NoDup (tx_id <$> tradeTxs (blockTxs env));
  wb_contributions : Forall (λ tx, wf_request (tx_Metadata tx)) (addLiquidityTxs (blockTxs env));
  wb_stakes : Forall (λ tx, wf_stake_request (tx_Metadata tx)) (stakingTxs (blockTxs env));
  wb_orders : Forall (λ tx, wf_order_request (tx_Metadata tx)) (addOrderTxs (blockTxs env));
  wb_mints : Forall (λ tx, in_u64 (mintAmount tx)) (mintNftTxs (blockTxs env));
  wb_params : Forall (λ tx, sane_params (tx_Metadata tx)) (modifyParamsTxs (blockTxs env));
  wb_reward : in_u64 (env_Reward env) }.

(** What the requests of a block bring of a token, and its block reward. *)
Definition blockInflow (env : StateEnvironment) (tok : Hash) : Z :=
  let txs := blockTxs env in
  list_sum (brought tok) (tradeTxs txs) + list_sum (requested tok) (addLiquidityTxs txs) +
  list_sum (stakeBrought tok) (stakingTxs txs) + list_sum (offered tok) (addOrderTxs txs) +
  ofToken tok PRVCoinID (env_Reward env) + ofToken tok PRVCoinID (list_sum mintAmount (mintNftTxs txs)).

Lemma orderCountByNftID_nonneg pools nft : 0 ≤ countOf (orderCountByNftID pools) nft.
Proof.
  unfold orderCountByNftID. apply (map_fold_weak_ind (λ counts _, 0 ≤ countOf counts nft)); [done|].
  intros id p _ counts _ Hc. generalize (orders (ps_orderbook p)). intros l. revert counts Hc.
  induction l as [|o l IH]; intros counts Hc; cbn; [done|]. apply IH. unfold countOrder.
  rewrite countOf_insert. case_decide; [apply u64_bound|done].
Qed.

Section block.
Context (receivingAddressStr : string) (shard : Z) (shardOf : string → Z).
Context (genNFT : Z → Z → Hash) (GetInscriptionTokenID : Z → Hash) (breakPointHeight : Z).

Lemma blockSteps_moves env counts : wf_block env → (∀ nft, 0 ≤ countOf counts nft) →
  moves (tx_Hash <$> addOrderTxs (blockTxs env)) true false 1 0 (blockInflow env) (inSequence (blockSteps receivingAddressStr (Ok shard) shardOf
    genNFT GetInscriptionTokenID breakPointHeight env counts)).
Proof.
  intros [] Hcounts. unfold blockSteps. set (bh := add64 (env_PrevBeaconHeight env) 1).
  assert (Hsteps : moves (tx_Hash <$> addOrderTxs (blockTxs env)) true false 1 0 (λ tok, 0 + (0 + (0 + (0 + (0 + (0 +
    (list_sum (brought tok) (tradeTxs (blockTxs env)) + (0 + (0 +
    (list_sum (requested tok) (addLiquidityTxs (blockTxs env)) +
    (list_sum (stakeBrought tok) (stakingTxs (blockTxs env)) +
    (list_sum (offered tok) (addOrderTxs (blockTxs env)) + (0 +
    (ofToken tok PRVCoinID (env_Reward env) +
    (ofToken tok PRVCoinID (list_sum mintAmount (mintNftTxs (blockTxs env))) + (0 + 0))))))))))))))))
    (inSequence (blockSteps receivingAddressStr (Ok shard) shardOf
      genNFT GetInscriptionTokenID breakPointHeight env counts))).
  { unfold blockSteps. fold bh.
    apply (moves_cons _ _ _ _ _ _ _ _ _ _ _ (withdrawLPFee_moves 1 _ wb_lpFees0)).
    apply (moves_cons _ _ _ _ _ _ _ _ _ _ _ (withdrawProtocolFee_moves 1 _ _ _)).
    apply (moves_cons _ _ _ _ _ _ _ _ _ _ _ (withdrawLiquidity_moves 1 _ wb_withdrawals0)).
    apply (moves_cons _ _ _ _ _ _ _ _ _ _ _ (withdrawOrder_moves 1 _ wb_orderWithdrawals0)).
    apply (moves_cons _ _ _ _ _ _ _ _ _ _ _ (unstaking_moves 1 bh _ wb_unstakes0)).
    apply (moves_cons _ _ _ _ _ _ _ _ _ _ _
      (moves_weaken [] true false _ _ _ _ (withdrawStakingReward_moves 1 _ wb_stakeRewards0))).
    apply (moves_cons _ _ _ _ _ _ _ _ _ _ _ (trade_moves _ wb_trades0 wb_tradeIds0)).
    apply (moves_cons _ _ _ _ _ _ _ _ _ _ _ (withdrawAllMatchedOrders_moves 1 shardOf)).
    apply (moves_cons _ _ _ _ _ _ _ _ _ _ _ distributeStakingReward_moves).
    apply (moves_cons _ _ _ _ _ _ _ _ _ _ _ (addLiquidity_moves bh _ wb_contributions0)).
    apply (moves_cons _ _ _ _ _ _ _ _ _ _ _ (staking_moves 0 bh _ wb_stakes0)).
    apply (moves_orders _ _ _ _ _ _ _ _ _ _ _ (addOrder_moves counts _ wb_orders0 Hcounts)).
    apply (moves_cons _ _ _ _ _ _ _ _ _ _ _ (mintPDEXGenesis_moves _ _ breakPointHeight bh)).
    apply (moves_cons _ _ _ _ _ _ _ _ _ _ _ (mintReward_moves (env_Reward env) true wb_reward0)).
    apply (moves_cons _ _ _ _ _ _ _ _ _ _ _ (mintNft_moves genNFT GetInscriptionTokenID _ _ _ bh wb_mints0)).
    apply (moves_cons _ _ _ _ _ _ _ _ _ _ _ (modifyParams_moves _ wb_params0)).
    apply moves_nil. }
  intros s Hs. destruct (Hsteps s Hs) as (insts & s' & Hrun & ? & ? & ? & Hl). exists insts, s'.
  split; [done|]. split; [done|]. split; [done|]. split; [done|]. intros tok. specialize (Hl tok).
  unfold blockInflow, BaseLPFeesPerShare in *. lia.
Qed.

Lemma BuildInstructions_spec env s : wf_stateV2 s → claims_fit s → wf_block env →
  ∃ insts s', BuildInstructions receivingAddressStr (Ok shard) shardOf genNFT GetInscriptionTokenID
      breakPointHeight env s = Ok (insts, s') ∧
    wf_stateV2 s' ∧ evolves (poolPairs s) (poolPairs s') ∧
    emits (tx_Hash <$> addOrderTxs (blockTxs env)) (poolPairs s') insts ∧
    ∀ tok, 0 ≤ spent tok (poolPairs s') insts ∧
      ledger 0 tok s' + BaseLPFeesPerShare * spent tok (poolPairs s') insts ≤
      ledger 0 tok s + BaseLPFeesPerShare * blockInflow env tok.
Proof.
  intros Hs Hfit Hb. unfold BuildInstructions. pose proof Hs as [Hm Hw Hp Hst Hc].
  destruct (startBlock_spec (MiningRewardPendingBlocks (params s)) (add64 (env_PrevBeaconHeight env) 1)
    (poolPairs s) Hm) as (pools & -> & Hm1 & Hev1 & _ & H1); [intros tok; apply Hfit|]. cbn [mbind outcome_bind].
  destruct (blockSteps_moves env (orderCountByNftID (poolPairs s)) Hb (orderCountByNftID_nonneg _)
    (with_pools pools s)) as (insts & s' & -> & [Hs' _] & Hev2 & Hpl & Hl).
  { split; [split; try done; by eapply sound_evolves|]. intros _ tok. destruct (Hfit tok), (H1 tok) as (_ & ? & _).
    cbn. lia. }
  exists insts, s'. split; [done|]. split; [done|]. split; [by etrans|]. split; [done|]. intros tok.
  split; [by apply placed_spent, Hpl|]. specialize (Hl tok). destruct (H1 tok) as (? & _ & E0).
  unfold ledger in *. cbn in Hl. rewrite E0 in Hl. unfold BaseLPFeesPerShare in *. lia.
Qed.
(** C6: the whole block.  From a well-formed state whose claims fit 64 bits,
    [BuildInstructions] succeeds on every block of valid requests (no error, no panic, no
    exhausted fuel in any of its sixteen steps); the state it leaves is well formed again, no
    pool disappears or changes its tokens, every accepted order is a well-formed order of an
    existing pool; and the exchange stays solvent: for every token nothing negative is paid,
    and what it holds and owes afterwards plus what the instructions pay or deposit in orders
    is at most what it held and owed before plus what the requests and the block reward
    brought. *)
Theorem BuildInstructions_solvent env s (Hs : wf_stateV2 s) (Hfit : claims_fit s) (Hb : wf_block env) :
  ∃ insts s', BuildInstructions receivingAddressStr (Ok shard) shardOf genNFT GetInscriptionTokenID
      breakPointHeight env s = Ok (insts, s') ∧
    wf_stateV2 s' ∧ evolves (poolPairs s) (poolPairs s') ∧ Forall (placed (poolPairs s')) insts ∧
    ∀ tok, 0 ≤ spent tok (poolPairs s') insts ∧
      ledger 0 tok s' + BaseLPFeesPerShare * spent tok (poolPairs s') insts ≤
      ledger 0 tok s + BaseLPFeesPerShare * blockInflow env tok.
Proof.
  destruct (BuildInstructions_spec env s Hs Hfit Hb) as (insts & s' & ? & ? & ? & [? _] & ?). by exists insts, s'.
Qed.
End block.

(** ** A block with requests of eight kinds *)
Definition block_params : Params :=
  mkParams 30 ∅ 25 10 20 {[sample_key := 7]} {[Hash_String PRVCoinID := 3]} [PRVCoinID] 100 10 5 1000
    1500 ∅ {[sample_key := 1500]} 10 20 ∅.

Definition block_state : stateV2 :=
  mkStateV2 ∅ ∅ reward_pools block_params sample_stakes sample_nfts 0.

Definition block_env : StateEnvironment :=
  let recv : gmap Hash string :=
    {[sample_nft := "n"%string; emptyHash := "a"%string; PRVCoinID := "b"%string]} in
  let reward pool := mkRewardRequest pool sample_nft recv in
  let shard0 :=
    [mkTx emptyHash 0 false (TradeMd (mkTradeRequest [sample_key] emptyHash 1000 1 50 recv));
     mkTx PRVCoinID 0 false (WithdrawLPFeeMd (reward sample_key));
     mkTx PRVCoinID 0 false (WithdrawStakingRewardMd (reward (Hash_String PRVCoinID)))] in
  let shard1 :=
    [mkTx emptyHash 1 false (WithdrawProtocolFeeMd sample_key);
     mkTx PRVCoinID 1 false (UserMintNftMd (mkUserMintNftRequest "o" 100));
     mkTx PRVCoinID 1 false (StakingMd
       (mkStakingRequest (Hash_String PRVCoinID) (Hash_String sample_nft) "o" 250));
     mkTx PRVCoinID 1 false (AddOrderMd (mkAddOrderRequest emptyHash sample_key 500 100 recv sample_nft));
     mkTx (named_hash 1) 1 false (AddLiquidityMd (mkAddLiquidityRequest sample_key "pair" "ota"
       (Hash_String emptyHash) (Hash_String sample_nft) 900 20000))] in
  mkEnv 8 (<[0 := shard0]> {[1 := shard1]})
    1000 false.

Lemma block_params_sound : sound_params block_params reward_pools.
Proof.
  split; cbn [block_params PDEXRewardPoolPairsShare OrderLiquidityMiningBPS StakingPoolsShare MaxOrdersPerNft
    AutoWithdrawOrderLimitAmount]; [split|..]; try (unfold word64; lia).
  - unfold wf_cfg, BPS. cbn. split_and!; try lia; [by unfold BPS|]. intros id r Hid.
    by rewrite lookup_empty in Hid.
  - intros id. unfold poolFeeOf. cbn [block_params FeeRateBPS DefaultFeeRateBPS]. rewrite lookup_empty. by cbn.
  - by cbn.
  - by cbn.
  - intros k w [<- <-]%lookup_singleton_Some. split; [lia|]. exists reward_pool. apply lookup_singleton_eq.
  - right. rewrite map_sum_singleton. unfold word64. lia.
  - intros k r [_ <-]%lookup_singleton_Some. by cbn.
  - intros k w [_ <-]%lookup_singleton_Some. lia.
  - by rewrite map_sum_singleton.
Qed.

Lemma block_state_wf : wf_stateV2 block_state.
Proof.
  split; cbn [block_state poolPairs waitingContributions params stakingPoolStates].
  - split; [exact reward_pools_wf|]. intros id p Hid. unfold reward_pools in Hid.
    apply lookup_singleton_Some in Hid as [_ <-].
    split; cbn [reward_pool ps_makingVolume ps_protocolFees ps_stakingPoolFees ps_orderbook orders].
    + intros t v nft x Ht. by rewrite lookup_empty in Ht.
    + intros tok. by apply feeOf_singleton_nonneg.
    + intros tok. by rewrite feeOf_empty.
    + intros k r h a Hk. cbn in Hk. by rewrite lookup_empty in Hk.
    + apply Forall_nil_2.
  - intros k c Hk. by rewrite lookup_empty in Hk.
  - exact block_params_sound.
  - exact sample_stakes_wf.
  - intros k [w Hk]. cbn [block_params StakingPoolsShare] in Hk. apply lookup_singleton_Some in Hk as [<- _].
    exists sample_staking. apply lookup_singleton_eq.
Qed.

Lemma block_claims_fit : claims_fit block_state.
Proof.
  intros tok. cbn [block_state poolPairs stakingPoolStates]. split.
  - unfold claims, reward_pools. rewrite map_sum_singleton. unfold poolClaims, liability, orderClaims.
    cbn [reward_pool ps_shares ps_orderRewards]. rewrite !map_sum_singleton. unfold entitlement.
    cbn [reward_pool sh_tradingFees ps_lpFeesPerShare sh_lastLPFeesPerShare sh_amount ps_lmRewardsPerShare
      sh_lastLmRewardsPerShare sh_lmLockedAmount uncollectedRewards].
    rewrite !feeOf_singleton, !feeOf_empty. unfold ofToken. case_decide; vm_compute; reflexivity.
  - unfold stakeClaims, sample_stakes. rewrite map_sum_singleton. unfold stakeLiability.
    cbn [sample_staking sp_stakers]. rewrite map_sum_singleton. unfold stakeClaim.
    cbn [sample_staking sk_rewards sp_rewardsPerShare sk_lastRewardsPerShare sk_liquidity].
    rewrite feeOf_singleton, !feeOf_empty. unfold ofToken. case_decide; vm_compute; reflexivity.
Qed.

Lemma block_env_wf : wf_block block_env.
Proof.
  set (txs := blockTxs block_env).
  assert (Ht : txs = mjoin [default [] (env_ListTxs block_env !! 0); default [] (env_ListTxs block_env !! 1)])
    by (vm_compute; reflexivity).
  split; fold txs; rewrite ?Ht; cbn -[Hash_String sample_key sample_nft emptyHash PRVCoinID];
    repeat apply Forall_cons_2; try apply Forall_nil_2.
  all: try (split; [reflexivity|eexists; vm_compute; reflexivity]).
  - split; [split; cbn; unfold in_u64, word64; lia|cbn; unfold word64; lia|eexists; vm_compute; reflexivity|].
    intros Hp. vm_compute in Hp. discriminate Hp.
  - apply (bool_decide_unpack _). vm_compute. exact I.
  - split; [exists emptyHash; split; reflexivity|exists sample_nft; split; reflexivity|..];
      cbn; unfold in_u64, word64, BaseAmplifier; lia.
  - split; [exists PRVCoinID; split; reflexivity|exists sample_nft; split; reflexivity|].
    cbn. unfold in_u64, word64. lia.
  - split; [eexists; vm_compute; reflexivity|..]; cbn; unfold word64; lia.
  - cbn. unfold in_u64, word64. lia.
  - unfold in_u64, word64. lia.
Qed.

Lemma BuildInstructions_solvent_witness :
  ∃ insts s', BuildInstructions "fund" (Ok 0) (λ _, 0) (λ _ _, PRVCoinID) (λ _, PRVCoinID) 1 block_env
      block_state = Ok (insts, s') ∧ length insts = 12%nat ∧
    0 ≤ spent PRVCoinID (poolPairs s') insts ∧
    ledger 0 PRVCoinID s' + BaseLPFeesPerShare * spent PRVCoinID (poolPairs s') insts ≤
    ledger 0 PRVCoinID block_state + BaseLPFeesPerShare * (250 + 1000 + 100).
Proof.
  destruct (BuildInstructions_solvent "fund" 0 (λ _, 0) (λ _ _, PRVCoinID) (λ _, PRVCoinID) 1
    block_env block_state block_state_wf block_claims_fit block_env_wf)
    as (insts & s' & Hrun & _ & _ & _ & H).
  exists insts, s'. split; [exact Hrun|]. split.
  - assert (Hlen : match BuildInstructions "fund" (Ok 0) (λ _, 0) (λ _ _, PRVCoinID) (λ _, PRVCoinID) 1
      block_env block_state with Ok (i, _) => length i | _ => O end = 12%nat) by (vm_compute; reflexivity).
    rewrite Hrun in Hlen. exact Hlen.
  - assert (Hin : blockInflow block_env PRVCoinID = 250 + 1000 + 100) by (vm_compute; reflexivity).
    rewrite <- Hin. exact (H PRVCoinID).
Defined.
