(* ===== verification/Agreement.v ===== *)
(** The producer and the processor agree.  The producer changes its own copy of the exchange
    while it builds the instructions of a block; every node, the producer included, reaches
    its next state by processing those instructions.  This file relates the two states and
    shows for the handlers, trades excepted, that processing what a handler emitted follows
    the handler. *)
From S2P Require Import Prelude Hash RawDB Swap Order Reserve OrderBook Trade Reward TrackFee PdexUtils PoolPair Staking Params WeightedFee Instructions LiquidityProducer TradeProducer OrderProducer RewardProducer StakingProducer StateV2 Processor Market Solvency.

Local Open Scope Z_scope.

(** ** The relation

    The two copies of a pool agree on everything but two fields.  The processor drops an
    order when nothing is left of it and the producer keeps it, so the books are related by
    [R]; the processor keeps an entry for a token whose makers have no volume and the
    producer none, so the volumes agree as what a missing entry reads as. *)
Definition dress (v : gmap Hash MakingVolume) (b : Orderbook) (p : PoolPairState) : PoolPairState :=
  mkPoolPairState v (ps_state p) (ps_shares p) (ps_orderRewards p) b (ps_lpFeesPerShare p)
    (ps_lmRewardsPerShare p) (ps_protocolFees p) (ps_stakingPoolFees p) (ps_lmLockedShare p).

Definition volumesOf (tok : Hash) (m : gmap Hash MakingVolume) : MakingVolume :=
  default NewMakingVolume (m !! tok).

Definition same_volumes (m m' : gmap Hash MakingVolume) : Prop :=
  ∀ tok, volumesOf tok m' = volumesOf tok m.

Inductive pool_agrees (R : relation (list Pdexv3Order)) (p : PoolPairState) : PoolPairState → Prop :=
  | agrees_dressed v b :
      same_volumes (ps_makingVolume p) v → R (orders (ps_orderbook p)) (orders b) →
      pool_agrees R p (dress v b p).

(** The relation of the books may depend on the pool. *)
Abbreviation books := (string → relation (list Pdexv3Order)).

Definition pools_agree (R : books) (ps qs : PoolPairs) : Prop :=
  ∀ id, option_Forall2 (pool_agrees (R id)) (ps !! id) (qs !! id).

(** The states: the processor's copy alone counts inscriptions, up to [n] here. *)
Record agrees (R : books) (n : Z) (s t : stateV2) : Prop := {
  ag_pools : pools_agree R (poolPairs s) (poolPairs t);
  ag_waiting : waitingContributions t = waitingContributions s;
  ag_params : params t = params s;
  ag_stakings : stakingPoolStates t = stakingPoolStates s;
  ag_nfts : nftIDs t = nftIDs s;
  ag_inscriptions : inscriptionNumber t = n }.

Lemma pool_agrees_refl (R : relation (list Pdexv3Order)) p : reflexive _ R → pool_agrees R p p.
Proof.
  intros HR. replace p with (dress (ps_makingVolume p) (ps_orderbook p) p) at 2 by by destruct p.
  by constructor.
Qed.

Lemma agrees_intro (R : relation (list Pdexv3Order)) v b p q :
  same_volumes (ps_makingVolume p) v → R (orders (ps_orderbook p)) (orders b) → q = dress v b p →
  pool_agrees R p q.
Proof. intros ?? ->. by constructor. Qed.

Lemma pools_agree_some R ps qs id p : pools_agree R ps qs → ps !! id = Some p →
  ∃ q, qs !! id = Some q ∧ pool_agrees (R id) p q.
Proof. intros H Hp. specialize (H id). rewrite Hp in H. inversion H; subst. eauto. Qed.

Lemma pools_agree_none R ps qs id : pools_agree R ps qs → ps !! id = None → qs !! id = None.
Proof. intros H Hp. specialize (H id). rewrite Hp in H. by inversion H. Qed.

Lemma pools_agree_insert R ps qs id p q : pools_agree R ps qs → pool_agrees (R id) p q →
  pools_agree R (<[id := p]> ps) (<[id := q]> qs).
Proof.
  intros H Hpq i. destruct (decide (id = i)) as [->|?].
  - rewrite !lookup_insert_eq. by constructor.
  - rewrite !lookup_insert_ne by done. apply H.
Qed.

(** A weaker relation of the books. *)
Lemma pools_agree_mono (R R' : books) ps qs :
  (∀ id l l', R id l l' → R' id l l') → pools_agree R ps qs → pools_agree R' ps qs.
Proof.
  intros HR H id. specialize (H id). destruct H as [p q []|]; constructor. constructor; auto.
Qed.

(** The processor's book: the producer's without some orders of which nothing is left. *)
Definition spentOrder (o : Pdexv3Order) : Prop := ord_token0Balance o = 0 ∧ ord_token1Balance o = 0.

Inductive trimmed : relation (list Pdexv3Order) :=
  | trimmed_nil : trimmed [] []
  | trimmed_keep o l l' : trimmed l l' → trimmed (o :: l) (o :: l')
  | trimmed_drop o l l' : spentOrder o → trimmed l l' → trimmed (o :: l) l'.

Lemma trimmed_refl : reflexive _ trimmed.
Proof. intros l. induction l; by constructor. Qed.

(** An order that holds something is in both books, and can be replaced or removed. *)
Lemma trimmed_find id l l' i o : trimmed l l' → findOrder id l = Some (i, o) → ¬ spentOrder o →
  ∃ j, findOrder id l' = Some (j, o) ∧ ∀ o', trimmed (<[i := o']> l) (<[j := o']> l') ∧
    (spentOrder o' → trimmed (<[i := o']> l) (take j l' ++ drop (S j) l')).
Proof.
  intros H. revert i. induction H as [|a l l' H IH|a l l' Ha H IH]; intros i; cbn [findOrder]; [done|..].
  - destruct (String.eqb (ord_id a) id).
    + intros [= <- <-] _. exists O. split; [done|]. intros o'. by split; [|intros ?]; constructor.
    + destruct (findOrder id l) as [[i' o'']|]; [|done]. intros [= <- ->] Ho.
      destruct (IH i' eq_refl Ho) as (j & -> & Hj). exists (S j). split; [done|]. intros o'.
      destruct (Hj o') as [H1 H2]. cbn [insert list_insert take drop app]. split; [by constructor|].
      intros Hs. constructor. by apply H2.
  - destruct (String.eqb (ord_id a) id).
    + by intros [= <- <-] ?.
    + destruct (findOrder id l) as [[i' o'']|]; [|done]. intros [= <- ->] Ho.
      destruct (IH i' eq_refl Ho) as (j & -> & Hj). exists j. split; [done|]. intros o'.
      destruct (Hj o') as [H1 H2]. split; [by constructor|]. intros Hs. constructor; [done|by apply H2].
Qed.

Lemma findOrder_middle (pre l : list Pdexv3Order) o : NoDup (ord_id <$> pre ++ o :: l) →
  findOrder (ord_id o) (pre ++ o :: l) = Some (length pre, o).
Proof.
  induction pre as [|a pre IH]; cbn [app findOrder fmap list_fmap length].
  - intros _. by rewrite String.eqb_refl.
  - intros [Hn Hd]%NoDup_cons. destruct (String.eqb_spec (ord_id a) (ord_id o)) as [E|_].
    + destruct Hn. rewrite E. apply list_elem_of_fmap. exists o. split; [done|]. apply elem_of_app. right. left.
    + by rewrite IH.
Qed.

(** Methods of a pool that neither read nor write the two fields. *)
Definition blind {A} (m : M PoolPairState A) : Prop :=
  ∀ v b p, m (dress v b p) = let '(r, p') := m p in (r, dress v b p').

Lemma blind_bind {A B} (m : M PoolPairState A) (k : A → M PoolPairState B) :
  blind m → (∀ a, blind (k a)) → blind (m ≫= k).
Proof.
  intros Hm Hk v b p. unfold mbind, M_bind. rewrite Hm. destruct (m p) as [[a| | |] p']; [|done..]. apply Hk.
Qed.

Lemma blind_getS {A} (k : PoolPairState → M PoolPairState A) :
  (∀ p, blind (k p)) → (∀ v b p p', k (dress v b p) p' = k p p') → blind (getS ≫= k).
Proof. intros Hk Hd v b p. rewrite !getS_bind, Hd. apply Hk. Qed.

Lemma updateSingleTokenAmount_blind tok amt sh op : blind (updateSingleTokenAmount tok amt sh op).
Proof.
  intros v b p. unfold updateSingleTokenAmount. rewrite !getS_bind. unfold dress. cbn [ps_state].
  case_match; [done|]. unfold mbind, M_bind, lift, modifyS.
  destruct (executeOperationUint64 _ _ _); [|done..]. destruct (executeOperationUint64 _ _ _); [|done..].
  by destruct (newVirtual _ _ _ _ _ _).
Qed.

Lemma updateReserveData_blind a0 a1 sh op : blind (updateReserveData a0 a1 sh op).
Proof.
  unfold updateReserveData. apply blind_getS; [|done]. intros p. apply blind_bind; [apply updateSingleTokenAmount_blind|].
  intros _. apply blind_getS; [|done]. intros p'. apply updateSingleTokenAmount_blind.
Qed.

Lemma changeShare_dress nft amt op bh blocks v b p s :
  changeShare nft amt op bh blocks (dress v b p, s) =
  let '(r, (p', s')) := changeShare nft amt op bh blocks (p, s) in (r, (dress v b p', s')).
Proof.
  unfold changeShare. rewrite !getS_bind. unfold mbind, M_bind, modifyS, assign, lift, orErr.
  cbn [fst snd dress ps_state ps_lpFeesPerShare ps_lmRewardsPerShare].
  destruct (executeOperationUint64 (sh_amount s) amt op); [|done..].
  destruct (executeOperationUint64 (pp_shareAmount (ps_state p)) amt op); [|done..].
  destruct ((op =? addOperator) && (0 <? blocks)).
  - destruct (executeOperationUint64 (sh_lmLockedAmount s) _ op); [|done..].
    by destruct (executeOperationUint64 (pp_lmLockedShareAmount (ps_state p)) _ op).
  - destruct (op =? subOperator); [|done].
    destruct (executeOperationUint64 (sh_lmLockedAmount s) _ op); [|done..].
    by destruct (executeOperationUint64 (pp_lmLockedShareAmount (ps_state p)) _ op).
Qed.

Lemma updateShareValue_blind amt nft op bh blocks : blind (updateShareValue amt nft op bh blocks).
Proof.
  intros v b p. unfold updateShareValue. cbn [dress ps_shares].
  destruct (ps_shares p !! nft) as [sh|].
  - destruct (NewHashFromStr nft) as [h| | |]; [|done..]. unfold mbind, M_bind, assign.
    replace (RecomputeLPRewards (dress v b p) h) with (RecomputeLPRewards p h) by done.
    destruct (RecomputeLPRewards p h) as [fees| | |]; [|done..]. cbn [fst snd]. rewrite changeShare_dress.
    by destruct (changeShare _ _ _ _ _ _) as [r [p' s']].
  - case_match; [done|]. rewrite changeShare_dress. by destruct (changeShare _ _ _ _ _ _) as [[] [p' s']].
Qed.

(** ** Names

    The identifiers of the orders of a book are distinct.  Most handlers neither create pools
    nor change which orders a book has, and what they ask for. *)
Definition distinct_orders (p : PoolPairState) : Prop := NoDup (ord_id <$> orders (ps_orderbook p)).

Definition same_names (ps ps' : PoolPairs) : Prop :=
  ∀ id, option_Forall2 (λ p p', Forall2 same_order (orders (ps_orderbook p)) (orders (ps_orderbook p')))
          (ps !! id) (ps' !! id).

#[export] Instance same_names_preorder : PreOrder same_names.
Proof.
  split.
  - intros ps id. by destruct (ps !! id); constructor.
  - intros a b c H1 H2 id. specialize (H1 id). specialize (H2 id).
    destruct H1 as [p q E|]; inversion H2; subst; constructor. by etrans.
Qed.

Lemma same_names_replace ps id p p' : ps !! id = Some p →
  Forall2 same_order (orders (ps_orderbook p)) (orders (ps_orderbook p')) →
  same_names ps (<[id := p']> ps).
Proof.
  intros Hp E i. destruct (decide (id = i)) as [<-|?].
  - rewrite Hp, lookup_insert_eq. by constructor.
  - rewrite lookup_insert_ne by done. by destruct (ps !! i); constructor.
Qed.

Lemma same_orders_ids' l l' : Forall2 same_order l l' → ord_id <$> l' = ord_id <$> l.
Proof. induction 1 as [|o o' l l' [E _] _ IH]; cbn; congruence. Qed.

Lemma rtc_names (R : relation PoolPairs) a b : (∀ a b, R a b → same_names a b) → rtc R a b → same_names a b.
Proof. intros HR. induction 1 as [|a b c Hab _ IH]; [done|]. etrans; [by apply HR|done]. Qed.

Lemma reward_changed_names a b : rtc reward_changed a b → same_names a b.
Proof.
  apply rtc_names. clear. intros a b [id p p' Hp (_ & Eb & _)]. apply same_names_replace with p; [done|]. by rewrite Eb.
Qed.

Lemma fees_withdrawn_names a b : rtc fees_withdrawn a b → same_names a b.
Proof. apply rtc_names. clear. intros a b [id p Hp]. by apply same_names_replace with p. Qed.

Lemma book_changed_names a b : rtc book_changed a b → same_names a b.
Proof.
  apply rtc_names. clear. intros a b [id p bk Hp Hsame _]. by apply same_names_replace with p.
Qed.

Lemma trade_steps_names params a rewards b : trade_steps params a rewards b → same_names a b.
Proof.
  induction 1 as [|a id p fr rewards b Hp [] _ IH]; [done|]. etrans; [|exact IH].
  by apply same_names_replace with p.
Qed.

Lemma same_names_distinct ps ps' : same_names ps ps' → (∀ id p, ps !! id = Some p → distinct_orders p) →
  ∀ id p, ps' !! id = Some p → distinct_orders p.
Proof.
  intros H Hd id p' Hp'. specialize (H id). rewrite Hp' in H. inversion H as [p ? E Hp|]; subst.
  unfold distinct_orders. rewrite (same_orders_ids' _ _ E). by eapply Hd.
Qed.

Lemma same_names_none ps ps' id : same_names ps ps' → ps !! id = None → ps' !! id = None.
Proof. intros H Hn. specialize (H id). rewrite Hn in H. by inversion H. Qed.

(** ** Processing lists of instructions *)
Section processing.
Context (GetInscriptionTokenID : Z → Hash) (beaconHeight : Z).
Abbreviation process1 := (processInstruction GetInscriptionTokenID beaconHeight).
Abbreviation process := (processInstructions GetInscriptionTokenID beaconHeight).

Lemma process_app insts insts' t t' : process insts t = Ok t' →
  process (insts ++ insts') t = process insts' t'.
Proof.
  revert t. induction insts as [|i insts IH]; intros t; cbn [app processInstructions].
  - by intros [= ->].
  - intros (t1 & E & H)%outcome_bind_Ok. rewrite E. cbn [mbind outcome_bind]. by apply IH.
Qed.

(** Instructions the processor only records for users to query. *)
Definition inert (i : Instruction) : Prop := ∀ t, process1 i t = Ok t.

Lemma process_inert insts t : Forall inert insts → process insts t = Ok t.
Proof. induction 1 as [|i insts Hi _ IH]; cbn [processInstructions]; [done|]. by rewrite Hi. Qed.

(** Instructions whose processing changes one pool by [f]. *)
Definition acts (id : string) (insts : list Instruction) (f : PoolPairState → outcome PoolPairState) : Prop :=
  ∀ t q q', poolPairs t !! id = Some q → f q = Ok q' →
    process insts t = Ok (with_pools (<[id := q']> (poolPairs t)) t).

Lemma acts_nil id : acts id [] Ok.
Proof.
  intros t q q' Hq [= <-]. cbn [processInstructions]. rewrite insert_id by done. by destruct t.
Qed.

Lemma acts_app id insts insts' f g : acts id insts f → acts id insts' g →
  acts id (insts ++ insts') (λ q, q ← f q; g q).
Proof.
  intros Hf Hg t q q' Hq (q1 & E1 & E2)%outcome_bind_Ok. rewrite (process_app _ _ _ _ (Hf t q q1 Hq E1)).
  rewrite (Hg _ q1 q'); [|by cbn; rewrite lookup_insert_eq|done]. cbn. by rewrite insert_insert_eq.
Qed.

Lemma acts_inert id insts : Forall inert insts → acts id insts Ok.
Proof. intros H t q q' Hq [= <-]. rewrite process_inert by done. rewrite insert_id by done. by destruct t. Qed.

Lemma acts_cons id i insts f g : acts id [i] f → acts id insts g →
  acts id (i :: insts) (λ q, q ← f q; g q).
Proof. apply (acts_app id [i] insts). Qed.

(** A non-empty list of instructions that all do the same, which is done after the first. *)
Lemma acts_repeat id insts f : insts ≠ [] → Forall (λ i, acts id [i] (λ q, Ok (f q))) insts →
  (∀ q, f (f q) = f q) → acts id insts (λ q, Ok (f q)).
Proof.
  intros Hne Hall Hf. destruct Hall as [|i insts Hi Hall]; [done|]. clear Hne. revert i Hi.
  induction Hall as [|j insts Hj _ IH]; intros i Hi; [done|].
  pose proof (acts_cons _ _ _ _ _ Hi (IH j Hj)) as H. cbn [mbind outcome_bind] in H.
  intros t q q' Hq [= <-]. by rewrite (H t q (f (f q))), Hf.
Qed.

(** ** Following the pools

    [follows]: processing [insts] takes any copy of the pools [ps] to a copy of [ps'], and
    changes nothing else. *)
Definition follows (R : books) (ps : PoolPairs) (insts : list Instruction)
    (ps' : PoolPairs) : Prop :=
  ∀ t, pools_agree R ps (poolPairs t) →
    ∃ qs', process insts t = Ok (with_pools qs' t) ∧ pools_agree R ps' qs'.

Lemma follows_nil R ps : follows R ps [] ps.
Proof. intros t H. exists (poolPairs t). split; [by destruct t|done]. Qed.

Lemma follows_inert R ps insts : Forall inert insts → follows R ps insts ps.
Proof. intros H t Ht. exists (poolPairs t). rewrite process_inert by done. by destruct t. Qed.

Lemma follows_app R ps insts ps1 insts' ps' :
  follows R ps insts ps1 → follows R ps1 insts' ps' → follows R ps (insts ++ insts') ps'.
Proof.
  intros H1 H2 t Ht. destruct (H1 t Ht) as (qs1 & E1 & Hq1).
  destruct (H2 (with_pools qs1 t) Hq1) as (qs' & E2 & Hq'). exists qs'.
  rewrite (process_app _ _ _ _ E1), E2. by destruct t.
Qed.

(** One pool changes. *)
Lemma follows_pool R ps id p insts f p' : ps !! id = Some p → acts id insts f →
  (∀ q, pool_agrees (R id) p q → ∃ q', f q = Ok q' ∧ pool_agrees (R id) p' q') →
  follows R ps insts (<[id := p']> ps).
Proof.
  intros Hp Hacts Hf t Ht. destruct (pools_agree_some _ _ _ _ _ Ht Hp) as (q & Hq & Hpq).
  destruct (Hf q Hpq) as (q' & E & Hpq'). exists (<[id := q']> (poolPairs t)).
  split; [by eapply Hacts|]. by apply pools_agree_insert.
Qed.

(** ** Fees *)
Lemma acts_LPFee id nft tok r l tx shard :
  acts id [AcceptedWithdrawLPFee id nft tok r l tx shard] (λ q, Ok (
    ps_with_orderRewards (delete (Hash_String nft) (ps_orderRewards q))
      (ps_with_shares (alter (collectedShare q) (Hash_String nft) (ps_shares q)) q))).
Proof.
  intros t q q' Hq [= <-]. cbn [processInstructions processInstruction]. unfold processWithdrawLPFee.
  rewrite Hq. by destruct t.
Qed.

Lemma alter_insert_lookup {A} (f : A → A) (k : string) (m : gmap string A) :
  alter f k m = match m !! k with Some x => <[k := f x]> m | None => m end.
Proof.
  destruct (m !! k) as [x|] eqn:E.
  - apply map_eq. intros i. destruct (decide (k = i)) as [<-|?].
    + by rewrite lookup_alter_eq, lookup_insert_eq, E.
    + by rewrite lookup_alter_ne, lookup_insert_ne by done.
  - apply alter_id. by rewrite E.
Qed.

Lemma markLast_nonempty {A B} (build : A → bool → B) l : l ≠ [] → markLast build l ≠ [].
Proof. destruct l as [|a [|b l]]; done. Qed.

Lemma sortedTokens_nonempty {A} (m : gmap Hash A) : m ≠ ∅ → sortedTokens m ≠ [].
Proof.
  intros Hm E. apply Hm, map_to_list_empty_iff. apply Permutation_nil. rewrite <-E.
  apply merge_sort_Permutation.
Qed.

Lemma markLast_all {A B} (P : B → Prop) (build : A → bool → B) l :
  (∀ a b, P (build a b)) → Forall P (markLast build l).
Proof. intros H. induction l as [|a [|b l] IH]; cbn; by constructor. Qed.

Lemma receiversInfo_nonempty recv reward info : receiversInfo recv reward = Some info →
  reward ≠ ∅ → info ≠ ∅.
Proof.
  unfold receiversInfo. case_match; [|done]. intros [= <-] Hne E. apply Hne, map_empty. intros tok.
  apply (f_equal (λ m : gmap Hash ReceiverInfo, m !! tok)) in E. rewrite map_lookup_imap, lookup_empty in E.
  by destruct (reward !! tok).
Qed.

Lemma withdrawLPFee_follows R txs ps insts ps' :
  withdrawLPFee txs ps = Ok (insts, ps') → follows R ps insts ps'.
Proof.
  revert ps insts ps'. induction txs as [|tx txs IH]; intros ps insts ps'; cbn [withdrawLPFee].
  { intros [= <- <-]. apply follows_nil. }
  intros ([insts1 ps1] & E1 & ([insts2 ps2] & E2 & [= <- <-])%outcome_bind_Ok)%outcome_bind_Ok.
  apply follows_app with ps1; [|by apply IH]. clear IH E2. unfold withdrawLPFeeTx in E1.
  destruct (rq_Receivers _ !! _) as [addr|]; [|done].
  destruct (ps !! rq_PoolID _) as [p|] eqn:Hp; [|injection E1 as <- <-; by apply follows_inert; repeat constructor].
  apply outcome_bind_Ok in E1 as (lp & Hlp & E1). case_bool_decide as Hr.
  { injection E1 as <- <-. by apply follows_inert; repeat constructor. }
  destruct (receiversInfo _ _) as [info|] eqn:Hinfo; [|injection E1 as <- <-; by apply follows_inert; repeat constructor].
  injection E1 as <- <-. eapply follows_pool; [done|..].
  - apply acts_cons with (f := Ok); [apply acts_inert; by repeat constructor|]. apply acts_repeat.
    + by apply markLast_nonempty, sortedTokens_nonempty, (receiversInfo_nonempty _ _ _ Hinfo).
    + apply markLast_all. intros [tok r] l. apply acts_LPFee.
    + intros q. cbn. unfold ps_with_orderRewards, ps_with_shares. cbn. f_equal.
      * apply map_eq. intros k. destruct (decide (Hash_String (rq_NftID (tx_Metadata tx)) = k)) as [<-|?].
        -- rewrite !lookup_alter_eq. destruct (ps_shares q !! _) as [sh|]; [|done]. cbn.
           unfold collectedShare, resetKeyValueToZero. cbn. by rewrite <-map_fmap_compose.
        -- by rewrite !lookup_alter_ne by done.
      * apply delete_delete_eq.
  - intros q [v b Hv HR]. eexists. split; [reflexivity|]. cbn.
    apply (agrees_intro _ v b); [done..|]. unfold dress. cbn. f_equal. rewrite alter_insert_lookup.
    by destruct (ps_shares p !! _).
Qed.

Lemma withdrawProtocolFee_follows R addr fundShard txs ps insts ps' :
  withdrawProtocolFee addr fundShard txs ps = Ok (insts, ps') → follows R ps insts ps'.
Proof.
  unfold withdrawProtocolFee. intros (shard & _ & [= E])%outcome_bind_Ok.
  revert ps insts ps' E. induction txs as [|tx txs IH]; intros ps insts ps'; cbn [withdrawProtocolFeeLoop].
  { intros [= <- <-]. apply follows_nil. }
  set (step := match ps !! tx_Metadata tx with None => _ | Some p => _ end).
  destruct step as [insts1 ps1] eqn:Estep. destruct (withdrawProtocolFeeLoop _ _ txs ps1) as [insts2 ps2] eqn:E.
  intros [= <- <-]. apply follows_app with ps1; [|by apply IH]. clear IH E. subst step.
  destruct (ps !! tx_Metadata tx) as [p|] eqn:Hp; [case_bool_decide as Hr|];
    injection Estep as <- <-; try by apply follows_inert; repeat constructor.
  eapply follows_pool; [done|..].
  - apply (acts_repeat _ _ (λ q, ps_with_protocolFees (resetKeyValueToZero (ps_protocolFees q)) q)).
    + by apply markLast_nonempty, sortedTokens_nonempty.
    + apply markLast_all. intros [tok r] l. intros t q q' Hq [= <-].
      cbn [processInstructions processInstruction]. unfold processWithdrawProtocolFee. rewrite Hq. by destruct t.
    + intros q. cbn. unfold ps_with_protocolFees, resetKeyValueToZero. cbn. by rewrite <-map_fmap_compose.
  - intros q [v b Hv HR]. eexists. split; [reflexivity|]. by apply (agrees_intro _ v b).
Qed.

(** ** Liquidity *)
Lemma updateSingleTokenAmount_keeps tok amt sh op p p' :
  updateSingleTokenAmount tok amt sh op p = (Ok tt, p') →
  ps_shares p' = ps_shares p ∧ tokensOf p' = tokensOf p.
Proof.
  unfold updateSingleTokenAmount. rewrite getS_bind. case_match; [done|]. intros Hrun. inv_ok.
  by case_match.
Qed.

(** The two tokens and the share are changed one after the other, as the processor does. *)
Lemma deductShare_parts nft req p t0 t1 sh p' : deductShare nft req p = (Ok (t0, t1, sh), p') →
  is_Some (ps_shares p !! nft) ∧ ∃ p1 p2,
    updateSingleTokenAmount (pp_token0ID (ps_state p)) t0 sh subOperator p = (Ok tt, p1) ∧
    updateSingleTokenAmount (pp_token1ID (ps_state p)) t1 sh subOperator p1 = (Ok tt, p2) ∧
    updateShareValue sh nft subOperator 0 0 p2 = (Ok tt, p') ∧
    ps_shares p1 = ps_shares p ∧ tokensOf p1 = tokensOf p ∧ tokensOf p2 = tokensOf p.
Proof.
  unfold deductShare. rewrite getS_bind. case_match; [done|].
  destruct (ps_shares p !! nft) as [share|] eqn:Hsh; [|done]. case_match; [done|]. intros Hrun.
  apply M_bind_Ok in Hrun as (d0 & ? & [_ <-]%pair_eq & Hrun).
  apply M_bind_Ok in Hrun as (d1 & ? & [_ <-]%pair_eq & Hrun).
  apply M_bind_Ok in Hrun as ([] & p2 & Hu & Hrun).
  apply M_bind_Ok in Hrun as ([] & p3 & Hv & Hrun). injection Hrun as <- <- <- <-.
  destruct (updateReserveData _ _ _ _ _) as [r p2'] eqn:Er. injection Hu as Hr ->.
  apply orErr_Ok in Hr as ->. unfold updateReserveData in Er. rewrite getS_bind in Er.
  apply M_bind_Ok in Er as ([] & p1 & H1 & Er). rewrite getS_bind in Er.
  destruct (updateSingleTokenAmount_keeps _ _ _ _ _ _ H1) as [E1 T1].
  destruct (updateSingleTokenAmount_keeps _ _ _ _ _ _ Er) as [E2 T2].
  split; [done|]. exists p1, p2. injection T1 as T10 T11. rewrite T11 in Er.
  do 4 (split; [done|]). unfold tokensOf in *. by rewrite T10, T11, T2, T10, T11.
Qed.

(** The processor's part for one token. *)
Definition acceptToken (nft tok : Hash) (amount share : Z) (q : PoolPairState) : outcome PoolPairState :=
  match ps_shares q !! Hash_String nft with
  | None => Err "Can't find nftID"
  | Some _ =>
      r ← runM (_ ← ignoreErr (updateSingleTokenAmount tok amount share subOperator);
                p ← getS;
                if String.eqb (Hash_String (pp_token1ID (ps_state p))) (Hash_String tok)
                then updateShareValue share (Hash_String nft) subOperator 0 0
                else mret tt) q;
      Ok r.2
  end.

Lemma acts_acceptToken id nft tok amount share ota tx shard :
  acts id [AcceptWithdrawLiquidity id nft tok amount share ota tx shard] (acceptToken nft tok amount share).
Proof.
  intros t q q' Hq Hf. cbn [processInstructions processInstruction]. unfold acceptWithdrawLiquidity.
  rewrite Hq. unfold acceptToken in Hf. destruct (ps_shares q !! _); [|done].
  apply outcome_bind_Ok in Hf as (r & E & [= <-]). rewrite E. cbn [mbind outcome_bind setPools]. by destruct t.
Qed.

Lemma acceptToken_first nft tok amount share v b p p1 :
  is_Some (ps_shares p !! Hash_String nft) → pp_token1ID (ps_state p) ≠ tok →
  updateSingleTokenAmount tok amount share subOperator p = (Ok tt, p1) →
  acceptToken nft tok amount share (dress v b p) = Ok (dress v b p1).
Proof.
  intros [sh Hsh] Hne H1. destruct (updateSingleTokenAmount_keeps _ _ _ _ _ _ H1) as [E1 [= T0 T1]].
  unfold acceptToken. cbn [dress ps_shares]. rewrite Hsh. unfold runM, ignoreErr, mbind, M_bind, getS.
  fold (dress v b p). rewrite updateSingleTokenAmount_blind, H1. cbn [dress ps_state]. rewrite T1.
  destruct (String.eqb_spec (Hash_String (pp_token1ID (ps_state p))) (Hash_String tok)) as [E|_]; [|done].
  by apply Hash_String_injective in E.
Qed.

Lemma acceptToken_second nft amount share v b p p1 p2 :
  is_Some (ps_shares p !! Hash_String nft) →
  updateSingleTokenAmount (pp_token1ID (ps_state p)) amount share subOperator p = (Ok tt, p1) →
  updateShareValue share (Hash_String nft) subOperator 0 0 p1 = (Ok tt, p2) →
  acceptToken nft (pp_token1ID (ps_state p)) amount share (dress v b p) = Ok (dress v b p2).
Proof.
  intros [sh Hsh] H1 H2. destruct (updateSingleTokenAmount_keeps _ _ _ _ _ _ H1) as [E1 [= T0 T1]].
  unfold acceptToken. cbn [dress ps_shares]. rewrite Hsh. unfold runM, ignoreErr, mbind, M_bind, getS.
  fold (dress v b p). rewrite updateSingleTokenAmount_blind, H1. cbn [dress ps_state].
  rewrite T1, String.eqb_refl. by rewrite updateShareValue_blind, H2.
Qed.

Lemma withdrawLiquidityTx_follows R nfts tx ps insts ps' :
  wf_pools ps → wf_withdraw (tx_Metadata tx) →
  withdrawLiquidityTx nfts tx ps = Ok (insts, ps') → follows R ps insts ps' ∧ same_names ps ps'.
Proof.
  intros Hps [(h & Hh & Enft) Hamt]. unfold withdrawLiquidityTx. set (md := tx_Metadata tx) in *.
  unfold BuildRejectWithdrawLiquidityInstructions, derefHash, BuildAcceptWithdrawLiquidityInstructions.
  rewrite !Enft, !NewHashFromStr_String by done. cbn [mbind outcome_bind].
  set (rejected := Ok (_, ps)).
  assert (Hrej : rejected = Ok (insts, ps') → follows R ps insts ps' ∧ same_names ps ps').
  { intros [= <- <-]. split; [|done]. apply follows_inert. by repeat constructor. }
  destruct (_ || _); [done|]. destruct (ps !! wl_poolPairID md) as [p|] eqn:Hid; [|done].
  destruct (Hps _ _ Hid) as [Hw _]. destruct (isEmpty p); [done|].
  destruct (ps_shares p !! Hash_String h) as [share|] eqn:Hsh; [|done]. destruct (_ || _); [done|].
  unfold runM. destruct (deductShare (Hash_String h) (wl_shareAmount md) p) as [[[[t0 t1] sh]|e| |] p'] eqn:Hrun;
    [|done..].
  destruct (deductShare_spec p p' h _ t0 t1 sh Hw Hh Hamt Hrun)
    as (_ & _ & _ & _ & _ & _ & _ & _ & _ & _ & _ & _ & _ & (T0 & T1 & _) & _ & _ & _ & _ & Hob & _ & Hmv & _).
  cbv zeta. destruct (String.eqb (receiverOf _ _) ""); [done|].
  destruct (String.eqb (receiverOf _ _) ""); [done|]. intros [= <- <-]. rewrite T0, T1.
  apply deductShare_parts in Hrun as (Hs & p1 & p2 & H1 & H2 & H3 & E1 & U1 & U2).
  destruct (wst_tokens _ Hw) as (_ & _ & Hne). injection U1 as _ U11.
  split; [|apply same_names_replace with p; [done|by rewrite Hob]]. eapply follows_pool; [done|..].
  - apply acts_cons; [apply acts_acceptToken|]. apply acts_cons; [apply acts_acceptToken|].
    apply acts_inert. by repeat constructor.
  - intros q [v b Hv HR]. exists (dress v b p'). split.
    + rewrite (acceptToken_first h _ _ _ v b p p1) by done. cbn [mbind outcome_bind].
      rewrite <-U11 in H2. rewrite <-U11, (acceptToken_second h _ _ v b p1 p2 p'); [done|rewrite E1; done|done..].
    + constructor; [by rewrite Hmv|by rewrite Hob].
Qed.

Lemma withdrawLiquidity_follows R nfts txs ps insts ps' :
  wf_pools ps → Forall (λ tx, wf_withdraw (tx_Metadata tx)) txs →
  withdrawLiquidity nfts txs ps = Ok (insts, ps') → follows R ps insts ps' ∧ same_names ps ps'.
Proof.
  intros Hps Htxs. revert ps insts ps' Hps. induction Htxs as [|tx txs Htx _ IH]; intros ps insts ps' Hps;
    cbn [withdrawLiquidity].
  { intros [= <- <-]. split; [apply follows_nil|done]. }
  intros ([insts1 ps1] & E1 & ([insts2 ps2] & E2 & [= <- <-])%outcome_bind_Ok)%outcome_bind_Ok.
  destruct (withdrawLiquidityTx_follows R nfts tx ps insts1 ps1 Hps Htx E1) as [F1 N1].
  destruct (withdrawLiquidityTx_conserves nfts tx ps Hps Htx) as (? & ? & E & Hps1 & _).
  rewrite E in E1. injection E1 as -> ->. destruct (IH ps1 insts2 ps2 Hps1 E2) as [F2 N2].
  split; [by apply follows_app with ps1|by etrans].
Qed.

(** ** Orders *)

(** The order after [amount] of token [tok] is withdrawn. *)
Definition takeToken (s : Pdexv3PoolPair) (tok : Hash) (amount : Z) (o : Pdexv3Order) : Pdexv3Order :=
  if bool_decide (tok = pp_token0ID s) then SetToken0Balance (ord_token0Balance o - amount) o
  else SetToken1Balance (ord_token1Balance o - amount) o.

Definition holds (s : Pdexv3PoolPair) (tok : Hash) (amount : Z) (o : Pdexv3Order) : Prop :=
  tok = pp_token0ID s ∧ 0 < amount ≤ ord_token0Balance o ∨
  tok ≠ pp_token0ID s ∧ tok = pp_token1ID s ∧ 0 < amount ≤ ord_token1Balance o.

Lemma withdrawFrom_trimmed s tok amount id i o l l' :
  wf_order o → trimmed l l' → findOrder id l = Some (i, o) → holds s tok amount o →
  ∃ l'', (match findOrder id l' with
          | None => Ok l'
          | Some (j, ord) => withdrawFrom s tok amount j ord l'
          end) = Ok l'' ∧ trimmed (<[i := takeToken s tok amount o]> l) l''.
Proof.
  intros [] Ht Hf Hh.
  destruct (trimmed_find id l l' i o Ht Hf) as (j & -> & Hj).
  { intros [E0 E1]. destruct Hh as [?|?]; lia. }
  unfold withdrawFrom, takeToken. destruct Hh as [[-> Ha]|(Hne & -> & Ha)].
  - rewrite !bool_decide_eq_true_2 by done. rewrite sub64_exact by (done || lia).
    rewrite (proj2 (Z.ltb_ge _ _)) by lia. set (o' := SetToken0Balance _ _).
    destruct (Hj o') as [H1 H2]. destruct (_ && _) eqn:E; [|by eexists].
    eexists. split; [done|]. rewrite take_insert_ge, drop_insert_lt by lia. apply H2. unfold spentOrder. lia.
  - rewrite (bool_decide_eq_false_2 (_ = pp_token0ID s)), bool_decide_eq_true_2 by done.
    rewrite sub64_exact by (done || lia).
    rewrite (proj2 (Z.ltb_ge _ _)) by lia. set (o' := SetToken1Balance _ _).
    destruct (Hj o') as [H1 H2]. destruct (_ && _) eqn:E; [|by eexists].
    eexists. split; [done|]. rewrite take_insert_ge, drop_insert_lt by lia. apply H2. unfold spentOrder. lia.
Qed.

Lemma follows_withdraw ps id p ordID r tok amount tx shard i o :
  ps !! id = Some p → findOrder ordID (orders (ps_orderbook p)) = Some (i, o) → wf_order o →
  holds (ps_state p) tok amount o →
  follows (λ _, trimmed) ps [AcceptedWithdrawOrder id ordID r tok amount tx shard]
    (<[id := ps_with_orderbook (mkOrderbook (<[i := takeToken (ps_state p) tok amount o]>
                                              (orders (ps_orderbook p)))) p]> ps).
Proof.
  intros Hp Hf Hw Hh. eapply follows_pool with (f := λ q,
    l ← (match findOrder ordID (orders (ps_orderbook q)) with
         | None => Ok (orders (ps_orderbook q))
         | Some (j, ord) => withdrawFrom (ps_state q) tok amount j ord (orders (ps_orderbook q))
         end); Ok (ps_with_orderbook (mkOrderbook l) q)); [done|..].
  - intros t q q' Hq (l & El & [= <-])%outcome_bind_Ok. cbn [processInstructions processInstruction].
    unfold processWithdrawOrder. rewrite Hq, El. by destruct t.
  - intros q [v b Hv HR]. destruct (withdrawFrom_trimmed (ps_state p) tok amount ordID i o _ _ Hw HR Hf Hh)
      as (l & E & Hl). cbn [dress ps_orderbook ps_state]. rewrite E. eexists. split; [done|].
    by apply (agrees_intro _ v (mkOrderbook l)).
Qed.

(** The payments of one request, in either order. *)
Lemma takeToken_find s tok amount id l i o : findOrder id l = Some (i, o) →
  findOrder id (<[i := takeToken s tok amount o]> l) = Some (i, takeToken s tok amount o).
Proof.
  revert i. induction l as [|a l IH]; intros i; cbn [findOrder]; [done|].
  destruct (String.eqb (ord_id a) id) eqn:E.
  - intros [= <- <-]. cbn [insert list_insert findOrder].
    assert (ord_id (takeToken s tok amount a) = ord_id a) as -> by (unfold takeToken; by case_match).
    by rewrite E.
  - destruct (findOrder id l) as [[i' o']|]; [|done]. intros [= <- <-].
    match goal with |- context [<[S i' := ?x]> (a :: l)] => change (<[S i' := x]> (a :: l)) with (a :: <[i' := x]> l) end. cbn [findOrder]. rewrite E. by rewrite (IH i' eq_refl).
Qed.

Lemma takeToken_wf s tok amount o : wf_order o → holds s tok amount o → wf_order (takeToken s tok amount o).
Proof.
  intros [] Hh. unfold takeToken, in_u64 in *.
  destruct Hh as [[-> Ha]|(Hne & -> & Ha)]; case_bool_decide; try done; constructor; cbn; unfold in_u64; lia.
Qed.

Lemma holds_after s tok amount tok' amount' o : tok ≠ tok' → pp_token0ID s ≠ pp_token1ID s →
  holds s tok amount o → holds s tok' amount' o → holds s tok' amount' (takeToken s tok amount o).
Proof.
  unfold holds, takeToken. intros Hne Ht [[-> ?]|(? & -> & ?)] [[-> ?]|(? & -> & ?)]; try done.
  - right. by rewrite bool_decide_eq_true_2.
  - left. by rewrite bool_decide_eq_false_2.
Qed.

Lemma sortedTokens_pair (t0 t1 : Hash) (a0 a1 : Z) : t0 ≠ t1 →
  sortedTokens (<[t1 := a1]> {[t0 := a0]} : gmap Hash Z) ≡ₚ [(t0, a0); (t1, a1)].
Proof.
  intros Hne. unfold sortedTokens. rewrite merge_sort_Permutation, map_to_list_insert, map_to_list_singleton
    by by rewrite lookup_singleton_ne. by constructor.
Qed.

Lemma sortedTokens_singleton (t : Hash) (a : Z) : sortedTokens ({[t := a]} : gmap Hash Z) = [(t, a)].
Proof.
  apply Permutation_singleton_r. unfold sortedTokens. by rewrite merge_sort_Permutation, map_to_list_singleton.
Qed.

(** Two payments of one order, one after the other. *)
Lemma follows_withdraw2 ps id p ordID r r' tok tok' amount amount' tx shard i o :
  ps !! id = Some p → findOrder ordID (orders (ps_orderbook p)) = Some (i, o) → wf_order o →
  holds (ps_state p) tok amount o → holds (ps_state p) tok' amount' o →
  tok ≠ tok' → pp_token0ID (ps_state p) ≠ pp_token1ID (ps_state p) →
  follows (λ _, trimmed) ps [AcceptedWithdrawOrder id ordID r tok amount tx shard;
                      AcceptedWithdrawOrder id ordID r' tok' amount' tx shard]
    (<[id := ps_with_orderbook (mkOrderbook (<[i := takeToken (ps_state p) tok' amount'
        (takeToken (ps_state p) tok amount o)]> (orders (ps_orderbook p)))) p]> ps).
Proof.
  intros Hp Hf Hw H1 H2 Hne Ht. apply (follows_app _ _ [_] (<[id := ps_with_orderbook (mkOrderbook
    (<[i := takeToken (ps_state p) tok amount o]> (orders (ps_orderbook p)))) p]> ps) [_]).
  { by apply follows_withdraw. }
  set (p1 := ps_with_orderbook _ p). pose proof (follows_withdraw (<[id := p1]> ps) id p1 ordID r' tok' amount'
    tx shard i (takeToken (ps_state p) tok amount o)) as H.
  rewrite lookup_insert_eq in H. cbn [p1 ps_with_orderbook ps_orderbook ps_state orders] in H.
  rewrite insert_insert_eq, list_insert_insert_eq in H.
  apply H; [done|by apply takeToken_find|by apply takeToken_wf|by apply holds_after].
Qed.

Lemma takeToken_same s tok amount o : same_order o (takeToken s tok amount o).
Proof. unfold takeToken. by case_match. Qed.

Lemma takeToken_balances s tok amount o : holds s tok amount o →
  ord_token0Balance (takeToken s tok amount o) =
    ord_token0Balance o - ofToken (pp_token0ID s) tok amount ∧
  ord_token1Balance (takeToken s tok amount o) =
    ord_token1Balance o - (if decide (tok = pp_token0ID s) then 0 else amount).
Proof.
  unfold takeToken, holds, ofToken. intros [[-> _]|(Hne & -> & _)].
  - rewrite bool_decide_eq_true_2, !decide_True by done. cbn. lia.
  - rewrite bool_decide_eq_false_2, !decide_False by done. cbn. lia.
Qed.

Lemma order_ext o o' o'' : same_order o o' → same_order o o'' →
  ord_token0Balance o' = ord_token0Balance o'' → ord_token1Balance o' = ord_token1Balance o'' → o' = o''.
Proof. destruct o, o', o''; unfold same_order; cbn. naive_solver. Qed.

(** What is paid of an order, of either token or both, in any order. *)
Lemma follows_pays ps id p ordID i o o' a0 a1 r0 r1 tx shard insts :
  ps !! id = Some p → pp_token0ID (ps_state p) ≠ pp_token1ID (ps_state p) →
  findOrder ordID (orders (ps_orderbook p)) = Some (i, o) → wf_order o →
  same_order o o' → 0 ≤ a0 ≤ ord_token0Balance o → 0 ≤ a1 ≤ ord_token1Balance o →
  ord_token0Balance o' = ord_token0Balance o - a0 → ord_token1Balance o' = ord_token1Balance o - a1 →
  insts ≡ₚ (if 0 <? a0 then [AcceptedWithdrawOrder id ordID r0 (pp_token0ID (ps_state p)) a0 tx shard] else []) ++
           (if 0 <? a1 then [AcceptedWithdrawOrder id ordID r1 (pp_token1ID (ps_state p)) a1 tx shard] else []) →
  follows (λ _, trimmed) ps insts
    (<[id := ps_with_orderbook (mkOrderbook (<[i := o']> (orders (ps_orderbook p)))) p]> ps).
Proof.
  intros Hp Hne Hf Hwo Hso B0 B1 E0 E1 Hi. set (s := ps_state p) in *.
  assert (H0 : 0 < a0 → holds s (pp_token0ID s) a0 o) by (left; split; [done|lia]).
  assert (H1 : 0 < a1 → holds s (pp_token1ID s) a1 o) by (right; split; [done|]; split; [done|lia]).
  assert (Heq : ∀ x, same_order o x → ord_token0Balance x = ord_token0Balance o - a0 →
    ord_token1Balance x = ord_token1Balance o - a1 → x = o') by (intros x ???; eapply (order_ext o); [done..|lia|lia]).
  assert (Hbal : ∀ x, (holds s (pp_token0ID s) a0 x →
      ord_token0Balance (takeToken s (pp_token0ID s) a0 x) = ord_token0Balance x - a0 ∧
      ord_token1Balance (takeToken s (pp_token0ID s) a0 x) = ord_token1Balance x) ∧
    (holds s (pp_token1ID s) a1 x →
      ord_token0Balance (takeToken s (pp_token1ID s) a1 x) = ord_token0Balance x ∧
      ord_token1Balance (takeToken s (pp_token1ID s) a1 x) = ord_token1Balance x - a1)).
  { intros x. split; intros Hx; apply takeToken_balances in Hx as [-> ->]; unfold ofToken;
      repeat case_decide; try done; lia. }
  destruct (Z.ltb_spec 0 a0) as [P0|P0], (Z.ltb_spec 0 a1) as [P1|P1]; cbn [app] in Hi.
  - apply Permutation_sym, Permutation_length_2_inv in Hi as [->| ->].
    + rewrite <-(Heq (takeToken s (pp_token1ID s) a1 (takeToken s (pp_token0ID s) a0 o)));
        [by apply follows_withdraw2; auto|etrans; apply takeToken_same|..];
        destruct (proj1 (Hbal o) (H0 P0)), (proj2 (Hbal (takeToken s (pp_token0ID s) a0 o))); try lia;
        apply holds_after; auto.
    + rewrite <-(Heq (takeToken s (pp_token0ID s) a0 (takeToken s (pp_token1ID s) a1 o)));
        [by apply follows_withdraw2; auto|etrans; apply takeToken_same|..];
        destruct (proj2 (Hbal o) (H1 P1)), (proj1 (Hbal (takeToken s (pp_token1ID s) a1 o))); try lia;
        apply holds_after; auto.
  - apply Permutation_singleton_r in Hi as ->. destruct (proj1 (Hbal o) (H0 P0)).
    rewrite <-(Heq (takeToken s (pp_token0ID s) a0 o)) by (apply takeToken_same || lia).
    apply follows_withdraw; auto.
  - apply Permutation_singleton_r in Hi as ->. destruct (proj2 (Hbal o) (H1 P1)).
    rewrite <-(Heq (takeToken s (pp_token1ID s) a1 o)) by (apply takeToken_same || lia).
    apply follows_withdraw; auto.
  - apply Permutation_nil_r in Hi as ->. rewrite <-(Heq o) by (done || lia).
    rewrite list_insert_id by by apply findOrder_spec in Hf as [? _].
    rewrite insert_id; [apply follows_nil|]. rewrite Hp. by destruct p as [????[]].
Qed.

Lemma withdrawOrderTx_follows tx ps insts ps' :
  wf_exchange ps → wf_withdraw_order (tx_Metadata tx) →
  withdrawOrderTx tx ps = Ok (insts, ps') → follows (λ _, trimmed) ps insts ps'.
Proof.
  intros Hwf [[r Hr] Ha]. unfold withdrawOrderTx. set (md := tx_Metadata tx) in *. rewrite Hr.
  set (refund := Ok ([_; _], ps)).
  assert (Href : refund = Ok (insts, ps') → follows (λ _, trimmed) ps insts ps').
  { intros [= <- <-]. apply follows_inert. by repeat constructor. }
  destruct (ps !! wo_PoolPairID md) as [p|] eqn:Hp; [|done].
  destruct (findOrder _ _) as [[i o]|] eqn:Hf; [|done].
  destruct (negb (bool_decide (ord_nftID o = wo_NftID md))); [done|]. cbv zeta. destruct (_ && _ && _); [done|].
  destruct (takeBalances _ _ _ o) as [[a0 a1] o'] eqn:Ht.
  pose proof (we_books _ Hwf _ _ Hp) as Hbk. cbn [book_wf Orderbook_laws] in Hbk.
  assert (Hwo : wf_order o) by (apply findOrder_spec in Hf as [Ho _]; by eapply Forall_lookup_1).
  destruct (takeBalances_spec _ _ _ _ _ _ _ Hwo Ha Ht) as (Hso & [_ _ W0 W1] & Ha0 & Ha1 & E0 & E1).
  unfold in_u64 in W0, W1.
  destruct (negb (0 <? a0) && negb (0 <? a1)); [done|].
  destruct (we_pools _ Hwf _ _ Hp) as [Hws _]. destruct (wst_tokens _ Hws) as (_ & _ & Hne).
  intros [= <- <-]. apply (follows_app _ _ [_] ps); [apply follows_inert; by repeat constructor|].
  apply (follows_pays _ _ _ (wo_OrderID md) _ o o' a0 a1 (default ""%string (wo_Receiver md !! pp_token0ID (ps_state p)))
    (default ""%string (wo_Receiver md !! pp_token1ID (ps_state p))) (tx_Hash tx) (tx_ShardID tx));
    [done..|lia|lia|done|done|].
  destruct (0 <? a0), (0 <? a1); cbn [app].
  - rewrite (sortedTokens_pair _ _ a0 a1 Hne). reflexivity.
  - by rewrite sortedTokens_singleton.
  - by rewrite insert_empty, sortedTokens_singleton.
  - done.
Qed.

Lemma withdrawOrder_follows txs ps insts ps' :
  wf_exchange ps → Forall (λ tx, wf_withdraw_order (tx_Metadata tx)) txs →
  withdrawOrder txs ps = Ok (insts, ps') → follows (λ _, trimmed) ps insts ps'.
Proof.
  intros Hps Htxs. revert ps insts ps' Hps. induction Htxs as [|tx txs Htx _ IH]; intros ps insts ps' Hps;
    cbn [withdrawOrder].
  { intros [= <- <-]. apply follows_nil. }
  intros ([insts1 ps1] & E1 & ([insts2 ps2] & E2 & [= <- <-])%outcome_bind_Ok)%outcome_bind_Ok.
  apply follows_app with ps1; [by eapply withdrawOrderTx_follows|]. eapply IH; [|done].
  destruct (withdrawOrderTx_conserves tx ps Hps Htx) as (? & ? & E & Hps1 & _).
  rewrite E in E1. by injection E1 as <- <-.
Qed.

(** Matched orders are withdrawn one by one; their identifiers tell them apart. *)
Lemma withdrawMatchedOrder_follows shardOf limit id p pre o l counts insts o' counts' ps :
  ps !! id = Some p → orders (ps_orderbook p) = pre ++ o :: l → wf_order o →
  pp_token0ID (ps_state p) ≠ pp_token1ID (ps_state p) → NoDup (ord_id <$> pre ++ o :: l) →
  withdrawMatchedOrder shardOf limit id (ps_state p) o counts = Ok (insts, o', counts') →
  follows (λ _, trimmed) ps insts (<[id := ps_with_orderbook (mkOrderbook (pre ++ o' :: l)) p]> ps).
Proof.
  intros Hp Hl Hwo Hne Hd H. pose proof (findOrder_middle pre l o Hd) as Hf. rewrite <-Hl in Hf.
  assert (Hput : ∀ x, <[length pre := x]> (orders (ps_orderbook p)) = pre ++ x :: l).
  { intros x. rewrite Hl, <-(Nat.add_0_r (length pre)), insert_app_r. done. }
  pose proof Hwo as [_ _ W0 W1]. unfold in_u64 in W0, W1.
  assert (Hskip : follows (λ _, trimmed) ps [] (<[id := ps_with_orderbook (mkOrderbook (pre ++ o :: l)) p]> ps)).
  { rewrite <-Hput. apply (follows_pays _ _ _ (ord_id o) _ o o 0 0 "" "" "" 0); (done || lia). }
  unfold withdrawMatchedOrder in H. destruct (stillMatchable o); [by injection H as <- <- <-|].
  apply outcome_bind_Ok in H as (outs & Ho & H). destruct (limit <? _); [by injection H as <- <- <-|].
  injection H as <- <- <-. rewrite <-Hput. unfold outputInstructions, derefHash in Ho.
  apply outcome_bind_Ok in Ho as (out0 & H0 & Ho). apply outcome_bind_Ok in Ho as (out1 & H1 & [= <-]).
  set (tx := match NewHashFromStr (ord_id o) with Ok h => h | _ => emptyHash end).
  apply (follows_pays _ _ _ (ord_id o) _ o _ (ord_token0Balance o) (ord_token1Balance o) (ord_receiver o).1
    (ord_receiver o).2 tx (shardOf (ord_receiver o).1)); try (done || lia); cbn; try lia.
  destruct (0 <? ord_token0Balance o), (0 <? ord_token1Balance o), (NewHashFromStr (ord_id o));
    inv_ok; simplify_eq; done.
Qed.

Lemma withdrawMatched_follows shardOf limit id p pre l counts insts l' counts' ps :
  ps !! id = Some p → orders (ps_orderbook p) = pre ++ l → Forall wf_order l →
  pp_token0ID (ps_state p) ≠ pp_token1ID (ps_state p) → NoDup (ord_id <$> pre ++ l) →
  withdrawMatched shardOf limit id (ps_state p) l counts = Ok (insts, l', counts') →
  follows (λ _, trimmed) ps insts (<[id := ps_with_orderbook (mkOrderbook (pre ++ l')) p]> ps).
Proof.
  revert p pre counts insts l' counts' ps. induction l as [|o l IH]; intros p pre counts insts l' counts' ps
    Hp Hl Hw Hne Hd; cbn [withdrawMatched].
  { intros [= <- <- <-]. rewrite <-Hl, insert_id; [apply follows_nil|]. rewrite Hp. by destruct p as [????[]]. }
  apply Forall_cons in Hw as [Hwo Hw].
  intros ([[insts1 o'] c1] & E1 & ([[insts2 l2] c2] & E2 & [= <- <- <-])%outcome_bind_Ok)%outcome_bind_Ok.
  pose proof (withdrawMatchedOrder_follows _ _ _ _ _ _ _ _ _ _ _ _ Hp Hl Hwo Hne Hd E1) as F1.
  eapply follows_app; [exact F1|]. set (p1 := ps_with_orderbook _ p) in *.
  pose proof (IH p1 (pre ++ [o']) c1 insts2 l2 c2 (<[id := p1]> ps)) as H.
  rewrite lookup_insert_eq, insert_insert_eq, <-!app_assoc in H. cbn [app] in H. apply H; try done.
  assert (ord_id o' = ord_id o) as Eo.
  { unfold withdrawMatchedOrder in E1. destruct (stillMatchable o); [by simplify_eq|].
    apply outcome_bind_Ok in E1 as (outs & _ & E1). destruct (limit <? _); by simplify_eq. }
  rewrite !fmap_app in *. cbn [fmap list_fmap] in *. by rewrite Eo.
Qed.

Lemma withdrawMatchedPools_follows shardOf limit ids counts ps insts ps' counts' :
  NoDup ids →
  (∀ id p, id ∈ ids → ps !! id = Some p → Forall wf_order (orders (ps_orderbook p)) ∧
     pp_token0ID (ps_state p) ≠ pp_token1ID (ps_state p) ∧ distinct_orders p) →
  withdrawMatchedPools shardOf limit ids ps counts = Ok (insts, ps', counts') →
  follows (λ _, trimmed) ps insts ps'.
Proof.
  intros Hd. revert counts ps insts. induction Hd as [|id ids Hn Hd IH]; intros counts ps insts Hps;
    cbn [withdrawMatchedPools].
  { intros [= <- <- <-]. apply follows_nil. }
  destruct (ps !! id) as [p|] eqn:Hp; [|done]. destruct (Hps id p) as (Hw & Hne & Hdi); [left|done|].
  intros ([[insts1 l'] c1] & E1 & ([[insts2 ps2] c2] & E2 & [= <- <- <-])%outcome_bind_Ok)%outcome_bind_Ok.
  eapply follows_app; [by eapply (withdrawMatched_follows _ _ _ p [])|]. eapply IH; [|done].
  intros id' p' Hin Hp'. rewrite lookup_insert_ne in Hp' by (intros ->; done). by apply (Hps id'); [right|].
Qed.

Lemma withdrawAllMatchedOrders_follows shardOf limit ps insts ps' :
  wf_exchange ps → (∀ id p, ps !! id = Some p → distinct_orders p) →
  withdrawAllMatchedOrders shardOf limit ps = Ok (insts, ps') → follows (λ _, trimmed) ps insts ps'.
Proof.
  intros Hwf Hd. unfold withdrawAllMatchedOrders.
  intros ([[insts1 ps1] c1] & E1 & [= <- <-])%outcome_bind_Ok.
  eapply withdrawMatchedPools_follows; [apply (NoDup_sortedKeys ps)| |done]. intros id p _ Hp.
  split; [exact (we_books _ Hwf _ _ Hp)|]. split; [|by eapply Hd].
  destruct (we_pools _ Hwf _ _ Hp) as [Hw _]. apply (wst_tokens _ Hw).
Qed.

(** New orders enter the processor's books only. *)
Definition newOrder (id : string) (i : Instruction) : option Pdexv3Order :=
  match i with
  | AcceptedAddOrderInst md _ _ => if decide (ao_PoolPairID md = id) then Some (orderOf md) else None
  | _ => None
  end.

Definition insertAll (l : list Pdexv3Order) (new : list Pdexv3Order) : list Pdexv3Order :=
  foldl (λ l o, orders (InsertOrder o (mkOrderbook l))) l new.

Definition withNew (R : books) (insts : list Instruction) : books := λ id l l',
  ∃ l0, R id l l0 ∧ l' = insertAll l0 (omap (newOrder id) insts).

Lemma processAddOrder_agrees R ps t md tx shard : pools_agree R ps (poolPairs t) →
  is_Some (ps !! ao_PoolPairID md) →
  ∃ qs', process1 (AcceptedAddOrderInst md tx shard) t = Ok (with_pools qs' t) ∧
    pools_agree (withNew R [AcceptedAddOrderInst md tx shard]) ps qs'.
Proof.
  intros Ht [p Hp]. destruct (pools_agree_some _ _ _ _ _ Ht Hp) as (q & Hq & Hpq).
  cbn [processInstruction]. unfold processAddOrder. rewrite Hq. cbn [setPools mbind outcome_bind].
  eexists. split; [done|]. intros id. unfold withNew. cbn [omap list_omap newOrder].
  destruct (decide (ao_PoolPairID md = id)) as [<-|Hne].
  - rewrite Hp, lookup_insert_eq. constructor. destruct Hpq as [v b Hv HR].
    apply (agrees_intro _ v (InsertOrder (orderOf md) b)); [done| |done].
    exists (orders b). split; [done|]. by destruct b.
  - rewrite lookup_insert_ne by done. specialize (Ht id). destruct Ht as [p' q' [v b Hv HR]|]; constructor.
    constructor; [done|]. by eexists.
Qed.

Lemma withNew_app R a b id l l' : withNew (withNew R a) b id l l' → withNew R (a ++ b) id l l'.
Proof.
  intros (l1 & (l0 & H0 & ->) & ->). exists l0. split; [done|]. unfold insertAll.
  by rewrite omap_app, foldl_app.
Qed.

Lemma addOrder_agrees R ps insts t : Forall (placed ps) insts → Forall (λ i, isAddOrder i = true ∨ inert i) insts →
  pools_agree R ps (poolPairs t) →
  ∃ qs', process insts t = Ok (with_pools qs' t) ∧ pools_agree (withNew R insts) ps qs'.
Proof.
  intros Hpl. revert R t. induction Hpl as [|i insts Hi Hpl IH]; intros R t Hin Ht; cbn [processInstructions].
  { exists (poolPairs t). split; [by destruct t|]. eapply pools_agree_mono; [|done]. intros id l l' HR. by exists l'. }
  apply Forall_cons in Hin as [Hi' Hin].
  assert (∃ qs1, process1 i t = Ok (with_pools qs1 t) ∧ pools_agree (withNew R [i]) ps qs1) as (qs1 & -> & H1).
  { destruct (isAddOrder i) eqn:Ei; [destruct i; try done|].
    - apply processAddOrder_agrees; [done|]. apply Hi.
    - destruct Hi' as [?|Hi']; [done|]. exists (poolPairs t). rewrite Hi'. split; [by destruct t|].
      eapply pools_agree_mono; [|done]. intros id l l' HR. exists l'. split; [done|]. by destruct i. }
  destruct (IH (withNew R [i]) (with_pools qs1 t) Hin H1) as (qs' & E & H2). exists qs'.
  cbn [mbind outcome_bind]. rewrite E. split; [by destruct t|].
  eapply pools_agree_mono; [|done]. intros id l l' H. by apply (withNew_app R [i] insts).
Qed.

Lemma addOrder_inert params nfts ps txs counts insts counts' :
  addOrder params nfts ps txs counts = Ok (insts, counts') →
  Forall (λ i, isAddOrder i = true ∨ inert i) insts.
Proof.
  revert counts insts. induction txs as [|tx txs IH]; intros counts insts; cbn [addOrder].
  { by intros [= <- <-]. }
  intros ([insts1 c1] & E1 & ([insts2 c2] & E2 & [= <- <-])%outcome_bind_Ok)%outcome_bind_Ok.
  apply Forall_app. split; [|by eapply IH]. clear IH E2. unfold addOrderTx in E1.
  apply outcome_bind_Ok in E1 as (refund & Er & E1).
  assert (Href : Forall (λ i, isAddOrder i = true ∨ inert i) refund).
  { unfold getRefundedAddOrderInstructions in Er. repeat case_match; simplify_eq; try done; (constructor; [by right|done]). }
  repeat case_match; simplify_eq; try done; (constructor; [by left|done]).
Qed.

(** ** Block rewards *)
Definition follows1 (R : books) (id : string) (p : PoolPairState) (insts : list Instruction)
    (p' : PoolPairState) : Prop :=
  ∀ ps, ps !! id = Some p → follows R ps insts (<[id := p']> ps).

Lemma follows1_nil R id p : follows1 R id p [] p.
Proof. intros ps Hp. rewrite insert_id by done. apply follows_nil. Qed.

Lemma follows1_app R id p a p1 b p2 : follows1 R id p a p1 → follows1 R id p1 b p2 →
  follows1 R id p (a ++ b) p2.
Proof.
  intros H1 H2 ps Hp. eapply follows_app; [by apply H1|].
  rewrite <-(insert_insert_eq ps id p2 p1). apply H2. by rewrite lookup_insert_eq.
Qed.

Lemma same_volumes_delete m m' tok : same_volumes m m' → same_volumes (delete tok m) (delete tok m').
Proof.
  intros H t. unfold volumesOf. rewrite !lookup_delete. case_decide; [done|]. apply H.
Qed.

Lemma mintOrderReward_follows R id tok making amt insts p lp insts' p' lp' : in_u64 amt →
  mintOrderReward id tok making amt (insts, p, lp) = Ok (insts', p', lp') →
  ∃ new, insts' = insts ++ new ∧ follows1 R id p new p' ∧ (lp' = lp ∨ lp' = lp - amt).
Proof.
  intros Ha. unfold mintOrderReward.
  assert (Hskip : (insts, p, lp) = (insts', p', lp') →
    ∃ new, insts' = insts ++ new ∧ follows1 R id p new p' ∧ (lp' = lp ∨ lp' = lp - amt)).
  { intros [= <- <- <-]. exists []. rewrite app_nil_r. split; [done|]. split; [apply follows1_nil|]. by left. }
  destruct (ps_makingVolume p !! making) as [mv|] eqn:Hmv; [|intros [= ???]; apply Hskip; congruence].
  case_bool_decide as Hne; [intros [= ???]; apply Hskip; congruence|].
  rewrite bigUint64_small by done. intros (rs & Hrs & [= <- <- <-])%outcome_bind_Ok.
  eexists. split; [done|]. split; [|by right]. intros ps Hp.
  eapply follows_pool with (f := λ q,
    match ps_makingVolume q !! making with
    | None => Panic
    | Some v =>
        orderRewards ← SplitOrderRewardLiquidityMining (volume v) amt tok;
        Ok (ps_with_makingVolume (delete making (ps_makingVolume q))
              (ps_with_orderRewards (creditOrders tok orderRewards (ps_orderRewards q)) q))
    end); [done|..].
  - intros t q q' Hq Hf. cbn [processInstructions processInstruction].
    unfold processDistributeMiningOrderReward. rewrite Hq. destruct (ps_makingVolume q !! making); [|done].
    apply outcome_bind_Ok in Hf as (rs' & -> & [= <-]). by destruct t.
  - intros q [v b Hv HR]. cbn [dress ps_makingVolume].
    assert (v !! making = Some mv) as ->.
    { specialize (Hv making). unfold volumesOf in Hv. rewrite Hmv in Hv. cbn in Hv.
      destruct (v !! making); cbn in Hv; [by rewrite Hv|]. by rewrite <-Hv in Hne. }
    rewrite Hrs. eexists. split; [done|]. cbn.
    apply (agrees_intro _ (delete making v) b); [by apply same_volumes_delete|done|done].
Qed.

Lemma mintPair_follows R tok amount total params lm id p insts p' :
  (let bps := default 0 (OrderLiquidityMiningBPS params !! id) in 0 ≤ bps ∧ 2 * bps < BPS) →
  mintPair tok amount total params lm id p = Ok (insts, p') → follows1 R id p insts p'.
Proof.
  intros Hbps. unfold mintPair. set (bps := default 0 (OrderLiquidityMiningBPS params !! id)) in *.
  intros (r & _ & H)%outcome_bind_Ok. destruct (isU64 r) eqn:Hr; [|done]. apply in_u64_iff in Hr. cbn [negb] in H.
  case_match; [injection H as <- <-; apply follows1_nil|].
  apply outcome_bind_Ok in H as ([[i2 p2] lp] & Hord & [= <- <-]).
  assert (follows1 R id p i2 p2 ∧ 0 ≤ lp ≤ r) as [F2 Hlp].
  { unfold in_u64 in Hr. destruct (lm && (0 <? bps)).
    - rewrite bigDiv_pos in Hord by done. cbn [mbind outcome_bind] in Hord.
      assert (Hamt : 0 ≤ r * bps / BPS ∧ 2 * (r * bps / BPS) ≤ r).
      { unfold BPS in *. pose proof (div_spec (r * bps) 10000 ltac:(lia)).
        split; [apply div_nonneg; nia|nia]. }
      apply outcome_bind_Ok in Hord as ([[i1 p1] l1] & E1 & E2).
      apply (mintOrderReward_follows R) in E1 as (n1 & -> & F1 & L1); [|unfold in_u64; lia].
      apply (mintOrderReward_follows R) in E2 as (n2 & -> & F2 & L2); [|unfold in_u64; lia].
      split; [by eapply follows1_app|lia].
    - injection Hord as <- <- <-. split; [apply follows1_nil|lia]. }
  eapply follows1_app; [done|]. intros ps Hp. eapply follows_pool with (f := λ q,
    Ok (ps_with_lmRewardsPerShare (AddLMRewards (ps_state q) tok lp BaseLPFeesPerShare
          (ps_lmRewardsPerShare q)) q)); [done|..].
  - intros t q q' Hq [= <-]. cbn [processInstructions processInstruction]. unfold processMintBlockReward.
    rewrite Hq, bigUint64_small by (unfold in_u64 in *; lia). by destruct t.
  - intros q [v b Hv HR]. eexists. split; [done|]. by apply (agrees_intro _ v b).
Qed.

Lemma mintReward_follows R tok amount params ps lm insts ps' :
  (∀ k r, OrderLiquidityMiningBPS params !! k = Some r → 0 ≤ r ∧ 2 * r < BPS) →
  mintReward tok amount params ps lm = Ok (insts, ps') → follows R ps insts ps'.
Proof.
  intros Hbps. unfold mintReward. generalize (totalShare (PDEXRewardPoolPairsShare params)) as total.
  generalize (sortedKeys (PDEXRewardPoolPairsShare params)) as keys. intros keys total.
  revert ps insts. induction keys as [|k keys IH]; intros ps insts; cbn [mintLoop].
  { intros [= <- <-]. apply follows_nil. }
  destruct (ps !! k) as [p|] eqn:Hp; [|done].
  intros ([insts1 p1] & E1 & ([insts2 ps2] & E2 & [= <- <-])%outcome_bind_Ok)%outcome_bind_Ok.
  eapply follows_app; [|by apply IH]. eapply mintPair_follows; [|done|done].
  destruct (OrderLiquidityMiningBPS params !! k) as [r|] eqn:E; cbn; [by eapply Hbps|]. unfold BPS. lia.
Qed.
End processing.
