(* ===== verification/StateAgreement.v ===== *)
(** The producer and the processor agree, continued: staking, contributions, NFTs,
    inscriptions and parameters, which concern more of the state than the pools; and trades.
    An accepted trade's instruction records the changes of the reserves, the changes of each
    order and the rewards of the pools; the processor applies them without trading again. *)
From S2P Require Import Prelude Hash RawDB Swap Order Reserve OrderBook Trade Reward TrackFee PdexUtils PoolPair Staking Params WeightedFee Instructions LiquidityProducer TradeProducer OrderProducer RewardProducer StakingProducer StateV2 Processor Market Solvency Agreement.

Local Open Scope Z_scope.

(** ** The record of a book

    What a trade enters for the orders of a book is exactly what it does to them: the book
    after the trade is the book before it with the recorded changes applied. *)
Definition addBalances (c : Z * Z) (o : Pdexv3Order) : Pdexv3Order :=
  SetToken1Balance (ord_token1Balance o + c.2) (SetToken0Balance (ord_token0Balance o + c.1) o).

Definition withChange (m : gmap string (Z * Z)) (o : Pdexv3Order) : Pdexv3Order :=
  addBalances (default (0, 0) (m !! ord_id o)) o.

Lemma addBalances_zero o : addBalances (0, 0) o = o.
Proof. destruct o. unfold addBalances, SetToken1Balance, SetToken0Balance. cbn. by rewrite !Z.add_0_r. Qed.

Lemma withChange_none m o : m !! ord_id o = None → withChange m o = o.
Proof. intros E. unfold withChange. rewrite E. apply addBalances_zero. Qed.

Lemma withChange_ids m (l : list Pdexv3Order) : ord_id <$> (withChange m <$> l) = ord_id <$> l.
Proof. rewrite <-list_fmap_compose. by apply list_fmap_ext. Qed.

(** One more change. *)
Lemma withChange_insert m id c (l : list Pdexv3Order) i o : NoDup (ord_id <$> l) → l !! i = Some o → ord_id o = id →
  m !! id = None →
  withChange (<[id := c]> m) <$> l = <[i := addBalances c o]> (withChange m <$> l).
Proof.
  intros Hd Hi <- Hm. apply list_eq. intros j. rewrite list_lookup_fmap.
  destruct (decide (i = j)) as [<-|Hne].
  - rewrite list_lookup_insert_eq by (rewrite length_fmap; by eapply lookup_lt_Some).
    rewrite Hi. cbn. unfold withChange. by rewrite lookup_insert_eq.
  - rewrite list_lookup_insert_ne by done. rewrite list_lookup_fmap.
    destruct (l !! j) as [x|] eqn:Hj; [|done]. cbn. unfold withChange.
    rewrite lookup_insert_ne; [done|]. intros E. apply Hne.
    eapply (NoDup_lookup _ i j (ord_id o) Hd); rewrite list_lookup_fmap, ?Hi, ?Hj; cbn; congruence.
Qed.

Lemma Match_applies d sell o buy remain c0 c1 o' : Match sell d o = (Ok (buy, remain, c0, c1), o') →
  ApplyBalanceChanges c0 c1 o = (Ok tt, o').
Proof.
  intros H. unfold Match in H. rewrite getS_bind in H.
  apply M_bind_Ok in H as (q & s1 & [_ <-]%pair_eq & H).
  apply M_bind_Ok in H as ([[b fs] rem] & o1 & Hx & H).
  assert (o1 = o) as ->.
  { clear H. inv_ok; done. }
  destruct (matchChanges d fs b) as [y0 y1].
  by apply M_bind_Ok in H as ([] & o2 & Hcall & [= <- <- <- <- <-]).
Qed.

(** The changes entered so far, and the orders they belong to. *)
Record recorded (l : list Pdexv3Order) (b : Orderbook) (oc : gmap string (Z * Z)) : Prop := {
  rc_book : orders b = withChange oc <$> l;
  rc_orders : ∀ id c, oc !! id = Some c → ∃ i o, l !! i = Some o ∧ ord_id o = id ∧
    ApplyBalanceChanges c.1 c.2 o = (Ok tt, addBalances c o) }.

(** An order that has been changed is not matched again. *)
Definition matched_once (d : Z) (b : Orderbook) (oc : gmap string (Z * Z)) : Prop :=
  ∀ o, o ∈ orders b → is_Some (oc !! ord_id o) → CanMatch o d ≠ Ok true.

Lemma orderStep_recorded d sell0 p0 b0 l h o s s' : dir_ok d → in_u64 sell0 →
  trading d sell0 p0 b0 s → NoDup (ord_id <$> l) → recorded l (pt_book s) (pt_orderChanges s) →
  matched_once d (pt_book s) (pt_orderChanges s) →
  orders (pt_book s) !! h = Some o → wf_order o → CanMatch o d = Ok true →
  orderStep overwriteChange d h (ord_id o) o s = Ok s' →
  recorded l (pt_book s') (pt_orderChanges s') ∧
  (pt_sellAmountRemain s' ≠ 0 → matched_once d (pt_book s') (pt_orderChanges s')).
Proof.
  intros Hd Hs0 [] Hdi [Hb Ho] Hm Hat Hwo Hcan Hstep. unfold orderStep in Hstep.
  apply outcome_bind_Ok in Hstep as ([[[[buy rem] c0] c1] o'] & Hrun & Hstep).
  apply runM_Ok in Hrun. unfold in_u64 in Hs0. destruct (add64 _ buy <? _); [done|]. injection Hstep as <-.
  edestruct Match_matched as [? ? ? ? ? ? ? ? ? ? Hdrain];
    [exact Hd|exact Hwo| |exact Hrun|]; [unfold in_u64; lia|].
  pose proof (Match_applies _ _ _ _ _ _ _ _ Hrun) as Happ.
  assert (Eo' : o' = addBalances (c0, c1) o) by (by apply ApplyBalanceChanges_ok in Happ as (_ & _ & _ & ->)).
  assert (Hnone : pt_orderChanges s !! ord_id o = None).
  { destruct (pt_orderChanges s !! ord_id o) eqn:E; [|done]. destruct (Hm o); [|by eexists|done].
    by eapply list_elem_of_lookup_2. }
  assert (Hl : l !! h = Some o).
  { pose proof Hat as Hat'. rewrite Hb, list_lookup_fmap in Hat'. apply fmap_Some in Hat' as (x & Hx & ->).
    rewrite Hx. f_equal. symmetry. by apply withChange_none. }
  cbn [pt_book pt_orderChanges putOrder Orderbook_iterator orders pt_sellAmountRemain overwriteChange].
  split; [split|].
  - cbn [orders]. rewrite (withChange_insert _ _ _ _ h o), <-Hb, Eo'; done.
  - intros id c. rewrite lookup_insert. case_decide as E; [|apply Ho]. intros [= <-]. exists h, o.
    split; [done|]. split; [done|]. rewrite Eo' in Happ. exact Happ.
  - intros Hr x (j & Hj)%list_elem_of_lookup Hx. cbn [orders] in Hj.
    apply list_lookup_insert_Some in Hj as [(<- & -> & _)|(Hne & Hj)].
    + rewrite CanMatch_drained; [done..|]. destruct Hdrain as [-> _]; lia.
    + apply Hm; [by eapply list_elem_of_lookup_2|]. rewrite lookup_insert_ne in Hx; [done|].
      intros E. apply Hne. assert (Hids : NoDup (ord_id <$> orders (pt_book s))) by (by rewrite Hb, withChange_ids).
      eapply (NoDup_lookup _ h j (ord_id o) Hids); rewrite list_lookup_fmap, ?Hat, ?Hj; cbn; congruence.
Qed.

Lemma poolLoop_recorded d sell0 p0 b0 l fuel s s' : dir_ok d → in_u64 sell0 →
  trading d sell0 p0 b0 s → NoDup (ord_id <$> l) → recorded l (pt_book s) (pt_orderChanges s) →
  matched_once d (pt_book s) (pt_orderChanges s) →
  poolLoop fuel overwriteChange d s = Ok s' → recorded l (pt_book s') (pt_orderChanges s').
Proof.
  intros Hd Hs0. revert s. induction fuel as [|fuel IH]; intros s Htr Hdi Hrec Hm Hrun; [done|].
  cbn [poolLoop] in Hrun. destruct (next_returns (pt_book s) d (tr_book _ _ _ _ _ Htr) Hd) as [next Hn].
  rewrite Hn in Hrun.
  apply outcome_bind_Ok in Hrun as (order & Hder & Hrun).
  apply outcome_bind_Ok in Hrun as (s1 & Hps & Hrun).
  destruct (poolStep_trading _ _ _ _ _ _ _ Hd Hs0 Htr Hps) as (Htr1 & Hbk & Hnone).
  assert (Hoc : pt_orderChanges s1 = pt_orderChanges s).
  { unfold poolStep in Hps. apply outcome_bind_Ok in Hps as ([[[[? ?] ?] ?] ?] & _ & Hps).
    destruct (_ <? _); [done|]. by injection Hps as <-. }
  rewrite <-Hbk, <-Hoc in Hrec, Hm.
  destruct (pt_sellAmountRemain s1 =? 0) eqn:E1; [by injection Hrun as <-|].
  destruct next as [[h id]|]; cbn [derefOrder] in Hder; [|injection Hder as <-; rewrite Hnone in E1; done].
  destruct (next_order _ _ _ _ (tr_book _ _ _ _ _ Htr) Hd Hn) as (o & Hat & <- & Hwo & Hcan).
  rewrite Hat in Hder. injection Hder as <-.
  apply outcome_bind_Ok in Hrun as (s2 & Hos & Hrun). rewrite <- Hbk in Hat.
  destruct (orderStep_recorded d sell0 p0 b0 l h o s1 s2 Hd Hs0 Htr1 Hdi Hrec Hm Hat Hwo Hcan Hos) as [Hrec2 Hm2].
  destruct (orderStep_trading _ _ _ _ _ _ _ _ _ _ Hd Hs0 Htr1 Hat Hwo Hcan Hos) as [Htr2 _].
  destruct (pt_sellAmountRemain s2 =? 0) eqn:E2; [by injection Hrun as <-|].
  apply (IH s2); try done. apply Hm2. lia.
Qed.

Lemma enterPool_recorded d p b sell : recorded (orders b) (pt_book (enterPool p b sell ∅))
  (pt_orderChanges (enterPool p b sell ∅)) ∧
  matched_once d (pt_book (enterPool p b sell ∅)) (pt_orderChanges (enterPool p b sell ∅)).
Proof.
  cbn. split; [split|].
  - symmetry. rewrite <-(list_fmap_id (orders b)) at 2. apply list_fmap_ext. intros _ o _. by apply withChange_none.
  - done.
  - intros o _ [x Hx]. done.
Qed.

(** ** The processor's book *)
Lemma trimmed_ids l l' id : trimmed l l' → id ∈ ord_id <$> l' → id ∈ ord_id <$> l.
Proof. induction 1; cbn [fmap list_fmap]; set_solver. Qed.

Lemma trimmed_NoDup l l' : trimmed l l' → NoDup (ord_id <$> l) → NoDup (ord_id <$> l').
Proof.
  induction 1 as [|o l l' H IH|o l l' _ H IH]; cbn [fmap list_fmap]; [done|..]; intros [Hn Hd]%NoDup_cons.
  - apply NoDup_cons. split; [|by apply IH]. intros Hin. apply Hn. by eapply trimmed_ids.
  - by apply IH.
Qed.

Lemma findOrder_lookup l i o : NoDup (ord_id <$> l) → l !! i = Some o → findOrder (ord_id o) l = Some (i, o).
Proof.
  intros Hd Hi. pose proof (findOrder_middle (take i l) (drop (S i) l) o) as H.
  rewrite take_drop_middle in H by done. rewrite (H Hd), length_take_le; [done|].
  apply lookup_lt_Some in Hi. lia.
Qed.

Lemma lastOrder_none id l : id ∉ ord_id <$> l → lastOrder id l = None.
Proof.
  induction l as [|a l IH]; cbn [lastOrder fmap list_fmap]; [done|]. intros [Hne Hn]%not_elem_of_cons.
  rewrite IH by done. by destruct (String.eqb_spec (ord_id a) id).
Qed.

Lemma lastOrder_find id l i o : NoDup (ord_id <$> l) → findOrder id l = Some (i, o) →
  lastOrder id l = Some i ∧ l !! i = Some o.
Proof.
  intros Hd Hf. split; [|by apply findOrder_spec in Hf as [? _]]. revert i Hd Hf.
  induction l as [|a l IH]; cbn [lastOrder findOrder fmap list_fmap]; [done|]. intros i [Hn Hd]%NoDup_cons.
  destruct (String.eqb_spec (ord_id a) id) as [<-|Hne].
  - intros [= <- <-]. by rewrite lastOrder_none.
  - destruct (findOrder id l) as [[i' o']|]; [|done]. intros [= <- <-]. by rewrite (IH i').
Qed.

(** A change that takes something from the order it belongs to. *)
Definition takes (c : Z * Z) (o : Pdexv3Order) : Prop :=
  ApplyBalanceChanges c.1 c.2 o = (Ok tt, addBalances c o) ∧ (c.1 < 0 ∨ c.2 < 0).

Lemma takes_not_spent c o : takes c o → ¬ spentOrder o.
Proof.
  intros [Ha Hneg] [E0 E1]. apply ApplyBalanceChanges_ok in Ha as (_ & H0 & H1 & _).
  unfold in_u64 in *. lia.
Qed.

Lemma applyOrderChanges_trimmed (changes : list (string * (Z * Z))) m l l' :
  NoDup (ord_id <$> l) → NoDup changes.*1 → (∀ id, id ∈ changes.*1 → m !! id = None) →
  Forall (λ ic, ∃ i o, l !! i = Some o ∧ ord_id o = ic.1 ∧ takes ic.2 o) changes →
  trimmed (withChange m <$> l) l' →
  ∃ l'', applyOrderChanges changes l' = Ok l'' ∧
    trimmed (withChange (list_to_map changes ∪ m) <$> l) l''.
Proof.
  intros Hdl. revert m l'. induction changes as [|[id c] changes IH]; intros m l' Hd Hm Hch Ht.
  { exists l'. split; [done|]. cbn. by rewrite map_empty_union. }
  cbn [fmap list_fmap fst] in Hd, Hm. apply NoDup_cons in Hd as [Hn Hd].
  apply Forall_cons in Hch as [(i & o & Hi & Eid & Htk) Hch]. cbn [fst snd] in Eid, Htk.
  assert (Hmid : m !! id = None) by (apply Hm; left).
  assert (Hcur : (withChange m <$> l) !! i = Some o).
  { rewrite list_lookup_fmap, Hi. cbn. by rewrite withChange_none by (by rewrite Eid). }
  assert (Hids : NoDup (ord_id <$> (withChange m <$> l))) by (by rewrite withChange_ids).
  pose proof (findOrder_lookup _ _ _ Hids Hcur) as Hf. rewrite Eid in Hf.
  destruct (trimmed_find _ _ _ _ _ Ht Hf (takes_not_spent _ _ Htk)) as (j & Hj & Hput).
  destruct (lastOrder_find _ _ _ _ (trimmed_NoDup _ _ Ht Hids) Hj) as [Hlast Hlj].
  cbn [applyOrderChanges]. rewrite Hlast, Hlj. destruct Htk as [Happ _]. unfold runM. rewrite Happ.
  cbn [mbind outcome_bind snd].
  destruct (IH (<[id := c]> m) (<[j := addBalances c o]> l') Hd) as (l'' & -> & Hl''); [|done| |].
  - intros id' Hin. rewrite lookup_insert_ne by (intros ->; done). apply Hm. by right.
  - rewrite (withChange_insert m id c l i o) by done. apply Hput.
  - exists l''. split; [done|]. cbn [list_to_map foldr]. fold (list_to_map (M := gmap string (Z * Z)) changes).
    rewrite <-insert_union_l, insert_union_r; [done|]. by apply not_elem_of_list_to_map.
Qed.

Lemma applyOrderChanges_recorded l l' b oc : NoDup (ord_id <$> l) → trimmed l l' → recorded l b oc →
  (∀ id c, oc !! id = Some c → c.1 < 0 ∨ c.2 < 0) →
  ∃ l'', applyOrderChanges (map_to_list oc) l' = Ok l'' ∧ trimmed (orders b) l''.
Proof.
  intros Hd Ht [Hb Ho] Hneg.
  destruct (applyOrderChanges_trimmed (map_to_list oc) ∅ l l' Hd) as (l'' & E & Hl).
  - apply NoDup_fst_map_to_list.
  - done.
  - apply Forall_forall. intros [id c] Hin%elem_of_map_to_list. destruct (Ho _ _ Hin) as (i & o & ? & ? & ?).
    exists i, o. split; [done|]. split; [done|]. split; [done|]. by eapply Hneg.
  - replace (withChange ∅ <$> l) with l; [done|]. rewrite <-(list_fmap_id l) at 1.
    apply list_fmap_ext. intros _ o _. symmetry. by apply withChange_none.
  - exists l''. split; [done|]. by rewrite Hb, <-(list_to_map_to_list oc), <-(map_union_empty (list_to_map _)).
Qed.

(** The owners of the orders a trade changed are the same in both books. *)
Lemma NftIDs_lookup l o : NoDup (ord_id <$> l) → o ∈ l →
  Orderbook_NftIDs (mkOrderbook l) !! ord_id o = Some (Hash_String (ord_nftID o)).
Proof.
  unfold Orderbook_NftIDs. cbn [orders]. induction l as [|x l IH] using rev_ind; [set_solver|].
  rewrite fmap_app, foldl_app. cbn [fmap list_fmap foldl]. intros (Hd & Hx & _)%NoDup_app Hin.
  apply elem_of_app in Hin as [Hin|Hin].
  - rewrite lookup_insert_ne; [by apply IH|]. intros E. apply (Hx (ord_id o)); [|rewrite E; by left].
    apply list_elem_of_fmap. by exists o.
  - apply list_elem_of_singleton in Hin as ->. by rewrite lookup_insert_eq.
Qed.

Lemma trimmed_elem l l' o : trimmed l l' → o ∈ l → ¬ spentOrder o → o ∈ l'.
Proof. induction 1; set_solver. Qed.

Lemma recorded_nfts l l' b oc id : NoDup (ord_id <$> l) → trimmed l l' → recorded l b oc →
  (∀ id c, oc !! id = Some c → c.1 < 0 ∨ c.2 < 0) → is_Some (oc !! id) →
  Orderbook_NftIDs (mkOrderbook l') !! id = Orderbook_NftIDs b !! id.
Proof.
  intros Hd Ht [Hb Ho] Hneg [c Hc]. destruct (Ho _ _ Hc) as (i & o & Hi & <- & Happ).
  assert (Hin : o ∈ l) by by eapply list_elem_of_lookup_2.
  rewrite (NftIDs_lookup l' o); [|by eapply trimmed_NoDup|eapply trimmed_elem; [done|done|]];
    [|eapply takes_not_spent; split; [done|by eapply Hneg]].
  destruct b as [lb]. cbn [orders] in Hb. subst lb.
  pose proof (NftIDs_lookup (withChange oc <$> l) (withChange oc o)) as H.
  rewrite withChange_ids in H. symmetry. apply H; [done|]. by apply list_elem_of_fmap_2.
Qed.

(** ** One pool *)
Lemma addMakingVolume_volumes base making vols t :
  volumesOf t (addMakingVolume base {[making := vols]}) =
  if decide (making = t) then map_fold MakingVolume_AddVolume (volumesOf making base) vols
  else volumesOf t base.
Proof.
  unfold addMakingVolume. rewrite map_fold_singleton.
  induction vols as [|k v vols Hk Hf IH] using map_first_key_ind.
  { rewrite !map_fold_empty. by case_decide; subst. }
  rewrite !map_fold_insert_first_key by done. revert IH. set (m := map_fold _ base vols). clearbody m.
  unfold volumesOf. rewrite lookup_insert. case_decide; [subst t; intros IH; cbn; by rewrite IH|done].
Qed.

Lemma GetMakingVolumes_ext pc oc nfts nfts' :
  (∀ id, is_Some (oc !! id) → nfts !! id = nfts' !! id) →
  GetMakingVolumes pc oc nfts = GetMakingVolumes pc oc nfts'.
Proof.
  intros H. unfold GetMakingVolumes. f_equal. f_equal. revert H.
  induction oc as [|id c oc Hid Hf IH] using map_first_key_ind; intros H; [by rewrite !map_fold_empty|].
  rewrite !map_fold_insert_first_key by done. rewrite IH.
  - by rewrite H by (rewrite lookup_insert_eq; by eexists).
  - intros i [x Hi]. apply H. rewrite lookup_insert_ne by congruence. by eexists.
Qed.

(** The recorded changes of the reserves are those the trade made. *)
Lemma ApplyReserveChanges_total c0 c1 p : ((c0 = 0 ∧ c1 = 0) ∨ c0 * c1 < 0) →
  in_u64 (pp_token0RealAmount p + c0) → in_u64 (pp_token1RealAmount p + c1) →
  ApplyReserveChanges c0 c1 p = (Ok tt, mkPoolPair (pp_shareAmount p) (pp_lmLockedShareAmount p)
    (pp_token0ID p) (pp_token1ID p) (pp_token0RealAmount p + c0) (pp_token1RealAmount p + c1)
    (pp_token0VirtualAmount p + c0) (pp_token1VirtualAmount p + c1) (pp_amplifier p)).
Proof.
  intros Hs H0 H1. unfold ApplyReserveChanges. rewrite (proj2 (invalidSigns_false c0 c1)) by done.
  unfold getS, modifyS, mbind, M_bind. rewrite (proj2 (Z.ltb_ge _ 0)) by apply H0.
  rewrite (proj2 (in_u64_iff _) H0). cbn. rewrite (proj2 (Z.ltb_ge _ 0)) by apply H1.
  rewrite (proj2 (in_u64_iff _) H1). cbn. by rewrite !bigUint64_small.
Qed.

Lemma reserves_recorded d x p (b : Orderbook) s : dir_ok d → trading d x p b s → made d x s →
  ApplyReserveChanges (pt_token0Change s) (pt_token1Change s) p = (Ok tt, pt_pair s).
Proof.
  intros Hd [] [(f & g & Efg & Hsg) _ _]. destruct tr_same as (? & ? & ? & ? & ?). destruct tr_wf.
  assert (E : pt_token0Change s = pp_token0RealAmount (pt_pair s) - pp_token0RealAmount p ∧
    pt_token1Change s = pp_token1RealAmount (pt_pair s) - pp_token1RealAmount p ∧
    pp_token0VirtualAmount (pt_pair s) - pp_token0VirtualAmount p = pt_token0Change s ∧
    pp_token1VirtualAmount (pt_pair s) - pp_token1VirtualAmount p = pt_token1Change s).
  { by_dir d; cbn in tr_acc, tr_virt; injection tr_acc; lia. }
  assert (Hs : pt_token0Change s = 0 ∧ pt_token1Change s = 0 ∨ pt_token0Change s * pt_token1Change s < 0).
  { by_dir d; cbn in Efg; injection Efg; nia. }
  destruct E as (E0 & E1 & V0 & V1). unfold in_u64 in *.
  rewrite ApplyReserveChanges_total by (done || (unfold in_u64; lia)).
  destruct (pt_pair s) as [sh lk i0 i1 r0 r1 v0 v1 a]. cbn in *. subst. do 2 f_equal; lia.
Qed.

(** What a pool earns is booked alike on both sides. *)
Lemma bookReward_agrees params id p s v b fr tok reward :
  distinct_orders p → trimmed (orders (ps_orderbook p)) (orders b) → same_volumes (ps_makingVolume p) v →
  recorded (orders (ps_orderbook p)) (pt_book s) (pt_orderChanges s) →
  (∀ i c, pt_orderChanges s !! i = Some c → c.1 < 0 ∨ c.2 < 0) → in_u64 reward →
  distributeReward (feeConfig params) (mkFeePool id (pt_pair s) 0 (pt_book s) 0 (ps_lpFeesPerShare p)
    (ps_protocolFees p) (ps_stakingPoolFees p) (pt_token0Change s, pt_token1Change s) (pt_orderChanges s))
    tok reward = Ok fr →
  ∃ v', bookReward params id (pt_token0Change s, pt_token1Change s) (pt_orderChanges s) tok reward
      (ps_with_state (pt_pair s) (dress v b p)) = Ok (dress v' b (changedPool params id p fr)) ∧
    same_volumes (ps_makingVolume (changedPool params id p fr)) v'.
Proof.
  intros Hdi Ht Hv Hrec Hneg Hr. unfold distributeReward, bookReward, changedPool.
  cbn [fp_pathID fp_pair fp_protocolFees fp_stakingPoolFees fp_pairChange fp_orderChange fp_book
    fc_defaultOrderTradingRewardRatioBPS fc_orderTradingRewardRatioBPS feeConfig fc_protocolFeePercent
    fc_stakingPoolRewardPercent fc_stakingRewardTokens fc_bps fc_baseLPPerShare fp_lpFeesPerShare
    dress ps_with_state ps_state ps_protocolFees ps_stakingPoolFees ps_orderbook ps_makingVolume
    ps_shares ps_orderRewards ps_lpFeesPerShare ps_lmRewardsPerShare ps_lmLockedShare NftIDs Orderbook_iterator].
  destruct (AddStakingAndProtocolFee _ _ _ _ _ _ _ _) as [[pf sf] remain].
  rewrite (GetMakingVolumes_ext _ _ (Orderbook_NftIDs (pt_book s)) (Orderbook_NftIDs b)).
  2: { intros i Hi. symmetry. destruct b as [lb]. by apply (recorded_nfts (orders (ps_orderbook p)) lb _ (pt_orderChanges s)). }
  destruct (GetMakingVolumes _ _ _) as [[amm vols] dir].
  set (making := if dir =? TradeDirectionSell0 then _ else _).
  intros ([ammReward rs] & -> & [= <-])%outcome_bind_Ok. cbn [mbind outcome_bind fr_lpFeesPerShare fr_protocolFees
    fr_stakingPoolFees fr_pair fr_orderRewardChanges fr_orderMakingChanges fr_book].
  rewrite addOrderReward_credit. eexists. split; [reflexivity|].
  destruct (bool_decide _ && _); [|done]. cbn [ps_makingVolume]. intros t. rewrite addMakingVolume_volumes.
  specialize (Hv t) as Hvt. unfold volumesOf in *. rewrite lookup_insert. case_decide as E; [|done].
  subst t. cbn. by rewrite Hvt.
Qed.

(** ** The path *)

(** What the pool of [fp] earned was booked on it by the producer. *)
Definition rewarded (params : Params) (fp : FeePool Orderbook) (fr : FeeResult Orderbook) : Prop :=
  ∃ tok reward, distributeReward (feeConfig params) fp tok reward = Ok fr ∧ in_u64 reward.

Lemma distributeReward_fields cfg (fp : FeePool Orderbook) tok reward fr :
  distributeReward cfg fp tok reward = Ok fr →
  fr_pair fr = fp_pair fp ∧ fr_book fr = fp_book fp ∧ fr_pairChange fr = fp_pairChange fp ∧
  fr_orderChange fr = fp_orderChange fp ∧ fr_rewardEarned fr = {[tok := bigUint64 reward]}.
Proof.
  unfold distributeReward. destruct (AddStakingAndProtocolFee _ _ _ _ _ _ _ _) as [[pf sf] remain].
  destruct (GetMakingVolumes _ _ _) as [[amm vols] dir]. by intros ([a rs] & _ & [= <-])%outcome_bind_Ok.
Qed.

Lemma made_takes d x (s : PoolTrade Orderbook) : dir_ok d → made d x s →
  ∀ i c, pt_orderChanges s !! i = Some c → c.1 < 0 ∨ c.2 < 0.
Proof.
  intros Hd [_ Ho _] i c Hc. destruct (Ho i c Hc) as (f & g & -> & ? & ?).
  by_dir d; cbn; lia.
Qed.

Lemma processTradePool_agrees params id p d x s fr q :
  dir_ok d → distinct_orders p → pool_done d x (ps_state p) (ps_orderbook p) s → made d x s →
  recorded (orders (ps_orderbook p)) (pt_book s) (pt_orderChanges s) →
  rewarded params (mkFeePool id (pt_pair s) d (pt_book s) (poolFeeOf params id) (ps_lpFeesPerShare p)
    (ps_protocolFees p) (ps_stakingPoolFees p) (pt_token0Change s, pt_token1Change s) (pt_orderChanges s)) fr →
  pool_agrees trimmed p q →
  ∃ q', processTradePool params id (fr_pairChange fr) (fr_orderChange fr) (fr_rewardEarned fr) q = Ok q' ∧
    pool_agrees trimmed (changedPool params id p fr) q'.
Proof.
  intros Hd Hdi [Htr _] Hm Hrec (tok & reward & Hdr & Hr) [v b Hv Ht].
  pose proof (distributeReward_fields _ _ _ _ _ Hdr) as (_ & Eb & -> & -> & ->).
  cbn [fp_pairChange fp_orderChange fp_book] in *. rewrite bigUint64_small by done.
  pose proof (made_takes d x s Hd Hm) as Hneg.
  unfold processTradePool. unfold runM. cbn [dress ps_state fst snd].
  rewrite (reserves_recorded d x _ _ s Hd Htr Hm). cbn [mbind outcome_bind snd].
  rewrite map_to_list_singleton. cbn [bookRewards].
  destruct (bookReward_agrees params id p s v b fr tok reward Hdi Ht Hv Hrec Hneg Hr Hdr) as (v' & Hbook & Hv').
  fold (dress v b p). rewrite Hbook. cbn [mbind outcome_bind dress ps_orderbook].
  destruct (applyOrderChanges_recorded _ _ _ _ Hdi Ht Hrec Hneg) as (l & El & Hl). rewrite El.
  cbn [mbind outcome_bind]. eexists. split; [done|].
  apply (agrees_intro _ v' (mkOrderbook l)); [done| |done]. cbn [changedPool ps_orderbook orders]. by rewrite Eb.
Qed.

Lemma processTrade_agrees params t x path pools dirs ss t' out frs ps ps' qs :
  executed t x path pools dirs ss t' out → NoDup path →
  Forall2 (λ id p, ps !! id = Some p) path pools → Forall distinct_orders pools →
  Forall2 (λ p s, recorded (orders (ps_orderbook p)) (pt_book s) (pt_orderChanges s)) pools ss →
  Forall2 (rewarded params) (fpsOf params path pools dirs ss) frs →
  applyTrade params path frs ps = Ok ps' → pools_agree (λ _, trimmed) ps qs →
  ∃ qs', processTrade params path (fr_pairChange <$> frs) (fr_orderChange <$> frs) (fr_rewardEarned <$> frs) qs =
      Ok qs' ∧ pools_agree (λ _, trimmed) ps' qs'.
Proof.
  intros Hex. revert frs ps qs. induction Hex as [t x|x id path p pools d dirs s ss t' out Hd Hw Hx Hx' Hdone Hm Hex IH];
    intros frs ps qs Hnd HF Hdi Hrec Hfr Happ Hag.
  { cbn in Happ. injection Happ as <-. by exists qs. }
  apply NoDup_cons in Hnd as [Hni Hnd]. apply Forall2_cons in HF as [Hp HF].
  apply Forall_cons in Hdi as [Hd1 Hdi]. apply Forall2_cons in Hrec as [Hr1 Hrec].
  cbn [fpsOf] in Hfr. apply Forall2_cons_inv_l in Hfr as (fr & frs' & Hrw & Hfr & ->).
  cbn [applyTrade] in Happ. rewrite Hp in Happ.
  destruct (pools_agree_some _ _ _ _ _ Hag Hp) as (q & Hq & Hpq).
  destruct (processTradePool_agrees params id p d x s fr q) as (q' & Eq & Hq'); [done..|].
  cbn [processTrade fmap list_fmap]. rewrite Hq, Eq. cbn [mbind outcome_bind].
  apply (IH frs' (<[id := changedPool params id p fr]> ps)); try done.
  - clear -HF Hni. induction HF as [|id' p' path pools Hp' _ IH]; constructor.
    + rewrite lookup_insert_ne; [done|]. intros ->. apply Hni. left.
    + apply IH. intros Hin. apply Hni. by right.
  - by apply pools_agree_insert.
Qed.

(** ** A trade request

    Of a fee that is paid in the sold token, every pool but the last of the path trades its
    part onwards, after the producer split the rewards by the volumes recorded so far; the
    processor splits by the volumes at the end.  The two agree on fees paid in PRV and on
    paths of one pool. *)
Definition simple_trade (inPRV : bool) (md : TradeRequest) : Prop :=
  inPRV = true ∨ tr_TokenToSell md = PRVCoinID ∨ (length (tr_TradePath md) ≤ 1)%nat.

Lemma accounted_rewarded params tok reward fp fr :
  accounted (feeConfig params) tok reward fp fr → rewarded params fp fr.
Proof.
  intros (Hd & _ & _ & E & _). exists tok, reward. split; [done|].
  apply distributeReward_fields in Hd as (_ & _ & _ & _ & E'). rewrite E' in E.
  apply (f_equal (λ m : gmap Hash Z, m !! tok)) in E. rewrite !lookup_singleton_eq in E.
  injection E as <-. apply u64_bound.
Qed.

Lemma TrackFee_rewarded params inPRV md t' pools dirs ss out recv amd' frs :
  wf_params params → wf_trade_request md → tr_TradePath md ≠ [] → simple_trade inPRV md →
  executed (tr_TokenToSell md) (tr_SellAmount md) (tr_TradePath md) pools dirs ss t' out →
  TrackFee (bookFuel (pt_book <$> ss)) (feeConfig params) (tr_TradingFee md) inPRV
    (tr_TokenToSell md) (tr_TradePath md) (pt_pair <$> ss) (ps_lpFeesPerShare <$> pools)
    (ps_protocolFees <$> pools) (ps_stakingPoolFees <$> pools) dirs (pt_book <$> ss)
    (poolFeeOf params <$> tr_TradePath md) (pathFeeRate params (tr_TradePath md))
    (mkAcceptedTrade recv out (tr_TradePath md) t'
      ((λ s, (pt_token0Change s, pt_token1Change s)) <$> ss) (pt_orderChanges <$> ss) []) = Ok (amd', frs) →
  Forall2 (rewarded params) (fpsOf params (tr_TradePath md) pools dirs ss) frs ∧
  at_TradePath amd' = tr_TradePath md ∧ at_PairChanges amd' = fr_pairChange <$> frs ∧
  at_OrderChanges amd' = fr_orderChange <$> frs ∧ at_RewardEarned amd' = fr_rewardEarned <$> frs.
Proof.
  intros Hpar [Hs0 Hfee Hlen _] Hne Hsimple Hex.
  destruct (pathFeeRate_sum params (tr_TradePath md) Hpar Hlen) as [-> Hrate].
  destruct (executed_fees params (bookFuel (pt_book <$> ss)) (tr_TokenToSell md) (tr_SellAmount md)
    (tr_TradePath md) pools dirs ss t' out) as (Hfps & Hwf & Hfs & L1 & L2 & L3);
    [intros id _; by destruct (wp_rate _ Hpar id)|intros b Hb d; by apply bookFuel_enough|done|].
  unfold TrackFee. rewrite !length_fmap, L1, Nat.eqb_refl. cbn [negb orb at_PairChanges at_OrderChanges].
  rewrite Hfps. cbn [mbind outcome_bind]. set (fps := fpsOf params _ _ _ _) in *.
  rewrite <-Hfs in *.
  assert (Hfne : fps ≠ []) by (unfold fps; by destruct Hex).
  intros (frs' & Hfrs & [= <- <-])%outcome_bind_Ok. split; [|done].
  destruct (inPRV || bool_decide (tr_TokenToSell md = PRVCoinID)) eqn:Hmode.
  - destruct (trackFeePRV_loop (feeConfig params) fps (tr_TradingFee md)) as (frs2 & rs & E & _ & HF);
      [apply Hpar|eapply Forall_impl; [done|by intros ? []]|done|done|].
    rewrite E in Hfrs. injection Hfrs as <-. clear -HF. induction HF; constructor; [|done].
    by eapply accounted_rewarded.
  - apply orb_false_iff in Hmode as [-> Hmode]. apply bool_decide_eq_false in Hmode.
    destruct Hsimple as [|[|Hone]]; [done..|].
    destruct (trackFeeToken_loop (bookFuel (pt_book <$> ss)) (feeConfig params) fps (tr_TradingFee md))
      as [_ Hok]; [apply Hpar|done..|]. specialize (Hok frs' Hfne Hfrs).
    assert (Hl : (length fps ≤ 1)%nat).
    { etrans; [|exact Hone]. unfold fps. clear. generalize (tr_TradePath md). intros path.
      revert pools dirs ss. induction path as [|id path IH]; intros [|p pools] [|d dirs] [|s ss]; cbn; try lia.
      specialize (IH pools dirs ss). lia. }
    destruct Hok as [fp fr remain Hacc|fp fps' ? ? ? ? ? ? Hne']; [|destruct fps'; [done|cbn in Hl; lia]].
    constructor; [by eapply accounted_rewarded|constructor].
Qed.

Lemma tradePath_recorded fuel seen t path pairs pools dirs t' x ss out :
  wf_exchange pairs → (∀ id p, pairs !! id = Some p → distinct_orders p) → in_u64 x → 0 < x →
  tradePathLoop seen t path pairs = Ok (pools, dirs, t') →
  tradePools fuel (zip3 (ps_state <$> pools) dirs (ps_orderbook <$> pools)) x x = Ok (ss, out) →
  Forall2 (λ p s, recorded (orders (ps_orderbook p)) (pt_book s) (pt_orderChanges s)) pools ss.
Proof.
  intros Hwf Hdi Hx Hpos Hpath Hrun. pose proof (tradePathLoop_spec seen t path pairs) as Hspec.
  rewrite Hpath in Hspec. destruct Hspec as (HF & _ & _ & Hds & Hlen). clear Hpath.
  revert path dirs x ss out HF Hds Hlen Hx Hpos Hrun.
  induction pools as [|p pools IH]; intros path dirs x ss out HF Hds Hlen Hx Hpos Hrun.
  { destruct dirs; [|done]. cbn in Hrun. injection Hrun as <- <-. constructor. }
  destruct dirs as [|d dirs]; [done|]. apply Forall_cons in Hds as [Hd Hds].
  apply Forall2_cons_inv_r in HF as (id & path' & Hp & HF & ->).
  cbn in Hrun. apply outcome_bind_Ok in Hrun as (s & Hs & Hrun).
  apply outcome_bind_Ok in Hrun as ([ss1 out1] & Ht & [= <- <-]).
  destruct (we_pools _ Hwf _ _ Hp) as [Hwp _]. pose proof (we_books _ Hwf _ _ Hp) as Hwb.
  assert (Hen : trading d x (ps_state p) (ps_orderbook p) (enterPool (ps_state p) (ps_orderbook p) x ∅))
    by (apply enterPool_trading; [done|apply Hwp|done|apply Hx]).
  destruct (enterPool_recorded d (ps_state p) (ps_orderbook p) x) as [Hr0 Hm0].
  pose proof (poolLoop_recorded _ _ _ _ _ _ _ _ Hd Hx Hen (Hdi _ _ Hp) Hr0 Hm0 Hs) as Hrec.
  constructor; [done|].
  assert (Hmd0 : made d x (enterPool (ps_state p) (ps_orderbook p) x ∅)).
  { split; cbn; [|intros i c Hc; by rewrite lookup_empty in Hc|lia].
    exists 0, 0. split; [by by_dir d|by left]. }
  destruct (poolLoop_trading _ _ _ _ _ _ _ _ Hd Hx Hen Hs) as [[] Hz].
  pose proof (poolLoop_made _ _ _ _ _ _ _ Hd Hx Hen Hmd0 Hs) as Hm.
  destruct (md_some _ _ _ Hm) as [Hb0 _]; [lia|]. by eapply (IH path' dirs _ _ _ HF Hds); [injection Hlen|..|exact Ht].
Qed.

Lemma executeTrade_agrees params inPRV md ps amd ps' qs :
  wf_exchange ps → (∀ id p, ps !! id = Some p → distinct_orders p) → wf_params params →
  wf_trade_request md → tr_TradePath md ≠ [] → simple_trade inPRV md →
  executeTrade params inPRV md ps = Ok (amd, ps') → pools_agree (λ _, trimmed) ps qs →
  ∃ qs', processTrade params (at_TradePath amd) (at_PairChanges amd) (at_OrderChanges amd)
      (at_RewardEarned amd) qs = Ok qs' ∧ pools_agree (λ _, trimmed) ps' qs'.
Proof.
  intros Hwf Hdi Hpar Hmd Hne Hsimple. unfold executeTrade, TradePathFromState.
  pose proof Hmd as [[Hs0 _] _ Hlen _].
  intros ([[pools dirs] t'] & Htp & H)%outcome_bind_Ok Hag.
  pose proof (tradePathLoop_spec ∅ (tr_TokenToSell md) (tr_TradePath md) ps) as Hspec.
  rewrite Htp in Hspec. destruct Hspec as (HF & Hnd & _ & Hds & Hlens).
  destruct (tr_Receiver md !! t') as [recv|]; [|done].
  apply outcome_bind_Ok in H as ([[amd0 res] bks] & Hacc & H).
  apply outcome_bind_Ok in H as ([amd1 frs] & Hfee & H).
  apply outcome_bind_Ok in H as (ps1 & Happ & [= <- <-]).
  unfold MaybeAcceptTrade in Hacc. rewrite !length_fmap, Hlens, Nat.eqb_refl in Hacc. cbn [negb orb] in Hacc.
  assert (Hsell : in_u64 (tr_SellAmount md)) by (destruct Hmd as [? _ _ _]; unfold in_u64; lia).
  rewrite (proj2 (Z.ltb_ge _ _)), sub64_exact, Z.sub_0_r in Hacc by (done || lia).
  apply outcome_bind_Ok in Hacc as ([ss out] & Hrun & Hacc). destruct (out <? _); [done|].
  injection Hacc as <- <- <-.
  assert (Hrun' : tradePools (bookFuel (ps_orderbook <$> pools)) (zip3 (ps_state <$> pools) dirs (ps_orderbook <$> pools))
    (tr_SellAmount md) (tr_SellAmount md) = Ok (ss, out)).
  { destruct (tr_TradePath md); [done|]. inversion HF; subst. destruct dirs as [|d dirs]; [done|]. exact Hrun. }
  pose proof (tradePath_executed _ _ _ _ _ _ _ _ _ _ _ Hwf Hsell Hs0 Htp Hrun') as Hex.
  pose proof (tradePath_recorded _ _ _ _ _ _ _ _ _ _ _ Hwf Hdi Hsell Hs0 Htp Hrun') as Hrec.
  destruct (TrackFee_rewarded _ _ _ _ _ _ _ _ _ _ _ Hpar Hmd Hne Hsimple Hex Hfee) as (Hrw & -> & -> & -> & ->).
  eapply processTrade_agrees; try done. clear -HF Hdi. induction HF; constructor; [by eapply Hdi|done].
Qed.

(** ** The requests of a block *)
Section processing.
Context (GetInscriptionTokenID : Z → Hash) (beaconHeight : Z) (params : Params).
Abbreviation process := (processInstructions GetInscriptionTokenID beaconHeight).

(** As [follows], with the parameters, which a trade reads. *)
Definition pools_follow (R : books) (ps : PoolPairs) (insts : list Instruction) (ps' : PoolPairs) : Prop :=
  ∀ t, pools_agree R ps (poolPairs t) → StateV2.params t = params →
    ∃ qs', process insts t = Ok (with_pools qs' t) ∧ pools_agree R ps' qs'.

Abbreviation trades_follow := (pools_follow (λ _, trimmed)).

Lemma trades_follow_inert ps insts : Forall (inert GetInscriptionTokenID beaconHeight) insts →
  trades_follow ps insts ps.
Proof. intros Hi t Hag _. by apply (follows_inert GetInscriptionTokenID beaconHeight (λ _, trimmed) ps insts Hi t Hag). Qed.

Lemma trades_follow_app ps a ps1 b ps' :
  trades_follow ps a ps1 → trades_follow ps1 b ps' → trades_follow ps (a ++ b) ps'.
Proof.
  intros H1 H2 t Hag Hp. destruct (H1 t Hag Hp) as (qs1 & E1 & Hag1).
  rewrite (process_app _ _ _ _ _ _ E1). by apply (H2 (with_pools qs1 t)).
Qed.

Lemma refund_trade_inert md fee tx shard insts :
  getRefundedTradeInstructions md fee tx shard = Ok insts →
  Forall (inert GetInscriptionTokenID beaconHeight) insts.
Proof.
  unfold getRefundedTradeInstructions. destruct (_ !! _); [|done]. destruct fee; [destruct (_ !! _); [|done]|];
    intros [= <-]; repeat constructor.
Qed.

Definition simple (tx : Tx TradeRequest) : Prop := simple_trade (paysPRV tx) (tx_Metadata tx).

Lemma tradeTx_follows w tx ps insts ps' :
  wf_exchange ps → (∀ id p, ps !! id = Some p → distinct_orders p) → wf_params params → wf_trade_tx tx →
  wg_feeInPRV w !! tx_id tx = Some (paysPRV tx) → simple tx →
  tradeTx params w tx ps = Ok (insts, ps') → trades_follow ps insts ps'.
Proof.
  intros Hwf Hdi Hpar Htx Hflag Hsimple. unfold tradeTx. rewrite Hflag. cbn [default from_option id].
  intros (refunds & Href & H)%outcome_bind_Ok. apply refund_trade_inert in Href.
  assert (Hr : Ok (refunds, ps) = Ok (insts, ps') → trades_follow ps insts ps')
    by (intros [= <- <-]; by apply trades_follow_inert).
  destruct (tr_TradePath (tx_Metadata tx)) as [|id path] eqn:Ep; [by apply Hr|].
  destruct (_ <? _); [by apply Hr|].
  destruct (executeTrade _ _ _ _) as [[amd ps1]| | |] eqn:Eex; [|by apply Hr|done..].
  injection H as <- <-. intros t Hag Hp.
  destruct (executeTrade_agrees params (paysPRV tx) (tx_Metadata tx) ps amd ps1 (poolPairs t))
    as (qs' & E & Hag'); [done|done|done|apply Htx|by rewrite Ep|done|done|done|].
  exists qs'. split; [|done]. cbn [processInstructions processInstruction]. unfold setPools.
  rewrite Hp, E. done.
Qed.

Lemma tradeLoop_follows w txs ps insts ps' :
  wf_exchange ps → (∀ id p, ps !! id = Some p → distinct_orders p) → wf_params params →
  Forall wf_trade_tx txs → (∀ tx, tx ∈ txs → wg_feeInPRV w !! tx_id tx = Some (paysPRV tx)) →
  Forall simple txs → tradeLoop params w txs ps = Ok (insts, ps') → trades_follow ps insts ps'.
Proof.
  intros Hwf Hdi Hpar Htxs Hfl Hs. revert ps Hwf Hdi insts ps' Hfl Hs.
  induction Htxs as [|tx txs Htx _ IH]; intros ps Hwf Hdi insts ps' Hfl Hs; cbn [tradeLoop].
  { intros [= <- <-]. by apply trades_follow_inert. }
  apply Forall_cons in Hs as [Hs1 Hs].
  destruct (tradeTx_conserves params w Hpar tx ps Hwf Htx) as (i1 & p1 & E1 & Hw1 & Ht1 & _); [apply Hfl; left|].
  rewrite E1. cbn [mbind outcome_bind]. intros ([i2 p2] & E2 & [= <- <-])%outcome_bind_Ok.
  apply (trades_follow_app ps i1 p1).
  - eapply tradeTx_follows; try done. apply Hfl. left.
  - eapply (IH p1 Hw1); [|by intros t Ht; apply Hfl; right|done..].
    eapply same_names_distinct; [by eapply trade_steps_names|done].
Qed.

Lemma refundLoop_inert w txs insts : refundLoop w txs = Ok insts →
  Forall (inert GetInscriptionTokenID beaconHeight) insts.
Proof.
  revert insts. induction txs as [|tx txs IH]; intros insts; cbn [refundLoop]; [by intros [= <-]|].
  intros (i1 & E1 & (i2 & E2 & [= <-])%outcome_bind_Ok)%outcome_bind_Ok.
  apply Forall_app. split; [by eapply refund_trade_inert|by apply IH].
Qed.

Lemma trade_follows txs ps insts ps' :
  wf_exchange ps → (∀ id p, ps !! id = Some p → distinct_orders p) → wf_params params →
  Forall wf_trade_tx txs → NoDup (tx_id <$> txs) → Forall simple txs →
  trade params txs ps = Ok (insts, ps') → trades_follow ps insts ps'.
Proof.
  intros Hwf Hdi Hpar Htxs Hids Hs. unfold trade.
  destruct (trade_weighted params txs ps Hwf Hpar Htxs Hids) as (w & -> & Hperm & Hfl).
  cbn [mbind outcome_bind]. set (sorted := SliceStable _ _) in *.
  intros ([i1 p1] & E1 & (i2 & E2 & [= <- <-])%outcome_bind_Ok)%outcome_bind_Ok.
  apply (trades_follow_app ps i1 p1); [|eapply trades_follow_inert, refundLoop_inert, E2].
  rewrite <-Hperm in Htxs, Hs. apply Forall_app in Htxs as [Hv _], Hs as [Hs _].
  eapply tradeLoop_follows; try done. intros tx Htx. apply Hfl. rewrite <-Hperm. apply elem_of_app. by left.
Qed.
End processing.

Section processing.
Context (GetInscriptionTokenID : Z → Hash) (beaconHeight : Z).
Abbreviation process1 := (processInstruction GetInscriptionTokenID beaconHeight).
Abbreviation process := (processInstructions GetInscriptionTokenID beaconHeight).

(** ** Staking

    The staking pools of the two states are equal. *)
Definition stakes_follow (ps : StakingPools) (insts : list Instruction) (ps' : StakingPools) : Prop :=
  ∀ t, stakingPoolStates t = ps → process insts t = Ok (with_stakings ps' t).

Lemma stakes_follow_nil ps : stakes_follow ps [] ps.
Proof. intros t <-. by destruct t. Qed.

Lemma stakes_follow_app ps a ps1 b ps2 : stakes_follow ps a ps1 → stakes_follow ps1 b ps2 →
  stakes_follow ps (a ++ b) ps2.
Proof.
  intros H1 H2 t Ht. rewrite (process_app _ _ _ _ _ _ (H1 t Ht)), (H2 (with_stakings ps1 t)) by done. done.
Qed.

Lemma stakes_follow_inert ps insts : Forall (inert GetInscriptionTokenID beaconHeight) insts →
  stakes_follow ps insts ps.
Proof. intros H t <-. rewrite process_inert by done. by destruct t. Qed.

(** A handler that goes through the requests one by one. *)
Lemma eachTx_follow {Md} (P : Md → Prop) (handle : Tx Md → StakingPools → outcome (list Instruction * StakingPools))
    txs ps insts ps' :
  (∀ tx ps insts ps', P (tx_Metadata tx) → handle tx ps = Ok (insts, ps') → stakes_follow ps insts ps') →
  Forall (λ tx, P (tx_Metadata tx)) txs →
  eachTx handle txs ps = Ok (insts, ps') → stakes_follow ps insts ps'.
Proof.
  intros Hh Htxs. revert ps insts. induction Htxs as [|tx txs Htx _ IH]; intros ps insts; cbn [eachTx].
  { intros [= <- <-]. apply stakes_follow_nil. }
  intros ([insts1 ps1] & E1 & ([insts2 ps2] & E2 & [= <- <-])%outcome_bind_Ok)%outcome_bind_Ok.
  eapply stakes_follow_app; [by eapply Hh|by apply IH].
Qed.

Lemma staking_follows nfts txs ps insts ps' : Forall (λ tx, wf_stake_request (tx_Metadata tx)) txs →
  staking txs nfts ps beaconHeight = Ok (insts, ps') → stakes_follow ps insts ps'.
Proof.
  apply (eachTx_follow wf_stake_request). clear. intros tx ps insts ps' [(h & Hh & Et) (n & Hn & En) _].
  unfold stakingTx. rewrite Et, En, !NewHashFromStr_String by done. cbn [mbind outcome_bind].
  destruct (ps !! Hash_String h) as [p|] eqn:Hp;
    [|intros [= <- <-]; apply stakes_follow_inert; by repeat constructor].
  destruct (_ || _); [intros [= <- <-]; apply stakes_follow_inert; by repeat constructor|].
  destruct (runM _ p) as [[u p']|e| |] eqn:Hrun; try done;
    [|intros [= <- <-]; apply stakes_follow_inert; by repeat constructor].
  intros [= <- <-] t Ht. cbn [processInstructions processInstruction]. unfold processLiquidity.
  rewrite Ht, Hp, Hrun. done.
Qed.

Lemma unstaking_follows nfts txs ps insts ps' : Forall (λ tx, wf_unstake_request (tx_Metadata tx)) txs →
  unstaking txs nfts ps beaconHeight = Ok (insts, ps') → stakes_follow ps insts ps'.
Proof.
  apply (eachTx_follow wf_unstake_request). clear. intros tx ps insts ps' [(h & Hh & Et) (n & Hn & En) _].
  unfold unstakingTx, BuildRejectUnstakingInstructions, derefHash.
  rewrite Et, En, !NewHashFromStr_String by done. cbn [mbind outcome_bind].
  set (rejected := Ok (_, ps)).
  assert (Hrej : rejected = Ok (insts, ps') → stakes_follow ps insts ps').
  { intros [= <- <-]. apply stakes_follow_inert. by repeat constructor. }
  destruct (ps !! Hash_String h) as [p|] eqn:Hp; [|done]. destruct (_ || _); [done|].
  destruct (sp_stakers p !! _); [|done]. destruct (_ || _); [done|].
  destruct (runM _ p) as [[u p']|e| |] eqn:Hrun; try done. cbv zeta. destruct (String.eqb _ ""); [done|].
  intros [= <- <-] t Ht. cbn [BuildAcceptUnstakingInstructions processInstructions processInstruction].
  unfold processLiquidity. rewrite Ht, Hp, Hrun. done.
Qed.

(** Instructions that all lead to the same pools. *)
Lemma stakes_follow_repeat ps insts ps' : insts ≠ [] →
  Forall (λ i, stakes_follow ps [i] ps' ∧ stakes_follow ps' [i] ps') insts → stakes_follow ps insts ps'.
Proof.
  intros Hne Hall. destruct Hall as [|i insts' [Hi _] Hall]; [done|]. clear Hne. apply (stakes_follow_app _ [i] ps'); [done|].
  induction Hall as [|j insts'' [_ Hj] _ IH]; [apply stakes_follow_nil|].
  by apply (stakes_follow_app _ [j] ps').
Qed.

Definition collectedStaker (pool : StakingPoolState) (share : Staker) : Staker :=
  mkStaker (sk_liquidity share) (resetKeyValueToZero (sk_rewards share)) (sp_rewardsPerShare pool).

Lemma stakingReward_follows id nft tok r b tx shard ps pool share :
  ps !! id = Some pool → sp_stakers pool !! Hash_String nft = Some share →
  stakes_follow ps [AcceptedWithdrawStakingReward id nft tok r b tx shard]
    (<[id := sp_with_stakers (<[Hash_String nft := collectedStaker pool share]> (sp_stakers pool)) pool]> ps).
Proof.
  intros Hp Hs t <-. cbn [processInstructions processInstruction]. unfold processWithdrawStakingReward.
  by rewrite Hp, Hs.
Qed.

Lemma withdrawStakingReward_follows txs ps insts ps' :
  withdrawStakingReward txs ps = Ok (insts, ps') → stakes_follow ps insts ps'.
Proof.
  apply (eachTx_follow (λ _, True)); [|by apply Forall_true]. clear. intros tx ps insts ps' _.
  unfold withdrawStakingRewardTx. destruct (rq_Receivers _ !! _) as [addr|]; [|done].
  set (rejected := Ok (_ :: BuildWithdrawStakingRewardInsts _ _ ∅ _ _ _, ps)).
  assert (Hrej : rejected = Ok (insts, ps') → stakes_follow ps insts ps').
  { intros [= <- <-]. apply stakes_follow_inert. by repeat constructor. }
  destruct (ps !! rq_PoolID _) as [p|] eqn:Hp; [|done].
  destruct (sp_stakers p !! _) as [share|] eqn:Hs; [|done].
  intros (reward & _ & H)%outcome_bind_Ok. revert H. case_bool_decide as Hr; [done|].
  destruct (receiversInfo _ _) as [info|] eqn:Hinfo; [|done]. intros [= <- <-].
  apply (stakes_follow_app _ [_] ps); [apply stakes_follow_inert; by repeat constructor|].
  apply stakes_follow_repeat.
  { by apply markLast_nonempty, sortedTokens_nonempty, (receiversInfo_nonempty _ _ _ Hinfo). }
  apply markLast_all. intros [tok r] b. split; [by apply stakingReward_follows|].
  set (p' := sp_with_stakers _ p).
  pose proof (stakingReward_follows (rq_PoolID (tx_Metadata tx)) (rq_NftID (tx_Metadata tx)) tok r b (tx_Hash tx)
    (tx_ShardID tx) (<[rq_PoolID (tx_Metadata tx) := p']> ps) p' (collectedStaker p share)) as H.
  rewrite insert_insert_eq in H. cbn [p' sp_with_stakers sp_stakers] in H. rewrite insert_insert_eq in H.
  rewrite !lookup_insert_eq in H. specialize (H eq_refl eq_refl).
  unfold collectedStaker, sp_with_stakers, resetKeyValueToZero in H. cbn in H. rewrite <-map_fmap_compose in H.
  exact H.
Qed.

(** Rewards of different tokens are booked in any order. *)
Lemma sp_AddReward_comm a x b y s : a ≠ b →
  sp_AddReward a x (sp_AddReward b y s) = sp_AddReward b y (sp_AddReward a x s).
Proof.
  intros Hne. unfold sp_AddReward. destruct (sp_liquidity s =? 0) eqn:E; rewrite ?E; [done|]. cbn. rewrite E.
  unfold sp_with_rewardsPerShare. cbn. rewrite !lookup_insert_ne by done. f_equal. by apply insert_insert_ne.
Qed.

Lemma rewardPool_fold share total rewards pool m pool' : NoDup rewards.*1 →
  rewardPool share total rewards pool = Ok (m, pool') →
  pool' = map_fold sp_AddReward pool m ∧ ∀ tok, tok ∉ rewards.*1 → m !! tok = None.
Proof.
  revert pool m. induction rewards as [|[tok amount] rewards IH]; intros pool m; cbn [rewardPool].
  { intros _ [= <- <-]. split; [by rewrite map_fold_empty|done]. }
  cbn [fmap list_fmap fst]. intros [Hn Hd]%NoDup_cons (r & _ & H)%outcome_bind_Ok.
  destruct (negb (isU64 r)); [done|]. destruct (bigUint64 r =? 0).
  { destruct (IH pool m Hd H) as [-> Hm]. split; [done|]. intros t Ht. apply Hm. set_solver. }
  apply outcome_bind_Ok in H as ([m1 p1] & E1 & [= <- <-]). destruct (IH _ _ Hd E1) as [-> Hm]. split.
  - rewrite map_fold_insert_L; [|intros; by apply sp_AddReward_comm|by apply Hm].
    apply (map_fold_comm_acc_strong eq); [solve_proper|]. intros j z y Hj. apply sp_AddReward_comm.
    intros ->. by rewrite (Hm tok Hn) in Hj.
  - intros t Ht. rewrite lookup_insert_ne by set_solver. apply Hm. set_solver.
Qed.

Lemma distributeStakingReward_follows pools params ps insts ps' :
  distributeStakingReward pools params ps = Ok (insts, ps') → stakes_follow ps insts ps'.
Proof.
  unfold distributeStakingReward. case_match; [intros [= <- <-]; apply stakes_follow_nil|].
  generalize (sortedKeys (StakingPoolsShare params)) as keys. intros keys. revert ps insts.
  induction keys as [|k keys IH]; intros ps insts; cbn [distributeLoop].
  { intros [= <- <-]. apply stakes_follow_nil. }
  destruct (ps !! k) as [pool|] eqn:Hp; [|done].
  intros ([m p1] & E1 & ([insts2 ps2] & E2 & [= <- <-])%outcome_bind_Ok)%outcome_bind_Ok.
  eapply stakes_follow_app; [|by apply IH].
  apply rewardPool_fold in E1 as [-> _]; [|apply NoDup_fst_map_to_list]. case_bool_decide as Hm.
  - rewrite Hm, map_fold_empty, insert_id by done. apply stakes_follow_nil.
  - intros t <-. cbn [processInstructions processInstruction]. unfold processDistributeStakingReward.
    by rewrite Hp.
Qed.

(** ** Contributions

    Both sides of a match name a new pool after the transaction that waited.  A transaction
    is [unnamed] when no pool is named after it. *)
Definition unnamed (pools : PoolPairs) (tx : Hash) : Prop :=
  ∀ a b, pools !! generatePoolPairKey (Hash_String a) (Hash_String b) (Hash_String tx) = None.

Lemma poolPairKey_tx a b tx a' b' tx' :
  generatePoolPairKey (Hash_String a) (Hash_String b) (Hash_String tx) =
  generatePoolPairKey (Hash_String a') (Hash_String b') (Hash_String tx') → tx = tx'.
Proof.
  intros E. apply (f_equal splitDash) in E. unfold generatePoolPairKey in E.
  destruct (String.leb (Hash_String a) _), (String.leb (Hash_String a') _);
    rewrite !splitDash_key in E by apply Hash_String_no_dash; injection E as _ _ E;
    by apply Hash_String_injective.
Qed.

Lemma unnamed_replace pools id p p' tx : pools !! id = Some p → unnamed pools tx →
  unnamed (<[id := p']> pools) tx.
Proof. intros Hp H a b. rewrite lookup_insert_ne; [apply H|]. intros ->. by rewrite H in Hp. Qed.

Lemma unnamed_create pools a b tx p tx' : tx' ≠ tx → unnamed pools tx' →
  unnamed (<[generatePoolPairKey (Hash_String a) (Hash_String b) (Hash_String tx) := p]> pools) tx'.
Proof. intros Hne H a' b'. rewrite lookup_insert_ne; [apply H|]. by intros ->%poolPairKey_tx. Qed.

(** A list of instructions that ends the wait of contribution [w] under [pairHash]. *)
Definition match_follows (R : books) (pairHash : string) (w : Pdexv3Contribution) (params : Params)
    (ps : PoolPairs) (insts : list Instruction) (ps' : PoolPairs) : Prop :=
  ∀ t, pools_agree R ps (poolPairs t) → waitingContributions t !! pairHash = Some w → StateV2.params t = params →
    ∃ qs' d', process insts t =
      Ok (with_pools qs' (with_waiting (delete pairHash (waitingContributions t)) (with_deleted d' t))) ∧
    pools_agree R ps' qs'.

Lemma refund_follows R w params ps a b :
  cs_pairHash b = cs_pairHash a →
  match_follows R (cs_pairHash a) w params ps (BuildRefundAddLiquidityInstructions a b) ps.
Proof.
  intros Eh t Ht Hw _. cbn [BuildRefundAddLiquidityInstructions processInstructions processInstruction].
  unfold refundContribution. rewrite Eh. cbn [contributions fst snd]. rewrite Hw.
  cbn [moveToDeleted contributions setContributions mbind outcome_bind with_pools with_waiting with_deleted
    waitingContributions fst snd]. rewrite lookup_delete_eq. eexists (poolPairs t), _. split; [by destruct t|done].
Qed.

(** The pool that a match creates. *)
Lemma createPool_follows R params ph id h w i ps insts ps' :
  R id [] [] → id = generatePoolPairKey (Hash_String (ct_tokenID w)) (Hash_String (ct_tokenID i))
                     (Hash_String (ct_txReqID w)) →
  ps !! id = None → PDEXRewardPoolPairsShare params !! id = None → ct_nftID w = h →
  createPool beaconHeight id h (mkContributionState w ph) (mkContributionState i ph) ps = Ok (insts, ps') →
  match_follows R ph w params ps insts ps' ∧ ∃ p, ps' = ps ∨ ps' = <[id := p]> ps.
Proof.
  intros HR Eid Hnone Hrew Hnft. unfold createPool. cbn [cs_value].
  intros (share & Hshare & H)%outcome_bind_Ok.
  destruct (runM (addShare _ _ _ _) _) as [[u p]|e| |] eqn:Hadd; [| |done..].
  - injection H as <- <-. split; [|by exists p; right]. intros t Ht Hw Hp.
    cbn [BuildMatchAddLiquidityInstructions processInstructions processInstruction].
    unfold matchContribution. cbn [contributions cs_pairHash cs_value]. rewrite Hw, Hshare.
    cbn [mbind outcome_bind]. rewrite <-Eid. unfold lockedBlocks. rewrite Hp, Hrew, Hnft, Hadd.
    cbn [mbind outcome_bind moveToDeleted setContributions].
    eexists _, _. split; [done|]. apply pools_agree_insert; [done|].
    assert (ps_makingVolume p = ∅ ∧ orders (ps_orderbook p) = []) as [Ev Eb].
    { apply runM_Ok in Hadd. unfold addShare in Hadd.
      pose proof (updateShareValue_blind (bigUint64 share) (Hash_String h) addOperator beaconHeight 0 ∅
        (mkOrderbook []) (initPoolPairState w i)) as Hb.
      replace (dress _ _ (initPoolPairState w i)) with (initPoolPairState w i) in Hb.
      - rewrite Hadd in Hb. injection Hb as ->. done.
      - unfold initPoolPairState, dress. repeat case_match; by simplify_eq. }
    apply (agrees_intro _ (ps_makingVolume p) (ps_orderbook p)); [done|by rewrite Eb|by destruct p].
  - injection H as <- <-. split; [|by exists (initPoolPairState w i); left]. by apply (refund_follows R w params ps (mkContributionState w ph)).
Qed.

(** A contribution to an existing pool. *)
Lemma contribute_parts p a0 a1 h bh blocks share p' :
  String.ltb (Hash_String (pp_token0ID (ps_state p))) (Hash_String (pp_token1ID (ps_state p))) = true →
  contribute (Hash_String (pp_token0ID (ps_state p))) (Hash_String (pp_token1ID (ps_state p)))
    a0 a1 h bh blocks p = (Ok share, p') →
  (_ ← updateReserveData a0 a1 share addOperator; addShare h share bh blocks) p = (Ok tt, p').
Proof.
  intros Hs Hrun. unfold contribute, addReserveDataAndCalculateShare in Hrun. rewrite Hs in Hrun.
  apply M_bind_Ok in Hrun as (sh & p1 & H1 & Hrun). rewrite getS_bind in H1.
  apply M_bind_Ok in H1 as (sh1 & ? & [_ <-]%pair_eq & H1).
  apply M_bind_Ok in H1 as ([] & p2 & H1 & [= <- <-]).
  apply M_bind_Ok in Hrun as ([] & p3 & H2 & [= -> <-]).
  unfold mbind, M_bind. by rewrite H1.
Qed.

Lemma addShare_blind h amt bh blocks : blind (addShare h amt bh blocks).
Proof. apply updateShareValue_blind. Qed.

Lemma contributeToPool_follows R params ph id h p w i ps insts ps' :
  wf_pools ps → ps !! id = Some p → wf_hash h →
  wf_contribution w → wf_contribution i → ct_tokenID w ≠ ct_tokenID i →
  validateTokenIDsByPoolPairID [ct_tokenID w; ct_tokenID i] id = Ok tt →
  ct_poolPairID w = id → ct_poolPairID i = id → ct_nftID w = h →
  contributeToPool params beaconHeight ph id h p w i ps = Ok (insts, ps') →
  match_follows R ph w params ps insts ps' ∧ ∃ p', ps' = ps ∨ ps' = <[id := p']> ps.
Proof.
  intros Hps Hid Hh Hcw Hci Hne Hval Ew Ei Hnft. destruct (Hps _ _ Hid) as [Hp Hk].
  destruct (contributions_by_order id p w i Hp Hk Hcw Hci Hne Hval) as (c0 & c1 & Hord & T0 & T1 & Hc).
  unfold contributeToPool. rewrite Hord. set (refund := BuildRefundAddLiquidityInstructions _ _).
  assert (Href : Ok (refund, ps) = Ok (insts, ps') →
    match_follows R ph w params ps insts ps' ∧ ∃ p', ps' = ps ∨ ps' = <[id := p']> ps).
  { intros [= <- <-]. split; [by apply (refund_follows R w params ps (mkContributionState c0 ph))|].
    exists p. by left. }
  destruct (isEmpty p) eqn:Hem; [unfold computeActualContributedAmounts; by rewrite Hem|].
  assert (H0 : in_u64 (ct_amount c0)) by (destruct Hc as [[-> ->]|[-> ->]]; by apply wc_amount).
  assert (H1 : in_u64 (ct_amount c1)) by (destruct Hc as [[-> ->]|[-> ->]]; by apply wc_amount).
  destruct (computeActual_spec p c0 c1 (wst_pair _ Hp) Hem H0 H1)
    as (a0 & b0 & a1 & b1 & -> & S0 & S1 & P0 & Q0 & P1 & Q1 & _).
  destruct ((a0 =? 0) || (a1 =? 0)); [done|]. fold (lockedBlocks params id). rewrite T0, T1.
  unfold runM at 1. destruct (contribute _ _ _ _ _ _ _ p) as [[share| | |] p'] eqn:Hrun; try done.
  assert (U0 : in_u64 a0) by (unfold in_u64 in *; lia). assert (U1 : in_u64 a1) by (unfold in_u64 in *; lia).
  destruct (contribute_spec _ _ _ _ _ _ _ _ Hp Hem Hh U0 U1 Hrun)
    as (_ & _ & _ & _ & _ & _ & _ & _ & _ & _ & _ & _ & _ & _ & _ & Hob & _ & Hmv & _).
  intros [= <- <-]. split; [|exists p'; by right]. intros t Ht Hw Hpar.
  destruct (pools_agree_some _ _ _ _ _ Ht Hid) as (q & Hq & Hpq). destruct Hpq as [v b Hv HR].
  apply contribute_parts in Hrun; [|apply (wst_sorted _ Hp)].
  assert (Hrun' : runM (_ ← updateReserveData a0 a1 share addOperator;
    addShare h share beaconHeight (lockedBlocks params id)) (dress v b p) = Ok (tt, dress v b p')).
  { apply runM_Ok. rewrite (blind_bind _ _ (updateReserveData_blind _ _ _ _) (λ _, addShare_blind _ _ _ _) v b p).
    by rewrite Hrun. }
  assert (Hlt : String.ltb (Hash_String (pp_token1ID (ps_state p))) (Hash_String (pp_token0ID (ps_state p))) = false).
  { pose proof (wst_sorted _ Hp) as Hs. unfold String.ltb in *. rewrite String.compare_antisym.
    by destruct (String.compare _ _). }
  assert (Ec0 : ct_poolPairID c0 = id) by (by destruct Hc as [[-> ->]|[-> ->]]).
  set (qs' := <[id := dress v b p']> (poolPairs t)).
  exists qs', (<[ph := w]> (deletedWaitingContributions t)). split.
  - set (t1 := with_pools qs' _).
    assert (E1 : process1 (MatchAndReturnAddLiquidity (mkContributionState c0 ph) share b0 a1 b1
        (pp_token1ID (ps_state p))) t = Ok t1).
    { cbn [processInstruction]. unfold matchAndReturnContribution. cbn [contributions cs_pairHash cs_value].
      rewrite Hw, Ec0, Ew, String.eqb_refl. cbn [negb]. rewrite Hq, T0, Hlt.
      rewrite sub64_exact by (done || lia). replace (ct_amount c0 - b0) with a0 by lia.
      by rewrite Hpar, Hnft, Hrun'. }
    assert (E2 : ∀ c s r a e x, process1 (MatchAndReturnAddLiquidity (mkContributionState c ph) s r a e x) t1 = Ok t1).
    { intros. cbn [processInstruction]. unfold matchAndReturnContribution. cbn. by rewrite lookup_delete_eq. }
    cbn [BuildMatchAndReturnAddLiquidityInstructions processInstructions cs_value]. rewrite T0, T1, E1.
    cbn [mbind outcome_bind]. by rewrite E2.
  - apply pools_agree_insert; [done|]. apply (agrees_intro _ v b); [by rewrite Hmv|by rewrite Hob|done].
Qed.

Lemma matchContributions_follows R params md h w i ps insts ps' :
  (∀ id, R id [] []) → wf_pools ps → wf_hash h → al_nftID md = Hash_String h → ct_nftID i = h →
  wf_contribution w → wf_contribution i → al_tokenID md = Hash_String (ct_tokenID i) →
  unnamed ps (ct_txReqID w) → (∀ k x, PDEXRewardPoolPairsShare params !! k = Some x → is_Some (ps !! k)) →
  matchContributions params beaconHeight md w i ps = Ok (insts, ps') →
  match_follows R (al_pairHash md) w params ps insts ps' ∧
  ∀ tx, tx ≠ ct_txReqID w → unnamed ps tx → unnamed ps' tx.
Proof.
  intros HR Hps Hh Enft Ei Hw Hi Etok Hun Hrew. unfold matchContributions.
  set (refund := BuildRefundAddLiquidityInstructions _ _).
  assert (Href : Ok (refund, ps) = Ok (insts, ps') → match_follows R (al_pairHash md) w params ps insts ps' ∧
    ∀ tx, tx ≠ ct_txReqID w → unnamed ps tx → unnamed ps' tx).
  { intros [= <- <-]. split; [|done]. by apply (refund_follows R w params ps (mkContributionState w _)). }
  destruct (String.eqb (Hash_String (ct_tokenID w)) (Hash_String (ct_tokenID i))) eqn:E1; [done|].
  assert (Hne : ct_tokenID w ≠ ct_tokenID i) by (intros E; rewrite E, String.eqb_refl in E1; done).
  cbn [orb]. destruct (negb (ct_amplifier w =? ct_amplifier i)); [done|]. cbn [orb].
  destruct (String.eqb_spec (ct_poolPairID w) (ct_poolPairID i)) as [Epool|]; [|done].
  destruct (String.eqb_spec (Hash_String (ct_nftID w)) (Hash_String (ct_nftID i))) as [Eh|]; [|done].
  cbn [negb orb]. apply Hash_String_injective in Eh. rewrite Ei in Eh.
  rewrite Enft, NewHashFromStr_String by done. cbn [mbind outcome_bind]. rewrite Etok.
  destruct (String.eqb_spec (ct_poolPairID w) "") as [Eid|Eid].
  - rewrite Hun. intros Hc. set (id := generatePoolPairKey _ _ _) in *.
    destruct (createPool_follows R params (al_pairHash md) id h w i ps insts ps') as [Hf (p & Hps')];
      [done|done|apply Hun| |done|done|].
    { destruct (_ !! id) as [x|] eqn:E; [|done]. destruct (Hrew _ _ E) as [? Hx].
      unfold id in Hx. by rewrite Hun in Hx. }
    split; [done|]. intros tx Htx Hutx. destruct Hps' as [->| ->]; [done|]. by apply unnamed_create.
  - destruct (ps !! ct_poolPairID w) as [p|] eqn:Hid; [|done].
    destruct (validateTokenIDsByPoolPairID _ _) as [[]| | |] eqn:Hval; [|done..]. intros Hc.
    destruct (contributeToPool_follows R params (al_pairHash md) (ct_poolPairID w) h p w i ps insts ps')
      as [Hf (p' & Hps')]; try done.
    split; [done|]. intros tx Htx Hutx. destruct Hps' as [->| ->]; [done|]. by eapply unnamed_replace.
Qed.

(** The transactions of the waiting contributions are distinct and unnamed, as are those of
    the block's requests. *)
Record named (pools : PoolPairs) (waiting : Waiting) : Prop := {
  nm_unnamed : ∀ k c, waiting !! k = Some c → unnamed pools (ct_txReqID c);
  nm_distinct : ∀ k k' c c', waiting !! k = Some c → waiting !! k' = Some c' →
                  ct_txReqID c = ct_txReqID c' → k = k' }.

Record fresh (pools : PoolPairs) (waiting : Waiting) (tx : Hash) : Prop := {
  fr_unnamed : unnamed pools tx;
  fr_waiting : ∀ k c, waiting !! k = Some c → ct_txReqID c ≠ tx }.

Definition known (nfts : gmap string Z) (md : AddLiquidityRequest) : Prop := is_Some (nfts !! al_nftID md).

Definition contributions_follow (R : books) (params : Params) (ps : PoolPairs) (w : Waiting)
    (insts : list Instruction) (ps' : PoolPairs) (w' : Waiting) : Prop :=
  ∀ t, pools_agree R ps (poolPairs t) → waitingContributions t = w → StateV2.params t = params →
    ∃ qs' d', process insts t = Ok (with_pools qs' (with_waiting w' (with_deleted d' t))) ∧
    pools_agree R ps' qs'.

Lemma contributions_follow_app R params ps w a ps1 w1 b ps2 w2 :
  contributions_follow R params ps w a ps1 w1 → contributions_follow R params ps1 w1 b ps2 w2 →
  contributions_follow R params ps w (a ++ b) ps2 w2.
Proof.
  intros H1 H2 t Ht Hw Hp. destruct (H1 t Ht Hw Hp) as (q1 & d1 & E1 & A1).
  destruct (H2 (with_pools q1 (with_waiting w1 (with_deleted d1 t))) A1 eq_refl Hp) as (q2 & d2 & E2 & A2).
  exists q2, d2. by rewrite (process_app _ _ _ _ _ _ E1), E2.
Qed.

Lemma Hash_String_nonempty h : wf_hash h → Hash_String h ≠ "".
Proof.
  intros Hh E. pose proof (NewHashFromStr_String h Hh) as Hr. rewrite E in Hr. vm_compute in Hr.
  injection Hr as <-. by vm_compute in E.
Qed.

Lemma contribution_of md tx shard : wf_request md →
  ∃ c h, NewContributionWithMetaData md tx shard = Ok c ∧ wf_contribution c ∧ wf_hash h ∧
    al_nftID md = Hash_String h ∧ ct_nftID c = h ∧ al_tokenID md = Hash_String (ct_tokenID c) ∧
    ct_txReqID c = tx.
Proof.
  intros [(t & Ht & Et) (h & Hh & En) Ha Hm]. unfold NewContributionWithMetaData, derefHash.
  rewrite Et, En, !NewHashFromStr_String by done. cbn [mbind outcome_bind].
  destruct (String.eqb_spec (Hash_String h) "") as [E|_]; [by apply Hash_String_nonempty in E|].
  cbn [mbind outcome_bind]. eexists _, h. split; [done|]. by split.
Qed.

Lemma addLiquidityTx_follows R nfts params tx ps w insts ps' w' :
  (∀ id, R id [] []) → wf_pools ps → wf_waiting w → wf_request (tx_Metadata tx) →
  known nfts (tx_Metadata tx) → named ps w → fresh ps w (tx_Hash tx) →
  (∀ k x, PDEXRewardPoolPairsShare params !! k = Some x → is_Some (ps !! k)) →
  addLiquidityTx nfts params beaconHeight tx ps w = Ok (insts, ps', w') →
  contributions_follow R params ps w insts ps' w' ∧ named ps' w' ∧
  ∀ tx', tx' ≠ tx_Hash tx → fresh ps w tx' → fresh ps' w' tx'.
Proof.
  intros HR Hps Hw Hreq [x Hx] [Hn1 Hn2] [Hf1 Hf2] Hrew. unfold addLiquidityTx.
  set (md := tx_Metadata tx) in *.
  destruct (contribution_of md (tx_Hash tx) (tx_ShardID tx) Hreq) as (c & h & -> & Hc & Hh & En & Ecn & Et & Etx).
  cbn [mbind outcome_bind]. rewrite (proj2 (String.eqb_neq (al_nftID md) "")), bool_decide_eq_false_2;
    [|by rewrite Hx|rewrite En; by apply Hash_String_nonempty].
  cbn [orb]. destruct (w !! al_pairHash md) as [wc|] eqn:Ew.
  - intros ([insts1 ps1] & E1 & [= <- <- <-])%outcome_bind_Ok.
    destruct (matchContributions_follows R params md h wc c ps insts1 ps1 HR Hps Hh En Ecn (Hw _ _ Ew) Hc Et
      (Hn1 _ _ Ew) Hrew E1) as [Hm Hun]. split; [|split].
    + intros t Ht Hwt Hp. rewrite <-Hwt in Ew. destruct (Hm t Ht Ew Hp) as (qs' & d' & E & A).
      exists qs', d'. by rewrite E, Hwt.
    + split.
      * intros k a [Hne Ha]%lookup_delete_Some. apply Hun; [|by eapply Hn1]. intros E. apply Hne.
        by eapply Hn2.
      * intros k k' a a' [_ Ha]%lookup_delete_Some [_ Ha']%lookup_delete_Some. by eapply Hn2.
    + intros tx' _ [F1 F2]. split.
      * apply Hun; [|done]. intros ->. by eapply F2.
      * intros k a [_ Ha]%lookup_delete_Some. by eapply F2.
  - intros [= <- <- <-]. split; [|split].
    + intros t Ht Hwt Hp. exists (poolPairs t), (deletedWaitingContributions t). split; [|done].
      cbn [processInstructions processInstruction]. unfold waitingContribution.
      cbn [contributions cs_pairHash cs_value]. rewrite Hwt, Ew. by destruct t.
    + split.
      * intros k a. rewrite lookup_insert. case_decide; [|by apply Hn1]. intros [= <-]. by rewrite Etx.
      * intros k k' a a'. rewrite !lookup_insert. repeat case_decide; subst; intros H1 H2 E; simplify_eq; try done.
        -- exfalso. apply (Hf2 _ _ H2). by rewrite <-E.
        -- exfalso. apply (Hf2 _ _ H1). by rewrite E.
        -- by eapply Hn2.
    + intros tx' Hne [F1 F2]. split; [done|]. intros k a. rewrite lookup_insert.
      case_decide; [|by apply F2]. intros [= <-]. by rewrite Etx.
Qed.

Lemma addLiquidity_follows R nfts params txs ps w insts ps' w' :
  (∀ id, R id [] []) → wf_pools ps → wf_waiting w → Forall (λ tx, wf_request (tx_Metadata tx)) txs →
  Forall (λ tx, known nfts (tx_Metadata tx)) txs → named ps w → NoDup (tx_Hash <$> txs) →
  Forall (λ tx, fresh ps w (tx_Hash tx)) txs →
  (∀ k x, PDEXRewardPoolPairsShare params !! k = Some x → is_Some (ps !! k)) →
  addLiquidity nfts params beaconHeight txs ps w = Ok (insts, ps', w') →
  contributions_follow R params ps w insts ps' w' ∧ named ps' w' ∧
  ∀ tx, tx ∉ tx_Hash <$> txs → fresh ps w tx → fresh ps' w' tx.
Proof.
  intros HR Hps Hw Htxs. revert ps w insts Hps Hw. induction Htxs as [|tx txs Htx _ IH];
    intros ps w insts Hps Hw Hkn Hnm Hnd Hfr Hrew; cbn [addLiquidity].
  { intros [= <- <- <-]. split; [|by split]. intros t Ht <- _. exists (poolPairs t), (deletedWaitingContributions t).
    split; [by destruct t|done]. }
  intros ([[insts1 ps1] w1] & E1 & ([[insts2 ps2] w2] & E2 & [= <- <- <-])%outcome_bind_Ok)%outcome_bind_Ok.
  apply Forall_cons in Hkn as [Hk Hkn]. apply Forall_cons in Hfr as [Hf Hfr].
  cbn [fmap list_fmap] in Hnd. apply NoDup_cons in Hnd as [Hni Hnd].
  destruct (addLiquidityTx_follows R nfts params tx ps w insts1 ps1 w1 HR Hps Hw Htx Hk Hnm Hf Hrew E1)
    as (F1 & Hnm1 & Hfr1).
  destruct (addLiquidityTx_conserves nfts params beaconHeight tx ps w Hps Hw Htx)
    as (? & ? & ? & E & Hps1 & Hw1 & Hch & _). rewrite E in E1. injection E1 as <- <- <-.
  destruct (IH _ _ insts2 Hps1 Hw1 Hkn Hnm1 Hnd) as (F2 & Hnm2 & Hfr2); [| |done|].
  - apply Forall_forall. intros tx' Hin. apply Hfr1; [|by eapply Forall_forall in Hfr].
    intros Etx. apply Hni, list_elem_of_fmap. by exists tx'.
  - intros k y Hy. destruct (pool_changed_frame _ _ Hch) as [Hev _]. eapply evolves_some; [done|by eapply Hrew].
  - split; [by eapply contributions_follow_app|]. split; [done|]. intros tx' Hni' Hf'.
    cbn [fmap list_fmap] in Hni'. apply not_elem_of_cons in Hni' as [Hne Hni']. by apply Hfr2, Hfr1.
Qed.

(** ** NFTs, inscriptions and parameters *)
Definition nfts_follow (nfts : gmap string Z) (insts : list Instruction) (nfts' : gmap string Z) : Prop :=
  ∀ t, nftIDs t = nfts → process insts t = Ok (with_nfts nfts' t).

Lemma userMintNft_follows genNFT txs bh required nfts burned :
  let '(insts, nfts', _) := userMintNft genNFT txs bh required nfts burned in nfts_follow nfts insts nfts'.
Proof.
  revert nfts burned. induction txs as [|tx txs IH]; intros nfts burned; cbn [userMintNft].
  { intros t <-. by destruct t. }
  destruct (negb _).
  - specialize (IH nfts burned). destruct (userMintNft _ _ _ _ _ _) as [[insts nfts'] burned'].
    intros t Ht. cbn [processInstructions processInstruction mbind outcome_bind]. by apply IH.
  - set (nfts1 := <[_ := _]> nfts). specialize (IH nfts1 (add64 burned (um_amount (tx_Metadata tx)))).
    destruct (userMintNft _ _ _ _ _ _) as [[insts nfts'] burned']. intros t Ht.
    cbn [processInstructions processInstruction mbind outcome_bind]. unfold processUserMintNft. rewrite Ht.
    by apply (IH (with_nfts nfts1 t)).
Qed.

(** The accepted inscriptions; each is the next one, so that none is skipped. *)
Definition inscriptions (insts : list Instruction) : Z :=
  list_sum (λ i, match i with InscribeAccepted _ _ _ _ => 1 | _ => 0 end) insts.

Lemma u64_add_l a b : u64 (u64 a + b) = u64 (a + b).
Proof. unfold u64. by rewrite Zplus_mod_idemp_l. Qed.

Lemma inscribeLoop_follows txs enabled n t :
  inscriptionNumber t = u64 n →
  let insts := inscribeLoop GetInscriptionTokenID txs enabled (add64 n 1) in
  process insts t = Ok (with_inscriptions (u64 (n + inscriptions insts)) t).
Proof.
  cbv zeta. revert n t. induction txs as [|tx txs IH]; intros n t Ht; cbn [inscribeLoop].
  { unfold inscriptions, list_sum. cbn. rewrite Z.add_0_r, <-Ht. by destruct t. }
  assert (Hrej : process (InscribeRejected (tx_Hash tx) (tx_ShardID tx) ::
      inscribeLoop GetInscriptionTokenID txs enabled (add64 n 1)) t =
    Ok (with_inscriptions (u64 (n + inscriptions (InscribeRejected (tx_Hash tx) (tx_ShardID tx) ::
      inscribeLoop GetInscriptionTokenID txs enabled (add64 n 1)))) t)).
  { cbn [processInstructions processInstruction mbind outcome_bind]. rewrite (IH n) by done.
    unfold inscriptions. by rewrite list_sum_cons, Z.add_0_l. }
  destruct (ir_rawData (tx_Metadata tx)) as [[|m]|]; [done| |done]. destruct enabled; [|done].
  cbn [processInstructions processInstruction mbind outcome_bind]. unfold processInscribe. rewrite Ht.
  replace (add64 (u64 n) 1) with (add64 n 1) by (unfold add64; by rewrite u64_add_l).
  replace (add64 (add64 n 1) 1) with (add64 (n + 1) 1) by (unfold add64; by rewrite u64_add_l).
  rewrite bool_decide_true by done. etransitivity; [by apply (IH (n + 1))|].
  unfold inscriptions. rewrite list_sum_cons. by rewrite Z.add_assoc.
Qed.

Lemma inscribe_follows txs enabled t : in_u64 (inscriptionNumber t) →
  let insts := inscribe GetInscriptionTokenID txs (inscriptionNumber t) enabled in
  process insts t = Ok (with_inscriptions (u64 (inscriptionNumber t + inscriptions insts)) t).
Proof.
  intros Hn. unfold inscribe. destruct enabled; [apply inscribeLoop_follows|].
  - symmetry. by apply u64_small.
  - cbv zeta. replace (inscriptions _) with 0; [|induction txs as [|tx txs IH]; [done|]].
    + rewrite Z.add_0_r, u64_small by done.
      transitivity (Ok t); [|by destruct t]. apply process_inert.
      generalize 0. induction txs as [|tx txs IH]; intros k; cbn [inscribeLoop]; [by apply Forall_nil_2|].
      destruct (ir_rawData (tx_Metadata tx)) as [[|?]|]; by apply Forall_cons_2.
    + cbn [inscribeLoop]. destruct (ir_rawData (tx_Metadata tx)) as [[|?]|];
        unfold inscriptions in *; rewrite list_sum_cons; lia.
Qed.

Lemma modifyParams_follows txs pools params stakings t :
  StateV2.params t = params → stakingPoolStates t = stakings →
  let '(insts, params', stakings') := modifyParams txs pools params stakings in
  process insts t = Ok (with_params params' (with_stakings stakings' t)).
Proof.
  revert params stakings t. induction txs as [|tx txs IH]; intros params stakings t Hp Hs; cbn [modifyParams].
  { subst. by destruct t. }
  destruct (isValidPdexv3Params (tx_Metadata tx) pools) as [ok msg]. destruct ok.
  - set (st1 := addStakingPoolState _ _).
    specialize (IH (tx_Metadata tx) st1 (with_params (tx_Metadata tx) (with_stakings st1 t)) eq_refl eq_refl).
    destruct (modifyParams _ _ _ _) as [[insts params'] stakings'].
    cbn [processInstructions processInstruction mbind outcome_bind]. unfold processModifyParams.
    rewrite Hs. exact IH.
  - specialize (IH params stakings t Hp Hs). destruct (modifyParams _ _ _ _) as [[insts params'] stakings'].
    cbn [processInstructions processInstruction mbind outcome_bind]. exact IH.
Qed.
End processing.
