(* ===== verification/Refinement.v ===== *)
(** The processor refines the producer.  On every valid block, processing the instructions
    the producer built leads from the state before the block to a state that agrees with the
    producer's: equal but for orders of which nothing is left, which the processor drops, and
    new orders, which only the processor books.

    The handlers are steps ([mirrors]); the block is their composition, next to the bounds
    of [Solvency]. *)
From S2P Require Import Prelude Hash RawDB Swap Order Reserve OrderBook Trade Reward TrackFee PdexUtils PoolPair Staking Params WeightedFee Instructions LiquidityProducer TradeProducer OrderProducer RewardProducer StakingProducer StateV2 Processor Market Solvency Agreement StateAgreement.

Local Open Scope Z_scope.

(** ** Names in use

    The orders of a book have distinct identifiers and stand in the order of the book. *)
Definition listed (p : PoolPairState) : Prop :=
  distinct_orders p ∧ StronglySorted before (orders (ps_orderbook p)) ∧
  Forall (λ o, dir_ok (ord_tradeDirection o)) (orders (ps_orderbook p)).

Lemma same_order_before a a' b b' : same_order a a' → same_order b b' → before a b → before a' b'.
Proof.
  intros (E1 & _ & E2 & E3 & E4 & _) (F1 & _ & F2 & F3 & F4 & _). unfold before, insertBefore.
  by rewrite E1, E2, E3, E4, F1, F2, F3, F4.
Qed.

Lemma same_order_listed p p' : Forall2 same_order (orders (ps_orderbook p)) (orders (ps_orderbook p')) →
  listed p → listed p'.
Proof.
  unfold listed, distinct_orders. intros H (Hd & Hs & Hf). rewrite (same_orders_ids' _ _ H). split; [done|].
  clear Hd. induction H as [|o o' l l' Ho Hl IH]; [done|].
  apply StronglySorted_cons in Hs as [Ho2 Hs]. apply Forall_cons in Hf as [Hd Hf]. destruct (IH Hs Hf) as [Hs' Hf'].
  split; [|constructor; [|done]].
  - apply StronglySorted_cons. split; [|done]. clear -Ho Ho2 Hl. induction Hl as [|x x' l l' Hx _ IH]; [constructor|].
    apply Forall_cons in Ho2 as [? ?]. constructor; [by eapply same_order_before|by apply IH].
  - destruct Ho as (_ & _ & _ & _ & <- & _). done.
Qed.

Lemma same_names_listed ps ps' : same_names ps ps' → (∀ id p, ps !! id = Some p → listed p) →
  ∀ id p, ps' !! id = Some p → listed p.
Proof.
  intros H Hd id p' Hp'. specialize (H id). rewrite Hp' in H. inversion H as [p ? E Hp|]; subst.
  by eapply same_order_listed; [|eapply Hd].
Qed.

(** Pools, waiting contributions and orders are named after the transactions that made them.
    All of these are among the transactions [used] so far. *)
Record tidy (used : gset Hash) (s : stateV2) : Prop := {
  ti_orders : ∀ id p, poolPairs s !! id = Some p → listed p;
  ti_named : named (poolPairs s) (waitingContributions s);
  ti_fresh : ∀ tx, tx ∉ used → fresh (poolPairs s) (waitingContributions s) tx;
  ti_ids : ∀ tx id p o, tx ∉ used → poolPairs s !! id = Some p → o ∈ orders (ps_orderbook p) →
             ord_id o ≠ Hash_String tx }.

Lemma same_names_unnamed ps ps' tx : same_names ps ps' → unnamed ps tx → unnamed ps' tx.
Proof. intros Hn Hu a b. by eapply same_names_none. Qed.

Lemma same_names_ids ps ps' id p' o' : same_names ps ps' → ps' !! id = Some p' →
  o' ∈ orders (ps_orderbook p') →
  ∃ p o, ps !! id = Some p ∧ o ∈ orders (ps_orderbook p) ∧ ord_id o = ord_id o'.
Proof.
  intros Hn Hp' Ho. specialize (Hn id). rewrite Hp' in Hn. inversion Hn as [p ? E Hp|]; subst.
  apply list_elem_of_lookup in Ho as [k Hk]. destruct (Forall2_lookup_r _ _ _ _ _ E Hk) as (o & Ho & Hsame).
  exists p, o. split; [done|]. split; [by eapply list_elem_of_lookup_2|apply Hsame].
Qed.

Lemma tidy_names used s s' : same_names (poolPairs s) (poolPairs s') →
  waitingContributions s' = waitingContributions s → tidy used s → tidy used s'.
Proof.
  intros Hn Hw [Ho [Hu Hd] Hf Hi]. split.
  - by eapply same_names_listed.
  - rewrite Hw. split; [|done]. intros k c Hc. eapply same_names_unnamed; [done|by eapply Hu].
  - intros tx Htx. rewrite Hw. destruct (Hf tx Htx) as [Hun Hwt]. split; [|done]. by eapply same_names_unnamed.
  - intros tx id p o Htx Hp Hin. destruct (same_names_ids _ _ _ _ _ Hn Hp Hin) as (p0 & o0 & Hp0 & Hin0 & <-).
    by eapply Hi.
Qed.

(** The states before and after the contributions of a block: the NFTs of the contributions
    [txs] are known, and inscriptions are counted from [n]. *)
Record early (used : gset Hash) (txs : list (Tx AddLiquidityRequest)) (n : Z) (s : stateV2) : Prop := {
  ea_tidy : tidy used s;
  ea_known : Forall (λ tx, known (nftIDs s) (tx_Metadata tx)) txs;
  ea_number : inscriptionNumber s = n }.

Record late (used : gset Hash) (n : Z) (s : stateV2) : Prop := {
  la_tidy : tidy used s;
  la_number : inscriptionNumber s = n }.

(** ** Steps *)
Section processing.
Context (GetInscriptionTokenID : Z → Hash) (beaconHeight : Z).
Abbreviation process := (processInstructions GetInscriptionTokenID beaconHeight).

(** [mirrors]: whenever the step succeeds from a state with [J], processing its instructions
    leads from any state that agrees with the one before to one that agrees with the one
    after, but for the new orders, and [J'] holds.  The books agree by any relation with
    [Q]. *)
Definition mirrors (fit : bool) (Q : books → Prop) (J J' : stateV2 → Prop) (n n' : Z)
    (step : stateV2 → outcome (list Instruction * stateV2)) : Prop :=
  ∀ R s insts s' t, Q R → ready fit s → J s → step s = Ok (insts, s') → agrees R n s t →
    J' s' ∧ ∃ t', process insts t = Ok t' ∧ agrees (withNew R insts) n' s' t'.

Definition trims (R : books) : Prop := R = λ _, trimmed.
Definition anyBooks (R : books) : Prop := True.

Lemma quiet_orders id insts : omap orderTx insts = [] → omap (newOrder id) insts = [].
Proof. induction insts as [|i insts IH]; [done|]. cbn. by destruct i. Qed.

(** The relation of the books after instructions without orders. *)
Lemma withNew_quiet R insts id l l' : omap orderTx insts = [] →
  withNew R insts id l l' ↔ R id l l'.
Proof.
  intros Hq. unfold withNew. rewrite quiet_orders by done. cbn [insertAll foldl].
  split; [by intros (l0 & H & ->)|]. intros H. by exists l'.
Qed.

Lemma agrees_mono (R R' : books) n s t : (∀ id l l', R id l l' → R' id l l') → agrees R n s t → agrees R' n s t.
Proof. intros H []. split; try done. by eapply pools_agree_mono. Qed.

Lemma mirrors_nil fit Q J n : mirrors fit Q J J n n (inSequence []).
Proof.
  intros R s insts s' t _ _ HJ [= <- <-] Hag. split; [done|]. exists t. split; [done|].
  eapply agrees_mono; [|done]. intros id l l'. by apply withNew_quiet.
Qed.

(** A step that places no order, and what follows it. *)
Lemma mirrors_cons f1 f2 c1 c2 inflow Q J1 J2 J3 n1 n2 n3 step steps :
  moves [] f1 f2 c1 c2 inflow step → mirrors f1 Q J1 J2 n1 n2 step →
  mirrors f2 Q J2 J3 n2 n3 (inSequence steps) → mirrors f1 Q J1 J3 n1 n3 (inSequence (step :: steps)).
Proof.
  intros Hm H1 H2 R s insts s' t HQ Hr HJ. cbn [inSequence].
  destruct (Hm s Hr) as (i1 & s1 & E1 & Hr1 & _ & [_ Hq%sublist_nil_r] & _). rewrite E1. cbn [mbind outcome_bind].
  intros ([i2 s2] & E2 & [= <- <-])%outcome_bind_Ok Hag.
  destruct (H1 R s i1 s1 t HQ Hr HJ E1 Hag) as (HJ1 & t1 & P1 & Hag1).
  destruct (H2 R s1 i2 s2 t1 HQ Hr1 HJ1 E2) as (HJ2 & t2 & P2 & Hag2).
  { eapply agrees_mono; [|exact Hag1]. intros id l l'. by apply withNew_quiet. }
  split; [done|]. exists t2. split; [by rewrite (process_app _ _ _ _ _ _ P1)|].
  eapply agrees_mono; [|exact Hag2]. intros id l l'. unfold withNew. rewrite omap_app.
  by rewrite (quiet_orders id i1).
Qed.

(** The step that places the orders; what follows it works for any books. *)
Lemma mirrors_orders hs f1 f2 c1 c2 inflow Q J1 J2 J3 n1 n2 n3 step steps :
  moves hs f1 f2 c1 c2 inflow step → mirrors f1 Q J1 J2 n1 n2 step →
  mirrors f2 anyBooks J2 J3 n2 n3 (inSequence steps) → mirrors f1 Q J1 J3 n1 n3 (inSequence (step :: steps)).
Proof.
  intros Hm H1 H2 R s insts s' t HQ Hr HJ. cbn [inSequence].
  destruct (Hm s Hr) as (i1 & s1 & E1 & Hr1 & _). rewrite E1. cbn [mbind outcome_bind].
  intros ([i2 s2] & E2 & [= <- <-])%outcome_bind_Ok Hag.
  destruct (H1 R s i1 s1 t HQ Hr HJ E1 Hag) as (HJ1 & t1 & P1 & Hag1).
  destruct (H2 (withNew R i1) s1 i2 s2 t1 I Hr1 HJ1 E2 Hag1) as (HJ2 & t2 & P2 & Hag2).
  split; [done|]. exists t2. split; [by rewrite (process_app _ _ _ _ _ _ P1)|].
  eapply agrees_mono; [|exact Hag2]. intros id l l'. apply withNew_app.
Qed.

(** A step that places no order and whose agreement is shown without it. *)
Lemma mirrors_quiet fit f2 c1 c2 inflow Q (J J' : stateV2 → Prop) n n' step :
  moves [] fit f2 c1 c2 inflow step →
  (∀ R s insts s' t, Q R → ready fit s → J s → step s = Ok (insts, s') → agrees R n s t →
    J' s' ∧ ∃ t', process insts t = Ok t' ∧ agrees R n' s' t') →
  mirrors fit Q J J' n n' step.
Proof.
  intros Hm H R s insts s' t HQ Hr HJ E Hag. destruct (Hm s Hr) as (i1 & s1 & E1 & _ & _ & [_ Hq%sublist_nil_r] & _).
  rewrite E in E1. injection E1 as <- <-. destruct (H R s insts s' t HQ Hr HJ E Hag) as (HJ' & t' & P & Hag').
  split; [done|]. exists t'. split; [done|]. eapply agrees_mono; [|done]. intros id l l'. by apply withNew_quiet.
Qed.

(** A step on the pools that leaves the names alone, and a step on the staking pools. *)
Definition stays (J : stateV2 → Prop) : Prop :=
  ∀ s, J s → (∀ ps', same_names (poolPairs s) ps' → J (with_pools ps' s)) ∧
             (∀ st', J (with_stakings st' s)).

Lemma early_stays used txs n : stays (early used txs n).
Proof.
  intros s [Ht Hk Hn]. split; [intros ps' Hs|intros st']; (split; [|done..]).
  - by eapply (tidy_names used s).
  - by apply (tidy_names used s).
Qed.

Lemma late_stays used n : stays (late used n).
Proof.
  intros s [Ht Hn]. split; [intros ps' Hs|intros st']; (split; [|done]).
  - by eapply (tidy_names used s).
  - by apply (tidy_names used s).
Qed.

Lemma mirrors_pools fit f2 c1 c2 inflow Q J n (handle : stateV2 → PoolPairs → outcome (list Instruction * PoolPairs)) :
  moves [] fit f2 c1 c2 inflow (λ s, onPools (handle s) s) → stays J →
  (∀ R s insts ps', Q R → ready fit s → J s → handle s (poolPairs s) = Ok (insts, ps') →
    pools_follow GetInscriptionTokenID beaconHeight (params s) R (poolPairs s) insts ps' ∧
    same_names (poolPairs s) ps') →
  mirrors fit Q J J n n (λ s, onPools (handle s) s).
Proof.
  intros Hm HJs H. eapply mirrors_quiet; [done|]. intros R s insts s' t HQ Hr HJ E [Hag Hw Hp Hst Hnf Hn].
  unfold onPools in E. apply outcome_bind_Ok in E as ([i ps'] & E & [= <- <-]).
  destruct (H R s i ps' HQ Hr HJ E) as [Hf Hsn]. destruct (Hf t Hag Hp) as (qs' & P & Hag').
  split; [by apply (HJs s HJ)|]. exists (with_pools qs' t). split; [done|]. by split.
Qed.

Lemma mirrors_stakings fit f2 c1 c2 inflow Q J n
    (handle : stateV2 → StakingPools → outcome (list Instruction * StakingPools)) :
  moves [] fit f2 c1 c2 inflow (λ s, onStakings (handle s) s) → stays J →
  (∀ s insts st', ready fit s → handle s (stakingPoolStates s) = Ok (insts, st') →
    stakes_follow GetInscriptionTokenID beaconHeight (stakingPoolStates s) insts st') →
  mirrors fit Q J J n n (λ s, onStakings (handle s) s).
Proof.
  intros Hm HJs H. eapply mirrors_quiet; [done|]. intros R s insts s' t HQ Hr HJ E [Hag Hw Hp Hst Hnf Hn].
  unfold onStakings in E. apply outcome_bind_Ok in E as ([i st'] & E & [= <- <-]).
  pose proof (H s i st' Hr E t Hst) as P.
  split; [by apply (HJs s HJ)|]. exists (with_stakings st' t). split; [done|]. by split.
Qed.

Lemma follows_pools params R ps insts ps' : follows GetInscriptionTokenID beaconHeight R ps insts ps' →
  pools_follow GetInscriptionTokenID beaconHeight params R ps insts ps'.
Proof. intros H t Hag _. by apply H. Qed.

(** ** The handlers *)
Section early.
Context (used : gset Hash) (contributions : list (Tx AddLiquidityRequest)) (n : Z).
Abbreviation J := (early used contributions n).

Lemma withdrawLPFee_mirrors txs : Forall (λ tx, wf_reward_request (tx_Metadata tx)) txs →
  mirrors true trims J J n n (onPools (withdrawLPFee txs)).
Proof.
  intros Htxs. apply (mirrors_pools _ _ _ _ _ _ _ _ (λ _, withdrawLPFee txs) (withdrawLPFee_moves 1 txs Htxs)).
  { apply early_stays. }
  intros R s insts ps' -> [[[Hw Hside] _ _ _ _] Hf] HJ E.
  destruct (withdrawLPFee_spec txs (poolPairs s) Hw Htxs) as (i & p & Hrun & _ & Hr & _).
  { intros tok. by apply Hf. }
  rewrite E in Hrun. injection Hrun as <- <-. split; [|by apply reward_changed_names].
  by eapply follows_pools, withdrawLPFee_follows.
Qed.

Lemma withdrawProtocolFee_mirrors addr shard txs :
  mirrors true trims J J n n (onPools (withdrawProtocolFee addr (Ok shard) txs)).
Proof.
  apply (mirrors_pools _ _ _ _ _ _ _ _ (λ _, withdrawProtocolFee addr (Ok shard) txs)
    (withdrawProtocolFee_moves 1 addr shard txs)).
  { apply early_stays. }
  intros R s insts ps' -> Hr HJ E. split; [by eapply follows_pools, withdrawProtocolFee_follows|].
  destruct (withdrawProtocolFeeLoop_spec addr shard txs (poolPairs s)) as [Hc _].
  unfold withdrawProtocolFee in E. cbn [mbind outcome_bind] in E. injection E as E. rewrite E in Hc.
  by apply fees_withdrawn_names.
Qed.

Lemma withdrawLiquidity_mirrors txs : Forall (λ tx, wf_withdraw (tx_Metadata tx)) txs →
  mirrors true trims J J n n (λ s, onPools (withdrawLiquidity (nftIDs s) txs) s).
Proof.
  intros Htxs. apply (mirrors_pools _ _ _ _ _ _ _ _ (λ s, withdrawLiquidity (nftIDs s) txs)
    (withdrawLiquidity_moves 1 txs Htxs)).
  { apply early_stays. }
  intros R s insts ps' -> [[[Hw Hside] _ _ _ _] Hf] HJ E.
  destruct (withdrawLiquidity_follows GetInscriptionTokenID beaconHeight (λ _, trimmed) _ _ _ _ _
    (we_pools _ (wa_exchange _ Hw)) Htxs E) as [? ?].
  split; [by apply follows_pools|done].
Qed.

Lemma withdrawOrder_mirrors txs : Forall (λ tx, wf_withdraw_order (tx_Metadata tx)) txs →
  mirrors true trims J J n n (onPools (withdrawOrder txs)).
Proof.
  intros Htxs. apply (mirrors_pools _ _ _ _ _ _ _ _ (λ _, withdrawOrder txs) (withdrawOrder_moves 1 txs Htxs)).
  { apply early_stays. }
  intros R s insts ps' -> [[[Hw Hside] _ _ _ _] Hf] HJ E.
  destruct (withdrawOrder_spec txs (poolPairs s) (wa_exchange _ Hw) Htxs) as (i & p & Hrun & _ & Hr & _).
  rewrite E in Hrun. injection Hrun as <- <-. split; [|by apply book_changed_names].
  by eapply follows_pools, withdrawOrder_follows; [apply Hw|..].
Qed.

Lemma trade_mirrors txs : Forall wf_trade_tx txs → NoDup (tx_id <$> txs) → Forall simple txs →
  mirrors false trims J J n n (λ s, onPools (trade (params s) txs) s).
Proof.
  intros Htxs Hnd Hs. apply (mirrors_pools _ _ _ _ _ _ _ _ (λ s, trade (params s) txs) (trade_moves txs Htxs Hnd)).
  { apply early_stays. }
  intros R s insts ps' -> [[[Hw Hside] _ [Hpar] _ _] Hf] [[Hls _ _ _] _ _] E.
  assert (Hdi : ∀ id p, poolPairs s !! id = Some p → distinct_orders p) by (intros id p Hid; by apply (Hls id p Hid)).
  destruct (trade_spec (params s) txs (poolPairs s) (wa_exchange _ Hw) Hpar Htxs Hnd)
    as (i & p & Hrun & _ & Hr & _).
  rewrite E in Hrun. injection Hrun as <- <-. split; [|by eapply trade_steps_names].
  by eapply trade_follows; [apply Hw|..].
Qed.

Lemma withdrawAllMatchedOrders_mirrors shardOf : mirrors false trims J J n n
  (λ s, onPools (withdrawAllMatchedOrders shardOf (AutoWithdrawOrderLimitAmount (params s))) s).
Proof.
  apply (mirrors_pools _ _ _ _ _ _ _ _
    (λ s, withdrawAllMatchedOrders shardOf (AutoWithdrawOrderLimitAmount (params s)))
    (withdrawAllMatchedOrders_moves 1 shardOf)).
  { apply early_stays. }
  intros R s insts ps' -> [[[Hw Hside] _ Hp _ _] Hf] [[Hls _ _ _] _ _] E.
  assert (Hdi : ∀ id p, poolPairs s !! id = Some p → distinct_orders p) by (intros id p Hid; by apply (Hls id p Hid)).
  destruct (withdrawAllMatchedOrders_spec shardOf _ (so_withdrawals _ _ Hp) (poolPairs s) (wa_exchange _ Hw))
    as (i & p & Hrun & _ & Hr & _).
  { intros id p Hid. apply (wd_ids _ (Hside _ _ Hid)). }
  rewrite E in Hrun. injection Hrun as <- <-. split; [|by apply book_changed_names].
  by eapply follows_pools, withdrawAllMatchedOrders_follows; [apply Hw|..].
Qed.

Lemma unstaking_mirrors txs : Forall (λ tx, wf_unstake_request (tx_Metadata tx)) txs →
  mirrors true trims J J n n (λ s, onStakings (λ pools, unstaking txs (nftIDs s) pools beaconHeight) s).
Proof.
  intros Htxs. apply (mirrors_stakings _ _ _ _ _ _ _ _ (λ s pools, unstaking txs (nftIDs s) pools beaconHeight)
    (unstaking_moves 1 beaconHeight txs Htxs)); [apply early_stays|].
  intros s insts st' Hr. by apply unstaking_follows.
Qed.

Lemma withdrawStakingReward_mirrors txs : Forall (λ tx, wf_reward_request (tx_Metadata tx)) txs →
  mirrors true trims J J n n (onStakings (withdrawStakingReward txs)).
Proof.
  intros Htxs. apply (mirrors_stakings _ _ _ _ _ _ _ _ (λ _, withdrawStakingReward txs)
    (withdrawStakingReward_moves 1 txs Htxs)); [apply early_stays|].
  intros s insts st' Hr. apply withdrawStakingReward_follows.
Qed.

Lemma distributeStakingReward_mirrors :
  mirrors false trims J J n n (λ s, onStakings (distributeStakingReward (poolPairs s) (params s)) s).
Proof.
  eapply mirrors_quiet; [apply distributeStakingReward_moves|].
  intros R s insts s' t HQ Hr HJ E [Hag Hw Hp Hst Hnf Hn].
  unfold onStakings in E. apply outcome_bind_Ok in E as ([i st'] & E & [= <- <-]).
  split; [by apply (early_stays used contributions n s HJ)|]. exists (with_stakings st' t).
  split; [by eapply distributeStakingReward_follows|]. by split.
Qed.
End early.

(** Contributions create pools, named after the contribution that waited, with empty books. *)
Lemma pool_changed_orders a b id p' o : rtc pool_changed a b → b !! id = Some p' →
  o ∈ orders (ps_orderbook p') → ∃ p, a !! id = Some p ∧ ps_orderbook p = ps_orderbook p'.
Proof.
  intros Hr. revert p'. induction Hr as [a|a b c Hab _ IH]; intros p' Hp Ho; [by exists p'|].
  destruct (IH p' Hp Ho) as (p & Hb & Eb). destruct Hab as [k q q' Hk _ Hsame _|k q' Hk Hnew].
  - apply lookup_insert_Some in Hb as [[-> <-]|[_ Hb]]; [|by exists p]. exists q. split; [done|].
    destruct Hsame as (_ & _ & _ & _ & Eo & _). congruence.
  - apply lookup_insert_Some in Hb as [[-> <-]|[_ Hb]]; [|by exists p].
    destruct Hnew as (_ & _ & E & _). rewrite <-Eb, E in Ho. cbn in Ho. by apply elem_of_nil in Ho.
Qed.

Lemma pool_changed_listed a b : rtc pool_changed a b → (∀ id p, a !! id = Some p → listed p) →
  ∀ id p, b !! id = Some p → listed p.
Proof.
  intros Hr Hd id p Hp. unfold listed, distinct_orders.
  destruct (orders (ps_orderbook p)) as [|o l] eqn:E; [by repeat constructor|].
  rewrite <-E. destruct (pool_changed_orders _ _ _ _ o Hr Hp) as (q & Hq & <-); [rewrite E; left|]. by apply (Hd id q).
Qed.

Definition hashes {Md} (txs : list (Tx Md)) : gset Hash := list_to_set (tx_Hash <$> txs).

Lemma addLiquidity_mirrors used n txs :
  Forall (λ tx, wf_request (tx_Metadata tx)) txs → NoDup (tx_Hash <$> txs) →
  Forall (λ tx, tx_Hash tx ∉ used) txs →
  mirrors false trims (early used txs n) (late (used ∪ hashes txs) n) n n (addLiquidityStep txs beaconHeight).
Proof.
  intros Htxs Hnd Hfr. eapply mirrors_quiet; [by apply (addLiquidity_moves beaconHeight)|].
  intros R s insts s' t -> [[Hm Hwt Hpar _ _] _] [[Ho Hna Hf Hi] Hk Hnum] E [Hag Hw Hp Hst Hnf Hn].
  unfold addLiquidityStep in E. apply outcome_bind_Ok in E as ([[i ps'] w'] & E & [= <- <-]).
  pose proof (we_pools _ (wa_exchange _ (wm_accounts _ Hm))) as Hwp.
  destruct (addLiquidity_follows GetInscriptionTokenID beaconHeight (λ _, trimmed) (nftIDs s) (params s) txs
    (poolPairs s) (waitingContributions s) i ps' w') as (HF & Hna' & Hf'); try done.
  { intros _. exact trimmed_nil. }
  { eapply Forall_impl; [exact Hfr|]. intros tx Htx. by apply Hf. }
  { intros k x Hx. by destruct (so_rewards _ _ Hpar k x Hx). }
  destruct (addLiquidity_spec (nftIDs s) (params s) beaconHeight txs (poolPairs s) (waitingContributions s))
    as (i2 & p2 & w2 & E2 & _ & _ & Hch & _); [done..|].
  rewrite E in E2. injection E2 as <- <- <-.
  destruct (HF t Hag Hw Hp) as (qs' & d' & P & Hag').
  split; [split; [split|done]|].
  - by eapply pool_changed_listed.
  - done.
  - intros tx Htx. apply not_elem_of_union in Htx as [Hu Hh]. apply Hf'; [|by apply Hf].
    intros Hin. apply Hh. by apply elem_of_list_to_set.
  - intros tx id p o Htx Hp' Hin. apply not_elem_of_union in Htx as [Hu _].
    destruct (pool_changed_orders _ _ _ _ _ Hch Hp' Hin) as (q & Hq & Eb). eapply Hi; [done..|by rewrite Eb].
  - exists (with_pools qs' (with_waiting w' (with_deleted d' t))). split; [done|]. by split.
Qed.

Section late.
Context (used : gset Hash) (n : Z).
Abbreviation J := (late used n).

Lemma staking_mirrors txs : Forall (λ tx, wf_stake_request (tx_Metadata tx)) txs →
  mirrors false trims J J n n (λ s, onStakings (λ pools, staking txs (nftIDs s) pools beaconHeight) s).
Proof.
  intros Htxs. apply (mirrors_stakings _ _ _ _ _ _ _ _ (λ s pools, staking txs (nftIDs s) pools beaconHeight)
    (staking_moves 0 beaconHeight txs Htxs)); [apply late_stays|].
  intros s insts st' Hr. by apply staking_follows.
Qed.

Lemma addOrder_mirrors counts txs : Forall (λ tx, wf_order_request (tx_Metadata tx)) txs →
  mirrors false trims J J n n (addOrderStep txs counts).
Proof.
  intros Htxs R s insts s' t -> Hr HJ E [Hag Hw Hp Hst Hnf Hn].
  unfold addOrderStep in E. apply outcome_bind_Ok in E as ([i c] & E & [= <- <-]). split; [done|].
  destruct (addOrder_agrees GetInscriptionTokenID beaconHeight (λ _, trimmed) (poolPairs s) i t)
    as (qs' & P & Hag'); [by eapply addOrder_placed|by eapply addOrder_inert|done|].
  exists (with_pools qs' t). split; [done|]. by split.
Qed.

Lemma mintPDEXGenesis_mirrors addr shard height :
  mirrors false anyBooks J J n n (mintPDEXGenesisStep addr (Ok shard) height beaconHeight).
Proof.
  eapply mirrors_quiet; [apply mintPDEXGenesis_moves|]. intros R s insts s' t _ Hr HJ E Hag.
  unfold mintPDEXGenesisStep in E. destruct (beaconHeight =? height).
  - injection E as <- <-. split; [done|]. by exists t.
  - injection E as <- <-. split; [done|]. by exists t.
Qed.

Lemma mintReward_agrees amount lm R m s insts s' t : in_u64 amount → ready false s → J s →
  mintRewardStep amount lm s = Ok (insts, s') → agrees R m s t →
  J s' ∧ ∃ t', process insts t = Ok t' ∧ agrees R m s' t'.
Proof.
  intros Ha [[[Hwm Hside] _ Hpar _ _] _] HJ E [Hag Hw Hp Hst Hnf Hn].
  unfold mintRewardStep in E. destruct (0 <? amount).
  - unfold onPools in E. apply outcome_bind_Ok in E as ([i ps'] & E & [= <- <-]).
    destruct (mintReward_spec PRVCoinID amount (params s) (poolPairs s) lm Hwm)
      as (i2 & p2 & E2 & _ & Hch & _); [|done|apply Hpar..|].
    { intros id p Hid. apply (wd_making _ (Hside _ _ Hid)). }
    rewrite E in E2. injection E2 as <- <-.
    destruct (mintReward_follows GetInscriptionTokenID beaconHeight R _ _ _ _ _ _ _ (so_mining _ _ Hpar) E t Hag)
      as (qs' & P & Hag').
    split; [by apply (late_stays used n s HJ), reward_changed_names|].
    exists (with_pools qs' t). split; [done|]. by split.
  - injection E as <- <-. split; [done|]. by exists t.
Qed.

Lemma mintReward_mirrors amount lm : in_u64 amount → mirrors false anyBooks J J n n (mintRewardStep amount lm).
Proof.
  intros Ha. eapply mirrors_quiet; [by apply mintReward_moves|]. intros R s insts s' t _. by apply mintReward_agrees.
Qed.

(** Inscriptions are numbered on from [n]. *)
Lemma mintNft_mirrors genNFT mints inscribes enabled : Forall (λ tx, in_u64 (mintAmount tx)) mints → in_u64 n →
  mirrors false anyBooks J J n
    (u64 (n + inscriptions (inscribe GetInscriptionTokenID inscribes n enabled)))
    (mintNftStep genNFT GetInscriptionTokenID mints inscribes enabled beaconHeight).
Proof.
  intros Hmints Hin. eapply mirrors_quiet; [by apply mintNft_moves|].
  intros R s insts s' t HQ Hr [Ht Hnum] E [Hag Hw Hp Hst Hnf Hn]. unfold mintNftStep in E.
  pose proof (userMintNft_spec genNFT mints beaconHeight (MintNftRequireAmount (params s)) (nftIDs s) 0 Hmints)
    as Hburn.
  pose proof (userMintNft_follows GetInscriptionTokenID beaconHeight genNFT mints beaconHeight
    (MintNftRequireAmount (params s)) (nftIDs s) 0) as Hmint.
  destruct (userMintNft _ _ _ _ _ _) as [[insts1 nfts] burned].
  destruct Hburn as (Hb & _); [unfold in_u64, word64; lia|].
  apply outcome_bind_Ok in E as ([minted s1] & E & [= <- <-]).
  pose proof (inscribe_follows GetInscriptionTokenID beaconHeight inscribes enabled (with_nfts nfts t)) as Hins.
  cbn [with_nfts inscriptionNumber] in Hins. rewrite Hn in Hins. specialize (Hins Hin). cbv zeta in Hins.
  rewrite Hnum. set (n' := u64 _) in *.
  set (t2 := with_inscriptions n' (with_nfts nfts t)) in *.
  destruct (mintReward_agrees burned false R n' (with_nfts nfts s) minted s1 t2 Hb) as (HJ' & t' & P & Hag'); try done.
  { split; [|done]. by destruct Hr as [[] _]. }
  { split; [by apply (tidy_names used s)|done]. }
  split; [done|]. exists t'. split; [|done].
  rewrite (process_app _ _ _ _ _ _ (Hmint t Hnf)). by rewrite (process_app _ _ _ _ _ _ Hins).
Qed.

Lemma modifyParams_mirrors m txs : Forall (λ tx, sane_params (tx_Metadata tx)) txs →
  mirrors false anyBooks J J m m (modifyParamsStep txs).
Proof.
  intros Htxs. eapply mirrors_quiet; [by apply modifyParams_moves|].
  intros R s insts s' t _ Hr [Ht Hnum] E [Hag Hw Hp Hst Hnf Hn]. unfold modifyParamsStep in E.
  pose proof (modifyParams_follows GetInscriptionTokenID beaconHeight txs (poolPairs s) _ _ t Hp Hst) as P.
  destruct (modifyParams _ _ _ _) as [[i params'] st']. injection E as <- <-.
  split; [split; [by apply (tidy_names used s)|done]|]. eexists. split; [exact P|]. by split.
Qed.
End late.
End processing.

(** ** The block *)
Lemma same_books_names ps ps' : ps_orderbook <$> ps' = ps_orderbook <$> ps → same_names ps ps'.
Proof.
  intros E id. apply (f_equal (.!! id)) in E. rewrite !lookup_fmap in E.
  destruct (ps !! id), (ps' !! id); try done; constructor. cbn in E. injection E as E. by rewrite E.
Qed.

(** The transactions that give their names to contributions, pools and orders. *)
Definition naming (env : StateEnvironment) : list Hash :=
  (tx_Hash <$> addLiquidityTxs (blockTxs env)) ++ (tx_Hash <$> addOrderTxs (blockTxs env)).

(** What the agreement needs of a block beside [wf_block]: these transactions are new, the
    NFTs of the contributions known, and the trades simple. *)
Record traceable (used : gset Hash) (env : StateEnvironment) (s : stateV2) : Prop := {
  tb_known : Forall (λ tx, known (nftIDs s) (tx_Metadata tx)) (addLiquidityTxs (blockTxs env));
  tb_distinct : NoDup (naming env);
  tb_fresh : Forall (λ tx, wf_hash tx ∧ tx ∉ used) (naming env);
  tb_simple : Forall simple (tradeTxs (blockTxs env)) }.

Section block.
Context (receivingAddressStr : string) (shard : Z) (shardOf : string → Z).
Context (genNFT : Z → Z → Hash) (GetInscriptionTokenID : Z → Hash) (breakPointHeight : Z).
Context (config : PDexConfig).
Abbreviation build := (BuildInstructions receivingAddressStr (Ok shard) shardOf genNFT
  GetInscriptionTokenID breakPointHeight).

(** The number of inscriptions after a block. *)
Definition inscribed (env : StateEnvironment) (n : Z) : Z :=
  u64 (n + inscriptions (inscribe GetInscriptionTokenID (inscribeTxs (blockTxs env)) n
                           (env_IsInscriptionFeatureEnabled env))).

Lemma blockSteps_mirrors used env counts n : wf_block env → (∀ nft, 0 ≤ countOf counts nft) → in_u64 n →
  NoDup (tx_Hash <$> addLiquidityTxs (blockTxs env)) →
  Forall (λ tx, tx_Hash tx ∉ used) (addLiquidityTxs (blockTxs env)) →
  Forall simple (tradeTxs (blockTxs env)) →
  let bh := add64 (env_PrevBeaconHeight env) 1 in
  mirrors GetInscriptionTokenID bh true trims (early used (addLiquidityTxs (blockTxs env)) n)
    (late (used ∪ hashes (addLiquidityTxs (blockTxs env))) n) n (inscribed env n)
    (inSequence (blockSteps receivingAddressStr (Ok shard) shardOf genNFT GetInscriptionTokenID
                   breakPointHeight env counts)).
Proof.
  intros [] Hcounts Hn Hnd Hfr Hs bh. unfold blockSteps. fold bh.
  eapply mirrors_cons; [by apply (withdrawLPFee_moves 1)|by apply withdrawLPFee_mirrors|].
  eapply mirrors_cons; [by apply (withdrawProtocolFee_moves 1)|by apply withdrawProtocolFee_mirrors|].
  eapply mirrors_cons; [by apply (withdrawLiquidity_moves 1)|by apply withdrawLiquidity_mirrors|].
  eapply mirrors_cons; [by apply (withdrawOrder_moves 1)|by apply withdrawOrder_mirrors|].
  eapply mirrors_cons; [by apply (unstaking_moves 1)|by apply unstaking_mirrors|].
  eapply mirrors_cons; [by apply (moves_weaken _ true false), (withdrawStakingReward_moves 1)
    |by apply withdrawStakingReward_mirrors|].
  eapply mirrors_cons; [by apply trade_moves|by apply trade_mirrors|].
  eapply mirrors_cons; [by apply (withdrawAllMatchedOrders_moves 1)|by apply withdrawAllMatchedOrders_mirrors|].
  eapply mirrors_cons; [by apply distributeStakingReward_moves|by apply distributeStakingReward_mirrors|].
  eapply mirrors_cons; [by apply addLiquidity_moves|by apply addLiquidity_mirrors|].
  eapply mirrors_cons; [by apply (staking_moves 0)|by apply staking_mirrors|].
  eapply mirrors_orders; [by apply addOrder_moves|by apply addOrder_mirrors|].
  eapply mirrors_cons; [by apply mintPDEXGenesis_moves|by apply mintPDEXGenesis_mirrors|].
  eapply mirrors_cons; [by apply mintReward_moves|by apply mintReward_mirrors|].
  eapply mirrors_cons; [by apply mintNft_moves|by apply mintNft_mirrors|].
  eapply mirrors_cons; [by apply modifyParams_moves|by apply modifyParams_mirrors|].
  apply mirrors_nil.
Qed.

(** Parameters a block can run with are not those of an exchange without parameters. *)
Lemma sound_not_zero params pools : sound_params params pools → IsZeroValue params = false.
Proof.
  intros [Hp _ _ _ _ _ _ _]. apply bool_decide_eq_false. intros ->. pose proof (wp_reserve _ Hp) as H.
  by cbn in H.
Qed.

Lemma pools_agree_refl R ps : (∀ id l, R id l l) → pools_agree R ps ps.
Proof. intros H id. destruct (ps !! id); constructor. by apply pool_agrees_refl; intros l. Qed.

Lemma block_agrees used env s : wf_stateV2 s → claims_fit s → wf_block env → tidy used s →
  in_u64 (inscriptionNumber s) → traceable used env s →
  ∃ insts s' t', build env s = Ok (insts, s') ∧
    Process GetInscriptionTokenID config (env_PrevBeaconHeight env) insts s = Ok t' ∧
    agrees (withNew (λ _, trimmed) insts) (inscribed env (inscriptionNumber s)) s' t' ∧
    tidy (used ∪ hashes (addLiquidityTxs (blockTxs env))) s' ∧ wf_stateV2 s' ∧
    emits (tx_Hash <$> addOrderTxs (blockTxs env)) (poolPairs s') insts ∧
    ∀ tok, 0 ≤ spent tok (poolPairs s') insts ∧
      ledger 0 tok s' + BaseLPFeesPerShare * spent tok (poolPairs s') insts ≤
      ledger 0 tok s + BaseLPFeesPerShare * blockInflow env tok.
Proof.
  intros Hs Hfit Hb Ht Hn [Hk Hd Hf Hsim].
  destruct (BuildInstructions_spec receivingAddressStr shard shardOf genNFT GetInscriptionTokenID breakPointHeight
    env s Hs Hfit Hb) as (insts & s' & Hrun & Hs' & _ & Hem & Hl). exists insts, s'. revert Hrun.
  unfold Process, BuildInstructions.
  destruct (startBlock_spec (MiningRewardPendingBlocks (params s)) (add64 (env_PrevBeaconHeight env) 1)
    (poolPairs s) (ws_market _ Hs)) as (pools & -> & Hm1 & Hev1 & Hbk & H1); [intros tok; apply Hfit|].
  cbn [mbind outcome_bind]. intros Hrun. apply NoDup_app in Hd as (Hd & _ & _).
  apply Forall_app in Hf as [Hf _]. rewrite Forall_fmap in Hf.
  destruct (blockSteps_mirrors used env (orderCountByNftID (poolPairs s)) (inscriptionNumber s) Hb
    (orderCountByNftID_nonneg _) Hn Hd) with (R := λ _ : string, trimmed) (s := with_pools pools s)
    (insts := insts) (s' := s') (t := with_pools pools s) as ([Hlate _] & t' & P & Hag);
    [|done|done| | |exact Hrun| |].
  - eapply Forall_impl; [exact Hf|]. by intros tx [].
  - destruct Hs as [Hm Hw Hp Hst Hc]. split; [split; try done; by eapply sound_evolves|]. intros _ tok.
    destruct (Hfit tok), (H1 tok) as (_ & ? & _). cbn. lia.
  - split; [|done..]. by apply (tidy_names used s); [apply same_books_names|..].
  - split; try done. apply pools_agree_refl. intros _. apply trimmed_refl.
  - exists t'. rewrite P. cbn [mbind outcome_bind].
    assert (IsZeroValue (params t') = false) as ->.
    { rewrite (ag_params _ _ _ _ Hag). eapply sound_not_zero, (ws_params _ Hs'). }
    by split_and!.
Qed.

(** C3: the processor refines the producer on valid and traceable blocks. Take a well-formed
    state whose claims fit 64 bits, whose names (pools, waiting contributions, orders) are all
    among the transactions used so far, and a block that is valid ([wf_block]) and traceable
    ([traceable]): its contributions name NFTs the exchange knows, the transactions of its
    contributions and orders are distinct hashes not used before, and its trades are simple (fee
    in PRV, PRV sold, or at most one pool on the path). Whenever the producer builds the
    instructions of such a block, processing these instructions from the same state succeeds,
    and the state it leads to agrees with the producer's: the same pools with the same reserves,
    shares, fees, rewards and making volumes, the same waiting contributions, parameters,
    staking pools and NFTs; each book is the producer's without some orders of which nothing is
    left and with the accepted orders of the block inserted; and the inscriptions are counted
    on. The processor executes no trade and checks no request again: it only applies what the
    instructions record. *)
Theorem Process_refines used env s insts s'
    (Hs : wf_stateV2 s) (Hfit : claims_fit s) (Hb : wf_block env) (Ht : tidy used s)
    (Hn : in_u64 (inscriptionNumber s)) (Htr : traceable used env s)
    (Hrun : build env s = Ok (insts, s')) :
  ∃ t', Process GetInscriptionTokenID config (env_PrevBeaconHeight env) insts s = Ok t' ∧
    agrees (withNew (λ _, trimmed) insts) (inscribed env (inscriptionNumber s)) s' t'.
Proof.
  destruct (block_agrees used env s Hs Hfit Hb Ht Hn Htr) as (i & s1 & t' & E & ? & ? & _).
  rewrite Hrun in E. injection E as <- <-. by exists t'.
Qed.
End block.

(** ** The block of [Solvency] *)
Lemma block_state_tidy : tidy {[emptyHash]} block_state.
Proof.
  assert (Hone : ∀ id p, poolPairs block_state !! id = Some p → id = sample_key ∧ p = reward_pool).
  { intros id p Hp. cbn [block_state poolPairs] in Hp. unfold reward_pools in Hp.
    by apply lookup_singleton_Some in Hp as [<- <-]. }
  assert (Hnil : orders (ps_orderbook reward_pool) = []) by reflexivity.
  split.
  - intros id p [_ ->]%Hone. unfold listed, distinct_orders. rewrite Hnil. by repeat constructor.
  - by split.
  - intros tx Htx. split; [|done]. intros a b. cbn [block_state poolPairs]. apply lookup_singleton_None.
    intros E. apply poolPairKey_tx in E. subst tx. apply Htx. set_solver.
  - intros tx id p o _ [_ ->]%Hone. rewrite Hnil. by intros ?%elem_of_nil.
Qed.

Lemma block_env_traceable : traceable {[emptyHash]} block_env block_state.
Proof.
  set (txs := blockTxs block_env).
  assert (Ht : txs = mjoin [default [] (env_ListTxs block_env !! 0); default [] (env_ListTxs block_env !! 1)])
    by (vm_compute; reflexivity).
  assert (Hn : naming block_env = [named_hash 1; PRVCoinID]) by (unfold naming; fold txs; rewrite Ht; reflexivity).
  split; fold txs.
  - rewrite Ht. apply Forall_cons_2; [|apply Forall_nil_2]. exists 1. vm_compute. reflexivity.
  - rewrite Hn. apply (bool_decide_unpack _). vm_compute. exact I.
  - rewrite Hn. repeat apply Forall_cons_2; try apply Forall_nil_2; (split; [reflexivity|]);
      apply (bool_decide_unpack _); vm_compute; exact I.
  - rewrite Ht. apply Forall_cons_2; [|apply Forall_nil_2]. right. right. by cbn.
Qed.

Lemma Process_refines_witness :
  ∃ insts s' t', BuildInstructions "fund" (Ok 0) (λ _, 0) (λ _ _, PRVCoinID) (λ _, PRVCoinID) 1 block_env
      block_state = Ok (insts, s') ∧ length insts = 12%nat ∧
    Process (λ _, PRVCoinID) (mkPDexConfig 0 0 0 0 ∅ 0 0 0 0) 8 insts block_state = Ok t' ∧
    nftIDs t' = nftIDs s' ∧ size (nftIDs t') = 2%nat.
Proof.
  assert (Hrun : match BuildInstructions "fund" (Ok 0) (λ _, 0) (λ _ _, PRVCoinID) (λ _, PRVCoinID) 1
    block_env block_state with Ok (i, s) => (length i, size (nftIDs s)) | _ => (O, O) end = (12%nat, 2%nat))
    by (vm_compute; reflexivity).
  destruct (BuildInstructions _ _ _ _ _ _ _ _) as [[insts s']| | |] eqn:E; try discriminate Hrun.
  injection Hrun as Hlen Hsize.
  destruct (Process_refines "fund" 0 (λ _, 0) (λ _ _, PRVCoinID) (λ _, PRVCoinID) 1
    (mkPDexConfig 0 0 0 0 ∅ 0 0 0 0) {[emptyHash]} block_env block_state insts s' block_state_wf block_claims_fit
    block_env_wf block_state_tidy (conj (Z.le_refl 0) eq_refl) block_env_traceable E) as (t' & Hp & [_ _ _ _ Hnft _]).
  exists insts, s', t'. split; [reflexivity|]. split; [exact Hlen|]. split; [exact Hp|]. split; [exact Hnft|].
  rewrite Hnft. exact Hsize.
Defined.
