(* ===== verification/Chain.v ===== *)
(** The exchange along a chain of blocks.  Every block starts from the state the processor
    left.  That state satisfies the producer's invariant again, so that an exchange that is
    fed valid blocks never stops, and stays solvent, for as long as the tokens in it fit
    64 bits. *)
From S2P Require Import Prelude Hash RawDB Swap Order Reserve OrderBook Trade Reward TrackFee PdexUtils PoolPair Staking Params WeightedFee Instructions LiquidityProducer TradeProducer OrderProducer RewardProducer StakingProducer StateV2 Processor Market Solvency Agreement StateAgreement Refinement.

Local Open Scope Z_scope.

(** ** The processor's books *)
Lemma trimmed_Forall (P : Pdexv3Order → Prop) l l' : trimmed l l' → Forall P l → Forall P l'.
Proof.
  induction 1 as [|o l l' _ IH|o l l' _ _ IH]; intros H; [done|..]; apply Forall_cons in H as [? ?]; [|by apply IH].
  constructor; [done|by apply IH].
Qed.

Lemma trimmed_sorted l l' : trimmed l l' → StronglySorted before l → StronglySorted before l'.
Proof.
  induction 1 as [|o l l' Ht IH|o l l' _ _ IH]; intros H; [done|..]; apply StronglySorted_cons in H as [? ?];
    [|by apply IH]. apply StronglySorted_cons. split; [by eapply trimmed_Forall|by apply IH].
Qed.

Lemma trimmed_sum l l' : trimmed l l' →
  list_sum ord_token0Balance l' = list_sum ord_token0Balance l ∧
  list_sum ord_token1Balance l' = list_sum ord_token1Balance l.
Proof.
  induction 1 as [|o l l' _ [IH0 IH1]|o l l' [E0 E1] _ [IH0 IH1]]; [done|..]; rewrite !list_sum_cons; lia.
Qed.

Lemma insertAll_perm l new : insertAll l new ≡ₚ new ++ l.
Proof.
  revert l. induction new as [|o new IH]; intros l; [done|]. cbn [insertAll foldl]. etrans; [apply IH|].
  rewrite InsertOrder_perm. cbn [orders]. by rewrite <-Permutation_middle.
Qed.

(** New orders with fresh identifiers keep a book sorted. *)
Lemma insertAll_sorted l new : sorted_book (mkOrderbook l) → Forall bk_order new →
  NoDup (ord_id <$> new) → (∀ o, o ∈ new → ord_id o ∉ ord_id <$> l) →
  sorted_book (mkOrderbook (insertAll l new)).
Proof.
  intros Hl Hnew. revert l Hl. induction Hnew as [|o new Ho _ IH]; intros l Hl Hnd Hfr; [done|].
  cbn [insertAll foldl]. cbn [fmap list_fmap] in Hnd. apply NoDup_cons in Hnd as [Hni Hnd].
  destruct (InsertOrder_keeps o (mkOrderbook l)) as [Hs Hp]; [done..|apply Hfr; left|].
  apply IH; [by destruct (InsertOrder o (mkOrderbook l))|done|]. intros o' Hin. rewrite Hp. cbn.
  apply not_elem_of_cons. split; [|apply Hfr; by right]. intros E. apply Hni. rewrite <-E.
  by apply list_elem_of_fmap_2.
Qed.

(** A sum over a map is one over its measured values. *)
Lemma map_sum_values {A} (f : A → Z) (m : gmap string A) : map_sum f m = map_sum (λ x, x) (f <$> m).
Proof. by rewrite map_sum_fmap. Qed.

(** Measures the two copies of a pool share. *)
Lemma pools_agree_sum (f : PoolPairState → Z) R ps qs : pools_agree R ps qs →
  (∀ v b p, f (dress v b p) = f p) → map_sum f qs = map_sum f ps.
Proof.
  intros H Hf. rewrite !(map_sum_values f). f_equal.
  apply map_eq. intros id. rewrite !lookup_fmap. specialize (H id).
  destruct H as [p q [v b _ _]|]; [|done]. cbn. by rewrite Hf.
Qed.

(** New orders bring what was deposited in them. *)
Lemma booked_holdings tok ps insts qs : Forall (placed ps) insts →
  pools_agree (withNew (λ _, trimmed) insts) ps qs →
  poolsHoldings tok qs = poolsHoldings tok ps + list_sum (deposited ps tok) insts.
Proof.
  intros Hp. revert qs. induction insts as [|i insts IH] using rev_ind; intros qs Hag.
  - unfold list_sum. cbn. rewrite Z.add_0_r. unfold poolsHoldings.
    rewrite !(map_sum_values (poolHoldings tok)). f_equal. apply map_eq. intros id. rewrite !lookup_fmap. specialize (Hag id).
    destruct Hag as [p q [v b _ (l & Hl & Eb)]|]; [|done]. cbn in Eb |- *. destruct (trimmed_sum _ _ Hl) as [E0 E1].
    f_equal. unfold poolHoldings. cbn [dress ps_state ps_orderbook]. by rewrite Eb, E0, E1.
  - apply Forall_app in Hp as [Hp Hi]. apply Forall_cons in Hi as [Hi _].
    rewrite list_sum_app, list_sum_cons. unfold list_sum at 2. cbn [foldr]. rewrite Z.add_0_r, Z.add_assoc.
    destruct (orderTx i) as [tx0|] eqn:E0.
    + destruct i; try done.
      clear E0. destruct Hi as ([p Hpid] & _ & _). cbn [deposited]. rewrite Hpid. set (id := ao_PoolPairID md) in *.
      pose proof (Hag id) as Hq. rewrite Hpid in Hq. inversion Hq as [? q [v b Hv (l & Hl & Eb)] Eq Eqs|]; subst.
      rewrite omap_app in Eb. cbn [omap list_omap newOrder] in Eb. rewrite decide_True in Eb by done.
      set (new := omap (newOrder id) insts) in *. set (b0 := mkOrderbook (insertAll l new)).
      assert (Eb' : orders b = orders (InsertOrder (orderOf md) b0)).
      { rewrite Eb. unfold insertAll. by rewrite foldl_app. }
      pose proof (IH Hp (<[id := dress v b0 p]> qs)) as H. rewrite <-H.
      * unfold poolsHoldings. rewrite map_sum_insert, <-Eqs. cbn [from_option].
        enough (poolHoldings tok (dress v b p) = poolHoldings tok (dress v b0 p) +
          (ofToken tok (pp_token0ID (ps_state p)) (ao_Token0Balance md) +
           ofToken tok (pp_token1ID (ps_state p)) (ao_Token1Balance md))) by lia.
        unfold poolHoldings, ofToken. cbn [dress ps_state ps_orderbook]. rewrite Eb'.
        rewrite !(list_sum_Permutation _ _ _ (InsertOrder_perm _ _)), !list_sum_cons. cbn [orderOf ord_token0Balance ord_token1Balance].
        repeat case_decide; lia.
      * intros k. destruct (decide (id = k)) as [<-|Hne].
        -- rewrite Hpid, lookup_insert_eq. constructor. constructor; [done|]. by exists l.
        -- rewrite lookup_insert_ne by done. specialize (Hag k). destruct Hag as [x y [v' b' Hv' (l' & Hl' & E')]|]; [|constructor].
           do 2 constructor; [done|]. exists l'. split; [done|]. rewrite E', omap_app. cbn [omap list_omap newOrder].
           rewrite decide_False by done. by rewrite app_nil_r.
    + replace (deposited ps tok i) with 0 by by destruct i. rewrite Z.add_0_r. apply IH; [done|].
      eapply pools_agree_mono; [|exact Hag]. intros id l l' (l0 & Hl & El). exists l0. split; [done|].
      rewrite El, omap_app. cbn [omap list_omap]. replace (newOrder id i) with (@None Pdexv3Order) by by destruct i.
      by rewrite app_nil_r.
Qed.

(** ** The state after a block

    [insts] were processed; [s] is the producer's state and [t] the processor's. *)
Section processed.
Context (s t : stateV2) (n : Z) (insts : list Instruction).
Hypothesis Hag : agrees (withNew (λ _, trimmed) insts) n s t.
Hypothesis Hplaced : Forall (placed (poolPairs s)) insts.

Lemma newOrder_Some id o : o ∈ omap (newOrder id) insts →
  bk_order o ∧ ∃ tx, tx ∈ omap orderTx insts ∧ ord_id o = Hash_String tx.
Proof.
  intros (i & Hi & E)%list_elem_of_omap. eapply Forall_forall in Hplaced; [|exact Hi].
  destruct i; try done. cbn in E. case_decide; [|done]. injection E as <-. destruct Hplaced as (_ & Hb & Hid).
  split; [done|]. exists txID. split; [|done]. apply list_elem_of_omap. by eexists.
Qed.

Lemma newOrder_NoDup id : NoDup (omap orderTx insts) → NoDup (ord_id <$> omap (newOrder id) insts).
Proof.
  clear Hag. intros Hnd. enough (H : sublist (ord_id <$> omap (newOrder id) insts) (Hash_String <$> omap orderTx insts)).
  { apply (sublist_NoDup _ _ (NoDup_fmap_2 Hash_String _ Hnd) H). }
  clear Hnd. induction Hplaced as [|i l Hi Hl IH]; [done|]. specialize (IH Hl). cbn [omap list_omap].
  destruct i; try exact IH. cbn [newOrder orderTx]. destruct Hi as (_ & _ & Hid). case_decide.
  - cbn [fmap list_fmap]. change (ord_id (orderOf md)) with (ao_OrderID md). rewrite Hid. by constructor.
  - cbn [fmap list_fmap]. by constructor.
Qed.

(** The pools of the processor, one by one. *)
Lemma processed_pool id q : poolPairs t !! id = Some q →
  ∃ p v b l, poolPairs s !! id = Some p ∧ q = dress v b p ∧ same_volumes (ps_makingVolume p) v ∧
    trimmed (orders (ps_orderbook p)) l ∧ orders b = insertAll l (omap (newOrder id) insts).
Proof.
  intros Hq. pose proof (ag_pools _ _ _ _ Hag id) as H. rewrite Hq in H.
  inversion H as [p ? [v b Hv (l & Hl & Eb)] Hp|]; subst. by exists p, v, b, l.
Qed.

Lemma processed_market : wf_market (poolPairs s) → Forall wf_hash (omap orderTx insts) →
  wf_market (poolPairs t).
Proof.
  intros [Hw Hside] Hh.
  assert (Hb : ∀ id q, poolPairs t !! id = Some q →
    Forall wf_order (orders (ps_orderbook q)) ∧ ids_ok (orders (ps_orderbook q))).
  { intros id q (p & v & b & l & Hp & -> & _ & Hl & Eb)%processed_pool. cbn [dress ps_orderbook].
    unfold ids_ok. rewrite Eb, !insertAll_perm, !Forall_app.
    pose proof (trimmed_Forall _ _ _ Hl (we_books _ (wa_exchange _ Hw) _ _ Hp)).
    pose proof (trimmed_Forall _ _ _ Hl (wd_ids _ (Hside _ _ Hp))).
    split; (split; [|done]); apply Forall_forall; intros o (? & tx & Htx & Hid)%newOrder_Some; [apply H1|].
    exists tx. split; [by eapply Forall_forall in Hh|done]. }
  split; [split; [split|]|].
  - intros id q (p & v & b & l & Hp & -> & _)%processed_pool.
    destruct (we_pools _ (wa_exchange _ Hw) _ _ Hp) as [[? ? ? ? [? ? ? He ? ?]] ?].
    split; [|done]. split; try done. split; try done. intros nft sh Hs. by destruct (He nft sh Hs).
  - intros id q Hq. by apply (Hb id q Hq).
  - intros id q (p & v & b & l & Hp & -> & _)%processed_pool. exact (wa_orders _ Hw id p Hp).
  - intros id q Hq. pose proof (Hb id q Hq) as [_ Hids].
    apply processed_pool in Hq as (p & v & b & l & Hp & -> & Hv & _).
    destruct (Hside _ _ Hp) as [Hm ? ? ? _]. split; try done.
    intros tok mv nft x Hmv Hx. specialize (Hv tok). unfold volumesOf in Hv. cbn [dress ps_makingVolume] in Hmv.
    rewrite Hmv in Hv. cbn in Hv. destruct (ps_makingVolume p !! tok) as [mv'|] eqn:E; cbn in Hv; subst mv.
    + by eapply Hm.
    + change (volume NewMakingVolume) with (∅ : gmap string Z) in Hx. by rewrite lookup_empty in Hx.
Qed.

Lemma processed_wf : wf_stateV2 s → Forall wf_hash (omap orderTx insts) → wf_stateV2 t.
Proof.
  intros [Hm Hw Hp Hst Hc] Hh. destruct Hag as [Hpools Ew Ep Es En Ei]. split.
  - by apply processed_market.
  - by rewrite Ew.
  - rewrite Ep. destruct Hp as [? Hrew ? ? ? ? ? ?]. split; try done. intros k w Hk. destruct (Hrew k w Hk) as [? [p Hkp]].
    split; [done|]. destruct (pools_agree_some _ _ _ _ _ Hpools Hkp) as (q & -> & _). by eexists.
  - by rewrite Es.
  - by rewrite Ep, Es.
Qed.

(** The books hold what was deposited in new orders; all else is equal. *)
Lemma processed_ledger tok : ledger 0 tok t =
  ledger 0 tok s + BaseLPFeesPerShare * list_sum (deposited (poolPairs s) tok) insts.
Proof.
  destruct Hag as [Hpools Ew Ep Es En Ei]. unfold ledger, worth. rewrite Ew, Es.
  rewrite (booked_holdings tok _ _ _ Hplaced Hpools). unfold protocolHoldings, claims, setAside.
  rewrite !(pools_agree_sum _ _ _ _ Hpools) by done. unfold BaseLPFeesPerShare. lia.
Qed.

Lemma processed_tidy used : tidy used s → wf_stateV2 s → NoDup (omap orderTx insts) →
  Forall (λ tx, tx ∉ used) (omap orderTx insts) → tidy (used ∪ list_to_set (omap orderTx insts)) t.
Proof.
  intros [Ho [Hu Hd] Hf Hi] Hs Hnd Hfr. pose proof (ag_waiting _ _ _ _ Hag) as Ew.
  assert (Hun : ∀ tx, unnamed (poolPairs s) tx → unnamed (poolPairs t) tx).
  { intros tx H a b. eapply pools_agree_none; [apply (ag_pools _ _ _ _ Hag)|done]. }
  split.
  - intros id q (p & v & b & l & Hp & -> & _ & Hl & Eb)%processed_pool. destruct (Ho id p Hp) as (Hdi & Hso & Hdr).
    assert (Hbook : sorted_book (mkOrderbook l)).
    { split; cbn [orders].
      - apply Forall_forall. intros o Hin. pose proof (we_books _ (wa_exchange _ (wm_accounts _ (ws_market _ Hs))) _ _ Hp) as Hwo.
        pose proof (trimmed_Forall _ _ _ Hl Hwo) as H1. pose proof (trimmed_Forall _ _ _ Hl Hdr) as H2.
        split; [by eapply Forall_forall in H1|by eapply (Forall_forall (λ o, dir_ok _)) in H2].
      - by eapply trimmed_sorted.
      - by eapply trimmed_NoDup. }
    assert (Hnew : ∀ o, o ∈ omap (newOrder id) insts → ord_id o ∉ ord_id <$> l).
    { intros o (_ & tx & Htx & Hid)%newOrder_Some Hin. eapply (trimmed_ids _ _ _ Hl) in Hin.
      apply list_elem_of_fmap in Hin as (o' & E & Hin). rewrite Hid in E.
      eapply (Hi tx id p o'); [|done..]. by eapply (Forall_forall (λ tx, tx ∉ used)) in Hfr. }
    destruct (insertAll_sorted l (omap (newOrder id) insts) Hbook) as [S1 S2 S3]; [|by apply newOrder_NoDup|done|].
    { apply Forall_forall. by intros o [? _]%newOrder_Some. }
    cbn [orders] in S1, S2, S3. unfold listed, distinct_orders. cbn [dress ps_orderbook]. rewrite Eb.
    split; [done|]. split; [done|]. eapply Forall_impl; [exact S1|]. by intros o [].
  - split; rewrite Ew; [|done]. intros k c Hc. by eapply Hun, Hu.
  - intros tx Htx. apply not_elem_of_union in Htx as [Htx _]. destruct (Hf tx Htx) as [H1 H2].
    split; [by apply Hun|by rewrite Ew].
  - intros tx id q o Htx Hq Hin. apply not_elem_of_union in Htx as [Htx Hn2].
    apply processed_pool in Hq as (p & v & b & l & Hp & -> & _ & Hl & Eb). cbn [dress ps_orderbook] in Hin.
    rewrite Eb, insertAll_perm in Hin. apply elem_of_app in Hin as [Hin|Hin].
    + apply newOrder_Some in Hin as (_ & tx' & Htx' & ->). intros E%Hash_String_injective. subst tx'.
      apply Hn2. by apply elem_of_list_to_set.
    + intros E. assert (Hin' : ord_id o ∈ ord_id <$> orders (ps_orderbook p)).
      { eapply trimmed_ids; [done|]. by apply list_elem_of_fmap_2. }
      apply list_elem_of_fmap in Hin' as (o' & E' & Hin'). eapply Hi; [exact Htx|done..|congruence].
Qed.
End processed.

(** What is owed is part of the ledger, so that it fits 64 bits when the ledger does. *)
Lemma poolsHoldings_nonneg tok pools : wf_exchange pools → 0 ≤ poolsHoldings tok pools.
Proof.
  intros Hw. apply map_sum_nonneg. intros id p Hp. destruct (we_pools _ Hw _ _ Hp) as [[Hpair _ _ _ _] _].
  pose proof (we_books _ Hw _ _ Hp) as Hb.
  assert (H : 0 ≤ list_sum ord_token0Balance (orders (ps_orderbook p)) ∧ 0 ≤ list_sum ord_token1Balance (orders (ps_orderbook p))).
  { split; apply list_sum_nonneg; (eapply Forall_impl; [exact Hb|]); intros o []; unfold in_u64 in *; lia. }
  destruct Hpair, H. unfold poolHoldings, in_u64 in *. repeat case_decide; lia.
Qed.

Lemma ledger_bounds tok s : wf_stateV2 s →
  0 ≤ claims tok (poolPairs s) ∧ 0 ≤ stakeClaims tok (stakingPoolStates s) ∧
  claims tok (poolPairs s) + stakeClaims tok (stakingPoolStates s) ≤ ledger 0 tok s.
Proof.
  intros [[Hacc Hside] Hw _ Hst _]. unfold ledger, worth.
  pose proof (poolsHoldings_nonneg tok _ (wa_exchange _ Hacc)).
  assert (0 ≤ protocolHoldings tok (poolPairs s)).
  { apply map_sum_nonneg. intros id p Hp. apply (wd_protocol _ (Hside _ _ Hp)). }
  assert (0 ≤ waitingHoldings tok (waitingContributions s)).
  { apply map_sum_nonneg. intros k c Hc. unfold contributed. destruct (wc_amount _ (Hw _ _ Hc)).
    unfold in_u64 in *. case_decide; lia. }
  assert (0 ≤ staked tok (stakingPoolStates s)).
  { unfold staked. destruct (stakingPoolStates s !! Hash_String tok) as [p|] eqn:E; [|cbn; lia].
    cbn. apply (wsp_total _ (Hst _ _ E)). }
  assert (0 ≤ claims tok (poolPairs s)).
  { apply map_sum_nonneg. intros id p Hp. by destruct (poolClaims_nonneg tok _ _ _ Hacc Hp) as (_ & _ & ?). }
  assert (0 ≤ stakeClaims tok (stakingPoolStates s)).
  { apply map_sum_nonneg. intros id p Hp. by eapply stakeLiability_nonneg, Hst. }
  unfold BaseLPFeesPerShare in *. lia.
Qed.

Lemma ledger_fits s : wf_stateV2 s → (∀ tok, ledger 0 tok s < BaseLPFeesPerShare * word64) → claims_fit s.
Proof. intros Hs Hl tok. specialize (Hl tok). pose proof (ledger_bounds tok s Hs). lia. Qed.

(** ** Blocks in a row

    A beacon block: its producer builds the instructions from a copy of the state, and every
    node processes them.  A block without instructions of the exchange is not processed. *)
Section chain.
Context (receivingAddressStr : string) (shard : Z) (shardOf : string → Z).
Context (genNFT : Z → Z → Hash) (GetInscriptionTokenID : Z → Hash) (breakPointHeight : Z).
Context (config : PDexConfig).

Definition nextBlock (env : StateEnvironment) (s : stateV2) : outcome (list Instruction * stateV2) :=
  r ← BuildInstructions receivingAddressStr (Ok shard) shardOf genNFT GetInscriptionTokenID
        breakPointHeight env s;
  match r.1 with
  | [] => Ok ([], s)
  | insts =>
      t ← Process GetInscriptionTokenID config (env_PrevBeaconHeight env) insts s;
      Ok (insts, ClearCache t)
  end.

Fixpoint runBlocks (envs : list StateEnvironment) (s : stateV2) : outcome (list Instruction * stateV2) :=
  match envs with
  | [] => Ok ([], s)
  | env :: envs =>
      r ← nextBlock env s;
      r' ← runBlocks envs r.2;
      Ok (r.1 ++ r'.1, r'.2)
  end.

(** Everything the next block relies on. *)
Record sound_state (used : gset Hash) (s : stateV2) : Prop := {
  ss_wf : wf_stateV2 s;
  ss_tidy : tidy used s;
  ss_number : in_u64 (inscriptionNumber s) }.

(** The books of a sound state are sorted, without duplicates. *)
Lemma sound_books used s id p : sound_state used s → poolPairs s !! id = Some p → sorted_book (ps_orderbook p).
Proof.
  intros [Hs [Ho _ _ _] _] Hp. destruct (Ho id p Hp) as (Hd & Hso & Hdr).
  pose proof (we_books _ (wa_exchange _ (wm_accounts _ (ws_market _ Hs))) _ _ Hp) as Hw.
  split; [|done|done]. apply Forall_forall. intros o Hin.
  split; [by eapply Forall_forall in Hw|by eapply (Forall_forall (λ o, dir_ok _)) in Hdr].
Qed.

Lemma tidy_mono used used' s : used ⊆ used' → tidy used s → tidy used' s.
Proof. intros Hu [? ? Hf Hi]. split; [done|done|..]; intros tx; [intros ?; apply Hf; set_solver|].
  intros id p o Htx. eapply Hi. set_solver.
Qed.

Lemma placed_payouts tok pools insts : Forall (placed pools) insts → 0 ≤ payouts tok insts.
Proof.
  intros H. apply list_sum_nonneg. eapply Forall_impl; [exact H|]. intros i Hi.
  destruct i; try apply Hi. done.
Qed.

Lemma blockInflow_nonneg env tok : wf_block env → 0 ≤ blockInflow env tok.
Proof.
  intros [_ _ _ _ _ Ht _ Hc Hs Ho Hm _ Hr]. unfold blockInflow.
  assert (H : ∀ {Md} (f : Tx Md → Z) (txs : list (Tx Md)) (P : Tx Md → Prop),
    Forall P txs → (∀ tx, P tx → 0 ≤ f tx) → 0 ≤ list_sum f txs).
  { intros Md f txs P HP Hf. apply list_sum_nonneg. by eapply Forall_impl. }
  pose proof (H _ (brought tok) _ _ Ht) as H1. pose proof (H _ (requested tok) _ _ Hc) as H2.
  pose proof (H _ (stakeBrought tok) _ _ Hs) as H3. pose proof (H _ (offered tok) _ _ Ho) as H4.
  pose proof (H _ mintAmount _ _ Hm) as H5. unfold ofToken.
  assert (0 ≤ list_sum (brought tok) (tradeTxs (blockTxs env))).
  { apply H1. intros tx [[? [] _ _] _ _ _]. unfold brought, ofToken. repeat case_decide; lia. }
  assert (0 ≤ list_sum (requested tok) (addLiquidityTxs (blockTxs env))).
  { apply H2. intros tx []. unfold requested, in_u64 in *. destruct (NewHashFromStr _); try lia. case_decide; lia. }
  assert (0 ≤ list_sum (stakeBrought tok) (stakingTxs (blockTxs env))).
  { apply H3. intros tx []. unfold stakeBrought, in_u64 in *. case_decide; lia. }
  assert (0 ≤ list_sum (offered tok) (addOrderTxs (blockTxs env))).
  { apply H4. intros tx []. unfold offered, ofToken. case_decide; lia. }
  assert (0 ≤ list_sum mintAmount (mintNftTxs (blockTxs env))) by (apply H5; by intros tx []).
  unfold in_u64 in Hr. repeat case_decide; lia.
Qed.

(** One block: it is built and processed without error, the state after it is sound, and
    what is paid is covered. *)
Lemma nextBlock_spec used env s : sound_state used s → claims_fit s → wf_block env → traceable used env s →
  ∃ insts t, nextBlock env s = Ok (insts, t) ∧ sound_state (used ∪ list_to_set (naming env)) t ∧
    ∀ tok, 0 ≤ payouts tok insts ∧
      ledger 0 tok t + BaseLPFeesPerShare * payouts tok insts ≤
      ledger 0 tok s + BaseLPFeesPerShare * blockInflow env tok.
Proof.
  intros [Hs Ht Hn] Hfit Hb Htr.
  destruct (block_agrees receivingAddressStr shard shardOf genNFT GetInscriptionTokenID breakPointHeight config
    used env s Hs Hfit Hb Ht Hn Htr) as (insts & s' & t & Hrun & Hproc & Hag & Ht' & Hs' & [Hpl Hsub] & Hl).
  unfold nextBlock. rewrite Hrun. cbn [mbind outcome_bind fst].
  destruct insts as [|i insts].
  { exists [], s. split; [done|]. split.
    - split; [done| |done]. eapply tidy_mono; [|done]. set_solver.
    - intros tok. pose proof (blockInflow_nonneg env tok Hb). unfold payouts, list_sum, BaseLPFeesPerShare. cbn. lia. }
  set (all := i :: insts) in *. rewrite Hproc. cbn [mbind outcome_bind]. exists all, (ClearCache t). split; [done|].
  destruct Htr as [_ Hd Hf _]. unfold naming in Hd, Hf. apply NoDup_app in Hd as (_ & Hdis & Hnd).
  apply Forall_app in Hf as [_ Hf].
  assert (Hin : ∀ tx, tx ∈ omap orderTx all → tx ∈ tx_Hash <$> addOrderTxs (blockTxs env))
    by (intros tx Hi; by eapply elem_of_submseteq, sublist_submseteq).
  split.
  - split.
    + assert (Hwf : wf_stateV2 t).
      { eapply (processed_wf s' t); try done. apply Forall_forall. intros tx Hi%Hin.
        by eapply Forall_forall in Hf as [? _]. }
      by destruct Hwf.
    + assert (Htidy : tidy (used ∪ hashes (addLiquidityTxs (blockTxs env)) ∪ list_to_set (omap orderTx all)) t).
      { eapply (processed_tidy s' t); try done; [by eapply sublist_NoDup|].
        apply Forall_forall. intros tx Hi%Hin. eapply Forall_forall in Hf as [_ Hu]; [|exact Hi].
        apply not_elem_of_union. split; [done|]. unfold hashes. rewrite elem_of_list_to_set. intros Hc.
        by apply (Hdis tx). }
      assert (Hsub' : used ∪ hashes (addLiquidityTxs (blockTxs env)) ∪ list_to_set (omap orderTx all)
        ⊆ used ∪ list_to_set (naming env)).
      { intros tx. unfold naming, hashes. rewrite !elem_of_union, !elem_of_list_to_set, elem_of_app.
        intros [[|]|]; auto. }
      by destruct (tidy_mono _ _ _ Hsub' Htidy).
    + cbn. rewrite (ag_inscriptions _ _ _ _ Hag). apply u64_bound.
  - intros tok. destruct (Hl tok) as [_ Hle]. split; [by eapply placed_payouts|].
    change (ledger 0 tok (ClearCache t)) with (ledger 0 tok t).
    rewrite (processed_ledger s' t _ all Hag Hpl). unfold spent, BaseLPFeesPerShare in *. lia.
Qed.

(** A chain of blocks, each traceable where it stands. *)
Fixpoint traceable_chain (used : gset Hash) (s : stateV2) (envs : list StateEnvironment) : Prop :=
  match envs with
  | [] => True
  | env :: envs =>
      traceable used env s ∧
      ∀ insts t, nextBlock env s = Ok (insts, t) → traceable_chain (used ∪ list_to_set (naming env)) t envs
  end.

Definition chainInflow (envs : list StateEnvironment) (tok : Hash) : Z :=
  list_sum (λ env, blockInflow env tok) envs.

Definition chainNaming (envs : list StateEnvironment) : gset Hash := ⋃ ((list_to_set ∘ naming) <$> envs).

Lemma runBlocks_spec envs used s : sound_state used s → Forall wf_block envs → traceable_chain used s envs →
  (∀ tok, ledger 0 tok s + BaseLPFeesPerShare * chainInflow envs tok < BaseLPFeesPerShare * word64) →
  ∃ insts t, runBlocks envs s = Ok (insts, t) ∧ sound_state (used ∪ chainNaming envs) t ∧
    ∀ tok, 0 ≤ payouts tok insts ∧
      ledger 0 tok t + BaseLPFeesPerShare * payouts tok insts ≤
      ledger 0 tok s + BaseLPFeesPerShare * chainInflow envs tok.
Proof.
  intros Hs Hb. unfold chainInflow. revert used s Hs.
  induction Hb as [|env envs Hb Hbs IH]; intros used s Hs Hv Hfit; cbn [runBlocks].
  { exists [], s. split; [done|].
    split; [by replace (used ∪ chainNaming []) with used by (unfold chainNaming; set_solver)|].
    intros tok. unfold payouts, list_sum, BaseLPFeesPerShare. cbn. lia. }
  destruct Hv as (Htr & Hnext).
  assert (Hrest : ∀ tok, 0 ≤ list_sum (λ env, blockInflow env tok) envs).
  { intros tok. apply list_sum_nonneg. eapply Forall_impl; [exact Hbs|]. intros e He. by apply blockInflow_nonneg. }
  assert (Hfit0 : ∀ tok, ledger 0 tok s < BaseLPFeesPerShare * word64).
  { intros tok. specialize (Hfit tok). specialize (Hrest tok). rewrite list_sum_cons in Hfit.
    pose proof (blockInflow_nonneg env tok Hb). unfold BaseLPFeesPerShare in *. lia. }
  destruct (nextBlock_spec used env s Hs (ledger_fits _ (ss_wf _ _ Hs) Hfit0) Hb Htr) as (i1 & s1 & E1 & Hs1 & H1).
  rewrite E1. cbn [mbind outcome_bind fst snd].
  destruct (IH _ s1 Hs1 (Hnext _ _ E1)) as (i2 & t & E2 & Ht & H2).
  { intros tok. specialize (Hfit tok). destruct (H1 tok). rewrite list_sum_cons in Hfit.
    unfold BaseLPFeesPerShare in *. lia. }
  rewrite E2. cbn [mbind outcome_bind fst snd]. exists (i1 ++ i2), t. split; [done|]. split.
  - replace (used ∪ chainNaming (env :: envs)) with (used ∪ list_to_set (naming env) ∪ chainNaming envs); [done|].
    unfold chainNaming. cbn. set_solver.
  - intros tok. destruct (H1 tok), (H2 tok). rewrite payouts_app, list_sum_cons. unfold BaseLPFeesPerShare in *. lia.
Qed.

(** C5: the next state.  From a sound state whose claims fit 64 bits, every block of valid,
    traceable requests is built and processed by every node without error or panic.  The
    state that the nodes end up with is sound again: pools, shares, reserves, orders, waiting
    contributions, staking pools and parameters are well formed, every book is sorted and
    free of duplicates, the names of the block's transactions are accounted for, and for
    every token what the exchange holds and owes afterwards, new orders included, plus what
    the block pays is at most what it held and owed before plus what came in. *)
Theorem nextBlock_sound used env s (Hs : sound_state used s) (Hfit : claims_fit s)
    (Hb : wf_block env) (Htr : traceable used env s) :
  ∃ insts t, nextBlock env s = Ok (insts, t) ∧ sound_state (used ∪ list_to_set (naming env)) t ∧
    (∀ id p, poolPairs t !! id = Some p → sorted_book (ps_orderbook p)) ∧
    ∀ tok, 0 ≤ payouts tok insts ∧
      ledger 0 tok t + BaseLPFeesPerShare * payouts tok insts ≤
      ledger 0 tok s + BaseLPFeesPerShare * blockInflow env tok.
Proof.
  destruct (nextBlock_spec used env s Hs Hfit Hb Htr) as (insts & t & ? & Ht & ?). exists insts, t.
  split; [done|]. split; [done|]. split; [|done]. intros id p. by eapply sound_books.
Qed.
End chain.

Lemma nextBlock_sound_witness :
  ∃ insts t, nextBlock "fund" 0 (λ _, 0) (λ _ _, PRVCoinID) (λ _, PRVCoinID) 1
      (mkPDexConfig 0 0 0 0 ∅ 0 0 0 0) block_env block_state = Ok (insts, t) ∧ length insts = 12%nat ∧
    sound_state {[emptyHash; named_hash 1; PRVCoinID]} t ∧
    0 ≤ payouts PRVCoinID insts ∧
    ledger 0 PRVCoinID t + BaseLPFeesPerShare * payouts PRVCoinID insts ≤
    ledger 0 PRVCoinID block_state + BaseLPFeesPerShare * (250 + 1000 + 100).
Proof.
  destruct (nextBlock_sound "fund" 0 (λ _, 0) (λ _ _, PRVCoinID) (λ _, PRVCoinID) 1
    (mkPDexConfig 0 0 0 0 ∅ 0 0 0 0) {[emptyHash]} block_env block_state
    (Build_sound_state _ _ block_state_wf block_state_tidy (conj (Z.le_refl 0) eq_refl))
    block_claims_fit block_env_wf block_env_traceable) as (insts & t & Hrun & Hs & _ & H).
  exists insts, t. split; [exact Hrun|]. split.
  { assert (Hlen : match nextBlock "fund" 0 (λ _, 0) (λ _ _, PRVCoinID) (λ _, PRVCoinID) 1
      (mkPDexConfig 0 0 0 0 ∅ 0 0 0 0) block_env block_state with Ok (i, _) => length i | _ => O end = 12%nat)
      by (vm_compute; reflexivity).
    rewrite Hrun in Hlen. exact Hlen. }
  assert (Hin : blockInflow block_env PRVCoinID = 250 + 1000 + 100) by (vm_compute; reflexivity).
  rewrite <- Hin. split; [|exact (H PRVCoinID)].
  assert (Hu : {[emptyHash]} ∪ list_to_set (naming block_env) =@{gset Hash} {[emptyHash; named_hash 1; PRVCoinID]})
    by (apply (bool_decide_unpack _); vm_compute; exact I).
  rewrite <- Hu. exact Hs.
Defined.
