(* ===== verification/Genesis.v ===== *)
(** The exchange from its first block.  A new exchange has no parameters; the first block
    that is processed gives it those of the configuration. *)
From S2P Require Import Prelude Hash RawDB Swap Order Reserve OrderBook Trade Reward TrackFee PdexUtils PoolPair Staking Params WeightedFee Instructions LiquidityProducer TradeProducer OrderProducer RewardProducer StakingProducer StateV2 Processor Market Solvency Agreement StateAgreement Refinement Chain.

Local Open Scope Z_scope.

(** A configuration the exchange can start from. *)
Record wf_config (c : PDexConfig) : Prop := {
  wcf_rate : 0 < cf_DefaultFeeRateBPS c ≤ MaxFeeRateBPS;
  wcf_discount : 0 ≤ cf_PRVDiscountPercent c ≤ MaxPRVDiscountPercent;
  wcf_protocol : 0 ≤ cf_TradingProtocolFeePercent c;
  wcf_staking : 0 ≤ cf_TradingStakingPoolRewardPercent c;
  wcf_percent : cf_TradingProtocolFeePercent c + cf_TradingStakingPoolRewardPercent c ≤ 100;
  wcf_reserve : 0 < cf_MinPRVReserveTradingRate c;
  wcf_shares : ∀ k w, cf_StakingPoolsShare c !! k = Some w → 0 ≤ w;
  wcf_total : map_sum (λ w, w) (cf_StakingPoolsShare c) < word64;
  wcf_orders : cf_MaxOrdersPerNft c < word64;
  wcf_withdrawals : 0 ≤ cf_AutoWithdrawOrderLimitAmount c ∧ cf_AutoWithdrawOrderLimitAmount c + 2 < word64 }.

Definition genesisState (c : PDexConfig) : stateV2 := readConfig c newStateV2.

Lemma no_entry {A} (m : gmap string A) k a : m = ∅ → m !! k = Some a → False.
Proof. intros ->. by rewrite lookup_empty. Qed.

Lemma genesis_sound c : wf_config c → sound_state ∅ (genesisState c).
Proof.
  intros [? ? ? ? ? ? ? ? ? [? ?]]. split; [split| |].
  - split; [split; [split|]|]; intros id p Hp; by apply no_entry in Hp.
  - intros k x Hx. by apply no_entry in Hx.
  - split; try done; try (by left).
  - intros k st Hk. cbn in Hk. rewrite lookup_fmap in Hk. destruct (_ !! k); [|done]. injection Hk as <-.
    split; done.
  - intros k [w Hk]. cbn. rewrite lookup_fmap. change (cf_StakingPoolsShare c !! k = Some w) in Hk. rewrite Hk. by eexists.
  - split.
    + intros id p Hp. by apply no_entry in Hp.
    + split; [intros k x Hx|intros k k' x x' Hx]; by apply no_entry in Hx.
    + intros tx _. split; [intros a b; apply lookup_empty|intros k x Hx; by apply no_entry in Hx].
    + intros tx id p o _ Hp. by apply no_entry in Hp.
  - cbn. unfold in_u64, word64. lia.
Qed.

Lemma genesis_ledger c tok : wf_config c → ledger 0 tok (genesisState c) = 0.
Proof.
  intros Hc. unfold ledger, worth, poolsHoldings, protocolHoldings, claims, setAside, waitingHoldings.
  cbn [genesisState readConfig with_stakings with_params poolPairs waitingContributions stakingPoolStates newStateV2].
  rewrite !map_sum_empty. unfold staked, stakeClaims. rewrite lookup_fmap, map_sum_fmap.
  replace (map_sum _ _) with 0.
  - destruct (_ !! _); cbn; lia.
  - symmetry. rewrite <-(map_sum_zero (cf_StakingPoolsShare c)). apply map_sum_ext. intros k w _.
    unfold stakeLiability. cbn. apply map_sum_empty.
Qed.

Section genesis.
Context (receivingAddressStr : string) (shard : Z) (shardOf : string → Z).
Context (genNFT : Z → Z → Hash) (GetInscriptionTokenID : Z → Hash) (breakPointHeight : Z).
Context (config : PDexConfig).
Abbreviation nextBlock := (nextBlock receivingAddressStr shard shardOf genNFT GetInscriptionTokenID
  breakPointHeight config).
Abbreviation runBlocks := (runBlocks receivingAddressStr shard shardOf genNFT GetInscriptionTokenID
  breakPointHeight config).

(** The block of the break point, without requests and reward. *)
Lemma genesis_block env : blockTxs env = [] → env_Reward env = 0 →
  add64 (env_PrevBeaconHeight env) 1 = breakPointHeight →
  nextBlock env newStateV2 = Ok ([MintPDEXGenesis receivingAddressStr 1 shard], genesisState config).
Proof.
  intros Htxs Hr Hh. unfold Chain.nextBlock, BuildInstructions, blockSteps, Process. rewrite Htxs, Hr, Hh.
  unfold mintPDEXGenesisStep. rewrite Z.eqb_refl. reflexivity.
Qed.

(** C1: the exchange never stops and never pays more than it received, on chains of valid and
    traceable blocks. A new exchange is given its first parameters ([wf_config]) by the block of
    the break point, which carries no request and no reward. After it comes any chain of blocks
    such that every block is valid ([wf_block]: requests as validation leaves them and sane
    parameters) and, where it stands, traceable ([traceable_chain]): contributions name NFTs the
    exchange knows, the transactions of contributions and orders are hashes that name nothing
    yet, and every trade is simple (it pays its fee in PRV, sells PRV, or visits at most one
    pool). If these blocks together bring less than 2^64 units of each token, then every block
    is built and processed by every node without error or panic, the state stays sound (its
    books sorted), and for every token the sum of everything ever paid out is between zero and
    the sum of everything ever brought in. *)
Theorem exchange_solvent env envs
    (Hc : wf_config config) (Htxs : blockTxs env = []) (Hr : env_Reward env = 0)
    (Hh : add64 (env_PrevBeaconHeight env) 1 = breakPointHeight) (Hb : Forall wf_block envs)
    (Htr : traceable_chain receivingAddressStr shard shardOf genNFT GetInscriptionTokenID
             breakPointHeight config ∅ (genesisState config) envs)
    (Hin : ∀ tok, chainInflow envs tok < word64) :
  ∃ insts t, runBlocks (env :: envs) newStateV2 = Ok (insts, t) ∧ sound_state (chainNaming envs) t ∧
    (∀ id p, poolPairs t !! id = Some p → sorted_book (ps_orderbook p)) ∧
    ∀ tok, 0 ≤ payouts tok insts ≤ chainInflow envs tok.
Proof.
  destruct (runBlocks_spec receivingAddressStr shard shardOf genNFT GetInscriptionTokenID breakPointHeight config
    envs ∅ (genesisState config) (genesis_sound _ Hc) Hb Htr) as (insts & t & Hrun & Ht & Hl).
  { intros tok. rewrite genesis_ledger by done. specialize (Hin tok). unfold BaseLPFeesPerShare. lia. }
  exists (MintPDEXGenesis receivingAddressStr 1 shard :: insts), t.
  cbn [Chain.runBlocks]. rewrite genesis_block by done. cbn [mbind outcome_bind fst snd]. rewrite Hrun.
  split; [done|]. rewrite union_empty_l_L in Ht. split; [done|]. split; [intros id p; by eapply sound_books|].
  intros tok. destruct (Hl tok) as [H0 H1]. rewrite genesis_ledger in H1 by done.
  pose proof (ledger_bounds tok t (ss_wf _ _ Ht)). unfold payouts in *. rewrite list_sum_cons. cbn [payout].
  unfold BaseLPFeesPerShare in *. lia.
Qed.
End genesis.

(** ** Deciding that a chain is traceable *)
#[export] Instance known_dec nfts md : Decision (known nfts md).
Proof. unfold known. apply _. Defined.
#[export] Instance wf_hash_dec h : Decision (wf_hash h).
Proof. unfold wf_hash. apply _. Defined.
#[export] Instance simple_dec tx : Decision (simple tx).
Proof. unfold simple, simple_trade. apply _. Defined.

Lemma traceable_decide used env s :
  bool_decide (Forall (λ tx, known (nftIDs s) (tx_Metadata tx)) (addLiquidityTxs (blockTxs env)) ∧
    NoDup (naming env) ∧ Forall (λ tx, wf_hash tx ∧ tx ∉ used) (naming env) ∧
    Forall simple (tradeTxs (blockTxs env))) = true → traceable used env s.
Proof. intros (? & ? & ? & ?)%bool_decide_eq_true. by split. Qed.

Section decide.
Context (receivingAddressStr : string) (shard : Z) (shardOf : string → Z).
Context (genNFT : Z → Z → Hash) (GetInscriptionTokenID : Z → Hash) (breakPointHeight : Z).
Context (config : PDexConfig).

Fixpoint checkChain (used : gset Hash) (s : stateV2) (envs : list StateEnvironment) : bool :=
  match envs with
  | [] => true
  | env :: envs =>
      bool_decide (Forall (λ tx, known (nftIDs s) (tx_Metadata tx)) (addLiquidityTxs (blockTxs env)) ∧
        NoDup (naming env) ∧ Forall (λ tx, wf_hash tx ∧ tx ∉ used) (naming env) ∧
        Forall simple (tradeTxs (blockTxs env))) &&
      match nextBlock receivingAddressStr shard shardOf genNFT GetInscriptionTokenID breakPointHeight config env s with
      | Ok (_, t) => checkChain (used ∪ list_to_set (naming env)) t envs
      | _ => true
      end
  end.

Lemma checkChain_sound envs used s : checkChain used s envs = true →
  traceable_chain receivingAddressStr shard shardOf genNFT GetInscriptionTokenID breakPointHeight config used s envs.
Proof.
  revert used s. induction envs as [|env envs IH]; intros used s; cbn [checkChain]; [done|].
  intros [H1 H2]%andb_true_iff. split; [by apply traceable_decide|]. intros insts t E. rewrite E in H2. by apply IH.
Qed.
End decide.

(** ** A chain under the parameters of the main network

    An NFT is minted; its owner founds a pool with two contributions; an order is placed;
    a trade of the next block matches it. *)
Definition mainnet : PDexConfig := mkPDexConfig 25 50 0 0 ∅ 100 10 30 10000000000000.

Definition tokenA : Hash := named_hash 7.
Definition ownerNft : Hash := named_hash 9.
Definition mainPool : string :=
  generatePoolPairKey (Hash_String tokenA) (Hash_String PRVCoinID) (Hash_String (named_hash 21)).

Definition mainChain : list StateEnvironment :=
  let recv : gmap Hash string := {[tokenA := "a"%string; PRVCoinID := "b"%string; ownerNft := "n"%string]} in
  let trade amount fee := TradeMd (mkTradeRequest [mainPool] tokenA amount 1 fee recv) in
  let add tok amount := AddLiquidityMd (mkAddLiquidityRequest "" "pair" "ota" (Hash_String tok)
                          (Hash_String ownerNft) amount 20000) in
  let block height txs := mkEnv height {[0 := txs]} 1000 false in
  [block 2 [mkTx (named_hash 20) 0 false (UserMintNftMd (mkUserMintNftRequest "o" 100))];
   block 3 [mkTx (named_hash 21) 0 false (add tokenA 50000000000000);
            mkTx (named_hash 22) 0 false (add PRVCoinID 20000000000000)];
   block 4 [mkTx (named_hash 23) 0 false (AddOrderMd
              (mkAddOrderRequest PRVCoinID mainPool 500000 1000000 recv ownerNft));
            mkTx (named_hash 24) 0 false (trade 4000000 40000)];
   block 5 [mkTx (named_hash 25) 0 false (trade 3000000 30000)]].

Lemma blockTxs_single height txs reward enabled :
  blockTxs (mkEnv height {[0 := txs]} reward enabled) = txs.
Proof.
  unfold blockTxs. cbn [env_ListTxs]. rewrite map_to_list_singleton. cbn [fmap list_fmap fst].
  change (merge_sort Z.le [0]) with [0]. cbn [fmap list_fmap mjoin list_join].
  by rewrite lookup_singleton_eq, app_nil_r.
Qed.

Lemma mainnet_wf : wf_config mainnet.
Proof. split; cbn; unfold MaxFeeRateBPS, MaxPRVDiscountPercent, word64; try lia; try done. Qed.

(** Goals of [wf_block] on a concrete block. *)
Ltac solve_requests :=
  repeat apply Forall_cons_2; try apply Forall_nil_2;
  repeat match goal with
  | |- wf_trade_tx _ => split
  | |- wf_trade_request _ => split
  | |- wf_request _ => split
  | |- wf_order_request _ => split
  | |- is_Some _ => eexists; vm_compute; reflexivity
  | |- ∃ h, wf_hash h ∧ _ => first [exists tokenA; split; vm_compute; reflexivity
      |exists PRVCoinID; split; vm_compute; reflexivity|exists ownerNft; split; vm_compute; reflexivity]
  | |- paysPRV _ = true → _ => intros ?Hp; vm_compute in Hp; discriminate Hp
  | |- paysPRV _ = false → _ => intros _
  end; cbn [tx_Metadata tr_SellAmount tr_TradingFee tr_TradePath tr_MinAcceptableAmount al_tokenAmount
    al_amplifier or_SellAmount or_MinAcceptableAmount mintAmount um_amount length]; unfold in_u64, word64, BaseAmplifier; try lia; apply (bool_decide_unpack _); vm_compute; exact I.

Lemma mainChain_wf : Forall wf_block mainChain.
Proof.
  repeat apply Forall_cons_2; try apply Forall_nil_2; split; rewrite ?blockTxs_single;
    cbv [withdrawLPFeeTxs withdrawLiquidityTxs withdrawOrderTxs unstakingTxs withdrawStakingRewardTxs tradeTxs
      addLiquidityTxs stakingTxs addOrderTxs mintNftTxs modifyParamsTxs select omap list_omap fmap option_fmap
      option_map list_fmap tx_Metadata env_Reward]; solve_requests.
Qed.

Lemma mainChain_inflow tok : chainInflow mainChain tok < word64.
Proof.
  unfold chainInflow, mainChain, list_sum. cbn [foldr]. unfold blockInflow. rewrite !blockTxs_single.
  cbv [tradeTxs addLiquidityTxs stakingTxs addOrderTxs mintNftTxs select omap list_omap fmap option_fmap
    option_map list_fmap tx_Metadata env_Reward list_sum foldr brought requested stakeBrought offered mintAmount
    um_amount ofToken al_tokenID al_tokenAmount].
  rewrite (NewHashFromStr_String tokenA), (NewHashFromStr_String PRVCoinID) by (vm_compute; reflexivity). cbn -[Hash_String tokenA PRVCoinID feeToken Z.add].
  repeat match goal with |- context [decide (feeToken ?a ?b = tok)] => generalize (feeToken a b); intros ?t end.
  unfold word64. repeat case_decide; lia.
Qed.

Lemma exchange_solvent_witness :
  ∃ insts t, runBlocks "fund" 0 (λ _, 0) (λ _ _, ownerNft) (λ _, PRVCoinID) 2 mainnet
      (mkEnv 1 {[0 := []]} 0 false :: mainChain) newStateV2 = Ok (insts, t) ∧ length insts = 8%nat ∧
    0 ≤ payouts tokenA insts ≤ 50000000000000 + 4040000 + 3030000.
Proof.
  destruct (exchange_solvent "fund" 0 (λ _, 0) (λ _ _, ownerNft) (λ _, PRVCoinID) 2 mainnet
    (mkEnv 1 {[0 := []]} 0 false) mainChain mainnet_wf (blockTxs_single _ _ _ _) eq_refl eq_refl mainChain_wf) as (insts & t & Hrun & _ & _ & H).
  { apply checkChain_sound. vm_compute. reflexivity. }
  { exact mainChain_inflow. }
  exists insts, t. split; [exact Hrun|]. split.
  - assert (Hlen : match runBlocks "fund" 0 (λ _, 0) (λ _ _, ownerNft) (λ _, PRVCoinID) 2 mainnet
      (mkEnv 1 {[0 := []]} 0 false :: mainChain) newStateV2 with Ok (i, _) => length i | _ => O end = 8%nat)
      by (vm_compute; reflexivity).
    rewrite Hrun in Hlen. exact Hlen.
  - assert (Hin : chainInflow mainChain tokenA = 50000000000000 + 4040000 + 3030000) by (vm_compute; reflexivity).
    rewrite <- Hin. exact (H tokenA).
Defined.
