(* ===== verification/Divergence.v ===== *)
(** Where the producer and the nodes part ways: what the hypotheses of the theorems on whole
    blocks exclude, shown on blocks that violate them. *)
From S2P Require Import Prelude Hash RawDB Swap Order Reserve OrderBook Trade Reward TrackFee PdexUtils PoolPair Staking Params WeightedFee Instructions LiquidityProducer TradeProducer OrderProducer RewardProducer StakingProducer StateV2 Processor.

Local Open Scope Z_scope.

(** ** A contribution with an unknown NFT

    The producer refunds it and leaves the contribution that waits under the same pair hash
    alone.  On every node, processing that refund removes the waiting contribution without
    paying it back. *)
Theorem unknown_nft_forfeits GetInscriptionTokenID bh tx s c waiting
    (Hnft : nftIDs s !! al_nftID (tx_Metadata tx) = None)
    (Hc : NewContributionWithMetaData (tx_Metadata tx) (tx_Hash tx) (tx_ShardID tx) = Ok c)
    (Hw : waitingContributions s !! al_pairHash (tx_Metadata tx) = Some waiting) :
  let refund := RefundAddLiquidity (mkContributionState c (al_pairHash (tx_Metadata tx))) in
  addLiquidityTx (nftIDs s) (params s) bh tx (poolPairs s) (waitingContributions s) =
    Ok ([refund], poolPairs s, waitingContributions s) ∧
  ∃ t, processInstructions GetInscriptionTokenID bh [refund] s = Ok t ∧
    waitingContributions t = delete (al_pairHash (tx_Metadata tx)) (waitingContributions s) ∧
    deletedWaitingContributions t !! al_pairHash (tx_Metadata tx) = Some waiting.
Proof.
  intros refund. split.
  - unfold addLiquidityTx. rewrite Hc. cbn [mbind outcome_bind].
    by rewrite bool_decide_true, orb_true_r by done.
  - eexists. split.
    { unfold processInstructions, processInstruction, refund, refundContribution, contributions.
      cbn [cs_pairHash fst snd]. rewrite Hw. reflexivity. }
    split; [done|]. cbn. apply lookup_insert_eq.
Qed.

(** ** A staking pool that parameters name by a shortened identifier

    Validation accepts every spelling that parses.  The producer finds the pool under the
    spelling of the request; the instruction carries the token itself, whose printed form is
    no key, and every node dereferences a missing pool. *)
Definition short_stakes : StakingPools := {["7" := NewStakingPoolState]}.

Definition short_stake : Tx StakingRequest :=
  mkTx emptyHash 0 false (mkStakingRequest "7" (Hash_String sample_nft) "o" 250).

Theorem short_staking_key_panics GetInscriptionTokenID config :
  let params := mkParams 30 ∅ 25 10 20 ∅ {["7" := 10]} [] 100 10 5 1000 1500 ∅ ∅ 0 20 ∅ in
  let s := mkStateV2 ∅ ∅ ∅ params short_stakes sample_nfts 0 in
  (isValidPdexv3Params params (∅ : PoolPairs)).1 = true ∧
  match staking [short_stake] sample_nfts short_stakes 9 with
  | Ok (insts, _) => Process GetInscriptionTokenID config 8 insts s = Panic
  | _ => False
  end.
Proof. split; vm_compute; reflexivity. Qed.

(** ** A fee in the sold token along two pools

    The first pool splits the fee before it trades the rest of the fee onwards; the nodes
    split by the volumes at the end of the trade.  On a pool with an order they credit the
    order's maker with 310 units where the producer credited 299. *)
Definition hopToken : Hash := named_hash 7.
Definition hopKey : string :=
  generatePoolPairKey (Hash_String hopToken) (Hash_String PRVCoinID) (Hash_String emptyHash).
Definition hopFirst : string :=
  generatePoolPairKey (Hash_String emptyHash) (Hash_String PRVCoinID) (Hash_String emptyHash).

Definition hopShares : gmap string Share := {[Hash_String sample_nft := mkShare 1000000 0 ∅ ∅ ∅]}.

Definition hopPools : PoolPairs :=
  <[hopKey := mkPoolPairState ∅
      (mkPoolPair 1000000 0 PRVCoinID hopToken 20000000 50000000 40000000 100000000 20000)
      hopShares ∅ (mkOrderbook []) ∅ ∅ ∅ ∅ ∅]>
  {[hopFirst := mkPoolPairState ∅
      (mkPoolPair 1000000 0 emptyHash PRVCoinID 50000000 20000000 100000000 40000000 20000)
      hopShares ∅
      (mkOrderbook [mkOrder "maker" sample_nft 1000000 380000 0 380000 TradeDirectionSell1 ("", "")])
      ∅ ∅ ∅ ∅ ∅]}.

Definition hopParams : Params := mkParams 30 ∅ 25 10 20 ∅ ∅ [] 100 10 5 1000 1500 ∅ ∅ 10 20 ∅.

Definition hopTrade : Tx TradeRequest :=
  mkTx emptyHash 0 false (mkTradeRequest [hopFirst; hopKey] emptyHash 3000000 1 30000
    {[emptyHash := "a"%string; hopToken := "c"%string]}).

(** What the order's maker earned in the first pool. *)
Definition makerEarned (pools : PoolPairs) : option Z :=
  p ← pools !! hopFirst;
  r ← ps_orderRewards p !! Hash_String sample_nft;
  uncollectedRewards r !! emptyHash.

Theorem fee_split_differs GetInscriptionTokenID config :
  let s := mkStateV2 ∅ ∅ hopPools hopParams ∅ sample_nfts 0 in
  match trade hopParams [hopTrade] hopPools with
  | Ok (insts, pools) =>
      makerEarned pools = Some 299 ∧
      match Process GetInscriptionTokenID config 8 insts s with
      | Ok t => makerEarned (poolPairs t) = Some 310
      | _ => False
      end
  | _ => False
  end.
Proof. vm_compute. split; reflexivity. Qed.
