(* ===== verification/Validation.v ===== *)
(** Validation of the requests ([metadata/pdexv3], [metadata/inscriptions]) before a shard
    puts them into a block: [ValidateSanityData] compares the request with the coins its
    transaction burns, [ValidateTxWithBlockChain] with the exchange of the beacon chain
    ([blockchain/restorebeststate.go], [StateValidator] of [blockchain/pdex/state_v2.go]). *)
From S2P Require Import Prelude Hash RawDB Swap Order Reserve OrderBook Trade Reward TrackFee PdexUtils PoolPair Staking Params WeightedFee Instructions LiquidityProducer TradeProducer OrderProducer RewardProducer StakingProducer StateV2 Market Solvency Agreement StateAgreement.

Local Open Scope Z_scope.

(** ** Transactions

    What validation reads of a transaction.  An output is burned if its public key is the
    burning address.  The outputs of a part without a proof cannot be read ([None]). *)
Record Coin := mkCoin { coin_value : Z; coin_burned : bool }.

Inductive TxBody :=
  | NormalBody (outputs : option (list Coin))
  | TokenBody (prvOutputs : option (list Coin)) (propertyID : Hash) (tokenOutputs : option (list Coin)).

Record Transaction := mkTransaction {
  t_Hash : Hash;
  t_Type : string;
  t_Version : Z;
  t_ShardID : Z;
  t_SenderAddrLastByte : Z;
  t_body : TxBody;
  t_Metadata : Metadata }.

Definition TxNormalType : string := "n".
Definition TxCustomTokenPrivacyType : string := "tp".

(** The first burned output. *)
Definition burnData (outputs : option (list Coin)) : outcome (bool * option Coin * option Hash) :=
  match outputs with
  | None => Err "Cannot get receiver data"
  | Some coins =>
      match List.find coin_burned coins with
      | Some coin => Ok (true, Some coin, Some PRVCoinID)
      | None => Ok (false, None, None)
      end
  end.

Definition GetTxBurnData (body : TxBody) : outcome (bool * option Coin * option Hash) :=
  match body with
  | NormalBody outputs => burnData outputs
  | TokenBody _ propertyID outputs =>
      r ← burnData outputs;
      let '(isBurn, burnCoin, _) := r in
      Ok (isBurn, burnCoin, Some propertyID)
  end.

(** Whether something is burned, the PRV, the other token and its identifier.  A normal
    transaction has only the first. *)
Definition GetTxFullBurnData (body : TxBody) : outcome (bool * option Coin * option Coin * option Hash) :=
  match body with
  | NormalBody outputs =>
      r ← burnData outputs;
      let '(isBurn, burnedCoin, burnedToken) := r in
      Ok (isBurn, burnedCoin, None, burnedToken)
  | TokenBody prvOutputs propertyID tokenOutputs =>
      match burnData prvOutputs, burnData tokenOutputs with
      | Ok (isBurnPrv, burnPrv, _), Ok (isBurnToken, burnToken, _) =>
          Ok (isBurnPrv || isBurnToken, burnPrv, burnToken, Some propertyID)
      | Ok (isBurnPrv, burnPrv, _), _ => Ok (isBurnPrv, burnPrv, None, Some propertyID)
      | _, Ok (isBurnToken, burnToken, _) => Ok (isBurnToken, None, burnToken, Some propertyID)
      | _, _ => Err "Cannot get receiver data"
      end
  end.

(** ** Checks *)
Definition ensure (b : bool) (e : string) : outcome unit := if b then Ok tt else Err e.

Fixpoint forEach {A} (f : A → outcome unit) (l : list A) : outcome unit :=
  match l with
  | [] => Ok tt
  | a :: l => _ ← f a; forEach f l
  end.

Definition deref {A} (p : option A) : outcome A :=
  match p with Some a => Ok a | None => Panic end.

Definition IsZeroHash (h : Hash) : bool := bool_decide (h = emptyHash).

(** ** The exchange as validation sees it: [StateValidator] *)
Definition IsValidNftID (s : stateV2) (nftID : string) : outcome unit :=
  ensure (bool_decide (is_Some (nftIDs s !! nftID))) "nftID can not be found".

Definition IsValidPoolPairID (s : stateV2) (poolPairID : string) : outcome unit :=
  ensure (bool_decide (is_Some (poolPairs s !! poolPairID))) "pool pair id is not valid".

Definition IsValidMintNftRequireAmount (s : stateV2) (amount : Z) : outcome unit :=
  ensure (MintNftRequireAmount (params s) =? amount) "Expect mint nft require amount".

Definition IsValidStakingPool (s : stateV2) (stakingPoolID : string) : outcome unit :=
  ensure (bool_decide (is_Some (stakingPoolStates s !! stakingPoolID))) "Can not find stakingPoolID".

Definition enoughOf (owned wanted : Z) : outcome unit :=
  _ ← ensure (negb (owned <? wanted)) "amount > current amount";
  ensure (negb ((owned =? 0) || (wanted =? 0))) "amount is 0".

Definition IsValidUnstakingAmount (s : stateV2) (tokenID nftID : string) (unstakingAmount : Z)
    : outcome unit :=
  match stakingPoolStates s !! tokenID with
  | None => Err "Can not find stakingPoolID"
  | Some pool =>
      match sp_stakers pool !! nftID with
      | None => Err "Can not find nftID"
      | Some staker => enoughOf (sk_liquidity staker) unstakingAmount
      end
  end.

Definition IsValidShareAmount (s : stateV2) (poolPairID nftID : string) (shareAmount : Z) : outcome unit :=
  match poolPairs s !! poolPairID with
  | None => Err "Can't not find pool pair ID"
  | Some poolPair =>
      match ps_shares poolPair !! nftID with
      | None => Err "Can't not find nftID"
      | Some share => enoughOf (sh_amount share) shareAmount
      end
  end.

(** A view of the beacon chain: the exchange is in the cache of the node, or is read entry
    by entry from the stored state. *)
Record BeaconView := mkBeaconView {
  bv_Height : Z;
  bv_BestHeight : Z;
  bv_cached : option stateV2;
  bv_stored : stateV2 }.

(** Most entries read the same from the cache and from the store. *)
Definition viewed (v : BeaconView) : stateV2 := default (bv_stored v) (bv_cached v).

(** The store is asked for a staking pool through the parameters. *)
Definition IsValidPdexv3StakingPool (v : BeaconView) (tokenID : string) : outcome unit :=
  match bv_cached v with
  | Some s => IsValidStakingPool s tokenID
  | None => ensure (bool_decide (is_Some (StakingPoolsShare (params (bv_stored v)) !! tokenID)))
              "Not found stakingPoolID"
  end.

Definition IsValidPdexv3UnstakingAmount (v : BeaconView) (tokenID nftID : string) (unstakingAmount : Z)
    : outcome unit :=
  match bv_cached v with
  | Some s => IsValidUnstakingAmount s tokenID nftID unstakingAmount
  | None =>
      _ ← ensure (bool_decide (is_Some (StakingPoolsShare (params (bv_stored v)) !! tokenID)))
            "Not found stakingPoolID";
      match (pool ← stakingPoolStates (bv_stored v) !! tokenID; sp_stakers pool !! nftID) with
      | None => Err "Not found staker"
      | Some staker => enoughOf (sk_liquidity staker) unstakingAmount
      end
  end.

Definition MaxTradePathLength : nat := 5.
Definition MaxPoolPairWithdrawalReceiver : nat := 5.
Definition MaxStakingRewardWithdrawalReceiver : nat := 15.

(** ** The requests

    The one-time addresses of receivers belong to the privacy library: whether one parses and
    is valid and its shard come from outside, as do the signature of the administrator and
    the height at which the exchange starts. *)
Section requests.
Context (parses isValid : string → bool) (GetShardID : string → Z).
Context (signed : Transaction → bool) (breakPointHeight : Z).

Definition IsAfterPdexv3CheckPoint (bestHeight beaconHeight : Z) : bool :=
  breakPointHeight <=? (if beaconHeight =? 0 then bestHeight else beaconHeight).

Definition active (bestHeight beaconHeight : Z) : outcome unit :=
  ensure (IsAfterPdexv3CheckPoint bestHeight beaconHeight) "Feature pdexv3 has not been activated yet".

(** The identifier of a token or an NFT: it parses and is not zero. *)
Definition nonzeroHash (str : string) : outcome Hash :=
  h ← NewHashFromStr str;
  _ ← ensure (negb (IsZeroHash h)) "should not be empty";
  Ok h.

(** A receiver given as a string. *)
Definition validReceiver (receiver : string) : outcome unit :=
  _ ← ensure (parses receiver) "can not parse receiver";
  ensure (isValid receiver) "receiver is not valid".

Definition inShard (receiver : string) (shardID : Z) : outcome unit :=
  ensure (GetShardID receiver =? shardID) "otaReceiver shardID is different from txShardID".

(** Trades and orders: every receiver is in the sender's shard. *)
Definition receiversOf (receivers : gmap Hash string) (t : Transaction) : outcome unit :=
  forEach (λ item, _ ← ensure (isValid item) "Invalid OTAReceiver";
                   ensure (t_SenderAddrLastByte t =? GetShardID item) "Invalid shard for Receiver")
    (map_to_list receivers).*2.

(** The tokens a request burned have receivers for their refund. *)
Definition refundReceivers (receivers : gmap Hash string) (tokens : list Hash) : outcome unit :=
  forEach (λ tokenID, ensure (bool_decide (is_Some (receivers !! tokenID))) "Missing refund OTAReceiver") tokens.

(** A transaction of one burned token: the token and the coin. *)
Definition burnedOne (t : Transaction) : outcome (Hash * Z) :=
  r ← GetTxBurnData (t_body t);
  let '(isBurned, burnCoin, burnedTokenID) := r in
  _ ← ensure isBurned "not a burning transaction";
  coin ← deref burnCoin;
  tokenID ← deref burnedTokenID;
  Ok (tokenID, coin_value coin).

(** The type of a transaction that burns [tokenID]. *)
Definition typeOfToken (t : Transaction) (tokenID : Hash) : outcome unit :=
  let isPRV := String.eqb (Hash_String tokenID) (Hash_String PRVCoinID) in
  if String.eqb (t_Type t) TxNormalType then ensure isPRV "the tokenIDStr should be PRV"
  else if String.eqb (t_Type t) TxCustomTokenPrivacyType then ensure (negb isPRV) "the tokenIDStr should not be PRV"
  else Err "Not recognize tx type".

(** *** Contributions *)
Definition AddLiquidity_sanity (best height : Z) (t : Transaction) (md : AddLiquidityRequest) : outcome unit :=
  _ ← active best height;
  _ ← ensure (negb (String.eqb (al_pairHash md) "")) "Pair hash should not be empty";
  tokenID ← nonzeroHash (al_tokenID md);
  _ ← nonzeroHash (al_nftID md);
  _ ← validReceiver (al_otaReceiver md);
  _ ← ensure (negb (al_amplifier md <? BaseAmplifier)) "Amplifier is not valid";
  burned ← burnedOne t;
  _ ← ensure (bool_decide (burned.1 = tokenID)) "Wrong request info's token id";
  _ ← ensure (negb (al_tokenAmount md =? 0) && (al_tokenAmount md =? burned.2)) "Contributed amount is not valid";
  _ ← typeOfToken t tokenID;
  inShard (al_otaReceiver md) (t_ShardID t).

Definition AddLiquidity_chain (v : BeaconView) (md : AddLiquidityRequest) : outcome unit :=
  _ ← active (bv_BestHeight v) (bv_Height v);
  _ ← IsValidNftID (viewed v) (al_nftID md);
  if String.eqb (al_poolPairID md) "" then Ok tt else IsValidPoolPairID (viewed v) (al_poolPairID md).

(** *** Withdrawals that burn an NFT: of liquidity and of stakes *)
Definition burnsNft (t : Transaction) (nftID : Hash) : outcome unit :=
  burned ← burnedOne t;
  _ ← ensure (bool_decide (burned.1 = nftID)) "Wrong request info's token id";
  _ ← ensure (burned.2 =? 1) "Burnt amount is not valid";
  _ ← ensure (String.eqb (t_Type t) TxCustomTokenPrivacyType) "Tx type must be custom token privacy type";
  ensure (negb (String.eqb (Hash_String nftID) (Hash_String PRVCoinID))) "Invalid NftID".

Definition nftReceivers (receivers : gmap string string) (nftID : string) (shardID : Z) : outcome unit :=
  _ ← ensure (negb (String.eqb (receiverOf receivers nftID) "")) "NftID's ota receiver can not be empty";
  forEach (λ kr, _ ← NewHashFromStr kr.1; _ ← validReceiver kr.2; inShard kr.2 shardID)
    (map_to_list receivers).

Definition WithdrawLiquidity_sanity (best height : Z) (t : Transaction) (md : WithdrawLiquidityRequest)
    : outcome unit :=
  _ ← active best height;
  _ ← ensure (negb (String.eqb (wl_poolPairID md) "")) "Pool pair id should not be empty";
  nftID ← nonzeroHash (wl_nftID md);
  _ ← nftReceivers (wl_otaReceivers md) (wl_nftID md) (t_ShardID t);
  _ ← ensure (negb (wl_shareAmount md =? 0)) "shareAmount can not be 0";
  burnsNft t nftID.

Definition WithdrawLiquidity_chain (v : BeaconView) (md : WithdrawLiquidityRequest) : outcome unit :=
  _ ← active (bv_BestHeight v) (bv_Height v);
  _ ← IsValidNftID (viewed v) (wl_nftID md);
  IsValidShareAmount (viewed v) (wl_poolPairID md) (wl_nftID md) (wl_shareAmount md).

Definition Unstaking_sanity (best height : Z) (t : Transaction) (md : UnstakingRequest) : outcome unit :=
  _ ← active best height;
  _ ← nonzeroHash (us_stakingPoolID md);
  nftID ← nonzeroHash (us_nftID md);
  _ ← nftReceivers (us_otaReceivers md) (us_nftID md) (t_ShardID t);
  _ ← ensure (negb (us_unstakingAmount md =? 0)) "shareAmount can not be 0";
  burnsNft t nftID.

Definition Unstaking_chain (v : BeaconView) (md : UnstakingRequest) : outcome unit :=
  _ ← active (bv_BestHeight v) (bv_Height v);
  _ ← IsValidNftID (viewed v) (us_nftID md);
  IsValidPdexv3UnstakingAmount v (us_stakingPoolID md) (us_nftID md) (us_unstakingAmount md).

(** *** Stakes *)
Definition Staking_sanity (best height : Z) (t : Transaction) (md : StakingRequest) : outcome unit :=
  _ ← active best height;
  tokenID ← nonzeroHash (st_tokenID md);
  _ ← nonzeroHash (st_nftID md);
  _ ← validReceiver (st_otaReceiver md);
  burned ← burnedOne t;
  _ ← ensure (bool_decide (burned.1 = tokenID)) "Wrong request info's token id";
  _ ← ensure (negb (st_tokenAmount md =? 0) && (st_tokenAmount md =? burned.2)) "Contributed amount is not valid";
  _ ← typeOfToken t tokenID;
  inShard (st_otaReceiver md) (t_ShardID t).

Definition Staking_chain (v : BeaconView) (md : StakingRequest) : outcome unit :=
  _ ← active (bv_BestHeight v) (bv_Height v);
  _ ← IsValidNftID (viewed v) (st_nftID md);
  IsValidPdexv3StakingPool v (st_tokenID md).

(** *** Trades and orders *)

(** The burned tokens, the sold one first. *)
Definition burnedFor (t : Transaction) (tokenToSell : Hash) : outcome (option Coin * option Coin * list Hash) :=
  r ← GetTxFullBurnData (t_body t);
  let '(isBurn, burnedPRVCoin, burnedCoin, burnedTokenID) := r in
  _ ← ensure isBurn "Burned coins not found in trade request";
  burnedTokenID ← deref burnedTokenID;
  _ ← ensure (bool_decide (burnedTokenID = tokenToSell)) "Burned token ID mismatch";
  Ok (burnedPRVCoin, burnedCoin,
      burnedTokenID :: match burnedPRVCoin with Some _ => [PRVCoinID] | None => [] end).

(** An amount and a fee paid with one coin; the first test keeps the sum from wrapping. *)
Definition paidWith (sellAmount tradingFee burned : Z) : outcome unit :=
  _ ← ensure (negb (burned <? sellAmount)) "Sell amount invalid";
  ensure (add64 sellAmount tradingFee =? burned) "must equal burned amount after fee".

Definition Trade_amounts (t : Transaction) (md : TradeRequest) (prv coin : option Coin) : outcome unit :=
  if String.eqb (t_Type t) TxNormalType then
    match prv with
    | Some prv =>
        _ ← ensure (bool_decide (tr_TokenToSell md = PRVCoinID)) "must be PRV";
        paidWith (tr_SellAmount md) (tr_TradingFee md) (coin_value prv)
    | None => Err "must be PRV"
    end
  else if String.eqb (t_Type t) TxCustomTokenPrivacyType then
    match coin, prv with
    | None, _ => Err "Burned token invalid"
    | Some coin, None => paidWith (tr_SellAmount md) (tr_TradingFee md) (coin_value coin)
    | Some coin, Some prv =>
        _ ← ensure (tr_TradingFee md =? coin_value prv) "Trading fee in PRV invalid";
        ensure (tr_SellAmount md =? coin_value coin) "must equal burned amount of token"
    end
  else Err "Invalid transaction type for trade request".

Definition Trade_sanity (best height : Z) (t : Transaction) (md : TradeRequest) : outcome unit :=
  _ ← active best height;
  _ ← receiversOf (tr_Receiver md) t;
  _ ← ensure (negb (tr_SellAmount md =? 0)) "SellAmount cannot be 0";
  r ← burnedFor t (tr_TokenToSell md);
  let '(prv, coin, burnedTokenList) := r in
  _ ← refundReceivers (tr_Receiver md) burnedTokenList;
  _ ← Trade_amounts t md prv coin;
  _ ← ensure (negb (length (tr_TradePath md) =? 0)%nat) "path empty";
  ensure (length (tr_TradePath md) <=? MaxTradePathLength)%nat "Trade path length exceeds maximum".

Definition Trade_chain (v : BeaconView) (md : TradeRequest) : outcome unit :=
  _ ← active (bv_BestHeight v) (bv_Height v);
  forEach (IsValidPoolPairID (viewed v)) (tr_TradePath md).

Definition AddOrder_amounts (t : Transaction) (md : AddOrderRequest) (prv coin : option Coin) : outcome unit :=
  if String.eqb (t_Type t) TxNormalType then
    match prv with
    | Some prv =>
        _ ← ensure (bool_decide (or_TokenToSell md = PRVCoinID)) "must be PRV";
        _ ← ensure (negb (coin_value prv <? or_SellAmount md)) "must not exceed PRV burned";
        ensure (or_SellAmount md =? coin_value prv) "must equal burned amount"
    | None => Err "must be PRV"
    end
  else if String.eqb (t_Type t) TxCustomTokenPrivacyType then
    match coin, prv with
    | Some coin, None => ensure (or_SellAmount md =? coin_value coin) "must equal burned amount"
    | _, _ => Err "Burned token invalid"
    end
  else Err "Invalid transaction type for trade request".

Definition AddOrder_sanity (best height : Z) (t : Transaction) (md : AddOrderRequest) : outcome unit :=
  _ ← active best height;
  _ ← receiversOf (or_Receiver md) t;
  r ← burnedFor t (or_TokenToSell md);
  let '(prv, coin, burnedTokenList) := r in
  _ ← refundReceivers (or_Receiver md) burnedTokenList;
  _ ← ensure (negb (or_MinAcceptableAmount md =? 0)) "MinAcceptableAmount cannot be 0";
  _ ← ensure (negb (or_SellAmount md =? 0)) "SellAmount cannot be 0";
  AddOrder_amounts t md prv coin.

Definition AddOrder_chain (v : BeaconView) (md : AddOrderRequest) : outcome unit :=
  _ ← active (bv_BestHeight v) (bv_Height v);
  _ ← IsValidPoolPairID (viewed v) (or_PoolPairID md);
  IsValidNftID (viewed v) (Hash_String (or_NftID md)).

Definition WithdrawOrder_sanity (best height : Z) (t : Transaction) (md : WithdrawOrderRequest) : outcome unit :=
  _ ← active best height;
  _ ← receiversOf (wo_Receiver md) t;
  r ← burnedFor t (wo_NftID md);
  let '(prv, coin, _) := r in
  _ ← refundReceivers (wo_Receiver md) [wo_NftID md];
  if String.eqb (t_Type t) TxCustomTokenPrivacyType then
    match coin, prv with
    | Some coin, None => ensure (0 <? coin_value coin) "Invalid burned NFT amount"
    | _, _ => Err "Burned token invalid"
    end
  else Err "Invalid transaction type for withdrawOrder request".

Definition WithdrawOrder_chain (v : BeaconView) (md : WithdrawOrderRequest) : outcome unit :=
  _ ← active (bv_BestHeight v) (bv_Height v);
  _ ← IsValidNftID (viewed v) (Hash_String (wo_NftID md));
  IsValidPoolPairID (viewed v) (wo_PoolPairID md).

(** *** Withdrawals of rewards

    The coin is used without testing that there is one: a transaction that burns only PRV
    is a burn transaction too. *)
Definition Reward_sanity (maxReceivers : nat) (best height : Z) (t : Transaction) (md : RewardRequest)
    : outcome unit :=
  _ ← active best height;
  _ ← ensure (String.eqb (t_Type t) TxCustomTokenPrivacyType) "must be TxCustomTokenPrivacyType";
  _ ← ensure (t_Version t =? 2) "must be version 2";
  r ← GetTxFullBurnData (t_body t);
  let '(isBurn, _, burnedCoin, burnedToken) := r in
  _ ← ensure isBurn "Tx is not a burn tx";
  coin ← deref burnedCoin;
  _ ← (if coin_value coin =? 1 then
         burnedToken ← deref burnedToken;
         ensure (bool_decide (burnedToken = rq_NftID md)) "Burning token ID or amount is wrong"
       else Err "Burning token ID or amount is wrong");
  _ ← ensure (size (rq_Receivers md) <=? maxReceivers)%nat "Too many receivers";
  _ ← forEach (λ receiver, _ ← ensure (isValid receiver) "ReceiverAddress is invalid"; inShard receiver (t_ShardID t))
        (map_to_list (rq_Receivers md)).*2;
  ensure (bool_decide (is_Some (rq_Receivers md !! rq_NftID md))) "Nft Receiver is not existed".

Definition WithdrawLPFee_chain (v : BeaconView) (md : RewardRequest) : outcome unit :=
  _ ← active (bv_BestHeight v) (bv_Height v);
  _ ← IsValidNftID (viewed v) (Hash_String (rq_NftID md));
  IsValidPoolPairID (viewed v) (rq_PoolID md).

Definition WithdrawStakingReward_chain (v : BeaconView) (md : RewardRequest) : outcome unit :=
  _ ← active (bv_BestHeight v) (bv_Height v);
  _ ← IsValidNftID (viewed v) (Hash_String (rq_NftID md));
  IsValidPdexv3StakingPool v (rq_PoolID md).

(** *** The protocol's fees and the parameters: signed by the administrator *)
Definition Signed_sanity (best height : Z) (t : Transaction) : outcome unit :=
  _ ← active best height;
  _ ← ensure (signed t) "Sender is unauthorized";
  _ ← ensure (String.eqb (t_Type t) TxNormalType) "must be TxNormalType";
  ensure (t_Version t =? 2) "must be version 2".

Definition WithdrawProtocolFee_chain (v : BeaconView) (poolPairID : string) : outcome unit :=
  _ ← active (bv_BestHeight v) (bv_Height v);
  IsValidPoolPairID (viewed v) poolPairID.

(** *** NFTs and inscriptions *)
Definition UserMintNft_sanity (best height : Z) (t : Transaction) (md : UserMintNftRequest) : outcome unit :=
  _ ← active best height;
  _ ← validReceiver (um_otaReceiver md);
  _ ← ensure (negb (um_amount md =? 0)) "request.amount is 0";
  burned ← burnedOne t;
  _ ← ensure (bool_decide (burned.1 = PRVCoinID)) "Wrong request info's token id";
  _ ← ensure (burned.2 =? um_amount md) "Burnt amount is not valid";
  _ ← ensure (String.eqb (t_Type t) TxNormalType) "Tx type must be normal privacy type";
  inShard (um_otaReceiver md) (t_ShardID t).

Definition Inscribe_sanity (t : Transaction) (md : InscribeRequest) : outcome unit :=
  _ ← ensure (isValid (ir_Receiver md)) "invalid receiver";
  _ ← inShard (ir_Receiver md) (t_ShardID t);
  ensure (String.eqb (t_Type t) TxNormalType) "invalid tx type".

(** ** Any request *)
Definition ValidateSanityData (best height : Z) (t : Transaction) : outcome unit :=
  match t_Metadata t with
  | UserMintNftMd md => UserMintNft_sanity best height t md
  | AddLiquidityMd md => AddLiquidity_sanity best height t md
  | WithdrawLiquidityMd md => WithdrawLiquidity_sanity best height t md
  | ModifyParamsMd _ | WithdrawProtocolFeeMd _ => Signed_sanity best height t
  | TradeMd md => Trade_sanity best height t md
  | WithdrawLPFeeMd md => Reward_sanity MaxPoolPairWithdrawalReceiver best height t md
  | AddOrderMd md => AddOrder_sanity best height t md
  | WithdrawOrderMd md => WithdrawOrder_sanity best height t md
  | StakingMd md => Staking_sanity best height t md
  | UnstakingMd md => Unstaking_sanity best height t md
  | WithdrawStakingRewardMd md => Reward_sanity MaxStakingRewardWithdrawalReceiver best height t md
  | InscribeMd md => Inscribe_sanity t md
  | OtherMd => Ok tt
  end.

Definition ValidateTxWithBlockChain (v : BeaconView) (t : Transaction) : outcome unit :=
  match t_Metadata t with
  | UserMintNftMd md => IsValidMintNftRequireAmount (viewed v) (um_amount md)
  | AddLiquidityMd md => AddLiquidity_chain v md
  | WithdrawLiquidityMd md => WithdrawLiquidity_chain v md
  | WithdrawProtocolFeeMd id => WithdrawProtocolFee_chain v id
  | TradeMd md => Trade_chain v md
  | WithdrawLPFeeMd md => WithdrawLPFee_chain v md
  | AddOrderMd md => AddOrder_chain v md
  | WithdrawOrderMd md => WithdrawOrder_chain v md
  | StakingMd md => Staking_chain v md
  | UnstakingMd md => Unstaking_chain v md
  | WithdrawStakingRewardMd md => WithdrawStakingReward_chain v md
  | ModifyParamsMd _ | InscribeMd _ | OtherMd => Ok tt
  end.
End requests.

(** ** What validation guarantees *)
Lemma ensure_Ok b e u : ensure b e = Ok u → b = true.
Proof. by destruct b. Qed.

Lemma deref_Ok {A} (p : option A) a : deref p = Ok a → p = Some a.
Proof. destruct p; [by intros [= ->]|done]. Qed.

Lemma forEach_Ok {A} (f : A → outcome unit) l u : forEach f l = Ok u → Forall (λ a, f a = Ok tt) l.
Proof.
  induction l as [|a l IH]; cbn; [constructor|]. intros ([] & ? & ?)%outcome_bind_Ok. constructor; [done|by apply IH].
Qed.

(** Opens the checks of a validation that succeeded. *)
Ltac opened H :=
  repeat match type of H with
  | mbind _ _ = Ok _ =>
      let a := fresh "a" in let E := fresh "E" in
      apply outcome_bind_Ok in H as (a & E & H);
      try (apply ensure_Ok in E); try (apply deref_Ok in E)
  | (let '(_, _) := ?p in _) = Ok _ => destruct p
  end;
  try (apply ensure_Ok in H).

(** The types of Go: unsigned words, identifiers of 32 bytes. *)
Definition typed (m : Metadata) : Prop :=
  match m with
  | UserMintNftMd md => in_u64 (um_amount md)
  | AddLiquidityMd md => in_u64 (al_tokenAmount md)
  | WithdrawLiquidityMd md => in_u64 (wl_shareAmount md)
  | TradeMd md => in_u64 (tr_SellAmount md) ∧ in_u64 (tr_TradingFee md) ∧ in_u64 (tr_MinAcceptableAmount md)
  | AddOrderMd md => in_u64 (or_SellAmount md) ∧ in_u64 (or_MinAcceptableAmount md)
  | WithdrawOrderMd md => in_u64 (wo_Amount md)
  | StakingMd md => in_u64 (st_tokenAmount md)
  | UnstakingMd md => in_u64 (us_unstakingAmount md)
  | WithdrawLPFeeMd md | WithdrawStakingRewardMd md => wf_hash (rq_NftID md)
  | ModifyParamsMd _ | WithdrawProtocolFeeMd _ | InscribeMd _ | OtherMd => True
  end.

Definition canonical (k : string) : Prop := ∃ h, wf_hash h ∧ k = Hash_String h.

(** What validation leaves open: a contribution spells its token the way it is printed, the
    administrator's parameters are sane, a token transaction moves another token than PRV. *)
Definition careful (t : Transaction) : Prop :=
  match t_Metadata t with
  | AddLiquidityMd md => canonical (al_tokenID md)
  | ModifyParamsMd params => sane_params params
  | _ => True
  end ∧
  match t_body t with TokenBody _ tok _ => tok ≠ PRVCoinID | NormalBody _ => True end.

(** A view on which a request may be checked for the state [s]: NFTs are only added, and
    NFTs and staking pools are named by printed identifiers. *)
Record current (v : BeaconView) (s : stateV2) : Prop := {
  cv_nfts : ∀ k, is_Some (nftIDs (viewed v) !! k) → is_Some (nftIDs s !! k);
  cv_spelling : ∀ k, is_Some (nftIDs s !! k) → canonical k;
  cv_cached : ∀ c k, bv_cached v = Some c → is_Some (stakingPoolStates c !! k) → canonical k;
  cv_stored : ∀ k, is_Some (StakingPoolsShare (params (bv_stored v)) !! k) → canonical k }.

(** The transaction as the exchange reads it. *)
Definition burnsPRV (body : TxBody) : bool :=
  match GetTxFullBurnData body with Ok (_, Some _, _, _) => true | _ => false end.

Definition asTx (t : Transaction) : Tx Metadata :=
  mkTx (t_Hash t) (t_ShardID t) (burnsPRV (t_body t)) (t_Metadata t).

(** What the handlers of the exchange rely on. *)
Definition relied (s : stateV2) (t : Transaction) : Prop :=
  match t_Metadata t with
  | UserMintNftMd md => in_u64 (um_amount md)
  | AddLiquidityMd md => wf_request md ∧ known (nftIDs s) md
  | WithdrawLiquidityMd md => wf_withdraw md
  | ModifyParamsMd md => sane_params md
  | TradeMd md => wf_trade_tx (mkTx (t_Hash t) (t_ShardID t) (burnsPRV (t_body t)) md)
  | WithdrawLPFeeMd md | WithdrawStakingRewardMd md => wf_reward_request md
  | AddOrderMd md => wf_order_request md
  | WithdrawOrderMd md => wf_withdraw_order md
  | StakingMd md => wf_stake_request md
  | UnstakingMd md => wf_unstake_request md
  | WithdrawProtocolFeeMd _ | InscribeMd _ | OtherMd => True
  end.

Section validated.
Context (parses isValid : string → bool) (GetShardID : string → Z).
Context (signed : Transaction → bool) (breakPointHeight : Z).
Abbreviation sanity := (ValidateSanityData parses isValid GetShardID signed breakPointHeight).
Abbreviation chain := (ValidateTxWithBlockChain breakPointHeight).

Record validated (s : stateV2) (t : Transaction) : Prop := {
  vl_typed : typed (t_Metadata t);
  vl_sanity : ∃ best height, sanity best height t = Ok tt;
  vl_chain : ∃ v, current v s ∧ chain v t = Ok tt }.

Lemma valid_nft v s nft u : current v s → IsValidNftID (viewed v) nft = Ok u →
  is_Some (nftIDs s !! nft) ∧ canonical nft.
Proof.
  intros Hc H%ensure_Ok%bool_decide_eq_true. split; [by eapply cv_nfts|eapply cv_spelling; [done|by eapply cv_nfts]].
Qed.

Lemma valid_pool v s tokenID u : current v s → IsValidPdexv3StakingPool v tokenID = Ok u → canonical tokenID.
Proof.
  intros Hc. unfold IsValidPdexv3StakingPool, IsValidStakingPool.
  destruct (bv_cached v) eqn:E; intros H%ensure_Ok%bool_decide_eq_true; [by eapply cv_cached|by eapply cv_stored].
Qed.

Lemma valid_unstaking v s tokenID nft amount u : current v s →
  IsValidPdexv3UnstakingAmount v tokenID nft amount = Ok u → canonical tokenID.
Proof.
  intros Hc. unfold IsValidPdexv3UnstakingAmount, IsValidUnstakingAmount.
  destruct (bv_cached v) as [c|] eqn:E.
  - destruct (stakingPoolStates c !! tokenID) eqn:E1; [|done]. intros _. by eapply cv_cached.
  - intros (a & H%ensure_Ok%bool_decide_eq_true & _)%outcome_bind_Ok. by eapply cv_stored.
Qed.

(** The sum of an amount and a fee that were paid with one coin did not wrap. *)
Lemma paidWith_exact a b c u : in_u64 a → in_u64 b → paidWith a b c = Ok u → a + b < word64 ∧ c = a + b.
Proof.
  intros Ha Hb (x & E%ensure_Ok & H%ensure_Ok)%outcome_bind_Ok.
  apply negb_true_iff, Z.ltb_ge in E. apply Z.eqb_eq in H. unfold add64 in H.
  destruct (Z.lt_ge_cases (a + b) word64) as [Hlt|Hge].
  - rewrite u64_small in H by (unfold in_u64 in *; lia). by split.
  - assert (Hw : u64 (a + b) = a + b - word64).
    { unfold u64. symmetry. apply Z.mod_unique with 1; unfold in_u64 in *; lia. }
    unfold in_u64 in *. lia.
Qed.

Lemma refundReceivers_Ok receivers tokens u : refundReceivers receivers tokens = Ok u →
  Forall (λ tok, is_Some (receivers !! tok)) tokens.
Proof.
  intros H%forEach_Ok. eapply Forall_impl; [exact H|]. intros tok E%ensure_Ok. by apply bool_decide_eq_true in E.
Qed.

(** The burned tokens of a trade or an order. *)
Lemma burnedFor_Ok t tok prv coin l : burnedFor t tok = Ok (prv, coin, l) →
  burnsPRV (t_body t) = bool_decide (is_Some prv) ∧ tok ∈ l ∧ (is_Some prv → PRVCoinID ∈ l) ∧
  match t_body t with TokenBody _ p _ => p = tok | NormalBody _ => coin = None end.
Proof.
  unfold burnedFor, burnsPRV. intros H. opened H.
  injection H as -> -> <-. rewrite E. apply bool_decide_eq_true in E2. subst. split_and!.
  - by destruct prv.
  - apply list_elem_of_here.
  - intros [c ->]. apply list_elem_of_further, list_elem_of_here.
  - destruct (t_body t) as [outs|po p to]; unfold GetTxFullBurnData in E.
    + apply outcome_bind_Ok in E as ([[b0 c0] t0] & _ & [= _ _ -> _]). done.
    + destruct (burnData po) as [[[? ?] ?]| | |], (burnData to) as [[[? ?] ?]| | |]; congruence.
Qed.

Lemma negb_zero x : 0 ≤ x → negb (x =? 0) = true → 0 < x.
Proof. intros Hx H%negb_true_iff%Z.eqb_neq. lia. Qed.

Lemma trade_relied t md best height :
  in_u64 (tr_SellAmount md) → in_u64 (tr_TradingFee md) → in_u64 (tr_MinAcceptableAmount md) →
  match t_body t with TokenBody _ tok _ => tok ≠ PRVCoinID | NormalBody _ => True end →
  Trade_sanity isValid GetShardID breakPointHeight best height t md = Ok tt →
  wf_trade_tx (mkTx (t_Hash t) (t_ShardID t) (burnsPRV (t_body t)) md).
Proof.
  intros Hs Hf Hm Hcare H. unfold Trade_sanity in H. opened H.
  apply burnedFor_Ok in E2 as (Hb & Hin & Hprv & Htok). apply refundReceivers_Ok in E3.
  apply negb_zero in E1; [|apply Hs]. apply Nat.leb_le in H.
  assert (Hsum : paysPRV (mkTx (t_Hash t) (t_ShardID t) (burnsPRV (t_body t)) md) = false →
    tr_SellAmount md + tr_TradingFee md < word64).
  { unfold paysPRV. cbn [tx_Metadata tx_burnedPRV]. intros Hp. unfold Trade_amounts in E4.
    destruct (String.eqb _ _).
    - destruct o as [prv|]; [|done]. opened E4. by apply paidWith_exact in E4 as [].
    - destruct (String.eqb _ _); [|done]. destruct o0 as [coin|]; [|done].
      destruct o as [prv|]; [|by apply paidWith_exact in E4 as []].
      rewrite Hb, andb_true_r in Hp by (by apply bool_decide_eq_true; eexists).
      apply negb_false_iff, bool_decide_eq_true in Hp. destruct (t_body t); [done|congruence]. }
  split; [split; cbn [tx_Metadata]; [unfold in_u64 in *; lia|done|done|apply Hm]|done|..]; cbn [tx_Metadata].
  - by eapply Forall_forall in E3.
  - unfold paysPRV. cbn [tx_Metadata tx_burnedPRV]. rewrite Hb. intros [_ Hp]%andb_true_iff.
    apply bool_decide_eq_true, Hprv in Hp. by eapply Forall_forall in E3.
Qed.

Lemma order_relied t md best height :
  in_u64 (or_SellAmount md) → in_u64 (or_MinAcceptableAmount md) →
  AddOrder_sanity isValid GetShardID breakPointHeight best height t md = Ok tt → wf_order_request md.
Proof.
  intros Hs Hm H. unfold AddOrder_sanity in H. opened H.
  apply burnedFor_Ok in E1 as (_ & Hin & _ & _). apply refundReceivers_Ok in E2.
  apply negb_zero in E3; [|apply Hm]. apply negb_zero in E4; [|apply Hs].
  split; [by eapply Forall_forall in E2|unfold in_u64 in *; lia..].
Qed.

Lemma reward_relied t md n best height : wf_hash (rq_NftID md) →
  Reward_sanity isValid GetShardID breakPointHeight n best height t md = Ok tt → wf_reward_request md.
Proof. intros Hh H. unfold Reward_sanity in H. opened H. split; [done|]. by apply bool_decide_eq_true in H. Qed.

(** One request. *)
Lemma validated_relied s t : validated s t → careful t → relied s t.
Proof.
  intros Hv Hc.
  destruct Hv as [Ht (best & height & Hs) (v & Hcur & Hch)]. destruct Hc as [Hc Htok].
  unfold relied, sanity, chain, ValidateSanityData, ValidateTxWithBlockChain in *.
  destruct (t_Metadata t) as [md|md|md|md|md|md|id|md|md|md|md|md|md|]; cbn [typed] in Ht.
  - done.
  - unfold AddLiquidity_chain in Hch. opened Hch. unfold AddLiquidity_sanity in Hs.
    assert (Hn : IsValidNftID (viewed v) (al_nftID md) = Ok tt) by (unfold IsValidNftID; by rewrite E0).
    destruct (valid_nft v s _ _ Hcur Hn) as [Hk Hcn]. opened Hs. split; [split|]; try done.
    apply negb_true_iff, Z.ltb_ge in E6. lia.
  - unfold WithdrawLiquidity_chain in Hch. opened Hch.
    assert (Hn : IsValidNftID (viewed v) (wl_nftID md) = Ok tt) by (unfold IsValidNftID; by rewrite E0).
    destruct (valid_nft v s _ _ Hcur Hn). by split.
  - done.
  - destruct Ht as (? & ? & ?). by eapply trade_relied.
  - by eapply reward_relied.
  - done.
  - destruct Ht. by eapply order_relied.
  - unfold WithdrawOrder_sanity in Hs. opened Hs. apply refundReceivers_Ok in E2.
    split; [by inversion E2|apply Ht].
  - unfold Staking_chain in Hch. opened Hch.
    assert (Hn : IsValidNftID (viewed v) (st_nftID md) = Ok tt) by (unfold IsValidNftID; by rewrite E0).
    destruct (valid_nft v s _ _ Hcur Hn). split; [by eapply valid_pool|done|done].
  - unfold Unstaking_chain in Hch. opened Hch.
    assert (Hn : IsValidNftID (viewed v) (us_nftID md) = Ok tt) by (unfold IsValidNftID; by rewrite E0).
    destruct (valid_nft v s _ _ Hcur Hn). split; [by eapply valid_unstaking|done|done].
  - by eapply reward_relied.
  - done.
  - done.
Qed.

(** The requests of one kind. *)
Lemma select_relied {Md} s ts (pick : Metadata → option Md) (P : Tx Md → Prop) :
  Forall (λ t, validated s t ∧ careful t) ts →
  (∀ t md, relied s t → pick (t_Metadata t) = Some md →
     P (mkTx (t_Hash t) (t_ShardID t) (burnsPRV (t_body t)) md)) →
  Forall P (select pick (asTx <$> ts)).
Proof.
  intros Hts HP. unfold select. induction Hts as [|t ts [Hv Hc] _ IH]; [by apply Forall_nil_2|].
  cbn [fmap list_fmap omap list_omap asTx tx_Metadata tx_Hash tx_ShardID tx_burnedPRV].
  destruct (pick (t_Metadata t)) as [md|] eqn:E; cbn [fmap option_fmap option_map]; [|exact IH].
  apply Forall_cons_2; [|exact IH]. by apply (HP t md); [apply validated_relied|].
Qed.

(** C7: validation gives the exchange what it relies on. Take a block whose every transaction is
    well typed, passed both validations, the second on some view that is current for the state
    of the block ([current]: the view knows no NFT the exchange does not, NFTs, and the staking
    pools of the view, are named by printed identifiers), and is careful ([careful]: a
    contribution spells its token as it is printed, the administrator's parameters are sane, a
    token transaction moves another token than PRV); trade transactions are distinct and the
    reward fits 64 bits. Then the block is one of those on which the theorems about the exchange
    rest: amounts fit and do not overflow together, trades and orders have positive amounts,
    every identifier parses, every token that may have to be paid back has a receiver, and every
    contribution names an NFT the exchange knows. *)
Theorem validated_block env ts s
    (Hv : Forall (λ t, validated s t ∧ careful t) ts) (Hts : blockTxs env = asTx <$> ts)
    (Hids : NoDup (tx_id <$> tradeTxs (blockTxs env))) (Hr : in_u64 (env_Reward env)) :
  wf_block env ∧ Forall (λ tx, known (nftIDs s) (tx_Metadata tx)) (addLiquidityTxs (blockTxs env)).
Proof.
  split; [split|]; try done; rewrite Hts; apply (select_relied s); try done;
    intros t md Hrel Hp; unfold relied in Hrel; destruct (t_Metadata t); try discriminate Hp;
    injection Hp as <-; try exact Hrel; apply Hrel.
Qed.
End validated.

(** ** Where validation itself fails *)

(** A withdrawal of fees or rewards in a token transaction that burns PRV and no other token
    passes the test for a burn, and the missing coin is dereferenced. *)
Theorem reward_validation_panics parses isValid GetShardID signed md :
  let t := mkTransaction emptyHash TxCustomTokenPrivacyType 2 0 0
    (TokenBody (Some [mkCoin 5 true]) (rq_NftID md) (Some [mkCoin 1 false])) (WithdrawLPFeeMd md) in
  ValidateSanityData parses isValid GetShardID signed 0 1 1 t = Panic.
Proof. reflexivity. Qed.

(** A staking pool that new parameters no longer name stays in the exchange: a node that has
    the exchange in its cache accepts unstaking from it, a node that reads the store refuses. *)
Theorem cache_and_store_disagree s tokenID nftID amount pool staker
    (Hgone : StakingPoolsShare (params s) !! tokenID = None)
    (Hpool : stakingPoolStates s !! tokenID = Some pool)
    (Hstaker : sp_stakers pool !! nftID = Some staker)
    (Hamount : 0 < amount ≤ sk_liquidity staker) :
  IsValidPdexv3UnstakingAmount (mkBeaconView 1 1 (Some s) s) tokenID nftID amount = Ok tt ∧
  (∃ e, IsValidPdexv3UnstakingAmount (mkBeaconView 1 1 None s) tokenID nftID amount = Err e).
Proof.
  unfold IsValidPdexv3UnstakingAmount, IsValidUnstakingAmount. cbn [bv_cached bv_stored].
  rewrite Hpool, Hstaker, Hgone. split; [|by eexists]. unfold enoughOf.
  rewrite (proj2 (Z.ltb_ge _ _)), !(proj2 (Z.eqb_neq _ 0)) by lia. reflexivity.
Qed.

(** A contribution, a trade that pays its fee in PRV and a stake. *)
Lemma validated_block_witness :
  let recv : gmap Hash string := {[named_hash 7 := "a"%string; PRVCoinID := "b"%string]} in
  let nft := named_hash 9 in
  let s := mkStateV2 ∅ ∅ {["p" := sample_state]} NewParams {[Hash_String PRVCoinID := NewStakingPoolState]}
             {[Hash_String nft := 1]} 0 in
  let ts := [
    mkTransaction (named_hash 1) TxNormalType 2 0 0 (NormalBody (Some [mkCoin 3 false; mkCoin 50 true]))
      (AddLiquidityMd (mkAddLiquidityRequest "" "pair" "o" (Hash_String PRVCoinID) (Hash_String nft) 50 20000));
    mkTransaction (named_hash 2) TxCustomTokenPrivacyType 2 0 0
      (TokenBody (Some [mkCoin 5 true]) (named_hash 7) (Some [mkCoin 1000 true]))
      (TradeMd (mkTradeRequest ["p"] (named_hash 7) 1000 1 5 recv));
    mkTransaction (named_hash 3) TxNormalType 2 0 0 (NormalBody (Some [mkCoin 70 true]))
      (StakingMd (mkStakingRequest (Hash_String PRVCoinID) (Hash_String nft) "o" 70))] in
  let env := mkEnv 8 {[0 := asTx <$> ts]} 0 false in
  wf_block env ∧ length (blockTxs env) = 3%nat.
Proof.
  intros recv nft s ts env.
  assert (Hcur : current (mkBeaconView 8 8 (Some s) s) s).
  { split; cbn [viewed bv_cached bv_stored default from_option].
    - done.
    - intros k [x Hk]. cbn in Hk. apply lookup_singleton_Some in Hk as [<- _]. by exists nft.
    - intros c k [= <-] [x Hk]. cbn in Hk. apply lookup_singleton_Some in Hk as [<- _]. by exists PRVCoinID.
    - intros k [x Hk]. cbn in Hk. by rewrite lookup_empty in Hk. }
  assert (Hts : blockTxs env = asTx <$> ts) by (vm_compute; reflexivity).
  destruct (validated_block (λ _, true) (λ _, true) (λ _, 0) (λ _, true) 0 env ts s) as [Hwf _].
  - unfold ts. repeat apply Forall_cons_2; try apply Forall_nil_2;
      (split; [split;
        [vm_compute; repeat split; discriminate
        |exists 8, 8; vm_compute; reflexivity
        |eexists; split; [exact Hcur|vm_compute; reflexivity]]|]).
    + split; [|exact I]. exists PRVCoinID. split; reflexivity.
    + split; [exact I|]. vm_compute. discriminate.
    + split; exact I.
  - exact Hts.
  - apply (bool_decide_unpack _). vm_compute. exact I.
  - vm_compute. split; [discriminate|reflexivity].
  - split; [exact Hwf|]. vm_compute. reflexivity.
Defined.
