(* ===== verification/Timeslot.v ===== *)
(** Time slots ([blockchain/timeslot.go]): how a chain numbers the slots in which its
    proposers take turns, when features change the length of a slot, and how the beacon
    chain keeps the numbering of every shard ([beaconprocess.go], [shardprocess.go]).

    Times are Unix seconds; [int64] division truncates, as [Z.quot] does.  The iteration
    over [config.Param().BlockTimeParam], a Go map, is a list in any order. *)
From S2P Require Import Prelude.

Local Open Scope Z_scope.

Definition BLOCKTIME_DEFAULT : string := "blocktimedef".

(** Integer division of Go: a zero divisor panics. *)
Definition goDiv (x y : Z) : outcome Z := if y =? 0 then Panic else Ok (Z.quot x y).
Definition goRem (x y : Z) : outcome Z := if y =? 0 then Panic else Ok (Z.rem x y).

Record anchorTime := {
  PreviousEndTime : Z;
  StartTime : Z;
  StartTimeslot : Z;
  Timeslot : Z;
  Feature : string;
  BlockHeight : Z;
}.

Record TSManager := {
  Anchors : list anchorTime;
  CurrentBlockVersion : Z;
  CurrentBlockTS : Z;
  CurrentProposeTime : Z;
}.

Definition zeroAnchor : anchorTime := Build_anchorTime 0 0 0 0 "" 0.
Definition newTSManager : TSManager := Build_TSManager [] 0 0 0.

Definition getLatestAnchor (s : TSManager) : anchorTime :=
  default zeroAnchor (last (Anchors s)).

Definition updateNewAnchor (previousEndTime startTime startTS timeslot : Z)
    (feature : string) (blockHeight : Z) (s : TSManager) : TSManager :=
  {| Anchors := Anchors s ++
       [Build_anchorTime previousEndTime startTime startTS timeslot feature blockHeight];
     CurrentBlockVersion := CurrentBlockVersion s;
     CurrentBlockTS := CurrentBlockTS s;
     CurrentProposeTime := CurrentProposeTime s |}.

Definition updateCurrentInfo (version currentTS currentProposeTime : Z) (s : TSManager) : TSManager :=
  {| Anchors := Anchors s;
     CurrentBlockVersion := version;
     CurrentBlockTS := currentTS;
     CurrentProposeTime := currentProposeTime |}.

Section WithConfig.
(** [config.Param().BlockTimeParam] and [FeatureVersion]; a missing key reads as zero. *)
Context (BlockTimeParam : list (string * Z)) (FeatureVersion : gmap string Z).

Definition blockTimeOf (feature : string) : Z :=
  default 0 ((list_to_map BlockTimeParam : gmap string Z) !! feature).

Definition getCurrentTS (s : TSManager) : Z :=
  let lastAnchor := getLatestAnchor s in
  if Timeslot lastAnchor =? 0 then blockTimeOf BLOCKTIME_DEFAULT else Timeslot lastAnchor.

(** The loop runs from the last anchor down to the first one that started before [t]. *)
Definition anchorFor (t : Z) (s : TSManager) : anchorTime :=
  default (getLatestAnchor s)
    (head (filter (λ a, PreviousEndTime a ≤ t) (reverse (Anchors s)))).

Definition timeslotFrom (checkpoint : anchorTime) (t : Z) : outcome Z :=
  let rangeTS := if StartTime checkpoint <? t then t - StartTime checkpoint else 0 in
  q ← goDiv rangeTS (Timeslot checkpoint);
  mret (StartTimeslot checkpoint + q).

Definition calculateTimeslot (t : Z) (s : TSManager) : outcome Z :=
  let checkpoint := anchorFor t s in
  timeslotFrom
    (if Timeslot checkpoint =? 0
     then Build_anchorTime 0 0 0 (blockTimeOf BLOCKTIME_DEFAULT) BLOCKTIME_DEFAULT 1
     else checkpoint) t.

Definition pastHalfTimeslot (t : Z) (s : TSManager) : outcome bool :=
  let lastAnchor := getLatestAnchor s in
  r ← goRem (t - StartTime lastAnchor) (getCurrentTS s);
  mret (negb (r <? Z.quot (getCurrentTS s) 2)).

(** *** The beacon chain's own slots: [updateBeaconBestState], "checkpoint timeslot" *)
Definition beaconAnchors (triggered : gmap string Z) (height proposeTime curTS : Z)
    (s : TSManager) : TSManager :=
  foldl (λ s '(feature, _),
    match triggered !! feature with
    | Some triggerHeight =>
        if triggerHeight =? height
        then updateNewAnchor proposeTime proposeTime curTS (blockTimeOf feature) feature triggerHeight s
        else s
    | None => s
    end) s BlockTimeParam.

Definition beaconCheckpoint (triggered : gmap string Z) (version height proposeTime : Z)
    (s : TSManager) : outcome TSManager :=
  curTS ← calculateTimeslot proposeTime s;
  mret (updateCurrentInfo version curTS proposeTime
          (beaconAnchors triggered height proposeTime curTS s)).

(** The second pass over the features, after the shards' slots: it recomputes the slot. *)
Definition beaconCheckpointAgain (triggered : gmap string Z) (height proposeTime : Z)
    (s : TSManager) : outcome TSManager :=
  foldl (λ acc '(feature, _),
    s ← acc;
    match triggered !! feature with
    | Some triggerHeight =>
        if triggerHeight =? height
        then curTS ← calculateTimeslot proposeTime s;
             mret (updateNewAnchor proposeTime proposeTime curTS (blockTimeOf feature)
                     feature triggerHeight s)
        else mret s
    | None => mret s
    end) (Ok s) BlockTimeParam.

(** *** A shard's slots on the shard itself ([updateShardBestState]): the new slots are
    aligned to the middle of the beacon's. *)
Fixpoint alignLoop (fuel : nat) (alignTime proposeTime step : Z) : outcome Z :=
  match fuel with
  | O => OutOfFuel
  | S fuel =>
      if alignTime <? proposeTime
      then alignLoop fuel (alignTime + step) proposeTime step
      else Ok alignTime
  end.

Definition alignTime (beaconProposeTime proposeTime step : Z) : outcome Z :=
  let start := beaconProposeTime + Z.quot step 2 in
  alignLoop (Z.to_nat (proposeTime - start) + 1) start proposeTime step.

Definition shardCheckpoint (triggered : gmap string Z) (beaconProposeTime version height proposeTime : Z)
    (s : TSManager) : outcome TSManager :=
  curTS ← calculateTimeslot proposeTime s;
  s ← foldl (λ acc '(feature, _),
        s ← acc;
        match triggered !! feature with
        | Some triggerHeight =>
            if triggerHeight =? height
            then start ← alignTime beaconProposeTime proposeTime (blockTimeOf feature);
                 mret (updateNewAnchor proposeTime start curTS (blockTimeOf feature)
                         feature triggerHeight s)
            else mret s
        | None => mret s
        end) (Ok s) BlockTimeParam;
  mret (updateCurrentInfo version curTS proposeTime s).

(** *** A shard's slots on the beacon chain, from the shard blocks it confirms *)
Fixpoint startLoop (fuel : nat) (startTime endTime blockTime : Z) : outcome Z :=
  match fuel with
  | O => OutOfFuel
  | S fuel =>
      if endTime + blockTime <=? startTime
      then startLoop fuel (startTime - blockTime) endTime blockTime
      else Ok startTime
  end.

Definition startTimeFor (proposerTime endTime blockTime : Z) : outcome Z :=
  startTime ← startLoop (Z.to_nat (proposerTime - endTime) + 1)
                (proposerTime - blockTime) endTime blockTime;
  if startTime <? endTime then Panic else mret startTime.

(** What the beacon chain reads of a confirmed shard block ([types.ShardState]). *)
Record ShardState := {
  ssVersion : Z;
  ssHeight : Z;
  ssProposerTime : Z;
}.

Definition confirmShardAnchors (b : ShardState) (s : TSManager) : outcome TSManager :=
  if CurrentBlockVersion s =? ssVersion b then mret s
  else foldl (λ acc '(feature, blockTime),
         s ← acc;
         if default 0 (FeatureVersion !! feature) =? ssVersion b
         then startTime ← startTimeFor (ssProposerTime b) (CurrentProposeTime s) blockTime;
              mret (updateNewAnchor (CurrentProposeTime s) startTime (CurrentBlockTS s) blockTime
                      feature (sub64 (ssHeight b) 1) s)
         else mret s) (Ok s) BlockTimeParam.

Definition confirmShardState (b : ShardState) (s : TSManager) : outcome TSManager :=
  s ← confirmShardAnchors b s;
  curTS ← calculateTimeslot (ssProposerTime b) s;
  mret (updateCurrentInfo (ssVersion b) curTS (ssProposerTime b) s).

Definition confirmShardStates (bs : list ShardState) (s : TSManager) : outcome TSManager :=
  foldl (λ acc b, s ← acc; confirmShardState b s) (Ok s) bs.

End WithConfig.

(** ** The slots of a well-formed manager *)

(** The slot of [t] counted from one anchor. *)
Definition slot (a : anchorTime) (t : Z) : Z :=
  StartTimeslot a + Z.max 0 (t - StartTime a) / Timeslot a.

Definition wf_anchor (a : anchorTime) : Prop :=
  0 < Timeslot a ∧ PreviousEndTime a ≤ StartTime a.

(** Reference: the newest anchor not later than [t], anchors from newest to oldest. *)
Fixpoint slotAt (l : list anchorTime) (t : Z) : Z :=
  match l with
  | [] => 0
  | a :: older => if PreviousEndTime a <=? t then slot a t else slotAt older t
  end.

(** Each anchor starts, in the slot its elders give it, when the previous one ends. *)
Fixpoint wf_anchors (l : list anchorTime) : Prop :=
  match l with
  | [] => True
  | a :: older =>
      wf_anchor a ∧ wf_anchors older ∧
      match older with
      | [] => True
      | b :: _ => PreviousEndTime b ≤ PreviousEndTime a ∧
                  StartTimeslot a = slotAt older (PreviousEndTime a)
      end
  end.

(** [t] is not earlier than the oldest anchor. *)
Definition covered (l : list anchorTime) (t : Z) : Prop := Exists (λ a, PreviousEndTime a ≤ t) l.

Definition wf_TSManager (s : TSManager) : Prop := wf_anchors (reverse (Anchors s)).

Lemma slot_mono a t1 t2 : wf_anchor a → t1 ≤ t2 → slot a t1 ≤ slot a t2.
Proof. intros [H _] Ht. unfold slot. apply Z.add_le_mono_l, Z.div_le_mono; lia. Qed.

Lemma slot_early a t : wf_anchor a → t ≤ StartTime a → slot a t = StartTimeslot a.
Proof. intros [H _] Ht. unfold slot. rewrite Z.max_l by lia. rewrite Z.div_0_l; lia. Qed.

Lemma timeslotFrom_slot a t : wf_anchor a → timeslotFrom a t = Ok (slot a t).
Proof.
  intros [H _]. unfold timeslotFrom, slot, goDiv. rewrite (proj2 (Z.eqb_neq _ 0)) by lia.
  cbn. do 2 f_equal. destruct (StartTime a <? t) eqn:E.
  - rewrite Z.quot_div_nonneg, Z.max_r; lia.
  - rewrite Z.quot_0_l, Z.max_l, Z.div_0_l; lia.
Qed.

Lemma covered_newest a older t : wf_anchors (a :: older) → covered (a :: older) t →
  PreviousEndTime a ≤ t ∨ covered older t.
Proof. intros _ H. inversion H; subst; auto. Qed.

Lemma slotAt_find l t : wf_anchors l → covered l t →
  ∃ a, head (filter (λ a, PreviousEndTime a ≤ t) l) = Some a ∧ wf_anchor a ∧
       slotAt l t = slot a t.
Proof.
  induction l as [|a older IH]; intros Hwf Hc; [by inversion Hc|].
  cbn [slotAt]. rewrite filter_cons. destruct (decide (PreviousEndTime a ≤ t)) as [Ha|Ha].
  - rewrite (proj2 (Z.leb_le _ _)) by done. exists a. split; [done|]. by destruct Hwf.
  - rewrite (proj2 (Z.leb_gt _ _)) by lia. apply IH; [apply Hwf|].
    inversion Hc; subst; [lia|done].
Qed.

(** Slots grow with time. *)
Lemma slotAt_mono l t1 t2 : wf_anchors l → covered l t1 → t1 ≤ t2 → slotAt l t1 ≤ slotAt l t2.
Proof.
  revert t2. induction l as [|a older IH]; intros t2 Hwf Hc Ht; [by inversion Hc|].
  pose proof Hwf as (Ha & Holder & Hchain). cbn [slotAt].
  destruct (PreviousEndTime a <=? t1) eqn:E1.
  - rewrite (proj2 (Z.leb_le _ _)) by lia. by apply slot_mono.
  - assert (Hc' : covered older t1) by (inversion Hc; subst; [lia|done]).
    destruct (PreviousEndTime a <=? t2) eqn:E2; [|by apply IH].
    destruct older as [|b older']; [by inversion Hc'|]. destruct Hchain as [_ Hstart].
    transitivity (StartTimeslot a).
    + rewrite Hstart. apply IH; [done..|lia].
    + unfold slot. pose proof (Z.div_pos (Z.max 0 (t2 - StartTime a)) (Timeslot a)).
      destruct Ha. lia.
Qed.

Section Correctness.
Context (BlockTimeParam : list (string * Z)) (FeatureVersion : gmap string Z).

(** The slot is always defined when the configuration has a default slot length. *)
Lemma calculateTimeslot_Ok t s : blockTimeOf BlockTimeParam BLOCKTIME_DEFAULT ≠ 0 →
  is_Ok (calculateTimeslot BlockTimeParam t s).
Proof.
  intros Hdef. unfold calculateTimeslot, timeslotFrom, goDiv.
  destruct (Timeslot (anchorFor t s) =? 0) eqn:E; cbn [Timeslot].
  - rewrite (proj2 (Z.eqb_neq _ 0) Hdef). by eexists.
  - rewrite E. by eexists.
Qed.

Lemma calculateTimeslot_slotAt t s : wf_TSManager s → covered (reverse (Anchors s)) t →
  calculateTimeslot BlockTimeParam t s = Ok (slotAt (reverse (Anchors s)) t).
Proof.
  intros Hwf Hc. destruct (slotAt_find _ _ Hwf Hc) as (a & Hhead & Ha & ->).
  unfold calculateTimeslot, anchorFor. rewrite Hhead. cbn.
  rewrite (proj2 (Z.eqb_neq _ 0)) by (destruct Ha; lia). by apply timeslotFrom_slot.
Qed.

(** Slots never run backwards: over the times a well-formed manager covers, the slot is
    defined and grows with time, across every change of the slot length. *)
Theorem calculateTimeslot_monotone s t1 t2 :
  wf_TSManager s → covered (reverse (Anchors s)) t1 → t1 ≤ t2 →
  ∃ s1 s2, calculateTimeslot BlockTimeParam t1 s = Ok s1 ∧
           calculateTimeslot BlockTimeParam t2 s = Ok s2 ∧ s1 ≤ s2.
Proof.
  intros Hwf Hc Ht. do 2 eexists. split_and!.
  - by apply calculateTimeslot_slotAt.
  - apply calculateTimeslot_slotAt; [done|]. eapply Exists_impl; [exact Hc|]. cbn; lia.
  - by apply slotAt_mono.
Qed.

Lemma reverse_updateNewAnchor e st ts len f h s :
  reverse (Anchors (updateNewAnchor e st ts len f h s)) =
  Build_anchorTime e st ts len f h :: reverse (Anchors s).
Proof. apply reverse_snoc. Qed.

Lemma getLatestAnchor_head s :
  getLatestAnchor s = default zeroAnchor (head (reverse (Anchors s))).
Proof. unfold getLatestAnchor. by rewrite <- (reverse_involutive (Anchors s)) at 1; rewrite last_reverse. Qed.

(** Adding the anchor of a block keeps the manager well formed, keeps the slots of all
    earlier covered times, and gives the block itself the slot it was computed with. *)
Lemma updateNewAnchor_wf s e st ts len f h :
  wf_TSManager s → 0 < len → e ≤ st →
  (Anchors s ≠ [] → PreviousEndTime (getLatestAnchor s) ≤ e ∧ calculateTimeslot BlockTimeParam e s = Ok ts) →
  let s' := updateNewAnchor e st ts len f h s in
  wf_TSManager s' ∧
  (∀ t, t < e → covered (reverse (Anchors s)) t →
     calculateTimeslot BlockTimeParam t s' = calculateTimeslot BlockTimeParam t s) ∧
  (∀ t, e ≤ t ≤ st → calculateTimeslot BlockTimeParam t s' = Ok ts).
Proof.
  intros Hwf Hlen Hst Hprev s'.
  assert (Hwf' : wf_TSManager s').
  { unfold wf_TSManager, s'. rewrite reverse_updateNewAnchor. split; [done|]. split; [done|].
    pose proof Hwf as Hwf0. unfold wf_TSManager in Hwf0. rewrite getLatestAnchor_head in Hprev.
    destruct (reverse (Anchors s)) as [|b l] eqn:El; [done|].
    destruct Hprev as [Hle Hts]; [intros Hnil; rewrite Hnil, reverse_nil in El; discriminate|]. split; [done|].
    rewrite calculateTimeslot_slotAt in Hts; rewrite ?El in *; [by injection Hts|done|].
    by constructor. }
  split_and!; [done| |].
  - intros t Ht Hc. assert (Hc' : covered (reverse (Anchors s')) t).
    { unfold s'. rewrite reverse_updateNewAnchor. by constructor 2. }
    rewrite !calculateTimeslot_slotAt by done.
    unfold s'. rewrite reverse_updateNewAnchor. cbn [slotAt PreviousEndTime].
    by rewrite (proj2 (Z.leb_gt _ _)).
  - intros t Ht. assert (Hc' : covered (reverse (Anchors s')) t).
    { unfold s'. rewrite reverse_updateNewAnchor. constructor. cbn. lia. }
    rewrite calculateTimeslot_slotAt by done.
    unfold s'. rewrite reverse_updateNewAnchor. cbn [slotAt PreviousEndTime].
    rewrite (proj2 (Z.leb_le _ _)) by lia. rewrite slot_early; [done| |cbn; lia].
    by split.
Qed.

(** ** Both chains number a shard's slots alike *)

(** The shard's loop yields the first aligned time not before the block. *)
Lemma alignLoop_spec fuel start p step : 0 < step →
  p - start < Z.of_nat fuel → (0 < fuel)%nat →
  ∃ k, 0 ≤ k ∧ alignLoop fuel start p step = Ok (start + k * step) ∧ p ≤ start + k * step ∧
       (0 < k → start + k * step < p + step).
Proof.
  intros Hstep. revert start. induction fuel as [|fuel IH]; intros start Hf Hpos; [lia|].
  cbn [alignLoop]. destruct (start <? p) eqn:E.
  - destruct (IH (start + step)) as (k & Hk & -> & Hge & Hlt); [lia..|].
    exists (k + 1). split; [lia|]. split; [f_equal; lia|]. split; [lia|]. intros _.
    destruct (decide (k = 0)) as [->|]; lia.
  - exists 0. split; [lia|]. split; [f_equal; lia|]. lia.
Qed.

(** The beacon's loop steps back from a later block to the same class of times. *)
Lemma startLoop_spec fuel start e step a : 0 < step →
  start - e < Z.of_nat fuel → (0 < fuel)%nat → e ≤ a < e + step →
  (∃ k, 0 ≤ k ∧ start = a + k * step) → startLoop fuel start e step = Ok a.
Proof.
  intros Hstep. revert start. induction fuel as [|fuel IH]; intros start Hf Hpos Ha (k & Hk & ->); [lia|].
  cbn [startLoop]. destruct (e + step <=? a + k * step) eqn:E.
  - assert (0 < k) by (destruct (decide (k = 0)) as [->|]; lia).
    apply IH; [nia..|]. exists (k - 1). split; [lia|]. lia.
  - assert (k = 0) as -> by nia. f_equal. lia.
Qed.

(** Started from the end of the last old slot, the shard's loop and the beacon's find the same
    aligned time, when the block the beacon sees is proposed on a boundary. *)
Lemma align_start beaconPropose endTime step k :
  0 < step → beaconPropose ≤ endTime → 1 ≤ k →
  ∃ start, alignTime beaconPropose endTime step = Ok start ∧ endTime ≤ start < endTime + step ∧
    startTimeFor (start + k * step) endTime step = Ok start.
Proof.
  intros Hstep Hle Hk. unfold alignTime. set (s0 := beaconPropose + Z.quot step 2).
  assert (Hhalf : 0 ≤ Z.quot step 2 < step) by (rewrite Z.quot_div_nonneg by lia; Z.to_euclidean_division_equations; lia).
  destruct (alignLoop_spec (Z.to_nat (endTime - s0) + 1) s0 endTime step) as (j & Hj & -> & Hge & Hlt); [lia..|].
  exists (s0 + j * step). split; [done|].
  assert (Hin : endTime ≤ s0 + j * step < endTime + step).
  { split; [done|]. destruct (decide (j = 0)) as [->|]; unfold s0 in *; lia. }
  split; [done|].
  unfold startTimeFor. rewrite (startLoop_spec _ _ _ _ (s0 + j * step)); [|lia|nia|lia|done|exists (k - 1); lia].
  cbn. by rewrite (proj2 (Z.ltb_ge _ _)) by lia.
Qed.

(** A pass over the features of which only one does something, or none. *)
Lemma foldl_none {K A} (G : outcome A → K → outcome A) (F : A → K → outcome A) l s :
  (∀ acc k, G acc k = (s ← acc; F s k)) → (∀ k s, k ∈ l → F s k = Ok s) → foldl G (Ok s) l = Ok s.
Proof.
  intros HG. induction l as [|k l IH]; intros HF; [done|]. cbn [foldl]. rewrite HG. cbn [mbind outcome_bind].
  rewrite HF by apply list_elem_of_here. apply IH. intros k' s' Hk'. apply HF. by right.
Qed.

Lemma foldl_only {K A} (G : outcome A → K → outcome A) (F : A → K → outcome A) l k0 s s' :
  (∀ acc k, G acc k = (s ← acc; F s k)) → NoDup l → k0 ∈ l → (∀ k s, k ∈ l → k ≠ k0 → F s k = Ok s) →
  F s k0 = Ok s' → foldl G (Ok s) l = Ok s'.
Proof.
  intros HG Hnd Hin HF Hs. induction Hnd as [|k l Hk Hnd IH]; [by apply not_elem_of_nil in Hin|].
  cbn [foldl]. rewrite HG. cbn [mbind outcome_bind]. apply elem_of_cons in Hin as [<-|Hin].
  - rewrite Hs. apply (foldl_none _ F); [done|]. intros k s1 Hin. apply HF; [by right|by intros ->].
  - rewrite HF; [|by left|by intros ->]. apply IH; [done|]. intros k1 s1 Hk1. apply HF. by right.
Qed.

Section Agreement.
Context (f : string) (step : Z).
Hypothesis Hkeys : NoDup BlockTimeParam.*1.
Hypothesis Hf : (f, step) ∈ BlockTimeParam.

Lemma features_distinct k : k ∈ BlockTimeParam → k ≠ (f, step) → k.1 ≠ f.
Proof.
  intros Hk Hne E. apply Hne. destruct k as [g len]. cbn in E. subst g. f_equal.
  apply (elem_of_list_to_map BlockTimeParam (M := gmap string)) in Hk, Hf; [|done..]. congruence.
Qed.

Lemma blockTimeOf_feature : blockTimeOf BlockTimeParam f = step.
Proof.
  unfold blockTimeOf. apply (elem_of_list_to_map BlockTimeParam (M := gmap string)) in Hf; [|done].
  by rewrite Hf.
Qed.

(** The shard's step for the block that triggers the feature, and for a block that triggers none. *)
Lemma shardCheckpoint_triggers triggered beaconPropose v h p s ts start :
  (∀ k, k ∈ BlockTimeParam → (triggered !! k.1 = Some h ↔ k.1 = f)) →
  calculateTimeslot BlockTimeParam p s = Ok ts → alignTime beaconPropose p step = Ok start →
  shardCheckpoint BlockTimeParam triggered beaconPropose v h p s =
    Ok (updateCurrentInfo v ts p (updateNewAnchor p start ts step f h s)).
Proof.
  intros Ht Hts Hstart. unfold shardCheckpoint. rewrite Hts. cbn [mbind outcome_bind].
  rewrite (foldl_only _ (λ s k, match triggered !! k.1 with
      | Some triggerHeight =>
          if triggerHeight =? h
          then start ← alignTime beaconPropose p (blockTimeOf BlockTimeParam k.1);
               mret (updateNewAnchor p start ts (blockTimeOf BlockTimeParam k.1) k.1 triggerHeight s)
          else mret s
      | None => mret s
      end) BlockTimeParam (f, step) s (updateNewAnchor p start ts step f h s)).
  - done.
  - by intros acc [g len].
  - by apply NoDup_fmap_1 in Hkeys.
  - done.
  - intros k s1 Hk Hne. pose proof (features_distinct k Hk Hne) as Hg.
    destruct (triggered !! k.1) as [th|] eqn:E; [|done]. destruct (Z.eqb_spec th h) as [->|]; [|done].
    by apply (Ht k Hk) in E.
  - pose proof (proj2 (Ht (f, step) Hf) eq_refl) as E. cbn [fst] in *.
    by rewrite E, Z.eqb_refl, blockTimeOf_feature, Hstart.
Qed.

Lemma shardCheckpoint_plain triggered beaconPropose v h p s ts :
  (∀ k, k ∈ BlockTimeParam → triggered !! k.1 ≠ Some h) → calculateTimeslot BlockTimeParam p s = Ok ts →
  shardCheckpoint BlockTimeParam triggered beaconPropose v h p s = Ok (updateCurrentInfo v ts p s).
Proof.
  intros Ht Hts. unfold shardCheckpoint. rewrite Hts. cbn [mbind outcome_bind].
  rewrite (foldl_none _ (λ s k, match triggered !! k.1 with
      | Some triggerHeight =>
          if triggerHeight =? h
          then start ← alignTime beaconPropose p (blockTimeOf BlockTimeParam k.1);
               mret (updateNewAnchor p start ts (blockTimeOf BlockTimeParam k.1) k.1 triggerHeight s)
          else mret s
      | None => mret s
      end)); [done|by intros acc [g len]|].
  intros k s1 Hk. destruct (triggered !! k.1) as [th|] eqn:E; [|done].
  destruct (Z.eqb_spec th h) as [->|]; [|done]. by apply (Ht k Hk) in E.
Qed.

(** The beacon chain's step for the first shard block of the feature's version. *)
Lemma confirm_newVersion v' q s start :
  (∀ k, k ∈ BlockTimeParam → (default 0 (FeatureVersion !! k.1) = v' ↔ k.1 = f)) →
  CurrentBlockVersion s ≠ v' → startTimeFor q (CurrentProposeTime s) step = Ok start →
  ∀ h, confirmShardAnchors BlockTimeParam FeatureVersion (Build_ShardState v' h q) s =
    Ok (updateNewAnchor (CurrentProposeTime s) start (CurrentBlockTS s) step f (sub64 h 1) s).
Proof.
  intros Hver Hne Hstart h. unfold confirmShardAnchors. cbn [ssVersion ssProposerTime ssHeight].
  rewrite (proj2 (Z.eqb_neq _ _) Hne).
  set (s' := updateNewAnchor _ _ _ _ _ _ _). set (e := CurrentProposeTime s) in *. set (ts := CurrentBlockTS s) in *.
  eapply (foldl_only _ (λ s k, if default 0 (FeatureVersion !! k.1) =? v'
      then startTime ← startTimeFor q (CurrentProposeTime s) k.2;
           mret (updateNewAnchor (CurrentProposeTime s) startTime (CurrentBlockTS s) k.2 k.1 (sub64 h 1) s)
      else mret s) BlockTimeParam (f, step)).
  - by intros acc [g len].
  - by apply NoDup_fmap_1 in Hkeys.
  - done.
  - intros k s1 Hk Hnk. pose proof (features_distinct k Hk Hnk) as Hg.
    destruct (Z.eqb_spec (default 0 (FeatureVersion !! k.1)) v') as [E|]; [|done]. by apply (Hver k Hk) in E.
  - pose proof (proj2 (Hver (f, step) Hf) eq_refl) as E. cbn [fst snd] in *.
    rewrite E, Z.eqb_refl. fold e ts. by rewrite Hstart.
Qed.

End Agreement.

(** C29: both chains number a shard's slots alike across a change of their length. The shard
    block at height [h], proposed at [p], triggers feature [f], whose slots last [step] seconds:
    the shard places the start of the new slots itself, half a new slot after the proposal of
    the beacon block it follows or a whole number of new slots later. The beacon chain never
    sees that choice and reconstructs it from the first shard block of the new version. Let
    shard and beacon chain have the same manager before [h], in the old version [v]; let the
    features have distinct names and the default slots a length; let no other feature trigger at
    [h] or any at [h + 1], and no other feature belong to the new version; let the beacon block
    not be proposed after the shard block; and let the first block of the new version be block
    [h + 1], proposed on a boundary of the new slots, at least one slot after their start. Then
    both chains succeed and end with the very same manager, in which exactly one anchor is new:
    previous end, start, slot number, length, feature and height. *)
Theorem shard_anchor_agrees triggered triggered' beacon beacon' s v v' h f step p k :
  NoDup BlockTimeParam.*1 → (f, step) ∈ BlockTimeParam → 0 < step →
  blockTimeOf BlockTimeParam BLOCKTIME_DEFAULT ≠ 0 →
  (∀ g, g ∈ BlockTimeParam → (triggered !! g.1 = Some h ↔ g.1 = f)) →
  (∀ g, g ∈ BlockTimeParam → triggered' !! g.1 ≠ Some (h + 1)) →
  (∀ g, g ∈ BlockTimeParam → (default 0 (FeatureVersion !! g.1) = v' ↔ g.1 = f)) →
  CurrentBlockVersion s = v → v ≠ v' → 0 ≤ h < word64 - 1 → beacon ≤ p → 1 ≤ k →
  ∃ start ts s1 s2, p ≤ start < p + step ∧ calculateTimeslot BlockTimeParam p s = Ok ts ∧
    let q := start + k * step in
    shardCheckpoint BlockTimeParam triggered beacon v h p s = Ok s1 ∧
    shardCheckpoint BlockTimeParam triggered' beacon' v' (h + 1) q s1 = Ok s2 ∧
    confirmShardStates BlockTimeParam FeatureVersion [Build_ShardState v h p; Build_ShardState v' (h + 1) q] s = Ok s2 ∧
    Anchors s2 = Anchors s ++ [Build_anchorTime p start ts step f h] ∧
    CurrentBlockVersion s2 = v' ∧ CurrentProposeTime s2 = q.
Proof.
  intros Hkeys Hf Hstep Hdef Ht1 Ht2 Hver Hv Hne Hh Hb Hk.
  destruct (align_start beacon p step k Hstep Hb Hk) as (start & Ealign & Hstart & Efor).
  destruct (calculateTimeslot_Ok p s Hdef) as [ts Ets].
  set (q := start + k * step) in *.
  set (s1 := updateCurrentInfo v ts p (updateNewAnchor p start ts step f h s)).
  destruct (calculateTimeslot_Ok q s1 Hdef) as [ts' Ets'].
  exists start, ts, s1, (updateCurrentInfo v' ts' q s1). split; [done|]. split; [done|]. cbv zeta. split_and!.
  - by apply (shardCheckpoint_triggers f step).
  - by apply shardCheckpoint_plain.
  - assert (confirmShardState BlockTimeParam FeatureVersion (Build_ShardState v h p) s =
      Ok (updateCurrentInfo v ts p s)) as E1.
    { unfold confirmShardState, confirmShardAnchors. cbn [ssVersion ssProposerTime]. rewrite Hv, Z.eqb_refl.
      cbn [mbind outcome_bind mret outcome_ret]. by rewrite Ets. }
    unfold confirmShardStates. cbn [foldl mbind outcome_bind]. rewrite E1. cbn [mbind outcome_bind].
    unfold confirmShardState. rewrite (confirm_newVersion f step Hkeys Hf v' q _ start Hver); [|done|done].
    change (CurrentProposeTime (updateCurrentInfo v ts p s)) with p.
    change (CurrentBlockTS (updateCurrentInfo v ts p s)) with ts. cbn [mbind outcome_bind ssProposerTime ssVersion].
    replace (sub64 (h + 1) 1) with h.
    2: { unfold sub64. rewrite u64_small; [lia|]. unfold in_u64. lia. }
    change (updateNewAnchor p start ts step f h (updateCurrentInfo v ts p s)) with s1.
    fold q. by rewrite Ets'.
  - done.
  - done.
  - done.
Qed.

(** When the first block of the new version is not proposed on a boundary, the two chains
    disagree on all later slots. *)
Lemma shard_anchor_misaligned :
  alignTime 990 1000 20 = Ok 1000 ∧ startTimeFor 1027 1000 20 = Ok 1007.
Proof. by split; vm_compute. Qed.

(** The beacon chain's loop stops on every block; it panics exactly when the block is proposed
    less than one new slot after its predecessor. *)
Lemma startTimeFor_panics p e step : 0 < step →
  (startTimeFor p e step = Panic ↔ p - step < e) ∧ (e ≤ p - step → is_Ok (startTimeFor p e step)).
Proof.
  intros Hstep. unfold startTimeFor. destruct (decide (p - step < e)) as [Hlt|Hge].
  - destruct (Z.to_nat (p - e) + 1)%nat as [|n] eqn:En; [lia|]. cbn [startLoop].
    rewrite (proj2 (Z.leb_gt _ _)) by lia. cbn. rewrite (proj2 (Z.ltb_lt _ _)) by lia. split; [done|lia].
  - pose proof (Z.mod_pos_bound (p - e) step Hstep). pose proof (Z.div_mod (p - e) step).
    assert (1 ≤ (p - e) / step) by (apply Z.div_le_lower_bound; lia).
    rewrite (startLoop_spec _ _ _ _ (e + (p - e) mod step)); [|lia..|exists ((p - e) / step - 1); nia].
    cbn. rewrite (proj2 (Z.ltb_ge _ _)) by lia. split; [split; [done|lia]|]. intros _. by eexists.
Qed.

(** ** The second pass over the beacon's features adds nothing new

    After the first pass the last anchor, if this block triggered one, starts at the block's
    proposal time in its slot; the second pass recomputes that slot and appends an equal
    anchor. *)
Lemma beaconCheckpointAgain_same f len height p s ts :
  BlockTimeParam = [(f, len)] → 0 < len → wf_TSManager s →
  (Anchors s ≠ [] → PreviousEndTime (getLatestAnchor s) ≤ p) →
  calculateTimeslot BlockTimeParam p s = Ok ts →
  let s' := updateNewAnchor p p ts len f height s in
  beaconAnchors BlockTimeParam {[ f := height ]} height p ts s = s' ∧
  beaconCheckpointAgain BlockTimeParam {[ f := height ]} height p s' =
    Ok (updateNewAnchor p p ts len f height s').
Proof.
  intros Hparam Hlen Hwf Hprev Hts s'.
  assert (Hof : blockTimeOf [(f, len)] f = len) by (unfold blockTimeOf; cbn; by rewrite lookup_insert_eq).
  destruct (updateNewAnchor_wf s p p ts len f height Hwf Hlen) as (_ & _ & Hslot); [lia|auto|].
  rewrite Hparam in *. unfold beaconAnchors, beaconCheckpointAgain. cbn [foldl].
  rewrite lookup_singleton_eq, Z.eqb_refl, Hof. split; [done|].
  cbn [mbind outcome_bind]. rewrite ?Hof. fold s'. unfold s' in Hslot |- *. cbn zeta in Hslot. by rewrite (Hslot p) by lia.
Qed.

End Correctness.

(** Times before the first anchor are not counted with the default slot length but given the
    start slot of the last anchor: with one change of length at time 1000, slot 25, the
    second before it falls into slot 25 although it belongs to slot 24. *)
Definition changedOnce : TSManager :=
  updateNewAnchor 1000 1000 25 20 "blocktime20" 30 newTSManager.

Lemma early_slots_collapse :
  calculateTimeslot [(BLOCKTIME_DEFAULT, 40)] 999 newTSManager = Ok 24 ∧
  calculateTimeslot [(BLOCKTIME_DEFAULT, 40)] 999 changedOnce = Ok 25 ∧
  calculateTimeslot [(BLOCKTIME_DEFAULT, 40)] 0 changedOnce = Ok 25.
Proof. by vm_compute. Qed.

(** ** Concrete managers *)
Definition twoChanges : TSManager := updateNewAnchor 2000 2007 75 10 "blocktime10" 80 changedOnce.

Lemma calculateTimeslot_monotone_witness :
  calculateTimeslot [] 1990 twoChanges = Ok 74 ∧ calculateTimeslot [] 2030 twoChanges = Ok 77 ∧
  ∃ s1 s2, calculateTimeslot [] 1990 twoChanges = Ok s1 ∧ calculateTimeslot [] 2030 twoChanges = Ok s2 ∧ s1 ≤ s2.
Proof.
  split; [by vm_compute|]. split; [by vm_compute|].
  apply (calculateTimeslot_monotone [] twoChanges 1990 2030).
  - vm_compute. repeat split; discriminate.
  - constructor 2. constructor. by vm_compute.
  - lia.
Defined.

(** Shard block 30 triggers slots of 20 seconds, block 31 is the first of version 5. *)
Definition agreeParams : list (string * Z) := [(BLOCKTIME_DEFAULT, 40); ("blocktime20"%string, 20); ("blocktime10"%string, 10)].
Definition agreeVersions : gmap string Z := {[ "blocktime20"%string := 5; "blocktime10"%string := 7 ]}.

Lemma shard_anchor_agrees_witness :
  ∃ start ts s1 s2, 1013 ≤ start < 1013 + 20 ∧ calculateTimeslot agreeParams 1013 newTSManager = Ok ts ∧
    let q := start + 2 * 20 in
    shardCheckpoint agreeParams {[ "blocktime20"%string := 30 ]} 990 0 30 1013 newTSManager = Ok s1 ∧
    shardCheckpoint agreeParams {[ "blocktime20"%string := 30 ]} 1050 5 31 q s1 = Ok s2 ∧
    confirmShardStates agreeParams agreeVersions [Build_ShardState 0 30 1013; Build_ShardState 5 31 q] newTSManager =
      Ok s2 ∧
    Anchors s2 = [] ++ [Build_anchorTime 1013 start ts 20 "blocktime20" 30] ∧
    CurrentBlockVersion s2 = 5 ∧ CurrentProposeTime s2 = q.
Proof.
  apply (shard_anchor_agrees agreeParams agreeVersions {[ "blocktime20"%string := 30 ]}
           {[ "blocktime20"%string := 30 ]} 990 1050 newTSManager 0 5 30 "blocktime20" 20 1013 2).
  - apply (bool_decide_unpack _). vm_compute. exact I.
  - apply (bool_decide_unpack _). vm_compute. exact I.
  - lia.
  - vm_compute. discriminate.
  - intros g Hg. unfold agreeParams in Hg. rewrite !elem_of_cons, elem_of_nil in Hg.
    repeat destruct Hg as [->|Hg]; try done; vm_compute; split; congruence.
  - intros g Hg. unfold agreeParams in Hg. rewrite !elem_of_cons, elem_of_nil in Hg.
    repeat destruct Hg as [->|Hg]; try done; vm_compute; congruence.
  - intros g Hg. unfold agreeParams in Hg. rewrite !elem_of_cons, elem_of_nil in Hg.
    repeat destruct Hg as [->|Hg]; try done; vm_compute; split; congruence.
  - reflexivity.
  - discriminate.
  - unfold word64. lia.
  - lia.
  - lia.
Defined.
