(* ===== verification/MultiView.v ===== *)
(** The tree of views of a chain ([multiview/multiview.go], [beaconmultiview.go],
    [shardmultiview.go]): every block a node accepts becomes a view; the node keeps the views
    that may still win, the best of them, the one it expects to be final, and the final one.

    A view is an object that several trees share ([Clone], [ReplaceBlockIfImproveFinality]):
    a tree holds addresses ([ref]) and the objects live in a [heap].  Everything a tree asks
    of a view comes from its block, except the slot numbering, which is its [TSManager], and
    the comparison of committees, which each chain implements its own way. *)
From S2P Require Import Prelude Hash Timeslot.

Local Open Scope Z_scope.

Definition BFT_VERSION : Z := 1.
Definition MULTI_VIEW_VERSION : Z := 2.
Definition LEMMA2_VERSION : Z := 6.
Definition INSTANT_FINALITY_VERSION : Z := 8.

(** [types.BlockInterface], as far as the tree reads it. *)
Record BlockInterface := {
  blkHash : Hash;
  blkPrevHash : Hash;
  blkHeight : Z;
  blkVersion : Z;
  blkProduceTime : Z;
  blkProposeTime : Z;
  blkFinalityHeight : Z;
  blkCommitteeFromBlock : Hash;
}.

Record View := {
  BestBlock : BlockInterface;
  viewTSManager : TSManager;
}.

Definition GetBlock (v : View) : BlockInterface := BestBlock v.
Definition GetHash (v : View) : Hash := blkHash (BestBlock v).
Definition GetPreviousHash (v : View) : Hash := blkPrevHash (BestBlock v).
Definition GetHeight (v : View) : Z := blkHeight (BestBlock v).
Definition ReplaceBlock (b : BlockInterface) (v : View) : View :=
  Build_View b (viewTSManager v).

(** Addresses of views; an address always holds a view, a nil interface is [None]. *)
Abbreviation ref := positive.
Abbreviation heap := (ref → View).
Definition assign (r : ref) (v : View) (hp : heap) : heap :=
  λ r', if decide (r' = r) then v else hp r'.

(** The two implementations of [CompareCommitteeFromBlock]; the shard's looks the beacon
    blocks up whose committees signed the two blocks ([GetBeaconBlockByHash], by height). *)
Class CompareCommittee := CompareCommitteeFromBlock : View → View → Z.

Definition BeaconCompare : CompareCommittee := λ _ _, 0.

Definition ShardCompare (GetBeaconBlockByHash : Hash → option Z) : CompareCommittee := λ x y,
  if decide (blkCommitteeFromBlock (BestBlock x) = blkCommitteeFromBlock (BestBlock y)) then 0
  else match GetBeaconBlockByHash (blkCommitteeFromBlock (BestBlock x)),
             GetBeaconBlockByHash (blkCommitteeFromBlock (BestBlock y)) with
       | Some hx, Some hy => if hy <? hx then 1 else -1
       | _, _ => 0
       end.

Record multiView := {
  viewByHash : gmap Hash ref;
  viewByPrevHash : gmap Hash (list ref);
  finalView : option ref;
  expectedFinalView : option ref;
  bestView : option ref;
}.

Definition NewMultiView : multiView := Build_multiView ∅ ∅ None None None.
Definition Reset (s : multiView) : multiView := Build_multiView ∅ ∅ None None None.

(** [Clone] shares the views; the maps are copied. *)
Definition Clone (s : multiView) : multiView :=
  {| viewByHash := viewByHash s; viewByPrevHash := viewByPrevHash s;
     finalView := finalView s; expectedFinalView := expectedFinalView s; bestView := bestView s |}.

Definition setFinal (r : ref) (s : multiView) : multiView :=
  Build_multiView (viewByHash s) (viewByPrevHash s) (Some r) (expectedFinalView s) (bestView s).
Definition setExpected (r : ref) (s : multiView) : multiView :=
  Build_multiView (viewByHash s) (viewByPrevHash s) (finalView s) (Some r) (bestView s).
Definition setBest (r : ref) (s : multiView) : multiView :=
  Build_multiView (viewByHash s) (viewByPrevHash s) (finalView s) (expectedFinalView s) (Some r).
Definition ClearBranch (s : multiView) : multiView :=
  Build_multiView (viewByHash s) (viewByPrevHash s) (finalView s) (expectedFinalView s) (expectedFinalView s).

(** A method call on a nil interface panics. *)
Definition notNil {A} (x : option A) : outcome A :=
  match x with Some a => Ok a | None => Panic end.

Section Operations.
Context (BlockTimeParam : list (string * Z)) `{CompareCommittee}.

(** The walks towards the root visit each known view at most once. *)
Definition walkFuel (s : multiView) : nat := S (size (viewByHash s)).

(** *** [findExpectFinalView] *)
Fixpoint findExpectLoop (fuel : nat) (hp : heap) (byHash : gmap Hash ref) (current : ref) : outcome ref :=
  match fuel with
  | O => OutOfFuel
  | S fuel =>
      match byHash !! GetPreviousHash (hp current) with
      | None => Ok current
      | Some prev1View =>
          if blkFinalityHeight (GetBlock (hp current)) =? 0
          then findExpectLoop fuel hp byHash prev1View
          else Ok current
      end
  end.

Definition findExpectFinalView (hp : heap) (checkView : ref) (s : multiView) : outcome ref :=
  findExpectLoop (walkFuel s) hp (viewByHash s) checkView.

(** The longer of two views; of equally long ones, the one produced earlier. *)
Definition longerView (hp : heap) (newView best : ref) : ref :=
  let best := if GetHeight (hp best) <? GetHeight (hp newView) then newView else best in
  if GetHeight (hp newView) =? GetHeight (hp best)
  then if blkProduceTime (GetBlock (hp newView)) <? blkProduceTime (GetBlock (hp best))
       then newView else best
  else best.

(** *** [updateViewState] before instant finality *)
Definition updateExpectedV1 (hp : heap) (best : ref) (s : multiView) : multiView :=
  match viewByHash s !! GetPreviousHash (hp best) with
  | None => s
  | Some prev1View => setExpected prev1View s
  end.

Definition updateExpectedV2 (hp : heap) (newView best : ref) (s : multiView) : outcome multiView :=
  expected ← notNil (expectedFinalView s);
  match viewByHash s !! GetPreviousHash (hp best) with
  | None => mret s
  | Some prev1View =>
      if GetHeight (hp expected) =? GetHeight (hp prev1View) then mret s
      else
        bestViewTimeSlot ← calculateTimeslot BlockTimeParam
                             (blkProposeTime (GetBlock (hp best))) (viewTSManager (hp best));
        prev1TimeSlot ← calculateTimeslot BlockTimeParam
                          (blkProposeTime (GetBlock (hp prev1View))) (viewTSManager (hp best));
        let s := if prev1TimeSlot + 1 =? bestViewTimeSlot then setExpected prev1View s else s in
        let new := GetBlock (hp newView) in
        mret (if (LEMMA2_VERSION <=? blkVersion new) &&
                 (sub64 (blkHeight new) 1 =? blkFinalityHeight new)
              then setExpected prev1View s else s)
  end.

Definition updateBefore (hp : heap) (newView : ref) (s : multiView) : outcome multiView :=
  best ← notNil (bestView s);
  let best := longerView hp newView best in
  let s := setBest best s in
  let version := blkVersion (GetBlock (hp newView)) in
  if version =? BFT_VERSION then mret (updateExpectedV1 hp best s)
  else if MULTI_VIEW_VERSION <=? version then updateExpectedV2 hp newView best s
  else mret s.

(** *** [updateViewState] under instant finality *)
Definition updateInstant (hp : heap) (newView : ref) (s : multiView) : outcome multiView :=
  best ← notNil (bestView s);
  let compareCommittee := CompareCommitteeFromBlock (hp newView) (hp best) in
  best ← (if (compareCommittee =? 0) ||
              bool_decide (GetPreviousHash (hp newView) = GetHash (hp best))
           then mret (longerView hp newView best)
           else
             expectedFinalViewOfNewView ← findExpectFinalView hp newView s;
             let newViewCreateNewFinal := bool_decide (finalView s ≠ Some expectedFinalViewOfNewView) in
             let bestViewCreateNewFinal := bool_decide (finalView s ≠ expectedFinalView s) in
             mret (if Bool.eqb newViewCreateNewFinal bestViewCreateNewFinal
                   then if compareCommittee =? 1 then newView else best
                   else if newViewCreateNewFinal then newView else best));
  let s := setBest best s in
  expected ← findExpectFinalView hp best s;
  mret (setExpected expected s).

Definition updateViewState (hp : heap) (newView : ref) (s : multiView) : outcome multiView :=
  match expectedFinalView s with
  | None => mret (setFinal newView (setBest newView (setExpected newView s)))
  | Some _ =>
      if blkVersion (GetBlock (hp newView)) <? INSTANT_FINALITY_VERSION
      then updateBefore hp newView s
      else updateInstant hp newView s
  end.

(** *** [addView] *)
Definition insertView (hp : heap) (view : ref) (s : multiView) : multiView :=
  Build_multiView (<[GetHash (hp view) := view]> (viewByHash s)) (viewByPrevHash s)
    (finalView s) (expectedFinalView s) (bestView s).

Definition appendChild (hp : heap) (view : ref) (s : multiView) : multiView :=
  let prev := GetPreviousHash (hp view) in
  Build_multiView (viewByHash s)
    (<[prev := default [] (viewByPrevHash s !! prev) ++ [view]]> (viewByPrevHash s))
    (finalView s) (expectedFinalView s) (bestView s).

Definition addView (hp : heap) (view : ref) (s : multiView) : outcome (bool * multiView) :=
  if (size (viewByHash s) =? 0)%nat then
    s ← updateViewState hp view (insertView hp view s);
    mret (true, s)
  else
    match viewByHash s !! GetHash (hp view), viewByHash s !! GetPreviousHash (hp view) with
    | None, Some _ =>
        s ← updateViewState hp view (appendChild hp view (insertView hp view s));
        mret (true, s)
    | _, _ => mret (false, s)
    end.

(** *** [FinalizeView] *)
Fixpoint linkLoop (fuel : nat) (hp : heap) (byHash : gmap Hash ref) (hashToFinalize : Hash)
    (prevView : ref) : outcome bool :=
  match fuel with
  | O => OutOfFuel
  | S fuel =>
      if bool_decide (hashToFinalize = GetHash (hp prevView)) then Ok true
      else match byHash !! GetPreviousHash (hp prevView) with
           | None => Ok false
           | Some prevView => linkLoop fuel hp byHash hashToFinalize prevView
           end
  end.

(** An unknown hash is an error; a hash off the best branch panics. *)
Definition FinalizeView (hp : heap) (hashToFinalize : Hash) : M multiView unit :=
  s ← getS;
  match viewByHash s !! hashToFinalize with
  | None => fail "Cannot find view by hash"
  | Some viewToFinalize =>
      final ← lift (notNil (finalView s));
      if GetHeight (hp viewToFinalize) <=? GetHeight (hp final) then mret tt
      else
        best ← lift (notNil (bestView s));
        linked ← lift (linkLoop (walkFuel s) hp (viewByHash s) hashToFinalize best);
        if (linked : bool) then modifyS (setFinal viewToFinalize) else panic
  end.

(** *** [getAllViewsWithBFS] *)
Fixpoint bfsLoop (fuel : nat) (hp : heap) (children : gmap Hash (list ref))
    (queue res : list ref) : outcome (list ref) :=
  match fuel with
  | O => OutOfFuel
  | S fuel =>
      match queue with
      | [] => Ok res
      | firstItem :: queue =>
          bfsLoop fuel hp children
            (queue ++ default [] (children !! GetHash (hp firstItem))) (res ++ [firstItem])
      end
  end.

(** A nil root stops the loop at once. *)
Definition getAllViewsWithBFS (hp : heap) (rootView : option ref) (s : multiView) : outcome (list ref) :=
  match rootView with
  | None => Ok []
  | Some root => bfsLoop (S (walkFuel s)) hp (viewByPrevHash s) [root] []
  end.

Definition GetAllViewsWithBFS (hp : heap) (s : multiView) : outcome (list ref) :=
  getAllViewsWithBFS hp (finalView s) s.

(** *** [GetViewByHash] and [removeOutdatedView] *)
Definition GetViewByHash (hp : heap) (hash : Hash) (s : multiView) : outcome (option ref) :=
  match viewByHash s !! hash with
  | None => Ok None
  | Some view =>
      final ← notNil (finalView s);
      mret (if GetHeight (hp view) <? GetHeight (hp final) then None else Some view)
  end.

Definition removeOutdatedView (hp : heap) (s : multiView) : outcome multiView :=
  if (size (viewByHash s) =? 0)%nat then mret s
  else
    final ← notNil (finalView s);
    let outdated := filter (λ '(_, v), GetHeight (hp v) < sub64 (GetHeight (hp final)) 1) (viewByHash s) in
    mret (Build_multiView (viewByHash s ∖ outdated)
            (map_fold (λ h v m, delete (GetPreviousHash (hp v)) (delete h m)) (viewByPrevHash s) outdated)
            (finalView s) (expectedFinalView s) (bestView s)).

Definition RunCleanProcess_tick (hp : heap) (s : multiView) : outcome multiView :=
  if (1 <? size (viewByHash s))%nat then removeOutdatedView hp s else mret s.

(** *** [isFinalized] and [ReplaceBlockIfImproveFinality] *)
Definition isFinalized (hp : heap) (h : Hash) (s : multiView) : outcome bool :=
  match viewByHash s !! h with
  | None => Ok false
  | Some _ =>
      expected ← notNil (expectedFinalView s);
      linkLoop (walkFuel s) hp (viewByHash s) h expected
  end.

Definition IsInstantFinality (s : multiView) : bool :=
  bool_decide (expectedFinalView s = bestView s).

(** The block is replaced in the shared view, and all views from the final one on are added
    to a scratch tree, whose choice of best and expected final view is taken over. *)
Fixpoint readdViews (h : Hash) (b : BlockInterface) (views : list ref) (hp : heap) (tmp : multiView) :
    outcome (heap * multiView) :=
  match views with
  | [] => Ok (hp, tmp)
  | v :: views =>
      let hp := if bool_decide (GetHash (hp v) = h) then assign v (ReplaceBlock b (hp v)) hp else hp in
      '(_, tmp) ← addView hp v tmp;
      readdViews h b views hp tmp
  end.

Definition ReplaceBlockIfImproveFinality (b : BlockInterface) : M (heap * multiView) bool :=
  '(hp, s) ← getS;
  if blkVersion b <? INSTANT_FINALITY_VERSION then mret false
  else
    let h := blkHash b in
    match viewByHash s !! h with
    | None => fail "Cannot find view"
    | Some replaceView =>
        finalized ← lift (isFinalized hp h s);
        let isImprove := negb (blkFinalityHeight b =? 0) &&
          (negb finalized || (blkProposeTime b <? blkProposeTime (GetBlock (hp replaceView)))) in
        if isImprove : bool then
          allView ← lift (getAllViewsWithBFS hp (finalView s) s);
          '(hp, tmp) ← lift (readdViews h b allView hp NewMultiView);
          modifyS (λ _, (hp, Build_multiView (viewByHash s) (viewByPrevHash s) (finalView s)
                               (expectedFinalView tmp) (bestView tmp)));;
          mret true
        else mret false
    end.

(** *** The two chains' [AddView]: the beacon chain finalises at once, a shard under instant
    finality waits for the beacon chain to confirm. *)
Definition BeaconAddView (hp : heap) (v : ref) : M multiView bool :=
  s ← getS;
  '(added, s) ← lift (addView hp v s);
  modifyS (λ _, s);;
  expected ← lift (notNil (expectedFinalView s));
  FinalizeView hp (GetHash (hp expected));;
  mret added.

Definition ShardAddView (hp : heap) (v : ref) : M multiView bool :=
  s ← getS;
  '(added, s) ← lift (addView hp v s);
  modifyS (λ _, s);;
  (if blkVersion (GetBlock (hp v)) <? INSTANT_FINALITY_VERSION then
     expected ← lift (notNil (expectedFinalView s));
     FinalizeView hp (GetHash (hp expected))
   else mret tt);;
  mret added.

(** [SimulateAddView] works on a clone: the original tree stays. *)
Definition BeaconSimulateAddView (hp : heap) (v : ref) (s : multiView) : outcome multiView :=
  match BeaconAddView hp v (Clone s) with
  | (Ok _, s') | (Err _, s') => Ok s'
  | (Panic, _) => Panic
  | (OutOfFuel, _) => OutOfFuel
  end.

(** Restarting ([RestoreBeaconViews], [RestoreShardViews]): the backed-up views are added to
    an empty tree in the order of the backup. *)
Fixpoint restoreViews (AddView : ref → M multiView bool) (views : list ref) : M multiView unit :=
  match views with
  | [] => mret tt
  | v :: views => AddView v;; restoreViews AddView views
  end.

End Operations.

(** ** The tree *)

(** In a chain of validated blocks a block is one higher than its predecessor, the hash of a
    block determines its height, and the first block has height one. *)
Definition wf_heap (hp : heap) : Prop :=
  (∀ r p, GetPreviousHash (hp r) = GetHash (hp p) → GetHeight (hp r) = GetHeight (hp p) + 1) ∧
  (∀ r r', GetHash (hp r) = GetHash (hp r') → GetHeight (hp r) = GetHeight (hp r')) ∧
  (∀ r, 1 ≤ GetHeight (hp r) < word64).

(** [p] is the known predecessor of [r]; [ancestor r a]: [a] is [r] or comes before it. *)
Definition parent (hp : heap) (s : multiView) (r p : ref) : Prop :=
  viewByHash s !! GetPreviousHash (hp r) = Some p.
Definition ancestor (hp : heap) (s : multiView) : ref → ref → Prop := rtc (parent hp s).
Definition known (hp : heap) (s : multiView) (r : ref) : Prop :=
  viewByHash s !! GetHash (hp r) = Some r.

Definition named (hp : heap) (s : multiView) : Prop :=
  ∀ h r, viewByHash s !! h = Some r → GetHash (hp r) = h.

(** All views whose predecessor is unknown have the same, lowest height. *)
Definition based (hp : heap) (s : multiView) : Prop :=
  ∃ m, ∀ r, known hp s r →
    m ≤ GetHeight (hp r) ∧ (viewByHash s !! GetPreviousHash (hp r) = None ↔ GetHeight (hp r) = m).

(** The lists of children are exactly the known views with a known predecessor. *)
Record wf_tree (hp : heap) (s : multiView) : Prop := {
  wt_named : named hp s;
  wt_based : based hp s;
  wt_child : ∀ h l r, viewByPrevHash s !! h = Some l → r ∈ l →
    known hp s r ∧ GetPreviousHash (hp r) = h ∧ is_Some (viewByHash s !! h);
  wt_listed : ∀ r p, known hp s r → parent hp s r p →
    r ∈ default [] (viewByPrevHash s !! GetPreviousHash (hp r));
  wt_nodup : ∀ h l, viewByPrevHash s !! h = Some l → NoDup l;
}.

Section Walks.
Context (hp : heap) (Hheap : wf_heap hp) (s : multiView) (Hnamed : named hp s).

Lemma parent_known r p : parent hp s r p → known hp s p.
Proof. intros Hp. unfold known. by rewrite (Hnamed _ _ Hp). Qed.

Lemma parent_height r p : parent hp s r p → GetHeight (hp r) = GetHeight (hp p) + 1.
Proof. intros Hp. apply Hheap. by rewrite (Hnamed _ _ Hp). Qed.

Lemma parent_fun r p q : parent hp s r p → parent hp s r q → p = q.
Proof. unfold parent. congruence. Qed.

Lemma ancestor_known r a : known hp s r → ancestor hp s r a → known hp s a.
Proof. intros Hr. induction 1 as [|x y z Hxy _ IH]; [done|]. apply IH. by eapply parent_known. Qed.

Lemma ancestor_height r a : ancestor hp s r a → r = a ∨ GetHeight (hp a) < GetHeight (hp r).
Proof.
  induction 1 as [|x y z Hxy _ IH]; [by left|]. right.
  pose proof (parent_height _ _ Hxy). destruct IH as [->|]; lia.
Qed.

(** Two ancestors of one view lie on one line. *)
Lemma ancestor_line r a b : ancestor hp s r a → ancestor hp s r b →
  GetHeight (hp a) ≤ GetHeight (hp b) → ancestor hp s b a.
Proof.
  intros Ha. revert b. induction Ha as [x|x y z Hxy Hyz IH]; intros b Hb Hle.
  - destruct (ancestor_height _ _ Hb) as [->|]; [by apply rtc_refl|lia].
  - inversion Hb as [|? y' ? Hxy' Hy'b]; subst; [by eapply rtc_l|].
    pose proof (parent_fun _ _ _ Hxy Hxy') as <-. by apply IH.
Qed.

(** How many known views lie below a view: what the walks towards the root decrease. *)
Definition below (r : ref) : nat :=
  size (filter (λ hv : Hash * ref, GetHeight (hp hv.2) < GetHeight (hp r)) (viewByHash s)).

Lemma below_parent r p : parent hp s r p → (below p < below r)%nat.
Proof.
  intros Hp. pose proof (parent_height _ _ Hp) as Hh. apply map_subset_size. split.
  - apply map_filter_subseteq_ext. intros i x _ Hx. cbn in *. lia.
  - intros Hsub. assert (Hin : filter (λ hv : Hash * ref, GetHeight (hp hv.2) < GetHeight (hp r))
      (viewByHash s) !! GetPreviousHash (hp r) = Some p) by (apply map_lookup_filter_Some; cbn; split; [done|lia]).
    apply (lookup_weaken _ _ _ _ Hin) in Hsub. apply map_lookup_filter_Some in Hsub as [_ Hlt].
    cbn in Hlt. lia.
Qed.

Lemma below_size r : (below r ≤ size (viewByHash s))%nat.
Proof. apply map_subseteq_size, map_filter_subseteq. Qed.

(** *** The walks return, and what they return *)
Lemma findExpectLoop_spec fuel r : (below r < fuel)%nat →
  ∃ e, findExpectLoop fuel hp (viewByHash s) r = Ok e ∧ ancestor hp s r e ∧
    (viewByHash s !! GetPreviousHash (hp e) = None ∨ blkFinalityHeight (GetBlock (hp e)) ≠ 0) ∧
    ∀ x, ancestor hp s r x → ancestor hp s x e → x ≠ e → blkFinalityHeight (GetBlock (hp x)) = 0.
Proof.
  revert r. induction fuel as [|fuel IH]; intros r Hf; [lia|]. cbn [findExpectLoop].
  assert (Hself : ∀ x, ancestor hp s r x → ancestor hp s x r → x ≠ r →
                       blkFinalityHeight (GetBlock (hp x)) = 0).
  { intros x H1 H2 Hne. destruct (ancestor_height _ _ H1), (ancestor_height _ _ H2); try congruence; lia. }
  destruct (viewByHash s !! GetPreviousHash (hp r)) as [p|] eqn:Hp.
  - destruct (blkFinalityHeight (GetBlock (hp r)) =? 0) eqn:E.
    + destruct (IH p) as (e & He & Hanc & Hstop & Hpath); [pose proof (below_parent _ _ Hp); lia|].
      exists e. split; [done|]. split; [by eapply rtc_l|]. split; [done|].
      intros x Hx Hxe Hne. inversion Hx as [|? y ? Hry Hyx]; subst; [lia|].
      pose proof (parent_fun _ _ _ Hp Hry) as <-. by apply Hpath.
    + exists r. split; [done|]. split; [apply rtc_refl|]. split; [right; lia|done].
  - exists r. split; [done|]. split; [apply rtc_refl|]. split; [by left|done].
Qed.

Lemma findExpectFinalView_spec r :
  ∃ e, findExpectFinalView hp r s = Ok e ∧ ancestor hp s r e ∧
    (viewByHash s !! GetPreviousHash (hp e) = None ∨ blkFinalityHeight (GetBlock (hp e)) ≠ 0) ∧
    ∀ x, ancestor hp s r x → ancestor hp s x e → x ≠ e → blkFinalityHeight (GetBlock (hp x)) = 0.
Proof. apply findExpectLoop_spec. unfold walkFuel. pose proof (below_size r). lia. Qed.

Lemma linkLoop_spec fuel h r : (below r < fuel)%nat →
  ∃ b, linkLoop fuel hp (viewByHash s) h r = Ok b ∧
       (b = true ↔ ∃ x, ancestor hp s r x ∧ GetHash (hp x) = h).
Proof.
  revert r. induction fuel as [|fuel IH]; intros r Hf; [lia|]. cbn [linkLoop].
  case_bool_decide as E.
  { exists true. split; [done|]. split; [|done]. intros _. exists r. split; [apply rtc_refl|done]. }
  destruct (viewByHash s !! GetPreviousHash (hp r)) as [p|] eqn:Hp.
  - destruct (IH p) as (b & Hb & Hiff); [pose proof (below_parent _ _ Hp); lia|].
    exists b. split; [done|]. rewrite Hiff. split; intros (x & Hx & Hh).
    + exists x. split; [by eapply rtc_l|done].
    + inversion Hx as [|? y ? Hry Hyx]; subst; [done|].
      pose proof (parent_fun _ _ _ Hp Hry) as <-. by exists x.
  - exists false. split; [done|]. split; [done|]. intros (x & Hx & Hh).
    inversion Hx as [|? y ? Hry Hyx]; subst; [done|]. unfold parent in Hry. congruence.
Qed.

Lemma link_spec h r :
  ∃ b, linkLoop (walkFuel s) hp (viewByHash s) h r = Ok b ∧
       (b = true ↔ ∃ x, ancestor hp s r x ∧ GetHash (hp x) = h).
Proof. apply linkLoop_spec. unfold walkFuel. pose proof (below_size r). lia. Qed.

(** A known view with a given hash is the only one that an ancestor's hash can name. *)
Lemma known_unique x y : known hp s x → known hp s y → GetHash (hp x) = GetHash (hp y) → x = y.
Proof. unfold known. intros Hx Hy E. rewrite E in Hx. congruence. Qed.

End Walks.

(** *** Updating the pointers *)
Section Update.
Context (BlockTimeParam : list (string * Z)) `{CompareCommittee} (hp : heap).
Context (Hdef : blockTimeOf BlockTimeParam BLOCKTIME_DEFAULT ≠ 0) (Hheap : wf_heap hp).

Definition withPointers (s : multiView) (f e b : option ref) : multiView :=
  Build_multiView (viewByHash s) (viewByPrevHash s) f e b.

(** The committees never differ, as on the beacon chain. *)
Definition neutral : Prop := ∀ x y, CompareCommitteeFromBlock x y = 0.

Lemma longerView_cases v b : longerView hp v b = b ∨ longerView hp v b = v.
Proof. unfold longerView. repeat (case_match; auto). Qed.

Lemma longerView_height v b : GetHeight (hp b) ≤ GetHeight (hp (longerView hp v b)).
Proof. unfold longerView. repeat case_match; lia. Qed.

(** What an update may do to the best and the expected final view. *)
Definition updates (s : multiView) (v e b e' b' : ref) : Prop :=
  (b' = b ∨ b' = v) ∧ (ancestor hp s b' e' ∨ e' = e) ∧
  (neutral → GetHeight (hp b) ≤ GetHeight (hp b')) ∧
  (INSTANT_FINALITY_VERSION ≤ blkVersion (GetBlock (hp v)) →
     ancestor hp s b' e' ∧
     (viewByHash s !! GetPreviousHash (hp e') = None ∨ blkFinalityHeight (GetBlock (hp e')) ≠ 0)).

Lemma updateExpectedV2_spec v s e b :
  expectedFinalView s = Some e → bestView s = Some b →
  ∃ e', updateExpectedV2 BlockTimeParam hp v b s =
          Ok (withPointers s (finalView s) (Some e') (Some b)) ∧
        (ancestor hp s b e' ∨ e' = e).
Proof.
  intros He Hb. unfold updateExpectedV2, withPointers. rewrite He. cbn [notNil mbind outcome_bind].
  destruct (viewByHash s !! GetPreviousHash (hp b)) as [p|] eqn:Hp;
    [|exists e; rewrite <- He, <- Hb; destruct s; auto].
  assert (Hanc : ancestor hp s b p) by by apply rtc_once.
  destruct (GetHeight (hp e) =? GetHeight (hp p)); [exists e; rewrite <- He, <- Hb; destruct s; auto|].
  destruct (calculateTimeslot_Ok BlockTimeParam (blkProposeTime (GetBlock (hp b))) (viewTSManager (hp b)) Hdef) as [t1 ->].
  destruct (calculateTimeslot_Ok BlockTimeParam (blkProposeTime (GetBlock (hp p))) (viewTSManager (hp b)) Hdef) as [t2 ->].
  cbn [mbind outcome_bind mret outcome_ret].
  destruct (_ && _); [exists p; destruct (_ =? t1); unfold setExpected; cbn; rewrite Hb; auto|].
  destruct (_ =? t1); [exists p; unfold setExpected; cbn; rewrite Hb; auto|].
  exists e. rewrite <- He, <- Hb. destruct s; auto.
Qed.

Lemma updateBefore_spec v s e b :
  expectedFinalView s = Some e → bestView s = Some b →
  ∃ e' b', updateBefore BlockTimeParam hp v s =
             Ok (withPointers s (finalView s) (Some e') (Some b')) ∧
    (b' = b ∨ b' = v) ∧ (ancestor hp s b' e' ∨ e' = e) ∧ GetHeight (hp b) ≤ GetHeight (hp b').
Proof.
  intros He Hb. unfold updateBefore. rewrite Hb. cbn [notNil mbind outcome_bind].
  set (b' := longerView hp v b). pose proof (longerView_cases v b). pose proof (longerView_height v b).
  assert (Hsame : withPointers s (finalView s) (Some e) (Some b') = setBest b' s).
  { unfold withPointers, setBest. by rewrite He. }
  destruct (_ =? BFT_VERSION); [|destruct (MULTI_VIEW_VERSION <=? _)].
  - unfold updateExpectedV1. cbn [viewByHash setBest].
    destruct (viewByHash s !! GetPreviousHash (hp b')) as [p|] eqn:Hp.
    + exists p, b'. split; [done|]. split; [done|]. split; [|done]. left. by apply rtc_once.
    + exists e, b'. rewrite Hsame. auto.
  - destruct (updateExpectedV2_spec v (setBest b' s) e b') as (e' & -> & Hanc); [done..|].
    by exists e', b'.
  - exists e, b'. rewrite Hsame. auto.
Qed.

Lemma updateInstant_spec v s e b : named hp s →
  expectedFinalView s = Some e → bestView s = Some b →
  ∃ e' b', updateInstant hp v s =
             Ok (withPointers s (finalView s) (Some e') (Some b')) ∧
    (b' = b ∨ b' = v) ∧ ancestor hp s b' e' ∧ (neutral → GetHeight (hp b) ≤ GetHeight (hp b')) ∧
    (viewByHash s !! GetPreviousHash (hp e') = None ∨ blkFinalityHeight (GetBlock (hp e')) ≠ 0).
Proof.
  intros Hnamed He Hb. unfold updateInstant. rewrite Hb. cbn [notNil mbind outcome_bind].
  match goal with |- context [mbind ?k ?m] => match m with context [if _ then mret _ else _] =>
    assert (∃ b', m = Ok b' ∧ (b' = b ∨ b' = v) ∧ (neutral → GetHeight (hp b) ≤ GetHeight (hp b')))
      as (b' & -> & Hcases & Hneutral) end end.
  { pose proof (longerView_cases v b). pose proof (longerView_height v b).
    destruct (_ || _) eqn:E.
    - by exists (longerView hp v b).
    - destruct (findExpectFinalView_spec hp Hheap s Hnamed v) as (x & -> & _).
      cbn [mbind outcome_bind mret outcome_ret]. eexists. split; [done|]. split.
      + repeat case_match; auto.
      + intros Hn. by rewrite Hn in E. }
  cbn [mbind outcome_bind].
  destruct (findExpectFinalView_spec hp Hheap (setBest b' s) Hnamed b') as (e' & -> & Hanc & Hstop & _).
  cbn [mbind outcome_bind mret outcome_ret]. by exists e', b'.
Qed.

Lemma updateViewState_spec v s e b : named hp s →
  expectedFinalView s = Some e → bestView s = Some b →
  ∃ e' b', updateViewState BlockTimeParam hp v s =
             Ok (withPointers s (finalView s) (Some e') (Some b')) ∧ updates s v e b e' b'.
Proof.
  intros Hnamed He Hb. unfold updateViewState. rewrite He. destruct (_ <? _) eqn:E.
  - destruct (updateBefore_spec v s e b He Hb) as (e' & b' & Hu & ? & ? & ?).
    exists e', b'. split; [done|]. repeat split; auto; lia.
  - destruct (updateInstant_spec v s e b Hnamed He Hb) as (e' & b' & Hu & ? & ? & ? & ?).
    exists e', b'. split; [done|]. repeat split; auto.
Qed.

End Update.

(** ** Adding views *)
Section Adding.
Context (hp : heap) (Hheap : wf_heap hp).

Lemma wf_tree_pointers s f e b : wf_tree hp s → wf_tree hp (withPointers s f e b).
Proof. intros []. by constructor. Qed.

Lemma wf_tree_empty : wf_tree hp NewMultiView.
Proof. constructor; unfold named, based, known, parent; cbn; try setoid_rewrite lookup_empty; try done. by exists 0. Qed.

Lemma wf_tree_first v : wf_tree hp (insertView hp v NewMultiView).
Proof.
  assert (Hone : ∀ h r, viewByHash (insertView hp v NewMultiView) !! h = Some r → r = v ∧ h = GetHash (hp v)).
  { cbn. intros h r. rewrite lookup_insert_Some, lookup_empty. naive_solver. }
  assert (Hroot : viewByHash (insertView hp v NewMultiView) !! GetPreviousHash (hp v) = None).
  { destruct (viewByHash _ !! GetPreviousHash (hp v)) as [p|] eqn:E; [|done].
    apply Hone in E as [-> E]. apply Hheap in E. lia. }
  constructor.
  - intros h r Hr. by destruct (Hone _ _ Hr) as [-> ->].
  - exists (GetHeight (hp v)). intros r Hr. destruct (Hone _ _ Hr) as [-> _]. by rewrite Hroot.
  - intros h l r. cbn. by rewrite lookup_empty.
  - intros r p Hr Hp. destruct (Hone _ _ Hr) as [-> _]. unfold parent in Hp. congruence.
  - intros h l. cbn. by rewrite lookup_empty.
Qed.

Definition grown (v : ref) (s : multiView) : multiView := appendChild hp v (insertView hp v s).

Lemma grown_lookup v s h : viewByHash (grown v s) !! h = (if decide (h = GetHash (hp v)) then Some v else viewByHash s !! h).
Proof. cbn. case_decide; [subst; by rewrite lookup_insert_eq|by rewrite lookup_insert_ne]. Qed.

Lemma grown_known v s r : viewByHash s !! GetHash (hp v) = None → r ≠ v →
  known hp (grown v s) r ↔ known hp s r.
Proof.
  intros Hnew Hne. unfold known. rewrite grown_lookup. case_decide as E; [|done].
  rewrite E, Hnew. split; [congruence|done].
Qed.

Lemma grown_parent v s r p : viewByHash s !! GetHash (hp v) = None →
  parent hp s r p → parent hp (grown v s) r p.
Proof. intros Hnew. unfold parent. rewrite grown_lookup. case_decide as E; [rewrite E; congruence|done]. Qed.

Lemma grown_ancestor v s r a : viewByHash s !! GetHash (hp v) = None →
  ancestor hp s r a → ancestor hp (grown v s) r a.
Proof. intros Hnew. apply rtc_subrel. intros x y. by apply grown_parent. Qed.

Lemma grown_prev v s : viewByHash s !! GetHash (hp v) = None →
  is_Some (viewByHash s !! GetPreviousHash (hp v)) → GetPreviousHash (hp v) ≠ GetHash (hp v).
Proof. intros Hnew [p Hp] E. rewrite E in Hp. congruence. Qed.

(** A view whose predecessor is [v] was not known before [v]. *)
Lemma grown_no_child v s r p : named hp s → based hp s →
  viewByHash s !! GetPreviousHash (hp v) = Some p →
  viewByHash s !! GetHash (hp v) = None → known hp s r → GetPreviousHash (hp r) ≠ GetHash (hp v).
Proof.
  intros Hnamed (m & Hm) Hp Hnew Hr E. pose proof (proj1 Hheap _ _ E) as Hh.
  destruct (Hm p) as [Hmp _]; [by eapply parent_known|].
  pose proof (parent_height hp Hheap s Hnamed v p Hp).
  destruct (Hm r Hr) as [_ Hiff]. rewrite E in Hiff. apply Hiff in Hnew. lia.
Qed.

Lemma grown_based v s p : named hp s → based hp s →
  viewByHash s !! GetPreviousHash (hp v) = Some p →
  viewByHash s !! GetHash (hp v) = None → based hp (grown v s).
Proof.
  intros Hnamed Hbased Hp Hnew. pose proof Hbased as (m & Hm). exists m. intros r Hr. rewrite grown_lookup.
  destruct (decide (r = v)) as [->|Hne].
  - destruct (Hm p) as [Hmp _]; [by eapply parent_known|].
    pose proof (parent_height hp Hheap s Hnamed v p Hp).
    rewrite decide_False by (eapply grown_prev; eauto). rewrite Hp. split; [lia|]. split; [done|lia].
  - apply grown_known in Hr; [|done..]. rewrite decide_False by (eapply grown_no_child; eauto). by apply Hm.
Qed.

Lemma grown_children v s h :
  viewByPrevHash (grown v s) !! h =
    if decide (h = GetPreviousHash (hp v)) then Some (default [] (viewByPrevHash s !! h) ++ [v])
    else viewByPrevHash s !! h.
Proof. cbn. case_decide; [subst; by rewrite lookup_insert_eq|by rewrite lookup_insert_ne]. Qed.

Lemma default_elem (s : multiView) h r : r ∈ default [] (viewByPrevHash s !! h) →
  ∃ l, viewByPrevHash s !! h = Some l ∧ r ∈ l.
Proof. destruct (viewByPrevHash s !! h) as [l|]; cbn; [by exists l|intros ?%elem_of_nil; done]. Qed.

Lemma wf_tree_grown v s p : wf_tree hp s →
  viewByHash s !! GetPreviousHash (hp v) = Some p →
  viewByHash s !! GetHash (hp v) = None → wf_tree hp (grown v s).
Proof.
  intros [Hnamed Hbased Hchild Hlisted Hnodup] Hp Hnew.
  assert (Hnotv : ∀ h r, r ∈ default [] (viewByPrevHash s !! h) → r ≠ v).
  { intros h r (l & Hl & Hr)%default_elem ->. destruct (Hchild _ _ _ Hl Hr) as [Hk _]. unfold known in Hk. congruence. }
  constructor.
  - intros h r. rewrite grown_lookup. case_decide; [congruence|apply Hnamed].
  - by eapply grown_based.
  - intros h l r. rewrite grown_children. case_decide as E.
    + intros [= <-] Hin. apply elem_of_app in Hin as [Hr|Hr%list_elem_of_singleton]; [|subst r].
      * pose proof (Hnotv _ _ Hr). apply default_elem in Hr as (l & Hl & Hr).
        destruct (Hchild _ _ _ Hl Hr) as (Hk & Hprev & Hsome). split; [by apply grown_known|]. split; [done|].
        rewrite grown_lookup. case_decide; eauto.
      * unfold known. rewrite !grown_lookup, decide_True by done. split; [done|]. split; [done|].
        case_decide; subst; eauto.
    + intros Hl Hr. destruct (Hchild _ _ _ Hl Hr) as (Hk & Hprev & Hsome).
      split; [apply grown_known; [done| |done]|]. { eapply (Hnotv h). by rewrite Hl. }
      split; [done|]. rewrite grown_lookup. case_decide; eauto.
  - intros r q Hr Hq. rewrite grown_children. unfold parent in Hq. rewrite grown_lookup in Hq.
    destruct (decide (r = v)) as [->|Hne].
    + rewrite decide_True by done. apply elem_of_app. right. by apply list_elem_of_singleton.
    + apply grown_known in Hr; [|done..].
      rewrite decide_False in Hq by (eapply grown_no_child; eauto).
      pose proof (Hlisted r q Hr Hq) as Hin. case_decide as E; [|done].
      apply elem_of_app. by left.
  - intros h l. rewrite grown_children. case_decide; [|apply Hnodup]. intros [= <-].
    apply NoDup_app. split_and!; [|by intros r Hr%Hnotv Hv%list_elem_of_singleton|apply NoDup_singleton].
    destruct (viewByPrevHash s !! h) as [l|] eqn:El; cbn; [by eapply Hnodup|apply NoDup_nil_2].
Qed.

End Adding.

(** ** Breadth-first listing *)
Section Listing.
Context (hp : heap) (Hheap : wf_heap hp) (s : multiView) (Htree : wf_tree hp s).
Context (root : ref) (Hroot : known hp s root).

Definition children (r : ref) : list ref := default [] (viewByPrevHash s !! GetHash (hp r)).

Lemma children_spec r c : known hp s r → c ∈ children r ↔ known hp s c ∧ parent hp s c r.
Proof.
  intros Hr. split.
  - intros (l & Hl & Hc)%default_elem. destruct (wt_child _ _ Htree _ _ _ Hl Hc) as (Hk & Hprev & _).
    split; [done|]. unfold parent. by rewrite Hprev.
  - intros [Hk Hp]. pose proof (wt_listed _ _ Htree c r Hk Hp) as Hin.
    by rewrite <- (wt_named _ _ Htree _ _ Hp) in Hin.
Qed.

(** A list of views from the root on, in which every view comes after its predecessor. *)
Inductive topological : list ref → Prop :=
  | topo_root : topological [root]
  | topo_snoc l c p : topological l → p ∈ l → known hp s c → parent hp s c p → c ∉ l →
      topological (l ++ [c]).

Lemma topological_spec l : topological l →
  NoDup l ∧ root ∈ l ∧ ∀ x, x ∈ l → known hp s x ∧ ancestor hp s x root ∧
                                     (x = root ∨ ∃ p, p ∈ l ∧ parent hp s x p).
Proof.
  induction 1 as [|l c p _ (Hnd & Hr & Hall) Hp Hc Hcp Hnew].
  - split; [apply NoDup_singleton|]. split; [by apply list_elem_of_singleton|].
    intros x ->%list_elem_of_singleton. split; [done|]. split; [apply rtc_refl|by left].
  - split_and!.
    + apply NoDup_app. split; [done|]. split; [|apply NoDup_singleton].
      by intros x Hx ->%list_elem_of_singleton.
    + apply elem_of_app. by left.
    + intros x [Hx| ->%list_elem_of_singleton]%elem_of_app.
      * destruct (Hall x Hx) as (Hk & Ha & Hor). split; [done|]. split; [done|].
        destruct Hor as [|(q & Hq & Hxq)]; [by left|]. right. exists q. rewrite elem_of_app. auto.
      * split; [done|]. split; [eapply rtc_l; [done|]; by apply (Hall p)|].
        right. exists p. rewrite elem_of_app. auto.
Qed.

Lemma known_list_length l : NoDup l → (∀ x, x ∈ l → known hp s x) → (List.length l ≤ size (viewByHash s))%nat.
Proof.
  intros Hnd Hall. rewrite <- length_map_to_list, <- (length_fmap snd).
  apply submseteq_length, NoDup_submseteq; [done|]. intros x Hx%Hall.
  apply list_elem_of_fmap. exists (GetHash (hp x), x). split; [done|]. by apply elem_of_map_to_list.
Qed.

(** The state of the loop: the views found form a topological list, and exactly the visited
    ones have been expanded. *)
Definition bfs_inv (queue res : list ref) : Prop :=
  topological (res ++ queue) ∧
  (∀ x, x ∈ res ++ queue → x = root ∨ ∃ p, p ∈ res ∧ parent hp s x p) ∧
  (∀ p c, p ∈ res → known hp s c → parent hp s c p → c ∈ res ++ queue).

Lemma topological_children l p cs : topological l → p ∈ l →
  (∀ c, c ∈ cs → known hp s c ∧ parent hp s c p ∧ c ∉ l) → NoDup cs → topological (l ++ cs).
Proof.
  intros Hl Hp. induction cs as [|c cs IH] using rev_ind; intros Hcs Hnd; [by rewrite app_nil_r|].
  rewrite app_assoc. apply NoDup_app in Hnd as (Hnd & Hdisj & _).
  destruct (Hcs c) as (Hk & Hcp & Hnew); [apply elem_of_app; right; by apply list_elem_of_singleton|].
  apply (topo_snoc _ _ p); [|by apply elem_of_app; left|done..|].
  - apply IH; [|done]. intros c' Hc'. apply Hcs, elem_of_app. by left.
  - intros [Hin|Hin]%elem_of_app; [done|]. apply (Hdisj c Hin). by apply list_elem_of_singleton.
Qed.

Lemma bfs_step x queue res : bfs_inv (x :: queue) res →
  bfs_inv (queue ++ children x) (res ++ [x]).
Proof.
  intros (Htopo & Hvis & Hexp). destruct (topological_spec _ Htopo) as (Hnd & Hr & Hall).
  assert (Hx : x ∈ res ++ x :: queue) by (rewrite elem_of_app, elem_of_cons; auto).
  destruct (Hall x Hx) as (Hkx & Hanc & _).
  assert (Hnotres : x ∉ res).
  { intros Hin. apply NoDup_app in Hnd as (_ & Hdisj & _). apply (Hdisj x Hin). by left. }
  assert (Heq : (res ++ [x]) ++ queue ++ children x = (res ++ x :: queue) ++ children x)
    by (by rewrite <- !app_assoc).
  unfold bfs_inv. rewrite Heq. split_and!.
  - apply (topological_children _ x); [done..| |].
    + intros c [Hk Hcx]%children_spec; [|done]. split; [done|]. split; [done|]. intros Hin.
      destruct (Hvis c Hin) as [->|(p & Hp & Hcp)].
      * pose proof (parent_height hp Hheap s (wt_named _ _ Htree) _ _ Hcx).
        destruct (ancestor_height hp Hheap s (wt_named _ _ Htree) _ _ Hanc) as [->|]; lia.
      * by rewrite (parent_fun hp s _ _ _ Hcx Hcp) in Hnotres.
    + unfold children. destruct (viewByPrevHash s !! _) as [l|] eqn:El; cbn; [|apply NoDup_nil_2].
      by eapply (wt_nodup _ _ Htree).
  - intros y [Hy|[_ Hy]%children_spec]%elem_of_app; [|right; exists x; rewrite elem_of_app, list_elem_of_singleton; auto|done].
    destruct (Hvis y Hy) as [|(p & Hp & Hyp)]; [by left|]. right. exists p. rewrite elem_of_app. auto.
  - intros p c [Hp| ->%list_elem_of_singleton]%elem_of_app Hk Hcp; apply elem_of_app.
    + left. by eapply Hexp.
    + right. by apply children_spec.
Qed.

Lemma bfsLoop_spec fuel queue res : bfs_inv queue res →
  (size (viewByHash s) < fuel + List.length res)%nat →
  ∃ l, bfsLoop fuel hp (viewByPrevHash s) queue res = Ok l ∧ bfs_inv [] l.
Proof.
  revert queue res. induction fuel as [|fuel IH]; intros queue res Hinv Hf.
  - destruct Hinv as (Htopo & _). destruct (topological_spec _ Htopo) as (Hnd & _ & Hall).
    pose proof (known_list_length _ Hnd (λ x Hx, proj1 (Hall x Hx))) as Hlen.
    rewrite length_app in Hlen. lia.
  - cbn [bfsLoop]. destruct queue as [|x queue]; [by exists res|].
    apply IH; [by apply bfs_step|]. rewrite length_app. cbn. lia.
Qed.

(** The listing returns exactly the views on the branches from the root, each once and after
    its predecessor. *)
Lemma getAllViewsWithBFS_spec : ∃ l,
  getAllViewsWithBFS hp (Some root) s = Ok l ∧ topological l ∧ NoDup l ∧
  ∀ x, x ∈ l ↔ known hp s x ∧ ancestor hp s x root.
Proof.
  destruct (bfsLoop_spec (S (walkFuel s)) [root] []) as (l & Hl & Htopo & _ & Hexp).
  - split_and!.
    + apply topo_root.
    + intros x ->%list_elem_of_singleton. by left.
    + intros p c []%elem_of_nil.
  - cbn. unfold walkFuel. lia.
  - rewrite app_nil_r in Htopo. destruct (topological_spec _ Htopo) as (Hnd & Hr & Hall).
    exists l. split; [done|]. split; [done|]. split; [done|]. intros x. split; [by intros (? & ? & _)%Hall|].
    intros [Hk Hanc]. revert Hk.
    refine (rtc_ind_l (λ x, known hp s x → x ∈ l) root _ _ x Hanc); [done|].
    clear x Hanc. intros x y Hxy _ IH Hk. specialize (Hexp y x). rewrite app_nil_r in Hexp. apply Hexp; [|done..].
    apply IH; [done..|]. eapply parent_known; [apply Htree|done].
Qed.

End Listing.

(** ** Removing outdated views *)
Section Cleaning.
Context (hp : heap) (Hheap : wf_heap hp) (s : multiView) (Htree : wf_tree hp s).
Context (final : ref) (Hfinal : finalView s = Some final) (Hknown : known hp s final).

Definition outdated : gmap Hash ref :=
  filter (λ '(_, v), GetHeight (hp v) < sub64 (GetHeight (hp final)) 1) (viewByHash s).

Definition cleaned : multiView :=
  Build_multiView (viewByHash s ∖ outdated)
    (map_fold (λ h v m, delete (GetPreviousHash (hp v)) (delete h m)) (viewByPrevHash s) outdated)
    (finalView s) (expectedFinalView s) (bestView s).

Lemma removeOutdatedView_cleaned : removeOutdatedView hp s = Ok cleaned.
Proof.
  unfold removeOutdatedView. destruct (_ =? 0)%nat eqn:E.
  - apply Nat.eqb_eq, map_size_empty_inv in E. unfold known in Hknown. by rewrite E, lookup_empty in Hknown.
  - unfold cleaned. by rewrite Hfinal.
Qed.

Lemma outdated_lookup h v : outdated !! h = Some v ↔
  viewByHash s !! h = Some v ∧ GetHeight (hp v) < GetHeight (hp final) - 1.
Proof.
  unfold outdated. rewrite map_lookup_filter_Some. unfold sub64.
  rewrite u64_small; [done|]. pose proof (proj2 (proj2 Hheap) final). unfold in_u64. lia.
Qed.

Lemma cleaned_lookup h v : viewByHash cleaned !! h = Some v ↔
  viewByHash s !! h = Some v ∧ GetHeight (hp final) - 1 ≤ GetHeight (hp v).
Proof.
  cbn. rewrite lookup_difference_Some, eq_None_not_Some. split.
  - intros [Hv Hout]. split; [done|]. destruct (decide (GetHeight (hp final) - 1 ≤ GetHeight (hp v))); [done|].
    destruct Hout. exists v. apply outdated_lookup. split; [done|lia].
  - intros [Hv Hle]. split; [done|]. intros [w [Hw Hlt]%outdated_lookup].
    assert (w = v) as -> by congruence. lia.
Qed.

Lemma cleaned_known r : known hp cleaned r ↔ known hp s r ∧ GetHeight (hp final) - 1 ≤ GetHeight (hp r).
Proof. apply cleaned_lookup. Qed.

Lemma cleaned_parent r p : parent hp cleaned r p ↔ parent hp s r p ∧ GetHeight (hp final) - 1 ≤ GetHeight (hp p).
Proof. apply cleaned_lookup. Qed.

(** The fold deletes the lists of the removed views and of their predecessors. *)
Lemma fold_delete_lookup (m : gmap Hash (list ref)) (o : gmap Hash ref) h l :
  map_fold (λ h v m, delete (GetPreviousHash (hp v)) (delete h m)) m o !! h = Some l ↔
  m !! h = Some l ∧ ∀ h' v, o !! h' = Some v → h ≠ h' ∧ h ≠ GetPreviousHash (hp v).
Proof.
  revert o. refine (map_fold_weak_ind (λ r o, r !! h = Some l ↔
    m !! h = Some l ∧ ∀ h' v, o !! h' = Some v → h ≠ h' ∧ h ≠ GetPreviousHash (hp v)) _ _ _ _).
  - split; [|by intros []]. intros Hm. split; [done|]. intros h' v. by rewrite lookup_empty.
  - intros i x o r Hi IH. rewrite !lookup_delete_Some, IH. split.
    + intros (Hne & Hne' & Hm & Hall). split; [done|]. intros h' v [[<- <-]|[_ Hv]]%lookup_insert_Some; [done|].
      by apply (Hall h').
    + intros (Hm & Hall). destruct (Hall i x) as [? ?]; [by rewrite lookup_insert_eq|].
      split_and!; [done..|]. intros h' v Hv. apply (Hall h').
      rewrite lookup_insert_ne; [done|]. intros ->. congruence.
Qed.

Lemma cleaned_children h r l : viewByHash cleaned !! h = Some r →
  viewByPrevHash cleaned !! h = Some l ↔ viewByPrevHash s !! h = Some l.
Proof.
  intros [Hr Hle]%cleaned_lookup. unfold cleaned. cbn [viewByPrevHash]. rewrite fold_delete_lookup.
  split; [by intros []|]. intros Hl. split; [done|]. intros h' v [Hv Hlt]%outdated_lookup. split; intros ->.
  - assert (v = r) as -> by congruence. lia.
  - assert (Hp : parent hp s v r) by done.
    pose proof (parent_height hp Hheap s (wt_named _ _ Htree) _ _ Hp). lia.
Qed.

Lemma cleaned_default h r : viewByHash cleaned !! h = Some r →
  default [] (viewByPrevHash cleaned !! h) = default [] (viewByPrevHash s !! h).
Proof.
  intros Hr. destruct (viewByPrevHash s !! h) as [l|] eqn:E.
  - apply (cleaned_children h r l Hr) in E. by rewrite E.
  - destruct (viewByPrevHash cleaned !! h) as [l|] eqn:E'; [|done].
    apply (cleaned_children h r l Hr) in E'. congruence.
Qed.

Lemma cleaned_based : based hp cleaned.
Proof.
  destruct (wt_based _ _ Htree) as (m & Hm). exists (Z.max m (GetHeight (hp final) - 1)).
  intros r [Hr Hle]%cleaned_known. destruct (Hm r Hr) as [Hmr Hroot]. split; [lia|].
  destruct (viewByHash s !! GetPreviousHash (hp r)) as [p|] eqn:Hp.
  - pose proof (parent_height hp Hheap s (wt_named _ _ Htree) _ _ Hp) as Hh.
    assert (Hkp : known hp s p) by (eapply parent_known; [apply Htree|done]).
    destruct (Hm p Hkp) as [Hmp _]. split.
    + intros Hnone. destruct (decide (GetHeight (hp final) - 1 ≤ GetHeight (hp p))) as [Hge|]; [|lia].
      assert (Hc : parent hp cleaned r p) by (by apply cleaned_parent). unfold parent in Hc. congruence.
    + intros Heq. destruct (viewByHash cleaned !! GetPreviousHash (hp r)) as [q|] eqn:Hq; [|done].
      apply cleaned_lookup in Hq as [Hq Hge]. assert (q = p) as -> by congruence. lia.
  - assert (GetHeight (hp r) = m) by (by apply Hroot). split; [lia|]. intros _.
    destruct (viewByHash cleaned !! GetPreviousHash (hp r)) as [q|] eqn:Hq; [|done].
    apply cleaned_lookup in Hq as [Hq _]. congruence.
Qed.

Lemma wf_tree_cleaned : wf_tree hp cleaned.
Proof.
  constructor.
  - intros h r [Hr _]%cleaned_lookup. by apply (wt_named _ _ Htree).
  - apply cleaned_based.
  - intros h l c [Hl Hout]%fold_delete_lookup Hc.
    destruct (wt_child _ _ Htree _ _ _ Hl Hc) as (Hk & Hprev & p & Hp).
    assert (Hge : GetHeight (hp final) - 1 ≤ GetHeight (hp p)).
    { destruct (decide (GetHeight (hp final) - 1 ≤ GetHeight (hp p))); [done|].
      destruct (Hout h p); [apply outdated_lookup; split; [done|lia]|done]. }
    assert (Hcp : parent hp s c p) by (unfold parent; by rewrite Hprev).
    pose proof (parent_height hp Hheap s (wt_named _ _ Htree) _ _ Hcp).
    split; [apply cleaned_known; split; [done|lia]|]. split; [done|]. exists p. by apply cleaned_lookup.
  - intros r p Hr Hp. pose proof Hp as Hp'. apply cleaned_parent in Hp' as [Hp' _].
    apply cleaned_known in Hr as [Hr _]. rewrite (cleaned_default _ p Hp). by eapply wt_listed.
  - intros h l [Hl _]%fold_delete_lookup. by eapply (wt_nodup _ _ Htree).
Qed.

Lemma cleaned_ancestor r a : GetHeight (hp final) - 1 ≤ GetHeight (hp a) →
  ancestor hp s r a ↔ ancestor hp cleaned r a.
Proof.
  intros Ha. split; induction 1 as [x|x y z Hxy Hyz IH]; try apply rtc_refl.
  - apply (rtc_l _ _ y); [|by apply IH]. apply cleaned_parent. split; [done|].
    destruct (ancestor_height hp Hheap s (wt_named _ _ Htree) _ _ Hyz) as [->|]; lia.
  - apply (rtc_l _ _ y); [|by apply IH]. by apply cleaned_parent in Hxy as [].
Qed.

(** The listing of the final view's branches stays the same. *)
Lemma bfsLoop_cleaned fuel queue res :
  (∀ x, x ∈ queue → known hp s x ∧ GetHeight (hp final) ≤ GetHeight (hp x)) →
  bfsLoop fuel hp (viewByPrevHash cleaned) queue res = bfsLoop fuel hp (viewByPrevHash s) queue res.
Proof.
  revert queue res. induction fuel as [|fuel IH]; intros queue res Hq; [done|]. cbn [bfsLoop].
  destruct queue as [|x queue]; [done|]. destruct (Hq x) as [Hk Hge]; [by left|].
  rewrite (cleaned_default _ x) by (apply cleaned_lookup; split; [done|lia]). apply IH.
  intros y [Hy|Hy]%elem_of_app; [apply Hq; by right|].
  apply (children_spec hp s Htree) in Hy as [Hky Hp]; [|done]. split; [done|].
  pose proof (parent_height hp Hheap s (wt_named _ _ Htree) _ _ Hp). lia.
Qed.

Lemma bfsLoop_more fuel fuel' hp' cs queue res l : (fuel ≤ fuel')%nat →
  bfsLoop fuel hp' cs queue res = Ok l → bfsLoop fuel' hp' cs queue res = Ok l.
Proof.
  revert fuel' queue res. induction fuel as [|fuel IH]; intros fuel' queue res Hle; [done|].
  destruct fuel' as [|fuel']; [lia|]. cbn [bfsLoop]. destruct queue; [done|]. apply IH. lia.
Qed.

Lemma GetAllViewsWithBFS_cleaned : GetAllViewsWithBFS hp cleaned = GetAllViewsWithBFS hp s.
Proof.
  unfold GetAllViewsWithBFS. cbn [finalView cleaned]. rewrite Hfinal. cbn [getAllViewsWithBFS].
  destruct (getAllViewsWithBFS_spec hp Hheap cleaned wf_tree_cleaned final) as (l & Hl & _).
  { apply cleaned_known. split; [done|lia]. }
  cbn [getAllViewsWithBFS] in Hl. rewrite Hl. symmetry.
  assert (Hq : ∀ x, x ∈ [final] → known hp s x ∧ GetHeight (hp final) ≤ GetHeight (hp x))
    by (intros x ->%list_elem_of_singleton; split; [done|lia]).
  rewrite bfsLoop_cleaned in Hl by done. eapply bfsLoop_more; [|exact Hl].
  unfold walkFuel. do 2 apply le_n_S. apply map_subseteq_size, map_subseteq_spec.
  by intros h r [Hr _]%cleaned_lookup.
Qed.

Lemma GetViewByHash_cleaned h : GetViewByHash hp h cleaned = GetViewByHash hp h s.
Proof.
  unfold GetViewByHash. cbn [finalView cleaned]. rewrite Hfinal. cbn [notNil mbind outcome_bind].
  destruct (viewByHash s !! h) as [v|] eqn:Hv.
  - destruct (decide (GetHeight (hp final) - 1 ≤ GetHeight (hp v))).
    + by rewrite (proj2 (cleaned_lookup h v)).
    + rewrite (proj2 (Z.ltb_lt _ _)) by lia. destruct (viewByHash cleaned !! h) as [w|] eqn:Hw; [|done].
      apply cleaned_lookup in Hw as [Hw ?]. assert (w = v) as -> by congruence. lia.
  - destruct (viewByHash cleaned !! h) as [w|] eqn:Hw; [|done]. apply cleaned_lookup in Hw as [Hw _]. congruence.
Qed.

End Cleaning.

(** ** Finalising *)
Section Finalizing.
Context (hp : heap) (Hheap : wf_heap hp).

(** An unknown hash is an error; a view not above the final one changes nothing; a higher view
    becomes final if it is on the way to the best view, otherwise the node panics. *)
Lemma FinalizeView_cases h s f b : named hp s → finalView s = Some f → bestView s = Some b → known hp s b →
  match viewByHash s !! h with
  | None => FinalizeView hp h s = (Err "Cannot find view by hash", s)
  | Some x =>
      (GetHeight (hp x) ≤ GetHeight (hp f) → FinalizeView hp h s = (Ok tt, s)) ∧
      (GetHeight (hp f) < GetHeight (hp x) → ancestor hp s b x →
         FinalizeView hp h s = (Ok tt, setFinal x s)) ∧
      (GetHeight (hp f) < GetHeight (hp x) → ¬ ancestor hp s b x → FinalizeView hp h s = (Panic, s))
  end.
Proof.
  intros Hnamed Hf Hb Hkb. unfold FinalizeView. rewrite getS_bind.
  destruct (viewByHash s !! h) as [x|] eqn:Hx; [|done].
  rewrite Hf, Hb. unfold mbind, M_bind, lift, notNil, mret, M_ret.
  destruct (link_spec hp Hheap s Hnamed h b) as (linked & -> & Hiff).
  assert (Hanc : linked = true ↔ ancestor hp s b x).
  { rewrite Hiff. split.
    - intros (y & Hy & Hyh). replace x with y; [done|]. apply (known_unique hp s).
      + by eapply ancestor_known.
      + unfold known. by rewrite (Hnamed _ _ Hx).
      + by rewrite (Hnamed _ _ Hx).
    - intros Hax. exists x. split; [done|]. by apply Hnamed. }
  split_and!; intros Hle.
  - by rewrite (proj2 (Z.leb_le _ _)) by lia.
  - intros Hax%Hanc. rewrite (proj2 (Z.leb_gt _ _)) by lia. by rewrite Hax.
  - intros Hax. rewrite (proj2 (Z.leb_gt _ _)) by lia. destruct linked; [|done]. by destruct Hax; apply Hanc.
Qed.

(** Finalising a view, as the beacon chain's confirmation makes a shard do: the node panics
    exactly when the named view is known, higher than the final one and not on the way to the
    best view; otherwise the final view becomes the higher of the two, so finality only moves
    forward along the best branch, and only an unknown hash is an error. *)
Theorem FinalizeView_forward h s f b r s' : wf_tree hp s →
  finalView s = Some f → bestView s = Some b → known hp s f → known hp s b → ancestor hp s b f →
  FinalizeView hp h s = (r, s') →
  (r = Panic ↔ ∃ x, viewByHash s !! h = Some x ∧ GetHeight (hp f) < GetHeight (hp x) ∧ ¬ ancestor hp s b x) ∧
  r ≠ OutOfFuel ∧
  (r ≠ Panic → ∃ f', s' = setFinal f' s ∧ ancestor hp s f' f ∧ ancestor hp s b f' ∧
     match viewByHash s !! h with
     | None => r = Err "Cannot find view by hash" ∧ f' = f
     | Some x => r = Ok tt ∧ f' = if GetHeight (hp f) <? GetHeight (hp x) then x else f
     end).
Proof.
  intros Htree Hf Hb Hkf Hkb Hbf Hrun.
  pose proof (FinalizeView_cases h s f b (wt_named _ _ Htree) Hf Hb Hkb) as Hc.
  assert (Hsame : setFinal f s = s) by (destruct s; cbn in *; by subst).
  assert (Hlook : ∀ x, viewByHash s !! h = Some x → ∀ Q : ref → Prop, Q x → ∃ y, viewByHash s !! h = Some y ∧ Q y) by eauto.
  destruct (viewByHash s !! h) as [x|] eqn:Hx.
  - destruct Hc as (Hlow & Hup & Hoff).
    destruct (decide (GetHeight (hp f) < GetHeight (hp x))) as [Hlt|Hge].
    + destruct (link_spec hp Hheap s (wt_named _ _ Htree) h b) as ([] & _ & Hiff).
      * assert (Hbx : ancestor hp s b x).
        { destruct (proj1 Hiff eq_refl) as (y & Hy & Hyh). replace x with y; [done|].
          pose proof (wt_named _ _ Htree _ _ Hx) as Hxh. apply (known_unique hp s); [|unfold known|]; try congruence.
          exact (ancestor_known hp s (wt_named _ _ Htree) b y Hkb Hy). }
        rewrite Hup in Hrun by done. injection Hrun as <- <-. split_and!; [split; [done|]|done|].
        -- intros (y & [= <-] & _ & []). done.
        -- intros _. exists x. split; [done|]. rewrite (proj2 (Z.ltb_lt _ _)) by done. split_and!; try done.
           apply (ancestor_line hp Hheap s (wt_named _ _ Htree) b); [done..|lia].
      * assert (Hbx : ¬ ancestor hp s b x).
        { intros Hbx. assert (false = true); [|done]. apply Hiff. exists x. split; [done|]. by apply (wt_named _ _ Htree). }
        rewrite Hoff in Hrun by done. injection Hrun as <- <-.
        split_and!; [split; [intros _; by exists x|done]|done|done].
    + rewrite Hlow in Hrun by lia. injection Hrun as <- <-. split_and!; [split; [done|]|done|].
      * intros (y & [= <-] & ? & _). lia.
      * intros _. exists f. rewrite Hsame, (proj2 (Z.ltb_ge _ _)) by lia. by split_and!.
  - rewrite Hc in Hrun. injection Hrun as <- <-. split_and!; [split; [done|]|done|].
    + by intros (y & ? & _).
    + intros _. exists f. rewrite Hsame. by split_and!.
Qed.

End Finalizing.

(** ** The beacon chain's tree *)
Section Beacon.
Context (BlockTimeParam : list (string * Z)) (hp : heap).
Context (Hdef : blockTimeOf BlockTimeParam BLOCKTIME_DEFAULT ≠ 0) (Hheap : wf_heap hp).
#[local] Existing Instance BeaconCompare.

(** The pointers of a tree between two calls: the expected final view, once it is above the
    final one, becomes final. *)
Record settled (s : multiView) (f e b : ref) : Prop := {
  st_final : finalView s = Some f;
  st_expected : expectedFinalView s = Some e;
  st_best : bestView s = Some b;
  st_known_final : known hp s f;
  st_known_best : known hp s b;
  st_below : GetHeight (hp e) ≤ GetHeight (hp f) ≤ GetHeight (hp b);
}.

Definition inv (s : multiView) : Prop :=
  wf_tree hp s ∧ (s = NewMultiView ∨ ∃ f e b, settled s f e b).

(** The final view is on the way to the best one. *)
Definition final_on_best (s : multiView) : Prop :=
  ∀ f b, finalView s = Some f → bestView s = Some b → ancestor hp s b f.

Lemma beacon_neutral : neutral.
Proof. done. Qed.

Lemma settled_nonempty s f e b : settled s f e b → (size (viewByHash s) =? 0)%nat = false.
Proof.
  intros [_ _ _ Hf _ _]. apply Nat.eqb_neq. intros E. apply map_size_empty_inv in E.
  unfold known in Hf. rewrite E, lookup_empty in Hf. done.
Qed.

(** Adding a view to a settled tree. *)
Lemma addView_settled v s f e b : wf_tree hp s → settled s f e b →
  (addView BlockTimeParam hp v s = Ok (false, s) ∧
     (is_Some (viewByHash s !! GetHash (hp v)) ∨ viewByHash s !! GetPreviousHash (hp v) = None)) ∨
  (∃ p e' b', viewByHash s !! GetHash (hp v) = None ∧ parent hp s v p ∧
     addView BlockTimeParam hp v s =
       Ok (true, withPointers (grown hp v s) (Some f) (Some e') (Some b')) ∧
     wf_tree hp (grown hp v s) ∧ known hp (grown hp v s) b' ∧
     updates hp (grown hp v s) v e b e' b').
Proof.
  intros Htree Hs. pose proof Hs as [Hf He Hb Hkf Hkb _]. unfold addView. rewrite (settled_nonempty _ _ _ _ Hs).
  destruct (viewByHash s !! GetHash (hp v)) as [x|] eqn:Hnew; [left; split; [done|]; left; by eexists|].
  destruct (viewByHash s !! GetPreviousHash (hp v)) as [p|] eqn:Hp; [|left; split; [done|by right]].
  right. pose proof (wf_tree_grown hp Hheap v s p Htree Hp Hnew) as Hgrown. fold (grown hp v s).
  destruct (updateViewState_spec BlockTimeParam hp Hdef Hheap v (grown hp v s) e b)
    as (e' & b' & -> & Hu); [apply Hgrown|done..|].
  exists p, e', b'. cbn [mbind outcome_bind]. replace (finalView (grown hp v s)) with (Some f) by done.
  split_and!; try done. destruct Hu as [[->| ->] _].
  - unfold known. rewrite grown_lookup. case_decide as E; [|done]. unfold known in Hkb. congruence.
  - unfold known. rewrite grown_lookup. by rewrite decide_True.
Qed.

Lemma addView_empty v : addView BlockTimeParam hp v NewMultiView =
  Ok (true, withPointers (insertView hp v NewMultiView) (Some v) (Some v) (Some v)).
Proof. done. Qed.

Lemma withPointers_same s f e b : settled s f e b → withPointers s (Some f) (Some e) (Some b) = s.
Proof. intros [Hf He Hb _ _ _]. destruct s; cbn in *. by subst. Qed.

(** The finalisation after an update: the expected final view is either on the way to the best
    view, and becomes final if it is higher, or not above the final view. *)
Lemma finalize_expected s f e b : wf_tree hp s → known hp s f → known hp s b →
  (GetHeight (hp f) ≤ GetHeight (hp b)) →
  (ancestor hp s b e ∨ GetHeight (hp e) ≤ GetHeight (hp f)) →
  let s := withPointers s (Some f) (Some e) (Some b) in
  ∃ f' r, FinalizeView hp (GetHash (hp e)) s = (r, withPointers s (Some f') (Some e) (Some b)) ∧
    returns r ∧ settled (withPointers s (Some f') (Some e) (Some b)) f' e b ∧
    (f' = f ∨ GetHeight (hp f) < GetHeight (hp e) ∧ f' = e ∧ ancestor hp s b e) ∧
    (known hp s e → r = Ok tt).
Proof.
  intros Htree Hkf Hkb Hfb He s'. pose proof (wt_named _ _ Htree) as Hnamed.
  pose proof (FinalizeView_cases hp Hheap (GetHash (hp e)) s' f b Hnamed eq_refl eq_refl Hkb) as Hcases.
  assert (Hstay : GetHeight (hp e) ≤ GetHeight (hp f) → settled s' f e b) by (by constructor).
  destruct (viewByHash s' !! GetHash (hp e)) as [x|] eqn:Hx.
  - assert (Hxe : GetHeight (hp x) = GetHeight (hp e)) by (apply Hheap, Hnamed, Hx).
    destruct Hcases as (Hlow & Hup & _). destruct (decide (GetHeight (hp e) ≤ GetHeight (hp f))) as [Hle|Hgt].
    + exists f, (Ok tt). rewrite Hlow by lia. split; [done|]. split; [done|]. split; [by apply Hstay|]. auto.
    + destruct He as [He|]; [|lia].
      assert (Hke : known hp s e) by (by eapply ancestor_known).
      assert (x = e) as -> by (unfold known in Hke; cbn in Hx; congruence).
      exists e, (Ok tt). rewrite Hup; [|lia|done]. split; [done|]. split; [done|]. split; [|split]; [| |done].
      * constructor; try done. destruct (ancestor_height hp Hheap s Hnamed _ _ He) as [->|]; lia.
      * right. split; [lia|done].
  - exists f, (Err "Cannot find view by hash"). rewrite Hcases. split; [done|]. split; [done|].
    assert (Hke : ¬ known hp s e) by (unfold known; cbn in Hx; congruence).
    split; [|split; [by left|done]]. apply Hstay. destruct He as [He|]; [|done].
    by destruct Hke; eapply ancestor_known.
Qed.

(** What one call of [AddView] does to a settled tree. *)
Lemma BeaconAddView_settled v s f e b : wf_tree hp s → settled s f e b →
  ∃ r s' f' e' b', BeaconAddView BlockTimeParam hp v s = (r, s') ∧ returns r ∧
    wf_tree hp s' ∧ settled s' f' e' b' ∧
    (f' = f ∨ GetHeight (hp f) < GetHeight (hp f') ∧ ancestor hp s' b' f') ∧
    (known hp s e → known hp s' e') ∧
    ((viewByHash s' = viewByHash s ∧ viewByPrevHash s' = viewByPrevHash s ∧ b' = b ∧ f' = f ∧
      (is_Some (viewByHash s !! GetHash (hp v)) ∨ viewByHash s !! GetPreviousHash (hp v) = None)) ∨
     (∃ p, viewByHash s !! GetHash (hp v) = None ∧ parent hp s v p ∧
       viewByHash s' = viewByHash (grown hp v s) ∧ viewByPrevHash s' = viewByPrevHash (grown hp v s) ∧
       (b' = b ∨ b' = v) ∧ (known hp s e → r = Ok true))).
Proof.
  intros Htree Hs. pose proof Hs as [Hf He Hb Hkf Hkb Hbelow].
  unfold BeaconAddView. rewrite getS_bind.
  destruct (addView_settled v s f e b Htree Hs) as [[Hadd Hwhy]|(p & e' & b' & Hnew & Hp & Hadd & Hgrown & Hkb' & Hu)].
  - destruct (finalize_expected s f e b Htree Hkf Hkb) as (f' & r & Hfin & Hr & Hs' & Hf' & _); [lia|right; lia|].
    cbn zeta in Hfin. rewrite withPointers_same in Hfin by done.
    unfold lift. rewrite Hadd. unfold mbind, M_bind, modifyS, mret, M_ret. rewrite He. cbn [notNil].
    rewrite Hfin. exists (r ≫= λ _, Ok false); eexists; exists f', e, b. split; [by destruct r|].
    destruct Hs' as [Hf1 ? ? ? ? Hle]. cbn in *. split; [by destruct r|]. split; [by apply wf_tree_pointers|].
    split; [by constructor|]. split; [destruct Hf' as [Hf'|[? _]]; [by left|lia]|]. split; [done|]. left. split; [done|]. split; [done|]. split; [done|].
    split; [|done]. destruct Hf' as [Hf'|[? _]]; [done|lia].
  - destruct Hu as (Hcases & Hexp & Hneutral & _). pose proof (Hneutral beacon_neutral) as Hhb.
    assert (Hkf' : known hp (grown hp v s) f).
    { unfold known. rewrite grown_lookup. case_decide as E; [|done]. unfold known in Hkf. congruence. }
    destruct (finalize_expected (grown hp v s) f e' b' Hgrown Hkf' Hkb') as (f' & r & Hfin & Hr & Hs' & Hf' & Hok).
    { lia. } { destruct Hexp as [| ->]; [by left|right; lia]. }
    cbn zeta in Hfin. unfold lift. rewrite Hadd. unfold mbind, M_bind, modifyS, mret, M_ret.
    cbn [notNil withPointers expectedFinalView]. rewrite Hfin.
    exists (r ≫= λ _, Ok true); eexists; exists f', e', b'. split; [by destruct r|]. split; [by destruct r|].
    split; [do 2 apply wf_tree_pointers; exact Hgrown|]. split; [exact Hs'|].
    split; [destruct Hf' as [Hf'|(? & Hf' & ?)]; subst; [by left|by right]|].
    assert (Hke' : known hp s e → known hp (grown hp v s) e').
    { intros Hke. destruct Hexp as [Hexp| ->].
      + exact (ancestor_known hp _ (wt_named _ _ Hgrown) b' e' Hkb' Hexp).
      + change (viewByHash (grown hp v s) !! GetHash (hp e) = Some e). rewrite grown_lookup.
        case_decide as E; [|done]. unfold known in Hke. congruence. }
    split; [exact Hke'|]. right. exists p. split_and!; try done. intros Hke%Hke'. by rewrite (Hok Hke).
Qed.

(** The first view of a tree. *)
Definition firstView (v : ref) : multiView :=
  withPointers (insertView hp v NewMultiView) (Some v) (Some v) (Some v).

Lemma firstView_settled v : wf_tree hp (firstView v) ∧ settled (firstView v) v v v.
Proof.
  split; [by apply wf_tree_pointers, wf_tree_first|].
  assert (Hk : known hp (firstView v) v) by (unfold known; cbn; by rewrite lookup_insert_eq).
  constructor; done.
Qed.

Lemma BeaconAddView_first v : BeaconAddView BlockTimeParam hp v NewMultiView = (Ok true, firstView v).
Proof.
  destruct (firstView_settled v) as [Htree [_ _ _ Hk _ _]].
  pose proof (FinalizeView_cases hp Hheap (GetHash (hp v)) (firstView v) v v (wt_named _ _ Htree) eq_refl eq_refl Hk) as Hc.
  unfold known in Hk. rewrite Hk in Hc. destruct Hc as [Hlow _]. specialize (Hlow (Z.le_refl _)).
  unfold BeaconAddView. rewrite getS_bind. unfold lift. rewrite addView_empty. fold (firstView v).
  unfold mbind, M_bind, modifyS, mret, M_ret. cbn [notNil firstView withPointers expectedFinalView].
  fold (firstView v). by rewrite Hlow.
Qed.

(** *** The chain's life: views arrive, outdated ones are removed *)

(** What block validation and the committee's votes provide: a view that is really new extends
    the final view. *)
Definition extends (v : ref) (s : multiView) : Prop :=
  viewByHash s !! GetHash (hp v) = None →
  ∀ p f, parent hp s v p → finalView s = Some f → ancestor hp s p f.

Inductive beacon_step (s : multiView) : multiView → Prop :=
  | step_add v r s' : extends v s → BeaconAddView BlockTimeParam hp v s = (r, s') → beacon_step s s'
  | step_clean s' : removeOutdatedView hp s = Ok s' → beacon_step s s'.

Definition reachable : multiView → Prop := rtc beacon_step NewMultiView.

(** The invariant of a running beacon chain. *)
Definition running (s : multiView) : Prop := inv s ∧ final_on_best s.

Lemma running_new : running NewMultiView.
Proof. split; [|done]. split; [by apply wf_tree_empty|by left]. Qed.

Lemma ancestor_grown s' v s r a : viewByHash s' = viewByHash (grown hp v s) →
  viewByHash s !! GetHash (hp v) = None → ancestor hp s r a → ancestor hp s' r a.
Proof.
  intros Hs' Hnew Ha. apply (grown_ancestor hp v) in Ha; [|done].
  unfold ancestor, parent in *. by rewrite Hs'.
Qed.

(** Adding a view keeps the invariant; the new final view is the old one or above it. *)
Lemma running_add v s : running s → extends v s →
  ∃ r s', BeaconAddView BlockTimeParam hp v s = (r, s') ∧ returns r ∧ running s' ∧
    ∀ f, finalView s = Some f → ∃ f', finalView s' = Some f' ∧ ancestor hp s' f' f.
Proof.
  intros [[Htree Hcase] Hfb] Hext. destruct Hcase as [->|(f & e & b & Hs)].
  - exists (Ok true), (firstView v). rewrite BeaconAddView_first. destruct (firstView_settled v) as [Ht Hs].
    split; [done|]. split; [done|]. split; [|done]. split; [split; [done|right; by exists v, v, v]|].
    intros f b [= <-] [= <-]. apply rtc_refl.
  - destruct (BeaconAddView_settled v s f e b Htree Hs)
      as (r & s' & f' & e' & b' & Hadd & Hr & Htree' & Hs' & Hf' & _ & Hview).
    exists r, s'. split; [done|]. split; [done|].
    assert (Hbf : ancestor hp s' b' f).
    { pose proof (Hfb f b (st_final _ _ _ _ Hs) (st_best _ _ _ _ Hs)) as Hbf.
      destruct Hview as [(Hmap & _ & -> & _)|(p & Hnew & Hp & Hmap & _ & Hb' & _)].
      - unfold ancestor, parent. by rewrite Hmap.
      - destruct Hb' as [-> | ->]; [by eapply ancestor_grown|].
        assert (Hvf : ancestor hp s v f)
          by (eapply rtc_l; [done|]; apply (Hext Hnew p f Hp), (st_final _ _ _ _ Hs)).
        by eapply ancestor_grown. }
    assert (Hb'f' : ancestor hp s' b' f') by (destruct Hf' as [-> |[]]; done).
    split.
    + split; [split; [done|right; by exists f', e', b']|]. intros f0 b0 Hf0 Hb0.
      rewrite (st_final _ _ _ _ Hs') in Hf0. rewrite (st_best _ _ _ _ Hs') in Hb0. by simplify_eq.
    + intros f0 Hf0. rewrite (st_final _ _ _ _ Hs) in Hf0. injection Hf0 as <-.
      exists f'. split; [apply (st_final _ _ _ _ Hs')|].
      apply (ancestor_line hp Hheap s' (wt_named _ _ Htree') b'); [done..|].
      destruct Hf' as [-> |[]]; lia.
Qed.

(** Removing outdated views keeps the invariant and the pointers. *)
Lemma running_clean s : running s →
  ∃ s', removeOutdatedView hp s = Ok s' ∧ running s' ∧ finalView s' = finalView s.
Proof.
  intros [[Htree Hcase] Hfb]. destruct Hcase as [->|(f & e & b & Hs)]; [exists NewMultiView; split; [done|]; split; [apply running_new|done]|].
  destruct Hs as [Hf He Hb Hkf Hkb Hle].
  rewrite (removeOutdatedView_cleaned hp s f Hf Hkf). eexists. split; [done|]. split; [|done].
  split; [split; [by apply wf_tree_cleaned|right; exists f, e, b]|].
  - constructor; try done; apply cleaned_known; try done; (split; [done|lia]).
  - intros f0 b0 Hf0 Hb0. cbn in Hf0, Hb0. apply cleaned_ancestor; [done..| |by apply Hfb].
    assert (f0 = f) as -> by congruence. lia.
Qed.

Lemma reachable_running s : reachable s → running s.
Proof.
  unfold reachable. intros Hs. apply (rtc_ind_r running NewMultiView) in Hs; [done|apply running_new|].
  intros x y _ Hxy Hx. inversion Hxy as [v r s' Hext Hadd|s' Hclean]; subst.
  - destruct (running_add v x Hx Hext) as (r' & s' & Hadd' & _ & Hy & _). congruence.
  - destruct (running_clean x Hx) as (s' & Hclean' & Hy & _). congruence.
Qed.

(** C21: the finality of the beacon chain.  From its start on, through any sequence of added
    views that extend the final view and of clean-ups, adding a view never panics and always
    returns, the clean-up never fails, the tree stays well formed with the final view on the
    way to the best one, and the final view only moves forward: whatever was final stays an
    ancestor of what is final. *)
Theorem beacon_final_stable s : reachable s →
  running s ∧
  (∀ v, extends v s → returns (BeaconAddView BlockTimeParam hp v s).1) ∧
  is_Ok (removeOutdatedView hp s) ∧
  (∀ s' f, beacon_step s s' → finalView s = Some f →
     ∃ f', finalView s' = Some f' ∧ ancestor hp s' f' f).
Proof.
  intros Hs%reachable_running. split; [done|]. split; [|split].
  - intros v Hext. by destruct (running_add v s Hs Hext) as (r & s' & -> & Hr & _).
  - destruct (running_clean s Hs) as (s' & -> & _). by eexists.
  - intros s' f Hstep Hf. inversion Hstep as [v r s'' Hext Hadd|s'' Hclean]; subst.
    + destruct (running_add v s Hs Hext) as (r' & s'' & Hadd' & _ & _ & Hfin).
      rewrite Hadd in Hadd'. injection Hadd' as _ <-. by apply Hfin.
    + destruct (running_clean s Hs) as (s'' & Hclean' & _ & Hfin). rewrite Hclean in Hclean'.
      injection Hclean' as <-. exists f. split; [congruence|apply rtc_refl].
Qed.

(** Clean-up is invisible: on a tree of the beacon chain, removing the outdated views
    changes neither what a look-up by hash returns, for any hash, nor the listing of the views
    from the final one on. *)
Theorem removeOutdatedView_invisible s : inv s → s ≠ NewMultiView →
  ∃ s', removeOutdatedView hp s = Ok s' ∧ inv s' ∧
    GetAllViewsWithBFS hp s' = GetAllViewsWithBFS hp s ∧
    (∀ h, GetViewByHash hp h s' = GetViewByHash hp h s) ∧
    finalView s' = finalView s ∧ expectedFinalView s' = expectedFinalView s ∧ bestView s' = bestView s.
Proof.
  intros [Htree [->|(f & e & b & Hs)]] Hne; [done|]. destruct Hs as [Hf He Hb Hkf Hkb Hle].
  rewrite (removeOutdatedView_cleaned hp s f Hf Hkf). eexists. split; [done|]. split_and!; try done.
  - split; [by apply wf_tree_cleaned|]. right. exists f, e, b.
    constructor; try done; apply cleaned_known; try done; (split; [done|lia]).
  - by apply GetAllViewsWithBFS_cleaned.
  - intros h. by apply GetViewByHash_cleaned.
Qed.

(** *** Restarting *)
Lemma restoreViews_snoc AddView l v s :
  restoreViews AddView (l ++ [v]) s =
  (restoreViews AddView l;; AddView v;; mret tt) s.
Proof.
  revert s. induction l as [|x l IH]; intros s; cbn [restoreViews app]; [done|].
  unfold mbind, M_bind in *. destruct (AddView x s) as [[] ?]; [apply IH|done..].
Qed.

(** The tree rebuilt from a list of views. *)
Definition rebuilt (l : list ref) (t : multiView) : Prop :=
  wf_tree hp t ∧ (∃ f e b, settled t f e b ∧ known hp t e) ∧
  ∀ h r, viewByHash t !! h = Some r ↔ r ∈ l ∧ h = GetHash (hp r).

Lemma restore_topological s root l : wf_tree hp s → known hp s root → topological hp s root l →
  ∃ t, restoreViews (BeaconAddView BlockTimeParam hp) l NewMultiView = (Ok tt, t) ∧ rebuilt l t.
Proof.
  intros Htree Hroot. induction 1 as [|l c p Hl (t & Ht & Htt & (f & e & b & Hs & Hke) & Hmap) Hp Hc Hcp Hnew].
  - exists (firstView root). cbn [restoreViews]. unfold mbind, M_bind. rewrite BeaconAddView_first.
    destruct (firstView_settled root) as [Ht Hs]. split; [done|]. split; [done|].
    split; [exists root, root, root; split; [done|apply (st_known_final _ _ _ _ Hs)]|].
    intros h r. cbn. rewrite lookup_insert_Some, lookup_empty, list_elem_of_singleton. naive_solver.
  - destruct (topological_spec hp s root Hroot l Hl) as (_ & _ & Hall).
    rewrite restoreViews_snoc. unfold mbind, M_bind. rewrite Ht.
    destruct (BeaconAddView_settled c t f e b Htt Hs)
      as (r & t' & f' & e' & b' & -> & _ & Htt' & Hs' & _ & Hke' & Hview).
    assert (Hcnew : viewByHash t !! GetHash (hp c) = None).
    { destruct (viewByHash t !! GetHash (hp c)) as [x|] eqn:Hx; [|done]. apply Hmap in Hx as [Hx Hh].
      destruct Hnew. replace c with x; [done|]. apply (known_unique hp s); [by apply Hall|done..]. }
    assert (Hcp' : viewByHash t !! GetPreviousHash (hp c) = Some p).
    { apply Hmap. split; [done|]. symmetry. by apply (wt_named _ _ Htree). }
    destruct Hview as [(_ & _ & _ & _ & [[x Hx]|Hx])|(q & _ & _ & Hm & _ & _ & Hr)]; [congruence..|].
    rewrite Hr by done. exists t'. split; [done|]. split; [done|]. split; [exists f', e', b'; auto|].
    intros h x. rewrite Hm, grown_lookup, elem_of_app, list_elem_of_singleton. case_decide as E.
    + split; [intros [= <-]; auto|]. intros [[Hx| ->] ->]; [|done].
      rewrite (known_unique hp s c x); [done|done|by apply Hall|done].
    + rewrite Hmap. split; [intros []; auto|]. intros [[Hx| ->] ->]; [done|done].
Qed.

(** C25: a restart.  The node backs up the listing of the views from the final one on, and a
    restarted node adds them to an empty tree in that order: no call fails, and the tree it
    builds holds exactly the final view and the views on the branches above it, with a
    well-formed tree and settled pointers. *)
Theorem restart_roundtrip s : inv s → s ≠ NewMultiView →
  ∃ f views t, finalView s = Some f ∧ GetAllViewsWithBFS hp s = Ok views ∧ NoDup views ∧
    restoreViews (BeaconAddView BlockTimeParam hp) views NewMultiView = (Ok tt, t) ∧ inv t ∧
    (∀ h r, viewByHash t !! h = Some r ↔ viewByHash s !! h = Some r ∧ ancestor hp s r f).
Proof.
  intros [Htree [->|(f & e & b & Hs)]] Hne; [done|].
  destruct (getAllViewsWithBFS_spec hp Hheap s Htree f (st_known_final _ _ _ _ Hs))
    as (l & Hl & Htopo & Hnd & Hin).
  destruct (restore_topological s f l Htree (st_known_final _ _ _ _ Hs) Htopo)
    as (t & Ht & Htt & (f' & e' & b' & Hs' & _) & Hmap).
  exists f, l, t. split; [apply (st_final _ _ _ _ Hs)|].
  split; [unfold GetAllViewsWithBFS; by rewrite (st_final _ _ _ _ Hs)|].
  split; [done|]. split; [done|]. split; [split; [done|right; by exists f', e', b']|].
  intros h r. rewrite Hmap, Hin. split.
  - intros [[Hk Ha] ->]. done.
  - intros [Hr Ha]. pose proof (wt_named _ _ Htree _ _ Hr) as <-. done.
Qed.

End Beacon.

(** ** Replacing a block *)
Section Replacing.
Context (BlockTimeParam : list (string * Z)) `{CompareCommittee}.
Context (Hdef : blockTimeOf BlockTimeParam BLOCKTIME_DEFAULT ≠ 0).

(** Two heaps whose views have the same place in the chain. *)
Definition same_shape (hp hp' : heap) : Prop := ∀ r,
  GetHash (hp' r) = GetHash (hp r) ∧ GetPreviousHash (hp' r) = GetPreviousHash (hp r) ∧
  GetHeight (hp' r) = GetHeight (hp r).

Lemma same_shape_heap hp hp' : same_shape hp hp' → wf_heap hp → wf_heap hp'.
Proof.
  intros Hs (H1 & H2 & H3). split_and!.
  - intros r p. destruct (Hs r) as (Er & Ep & Eh), (Hs p) as (Er' & Ep' & Eh'). rewrite ?Er, ?Ep, ?Eh, ?Er', ?Ep', ?Eh'. apply H1.
  - intros r p. destruct (Hs r) as (Er & Ep & Eh), (Hs p) as (Er' & Ep' & Eh'). rewrite ?Er, ?Ep, ?Eh, ?Er', ?Ep', ?Eh'. apply H2.
  - intros r. destruct (Hs r) as (_ & _ & ->). apply H3.
Qed.

Lemma same_shape_known hp hp' s r : same_shape hp hp' → known hp' s r ↔ known hp s r.
Proof. intros Hs. unfold known. by destruct (Hs r) as (-> & _). Qed.

Lemma same_shape_parent hp hp' s r p : same_shape hp hp' → parent hp' s r p ↔ parent hp s r p.
Proof. intros Hs. unfold parent. by destruct (Hs r) as (_ & -> & _). Qed.

Lemma same_shape_tree hp hp' s : same_shape hp hp' → wf_tree hp s → wf_tree hp' s.
Proof.
  intros Hs [Hn (m & Hm) Hc Hl Hd]. constructor.
  - intros h r Hr. destruct (Hs r) as (-> & _). by apply Hn.
  - exists m. intros r Hr. apply (same_shape_known hp hp') in Hr; [|done].
    destruct (Hs r) as (_ & -> & ->). by apply Hm.
  - intros h l r Hlk Hr. rewrite (same_shape_known hp hp') by done.
    destruct (Hs r) as (_ & -> & _). by apply (Hc h l).
  - intros r p Hr Hp. apply (same_shape_known hp hp') in Hr; [|done].
    apply (same_shape_parent hp hp') in Hp; [|done]. destruct (Hs r) as (_ & -> & _). by eapply Hl.
  - done.
Qed.

Lemma assign_same_shape hp r b :
  blkHash b = GetHash (hp r) → blkPrevHash b = GetPreviousHash (hp r) → blkHeight b = GetHeight (hp r) →
  same_shape hp (assign r (ReplaceBlock b (hp r)) hp).
Proof. intros H1 H2 H3 x. unfold assign. by case_decide; subst. Qed.

(** The scratch tree after adding the views of [l]: its pointers are among them. *)
Definition scratch (hp : heap) (l : list ref) (t : multiView) : Prop :=
  wf_tree hp t ∧ (∀ h r, viewByHash t !! h = Some r ↔ r ∈ l ∧ h = GetHash (hp r)) ∧
  ∃ f e b, finalView t = Some f ∧ expectedFinalView t = Some e ∧ bestView t = Some b ∧ e ∈ l ∧ b ∈ l.

Lemma scratch_same_shape hp hp' l t : same_shape hp hp' → scratch hp l t → scratch hp' l t.
Proof.
  intros Hs (Ht & Hm & Hp). split; [by eapply same_shape_tree|]. split; [|done].
  intros h r. destruct (Hs r) as (-> & _). apply Hm.
Qed.

Lemma scratch_member hp l t r : scratch hp l t → known hp t r → r ∈ l.
Proof. intros (_ & Hm & _) Hk. by apply Hm in Hk as []. Qed.

Lemma scratch_first hp v : wf_heap hp →
  ∃ t, addView BlockTimeParam hp v NewMultiView = Ok (true, t) ∧ scratch hp [v] t.
Proof.
  intros Hheap. exists (withPointers (insertView hp v NewMultiView) (Some v) (Some v) (Some v)).
  split; [done|]. split; [by apply wf_tree_pointers, wf_tree_first|].
  split; [|exists v, v, v; cbn; split_and!; try done; by apply list_elem_of_singleton].
  intros h r. cbn. rewrite lookup_insert_Some, lookup_empty, list_elem_of_singleton. naive_solver.
Qed.

Lemma scratch_add hp l t c p : wf_heap hp → scratch hp l t →
  (∀ x, x ∈ l → GetHash (hp x) ≠ GetHash (hp c)) → p ∈ l → GetPreviousHash (hp c) = GetHash (hp p) →
  ∃ t', addView BlockTimeParam hp c t = Ok (true, t') ∧ scratch hp (l ++ [c]) t'.
Proof.
  intros Hheap (Htree & Hmap & f & e & b & Hf & He & Hb & Hel & Hbl) Hnew Hp Hcp.
  assert (Hcnew : viewByHash t !! GetHash (hp c) = None).
  { destruct (viewByHash t !! _) as [x|] eqn:E; [|done]. apply Hmap in E as [Hx E]. by destruct (Hnew x Hx). }
  assert (Hpt : viewByHash t !! GetPreviousHash (hp c) = Some p) by (by apply Hmap).
  pose proof (wf_tree_grown hp Hheap c t p Htree Hpt Hcnew) as Hgrown.
  assert (Hgmap : ∀ h r, viewByHash (grown hp c t) !! h = Some r ↔ r ∈ l ++ [c] ∧ h = GetHash (hp r)).
  { intros h r. rewrite grown_lookup, elem_of_app, list_elem_of_singleton.
    case_decide as E.
    - split; [intros [= <-]; auto|]. intros [[Hr| ->] ->]; [by destruct (Hnew r Hr)|done].
    - rewrite Hmap. split; [intros []; auto|]. by intros [[Hr| ->] ->]. }
  unfold addView. destruct (_ =? 0)%nat eqn:Esz.
  { apply Nat.eqb_eq, map_size_empty_inv in Esz. rewrite Esz, lookup_empty in Hpt. done. }
  rewrite Hcnew, Hpt. fold (grown hp c t).
  destruct (updateViewState_spec BlockTimeParam hp Hdef Hheap c (grown hp c t) e b)
    as (e' & b' & -> & Hb' & He' & _); [apply Hgrown|done..|].
  cbn [mbind outcome_bind]. eexists. split; [done|].
  assert (Hbl' : b' ∈ l ++ [c]) by (rewrite elem_of_app, list_elem_of_singleton; destruct Hb' as [-> | ->]; auto).
  split; [by apply wf_tree_pointers|]. split; [done|]. exists f, e', b'. split_and!; try done.
  destruct He' as [Ha| ->]; [|rewrite elem_of_app; auto].
  assert (Hkb' : known hp (grown hp c t) b') by (by apply Hgmap).
  pose proof (ancestor_known hp _ (wt_named _ _ Hgrown) _ _ Hkb' Ha) as Hke. by apply Hgmap in Hke as [].
Qed.

(** In a topological list everything but the root comes after its predecessor. *)
Lemma topological_prefix hp s root l l1 c l2 : topological hp s root l → l = l1 ++ c :: l2 → l1 ≠ [] →
  ∃ p, p ∈ l1 ∧ parent hp s c p.
Proof.
  intros Hl. revert l2. induction Hl as [|l d p Hl IH Hp Hd Hdp Hnew]; intros l2 E Hne.
  - destruct l1 as [|x [|]]; [done|cbn in E; simplify_eq..].
  - destruct l2 as [|y l2 _] using rev_ind.
    + apply app_inj_tail in E as [-> ->]. by exists p.
    + rewrite app_comm_cons, app_assoc in E. apply app_inj_tail in E as [E _]. by eapply IH.
Qed.

Section Readd.
Context (hp0 : heap) (Hheap : wf_heap hp0) (s : multiView) (Htree : wf_tree hp0 s).
Context (root : ref) (Hroot : known hp0 s root).
Context (b : BlockInterface) (target : ref) (Htarget : known hp0 s target).
Context (Hhash : blkHash b = GetHash (hp0 target)).
Context (Hprev : blkPrevHash b = GetPreviousHash (hp0 target)) (Hheight : blkHeight b = GetHeight (hp0 target)).

(** The heap once the views [l] have been visited. *)
Definition replaced (l : list ref) : heap :=
  if decide (target ∈ l) then assign target (ReplaceBlock b (hp0 target)) hp0 else hp0.

Lemma replaced_shape l : same_shape hp0 (replaced l).
Proof. unfold replaced. case_decide; [by apply assign_same_shape|done]. Qed.

Lemma replaced_nil : replaced [] = hp0.
Proof. unfold replaced. rewrite decide_False; [done|apply not_elem_of_nil]. Qed.

(** Visiting a view replaces the block exactly if it is the target. *)
Lemma replaced_visit done c : c ∉ done → known hp0 s c →
  (if bool_decide (GetHash (replaced done c) = GetHash (hp0 target))
   then assign c (ReplaceBlock b (replaced done c)) (replaced done) else replaced done) =
  replaced (done ++ [c]).
Proof.
  intros Hnew Hk. destruct (replaced_shape done c) as (-> & _). unfold replaced.
  case_bool_decide as E.
  - assert (c = target) as -> by (by apply (known_unique hp0 s)).
    rewrite decide_False by done. rewrite decide_True; [done|]. rewrite elem_of_app, list_elem_of_singleton. auto.
  - assert (Hne : target ≠ c) by congruence.
    destruct (decide (target ∈ done)) as [Hin|Hin].
    + rewrite decide_True; [done|]. rewrite elem_of_app. auto.
    + rewrite decide_False; [done|]. rewrite elem_of_app, list_elem_of_singleton. tauto.
Qed.

Lemma readdViews_spec views done tmp : topological hp0 s root (done ++ views) → done ≠ [] →
  scratch (replaced done) done tmp →
  ∃ tmp', readdViews BlockTimeParam (GetHash (hp0 target)) b views (replaced done) tmp =
            Ok (replaced (done ++ views), tmp') ∧
          scratch (replaced (done ++ views)) (done ++ views) tmp'.
Proof.
  revert done tmp. induction views as [|c views IH]; intros done tmp Htopo Hne Hscr.
  - exists tmp. by rewrite app_nil_r.
  - destruct (topological_spec hp0 s root Hroot _ Htopo) as (Hnd & _ & Hall).
    assert (Hc : c ∈ done ++ c :: views) by (rewrite elem_of_app, elem_of_cons; auto).
    destruct (Hall c Hc) as (Hkc & _).
    assert (Hnew : c ∉ done).
    { intros Hin. apply NoDup_app in Hnd as (_ & Hdisj & _). apply (Hdisj c Hin). by left. }
    destruct (topological_prefix _ _ _ _ done c views Htopo eq_refl Hne) as (p & Hp & Hcp).
    cbn [readdViews]. rewrite replaced_visit by done.
    set (hp := replaced (done ++ [c])).
    assert (Hshape : same_shape hp0 hp) by apply replaced_shape.
    destruct (scratch_add hp done tmp c p) as (tmp' & -> & Hscr').
    + by apply (same_shape_heap hp0).
    + apply (scratch_same_shape (replaced done)); [|done]. intros x.
      destruct (Hshape x) as (-> & -> & ->), (replaced_shape done x) as (-> & -> & ->). done.
    + intros x Hx. destruct (Hshape x) as (-> & _), (Hshape c) as (-> & _). intros E. apply Hnew.
      replace c with x; [done|]. apply (known_unique hp0 s); [|done..]. apply Hall, elem_of_app. by left.
    + done.
    + destruct (Hshape c) as (_ & -> & _), (Hshape p) as (-> & _). symmetry. by apply (wt_named _ _ Htree).
    + cbn [mbind outcome_bind]. assert (E : done ++ c :: views = (done ++ [c]) ++ views) by (by rewrite <- app_assoc).
      rewrite E in *. apply IH; [done|by destruct done|done].
Qed.

Lemma topological_head l : topological hp0 s root l → ∃ l', l = root :: l'.
Proof. induction 1 as [|l c p _ [l' ->] _ _ _ _]; [by exists []|by exists (l' ++ [c])]. Qed.

Lemma readdViews_all l : topological hp0 s root l →
  ∃ tmp, readdViews BlockTimeParam (GetHash (hp0 target)) b l hp0 NewMultiView = Ok (replaced l, tmp) ∧
         scratch (replaced l) l tmp.
Proof.
  intros Htopo. destruct (topological_head l Htopo) as [views ->]. cbn [readdViews].
  pose proof (replaced_visit [] root (not_elem_of_nil root) Hroot) as Hvisit.
  rewrite replaced_nil in Hvisit. rewrite Hvisit. cbn [app].
  destruct (scratch_first (replaced [root]) root) as (t & -> & Hscr).
  { apply (same_shape_heap hp0); [apply replaced_shape|done]. }
  cbn [mbind outcome_bind]. by apply (readdViews_spec views [root]).
Qed.

End Readd.

(** C26: replacing a block by the same block with a better proof of finality.  If the block is
    one of a known view, the call returns; unless it improves finality nothing changes; if it
    does, the tree and the final view stay, only the view of the block is changed, and only if
    it lies above the final view, and the new best and expected final views lie on the branches
    of the final view: a replacement never reverts it. *)
Theorem replace_keeps_final hp s f e b r hp' s' : wf_heap hp → wf_tree hp s →
  finalView s = Some f → known hp s f → expectedFinalView s = Some e →
  (∀ target, known hp s target → blkHash b = GetHash (hp target) →
     blkPrevHash b = GetPreviousHash (hp target) ∧ blkHeight b = GetHeight (hp target)) →
  ReplaceBlockIfImproveFinality BlockTimeParam b (hp, s) = (r, (hp', s')) →
  returns r ∧
  (r ≠ Ok true → hp' = hp ∧ s' = s) ∧
  (r = Ok true → blkFinalityHeight b ≠ 0 ∧ ∃ target,
     known hp s target ∧ GetHash (hp target) = blkHash b ∧
     (ancestor hp s target f → hp' = assign target (ReplaceBlock b (hp target)) hp) ∧
     (¬ ancestor hp s target f → hp' = hp) ∧
     viewByHash s' = viewByHash s ∧ viewByPrevHash s' = viewByPrevHash s ∧ finalView s' = finalView s ∧
     wf_tree hp' s' ∧
     ∃ e' b', expectedFinalView s' = Some e' ∧ bestView s' = Some b' ∧
       ancestor hp' s' e' f ∧ ancestor hp' s' b' f).
Proof.
  intros Hheap Htree Hf Hkf He Hblock Hrun.
  unfold ReplaceBlockIfImproveFinality in Hrun. rewrite getS_bind in Hrun. cbn [fst snd] in Hrun.
  destruct (blkVersion b <? INSTANT_FINALITY_VERSION); [by injection Hrun as <- <- <-|].
  destruct (viewByHash s !! blkHash b) as [target|] eqn:Ht; [|by injection Hrun as <- <- <-].
  assert (Hth : GetHash (hp target) = blkHash b) by (by apply (wt_named _ _ Htree)).
  assert (Hkt : known hp s target) by (unfold known; by rewrite Hth).
  destruct (Hblock target Hkt (eq_sym Hth)) as [Hbp Hbh].
  unfold isFinalized in Hrun. rewrite Ht, He in Hrun. cbn [notNil mbind outcome_bind] in Hrun.
  destruct (link_spec hp Hheap s (wt_named _ _ Htree) (blkHash b) e) as (fin & Hlink & _).
  unfold mbind, M_bind, lift in Hrun. rewrite Hlink in Hrun.
  destruct (_ && _) eqn:Himp; [|by injection Hrun as <- <- <-].
  destruct (getAllViewsWithBFS_spec hp Hheap s Htree f Hkf) as (l & Hl & Htopo & Hnd & Hin).
  rewrite Hf, Hl in Hrun.
  destruct (readdViews_all hp Hheap s Htree f Hkf b target Hkt (eq_sym Hth) Hbp Hbh l Htopo) as (t & Hread & Hscr).
  rewrite Hth in Hread. rewrite Hread in Hrun. cbn [modifyS mret M_ret] in Hrun. injection Hrun as <- <- <-.
  split; [done|]. split; [done|]. intros _. split; [apply andb_true_iff in Himp as [Himp _]; lia|].
  pose proof (replaced_shape hp b target (eq_sym Hth) Hbp Hbh l) as Hshape.
  exists target. split; [done|]. split; [done|].
  split; [intros Ha; unfold replaced; by rewrite decide_True by (by apply Hin)|].
  split; [intros Ha; unfold replaced; by rewrite decide_False by (by intros [_ ?]%Hin)|].
  split; [done|]. split; [done|]. split; [done|].
  split; [by apply (wf_tree_pointers _ s), (same_shape_tree hp)|].
  destruct Hscr as (_ & _ & f' & e' & b' & _ & He' & Hb' & Hel & Hbl). exists e', b'.
  split; [done|]. split; [done|].
  assert (Hanc : ∀ x, x ∈ l → ancestor (replaced hp b target l) s x f).
  { intros x [_ Ha]%Hin. eapply rtc_subrel; [|exact Ha]. intros y z Hyz. by apply (same_shape_parent hp). }
  split; by apply Hanc.
Qed.

End Replacing.

(** ** A small chain

    Two branches fork after the first view: 1 - 2 - 4 and 1 - 3 - 5. *)
Module Demo.

Definition params : list (string * Z) := [(BLOCKTIME_DEFAULT, 40)].

(** Short names instead of 32-byte hashes. *)
Definition name (n : nat) : Hash := String (Ascii.ascii_of_nat n) EmptyString.

Definition block (h prev : nat) (height time finality : Z) : BlockInterface :=
  {| blkHash := name h; blkPrevHash := name prev; blkHeight := height;
     blkVersion := INSTANT_FINALITY_VERSION; blkProduceTime := time; blkProposeTime := time;
     blkFinalityHeight := finality; blkCommitteeFromBlock := name 0 |}.

Definition views : heap := λ r,
  Build_View
    match r with
    | 1 => block 1 0 1 40 0
    | 2 => block 2 1 2 80 2
    | 3 => block 3 1 2 120 0
    | 4 => block 4 2 3 160 3
    | _ => block 5 3 3 200 3
    end%positive newTSManager.

Lemma views_cases (P : View → Prop) :
  P (views 1) → P (views 2) → P (views 3) → P (views 4) → P (views 5) → ∀ r, P (views r).
Proof. intros H1 H2 H3 H4 H5 [[[]|[]|]|[[]|[]|]|]; assumption. Qed.

Lemma wf_views : wf_heap views.
Proof.
  split; [|split].
  - apply (views_cases (λ v, ∀ p, GetPreviousHash v = GetHash (views p) → GetHeight v = GetHeight (views p) + 1));
      apply (views_cases (λ w, _ = GetHash w → _ = GetHeight w + 1)); vm_compute; congruence.
  - apply (views_cases (λ v, ∀ p, GetHash v = GetHash (views p) → GetHeight v = GetHeight (views p)));
      apply (views_cases (λ w, _ = GetHash w → _ = GetHeight w)); vm_compute; congruence.
  - apply (views_cases (λ v, 1 ≤ GetHeight v < word64)); vm_compute; split; congruence.
Qed.

Lemma default_time : blockTimeOf params BLOCKTIME_DEFAULT ≠ 0.
Proof. done. Qed.

#[local] Existing Instance BeaconCompare.

(** The tree of the beacon chain after adding some of the views. *)
Definition after (vs : list ref) : multiView :=
  (restoreViews (BeaconAddView params views) vs NewMultiView).2.

Lemma running_after_1 : reachable params views (after [1%positive]).
Proof.
  apply rtc_once, (step_add _ _ _ 1%positive (Ok true)); [|by vm_compute].
  intros _ p f Hp _. by vm_compute in Hp.
Qed.

(** The branch of view 2 is extended up to view 4. *)
Lemma running_after_2 : reachable params views (after [1;2]%positive).
Proof.
  eapply rtc_r; [apply running_after_1|]. apply (step_add _ _ _ 2%positive (Ok true)); [|by vm_compute].
  intros _ p f Hp Hf. vm_compute in Hp, Hf. injection Hp as <-. injection Hf as <-. apply rtc_refl.
Qed.

Lemma running_after_4 : reachable params views (after [1;2;4]%positive).
Proof.
  eapply rtc_r; [apply running_after_2|]. apply (step_add _ _ _ 4%positive (Ok true)); [|by vm_compute].
  intros _ p f Hp Hf. vm_compute in Hp, Hf. injection Hp as <-. injection Hf as <-. apply rtc_refl.
Qed.

Lemma inv_after_4 : inv views (after [1;2;4]%positive).
Proof. apply (reachable_running params views default_time wf_views), running_after_4. Qed.

End Demo.

Lemma beacon_final_stable_witness :
  finalView (Demo.after [1;2]%positive) = Some 2%positive ∧
  running Demo.views (Demo.after [1;2]%positive) ∧
  returns (BeaconAddView (H := BeaconCompare) Demo.params Demo.views 4%positive (Demo.after [1;2]%positive)).1.
Proof.
  split; [by vm_compute|].
  destruct (beacon_final_stable Demo.params Demo.views Demo.default_time Demo.wf_views _ Demo.running_after_2)
    as (Hrun & Hadd & _). split; [exact Hrun|]. apply Hadd.
  intros _ p f Hp Hf. vm_compute in Hp, Hf. injection Hp as <-. injection Hf as <-. apply rtc_refl.
Defined.

Lemma removeOutdatedView_invisible_witness :
  ∃ s', removeOutdatedView Demo.views (Demo.after [1;2;4]%positive) = Ok s' ∧
    size (viewByHash (Demo.after [1;2;4]%positive)) = 3%nat ∧ size (viewByHash s') = 2%nat ∧
    GetAllViewsWithBFS Demo.views s' = Ok [4%positive].
Proof.
  destruct (removeOutdatedView_invisible Demo.views Demo.wf_views _ Demo.inv_after_4)
    as (s' & Hclean & _ & Hbfs & _); [by intros E%(f_equal finalView); vm_compute in E|].
  exists s'. split; [exact Hclean|]. split; [by vm_compute|]. split.
  - vm_compute in Hclean. injection Hclean as <-. by vm_compute.
  - rewrite Hbfs. by vm_compute.
Defined.

Lemma restart_roundtrip_witness :
  GetAllViewsWithBFS Demo.views (Demo.after [1;2;4]%positive) = Ok [4%positive] ∧
  ∃ f views t, finalView (Demo.after [1;2;4]%positive) = Some f ∧
    GetAllViewsWithBFS Demo.views (Demo.after [1;2;4]%positive) = Ok views ∧ NoDup views ∧
    restoreViews (BeaconAddView (H := BeaconCompare) Demo.params Demo.views) views NewMultiView = (Ok tt, t) ∧
    inv Demo.views t ∧
    (∀ h r, viewByHash t !! h = Some r ↔
       viewByHash (Demo.after [1;2;4]%positive) !! h = Some r ∧
       ancestor Demo.views (Demo.after [1;2;4]%positive) r f).
Proof.
  split; [by vm_compute|].
  apply (restart_roundtrip Demo.params Demo.views Demo.default_time Demo.wf_views _ Demo.inv_after_4).
  by intros E%(f_equal finalView); vm_compute in E.
Defined.

(** A shard's tree: the views are there, but nothing is final yet but the first. *)
Definition unconfirmed : multiView :=
  withPointers (Demo.after [1;2;4]%positive) (Some 1%positive) (Some 4%positive) (Some 4%positive).

Lemma unconfirmed_path : ancestor Demo.views unconfirmed 4%positive 1%positive.
Proof. apply (rtc_l _ _ 2%positive); [by vm_compute|]. apply rtc_once. by vm_compute. Qed.

Lemma FinalizeView_forward_witness :
  FinalizeView Demo.views (Demo.name 2) unconfirmed = (Ok tt, setFinal 2%positive unconfirmed) ∧
  (Ok tt = Panic ↔ ∃ x, viewByHash unconfirmed !! Demo.name 2 = Some x ∧
     GetHeight (Demo.views 1%positive) < GetHeight (Demo.views x) ∧ ¬ ancestor Demo.views unconfirmed 4%positive x).
Proof.
  assert (Hrun : FinalizeView Demo.views (Demo.name 2) unconfirmed = (Ok tt, setFinal 2%positive unconfirmed))
    by (by vm_compute).
  split; [exact Hrun|].
  apply (FinalizeView_forward Demo.views Demo.wf_views (Demo.name 2) unconfirmed 1%positive 4%positive
           (Ok tt) (setFinal 2%positive unconfirmed)).
  - apply wf_tree_pointers, Demo.inv_after_4.
  - reflexivity.
  - reflexivity.
  - by vm_compute.
  - by vm_compute.
  - exact unconfirmed_path.
  - exact Hrun.
Defined.

(** View 4 is proposed again, earlier. *)
Definition earlier4 : BlockInterface := 
  {| blkHash := Demo.name 4; blkPrevHash := Demo.name 2; blkHeight := 3;
     blkVersion := INSTANT_FINALITY_VERSION; blkProduceTime := 160; blkProposeTime := 150;
     blkFinalityHeight := 3; blkCommitteeFromBlock := Demo.name 0 |}.

Lemma replace_keeps_final_witness :
  let '(r, (hp', s')) := ReplaceBlockIfImproveFinality (H := BeaconCompare) Demo.params earlier4
                           (Demo.views, Demo.after [1;2;4]%positive) in
  r = Ok true ∧ blkProposeTime (GetBlock (hp' 4%positive)) = 150 ∧ returns r.
Proof.
  destruct (ReplaceBlockIfImproveFinality _ _ _) as [r [hp' s']] eqn:Hrun.
  assert (Hr : (ReplaceBlockIfImproveFinality (H := BeaconCompare) Demo.params earlier4
                  (Demo.views, Demo.after [1;2;4]%positive)).1 = Ok true) by (by vm_compute).
  assert (Ht : blkProposeTime (GetBlock ((ReplaceBlockIfImproveFinality (H := BeaconCompare) Demo.params earlier4
                  (Demo.views, Demo.after [1;2;4]%positive)).2.1 4%positive)) = 150) by (by vm_compute).
  rewrite Hrun in Hr, Ht. split; [exact Hr|]. split; [exact Ht|].
  apply (replace_keeps_final (H := BeaconCompare) Demo.params Demo.default_time Demo.views
           (Demo.after [1;2;4]%positive) 4%positive 4%positive earlier4 r hp' s' Demo.wf_views).
  - apply Demo.inv_after_4.
  - by vm_compute.
  - by vm_compute.
  - by vm_compute.
  - intros target _. revert target.
    apply (Demo.views_cases (λ v, blkHash earlier4 = GetHash v →
             blkPrevHash earlier4 = GetPreviousHash v ∧ blkHeight earlier4 = GetHeight v));
      intros E; try discriminate E; split; reflexivity.
  - exact Hrun.
Defined.

(** *** Without the hypothesis on added views finality is reverted

    View 2 is final.  View 3, its sibling, is still offered by [GetViewByHash] as a view to
    build on; view 5, built on it with a proof of finality, becomes final although it does not
    extend view 2. *)
Lemma final_view_reverted :
  let s := Demo.after [1;2;3]%positive in
  let s' := Demo.after [1;2;3;5]%positive in
  finalView s = Some 2%positive ∧
  GetViewByHash Demo.views (Demo.name 3) s = Ok (Some 3%positive) ∧
  BeaconAddView (H := BeaconCompare) Demo.params Demo.views 5%positive s = (Ok true, s') ∧
  finalView s' = Some 5%positive ∧ ¬ ancestor Demo.views s' 5%positive 2%positive.
Proof.
  split_and!; [by vm_compute..|]. intros Ha.
  inversion Ha as [|? p ? Hp Hrest]; subst. vm_compute in Hp. injection Hp as <-.
  inversion Hrest as [|? p ? Hp Hrest']; subst. vm_compute in Hp. injection Hp as <-.
  inversion Hrest' as [|? p ? Hp _]; subst. vm_compute in Hp. discriminate.
Qed.
