(* ===== verification/SignatureCounter.v ===== *)
(** Missing signatures ([blockchain/signaturecounter/missingsignaturecounter.go]) and the
    beacon chain's use of the counter ([beaconprocess.go], [beaconbeststate.go]): which
    validators of the shards did not sign the blocks they had to, and who is slashed for it.

    A validator is its public key as a string.  The decoding of a block's validation data,
    a JSON object with the indices of the signers, is a parameter. *)
From S2P Require Import Prelude Timeslot.

Local Open Scope Z_scope.

Record Penalty := {
  MinPercent : Z;
  Time : Z;
  ForceUnstake : bool;
}.

Record MissingSignature := {
  ActualTotal : Z;
  Missing : Z;
}.

Definition NewMissingSignature : MissingSignature := Build_MissingSignature 0 0.
Definition defaultRule : list Penalty := [Build_Penalty 50 0 true].
Definition NewPenalty : Penalty := Build_Penalty 0 0 false.

#[export] Instance Penalty_eq_dec : EqDecision Penalty.
Proof. solve_decision. Defined.

Definition IsEmpty (p : Penalty) : bool := bool_decide (p = NewPenalty).

Record MissingSignatureCounter := {
  missingSignature : gmap string MissingSignature;
  penalties : list Penalty;
  lastShardStateValidatorCommittee : gmap Z (list string);
  lastShardStateValidatorIndex : gmap Z (list Z);
}.

Definition freshCounts (committees : list string) : gmap string MissingSignature :=
  list_to_map ((λ v, (v, NewMissingSignature)) <$> committees).

Definition NewDefaultSignatureCounter (committees : list string) : MissingSignatureCounter :=
  Build_MissingSignatureCounter (freshCounts committees) defaultRule ∅ ∅.

Definition withCounts (m : gmap string MissingSignature) (s : MissingSignatureCounter) : MissingSignatureCounter :=
  Build_MissingSignatureCounter m (penalties s)
    (lastShardStateValidatorCommittee s) (lastShardStateValidatorIndex s).

Definition Reset (committees : list string) (s : MissingSignatureCounter) : MissingSignatureCounter :=
  Build_MissingSignatureCounter (freshCounts committees) (penalties s) ∅ ∅.

Definition CommitteeChange (newCommittees : list string) (s : MissingSignatureCounter) : MissingSignatureCounter :=
  withCounts (list_to_map
    ((λ v, (v, default NewMissingSignature (missingSignature s !! v))) <$> newCommittees)) s.

(** A copy shares nothing with the original; its maps and lists hold the same values. *)
Definition Copy (s : MissingSignatureCounter) : MissingSignatureCounter := s.

(** [IndexOfInt]: the first position of a number, -1 if there is none. *)
Fixpoint indexFrom (i target : Z) (arr : list Z) : Z :=
  match arr with
  | [] => -1
  | v :: arr => if v =? target then i else indexFrom (i + 1) target arr
  end.
Definition IndexOfInt (target : Z) (arr : list Z) : Z := indexFrom 0 target arr.

(** Indexing a Go slice, with the test for a too large index that the source makes before. *)
Definition memberAt (committees : list string) (idx : Z) : outcome string :=
  if Z.of_nat (List.length committees) <=? idx then Err "index greater than the committee"
  else if idx <? 0 then Panic
  else match committees !! Z.to_nat idx with Some v => Ok v | None => Panic end.

Section Counting.
Context (DecodeValidationData : string → outcome (list Z)).

(** *** [AddMissingSignature] *)
Definition collectSigned (committees : list string) (idxs : list Z) : outcome (gset string) :=
  foldl (λ acc idx, signed ← acc; v ← memberAt committees idx; mret ({[ v ]} ∪ signed)) (Ok ∅) idxs.

(** A validator that is not followed is skipped. *)
Definition updateCount (g : string → MissingSignature → MissingSignature)
    (counts : gmap string MissingSignature) (v : string) : gmap string MissingSignature :=
  match counts !! v with
  | None => counts
  | Some c => <[v := g v c]> counts
  end.

Definition countBlock (signed : gset string) (v : string) (c : MissingSignature) : MissingSignature :=
  Build_MissingSignature (add64 (ActualTotal c) 1)
    (if decide (v ∈ signed) then Missing c else add64 (Missing c) 1).

Definition AddMissingSignature (data : string) (shardID : Z) (toBeSigned : list string)
    (s : MissingSignatureCounter) : outcome MissingSignatureCounter :=
  idxs ← DecodeValidationData data;
  signed ← collectSigned toBeSigned idxs;
  mret {| missingSignature := foldl (updateCount (countBlock signed)) (missingSignature s) toBeSigned;
          penalties := penalties s;
          lastShardStateValidatorCommittee :=
            <[shardID := toBeSigned]> (lastShardStateValidatorCommittee s);
          lastShardStateValidatorIndex :=
            <[shardID := idxs]> (lastShardStateValidatorIndex s) |}.

(** *** [AddPreviousMissignSignature] *)
Definition collectUncounted (committees : list string) (counted idxs : list Z) : outcome (gset string) :=
  foldl (λ acc idx,
    uncount ← acc;
    v ← memberAt committees idx;
    mret (if IndexOfInt idx counted =? -1 then {[ v ]} ∪ uncount else uncount)) (Ok ∅) idxs.

Definition revertBlock (uncount : gset string) (v : string) (c : MissingSignature) : MissingSignature :=
  if decide (v ∈ uncount)
  then Build_MissingSignature (ActualTotal c) (if 0 <? Missing c then Missing c - 1 else Missing c)
  else c.

Definition AddPreviousMissignSignature (data : string) (shardID : Z) (s : MissingSignatureCounter) :
    outcome MissingSignatureCounter :=
  let committees := default [] (lastShardStateValidatorCommittee s !! shardID) in
  let counted := default [] (lastShardStateValidatorIndex s !! shardID) in
  if (List.length counted =? 0)%nat || (List.length committees =? 0)%nat then mret s
  else
    idxs ← DecodeValidationData data;
    if (List.length idxs <=? List.length counted)%nat then mret s
    else
      uncount ← collectUncounted committees counted idxs;
      mret (withCounts (foldl (updateCount (revertBlock uncount)) (missingSignature s) committees) s).

End Counting.

(** *** Penalties *)
Definition getSlashingPenalty (numberOfMissingSig total : Z) (rule : list Penalty) : Penalty :=
  if total =? 0 then NewPenalty
  else
    let missedPercent := u64 (numberOfMissingSig * 100) / total in
    foldl (λ penalty level, if MinPercent level <=? missedPercent then level else penalty) NewPenalty rule.

Definition nonEmpty (m : gmap string Penalty) : gmap string Penalty :=
  filter (λ kp : string * Penalty, IsEmpty kp.2 = false) m.

Definition GetAllSlashingPenaltyWithActualTotalBlock (s : MissingSignatureCounter) : gmap string Penalty :=
  nonEmpty ((λ c, getSlashingPenalty (Missing c) (ActualTotal c) (penalties s)) <$> missingSignature s).

Definition expectedPenalty (s : MissingSignatureCounter) (key : string) (expectedTotalBlock : Z) : Penalty :=
  match missingSignature s !! key with
  | None => getSlashingPenalty expectedTotalBlock expectedTotalBlock (penalties s)
  | Some c =>
      let signedBlock := sub64 (ActualTotal c) (Missing c) in
      let missingBlock := if expectedTotalBlock <? signedBlock then 0
                          else sub64 expectedTotalBlock signedBlock in
      getSlashingPenalty missingBlock expectedTotalBlock (penalties s)
  end.

Definition GetAllSlashingPenaltyWithExpectedTotalBlock (expected : gmap string Z)
    (s : MissingSignatureCounter) : gmap string Penalty :=
  nonEmpty (map_imap (λ key e, Some (expectedPenalty s key e)) expected).

(** ** The beacon chain's use *)
Definition BLOCK_PRODUCINGV3_VERSION : Z := 7.
Definition INSTANT_FINALITY_VERSION_V2 : Z := 9.
Definition MaxSubsetCommittees : Z := 2.

Definition GetProposerByTimeSlot (ts committeeLen : Z) : outcome Z := goRem ts committeeLen.
Definition GetSubsetID (proposerIndex : Z) : Z := Z.rem proposerIndex MaxSubsetCommittees.

Definition FilterSigningCommitteeV3 {A} (fullCommittees : list A) (proposerIndex : Z) : list A :=
  (filter (λ iv : nat * A, Z.rem (Z.of_nat iv.1) MaxSubsetCommittees = GetSubsetID proposerIndex)
    (imap pair fullCommittees)).*2.

(** The proposer is read from the committee before the subset is formed. *)
Definition GetProposer {A} (ts : Z) (committees : list A) (lenProposers : Z) : outcome (A * Z) :=
  i ← GetProposerByTimeSlot ts lenProposers;
  if i <? 0 then Panic
  else match committees !! Z.to_nat i with Some v => Ok (v, i) | None => Panic end.

(** [CalculateExpectedTotalBlock]: a shard is expected to produce its own number of blocks, at
    least the mean over the shards. *)
Definition CalculateExpectedTotalBlock (blockVersion : Z) (NumberOfShardBlock : gmap Z Z) : outcome (gmap Z Z) :=
  let subset := (λ n, if (BLOCK_PRODUCINGV3_VERSION <=? blockVersion) &&
                         (blockVersion <? INSTANT_FINALITY_VERSION_V2) then n / 2 else n) <$> NumberOfShardBlock in
  mean ← goDiv (u64 (map_sum (λ n, n) subset)) (Z.of_nat (size subset));
  mret ((λ v, if v <=? mean then mean else v) <$> subset).

Definition GetExpectedTotalBlock (blockVersion : Z) (NumberOfShardBlock : gmap Z Z)
    (shardCommittee : gmap Z (list string)) : outcome (gmap string Z) :=
  expected ← CalculateExpectedTotalBlock blockVersion NumberOfShardBlock;
  mret (map_fold (λ shardID committees m,
          foldl (λ m v, <[v := default 0 (expected !! shardID)]> m) m committees) ∅ shardCommittee).

(** The shard blocks a beacon block confirms ([types.ShardState]), as far as they are counted. *)
Record CountedBlock := {
  cbValidationData : string;
  cbPreviousValidationData : string;
  cbCommitteeFromBlock : option string;
  cbHeight : Z;
  cbProposerTime : Z;
  cbVersion : Z;
}.

Section BeaconCounting.
Context (DecodeValidationData : string → outcome (list Z)).
Context (BlockTimeParam : list (string * Z)).
(** [CommitteesFromViewHashForShard]: the committee that a beacon block fixed for a shard. *)
Context (CommitteesFromViewHashForShard : string → Z → outcome (list string)).

(** Who had to sign: under the versions with signing subsets, the half of the proposer.  A shard
    without slots has a nil manager, which is dereferenced. *)
Definition signingCommittee (tsManager : option TSManager) (proposerLength : Z) (b : CountedBlock)
    (committees : list string) : outcome (list string) :=
  if (BLOCK_PRODUCINGV3_VERSION <=? cbVersion b) && (cbVersion b <? INSTANT_FINALITY_VERSION_V2) then
    tsManager ← (match tsManager with Some m => Ok m | None => Panic end);
    timeSlot ← calculateTimeslot BlockTimeParam (cbProposerTime b) tsManager;
    '(_, proposerIndex) ← GetProposer timeSlot committees proposerLength;
    mret (FilterSigningCommitteeV3 committees proposerIndex)
  else mret committees.

(** The error of the first call is dropped: the test after it looks at an older error. *)
Definition dropError (s : MissingSignatureCounter) (m : outcome MissingSignatureCounter) :
    outcome MissingSignatureCounter :=
  match m with Err _ => Ok s | m => m end.

Definition countMissingSignatureV2 (tsManagers : gmap Z TSManager) (proposerLength : Z)
    (shardID : Z) (b : CountedBlock) (s : MissingSignatureCounter) : outcome MissingSignatureCounter :=
  match cbCommitteeFromBlock b with
  | None => mret s
  | Some beaconHashForCommittee =>
      committees ← CommitteesFromViewHashForShard beaconHashForCommittee shardID;
      committees ← signingCommittee (tsManagers !! shardID) proposerLength b committees;
      s ← (if decide (cbPreviousValidationData b = "") then mret s
           else dropError s (AddPreviousMissignSignature DecodeValidationData
                               (cbPreviousValidationData b) shardID s));
      AddMissingSignature DecodeValidationData (cbValidationData b) shardID committees s
  end.

(** All blocks of a beacon block, shard by shard in the order of the iteration; the first
    block of a shard is not counted.  This is the count under every committee state but the
    first, whose committees swap themselves and which [countMissingSignatureV1] counts. *)
Definition countMissingSignature (tsManagers : gmap Z TSManager) (proposerLength : Z)
    (allShardStates : list (Z * list CountedBlock)) (s : MissingSignatureCounter) :
    outcome MissingSignatureCounter :=
  foldl (λ acc '(shardID, shardStates),
    foldl (λ acc b,
      s ← acc;
      if cbHeight b =? 1 then mret s
      else countMissingSignatureV2 tsManagers proposerLength shardID b s) acc shardStates)
    (Ok s) allShardStates.

End BeaconCounting.

(** ** The counter counts *)

(** A block as the specification sees it: who had to sign, which indices were counted, and who
    signed in the end. *)
Record SignedBlock := {
  sbShard : Z;
  sbCommittee : list string;
  sbCounted : list Z;
  sbSigners : gset string;
}.

Definition memberOf (committee : list string) (i : Z) : option string :=
  if i <? 0 then None else committee !! Z.to_nat i.
Definition signersAt (committee : list string) (idxs : list Z) : gset string :=
  list_to_set (omap (memberOf committee) idxs).
Definition valid (committee : list string) (idxs : list Z) : bool :=
  forallb (λ i, bool_decide (is_Some (memberOf committee i))) idxs.

(** The history of an epoch, newest block first.  A block's late signatures arrive with its
    successor in the same shard, and count if there are more of them than before. *)
Definition credit (late : list Z) (b : SignedBlock) : SignedBlock :=
  if (List.length (sbCounted b) =? 0)%nat || (List.length (sbCommittee b) =? 0)%nat ||
     (List.length late <=? List.length (sbCounted b))%nat || negb (valid (sbCommittee b) late)
  then b
  else Build_SignedBlock (sbShard b) (sbCommittee b) (sbCounted b)
         (signersAt (sbCommittee b) late ∪ sbSigners b).

Fixpoint creditLast (shard : Z) (late : list Z) (h : list SignedBlock) : list SignedBlock :=
  match h with
  | [] => []
  | b :: h => if sbShard b =? shard then credit late b :: h else b :: creditLast shard late h
  end.

Fixpoint lastOf (shard : Z) (h : list SignedBlock) : option SignedBlock :=
  match h with
  | [] => None
  | b :: h => if sbShard b =? shard then Some b else lastOf shard h
  end.

Definition newBlock (shard : Z) (committee : list string) (idxs : list Z) : SignedBlock :=
  Build_SignedBlock shard committee idxs (signersAt committee idxs).

Definition hadToSign (v : string) (b : SignedBlock) : bool := bool_decide (v ∈ sbCommittee b).
Definition missed (v : string) (b : SignedBlock) : bool :=
  bool_decide (v ∈ sbCommittee b) && negb (bool_decide (v ∈ sbSigners b)).
Fixpoint count (f : SignedBlock → bool) (h : list SignedBlock) : Z :=
  match h with [] => 0 | b :: h => (if f b then 1 else 0) + count f h end.

(** The counter holds, for each validator it follows, the numbers of the history, and the last
    block of each shard; the blocks of the [settled] shards have not received late signatures. *)
Record counts_on (settled : Z → Prop) (h : list SignedBlock) (s : MissingSignatureCounter) : Prop := {
  ch_counts : ∀ v c, missingSignature s !! v = Some c →
    ActualTotal c = count (hadToSign v) h ∧ Missing c = count (missed v) h;
  ch_committee : ∀ shard, lastShardStateValidatorCommittee s !! shard = sbCommittee <$> lastOf shard h;
  ch_index : ∀ shard, lastShardStateValidatorIndex s !! shard = sbCounted <$> lastOf shard h;
  ch_last : ∀ shard b, settled shard → lastOf shard h = Some b →
    NoDup (sbCommittee b) ∧ sbSigners b = signersAt (sbCommittee b) (sbCounted b);
}.
Definition counts_history : list SignedBlock → MissingSignatureCounter → Prop := counts_on (λ _, True).

Lemma count_bounds f h : 0 ≤ count f h ≤ Z.of_nat (List.length h).
Proof. induction h as [|b h IH]; cbn [count List.length]; [lia|]. destruct (f b); lia. Qed.

Lemma missed_le v h : count (missed v) h ≤ count (hadToSign v) h.
Proof.
  induction h as [|b h IH]; cbn [count]; [lia|].
  assert ((if missed v b then 1 else 0) ≤ (if hadToSign v b then 1 else 0)); [|lia].
  unfold missed, hadToSign. destruct (bool_decide _); cbn; [destruct (negb _)|]; lia.
Qed.

(** Updating every member of a duplicate-free committee updates each count once. *)
Lemma foldl_updateCount g l m k : NoDup l →
  foldl (updateCount g) m l !! k = if decide (k ∈ l) then g k <$> m !! k else m !! k.
Proof.
  intros Hnd. revert m. induction Hnd as [|v l Hv _ IH]; intros m; cbn [foldl].
  { by rewrite decide_False by apply not_elem_of_nil. }
  rewrite IH. unfold updateCount. destruct (decide (k ∈ l)) as [Hk|Hk].
  - rewrite (decide_True (P := k ∈ v :: l)) by (by right).
    assert (k ≠ v) by congruence. destruct (m !! v); [|done]. by rewrite lookup_insert_ne.
  - destruct (decide (k = v)) as [->|Hne].
    + rewrite decide_True by (by left). destruct (m !! v) as [c|] eqn:E; [|done]. by rewrite lookup_insert_eq.
    + rewrite decide_False by (rewrite elem_of_cons; tauto).
      destruct (m !! v); [|done]. by rewrite lookup_insert_ne.
Qed.

Lemma memberAt_Ok committee i v : memberAt committee i = Ok v ↔ memberOf committee i = Some v.
Proof.
  unfold memberAt, memberOf. destruct (Z.of_nat (List.length committee) <=? i) eqn:E.
  - split; [done|]. destruct (i <? 0) eqn:E'; [done|]. intros Hv%lookup_lt_Some. lia.
  - destruct (i <? 0); [done|]. destruct (committee !! Z.to_nat i); split; congruence.
Qed.

Lemma elem_of_signersAt committee idxs v :
  v ∈ signersAt committee idxs ↔ ∃ i, i ∈ idxs ∧ memberOf committee i = Some v.
Proof. unfold signersAt. rewrite elem_of_list_to_set, list_elem_of_omap. done. Qed.

Lemma signersAt_committee committee idxs v : v ∈ signersAt committee idxs → v ∈ committee.
Proof.
  intros (i & _ & Hv)%elem_of_signersAt. unfold memberOf in Hv. destruct (i <? 0); [done|].
  by apply list_elem_of_lookup_2 in Hv.
Qed.

Lemma memberOf_inj committee i j v : NoDup committee →
  memberOf committee i = Some v → memberOf committee j = Some v → i = j.
Proof.
  unfold memberOf. intros Hnd Hi Hj. destruct (i <? 0) eqn:Ei; [done|]. destruct (j <? 0) eqn:Ej; [done|].
  pose proof (NoDup_lookup _ _ _ _ Hnd Hi Hj). lia.
Qed.

Lemma indexFrom_nonneg i target arr : 0 ≤ i → target ∈ arr → 0 ≤ indexFrom i target arr.
Proof.
  revert i. induction arr as [|v arr IH]; intros i Hi; [by intros ?%elem_of_nil|].
  cbn [indexFrom]. destruct (v =? target) eqn:E; [lia|]. intros [->|Hin]%elem_of_cons; [lia|].
  apply IH; [lia|done].
Qed.

Lemma IndexOfInt_spec target arr : (IndexOfInt target arr =? -1) = bool_decide (target ∉ arr).
Proof.
  case_bool_decide as H.
  - apply Z.eqb_eq. unfold IndexOfInt. generalize 0. induction arr as [|v arr IH]; intros i; [done|].
    cbn [indexFrom]. apply not_elem_of_cons in H as [Hne Hin]. rewrite (proj2 (Z.eqb_neq _ _)) by congruence.
    by apply IH.
  - assert (Hin : target ∈ arr) by (by destruct (decide (target ∈ arr))).
    pose proof (indexFrom_nonneg 0 target arr ltac:(lia) Hin). unfold IndexOfInt. lia.
Qed.

(** *** Collecting members *)
Lemma collectSigned_Ok committee idxs S : collectSigned committee idxs = Ok S →
  S = signersAt committee idxs ∧ valid committee idxs = true.
Proof.
  unfold collectSigned. intros H. enough (Hgen : ∀ (acc : outcome (gset string)) S,
    foldl (λ (acc : outcome (gset string)) idx, signed ← acc; v ← memberAt committee idx; (mret ({[ v ]} ∪ signed))) acc idxs = Ok S →
    ∃ S0, acc = Ok S0 ∧ S = signersAt committee idxs ∪ S0 ∧ valid committee idxs = true).
  { apply Hgen in H as (S0 & [= <-] & -> & ?). split; [set_solver|done]. }
  clear H S. induction idxs as [|i idxs IH]; intros acc S H; cbn [foldl] in H.
  - exists S. split; [done|]. split; [unfold signersAt; cbn; set_solver|done].
  - apply IH in H as (S1 & H & -> & Hvalid). inv_ok. exists a. split; [done|].
    apply memberAt_Ok in Hcall0. unfold signersAt, valid in *. cbn. rewrite Hcall0, Hvalid.
    rewrite bool_decide_eq_true_2 by eauto. cbn. split; [set_solver|done].
Qed.

Lemma collectUncounted_Ok committee counted idxs U : collectUncounted committee counted idxs = Ok U →
  (∀ v, v ∈ U ↔ ∃ i, i ∈ idxs ∧ (i ∉ counted) ∧ memberOf committee i = Some v) ∧ valid committee idxs = true.
Proof.
  unfold collectUncounted. intros H. enough (Hgen : ∀ (acc : outcome (gset string)) (U : gset string),
    foldl (λ (acc : outcome (gset string)) idx, uncount ← acc; v ← memberAt committee idx;
             mret (if IndexOfInt idx counted =? -1 then ({[ v ]} ∪ uncount) else uncount)) acc idxs = Ok U →
    ∃ U0, acc = Ok U0 ∧ (∀ v, v ∈ U ↔ v ∈ U0 ∨ ∃ i, i ∈ idxs ∧ (i ∉ counted) ∧ memberOf committee i = Some v) ∧
      valid committee idxs = true).
  { apply Hgen in H as (U0 & [= <-] & HU & ?). split; [|done]. intros v. rewrite HU. set_solver. }
  clear H U. induction idxs as [|i idxs IH]; intros acc U H; cbn [foldl] in H.
  - exists U. split; [done|]. split; [|done]. intros v. set_solver.
  - apply IH in H as (U1 & H & HU & Hvalid). inv_ok. exists a. split; [done|].
    apply memberAt_Ok in Hcall0. split.
    + intros v. rewrite HU, IndexOfInt_spec. setoid_rewrite elem_of_cons. case_bool_decide as Hi.
      * rewrite elem_of_union, elem_of_singleton. split.
        -- intros [[->|]|(j & ? & ?)]; [right; exists i; auto|by left|right; exists j; tauto].
        -- intros [?|(j & [->|?] & ? & Hj)]; [auto| |right; eauto]. left. left. congruence.
      * split; [intros [?|(j & ? & ?)]; [auto|right; exists j; tauto]|].
        intros [?|(j & [->|?] & ? & Hj)]; [auto|done|right; eauto].
    + unfold valid in *. cbn. rewrite Hcall0, Hvalid. by rewrite bool_decide_eq_true_2 by eauto.
Qed.

(** *** One block *)
Section Refinement.
Context (DecodeValidationData : string → outcome (list Z)).

Lemma AddMissingSignature_counts data shard committee h s s' :
  counts_on (λ sh, sh ≠ shard) h s → NoDup committee → Z.of_nat (List.length h) < word64 - 1 →
  AddMissingSignature DecodeValidationData data shard committee s = Ok s' →
  ∃ idxs, DecodeValidationData data = Ok idxs ∧
    counts_history (newBlock shard committee idxs :: h) s' ∧ penalties s' = penalties s ∧
    dom (missingSignature s') = dom (missingSignature s).
Proof.
  intros [Hc Hcom Hidx Hlast] Hnd Hlen H. unfold AddMissingSignature in H. inv_ok.
  apply collectSigned_Ok in Hcall0 as [-> Hvalid]. exists a. split; [done|]. split; [|split; [done|]].
  - constructor; cbn.
    + intros v c. rewrite foldl_updateCount by done.
      pose proof (count_bounds (hadToSign v) h). pose proof (count_bounds (missed v) h).
      unfold hadToSign at 1, missed at 1. cbn. case_decide as Hv.
      * intros (c0 & (Ha & Hm)%Hc & ->)%fmap_Some. rewrite bool_decide_eq_true_2 by done. cbn.
        unfold add64. rewrite u64_small by (unfold in_u64; lia). split; [lia|].
        destruct (decide (v ∈ signersAt committee a)) as [Hs|Hs].
        -- rewrite bool_decide_eq_true_2 by done. cbn. lia.
        -- rewrite bool_decide_eq_false_2 by done. cbn. rewrite u64_small by (unfold in_u64; lia). lia.
      * intros (Ha & Hm)%Hc. rewrite bool_decide_eq_false_2 by done. cbn. lia.
    + intros sh. destruct (shard =? sh) eqn:E.
      * apply Z.eqb_eq in E as <-. by rewrite lookup_insert_eq.
      * rewrite lookup_insert_ne by lia. apply Hcom.
    + intros sh. destruct (shard =? sh) eqn:E.
      * apply Z.eqb_eq in E as <-. by rewrite lookup_insert_eq.
      * rewrite lookup_insert_ne by lia. apply Hidx.
    + intros sh b _. destruct (shard =? sh) eqn:E; [intros [= <-]; by split|apply Hlast; lia].
  - cbn. apply set_eq. intros v. rewrite !elem_of_dom, foldl_updateCount by done.
    case_decide; [by rewrite fmap_is_Some|done].
Qed.

(** Late signatures change the last block of the shard. *)
Lemma lastOf_creditLast shard sh late h : sh ≠ shard → lastOf sh (creditLast shard late h) = lastOf sh h.
Proof.
  intros Hne. induction h as [|b h IH]; [done|]. cbn [creditLast]. destruct (sbShard b =? shard) eqn:E; cbn [lastOf].
  - assert (sbShard (credit late b) = sbShard b) as -> by (unfold credit; by case_match).
    by rewrite (proj2 (Z.eqb_neq (sbShard b) sh)) by lia.
  - destruct (sbShard b =? sh); [done|apply IH].
Qed.

Lemma lastOf_creditLast_eq shard late h b : lastOf shard h = Some b →
  lastOf shard (creditLast shard late h) = Some (credit late b).
Proof.
  induction h as [|b' h IH]; [done|]. cbn [lastOf creditLast]. destruct (sbShard b' =? shard) eqn:E; cbn [lastOf].
  - intros [= ->]. assert (sbShard (credit late b) = sbShard b) as -> by (unfold credit; by case_match).
    by rewrite E.
  - rewrite E. apply IH.
Qed.

Lemma count_creditLast f shard late h :
  count f (creditLast shard late h) =
  count f h + match lastOf shard h with
              | None => 0
              | Some b => (if f (credit late b) then 1 else 0) - (if f b then 1 else 0)
              end.
Proof.
  induction h as [|b h IH]; [done|]. cbn [creditLast lastOf]. destruct (sbShard b =? shard); cbn [count]; [lia|].
  rewrite IH. lia.
Qed.

Lemma creditLast_none shard late h : lastOf shard h = None → creditLast shard late h = h.
Proof.
  induction h as [|b h IH]; [done|]. cbn [lastOf creditLast]. destruct (sbShard b =? shard); [done|].
  intros ?. by rewrite IH.
Qed.

Lemma creditLast_same shard late h b : lastOf shard h = Some b → credit late b = b → creditLast shard late h = h.
Proof.
  induction h as [|b' h IH]; [done|]. cbn [lastOf creditLast]. destruct (sbShard b' =? shard).
  - intros [= ->] Hb. by rewrite Hb.
  - intros ??. by rewrite IH.
Qed.

Lemma length_creditLast shard late h : List.length (creditLast shard late h) = List.length h.
Proof. induction h as [|b h IH]; [done|]. cbn. destruct (_ =? _); cbn; by rewrite ?IH. Qed.

Lemma AddPreviousMissignSignature_counts data shard h s s' :
  counts_history h s → Z.of_nat (List.length h) < word64 →
  AddPreviousMissignSignature DecodeValidationData data shard s = Ok s' →
  counts_on (λ sh, sh ≠ shard)
    (match DecodeValidationData data with Ok late => creditLast shard late h | _ => h end) s' ∧
  penalties s' = penalties s ∧ dom (missingSignature s') = dom (missingSignature s).
Proof.
  intros Hh Hlen H. assert (Hon : counts_on (λ sh, sh ≠ shard) h s).
  { destruct Hh as [Hc Hcom Hidx Hlast]. constructor; try done. intros sh b _. by apply Hlast. }
  destruct Hh as [Hc Hcom Hidx Hlast]. unfold AddPreviousMissignSignature in H.
  rewrite Hcom, Hidx in H. destruct (lastOf shard h) as [b|] eqn:Hb; cbn [fmap option_fmap option_map default] in H.
  2: { injection H as <-. split; [|done]. destruct (DecodeValidationData data); try done. by rewrite creditLast_none. }
  cbn [from_option id] in H. destruct (_ || _) eqn:E1.
  { injection H as <-. split; [|done]. destruct (DecodeValidationData data) as [late|e| |]; try done.
    rewrite (creditLast_same _ _ _ b); [done|done|]. unfold credit. by rewrite E1. }
  destruct (DecodeValidationData data) as [late|e| |]; try done. cbn [mbind outcome_bind] in H.
  destruct (_ <=? _)%nat eqn:E2.
  { injection H as <-. split; [|done]. rewrite (creditLast_same _ _ _ b); [done|done|].
    unfold credit. by rewrite E1, E2. }
  inv_ok. apply collectUncounted_Ok in Hcall as [HU Hvalid].
  destruct (Hlast shard b I Hb) as [Hnd Hsig].
  assert (Hcredit : credit late b = Build_SignedBlock (sbShard b) (sbCommittee b) (sbCounted b)
                                      (signersAt (sbCommittee b) late ∪ sbSigners b)).
  { unfold credit. by rewrite E1, E2, Hvalid. }
  split; [|split; [done|]].
  - constructor; cbn.
    + intros v c. rewrite foldl_updateCount by done. rewrite !count_creditLast, Hb, Hcredit.
      unfold hadToSign at 2 3, missed at 2 3. cbn [sbCommittee sbSigners].
      case_decide as Hv; [|intros (Ha & Hm)%Hc; rewrite bool_decide_eq_false_2 by done; cbn; lia].
      intros (c0 & (Ha & Hm)%Hc & ->)%fmap_Some. rewrite bool_decide_eq_true_2 by done. cbn [andb].
      unfold revertBlock. pose proof (count_bounds (missed v) h).
      destruct (decide (v ∈ a)) as [Hin|Hnot]; cbn.
      * split; [lia|]. apply HU in Hin as (i & Hi & Hic & Hiv).
        assert (Hsv : v ∉ sbSigners b).
        { rewrite Hsig. intros (j & Hj & Hjv)%elem_of_signersAt.
          by rewrite (memberOf_inj _ _ _ _ Hnd Hiv Hjv) in Hic. }
        rewrite (bool_decide_eq_false_2 _ Hsv), (bool_decide_eq_true_2 (v ∈ _ ∪ _));
          [|apply elem_of_union; left; apply elem_of_signersAt; by exists i].
        assert (Hpos : 1 ≤ count (missed v) h); [|cbn; rewrite (proj2 (Z.ltb_lt _ _)); lia].
        clear -Hb Hv Hsv. induction h as [|b' h IH]; [done|]. cbn [lastOf count] in *.
        pose proof (count_bounds (missed v) h). destruct (sbShard b' =? shard).
        -- injection Hb as ->. unfold missed at 1. rewrite bool_decide_eq_true_2, bool_decide_eq_false_2 by done. cbn. lia.
        -- specialize (IH Hb). destruct (missed v b'); lia.
      * split; [lia|]. assert (Heq : bool_decide (v ∈ signersAt (sbCommittee b) late ∪ sbSigners b) =
                                      bool_decide (v ∈ sbSigners b)).
        { apply bool_decide_ext. rewrite elem_of_union. split; [|by right]. intros [Hl|]; [|done].
          apply elem_of_signersAt in Hl as (i & Hi & Hiv). rewrite Hsig. apply elem_of_signersAt.
          destruct (decide (i ∈ sbCounted b)); [by exists i|]. destruct Hnot. apply HU. by exists i. }
        rewrite Heq. lia.
    + intros sh. rewrite Hcom. destruct (decide (sh = shard)) as [->|Hne]; [|by rewrite lastOf_creditLast].
      by rewrite Hb, (lastOf_creditLast_eq _ _ _ _ Hb), Hcredit.
    + intros sh. rewrite Hidx. destruct (decide (sh = shard)) as [->|Hne]; [|by rewrite lastOf_creditLast].
      by rewrite Hb, (lastOf_creditLast_eq _ _ _ _ Hb), Hcredit.
    + intros sh b' Hne. rewrite lastOf_creditLast by done. by apply Hlast.
  - cbn. apply set_eq. intros v. rewrite !elem_of_dom, foldl_updateCount by done.
    case_decide; [by rewrite fmap_is_Some|done].
Qed.

Lemma collectUncounted_valid committee counted idxs : valid committee idxs = true →
  is_Ok (collectUncounted committee counted idxs).
Proof.
  unfold collectUncounted. intros Hv. generalize (∅ : gset string) as acc. revert Hv.
  induction idxs as [|i idxs IH]; intros Hv acc; cbn [foldl]; [by eexists|].
  unfold valid in *. cbn in Hv. apply andb_true_iff in Hv as [Hi Hv].
  apply bool_decide_eq_true in Hi as [v Hi]. apply memberAt_Ok in Hi. rewrite Hi. by apply IH.
Qed.

(** A failing call leaves the counter alone, and its signatures are not credited. *)
Lemma AddPreviousMissignSignature_error data shard h s e :
  counts_history h s → AddPreviousMissignSignature DecodeValidationData data shard s = Err e →
  match DecodeValidationData data with Ok late => creditLast shard late h | _ => h end = h.
Proof.
  intros [_ Hcom Hidx _] H. unfold AddPreviousMissignSignature in H. rewrite Hcom, Hidx in H.
  destruct (DecodeValidationData data) as [late| | |]; [|done..].
  destruct (lastOf shard h) as [b|] eqn:Hb; [|by rewrite creditLast_none].
  apply (creditLast_same _ _ _ b); [done|]. cbn [fmap option_fmap option_map default from_option id] in H.
  unfold credit. destruct (_ || _); [done|]. cbn [mbind outcome_bind] in H.
  destruct (_ <=? _)%nat; [done|]. cbn [orb]. destruct (valid (sbCommittee b) late) eqn:Hv; [|done].
  by destruct (collectUncounted_valid _ (sbCounted b) _ Hv) as [U HU]; rewrite HU in H.
Qed.

(** *** All blocks of a beacon block *)
Context (BlockTimeParam : list (string * Z)).
Context (CommitteesFromViewHashForShard : string → Z → outcome (list string)).
Context (tsManagers : gmap Z TSManager) (proposerLength : Z).

(** The committee that had to sign a block, if it is counted at all. *)
Definition committeeFor (shard : Z) (b : CountedBlock) : option (list string) :=
  match cbCommitteeFromBlock b with
  | None => None
  | Some beaconHash =>
      match (committees ← CommitteesFromViewHashForShard beaconHash shard;
             signingCommittee BlockTimeParam (tsManagers !! shard)
               proposerLength b committees) with
      | Ok committee => Some committee
      | _ => None
      end
  end.

Definition recordBlock (shard : Z) (b : CountedBlock) (committee : list string) (h : list SignedBlock) :
    list SignedBlock :=
  let h := if decide (cbPreviousValidationData b = "") then h
           else match DecodeValidationData (cbPreviousValidationData b) with
                | Ok late => creditLast shard late h
                | _ => h
                end in
  match DecodeValidationData (cbValidationData b) with
  | Ok idxs => newBlock shard committee idxs :: h
  | _ => h
  end.

Definition recordCounted (shard : Z) (h : list SignedBlock) (b : CountedBlock) : list SignedBlock :=
  if cbHeight b =? 1 then h
  else match committeeFor shard b with Some committee => recordBlock shard b committee h | None => h end.

Definition historyOf (allShardStates : list (Z * list CountedBlock)) (h : list SignedBlock) : list SignedBlock :=
  foldl (λ h '(shard, bs), foldl (recordCounted shard) h bs) h allShardStates.

Definition blocksIn (allShardStates : list (Z * list CountedBlock)) : nat :=
  sum_list ((λ sb, List.length sb.2) <$> allShardStates).

Lemma FilterSigningCommitteeV3_NoDup (l : list string) i : NoDup l → NoDup (FilterSigningCommitteeV3 l i).
Proof.
  intros Hnd. unfold FilterSigningCommitteeV3. apply (sublist_NoDup _ ((imap pair l).*2)).
  - rewrite fmap_imap. change (NoDup (imap (const id) l)). by rewrite imap_const, list_fmap_id.
  - apply fmap_sublist, sublist_filter.
Qed.

(** The committees the beacon chain fixes have no duplicates. *)
Context (Hcommittees : ∀ beaconHash shard committee,
  CommitteesFromViewHashForShard beaconHash shard = Ok committee → NoDup committee).

Lemma signingCommittee_NoDup ts b committees committee : NoDup committees →
  signingCommittee BlockTimeParam ts proposerLength b committees = Ok committee → NoDup committee.
Proof.
  intros Hnd H. unfold signingCommittee in H. destruct (_ && _); [|by injection H as <-].
  apply outcome_bind_Ok in H as (m & _ & H). apply outcome_bind_Ok in H as (ts' & _ & H).
  apply outcome_bind_Ok in H as ([v i] & _ & H). cbv beta iota in H.
  injection H as <-. by apply FilterSigningCommitteeV3_NoDup.
Qed.

Lemma countMissingSignatureV2_counts shard b h s s' :
  counts_history h s → Z.of_nat (List.length h) < word64 - 1 →
  countMissingSignatureV2 DecodeValidationData BlockTimeParam CommitteesFromViewHashForShard
    tsManagers proposerLength shard b s = Ok s' →
  let h' := match committeeFor shard b with Some committee => recordBlock shard b committee h | None => h end in
  counts_history h' s' ∧ (List.length h' ≤ S (List.length h))%nat ∧
  penalties s' = penalties s ∧ dom (missingSignature s') = dom (missingSignature s).
Proof.
  intros Hh Hlen H. unfold countMissingSignatureV2 in H. unfold committeeFor.
  destruct (cbCommitteeFromBlock b) as [beaconHash|]; [|injection H as <-; split_and!; [done|lia|done..]].
  apply outcome_bind_Ok in H as (a & Hcall & H). apply outcome_bind_Ok in H as (a0 & Hcall0 & H).
  apply outcome_bind_Ok in H as (a1 & Hcall1 & H). rewrite Hcall. cbn [mbind outcome_bind]. rewrite Hcall0.
  assert (Hnd : NoDup a0) by (eapply signingCommittee_NoDup; [by eapply Hcommittees|done]).
  unfold recordBlock.
  assert (Hprev : ∃ h1, counts_on (λ sh, sh ≠ shard) h1 a1 ∧ List.length h1 = List.length h ∧
    penalties a1 = penalties s ∧ dom (missingSignature a1) = dom (missingSignature s) ∧
    h1 = if decide (cbPreviousValidationData b = "") then h
         else match DecodeValidationData (cbPreviousValidationData b) with
              | Ok late => creditLast shard late h | _ => h end).
  { assert (Hweak : counts_on (λ sh, sh ≠ shard) h s).
    { destruct Hh as [Hc Hcom Hidx Hlast]. constructor; try done. intros sh b' _. by apply Hlast. }
    destruct (decide (cbPreviousValidationData b = "")); [injection Hcall1 as <-; by exists h|].
    unfold dropError in Hcall1.
    destruct (AddPreviousMissignSignature DecodeValidationData (cbPreviousValidationData b) shard s) as [s1|e| |] eqn:E;
      [| |done..]; injection Hcall1 as <-.
    - destruct (AddPreviousMissignSignature_counts _ _ _ _ _ Hh ltac:(lia) E) as (H1 & H2 & H3).
      eexists. split; [exact H1|]. split_and!; try done.
      destruct (DecodeValidationData _); try done. apply length_creditLast.
    - rewrite (AddPreviousMissignSignature_error _ _ _ _ _ Hh E). by exists h. }
  destruct Hprev as (h1 & Hh1 & Hl1 & Hp1 & Hd1 & Heq).
  destruct (AddMissingSignature_counts _ _ _ _ _ _ Hh1 Hnd ltac:(lia) H) as (idxs & Hdec & Hh' & Hp & Hd).
  rewrite <- Heq, Hdec. split; [done|]. split; [cbn; lia|]. split; congruence.
Qed.

Lemma countShard_counts shard bs h s s' :
  counts_history h s → Z.of_nat (List.length h + List.length bs) < word64 - 1 →
  foldl (λ (acc : outcome MissingSignatureCounter) b,
      s ← acc;
      if cbHeight b =? 1 then mret s
      else countMissingSignatureV2 DecodeValidationData BlockTimeParam CommitteesFromViewHashForShard
             tsManagers proposerLength shard b s) (Ok s) bs = Ok s' →
  let h' := foldl (recordCounted shard) h bs in
  counts_history h' s' ∧ (List.length h' ≤ List.length h + List.length bs)%nat ∧
  penalties s' = penalties s ∧ dom (missingSignature s') = dom (missingSignature s).
Proof.
  revert h s. induction bs as [|b bs IH]; intros h s Hh Hlen H; cbn [foldl List.length] in *.
  { injection H as <-. split_and!; [done|lia|done..]. }
  cbn [mbind outcome_bind] in H. unfold recordCounted at 2 4. destruct (cbHeight b =? 1).
  - destruct (IH h s Hh ltac:(lia) H) as (H1 & H2 & H3 & H4). split_and!; [done|lia|done..].
  - destruct (countMissingSignatureV2 _ _ _ _ _ _ _ _) as [s1|e| |] eqn:E;
      [|apply foldl_strict in H as [s1 ?]; [done|intros acc x s2 (a & -> & _)%outcome_bind_Ok; by eexists]..].
    destruct (countMissingSignatureV2_counts _ _ _ _ _ Hh ltac:(lia) E) as (H1 & H2 & H3 & H4).
    destruct (IH _ _ H1 ltac:(lia) H) as (H5 & H6 & H7 & H8). split_and!; [done|lia|congruence..].
Qed.

(** Counting the blocks of a beacon block refines recording them in the history. *)
Lemma countMissingSignature_counts allShardStates h s s' :
  counts_history h s → Z.of_nat (List.length h + blocksIn allShardStates) < word64 - 1 →
  countMissingSignature DecodeValidationData BlockTimeParam CommitteesFromViewHashForShard
    tsManagers proposerLength allShardStates s = Ok s' →
  counts_history (historyOf allShardStates h) s' ∧
  penalties s' = penalties s ∧ dom (missingSignature s') = dom (missingSignature s).
Proof.
  unfold countMissingSignature, historyOf. revert h s.
  induction allShardStates as [|[shard bs] rest IH]; intros h s Hh Hlen H; cbn [foldl] in *; [by injection H as <-|].
  cbn [blocksIn fmap list_fmap sum_list snd] in Hlen. unfold blocksIn in *. cbn in Hlen.
  destruct (foldl _ (Ok s) bs) as [s1|e| |] eqn:E.
  2-4: apply foldl_strict in H as [s1 ?]; [done|]; intros acc [sh bs'] s2 H2;
       apply foldl_strict in H2; [done|]; intros acc' b s3 (a & -> & _)%outcome_bind_Ok; by eexists.
  destruct (countShard_counts shard bs h s s1 Hh ltac:(lia) E) as (H1 & H2 & H3 & H4).
  destruct (IH (foldl (recordCounted shard) h bs) s1 H1 ltac:(lia) H) as (H5 & H6 & H7).
  split_and!; [done|congruence..].
Qed.

End Refinement.

(** ** Who is slashed *)
Definition signed (v : string) (h : list SignedBlock) : Z := count (hadToSign v) h - count (missed v) h.

(** The default rule punishes who missed half of the blocks or more. *)
Lemma getSlashingPenalty_default m t : 0 ≤ m → 0 ≤ t → m * 100 < word64 →
  IsEmpty (getSlashingPenalty m t defaultRule) = negb ((0 <? t) && (t <=? 2 * m)).
Proof.
  intros Hm Ht Hb. unfold getSlashingPenalty. destruct (t =? 0) eqn:E.
  { by rewrite (proj2 (Z.ltb_ge 0 t)) by lia. }
  rewrite (proj2 (Z.ltb_lt 0 t)) by lia. cbn [foldl defaultRule MinPercent andb].
  rewrite u64_small by (unfold in_u64; lia).
  assert (Hiff : (50 <=? m * 100 / t) = (t <=? 2 * m)); [|rewrite Hiff; by destruct (t <=? 2 * m)].
  destruct (t <=? 2 * m) eqn:E'.
  - apply Z.leb_le, Z.div_le_lower_bound; lia.
  - apply Z.leb_gt, Z.div_lt_upper_bound; lia.
Qed.

Lemma slashed_expected expected s v e : expected !! v = Some e →
  v ∈ dom (GetAllSlashingPenaltyWithExpectedTotalBlock expected s) ↔ IsEmpty (expectedPenalty s v e) = false.
Proof.
  intros He. unfold GetAllSlashingPenaltyWithExpectedTotalBlock, nonEmpty. rewrite elem_of_dom. split.
  - intros [p Hp]. apply map_lookup_filter_Some in Hp as [Hp Hne].
    rewrite map_lookup_imap, He in Hp. cbn in Hp. by injection Hp as <-.
  - intros Hne. exists (expectedPenalty s v e). apply map_lookup_filter_Some. split; [|done].
    by rewrite map_lookup_imap, He.
Qed.

Lemma slashed_iff_counts h s v c expected e :
  counts_history h s → penalties s = defaultRule → missingSignature s !! v = Some c →
  expected !! v = Some e → 0 ≤ e → e * 100 < word64 → Z.of_nat (List.length h) < word64 →
  v ∈ dom (GetAllSlashingPenaltyWithExpectedTotalBlock expected s) ↔ 0 < e ∧ 2 * signed v h ≤ e.
Proof.
  intros Hh Hrule Hc He Hpos Hb Hlen. rewrite (slashed_expected _ _ _ _ He).
  unfold expectedPenalty. rewrite Hc, Hrule. destruct (ch_counts _ _ _ Hh v c Hc) as [-> ->].
  pose proof (count_bounds (hadToSign v) h). pose proof (count_bounds (missed v) h). pose proof (missed_le v h).
  fold (signed v h). assert (Hsub : sub64 (count (hadToSign v) h) (count (missed v) h) = signed v h).
  { unfold signed. apply sub64_exact; [unfold in_u64|]; lia. }
  rewrite Hsub. unfold signed in *. destruct (e <? _) eqn:E.
  - rewrite getSlashingPenalty_default by lia. rewrite negb_false_iff, andb_true_iff. lia.
  - rewrite sub64_exact by (unfold in_u64; lia). rewrite getSlashingPenalty_default by lia.
    rewrite negb_false_iff, andb_true_iff. lia.
Qed.

(** C22: slashing is exact.  Whatever blocks the beacon chain counts, shard by shard and with
    late signatures arriving a block later, the counter refines the plain history of who had to
    sign and who signed: a validator it follows is slashed if and only if blocks were expected
    of its shard and it signed at most half of them. *)
Theorem slashing_exact DecodeValidationData BlockTimeParam CommitteesFromViewHashForShard
    tsManagers proposerLength allShardStates h s s' v c expected e :
  (∀ beaconHash shard committee,
     CommitteesFromViewHashForShard beaconHash shard = Ok committee → NoDup committee) →
  counts_history h s → penalties s = defaultRule →
  Z.of_nat (List.length h + blocksIn allShardStates) < word64 - 1 →
  countMissingSignature DecodeValidationData BlockTimeParam CommitteesFromViewHashForShard
    tsManagers proposerLength allShardStates s = Ok s' →
  missingSignature s !! v = Some c → expected !! v = Some e → 0 ≤ e → e * 100 < word64 →
  let h' := historyOf DecodeValidationData BlockTimeParam CommitteesFromViewHashForShard
              tsManagers proposerLength allShardStates h in
  counts_history h' s' ∧
  (Z.of_nat (List.length h') < word64 →
   v ∈ dom (GetAllSlashingPenaltyWithExpectedTotalBlock expected s') ↔ 0 < e ∧ 2 * signed v h' ≤ e).
Proof.
  intros Hcom Hh Hrule Hlen Hrun Hc He Hpos Hb h'.
  destruct (countMissingSignature_counts _ _ _ _ _ Hcom _ _ _ _ Hh Hlen Hrun) as (Hh' & Hp & Hd).
  split; [done|]. intros Hl. assert (Hv : v ∈ dom (missingSignature s')) by (rewrite Hd; by apply elem_of_dom_2 in Hc).
  apply elem_of_dom in Hv as [c' Hc']. eapply slashed_iff_counts; try done. congruence.
Qed.

(** A fresh counter has the empty history. *)
Lemma Reset_counts committees s : counts_history [] (Reset committees s).
Proof.
  constructor; cbn; try done. intros v c Hv. unfold freshCounts in Hv.
  apply elem_of_list_to_map_2, list_elem_of_fmap in Hv as (v' & [= -> ->] & _). done.
Qed.

(** The expectation: no less than what the shard produced, and no less than the mean. *)
Lemma CalculateExpectedTotalBlock_spec version blocks :
  blocks ≠ ∅ → (∀ sh n, blocks !! sh = Some n → 0 ≤ n) → map_sum (λ n, n) blocks < word64 →
  version < BLOCK_PRODUCINGV3_VERSION ∨ INSTANT_FINALITY_VERSION_V2 ≤ version →
  CalculateExpectedTotalBlock version blocks =
    Ok (Z.max (map_sum (λ n, n) blocks / Z.of_nat (size blocks)) <$> blocks).
Proof.
  intros Hne Hpos Hsum Hver. unfold CalculateExpectedTotalBlock.
  assert (Hsub : ((λ n, if (BLOCK_PRODUCINGV3_VERSION <=? version) && (version <? INSTANT_FINALITY_VERSION_V2)
                        then n / 2 else n) <$> blocks) = blocks).
  { rewrite <- (map_fmap_id blocks) at 2. apply map_fmap_ext. intros sh n _.
    destruct (_ && _) eqn:E; [|done]. apply andb_true_iff in E. lia. }
  rewrite Hsub. assert (Hnn : 0 ≤ map_sum (λ n, n) blocks) by (apply map_sum_nonneg; intros; by eapply Hpos).
  rewrite u64_small by (unfold in_u64; lia).
  assert (Hsize : 0 < Z.of_nat (size blocks)).
  { destruct (size blocks) eqn:E; [|lia]. by apply map_size_empty_inv in E. }
  unfold goDiv. rewrite (proj2 (Z.eqb_neq _ _)) by lia. cbn. f_equal. apply map_fmap_ext. intros sh n _.
  rewrite Z.quot_div_nonneg by lia. destruct (n <=? _) eqn:E; lia.
Qed.

(** ** A concrete epoch: one shard, two blocks; the second validator never signs, the third
    signs the first block late. *)
Module Epoch.

Definition decode (data : string) : outcome (list Z) :=
  if bool_decide (data = "first") then Ok [0]
  else if bool_decide (data = "all but one") then Ok [0; 2]
  else Err "unexpected end of JSON input".

Definition committee : list string := ["a"; "b"; "c"].

Definition blocks : list (Z * list CountedBlock) :=
  [(0, [Build_CountedBlock "first" "" (Some "beacon") 2 100 10;
        Build_CountedBlock "all but one" "all but one" (Some "beacon") 3 140 10])].

Definition start : MissingSignatureCounter := Reset committee (NewDefaultSignatureCounter []).

Definition counted : outcome MissingSignatureCounter :=
  countMissingSignature decode [] (λ _ _, Ok committee) ∅ 3 blocks start.

Definition final : MissingSignatureCounter := match counted with Ok s => s | _ => start end.

Definition history : list SignedBlock := historyOf decode [] (λ _ _, Ok committee) ∅ 3 blocks [].

Example missing_counts : missingSignature final =
  {[ "a" := Build_MissingSignature 2 0; "b" := Build_MissingSignature 2 2; "c" := Build_MissingSignature 2 0 ]}.
Proof. by vm_compute. Qed.

End Epoch.

Lemma slashing_exact_witness :
  counts_history Epoch.history Epoch.final ∧ signed "b" Epoch.history = 0 ∧
  "b" ∈ dom (GetAllSlashingPenaltyWithExpectedTotalBlock {[ "b" := 2 ]} Epoch.final).
Proof.
  destruct (slashing_exact Epoch.decode [] (λ _ _, Ok Epoch.committee) ∅ 3 Epoch.blocks []
              Epoch.start Epoch.final "b" NewMissingSignature {[ "b" := 2 ]} 2) as [Hh Hiff].
  - intros _ _ committee [= <-]. apply (bool_decide_eq_true_1 _). by vm_compute.
  - apply Reset_counts.
  - reflexivity.
  - by vm_compute.
  - by vm_compute.
  - by vm_compute.
  - by vm_compute.
  - lia.
  - by vm_compute.
  - split; [exact Hh|]. split; [by vm_compute|]. apply Hiff; [by vm_compute|]. by vm_compute.
Defined.
