(* ===== verification/Wallet.v ===== *)
(** The text of keys: base58 ([common/base58]) and the wallet's encoding of payment addresses,
    private, read-only and one-time-address keys ([wallet/hdwallet.go]).

    An address comes from a transaction or a block as text, so its decoder meets any text
    whatever.  The decoder takes lengths and positions from the bytes of the text and looks at
    the checksum last; slicing and indexing are modelled with Go's bounds (an index against the
    length, a slice against the capacity), so that what such a text does is a value here.  The
    hashes and the derivation of a key set from a private key are parameters, and so is the
    capacity the runtime gives a slice of a certain length. *)
From S2P Require Import Prelude.
From Stdlib Require Import Ascii String.

Local Open Scope Z_scope.

(** Bytes are numbers from 0 to 255. *)
Abbreviation bytes := (list Z).
Definition is_byte (b : Z) : Prop := 0 ≤ b < 256.
Definition u32 (x : Z) : Z := x mod 4294967296.

(** ** [base58util.go] *)
Definition BTCAlphabet : string := "123456789ABCDEFGHJKLMNPQRSTUVWXYZabcdefghijkmnopqrstuvwxyz".

(** [alphabet.encode[d]] and [alphabet.decode[r]], -1 being [None]. *)
Definition alphabet_encode (d : Z) : outcome ascii :=
  match String.get (Z.to_nat d) BTCAlphabet with Some c => Ok c | None => Panic end.

Fixpoint position (c : ascii) (s : string) : option Z :=
  match s with
  | EmptyString => None
  | String a s => if Ascii.eqb a c then Some 0 else Z.succ <$> position c s
  end.
Definition alphabet_decode (r : ascii) : option Z := position r BTCAlphabet.

Fixpoint leading {A} (p : A → bool) (l : list A) : nat :=
  match l with
  | [] => 0
  | a :: l => if p a then S (leading p l) else 0
  end.

(** *** Encoding *)

(** One byte is added to the number in [buf]; [k] is [j + 1] and [high1] is [high + 1]. *)
Fixpoint addByte (k high1 : nat) (carry : Z) (buf : list Z) : outcome (list Z * nat) :=
  match k with
  | O => if carry =? 0 then Ok (buf, O) else Panic
  | S j =>
      if (high1 <? k)%nat || negb (carry =? 0) then
        match buf !! j with
        | None => Panic
        | Some d =>
            let carry := u32 (carry + 256 * d) in
            addByte j high1 (carry / 58) (<[j := carry mod 58]> buf)
        end
      else Ok (buf, k)
  end.

Fixpoint addBytes (bin : bytes) (size high1 : nat) (buf : list Z) : outcome (list Z) :=
  match bin with
  | [] => Ok buf
  | b :: bin => '(buf, high1) ← addByte size high1 b buf; addBytes bin size high1 buf
  end.

Fixpoint encodeDigits (l : list Z) : outcome string :=
  match l with
  | [] => Ok EmptyString
  | d :: l => c ← alphabet_encode d; s ← encodeDigits l; Ok (String c s)
  end.

Fixpoint repeatChar (n : nat) (c : ascii) (s : string) : string :=
  match n with O => s | S n => String c (repeatChar n c s) end.

Definition FastBase58Encoding (bin : bytes) : outcome string :=
  zero ← alphabet_encode 0;
  let zcount := leading (Z.eqb 0) bin in
  let size := ((List.length bin - zcount) * 138 / 100 + 1)%nat in
  buf ← addBytes (drop zcount bin) size size (replicate size 0);
  s ← encodeDigits (drop (leading (Z.eqb 0) buf) buf);
  Ok (repeatChar zcount zero s).

(** *** Decoding *)

(** [for j := outisz - 1; j >= 0; j--]: the words are multiplied by 58 from the last to the
    first. *)
Fixpoint addDigit (outi : list Z) (c : Z) : list Z * Z :=
  match outi with
  | [] => ([], c)
  | w :: outi =>
      let '(outi, c) := addDigit outi c in
      let t := u64 (w * 58 + c) in
      (Z.land t 4294967295 :: outi, Z.land (u32 (Z.shiftr t 32)) 63)
  end.

(** A byte over 127 starts (or is) a rune over 127. *)
Fixpoint addDigits (b58u : list ascii) (zmask : Z) (outi : list Z) : outcome (list Z) :=
  match b58u with
  | [] => Ok outi
  | r :: b58u =>
      if (127 <? nat_of_ascii r)%nat then Err "High-bit set on invalid digit"
      else match alphabet_decode r with
      | None => Err "Invalid base58 digit"
      | Some c =>
          let '(outi, c) := addDigit outi c in
          if 0 <? c then Err "Output number too big (carry to the next int32)"
          else match outi !! 0%nat with
          | None => Panic
          | Some w =>
              if negb (Z.land w zmask =? 0) then Err "Output number too big (last int32 filled too far)"
              else addDigits b58u zmask outi
          end
      end
  end.

(** The last [n] bytes of a word, the highest first: [mask] runs down from [(n-1)*8] to 0. *)
Fixpoint wordBytes (n : nat) (w : Z) : bytes :=
  match n with
  | O => []
  | S n => Z.shiftr w (8 * Z.of_nat n) mod 256 :: wordBytes n w
  end.

Definition FastBase58Decoding (str : string) : outcome bytes :=
  let b58u := list_ascii_of_string str in
  let b58sz := List.length b58u in
  if (b58sz =? 0)%nat then Err "zero length string"
  else
    zero ← alphabet_encode 0;
    let outisz := ((b58sz + 3) / 4)%nat in
    let rest := (b58sz mod 4)%nat in
    let zmask := if (0 <? rest)%nat then u32 (Z.shiftl 4294967295 (8 * Z.of_nat rest)) else 0 in
    let bytesleft := if (0 <? rest)%nat then rest else 4%nat in
    let zcount := leading (Ascii.eqb zero) b58u in
    outi ← addDigits b58u zmask (replicate outisz 0);
    let binu := match outi with
                | [] => []
                | w :: outi => wordBytes bytesleft w ++ mjoin (wordBytes 4 <$> outi)
                end in
    let n := leading (Z.eqb 0) binu in
    Ok (if (n <? List.length binu)%nat then drop (n - zcount) binu else binu).

(** ** [base58check.go] *)
Definition CheckSumLen : nat := 4.

Class WalletOps := {
  HashB : bytes → bytes;
  SHA256 : bytes → bytes;
  (** the payment address, the read-only key and the one-time-address key of a private key *)
  GeneratePaymentAddress : bytes → bytes * bytes * bytes;
  GenerateViewingKey : bytes → bytes * bytes;
  GenerateOTAKey : bytes → bytes * bytes;
  (** [GetPublicSpend().ToBytesS()] and [GetOTASecretKey().ToBytesS()] of an OTA key's halves; an
      invalid point or scalar is nil, whose method panics *)
  publicSpendBytes : bytes → outcome bytes;
  otaSecretBytes : bytes → outcome bytes;
  (** the capacity of a slice of so many bytes that [append] makes *)
  roundupsize : nat → nat;
}.

(** What the program relies on. *)
Class WalletLaws `{WalletOps} := {
  HashB_bytes b : Forall is_byte (HashB b);
  SHA256_bytes b : Forall is_byte (SHA256 b);
  HashB_length b : List.length (HashB b) = 32%nat;
  SHA256_length b : List.length (SHA256 b) = 32%nat;
  roundupsize_le n : (n ≤ roundupsize n)%nat;
}.

Section Wallet.
Context `{WalletOps}.

Definition ChecksumFirst4Bytes (data : bytes) (isNewCheckSum : bool) : bytes :=
  take CheckSumLen (if isNewCheckSum then SHA256 (SHA256 data) else HashB data).

(** [Base58Check.NewEncode] ([isNew]) and [Base58Check.Encode]; the cache is keyed by the input
    without its version. *)
Definition Base58Check_Encode (isNew : bool) (cache : gmap (list Z) string) (input : bytes) (version : Z)
    : outcome (string * gmap (list Z) string) :=
  match cache !! input with
  | Some s => Ok (s, cache)
  | None =>
      let b := version :: input in
      s ← FastBase58Encoding (b ++ ChecksumFirst4Bytes b isNew);
      Ok (s, <[input := s]> cache)
  end.

Definition Base58Check_Decode (input : string) : outcome (bytes * Z) :=
  let decoded := match FastBase58Decoding input with Err _ => Ok [] | r => r end in
  decoded ← decoded;
  if (List.length decoded <? 5)%nat then Err "invalid format: version and/or checksum bytes missing"
  else
    let n := (List.length decoded - CheckSumLen)%nat in
    let body := take n decoded in
    let cksum := drop n decoded in
    if negb (bool_decide (ChecksumFirst4Bytes body true = cksum)) &&
       negb (bool_decide (ChecksumFirst4Bytes body false = cksum))
    then Err "checksum error"
    else match body with
    | version :: payload => Ok (payload, version)
    | [] => Panic
    end.

(** ** [hdwallet.go] *)
Definition PriKeyType : Z := 0.
Definition PaymentAddressType : Z := 1.
Definition ReadonlyKeyType : Z := 2.
Definition OTAKeyType : Z := 3.

Definition privKeySerializedBytesLen : nat := 75.
Definition paymentAddrSerializedBytesLen : nat := 71.
Definition readOnlyKeySerializedBytesLen : nat := 71.
Definition otaKeySerializedBytesLen : nat := 71.
Definition Ed25519KeySize : nat := 32.
Definition PrivateKeySize : nat := 32.

Definition burnAddress1BytesDecode : bytes :=
  [1; 32; 99; 183; 246; 161; 68; 172; 228; 222; 153; 9; 172; 39; 208; 245; 167; 79; 11; 2; 114; 65; 241; 69;
   85; 40; 193; 104; 199; 79; 70; 4; 53; 0; 0; 163; 228; 236; 208].

(** An absent one-time public key is empty. *)
Record PaymentAddress := mkPaymentAddress { paPk : bytes; paTk : bytes; paOTAPublic : bytes }.
Record ViewingKey := mkViewingKey { vkPk : bytes; vkRk : bytes }.
Record OTAKey := mkOTAKey { otaPk : bytes; otaSecret : bytes }.
Record KeySet := mkKeySet {
  ksPrivateKey : bytes;
  ksPaymentAddress : PaymentAddress;
  ksReadonlyKey : ViewingKey;
  ksOTAKey : OTAKey;
}.
Record KeyWallet := mkKeyWallet {
  Depth : Z;
  ChildNumber : bytes;
  ChainCode : bytes;
  kwKeySet : KeySet;
}.

Definition emptyKeySet : KeySet :=
  mkKeySet [] (mkPaymentAddress [] [] []) (mkViewingKey [] []) (mkOTAKey [] []).

(** [KeySet.InitFromPrivateKey] *)
Definition InitFromPrivateKey (privateKey : bytes) : outcome KeySet :=
  if negb (List.length privateKey =? PrivateKeySize)%nat then Err "invalid private key"
  else
    let '(pk, tk, ota) := GeneratePaymentAddress privateKey in
    let '(vpk, rk) := GenerateViewingKey privateKey in
    let '(opk, secret) := GenerateOTAKey privateKey in
    Ok (mkKeySet privateKey (mkPaymentAddress pk tk ota) (mkViewingKey vpk rk) (mkOTAKey opk secret)).

(** [data[i]] and [data[lo:hi]]: a slice may reach over the length, up to the capacity, where
    the bytes are zero. *)
Definition index (data : bytes) (i : nat) : outcome Z :=
  match data !! i with Some b => Ok b | None => Panic end.
Definition slice (data : bytes) (lo hi : nat) : outcome bytes :=
  let cap := roundupsize (List.length data) in
  if (lo <=? hi)%nat && (hi <=? cap)%nat
  then Ok (take (hi - lo) (drop lo (data ++ replicate (cap - List.length data) 0)))
  else Panic.

Definition deserializePriKey (data : bytes) : outcome KeyWallet :=
  if negb (List.length data =? privKeySerializedBytesLen)%nat then Err "invalid serialized key"
  else
    depth ← index data 1;
    childNumber ← slice data 2 6;
    chainCode ← slice data 6 38;
    keyLength ← index data 38;
    privateKey ← slice data 39 (39 + Z.to_nat keyLength);
    keySet ← InitFromPrivateKey privateKey;
    Ok (mkKeyWallet depth childNumber chainCode keySet).

Definition deserializePaymentAddress (data : bytes) : outcome KeyWallet :=
  let len := List.length data in
  if negb (bool_decide (burnAddress1BytesDecode = data)) &&
     negb (len =? paymentAddrSerializedBytesLen)%nat &&
     negb (len =? paymentAddrSerializedBytesLen + 1 + Ed25519KeySize)%nat
  then Err "length of payment address is not valid"
  else
    b1 ← index data 1;
    let apkKeyLength := Z.to_nat b1 in
    b2 ← index data (apkKeyLength + 2);
    let pkencKeyLength := Z.to_nat b2 in
    pk ← slice data 2 (2 + apkKeyLength);
    tk ← slice data (3 + apkKeyLength) (3 + apkKeyLength + pkencKeyLength);
    ota ← (if (paymentAddrSerializedBytesLen <? len)%nat then
             b3 ← index data (apkKeyLength + pkencKeyLength + 3);
             let otapkLength := Z.to_nat b3 in
             if negb (otapkLength =? Ed25519KeySize)%nat then Err "length of ota public key is not valid"
             else slice data (apkKeyLength + pkencKeyLength + 4) (apkKeyLength + pkencKeyLength + otapkLength + 4)
           else Ok []);
    Ok (mkKeyWallet 0 [] [] (mkKeySet [] (mkPaymentAddress pk tk ota) (mkViewingKey [] []) (mkOTAKey [] []))).

(** The read-only key and the one-time-address key: two keys, each after its length. *)
Definition twoKeys (data : bytes) (serializedLen : nat) : outcome (bytes * bytes) :=
  if negb (List.length data =? serializedLen)%nat then Err "invalid serialized key"
  else
    b1 ← index data 1;
    let firstLength := Z.to_nat b1 in
    if (List.length data <? firstLength + 3)%nat then Err "invalid key type"
    else
      b2 ← index data (firstLength + 2);
      let secondLength := Z.to_nat b2 in
      k1 ← slice data 2 (2 + firstLength);
      k2 ← slice data (3 + firstLength) (3 + firstLength + secondLength);
      Ok (k1, k2).

Definition deserializeKey (data : bytes) : outcome KeyWallet :=
  keyType ← index data 0;
  if keyType =? PriKeyType then deserializePriKey data
  else if keyType =? PaymentAddressType then deserializePaymentAddress data
  else if keyType =? ReadonlyKeyType then
    '(pk, rk) ← twoKeys data readOnlyKeySerializedBytesLen;
    Ok (mkKeyWallet 0 [] [] (mkKeySet [] (mkPaymentAddress [] [] []) (mkViewingKey pk rk) (mkOTAKey [] [])))
  else if keyType =? OTAKeyType then
    '(pk, secret) ← twoKeys data otaKeySerializedBytesLen;
    Ok (mkKeyWallet 0 [] [] (mkKeySet [] (mkPaymentAddress [] [] []) (mkViewingKey [] []) (mkOTAKey pk secret)))
  else Err "cannot detect key type".

Definition validChecksum (data : bytes) : outcome unit :=
  let n := (List.length data - 4)%nat in
  let cs2 := drop n data in
  if negb (bool_decide (ChecksumFirst4Bytes (take n data) true = cs2)) &&
     negb (bool_decide (ChecksumFirst4Bytes (take n data) false = cs2))
  then Err "invalid checksum" else Ok tt.

Definition deserialize (data : bytes) : outcome KeyWallet :=
  if (List.length data <? 2)%nat then Err "invalid key type"
  else
    key ← deserializeKey data;
    validChecksum data;;
    Ok key.

Definition Base58CheckDeserialize (data : string) : outcome KeyWallet :=
  '(b, _) ← Base58Check_Decode data;
  deserialize b.

(** *** [Serialize] and [Base58CheckSerialize] *)
Definition lengthByte (l : bytes) : Z := Z.of_nat (List.length l) mod 256.
Definition withLength (l : bytes) : bytes := lengthByte l :: l.

Definition SerializeBody (key : KeyWallet) (keyType : Z) : outcome bytes :=
  let ks := kwKeySet key in
  if keyType =? PriKeyType then
    Ok (PriKeyType :: Depth key :: ChildNumber key ++ ChainCode key ++ withLength (ksPrivateKey ks))
  else if keyType =? PaymentAddressType then
    let a := ksPaymentAddress ks in
    Ok (PaymentAddressType :: withLength (paPk a) ++ withLength (paTk a) ++
        match paOTAPublic a with [] => [] | ota => withLength ota end)
  else if keyType =? ReadonlyKeyType then
    Ok (ReadonlyKeyType :: withLength (vkPk (ksReadonlyKey ks)) ++ withLength (vkRk (ksReadonlyKey ks)))
  else if keyType =? OTAKeyType then
    pk ← publicSpendBytes (otaPk (ksOTAKey ks));
    secret ← otaSecretBytes (otaSecret (ksOTAKey ks));
    Ok (OTAKeyType :: withLength pk ++ withLength secret)
  else Err "invalid key type".

Definition Serialize (key : KeyWallet) (keyType : Z) (isNewCheckSum : bool) : outcome bytes :=
  body ← SerializeBody key keyType;
  Ok (body ++ ChecksumFirst4Bytes body isNewCheckSum).

Definition Base58CheckSerialize (cache : gmap (list Z) string) (key : KeyWallet) (keyType : Z)
    : outcome (string * gmap (list Z) string) :=
  match Serialize key keyType true with
  | Err _ => Ok (EmptyString, cache)
  | r => serializedKey ← r; Base58Check_Encode true cache serializedKey 0
  end.

End Wallet.

(** ** Numbers as digits *)
Definition digits (b : Z) (l : list Z) : Prop := Forall (λ d, 0 ≤ d < b) l.
Definition val (b : Z) (l : list Z) : Z := foldl (λ a d, a * b + d) 0 l.

Lemma val_from b l a : foldl (λ a d, a * b + d) a l = a * b ^ Z.of_nat (List.length l) + val b l.
Proof.
  unfold val. revert a. induction l as [|d l IH]; intros a; cbn [foldl List.length]; [cbn; lia|].
  rewrite IH, (IH (0 * b + d)), Nat2Z.inj_succ, Z.pow_succ_r by lia. ring.
Qed.

Lemma val_cons b d l : val b (d :: l) = d * b ^ Z.of_nat (List.length l) + val b l.
Proof. unfold val at 1. cbn [foldl]. rewrite val_from. f_equal. Qed.

Lemma val_app b l1 l2 : val b (l1 ++ l2) = val b l1 * b ^ Z.of_nat (List.length l2) + val b l2.
Proof. unfold val at 1. rewrite foldl_app. apply val_from. Qed.

Lemma val_snoc b l d : val b (l ++ [d]) = val b l * b + d.
Proof. rewrite val_app. unfold val at 2. cbn [foldl List.length]. change (Z.of_nat 1) with 1. lia. Qed.

Lemma val_bound b l : 0 < b → digits b l → 0 ≤ val b l < b ^ Z.of_nat (List.length l).
Proof.
  intros Hb. induction 1 as [|d l Hd Hl IH]; [done|].
  rewrite val_cons. cbn [List.length]. rewrite Nat2Z.inj_succ, Z.pow_succ_r by lia. nia.
Qed.

Lemma val_zeros b l : Forall (eq 0) l → val b l = 0.
Proof. induction 1 as [|? l <- Hl IH]; [done|]. rewrite val_cons, IH. lia. Qed.

Lemma digits_zeros b n : 0 < b → digits b (replicate n 0).
Proof. intros Hb. apply Forall_replicate. lia. Qed.

Lemma zeros_replicate n : Forall (eq 0) (replicate n 0).
Proof. by apply Forall_replicate. Qed.

Lemma val_inj b l1 l2 : 0 < b → digits b l1 → digits b l2 → List.length l1 = List.length l2 →
  val b l1 = val b l2 → l1 = l2.
Proof.
  intros Hb H1. revert l2. induction H1 as [|d l1 Hd H1 IH]; intros l2 H2 Hlen Hval.
  { by destruct l2. }
  destruct H2 as [|e l2 He H2]; [done|]. injection Hlen as Hlen. rewrite !val_cons, Hlen in Hval.
  pose proof (val_bound b l1 Hb H1) as B1. pose proof (val_bound b l2 Hb H2) as B2. rewrite Hlen in B1.
  assert (d = e) as -> by nia. f_equal. apply IH; [done|done|lia].
Qed.

(** A number has one representation without a leading zero. *)
Definition minimal (l : list Z) : Prop := ∀ d, head l = Some d → d ≠ 0.

Lemma minimal_length b l1 l2 : 1 < b → digits b l1 → digits b l2 → minimal l1 → val b l1 = val b l2 →
  (List.length l1 ≤ List.length l2)%nat.
Proof.
  intros Hb H1 H2 Hm Hv. destruct (decide (List.length l1 ≤ List.length l2)%nat) as [|Hlt]; [done|exfalso].
  destruct H1 as [|d l1 Hd H1]; [cbn in *; lia|].
  pose proof (val_bound b l2 ltac:(lia) H2) as B2. pose proof (val_bound b l1 ltac:(lia) H1) as B1.
  rewrite val_cons in Hv. specialize (Hm d eq_refl). cbn [List.length] in Hlt.
  assert (b ^ Z.of_nat (List.length l2) ≤ b ^ Z.of_nat (List.length l1)) by (apply Z.pow_le_mono_r; lia).
  nia.
Qed.

Lemma val_minimal b l1 l2 : 1 < b → digits b l1 → digits b l2 → minimal l1 → minimal l2 →
  val b l1 = val b l2 → l1 = l2.
Proof.
  intros Hb H1 H2 M1 M2 Hv. apply (val_inj b); [lia|done|done| |done].
  apply Nat.le_antisymm; by eapply (minimal_length b).
Qed.

Lemma leading_le {A} (p : A → bool) l : (leading p l ≤ List.length l)%nat.
Proof. induction l as [|a l IH]; cbn; [lia|]. destruct (p a); lia. Qed.

Lemma leading_zeros l : take (leading (Z.eqb 0) l) l = replicate (leading (Z.eqb 0) l) 0.
Proof.
  induction l as [|a l IH]; [done|]. cbn [leading]. destruct (Z.eqb_spec 0 a) as [<-|]; [|done].
  cbn. by rewrite IH.
Qed.

Lemma leading_minimal l : minimal (drop (leading (Z.eqb 0) l) l).
Proof.
  induction l as [|a l IH]; [intros d [=]|]. cbn [leading]. destruct (Z.eqb_spec 0 a) as [<-|Ha]; [done|].
  intros d [= <-]. congruence.
Qed.

Lemma leading_split l : l = replicate (leading (Z.eqb 0) l) 0 ++ drop (leading (Z.eqb 0) l) l.
Proof. rewrite <- leading_zeros. symmetry. apply take_drop. Qed.

Lemma val_leading b l : val b (drop (leading (Z.eqb 0) l) l) = val b l.
Proof. rewrite (leading_split l) at 3. rewrite val_app, (val_zeros _ _ (zeros_replicate _)). lia. Qed.

(** ** The encoder *)
Lemma addByte_spec k high1 carry buf : (k ≤ List.length buf)%nat → digits 58 buf → is_byte carry →
  Forall (eq 0) (take (k `min` high1) buf) → 256 * val 58 (take k buf) + carry < 58 ^ Z.of_nat k →
  ∃ buf' k', addByte k high1 carry buf = Ok (buf', k') ∧ List.length buf' = List.length buf ∧ digits 58 buf' ∧
    Forall (eq 0) (take k' buf') ∧
    val 58 buf' = (256 * val 58 (take k buf) + carry) * 58 ^ Z.of_nat (List.length buf - k) + val 58 (drop k buf).
Proof.
  revert carry buf. induction k as [|j IH]; intros carry buf Hk Hd Hc Hz Hv; cbn [addByte].
  { change (val 58 (take 0 buf)) with 0 in *. cbn in Hv. unfold is_byte in Hc. assert (carry = 0) as -> by lia. exists buf, 0%nat. split_and!; [done..|].
    rewrite drop_0. cbn. lia. }
  destruct (_ || _) eqn:Hgo.
  - destruct (lookup_lt_is_Some_2 buf j) as [d Hj]; [lia|]. rewrite Hj.
    pose proof (Forall_lookup_1 _ _ _ _ Hd Hj) as Hdj. cbn in Hdj. unfold is_byte in Hc.
    rewrite (take_S_r _ _ _ Hj), val_snoc in Hv. rewrite Nat2Z.inj_succ, Z.pow_succ_r in Hv by lia.
    assert (u32 (carry + 256 * d) = carry + 256 * d) as -> by (unfold u32; apply Z.mod_small; lia).
    pose proof (Z_div_mod_eq_full (carry + 256 * d) 58) as Hdm.
    pose proof (Z.mod_pos_bound (carry + 256 * d) 58 ltac:(lia)) as Hm.
    set (q := (carry + 256 * d) / 58) in *. set (r := (carry + 256 * d) mod 58) in *.
    assert (take j (<[j:=r]> buf) = take j buf) as Htake by (apply take_insert_ge; lia).
    assert (drop j (<[j:=r]> buf) = r :: drop (S j) buf) as Hdrop.
    { erewrite (drop_S (<[j:=r]> buf)) by (apply list_lookup_insert_eq; lia). f_equal.
      apply drop_insert_lt. lia. }
    destruct (IH q (<[j:=r]> buf)) as (buf' & k' & E & Hl & Hd' & Hz' & Hval).
    + rewrite length_insert. lia.
    + apply Forall_insert; [done|]. cbn. lia.
    + unfold is_byte. lia.
    + rewrite take_insert_ge by lia.
      replace (j `min` high1)%nat with ((j `min` high1) `min` (S j `min` high1))%nat by lia.
      rewrite <- take_take. by apply Forall_take.
    + rewrite Htake. lia.
    + exists buf', k'. rewrite length_insert in Hl, Hval. split_and!; [done..|].
      rewrite Hval, Htake, Hdrop, (take_S_r _ _ _ Hj), val_snoc, val_cons, length_drop.
      replace (List.length buf - j)%nat with (S (List.length buf - S j)) by lia.
      rewrite Nat2Z.inj_succ, Z.pow_succ_r by lia. nia.
  - apply orb_false_iff in Hgo as [Hh%Nat.ltb_ge Hc0%negb_false_iff%Z.eqb_eq]. subst carry.
    rewrite Nat.min_l in Hz by lia. exists buf, (S j). split_and!; [done..|].
    rewrite <- (take_drop (S j) buf) at 1. rewrite val_app, (val_zeros _ _ Hz). lia.
Qed.

Lemma addBytes_spec bin size high1 buf : List.length buf = size → digits 58 buf → digits 256 bin →
  Forall (eq 0) (take high1 buf) →
  val 58 buf * 256 ^ Z.of_nat (List.length bin) + val 256 bin < 58 ^ Z.of_nat size →
  ∃ buf', addBytes bin size high1 buf = Ok buf' ∧ List.length buf' = size ∧ digits 58 buf' ∧
    val 58 buf' = val 58 buf * 256 ^ Z.of_nat (List.length bin) + val 256 bin.
Proof.
  intros Hs Hd Hbin. revert high1 buf Hs Hd.
  induction Hbin as [|b bin Hb Hbin IH]; intros high1 buf Hs Hd Hz Hv; cbn [addBytes].
  { exists buf. split_and!; [done..|]. cbn. lia. }
  rewrite val_cons in *. cbn [List.length] in *. rewrite Nat2Z.inj_succ, Z.pow_succ_r in * by lia.
  pose proof (val_bound 256 bin ltac:(lia) Hbin) as Bb. pose proof (val_bound 58 buf ltac:(lia) Hd) as Bv.
  assert (0 < 256 ^ Z.of_nat (List.length bin)) as Hp by (apply Z.pow_pos_nonneg; lia).
  destruct (addByte_spec size high1 b buf) as (buf' & k' & -> & Hl & Hd' & Hz' & Hval).
  - lia.
  - done.
  - done.
  - rewrite <- take_take. by apply Forall_take.
  - rewrite take_ge by lia. nia.
  - rewrite take_ge in Hval by lia. rewrite drop_ge in Hval by lia. rewrite <- Hs, Nat.sub_diag in Hval.
    change (val 58 []) with 0 in Hval. cbn in Hval. cbn [mbind outcome_bind].
    assert (val 58 buf' * 256 ^ Z.of_nat (List.length bin) + val 256 bin =
      val 58 buf * (256 * 256 ^ Z.of_nat (List.length bin)) +
      (b * 256 ^ Z.of_nat (List.length bin) + val 256 bin)) as Heq by nia.
    rewrite <- Heq. apply IH; [by rewrite Hl|done|done|lia].
Qed.

Definition isDigit (c : ascii) (d : Z) : Prop :=
  alphabet_encode d = Ok c ∧ alphabet_decode c = Some d ∧ (nat_of_ascii c ≤ 127)%nat.

Definition isDigitb (d : Z) : bool :=
  match alphabet_encode d with
  | Ok c => bool_decide (alphabet_decode c = Some d) && (nat_of_ascii c <=? 127)%nat
  | _ => false
  end.

Lemma digit_char d : 0 ≤ d < 58 → ∃ c, isDigit c d.
Proof.
  intros Hd. assert (forallb isDigitb (Z.of_nat <$> seq 0 58) = true) as Hall by (vm_compute; reflexivity).
  rewrite forallb_forall in Hall. specialize (Hall d). unfold isDigitb in Hall.
  destruct (alphabet_encode d) as [c|?| |] eqn:E; try (exfalso; enough (false = true) by done; apply Hall).
  1: exists c; destruct (andb_prop _ _ (Hall ltac:(apply list_elem_of_In, list_elem_of_fmap; exists (Z.to_nat d); split; [lia|apply elem_of_seq; lia])))
    as [H1%bool_decide_eq_true H2%Nat.leb_le]; done.
  all: apply list_elem_of_In, list_elem_of_fmap; exists (Z.to_nat d); split; [lia|apply elem_of_seq; lia].
Qed.

Lemma isDigit_inj c d e : isDigit c d → isDigit c e → d = e.
Proof. intros (_ & H1 & _) (_ & H2 & _). congruence. Qed.

Lemma encodeDigits_spec l : digits 58 l →
  ∃ s, encodeDigits l = Ok s ∧ Forall2 isDigit (list_ascii_of_string s) l.
Proof.
  induction 1 as [|d l Hd Hl (s & IH & IH2)]; [by exists EmptyString|].
  destruct (digit_char d Hd) as [c Hc]. exists (String c s). cbn [encodeDigits].
  destruct Hc as (Hc & Hrest). rewrite Hc, IH. split; [done|]. cbn. by constructor.
Qed.

Lemma repeatChar_spec n c s : list_ascii_of_string (repeatChar n c s) = replicate n c ++ list_ascii_of_string s.
Proof. induction n as [|n IH]; [done|]. cbn. by rewrite IH. Qed.

(** The buffer is large enough: 58^138 is more than 256^100. *)
Lemma encode_size n : 256 ^ Z.of_nat n ≤ 58 ^ Z.of_nat (n * 138 / 100 + 1).
Proof.
  apply (Z.pow_le_mono_l_iff _ _ 100); [lia|apply Z.pow_nonneg; lia|lia|]. rewrite <- !Z.pow_mul_r by lia.
  pose proof (Nat.div_mod_eq (n * 138) 100) as Hdm. pose proof (Nat.mod_upper_bound (n * 138) 100 ltac:(lia)) as Hm.
  trans (58 ^ (138 * Z.of_nat n)); [|apply Z.pow_le_mono_r; lia].
  rewrite (Z.mul_comm (Z.of_nat n) 100), !Z.pow_mul_r by lia.
  apply Z.pow_le_mono_l. split; [by apply Z.pow_nonneg|]. vm_compute. done.
Qed.

(** What the encoder prints: one zero digit per leading zero byte, then the number. *)
Lemma encode_spec bin : digits 256 bin → ∃ s ds, FastBase58Encoding bin = Ok s ∧
  Forall2 isDigit (list_ascii_of_string s) (replicate (leading (Z.eqb 0) bin) 0 ++ ds) ∧
  digits 58 ds ∧ minimal ds ∧ val 58 ds = val 256 bin.
Proof.
  intros Hbin. unfold FastBase58Encoding. set (z := leading (Z.eqb 0) bin).
  set (size := ((List.length bin - z) * 138 / 100 + 1)%nat).
  pose proof (leading_split bin) as Hsplit. fold z in Hsplit.
  assert (digits 256 (drop z bin)) as Hdrop by (by apply Forall_drop).
  destruct (addBytes_spec (drop z bin) size size (replicate size 0)) as (buf & E & Hl & Hd & Hv).
  - apply length_replicate.
  - apply digits_zeros. lia.
  - done.
  - apply Forall_take, zeros_replicate.
  - rewrite (val_zeros _ _ (zeros_replicate _)), Z.mul_0_l, Z.add_0_l.
    pose proof (val_bound 256 _ ltac:(lia) Hdrop) as Hb. rewrite length_drop in Hb.
    pose proof (encode_size (List.length bin - z)) as Hsize. fold size in Hsize. lia.
  - rewrite (val_zeros _ _ (zeros_replicate _)), Z.mul_0_l, Z.add_0_l in Hv.
    destruct (encodeDigits_spec (drop (leading (Z.eqb 0) buf) buf)) as (s & Es & Hs); [by apply Forall_drop|].
    destruct (digit_char 0 ltac:(lia)) as (zero & Hzero). pose proof Hzero as (Ez & _).
    exists (repeatChar z zero s), (drop (leading (Z.eqb 0) buf) buf).
    rewrite Ez. cbn [mbind outcome_bind]. rewrite E. cbn [mbind outcome_bind]. rewrite Es. split_and!.
    + done.
    + rewrite repeatChar_spec. apply Forall2_app; [|done]. apply Forall2_replicate. done.
    + by apply Forall_drop.
    + apply leading_minimal.
    + rewrite val_leading, Hv. unfold z. apply val_leading.
Qed.

(** The text is made of the alphabet. *)
Lemma encoded_alphabet bin s : digits 256 bin → FastBase58Encoding bin = Ok s →
  Forall (λ c, is_Some (alphabet_decode c)) (list_ascii_of_string s).
Proof.
  intros Hbin Es. destruct (encode_spec bin Hbin) as (s' & ds & Es' & Hs & _). rewrite Es in Es'.
  injection Es' as <-. eapply Forall2_Forall_l; [exact Hs|]. apply Forall_true.
  intros d c (_ & Hc & _). by exists d.
Qed.

(** ** The decoder *)
Definition W : Z := 4294967296.

Lemma addDigit_spec outi c outi' c' : digits W outi → 0 ≤ c < 58 → addDigit outi c = (outi', c') →
  List.length outi' = List.length outi ∧ digits W outi' ∧ 0 ≤ c' < 58 ∧
  val W outi' + c' * W ^ Z.of_nat (List.length outi) = 58 * val W outi + c.
Proof.
  intros Hd. revert c outi' c'. induction Hd as [|w outi Hw Hd IH]; intros c outi' c' Hc E; cbn [addDigit] in E.
  { injection E as <- <-. change (val W []) with 0. cbn [List.length]. split_and!; [done|by constructor|lia..]. }
  destruct (addDigit outi c) as [outi1 c1] eqn:E1. injection E as <- <-.
  destruct (IH _ _ _ Hc E1) as (Hl & Hd1 & Hc1 & Hv). unfold W in Hw.
  assert (u64 (w * 58 + c1) = w * 58 + c1) as -> by (unfold u64, word64; apply Z.mod_small; lia).
  set (t := w * 58 + c1) in *.
  change 4294967295 with (Z.ones 32). change 63 with (Z.ones 6). rewrite !Z.land_ones by lia.
  rewrite Z.shiftr_div_pow2 by lia. change (2 ^ 32) with W. change (2 ^ 6) with 64.
  pose proof (Z_div_mod_eq_full t W) as Hdm. pose proof (Z.mod_pos_bound t W ltac:(done)) as Hm.
  assert (0 ≤ t / W < 58) as Ht by (unfold W in *; lia).
  assert (u32 (t / W) = t / W) as -> by (unfold u32; apply Z.mod_small; lia).
  rewrite (Z.mod_small (t / W) 64) by lia. split_and!; try lia.
  - cbn [List.length]. by rewrite Hl.
  - by constructor.
  - rewrite !val_cons. cbn [List.length]. rewrite Nat2Z.inj_succ, Z.pow_succ_r, Hl by lia. nia.
Qed.

(** The mask lets a word of [rest] bytes pass. *)
Lemma zmask_small rest w : (0 < rest < 4)%nat → 0 ≤ w < 256 ^ Z.of_nat rest →
  Z.land w (u32 (Z.shiftl 4294967295 (8 * Z.of_nat rest))) = 0.
Proof.
  intros Hr Hw. apply Z.bits_inj'. intros i Hi. rewrite Z.land_spec, Z.bits_0.
  change 256 with (2 ^ 8) in Hw. rewrite <- Z.pow_mul_r in Hw by lia.
  destruct (Z.ltb_spec i (8 * Z.of_nat rest)) as [Hlt|Hge].
  - replace (u32 _) with (Z.land (Z.shiftl 4294967295 (8 * Z.of_nat rest)) (Z.ones 32)).
    2: { unfold u32. change 4294967296 with (2 ^ 32). by rewrite Z.land_ones. }
    rewrite Z.land_spec, Z.shiftl_spec_low by lia. by rewrite andb_false_r.
  - rewrite <- (Z.mod_small w (2 ^ (8 * Z.of_nat rest))) by done.
    rewrite Z.mod_pow2_bits_high by lia. done.
Qed.

Lemma head_bound b l w n : 1 < b → digits b l → l !! 0%nat = Some w → val b l < n * b ^ Z.of_nat (List.length l - 1) →
  0 ≤ w < n.
Proof.
  intros Hb Hd Hw Hv. destruct Hd as [|d l Hd Hl]; [done|]. injection Hw as ->. rewrite val_cons in Hv.
  pose proof (val_bound b l ltac:(lia) Hl). cbn [List.length] in Hv. rewrite Nat.sub_succ, Nat.sub_0_r in Hv.
  assert (0 < b ^ Z.of_nat (List.length l)) by (apply Z.pow_pos_nonneg; lia). nia.
Qed.

Section AddDigits.
Variables (zmask bound : Z).
Hypothesis Hmask : ∀ w, 0 ≤ w < bound → Z.land w zmask = 0.
Hypothesis Hbound : bound ≤ W.

Lemma addDigits_spec cs ds outi : Forall2 isDigit cs ds → digits 58 ds → digits W outi → outi ≠ [] →
  val W outi * 58 ^ Z.of_nat (List.length ds) + val 58 ds < bound * W ^ Z.of_nat (List.length outi - 1) →
  ∃ outi', addDigits cs zmask outi = Ok outi' ∧ List.length outi' = List.length outi ∧ digits W outi' ∧
    val W outi' = val W outi * 58 ^ Z.of_nat (List.length ds) + val 58 ds.
Proof.
  intros Hcs. revert outi. induction Hcs as [|c d cs ds Hc Hcs IH]; intros outi Hds Hout Hne Hv; cbn [addDigits].
  { exists outi. split_and!; [done..|]. cbn. lia. }
  apply Forall_cons in Hds as [Hd Hds]. cbn [List.length] in *.
  rewrite Nat2Z.inj_succ, Z.pow_succ_r, val_cons in * by lia.
  pose proof (val_bound 58 ds ltac:(lia) Hds) as Bd.
  assert (0 < 58 ^ Z.of_nat (List.length ds)) as Hp by (apply Z.pow_pos_nonneg; lia).
  set (p := 58 ^ Z.of_nat (List.length ds)) in *.
  destruct Hc as (_ & Hdec & Hlow). rewrite Hdec, (proj2 (Nat.ltb_ge _ _)) by lia.
  destruct (addDigit outi d) as [outi1 c1] eqn:E1.
  destruct (addDigit_spec _ _ _ _ Hout Hd E1) as (Hl & Hd1 & Hc1 & Hv1).
  pose proof (val_bound W outi1 ltac:(done) Hd1) as B1.
  assert (List.length outi ≠ 0%nat) as Hlen by (by destruct outi).
  assert (W ^ Z.of_nat (List.length outi) = W * W ^ Z.of_nat (List.length outi - 1)) as Hpow.
  { rewrite <- Z.pow_succ_r by lia. f_equal. lia. }
  assert (0 < W ^ Z.of_nat (List.length outi - 1)) as Hpp by (apply Z.pow_pos_nonneg; [done|lia]).
  set (q := W ^ Z.of_nat (List.length outi - 1)) in *.
  pose proof (val_bound W outi ltac:(done) Hout) as [B0 _].
  assert (58 * val W outi + d < bound * q) as Hless.
  { assert ((58 * val W outi + d) * 1 ≤ (58 * val W outi + d) * p) by (apply Z.mul_le_mono_nonneg_l; lia). lia. }
  assert (bound * q ≤ W * q) as Hbq by (apply Z.mul_le_mono_nonneg_r; lia).
  assert (c1 = 0) as ->.
  { rewrite Hpow in Hv1. destruct (decide (c1 = 0)) as [|Hc1']; [done|exfalso].
    assert (0 < W * q) by (apply Z.mul_pos_pos; [done|lia]).
    assert (1 * (W * q) ≤ c1 * (W * q)) by (apply Z.mul_le_mono_nonneg_r; lia). lia. }
  rewrite Z.mul_0_l, Z.add_0_r in Hv1. change (0 <? 0) with false. cbn [negb].
  destruct (lookup_lt_is_Some_2 outi1 0) as [w Hw]; [lia|]. rewrite Hw.
  rewrite (Hmask w), Z.eqb_refl; cbn [negb].
  - destruct (IH outi1 Hds Hd1) as (outi' & -> & Hl' & Hd' & Hv').
    + intros ->. cbn in Hl. lia.
    + rewrite Hv1, Hl. fold p q. nia.
    + exists outi'. split_and!; [done|lia|done|]. rewrite Hv', Hv1. fold p. ring.
  - apply (head_bound W outi1); [done|done|done|]. rewrite Hl. fold q. lia.
Qed.

End AddDigits.

Lemma wordBytes_spec n w : 0 ≤ w → List.length (wordBytes n w) = n ∧ digits 256 (wordBytes n w) ∧
  val 256 (wordBytes n w) = w mod 256 ^ Z.of_nat n.
Proof.
  intros Hw. induction n as [|n (Hl & Hd & Hv)]; cbn [wordBytes].
  { change (256 ^ Z.of_nat 0) with 1. rewrite Z.mod_1_r. split_and!; [done|by constructor|done]. }
  split_and!.
  - cbn [List.length]. by rewrite Hl.
  - constructor; [apply Z.mod_pos_bound; lia|done].
  - rewrite val_cons, Hl, Hv, Nat2Z.inj_succ, Z.pow_succ_r by lia. rewrite Z.shiftr_div_pow2 by lia.
    rewrite Z.pow_mul_r by lia. change (2 ^ 8) with 256.
    assert (0 < 256 ^ Z.of_nat n) as Hp by (apply Z.pow_pos_nonneg; lia).
    rewrite (Z.mul_comm 256), Z.rem_mul_r by lia. lia.
Qed.

Lemma words_spec outi : digits W outi → List.length (mjoin (wordBytes 4 <$> outi)) = (4 * List.length outi)%nat ∧
  digits 256 (mjoin (wordBytes 4 <$> outi)) ∧ val 256 (mjoin (wordBytes 4 <$> outi)) = val W outi.
Proof.
  induction 1 as [|w outi Hw Hd (Hl & Hd4 & Hv)]; [split_and!; [done|by constructor|done]|].
  change (mjoin (wordBytes 4 <$> w :: outi)) with (wordBytes 4 w ++ mjoin (wordBytes 4 <$> outi)).
  destruct (wordBytes_spec 4 w) as (Hl1 & Hd1 & Hv1); [lia|]. split_and!.
  - rewrite length_app, Hl, Hl1. cbn [List.length]. lia.
  - by apply Forall_app.
  - rewrite val_app, val_cons, Hv, Hl, Hv1. change (256 ^ Z.of_nat 4) with W. rewrite Z.mod_small by lia.
    rewrite Nat2Z.inj_mul, Z.pow_mul_r by lia. done.
Qed.

(** Decoding a text of digits: the number they are, in as many bytes as the text is long, of
    which the zeros before it are dropped except for one per leading zero digit. *)
Lemma decode_spec s ds : Forall2 isDigit (list_ascii_of_string s) ds → digits 58 ds → ds ≠ [] →
  ∃ l, FastBase58Decoding s = Ok (if (leading (Z.eqb 0) l <? List.length l)%nat
                                  then drop (leading (Z.eqb 0) l - leading (Z.eqb 0) ds) l else l) ∧
    digits 256 l ∧ List.length l = List.length ds ∧ val 256 l = val 58 ds.
Proof.
  intros Hs Hds Hne. unfold FastBase58Decoding. rewrite (Forall2_length _ _ _ Hs).
  set (n := List.length ds). assert (n ≠ 0%nat) as Hn by (unfold n; by destruct ds).
  rewrite (proj2 (Nat.eqb_neq _ _)) by done.
  destruct (digit_char 0 ltac:(lia)) as (zero & Hzero). pose proof Hzero as (Ez & _).
  rewrite Ez. cbn [mbind outcome_bind].
  assert (leading (Ascii.eqb zero) (list_ascii_of_string s) = leading (Z.eqb 0) ds) as ->.
  { clear -Hs Hzero. induction Hs as [|c d cs ds Hc Hcs IH]; [done|]. cbn [leading].
    assert (Ascii.eqb zero c = Z.eqb 0 d) as ->; [|by rewrite IH].
    destruct (Ascii.eqb_spec zero c) as [->|Hne], (Z.eqb_spec 0 d) as [<-|Hd]; try done.
    - exfalso. apply Hd. by eapply isDigit_inj.
    - exfalso. apply Hne. destruct Hc as (Hc & _), Hzero as (Hz & _). congruence. }
  pose proof (Nat.div_mod_eq (n + 3) 4) as Hdm. pose proof (Nat.mod_upper_bound (n + 3) 4 ltac:(lia)) as Hm.
  pose proof (Nat.div_mod_eq n 4) as Hdn. pose proof (Nat.mod_upper_bound n 4 ltac:(lia)) as Hmn.
  set (outisz := ((n + 3) / 4)%nat) in *. set (rest := (n mod 4)%nat) in *.
  set (bytesleft := if (0 <? rest)%nat then rest else 4%nat).
  assert (n = bytesleft + 4 * (outisz - 1) ∧ 0 < outisz ∧ 0 < bytesleft ≤ 4)%nat as (Hsplit & Ho & Hb).
  { unfold bytesleft. destruct (Nat.ltb_spec 0 rest); lia. }
  clearbody outisz. set (zmask := if (0 <? rest)%nat then _ else 0).
  assert (∀ w, 0 ≤ w < 256 ^ Z.of_nat bytesleft → Z.land w zmask = 0) as Hmask.
  { unfold zmask, bytesleft. destruct (Nat.ltb_spec 0 rest); intros w Hw; [apply zmask_small; lia|].
    apply Z.land_0_r. }
  assert (256 ^ Z.of_nat bytesleft ≤ W) as HbW.
  { change W with (256 ^ 4). apply Z.pow_le_mono_r; lia. }
  assert (256 ^ Z.of_nat n = 256 ^ Z.of_nat bytesleft * W ^ Z.of_nat (outisz - 1)) as Hpow.
  { rewrite Hsplit at 1. rewrite Nat2Z.inj_add, Nat2Z.inj_mul, Z.pow_add_r by lia.
    rewrite (Z.pow_mul_r 256 (Z.of_nat 4)) by lia. done. }
  pose proof (val_bound 58 ds ltac:(lia) Hds) as Bv. fold n in Bv.
  assert (58 ^ Z.of_nat n ≤ 256 ^ Z.of_nat n) as Hle by (apply Z.pow_le_mono_l; lia).
  destruct (addDigits_spec zmask (256 ^ Z.of_nat bytesleft) Hmask HbW (list_ascii_of_string s) ds
    (replicate outisz 0)) as (outi & -> & Hl & Hd & Hv).
  - done.
  - done.
  - by apply digits_zeros.
  - intros E%(f_equal List.length). rewrite length_replicate in E. cbn [List.length] in E. lia.
  - rewrite (val_zeros _ _ (zeros_replicate _)), length_replicate. lia.
  - rewrite (val_zeros _ _ (zeros_replicate _)), Z.mul_0_l, Z.add_0_l in Hv. rewrite length_replicate in Hl.
    cbn [mbind outcome_bind]. destruct outi as [|w outi]; [cbn in Hl; lia|].
    pose proof (Forall_cons_1 _ _ _ Hd) as [Hw Hd'].
    destruct (wordBytes_spec bytesleft w) as (L1 & D1 & V1); [lia|].
    destruct (words_spec outi Hd') as (L2 & D2 & V2). cbn [List.length] in Hl.
    eexists (wordBytes bytesleft w ++ mjoin (wordBytes 4 <$> outi)). split_and!.
    + done.
    + by apply Forall_app.
    + rewrite length_app, L1, L2. lia.
    + rewrite val_app, L2, V1, V2, Z.mod_small.
      * rewrite <- Hv, val_cons, Nat2Z.inj_mul, Z.pow_mul_r by lia. done.
      * apply (head_bound W (w :: outi)); [done|done|done|]. rewrite Hv. cbn [List.length].
        replace (S (List.length outi) - 1)%nat with (outisz - 1)%nat by lia. lia.
Qed.

Lemma leading_replicate n l : minimal l → leading (Z.eqb 0) (replicate n 0 ++ l) = n.
Proof.
  intros Hm. induction n as [|n IH]; cbn [replicate app]; [|cbn; by rewrite IH]. destruct l as [|d l]; [done|]. cbn [leading].
  destruct (Z.eqb_spec 0 d) as [<-|]; [|done]. by specialize (Hm 0 eq_refl).
Qed.

(** Base58 round trip: any bytes are printed, and the text decodes to the very bytes. *)
Lemma base58_roundtrip bin : digits 256 bin → bin ≠ [] →
  ∃ s, FastBase58Encoding bin = Ok s ∧ FastBase58Decoding s = Ok bin.
Proof.
  intros Hbin Hne. destruct (encode_spec bin Hbin) as (s & ds & Es & Hs & Hds & Hm & Hv).
  exists s. split; [done|]. set (z := leading (Z.eqb 0) bin) in *.
  pose proof (leading_split bin) as Hsplit. fold z in Hsplit.
  set (b := drop z bin) in *. assert (digits 256 b) as Hb by (by apply Forall_drop).
  assert (minimal b) as Hmb by apply leading_minimal.
  assert (val 256 b = val 58 ds) as Hvb by (rewrite Hv; apply val_leading).
  destruct (decode_spec s (replicate z 0 ++ ds) Hs) as (l & -> & Hl & Hlen & Hvl).
  { apply Forall_app. split; [apply digits_zeros; lia|done]. }
  { intros [E1 ->]%app_eq_nil. assert (b = []) as Eb.
    { apply (val_minimal 256); [lia|done|by constructor|done|intros ? [=]|done]. }
    rewrite Eb, E1 in Hsplit. done. }
  rewrite leading_replicate by done.
  rewrite val_app, (val_zeros _ _ (zeros_replicate _)), Z.mul_0_l, Z.add_0_l in Hvl.
  rewrite length_app, length_replicate in Hlen.
  set (x := leading (Z.eqb 0) l). pose proof (leading_split l) as Hsl. fold x in Hsl.
  assert (drop x l = b) as Hdb.
  { apply (val_minimal 256); [lia|by apply Forall_drop|done|apply leading_minimal|done|].
    unfold x. rewrite val_leading. congruence. }
  rewrite Hdb in Hsl. f_equal. rewrite Hsplit.
  destruct (Nat.ltb_spec x (List.length l)) as [Hlt|Hge].
  - assert (List.length b ≤ List.length ds)%nat as Hbl.
    { clearbody b. destruct b as [|d b']; [cbn; lia|]. cbn [List.length].
      destruct (decide (List.length b' < List.length ds)%nat); [lia|exfalso].
      pose proof (val_bound 58 ds ltac:(lia) Hds) as B. rewrite <- Hvb, val_cons in B.
      apply Forall_cons in Hb as [Hd0 Hb']. pose proof (val_bound 256 b' ltac:(lia) Hb').
      specialize (Hmb d eq_refl).
      assert (58 ^ Z.of_nat (List.length ds) ≤ 256 ^ Z.of_nat (List.length ds)) by (apply Z.pow_le_mono_l; lia).
      assert (256 ^ Z.of_nat (List.length ds) ≤ 256 ^ Z.of_nat (List.length b')) by (apply Z.pow_le_mono_r; lia).
      nia. }
    assert (List.length l = x + List.length b)%nat as Hxl by (rewrite Hsl at 1; rewrite length_app, length_replicate; done).
    rewrite Hsl at 1. rewrite drop_app_le by (rewrite length_replicate; lia). rewrite drop_replicate.
    by replace (x - (x - z))%nat with z by lia.
  - assert (x = List.length l) as Hx by (pose proof (leading_le (Z.eqb 0) l); fold x in H; lia).
    assert (b = []) as Eb by (rewrite <- Hdb, Hx; apply drop_all).
    assert (ds = []) as ->.
    { apply (val_minimal 58); [lia|done|by constructor|done|intros ? [=]|]. by rewrite <- Hvb, Eb. }
    rewrite Hsl, Eb, !app_nil_r. f_equal. cbn in Hlen. lia.
Qed.

(** ** Keys *)
Section KeyFacts.
Context `{WalletLaws}.

Lemma checksum_bytes data isNew : digits 256 (ChecksumFirst4Bytes data isNew).
Proof. apply Forall_take. destruct isNew; [apply SHA256_bytes|apply HashB_bytes]. Qed.

Lemma checksum_length data isNew : List.length (ChecksumFirst4Bytes data isNew) = 4%nat.
Proof.
  unfold ChecksumFirst4Bytes. rewrite length_take. destruct isNew; rewrite ?SHA256_length, ?HashB_length; done.
Qed.

(** The cache holds what was printed with version zero and the new checksum, the only way the
    program prints keys. *)
Definition printed (input : bytes) : outcome string :=
  FastBase58Encoding ((0 :: input) ++ ChecksumFirst4Bytes (0 :: input) true).
Definition goodCache (cache : gmap (list Z) string) : Prop :=
  ∀ input s, cache !! input = Some s → printed input = Ok s.

Lemma Encode_printed cache input s : goodCache cache → printed input = Ok s →
  ∃ cache', Base58Check_Encode true cache input 0 = Ok (s, cache') ∧ goodCache cache'.
Proof.
  intros Hcache Hs. unfold Base58Check_Encode. destruct (cache !! input) as [s'|] eqn:E.
  { exists cache. apply Hcache in E. split; [congruence|done]. }
  cbv zeta. unfold printed in Hs. rewrite Hs. exists (<[input:=s]> cache). split; [done|].
  intros i t [[<- <-]|[_ Hi]]%lookup_insert_Some; [done|by apply Hcache].
Qed.

(** Whatever bytes are printed with a version and a checksum are read again. *)
Lemma printed_decodes input : digits 256 input →
  ∃ s, printed input = Ok s ∧ Base58Check_Decode s = Ok (input, 0).
Proof.
  intros Hin. destruct (base58_roundtrip ((0 :: input) ++ ChecksumFirst4Bytes (0 :: input) true)) as (s & Es & Ed).
  - apply Forall_app. split; [constructor; [lia|done]|apply checksum_bytes].
  - done.
  - exists s. split; [done|]. unfold Base58Check_Decode. rewrite Ed. cbn [mbind outcome_bind].
    pose proof (checksum_length (0 :: input) true) as Hl. set (cs := ChecksumFirst4Bytes (0 :: input) true) in *.
    rewrite length_app, Hl. cbn [List.length]. rewrite (proj2 (Nat.ltb_ge _ _)) by lia.
    replace (S (List.length input) + 4 - CheckSumLen)%nat with (List.length (0 :: input)) by (unfold CheckSumLen; cbn; lia).
    rewrite take_app_length, drop_app_length. fold cs. by rewrite bool_decide_eq_true_2.
Qed.

Lemma index_app a x b n : n = List.length a → index (a ++ x :: b) n = Ok x.
Proof. intros ->. unfold index. rewrite lookup_app_r, Nat.sub_diag by lia. done. Qed.

Lemma slice_app a b c lo hi : lo = List.length a → hi = (List.length a + List.length b)%nat →
  slice (a ++ b ++ c) lo hi = Ok b.
Proof.
  intros -> ->. unfold slice. pose proof (roundupsize_le (List.length (a ++ b ++ c))) as Hcap.
  rewrite !length_app in *. rewrite (proj2 (Nat.leb_le _ _)), (proj2 (Nat.leb_le _ _)) by lia. cbn [andb].
  rewrite <- !app_assoc, drop_app_length.
  replace (List.length a + List.length b - List.length a)%nat with (List.length b) by lia.
  by rewrite take_app_length.
Qed.

Lemma validChecksum_own body : validChecksum (body ++ ChecksumFirst4Bytes body true) = Ok tt.
Proof.
  unfold validChecksum. rewrite length_app, checksum_length.
  replace (List.length body + 4 - 4)%nat with (List.length body) by lia.
  rewrite take_app_length, drop_app_length. by rewrite bool_decide_eq_true_2.
Qed.

Lemma lengthByte_small l n : List.length l = n → (n < 256)%nat → lengthByte l = Z.of_nat n.
Proof. intros <- Hn. unfold lengthByte. apply Z.mod_small. lia. Qed.

(** The key set that a printed key restores: a private key restores everything, any other key
    only itself. *)
Definition onlyAddress (a : PaymentAddress) : KeyWallet :=
  mkKeyWallet 0 [] [] (mkKeySet [] a (mkViewingKey [] []) (mkOTAKey [] [])).

Definition restored (key : KeyWallet) (keyType : Z) : outcome KeyWallet :=
  let ks := kwKeySet key in
  if keyType =? PriKeyType then
    keySet ← InitFromPrivateKey (ksPrivateKey ks);
    Ok (mkKeyWallet (Depth key) (ChildNumber key) (ChainCode key) keySet)
  else if keyType =? PaymentAddressType then Ok (onlyAddress (ksPaymentAddress ks))
  else if keyType =? ReadonlyKeyType then
    Ok (mkKeyWallet 0 [] [] (mkKeySet [] (mkPaymentAddress [] [] []) (ksReadonlyKey ks) (mkOTAKey [] [])))
  else
    pk ← publicSpendBytes (otaPk (ksOTAKey ks));
    secret ← otaSecretBytes (otaSecret (ksOTAKey ks));
    Ok (mkKeyWallet 0 [] [] (mkKeySet [] (mkPaymentAddress [] [] []) (mkViewingKey [] []) (mkOTAKey pk secret))).

Definition key32 (l : bytes) : Prop := List.length l = 32%nat ∧ digits 256 l.

(** A key of the kind in question, as the wallet makes them. *)
Definition serializable (key : KeyWallet) (keyType : Z) : Prop :=
  let ks := kwKeySet key in
  (keyType = PriKeyType ∧ is_byte (Depth key) ∧ List.length (ChildNumber key) = 4%nat ∧
     digits 256 (ChildNumber key) ∧ key32 (ChainCode key) ∧ key32 (ksPrivateKey ks)) ∨
  (keyType = PaymentAddressType ∧ key32 (paPk (ksPaymentAddress ks)) ∧ key32 (paTk (ksPaymentAddress ks)) ∧
     (paOTAPublic (ksPaymentAddress ks) = [] ∨ key32 (paOTAPublic (ksPaymentAddress ks)))) ∨
  (keyType = ReadonlyKeyType ∧ key32 (vkPk (ksReadonlyKey ks)) ∧ key32 (vkRk (ksReadonlyKey ks))) ∨
  (keyType = OTAKeyType ∧ ∃ pk secret, publicSpendBytes (otaPk (ksOTAKey ks)) = Ok pk ∧
     otaSecretBytes (otaSecret (ksOTAKey ks)) = Ok secret ∧ key32 pk ∧ key32 secret).

(** Two keys, each behind its length. *)
Lemma twoKeys_restored t a b cs : key32 a → key32 b → List.length cs = 4%nat →
  twoKeys (t :: withLength a ++ withLength b ++ cs) 71 = Ok (a, b).
Proof.
  intros [La Da] [Lb Db] Lc. unfold twoKeys, withLength.
  rewrite (lengthByte_small a 32), (lengthByte_small b 32) by lia. cbn [app].
  set (data := t :: Z.of_nat 32 :: a ++ Z.of_nat 32 :: b ++ cs).
  assert (List.length data = 71%nat) as Hlen.
  { unfold data. cbn [List.length]. rewrite length_app. cbn [List.length]. rewrite length_app. lia. }
  rewrite Hlen. cbn [Nat.eqb negb]. change (index data 1) with (Ok (Z.of_nat 32)).
  assert (data = [t; Z.of_nat 32] ++ a ++ Z.of_nat 32 :: b ++ cs) as E1 by done.
  assert (data = ([t; Z.of_nat 32] ++ a) ++ Z.of_nat 32 :: b ++ cs) as E2 by (by rewrite <- app_assoc).
  assert (data = ([t; Z.of_nat 32] ++ a ++ [Z.of_nat 32]) ++ b ++ cs) as E3 by (by rewrite <- !app_assoc).
  cbn [mbind outcome_bind]. rewrite Nat2Z.id. change (71 <? 32 + 3)%nat with false. cbv iota.
  rewrite E2, index_app, <- E2 by (rewrite length_app; cbn [List.length]; lia). cbn [mbind outcome_bind].
  rewrite Nat2Z.id, E1, (slice_app [t; Z.of_nat 32] a _ 2 (2 + 32)), <- E1 by (cbn [List.length]; lia). cbn [mbind outcome_bind].
  rewrite E3, slice_app by (rewrite !length_app; cbn [List.length]; lia). done.
Qed.

Lemma deserialize_own body key : (2 ≤ List.length body)%nat →
  deserializeKey (body ++ ChecksumFirst4Bytes body true) = Ok key →
  deserialize (body ++ ChecksumFirst4Bytes body true) = Ok key.
Proof.
  intros Hl E. unfold deserialize. rewrite length_app, (proj2 (Nat.ltb_ge _ _)) by lia.
  rewrite E. cbn [mbind outcome_bind]. by rewrite validChecksum_own.
Qed.

Lemma deserializePriKey_restored d child chain key cs : List.length child = 4%nat → key32 chain → key32 key →
  List.length cs = 4%nat →
  deserializePriKey (PriKeyType :: d :: child ++ chain ++ withLength key ++ cs) =
    (keySet ← InitFromPrivateKey key; Ok (mkKeyWallet d child chain keySet)).
Proof.
  intros L4 [Lc _] [Lk _] Ls. unfold deserializePriKey, withLength. rewrite (lengthByte_small key 32) by lia.
  cbn [app]. set (data := PriKeyType :: d :: child ++ chain ++ Z.of_nat 32 :: key ++ cs).
  assert (List.length data = 75%nat) as ->.
  { unfold data. cbn [List.length]. rewrite !length_app. cbn [List.length]. rewrite length_app. lia. }
  cbn [Nat.eqb negb privKeySerializedBytesLen]. change (index data 1) with (Ok d). cbn [mbind outcome_bind].
  assert (data = [PriKeyType; d] ++ child ++ chain ++ Z.of_nat 32 :: key ++ cs) as E1 by done.
  assert (data = ([PriKeyType; d] ++ child) ++ chain ++ Z.of_nat 32 :: key ++ cs) as E2 by (by rewrite <- app_assoc).
  assert (data = ([PriKeyType; d] ++ child ++ chain) ++ Z.of_nat 32 :: key ++ cs) as E3 by (by rewrite <- !app_assoc).
  assert (data = ([PriKeyType; d] ++ child ++ chain ++ [Z.of_nat 32]) ++ key ++ cs) as E4 by (by rewrite <- !app_assoc).
  rewrite E1, (slice_app [PriKeyType; d] child _ 2 6), <- E1 by (cbn [List.length]; lia). cbn [mbind outcome_bind].
  rewrite E2, (slice_app ([PriKeyType; d] ++ child) chain _ 6 38), <- E2 by (rewrite !length_app; cbn [List.length]; lia). cbn [mbind outcome_bind].
  rewrite E3, index_app, <- E3 by (rewrite !length_app; cbn [List.length]; lia). cbn [mbind outcome_bind].
  rewrite Nat2Z.id, E4, slice_app by (rewrite !length_app; cbn [List.length]; lia). done.
Qed.

Lemma deserializePaymentAddress_restored pk tk ota cs : key32 pk → key32 tk → ota = [] ∨ key32 ota →
  List.length cs = 4%nat →
  deserializePaymentAddress (PaymentAddressType :: withLength pk ++ withLength tk ++
    match ota with [] => [] | _ => withLength ota end ++ cs) = Ok (onlyAddress (mkPaymentAddress pk tk ota)).
Proof.
  intros [Lp _] [Lt _] Ho Ls. unfold deserializePaymentAddress, withLength.
  rewrite (lengthByte_small pk 32), (lengthByte_small tk 32) by lia. cbn [app].
  set (rest := match ota with [] => [] | _ => lengthByte ota :: ota end ++ cs).
  assert (List.length rest = 4 ∧ ota = [] ∨ List.length rest = 37 ∧ rest = Z.of_nat 32 :: ota ++ cs ∧ key32 ota)%nat
    as Hrest.
  { unfold rest. destruct Ho as [->|[Lo Do]]; [by left|right]. destruct ota as [|b ota]; [done|].
    rewrite (lengthByte_small _ 32) by lia. rewrite length_app. cbn [List.length] in *.
    split; [lia|]. split; [done|]. by split. }
  clearbody rest. set (data := PaymentAddressType :: Z.of_nat 32 :: pk ++ Z.of_nat 32 :: tk ++ rest).
  assert (List.length data = 67 + List.length rest)%nat as Hlen.
  { unfold data. cbn [List.length]. rewrite length_app. cbn [List.length]. rewrite length_app. lia. }
  rewrite Hlen. change (index data 1) with (Ok (Z.of_nat 32)).
  unfold paymentAddrSerializedBytesLen, Ed25519KeySize.
  destruct (_ && _ && _) eqn:Hbad.
  { exfalso. apply andb_true_iff in Hbad as [[_ H1]%andb_true_iff H2].
    apply negb_true_iff, Nat.eqb_neq in H1, H2. lia. }
  clear Hbad. cbn [mbind outcome_bind].
  assert (data = [PaymentAddressType; Z.of_nat 32] ++ pk ++ Z.of_nat 32 :: tk ++ rest) as E1 by done.
  assert (data = ([PaymentAddressType; Z.of_nat 32] ++ pk) ++ Z.of_nat 32 :: tk ++ rest) as E2
    by (by rewrite <- app_assoc).
  assert (data = ([PaymentAddressType; Z.of_nat 32] ++ pk ++ [Z.of_nat 32]) ++ tk ++ rest) as E3
    by (by rewrite <- !app_assoc).
  rewrite E2, index_app, <- E2 by (rewrite length_app; cbn [List.length]; lia). cbn [mbind outcome_bind].
  rewrite !Nat2Z.id.
  rewrite E1, (slice_app [PaymentAddressType; Z.of_nat 32] pk _ 2 (2 + 32)), <- E1 by (cbn [List.length]; lia).
  cbn [mbind outcome_bind].
  rewrite E3, (slice_app _ tk _ (3 + 32) (3 + 32 + 32)), <- E3 by (rewrite !length_app; cbn [List.length]; lia). cbn [mbind outcome_bind].
  destruct Hrest as [[-> ->]|(-> & Hrest & Lo & _)]; [done|].
  change (71 <? 67 + 37)%nat with true. cbv iota.
  assert (data = ([PaymentAddressType; Z.of_nat 32] ++ pk ++ [Z.of_nat 32] ++ tk) ++ Z.of_nat 32 :: ota ++ cs) as E4
    by (rewrite <- Hrest; by rewrite <- !app_assoc).
  assert (data = ([PaymentAddressType; Z.of_nat 32] ++ pk ++ [Z.of_nat 32] ++ tk ++ [Z.of_nat 32]) ++ ota ++ cs) as E5
    by (unfold data; rewrite Hrest; by rewrite <- !app_assoc).
  rewrite E4, index_app, <- E4 by (rewrite !length_app; cbn [List.length]; lia). cbn [mbind outcome_bind].
  rewrite Nat2Z.id. cbn [Nat.eqb negb].
  rewrite E5, slice_app by (rewrite !length_app; cbn [List.length]; lia). done.
Qed.

Lemma withLength_digits l : digits 256 l → digits 256 (withLength l).
Proof. intros Hl. constructor; [apply Z.mod_pos_bound; lia|done]. Qed.

(** A key prints as some bytes, from which its own kind of key is read, whatever the checksum. *)
Definition readsBack (key : KeyWallet) (t : Z) : Prop :=
  ∃ body key', SerializeBody key t = Ok body ∧ digits 256 body ∧ (2 ≤ List.length body)%nat ∧
    restored key t = Ok key' ∧
    ∀ cs, List.length cs = 4%nat → deserializeKey (body ++ cs) = Ok key'.

Lemma private_readsBack d child chain ks : is_byte d → List.length child = 4%nat → digits 256 child →
  key32 chain → key32 (ksPrivateKey ks) → readsBack (mkKeyWallet d child chain ks) PriKeyType.
Proof.
  intros Hd L4 D4 Hc Hp. set (key := mkKeyWallet d child chain ks).
  assert (restored key PriKeyType = (ks' ← InitFromPrivateKey (ksPrivateKey ks); Ok (mkKeyWallet d child chain ks')))
    as E by done.
  assert (∃ key', restored key PriKeyType = Ok key') as [key' Ekey].
  { rewrite E. unfold InitFromPrivateKey. destruct Hp as [-> _]. cbn [PrivateKeySize Nat.eqb negb].
    destruct (GeneratePaymentAddress _) as [[? ?] ?], (GenerateViewingKey _), (GenerateOTAKey _). by eexists. }
  eexists (PriKeyType :: d :: child ++ chain ++ withLength (ksPrivateKey ks)), key'. split_and!; [done| | |done|].
  - constructor; [done|]. constructor; [done|]. apply Forall_app. split; [done|].
    apply Forall_app. split; [apply Hc|apply withLength_digits, Hp].
  - cbn [List.length]. lia.
  - intros cs Hcs. rewrite <- Ekey, E, <- (deserializePriKey_restored d child chain _ cs) by done.
    cbn [app]. by rewrite <- !app_assoc.
Qed.

Lemma address_readsBack key : key32 (paPk (ksPaymentAddress (kwKeySet key))) →
  key32 (paTk (ksPaymentAddress (kwKeySet key))) →
  (paOTAPublic (ksPaymentAddress (kwKeySet key)) = [] ∨ key32 (paOTAPublic (ksPaymentAddress (kwKeySet key)))) →
  readsBack key PaymentAddressType.
Proof.
  destruct key as [d child chain [priv [pk tk ota] vk ok]].
  cbn [kwKeySet ksPaymentAddress paPk paTk paOTAPublic]. intros Hp Ht Ho.
  exists (PaymentAddressType :: withLength pk ++ withLength tk ++ match ota with [] => [] | _ => withLength ota end),
    (onlyAddress (mkPaymentAddress pk tk ota)). split; [by destruct ota|]. split_and!; [| |done|].
  - constructor; [done|]. apply Forall_app. split; [apply withLength_digits, Hp|].
    apply Forall_app. split; [apply withLength_digits, Ht|].
    destruct Ho as [->|[_ Ho]]; [by constructor|]. destruct ota; [by constructor|by apply withLength_digits].
  - cbn [List.length withLength app]. lia.
  - intros cs Hcs. rewrite <- (deserializePaymentAddress_restored pk tk ota cs) by done.
    cbn [app]. rewrite <- !app_assoc. by destruct ota.
Qed.

Lemma readOnly_readsBack key : key32 (vkPk (ksReadonlyKey (kwKeySet key))) →
  key32 (vkRk (ksReadonlyKey (kwKeySet key))) → readsBack key ReadonlyKeyType.
Proof.
  destruct key as [d child chain [priv a [pk rk] ok]]. cbn [kwKeySet ksReadonlyKey vkPk vkRk]. intros Hp Hr.
  eexists (ReadonlyKeyType :: withLength pk ++ withLength rk), _. split; [done|]. split_and!; [| |done|].
  - constructor; [done|]. apply Forall_app. split; [apply withLength_digits, Hp|apply withLength_digits, Hr].
  - cbn [List.length withLength app]. lia.
  - intros cs Hcs. cbn [app]. rewrite <- !app_assoc.
    trans ('(p, r) ← twoKeys (ReadonlyKeyType :: withLength pk ++ withLength rk ++ cs) 71;
           Ok (mkKeyWallet 0 [] [] (mkKeySet [] (mkPaymentAddress [] [] []) (mkViewingKey p r) (mkOTAKey [] []))));
      [done|]. by rewrite twoKeys_restored.
Qed.

Lemma oneTime_readsBack key pk secret : publicSpendBytes (otaPk (ksOTAKey (kwKeySet key))) = Ok pk →
  otaSecretBytes (otaSecret (ksOTAKey (kwKeySet key))) = Ok secret → key32 pk → key32 secret →
  readsBack key OTAKeyType.
Proof.
  intros Ep Es Hp Hs.
  exists (OTAKeyType :: withLength pk ++ withLength secret),
    (mkKeyWallet 0 [] [] (mkKeySet [] (mkPaymentAddress [] [] []) (mkViewingKey [] []) (mkOTAKey pk secret))).
  split_and!.
  - unfold SerializeBody. cbn [Z.eqb PriKeyType PaymentAddressType ReadonlyKeyType OTAKeyType]. cbn.
    by rewrite Ep, Es.
  - constructor; [done|]. apply Forall_app. split; [apply withLength_digits, Hp|apply withLength_digits, Hs].
  - cbn [List.length withLength app]. lia.
  - unfold restored. cbn. by rewrite Ep, Es.
  - intros cs Hcs. cbn [app]. rewrite <- !app_assoc.
    trans ('(p, r) ← twoKeys (OTAKeyType :: withLength pk ++ withLength secret ++ cs) 71;
           Ok (mkKeyWallet 0 [] [] (mkKeySet [] (mkPaymentAddress [] [] []) (mkViewingKey [] []) (mkOTAKey p r))));
      [done|]. by rewrite twoKeys_restored.
Qed.

Lemma serializable_readsBack key t : serializable key t → readsBack key t.
Proof.
  destruct key as [d child chain ks].
  intros [(-> & ?)|[(-> & ?)|[(-> & ?)|(-> & pk & secret & ?)]]]; cbn [Depth ChildNumber ChainCode kwKeySet] in *;
    destruct_and!; eauto using private_readsBack, address_readsBack, readOnly_readsBack, oneTime_readsBack.
Qed.

(** C28: what the wallet prints, it reads. Take a key whose parts have the sizes the wallet
    gives them ([serializable]): a private key of 32 bytes with a chain code of 32, a child number
    of 4 and a depth of one; a payment address of two keys of 32 bytes, with or without a one-time
    public key of 32; a read-only key of two keys of 32 bytes; or a one-time-address key whose
    halves have encodings of 32 bytes. It is printed whatever the cache of printed texts holds, as
    long as its entries are right, which stays so; and the text decodes, through base58, the two
    checksums and the lengths, to the very key: for a private key to the whole key set derived from
    it, for any other key to that key alone. The laws assumed of the parameters are that the hashes
    give 32 bytes and that a slice's capacity is at least its length. *)
Theorem key_roundtrip key t cache : serializable key t → goodCache cache →
  ∃ s cache' key', Base58CheckSerialize cache key t = Ok (s, cache') ∧ goodCache cache' ∧
    restored key t = Ok key' ∧ Base58CheckDeserialize s = Ok key'.
Proof.
  intros Hkey Hcache. destruct (serializable_readsBack key t Hkey) as (body & key' & Eb & Db & Lb & Er & Ed).
  destruct (printed_decodes (body ++ ChecksumFirst4Bytes body true)) as (s & Es & Edec).
  { apply Forall_app. split; [done|apply checksum_bytes]. }
  destruct (Encode_printed cache _ s Hcache Es) as (cache' & Ec & Hc').
  exists s, cache', key'. unfold Base58CheckSerialize, Serialize. rewrite Eb. cbn [mbind outcome_bind].
  split_and!; [done..|]. unfold Base58CheckDeserialize. rewrite Edec. cbn [mbind outcome_bind].
  apply deserialize_own; [done|]. apply Ed, checksum_length.
Qed.

(** *** Texts that are no key *)

Lemma addDigits_returns cs zmask outi : outi ≠ [] → returns (addDigits cs zmask outi).
Proof.
  revert outi. induction cs as [|r cs IH]; intros outi Ho; cbn [addDigits]; [done|].
  destruct (_ <? _)%nat; [done|]. destruct (alphabet_decode r) as [c|]; [|done].
  destruct (addDigit outi c) as [outi1 c1] eqn:E. destruct outi as [|w outi]; [done|]. cbn [addDigit] in E.
  destruct (addDigit outi c). injection E as <- <-. cbn [lookup list_lookup].
  destruct (0 <? _); [done|]. destruct (negb _); [done|]. by apply IH.
Qed.

(** The two base58 decoders return on every text. *)
Lemma FastBase58Decoding_returns s : returns (FastBase58Decoding s).
Proof.
  unfold FastBase58Decoding. destruct (_ =? 0)%nat eqn:En; [done|]. apply Nat.eqb_neq in En.
  destruct (digit_char 0 ltac:(lia)) as (zero & -> & _). cbn [mbind outcome_bind].
  apply outcome_bind_returns; [|done]. apply addDigits_returns. intros E%(f_equal List.length).
  rewrite length_replicate in E. cbn [List.length] in E.
  pose proof (Nat.div_mod_eq (List.length (list_ascii_of_string s) + 3) 4).
  pose proof (Nat.mod_upper_bound (List.length (list_ascii_of_string s) + 3) 4). lia.
Qed.

Lemma Base58Check_Decode_returns s : returns (Base58Check_Decode s).
Proof.
  unfold Base58Check_Decode. apply outcome_bind_returns.
  { pose proof (FastBase58Decoding_returns s). by destruct (FastBase58Decoding s). }
  intros decoded _. destruct (Nat.ltb_spec (List.length decoded) 5); [done|]. cbv zeta.
  destruct (_ && _); [done|]. unfold CheckSumLen. destruct decoded as [|d decoded]; [cbn in *; lia|].
  cbn [List.length] in *. by replace (S (List.length decoded) - 4)%nat with (S (List.length decoded - 4)) by lia.
Qed.

Lemma index_fuel data i : index data i ≠ OutOfFuel.
Proof. unfold index. by destruct (data !! i). Qed.
Lemma slice_fuel data lo hi : slice data lo hi ≠ OutOfFuel.
Proof. unfold slice. cbv zeta. by destruct (_ && _). Qed.
Lemma init_fuel k : InitFromPrivateKey k ≠ OutOfFuel.
Proof.
  unfold InitFromPrivateKey. destruct (negb _); [done|].
  by destruct (GeneratePaymentAddress k) as [[? ?] ?], (GenerateViewingKey k), (GenerateOTAKey k).
Qed.
Lemma validChecksum_returns data : returns (validChecksum data).
Proof. unfold validChecksum. cbv zeta. by destruct (_ && _). Qed.
Lemma bind_fuel {A B} (m : outcome A) (f : A → outcome B) : m ≠ OutOfFuel → (∀ a, f a ≠ OutOfFuel) →
  m ≫= f ≠ OutOfFuel.
Proof. destruct m; cbn; naive_solver. Qed.

Ltac no_fuel :=
  repeat first
    [ discriminate
    | apply index_fuel | apply slice_fuel | apply init_fuel
    | apply bind_fuel; [|intros ?]
    | match goal with
      | |- (let '(_, _) := ?p in _) ≠ _ => destruct p
      | |- (if ?b then _ else _) ≠ _ => destruct b
      end ].

Lemma twoKeys_fuel data n : twoKeys data n ≠ OutOfFuel.
Proof. unfold twoKeys. cbv zeta. no_fuel. Qed.

(** The decoder does not run for ever; the only failures are errors and panics. *)
Lemma Base58CheckDeserialize_fuel s : Base58CheckDeserialize s ≠ OutOfFuel.
Proof.
  unfold Base58CheckDeserialize. apply bind_fuel; [|intros [data ?]].
  { pose proof (Base58Check_Decode_returns s). by destruct (Base58Check_Decode s). }
  unfold deserialize, deserializeKey, deserializePriKey, deserializePaymentAddress. cbv zeta.
  repeat (no_fuel || apply twoKeys_fuel).
  pose proof (validChecksum_returns data). by destruct (validChecksum data).
Qed.

(** A payment address without one-time public key panics the decoder exactly when one of its
    two length bytes points past the bytes; the checksum plays no role. *)
Theorem payment_address_panics data b1 : List.length data = 71%nat → data !! 0%nat = Some PaymentAddressType →
  data !! 1%nat = Some b1 → 0 ≤ b1 → Forall is_byte data →
  (deserialize data = Panic ↔
     69 ≤ b1 ∨ ∃ b2, data !! Z.to_nat (b1 + 2) = Some b2 ∧ Z.of_nat (roundupsize 71) < 3 + b1 + b2).
Proof.
  intros Hlen H0' H1 Hb1 Hbytes. unfold deserialize, deserializeKey, deserializePaymentAddress, index.
  rewrite Hlen, H0', H1. change (71 <? 2)%nat with false. cbn [mbind outcome_bind].
  change (PaymentAddressType =? PriKeyType) with false. change (PaymentAddressType =? PaymentAddressType) with true.
  cbv iota zeta. rewrite andb_false_r. cbn [andb]. cbv iota.
  pose proof (roundupsize_le 71) as Hcap.
  replace (Z.to_nat (b1 + 2)) with (Z.to_nat b1 + 2)%nat by lia.
  destruct (data !! (Z.to_nat b1 + 2)%nat) as [b2|] eqn:E2; cbn [mbind outcome_bind].
  2: { apply lookup_ge_None in E2. split; [left; lia|done]. }
  pose proof (lookup_lt_Some _ _ _ E2) as Hlt. pose proof (Forall_lookup_1 _ _ _ _ Hbytes E2) as Hb2.
  unfold is_byte in Hb2. unfold slice. rewrite Hlen.
  rewrite (proj2 (Nat.leb_le 2 _)), (proj2 (Nat.leb_le (2 + Z.to_nat b1) _)) by lia. cbn [andb mbind outcome_bind].
  rewrite (proj2 (Nat.leb_le (3 + Z.to_nat b1) _)) by lia. cbn [andb].
  change (paymentAddrSerializedBytesLen <? 71)%nat with false.
  destruct (Nat.leb_spec (3 + Z.to_nat b1 + Z.to_nat b2) (roundupsize 71)) as [Hle|Hgt]; cbn [mbind outcome_bind].
  - pose proof (validChecksum_returns data). split; [by destruct (validChecksum data)|].
    intros [?|(b & [= <-] & ?)]; lia.
  - split; [|done]. intros _. right. exists b2. split; [done|lia].
Qed.

(** Whatever the hashes and the runtime, some text makes the decoder panic. *)
Definition crafted : bytes := PaymentAddressType :: 255 :: replicate 69 0.

Theorem crafted_address_panics : ∃ s, printed crafted = Ok s ∧ Base58CheckDeserialize s = Panic.
Proof.
  destruct (printed_decodes crafted) as (s & Es & Ed).
  { constructor; [done|]. constructor; [done|]. by apply digits_zeros. }
  exists s. split; [done|]. unfold Base58CheckDeserialize. rewrite Ed. cbn [mbind outcome_bind].
  apply (payment_address_panics crafted 255); [done..|lia| |left; lia].
  constructor; [done|]. constructor; [done|]. by apply digits_zeros.
Qed.

End KeyFacts.

(** ** A wallet to compute with: hashes without content, a runtime that rounds sizes up *)
Module DemoWallet.

#[export] Instance demo_ops : WalletOps := {|
  HashB _ := replicate 32 7;
  SHA256 _ := replicate 32 9;
  GeneratePaymentAddress k := (k, k, k);
  GenerateViewingKey k := (k, k);
  GenerateOTAKey k := (k, k);
  publicSpendBytes k := Ok k;
  otaSecretBytes k := Ok k;
  roundupsize n := (n + n mod 16)%nat;
|}.

#[export] Instance demo_laws : WalletLaws.
Proof.
  split; intros; cbn [HashB SHA256 roundupsize demo_ops]; try done; try lia; by apply Forall_replicate.
Qed.

(** A key set whose address starts with zeros. *)
Definition key : KeyWallet :=
  mkKeyWallet 0 [0; 0; 0; 0] (replicate 32 5)
    (mkKeySet (replicate 32 1) (mkPaymentAddress (0 :: replicate 31 200) (replicate 32 3) (replicate 32 4))
              (mkViewingKey [] []) (mkOTAKey [] [])).

(** Its address as text. *)
Definition text (k : KeyWallet) : string :=
  match Base58CheckSerialize ∅ k PaymentAddressType with Ok (s, _) => s | _ => EmptyString end.

(** The text of an address made of [n] and [n + 1]. *)
Definition addressText (n : Z) : string :=
  text (onlyAddress (mkPaymentAddress (replicate 32 n) (replicate 32 (n + 1)) [])).

End DemoWallet.
#[local] Existing Instance DemoWallet.demo_ops.
#[local] Existing Instance DemoWallet.demo_laws.

Lemma key_roundtrip_witness :
  serializable DemoWallet.key PaymentAddressType ∧ goodCache ∅ ∧
  ∃ s cache' key', Base58CheckSerialize ∅ DemoWallet.key PaymentAddressType = Ok (s, cache') ∧ goodCache cache' ∧
    restored DemoWallet.key PaymentAddressType = Ok key' ∧ Base58CheckDeserialize s = Ok key'.
Proof.
  assert (serializable DemoWallet.key PaymentAddressType) as Hkey.
  { right. left. split; [reflexivity|]. unfold key32.
    split; [split; [reflexivity|apply Forall_fold_right; vm_compute; intuition congruence]|].
    split; [split; [reflexivity|apply Forall_fold_right; vm_compute; intuition congruence]|].
    right. split; [reflexivity|apply Forall_fold_right; vm_compute; intuition congruence]. }
  assert (goodCache ∅) as Hcache by (intros i s Hi; rewrite lookup_empty in Hi; discriminate).
  split; [exact Hkey|split; [exact Hcache|]].
  exact (key_roundtrip DemoWallet.key PaymentAddressType ∅ Hkey Hcache).
Defined.

(** The text is computed, and read again; the crafted one is not. *)
Definition demo_read (s : outcome string) : outcome PaymentAddress :=
  s ← s; k ← Base58CheckDeserialize s; Ok (ksPaymentAddress (kwKeySet k)).

Example DemoWallet_text :
  demo_read (Ok (DemoWallet.text DemoWallet.key)) = Ok (ksPaymentAddress (kwKeySet DemoWallet.key)).
Proof. by vm_compute. Qed.
Example DemoWallet_crafted : demo_read (printed crafted) = Panic.
Proof. by vm_compute. Qed.
