(* ===== verification/InstructionText.v ===== *)
(** The text of beacon instructions: what [src/instruction] uses of Go's [strings] and
    [strconv], and the lookups that turn fields into keys, addresses and hashes.

    An instruction is a list of strings.  A field that holds several values joins them with a
    comma.  Payment addresses are decoded by [Wallet.Base58CheckDeserialize].  A committee key is
    the JSON text of its parts behind the same base58 check, whose decoder returns on every text
    ([Wallet.Base58Check_Decode_returns]); its parser ([CommitteePublicKey.FromString]) is a
    parameter. *)
From S2P Require Import Prelude Hash Wallet.
From Stdlib Require Import Ascii String.

Local Open Scope Z_scope.

(** *** [strings.Join] and [strings.Split] with the separator [SPLITTER] *)
Definition SPLITTER : ascii := ","%char.

Fixpoint Join (l : list string) : string :=
  match l with
  | [] => ""
  | [x] => x
  | x :: l => x +:+ String SPLITTER (Join l)
  end.

(** The text up to the first separator, then the rest; never empty. *)
Fixpoint Split (s : string) : list string :=
  match s with
  | EmptyString => [EmptyString]
  | String c s =>
      if Ascii.eqb c SPLITTER then EmptyString :: Split s
      else match Split s with
           | x :: l => String c x :: l
           | [] => [String c EmptyString]
           end
  end.

Fixpoint noComma (s : string) : bool :=
  match s with
  | EmptyString => true
  | String c s => negb (Ascii.eqb c SPLITTER) && noComma s
  end.

(** *** [strconv]: decimal numbers *)
Definition word63 : Z := 9223372036854775808.
Definition in_i64 (x : Z) : Prop := - word63 ≤ x < word63.

Definition digit (d : Z) : ascii := ascii_of_nat (48 + Z.to_nat d).

Definition digitVal (c : ascii) : option Z :=
  let n := Z.of_nat (nat_of_ascii c) in
  if (48 <=? n) && (n <=? 57) then Some (n - 48) else None.

Fixpoint formatLoop (fuel : nat) (n : Z) (acc : string) : string :=
  match fuel with
  | O => acc
  | S fuel =>
      let acc := String (digit (n mod 10)) acc in
      if n <? 10 then acc else formatLoop fuel (n / 10) acc
  end.

(** 20 digits suffice for 64 bits. *)
Definition FormatUint (n : Z) : string := formatLoop 20 n "".
Definition FormatInt (n : Z) : string :=
  if n <? 0 then String "-"%char (FormatUint (- n)) else FormatUint n.

Inductive numError := ErrSyntax | ErrRange.

Fixpoint parseLoop (s : string) (n : Z) : Z + numError :=
  match s with
  | EmptyString => inl n
  | String c s =>
      match digitVal c with
      | None => inr ErrSyntax
      | Some d => if word64 <=? n * 10 + d then inr ErrRange else parseLoop s (n * 10 + d)
      end
  end.

(** The value is returned next to the error, as callers that drop the error use it. *)
Definition ParseUint (s : string) : Z * option numError :=
  match s with
  | EmptyString => (0, Some ErrSyntax)
  | _ => match parseLoop s 0 with
         | inl n => (n, None)
         | inr ErrSyntax => (0, Some ErrSyntax)
         | inr ErrRange => (word64 - 1, Some ErrRange)
         end
  end.

Definition signed (neg : bool) (r : Z * option numError) : Z * option numError :=
  match r with
  | (_, Some ErrSyntax) => (0, Some ErrSyntax)
  | (un, _) =>
      if negb neg && (word63 <=? un) then (word63 - 1, Some ErrRange)
      else if neg && (word63 <? un) then (- word63, Some ErrRange)
      else (if neg then - un else un, None)
  end.

Definition ParseInt (s : string) : Z * option numError :=
  match s with
  | EmptyString => (0, Some ErrSyntax)
  | String c t =>
      if Ascii.eqb c "+"%char then signed false (ParseUint t)
      else if Ascii.eqb c "-"%char then signed true (ParseUint t)
      else signed false (ParseUint s)
  end.

Definition Atoi (s : string) : Z * option numError := ParseInt s.

(** A parse whose error is returned, and one whose error is dropped. *)
Definition checked (r : Z * option numError) : outcome Z :=
  match r with (n, None) => Ok n | (_, Some _) => Err "strconv: invalid number" end.
Definition unchecked (r : Z * option numError) : Z := r.1.

(** *** Fields *)

(** [instruction[n]] panics past the end. *)
Definition field (n : nat) (inst : list string) : outcome string :=
  match inst !! n with Some s => Ok s | None => Panic end.

Definition require (b : bool) (e : string) : outcome unit := if b then Ok tt else Err e.

(** A result whose error is dropped: the caller goes on with a nil pointer and panics. *)
Definition orPanic {A} (m : outcome A) : outcome A :=
  match m with Err _ => Panic | _ => m end.

#[export] Instance outcome_fmap : FMap outcome := λ A B f m,
  match m with
  | Ok a => Ok (f a)
  | Err e => Err e
  | Panic => Panic
  | OutOfFuel => OutOfFuel
  end.

Fixpoint mapErr {A B} (f : A → outcome B) (l : list A) : outcome (list B) :=
  match l with
  | [] => Ok []
  | x :: l => y ← f x; ys ← mapErr f l; Ok (y :: ys)
  end.

(** What the fields of an instruction refer to. *)
Class Keys := {
  CommitteePublicKey : Type;
  FromString : string → option CommitteePublicKey;
  keys_wallet :: WalletOps;
}.

Abbreviation PaymentAddress := Wallet.PaymentAddress.

Section Fields.
Context `{Keys}.

Definition keyOf (key : string) : outcome CommitteePublicKey :=
  match FromString key with Some k => Ok k | None => Err "cannot parse committee key" end.
Definition addressOf (address : string) : outcome PaymentAddress :=
  keyWallet ← Base58CheckDeserialize address;
  Ok (ksPaymentAddress (kwKeySet keyWallet)).

(** A list of one empty string, which is what splitting an empty field gives, is no key. *)
Definition CommitteeBase58KeyListToStruct (strKeyList : list string) : outcome (list CommitteePublicKey) :=
  match strKeyList with
  | [] | [EmptyString] => Ok []
  | _ => mapErr keyOf strKeyList
  end.

End Fields.

(** ** Facts *)
Lemma Split_not_nil s : Split s ≠ [].
Proof.
  destruct s as [|c s]; cbn; [done|]. destruct (Ascii.eqb c SPLITTER); [done|]. by destruct (Split s).
Qed.

Lemma Split_word x : noComma x = true → Split x = [x].
Proof.
  induction x as [|c x IH]; cbn; [done|]. intros [Hc Hx]%andb_true_iff.
  apply negb_true_iff in Hc. by rewrite Hc, IH.
Qed.

Lemma Split_app x s : noComma x = true → Split (x +:+ String SPLITTER s) = x :: Split s.
Proof.
  induction x as [|c x IH]; [done|]. cbn [noComma]. intros [Hc Hx]%andb_true_iff.
  apply negb_true_iff in Hc.
  change (String c x +:+ String SPLITTER s) with (String c (x +:+ String SPLITTER s)).
  cbn [Split]. by rewrite Hc, IH.
Qed.

(** Splitting undoes joining, for a non-empty list of texts without commas. *)
Lemma Split_Join l : l ≠ [] → forallb noComma l = true → Split (Join l) = l.
Proof.
  induction l as [|x [|y l] IH]; intros Hl Hc; [done| |].
  - apply Split_word. cbn in Hc. by rewrite andb_true_r in Hc.
  - cbn [forallb] in Hc. apply andb_true_iff in Hc as [Hx Hrest].
    change (Join (x :: y :: l)) with (x +:+ String SPLITTER (Join (y :: l))).
    by rewrite Split_app, IH.
Qed.

(** Joining undoes splitting, whatever the text. *)
Lemma Join_Split s : Join (Split s) = s.
Proof.
  induction s as [|c s IH]; [done|]. cbn. destruct (Ascii.eqb_spec c SPLITTER) as [->|Hc].
  - destruct (Split s) as [|x l] eqn:E; [by apply Split_not_nil in E|].
    change (Join (EmptyString :: x :: l)) with (String SPLITTER (Join (x :: l))). by rewrite IH.
  - destruct (Split s) as [|x [|y l]] eqn:E; [by apply Split_not_nil in E| |].
    + cbn in *. by rewrite IH.
    + change (Join (String c x :: y :: l)) with (String c (Join (x :: y :: l))). by rewrite IH.
Qed.

Lemma Join_empty l : Join l = "" → l = [] ∨ l = [EmptyString].
Proof.
  destruct l as [|x [|y l]]; cbn; [by left|intros ->; by right|]. by destruct x.
Qed.

Lemma digitVal_digit d : 0 ≤ d < 10 → digitVal (digit d) = Some d.
Proof.
  intros Hd. unfold digitVal, digit. rewrite nat_ascii_embedding by lia.
  rewrite Nat2Z.inj_add, Z2Nat.id by lia.
  rewrite (proj2 (Z.leb_le _ _)), (proj2 (Z.leb_le _ _)) by lia. cbn [andb]. f_equal. lia.
Qed.

Lemma parseLoop_format fuel n acc : 0 ≤ n < 10 ^ Z.of_nat fuel → n < word64 → (fuel > 0)%nat →
  parseLoop (formatLoop fuel n acc) 0 = parseLoop acc n.
Proof.
  revert n acc. induction fuel as [|fuel IH]; intros n acc Hn Hw Hf; [lia|].
  assert (0 ≤ n mod 10 < 10) as Hmod by (apply Z.mod_pos_bound; lia).
  assert (n = 10 * (n / 10) + n mod 10) as Hdiv by (apply Z_div_mod_eq_full).
  cbn [formatLoop]. destruct (Z.ltb_spec n 10) as [Hlt|Hge].
  - cbn [parseLoop]. rewrite digitVal_digit by done. rewrite (Z.mod_small n 10) by lia.
    by rewrite (proj2 (Z.leb_gt _ _)) by lia.
  - rewrite Nat2Z.inj_succ, Z.pow_succ_r in Hn by lia.
    rewrite IH; [| |lia|].
    + cbn [parseLoop]. rewrite digitVal_digit by done.
      rewrite (proj2 (Z.leb_gt _ _)) by lia. f_equal. lia.
    + split; [apply Z.div_pos; lia|apply Z.div_lt_upper_bound; lia].
    + destruct fuel; [cbn in Hn; lia|lia].
Qed.

Lemma formatLoop_not_empty fuel n acc : (fuel > 0)%nat → ∃ d t, 0 ≤ d < 10 ∧ formatLoop fuel n acc = String (digit d) t.
Proof.
  revert n acc. induction fuel as [|fuel IH]; intros n acc Hf; [lia|]. cbn [formatLoop].
  assert (0 ≤ n mod 10 < 10) as Hmod by (apply Z.mod_pos_bound; lia).
  destruct (n <? 10); [by eexists _, _|]. destruct fuel; [by eexists _, _|]. apply IH. lia.
Qed.

(** Parsing undoes printing. *)
Lemma ParseUint_FormatUint n : in_u64 n → ParseUint (FormatUint n) = (n, None).
Proof.
  intros Hn. unfold ParseUint, FormatUint.
  destruct (formatLoop_not_empty 20 n "") as (d & t & _ & E); [lia|]. rewrite E, <- E.
  rewrite parseLoop_format; [done| |apply Hn|lia].
  split; [apply Hn|]. destruct Hn as [_ Hn]. unfold word64 in Hn. cbn. lia.
Qed.

Lemma digit_not_sign d : 0 ≤ d < 10 → Ascii.eqb (digit d) "+"%char = false ∧ Ascii.eqb (digit d) "-"%char = false.
Proof.
  intros Hd. assert (digitVal (digit d) = Some d) as Hv by (by apply digitVal_digit).
  split; apply not_true_is_false; intros E%Ascii.eqb_eq; rewrite E in Hv; by vm_compute in Hv.
Qed.

Lemma ParseInt_unsigned n : in_u64 n → ParseInt (FormatUint n) = signed false (n, None).
Proof.
  intros Hn. unfold ParseInt. rewrite <- ParseUint_FormatUint by done. unfold FormatUint.
  destruct (formatLoop_not_empty 20 n "") as (d & t & Hd & E); [lia|]. rewrite !E.
  by destruct (digit_not_sign d Hd) as [-> ->].
Qed.

Lemma Atoi_FormatInt n : in_i64 n → Atoi (FormatInt n) = (n, None).
Proof.
  intros Hn. unfold Atoi, FormatInt, in_i64, word63 in *. destruct (Z.ltb_spec n 0).
  - cbn [ParseInt]. cbn -[ParseUint FormatUint signed].
    rewrite ParseUint_FormatUint by (unfold in_u64, word64; lia). unfold signed, word63.
    cbn [negb andb]. rewrite (proj2 (Z.ltb_ge _ _)) by lia. f_equal. lia.
  - rewrite ParseInt_unsigned by (unfold in_u64, word64; lia). unfold signed, word63.
    cbn [negb andb]. by rewrite (proj2 (Z.leb_gt _ _)) by lia.
Qed.

(** Printed numbers hold no comma. *)
Lemma digit_noComma d : 0 ≤ d < 10 → Ascii.eqb (digit d) SPLITTER = false.
Proof.
  intros Hd. assert (digitVal (digit d) = Some d) as Hv by (by apply digitVal_digit).
  apply not_true_is_false. intros E%Ascii.eqb_eq. rewrite E in Hv. by vm_compute in Hv.
Qed.

Lemma formatLoop_noComma fuel n acc : noComma acc = true → noComma (formatLoop fuel n acc) = true.
Proof.
  revert n acc. induction fuel as [|fuel IH]; intros n acc Ha; [done|]. cbn [formatLoop].
  assert (noComma (String (digit (n mod 10)) acc) = true) as Ha'.
  { cbn. rewrite digit_noComma by (apply Z.mod_pos_bound; lia). done. }
  destruct (n <? 10); [done|by apply IH].
Qed.

Lemma FormatUint_noComma n : noComma (FormatUint n) = true.
Proof. by apply formatLoop_noComma. Qed.
Lemma FormatInt_noComma n : noComma (FormatInt n) = true.
Proof.
  unfold FormatInt. destruct (n <? 0); [|apply FormatUint_noComma].
  cbn [noComma]. by rewrite FormatUint_noComma.
Qed.

Lemma forallb_noComma_fmap {A} (f : A → string) l : (∀ x, noComma (f x) = true) →
  forallb noComma (f <$> l) = true.
Proof. intros Hf. apply forallb_forall. intros x (y & <- & _)%in_map_iff. apply Hf. Qed.

Lemma Split_Join_fmap {A} (f : A → string) l : l ≠ [] → (∀ x, noComma (f x) = true) →
  Split (Join (f <$> l)) = f <$> l.
Proof. intros Hl Hf. apply Split_Join; [by destruct l|by apply forallb_noComma_fmap]. Qed.

Lemma mapErr_fmap {A B} (f : A → outcome B) (g : B → A) l :
  (∀ y, y ∈ l → f (g y) = Ok y) → mapErr f (g <$> l) = Ok l.
Proof.
  induction l as [|y l IH]; intros Hf; [done|]. cbn. rewrite Hf by left. cbn.
  rewrite IH; [done|]. intros z Hz. apply Hf. by right.
Qed.

Lemma mapErr_length {A B} (f : A → outcome B) l r : mapErr f l = Ok r → List.length r = List.length l.
Proof.
  revert r. induction l as [|x l IH]; intros r Hr; cbn in Hr; [by injection Hr as <-|].
  destruct (f x); try discriminate. cbn in Hr. destruct (mapErr f l) as [ys| | |]; try discriminate.
  cbn in Hr. injection Hr as <-. cbn. by rewrite (IH ys).
Qed.

Lemma mapErr_returns {A B} (f : A → outcome B) l : (∀ x, x ∈ l → returns (f x)) → returns (mapErr f l).
Proof.
  induction l as [|x l IH]; intros Hf; [done|]. cbn. apply outcome_bind_returns; [apply Hf; by left|].
  intros y _. apply outcome_bind_returns; [apply IH; intros z Hz; apply Hf; by right|done].
Qed.

Lemma keys_return `{Keys} l : returns (CommitteeBase58KeyListToStruct l).
Proof.
  assert (∀ k, returns (keyOf k)) as Hk by (intros k; unfold keyOf; by destruct (FromString k)).
  unfold CommitteeBase58KeyListToStruct. destruct l as [|k l]; [done|].
  destruct k; [destruct l; [done|]|]; apply mapErr_returns; auto.
Qed.
