(* ===== verification/BeaconInstructions.v ===== *)
(** Beacon instructions ([src/instruction]): what the beacon chain's blocks carry about
    validators (stakes, swaps, random numbers, returns, rewards, features) as lists of
    strings.  Each instruction is a record with its printer, its sanity check and its parser;
    [ValidateAndImport...] is what every node runs on a block it receives.

    The instructions whose fields are JSON (dequeue, block rewards) are not modelled. *)
From S2P Require Import Prelude Hash InstructionText.
From Stdlib Require Import Ascii String.

Local Open Scope Z_scope.

Definition SWAP_SHARD_ACTION : string := "swapshard".
Definition SWAP_ACTION : string := "swap".
Definition RANDOM_ACTION : string := "random".
Definition RE_DELEGATE : string := "redelegate".
Definition STAKE_ACTION : string := "stake".
Definition BEACON_STAKE_ACTION : string := "bstake".
Definition ASSIGN_ACTION : string := "assign".
Definition STOP_AUTO_STAKE_ACTION : string := "stopautostake".
Definition SET_ACTION : string := "set".
Definition RETURN_ACTION : string := "return".
Definition UNSTAKE_ACTION : string := "unstake".
Definition ADD_STAKING_ACTION : string := "addstake".
Definition RETURN_BEACON_ACTION : string := "returnb".
Definition SHARD_INST : string := "shard".
Definition BEACON_INST : string := "beacon".
Definition TRUE : string := "true".
Definition FALSE : string := "false".
Definition FINISH_SYNC_ACTION : string := "finishsync".
Definition REQ_DREWARD_ACTION : string := "reqdreward".
Definition MINT_DREWARD_ACTION : string := "mintdreward".
Definition SHARE_PRICE : string := "shareprice".
Definition ENABLE_FEATURE : string := "enablefeature".
Definition ACCEPT_BLOCK_REWARD_V3_ACTION : string := "acceptblockrewardv3".
Definition SHARD_RECEIVE_REWARD_V3_ACTION : string := "shardreceiverewardv3".
Definition BEACON_CHAIN_ID : Z := -1.
Definition SWAP_BY_END_EPOCH : Z := 0.

Definition eqS (a b : string) : bool := bool_decide (a = b).
Definition lenIs (n : nat) (inst : list string) : outcome unit :=
  require (List.length inst =? n)%nat "invalid length".
Definition sameLength {A B} (a : list A) (b : list B) : outcome unit :=
  require (List.length a =? List.length b)%nat "invalid lengths".
Definition actionIs (action : string) (inst : list string) : outcome unit :=
  a ← field 0 inst; require (eqS a action) "invalid action".

Definition flagText (b : bool) : string := if b then TRUE else FALSE.
Definition flagOf (s : string) : bool := eqS s TRUE.

(** A field that is left out of the list when it is empty. *)
Definition SplitNonEmpty (s : string) : list string := if eqS s "" then [] else Split s.

(** [uint] to [int] and back. *)
Definition toInt (v : Z) : Z := if v <? word63 then v else v - word64.
Definition toUint (n : Z) : Z := n mod word64.

Section Instructions.
Context `{Keys}.

(** *** [StakeInstruction] *)
Record StakeInstruction := {
  siPublicKeys : list string;
  siPublicKeyStructs : list CommitteePublicKey;
  siChain : string;
  siTxStakes : list string;
  siTxStakeHashes : list Hash;
  siRewardReceivers : list string;
  siRewardReceiverStructs : list PaymentAddress;
  siAutoStakingFlag : list bool;
}.

Definition StakeInstruction_ToString (s : StakeInstruction) : list string :=
  [STAKE_ACTION; Join (siPublicKeys s); siChain s; Join (siTxStakes s); Join (siRewardReceivers s);
   Join (flagText <$> siAutoStakingFlag s)].

Definition ImportStakeInstructionFromString (inst : list string) : outcome StakeInstruction :=
  f1 ← field 1 inst;
  keys ← orPanic (CommitteeBase58KeyListToStruct (Split f1));
  f3 ← field 3 inst;
  hashes ← orPanic (mapErr NewHashFromStr (Split f3));
  f4 ← field 4 inst;
  receivers ← orPanic (mapErr addressOf (Split f4));
  f5 ← field 5 inst;
  f2 ← field 2 inst;
  mret {| siPublicKeys := Split f1; siPublicKeyStructs := keys; siChain := f2;
          siTxStakes := Split f3; siTxStakeHashes := hashes;
          siRewardReceivers := Split f4; siRewardReceiverStructs := receivers;
          siAutoStakingFlag := flagOf <$> Split f5 |}.

(** The chain is read before the length is checked. *)
Definition ValidateStakeInstructionSanity (inst : list string) : outcome unit :=
  f2 ← field 2 inst;
  require (eqS f2 SHARD_INST) "invalid chain id";;
  lenIs 6 inst;;
  actionIs STAKE_ACTION inst;;
  f1 ← field 1 inst;
  f3 ← field 3 inst;
  mapErr NewHashFromStr (Split f3);;
  f4 ← field 4 inst;
  mapErr addressOf (Split f4);;
  f5 ← field 5 inst;
  CommitteeBase58KeyListToStruct (Split f1);;
  sameLength (Split f1) (Split f3);;
  sameLength (Split f4) (Split f3);;
  sameLength (Split f4) (Split f5).

Definition ValidateAndImportStakeInstructionFromString (inst : list string) : outcome StakeInstruction :=
  ValidateStakeInstructionSanity inst;; ImportStakeInstructionFromString inst.

(** *** [BeaconStakeInstruction] *)
Record BeaconStakeInstruction := {
  bsPublicKeys : list string;
  bsPublicKeyStructs : list CommitteePublicKey;
  bsChain : string;
  bsTxStakes : list string;
  bsTxStakeHashes : list Hash;
  bsRewardReceivers : list string;
  bsRewardReceiverStructs : list PaymentAddress;
  bsAutoStakingFlag : list bool;
  bsStakingAmount : list Z;
  bsFunderAddress : list string;
  bsFunderAddressStructs : list PaymentAddress;
}.

Definition BeaconStakeInstruction_ToString (s : BeaconStakeInstruction) : list string :=
  [BEACON_STAKE_ACTION; Join (bsPublicKeys s); bsChain s; Join (bsTxStakes s);
   Join (bsRewardReceivers s); Join (flagText <$> bsAutoStakingFlag s);
   Join (FormatUint <$> bsStakingAmount s); Join (bsFunderAddress s)].

(** [math.ParseUint64] of go-ethereum: the value, and whether the text was a number. *)
Context (ParseUint64 : string → Z * bool).

Definition ImportBeaconStakeInstructionFromString (inst : list string) : outcome BeaconStakeInstruction :=
  f1 ← field 1 inst;
  keys ← orPanic (CommitteeBase58KeyListToStruct (Split f1));
  f3 ← field 3 inst;
  hashes ← orPanic (mapErr NewHashFromStr (Split f3));
  f4 ← field 4 inst;
  receivers ← orPanic (mapErr addressOf (Split f4));
  f5 ← field 5 inst;
  f2 ← field 2 inst;
  f6 ← field 6 inst;
  f7 ← field 7 inst;
  funders ← orPanic (mapErr addressOf (Split f7));
  mret {| bsPublicKeys := Split f1; bsPublicKeyStructs := keys; bsChain := f2;
          bsTxStakes := Split f3; bsTxStakeHashes := hashes;
          bsRewardReceivers := Split f4; bsRewardReceiverStructs := receivers;
          bsAutoStakingFlag := flagOf <$> Split f5;
          bsStakingAmount := (λ s, (ParseUint64 s).1) <$> Split f6;
          bsFunderAddress := Split f7; bsFunderAddressStructs := funders |}.

Definition ValidateBeaconStakeInstructionSanity (inst : list string) : outcome unit :=
  f2 ← field 2 inst;
  require (eqS f2 BEACON_INST) "invalid chain id";;
  lenIs 8 inst;;
  actionIs BEACON_STAKE_ACTION inst;;
  f1 ← field 1 inst;
  f3 ← field 3 inst;
  mapErr NewHashFromStr (Split f3);;
  f4 ← field 4 inst;
  mapErr addressOf (Split f4);;
  f5 ← field 5 inst;
  CommitteeBase58KeyListToStruct (Split f1);;
  sameLength (Split f1) (Split f3);;
  sameLength (Split f4) (Split f3);;
  sameLength (Split f4) (Split f5).

Definition ValidateAndImportBeaconStakeInstructionFromString (inst : list string) :
    outcome BeaconStakeInstruction :=
  ValidateBeaconStakeInstructionSanity inst;; ImportBeaconStakeInstructionFromString inst.

(** *** [RandomInstruction] *)
Record RandomInstruction := { randomNumber : Z }.

Definition RandomInstruction_ToString (s : RandomInstruction) : list string :=
  [RANDOM_ACTION; FormatInt (randomNumber s); ""; ""; ""].

Definition ImportRandomInstructionFromString (inst : list string) : outcome RandomInstruction :=
  f1 ← field 1 inst; mret (Build_RandomInstruction (unchecked (ParseInt f1))).

Definition ValidateRandomInstructionSanity (inst : list string) : outcome unit :=
  require (negb (List.length inst <? 2)%nat) "invalid length";;
  actionIs RANDOM_ACTION inst;;
  f1 ← field 1 inst;
  checked (ParseInt f1);;
  mret tt.

Definition ValidateAndImportRandomInstructionFromString (inst : list string) : outcome RandomInstruction :=
  ValidateRandomInstructionSanity inst;; ImportRandomInstructionFromString inst.

(** *** [StopAutoStakeInstruction] and [UnstakeInstruction]: a list of keys *)
Record StopAutoStakeInstruction := {
  saCommitteePublicKeys : list string;
  saCommitteePublicKeysStruct : list CommitteePublicKey;
}.

Definition StopAutoStakeInstruction_ToString (s : StopAutoStakeInstruction) : list string :=
  [STOP_AUTO_STAKE_ACTION; Join (saCommitteePublicKeys s)].

(** On keys that do not parse the result is a nil pointer, here [None]. *)
Definition ImportStopAutoStakeInstructionFromString (inst : list string) :
    outcome (option StopAutoStakeInstruction) :=
  f1 ← field 1 inst;
  mret (match CommitteeBase58KeyListToStruct (SplitNonEmpty f1) with
        | Ok keys => Some (Build_StopAutoStakeInstruction (SplitNonEmpty f1) keys)
        | _ => None
        end).

Definition ValidateStopAutoStakeInstructionSanity (inst : list string) : outcome unit :=
  lenIs 2 inst;;
  actionIs STOP_AUTO_STAKE_ACTION inst;;
  f1 ← field 1 inst;
  CommitteeBase58KeyListToStruct (Split f1);;
  mret tt.

Definition ValidateAndImportStopAutoStakeInstructionFromString (inst : list string) :
    outcome (option StopAutoStakeInstruction) :=
  ValidateStopAutoStakeInstructionSanity inst;; ImportStopAutoStakeInstructionFromString inst.

Record UnstakeInstruction := {
  uiCommitteePublicKeys : list string;
  uiCommitteePublicKeysStruct : list CommitteePublicKey;
}.

Definition UnstakeInstruction_ToString (s : UnstakeInstruction) : list string :=
  [UNSTAKE_ACTION; Join (uiCommitteePublicKeys s)].

(** The error of the key parser is dropped, which leaves no parsed keys. *)
Definition ImportUnstakeInstructionFromString (inst : list string) : outcome UnstakeInstruction :=
  mret (match inst !! 1%nat with
        | None => Build_UnstakeInstruction [] []
        | Some f1 =>
            Build_UnstakeInstruction (SplitNonEmpty f1)
              (match CommitteeBase58KeyListToStruct (SplitNonEmpty f1) with Ok keys => keys | _ => [] end)
        end).

Definition ValidateUnstakeInstructionSanity (inst : list string) : outcome unit :=
  lenIs 2 inst;;
  actionIs UNSTAKE_ACTION inst;;
  f1 ← field 1 inst;
  CommitteeBase58KeyListToStruct (Split f1);;
  mret tt.

Definition ValidateAndImportUnstakeInstructionFromString (inst : list string) : outcome UnstakeInstruction :=
  ValidateUnstakeInstructionSanity inst;; ImportUnstakeInstructionFromString inst.

(** *** [SwapShardInstruction] *)
Record SwapShardInstruction := {
  ssInPublicKeys : list string;
  ssInPublicKeyStructs : list CommitteePublicKey;
  ssOutPublicKeys : list string;
  ssOutPublicKeyStructs : list CommitteePublicKey;
  ssChainID : Z;
  ssType : Z;
}.

Definition NewSwapShardInstruction : SwapShardInstruction := Build_SwapShardInstruction [] [] [] [] 0 0.
Definition NewSwapShardInstructionWithShardID (chainID : Z) : SwapShardInstruction :=
  Build_SwapShardInstruction [] [] [] [] chainID 0.

(** A setter that fails returns nil; the next setter, or the caller, then dereferences it. *)
Definition NewSwapShardInstructionWithValue (inPublicKeys outPublicKeys : list string)
    (chainID typeIns : Z) : outcome SwapShardInstruction :=
  ins ← orPanic (CommitteeBase58KeyListToStruct inPublicKeys);
  outs ← orPanic (CommitteeBase58KeyListToStruct outPublicKeys);
  mret (Build_SwapShardInstruction inPublicKeys ins outPublicKeys outs chainID typeIns).

Definition SwapShardInstruction_IsEmpty (s : SwapShardInstruction) : bool :=
  (List.length (ssOutPublicKeyStructs s) =? 0)%nat && (List.length (ssOutPublicKeys s) =? 0)%nat &&
  (List.length (ssInPublicKeyStructs s) =? 0)%nat && (List.length (ssInPublicKeys s) =? 0)%nat.

Definition SwapShardInstruction_ToString (s : SwapShardInstruction) : list string :=
  [SWAP_SHARD_ACTION; Join (ssInPublicKeys s); Join (ssOutPublicKeys s);
   FormatInt (ssChainID s); FormatInt (ssType s)].

Definition ImportSwapShardInstructionFromString (inst : list string) : outcome SwapShardInstruction :=
  f1 ← field 1 inst;
  ins ← orPanic (CommitteeBase58KeyListToStruct (SplitNonEmpty f1));
  f2 ← field 2 inst;
  outs ← orPanic (CommitteeBase58KeyListToStruct (SplitNonEmpty f2));
  f3 ← field 3 inst;
  f4 ← field 4 inst;
  mret (Build_SwapShardInstruction (SplitNonEmpty f1) ins (SplitNonEmpty f2) outs
          (unchecked (Atoi f3)) (unchecked (Atoi f4))).

Definition ValidateSwapShardInstructionSanity (inst : list string) : outcome unit :=
  lenIs 5 inst;;
  actionIs SWAP_SHARD_ACTION inst;;
  f1 ← field 1 inst;
  CommitteeBase58KeyListToStruct (Split f1);;
  f2 ← field 2 inst;
  CommitteeBase58KeyListToStruct (Split f2);;
  f3 ← field 3 inst;
  checked (ParseUint f3);;
  f4 ← field 4 inst;
  checked (ParseInt f4);;
  mret tt.

Definition ValidateAndImportSwapShardInstructionFromString (inst : list string) :
    outcome SwapShardInstruction :=
  ValidateSwapShardInstructionSanity inst;; ImportSwapShardInstructionFromString inst.

(** *** [FinishSyncInstruction] and [AssignInstruction]: a chain and a list of keys *)
Record FinishSyncInstruction := {
  fsChainID : Z;
  fsPublicKeys : list string;
  fsPublicKeysStruct : list CommitteePublicKey;
}.

Definition FinishSyncInstruction_ToString (f : FinishSyncInstruction) : list string :=
  [FINISH_SYNC_ACTION; FormatInt (fsChainID f); Join (fsPublicKeys f)].

Definition ImportFinishSyncInstructionFromString (inst : list string) : outcome FinishSyncInstruction :=
  f1 ← field 1 inst;
  f2 ← field 2 inst;
  keys ← CommitteeBase58KeyListToStruct (Split f2);
  mret (Build_FinishSyncInstruction (unchecked (Atoi f1)) (Split f2) keys).

Definition ValidateFinishSyncInstructionSanity (inst : list string) : outcome unit :=
  lenIs 3 inst;;
  actionIs FINISH_SYNC_ACTION inst;;
  f1 ← field 1 inst;
  checked (Atoi f1);;
  mret tt.

Definition ValidateAndImportFinishSyncInstructionFromString (inst : list string) :
    outcome FinishSyncInstruction :=
  ValidateFinishSyncInstructionSanity inst;; ImportFinishSyncInstructionFromString inst.

Record AssignInstruction := {
  aiChainID : Z;
  aiShardCandidates : list string;
  aiShardCandidatesStruct : list CommitteePublicKey;
}.

Definition AssignInstruction_ToString (a : AssignInstruction) : list string :=
  [ASSIGN_ACTION; Join (aiShardCandidates a); "shard"; FormatInt (aiChainID a)].

Definition ImportAssignInstructionFromString (inst : list string) : outcome AssignInstruction :=
  f3 ← field 3 inst;
  f1 ← field 1 inst;
  keys ← CommitteeBase58KeyListToStruct (Split f1);
  mret (Build_AssignInstruction (unchecked (Atoi f3)) (Split f1) keys).

Definition ValidateAssignInstructionSanity (inst : list string) : outcome unit :=
  lenIs 4 inst;;
  actionIs ASSIGN_ACTION inst;;
  f2 ← field 2 inst;
  require (eqS f2 SHARD_INST) "invalid assign chain ID";;
  f3 ← field 3 inst;
  checked (Atoi f3);;
  mret tt.

Definition ValidateAndImportAssignInstructionFromString (inst : list string) : outcome AssignInstruction :=
  ValidateAssignInstructionSanity inst;; ImportAssignInstructionFromString inst.

(** *** [ReturnStakeInstruction] *)
Record ReturnStakeInstruction := {
  rsPublicKeys : list string;
  rsPublicKeysStruct : list CommitteePublicKey;
  rsStakingTXIDs : list string;
  rsStakingTxHashes : list Hash;
  rsPercentReturns : list Z;
}.

Definition NewReturnStakeIns : ReturnStakeInstruction := Build_ReturnStakeInstruction [] [] [] [] [].

Definition ReturnStakeInstruction_IsEmpty (s : ReturnStakeInstruction) : bool :=
  (List.length (rsPublicKeysStruct s) =? 0)%nat && (List.length (rsPublicKeys s) =? 0)%nat.

(** A key that does not parse to one key, or a bad hash, makes it panic. *)
Definition AddNewRequest (publicKey stakingTx : string) (s : ReturnStakeInstruction) :
    outcome ReturnStakeInstruction :=
  keys ← orPanic (CommitteeBase58KeyListToStruct [publicKey]);
  match keys with
  | [] => Panic
  | key :: _ =>
      hash ← orPanic (NewHashFromStr stakingTx);
      mret {| rsPublicKeys := rsPublicKeys s ++ [publicKey];
              rsPublicKeysStruct := rsPublicKeysStruct s ++ [key];
              rsStakingTXIDs := rsStakingTXIDs s ++ [stakingTx];
              rsStakingTxHashes := rsStakingTxHashes s ++ [hash];
              rsPercentReturns := rsPercentReturns s ++ [100] |}
  end.

Definition percentText (v : Z) : string := FormatInt (toInt v).
Definition percentOf (s : string) : outcome Z := n ← checked (Atoi s); mret (toUint n).

Definition ReturnStakeInstruction_ToString (s : ReturnStakeInstruction) : list string :=
  [RETURN_ACTION; Join (rsPublicKeys s); Join (rsStakingTXIDs s); Join (percentText <$> rsPercentReturns s)].

Definition ImportReturnStakingInstructionFromString (inst : list string) : outcome ReturnStakeInstruction :=
  f1 ← field 1 inst;
  keys ← CommitteeBase58KeyListToStruct (Split f1);
  f2 ← field 2 inst;
  hashes ← mapErr NewHashFromStr (Split f2);
  f3 ← field 3 inst;
  percents ← mapErr percentOf (Split f3);
  mret (Build_ReturnStakeInstruction (Split f1) keys (Split f2) hashes percents).

Definition ValidateReturnStakingInstructionSanity (inst : list string) : outcome unit :=
  lenIs 4 inst;;
  actionIs RETURN_ACTION inst;;
  f1 ← field 1 inst;
  CommitteeBase58KeyListToStruct (Split f1);;
  f2 ← field 2 inst;
  mapErr NewHashFromStr (Split f2);;
  f3 ← field 3 inst;
  mapErr percentOf (Split f3);;
  sameLength (Split f1) (Split f2);;
  sameLength (Split f3) (Split f2);;
  sameLength (Split f3) (Split f1).

Definition ValidateAndImportReturnStakingInstructionFromString (inst : list string) :
    outcome ReturnStakeInstruction :=
  ValidateReturnStakingInstructionSanity inst;; ImportReturnStakingInstructionFromString inst.

(** *** [ReturnBeaconStakeInstruction]: empty lists of reasons and amounts are left out *)
Record ReturnBeaconStakeInstruction := {
  rbPublicKeys : list string;
  rbPublicKeysStruct : list CommitteePublicKey;
  rbReturnAmounts : list Z;
  rbPercentReturns : list Z;
  rbReasons : list Z;
}.

Definition optionalField {A} (print : A → string) (l : list A) : list string :=
  match l with [] => [] | _ => [Join (print <$> l)] end.

Definition ReturnBeaconStakeInstruction_ToString (s : ReturnBeaconStakeInstruction) : list string :=
  [RETURN_BEACON_ACTION; Join (rbPublicKeys s); Join (percentText <$> rbPercentReturns s)] ++
  optionalField FormatInt (rbReasons s) ++ optionalField FormatUint (rbReturnAmounts s).

Definition ReturnBeacon_AddNewRequest (publicKey : string) (amount : Z) (s : ReturnBeaconStakeInstruction) :
    outcome ReturnBeaconStakeInstruction :=
  keys ← orPanic (CommitteeBase58KeyListToStruct [publicKey]);
  match keys with
  | [] => Panic
  | key :: _ =>
      mret {| rbPublicKeys := rbPublicKeys s ++ [publicKey];
              rbPublicKeysStruct := rbPublicKeysStruct s ++ [key];
              rbReturnAmounts := rbReturnAmounts s ++ [amount];
              rbPercentReturns := rbPercentReturns s ++ [100];
              rbReasons := rbReasons s |}
  end.

Definition ImportReturnBeaconStakingInstructionFromString (inst : list string) :
    outcome ReturnBeaconStakeInstruction :=
  f1 ← field 1 inst;
  keys ← CommitteeBase58KeyListToStruct (Split f1);
  f2 ← field 2 inst;
  percents ← mapErr percentOf (Split f2);
  f3 ← field 3 inst;
  reasons ← mapErr (λ s, checked (Atoi s)) (Split f3);
  f4 ← field 4 inst;
  amounts ← mapErr (λ s, checked (ParseUint s)) (Split f4);
  mret (Build_ReturnBeaconStakeInstruction (Split f1) keys amounts percents reasons).

Definition ValidateReturnBeaconStakingInstructionSanity (inst : list string) : outcome unit :=
  lenIs 5 inst;;
  actionIs RETURN_BEACON_ACTION inst;;
  f1 ← field 1 inst;
  CommitteeBase58KeyListToStruct (Split f1);;
  f2 ← field 2 inst;
  mapErr percentOf (Split f2);;
  sameLength (Split f2) (Split f1).

Definition ValidateAndImportReturnBeaconStakingInstructionFromString (inst : list string) :
    outcome ReturnBeaconStakeInstruction :=
  ValidateReturnBeaconStakingInstructionSanity inst;; ImportReturnBeaconStakingInstructionFromString inst.

(** *** [SwapInstruction]: a swap of the first versions; with reward receivers it replaces a
    committee, and on the beacon chain an empty field stands before the punished keys *)
Record SwapInstruction := {
  swInPublicKeys : list string;
  swInPublicKeyStructs : list CommitteePublicKey;
  swOutPublicKeys : list string;
  swOutPublicKeyStructs : list CommitteePublicKey;
  swChainID : Z;
  swPunishedPublicKeys : string;
  swNewRewardReceivers : list string;
  swNewRewardReceiverStructs : list PaymentAddress;
  swIsReplace : bool;
}.

Definition ifReceivers {A} (receivers : list A) (l : list string) : list string :=
  match receivers with [] => [] | _ => l end.

Definition SwapInstruction_ToString (s : SwapInstruction) : list string :=
  let receivers := swNewRewardReceivers s in
  [SWAP_ACTION; Join (swInPublicKeys s); Join (swOutPublicKeys s)] ++
  (if swChainID s =? BEACON_CHAIN_ID
   then BEACON_INST :: ifReceivers receivers [""]
   else [SHARD_INST; FormatInt (swChainID s)]) ++
  [swPunishedPublicKeys s] ++ ifReceivers receivers [Join receivers].

Definition ImportSwapInstructionFromString (inst : list string) : outcome SwapInstruction :=
  f1 ← field 1 inst;
  ins ← orPanic (CommitteeBase58KeyListToStruct (SplitNonEmpty f1));
  f2 ← field 2 inst;
  outs ← orPanic (CommitteeBase58KeyListToStruct (SplitNonEmpty f2));
  let isReplace := (List.length inst =? 7)%nat in
  receivers ← (if isReplace then f6 ← field 6 inst; mret (Split f6) else mret []);
  structs ← orPanic (mapErr addressOf receivers);
  f3 ← field 3 inst;
  f4 ← field 4 inst;
  '(chainID, punished) ← (if eqS f3 BEACON_INST then mret (BEACON_CHAIN_ID, f4)
                          else f5 ← field 5 inst; mret (unchecked (Atoi f4), f5));
  mret {| swInPublicKeys := SplitNonEmpty f1; swInPublicKeyStructs := ins;
          swOutPublicKeys := SplitNonEmpty f2; swOutPublicKeyStructs := outs;
          swChainID := chainID; swPunishedPublicKeys := punished;
          swNewRewardReceivers := receivers; swNewRewardReceiverStructs := structs;
          swIsReplace := isReplace |}.

Definition ValidateSwapInstructionSanity (inst : list string) : outcome unit :=
  let n := List.length inst in
  require ((n =? 5)%nat || (n =? 6)%nat || (n =? 7)%nat) "invalid instruction length";;
  actionIs SWAP_ACTION inst;;
  f3 ← field 3 inst;
  require (negb ((n =? 5)%nat && negb (eqS f3 BEACON_INST))) "invalid swap beacon instruction";;
  (if (n =? 6)%nat
   then require (eqS f3 SHARD_INST) "invalid swap shard instruction";;
        f4 ← field 4 inst;
        checked (Atoi f4);; mret tt
   else mret tt);;
  (if (n =? 7)%nat then f6 ← field 6 inst; mapErr addressOf (Split f6);; mret tt else mret tt);;
  f1 ← field 1 inst;
  CommitteeBase58KeyListToStruct (Split f1);;
  f2 ← field 2 inst;
  CommitteeBase58KeyListToStruct (Split f2);;
  mret tt.

Definition ValidateAndImportSwapInstructionFromString (inst : list string) : outcome SwapInstruction :=
  ValidateSwapInstructionSanity inst;; ImportSwapInstructionFromString inst.

(** *** [AddStakingInstruction]: the sanity check looks at the keys only *)
Record AddStakingInstruction := {
  asCommitteePublicKeys : list string;
  asStakingAmount : list Z;
  asStakingTxIDs : list string;
  asCommitteePublicKeysStruct : list CommitteePublicKey;
}.

Definition AddStakingInstruction_ToString (s : AddStakingInstruction) : list string :=
  [ADD_STAKING_ACTION; Join (asCommitteePublicKeys s); Join (FormatUint <$> asStakingAmount s);
   Join (asStakingTxIDs s)].

(** An amount that is no number makes the result a nil pointer, without an error. *)
Definition ImportAddStakingInstructionFromString (inst : list string) :
    outcome (option AddStakingInstruction) :=
  f1 ← field 1 inst;
  let keys := CommitteeBase58KeyListToStruct (SplitNonEmpty f1) in
  f2 ← field 2 inst;
  match mapErr (λ s, checked (ParseUint s)) (Split f2) with
  | Ok amounts =>
      keys ← orPanic keys;
      f3 ← field 3 inst;
      mret (Some (Build_AddStakingInstruction (SplitNonEmpty f1) amounts (SplitNonEmpty f3) keys))
  | _ => mret None
  end.

Definition ValidateAddStakingInstructionSanity (inst : list string) : outcome unit :=
  lenIs 4 inst;;
  actionIs ADD_STAKING_ACTION inst;;
  f1 ← field 1 inst;
  CommitteeBase58KeyListToStruct (Split f1);;
  mret tt.

Definition ValidateAndImportAddStakingInstructionFromString (inst : list string) :
    outcome (option AddStakingInstruction) :=
  ValidateAddStakingInstructionSanity inst;; ImportAddStakingInstructionFromString inst.

(** *** [ReDelegateInstruction] *)
Record ReDelegateInstruction := {
  rdCommitteePublicKeys : list string;
  rdCommitteePublicKeysStruct : list CommitteePublicKey;
  rdDelegateList : list string;
  rdDelegateListStruct : list CommitteePublicKey;
  rdDelegateUIDList : list string;
}.

Definition ReDelegateInstruction_ToString (s : ReDelegateInstruction) : list string :=
  [RE_DELEGATE; Join (rdCommitteePublicKeys s); Join (rdDelegateList s); Join (rdDelegateUIDList s)].

(** Keys that do not parse leave a nil pointer: the setters of the fields that follow panic on
    it, and if these are empty it is returned. *)
Definition onReDelegate (field : string) (bad : bool) (r : option ReDelegateInstruction)
    (set : list string → ReDelegateInstruction → ReDelegateInstruction) : outcome (option ReDelegateInstruction) :=
  if eqS field "" then mret r
  else match r with
       | None => Panic
       | Some r => mret (if bad then None else Some (set (Split field) r))
       end.

Definition ImportReDelegateInstructionFromString (inst : list string) : outcome (option ReDelegateInstruction) :=
  f1 ← field 1 inst;
  let keys := CommitteeBase58KeyListToStruct (SplitNonEmpty f1) in
  let ok {A} (m : outcome (list A)) := match m with Ok _ => true | _ => false end in
  let get {A} (m : outcome (list A)) := match m with Ok l => l | _ => [] end in
  r ← onReDelegate f1 (negb (ok keys)) (Some (Build_ReDelegateInstruction [] [] [] [] []))
        (λ l r, Build_ReDelegateInstruction l (get keys) [] [] []);
  f2 ← field 2 inst;
  let delegates := CommitteeBase58KeyListToStruct (SplitNonEmpty f2) in
  r ← onReDelegate f2 (negb (ok delegates)) r
        (λ l r, Build_ReDelegateInstruction (rdCommitteePublicKeys r) (rdCommitteePublicKeysStruct r)
                  l (get delegates) []);
  f3 ← field 3 inst;
  onReDelegate f3 false r
    (λ l r, Build_ReDelegateInstruction (rdCommitteePublicKeys r) (rdCommitteePublicKeysStruct r)
              (rdDelegateList r) (rdDelegateListStruct r) l).

Definition ValidateReDelegateInstructionSanity (inst : list string) : outcome unit :=
  lenIs 4 inst;;
  actionIs RE_DELEGATE inst;;
  f1 ← field 1 inst;
  CommitteeBase58KeyListToStruct (Split f1);;
  f2 ← field 2 inst;
  CommitteeBase58KeyListToStruct (Split f2);;
  f3 ← field 3 inst;
  mapErr NewHashFromStr (Split f3);;
  mret tt.

Definition ValidateAndImportReDelegateInstructionFromString (inst : list string) :
    outcome (option ReDelegateInstruction) :=
  ValidateReDelegateInstructionSanity inst;; ImportReDelegateInstructionFromString inst.

(** *** Delegation rewards: requests and payments *)
Record RequestDelegationRewardInstruction := {
  rqIncPaymentAddrs : list string;
  rqIncPaymentAddrStructs : list PaymentAddress;
  rqTxRequestIDs : list string;
}.

Definition RequestDelegationRewardInstruction_ToString (r : RequestDelegationRewardInstruction) : list string :=
  [REQ_DREWARD_ACTION; Join (rqIncPaymentAddrs r); Join (rqTxRequestIDs r)].

Definition ImportRequestDelegationRewardInstructionFromString (inst : list string) :
    outcome RequestDelegationRewardInstruction :=
  f1 ← field 1 inst;
  receivers ← mapErr addressOf (Split f1);
  f2 ← field 2 inst;
  mapErr NewHashFromStr (Split f2);;
  mret (Build_RequestDelegationRewardInstruction (Split f1) receivers (Split f2)).

(** The test on lengths compares the addresses with themselves. *)
Definition ValidateRequestDelegationRewardInstructionSanity (inst : list string) : outcome unit :=
  lenIs 3 inst;;
  actionIs REQ_DREWARD_ACTION inst;;
  f1 ← field 1 inst;
  mapErr addressOf (Split f1);;
  f2 ← field 2 inst;
  sameLength (Split f1) (Split f1);;
  mapErr NewHashFromStr (Split f2);;
  mret tt.

Definition ValidateAndImportRequestDelegationRewardInstructionFromString (inst : list string) :
    outcome RequestDelegationRewardInstruction :=
  ValidateRequestDelegationRewardInstructionSanity inst;;
  ImportRequestDelegationRewardInstructionFromString inst.

Record MintDelegationRewardInstruction := {
  mdPaymentAddresses : list string;
  mdPaymentAddressesStruct : list PaymentAddress;
  mdRewardAmount : list Z;
  mdTxRequestIDs : list string;
  mdTxRequestIdHashes : list Hash;
}.

Definition MintDelegationRewardInstruction_ToString (m : MintDelegationRewardInstruction) : list string :=
  [MINT_DREWARD_ACTION; Join (mdPaymentAddresses m); Join (FormatUint <$> mdRewardAmount m);
   Join (mdTxRequestIDs m)].

(** A request whose address or identifier does not parse is dropped. *)
Definition AddNewMintInfo (paymentAddress : string) (amount : Z) (requestID : string)
    (m : MintDelegationRewardInstruction) : outcome MintDelegationRewardInstruction :=
  match (receiver ← addressOf paymentAddress; hash ← NewHashFromStr requestID; Ok (receiver, hash)) with
  | Ok (receiver, hash) =>
      Ok {| mdPaymentAddresses := mdPaymentAddresses m ++ [paymentAddress];
            mdPaymentAddressesStruct := mdPaymentAddressesStruct m ++ [receiver];
            mdRewardAmount := mdRewardAmount m ++ [amount];
            mdTxRequestIDs := mdTxRequestIDs m ++ [requestID];
            mdTxRequestIdHashes := mdTxRequestIdHashes m ++ [hash] |}
  | Err _ => Ok m
  | Panic => Panic
  | OutOfFuel => OutOfFuel
  end.

Definition ImportMintDelegationRewardInstructionFromString (inst : list string) :
    outcome MintDelegationRewardInstruction :=
  f1 ← field 1 inst;
  receivers ← mapErr addressOf (Split f1);
  f3 ← field 3 inst;
  hashes ← mapErr NewHashFromStr (Split f3);
  f2 ← field 2 inst;
  amounts ← mapErr (λ s, checked (ParseUint s)) (Split f2);
  mret (Build_MintDelegationRewardInstruction (Split f1) receivers amounts (Split f3) hashes).

Definition ValidateMintDelegationRewardInstructionSanity (inst : list string) : outcome unit :=
  lenIs 4 inst;;
  actionIs MINT_DREWARD_ACTION inst;;
  f1 ← field 1 inst;
  mapErr addressOf (Split f1);;
  f2 ← field 2 inst;
  mapErr (λ s, checked (ParseUint s)) (Split f2);;
  sameLength (Split f2) (Split f1);;
  f3 ← field 3 inst;
  mapErr NewHashFromStr (Split f3);;
  sameLength (Split f1) (Split f3).

Definition ValidateAndImportMintDelegationRewardInstructionFromString (inst : list string) :
    outcome MintDelegationRewardInstruction :=
  ValidateMintDelegationRewardInstructionSanity inst;; ImportMintDelegationRewardInstructionFromString inst.

(** *** [EnableFeatureInstruction] and [SharePriceInstruction] *)
Record EnableFeatureInstruction := { efFeatures : list string }.

Definition EnableFeatureInstruction_ToString (f : EnableFeatureInstruction) : list string :=
  [ENABLE_FEATURE; Join (efFeatures f)].

Definition ImportEnableFeatureInstructionFromString (inst : list string) : outcome EnableFeatureInstruction :=
  f1 ← field 1 inst; mret (Build_EnableFeatureInstruction (Split f1)).

Definition ValidateEnableFeatureInstructionSanity (inst : list string) : outcome unit :=
  lenIs 2 inst;; actionIs ENABLE_FEATURE inst.

Definition ValidateAndImportEnableFeatureInstructionFromString (inst : list string) :
    outcome EnableFeatureInstruction :=
  ValidateEnableFeatureInstructionSanity inst;; ImportEnableFeatureInstructionFromString inst.

Record SharePriceInstruction := {
  spCommitteeHash : list string;
  spPrices : list Z;
}.

Definition AddPrice (id : string) (price : Z) (f : SharePriceInstruction) : SharePriceInstruction :=
  Build_SharePriceInstruction (spCommitteeHash f ++ [id]) (spPrices f ++ [price]).

(** [GetValue]: a later price of the same validator replaces an earlier one. *)
Fixpoint collectPrices (ids : list string) (prices : list Z) (res : gmap string Z) : outcome (gmap string Z) :=
  match ids, prices with
  | [], _ => Ok res
  | id :: ids, p :: prices => collectPrices ids prices (<[id := p]> res)
  | _ :: _, [] => Panic
  end.
Definition GetValue (f : SharePriceInstruction) : outcome (gmap string Z) :=
  collectPrices (spCommitteeHash f) (spPrices f) ∅.

Definition SharePriceInstruction_ToString (f : SharePriceInstruction) : list string :=
  [SHARE_PRICE; Join (spCommitteeHash f); Join (FormatUint <$> spPrices f)].

Definition priceOf (s : string) : outcome Z :=
  match ParseUint64 s with (p, true) => Ok p | (_, false) => Err "Parse price error" end.

Definition importSharePriceInstructionFromString (inst : list string) : outcome SharePriceInstruction :=
  f1 ← field 1 inst;
  f2 ← field 2 inst;
  sameLength (Split f1) (Split f2);;
  prices ← mapErr priceOf (Split f2);
  mret (foldl (λ f '(id, p), AddPrice id p f) (Build_SharePriceInstruction [] []) (zip (Split f1) prices)).

(** The action itself is not checked. *)
Definition ValidateSharePriceInstructionSanity (inst : list string) : outcome unit :=
  lenIs 3 inst;;
  f1 ← field 1 inst;
  f2 ← field 2 inst;
  sameLength (Split f1) (Split f2).

Definition ValidateAndImportSharePriceInstructionFromString (inst : list string) :
    outcome SharePriceInstruction :=
  ValidateSharePriceInstructionSanity inst;; importSharePriceInstructionFromString inst.

(** *** [ValidateAndImportInstructionFromString]: by action *)
Inductive ConsensusInstruction :=
  | CStake (i : StakeInstruction)
  | CRandom (i : RandomInstruction)
  | CStopAutoStake (i : option StopAutoStakeInstruction)
  | CSwap (i : SwapInstruction)
  | CSwapShard (i : SwapShardInstruction)
  | CFinishSync (i : FinishSyncInstruction)
  | CUnstake (i : UnstakeInstruction)
  | CAddStaking (i : option AddStakingInstruction)
  | CReturn (i : ReturnStakeInstruction)
  | CReturnBeacon (i : ReturnBeaconStakeInstruction)
  | CReDelegate (i : option ReDelegateInstruction).

Definition IsConsensusInstruction (action : string) : bool :=
  existsb (eqS action)
    [RANDOM_ACTION; SWAP_ACTION; STAKE_ACTION; BEACON_STAKE_ACTION; ASSIGN_ACTION;
     STOP_AUTO_STAKE_ACTION; SET_ACTION; SWAP_SHARD_ACTION; UNSTAKE_ACTION;
     ACCEPT_BLOCK_REWARD_V3_ACTION; SHARD_RECEIVE_REWARD_V3_ACTION; FINISH_SYNC_ACTION;
     SHARD_INST; BEACON_INST; RETURN_ACTION; RETURN_BEACON_ACTION; ADD_STAKING_ACTION;
     RE_DELEGATE; REQ_DREWARD_ACTION; MINT_DREWARD_ACTION].

(** The importers of the switch, in its order. *)
Definition importers : list (string * (list string → outcome ConsensusInstruction)) :=
  [(STAKE_ACTION, λ inst, CStake <$> ValidateAndImportStakeInstructionFromString inst);
   (RANDOM_ACTION, λ inst, CRandom <$> ValidateAndImportRandomInstructionFromString inst);
   (STOP_AUTO_STAKE_ACTION, λ inst, CStopAutoStake <$> ValidateAndImportStopAutoStakeInstructionFromString inst);
   (SWAP_ACTION, λ inst, CSwap <$> ValidateAndImportSwapInstructionFromString inst);
   (SWAP_SHARD_ACTION, λ inst, CSwapShard <$> ValidateAndImportSwapShardInstructionFromString inst);
   (FINISH_SYNC_ACTION, λ inst, CFinishSync <$> ValidateAndImportFinishSyncInstructionFromString inst);
   (UNSTAKE_ACTION, λ inst, CUnstake <$> ValidateAndImportUnstakeInstructionFromString inst);
   (ADD_STAKING_ACTION, λ inst, CAddStaking <$> ValidateAndImportAddStakingInstructionFromString inst);
   (RETURN_ACTION, λ inst, CReturn <$> ValidateAndImportReturnStakingInstructionFromString inst);
   (RETURN_BEACON_ACTION, λ inst, CReturnBeacon <$> ValidateAndImportReturnBeaconStakingInstructionFromString inst);
   (RE_DELEGATE, λ inst, CReDelegate <$> ValidateAndImportReDelegateInstructionFromString inst)].

Definition importerOf (action : string) : option (list string → outcome ConsensusInstruction) :=
  snd <$> List.find (λ p, eqS action p.1) importers.

(** A consensus action without a branch panics. *)
Definition ValidateAndImportInstructionFromString (inst : list string) : outcome ConsensusInstruction :=
  action ← field 0 inst;
  if negb (IsConsensusInstruction action) then Err "not a consensus instruction"
  else match importerOf action with
       | None => Panic
       | Some import => import inst
       end.

(** Instructions that do not import are skipped. *)
Fixpoint ValidateAndImportConsensusInstructionFromListString (insts : list (list string)) :
    outcome (list ConsensusInstruction) :=
  match insts with
  | [] => Ok []
  | inst :: insts =>
      match ValidateAndImportInstructionFromString inst with
      | Ok i => l ← ValidateAndImportConsensusInstructionFromListString insts; mret (i :: l)
      | Err _ => ValidateAndImportConsensusInstructionFromListString insts
      | Panic => Panic
      | OutOfFuel => OutOfFuel
      end
  end.

End Instructions.
