(* ===== verification/InstructionRoundtrip.v ===== *)
(** What a node prints into a block, every other node reads back: the round trips of the
    instructions of [BeaconInstructions], and what the importers make of any other text. *)
From S2P Require Import Prelude Hash Wallet InstructionText BeaconInstructions.
From Stdlib Require Import Ascii String.

Local Open Scope Z_scope.

Section Roundtrip.
Context `{Keys} (ParseUint64 : string → Z * bool).

(** Lists as they stand in a field: a list that is printed even when it is empty must not be,
    since the empty text reads as one empty word; a list that is left out when empty must not
    be that one word. *)
Definition listField (l : list string) : Prop := l ≠ [] ∧ forallb noComma l = true.
Definition optField (l : list string) : Prop := l ≠ [EmptyString] ∧ forallb noComma l = true.

Definition keysAre (l : list string) (structs : list CommitteePublicKey) : Prop :=
  CommitteeBase58KeyListToStruct l = Ok structs.
Definition hashesAre (l : list string) (hashes : list Hash) : Prop := mapErr NewHashFromStr l = Ok hashes.
Definition addressesAre (l : list string) (structs : list PaymentAddress) : Prop :=
  mapErr addressOf l = Ok structs.

Definition wf_Stake (s : StakeInstruction) : Prop :=
  siChain s = SHARD_INST ∧ listField (siPublicKeys s) ∧ listField (siTxStakes s) ∧
  listField (siRewardReceivers s) ∧
  keysAre (siPublicKeys s) (siPublicKeyStructs s) ∧ hashesAre (siTxStakes s) (siTxStakeHashes s) ∧
  addressesAre (siRewardReceivers s) (siRewardReceiverStructs s) ∧
  List.length (siTxStakes s) = List.length (siPublicKeys s) ∧
  List.length (siRewardReceivers s) = List.length (siPublicKeys s) ∧
  List.length (siAutoStakingFlag s) = List.length (siPublicKeys s).

Definition wf_BeaconStake (s : BeaconStakeInstruction) : Prop :=
  bsChain s = BEACON_INST ∧ listField (bsPublicKeys s) ∧ listField (bsTxStakes s) ∧
  listField (bsRewardReceivers s) ∧ listField (bsFunderAddress s) ∧
  keysAre (bsPublicKeys s) (bsPublicKeyStructs s) ∧ hashesAre (bsTxStakes s) (bsTxStakeHashes s) ∧
  addressesAre (bsRewardReceivers s) (bsRewardReceiverStructs s) ∧
  addressesAre (bsFunderAddress s) (bsFunderAddressStructs s) ∧
  List.length (bsTxStakes s) = List.length (bsPublicKeys s) ∧
  List.length (bsRewardReceivers s) = List.length (bsPublicKeys s) ∧
  List.length (bsAutoStakingFlag s) = List.length (bsPublicKeys s) ∧
  bsStakingAmount s ≠ [] ∧ Forall in_u64 (bsStakingAmount s).

Definition wf_StopAutoStake (s : StopAutoStakeInstruction) : Prop :=
  optField (saCommitteePublicKeys s) ∧ keysAre (saCommitteePublicKeys s) (saCommitteePublicKeysStruct s).
Definition wf_Unstake (s : UnstakeInstruction) : Prop :=
  optField (uiCommitteePublicKeys s) ∧ keysAre (uiCommitteePublicKeys s) (uiCommitteePublicKeysStruct s).

Definition wf_SwapShard (s : SwapShardInstruction) : Prop :=
  optField (ssInPublicKeys s) ∧ keysAre (ssInPublicKeys s) (ssInPublicKeyStructs s) ∧
  optField (ssOutPublicKeys s) ∧ keysAre (ssOutPublicKeys s) (ssOutPublicKeyStructs s) ∧
  0 ≤ ssChainID s < word63 ∧ in_i64 (ssType s).

Definition wf_FinishSync (f : FinishSyncInstruction) : Prop :=
  in_i64 (fsChainID f) ∧ listField (fsPublicKeys f) ∧ keysAre (fsPublicKeys f) (fsPublicKeysStruct f).
Definition wf_Assign (a : AssignInstruction) : Prop :=
  in_i64 (aiChainID a) ∧ listField (aiShardCandidates a) ∧
  keysAre (aiShardCandidates a) (aiShardCandidatesStruct a).

Definition wf_ReturnStake (s : ReturnStakeInstruction) : Prop :=
  listField (rsPublicKeys s) ∧ keysAre (rsPublicKeys s) (rsPublicKeysStruct s) ∧
  listField (rsStakingTXIDs s) ∧ hashesAre (rsStakingTXIDs s) (rsStakingTxHashes s) ∧
  List.length (rsStakingTXIDs s) = List.length (rsPublicKeys s) ∧
  List.length (rsPercentReturns s) = List.length (rsPublicKeys s) ∧ Forall in_u64 (rsPercentReturns s).

Definition wf_ReturnBeacon (s : ReturnBeaconStakeInstruction) : Prop :=
  listField (rbPublicKeys s) ∧ keysAre (rbPublicKeys s) (rbPublicKeysStruct s) ∧
  List.length (rbPercentReturns s) = List.length (rbPublicKeys s) ∧ Forall in_u64 (rbPercentReturns s) ∧
  rbReasons s ≠ [] ∧ Forall in_i64 (rbReasons s) ∧
  rbReturnAmounts s ≠ [] ∧ Forall in_u64 (rbReturnAmounts s).

(** On the beacon chain a replacement cannot carry punished keys. *)
Definition wf_Swap (s : SwapInstruction) : Prop :=
  optField (swInPublicKeys s) ∧ keysAre (swInPublicKeys s) (swInPublicKeyStructs s) ∧
  optField (swOutPublicKeys s) ∧ keysAre (swOutPublicKeys s) (swOutPublicKeyStructs s) ∧
  in_i64 (swChainID s) ∧ swIsReplace s = negb (List.length (swNewRewardReceivers s) =? 0)%nat ∧
  forallb noComma (swNewRewardReceivers s) = true ∧
  addressesAre (swNewRewardReceivers s) (swNewRewardReceiverStructs s) ∧
  (swIsReplace s = true → swChainID s = BEACON_CHAIN_ID → swPunishedPublicKeys s = "").

Definition wf_AddStaking (s : AddStakingInstruction) : Prop :=
  optField (asCommitteePublicKeys s) ∧ keysAre (asCommitteePublicKeys s) (asCommitteePublicKeysStruct s) ∧
  optField (asStakingTxIDs s) ∧ asStakingAmount s ≠ [] ∧ Forall in_u64 (asStakingAmount s).

Definition wf_ReDelegate (s : ReDelegateInstruction) : Prop :=
  optField (rdCommitteePublicKeys s) ∧ keysAre (rdCommitteePublicKeys s) (rdCommitteePublicKeysStruct s) ∧
  optField (rdDelegateList s) ∧ keysAre (rdDelegateList s) (rdDelegateListStruct s) ∧
  optField (rdDelegateUIDList s) ∧ rdDelegateUIDList s ≠ [] ∧ is_Ok (mapErr NewHashFromStr (rdDelegateUIDList s)).

Definition wf_RequestReward (r : RequestDelegationRewardInstruction) : Prop :=
  listField (rqIncPaymentAddrs r) ∧ addressesAre (rqIncPaymentAddrs r) (rqIncPaymentAddrStructs r) ∧
  listField (rqTxRequestIDs r) ∧ is_Ok (mapErr NewHashFromStr (rqTxRequestIDs r)).

Definition wf_MintReward (m : MintDelegationRewardInstruction) : Prop :=
  listField (mdPaymentAddresses m) ∧ addressesAre (mdPaymentAddresses m) (mdPaymentAddressesStruct m) ∧
  listField (mdTxRequestIDs m) ∧ hashesAre (mdTxRequestIDs m) (mdTxRequestIdHashes m) ∧
  List.length (mdRewardAmount m) = List.length (mdPaymentAddresses m) ∧ Forall in_u64 (mdRewardAmount m) ∧
  List.length (mdTxRequestIDs m) = List.length (mdPaymentAddresses m).

Definition wf_SharePrice (f : SharePriceInstruction) : Prop :=
  listField (spCommitteeHash f) ∧ List.length (spPrices f) = List.length (spCommitteeHash f) ∧
  Forall in_u64 (spPrices f).

(** All instructions of the model, printed and imported again. *)
Inductive AnyInstruction :=
  | AStake (i : StakeInstruction) | ABeaconStake (i : BeaconStakeInstruction)
  | ARandom (i : RandomInstruction) | AStopAutoStake (i : StopAutoStakeInstruction)
  | AUnstake (i : UnstakeInstruction) | ASwapShard (i : SwapShardInstruction)
  | AFinishSync (i : FinishSyncInstruction) | AAssign (i : AssignInstruction)
  | AReturn (i : ReturnStakeInstruction) | AReturnBeacon (i : ReturnBeaconStakeInstruction)
  | ASwap (i : SwapInstruction) | AAddStaking (i : AddStakingInstruction)
  | AReDelegate (i : ReDelegateInstruction) | ARequestReward (i : RequestDelegationRewardInstruction)
  | AMintReward (i : MintDelegationRewardInstruction) | AEnableFeature (i : EnableFeatureInstruction)
  | ASharePrice (i : SharePriceInstruction).

Definition wf_instruction (i : AnyInstruction) : Prop :=
  match i with
  | AStake i => wf_Stake i | ABeaconStake i => wf_BeaconStake i
  | ARandom i => in_i64 (randomNumber i) | AStopAutoStake i => wf_StopAutoStake i
  | AUnstake i => wf_Unstake i | ASwapShard i => wf_SwapShard i
  | AFinishSync i => wf_FinishSync i | AAssign i => wf_Assign i
  | AReturn i => wf_ReturnStake i | AReturnBeacon i => wf_ReturnBeacon i
  | ASwap i => wf_Swap i | AAddStaking i => wf_AddStaking i
  | AReDelegate i => wf_ReDelegate i | ARequestReward i => wf_RequestReward i
  | AMintReward i => wf_MintReward i | AEnableFeature i => listField (efFeatures i)
  | ASharePrice i => wf_SharePrice i
  end.

Definition again {A} (f : A → AnyInstruction) (m : outcome A) : outcome AnyInstruction :=
  i ← m; mret (f i).
Definition againPointer {A} (f : A → AnyInstruction) (m : outcome (option A)) : outcome AnyInstruction :=
  r ← m; match r with Some i => mret (f i) | None => Panic end.

Definition reimport (i : AnyInstruction) : outcome AnyInstruction :=
  match i with
  | AStake i => again AStake
      (ValidateAndImportStakeInstructionFromString (StakeInstruction_ToString i))
  | ABeaconStake i => again ABeaconStake
      (ValidateAndImportBeaconStakeInstructionFromString ParseUint64 (BeaconStakeInstruction_ToString i))
  | ARandom i => again ARandom
      (ValidateAndImportRandomInstructionFromString (RandomInstruction_ToString i))
  | AStopAutoStake i => againPointer AStopAutoStake
      (ValidateAndImportStopAutoStakeInstructionFromString (StopAutoStakeInstruction_ToString i))
  | AUnstake i => again AUnstake
      (ValidateAndImportUnstakeInstructionFromString (UnstakeInstruction_ToString i))
  | ASwapShard i => again ASwapShard
      (ValidateAndImportSwapShardInstructionFromString (SwapShardInstruction_ToString i))
  | AFinishSync i => again AFinishSync
      (ValidateAndImportFinishSyncInstructionFromString (FinishSyncInstruction_ToString i))
  | AAssign i => again AAssign
      (ValidateAndImportAssignInstructionFromString (AssignInstruction_ToString i))
  | AReturn i => again AReturn
      (ValidateAndImportReturnStakingInstructionFromString (ReturnStakeInstruction_ToString i))
  | AReturnBeacon i => again AReturnBeacon
      (ValidateAndImportReturnBeaconStakingInstructionFromString (ReturnBeaconStakeInstruction_ToString i))
  | ASwap i => again ASwap
      (ValidateAndImportSwapInstructionFromString (SwapInstruction_ToString i))
  | AAddStaking i => againPointer AAddStaking
      (ValidateAndImportAddStakingInstructionFromString (AddStakingInstruction_ToString i))
  | AReDelegate i => againPointer AReDelegate
      (ValidateAndImportReDelegateInstructionFromString (ReDelegateInstruction_ToString i))
  | ARequestReward i => again ARequestReward
      (ValidateAndImportRequestDelegationRewardInstructionFromString (RequestDelegationRewardInstruction_ToString i))
  | AMintReward i => again AMintReward
      (ValidateAndImportMintDelegationRewardInstructionFromString (MintDelegationRewardInstruction_ToString i))
  | AEnableFeature i => again AEnableFeature
      (ValidateAndImportEnableFeatureInstructionFromString (EnableFeatureInstruction_ToString i))
  | ASharePrice i => again ASharePrice
      (ValidateAndImportSharePriceInstructionFromString ParseUint64 (SharePriceInstruction_ToString i))
  end.

(** *** Fields *)
Lemma eqS_refl a : eqS a a = true.
Proof. by apply bool_decide_eq_true. Qed.

Lemma Split_listField l : listField l → Split (Join l) = l.
Proof. intros [Hl Hc]. by apply Split_Join. Qed.

Lemma SplitNonEmpty_optField l : optField l → SplitNonEmpty (Join l) = l.
Proof.
  intros [Hl Hc]. unfold SplitNonEmpty, eqS. case_bool_decide as E.
  - by destruct (Join_empty l E).
  - apply Split_Join; [by intros ->|done].
Qed.

Lemma keys_optField l keys : optField l → keysAre l keys →
  CommitteeBase58KeyListToStruct (Split (Join l)) = Ok keys.
Proof.
  intros [Hl Hc] Hk. destruct l as [|x l]; [exact Hk|]. by rewrite Split_Join.
Qed.

Lemma Split_flags (l : list bool) : l ≠ [] → Split (Join (flagText <$> l)) = flagText <$> l.
Proof. intros Hl. apply Split_Join_fmap; [done|by intros []]. Qed.
Lemma flagOf_flagText (l : list bool) : flagOf <$> (flagText <$> l) = l.
Proof. induction l as [|b l IH]; [done|]. cbn. rewrite IH. by destruct b. Qed.

Lemma Split_FormatUint (l : list Z) : l ≠ [] → Split (Join (FormatUint <$> l)) = FormatUint <$> l.
Proof. intros Hl. apply Split_Join_fmap; [done|apply FormatUint_noComma]. Qed.
Lemma Split_FormatInt (l : list Z) : l ≠ [] → Split (Join (FormatInt <$> l)) = FormatInt <$> l.
Proof. intros Hl. apply Split_Join_fmap; [done|apply FormatInt_noComma]. Qed.
Lemma Split_percents (l : list Z) : l ≠ [] → Split (Join (percentText <$> l)) = percentText <$> l.
Proof. intros Hl. apply Split_Join_fmap; [done|intros v; apply FormatInt_noComma]. Qed.

Lemma uints_read (l : list Z) : Forall in_u64 l → mapErr (λ s, checked (ParseUint s)) (FormatUint <$> l) = Ok l.
Proof.
  intros Hl. apply mapErr_fmap. intros n Hn. rewrite ParseUint_FormatUint; [done|].
  by eapply Forall_forall in Hl.
Qed.
Lemma ints_read (l : list Z) : Forall in_i64 l → mapErr (λ s, checked (Atoi s)) (FormatInt <$> l) = Ok l.
Proof.
  intros Hl. apply mapErr_fmap. intros n Hn. rewrite Atoi_FormatInt; [done|].
  by eapply Forall_forall in Hl.
Qed.
Lemma percents_read (l : list Z) : Forall in_u64 l → mapErr percentOf (percentText <$> l) = Ok l.
Proof.
  intros Hl. apply mapErr_fmap. intros n Hn. eapply Forall_forall in Hl; [|done].
  unfold percentOf, percentText, toInt, toUint, in_u64, word64 in *.
  assert (in_i64 (if n <? word63 then n else n - 18446744073709551616)) as Hi.
  { unfold in_i64, word63. destruct (Z.ltb_spec n 9223372036854775808); lia. }
  rewrite Atoi_FormatInt by done. cbn [checked mbind outcome_bind]. unfold word63. f_equal.
  destruct (Z.ltb_spec n 9223372036854775808); [by apply Z.mod_small|].
  replace (n - 18446744073709551616) with (n + (-1) * 18446744073709551616) by lia.
  rewrite Z_mod_plus_full. by apply Z.mod_small.
Qed.

Lemma length_not_nil {A B} (l : list A) (l' : list B) : List.length l' = List.length l → l ≠ [] → l' ≠ [].
Proof. by destruct l, l'. Qed.

Lemma sameLength_ok {A B} (a : list A) (b : list B) : List.length a = List.length b → sameLength a b = Ok tt.
Proof. intros E. unfold sameLength. by rewrite E, Nat.eqb_refl. Qed.

(** Runs the lookups and tests of an importer on a printed instruction, field by field. *)
Ltac read_fields :=
  cbn [mbind outcome_bind mret outcome_ret field lookup list_lookup lenIs actionIs require
       List.length Nat.eqb Nat.ltb Nat.leb negb andb orb orPanic app checked unchecked fst snd] in *;
  rewrite ?eqS_refl;
  cbn [mbind outcome_bind mret outcome_ret require negb andb orb orPanic].

Ltac field_side := solve [done | eapply length_not_nil; [|done]; congruence
                         | rewrite ?length_fmap; congruence].

Ltac roundtrip_step :=
  first
  [ progress read_fields
  | rewrite !Split_listField by done
  | rewrite !SplitNonEmpty_optField by done
  | erewrite !keys_optField by done
  | rewrite !Split_flags by field_side
  | rewrite !Split_FormatUint by field_side
  | rewrite !Split_FormatInt by field_side
  | rewrite !Split_percents by field_side
  | rewrite !flagOf_flagText
  | rewrite !uints_read by done
  | rewrite !ints_read by done
  | rewrite !percents_read by done
  | rewrite !Atoi_FormatInt by done
  | match goal with Hk : ?m = Ok _ |- context [?m] => rewrite Hk end
  | rewrite sameLength_ok by field_side ].

Ltac roundtrip := unfold keysAre, hashesAre, addressesAre in *; repeat roundtrip_step; try done.

Lemma stake_roundtrip s : wf_Stake s →
  ValidateAndImportStakeInstructionFromString (StakeInstruction_ToString s) = Ok s.
Proof.
  destruct s as [keys structs chain txs hashes receivers addrs flags].
  intros (Hchain & Hkeys & Htxs & Hrec & Hks & Hhs & Has & E1 & E2 & E3). cbn in *. subst chain.
  unfold ValidateAndImportStakeInstructionFromString, ValidateStakeInstructionSanity,
    ImportStakeInstructionFromString, StakeInstruction_ToString.
  cbn [siPublicKeys siChain siTxStakes siRewardReceivers siAutoStakingFlag].
  assert (flags ≠ []) by (by eapply length_not_nil; [|apply Hkeys]).
  roundtrip.
Qed.

Lemma random_roundtrip r : in_i64 (randomNumber r) →
  ValidateAndImportRandomInstructionFromString (RandomInstruction_ToString r) = Ok r.
Proof.
  destruct r as [n]. cbn [randomNumber]. intros Hn. pose proof (Atoi_FormatInt n Hn) as E. unfold Atoi in E.
  unfold ValidateAndImportRandomInstructionFromString, ValidateRandomInstructionSanity,
    ImportRandomInstructionFromString, RandomInstruction_ToString. cbn [randomNumber].
  read_fields. by rewrite E.
Qed.

Lemma stopautostake_roundtrip s : wf_StopAutoStake s →
  ValidateAndImportStopAutoStakeInstructionFromString (StopAutoStakeInstruction_ToString s) = Ok (Some s).
Proof.
  destruct s as [keys structs]. intros [Hkeys Hks]. cbn in *.
  unfold ValidateAndImportStopAutoStakeInstructionFromString, ValidateStopAutoStakeInstructionSanity,
    ImportStopAutoStakeInstructionFromString, StopAutoStakeInstruction_ToString.
  cbn [saCommitteePublicKeys]. roundtrip.
Qed.

Lemma unstake_roundtrip s : wf_Unstake s →
  ValidateAndImportUnstakeInstructionFromString (UnstakeInstruction_ToString s) = Ok s.
Proof.
  destruct s as [keys structs]. intros [Hkeys Hks]. cbn in *.
  unfold ValidateAndImportUnstakeInstructionFromString, ValidateUnstakeInstructionSanity,
    ImportUnstakeInstructionFromString, UnstakeInstruction_ToString.
  cbn [uiCommitteePublicKeys]. roundtrip.
Qed.

Lemma ParseUint_chain n : 0 ≤ n < word63 → ParseUint (FormatInt n) = (n, None).
Proof.
  intros Hn. unfold FormatInt. rewrite (proj2 (Z.ltb_ge n 0)) by lia.
  apply ParseUint_FormatUint. unfold in_u64, word63, word64 in *. lia.
Qed.

Lemma swapshard_roundtrip s : wf_SwapShard s →
  ValidateAndImportSwapShardInstructionFromString (SwapShardInstruction_ToString s) = Ok s.
Proof.
  destruct s as [ins istructs outs ostructs chain type]. intros (Hi & His & Ho & Hos & Hc & Ht). cbn in *.
  assert (in_i64 chain) by (unfold in_i64, word63 in *; lia).
  pose proof (Atoi_FormatInt type Ht) as E. unfold Atoi in E.
  unfold ValidateAndImportSwapShardInstructionFromString, ValidateSwapShardInstructionSanity,
    ImportSwapShardInstructionFromString, SwapShardInstruction_ToString.
  cbn [ssInPublicKeys ssOutPublicKeys ssChainID ssType]. read_fields.
  rewrite ParseUint_chain, E by done. roundtrip.
Qed.

Lemma finishsync_roundtrip f : wf_FinishSync f →
  ValidateAndImportFinishSyncInstructionFromString (FinishSyncInstruction_ToString f) = Ok f.
Proof.
  destruct f as [chain keys structs]. intros (Hc & Hkeys & Hks). cbn in *.
  unfold ValidateAndImportFinishSyncInstructionFromString, ValidateFinishSyncInstructionSanity,
    ImportFinishSyncInstructionFromString, FinishSyncInstruction_ToString.
  cbn [fsChainID fsPublicKeys]. roundtrip.
Qed.

Lemma assign_roundtrip a : wf_Assign a →
  ValidateAndImportAssignInstructionFromString (AssignInstruction_ToString a) = Ok a.
Proof.
  destruct a as [chain keys structs]. intros (Hc & Hkeys & Hks). cbn in *.
  unfold ValidateAndImportAssignInstructionFromString, ValidateAssignInstructionSanity,
    ImportAssignInstructionFromString, AssignInstruction_ToString.
  cbn [aiChainID aiShardCandidates]. roundtrip.
Qed.

Lemma return_roundtrip s : wf_ReturnStake s →
  ValidateAndImportReturnStakingInstructionFromString (ReturnStakeInstruction_ToString s) = Ok s.
Proof.
  destruct s as [keys structs txs hashes percents]. intros (Hk & Hks & Ht & Hhs & E1 & E2 & Hp). cbn in *.
  unfold ValidateAndImportReturnStakingInstructionFromString, ValidateReturnStakingInstructionSanity,
    ImportReturnStakingInstructionFromString, ReturnStakeInstruction_ToString.
  cbn [rsPublicKeys rsStakingTXIDs rsPercentReturns].
  assert (percents ≠ []) by (by eapply length_not_nil; [|apply Hk]). roundtrip.
Qed.

Lemma returnbeacon_roundtrip s : wf_ReturnBeacon s →
  ValidateAndImportReturnBeaconStakingInstructionFromString (ReturnBeaconStakeInstruction_ToString s) = Ok s.
Proof.
  destruct s as [keys structs amounts percents reasons]. intros (Hk & Hks & E & Hp & Hr & Hrs & Ha & Has). cbn in *.
  unfold ValidateAndImportReturnBeaconStakingInstructionFromString, ValidateReturnBeaconStakingInstructionSanity,
    ImportReturnBeaconStakingInstructionFromString, ReturnBeaconStakeInstruction_ToString.
  cbn [rbPublicKeys rbReturnAmounts rbPercentReturns rbReasons].
  assert (percents ≠ []) by (by eapply length_not_nil; [|apply Hk]).
  assert (∀ A (print : A → string) l, l ≠ [] → optionalField print l = [Join (print <$> l)]) as Hopt by (by intros ?? []).
  rewrite !Hopt by done. roundtrip.
Qed.

Lemma addstake_roundtrip s : wf_AddStaking s →
  ValidateAndImportAddStakingInstructionFromString (AddStakingInstruction_ToString s) = Ok (Some s).
Proof.
  destruct s as [keys amounts txs structs]. intros (Hk & Hks & Ht & Ha & Has). cbn in *.
  unfold ValidateAndImportAddStakingInstructionFromString, ValidateAddStakingInstructionSanity,
    ImportAddStakingInstructionFromString, AddStakingInstruction_ToString.
  cbn [asCommitteePublicKeys asStakingAmount asStakingTxIDs]. roundtrip.
Qed.

(** An empty list is left out, any other is set. *)
Lemma onReDelegate_optField l keys r set : optField l → keysAre l keys →
  onReDelegate (Join l) false (Some r) set = Ok (Some (if decide (l = []) then r else set l r)).
Proof.
  intros [Hl Hc] Hk. unfold onReDelegate, eqS. case_bool_decide as E.
  - destruct (Join_empty l E) as [-> | ->]; [|done]. by rewrite decide_True.
  - rewrite Split_Join; [|by intros ->|done]. rewrite decide_False; [done|by intros ->].
Qed.

Lemma keysAre_nil keys : keysAre [] keys → keys = [].
Proof. by intros [= <-]. Qed.

Lemma redelegate_roundtrip s : wf_ReDelegate s →
  ValidateAndImportReDelegateInstructionFromString (ReDelegateInstruction_ToString s) = Ok (Some s).
Proof.
  destruct s as [keys kstructs delegates dstructs uids]. intros (Hk & Hks & Hd & Hds & Hu & Hne & [hs Hhs]). cbn in *.
  unfold ValidateAndImportReDelegateInstructionFromString, ValidateReDelegateInstructionSanity,
    ImportReDelegateInstructionFromString, ReDelegateInstruction_ToString.
  cbn [rdCommitteePublicKeys rdDelegateList rdDelegateUIDList]. read_fields.
  rewrite !SplitNonEmpty_optField by done.
  rewrite (keys_optField keys kstructs), (keys_optField delegates dstructs) by done. read_fields.
  rewrite (Split_listField uids) by (split; [done|apply Hu]). rewrite Hhs. read_fields.
  rewrite (Hks : CommitteeBase58KeyListToStruct keys = Ok kstructs),
    (Hds : CommitteeBase58KeyListToStruct delegates = Ok dstructs). cbn [negb].
  rewrite (onReDelegate_optField keys kstructs) by done. read_fields.
  rewrite (onReDelegate_optField delegates dstructs) by done. read_fields.
  unfold onReDelegate, eqS. rewrite bool_decide_eq_false_2.
  - rewrite Split_listField by (split; [done|apply Hu]). cbn [mret outcome_ret]. do 2 f_equal.
    destruct (decide (keys = [])) as [->|]; destruct (decide (delegates = [])) as [->|]; cbn;
      rewrite ?(keysAre_nil kstructs) by done; rewrite ?(keysAre_nil dstructs) by done; done.
  - intros E. destruct (Join_empty uids E) as [->| ->]; [done|]. by destruct Hu.
Qed.

Lemma requestreward_roundtrip r : wf_RequestReward r →
  ValidateAndImportRequestDelegationRewardInstructionFromString (RequestDelegationRewardInstruction_ToString r) = Ok r.
Proof.
  destruct r as [addrs structs txs]. intros (Ha & Has & Ht & [hs Hhs]). cbn in *.
  unfold ValidateAndImportRequestDelegationRewardInstructionFromString,
    ValidateRequestDelegationRewardInstructionSanity, ImportRequestDelegationRewardInstructionFromString,
    RequestDelegationRewardInstruction_ToString.
  cbn [rqIncPaymentAddrs rqTxRequestIDs]. roundtrip.
Qed.

Lemma mintreward_roundtrip m : wf_MintReward m →
  ValidateAndImportMintDelegationRewardInstructionFromString (MintDelegationRewardInstruction_ToString m) = Ok m.
Proof.
  destruct m as [addrs structs amounts txs hashes]. intros (Ha & Has & Ht & Hhs & E1 & Hu & E2). cbn in *.
  unfold ValidateAndImportMintDelegationRewardInstructionFromString,
    ValidateMintDelegationRewardInstructionSanity, ImportMintDelegationRewardInstructionFromString,
    MintDelegationRewardInstruction_ToString.
  cbn [mdPaymentAddresses mdRewardAmount mdTxRequestIDs].
  assert (amounts ≠ []) by (by eapply length_not_nil; [|apply Ha]). roundtrip.
Qed.

Lemma enablefeature_roundtrip f : listField (efFeatures f) →
  ValidateAndImportEnableFeatureInstructionFromString (EnableFeatureInstruction_ToString f) = Ok f.
Proof.
  destruct f as [features]. cbn [efFeatures]. intros Hf.
  unfold ValidateAndImportEnableFeatureInstructionFromString, ValidateEnableFeatureInstructionSanity,
    ImportEnableFeatureInstructionFromString, EnableFeatureInstruction_ToString.
  cbn [efFeatures]. roundtrip.
Qed.

Lemma foldl_AddPrice ids prices f : List.length prices = List.length ids →
  foldl (λ f '(id, p), AddPrice id p f) f (zip ids prices) =
  Build_SharePriceInstruction (spCommitteeHash f ++ ids) (spPrices f ++ prices).
Proof.
  revert prices f. induction ids as [|id ids IH]; intros [|p prices] f E; try done; cbn.
  - rewrite !app_nil_r. by destruct f.
  - rewrite IH by (by injection E). cbn. by rewrite <- !app_assoc.
Qed.

(** What go-ethereum documents of [math.ParseUint64]: it reads decimal numbers of 64 bits. *)
Context (ParseUint64_decimal : ∀ n, in_u64 n → ParseUint64 (FormatUint n) = (n, true)).

Lemma prices_read (l : list Z) : Forall in_u64 l → mapErr (priceOf ParseUint64) (FormatUint <$> l) = Ok l.
Proof.
  intros Hl. apply mapErr_fmap. intros n Hn. unfold priceOf. rewrite ParseUint64_decimal; [done|].
  by eapply Forall_forall in Hl.
Qed.

Lemma shareprice_roundtrip f : wf_SharePrice f →
  ValidateAndImportSharePriceInstructionFromString ParseUint64 (SharePriceInstruction_ToString f) = Ok f.
Proof.
  destruct f as [ids prices]. intros (Hi & E & Hp). cbn in *.
  unfold ValidateAndImportSharePriceInstructionFromString, ValidateSharePriceInstructionSanity,
    importSharePriceInstructionFromString, SharePriceInstruction_ToString.
  cbn [spCommitteeHash spPrices].
  assert (prices ≠ []) by (by eapply length_not_nil; [|apply Hi]). roundtrip.
  rewrite prices_read by done. read_fields. by rewrite foldl_AddPrice.
Qed.

Lemma amounts_read (l : list Z) : Forall in_u64 l → (λ s, (ParseUint64 s).1) <$> (FormatUint <$> l) = l.
Proof.
  induction 1 as [|n l Hn Hl IH]; [done|]. rewrite !fmap_cons, ParseUint64_decimal, IH by done. done.
Qed.

Lemma beaconstake_roundtrip s : wf_BeaconStake s →
  ValidateAndImportBeaconStakeInstructionFromString ParseUint64 (BeaconStakeInstruction_ToString s) = Ok s.
Proof.
  destruct s as [keys structs chain txs hashes receivers addrs flags amounts funders faddrs].
  intros (Hchain & Hkeys & Htxs & Hrec & Hfun & Hks & Hhs & Has & Hfs & E1 & E2 & E3 & Ha & Hau).
  cbn in *. subst chain.
  unfold ValidateAndImportBeaconStakeInstructionFromString, ValidateBeaconStakeInstructionSanity,
    ImportBeaconStakeInstructionFromString, BeaconStakeInstruction_ToString.
  cbn [bsPublicKeys bsChain bsTxStakes bsRewardReceivers bsAutoStakingFlag bsStakingAmount bsFunderAddress].
  assert (flags ≠ []) by (by eapply length_not_nil; [|apply Hkeys]).
  roundtrip. by rewrite amounts_read.
Qed.

Lemma swap_roundtrip s : wf_Swap s →
  ValidateAndImportSwapInstructionFromString (SwapInstruction_ToString s) = Ok s.
Proof.
  destruct s as [ins istructs outs ostructs chain punished receivers addrs rep].
  intros (Hi & His & Ho & Hos & Hc & Hrep & Hrc & Has & Hpun). cbn in *.
  pose proof (Atoi_FormatInt chain Hc) as Hchain. unfold Atoi in Hchain.
  unfold ValidateAndImportSwapInstructionFromString, ValidateSwapInstructionSanity,
    ImportSwapInstructionFromString, SwapInstruction_ToString, Atoi.
  cbn [swInPublicKeys swOutPublicKeys swChainID swPunishedPublicKeys swNewRewardReceivers].
  assert (eqS SHARD_INST BEACON_INST = false) as Hne by done.
  destruct (Z.eqb_spec chain BEACON_CHAIN_ID) as [->|Hnb];
    destruct receivers as [|x receivers]; cbn [ifReceivers List.length Nat.eqb negb] in *; subst rep;
    unfold keysAre, addressesAre in *; rewrite <- ?Hpun by done; cbn [app];
    try (assert (listField (x :: receivers)) by done);
    repeat (roundtrip_step || rewrite Hne); try (injection Has as <-); try done.
Qed.

(** C20: whatever a node prints, every node imports as the very same instruction: for each of
    the seventeen kinds of well-formed instruction, the sanity check accepts the printed form
    and the import returns the instruction that was printed, its keys, addresses and hashes
    parsed. *)
Theorem instruction_roundtrip i : wf_instruction i → reimport i = Ok i.
Proof.
  intros Hi. destruct i; cbn [wf_instruction reimport] in *; unfold again, againPointer;
    by rewrite ?stake_roundtrip, ?beaconstake_roundtrip, ?random_roundtrip, ?stopautostake_roundtrip,
      ?unstake_roundtrip, ?swapshard_roundtrip, ?finishsync_roundtrip, ?assign_roundtrip,
      ?return_roundtrip, ?returnbeacon_roundtrip, ?swap_roundtrip, ?addstake_roundtrip,
      ?redelegate_roundtrip, ?requestreward_roundtrip, ?mintreward_roundtrip,
      ?enablefeature_roundtrip, ?shareprice_roundtrip by done.
Qed.

(** ** Any other text *)
Lemma require_Ok b e : require b e = Ok tt → b = true.
Proof. by destruct b. Qed.
Lemma lenIs_Ok n inst : lenIs n inst = Ok tt → List.length inst = n.
Proof. intros E%require_Ok. by apply Nat.eqb_eq. Qed.
Lemma field_in n inst : (n < List.length inst)%nat → ∃ f, field n inst = Ok f.
Proof. intros Hn. apply lookup_lt_is_Some in Hn as [f Hf]. exists f. unfold field. by rewrite Hf. Qed.

Lemma require_returns b e : returns (require b e).
Proof. by destruct b. Qed.
Lemma sameLength_returns {A B} (a : list A) (b : list B) : returns (sameLength a b).
Proof. apply require_returns. Qed.
Lemma checked_returns r : returns (checked r).
Proof. by destruct r as [? []]. Qed.
Lemma percentOf_returns s : returns (percentOf s).
Proof. apply outcome_bind_returns; [apply checked_returns|done]. Qed.
Lemma NewHashFromStr_returns s : returns (NewHashFromStr s).
Proof.
  unfold NewHashFromStr, Hash_Decode. destruct (_ <? _)%nat; [done|]. by destruct (hex_decode _).
Qed.
Lemma lenIs_returns n inst : returns (lenIs n inst).
Proof. apply require_returns. Qed.

Lemma keys_SplitNonEmpty f keys : CommitteeBase58KeyListToStruct (Split f) = Ok keys →
  CommitteeBase58KeyListToStruct (SplitNonEmpty f) = Ok keys.
Proof.
  unfold SplitNonEmpty, eqS. case_bool_decide as E; [|done]. subst f. intros [= <-]. done.
Qed.

(** The texts, read in order, run into one on which the decoder of addresses panics. *)
Definition decoderPanics (l : list string) : Prop :=
  ∃ pre a post, l = pre ++ a :: post ∧ Forall (λ x, is_Ok (Base58CheckDeserialize x)) pre ∧
    Base58CheckDeserialize a = Panic.

Lemma addressOf_eq x :
  addressOf x = (keyWallet ← Base58CheckDeserialize x; Ok (ksPaymentAddress (kwKeySet keyWallet))).
Proof. done. Qed.

Lemma addresses_panic l : mapErr addressOf l = Panic ↔ decoderPanics l.
Proof.
  unfold decoderPanics. induction l as [|x l IH]; cbn [mapErr].
  { split; [done|]. intros (pre & a & post & E & _). by destruct pre. }
  rewrite addressOf_eq. destruct (Base58CheckDeserialize x) as [k|e| |] eqn:Ex; cbn [mbind outcome_bind].
  - destruct (mapErr addressOf l) as [l'|e'| |] eqn:El; cbn [mbind outcome_bind].
    3: { split; [|done]. intros _. destruct (proj1 IH eq_refl) as (pre & a & post & -> & Hpre & Ha).
         exists (x :: pre), a, post. split; [done|]. split; [|done]. constructor; [by eexists|done]. }
    all: split; [done|]; intros (pre & a & post & E & Hpre & Ha); destruct pre as [|y pre];
      injection E as -> ->; [congruence|]; apply Forall_cons in Hpre as [_ Hpre];
      assert (∃ pre' a' post', pre ++ a :: post = pre' ++ a' :: post' ∧
        Forall (λ x, is_Ok (Base58CheckDeserialize x)) pre' ∧ Base58CheckDeserialize a' = Panic) as H1
        by (by exists pre, a, post); by apply IH in H1.
  - split; [done|]. intros (pre & a & post & E & Hpre & Ha). destruct pre as [|y pre]; injection E as -> ->; [congruence|].
    apply Forall_cons in Hpre as [[k Hk] _]. congruence.
  - split; [|done]. intros _. by exists [], x, l.
  - by apply Base58CheckDeserialize_fuel in Ex.
Qed.

Lemma addresses_fuel l : mapErr addressOf l ≠ OutOfFuel.
Proof.
  induction l as [|x l IH]; [done|]. cbn [mapErr]. rewrite addressOf_eq.
  pose proof (Base58CheckDeserialize_fuel x).
  destruct (Base58CheckDeserialize x), (mapErr addressOf l); done.
Qed.

Create HintDb returns.
#[local] Hint Resolve require_returns sameLength_returns checked_returns percentOf_returns
  NewHashFromStr_returns lenIs_returns keys_return : returns.
#[local] Hint Extern 2 (returns (mapErr _ _)) => apply mapErr_returns; intros ? ? : returns.

(** Steps through a sequence of calls none of which panics. *)
Ltac returns_step :=
  match goal with
  | |- returns (Ok _) => exact I
  | |- returns (Err _) => exact I
  | |- returns (mret _) => exact I
  | Hf : ?m = Ok _ |- returns (?m ≫= _) => rewrite Hf; cbn [mbind outcome_bind]
  | Hf : ?m = Ok _ |- returns (orPanic ?m ≫= _) => rewrite Hf; cbn [orPanic mbind outcome_bind]
  | Hf : CommitteeBase58KeyListToStruct (Split ?f) = Ok _
    |- returns (orPanic (CommitteeBase58KeyListToStruct (SplitNonEmpty ?f)) ≫= _) =>
      rewrite (keys_SplitNonEmpty _ _ Hf); cbn [orPanic mbind outcome_bind]
  | |- returns (field ?n ?inst ≫= _) =>
      let f := fresh "f" in let Hf := fresh "Hf" in
      destruct (field_in n inst) as [f Hf]; [cbn [List.length] in *; lia|]; rewrite Hf; cbn [mbind outcome_bind]
  | |- returns (actionIs _ _ ≫= _) => apply outcome_bind_returns;
      [unfold actionIs; repeat returns_step|intros [] ?]
  | |- returns (actionIs _ _) => unfold actionIs
  | |- returns (lenIs _ _ ≫= _) =>
      apply outcome_bind_returns; [auto with returns|intros [] ?%lenIs_Ok]
  | |- returns ((_ ≫= _) ≫= _) => apply outcome_bind_returns; [repeat returns_step|intros ? ?]
  | |- returns (_ ≫= _) => apply outcome_bind_returns; [solve [auto with returns]|intros ? ?]
  | |- returns _ => solve [auto with returns]
  end.
Ltac all_return := repeat returns_step.

(** A test that passed, taken apart; a field that was read twice is the same. *)
Ltac sane :=
  repeat match goal with
  | E : (?m ≫= _) = Ok _ |- _ => apply outcome_bind_Ok in E as (? & ? & E); cbv beta in E
  end;
  repeat match goal with
  | E : lenIs _ _ = Ok ?u |- _ => destruct u; apply lenIs_Ok in E
  | u : unit |- _ => destruct u
  end.

Tactic Notation "import_returns" reference(sanity) reference(import) :=
  apply outcome_bind_returns;
  [unfold sanity; all_return
  |let u := fresh "u" in let Hu := fresh "Hu" in
   intros u Hu; unfold sanity in Hu; sane; unfold import; all_return].

Lemma random_import_returns inst : (0 < List.length inst)%nat →
  returns (ValidateAndImportRandomInstructionFromString inst).
Proof.
  intros Hlen. unfold ValidateAndImportRandomInstructionFromString.
  destruct inst as [|a [|b inst]]; [cbn in Hlen; lia|done|].
  import_returns ValidateRandomInstructionSanity ImportRandomInstructionFromString.
Qed.

(** A stake reaches its reward receivers once its length, its chain and its transactions are
    as they should be; a swap that replaces a committee, at once. *)
Definition stakePanics (inst : list string) : Prop :=
  ∃ f1 f3 f4 f5, inst = [STAKE_ACTION; f1; SHARD_INST; f3; f4; f5] ∧
    is_Ok (mapErr NewHashFromStr (Split f3)) ∧ decoderPanics (Split f4).
Definition swapPanics (inst : list string) : Prop :=
  ∃ f1 f2 f3 f4 f5 f6, inst = [SWAP_ACTION; f1; f2; f3; f4; f5; f6] ∧ decoderPanics (Split f6).

(** A call that panics exactly if [P], and otherwise returns. *)
Definition panicsIff {A} (P : Prop) (m : outcome A) : Prop := (m = Panic ↔ P) ∧ m ≠ OutOfFuel.

Lemma returns_panicsIff {A} (P : Prop) (m : outcome A) : returns m → (¬ P) → panicsIff P m.
Proof. intros Hm HP. split; [|by destruct m]. split; [by destruct m|done]. Qed.

Lemma stake_import_panics inst : (2 < List.length inst)%nat → head inst = Some STAKE_ACTION →
  panicsIff (stakePanics inst) (ValidateAndImportStakeInstructionFromString inst).
Proof.
  intros Hlen Ha. destruct inst as [|a0 [|a1 [|a2 [|a3 [|a4 [|a5 [|a6 inst]]]]]]]; try (cbn in Hlen; lia).
  1, 2, 3, 5: apply returns_panicsIff; [|by intros (? & ? & ? & ? & E & _)];
    unfold ValidateAndImportStakeInstructionFromString, ValidateStakeInstructionSanity; read_fields;
    by destruct (eqS a2 SHARD_INST).
  injection Ha as ->. unfold ValidateAndImportStakeInstructionFromString, ValidateStakeInstructionSanity,
    ImportStakeInstructionFromString. read_fields.
  destruct (eqS a2 SHARD_INST) eqn:E2.
  2: { apply returns_panicsIff; [done|]. intros (? & ? & ? & ? & E & _). injection E as -> -> _ _ _.
       by rewrite eqS_refl in E2. }
  apply bool_decide_eq_true in E2. subst a2. cbn [mbind outcome_bind].
  pose proof (mapErr_returns NewHashFromStr (Split a3) (λ x _, NewHashFromStr_returns x)) as Hh.
  destruct (mapErr NewHashFromStr (Split a3)) as [hashes|e| |] eqn:E3; try done; cbn [mbind outcome_bind].
  2: { apply returns_panicsIff; [done|]. intros (? & ? & ? & ? & E & [? Hok] & _). injection E as -> -> -> ->.
       congruence. }
  pose proof (addresses_panic (Split a4)) as Hiff. pose proof (addresses_fuel (Split a4)) as Hfuel.
  destruct (mapErr addressOf (Split a4)) as [structs|e| |] eqn:E4; cbn [mbind outcome_bind]; try done.
  - apply returns_panicsIff.
    + apply outcome_bind_returns; [all_return|]. intros u Hu. sane. cbn [orPanic mbind outcome_bind]. all_return.
    + intros (? & ? & ? & ? & E & _ & Hp). injection E as -> -> -> ->. by apply Hiff in Hp.
  - apply returns_panicsIff; [done|].
    intros (? & ? & ? & ? & E & _ & Hp). injection E as -> -> -> ->. by apply Hiff in Hp.
  - split; [|done]. split; [|done]. intros _. exists a1, a3, a4, a5. split; [done|]. split; [by eexists|by apply Hiff].
Qed.

Lemma stopautostake_import_returns inst : returns (ValidateAndImportStopAutoStakeInstructionFromString inst).
Proof. import_returns ValidateStopAutoStakeInstructionSanity ImportStopAutoStakeInstructionFromString. Qed.

Lemma unstake_import_returns inst : returns (ValidateAndImportUnstakeInstructionFromString inst).
Proof. import_returns ValidateUnstakeInstructionSanity ImportUnstakeInstructionFromString. Qed.

Lemma swapshard_import_returns inst : returns (ValidateAndImportSwapShardInstructionFromString inst).
Proof. import_returns ValidateSwapShardInstructionSanity ImportSwapShardInstructionFromString. Qed.

Lemma finishsync_import_returns inst : returns (ValidateAndImportFinishSyncInstructionFromString inst).
Proof. import_returns ValidateFinishSyncInstructionSanity ImportFinishSyncInstructionFromString. Qed.

Lemma assign_import_returns inst : returns (ValidateAndImportAssignInstructionFromString inst).
Proof. import_returns ValidateAssignInstructionSanity ImportAssignInstructionFromString. Qed.

Lemma return_import_returns inst : returns (ValidateAndImportReturnStakingInstructionFromString inst).
Proof. import_returns ValidateReturnStakingInstructionSanity ImportReturnStakingInstructionFromString. Qed.

Lemma returnbeacon_import_returns inst : returns (ValidateAndImportReturnBeaconStakingInstructionFromString inst).
Proof. import_returns ValidateReturnBeaconStakingInstructionSanity ImportReturnBeaconStakingInstructionFromString. Qed.

(** The two importers outside the switch that read addresses. *)
Lemma requestreward_import_returns inst : (∀ l, returns (mapErr addressOf l)) →
  returns (ValidateAndImportRequestDelegationRewardInstructionFromString inst).
Proof.
  intros Hdecoder.
  import_returns ValidateRequestDelegationRewardInstructionSanity ImportRequestDelegationRewardInstructionFromString.
Qed.

Lemma mintreward_import_returns inst : (∀ l, returns (mapErr addressOf l)) →
  returns (ValidateAndImportMintDelegationRewardInstructionFromString inst).
Proof.
  intros Hdecoder.
  import_returns ValidateMintDelegationRewardInstructionSanity ImportMintDelegationRewardInstructionFromString.
Qed.

Lemma enablefeature_import_returns inst : returns (ValidateAndImportEnableFeatureInstructionFromString inst).
Proof. import_returns ValidateEnableFeatureInstructionSanity ImportEnableFeatureInstructionFromString. Qed.

Lemma priceOf_returns s : returns (priceOf ParseUint64 s).
Proof. unfold priceOf. by destruct (ParseUint64 s) as [? []]. Qed.
#[local] Hint Resolve priceOf_returns : returns.
Lemma shareprice_import_returns inst : returns (ValidateAndImportSharePriceInstructionFromString ParseUint64 inst).
Proof. import_returns ValidateSharePriceInstructionSanity importSharePriceInstructionFromString. Qed.

Lemma addstake_import_returns inst : returns (ValidateAndImportAddStakingInstructionFromString inst).
Proof.
  import_returns ValidateAddStakingInstructionSanity ImportAddStakingInstructionFromString.
  destruct (mapErr _ _); all_return.
Qed.

Lemma swap_import_panics inst : head inst = Some SWAP_ACTION →
  panicsIff (swapPanics inst) (ValidateAndImportSwapInstructionFromString inst).
Proof.
  intros Ha. unfold ValidateAndImportSwapInstructionFromString.
  destruct inst as [|a0 [|a1 [|a2 [|a3 [|a4 [|a5 [|a6 [|a7 inst]]]]]]]]; try done; injection Ha as ->;
    unfold ValidateSwapInstructionSanity, ImportSwapInstructionFromString; read_fields.
  all: try (apply returns_panicsIff; [done|]; by intros (? & ? & ? & ? & ? & ? & [=] & _)).
  1, 2: apply returns_panicsIff; [|by intros (? & ? & ? & ? & ? & ? & [=] & _)];
    (apply outcome_bind_returns; [all_return|intros u Hu; sane; all_return]);
    cbn [mapErr orPanic mbind outcome_bind]; all_return;
    destruct (eqS a3 BEACON_INST); try done; all_return.
  pose proof (addresses_panic (Split a6)) as Hiff. pose proof (addresses_fuel (Split a6)) as Hfuel.
  destruct (mapErr addressOf (Split a6)) as [structs|e| |] eqn:E6; cbn [mbind outcome_bind]; try done.
  - apply returns_panicsIff.
    + cbn [mbind outcome_bind mret outcome_ret].
      apply outcome_bind_returns; [all_return|]. intros u Hu. sane. cbn [orPanic mbind outcome_bind].
      all_return; destruct (eqS a3 BEACON_INST); try done; all_return.
    + intros (? & ? & ? & ? & ? & ? & E & Hp). injection E as -> -> -> -> -> ->. by apply Hiff in Hp.
  - apply returns_panicsIff; [done|].
    intros (? & ? & ? & ? & ? & ? & E & Hp). injection E as -> -> -> -> -> ->. by apply Hiff in Hp.
  - split; [|done]. split; [|done]. intros _. exists a1, a2, a3, a4, a5, a6. split; [done|]. by apply Hiff.
Qed.

Lemma onReDelegate_ok f r set : ∃ r', onReDelegate f false (Some r) set = Ok (Some r').
Proof. unfold onReDelegate. destruct (eqS f ""); by eexists. Qed.

Lemma redelegate_import_returns inst : returns (ValidateAndImportReDelegateInstructionFromString inst).
Proof.
  apply outcome_bind_returns; [unfold ValidateReDelegateInstructionSanity; all_return|].
  intros u Hu. unfold ValidateReDelegateInstructionSanity in Hu. sane.
  unfold ImportReDelegateInstructionFromString. all_return.
  repeat (all_return; match goal with
  | Hk : CommitteeBase58KeyListToStruct (Split ?f) = Ok _
    |- context [CommitteeBase58KeyListToStruct (SplitNonEmpty ?f)] =>
      rewrite (keys_SplitNonEmpty _ _ Hk); cbn [negb]
  | |- context [onReDelegate ?f false (Some ?r) ?set] =>
      destruct (onReDelegate_ok f r set) as [? ->]; cbn [mbind outcome_bind]
  end); done.
Qed.

(** The consensus actions without an importer. *)
Definition unhandled : list string :=
  [BEACON_STAKE_ACTION; ASSIGN_ACTION; SET_ACTION; ACCEPT_BLOCK_REWARD_V3_ACTION;
   SHARD_RECEIVE_REWARD_V3_ACTION; SHARD_INST; BEACON_INST; REQ_DREWARD_ACTION; MINT_DREWARD_ACTION].

Lemma fmap_panicsIff {A B} P (f : A → B) (m : outcome A) : panicsIff P m → panicsIff P (f <$> m).
Proof. intros [H1 H2]. split; [|by destruct m]. rewrite <- H1. by destruct m. Qed.

(** When an importer of the switch panics on an instruction with its action. *)
Definition badText (inst : list string) : Prop :=
  (head inst = Some STAKE_ACTION ∧ (List.length inst ≤ 2)%nat) ∨ stakePanics inst ∨ swapPanics inst.

Lemma badText_action inst : badText inst → head inst = Some STAKE_ACTION ∨ head inst = Some SWAP_ACTION.
Proof. intros [[? _]|[(? & ? & ? & ? & -> & _)|(? & ? & ? & ? & ? & ? & -> & _)]]; tauto. Qed.

Lemma importer_panics action import inst : In (action, import) importers →
  head inst = Some action → panicsIff (badText inst) (import inst).
Proof.
  intros Hin Hhead. assert (0 < List.length inst)%nat by (destruct inst; [done|cbn; lia]).
  repeat destruct Hin as [[= <- <-]|Hin]; try done; apply fmap_panicsIff.
  1: { destruct (Nat.leb_spec (List.length inst) 2) as [Hle|Hlt].
       - split; [split|].
         + intros _. by left.
         + intros _. destruct inst as [|a [|b [|c inst]]]; cbn in *; try lia; done.
         + destruct inst as [|a [|b [|c inst]]]; cbn in *; try lia; done.
       - destruct (stake_import_panics inst Hlt Hhead) as [Hiff Hfuel]. split; [|done]. rewrite Hiff.
         split; [by right; left|]. intros [[_ Hle]|[Hp|(? & ? & ? & ? & ? & ? & -> & _)]]; [lia|done|done]. }
  3: { destruct (swap_import_panics inst Hhead) as [Hiff Hfuel]. split; [|done]. rewrite Hiff.
       split; [by right; right|]. intros [[Hs _]|[(? & ? & ? & ? & -> & _)|Hp]]; [rewrite Hhead in Hs; by injection Hs|done|done]. }
  all: apply returns_panicsIff; [|intros [E|E]%badText_action; rewrite Hhead in E; by injection E].
  all: eauto using random_import_returns, stopautostake_import_returns,
      swapshard_import_returns, finishsync_import_returns, unstake_import_returns,
      addstake_import_returns, return_import_returns, returnbeacon_import_returns, redelegate_import_returns.
Qed.

Lemma importerOf_In action import : importerOf action = Some import → In (action, import) importers.
Proof.
  unfold importerOf. destruct (List.find _ _) as [[a i]|] eqn:E; [|done]. intros [= <-].
  apply find_some in E as [Hin Ha]. apply bool_decide_eq_true in Ha. cbn in Ha. by subst a.
Qed.

Lemma unhandled_iff action :
  IsConsensusInstruction action = true ∧ importerOf action = None ↔ action ∈ unhandled.
Proof.
  split.
  - intros [Hc Hi]. unfold IsConsensusInstruction in Hc. apply existsb_exists in Hc as (a & Hin & Ha).
    apply bool_decide_eq_true in Ha. subst a.
    repeat destruct Hin as [<-|Hin]; try discriminate Hi; try done;
      unfold unhandled; rewrite !elem_of_cons; tauto.
  - unfold unhandled. rewrite !elem_of_cons, elem_of_nil.
    intros Ha. repeat destruct Ha as [->|Ha]; done.
Qed.

Lemma badText_panics inst : badText inst → ValidateAndImportInstructionFromString inst = Panic.
Proof.
  intros Hb. unfold ValidateAndImportInstructionFromString.
  destruct (badText_action inst Hb) as [E|E]; (destruct inst as [|a inst]; [done|]; injection E as ->);
    cbn [field lookup list_lookup mbind outcome_bind].
  - destruct (importerOf STAKE_ACTION) as [import|] eqn:Hi; [|done].
    by apply (importer_panics STAKE_ACTION import); [apply importerOf_In| |].
  - destruct (importerOf SWAP_ACTION) as [import|] eqn:Hi; [|done].
    by apply (importer_panics SWAP_ACTION import); [apply importerOf_In| |].
Qed.

(** C27: a block's text makes the importer of consensus instructions panic exactly when it is the
    empty instruction, a consensus action that has no importer, a stake instruction too short to
    have a chain, a stake of six fields for the shard chain with well-formed transactions, or a
    swap of seven fields, whose reward receivers, read in order, run into a text on which the
    decoder of addresses panics.  On everything else it returns an instruction or an error. *)
Theorem import_panics inst :
  (ValidateAndImportInstructionFromString inst = Panic ↔
     inst = [] ∨ (∃ action, head inst = Some action ∧ action ∈ unhandled) ∨
     (head inst = Some STAKE_ACTION ∧ (List.length inst ≤ 2)%nat) ∨
     stakePanics inst ∨ swapPanics inst) ∧
  ValidateAndImportInstructionFromString inst ≠ OutOfFuel.
Proof.
  change (_ ∨ stakePanics inst ∨ swapPanics inst) with (badText inst).
  destruct inst as [|action inst]; [split; [split; [by left|done]|done]|].
  unfold ValidateAndImportInstructionFromString. cbn [field lookup list_lookup mbind outcome_bind].
  assert (action ∈ unhandled → ¬ badText (action :: inst)) as Hun.
  { intros Hu [E|E]%badText_action; injection E as ->; by apply unhandled_iff in Hu as [_ Hu]. }
  destruct (IsConsensusInstruction action) eqn:Hc; cbn [negb].
  2: { split; [|done]. split; [done|].
       intros [?|[(a & [= <-] & Ha%unhandled_iff)|[E|E]%badText_action]]; [done| | |];
         [destruct Ha; congruence|injection E as ->; done..]. }
  destruct (importerOf action) as [import|] eqn:Hi.
  - destruct (importer_panics action import (action :: inst)) as [Hiff Hfuel]; [by apply importerOf_In|done|].
    split; [|done]. rewrite Hiff. split; [tauto|].
    intros [?|[(a & [= <-] & Ha%unhandled_iff)|?]]; [done| |done]. destruct Ha; congruence.
  - split; [|done]. split; [|done]. intros _. right. left. exists action. split; [done|].
    by apply unhandled_iff.
Qed.

(** What an accepted stake instruction says is as long everywhere and parsed; one empty key is
    the exception, see below. *)
Lemma accepted_stake inst s : ValidateAndImportStakeInstructionFromString inst = Ok s →
  siChain s = SHARD_INST ∧ keysAre (siPublicKeys s) (siPublicKeyStructs s) ∧
  hashesAre (siTxStakes s) (siTxStakeHashes s) ∧ addressesAre (siRewardReceivers s) (siRewardReceiverStructs s) ∧
  List.length (siTxStakes s) = List.length (siPublicKeys s) ∧
  List.length (siRewardReceivers s) = List.length (siPublicKeys s) ∧
  List.length (siAutoStakingFlag s) = List.length (siPublicKeys s).
Proof.
  unfold ValidateAndImportStakeInstructionFromString, ValidateStakeInstructionSanity,
    ImportStakeInstructionFromString. intros E. sane.
  repeat match goal with
  | E1 : field ?n inst = Ok ?a, E2 : field ?n inst = Ok ?b |- _ =>
      rewrite E1 in E2; injection E2 as ?; subst
  | E1 : ?m = Ok _, E2 : orPanic ?m = Ok _ |- _ => rewrite E1 in E2; injection E2 as ?; subst
  | E1 : sameLength _ _ = Ok _ |- _ => apply require_Ok, Nat.eqb_eq in E1
  | E1 : require (eqS _ _) _ = Ok _ |- _ => apply require_Ok, bool_decide_eq_true in E1; subst
  | E1 : mret _ = Ok _ |- _ => injection E1 as <-
  end. cbn. rewrite length_fmap. split_and!; try done; congruence.
Qed.

End Roundtrip.

(** Such a text exists whatever the hashes and the runtime: a stake for the shard chain with the
    text [crafted] prints as its reward receiver panics every node that imports it. *)
Lemma crafted_receiver_panics `{Keys} `{!WalletLaws} :
  ∃ a, ∀ f1 f3 f5, is_Ok (mapErr NewHashFromStr (Split f3)) →
    ValidateAndImportInstructionFromString [STAKE_ACTION; f1; SHARD_INST; f3; a; f5] = Panic.
Proof.
  destruct crafted_address_panics as (a & Ea & Hp). exists a. intros f1 f3 f5 Hf3.
  assert (noComma a = true) as Hcomma.
  { apply encoded_alphabet in Ea.
    - revert Ea. clear. induction a as [|c a IH]; [done|]. cbn. intros [[d Hc] Ha]%Forall_cons.
      apply andb_true_iff. split; [|by apply IH]. destruct (Ascii.eqb_spec c SPLITTER) as [->|]; [|done].
      by vm_compute in Hc.
    - apply Forall_app. split; [|apply checksum_bytes]. do 3 (constructor; [done|]). by apply digits_zeros. }
  apply badText_panics. right. left. exists f1, f3, a, f5. split; [done|]. split; [done|].
  rewrite Split_word by done. by exists [], a, [].
Qed.

(** ** Instructions that slip through *)
Module Demo.

(** Committee keys are any text but the empty one. *)
#[export] Instance demo_keys : Keys := {|
  CommitteePublicKey := string;
  FromString s := if bool_decide (s = "") then None else Some s;
  keys_wallet := DemoWallet.demo_ops;
|}.

Definition addressA : PaymentAddress := mkPaymentAddress (replicate 32 10) (replicate 32 11) [].
Definition addressB : PaymentAddress := mkPaymentAddress (replicate 32 20) (replicate 32 21) (replicate 32 22).
Definition walletA : string := DemoWallet.text (onlyAddress addressA).
Definition walletB : string := DemoWallet.text (onlyAddress addressB).

Definition ParseUint64 (s : string) : Z * bool :=
  let '(n, e) := ParseUint s in (n, match e with None => true | Some _ => false end).

Lemma ParseUint64_decimal n : in_u64 n → ParseUint64 (FormatUint n) = (n, true).
Proof. intros Hn. unfold ParseUint64. by rewrite ParseUint_FormatUint. Qed.

Definition hash1 : string := Hash_String (named_hash 1).
Definition hash2 : string := Hash_String (named_hash 2).

Definition stake : StakeInstruction :=
  {| siPublicKeys := ["alice"; "bob"]; siPublicKeyStructs := ["alice"; "bob"]; siChain := SHARD_INST;
     siTxStakes := [hash1; hash2]; siTxStakeHashes := [named_hash 1; named_hash 2];
     siRewardReceivers := [walletA; walletB]; siRewardReceiverStructs := [addressA; addressB];
     siAutoStakingFlag := [true; false] |}.

Definition stakeText : list string := StakeInstruction_ToString stake.
Example stake_text :
  map (λ s, if (20 <? String.length s)%nat then "..." else s) stakeText =
  ["stake"; "alice,bob"; "shard"; "..."; "..."; "true,false"].
Proof. by vm_compute. Qed.

Definition replacement : SwapInstruction :=
  {| swInPublicKeys := ["alice"]; swInPublicKeyStructs := ["alice"]; swOutPublicKeys := ["bob"];
     swOutPublicKeyStructs := ["bob"]; swChainID := BEACON_CHAIN_ID; swPunishedPublicKeys := "{}";
     swNewRewardReceivers := [walletA]; swNewRewardReceiverStructs := [addressA]; swIsReplace := true |}.

End Demo.
#[local] Existing Instance Demo.demo_keys.

Lemma instruction_roundtrip_witness :
  (∀ n, in_u64 n → Demo.ParseUint64 (FormatUint n) = (n, true)) ∧ wf_instruction (AStake Demo.stake) ∧
  reimport Demo.ParseUint64 (AStake Demo.stake) = Ok (AStake Demo.stake).
Proof.
  assert (wf_instruction (AStake Demo.stake)) as Hwf.
  { split_and!; try (by vm_compute); done. }
  split; [exact Demo.ParseUint64_decimal|split; [exact Hwf|]].
  exact (instruction_roundtrip Demo.ParseUint64 Demo.ParseUint64_decimal (AStake Demo.stake) Hwf).
Defined.

(** The chain is read before the length is known. *)
Lemma short_stake_panics :
  ValidateAndImportStakeInstructionFromString [STAKE_ACTION] = Panic ∧
  ValidateAndImportBeaconStakeInstructionFromString Demo.ParseUint64 [BEACON_STAKE_ACTION] = Panic.
Proof. by split. Qed.

(** An empty list of keys reads as one empty key, which counts but is not parsed. *)
Lemma empty_key_accepted :
  (λ s, (siPublicKeys s, siPublicKeyStructs s)) <$>
    ValidateAndImportStakeInstructionFromString [STAKE_ACTION; ""; SHARD_INST; Demo.hash1; Demo.walletA; "true"] =
  Ok ([""], []).
Proof. by vm_compute. Qed.

(** The amounts and the funders of a beacon stake, and the amounts of an added stake, are not
    checked: a bad funder panics, a bad amount counts as zero or loses the instruction. *)
Lemma beacon_stake_unchecked :
  ValidateAndImportBeaconStakeInstructionFromString Demo.ParseUint64
    [BEACON_STAKE_ACTION; "alice"; BEACON_INST; Demo.hash1; Demo.walletA; "true"; "100"; "bad"] = Panic ∧
  bsStakingAmount <$> ValidateAndImportBeaconStakeInstructionFromString Demo.ParseUint64
    [BEACON_STAKE_ACTION; "alice"; BEACON_INST; Demo.hash1; Demo.walletA; "true"; "many"; Demo.walletB] = Ok [0] ∧
  ValidateAndImportAddStakingInstructionFromString [ADD_STAKING_ACTION; "alice"; "many"; Demo.hash1] = Ok None.
Proof. split_and!; by vm_compute. Qed.

(** A request for delegation rewards with two addresses and one transaction is accepted. *)
Lemma request_lengths_unchecked :
  is_Ok (ValidateAndImportRequestDelegationRewardInstructionFromString
           [REQ_DREWARD_ACTION; Join [Demo.walletA; Demo.walletB]; Demo.hash1]).
Proof. eexists. by vm_compute. Qed.

(** The punished keys of a replaced beacon committee are lost in print. *)
Lemma replacement_loses_punished :
  swPunishedPublicKeys <$> ValidateAndImportSwapInstructionFromString (SwapInstruction_ToString Demo.replacement) =
  Ok "".
Proof. by vm_compute. Qed.

(** A return of beacon stake that was built with [AddNewRequest] has no reasons, is printed
    without that field, and is refused. *)
Lemma built_return_refused :
  (s ← ReturnBeacon_AddNewRequest "alice" 100 (Build_ReturnBeaconStakeInstruction [] [] [] [] []);
   ValidateAndImportReturnBeaconStakingInstructionFromString (ReturnBeaconStakeInstruction_ToString s)) =
  Err "invalid length".
Proof. by vm_compute. Qed.
