(* ===== verification/SwapRules.v ===== *)
(** How a shard's committee changes at the end of an epoch
    ([committeestate/consensus_swap_rule_v2.go], [consensus_swap_rule_v3.go]).

    A rule takes the committee, whose first members are fixed nodes, and the queue of
    substitutes; it throws penalised members out (slashing), lets some members out normally,
    and lets substitutes in from the head of the queue.  The two versions in use implement one
    interface, [SwapRuleProcessor]; [SwapRuleLaws] states what the committee state relies on. *)
From S2P Require Import Prelude Wallet InstructionText BeaconInstructions Timeslot SignatureCounter.

Local Open Scope Z_scope.

Definition MAX_SWAP_OR_ASSIGN_PERCENT_V2 : Z := 6.
Definition MAX_SLASH_PERCENT_V3 : Z := 3.
Definition MAX_SWAP_OUT_PERCENT_V3 : Z := 8.
Definition MAX_SWAP_IN_PERCENT_V3 : Z := 8.
Definition MAX_ASSIGN_PERCENT_V3 : Z := 8.

Definition len {A} (l : list A) : Z := Z.of_nat (List.length l).

(** [l[:n]] and [l[n:]].  The code takes both of a list with the same bound, or bounds it by
    the length first, so a bound past the end panics too. *)
Definition sliceTo {A} (n : Z) (l : list A) : outcome (list A) :=
  if (0 <=? n) && (n <=? len l) then Ok (take (Z.to_nat n) l) else Panic.
Definition sliceFrom {A} (n : Z) (l : list A) : outcome (list A) :=
  if (0 <=? n) && (n <=? len l) then Ok (drop (Z.to_nat n) l) else Panic.

(** The penalised members are thrown out from the front, at most [offset] of them: who stays,
    who goes, and what is left of the offset. *)
Fixpoint slash (penalty : gmap string Penalty) (offset : Z) (flex : list string) :
    list string * list string * Z :=
  match flex with
  | [] => ([], [], offset)
  | c :: flex =>
      if bool_decide (is_Some (penalty !! c)) && (0 <? offset)
      then let '(stay, go, rest) := slash penalty (offset - 1) flex in (stay, c :: go, rest)
      else let '(stay, go, rest) := slash penalty offset flex in (c :: stay, go, rest)
  end.

Section Rules.
Context `{Keys}.

(** What [Process] returns. *)
Record SwapResult := {
  srInstruction : SwapShardInstruction;
  srCommittees : list string;
  srSubstitutes : list string;
  srSlashing : list string;
  srNormalOut : list string;
}.

(** The interface of both rules. *)
Class SwapRuleProcessor := {
  Process : Z → list string → list string → Z → Z → Z → Z → gmap string Penalty → outcome SwapResult;
  CalculateAssignOffset : Z → Z → Z → Z → Z;
}.

(** The empty instruction, or the members that come and go. *)
Definition swapInstruction (empty : SwapShardInstruction) (shardID typeIns : Z) (ins outs : list string) :
    outcome SwapShardInstruction :=
  if (List.length ins =? 0)%nat && (List.length outs =? 0)%nat then mret empty
  else NewSwapShardInstructionWithValue ins outs shardID typeIns.

(** *** Version 2 *)
Fixpoint noReplaceLoop (fuel : nat) (swapOffset noReplaceOffset numberOfCommittees minCommitteeSize : Z) : Z * Z :=
  match fuel with
  | O => (swapOffset, noReplaceOffset)
  | S fuel =>
      if (0 <? swapOffset) && (minCommitteeSize <? numberOfCommittees)
      then noReplaceLoop fuel (swapOffset - 1) (noReplaceOffset + 1) (numberOfCommittees - 1) minCommitteeSize
      else (swapOffset, noReplaceOffset)
  end.

Definition getSwapOutOffset (numberOfSubstitutes numberOfCommittees numberOfFixedValidator minCommitteeSize : Z) : Z :=
  let swapOffset := Z.quot numberOfCommittees MAX_SWAP_OR_ASSIGN_PERCENT_V2 in
  if swapOffset =? 0 then 0
  else
    let swapOffset := if numberOfCommittees - numberOfFixedValidator <? swapOffset
                      then numberOfCommittees - numberOfFixedValidator else swapOffset in
    let '(swapOffset, noReplaceOffset) :=
      noReplaceLoop (Z.to_nat swapOffset) swapOffset 0 numberOfCommittees minCommitteeSize in
    let replaceSwapOffset := if numberOfSubstitutes <? swapOffset then numberOfSubstitutes else swapOffset in
    noReplaceOffset + replaceSwapOffset.

Definition slashingSwapOutV2 (committees substitutes : list string) (penalty : gmap string Penalty)
    (minCommitteeSize numberOfFixedValidator : Z) : outcome (list string * list string * list string) :=
  if len committees =? numberOfFixedValidator then mret (committees, [], [])
  else
    fixedCommittees ← sliceTo numberOfFixedValidator committees;
    flexCommittees ← sliceFrom numberOfFixedValidator committees;
    let swapOutOffset := getSwapOutOffset (len substitutes) (len committees)
                           numberOfFixedValidator minCommitteeSize in
    let '(flexAfterSlashing, slashing, swapOutOffset) := slash penalty swapOutOffset flexCommittees in
    normalSwapOut ← sliceTo swapOutOffset flexAfterSlashing;
    flexAfterSlashing ← sliceFrom swapOutOffset flexAfterSlashing;
    mret (fixedCommittees ++ flexAfterSlashing, slashing, normalSwapOut).

Definition swapInAfterSwapOutV2 (committees substitutes : list string) (maxCommitteeSize : Z) :
    outcome (list string * list string * list string) :=
  let vacantSlot := maxCommitteeSize - len committees in
  let vacantSlot := if len substitutes <? vacantSlot then len substitutes else vacantSlot in
  newCommittees ← sliceTo vacantSlot substitutes;
  rest ← sliceFrom vacantSlot substitutes;
  mret (committees ++ newCommittees, rest, newCommittees).

Definition ProcessV2 (shardID : Z) (committees substitutes : list string)
    (minCommitteeSize maxCommitteeSize typeIns numberOfFixedValidators : Z)
    (penalty : gmap string Penalty) : outcome SwapResult :=
  '(committees, slashing, normalOut) ←
    slashingSwapOutV2 committees substitutes penalty minCommitteeSize numberOfFixedValidators;
  '(newCommittees, newSubstitutes, swapIn) ← swapInAfterSwapOutV2 committees substitutes maxCommitteeSize;
  inst ← swapInstruction NewSwapShardInstruction shardID typeIns swapIn (slashing ++ normalOut);
  mret (Build_SwapResult inst newCommittees newSubstitutes slashing normalOut).

Definition CalculateAssignOffsetV2 (lenShardSubstitute lenCommittees numberOfFixedValidators minCommitteeSize : Z) : Z :=
  let assignPerShard := getSwapOutOffset lenShardSubstitute lenCommittees
                          numberOfFixedValidators minCommitteeSize in
  if assignPerShard =? 0
  then if (lenCommittees <? MAX_SWAP_OR_ASSIGN_PERCENT_V2) || (lenCommittees - numberOfFixedValidators =? 0)
       then 1 else assignPerShard
  else assignPerShard.

Definition swapRuleV2 : SwapRuleProcessor := {|
  Process := ProcessV2;
  CalculateAssignOffset := CalculateAssignOffsetV2;
|}.

(** *** Version 3 *)
Definition getMaxSlashingOffset (lenCommittees numberOfFixedValidators : Z) : Z :=
  if lenCommittees =? numberOfFixedValidators then 0
  else
    let offset := Z.quot lenCommittees MAX_SLASH_PERCENT_V3 in
    if lenCommittees - numberOfFixedValidators <? offset
    then lenCommittees - numberOfFixedValidators else offset.

Definition slashingSwapOutV3 (committees : list string) (penalty : gmap string Penalty)
    (minNumberOfValidators : Z) : outcome (list string * list string) :=
  fixedCommittees ← sliceTo minNumberOfValidators committees;
  flexCommittees ← sliceFrom minNumberOfValidators committees;
  let '(flexAfterSlashing, slashing, _) :=
    slash penalty (getMaxSlashingOffset (len committees) minNumberOfValidators) flexCommittees in
  mret (fixedCommittees ++ flexAfterSlashing, slashing).

Definition getNormalSwapOutOffset (lenCommitteesBeforeSlash lenSubstitutes lenSlashedCommittees
    numberOfFixedValidators maxCommitteeSize : Z) : Z :=
  if lenSubstitutes =? 0 then 0
  else if negb (maxCommitteeSize =? lenCommitteesBeforeSlash) then 0
  else if lenSlashedCommittees =? getMaxSlashingOffset lenCommitteesBeforeSlash numberOfFixedValidators then 0
  else
    let maxOffset := Z.quot lenCommitteesBeforeSlash MAX_SWAP_OUT_PERCENT_V3 in
    let maxOffset := if lenCommitteesBeforeSlash - numberOfFixedValidators <? maxOffset
                     then lenCommitteesBeforeSlash - numberOfFixedValidators else maxOffset in
    if maxOffset <=? lenSlashedCommittees then 0
    else
      let offset := maxOffset - lenSlashedCommittees in
      let offset := if lenSubstitutes <? offset then lenSubstitutes else offset in
      let lenAfterSlash := lenCommitteesBeforeSlash - lenSlashedCommittees in
      if lenAfterSlash - numberOfFixedValidators <? offset
      then lenAfterSlash - numberOfFixedValidators else offset.

Definition normalSwapOut (committeesAfterSlashing substitutes : list string)
    (lenCommitteesBeforeSlash lenSlashedCommittees minNumberOfValidators maxCommitteeSize : Z) :
    outcome (list string * list string) :=
  let offset := getNormalSwapOutOffset lenCommitteesBeforeSlash (len substitutes) lenSlashedCommittees
                  minNumberOfValidators maxCommitteeSize in
  kept ← sliceTo minNumberOfValidators committeesAfterSlashing;
  rest ← sliceFrom (minNumberOfValidators + offset) committeesAfterSlashing;
  upTo ← sliceTo (minNumberOfValidators + offset) committeesAfterSlashing;
  out ← sliceFrom minNumberOfValidators upTo;
  mret (kept ++ rest, out).

Definition getSwapInOffset (lenCommitteesAfterSwapOut lenSubstitutes maxCommitteeSize
    numberOfSlashingValidators lenCommitteesBeforeSwapOut : Z) : Z :=
  let offset :=
    if (numberOfSlashingValidators =? 0) && (lenCommitteesBeforeSwapOut =? maxCommitteeSize)
    then Z.quot lenCommitteesBeforeSwapOut MAX_SWAP_IN_PERCENT_V3
    else Z.quot lenCommitteesAfterSwapOut MAX_SWAP_IN_PERCENT_V3 in
  let offset := if (offset =? 0) && (lenCommitteesAfterSwapOut <? MAX_SWAP_IN_PERCENT_V3) then 1 else offset in
  let offset := if lenSubstitutes <? offset then lenSubstitutes else offset in
  if maxCommitteeSize <? lenCommitteesAfterSwapOut + offset
  then maxCommitteeSize - lenCommitteesAfterSwapOut else offset.

Definition swapInAfterSwapOutV3 (committees substitutes : list string)
    (maxCommitteeSize numberOfSlashingValidators lenCommitteesBeforeSwapOut : Z) :
    outcome (list string * list string * list string) :=
  let offset := getSwapInOffset (len committees) (len substitutes) maxCommitteeSize
                  numberOfSlashingValidators lenCommitteesBeforeSwapOut in
  swapIn ← sliceTo offset substitutes;
  rest ← sliceFrom offset substitutes;
  mret (committees ++ swapIn, rest, swapIn).

(** The fixed nodes and the minimal committee are protected together. *)
Definition ProcessV3 (shardID : Z) (committees substitutes : list string)
    (minCommitteeSize maxCommitteeSize typeIns numberOfFixedValidators : Z)
    (penalty : gmap string Penalty) : outcome SwapResult :=
  let minNumberOfValidators := if numberOfFixedValidators <? minCommitteeSize
                               then minCommitteeSize else numberOfFixedValidators in
  '(newCommittees, slashing) ← slashingSwapOutV3 committees penalty minNumberOfValidators;
  '(newCommittees, normalOut) ← normalSwapOut newCommittees substitutes (len committees) (len slashing)
                                  minNumberOfValidators maxCommitteeSize;
  '(newCommittees, newSubstitutes, swapIn) ←
    swapInAfterSwapOutV3 newCommittees substitutes maxCommitteeSize (len slashing) (len committees);
  inst ← swapInstruction (NewSwapShardInstructionWithShardID shardID) shardID typeIns swapIn (slashing ++ normalOut);
  mret (Build_SwapResult inst newCommittees newSubstitutes slashing normalOut).

Definition CalculateAssignOffsetV3 (lenShardSubstitute lenCommittees numberOfFixedValidators minCommitteeSize : Z) : Z :=
  let assignOffset := Z.quot lenCommittees MAX_ASSIGN_PERCENT_V3 in
  if (assignOffset =? 0) && (lenCommittees <? MAX_ASSIGN_PERCENT_V3) then 1 else assignOffset.

Definition swapRuleV3 : SwapRuleProcessor := {|
  Process := ProcessV3;
  CalculateAssignOffset := CalculateAssignOffsetV3;
|}.

(** ** What the rules promise *)

(** Sizes for which the rules are meant: the fixed nodes and the minimal committee are there,
    and the committee has at most its maximal size. *)
Definition sized (committees : list string) (minSize maxSize fixed : Z) : Prop :=
  0 ≤ fixed ≤ len committees ∧ 0 ≤ minSize ≤ len committees ∧ len committees ≤ maxSize.

Definition parsable (l : list string) : Prop := Forall (λ k, is_Some (FromString k)) l.

Definition protected (minSize fixed : Z) : nat := Z.to_nat (Z.max fixed minSize).

(** [kept] members stay and [swapIn] come: nobody is lost or duplicated, the fixed nodes stay
    where they are, substitutes come from the head of the queue, only penalised members are
    slashed, at most a third of the committee goes, and as long as somebody goes without a
    penalty, nobody unprotected stays with one. *)
Record swap_sound (shardID typeIns minSize maxSize fixed : Z) (penalty : gmap string Penalty)
    (committees substitutes : list string) (r : SwapResult) (kept swapIn : list string) : Prop := {
  sw_committees : srCommittees r = kept ++ swapIn;
  sw_substitutes : substitutes = swapIn ++ srSubstitutes r;
  sw_out : committees ≡ₚ kept ++ srSlashing r ++ srNormalOut r;
  sw_order : kept `sublist_of` committees;
  sw_fixed : take (Z.to_nat fixed) (srCommittees r) = take (Z.to_nat fixed) committees;
  sw_slashed : ∀ k, k ∈ srSlashing r → is_Some (penalty !! k);
  sw_normal : ∀ k, k ∈ srNormalOut r → penalty !! k = None;
  sw_priority : srNormalOut r ≠ [] → ∀ k, k ∈ drop (protected minSize fixed) kept → penalty !! k = None;
  sw_third : 3 * len (srSlashing r ++ srNormalOut r) ≤ len committees;
  sw_min : minSize ≤ len (srCommittees r);
  sw_max : len (srCommittees r) ≤ maxSize;
  sw_instruction :
    if (List.length swapIn =? 0)%nat && (List.length (srSlashing r ++ srNormalOut r) =? 0)%nat
    then SwapShardInstruction_IsEmpty (srInstruction r) = true
    else ssInPublicKeys (srInstruction r) = swapIn ∧
         ssOutPublicKeys (srInstruction r) = srSlashing r ++ srNormalOut r ∧
         ssChainID (srInstruction r) = shardID ∧ ssType (srInstruction r) = typeIns;
}.

(** What the committee state relies on. *)
Class SwapRuleLaws (R : SwapRuleProcessor) := {
  Process_sound shardID typeIns minSize maxSize fixed penalty committees substitutes :
    sized committees minSize maxSize fixed → parsable (committees ++ substitutes) →
    ∃ r kept swapIn,
      Process shardID committees substitutes minSize maxSize typeIns fixed penalty = Ok r ∧
      swap_sound shardID typeIns minSize maxSize fixed penalty committees substitutes r kept swapIn;
  CalculateAssignOffset_nonneg lenSubstitutes lenCommittees fixed minSize :
    0 ≤ lenSubstitutes → 0 ≤ fixed ≤ lenCommittees →
    0 ≤ CalculateAssignOffset lenSubstitutes lenCommittees fixed minSize;
}.

(** *** Slices and slashing *)
Lemma len_nonneg {A} (l : list A) : 0 ≤ len l.
Proof. unfold len. lia. Qed.
Lemma len_app {A} (l k : list A) : len (l ++ k) = len l + len k.
Proof. unfold len. rewrite length_app. lia. Qed.
Lemma len_Permutation {A} (l k : list A) : l ≡ₚ k → len l = len k.
Proof. intros Hp. unfold len. by rewrite Hp. Qed.
Lemma len_nil {A} (l : list A) : len l = 0 → l = [].
Proof. unfold len. destruct l; cbn; [done|lia]. Qed.

Lemma sliceTo_Ok {A} n (l : list A) : 0 ≤ n ≤ len l → sliceTo n l = Ok (take (Z.to_nat n) l).
Proof. intros Hn. unfold sliceTo. by rewrite (proj2 (Z.leb_le _ _)), (proj2 (Z.leb_le _ _)) by lia. Qed.
Lemma sliceFrom_Ok {A} n (l : list A) : 0 ≤ n ≤ len l → sliceFrom n l = Ok (drop (Z.to_nat n) l).
Proof. intros Hn. unfold sliceFrom. by rewrite (proj2 (Z.leb_le _ _)), (proj2 (Z.leb_le _ _)) by lia. Qed.
Lemma len_take {A} n (l : list A) : 0 ≤ n ≤ len l → len (take (Z.to_nat n) l) = n.
Proof. unfold len. intros Hn. rewrite length_take. lia. Qed.
Lemma len_drop {A} n (l : list A) : 0 ≤ n ≤ len l → len (drop (Z.to_nat n) l) = len l - n.
Proof. unfold len. intros Hn. rewrite length_drop. lia. Qed.

Lemma slash_spec penalty offset flex stay go rest : 0 ≤ offset →
  slash penalty offset flex = (stay, go, rest) →
  flex ≡ₚ stay ++ go ∧ stay `sublist_of` flex ∧ rest = offset - len go ∧ 0 ≤ rest ∧
  (∀ k, k ∈ go → is_Some (penalty !! k)) ∧ (0 < rest → ∀ k, k ∈ stay → penalty !! k = None).
Proof.
  revert offset stay go rest. induction flex as [|c flex IH]; intros offset stay go rest Ho E.
  { injection E as <- <- <-. split_and!; try done; [unfold len; cbn; lia|set_solver|set_solver]. }
  cbn in E. destruct (bool_decide (is_Some (penalty !! c)) && (0 <? offset)) eqn:Hc.
  - apply andb_true_iff in Hc as [Hc%bool_decide_eq_true Hpos%Z.ltb_lt].
    destruct (slash penalty (offset - 1) flex) as [[s g] o] eqn:Es. injection E as <- <- <-.
    apply IH in Es as (Hp & Hs & -> & Hr & Hgo & Hstay); [|lia]. split_and!.
    + rewrite Hp. by rewrite Permutation_middle.
    + by apply sublist_cons.
    + unfold len. cbn [List.length]. lia.
    + done.
    + intros k [->|Hk]%elem_of_cons; auto.
    + done.
  - destruct (slash penalty offset flex) as [[s g] o] eqn:Es. injection E as <- <- <-.
    apply IH in Es as (Hp & Hs & -> & Hr & Hgo & Hstay); [|done]. split_and!; try done.
    + by rewrite Hp.
    + by apply sublist_skip.
    + intros Hrest k [->|Hk]%elem_of_cons; [|by apply Hstay].
      apply andb_false_iff in Hc as [Hc%bool_decide_eq_false|Hc%Z.ltb_ge].
      * by apply eq_None_not_Some.
      * pose proof (len_nonneg g). lia.
Qed.

Lemma keys_parse l : parsable l → is_Ok (CommitteeBase58KeyListToStruct l).
Proof.
  intros Hl. assert (is_Ok (mapErr keyOf l)) as Hm.
  { induction Hl as [|k l [key Hk] Hl [keys IH]]; [by eexists|].
    assert (keyOf k = Ok key) as E by (unfold keyOf; by rewrite Hk).
    exists (key :: keys). cbn [mapErr]. rewrite E. cbn [mbind outcome_bind]. by rewrite IH. }
  unfold CommitteeBase58KeyListToStruct. destruct l as [|[|] [|]]; try done; by eexists.
Qed.

Lemma swapInstruction_Ok empty shardID typeIns ins outs : SwapShardInstruction_IsEmpty empty = true →
  parsable (ins ++ outs) →
  ∃ inst, swapInstruction empty shardID typeIns ins outs = Ok inst ∧
    if (List.length ins =? 0)%nat && (List.length outs =? 0)%nat
    then SwapShardInstruction_IsEmpty inst = true
    else ssInPublicKeys inst = ins ∧ ssOutPublicKeys inst = outs ∧
         ssChainID inst = shardID ∧ ssType inst = typeIns.
Proof.
  intros Hempty [Hi Ho]%Forall_app. unfold swapInstruction. destruct (andb _ _); [by eexists|].
  destruct (keys_parse ins Hi) as [ks Hk], (keys_parse outs Ho) as [os Hos].
  unfold NewSwapShardInstructionWithValue. rewrite Hk, Hos. cbn. by eexists.
Qed.

Lemma parsable_Permutation l k : l ≡ₚ k → parsable l → parsable k.
Proof. intros Hp. unfold parsable. by rewrite Hp. Qed.

(** *** Version 2 *)
Lemma noReplaceLoop_spec fuel k j n minSize : 0 ≤ k ≤ Z.of_nat fuel →
  let m := Z.min k (Z.max 0 (n - minSize)) in noReplaceLoop fuel k j n minSize = (k - m, j + m).
Proof.
  revert k j n. induction fuel as [|fuel IH]; intros k j n Hk; cbn [noReplaceLoop].
  { f_equal; lia. }
  destruct (Z.ltb_spec 0 k), (Z.ltb_spec minSize n); cbn [andb]; [|f_equal; lia..].
  rewrite IH by lia. f_equal; lia.
Qed.

(** How many members may go: at most a sixth of the committee, and no fixed node; those above
    the minimal size go without a replacement, the others need a substitute each. *)
Lemma getSwapOutOffset_spec subs n fixed minSize : 0 ≤ subs → 0 ≤ fixed ≤ n →
  let k := Z.min (n / 6) (n - fixed) in let m := Z.min k (Z.max 0 (n - minSize)) in
  getSwapOutOffset subs n fixed minSize = m + Z.min subs (k - m).
Proof.
  intros Hs Hf. cbv zeta. unfold getSwapOutOffset, MAX_SWAP_OR_ASSIGN_PERCENT_V2.
  rewrite Z.quot_div_nonneg by lia. pose proof (Z.div_pos n 6 ltac:(lia) ltac:(lia)).
  destruct (Z.eqb_spec (n / 6) 0) as [->|]; [lia|].
  set (k := if _ <? _ then _ else _).
  assert (k = Z.min (n / 6) (n - fixed)) as -> by (unfold k; destruct (Z.ltb_spec (n - fixed) (n / 6)); lia).
  rewrite noReplaceLoop_spec by lia. destruct (Z.ltb_spec subs (Z.min (n / 6) (n - fixed) -
    Z.min (Z.min (n / 6) (n - fixed)) (Z.max 0 (n - minSize)))); lia.
Qed.

Lemma slashingSwapOutV2_sound committees substitutes penalty minSize fixed :
  0 ≤ fixed ≤ len committees →
  ∃ kept slashing normalOut,
    slashingSwapOutV2 committees substitutes penalty minSize fixed = Ok (kept, slashing, normalOut) ∧
    committees ≡ₚ kept ++ slashing ++ normalOut ∧ kept `sublist_of` committees ∧
    take (Z.to_nat fixed) kept = take (Z.to_nat fixed) committees ∧ fixed ≤ len kept ∧
    (∀ k, k ∈ slashing → is_Some (penalty !! k)) ∧ (∀ k, k ∈ normalOut → penalty !! k = None) ∧
    (normalOut ≠ [] → ∀ k, k ∈ drop (Z.to_nat fixed) kept → penalty !! k = None) ∧
    len (slashing ++ normalOut) = if len committees =? fixed then 0 else
      getSwapOutOffset (len substitutes) (len committees) fixed minSize.
Proof.
  intros Hf. unfold slashingSwapOutV2. destruct (Z.eqb_spec (len committees) fixed) as [E|Hne].
  { exists committees, [], []. cbn [mret outcome_ret app]. rewrite app_nil_r.
    split_and!; try done; [lia|set_solver|set_solver]. }
  rewrite sliceTo_Ok, sliceFrom_Ok by done. cbn [mbind outcome_bind].
  set (offset := getSwapOutOffset _ _ _ _). set (front := take _ _). set (flex := drop _ _).
  assert (0 ≤ offset ≤ len flex) as Ho.
  { unfold flex. rewrite len_drop by done. unfold offset.
    rewrite getSwapOutOffset_spec by (try done; apply len_nonneg). cbv zeta.
    pose proof (len_nonneg substitutes). pose proof (Z.div_pos (len committees) 6). lia. }
  destruct (slash penalty offset flex) as [[stay slashing] rest] eqn:Es.
  apply slash_spec in Es as (Hp & Hs & -> & Hr & Hgo & Hstay); [|lia].
  assert (len flex = len stay + len slashing) as Hlen by (by rewrite (len_Permutation _ _ Hp), len_app).
  set (o := offset - len slashing) in *.
  rewrite sliceTo_Ok, sliceFrom_Ok by lia. cbn [mbind outcome_bind mret outcome_ret].
  assert (committees = front ++ flex) as Hc by (symmetry; apply take_drop).
  assert (List.length front = Z.to_nat fixed) as Hfl.
  { unfold front. rewrite length_take. unfold len in *. lia. }
  eexists _, _, _. split; [done|]. split_and!.
  - rewrite Hc at 1. rewrite Hp, <- (take_drop (Z.to_nat o) stay) at 1. solve_Permutation.
  - rewrite Hc. apply sublist_app; [done|]. etrans; [apply sublist_drop|done].
  - rewrite take_app_le by lia. unfold front. by rewrite take_take, Nat.min_id.
  - rewrite len_app. unfold len at 1. rewrite Hfl. pose proof (len_nonneg (drop (Z.to_nat o) stay)). lia.
  - exact Hgo.
  - intros k Hk. destruct (Z.ltb_spec 0 o) as [Hpos|Hz].
    + apply Hstay; [done|]. by eapply subseteq_take.
    + replace o with 0 in Hk by lia. by apply not_elem_of_nil in Hk.
  - intros Hn k Hk. destruct (Z.ltb_spec 0 o) as [Hpos|Hz].
    + apply Hstay; [done|]. rewrite <- Hfl, drop_app_length in Hk.
      by eapply subseteq_drop.
    + replace o with 0 in Hn by lia. by destruct Hn.
  - rewrite len_app, len_take by lia. unfold o. lia.
Qed.

Lemma swapInAfterSwapOutV2_Ok committees substitutes maxSize : len committees ≤ maxSize →
  let n := Z.min (len substitutes) (maxSize - len committees) in
  swapInAfterSwapOutV2 committees substitutes maxSize =
    Ok (committees ++ take (Z.to_nat n) substitutes, drop (Z.to_nat n) substitutes,
        take (Z.to_nat n) substitutes).
Proof.
  intros Hlen. cbv zeta. unfold swapInAfterSwapOutV2. pose proof (len_nonneg substitutes).
  set (v := if _ <? _ then _ else _).
  assert (v = Z.min (len substitutes) (maxSize - len committees)) as ->.
  { unfold v. destruct (Z.ltb_spec (len substitutes) (maxSize - len committees)); lia. }
  by rewrite sliceTo_Ok, sliceFrom_Ok by lia.
Qed.

Lemma parsable_parts committees substitutes kept slashing normalOut n :
  committees ≡ₚ kept ++ slashing ++ normalOut → parsable (committees ++ substitutes) →
  parsable (take n substitutes ++ slashing ++ normalOut).
Proof.
  intros Hp [Hc Hs]%Forall_app. rewrite Hp in Hc. apply Forall_app in Hc as [_ Hc].
  apply Forall_app. split; [by apply Forall_take|done].
Qed.

Lemma elem_of_drop_le {A} (a b : nat) (l : list A) k : (b ≤ a)%nat → k ∈ drop a l → k ∈ drop b l.
Proof.
  intros Hab Hk. replace a with (b + (a - b))%nat in Hk by lia. rewrite <- drop_drop in Hk.
  by eapply subseteq_drop.
Qed.

Lemma ProcessV2_spec shardID typeIns minSize maxSize fixed penalty committees substitutes :
  sized committees minSize maxSize fixed → parsable (committees ++ substitutes) →
  ∃ r kept swapIn,
    ProcessV2 shardID committees substitutes minSize maxSize typeIns fixed penalty = Ok r ∧
    swap_sound shardID typeIns minSize maxSize fixed penalty committees substitutes r kept swapIn ∧
    6 * len (srSlashing r ++ srNormalOut r) ≤ len committees ∧
    (len (srSlashing r ++ srNormalOut r) ≤ Z.max 0 (len committees - minSize) + len substitutes) ∧
    len swapIn = Z.min (len substitutes) (maxSize - len kept).
Proof.
  intros (Hf & Hmin & Hmax) Hparse.
  destruct (slashingSwapOutV2_sound committees substitutes penalty minSize fixed Hf)
    as (kept & slashing & normalOut & E & Hp & Hs & Hfix & Hfk & Hsl & Hno & Hpri & Hlen).
  pose proof (len_Permutation _ _ Hp) as Hsum. rewrite len_app in Hsum.
  pose proof (len_nonneg (slashing ++ normalOut)). pose proof (len_nonneg substitutes).
  set (n := Z.min (len substitutes) (maxSize - len kept)).
  destruct (swapInstruction_Ok NewSwapShardInstruction shardID typeIns (take (Z.to_nat n) substitutes)
              (slashing ++ normalOut)) as (inst & Ei & Hinst); [done|by eapply parsable_parts|].
  exists (Build_SwapResult inst (kept ++ take (Z.to_nat n) substitutes) (drop (Z.to_nat n) substitutes) slashing normalOut),
    kept, (take (Z.to_nat n) substitutes).
  assert (len (take (Z.to_nat n) substitutes) = n) as Hn by (apply len_take; lia).
  assert (6 * len (slashing ++ normalOut) ≤ len committees ∧
    len (slashing ++ normalOut) ≤ Z.max 0 (len committees - minSize) + len substitutes ∧
    minSize ≤ len kept + n) as (H6 & Hrep & Hm).
  { rewrite Hlen. destruct (Z.eqb_spec (len committees) fixed) as [Ee|Hne]; [lia|].
    rewrite getSwapOutOffset_spec in * by done. cbv zeta in *.
    pose proof (Z.mul_div_le (len committees) 6). lia. }
  split_and!; try done.
  - unfold ProcessV2. rewrite E. cbn [mbind outcome_bind]. rewrite swapInAfterSwapOutV2_Ok by lia.
    fold n. cbn [mbind outcome_bind]. rewrite Ei. done.
  - split; cbn [srCommittees srSubstitutes srSlashing srNormalOut srInstruction]; try done.
    + by rewrite take_drop.
    + rewrite <- Hfix. rewrite take_app_le; [done|]. unfold len in Hfk. lia.
    + intros Hne k Hk. apply Hpri; [done|]. eapply elem_of_drop_le; [|exact Hk].
      unfold protected. lia.
    + lia.
    + rewrite len_app. lia.
    + rewrite len_app. lia.
Qed.

(** *** Version 3 *)
Lemma getMaxSlashingOffset_spec n fixed : 0 ≤ fixed ≤ n →
  getMaxSlashingOffset n fixed = Z.min (n / 3) (n - fixed).
Proof.
  intros Hf. unfold getMaxSlashingOffset, MAX_SLASH_PERCENT_V3. rewrite Z.quot_div_nonneg by lia.
  pose proof (Z.div_pos n 3). destruct (Z.eqb_spec n fixed); [lia|].
  destruct (Z.ltb_spec (n - fixed) (n / 3)); lia.
Qed.

Lemma slashingSwapOutV3_sound committees penalty fixed : 0 ≤ fixed ≤ len committees →
  ∃ stay slashing,
    slashingSwapOutV3 committees penalty fixed = Ok (take (Z.to_nat fixed) committees ++ stay, slashing) ∧
    drop (Z.to_nat fixed) committees ≡ₚ stay ++ slashing ∧
    stay `sublist_of` drop (Z.to_nat fixed) committees ∧
    len slashing ≤ getMaxSlashingOffset (len committees) fixed ∧
    (∀ k, k ∈ slashing → is_Some (penalty !! k)) ∧
    (len slashing < getMaxSlashingOffset (len committees) fixed → ∀ k, k ∈ stay → penalty !! k = None).
Proof.
  intros Hf. unfold slashingSwapOutV3. rewrite sliceTo_Ok, sliceFrom_Ok by done. cbn [mbind outcome_bind].
  destruct (slash penalty _ _) as [[stay slashing] rest] eqn:Es.
  apply slash_spec in Es as (Hp & Hs & -> & Hr & Hgo & Hstay).
  2: { rewrite getMaxSlashingOffset_spec by done. pose proof (Z.div_pos (len committees) 3). lia. }
  exists stay, slashing. split_and!; try done; [lia|]. intros Hlt. apply Hstay. lia.
Qed.

(** How many may go without a penalty: nobody unless the committee is full and somebody waits;
    else an eighth of the committee, less those slashed. *)
Lemma getNormalSwapOutOffset_spec n subs slashed fixed maxSize :
  0 ≤ fixed ≤ n → 0 ≤ subs → 0 ≤ slashed ≤ n - fixed →
  let o := getNormalSwapOutOffset n subs slashed fixed maxSize in
  0 ≤ o ∧ slashed + o ≤ n - fixed ∧
  (0 < o → 0 < subs ∧ maxSize = n ∧ slashed ≠ getMaxSlashingOffset n fixed ∧ slashed + o ≤ n / 8) ∧
  (maxSize = n → slashed = 0 → o = Z.min subs (Z.min (n / 8) (n - fixed))).
Proof.
  intros Hf Hs Hsl. cbv zeta. unfold getNormalSwapOutOffset, MAX_SWAP_OUT_PERCENT_V3.
  pose proof (getMaxSlashingOffset_spec n fixed Hf) as Em.
  rewrite Z.quot_div_nonneg by lia. pose proof (Z.div_pos n 8). pose proof (Z.div_pos n 3).
  destruct (Z.eqb_spec subs 0) as [->|]; [split_and!; lia|].
  destruct (Z.eqb_spec maxSize n) as [->|]; cbn [negb]; [|split_and!; lia].
  destruct (Z.eqb_spec slashed (getMaxSlashingOffset n fixed)) as [->|Hne].
  { assert (n / 8 ≤ n / 3) by (apply Z.div_le_compat_l; lia). split_and!; lia. }
  set (m := if _ <? _ then _ else _).
  assert (m = Z.min (n / 8) (n - fixed)) as Hm by (unfold m; destruct (Z.ltb_spec (n - fixed) (n / 8)); lia).
  clearbody m. destruct (Z.leb_spec m slashed); [split_and!; lia|].
  destruct (Z.ltb_spec subs (m - slashed)).
  - destruct (Z.ltb_spec (n - slashed - fixed) subs); split_and!; lia.
  - destruct (Z.ltb_spec (n - slashed - fixed) (m - slashed)); split_and!; lia.
Qed.

Lemma getSwapInOffset_spec after subs maxSize slashed before :
  0 ≤ after ≤ maxSize → 0 ≤ subs → after ≤ before →
  let o := getSwapInOffset after subs maxSize slashed before in
  0 ≤ o ≤ subs ∧ after + o ≤ maxSize ∧ o ≤ Z.max 1 (before / 8) ∧
  (slashed = 0 → before = maxSize → 8 ≤ before → o = Z.min (Z.min subs (before / 8)) (maxSize - after)).
Proof.
  intros Ha Hs Hb. cbv zeta. unfold getSwapInOffset, MAX_SWAP_IN_PERCENT_V3.
  rewrite !Z.quot_div_nonneg by lia.
  pose proof (Z.div_pos after 8). pose proof (Z.div_pos before 8).
  assert (after / 8 ≤ before / 8) by (apply Z.div_le_mono; lia).
  set (q := if _ && _ then before / 8 else after / 8).
  assert (0 ≤ q ≤ before / 8 ∧ (slashed = 0 → before = maxSize → q = before / 8)) as [Hq Hq8].
  { unfold q. destruct (Z.eqb_spec slashed 0), (Z.eqb_spec before maxSize); cbn [andb]; split; lia. }
  clearbody q. assert (8 ≤ before → 1 ≤ before / 8) as H8 by (intros; apply Z.div_le_lower_bound; lia).
  set (p := if _ && _ then 1 else q).
  assert (0 ≤ p ≤ Z.max 1 (before / 8) ∧ (slashed = 0 → before = maxSize → 8 ≤ before → p = before / 8)) as [Hp Hp8].
  { unfold p. destruct (Z.eqb_spec q 0), (Z.ltb_spec after 8); cbn [andb]; split; lia. }
  clearbody p. destruct (Z.ltb_spec subs p).
  - destruct (Z.ltb_spec maxSize (after + subs)); split_and!; lia.
  - destruct (Z.ltb_spec maxSize (after + p)); split_and!; lia.
Qed.

Lemma normalSwapOut_Ok front stay substitutes before slashed maxSize :
  let p := len front in let o := getNormalSwapOutOffset before (len substitutes) slashed p maxSize in
  0 ≤ o ≤ len stay →
  normalSwapOut (front ++ stay) substitutes before slashed p maxSize =
    Ok (front ++ drop (Z.to_nat o) stay, take (Z.to_nat o) stay).
Proof.
  cbv zeta. intros Ho. unfold normalSwapOut. set (o := getNormalSwapOutOffset _ _ _ _ _) in *.
  pose proof (len_nonneg front). pose proof (len_nonneg stay).
  assert (Z.to_nat (len front) = List.length front) as Hf by (unfold len; lia).
  assert (Z.to_nat (len front + o) = (List.length front + Z.to_nat o)%nat) as Hfo by (unfold len; lia).
  rewrite (sliceTo_Ok (len front)), sliceFrom_Ok, sliceTo_Ok by (rewrite len_app; lia).
  cbn [mbind outcome_bind]. rewrite Hf, Hfo, take_app_length, drop_app_add, take_app_add.
  rewrite sliceFrom_Ok; [|rewrite len_app; pose proof (len_nonneg (take (Z.to_nat o) stay)); lia].
  rewrite Hf, drop_app_length. done.
Qed.

Lemma swapInAfterSwapOutV3_Ok committees substitutes maxSize slashed before :
  let o := getSwapInOffset (len committees) (len substitutes) maxSize slashed before in
  0 ≤ o ≤ len substitutes →
  swapInAfterSwapOutV3 committees substitutes maxSize slashed before =
    Ok (committees ++ take (Z.to_nat o) substitutes, drop (Z.to_nat o) substitutes, take (Z.to_nat o) substitutes).
Proof.
  cbv zeta. intros Ho. unfold swapInAfterSwapOutV3. set (o := getSwapInOffset _ _ _ _ _) in *.
  by rewrite sliceTo_Ok, sliceFrom_Ok.
Qed.

(** Slashing and normal swap-out of the third version together. *)
Lemma swapOutV3_sound committees substitutes penalty p maxSize : 0 ≤ p ≤ len committees →
  ∃ stay slashing normalOut,
    slashingSwapOutV3 committees penalty p =
      Ok (take (Z.to_nat p) committees ++ normalOut ++ stay, slashing) ∧
    normalSwapOut (take (Z.to_nat p) committees ++ normalOut ++ stay) substitutes (len committees)
      (len slashing) p maxSize = Ok (take (Z.to_nat p) committees ++ stay, normalOut) ∧
    drop (Z.to_nat p) committees ≡ₚ stay ++ slashing ++ normalOut ∧
    stay `sublist_of` drop (Z.to_nat p) committees ∧
    (∀ k, k ∈ slashing → is_Some (penalty !! k)) ∧ (∀ k, k ∈ normalOut → penalty !! k = None) ∧
    (normalOut ≠ [] → ∀ k, k ∈ stay → penalty !! k = None) ∧
    3 * len (slashing ++ normalOut) ≤ len committees ∧
    (normalOut ≠ [] → len committees = maxSize ∧ substitutes ≠ [] ∧
       8 * len (slashing ++ normalOut) ≤ len committees) ∧
    (len committees = maxSize → slashing = [] →
       len normalOut = Z.min (len substitutes) (Z.min (len committees / 8) (len committees - p))).
Proof.
  intros Hp.
  destruct (slashingSwapOutV3_sound committees penalty p Hp) as (stay & slashing & E & Hperm & Hs & Hlen & Hgo & Hstay).
  pose proof (len_nonneg slashing). pose proof (len_nonneg substitutes). pose proof (len_nonneg stay).
  assert (len committees - p = len stay + len slashing) as Hsum.
  { rewrite <- (len_drop p committees), (len_Permutation _ _ Hperm), len_app by done. done. }
  rewrite getMaxSlashingOffset_spec in Hlen by done.
  pose proof (Z.mul_div_le (len committees) 3). pose proof (Z.mul_div_le (len committees) 8).
  destruct (getNormalSwapOutOffset_spec (len committees) (len substitutes) (len slashing) p maxSize)
    as (Ho & Hfit & Hpos & Hfull); [done..|lia|].
  set (o := getNormalSwapOutOffset _ _ _ _ _) in *.
  assert (len (take (Z.to_nat o) stay) = o) as Hto by (apply len_take; lia).
  exists (drop (Z.to_nat o) stay), slashing, (take (Z.to_nat o) stay). rewrite take_drop.
  assert (take (Z.to_nat o) stay ≠ [] → 0 < o) as Hne.
  { intros Hne. destruct (Z.ltb_spec 0 o); [done|]. replace o with 0 in Hne by lia. done. }
  assert (∀ k, 0 < o → k ∈ stay → penalty !! k = None) as Hclean.
  { intros k Hpo. apply Hstay. apply Hpos in Hpo. rewrite getMaxSlashingOffset_spec in * by done. lia. }
  rewrite len_app, Hto. split_and!; try done.
  - replace p with (len (take (Z.to_nat p) committees)) at 2 by (by apply len_take).
    rewrite normalSwapOut_Ok; rewrite len_take by done; [done|]. fold o. lia.
  - rewrite Hperm, <- (take_drop (Z.to_nat o) stay) at 1. solve_Permutation.
  - etrans; [apply sublist_drop|done].
  - intros k Hk. destruct (Z.ltb_spec 0 o) as [Hpo|Hz].
    + apply Hclean; [done|]. by eapply subseteq_take.
    + replace o with 0 in Hk by lia. by apply not_elem_of_nil in Hk.
  - intros Hn k Hk. apply Hclean; [by apply Hne|by eapply subseteq_drop].
  - assert (0 < o → len slashing + o ≤ len committees / 3); [|lia].
    intros Hpo. apply Hpos in Hpo. assert (len committees / 8 ≤ len committees / 3); [|lia].
    apply Z.div_le_compat_l; lia.
  - intros Hn. apply Hne, Hpos in Hn as (? & ? & ? & ?). split_and!; [done| |lia]. by intros ->.
  - intros Hm ->. apply Hfull; [done|]. done.
Qed.

Lemma ProcessV3_spec shardID typeIns minSize maxSize fixed penalty committees substitutes :
  sized committees minSize maxSize fixed → parsable (committees ++ substitutes) →
  ∃ r kept swapIn,
    ProcessV3 shardID committees substitutes minSize maxSize typeIns fixed penalty = Ok r ∧
    swap_sound shardID typeIns minSize maxSize fixed penalty committees substitutes r kept swapIn ∧
    take (protected minSize fixed) (srCommittees r) = take (protected minSize fixed) committees ∧
    (srNormalOut r ≠ [] → len committees = maxSize ∧ substitutes ≠ [] ∧
       8 * len (srSlashing r ++ srNormalOut r) ≤ len committees) ∧
    len swapIn ≤ Z.max 1 (len committees / 8) ∧
    (len committees = maxSize → srSlashing r = [] →
       len swapIn = len (srNormalOut r) ∧ len (srCommittees r) = maxSize).
Proof.
  intros (Hf & Hmin & Hmax) Hparse. set (p := Z.max fixed minSize).
  assert ((if fixed <? minSize then minSize else fixed) = p) as Hpe
    by (unfold p; destruct (Z.ltb_spec fixed minSize); lia).
  assert (0 ≤ p ≤ len committees) as Hp by lia.
  destruct (swapOutV3_sound committees substitutes penalty p maxSize Hp)
    as (stay & slashing & normalOut & E1 & E2 & Hperm & Hs & Hsl & Hno & Hpri & H3 & H8 & Hfull).
  set (front := take (Z.to_nat p) committees) in *.
  assert (len front = p) as Hfront by (by apply len_take).
  assert (committees ≡ₚ (front ++ stay) ++ slashing ++ normalOut) as Hc.
  { rewrite <- (take_drop (Z.to_nat p) committees) at 1. fold front. by rewrite Hperm, app_assoc. }
  pose proof (len_Permutation _ _ Hc) as Hsum. rewrite (len_app (front ++ stay)), (len_app front) in Hsum.
  pose proof (len_nonneg stay). pose proof (len_nonneg substitutes). pose proof (len_nonneg normalOut).
  pose proof (len_nonneg slashing). rewrite len_app in Hsum.
  destruct (getSwapInOffset_spec (len (front ++ stay)) (len substitutes) maxSize (len slashing) (len committees))
    as (Ho & Hfit & Hin & Heq); [rewrite len_app; lia|done|rewrite len_app; lia|].
  set (o := getSwapInOffset _ _ _ _ _) in *.
  assert (len (take (Z.to_nat o) substitutes) = o) as Hto by (apply len_take; lia).
  destruct (swapInstruction_Ok (NewSwapShardInstructionWithShardID shardID) shardID typeIns
    (take (Z.to_nat o) substitutes) (slashing ++ normalOut)) as (inst & Ei & Hinst);
    [done|by eapply parsable_parts|].
  exists (Build_SwapResult inst ((front ++ stay) ++ take (Z.to_nat o) substitutes)
            (drop (Z.to_nat o) substitutes) slashing normalOut), (front ++ stay), (take (Z.to_nat o) substitutes).
  assert (∀ n, (n ≤ Z.to_nat p)%nat →
    take n ((front ++ stay) ++ take (Z.to_nat o) substitutes) = take n committees) as Htake.
  { intros n Hn. rewrite <- app_assoc, take_app_le by (unfold len in Hfront; lia).
    unfold front. rewrite take_take. f_equal. lia. }
  split_and!; cbn [srCommittees srSlashing srNormalOut]; try done.
  - unfold ProcessV3. rewrite Hpe, E1. cbn [mbind outcome_bind]. rewrite E2. cbn [mbind outcome_bind].
    rewrite swapInAfterSwapOutV3_Ok by done. fold o. cbn [mbind outcome_bind]. by rewrite Ei.
  - split; cbn [srCommittees srSubstitutes srSlashing srNormalOut srInstruction]; try done.
    + by rewrite take_drop.
    + rewrite <- (take_drop (Z.to_nat p) committees). by apply sublist_app.
    + apply Htake. lia.
    + intros Hn k Hk. apply Hpri; [done|]. unfold protected in Hk. fold p in Hk.
      rewrite drop_app_length' in Hk; [done|unfold len in Hfront; lia].
    + rewrite len_app, len_app, Hto. lia.
    + rewrite len_app, Hto. lia.
  - apply Htake. done.
  - rewrite Hto. lia.
  - intros Hm Hz. subst slashing. rewrite len_app, !Hto. rewrite len_app in *.
    specialize (Hfull Hm eq_refl). pose proof (Z.div_pos (len committees) 8).
    pose proof (Z.mul_div_le (len committees) 8).
    destruct (Z.ltb_spec (len committees) 8) as [Hlt|Hge].
    + rewrite (Z.div_small _ 8) in Hfull by lia. change (len (@nil string)) with 0 in *. lia.
    + specialize (Heq eq_refl Hm Hge). change (len (@nil string)) with 0 in *. lia.
Qed.

(** The second swap rule.  On every committee of legal size the rule returns; it neither
    loses nor duplicates a validator, leaves the fixed nodes in place, slashes only penalised
    members and those first, keeps the size between minimum and maximum, and lets at most a
    sixth of the committee go, and only as many below the minimal size as substitutes can
    replace. *)
Theorem ProcessV2_sound shardID typeIns minSize maxSize fixed penalty committees substitutes :
  sized committees minSize maxSize fixed → parsable (committees ++ substitutes) →
  ∃ r kept swapIn,
    ProcessV2 shardID committees substitutes minSize maxSize typeIns fixed penalty = Ok r ∧
    swap_sound shardID typeIns minSize maxSize fixed penalty committees substitutes r kept swapIn ∧
    6 * len (srSlashing r ++ srNormalOut r) ≤ len committees ∧
    (len (srSlashing r ++ srNormalOut r) ≤ Z.max 0 (len committees - minSize) + len substitutes) ∧
    len swapIn = Z.min (len substitutes) (maxSize - len kept).
Proof. apply ProcessV2_spec. Qed.

(** C23: the third swap rule.  On every committee of legal size the rule returns; it neither
    loses nor duplicates a validator, leaves the fixed nodes and the minimal committee in place,
    slashes only penalised members and those first, keeps the size between minimum and maximum
    and replaces at most a third of the committee.  Members go without a penalty only from a
    full committee while somebody waits, and then at most an eighth goes in all; at most an
    eighth, or one, comes in; and a full committee without slashing stays full. *)
Theorem ProcessV3_sound shardID typeIns minSize maxSize fixed penalty committees substitutes :
  sized committees minSize maxSize fixed → parsable (committees ++ substitutes) →
  ∃ r kept swapIn,
    ProcessV3 shardID committees substitutes minSize maxSize typeIns fixed penalty = Ok r ∧
    swap_sound shardID typeIns minSize maxSize fixed penalty committees substitutes r kept swapIn ∧
    take (protected minSize fixed) (srCommittees r) = take (protected minSize fixed) committees ∧
    (srNormalOut r ≠ [] → len committees = maxSize ∧ substitutes ≠ [] ∧
       8 * len (srSlashing r ++ srNormalOut r) ≤ len committees) ∧
    len swapIn ≤ Z.max 1 (len committees / 8) ∧
    (len committees = maxSize → srSlashing r = [] →
       len swapIn = len (srNormalOut r) ∧ len (srCommittees r) = maxSize).
Proof. apply ProcessV3_spec. Qed.

(** A committee smaller than its protected part makes the third version panic. *)
Lemma ProcessV3_small shardID typeIns minSize maxSize fixed penalty committees substitutes :
  len committees < Z.max fixed minSize →
  ProcessV3 shardID committees substitutes minSize maxSize typeIns fixed penalty = Panic.
Proof.
  intros Hlt. unfold ProcessV3, slashingSwapOutV3.
  replace (if fixed <? minSize then minSize else fixed) with (Z.max fixed minSize)
    by (destruct (Z.ltb_spec fixed minSize); lia).
  unfold sliceTo. rewrite (proj2 (Z.leb_gt (Z.max fixed minSize) (len committees)) Hlt). by rewrite andb_false_r.
Qed.

#[export] Instance swapRuleV2_laws : SwapRuleLaws swapRuleV2.
Proof.
  split.
  - intros shardID typeIns minSize maxSize fixed penalty committees substitutes Hsz Hp.
    destruct (ProcessV2_spec shardID typeIns minSize maxSize fixed penalty committees substitutes Hsz Hp)
      as (r & kept & swapIn & E & Hr & _). by exists r, kept, swapIn.
  - intros subs n fixed minSize Hs Hf. cbn. unfold CalculateAssignOffsetV2.
    rewrite getSwapOutOffset_spec by done. cbv zeta. pose proof (Z.div_pos n 6).
    destruct (_ =? 0); [|lia]. destruct (_ || _); lia.
Qed.

#[export] Instance swapRuleV3_laws : SwapRuleLaws swapRuleV3.
Proof.
  split.
  - intros shardID typeIns minSize maxSize fixed penalty committees substitutes Hsz Hp.
    destruct (ProcessV3_spec shardID typeIns minSize maxSize fixed penalty committees substitutes Hsz Hp)
      as (r & kept & swapIn & E & Hr & _). by exists r, kept, swapIn.
  - intros subs n fixed minSize Hs Hf. cbn. unfold CalculateAssignOffsetV3, MAX_ASSIGN_PERCENT_V3.
    rewrite Z.quot_div_nonneg by lia. pose proof (Z.div_pos n 8). destruct (_ && _); lia.
Qed.

End Rules.

(** ** Concrete committees *)
Module Committees.

(** Any non-empty text is a key. *)
#[export] Instance keys : Keys := {|
  CommitteePublicKey := string;
  FromString s := if bool_decide (s = "") then None else Some s;
  keys_wallet := DemoWallet.demo_ops;
|}.

Definition ten : list string := ["a"; "b"; "c"; "d"; "e"; "f"; "g"; "h"; "i"; "j"].
Definition waiting : list string := ["p"; "q"; "r"; "s"; "t"; "u"; "v"; "w"; "x"; "y"].
Definition penalised : gmap string Penalty := {[ "e" := Build_Penalty 50 0 true; "f" := Build_Penalty 50 0 true ]}.

End Committees.
#[local] Existing Instance Committees.keys.

Lemma Committees_parsable l : forallb (λ k, negb (bool_decide (k = ""))) l = true → parsable l.
Proof.
  intros Hl. apply Forall_forall. intros k Hk. eapply forallb_forall in Hl; [|by apply list_elem_of_In].
  apply negb_true_iff, bool_decide_eq_false in Hl. cbn. by rewrite bool_decide_eq_false_2.
Qed.

Lemma ProcessV2_sound_witness :
  ∃ r, ProcessV2 0 Committees.ten Committees.waiting 8 20 0 4 Committees.penalised = Ok r ∧
    srSlashing r = ["e"] ∧ len (srCommittees r) = 19.
Proof.
  assert (sized Committees.ten 8 20 4) as Hs by (unfold sized; change (len Committees.ten) with 10; lia).
  assert (parsable (Committees.ten ++ Committees.waiting)) as Hp by (apply Committees_parsable; vm_compute; reflexivity).
  destruct (ProcessV2_sound 0 0 8 20 4 Committees.penalised Committees.ten Committees.waiting Hs Hp)
    as (r & kept & swapIn & E & _). exists r. split; [exact E|].
  assert (ProcessV2 0 Committees.ten Committees.waiting 8 20 0 4 Committees.penalised = Ok r) as E' by exact E.
  vm_compute in E'. injection E' as <-. vm_compute. split; reflexivity.
Defined.

Lemma ProcessV3_sound_witness :
  ∃ r, ProcessV3 0 Committees.ten Committees.waiting 4 10 0 4 ∅ = Ok r ∧
    srNormalOut r = ["e"] ∧ srCommittees r = ["a"; "b"; "c"; "d"; "f"; "g"; "h"; "i"; "j"; "p"].
Proof.
  assert (sized Committees.ten 4 10 4) as Hs by (unfold sized; change (len Committees.ten) with 10; lia).
  assert (parsable (Committees.ten ++ Committees.waiting)) as Hp by (apply Committees_parsable; vm_compute; reflexivity).
  destruct (ProcessV3_sound 0 0 4 10 4 ∅ Committees.ten Committees.waiting Hs Hp)
    as (r & kept & swapIn & E & _). exists r. split; [exact E|].
  assert (ProcessV3 0 Committees.ten Committees.waiting 4 10 0 4 ∅ = Ok r) as E' by exact E.
  vm_compute in E'. injection E' as <-. vm_compute. split; reflexivity.
Defined.

(** The comment on [getSwapOutOffset] lists as a condition that at least as many go as come;
    from a committee of ten one goes and ten come. *)
Lemma more_in_than_out : ∃ r,
  ProcessV2 0 Committees.ten Committees.waiting 8 20 0 4 Committees.penalised = Ok r ∧
  len (ssOutPublicKeys (srInstruction r)) = 1 ∧ len (ssInPublicKeys (srInstruction r)) = 10.
Proof. eexists. split; [by vm_compute|by vm_compute]. Qed.

(** The bound of a sixth covers slashing too: of two penalised members one stays. *)
Lemma slashing_is_bounded : ∃ r,
  ProcessV2 0 Committees.ten Committees.waiting 8 20 0 4 Committees.penalised = Ok r ∧
  srSlashing r = ["e"] ∧ "f" ∈ srCommittees r.
Proof. eexists. split; [by vm_compute|]. split; [done|]. cbn. set_solver. Qed.
