(* ===== verification/AssignRules.v ===== *)
(** How candidates are spread over the shards ([committeestate/consensus_assign_rule.go]).

    A rule takes the candidates, the number of validators of each shard and a random number, and
    gives each shard a list of candidates.  Both versions implement [AssignRuleProcessor];
    [AssignRuleLaws] states what the committee state relies on: everybody is assigned, once, to
    a shard that exists.

    [common.HashB] and [math/rand] are parameters; so is the order in which [sort.Slice], which
    is not stable, leaves shards of equal size.  Shards are bytes. *)
From S2P Require Import Prelude InstructionText SwapRules.

Local Open Scope Z_scope.

Definition byte (x : Z) : Z := x mod 256.
Fixpoint sumZ (l : list Z) : Z :=
  match l with [] => 0 | v :: l => v + sumZ l end.

(** The lists of a map, one after the other. *)
Definition flat (m : gmap Z (list string)) : list string := concat ((map_to_list m).*2).

(** [m[shard] = append(m[shard], c)] *)
Definition addTo (shard : Z) (c : string) (m : gmap Z (list string)) : gmap Z (list string) :=
  <[shard := default [] (m !! shard) ++ [c]]> m.

Class AssignRuleProcessor :=
  assignRule : list string → list Z → Z → outcome (gmap Z (list string)).

Definition enumerated (numberOfValidators : list Z) : Prop :=
  numberOfValidators ≠ [] ∧ len numberOfValidators ≤ 255 ∧ Forall (λ v, 0 ≤ v) numberOfValidators ∧
  0 < sumZ numberOfValidators.

Class AssignRuleLaws (R : AssignRuleProcessor) :=
  assign_everybody candidates numberOfValidators rand : enumerated numberOfValidators →
    ∃ m, assignRule candidates numberOfValidators rand = Ok m ∧ flat m ≡ₚ candidates ∧
      ∀ shard l, m !! shard = Some l → 0 ≤ shard < len numberOfValidators.

(** What is used of the libraries. *)
Class AssignLibraries := {
  HashB : string → list Z;
  sortSlice : list (Z * Z) → list (Z * Z);
  (** The number drawn by the [n]th call after seeding. *)
  Intn : Z → nat → Z → Z;
}.

Class AssignLibrariesLaws `{AssignLibraries} := {
  HashB_bytes s : Forall (λ b, 0 ≤ b < 256) (HashB s);
  sortSlice_Permutation l : sortSlice l ≡ₚ l;
  sortSlice_sorted l : StronglySorted (λ a b, a.2 ≤ b.2) (sortSlice l);
  Intn_range seed n total : 0 < total → 0 ≤ Intn seed n total < total;
}.

Section Assign.
Context `{AssignLibraries}.

(** The shards with their numbers. *)
Definition withIndex (arr : list Z) : list (Z * Z) :=
  imap (λ i v, (byte (Z.of_nat i), v)) arr.

Definition sortShardIDByIncreaseOrder (arr : list Z) : list Z := (sortSlice (withIndex arr)).*1.

Definition getShardIDPositionFromArray (arr : list Z) : gmap Z Z :=
  foldl (λ m iv, <[iv.2 := iv.1]> m) ∅ (imap (λ i v, (byte (Z.of_nat i), v)) arr).

(** *** Version 2: a shard drawn in proportion to its size gives its rank, and the candidate
    goes to the shard of the opposite rank. *)
Definition calculateCandidatePosition (candidate : string) (randomNumber total : Z) : outcome Z :=
  if total =? 0 then Panic
  else
    let data := sumZ (HashB (candidate +:+ FormatInt randomNumber)) in
    let pos := Z.rem data total in
    mret (if pos =? 0 then 1 else pos).

Fixpoint locate (rest : list Z) (randomPosition shardID tempPosition : Z) : outcome Z :=
  if tempPosition <? randomPosition
  then match rest with
       | [] => Panic
       | v :: rest => locate rest randomPosition (shardID + 1) (tempPosition + v)
       end
  else Ok shardID.

Definition randomShard (numberOfValidators : list Z) (rand total : Z) (candidate : string) : outcome Z :=
  randomPosition ← calculateCandidatePosition candidate rand total;
  match numberOfValidators with
  | [] => Panic
  | v :: rest => shardID ← locate rest randomPosition 0 v; mret (byte shardID)
  end.

Fixpoint randomShards (numberOfValidators : list Z) (rand total : Z) (candidates : list string)
    (m : gmap string Z) : outcome (gmap string Z) :=
  match candidates with
  | [] => Ok m
  | c :: candidates =>
      shardID ← randomShard numberOfValidators rand total c;
      randomShards numberOfValidators rand total candidates (<[c := shardID]> m)
  end.

Fixpoint assignOpposite (sortedShardIDs : list Z) (n : Z) (position : gmap Z Z) (random : gmap string Z)
    (candidates : list string) (m : gmap Z (list string)) : outcome (gmap Z (list string)) :=
  match candidates with
  | [] => Ok m
  | c :: candidates =>
      let randomShardID := default 0 (random !! c) in
      match sortedShardIDs !! Z.to_nat (byte (n - 1 - default 0 (position !! randomShardID))) with
      | None => Panic
      | Some shardID => assignOpposite sortedShardIDs n position random candidates (addTo (byte shardID) c m)
      end
  end.

Definition AssignRuleV2_Process (candidates : list string) (numberOfValidators : list Z) (rand : Z) :
    outcome (gmap Z (list string)) :=
  let total := sumZ numberOfValidators in
  let n := byte (len numberOfValidators) in
  let sortedShardIDs := sortShardIDByIncreaseOrder numberOfValidators in
  let position := getShardIDPositionFromArray sortedShardIDs in
  random ← randomShards numberOfValidators rand total candidates ∅;
  assignOpposite sortedShardIDs n position random candidates ∅.

(** *** Version 3: at random to the smaller half of the shards below the mean, in proportion to
    what they lack. *)

(** The quotient is taken in floating point; sizes of committees are far below the precision
    at which a quotient could be rounded to an integer, so it is rounded up exactly. *)
Definition meanOf (numberOfValidators : list Z) : Z :=
  let sum := sumZ numberOfValidators in
  let n := len numberOfValidators in
  if Z.rem sum n =? 0 then Z.quot sum n else Z.quot sum n + 1.

(** [numberOfValidators[shardID]], for a shard that exists. *)
Definition validatorsOf (numberOfValidators : list Z) (shardID : Z) : Z :=
  default 0 (numberOfValidators !! Z.to_nat shardID).

Fixpoint firstBelow (mean : Z) (half : nat) (numberOfValidators sortedShardIDs lowerSet : list Z) : list Z :=
  match sortedShardIDs with
  | [] => lowerSet
  | shardID :: rest =>
      firstBelow mean half numberOfValidators rest
        (if (validatorsOf numberOfValidators shardID <? mean) && (List.length lowerSet <? half)%nat
         then lowerSet ++ [shardID] else lowerSet)
  end.

Definition getOrderedLowerSet (mean : Z) (numberOfValidators : list Z) : list Z :=
  let totalShard := List.length numberOfValidators in
  let halfOfShard := if (totalShard / 2 =? 0)%nat then 1%nat else (totalShard / 2)%nat in
  let lowerSet := firstBelow mean halfOfShard numberOfValidators
                    (sortShardIDByIncreaseOrder numberOfValidators) [] in
  match lowerSet with
  | [] => take halfOfShard (imap (λ i _, Z.of_nat i) numberOfValidators)
  | _ => lowerSet
  end.

Definition shardDiff (mean : Z) (numberOfValidators : list Z) (shardID : Z) : Z :=
  let d := mean - validatorsOf numberOfValidators shardID in if d =? 0 then 1 else d.

Fixpoint locateV3 (rest : list Z) (randomPosition tempPosition : Z) (position : nat) : nat :=
  match rest with
  | [] => position
  | d :: rest =>
      if tempPosition <=? randomPosition
      then locateV3 rest randomPosition (tempPosition + d) (S position) else position
  end.

Fixpoint assignLower (lowerSet diff : list Z) (totalDiff seed : Z) (n : nat) (candidates : list string)
    (m : gmap Z (list string)) : outcome (gmap Z (list string)) :=
  match candidates with
  | [] => Ok m
  | c :: candidates =>
      if totalDiff <=? 0 then Panic
      else
        let randomPosition := Intn seed n totalDiff in
        match diff with
        | [] => Panic
        | d :: rest =>
            match lowerSet !! locateV3 rest randomPosition d 0 with
            | None => Panic
            | Some shardID => assignLower lowerSet diff totalDiff seed (S n) candidates (addTo (byte shardID) c m)
            end
        end
  end.

Definition AssignRuleV3_Process (candidates : list string) (numberOfValidators : list Z) (randomNumber : Z) :
    outcome (gmap Z (list string)) :=
  let mean := meanOf numberOfValidators in
  let lowerSet := getOrderedLowerSet mean numberOfValidators in
  let diff := shardDiff mean numberOfValidators <$> lowerSet in
  assignLower lowerSet diff (sumZ diff) randomNumber 0 candidates ∅.

Definition AssignRuleV2 : AssignRuleProcessor := AssignRuleV2_Process.
Definition AssignRuleV3 : AssignRuleProcessor := AssignRuleV3_Process.

(** ** Flattening *)
Lemma flat_insert_new shard l m : m !! shard = None → flat (<[shard := l]> m) ≡ₚ l ++ flat m.
Proof. intros Hm. unfold flat. by rewrite map_to_list_insert. Qed.

Lemma flat_lookup shard l m : m !! shard = Some l → flat m ≡ₚ l ++ flat (delete shard m).
Proof.
  intros Hm. rewrite <- (insert_delete_id m shard l) at 1 by done.
  by rewrite flat_insert_new by apply lookup_delete_eq.
Qed.

Lemma flat_update shard l m : flat (<[shard := l]> m) ≡ₚ l ++ flat (delete shard m).
Proof. rewrite <- insert_delete_eq. apply flat_insert_new, lookup_delete_eq. Qed.

Lemma flat_delete shard m : flat m ≡ₚ default [] (m !! shard) ++ flat (delete shard m).
Proof.
  destruct (m !! shard) as [l|] eqn:E; cbn; [by apply flat_lookup|]. by rewrite delete_id.
Qed.

Lemma flat_addTo shard c m : flat (addTo shard c m) ≡ₚ c :: flat m.
Proof.
  unfold addTo. rewrite flat_update, (flat_delete shard m). solve_Permutation.
Qed.

Lemma flat_empty : flat ∅ = [].
Proof. unfold flat. by rewrite map_to_list_empty. Qed.

(** ** Everybody is assigned *)
Lemma sumZ_nonneg l : Forall (λ v, 0 ≤ v) l → 0 ≤ sumZ l.
Proof. induction 1; cbn; lia. Qed.

Lemma byte_small x : 0 ≤ x < 256 → byte x = x.
Proof. apply Z.mod_small. Qed.

Lemma length_withIndex arr : List.length (withIndex arr) = List.length arr.
Proof. apply length_imap. Qed.

Lemma withIndex_In arr s v : len arr ≤ 256 → (s, v) ∈ withIndex arr →
  0 ≤ s < len arr ∧ arr !! Z.to_nat s = Some v.
Proof.
  intros Hlen (i & Hi)%list_elem_of_lookup. unfold withIndex in Hi. rewrite list_lookup_imap in Hi.
  destruct (arr !! i) as [w|] eqn:E; [|done]. injection Hi as <- <-.
  pose proof (lookup_lt_Some _ _ _ E) as Hlt. unfold len in *. rewrite byte_small by lia.
  rewrite Nat2Z.id. split; [lia|done].
Qed.

Section WithLaws.
Context `{!AssignLibrariesLaws}.

Lemma sortShardID_range arr s : len arr ≤ 256 → s ∈ sortShardIDByIncreaseOrder arr → 0 ≤ s < len arr.
Proof.
  intros Hlen ([s' v] & -> & Hin)%list_elem_of_fmap. rewrite sortSlice_Permutation in Hin.
  by apply withIndex_In in Hin as [? _].
Qed.

Lemma length_sortShardID arr : List.length (sortShardIDByIncreaseOrder arr) = List.length arr.
Proof.
  unfold sortShardIDByIncreaseOrder. rewrite length_fmap.
  rewrite (Permutation_length (sortSlice_Permutation _)). apply length_withIndex.
Qed.

Lemma position_range arr s p : len arr ≤ 256 →
  getShardIDPositionFromArray arr !! s = Some p → 0 ≤ p < len arr.
Proof.
  intros Hlen. unfold getShardIDPositionFromArray.
  assert (∀ l (m : gmap Z Z), (∀ iv, iv ∈ l → 0 ≤ iv.1 < len arr) →
    (∀ s p, m !! s = Some p → 0 ≤ p < len arr) → ∀ s p,
    foldl (λ m iv, <[iv.2 := iv.1]> m) m l !! s = Some p → 0 ≤ p < len arr) as Hfold.
  { induction l as [|[i v] l IH]; intros m Hl Hm; [done|]. cbn. apply IH; [intros; apply Hl; by right|].
    intros s' p'. destruct (decide (v = s')) as [->|Hne].
    - rewrite lookup_insert_eq. intros [= ->]. apply (Hl (p', s')). by left.
    - rewrite lookup_insert_ne by done. apply Hm. }
  apply Hfold; [|intros ?? E; by rewrite lookup_empty in E].
  intros [i v] Hin. apply (withIndex_In arr i v) in Hin as [? _]; done.
Qed.

Lemma position_candidate candidate rand total : 0 < total →
  ∃ pos, calculateCandidatePosition candidate rand total = Ok pos ∧ pos ≤ total.
Proof.
  intros Ht. unfold calculateCandidatePosition. rewrite (proj2 (Z.eqb_neq _ _)) by lia. eexists. split; [done|].
  set (data := sumZ _). assert (0 ≤ data) as Hd.
  { apply sumZ_nonneg. eapply Forall_impl; [apply HashB_bytes|]. cbn. lia. }
  pose proof (Z.rem_bound_pos data total Hd Ht). destruct (Z.eqb_spec (Z.rem data total) 0); lia.
Qed.

Lemma locate_range rest r s t : Forall (λ v, 0 ≤ v) rest → r ≤ t + sumZ rest →
  ∃ k, locate rest r s t = Ok k ∧ s ≤ k ≤ s + len rest.
Proof.
  intros Hrest. revert s t. induction Hrest as [|v rest Hv Hrest IH]; intros s t Hr; cbn in *.
  - rewrite (proj2 (Z.ltb_ge _ _)) by lia. exists s. split; [done|unfold len; cbn; lia].
  - destruct (t <? r); [|exists s; split; [done|unfold len; cbn; lia]].
    destruct (IH (s + 1) (t + v)) as (k & E & Hk); [lia|]. exists k. split; [done|].
    unfold len in *. cbn [List.length]. lia.
Qed.

Lemma randomShards_Ok nov rand candidates m : enumerated nov →
  is_Ok (randomShards nov rand (sumZ nov) candidates m).
Proof.
  intros (Hne & Hlen & Hpos & Hsum). revert m. induction candidates as [|c candidates IH]; intros m; [by eexists|].
  cbn [randomShards]. unfold randomShard.
  destruct (position_candidate c rand (sumZ nov) Hsum) as (pos & -> & Hp). cbn [mbind outcome_bind].
  destruct nov as [|v rest]; [done|]. inversion Hpos; subst.
  destruct (locate_range rest pos 0 v) as (k & -> & _); [done|done|]. cbn [mbind outcome_bind mret outcome_ret].
  apply IH.
Qed.

(** The candidates are all added, to shards with a given property. *)
Definition assigned (P : Z → Prop) (candidates : list string) (m m' : gmap Z (list string)) : Prop :=
  flat m' ≡ₚ candidates ++ flat m ∧
  ((∀ shard l, m !! shard = Some l → P shard) → ∀ shard l, m' !! shard = Some l → P shard).

Lemma assigned_nil P m : assigned P [] m m.
Proof. by split. Qed.

Lemma assigned_cons P c candidates shard m m' : P shard →
  assigned P candidates (addTo shard c m) m' → assigned P (c :: candidates) m m'.
Proof.
  intros Hs [Hp Hr]. split.
  - rewrite Hp, flat_addTo. cbn. by rewrite <- Permutation_middle.
  - intros Hm. apply Hr. intros s l. unfold addTo.
    destruct (decide (s = shard)) as [->|Hne]; [done|]. rewrite lookup_insert_ne by done. apply Hm.
Qed.

Lemma assignOpposite_Ok nov random candidates m : len nov ≤ 255 → nov ≠ [] →
  let sorted := sortShardIDByIncreaseOrder nov in
  ∃ m', assignOpposite sorted (byte (len nov)) (getShardIDPositionFromArray sorted) random candidates m = Ok m' ∧
        assigned (λ s, 0 ≤ s < len nov) candidates m m'.
Proof.
  intros Hlen Hne sorted. assert (0 < len nov) as Hpos by (destruct nov; [done|unfold len; cbn; lia]).
  assert (len sorted = len nov) as Hls by (unfold len, sorted; by rewrite length_sortShardID).
  rewrite (byte_small (len nov)) by lia.
  revert m. induction candidates as [|c candidates IH]; intros m; [exists m; split; [done|apply assigned_nil]|].
  cbn [assignOpposite]. set (r := default 0 (random !! c)).
  set (p := default 0 (getShardIDPositionFromArray sorted !! r)).
  assert (0 ≤ p < len nov) as Hp.
  { unfold p. destruct (_ !! r) as [p'|] eqn:E; cbn; [|lia]. rewrite <- Hls. eapply position_range; [lia|exact E]. }
  rewrite byte_small by lia.
  destruct (lookup_lt_is_Some_2 sorted (Z.to_nat (len nov - 1 - p))) as [s Hs].
  { unfold len in Hls, Hp, Hpos |- *. lia. }
  rewrite Hs. assert (0 ≤ s < len nov) as Hsr.
  { apply sortShardID_range; [lia|]. by eapply list_elem_of_lookup_2. }
  rewrite byte_small by lia. destruct (IH (addTo s c m)) as (m' & E & Ha).
  exists m'. split; [done|]. by apply assigned_cons with s.
Qed.

#[export] Instance AssignRuleV2_laws : AssignRuleLaws AssignRuleV2.
Proof.
  intros candidates nov rand Hn. unfold assignRule, AssignRuleV2, AssignRuleV2_Process.
  destruct (randomShards_Ok nov rand candidates ∅ Hn) as [random ->]. cbn [mbind outcome_bind].
  destruct Hn as (Hne & Hlen & _).
  destruct (assignOpposite_Ok nov random candidates ∅ Hlen Hne) as (m & -> & Hp & Hr).
  exists m. split; [done|]. rewrite flat_empty, app_nil_r in Hp. split; [done|]. by apply Hr.
Qed.

(** ** Version 3 *)
Lemma meanOf_bounds nov : enumerated nov →
  0 ≤ meanOf nov ∧ sumZ nov ≤ len nov * meanOf nov ∧ len nov * (meanOf nov - 1) < sumZ nov.
Proof.
  intros (Hne & Hlen & _ & Hsum). assert (0 < len nov) as Hn by (destruct nov; [done|unfold len; cbn; lia]).
  unfold meanOf. pose proof (Z.quot_rem' (sumZ nov) (len nov)). pose proof (Z.rem_bound_pos (sumZ nov) (len nov)).
  assert (0 ≤ Z.quot (sumZ nov) (len nov)) by (apply Z.quot_pos; lia).
  destruct (Z.eqb_spec (Z.rem (sumZ nov) (len nov)) 0); nia.
Qed.

Lemma firstBelow_elem mean half nov sorted lower s : s ∈ firstBelow mean half nov sorted lower →
  s ∈ lower ∨ (s ∈ sorted ∧ validatorsOf nov s < mean).
Proof.
  revert lower. induction sorted as [|x sorted IH]; intros lower Hs; [by left|].
  cbn [firstBelow] in Hs. apply IH in Hs as [Hs|[Hs Hv]].
  - destruct (_ && _) eqn:B; [|by left]. apply andb_prop in B as [B%Z.ltb_lt _]. apply elem_of_app in Hs as [Hs|Hs]; [by left|].
    apply list_elem_of_singleton in Hs as ->. right. split; [by left|done].
  - right. split; [by right|done].
Qed.

Lemma firstBelow_keeps mean half nov sorted lower : lower ≠ [] → firstBelow mean half nov sorted lower ≠ [].
Proof.
  revert lower. induction sorted as [|x sorted IH]; intros lower Hne; [done|]. cbn [firstBelow].
  apply IH. destruct (_ && _); [by destruct lower|done].
Qed.

Lemma firstBelow_nil mean half nov sorted : (0 < half)%nat → firstBelow mean half nov sorted [] = [] →
  ∀ s, s ∈ sorted → mean ≤ validatorsOf nov s.
Proof.
  intros Hhalf. induction sorted as [|x sorted IH]; intros E s Hs; [by apply not_elem_of_nil in Hs|].
  cbn [firstBelow List.length] in E. rewrite (proj2 (Nat.ltb_lt 0 half) Hhalf), andb_true_r in E.
  destruct (Z.ltb_spec (validatorsOf nov x) mean) as [Hlt|Hge].
  - by apply firstBelow_keeps in E.
  - apply elem_of_cons in Hs as [->|Hs]; [done|]. by apply IH.
Qed.

Lemma sortShardID_complete nov s : len nov ≤ 255 → 0 ≤ s < len nov → s ∈ sortShardIDByIncreaseOrder nov.
Proof.
  intros Hlen Hs. unfold sortShardIDByIncreaseOrder. rewrite sortSlice_Permutation.
  destruct (lookup_lt_is_Some_2 nov (Z.to_nat s)) as [v Hv]; [unfold len in Hs; lia|].
  apply list_elem_of_fmap. exists (s, v). split; [done|]. apply (list_elem_of_lookup_2 _ (Z.to_nat s)).
  unfold withIndex. rewrite list_lookup_imap, Hv. cbn. rewrite Z2Nat.id by lia. by rewrite byte_small by lia.
Qed.

Lemma sumZ_equal mean nov : Forall (λ v, mean ≤ v) nov →
  len nov * mean ≤ sumZ nov ∧ (sumZ nov ≤ len nov * mean → Forall (λ v, v = mean) nov).
Proof.
  unfold len. induction 1 as [|v nov Hv Hnov [IH1 IH2]]; cbn [List.length sumZ]; [split; [lia|by constructor]|].
  split; [lia|]. intros Hs. constructor; [lia|apply IH2; lia].
Qed.

(** A shard is favoured when it is below the average, or when all shards have the same size. *)
Definition favoured (nov : list Z) (shard : Z) : Prop :=
  0 ≤ shard < len nov ∧
  (validatorsOf nov shard * len nov < sumZ nov ∨ Forall (λ v, v * len nov = sumZ nov) nov).

Lemma getOrderedLowerSet_favoured nov : enumerated nov →
  let lower := getOrderedLowerSet (meanOf nov) nov in
  lower ≠ [] ∧ Forall (λ s, favoured nov s ∧ validatorsOf nov s ≤ meanOf nov) lower.
Proof.
  intros Hn. pose proof (meanOf_bounds nov Hn) as (Hm0 & Hm1 & Hm2). pose proof Hn as (Hne & Hlen & Hpos & Hsum).
  unfold getOrderedLowerSet. set (half := if (_ =? 0)%nat then _ else _).
  assert (0 < half)%nat as Hhalf by (unfold half; destruct (Nat.eqb_spec (length nov / 2) 0); lia).
  destruct (firstBelow _ half nov _ []) as [|s0 lower] eqn:E; cbn zeta.
  - assert (Forall (λ v, meanOf nov ≤ v) nov) as Hge.
    { apply Forall_lookup. intros i v Hi. pose proof (lookup_lt_Some _ _ _ Hi).
      pose proof (firstBelow_nil _ _ _ _ Hhalf E (Z.of_nat i)) as Hv. unfold validatorsOf in Hv.
      rewrite Nat2Z.id, Hi in Hv. apply Hv, sortShardID_complete; unfold len in *; lia. }
    apply sumZ_equal in Hge as [Hge Heq]. specialize (Heq Hm1).
    split; [destruct nov, half; [done|done|lia|done]|].
    apply Forall_lookup. intros i s (Hi & _)%lookup_take_Some. rewrite list_lookup_imap in Hi.
    destruct (nov !! i) as [v|] eqn:Ev; [|done]. injection Hi as <-. pose proof (lookup_lt_Some _ _ _ Ev).
    unfold favoured, validatorsOf. rewrite Nat2Z.id, Ev. cbn. rewrite Forall_lookup in Heq.
    pose proof (Heq _ _ Ev) as ->. split; [|lia]. split; [unfold len; lia|]. right.
    apply Forall_lookup. intros j w Hw. rewrite (Heq _ _ Hw). lia.
  - split; [done|]. apply Forall_forall. intros s Hs. rewrite <- E in Hs.
    apply firstBelow_elem in Hs as [Hs|[Hs Hv]]; [by apply not_elem_of_nil in Hs|].
    apply sortShardID_range in Hs; [|lia]. split; [|lia]. split; [done|]. left. nia.
Qed.

Lemma shardDiff_positive mean nov s : validatorsOf nov s ≤ mean → 0 < shardDiff mean nov s.
Proof. unfold shardDiff. intros. destruct (Z.eqb_spec (mean - validatorsOf nov s) 0); lia. Qed.

Lemma locateV3_range rest r t p : (p ≤ locateV3 rest r t p ≤ p + List.length rest)%nat.
Proof.
  revert t p. induction rest as [|d rest IH]; intros t p; cbn [locateV3 List.length]; [lia|].
  destruct (t <=? r); [|lia]. specialize (IH (t + d) (S p)). lia.
Qed.

Lemma assignLower_Ok P lower diff total seed n candidates m :
  Forall P lower → (∀ s, P s → 0 ≤ s < 256) → List.length diff = List.length lower → diff ≠ [] → 0 < total →
  ∃ m', assignLower lower diff total seed n candidates m = Ok m' ∧ assigned P candidates m m'.
Proof.
  intros Hl HP Hlen Hne Ht. revert n m. induction candidates as [|c candidates IH]; intros n m.
  { exists m. split; [done|apply assigned_nil]. }
  cbn [assignLower]. rewrite (proj2 (Z.leb_gt total 0)) by lia. destruct diff as [|d rest]; [done|].
  pose proof (locateV3_range rest (Intn seed n total) d 0) as Hp.
  destruct (lookup_lt_is_Some_2 lower (locateV3 rest (Intn seed n total) d 0)) as [s Hs].
  { rewrite <- Hlen. cbn. lia. }
  rewrite Hs. rewrite Forall_lookup in Hl. specialize (Hl _ _ Hs). rewrite byte_small by auto.
  destruct (IH (S n) (addTo s c m)) as (m' & E & Ha). exists m'. split; [done|]. by apply assigned_cons with s.
Qed.

Lemma length_firstBelow mean half nov sorted lower : (List.length lower ≤ half)%nat →
  (List.length (firstBelow mean half nov sorted lower) ≤ half)%nat.
Proof.
  revert lower. induction sorted as [|x sorted IH]; intros lower Hl; [done|]. cbn [firstBelow]. apply IH.
  destruct (_ && _) eqn:B; [|done]. apply andb_prop in B as [_ B%Nat.ltb_lt]. rewrite length_app. cbn. lia.
Qed.

Lemma length_getOrderedLowerSet mean nov :
  (List.length (getOrderedLowerSet mean nov) ≤ Nat.max 1 (List.length nov / 2))%nat.
Proof.
  unfold getOrderedLowerSet. set (half := if (_ =? 0)%nat then _ else _).
  assert (half ≤ Nat.max 1 (List.length nov / 2))%nat as Hh
    by (unfold half; destruct (Nat.eqb_spec (List.length nov / 2) 0); lia).
  pose proof (length_firstBelow mean half nov (sortShardIDByIncreaseOrder nov) []) as Hf.
  destruct (firstBelow _ _ _ _ _); cbn [List.length] in *; [rewrite length_take|]; lia.
Qed.

Lemma AssignRuleV3_Process_Ok candidates nov rand : enumerated nov →
  let lower := getOrderedLowerSet (meanOf nov) nov in
  ∃ m, AssignRuleV3_Process candidates nov rand = Ok m ∧
       assigned (λ s, s ∈ lower ∧ favoured nov s) candidates ∅ m.
Proof.
  intros Hn lower. destruct (getOrderedLowerSet_favoured nov Hn) as [Hne Hl]. pose proof Hn as (_ & Hlen & _).
  unfold AssignRuleV3_Process. fold lower in Hne, Hl |- *.
  apply assignLower_Ok.
  - rewrite Forall_forall in Hl |- *. intros s Hs. split; [done|by apply Hl].
  - intros s (_ & Hs & _). lia.
  - by rewrite length_fmap.
  - intros E%fmap_nil_inv. done.
  - destruct lower as [|s rest]; [done|]. rewrite Forall_cons in Hl. destruct Hl as [[_ Hs] Hl]. cbn.
    pose proof (shardDiff_positive _ _ _ Hs).
    enough (0 ≤ sumZ (shardDiff (meanOf nov) nov <$> rest)) by lia.
    apply sumZ_nonneg, Forall_fmap. eapply Forall_impl; [exact Hl|]. intros x [_ Hx]. cbn.
    pose proof (shardDiff_positive _ _ _ Hx). lia.
Qed.

#[export] Instance AssignRuleV3_laws : AssignRuleLaws AssignRuleV3.
Proof.
  intros candidates nov rand Hn. destruct (AssignRuleV3_Process_Ok candidates nov rand Hn) as (m & E & Hp & Hr).
  exists m. split; [done|]. rewrite flat_empty, app_nil_r in Hp. split; [done|].
  intros shard l Hs. eapply Hr in Hs; [by destruct Hs as (_ & ? & _)|]. intros ??. by rewrite lookup_empty.
Qed.


(** ** The properties *)

(** C24: version 3 of the rule never fails on an enumeration of the shards that has at least one
    validator: it assigns every candidate once, to at most half of the shards (one at least), and
    each of them is below the average of the shards unless all shards have exactly the same
    number of validators. *)
Theorem AssignRuleV3_fair candidates nov rand : enumerated nov →
  ∃ m, AssignRuleV3_Process candidates nov rand = Ok m ∧ flat m ≡ₚ candidates ∧
    (size m ≤ Nat.max 1 (List.length nov / 2))%nat ∧
    ∀ shard l, m !! shard = Some l →
      0 ≤ shard < len nov ∧
      (validatorsOf nov shard * len nov < sumZ nov ∨ Forall (λ v, v * len nov = sumZ nov) nov).
Proof.
  intros Hn. destruct (AssignRuleV3_Process_Ok candidates nov rand Hn) as (m & E & Hp & Hr).
  assert (∀ shard l, m !! shard = Some l → shard ∈ getOrderedLowerSet (meanOf nov) nov ∧ favoured nov shard) as Hm.
  { eapply Hr. intros ??. by rewrite lookup_empty. }
  exists m. split; [done|]. rewrite flat_empty, app_nil_r in Hp. split; [done|]. split.
  - rewrite <- (length_getOrderedLowerSet (meanOf nov) nov), <- length_map_to_list, <- (length_fmap fst).
    apply submseteq_length, NoDup_submseteq; [apply NoDup_fst_map_to_list|].
    intros shard ([shard' l] & -> & Hl%elem_of_map_to_list)%list_elem_of_fmap. by apply Hm in Hl as [? _].
  - intros shard l Hl. by apply Hm in Hl as [_ ?].
Qed.

(** Version 2 divides by the number of validators: without any, a candidate stops the node. *)
Lemma AssignRuleV2_panics c candidates nov rand : sumZ nov = 0 →
  AssignRuleV2_Process (c :: candidates) nov rand = Panic.
Proof. intros E. unfold AssignRuleV2_Process. by rewrite E. Qed.
End WithLaws.
End Assign.

(** ** A concrete choice of the libraries *)
Module Concrete.
Definition lessValue (a b : Z * Z) : Prop := a.2 ≤ b.2.
#[export] Instance lessValue_dec a b : Decision (lessValue a b).
Proof. unfold lessValue. apply _. Defined.
#[export] Instance lessValue_trans : Transitive lessValue.
Proof. intros a b c. unfold lessValue. lia. Qed.
#[export] Instance lessValue_total : Total lessValue.
Proof. intros a b. unfold lessValue. lia. Qed.

#[export] Instance libraries : AssignLibraries := {
  HashB s := [Z.of_nat (String.length s) mod 256];
  sortSlice := merge_sort lessValue;
  Intn seed n total := (seed + Z.of_nat n) mod total;
}.

#[export] Instance libraries_laws : AssignLibrariesLaws.
Proof.
  split.
  - intros s. repeat constructor; apply Z.mod_pos_bound; lia.
  - intros l. apply merge_sort_Permutation.
  - intros l. apply (StronglySorted_merge_sort lessValue).
  - intros seed n total Ht. by apply Z.mod_pos_bound.
Qed.
End Concrete.

Lemma AssignRuleV3_fair_witness :
  let nov := [4; 7; 3; 4] in
  let run := AssignRuleV3_Process (H := Concrete.libraries) ["a"; "b"; "c"] nov 5 in
  run = Ok (<[2 := ["b"; "c"]]> (<[0 := ["a"]]> ∅)) ∧
  ∃ m, run = Ok m ∧ flat m ≡ₚ ["a"; "b"; "c"] ∧ (size m ≤ 2)%nat ∧
    ∀ shard l, m !! shard = Some l →
      0 ≤ shard < 4 ∧ (validatorsOf nov shard * 4 < 18 ∨ Forall (λ v, v * 4 = 18) nov).
Proof.
  intros nov run. split; [vm_compute; reflexivity|].
  apply (AssignRuleV3_fair (H := Concrete.libraries) (H0 := Concrete.libraries_laws) ["a"; "b"; "c"] nov 5).
  repeat split; [done|vm_compute; discriminate|repeat constructor; lia].
Defined.
