(* ===== verification/CommitteeChange.v ===== *)
(** What a block changes in the committees ([committeestate/committee_change.go]): the log that
    the update of the committee state returns, by which the state database and the shards are
    brought up to date.

    The fields that the versions modelled here never touch (beacon candidates and substitutes,
    replaced members) are left out.  The log holds parsed keys; a list that does not parse is
    logged as nothing. *)
From S2P Require Import Prelude InstructionText.

Local Open Scope Z_scope.

(** [m[shard] = append(m[shard], l...)] *)
Definition appendAt {A} (shard : Z) (l : list A) (m : gmap Z (list A)) : gmap Z (list A) :=
  <[shard := default [] (m !! shard) ++ l]> m.

(** Every shard with an empty list; [common.MaxShardNumber] is set from the configuration. *)
Definition noShards {A} (MaxShardNumber : nat) : gmap Z (list A) :=
  foldr (λ i, <[Z.of_nat i := []]>) ∅ (seq 0 MaxShardNumber).

Section CommitteeChange.
Context `{Keys}.

(** The keys of a list, when it parses. *)
Definition parsed (l : list string) : list CommitteePublicKey :=
  match CommitteeBase58KeyListToStruct l with Ok keys => keys | _ => [] end.

Record CommitteeChange := {
  NextEpochShardCandidateAdded : list CommitteePublicKey;
  NextEpochShardCandidateRemoved : list CommitteePublicKey;
  ShardSubstituteAdded : gmap Z (list CommitteePublicKey);
  ShardSubstituteRemoved : gmap Z (list CommitteePublicKey);
  SyncingPoolAdded : gmap Z (list CommitteePublicKey);
  SyncingPoolRemoved : gmap Z (list CommitteePublicKey);
  ShardCommitteeAdded : gmap Z (list CommitteePublicKey);
  ShardCommitteeRemoved : gmap Z (list CommitteePublicKey);
  StopAutoStake : list string;
  RemovedStaker : list string;
  FinishedSyncValidators : gmap Z (list string);
  SlashingCommittee : gmap Z (list string);
}.

Definition NewCommitteeChange (MaxShardNumber : nat) : CommitteeChange :=
  {| NextEpochShardCandidateAdded := [];
     NextEpochShardCandidateRemoved := [];
     ShardSubstituteAdded := noShards MaxShardNumber;
     ShardSubstituteRemoved := noShards MaxShardNumber;
     SyncingPoolAdded := noShards MaxShardNumber;
     SyncingPoolRemoved := noShards MaxShardNumber;
     ShardCommitteeAdded := noShards MaxShardNumber;
     ShardCommitteeRemoved := noShards MaxShardNumber;
     StopAutoStake := [];
     RemovedStaker := [];
     FinishedSyncValidators := noShards MaxShardNumber;
     SlashingCommittee := noShards MaxShardNumber |}.

Definition AddNextEpochShardCandidateKeys (keys : list CommitteePublicKey) (cc : CommitteeChange) : CommitteeChange :=
  {| NextEpochShardCandidateAdded := NextEpochShardCandidateAdded cc ++ keys;
     NextEpochShardCandidateRemoved := NextEpochShardCandidateRemoved cc;
     ShardSubstituteAdded := ShardSubstituteAdded cc;
     ShardSubstituteRemoved := ShardSubstituteRemoved cc;
     SyncingPoolAdded := SyncingPoolAdded cc;
     SyncingPoolRemoved := SyncingPoolRemoved cc;
     ShardCommitteeAdded := ShardCommitteeAdded cc;
     ShardCommitteeRemoved := ShardCommitteeRemoved cc;
     StopAutoStake := StopAutoStake cc;
     RemovedStaker := RemovedStaker cc;
     FinishedSyncValidators := FinishedSyncValidators cc;
     SlashingCommittee := SlashingCommittee cc |}.

Definition AddNextEpochShardCandidateRemoved (l : list string) (cc : CommitteeChange) : CommitteeChange :=
  {| NextEpochShardCandidateAdded := NextEpochShardCandidateAdded cc;
     NextEpochShardCandidateRemoved := NextEpochShardCandidateRemoved cc ++ parsed l;
     ShardSubstituteAdded := ShardSubstituteAdded cc;
     ShardSubstituteRemoved := ShardSubstituteRemoved cc;
     SyncingPoolAdded := SyncingPoolAdded cc;
     SyncingPoolRemoved := SyncingPoolRemoved cc;
     ShardCommitteeAdded := ShardCommitteeAdded cc;
     ShardCommitteeRemoved := ShardCommitteeRemoved cc;
     StopAutoStake := StopAutoStake cc;
     RemovedStaker := RemovedStaker cc;
     FinishedSyncValidators := FinishedSyncValidators cc;
     SlashingCommittee := SlashingCommittee cc |}.

(** The [Add] methods do nothing on an empty list. *)
Definition logAt (shard : Z) (l : list string) (m : gmap Z (list CommitteePublicKey)) :
    gmap Z (list CommitteePublicKey) :=
  if (List.length l =? 0)%nat then m else appendAt shard (parsed l) m.

Definition AddShardSubstituteAdded (shard : Z) (l : list string) (cc : CommitteeChange) : CommitteeChange :=
  {| NextEpochShardCandidateAdded := NextEpochShardCandidateAdded cc;
     NextEpochShardCandidateRemoved := NextEpochShardCandidateRemoved cc;
     ShardSubstituteAdded := logAt shard l (ShardSubstituteAdded cc);
     ShardSubstituteRemoved := ShardSubstituteRemoved cc;
     SyncingPoolAdded := SyncingPoolAdded cc;
     SyncingPoolRemoved := SyncingPoolRemoved cc;
     ShardCommitteeAdded := ShardCommitteeAdded cc;
     ShardCommitteeRemoved := ShardCommitteeRemoved cc;
     StopAutoStake := StopAutoStake cc;
     RemovedStaker := RemovedStaker cc;
     FinishedSyncValidators := FinishedSyncValidators cc;
     SlashingCommittee := SlashingCommittee cc |}.

Definition AddShardSubstituteRemoved (shard : Z) (l : list string) (cc : CommitteeChange) : CommitteeChange :=
  {| NextEpochShardCandidateAdded := NextEpochShardCandidateAdded cc;
     NextEpochShardCandidateRemoved := NextEpochShardCandidateRemoved cc;
     ShardSubstituteAdded := ShardSubstituteAdded cc;
     ShardSubstituteRemoved := logAt shard l (ShardSubstituteRemoved cc);
     SyncingPoolAdded := SyncingPoolAdded cc;
     SyncingPoolRemoved := SyncingPoolRemoved cc;
     ShardCommitteeAdded := ShardCommitteeAdded cc;
     ShardCommitteeRemoved := ShardCommitteeRemoved cc;
     StopAutoStake := StopAutoStake cc;
     RemovedStaker := RemovedStaker cc;
     FinishedSyncValidators := FinishedSyncValidators cc;
     SlashingCommittee := SlashingCommittee cc |}.

Definition AddShardCommitteeAdded (shard : Z) (l : list string) (cc : CommitteeChange) : CommitteeChange :=
  {| NextEpochShardCandidateAdded := NextEpochShardCandidateAdded cc;
     NextEpochShardCandidateRemoved := NextEpochShardCandidateRemoved cc;
     ShardSubstituteAdded := ShardSubstituteAdded cc;
     ShardSubstituteRemoved := ShardSubstituteRemoved cc;
     SyncingPoolAdded := SyncingPoolAdded cc;
     SyncingPoolRemoved := SyncingPoolRemoved cc;
     ShardCommitteeAdded := logAt shard l (ShardCommitteeAdded cc);
     ShardCommitteeRemoved := ShardCommitteeRemoved cc;
     StopAutoStake := StopAutoStake cc;
     RemovedStaker := RemovedStaker cc;
     FinishedSyncValidators := FinishedSyncValidators cc;
     SlashingCommittee := SlashingCommittee cc |}.

Definition AddShardCommitteeRemoved (shard : Z) (l : list string) (cc : CommitteeChange) : CommitteeChange :=
  {| NextEpochShardCandidateAdded := NextEpochShardCandidateAdded cc;
     NextEpochShardCandidateRemoved := NextEpochShardCandidateRemoved cc;
     ShardSubstituteAdded := ShardSubstituteAdded cc;
     ShardSubstituteRemoved := ShardSubstituteRemoved cc;
     SyncingPoolAdded := SyncingPoolAdded cc;
     SyncingPoolRemoved := SyncingPoolRemoved cc;
     ShardCommitteeAdded := ShardCommitteeAdded cc;
     ShardCommitteeRemoved := logAt shard l (ShardCommitteeRemoved cc);
     StopAutoStake := StopAutoStake cc;
     RemovedStaker := RemovedStaker cc;
     FinishedSyncValidators := FinishedSyncValidators cc;
     SlashingCommittee := SlashingCommittee cc |}.

Definition AddSyncingPoolAdded (shard : Z) (l : list string) (cc : CommitteeChange) : CommitteeChange :=
  {| NextEpochShardCandidateAdded := NextEpochShardCandidateAdded cc;
     NextEpochShardCandidateRemoved := NextEpochShardCandidateRemoved cc;
     ShardSubstituteAdded := ShardSubstituteAdded cc;
     ShardSubstituteRemoved := ShardSubstituteRemoved cc;
     SyncingPoolAdded := logAt shard l (SyncingPoolAdded cc);
     SyncingPoolRemoved := SyncingPoolRemoved cc;
     ShardCommitteeAdded := ShardCommitteeAdded cc;
     ShardCommitteeRemoved := ShardCommitteeRemoved cc;
     StopAutoStake := StopAutoStake cc;
     RemovedStaker := RemovedStaker cc;
     FinishedSyncValidators := FinishedSyncValidators cc;
     SlashingCommittee := SlashingCommittee cc |}.

Definition AddSyncingPoolRemoved (shard : Z) (l : list string) (cc : CommitteeChange) : CommitteeChange :=
  {| NextEpochShardCandidateAdded := NextEpochShardCandidateAdded cc;
     NextEpochShardCandidateRemoved := NextEpochShardCandidateRemoved cc;
     ShardSubstituteAdded := ShardSubstituteAdded cc;
     ShardSubstituteRemoved := ShardSubstituteRemoved cc;
     SyncingPoolAdded := SyncingPoolAdded cc;
     SyncingPoolRemoved := logAt shard l (SyncingPoolRemoved cc);
     ShardCommitteeAdded := ShardCommitteeAdded cc;
     ShardCommitteeRemoved := ShardCommitteeRemoved cc;
     StopAutoStake := StopAutoStake cc;
     RemovedStaker := RemovedStaker cc;
     FinishedSyncValidators := FinishedSyncValidators cc;
     SlashingCommittee := SlashingCommittee cc |}.

(** [assign] appends to this field itself. *)
Definition AppendShardSubstituteAdded (shard : Z) (l : list string) (cc : CommitteeChange) : CommitteeChange :=
  {| NextEpochShardCandidateAdded := NextEpochShardCandidateAdded cc;
     NextEpochShardCandidateRemoved := NextEpochShardCandidateRemoved cc;
     ShardSubstituteAdded := appendAt shard (parsed l) (ShardSubstituteAdded cc);
     ShardSubstituteRemoved := ShardSubstituteRemoved cc;
     SyncingPoolAdded := SyncingPoolAdded cc;
     SyncingPoolRemoved := SyncingPoolRemoved cc;
     ShardCommitteeAdded := ShardCommitteeAdded cc;
     ShardCommitteeRemoved := ShardCommitteeRemoved cc;
     StopAutoStake := StopAutoStake cc;
     RemovedStaker := RemovedStaker cc;
     FinishedSyncValidators := FinishedSyncValidators cc;
     SlashingCommittee := SlashingCommittee cc |}.

Definition AddFinishedSyncValidators (shard : Z) (l : list string) (cc : CommitteeChange) : CommitteeChange :=
  {| NextEpochShardCandidateAdded := NextEpochShardCandidateAdded cc;
     NextEpochShardCandidateRemoved := NextEpochShardCandidateRemoved cc;
     ShardSubstituteAdded := ShardSubstituteAdded cc;
     ShardSubstituteRemoved := ShardSubstituteRemoved cc;
     SyncingPoolAdded := SyncingPoolAdded cc;
     SyncingPoolRemoved := SyncingPoolRemoved cc;
     ShardCommitteeAdded := ShardCommitteeAdded cc;
     ShardCommitteeRemoved := ShardCommitteeRemoved cc;
     StopAutoStake := StopAutoStake cc;
     RemovedStaker := RemovedStaker cc;
     FinishedSyncValidators := if (List.length l =? 0)%nat then FinishedSyncValidators cc
                               else appendAt shard l (FinishedSyncValidators cc);
     SlashingCommittee := SlashingCommittee cc |}.

Definition AddSlashingCommittees (shard : Z) (l : list string) (cc : CommitteeChange) : CommitteeChange :=
  {| NextEpochShardCandidateAdded := NextEpochShardCandidateAdded cc;
     NextEpochShardCandidateRemoved := NextEpochShardCandidateRemoved cc;
     ShardSubstituteAdded := ShardSubstituteAdded cc;
     ShardSubstituteRemoved := ShardSubstituteRemoved cc;
     SyncingPoolAdded := SyncingPoolAdded cc;
     SyncingPoolRemoved := SyncingPoolRemoved cc;
     ShardCommitteeAdded := ShardCommitteeAdded cc;
     ShardCommitteeRemoved := ShardCommitteeRemoved cc;
     StopAutoStake := StopAutoStake cc;
     RemovedStaker := RemovedStaker cc;
     FinishedSyncValidators := FinishedSyncValidators cc;
     SlashingCommittee := if (List.length l =? 0)%nat then SlashingCommittee cc
                          else appendAt shard l (SlashingCommittee cc) |}.

Definition AddRemovedStaker (key : string) (cc : CommitteeChange) : CommitteeChange :=
  {| NextEpochShardCandidateAdded := NextEpochShardCandidateAdded cc;
     NextEpochShardCandidateRemoved := NextEpochShardCandidateRemoved cc;
     ShardSubstituteAdded := ShardSubstituteAdded cc;
     ShardSubstituteRemoved := ShardSubstituteRemoved cc;
     SyncingPoolAdded := SyncingPoolAdded cc;
     SyncingPoolRemoved := SyncingPoolRemoved cc;
     ShardCommitteeAdded := ShardCommitteeAdded cc;
     ShardCommitteeRemoved := ShardCommitteeRemoved cc;
     StopAutoStake := StopAutoStake cc;
     RemovedStaker := RemovedStaker cc ++ [key];
     FinishedSyncValidators := FinishedSyncValidators cc;
     SlashingCommittee := SlashingCommittee cc |}.

Definition AddStopAutoStake (key : string) (cc : CommitteeChange) : CommitteeChange :=
  {| NextEpochShardCandidateAdded := NextEpochShardCandidateAdded cc;
     NextEpochShardCandidateRemoved := NextEpochShardCandidateRemoved cc;
     ShardSubstituteAdded := ShardSubstituteAdded cc;
     ShardSubstituteRemoved := ShardSubstituteRemoved cc;
     SyncingPoolAdded := SyncingPoolAdded cc;
     SyncingPoolRemoved := SyncingPoolRemoved cc;
     ShardCommitteeAdded := ShardCommitteeAdded cc;
     ShardCommitteeRemoved := ShardCommitteeRemoved cc;
     StopAutoStake := StopAutoStake cc ++ [key];
     RemovedStaker := RemovedStaker cc;
     FinishedSyncValidators := FinishedSyncValidators cc;
     SlashingCommittee := SlashingCommittee cc |}.

Definition RemovedStakers (cc : CommitteeChange) : list CommitteePublicKey := parsed (RemovedStaker cc).
Definition StopAutoStakeKeys (cc : CommitteeChange) : list CommitteePublicKey := parsed (StopAutoStake cc).
Definition StakerKeys (cc : CommitteeChange) : list CommitteePublicKey := NextEpochShardCandidateAdded cc.

Definition someShard {A} (m : gmap Z (list A)) : bool :=
  existsb (λ l, negb (List.length l =? 0)%nat) (map_to_list m).*2.

Definition IsShardCommitteeChange (cc : CommitteeChange) : bool :=
  someShard (ShardSubstituteAdded cc) || someShard (ShardSubstituteRemoved cc).
End CommitteeChange.
