(* ===== verification/CommitteeState.v ===== *)
(** The committee state of the beacon chain
    ([committeestate/beacon_committee_state_base.go], [_slashing_base.go], [_v2.go], [_v3.go]).

    Stakers wait in the common pool; a random number sends a share of them to the shards (in
    version 3 to the shard's sync pool first, which they leave when they have synchronised);
    the swap rule moves substitutes into the shard's committee and members out of it; who is
    swapped out goes back to the substitutes, or, slashed or not staking again, leaves and gets
    the stake back.  A block's instructions are processed in order by [UpdateCommitteeState].

    Version 3 embeds the state of version 2 and adds the sync pool: one record serves both, with
    an empty sync pool in version 2.  The rules are used through [SwapRuleProcessor] and
    [AssignRuleProcessor].  Staker information lives in the state database, which is a parameter
    of the environment. *)
From S2P Require Import Prelude Hash InstructionText BeaconInstructions Timeslot SignatureCounter SwapRules AssignRules CommitteeChange.

Local Open Scope Z_scope.

Inductive Version := STAKING_FLOW_V2 | STAKING_FLOW_V3.

Definition SWAP_BY_END_EPOCH : Z := 0.

(** [m[k]] of a map of lists: nil when absent. *)
Definition at_ (shard : Z) (m : gmap Z (list string)) : list string := default [] (m !! shard).

(** [m[shard] = append(m[shard], l...)] for every entry of [add]. *)
Definition appendAll (m add : gmap Z (list string)) : gmap Z (list string) :=
  union_with (λ a b, Some (a ++ b)) m add.

(** What is known of a staker in the state database. *)
Record StakerInfo := { TxStakingID : string; AutoStaking : bool }.

Fixpoint IndexOfStr (item : string) (l : list string) : option nat :=
  match l with
  | [] => None
  | v :: l => if bool_decide (item = v) then Some 0%nat else S <$> IndexOfStr item l
  end.

Definition insertValueToSliceByIndex (l : list string) (value : string) (index : Z) : outcome (list string) :=
  if (len l <? index) || (index <? 0) then Panic
  else mret (take (Z.to_nat index) l ++ value :: drop (Z.to_nat index) l).

(** [new(big.Int).SetBytes(hash).Int64()]: the low 64 bits. *)
Definition bytesToZ (bytes : list Z) : Z := foldl (λ n b, n * 256 + b) 0 bytes.
Definition Int64 (x : Z) : Z :=
  let low := x mod word64 in if word63 <=? low then low - word64 else low.

Section CommitteeState.
Context `{Keys} `{AssignLibraries}.
Context (GetIncKeyBase58 : CommitteePublicKey → string).

Record CommitteeState := {
  beaconCommittee : list string;
  shardCommittee : gmap Z (list string);
  shardSubstitute : gmap Z (list string);
  autoStake : gmap string bool;
  rewardReceiver : gmap string PaymentAddress;
  stakingTx : gmap string Hash;
  shardCommonPool : list string;
  numberOfAssignedCandidates : Z;
  syncPool : gmap Z (list string);
}.

Definition with_committees (committee substitute : gmap Z (list string)) (b : CommitteeState) : CommitteeState :=
  {| beaconCommittee := beaconCommittee b; shardCommittee := committee; shardSubstitute := substitute;
     autoStake := autoStake b; rewardReceiver := rewardReceiver b; stakingTx := stakingTx b;
     shardCommonPool := shardCommonPool b; numberOfAssignedCandidates := numberOfAssignedCandidates b;
     syncPool := syncPool b |}.

Definition with_pool (pool : list string) (n : Z) (b : CommitteeState) : CommitteeState :=
  {| beaconCommittee := beaconCommittee b; shardCommittee := shardCommittee b; shardSubstitute := shardSubstitute b;
     autoStake := autoStake b; rewardReceiver := rewardReceiver b; stakingTx := stakingTx b;
     shardCommonPool := pool; numberOfAssignedCandidates := n; syncPool := syncPool b |}.

Definition with_syncPool (pool : gmap Z (list string)) (b : CommitteeState) : CommitteeState :=
  {| beaconCommittee := beaconCommittee b; shardCommittee := shardCommittee b; shardSubstitute := shardSubstitute b;
     autoStake := autoStake b; rewardReceiver := rewardReceiver b; stakingTx := stakingTx b;
     shardCommonPool := shardCommonPool b; numberOfAssignedCandidates := numberOfAssignedCandidates b;
     syncPool := pool |}.

Definition with_staker (auto : gmap string bool) (receiver : gmap string PaymentAddress)
    (tx : gmap string Hash) (b : CommitteeState) : CommitteeState :=
  {| beaconCommittee := beaconCommittee b; shardCommittee := shardCommittee b; shardSubstitute := shardSubstitute b;
     autoStake := auto; rewardReceiver := receiver; stakingTx := tx;
     shardCommonPool := shardCommonPool b; numberOfAssignedCandidates := numberOfAssignedCandidates b;
     syncPool := syncPool b |}.

(** The environment of a block; the last fields are filled in by [addData]. *)
Record Environment := {
  BeaconInstructions : list (list string);
  RandomNumber : Z;
  IsBeaconRandomTime : bool;
  ActiveShards : nat;
  MinShardCommitteeSize : Z;
  MaxShardCommitteeSize : Z;
  NumberOfFixedShardBlockValidator : Z;
  MissingSignaturePenalty : gmap string Penalty;
  SlashToSync : bool;
  MaxShardNumber : nat;
  AllFoundationNode : gset string;
  GetShardStakerInfo : string → outcome (option StakerInfo);
}.

Record BlockData := {
  newUnassignedCommonPool : list string;
  newAllRoles : list string;
  envShardCommittee : gmap Z (list string);
  envShardSubstitute : gmap Z (list string);
  numberOfValidator : list Z;
}.

(** What is threaded through the handlers of a block. *)
Record Run := {
  rState : CommitteeState;
  rChange : CommitteeChange;
  rReturn : ReturnStakeInstruction;
}.

Definition on_state (f : CommitteeState → CommitteeState) (r : Run) : Run :=
  {| rState := f (rState r); rChange := rChange r; rReturn := rReturn r |}.
Definition on_change (f : CommitteeChange → CommitteeChange) (r : Run) : Run :=
  {| rState := rState r; rChange := f (rChange r); rReturn := rReturn r |}.

(** Every key of the state, wherever it is. *)
Definition getAllSubstituteCommittees (b : CommitteeState) : outcome (list string) :=
  waiting ← sliceTo (numberOfAssignedCandidates b) (shardCommonPool b);
  mret (flat (shardCommittee b) ++ flat (shardSubstitute b) ++ beaconCommittee b ++ waiting).

Definition getAllCandidateSubstituteCommittee (b : CommitteeState) : list string :=
  flat (shardCommittee b) ++ flat (shardSubstitute b) ++ beaconCommittee b ++ shardCommonPool b ++
  flat (syncPool b).

Section Rules.
Context `{!SwapRuleProcessor} `{!AssignRuleProcessor}.
Context (v : Version) (env : Environment).

(** ** Before the instructions *)
Definition SnapshotShardCommonPoolV2 (pool : list string) (committee substitute : gmap Z (list string)) : Z :=
  let n := sumZ ((λ kv, CalculateAssignOffset (len (at_ kv.1 substitute)) (len kv.2)
                          (NumberOfFixedShardBlockValidator env) (MinShardCommitteeSize env))
                 <$> map_to_list committee) in
  if len pool <? n then len pool else n.

Definition shards : list Z := Z.of_nat <$> seq 0 (ActiveShards env).

Definition validatorsIn (b : CommitteeState) (shard : Z) : Z :=
  len (at_ shard (shardCommittee b)) + len (at_ shard (shardSubstitute b)) +
  match v with STAKING_FLOW_V2 => 0 | STAKING_FLOW_V3 => len (at_ shard (syncPool b)) end.

(** [addData] (version 2) and [addDataToEnvironment] (version 3, which counts the sync pool). *)
Definition addData (b : CommitteeState) : outcome BlockData :=
  unassigned ← sliceFrom (numberOfAssignedCandidates b) (shardCommonPool b);
  all ← getAllSubstituteCommittees b;
  mret {|
    newUnassignedCommonPool := unassigned;
    newAllRoles := unassigned ++ all ++
      match v with STAKING_FLOW_V2 => [] | STAKING_FLOW_V3 => flat (syncPool b) end;
    envShardCommittee := shardCommittee b;
    envShardSubstitute := shardSubstitute b;
    numberOfValidator := validatorsIn b <$> shards;
  |}.

Definition snapshot (b : CommitteeState) : CommitteeState :=
  if IsBeaconRandomTime env
  then with_pool (shardCommonPool b)
         (SnapshotShardCommonPoolV2 (shardCommonPool b) (shardCommittee b) (shardSubstitute b)) b
  else b.

Context (data : BlockData).

(** ** Leaving *)
Definition turnOffStopAutoStake (key : string) (r : Run) : Run :=
  on_change (AddStopAutoStake key)
    (on_state (λ b, with_staker (<[key := false]> (autoStake b)) (rewardReceiver b) (stakingTx b) b) r).

Definition deleteStakerInfo (keyStruct : CommitteePublicKey) (key : string) (r : Run) : Run :=
  on_change (AddRemovedStaker key)
    (on_state (λ b, with_staker (delete key (autoStake b))
                      (delete (GetIncKeyBase58 keyStruct) (rewardReceiver b)) (delete key (stakingTx b)) b) r).

(** Nodes of the foundation do not get a stake back. *)
Definition buildReturnStakingInstructionAndDeleteStakerInfo (keyStruct : CommitteePublicKey) (key : string)
    (info : StakerInfo) (r : Run) : outcome Run :=
  ret ← (if bool_decide (key ∈ AllFoundationNode env) then mret (rReturn r)
         else AddNewRequest key (TxStakingID info) (rReturn r));
  mret (deleteStakerInfo keyStruct key {| rState := rState r; rChange := rChange r; rReturn := ret |}).

Definition stakerInfoOf (key : string) : outcome StakerInfo :=
  has ← GetShardStakerInfo env key;
  match has with Some info => Ok info | None => Err "Can not found info of this public key" end.

(** The keys that leave, with their parsed forms: indexing past those panics. *)
Definition leave (key : string) (structs : list CommitteePublicKey) (info : StakerInfo) (r : Run) : outcome Run :=
  match structs with
  | [] => Panic
  | keyStruct :: _ => buildReturnStakingInstructionAndDeleteStakerInfo keyStruct key info r
  end.

(** ** Staking *)
Fixpoint stakeLoop (structs : list CommitteePublicKey) (keys : list string) (receivers : list PaymentAddress)
    (flags : list bool) (hashes : list Hash) (b : CommitteeState) : outcome CommitteeState :=
  match structs with
  | [] => Ok b
  | candidate :: structs =>
      match keys, receivers, flags, hashes with
      | key :: keys, receiver :: receivers, flag :: flags, hash :: hashes =>
          stakeLoop structs keys receivers flags hashes
            (with_staker (<[key := flag]> (autoStake b))
               (<[GetIncKeyBase58 candidate := receiver]> (rewardReceiver b)) (<[key := hash]> (stakingTx b)) b)
      | _, _, _, _ => Panic
      end
  end.

Definition processStakeInstruction (s : StakeInstruction) (r : Run) : outcome Run :=
  if eqS (siChain s) BEACON_INST then Ok r
  else
    b ← stakeLoop (siPublicKeyStructs s) (siPublicKeys s) (siRewardReceiverStructs s)
          (siAutoStakingFlag s) (siTxStakeHashes s) (rState r);
    mret {| rState := with_pool (shardCommonPool b ++ siPublicKeys s) (numberOfAssignedCandidates b) b;
            rChange := AddNextEpochShardCandidateKeys (siPublicKeyStructs s) (rChange r);
            rReturn := rReturn r |}.

(** ** Assignment *)
Definition getCandidatesForRandomAssignment (r : Run) : outcome (list string * Run) :=
  let b := rState r in
  candidates ← sliceTo (numberOfAssignedCandidates b) (shardCommonPool b);
  rest ← sliceFrom (numberOfAssignedCandidates b) (shardCommonPool b);
  mret (candidates, on_change (AddNextEpochShardCandidateRemoved candidates) (on_state (with_pool rest 0) r)).

(** Version 2: to the substitutes of the shards. *)
Definition assign (candidates : list string) (rand : Z) (r : Run) : outcome Run :=
  assigned ← assignRule candidates (numberOfValidator data) rand;
  mret (on_change (λ cc, foldr (λ kv, AppendShardSubstituteAdded kv.1 kv.2) cc (map_to_list assigned))
         (on_state (λ b, with_committees (shardCommittee b) (appendAll (shardSubstitute b) assigned) b) r)).

(** Version 3: to the sync pools. *)
Definition assignToSyncPool (shard : Z) (candidates : list string) (r : Run) : Run :=
  on_change (AddSyncingPoolAdded shard candidates)
    (on_state (λ b, with_syncPool (appendAt shard candidates (syncPool b)) b) r).

Definition processAssignWithRandomInstruction (rand : Z) (r : Run) : outcome Run :=
  '(candidates, r) ← getCandidatesForRandomAssignment r;
  match v with
  | STAKING_FLOW_V2 => assign candidates rand r
  | STAKING_FLOW_V3 =>
      assigned ← assignRule candidates (numberOfValidator data) rand;
      mret (foldr (λ kv, assignToSyncPool kv.1 kv.2) r (map_to_list assigned))
  end.

(** ** Stopping *)
Definition turnOffOne (validators : list string) (key : string) (r : Run) : Run :=
  match IndexOfStr key validators with
  | None => on_state (λ b, with_staker (delete key (autoStake b)) (rewardReceiver b) (stakingTx b) b) r
  | Some _ => if bool_decide (autoStake (rState r) !! key = Some true)
              then turnOffStopAutoStake key r else r
  end.

Definition processStopAutoStakeInstruction (s : option StopAutoStakeInstruction) (r : Run) : outcome Run :=
  match s with
  | None => Panic
  | Some s => mret (foldl (λ r key, turnOffOne (newAllRoles data) key r) r (saCommitteePublicKeys s))
  end.

Definition unstakeOne (key : string) (structs : list CommitteePublicKey) (r : Run) : outcome Run :=
  match IndexOfStr key (newUnassignedCommonPool data) with
  | None => mret (if bool_decide (is_Some (autoStake (rState r) !! key)) then turnOffStopAutoStake key r else r)
  | Some _ =>
      let b := rState r in
      match IndexOfStr key (shardCommonPool b) with
      | None => Panic
      | Some i =>
          let pool := take i (shardCommonPool b) ++ drop (S i) (shardCommonPool b) in
          let r := on_state (with_pool pool (numberOfAssignedCandidates b)) r in
          info ← stakerInfoOf key;
          leave key structs info (on_change (AddNextEpochShardCandidateRemoved [key]) r)
      end
  end.

Fixpoint unstakeLoop (keys : list string) (structs : list CommitteePublicKey) (r : Run) : outcome Run :=
  match keys with
  | [] => Ok r
  | key :: keys => r ← unstakeOne key structs r; unstakeLoop keys (tail structs) r
  end.

Definition processUnstakeInstruction (u : UnstakeInstruction) (r : Run) : outcome Run :=
  unstakeLoop (uiCommitteePublicKeys u) (uiCommitteePublicKeysStruct u) r.

(** ** Swapping *)

(** The instruction of the block must be what the rule gives.  The empty instruction of the rule
    has nil lists, those of a parsed instruction are never nil, and [reflect.DeepEqual] tells
    the two apart. *)
Definition swapMatches (compared inst : SwapShardInstruction) : bool :=
  negb (SwapShardInstruction_IsEmpty compared) &&
  bool_decide (ssInPublicKeys compared = ssInPublicKeys inst) &&
  bool_decide (ssOutPublicKeys compared = ssOutPublicKeys inst).

Definition runSwapRule (shard : Z) (committees substitutes : list string) : outcome SwapResult :=
  Process shard committees substitutes (MinShardCommitteeSize env) (MaxShardCommitteeSize env)
    SWAP_BY_END_EPOCH (NumberOfFixedShardBlockValidator env) (MissingSignaturePenalty env).

Definition processSwap (inst : SwapShardInstruction) (r : Run) : outcome (Run * list string * list string) :=
  let shard := byte (ssChainID inst) in
  res ← runSwapRule shard (at_ shard (envShardCommittee data)) (at_ shard (envShardSubstitute data));
  require (swapMatches (srInstruction res) inst) "expect swap in or out keys";;
  rest ← sliceFrom (len (ssInPublicKeys inst)) (at_ shard (shardSubstitute (rState r)));
  let r := on_state (λ b, with_committees (<[shard := srCommittees res]> (shardCommittee b))
                            (<[shard := rest]> (shardSubstitute b)) b) r in
  let r := on_change (λ cc, AddShardCommitteeAdded shard (ssInPublicKeys inst)
                              (AddShardSubstituteRemoved shard (ssInPublicKeys inst)
                                 (AddShardCommitteeRemoved shard (ssOutPublicKeys inst) cc))) r in
  mret (r, srNormalOut res, srSlashing res).

(** Who stakes again stays a candidate, the others leave. *)
Fixpoint classifyLoop (outs : list string) (structs : list CommitteePublicKey) (r : Run) :
    outcome (list string * Run) :=
  match outs with
  | [] => Ok ([], r)
  | key :: outs =>
      info ← stakerInfoOf key;
      if AutoStaking info
      then '(candidates, r) ← classifyLoop outs (tail structs) r; mret (key :: candidates, r)
      else r ← leave key structs info r; classifyLoop outs (tail structs) r
  end.

Definition classifyValidatorsByAutoStake (outs : list string) (r : Run) : outcome (list string * Run) :=
  classifyLoop outs (parsed outs) r.

Definition assignBackToSubstituteList (candidates : list string) (shard : Z) (r : Run) : Run :=
  foldl (λ r c, on_change (AddShardSubstituteAdded shard [c])
                  (on_state (λ b, with_committees (shardCommittee b)
                                    (appendAt shard [c] (shardSubstitute b)) b) r)) r candidates.

Definition processAfterNormalSwap (shard : Z) (outs : list string) (r : Run) : outcome Run :=
  '(candidates, r) ← classifyValidatorsByAutoStake outs r;
  match v with
  | STAKING_FLOW_V2 => assign candidates (RandomNumber env) r
  | STAKING_FLOW_V3 => mret (assignBackToSubstituteList candidates shard r)
  end.

Fixpoint slashLoop (keys : list string) (structs : list CommitteePublicKey) (r : Run) : outcome Run :=
  match keys with
  | [] => Ok r
  | key :: keys => info ← stakerInfoOf key; r ← leave key structs info r; slashLoop keys (tail structs) r
  end.

Definition processSlashing (shard : Z) (slashed : list string) (r : Run) : outcome Run :=
  r ← slashLoop slashed (parsed slashed) r;
  mret (on_change (AddSlashingCommittees shard slashed) r).

(** Version 3 assigns the error of [processSwap] to a variable that the next call overwrites. *)
Definition processSwapOrSkip (inst : SwapShardInstruction) (r : Run) : outcome (Run * list string * list string) :=
  match v, processSwap inst r with
  | STAKING_FLOW_V3, Err _ => Ok (r, [], [])
  | _, m => m
  end.

Definition processSwapShardInstruction (inst : SwapShardInstruction) (r : Run) : outcome Run :=
  let shard := byte (ssChainID inst) in
  '(r, normalOut, slashed) ← processSwapOrSkip inst r;
  r ← processAfterNormalSwap shard normalOut r;
  match v with
  | STAKING_FLOW_V3 =>
      if SlashToSync env
      then mret (on_change (AddSlashingCommittees shard slashed) (assignToSyncPool shard slashed r))
      else processSlashing shard slashed r
  | STAKING_FLOW_V2 => processSlashing shard slashed r
  end.

(** ** Synchronised *)
Fixpoint removeLoop (n : nat) (finished : gset string) (pool : list string) : list string * gset string :=
  match n, pool with
  | O, _ | _, [] => (pool, finished)
  | S n', key :: pool =>
      if bool_decide (key ∈ finished) then removeLoop n' (finished ∖ {[key]}) pool
      else let '(pool, finished) := removeLoop n finished pool in (key :: pool, finished)
  end.

Definition removeValidatorsFromSyncPool (validators : list string) (shard : Z) (b : CommitteeState) :
    CommitteeState :=
  match syncPool b !! shard with
  | None => b
  | Some pool =>
      with_syncPool (<[shard := (removeLoop (List.length validators) (list_to_set validators) pool).1]>
                       (syncPool b)) b
  end.

(** A hash whose low 64 bits are [-2^63] stays negative when its sign is changed. *)
Definition calculateNewSubstitutePosition (candidate : string) (rand total : Z) : Z :=
  let hash := Int64 (bytesToZ (HashB (candidate +:+ FormatInt rand))) in
  Z.rem (if hash <? 0 then Int64 (- hash) else hash) total.

Definition assignRandomlyOne (shard rand : Z) (candidate : string) (r : Run) : outcome Run :=
  let substitutes := at_ shard (shardSubstitute (rState r)) in
  let offset := if len substitutes =? 0 then 0
                else calculateNewSubstitutePosition candidate rand (len substitutes) in
  substitutes ← insertValueToSliceByIndex substitutes candidate offset;
  mret (on_change (AddShardSubstituteAdded shard [candidate])
         (on_state (λ b, with_committees (shardCommittee b) (<[shard := substitutes]> (shardSubstitute b)) b) r)).

Fixpoint assignRandomlyToSubstituteList (candidates : list string) (rand shard : Z) (r : Run) : outcome Run :=
  match candidates with
  | [] => Ok r
  | c :: candidates => r ← assignRandomlyOne shard rand c r; assignRandomlyToSubstituteList candidates rand shard r
  end.

(** The error of [removeValidatorsFromSyncPool], keys that are not in the pool, is dropped. *)
Definition processFinishSyncInstruction (f : FinishSyncInstruction) (r : Run) : outcome Run :=
  if fsChainID f =? -1 then Ok r
  else
    let shard := byte (fsChainID f) in
    let r := on_state (removeValidatorsFromSyncPool (fsPublicKeys f) shard) r in
    let r := on_change (λ cc, AddFinishedSyncValidators shard (fsPublicKeys f)
                                (AddSyncingPoolRemoved shard (fsPublicKeys f) cc)) r in
    assignRandomlyToSubstituteList (fsPublicKeys f) (RandomNumber env) shard r.

(** ** A block *)
Inductive Action :=
  | AStake (s : StakeInstruction)
  | ARandom (s : RandomInstruction)
  | AStopAutoStake (s : option StopAutoStakeInstruction)
  | ASwapShard (s : SwapShardInstruction)
  | AFinishSync (s : FinishSyncInstruction)
  | AUnstake (s : UnstakeInstruction)
  | AOther.

Definition actionOf (inst : list string) : outcome Action :=
  match inst with
  | [] => Ok AOther
  | action :: _ =>
      if eqS action STAKE_ACTION then AStake <$> ValidateAndImportStakeInstructionFromString inst
      else if eqS action RANDOM_ACTION then ARandom <$> ValidateAndImportRandomInstructionFromString inst
      else if eqS action STOP_AUTO_STAKE_ACTION
      then AStopAutoStake <$> ValidateAndImportStopAutoStakeInstructionFromString inst
      else if eqS action SWAP_SHARD_ACTION then ASwapShard <$> ValidateAndImportSwapShardInstructionFromString inst
      else if eqS action UNSTAKE_ACTION then AUnstake <$> ValidateAndImportUnstakeInstructionFromString inst
      else match v with
           | STAKING_FLOW_V2 => Ok AOther
           | STAKING_FLOW_V3 =>
               if eqS action FINISH_SYNC_ACTION
               then AFinishSync <$> ValidateAndImportFinishSyncInstructionFromString inst else Ok AOther
           end
  end.

Definition processAction (a : Action) (r : Run) : outcome Run :=
  match a with
  | AStake s => processStakeInstruction s r
  | ARandom s => processAssignWithRandomInstruction (randomNumber s) r
  | AStopAutoStake s => processStopAutoStakeInstruction s r
  | ASwapShard s => processSwapShardInstruction s r
  | AFinishSync f => processFinishSyncInstruction f r
  | AUnstake u => processUnstakeInstruction u r
  | AOther => Ok r
  end.

Fixpoint processInstructions (insts : list (list string)) (r : Run) : outcome Run :=
  match insts with
  | [] => Ok r
  | inst :: insts => a ← actionOf inst; r ← processAction a r; processInstructions insts r
  end.
End Rules.

Section Update.
Context `{!SwapRuleProcessor} `{!AssignRuleProcessor}.
Context (v : Version) (env : Environment).

Definition startRun (b : CommitteeState) : Run :=
  {| rState := b; rChange := NewCommitteeChange (MaxShardNumber env); rReturn := NewReturnStakeIns |}.

(** The new state, the log, and the instructions the block incurs. *)
Definition UpdateCommitteeState (b : CommitteeState) :
    outcome (CommitteeState * CommitteeChange * list (list string)) :=
  let b := snapshot env b in
  data ← addData v env b;
  r ← processInstructions v env data (BeaconInstructions env) (startRun b);
  let incurred := if ReturnStakeInstruction_IsEmpty (rReturn r) then []
                  else [ReturnStakeInstruction_ToString (rReturn r)] in
  mret (rState r, rChange r, incurred).

(** The swap instructions of the first block of an epoch. *)
Definition generateSwap (b : CommitteeState) (shard : Z) : outcome SwapShardInstruction :=
  srInstruction <$> runSwapRule env shard (at_ shard (shardCommittee b)) (at_ shard (shardSubstitute b)).

Definition GenerateSwapShardInstructions (b : CommitteeState) : outcome (list SwapShardInstruction) :=
  addData STAKING_FLOW_V2 env b;;
  l ← mapErr (generateSwap b) (shards env);
  mret (filter (λ inst, SwapShardInstruction_IsEmpty inst = false) l).

(** The change to version 3: nobody is in a sync pool yet. *)
Definition Upgrade (b : CommitteeState) : outcome CommitteeState :=
  next ← sliceFrom (numberOfAssignedCandidates b) (shardCommonPool b);
  current ← sliceTo (numberOfAssignedCandidates b) (shardCommonPool b);
  mret (with_syncPool ∅ (with_pool (current ++ next) (numberOfAssignedCandidates b) b)).
End Update.
End CommitteeState.
