(* ===== verification/CommitteeInvariant.v ===== *)
(** Nobody is lost and nobody is in two places: what a beacon block does to the committee state.

    [flows] accounts for every key across the handlers of [CommitteeState]: what the lists hold
    afterwards and who left is what they held before and who came, and the stake is returned to
    those who left unless they are nodes of the foundation.  A block conserves the keys when it
    is [orderly]: a shard is swapped at most once, before any of its stakers finishes
    synchronising, and who finishes synchronising is in the sync pool, which is the order in
    which blocks are produced. *)
From S2P Require Import Prelude Hash Wallet InstructionText BeaconInstructions Timeslot SignatureCounter SwapRules AssignRules CommitteeChange CommitteeState.

Local Open Scope Z_scope.

(** ** Maps of lists *)
Lemma appendAt_spec {A} shard (l : list A) m : appendAt shard l m = <[shard := default [] (m !! shard) ++ l]> m.
Proof. done. Qed.

Lemma flat_appendAt shard l (m : gmap Z (list string)) : flat (appendAt shard l m) ≡ₚ flat m ++ l.
Proof. unfold appendAt. rewrite flat_update, (flat_delete shard m). solve_Permutation. Qed.

Lemma appendAll_insert m add shard l : add !! shard = None →
  appendAll m (<[shard := l]> add) = appendAt shard l (appendAll m add).
Proof.
  intros Hn. unfold appendAll, appendAt. apply map_eq. intros s. rewrite lookup_union_with.
  destruct (decide (s = shard)) as [->|Hne].
  - rewrite !lookup_insert_eq, lookup_union_with, Hn. by destruct (m !! shard).
  - by rewrite !lookup_insert_ne, lookup_union_with by done.
Qed.

Lemma appendAll_empty m : appendAll m ∅ = m.
Proof. unfold appendAll. apply map_eq. intros s. rewrite lookup_union_with, lookup_empty. by destruct (m !! s). Qed.

Lemma flat_insert_None shard (l : list string) m : m !! shard = None → flat (<[shard := l]> m) ≡ₚ l ++ flat m.
Proof. apply flat_insert_new. Qed.

Lemma flat_appendAll m add : flat (appendAll m add) ≡ₚ flat m ++ flat add.
Proof.
  induction add as [|shard l add Hn IH] using map_ind.
  - by rewrite appendAll_empty, flat_empty, app_nil_r.
  - rewrite appendAll_insert, flat_appendAt, IH, flat_insert_new by done. solve_Permutation.
Qed.

Lemma at_insert_eq shard l m : at_ shard (<[shard := l]> m) = l.
Proof. unfold at_. by rewrite lookup_insert_eq. Qed.
Lemma at_insert_ne shard s l m : shard ≠ s → at_ s (<[shard := l]> m) = at_ s m.
Proof. intros. unfold at_. by rewrite lookup_insert_ne. Qed.

Lemma at_appendAll_prefix shard m add : at_ shard m `prefix_of` at_ shard (appendAll m add).
Proof.
  unfold at_, appendAll. rewrite lookup_union_with.
  destruct (m !! shard), (add !! shard); cbn; try done; [by apply prefix_app_r|apply prefix_nil].
Qed.

Lemma at_appendAt_prefix shard s l (m : gmap Z (list string)) : at_ s m `prefix_of` at_ s (appendAt shard l m).
Proof.
  unfold appendAt. destruct (decide (shard = s)) as [->|Hne]; [rewrite at_insert_eq|by rewrite at_insert_ne].
  by apply prefix_app_r.
Qed.

Lemma flat_replace shard new m : flat (<[shard := new]> m) ++ at_ shard m ≡ₚ flat m ++ new.
Proof. rewrite flat_update, (flat_delete shard m). unfold at_. solve_Permutation. Qed.

Lemma IndexOfStr_Some key l i : IndexOfStr key l = Some i → l !! i = Some key.
Proof.
  revert i. induction l as [|x l IH]; intros i E; [done|]. cbn in E. case_bool_decide as Hx.
  - injection E as <-. by subst.
  - destruct (IndexOfStr key l) as [j|]; [|done]. injection E as <-. by apply IH.
Qed.

Lemma delete_middle {A} (l : list A) i x : l !! i = Some x → take i l ++ drop (S i) l ++ [x] ≡ₚ l.
Proof.
  intros Hx. rewrite <- (take_drop_middle l i x) at 3 by done. solve_Permutation.
Qed.

Lemma insertValue_Permutation l value index l' : insertValueToSliceByIndex l value index = Ok l' → l' ≡ₚ l ++ [value].
Proof.
  unfold insertValueToSliceByIndex. destruct (_ || _); [done|]. intros [= <-].
  rewrite <- (take_drop (Z.to_nat index) l) at 3. solve_Permutation.
Qed.

Section Invariant.
Context `{Keys} `{AssignLibraries}.
Context (GetIncKeyBase58 : CommitteePublicKey → string).
Context `{!SwapRuleProcessor} `{!AssignRuleProcessor} `{!SwapRuleLaws _}.
Context (v : Version) (env : Environment).

Abbreviation all b := (getAllCandidateSubstituteCommittee b).

(** The returned stakes are those of the nodes that are not the foundation's. *)
Definition refunded (gone : list string) : list string := filter (λ k, k ∉ AllFoundationNode env) gone.

(** From [r] to [r'], [plus] came, [gone] left for good and [minus] was taken out for now. *)
Record flows (r r' : Run) (gone plus minus : list string) : Prop := {
  fl_removed : RemovedStaker (rChange r') = RemovedStaker (rChange r) ++ gone;
  fl_return : rsPublicKeys (rReturn r') = rsPublicKeys (rReturn r) ++ refunded gone;
  fl_all : all (rState r') ++ gone ++ minus ≡ₚ all (rState r) ++ plus;
}.

Lemma flows_trans r1 r2 r3 g1 p1 m1 g2 p2 m2 :
  flows r1 r2 g1 p1 m1 → flows r2 r3 g2 p2 m2 → flows r1 r3 (g1 ++ g2) (p1 ++ p2) (m1 ++ m2).
Proof.
  intros [R1 T1 A1] [R2 T2 A2]. split.
  - by rewrite R2, R1, <- app_assoc.
  - rewrite T2, T1, <- app_assoc. unfold refunded. by rewrite filter_app.
  - transitivity ((all (rState r3) ++ g2 ++ m2) ++ g1 ++ m1); [solve_Permutation|]. rewrite A2.
    transitivity ((all (rState r2) ++ g1 ++ m1) ++ p2); [solve_Permutation|]. rewrite A1. by rewrite <- app_assoc.
Qed.

Lemma flows_cancel r r' g p p' m m' k : flows r r' g p m → p ≡ₚ p' ++ k → m ≡ₚ m' ++ k → flows r r' g p' m'.
Proof.
  intros [R T A] Hp Hm. split; [done|done|]. rewrite Hp, Hm in A.
  apply (Permutation_app_inv_r k). transitivity (all (rState r') ++ g ++ m' ++ k); [solve_Permutation|].
  rewrite A. solve_Permutation.
Qed.

Lemma flows_plain f r minus : all (f (rState r)) ++ minus ≡ₚ all (rState r) → flows r (on_state f r) [] [] minus.
Proof.
  intros A. split; [by rewrite app_nil_r|unfold refunded; cbn; by rewrite app_nil_r|]. by rewrite app_nil_r.
Qed.

Lemma flows_same r r' plus : RemovedStaker (rChange r') = RemovedStaker (rChange r) → rReturn r' = rReturn r →
  all (rState r') ≡ₚ all (rState r) ++ plus → flows r r' [] plus [].
Proof.
  intros R T A. split; [by rewrite R, app_nil_r|rewrite T; unfold refunded; cbn; by rewrite app_nil_r|].
  by rewrite !app_nil_r.
Qed.

Lemma flows_refl r : flows r r [] [] [].
Proof. apply flows_same; [done..|]. by rewrite app_nil_r. Qed.

(** What a handler leaves alone: the committees and the front of the substitutes of the shards
    other than [touched], and who is in a sync pool unless in [fin]. *)
Record frame (touched : option Z) (fin : list (Z * string)) (r r' : Run) : Prop := {
  fr_committee s : touched ≠ Some s → at_ s (shardCommittee (rState r')) = at_ s (shardCommittee (rState r));
  fr_substitute s : touched ≠ Some s →
    at_ s (shardSubstitute (rState r)) `prefix_of` at_ s (shardSubstitute (rState r'));
  fr_sync s k : (s, k) ∉ fin → k ∈ at_ s (syncPool (rState r)) → k ∈ at_ s (syncPool (rState r'));
}.

Lemma frame_refl t fin r : frame t fin r r.
Proof. by split. Qed.

Lemma frame_trans t fin r1 r2 r3 : frame t fin r1 r2 → frame t fin r2 r3 → frame t fin r1 r3.
Proof.
  intros [C1 S1 Y1] [C2 S2 Y2]. split.
  - intros s Hs. by rewrite C2, C1.
  - intros s Hs. etrans; [by apply S1|by apply S2].
  - intros s k Hk Hin. apply Y2; [done|]. by apply Y1.
Qed.

Lemma frame_same t fin r r' : shardCommittee (rState r') = shardCommittee (rState r) →
  shardSubstitute (rState r') = shardSubstitute (rState r) → syncPool (rState r') = syncPool (rState r) →
  frame t fin r r'.
Proof. intros E1 E2 E3. split; intros; by rewrite ?E1, ?E2, ?E3 in *. Qed.

(** Both together: a handler that moves keys. *)
Definition moves t fin r r' gone plus minus : Prop := flows r r' gone plus minus ∧ frame t fin r r'.

Lemma moves_trans t fin r1 r2 r3 g1 p1 m1 g2 p2 m2 :
  moves t fin r1 r2 g1 p1 m1 → moves t fin r2 r3 g2 p2 m2 → moves t fin r1 r3 (g1 ++ g2) (p1 ++ p2) (m1 ++ m2).
Proof. intros [? ?] [? ?]. split; [by eapply flows_trans|by eapply frame_trans]. Qed.

Lemma moves_refl t fin r : moves t fin r r [] [] [].
Proof. split; [apply flows_refl|apply frame_refl]. Qed.

Lemma moves_cancel t fin r r' g p p' m m' k : moves t fin r r' g p m → p ≡ₚ p' ++ k → m ≡ₚ m' ++ k →
  moves t fin r r' g p' m'.
Proof. intros [? ?] ? ?. split; [by eapply flows_cancel|done]. Qed.

(** *** Leaving *)
Lemma AddNewRequest_keys key tx s s' : AddNewRequest key tx s = Ok s' → rsPublicKeys s' = rsPublicKeys s ++ [key].
Proof.
  unfold AddNewRequest. intros E. apply outcome_bind_Ok in E as (keys & _ & E). destruct keys as [|k keys]; [done|].
  apply outcome_bind_Ok in E as (h & _ & E). by injection E as <-.
Qed.

Lemma leave_moves t fin key structs info r r' : leave GetIncKeyBase58 env key structs info r = Ok r' →
  moves t fin r r' [key] [key] [].
Proof.
  unfold leave, buildReturnStakingInstructionAndDeleteStakerInfo. destruct structs as [|k structs]; [done|].
  intros E. apply outcome_bind_Ok in E as (ret & Hret & E). injection E as <-. split; [|by apply frame_same].
  split; [done| |done]. change (rsPublicKeys ret = rsPublicKeys (rReturn r) ++ refunded [key]).
  unfold refunded. rewrite filter_cons, filter_nil. case_bool_decide as Hk.
  - rewrite decide_False by tauto. injection Hret as <-. by rewrite app_nil_r.
  - rewrite decide_True by done. by eapply AddNewRequest_keys.
Qed.

(** *** Swapping *)
Lemma classifyLoop_moves t fin outs structs r candidates r' :
  classifyLoop GetIncKeyBase58 env outs structs r = Ok (candidates, r') →
  ∃ gone, outs ≡ₚ candidates ++ gone ∧ moves t fin r r' gone gone [].
Proof.
  revert structs r candidates r'. induction outs as [|key outs IH]; intros structs r candidates r' E; cbn in E.
  { injection E as <- <-. exists []. split; [done|apply moves_refl]. }
  apply outcome_bind_Ok in E as (info & _ & E). destruct (AutoStaking info).
  - apply outcome_bind_Ok in E as ([cs r1] & E1 & E). injection E as <- <-.
    apply IH in E1 as (gone & Hp & Hm). exists gone. split; [by rewrite Hp|done].
  - apply outcome_bind_Ok in E as (r1 & E1 & E). apply IH in E as (gone & Hp & Hm).
    exists (key :: gone). split; [rewrite Hp; solve_Permutation|].
    apply (leave_moves t fin) in E1. apply (moves_trans _ _ _ _ _ _ _ _ _ _ _ E1 Hm).
Qed.

Lemma slashLoop_moves t fin keys structs r r' : slashLoop GetIncKeyBase58 env keys structs r = Ok r' →
  moves t fin r r' keys keys [].
Proof.
  revert structs r. induction keys as [|key keys IH]; intros structs r E; cbn in E.
  { injection E as <-. apply moves_refl. }
  apply outcome_bind_Ok in E as (info & _ & E). apply outcome_bind_Ok in E as (r1 & E1 & E).
  apply (leave_moves t fin) in E1. apply IH in E. apply (moves_trans _ _ _ _ _ _ _ _ _ _ _ E1 E).
Qed.

(** A change of the log that keeps the removed stakers. *)
Lemma on_change_moves t fin f r r' g p m : (∀ cc, RemovedStaker (f cc) = RemovedStaker cc) →
  moves t fin r r' g p m → moves t fin r (on_change f r') g p m.
Proof. intros Hf [[R T A] [C S Y]]. split; split; try done. cbn. by rewrite Hf. Qed.

Lemma on_state_moves t fin f r plus : all (f (rState r)) ≡ₚ all (rState r) ++ plus →
  frame t fin r (on_state f r) → moves t fin r (on_state f r) [] plus [].
Proof. intros Ha Hf. split; [by apply flows_same|done]. Qed.

Lemma assign_log_removed (l : list (Z * list string)) cc :
  RemovedStaker (foldr (λ kv, AppendShardSubstituteAdded kv.1 kv.2) cc l) = RemovedStaker cc.
Proof. by induction l. Qed.

Lemma assign_moves t fin data candidates rand r r' :
  (∀ m, assignRule candidates (numberOfValidator data) rand = Ok m → flat m ≡ₚ candidates) →
  assign data candidates rand r = Ok r' → moves t fin r r' [] candidates [].
Proof.
  intros Hrule E. unfold assign in E. apply outcome_bind_Ok in E as (m & Em & E). injection E as <-.
  apply on_change_moves; [apply assign_log_removed|]. apply on_state_moves.
  - unfold getAllCandidateSubstituteCommittee. cbn. rewrite flat_appendAll, (Hrule _ Em). solve_Permutation.
  - split; [done| |done]. intros s _. apply at_appendAll_prefix.
Qed.

Lemma assignToSyncPool_moves t fin shard l r : moves t fin r (assignToSyncPool shard l r) [] l [].
Proof.
  apply on_change_moves; [done|]. apply on_state_moves.
  - unfold getAllCandidateSubstituteCommittee. cbn. rewrite flat_appendAt. solve_Permutation.
  - split; [done|done|]. intros s k _ Hk. cbn. destruct (at_appendAt_prefix shard s l (syncPool (rState r))) as [x ->].
    apply elem_of_app. by left.
Qed.

Lemma assignAllToSyncPool_moves t fin (l : list (Z * list string)) r :
  moves t fin r (foldr (λ kv, assignToSyncPool kv.1 kv.2) r l) [] (concat l.*2) [].
Proof.
  induction l as [|[shard keys] l IH]; [apply moves_refl|]. cbn.
  pose proof (moves_trans _ _ _ _ _ _ _ _ _ _ _ IH (assignToSyncPool_moves t fin shard keys _)) as Hm.
  eapply moves_cancel with (k := []); [exact Hm|solve_Permutation|done].
Qed.

Lemma assignBack_moves t fin candidates shard r :
  moves t fin r (assignBackToSubstituteList candidates shard r) [] candidates [].
Proof.
  unfold assignBackToSubstituteList. revert r. induction candidates as [|c candidates IH]; intros r; [apply moves_refl|].
  cbn [foldl]. set (r1 := on_change _ _).
  assert (moves t fin r r1 [] [c] []) as Hm1.
  { apply on_change_moves; [done|]. apply on_state_moves.
    - unfold getAllCandidateSubstituteCommittee. cbn. rewrite flat_appendAt. solve_Permutation.
    - split; [done| |done]. intros s _. apply at_appendAt_prefix. }
  exact (moves_trans _ _ _ _ _ _ _ _ _ _ _ Hm1 (IH r1)).
Qed.

(** The rule, on the committees of the block's start. *)
Definition rule_ready (data : BlockData) (shard : Z) : Prop :=
  sized (at_ shard (envShardCommittee data)) (MinShardCommitteeSize env) (MaxShardCommitteeSize env)
    (NumberOfFixedShardBlockValidator env) ∧
  parsable (at_ shard (envShardCommittee data) ++ at_ shard (envShardSubstitute data)).

Definition unswapped (data : BlockData) (r : Run) (shard : Z) : Prop :=
  at_ shard (shardCommittee (rState r)) = at_ shard (envShardCommittee data) ∧
  at_ shard (envShardSubstitute data) `prefix_of` at_ shard (shardSubstitute (rState r)).

Lemma swapMatches_eq compared inst : swapMatches compared inst = true →
  SwapShardInstruction_IsEmpty compared = false ∧ ssInPublicKeys inst = ssInPublicKeys compared ∧
  ssOutPublicKeys inst = ssOutPublicKeys compared.
Proof.
  unfold swapMatches. intros [[Hm1%negb_true_iff Hm2%bool_decide_eq_true]%andb_true_iff Hm3%bool_decide_eq_true]%andb_true_iff.
  done.
Qed.

Lemma runSwapRule_sound data shard res : rule_ready data shard →
  runSwapRule env shard (at_ shard (envShardCommittee data)) (at_ shard (envShardSubstitute data)) = Ok res →
  ∃ kept swapIn, swap_sound shard SWAP_BY_END_EPOCH (MinShardCommitteeSize env) (MaxShardCommitteeSize env)
    (NumberOfFixedShardBlockValidator env) (MissingSignaturePenalty env)
    (at_ shard (envShardCommittee data)) (at_ shard (envShardSubstitute data)) res kept swapIn.
Proof.
  intros [Hs Hp] E. unfold runSwapRule in E.
  destruct (Process_sound shard SWAP_BY_END_EPOCH _ _ _ (MissingSignaturePenalty env) _ _ Hs Hp)
    as (res' & kept & swapIn & E' & Hsound).
  rewrite E in E'. injection E' as <-. by exists kept, swapIn.
Qed.

Lemma processSwap_moves fin data inst r r' normalOut slashed :
  let shard := byte (ssChainID inst) in
  rule_ready data shard → unswapped data r shard →
  processSwap env data inst r = Ok (r', normalOut, slashed) →
  moves (Some shard) fin r r' [] [] (slashed ++ normalOut).
Proof.
  intros shard Hready [HC HS] E. unfold processSwap in E. fold shard in E.
  apply outcome_bind_Ok in E as (res & Eres & E). apply outcome_bind_Ok in E as (u & Eu & E).
  apply outcome_bind_Ok in E as (rest & Erest & E). injection E as <- <- <-.
  destruct (runSwapRule_sound _ _ _ Hready Eres) as (kept & swapIn & [Hcom Hsub Hout _ _ _ _ _ _ _ _ Hinst]).
  unfold require in Eu. destruct (swapMatches _ _) eqn:Em; [|done]. apply swapMatches_eq in Em as (Hne & Hin & _).
  assert (ssInPublicKeys inst = swapIn) as Ein.
  { rewrite Hin. destruct (andb _ _); [by rewrite Hne in Hinst|by destruct Hinst]. }
  destruct HS as [extra HS].
  assert (rest = srSubstitutes res ++ extra) as ->.
  { unfold sliceFrom in Erest. destruct (andb _ _); [|done]. injection Erest as <-. rewrite HS, Ein, Hsub.
    unfold len. rewrite Nat2Z.id, <- app_assoc. by rewrite drop_app_length. }
  apply on_change_moves; [done|]. split.
  - apply flows_plain. unfold getAllCandidateSubstituteCommittee. cbn.
    set (m1 := shardCommittee (rState r)) in *. set (m2 := shardSubstitute (rState r)) in *.
    rewrite (flat_update shard (srCommittees res) m1), (flat_update shard (srSubstitutes res ++ extra) m2),
      (flat_delete shard m1), (flat_delete shard m2).
    fold (at_ shard m1) (at_ shard m2). rewrite HC, Hout, HS, Hsub, Hcom. solve_Permutation.
  - split; cbn.
    + intros s Hs. apply at_insert_ne. congruence.
    + intros s Hs. rewrite at_insert_ne by congruence. done.
    + done.
Qed.

Lemma processSwapOrSkip_moves fin data inst r r' normalOut slashed :
  let shard := byte (ssChainID inst) in
  rule_ready data shard → unswapped data r shard →
  processSwapOrSkip v env data inst r = Ok (r', normalOut, slashed) →
  moves (Some shard) fin r r' [] [] (slashed ++ normalOut).
Proof.
  intros shard Hready Hun E. unfold processSwapOrSkip in E.
  destruct (processSwap env data inst r) as [x|e| |] eqn:Ep; destruct v; try done;
    try (injection E as ->; by apply processSwap_moves with data).
  injection E as <- <- <-. apply moves_refl.
Qed.

(** What is needed of the assignment: everybody is assigned. *)
Definition assigns (data : BlockData) : Prop := ∀ candidates rand m,
  assignRule candidates (numberOfValidator data) rand = Ok m → flat m ≡ₚ candidates.

Lemma processAfterNormalSwap_moves t fin data shard outs r r' : assigns data →
  processAfterNormalSwap GetIncKeyBase58 v env data shard outs r = Ok r' →
  ∃ gone, moves t fin r r' gone outs [].
Proof.
  intros Ha E. unfold processAfterNormalSwap in E. apply outcome_bind_Ok in E as ([cs r1] & E1 & E).
  apply (classifyLoop_moves t fin) in E1 as (gone & Hp & Hm). exists gone.
  assert (moves t fin r1 r' [] cs []) as Hm2.
  { destruct v; [|injection E as <-; apply assignBack_moves]. eapply assign_moves; [|exact E]. intros m. apply Ha. }
  pose proof (moves_trans _ _ _ _ _ _ _ _ _ _ _ Hm Hm2) as Hm3. rewrite app_nil_r in Hm3.
  eapply moves_cancel with (k := []); [exact Hm3| |done]. rewrite Hp. solve_Permutation.
Qed.

Lemma processSwapShardInstruction_moves fin data inst r r' :
  let shard := byte (ssChainID inst) in
  assigns data → rule_ready data shard → unswapped data r shard →
  processSwapShardInstruction GetIncKeyBase58 v env data inst r = Ok r' →
  ∃ gone, moves (Some shard) fin r r' gone [] [].
Proof.
  intros shard Ha Hready Hun E. unfold processSwapShardInstruction in E. fold shard in E.
  apply outcome_bind_Ok in E as ([[r1 normalOut] slashed] & E1 & E).
  apply (processSwapOrSkip_moves fin) in E1; [|done..]. fold shard in E1.
  apply outcome_bind_Ok in E as (r2 & E2 & E).
  apply (processAfterNormalSwap_moves (Some shard) fin) in E2 as (gone1 & Hm2); [|done].
  assert (∃ gone2, moves (Some shard) fin r2 r' gone2 slashed []) as (gone2 & Hm3).
  { assert (processSlashing GetIncKeyBase58 env shard slashed r2 = Ok r' →
            moves (Some shard) fin r2 r' slashed slashed []) as Hsl.
    { unfold processSlashing. intros Es. apply outcome_bind_Ok in Es as (r3 & Es & [= <-]).
      apply on_change_moves; [intros cc; unfold AddSlashingCommittees; by destruct (_ =? _)%nat|].
      by eapply slashLoop_moves. }
    destruct v; [by exists slashed; apply Hsl|]. destruct (SlashToSync env); [|by exists slashed; apply Hsl].
    injection E as <-. exists []. apply on_change_moves; [done|]. apply assignToSyncPool_moves. }
  exists (gone1 ++ gone2). pose proof (moves_trans _ _ _ _ _ _ _ _ _ _ _ E1
    (moves_trans _ _ _ _ _ _ _ _ _ _ _ Hm2 Hm3)) as Hm.
  eapply moves_cancel with (k := slashed ++ normalOut); [exact Hm|solve_Permutation|rewrite !app_nil_r; done].
Qed.

(** *** Staking, assigning and stopping *)
Definition lists (b : CommitteeState) :=
  (beaconCommittee b, shardCommittee b, shardSubstitute b, shardCommonPool b, numberOfAssignedCandidates b, syncPool b).

Lemma all_lists b b' : lists b' = lists b → all b' = all b.
Proof. unfold lists, getAllCandidateSubstituteCommittee. by intros [= -> -> -> -> _ ->]. Qed.

Lemma lists_moves t fin r r' : lists (rState r') = lists (rState r) →
  RemovedStaker (rChange r') = RemovedStaker (rChange r) → rReturn r' = rReturn r → moves t fin r r' [] [] [].
Proof.
  intros El Er Et. split; [apply flows_same; [done..|]|].
  - by rewrite app_nil_r, (all_lists _ _ El).
  - injection El as _ E1 E2 _ _ E3. by apply frame_same.
Qed.

Lemma stakeLoop_lists structs keys receivers flags hashes b b' :
  stakeLoop GetIncKeyBase58 structs keys receivers flags hashes b = Ok b' → lists b' = lists b.
Proof.
  revert keys receivers flags hashes b. induction structs as [|k structs IH]; intros keys receivers flags hashes b E.
  { by injection E as <-. }
  destruct keys, receivers, flags, hashes; try done. by apply IH in E.
Qed.

Lemma processStakeInstruction_moves t fin s r r' : processStakeInstruction GetIncKeyBase58 s r = Ok r' →
  moves t fin r r' [] (if eqS (siChain s) BEACON_INST then [] else siPublicKeys s) [].
Proof.
  unfold processStakeInstruction. destruct (eqS _ _); [intros [= <-]; apply moves_refl|].
  intros E. apply outcome_bind_Ok in E as (b & Eb & E). injection E as <-. apply stakeLoop_lists in Eb.
  injection Eb as E1 E2 E3 E4 E5 E6. split; [apply flows_same; [done..|]|by apply frame_same].
  unfold getAllCandidateSubstituteCommittee. cbn. rewrite E1, E2, E3, E4, E6. solve_Permutation.
Qed.

Lemma sliceTo_take {A} n (l x : list A) : sliceTo n l = Ok x → x = take (Z.to_nat n) l ∧ 0 ≤ n ≤ len l.
Proof.
  unfold sliceTo. destruct (_ && _) eqn:B; [|done]. intros [= <-]. split; [done|]. lia.
Qed.
Lemma sliceFrom_drop {A} n (l x : list A) : sliceFrom n l = Ok x → x = drop (Z.to_nat n) l ∧ 0 ≤ n ≤ len l.
Proof.
  unfold sliceFrom. destruct (_ && _) eqn:B; [|done]. intros [= <-]. split; [done|]. lia.
Qed.

Lemma getCandidates_moves t fin r candidates r' : getCandidatesForRandomAssignment r = Ok (candidates, r') →
  moves t fin r r' [] [] candidates.
Proof.
  intros E. unfold getCandidatesForRandomAssignment in E. apply outcome_bind_Ok in E as (c & Ec & E).
  apply outcome_bind_Ok in E as (rest & Erest & E). injection E as <- <-.
  apply sliceTo_take in Ec as [-> _]. apply sliceFrom_drop in Erest as [-> _].
  apply on_change_moves; [done|]. split; [|by apply frame_same].
  apply flows_plain. unfold getAllCandidateSubstituteCommittee. cbn.
  set (n := Z.to_nat _). rewrite <- (take_drop n (shardCommonPool (rState r))) at 3. solve_Permutation.
Qed.

Lemma processAssign_moves t fin data rand r r' : assigns data →
  processAssignWithRandomInstruction v data rand r = Ok r' → moves t fin r r' [] [] [].
Proof.
  intros Ha E. unfold processAssignWithRandomInstruction in E. apply outcome_bind_Ok in E as ([cs r1] & E1 & E).
  apply (getCandidates_moves t fin) in E1. assert (moves t fin r1 r' [] cs []) as Hm.
  { destruct v; [eapply assign_moves; [|exact E]; intros m; apply Ha|].
    apply outcome_bind_Ok in E as (m & Em & E). injection E as <-.
    eapply moves_cancel with (k := []); [apply assignAllToSyncPool_moves| |done].
    rewrite app_nil_r. exact (Ha _ _ _ Em). }
  eapply moves_cancel with (k := cs); [exact (moves_trans _ _ _ _ _ _ _ _ _ _ _ E1 Hm)|done|by rewrite app_nil_r].
Qed.

Lemma turnOff_moves t fin key r : moves t fin r (turnOffStopAutoStake key r) [] [] [].
Proof. by apply lists_moves. Qed.

Lemma processStopAutoStake_moves t fin data s r r' : processStopAutoStakeInstruction data s r = Ok r' →
  moves t fin r r' [] [] [].
Proof.
  destruct s as [s|]; [|done]. cbn. intros [= <-]. revert r.
  induction (saCommitteePublicKeys s) as [|key keys IH]; intros r; [apply moves_refl|]. cbn [foldl].
  refine (moves_trans _ _ _ _ _ [] [] [] [] [] [] _ (IH _)).
  unfold turnOffOne. destruct (IndexOfStr _ _); [|by apply lists_moves]. case_bool_decide; [apply turnOff_moves|apply moves_refl].
Qed.

Lemma unstakeOne_moves t fin data key structs r r' : unstakeOne GetIncKeyBase58 env data key structs r = Ok r' →
  ∃ gone, moves t fin r r' gone [] [].
Proof.
  unfold unstakeOne. destruct (IndexOfStr key (newUnassignedCommonPool data)).
  - destruct (IndexOfStr key (shardCommonPool (rState r))) as [i|] eqn:Ei; [|done].
    intros E. apply outcome_bind_Ok in E as (info & _ & E). exists [key].
    apply (leave_moves t fin) in E. set (r1 := on_change _ _) in E.
    assert (moves t fin r r1 [] [] [key]) as Hm.
    { apply on_change_moves; [done|]. split; [|by apply frame_same].
      apply flows_plain. unfold getAllCandidateSubstituteCommittee. cbn. apply IndexOfStr_Some in Ei.
      rewrite <- (delete_middle (shardCommonPool (rState r)) i key) at 3 by done. solve_Permutation. }
    eapply moves_cancel with (k := [key]); [exact (moves_trans _ _ _ _ _ _ _ _ _ _ _ Hm E)|done|done].
  - intros [= <-]. exists []. case_bool_decide; [apply turnOff_moves|apply moves_refl].
Qed.

Lemma unstakeLoop_moves t fin data keys structs r r' : unstakeLoop GetIncKeyBase58 env data keys structs r = Ok r' →
  ∃ gone, moves t fin r r' gone [] [].
Proof.
  revert structs r. induction keys as [|key keys IH]; intros structs r E; cbn in E.
  { injection E as <-. exists []. apply moves_refl. }
  apply outcome_bind_Ok in E as (r1 & E1 & E). apply (unstakeOne_moves t fin) in E1 as (g1 & Hm1).
  apply IH in E as (g2 & Hm2). exists (g1 ++ g2). exact (moves_trans _ _ _ _ _ _ _ _ _ _ _ Hm1 Hm2).
Qed.

(** *** Finishing synchronisation *)

(** All keys looked for are found, once, when the pool holds them. *)
Lemma removeLoop_spec n finished pool : size finished = n → (∀ k, k ∈ finished → k ∈ pool) →
  pool ≡ₚ (removeLoop n finished pool).1 ++ elements finished ∧
  (∀ k, k ∈ pool → k ∉ finished → k ∈ (removeLoop n finished pool).1).
Proof.
  revert n finished. induction pool as [|x pool IH]; intros n finished Hn Hsub.
  { assert (finished ≡ ∅) as E by (apply elem_of_equiv_empty; intros k Hk; by eapply not_elem_of_nil, Hsub).
    apply leibniz_equiv in E as ->. destruct n; cbn; by rewrite elements_empty. }
  destruct n as [|n].
  { apply size_empty_inv, leibniz_equiv in Hn as ->. cbn. rewrite elements_empty, app_nil_r. by split. }
  cbn [removeLoop]. case_bool_decide as Hx.
  - destruct (IH n (finished ∖ {[x]})) as [Hp Hk].
    + rewrite size_difference, size_singleton, Hn; [lia|]. by apply singleton_subseteq_l.
    + intros k [Hk Hne]%elem_of_difference. apply Hsub in Hk as [->|Hk]%elem_of_cons; [|done].
      by rewrite elem_of_singleton in Hne.
    + split.
      * assert (elements finished ≡ₚ x :: elements (finished ∖ {[x]})) as ->.
        { rewrite (union_difference_L {[x]} finished) at 1 by (by apply singleton_subseteq_l).
          rewrite elements_union_singleton by set_solver. done. }
        rewrite Hp at 1. solve_Permutation.
      * intros k [->|Hin]%elem_of_cons Hnot; [done|]. apply Hk; set_solver.
  - destruct (IH (S n) finished Hn) as [Hp Hk].
    + intros k Hin. pose proof (Hsub k Hin) as [->|]%elem_of_cons; done.
    + destruct (removeLoop (S n) finished pool) as [p f]. cbn in *. split; [by rewrite Hp at 1|].
      intros k [->|Hin]%elem_of_cons Hnot; [by left|]. right. by apply Hk.
Qed.

Lemma assignRandomlyOne_moves shard fin rand c r r' : assignRandomlyOne shard rand c r = Ok r' →
  moves (Some shard) fin r r' [] [c] [].
Proof.
  intros E. unfold assignRandomlyOne in E. apply outcome_bind_Ok in E as (subs & Es & E). injection E as <-.
  apply insertValue_Permutation in Es. apply on_change_moves; [done|]. apply on_state_moves.
  - unfold getAllCandidateSubstituteCommittee. cbn. set (m := shardSubstitute (rState r)) in *.
    rewrite (flat_update shard subs m), (flat_delete shard m), Es. unfold at_. solve_Permutation.
  - split; [done| |done]. intros s Hs. cbn. rewrite at_insert_ne by congruence. done.
Qed.

Lemma assignRandomly_moves shard fin rand candidates r r' :
  assignRandomlyToSubstituteList candidates rand shard r = Ok r' → moves (Some shard) fin r r' [] candidates [].
Proof.
  revert r. induction candidates as [|c candidates IH]; intros r E; cbn in E.
  { injection E as <-. apply moves_refl. }
  apply outcome_bind_Ok in E as (r1 & E1 & E). apply assignRandomlyOne_moves with (fin := fin) in E1.
  apply IH in E. exact (moves_trans _ _ _ _ _ _ _ _ _ _ _ E1 E).
Qed.

Definition finishing (f : FinishSyncInstruction) : list (Z * string) :=
  if fsChainID f =? -1 then [] else (λ k, (byte (fsChainID f), k)) <$> fsPublicKeys f.

Lemma removeValidators_moves shard keys r : NoDup keys → (∀ k, k ∈ keys → k ∈ at_ shard (syncPool (rState r))) →
  moves (Some shard) ((λ k, (shard, k)) <$> keys) r (on_state (removeValidatorsFromSyncPool keys shard) r) [] [] keys.
Proof.
  intros Hnd Hin. unfold removeValidatorsFromSyncPool, on_state.
  destruct (syncPool (rState r) !! shard) as [pool|] eqn:Ep.
  - destruct (removeLoop_spec (List.length keys) (list_to_set keys) pool) as [Hp Hk].
    + by apply size_list_to_set.
    + intros k Hk%elem_of_list_to_set. apply Hin in Hk. unfold at_ in Hk. by rewrite Ep in Hk.
    + rewrite elements_list_to_set in Hp by done. set (pool' := (removeLoop _ _ _).1) in *.
      split; [apply flows_plain|split; [done|done|]].
      * unfold getAllCandidateSubstituteCommittee. cbn.
        rewrite (flat_update shard pool'), (flat_delete shard (syncPool (rState r))), Ep. cbn. rewrite Hp.
        solve_Permutation.
      * intros s k Hnot Hs. cbn. destruct (decide (shard = s)) as [->|Hne]; [|by rewrite at_insert_ne].
        rewrite at_insert_eq. unfold at_ in Hs. rewrite Ep in Hs. apply Hk; [done|].
        intros Hkeys%elem_of_list_to_set. apply Hnot, list_elem_of_fmap. by exists k.
  - assert (keys = []) as ->.
    { destruct keys as [|k keys]; [done|]. specialize (Hin k ltac:(by left)). unfold at_ in Hin. rewrite Ep in Hin. by apply not_elem_of_nil in Hin. }
    by apply lists_moves.
Qed.

Lemma processFinishSync_moves f r r' : NoDup (finishing f) →
  (∀ s k, (s, k) ∈ finishing f → k ∈ at_ s (syncPool (rState r))) →
  processFinishSyncInstruction env f r = Ok r' →
  moves (if fsChainID f =? -1 then None else Some (byte (fsChainID f))) (finishing f) r r' [] [] [].
Proof.
  intros Hnd Hin E. unfold processFinishSyncInstruction, finishing in *.
  destruct (fsChainID f =? -1); [injection E as <-; apply moves_refl|].
  apply NoDup_fmap_1 in Hnd.
  set (shard := byte (fsChainID f)) in *. set (keys := fsPublicKeys f) in *.
  apply assignRandomly_moves with (fin := (λ k, (shard, k)) <$> keys) in E.
  assert (∀ k, k ∈ keys → k ∈ at_ shard (syncPool (rState r))) as Hkeys.
  { intros k Hk. apply Hin, list_elem_of_fmap. by exists k. }
  pose proof (removeValidators_moves shard keys r Hnd Hkeys) as Hm.
  set (r1 := on_state _ r) in *. eapply on_change_moves in Hm; [|intros cc; shelve].
  eapply moves_cancel with (k := keys); [exact (moves_trans _ _ _ _ _ _ _ _ _ _ _ Hm E)|done|by rewrite app_nil_r].
  Unshelve. unfold AddFinishedSyncValidators. by destruct (_ =? _)%nat.
Qed.

(** *** Blocks *)
Definition swaps (a : Action) : list Z :=
  match a with ASwapShard s => [byte (ssChainID s)] | _ => [] end.
Definition finishes (a : Action) : list (Z * string) :=
  match a with AFinishSync f => finishing f | _ => [] end.
Definition touches (a : Action) : option Z :=
  match a with
  | ASwapShard s => Some (byte (ssChainID s))
  | AFinishSync f => if fsChainID f =? -1 then None else Some (byte (fsChainID f))
  | _ => None
  end.
(** The new stakers. *)
Definition stakes (a : Action) : list string :=
  match a with
  | AStake s => if eqS (siChain s) BEACON_INST then [] else siPublicKeys s
  | _ => []
  end.

Definition swapped (l : list Action) : list Z := concat (swaps <$> l).
Definition finished (l : list Action) : list (Z * string) := concat (finishes <$> l).
Definition staked (l : list Action) : list string := concat (stakes <$> l).

(** A shard is not swapped after it was swapped or somebody finished synchronising there. *)
Fixpoint swapsFirst (l : list Action) : Prop :=
  match l with
  | [] => True
  | a :: l => (∀ s, touches a = Some s → s ∉ swapped l) ∧ swapsFirst l
  end.

Record orderly (b : CommitteeState) (l : list Action) : Prop := {
  or_swaps : swapsFirst l;
  or_once : NoDup (finished l);
  or_syncing s k : (s, k) ∈ finished l → k ∈ at_ s (syncPool b);
}.

Definition ready (data : BlockData) (l : list Action) (r : Run) : Prop :=
  orderly (rState r) l ∧ ∀ s, s ∈ swapped l → rule_ready data s ∧ unswapped data r s.

Lemma processAction_moves data a l r r' : assigns data → ready data (a :: l) r →
  processAction GetIncKeyBase58 v env data a r = Ok r' →
  ∃ gone, moves (touches a) (finishes a) r r' gone (stakes a) [].
Proof.
  intros Ha [[_ Hnd Hfin] Hswap] E. unfold finished, swapped in *. cbn [fmap list_fmap concat] in *.
  apply NoDup_app in Hnd as (Hnd & _ & _).
  destruct a as [s|s|s|s|f|u|]; cbn [processAction] in E.
  - exists []. by apply processStakeInstruction_moves.
  - exists []. by eapply processAssign_moves.
  - exists []. by eapply processStopAutoStake_moves.
  - destruct (Hswap (byte (ssChainID s)) ltac:(by left)) as [Hr Hu].
    eapply processSwapShardInstruction_moves; done.
  - exists []. apply processFinishSync_moves; [done| |done]. intros s k Hk. apply Hfin, elem_of_app. by left.
  - by eapply unstakeLoop_moves.
  - injection E as <-. exists []. apply moves_refl.
Qed.

Lemma ready_step data a l r r' gone plus minus : ready data (a :: l) r →
  moves (touches a) (finishes a) r r' gone plus minus → ready data l r'.
Proof.
  intros [[[Ht Hs] Hnd Hfin] Hswap] [_ [HC HS HY]]. unfold finished, swapped in *. cbn [fmap list_fmap concat] in *.
  apply NoDup_app in Hnd as (_ & Hdisj & Hnd). split; [split; [done|done|]|].
  - intros s k Hk. apply HY; [intros Hk'; by eapply Hdisj|]. apply Hfin, elem_of_app. by right.
  - intros s Hin. destruct (Hswap s) as [Hr [HuC HuS]]; [apply elem_of_app; by right|]. split; [done|].
    assert (touches a ≠ Some s) as Hne by (intros E; by apply (Ht s E)).
    split; [by rewrite HC|etrans; [exact HuS|by apply HS]].
Qed.

Definition actionsOf (insts : list (list string)) : list Action :=
  concat ((λ inst, match actionOf v inst with Ok a => [a] | _ => [] end) <$> insts).

Lemma processInstructions_flows data insts r r' : assigns data → ready data (actionsOf insts) r →
  processInstructions GetIncKeyBase58 v env data insts r = Ok r' →
  ∃ gone, flows r r' gone (staked (actionsOf insts)) [].
Proof.
  intros Ha. revert r. induction insts as [|inst insts IH]; intros r Hr E; cbn [processInstructions] in E.
  { injection E as <-. exists []. apply flows_refl. }
  apply outcome_bind_Ok in E as (a & Eact & E). apply outcome_bind_Ok in E as (r1 & E1 & E).
  unfold actionsOf in *. cbn [fmap list_fmap concat] in *. rewrite Eact in *. cbn [app] in *.
  destruct (processAction_moves _ _ _ _ _ Ha Hr E1) as (g1 & Hm1).
  apply (ready_step _ _ _ _ _ _ _ _ Hr) in Hm1 as Hr1. apply IH in E as (g2 & Hf2); [|done].
  exists (g1 ++ g2). destruct Hm1 as [Hf1 _]. exact (flows_trans _ _ _ _ _ _ _ _ _ Hf1 Hf2).
Qed.

(** ** The block *)
Lemma all_snapshot b : all (snapshot env b) = all b.
Proof. unfold snapshot. by destruct (IsBeaconRandomTime env). Qed.

Lemma addData_committees b data : addData v env b = Ok data →
  envShardCommittee data = shardCommittee b ∧ envShardSubstitute data = shardSubstitute b ∧
  numberOfValidator data = validatorsIn v b <$> shards env.
Proof.
  intros E. unfold addData in E. apply outcome_bind_Ok in E as (u & _ & E).
  apply outcome_bind_Ok in E as (l & _ & E). by injection E as <-.
Qed.

(** The shards can be enumerated, and somebody validates. *)
Definition populated (b : CommitteeState) : Prop :=
  (0 < ActiveShards env ≤ 255)%nat ∧ 0 < sumZ (validatorsIn v b <$> shards env).

Lemma length_shards : List.length (shards env) = ActiveShards env.
Proof. unfold shards. by rewrite length_fmap, length_seq. Qed.

Lemma validatorsIn_nonneg b s : 0 ≤ validatorsIn v b s.
Proof.
  unfold validatorsIn. pose proof (len_nonneg (at_ s (shardCommittee b))).
  pose proof (len_nonneg (at_ s (shardSubstitute b))). pose proof (len_nonneg (at_ s (syncPool b))). destruct v; lia.
Qed.

Lemma populated_enumerated b : populated b → enumerated (validatorsIn v b <$> shards env).
Proof.
  intros [Hn Hs]. pose proof length_shards as Hl. split_and!; [|unfold len; rewrite length_fmap; lia| |done].
  - intros E%fmap_nil_inv. rewrite E in Hl. cbn in Hl. lia.
  - apply Forall_fmap, Forall_forall. intros s _. apply validatorsIn_nonneg.
Qed.

Lemma assigns_of_laws `{!AssignRuleLaws _} data : enumerated (numberOfValidator data) → assigns data.
Proof.
  intros Hn candidates rand m E.
  destruct (assign_everybody candidates (numberOfValidator data) rand Hn) as (m' & E' & Hp & _).
  rewrite E in E'. by injection E' as <-.
Qed.

(** The committees that the block swaps are of the size the rule is meant for, and parse. *)
Definition swappable (b : CommitteeState) (s : Z) : Prop :=
  sized (at_ s (shardCommittee b)) (MinShardCommitteeSize env) (MaxShardCommitteeSize env)
    (NumberOfFixedShardBlockValidator env) ∧
  parsable (at_ s (shardCommittee b) ++ at_ s (shardSubstitute b)).

Lemma start_ready b data : addData v env (snapshot env b) = Ok data →
  orderly b (actionsOf (BeaconInstructions env)) →
  (∀ s, s ∈ swapped (actionsOf (BeaconInstructions env)) → swappable b s) →
  ready data (actionsOf (BeaconInstructions env)) (startRun env (snapshot env b)).
Proof.
  intros (Ec & Es & _)%addData_committees [Hs Hn Hf] Hsw.
  assert (shardCommittee (snapshot env b) = shardCommittee b ∧ shardSubstitute (snapshot env b) = shardSubstitute b ∧
          syncPool (snapshot env b) = syncPool b) as (E1 & E2 & E3).
  { unfold snapshot. by destruct (IsBeaconRandomTime env). }
  split; [split; [done|done|]|].
  - intros s k Hk. cbn. rewrite E3. by apply Hf.
  - intros s Hin. unfold rule_ready, unswapped. cbn. rewrite Ec, Es, E1, E2. by split; [apply Hsw|].
Qed.

(** C8: a block conserves the stakers. Take a block that is accepted, whatever its instructions
    (stakes, the random number, stops, unstakes, swaps, finished synchronisations), under a rule
    of assignment that assigns everybody ([AssignRuleLaws]), where: 1 to 255 shards are active
    and somebody validates ([populated]); the instructions are orderly ([orderly]: no shard is
    swapped twice, or after a finished synchronisation of its own, and every key reported as
    synchronised is in the sync pool of its shard and reported once); and the swapped shards
    have committees of the sizes the rule is meant for, of keys that parse ([swappable]). Then
    the lists of the new state together with those who were removed are a permutation of the
    lists of the old state together with those who staked, so nobody is lost; nobody comes to be
    in two places; and the stake is returned to exactly those who were removed and are not nodes
    of the foundation. (Without these conditions see the examples that follow.) *)
Theorem UpdateCommitteeState_conserves `{!AssignRuleLaws _} b b' cc incurred :
  let acts := actionsOf (BeaconInstructions env) in
  populated b → orderly b acts → (∀ s, s ∈ swapped acts → swappable b s) →
  UpdateCommitteeState GetIncKeyBase58 v env b = Ok (b', cc, incurred) →
  all b' ++ RemovedStaker cc ≡ₚ all b ++ staked acts ∧
  (NoDup (all b ++ staked acts) → NoDup (all b' ++ RemovedStaker cc)) ∧
  ∃ ret, rsPublicKeys ret = refunded (RemovedStaker cc) ∧
    incurred = if ReturnStakeInstruction_IsEmpty ret then [] else [ReturnStakeInstruction_ToString ret].
Proof.
  intros acts Hpop Hord Hsw E. unfold UpdateCommitteeState in E.
  apply outcome_bind_Ok in E as (data & Ed & E). apply outcome_bind_Ok in E as (r & Er & E).
  injection E as <- <- <-.
  pose proof (start_ready _ _ Ed Hord Hsw) as Hready.
  apply addData_committees in Ed as (_ & _ & En).
  assert (assigns data) as Ha.
  { apply assigns_of_laws. rewrite En. apply populated_enumerated. unfold snapshot.
    by destruct (IsBeaconRandomTime env), v. }
  destruct (processInstructions_flows data _ _ _ Ha Hready Er) as (gone & [HR HT HA]).
  cbn in HR, HT. assert (all (rState r) ++ RemovedStaker (rChange r) ≡ₚ all b ++ staked acts) as Hall.
  { rewrite HR. rewrite app_nil_r in HA. rewrite HA. cbn. by rewrite all_snapshot. }
  split; [done|]. split; [by rewrite Hall|]. exists (rReturn r). split; [|done]. by rewrite HT, HR.
Qed.
End Invariant.

(** ** A concrete state *)
Module Sample.
#[local] Existing Instance Committees.keys.
#[local] Existing Instance Concrete.libraries.
#[local] Existing Instance Concrete.libraries_laws.
#[local] Existing Instance swapRuleV3.
#[local] Existing Instance AssignRuleV3.

Definition state : CommitteeState := {|
  beaconCommittee := ["m"; "n"];
  shardCommittee := {[ 0 := ["a"; "b"; "c"; "d"]; 1 := ["e"; "f"] ]};
  shardSubstitute := {[ 0 := ["p"; "q"]; 1 := [] ]};
  autoStake := {[ "a" := true; "x" := true; "y" := true ]};
  rewardReceiver := ∅;
  stakingTx := ∅;
  shardCommonPool := ["x"; "y"];
  numberOfAssignedCandidates := 1;
  syncPool := {[ 0 := ["s"; "t"] ]};
|}.

Definition env_of (insts : list (list string)) : Environment := {|
  BeaconInstructions := insts;
  RandomNumber := 5;
  IsBeaconRandomTime := false;
  ActiveShards := 2;
  MinShardCommitteeSize := 2;
  MaxShardCommitteeSize := 4;
  NumberOfFixedShardBlockValidator := 2;
  MissingSignaturePenalty := {[ "c" := Build_Penalty 50 0 true ]};
  SlashToSync := false;
  MaxShardNumber := 2;
  AllFoundationNode := {[ "a"; "b"; "e"; "f" ]};
  GetShardStakerInfo k := Ok (Some (Build_StakerInfo "0a" true));
|}.

Definition run (insts : list (list string)) : outcome (CommitteeState * CommitteeChange * list (list string)) :=
  UpdateCommitteeState id STAKING_FLOW_V3 (env_of insts) state.

Definition swap0 : list string := [SWAP_SHARD_ACTION; "p"; "c"; "0"; "0"].
Definition finish (keys : string) : list string := [FINISH_SYNC_ACTION; "0"; keys].

Definition block : list (list string) :=
  [[STAKE_ACTION; "z"; "shard"; "0b"; DemoWallet.addressText 10; "true"]; [RANDOM_ACTION; "7"; "7"; "7"; "7"]; [UNSTAKE_ACTION; "y"];
   swap0; [STOP_AUTO_STAKE_ACTION; "a"]; finish "s"].

(** What is left of a run: the committees, substitutes, pool, sync pools, who was removed, and
    the instructions it incurs. *)
Definition seen (m : outcome (CommitteeState * CommitteeChange * list (list string))) :=
  match m with
  | Ok (b, cc, incurred) =>
      Some (map_to_list (shardCommittee b), map_to_list (shardSubstitute b), shardCommonPool b,
            map_to_list (syncPool b), RemovedStaker cc, incurred)
  | _ => None
  end.
End Sample.

Section Examples.
#[local] Existing Instance Committees.keys.
#[local] Existing Instance Concrete.libraries.
#[local] Existing Instance Concrete.libraries_laws.
#[local] Existing Instance swapRuleV3.
#[local] Existing Instance AssignRuleV3.

Lemma UpdateCommitteeState_conserves_witness :
  ∃ b cc incurred, Sample.run Sample.block = Ok (b, cc, incurred) ∧
    RemovedStaker cc = ["y"; "c"] ∧ incurred = [[RETURN_ACTION; "y,c"; "0a,0a"; "100,100"]] ∧
    getAllCandidateSubstituteCommittee b ++ ["y"; "c"] ≡ₚ getAllCandidateSubstituteCommittee Sample.state ++ ["z"].
Proof.
  assert (populated STAKING_FLOW_V3 (Sample.env_of Sample.block) Sample.state) as Hpop.
  { split; [cbn; lia|vm_compute; reflexivity]. }
  set (acts := actionsOf STAKING_FLOW_V3 Sample.block).
  assert (orderly Sample.state acts) as Hord.
  { split; [| |intros s k Hk]; vm_compute in *; [|apply NoDup_singleton|].
    - split_and!; try (intros s E; discriminate); [|intros s E; apply not_elem_of_nil|done].
      intros s E. apply not_elem_of_nil.
    - apply list_elem_of_singleton in Hk. injection Hk as -> ->. left. }
  assert (∀ s, s ∈ swapped acts → swappable (Sample.env_of Sample.block) Sample.state s) as Hsw.
  { intros s Hs. vm_compute in Hs. apply list_elem_of_singleton in Hs as ->. split.
    - vm_compute. repeat split; intros E; discriminate.
    - apply Committees_parsable. vm_compute. reflexivity. }
  eexists _, _, _.
  eassert (UpdateCommitteeState id STAKING_FLOW_V3 (Sample.env_of Sample.block) Sample.state = Ok (_, _, _)) as E
    by (vm_compute; reflexivity).
  unfold Sample.run. split; [exact E|]. split; [reflexivity|]. split; [reflexivity|].
  exact (proj1 (UpdateCommitteeState_conserves id STAKING_FLOW_V3 (Sample.env_of Sample.block) Sample.state _ _ _
    Hpop Hord Hsw E)).
Defined.

(** Without these conditions keys are lost or doubled. *)

(** The error of a swap instruction that is not what the rule gives is overwritten: the block is
    accepted, and the shard is not swapped. *)
Lemma wrong_swap_ignored : ∃ b cc incurred,
  Sample.run [[SWAP_SHARD_ACTION; ""; "d"; "0"; "0"]] = Ok (b, cc, incurred) ∧
  shardCommittee b = shardCommittee Sample.state.
Proof. eexists _, _, _. split; vm_compute; reflexivity. Qed.

(** A key that is in no sync pool becomes a substitute all the same: here a member of the
    committee is its own substitute. *)
Lemma finished_not_syncing : ∃ b cc incurred, Sample.run [Sample.finish "a"] = Ok (b, cc, incurred) ∧
  at_ 0 (shardCommittee b) = ["a"; "b"; "c"; "d"] ∧ at_ 0 (shardSubstitute b) = ["a"; "p"; "q"].
Proof. eexists _, _, _. split; [vm_compute; reflexivity|]. split; vm_compute; reflexivity. Qed.

(** After a finished synchronisation the head of the queue is not the one the rule saw: "s", who
    just came, is dropped, and "p" is in the committee and still a substitute. *)
Lemma finished_before_swap : ∃ b cc incurred,
  Sample.run [Sample.finish "s"; Sample.swap0] = Ok (b, cc, incurred) ∧
  at_ 0 (shardCommittee b) = ["a"; "b"; "d"; "p"] ∧ at_ 0 (shardSubstitute b) = ["p"; "q"] ∧
  ("s" ∉ getAllCandidateSubstituteCommittee b) ∧ RemovedStaker cc = ["c"].
Proof.
  eexists _, _, _. split; [vm_compute; reflexivity|]. split; [vm_compute; reflexivity|].
  split; [vm_compute; reflexivity|]. split; [apply (bool_decide_unpack _); vm_compute; exact I|reflexivity].
Qed.

(** The same key twice in an unstake instruction stops the node. *)
Lemma unstake_twice_panics : Sample.run [[UNSTAKE_ACTION; "y,y"]] = Panic.
Proof. vm_compute. reflexivity. Qed.
End Examples.
