(* ===== verification/CommitteeAgreement.v ===== *)
(** The swap instructions that the producer of an epoch's first block generates are accepted by
    everybody who processes the block, and the committees become those of the rule. *)
From S2P Require Import Prelude Hash InstructionText BeaconInstructions InstructionRoundtrip Timeslot SignatureCounter SwapRules AssignRules CommitteeChange CommitteeState CommitteeInvariant.

Local Open Scope Z_scope.

Lemma sublist_Permutation_eq {A} (l k : list A) : l `sublist_of` k → l ≡ₚ k → l = k.
Proof.
  intros Hs Hp. apply Permutation_length in Hp. induction Hs as [|x l k Hs IH|x l k Hs IH]; cbn in *; [done| |].
  - f_equal. apply IH. lia.
  - apply sublist_length in Hs. lia.
Qed.

Section Agreement.
Context `{Keys} `{AssignLibraries}.
Context (GetIncKeyBase58 : CommitteePublicKey → string).
Context `{!SwapRuleProcessor} `{!AssignRuleProcessor} `{!SwapRuleLaws _} `{!AssignRuleLaws _}.
Context (v : Version) (env : Environment).

(** Keys that are printed and parsed as they are. *)
Definition plainKey (k : string) : Prop := k ≠ "" ∧ noComma k = true ∧ is_Some (FromString k).

(** The stake of a key can be found, and its transaction printed. *)
Definition knownStaker (k : string) : Prop :=
  ∃ info, GetShardStakerInfo env k = Ok (Some info) ∧ is_Ok (NewHashFromStr (TxStakingID info)).

Definition keysOf (b : CommitteeState) (s : Z) : list string :=
  at_ s (shardCommittee b) ++ at_ s (shardSubstitute b).

(** The first block of an epoch, which is not the random time. *)
Record epochStart (b : CommitteeState) : Prop := {
  es_populated : populated v env b;
  es_random : IsBeaconRandomTime env = false;
  es_assigned : 0 ≤ numberOfAssignedCandidates b ≤ len (shardCommonPool b);
  es_sized s : s ∈ shards env → swappable env b s;
  es_plain s : s ∈ shards env → Forall plainKey (keysOf b s);
  es_known s : s ∈ shards env → Forall knownStaker (at_ s (shardCommittee b));
}.

(** *** Parsing *)
Lemma plain_structs l : Forall plainKey l →
  ∃ keys, CommitteeBase58KeyListToStruct l = Ok keys ∧ List.length keys = List.length l.
Proof.
  intros Hl. assert (∃ keys, mapErr keyOf l = Ok keys ∧ List.length keys = List.length l) as (keys & E & Hlen).
  { induction Hl as [|k l (_ & _ & [key Hk]) Hl (keys & E & Hlen)]; [by exists []|].
    exists (key :: keys). assert (keyOf k = Ok key) as Ek by (unfold keyOf; by rewrite Hk).
    cbn [mapErr]. rewrite Ek. cbn [mbind outcome_bind]. rewrite E. split; [done|cbn; lia]. }
  exists keys. split; [|done]. destruct Hl as [|k l (Hk & _) Hl]; [by injection E as <-|].
  by destruct k as [|c k].
Qed.

Lemma plain_optField l : Forall plainKey l → optField l.
Proof.
  intros Hl. split.
  - intros ->. apply Forall_cons in Hl as [(Hk & _) _]. done.
  - induction Hl as [|k l (_ & Hc & _) Hl IH]; [done|]. cbn. by rewrite Hc.
Qed.

Lemma swapshard_reimport inst : Forall plainKey (ssInPublicKeys inst) → Forall plainKey (ssOutPublicKeys inst) →
  0 ≤ ssChainID inst < word63 → in_i64 (ssType inst) →
  ∃ inst', ValidateAndImportSwapShardInstructionFromString (SwapShardInstruction_ToString inst) = Ok inst' ∧
    ssInPublicKeys inst' = ssInPublicKeys inst ∧ ssOutPublicKeys inst' = ssOutPublicKeys inst ∧
    ssChainID inst' = ssChainID inst.
Proof.
  intros Hi Ho Hc Ht. destruct (plain_structs _ Hi) as (ins & Ei & _), (plain_structs _ Ho) as (outs & Eo & _).
  set (inst' := Build_SwapShardInstruction (ssInPublicKeys inst) ins (ssOutPublicKeys inst) outs
                  (ssChainID inst) (ssType inst)).
  exists inst'. split; [|done].
  change (SwapShardInstruction_ToString inst) with (SwapShardInstruction_ToString inst').
  apply swapshard_roundtrip. unfold wf_SwapShard. cbn. split_and!; try done; try lia; by apply plain_optField.
Qed.

(** *** Leaving always succeeds *)
Lemma leave_Ok k keyStruct structs info r : plainKey k → is_Ok (NewHashFromStr (TxStakingID info)) →
  is_Ok (leave GetIncKeyBase58 env k (keyStruct :: structs) info r).
Proof.
  intros (Hne & _ & [key Hk]) [h Hh]. unfold leave, buildReturnStakingInstructionAndDeleteStakerInfo.
  case_bool_decide; [by eexists|]. unfold AddNewRequest.
  assert (CommitteeBase58KeyListToStruct [k] = Ok [key]) as ->.
  { destruct k; [done|]. cbn. unfold keyOf. by rewrite Hk. }
  cbn. rewrite Hh. by eexists.
Qed.

Lemma stakerInfoOf_Ok k : knownStaker k →
  ∃ info, stakerInfoOf env k = Ok info ∧ is_Ok (NewHashFromStr (TxStakingID info)).
Proof. intros (info & E & Hh). exists info. unfold stakerInfoOf. by rewrite E. Qed.

Lemma classifyLoop_Ok outs structs r : Forall plainKey outs → Forall knownStaker outs →
  List.length structs = List.length outs → is_Ok (classifyLoop GetIncKeyBase58 env outs structs r).
Proof.
  intros Hp Hk. revert structs r. induction Hp as [|k outs Hkp Hp IH]; intros structs r Hlen; [by eexists|].
  apply Forall_cons in Hk as [Hkk Hk]. destruct structs as [|keyStruct structs]; [done|]. cbn [classifyLoop].
  destruct (stakerInfoOf_Ok k Hkk) as (info & -> & Hh). cbn [mbind outcome_bind tail].
  injection Hlen as Hlen. destruct (AutoStaking info).
  - destruct (IH Hk structs r Hlen) as [[cs r1] ->]. by eexists.
  - destruct (leave_Ok k keyStruct structs info r Hkp Hh) as [r1 ->]. cbn [mbind outcome_bind]. by apply IH.
Qed.

Lemma slashLoop_Ok keys structs r : Forall plainKey keys → Forall knownStaker keys →
  List.length structs = List.length keys → is_Ok (slashLoop GetIncKeyBase58 env keys structs r).
Proof.
  intros Hp Hk. revert structs r. induction Hp as [|k keys Hkp Hp IH]; intros structs r Hlen; [by eexists|].
  apply Forall_cons in Hk as [Hkk Hk]. destruct structs as [|keyStruct structs]; [done|]. cbn [slashLoop].
  destruct (stakerInfoOf_Ok k Hkk) as (info & -> & Hh). cbn [mbind outcome_bind tail].
  injection Hlen as Hlen. destruct (leave_Ok k keyStruct structs info r Hkp Hh) as [r1 ->].
  cbn [mbind outcome_bind]. by apply IH.
Qed.

Lemma parsed_length l : Forall plainKey l → List.length (parsed l) = List.length l.
Proof. intros Hl. destruct (plain_structs l Hl) as (keys & E & Hlen). unfold parsed. by rewrite E. Qed.

Lemma processAfterNormalSwap_Ok data shard outs r : enumerated (numberOfValidator data) →
  Forall plainKey outs → Forall knownStaker outs →
  is_Ok (processAfterNormalSwap GetIncKeyBase58 v env data shard outs r).
Proof.
  intros Hn Hp Hk. unfold processAfterNormalSwap, classifyValidatorsByAutoStake.
  destruct (classifyLoop_Ok outs (parsed outs) r Hp Hk (parsed_length _ Hp)) as [[cs r1] ->]. cbn [mbind outcome_bind].
  destruct v; [|by eexists]. unfold assign.
  destruct (assign_everybody cs (numberOfValidator data) (RandomNumber env) Hn) as (m & -> & _). by eexists.
Qed.

Lemma processSlashing_Ok shard slashed r : Forall plainKey slashed → Forall knownStaker slashed →
  is_Ok (processSlashing GetIncKeyBase58 env shard slashed r).
Proof.
  intros Hp Hk. unfold processSlashing.
  destruct (slashLoop_Ok slashed (parsed slashed) r Hp Hk (parsed_length _ Hp)) as [r1 ->]. by eexists.
Qed.

(** *** One swap *)

(** What the rule gives for a shard. *)
Record produced (b : CommitteeState) (shard : Z) (res : SwapResult) : Prop := {
  pr_rule : runSwapRule env shard (at_ shard (shardCommittee b)) (at_ shard (shardSubstitute b)) = Ok res;
  pr_cases : if SwapShardInstruction_IsEmpty (srInstruction res) then srCommittees res = at_ shard (shardCommittee b)
             else ssChainID (srInstruction res) = shard ∧ ssType (srInstruction res) = SWAP_BY_END_EPOCH ∧
                  ssOutPublicKeys (srInstruction res) = srSlashing res ++ srNormalOut res ∧
                  at_ shard (shardSubstitute b) = ssInPublicKeys (srInstruction res) ++ srSubstitutes res;
  pr_out : srSlashing res ++ srNormalOut res ⊆ at_ shard (shardCommittee b);
}.

Lemma rule_produces b shard : swappable env b shard → ∃ res, produced b shard res.
Proof.
  intros [Hs Hp]. destruct (Process_sound shard SWAP_BY_END_EPOCH _ _ _ (MissingSignaturePenalty env) _ _ Hs Hp)
    as (res & kept & swapIn & E & [Hcom Hsub Hout Hord _ _ _ _ _ _ _ Hinst]).
  exists res. split; [done| |intros k Hk; rewrite Hout; apply elem_of_app; by right].
  destruct (_ && _) eqn:Hempty.
  - rewrite Hinst. apply andb_true_iff in Hempty as [Hi%Nat.eqb_eq Ho%Nat.eqb_eq].
    apply nil_length_inv in Hi as ->. apply nil_length_inv in Ho. rewrite Ho, app_nil_r in Hout.
    rewrite Hcom, app_nil_r. symmetry in Hout. by apply sublist_Permutation_eq.
  - destruct Hinst as (Hin & Ho & Hc & Ht).
    assert (SwapShardInstruction_IsEmpty (srInstruction res) = false) as ->.
    { unfold SwapShardInstruction_IsEmpty. rewrite Hin, Ho. apply andb_false_iff in Hempty as [-> | ->].
      - apply andb_false_r.
      - by rewrite andb_false_r. }
    by rewrite Hin.
Qed.

Section Step.
Context (b : CommitteeState) (data : BlockData).
Context (Hcommittee : envShardCommittee data = shardCommittee b).
Context (Hsubstitute : envShardSubstitute data = shardSubstitute b).
Context (Hnumbers : enumerated (numberOfValidator data)).
Context (Hassigns : assigns data).

Definition goodShard (s : Z) : Prop :=
  0 ≤ s < 255 ∧ swappable env b s ∧ Forall plainKey (keysOf b s) ∧ Forall knownStaker (at_ s (shardCommittee b)).

Lemma goodShard_ready s : goodShard s → rule_ready env data s.
Proof. intros (_ & Hs & _). unfold rule_ready. by rewrite Hcommittee, Hsubstitute. Qed.

Lemma produced_out s res : goodShard s → produced b s res →
  Forall plainKey (srSlashing res ++ srNormalOut res) ∧ Forall knownStaker (srSlashing res ++ srNormalOut res).
Proof.
  intros (_ & _ & Hp & Hk) [_ _ Hout]. apply Forall_app in Hp as [Hp _].
  split; apply Forall_forall; intros k Hin%Hout; by eapply Forall_forall.
Qed.

Lemma swap_step s res inst r : goodShard s → produced b s res →
  SwapShardInstruction_IsEmpty (srInstruction res) = false →
  ssInPublicKeys inst = ssInPublicKeys (srInstruction res) →
  ssOutPublicKeys inst = ssOutPublicKeys (srInstruction res) → ssChainID inst = ssChainID (srInstruction res) →
  unswapped data r s →
  ∃ r', processSwapShardInstruction GetIncKeyBase58 v env data inst r = Ok r' ∧
    at_ s (shardCommittee (rState r')) = srCommittees res ∧ frame (Some s) [] r r'.
Proof.
  intros Hgood Hprod Hne Hin Hout Hchain [HuC HuS].
  pose proof (goodShard_ready s Hgood) as Hready. pose proof (produced_out s res Hgood Hprod) as [Hpl Hkn].
  destruct Hprod as [Hrule Hcases _]. rewrite Hne in Hcases. destruct Hcases as (Hc & _ & Ho & Hsub).
  destruct Hgood as (Hrange & _). assert (byte (ssChainID inst) = s) as Hbyte.
  { rewrite Hchain, Hc. apply byte_small. lia. }
  apply Forall_app in Hpl as [Hpl1 Hpl2]. apply Forall_app in Hkn as [Hkn1 Hkn2].
  assert (∃ r1, processSwap env data inst r = Ok (r1, srNormalOut res, srSlashing res) ∧
                at_ s (shardCommittee (rState r1)) = srCommittees res) as (r1 & E1 & HC1).
  { unfold processSwap. rewrite Hbyte, Hcommittee, Hsubstitute, Hrule. cbn [mbind outcome_bind].
    assert (swapMatches (srInstruction res) inst = true) as ->.
    { unfold swapMatches. by rewrite Hne, !bool_decide_eq_true_2. }
    cbn [require mbind outcome_bind]. destruct HuS as [extra HuS]. rewrite Hsubstitute, Hsub in HuS.
    rewrite Hin, HuS, sliceFrom_Ok by (rewrite !len_app; pose proof (len_nonneg (srSubstitutes res)); pose proof (len_nonneg extra);
      pose proof (len_nonneg (ssInPublicKeys (srInstruction res))); lia).
    cbn [mbind outcome_bind mret outcome_ret]. eexists. split; [done|]. apply at_insert_eq. }
  assert (processSwapOrSkip v env data inst r = Ok (r1, srNormalOut res, srSlashing res)) as E1'.
  { unfold processSwapOrSkip. rewrite E1. by destruct v. }
  destruct (processAfterNormalSwap_Ok data s (srNormalOut res) r1 Hnumbers Hpl2 Hkn2) as [r2 E2].
  pose proof E2 as E2'. apply (processAfterNormalSwap_moves _ _ _ None []) in E2' as (gone & _ & F2); [|done].
  assert (∃ r3, processSwapShardInstruction GetIncKeyBase58 v env data inst r = Ok r3 ∧
                at_ s (shardCommittee (rState r3)) = at_ s (shardCommittee (rState r2))) as (r3 & E3 & HC3).
  { unfold processSwapShardInstruction. rewrite Hbyte, E1'. cbn [mbind outcome_bind]. rewrite E2. cbn [mbind outcome_bind].
    assert (∃ r3, processSlashing GetIncKeyBase58 env s (srSlashing res) r2 = Ok r3 ∧
                  at_ s (shardCommittee (rState r3)) = at_ s (shardCommittee (rState r2))) as Hsl.
    { destruct (processSlashing_Ok s (srSlashing res) r2 Hpl1 Hkn1) as [r3 E3]. exists r3. split; [done|].
      unfold processSlashing in E3. apply outcome_bind_Ok in E3 as (r4 & E4 & [= <-]).
      apply (slashLoop_moves _ _ None []) in E4 as [_ F4]. by apply F4. }
    destruct v; [done|]. destruct (SlashToSync env); [|done]. by eexists. }
  exists r3. split; [done|]. split; [rewrite HC3, <- HC1; by apply F2|].
  assert (rule_ready env data (byte (ssChainID inst)) ∧ unswapped data r (byte (ssChainID inst))) as [Hr Hu]
    by (by rewrite Hbyte).
  destruct (processSwapShardInstruction_moves GetIncKeyBase58 v env [] data inst r r3 Hassigns Hr Hu E3)
    as (g & _ & HF). by rewrite Hbyte in HF.
Qed.

Definition produce (ress : list SwapResult) : list SwapShardInstruction :=
  filter (λ inst, SwapShardInstruction_IsEmpty inst = false) (srInstruction <$> ress).

Lemma swaps_accepted ss ress r : Forall2 (produced b) ss ress → NoDup ss → Forall goodShard ss →
  (∀ s, s ∈ ss → unswapped data r s) →
  ∃ r', processInstructions GetIncKeyBase58 v env data (SwapShardInstruction_ToString <$> produce ress) r = Ok r' ∧
    Forall2 (λ s res, at_ s (shardCommittee (rState r')) = srCommittees res) ss ress ∧
    (∀ s, s ∉ ss → at_ s (shardCommittee (rState r')) = at_ s (shardCommittee (rState r))).
Proof.
  intros Hall Hnd Hgood. revert r. induction Hall as [|s res ss ress Hprod Hall IH]; intros r Hun.
  { exists r. by split. }
  apply NoDup_cons in Hnd as [Hnot Hnd]. apply Forall_cons in Hgood as [Hg Hgood].
  specialize (IH Hnd Hgood). pose proof (Hun s ltac:(by left)) as Hs.
  unfold produce. rewrite fmap_cons, filter_cons.
  destruct (decide (SwapShardInstruction_IsEmpty (srInstruction res) = false)) as [Hne|Hempty].
  - destruct Hprod as [Hrule Hcases Hout] eqn:Ep. clear Ep. pose proof Hcases as Hc'. rewrite Hne in Hc'.
    destruct Hc' as (Hc & Ht & Ho & Hsub). pose proof (produced_out s res Hg Hprod) as [Hpl _].
    destruct (swapshard_reimport (srInstruction res)) as (inst & Ei & Hin & Hout' & Hchain).
    { destruct Hg as (_ & _ & Hp & _). apply Forall_app in Hp as [_ Hp]. rewrite Hsub in Hp.
      by apply Forall_app in Hp as [Hp _]. }
    { by rewrite Ho. }
    { rewrite Hc. destruct Hg as ([? ?] & _). unfold word63. lia. }
    { rewrite Ht. unfold in_i64, word63, SWAP_BY_END_EPOCH. lia. }
    destruct (swap_step s res inst r Hg Hprod Hne Hin Hout' Hchain Hs) as (r1 & E1 & HC1 & [FC FS FY]).
    destruct (IH r1) as (r' & E' & Hss & Hother).
    { intros s' Hs'. destruct (Hun s' ltac:(by right)) as [HuC HuS].
      assert (Some s ≠ Some s') as Hne' by (intros [= ->]; done).
      split; [by rewrite FC|etrans; [exact HuS|by apply FS]]. }
    exists r'. split; [|split].
    + rewrite fmap_cons. cbn [processInstructions].
      assert (actionOf v (SwapShardInstruction_ToString (srInstruction res)) = Ok (ASwapShard inst)) as ->.
      { change (actionOf v (SwapShardInstruction_ToString (srInstruction res)))
          with (ASwapShard <$> ValidateAndImportSwapShardInstructionFromString
                                 (SwapShardInstruction_ToString (srInstruction res))). by rewrite Ei. }
      cbn [mbind outcome_bind processAction]. rewrite E1. exact E'.
    + constructor; [|done]. by rewrite Hother.
    + intros s' Hs'. apply not_elem_of_cons in Hs' as [Hne' Hs']. rewrite Hother by done. apply FC. congruence.
  - destruct (IH r) as (r' & E' & Hss & Hother); [intros s' Hs'; apply Hun; by right|].
    exists r'. split; [done|]. split.
    + constructor; [|done]. rewrite Hother by done. destruct Hprod as [_ Hcases _].
      destruct (SwapShardInstruction_IsEmpty (srInstruction res)); [|done]. rewrite Hcases, <- Hcommittee. apply Hs.
    + intros s' Hs'. apply not_elem_of_cons in Hs' as [_ Hs']. by apply Hother.
Qed.
End Step.

(** C9: at the start of an epoch, generating the swap instructions succeeds, and a block with
    exactly these instructions is accepted by everybody who holds the same state: every
    instruction, printed and read back, is what the rule gives again, and the committee of every
    shard becomes the one the rule gives for the old committee, substitutes and penalties. *)
Theorem produced_swaps_accepted b : epochStart b →
  ∃ insts, GenerateSwapShardInstructions env b = Ok insts ∧
    (BeaconInstructions env = SwapShardInstruction_ToString <$> insts →
     ∃ b' cc incurred, UpdateCommitteeState GetIncKeyBase58 v env b = Ok (b', cc, incurred) ∧
       ∀ s, s ∈ shards env → ∃ res,
         runSwapRule env s (at_ s (shardCommittee b)) (at_ s (shardSubstitute b)) = Ok res ∧
         at_ s (shardCommittee b') = srCommittees res).
Proof.
  intros [Hpop Hrand Hassigned Hsized Hplain Hknown].
  assert (∃ ress, Forall2 (produced b) (shards env) ress ∧
            mapErr (generateSwap env b) (shards env) = Ok (srInstruction <$> ress)) as (ress & Hress & Hgen).
  { clear Hplain Hknown Hpop. induction (shards env) as [|s ss IH]; [by exists []|].
    destruct IH as (ress & Hall & E); [intros; apply Hsized; by right|].
    destruct (rule_produces b s (Hsized s ltac:(by left))) as [res Hres]. exists (res :: ress).
    assert (generateSwap env b s = Ok (srInstruction res)) as Es by (unfold generateSwap; by rewrite (pr_rule _ _ _ Hres)).
    split; [by constructor|]. cbn [mapErr]. rewrite Es. cbn [mbind outcome_bind]. by rewrite E. }
  assert (∀ v', ∃ data, addData v' env b = Ok data) as Hdata.
  { intros v'. unfold addData, getAllSubstituteCommittees. rewrite sliceFrom_Ok, sliceTo_Ok by done. by eexists. }
  exists (produce ress). split.
  - unfold GenerateSwapShardInstructions. destruct (Hdata STAKING_FLOW_V2) as [data ->]. cbn [mbind outcome_bind].
    by rewrite Hgen.
  - intros Hinsts. unfold UpdateCommitteeState, snapshot. rewrite Hrand. destruct (Hdata v) as [data Ed].
    rewrite Ed. cbn [mbind outcome_bind]. apply addData_committees in Ed as (Ec & Es & En).
    assert (enumerated (numberOfValidator data)) as Hnum by (rewrite En; by apply populated_enumerated).
    destruct (swaps_accepted b data Ec Es Hnum (assigns_of_laws data Hnum) (shards env) ress (startRun env b))
      as (r' & E' & Hss & _); [done| | |intros s _; unfold unswapped; cbn; by rewrite Ec, Es|].
    + unfold shards. apply NoDup_fmap_2; [intros ???; lia|apply NoDup_seq].
    + apply Forall_forall. intros s Hs. split; [|auto]. unfold shards in Hs.
      apply list_elem_of_fmap in Hs as (i & -> & Hi%elem_of_seq). destruct Hpop as [Hact _]. lia.
    + rewrite Hinsts, E'. eexists _, _, _. split; [done|]. intros s Hs.
      apply list_elem_of_lookup in Hs as [i Hi].
      destruct (Forall2_lookup_l _ _ _ _ _ Hss Hi) as (res & Hr & Hc). exists res. split; [|done].
      destruct (Forall2_lookup_lr _ _ _ _ _ _ Hress Hi Hr). done.
Qed.
End Agreement.

#[local] Existing Instance Committees.keys.
#[local] Existing Instance Concrete.libraries.
#[local] Existing Instance Concrete.libraries_laws.
#[local] Existing Instance swapRuleV3.
#[local] Existing Instance AssignRuleV3.

Lemma Committees_plain l : forallb (λ k, negb (bool_decide (k = "")) && noComma k) l = true → Forall plainKey l.
Proof.
  intros Hl. apply Forall_forall. intros k Hk. eapply forallb_forall in Hl; [|by apply list_elem_of_In].
  apply andb_true_iff in Hl as [Hk1%negb_true_iff Hk2]. apply bool_decide_eq_false in Hk1.
  split_and!; [done|done|]. cbn. rewrite bool_decide_eq_false_2 by done. by eexists.
Qed.

Lemma Sample_known insts l : Forall (knownStaker (Sample.env_of insts)) l.
Proof.
  apply Forall_forall. intros k _. exists (Build_StakerInfo "0a" true). split; [done|]. eexists. vm_compute. reflexivity.
Qed.

Lemma produced_swaps_accepted_witness :
  let env := Sample.env_of [Sample.swap0] in
  ∃ insts, GenerateSwapShardInstructions env Sample.state = Ok insts ∧
    (SwapShardInstruction_ToString <$> insts) = [Sample.swap0] ∧
    ∃ b cc incurred, UpdateCommitteeState id STAKING_FLOW_V3 env Sample.state = Ok (b, cc, incurred) ∧
      ∀ s, s ∈ shards env → ∃ res,
        runSwapRule env s (at_ s (shardCommittee Sample.state)) (at_ s (shardSubstitute Sample.state)) = Ok res ∧
        at_ s (shardCommittee b) = srCommittees res.
Proof.
  intros env. assert (epochStart STAKING_FLOW_V3 env Sample.state) as Hstart.
  { assert (∀ s, s ∈ shards env → s = 0 ∨ s = 1) as Hs.
    { intros s Hs. vm_compute in Hs. apply elem_of_cons in Hs as [-> | Hs]; [by left|].
      apply list_elem_of_singleton in Hs. by right. }
    split; [split; [cbn; lia|vm_compute; reflexivity]|reflexivity|split; vm_compute; intros E; discriminate| | |].
    - intros s [-> | ->]%Hs; (split; [vm_compute; repeat split; intros E; discriminate|
        apply Committees_parsable; vm_compute; reflexivity]).
    - intros s [-> | ->]%Hs; apply Committees_plain; vm_compute; reflexivity.
    - intros s _. apply Sample_known. }
  destruct (produced_swaps_accepted (H := Committees.keys) id STAKING_FLOW_V3 env Sample.state Hstart) as (insts & E & Hrest).
  exists insts. split; [exact E|].
  assert ((SwapShardInstruction_ToString <$> insts) = [Sample.swap0]) as Hi.
  { assert (GenerateSwapShardInstructions env Sample.state = Ok insts) as E' by exact E.
    vm_compute in E'. injection E' as <-. reflexivity. }
  split; [exact Hi|]. apply Hrest. symmetry. exact Hi.
Defined.
