(* ===== verification/BridgeVault.v ===== *)
(** The vaults of the bridge aggregator
    ([dataaccessobject/statedb/stateobject_bridge_agg_vault.go] and the arithmetic of
    [blockchain/bridgeagg/utils.go]).  A unified token stands for several bridged tokens, each
    kept in a vault: the amount held, the part of it locked for unshield requests that wait,
    what those requests still lack, and the fees they left as a reward for whoever refills the
    vault. *)
From S2P Require Import Prelude Hash.
From Stdlib Require Import Ascii String.

Local Open Scope Z_scope.

(** The parameters of [config.Param().BridgeAggParam] the aggregator reads. *)
Class BridgeAggParam := {
  BaseDecimal : Z;
  PercentFeeDecimal : Z;
  DefaultPercentFeeWithDecimal : Z }.

(** What the arithmetic relies on: the decimals are unsigned and the denominator of the fee
    rate is not zero. *)
Class GoodBridgeAggParam `{!BridgeAggParam} : Prop := {
  good_BaseDecimal : 0 ≤ BaseDecimal;
  good_PercentFeeDecimal : 0 < PercentFeeDecimal }.

(** The values of [config/mainnet/param.yaml]. *)
Definition mainnetBridgeAggParam : BridgeAggParam :=
  {| BaseDecimal := 9; PercentFeeDecimal := 1000000; DefaultPercentFeeWithDecimal := 750 |}.

Lemma mainnet_good : @GoodBridgeAggParam mainnetBridgeAggParam.
Proof. split; cbn; lia. Qed.

(** *** [common/constants.go]: operators and networks *)
Definition SubOperator : Z := 0.
Definition AddOperator : Z := 1.

Definition ETHNetworkID : Z := 1.
Definition BSCNetworkID : Z := 2.
Definition PLGNetworkID : Z := 3.
Definition FTMNetworkID : Z := 4.
Definition AURORANetworkID : Z := 5.
Definition AVAXNetworkID : Z := 6.
Definition NEARNetworkID : Z := 7.
Definition EVMNetworkType : Z := 0.

Definition BSCPrefix : string := "BSC".
Definition PLGPrefix : string := "PLG".
Definition FTMPrefix : string := "FTM".
Definition AURORAPrefix : string := "AUR".
Definition AVAXPrefix : string := "AVX".
Definition NEARPrefix : string := "NER".
Definition UnifiedTokenPrefix : string := "UT".

Record BridgeAggVaultState := mkVault {
  amount : Z;
  lockedAmount : Z;
  waitingUnshieldAmount : Z;
  waitingUnshieldFee : Z;
  extDecimal : Z;
  networkID : Z;
  incTokenID : Hash }.

#[export] Instance BridgeAggVaultState_eq_dec : EqDecision BridgeAggVaultState.
Proof. solve_decision. Defined.

Definition NewVault (dec net : Z) (tokenID : Hash) : BridgeAggVaultState :=
  mkVault 0 0 0 0 dec net tokenID.

Definition SetAmount (x : Z) (v : BridgeAggVaultState) : BridgeAggVaultState :=
  mkVault x (lockedAmount v) (waitingUnshieldAmount v) (waitingUnshieldFee v)
    (extDecimal v) (networkID v) (incTokenID v).
Definition SetLockedAmount (x : Z) (v : BridgeAggVaultState) : BridgeAggVaultState :=
  mkVault (amount v) x (waitingUnshieldAmount v) (waitingUnshieldFee v)
    (extDecimal v) (networkID v) (incTokenID v).
Definition SetWaitingUnshieldAmount (x : Z) (v : BridgeAggVaultState) : BridgeAggVaultState :=
  mkVault (amount v) (lockedAmount v) x (waitingUnshieldFee v)
    (extDecimal v) (networkID v) (incTokenID v).
Definition SetWaitingUnshieldFee (x : Z) (v : BridgeAggVaultState) : BridgeAggVaultState :=
  mkVault (amount v) (lockedAmount v) (waitingUnshieldAmount v) x
    (extDecimal v) (networkID v) (incTokenID v).

(** The four counters are changed by the same checked addition or subtraction. *)
Definition updateCounter (cur x operator : Z) : outcome Z :=
  if operator =? SubOperator then
    let tmp := sub64 cur x in
    if cur <? tmp then Err "decrease vault counter out of range uint64" else Ok tmp
  else if operator =? AddOperator then
    let tmp := add64 cur x in
    if tmp <? cur then Err "increase vault counter out of range uint64" else Ok tmp
  else Err "invalid operator".

Definition updateField (get : BridgeAggVaultState → Z)
    (set : Z → BridgeAggVaultState → BridgeAggVaultState) (x operator : Z)
    : M BridgeAggVaultState unit :=
  b ← getS; tmp ← lift (updateCounter (get b) x operator); modifyS (set tmp).

Definition UpdateAmount : Z → Z → M BridgeAggVaultState unit := updateField amount SetAmount.
Definition UpdateLockedAmount : Z → Z → M BridgeAggVaultState unit :=
  updateField lockedAmount SetLockedAmount.
Definition UpdateWaitingUnshieldAmount : Z → Z → M BridgeAggVaultState unit :=
  updateField waitingUnshieldAmount SetWaitingUnshieldAmount.
Definition UpdateWaitingUnshieldFee : Z → Z → M BridgeAggVaultState unit :=
  updateField waitingUnshieldFee SetWaitingUnshieldFee.

(** [IsDiff] compares every field; the vault it is compared with may be nil. *)
Definition IsDiff (b : BridgeAggVaultState) (compareState : option BridgeAggVaultState)
    : outcome bool :=
  match compareState with
  | None => Err "compareState is nil"
  | Some c => Ok (negb (bool_decide (b = c)))
  end.

(** ** Networks *)
Definition getPrefixByNetworkID (net : Z) : outcome string :=
  if net =? ETHNetworkID then Ok ""%string
  else if net =? BSCNetworkID then Ok BSCPrefix
  else if net =? PLGNetworkID then Ok PLGPrefix
  else if net =? FTMNetworkID then Ok FTMPrefix
  else if net =? AURORANetworkID then Ok AURORAPrefix
  else if net =? AVAXNetworkID then Ok AVAXPrefix
  else Err "Invalid networkID".

Definition GetNetworkIDByPrefix (prefix : string) : outcome Z :=
  if bool_decide (prefix = ""%string) then Ok ETHNetworkID
  else if bool_decide (prefix = BSCPrefix) then Ok BSCNetworkID
  else if bool_decide (prefix = PLGPrefix) then Ok PLGNetworkID
  else if bool_decide (prefix = FTMPrefix) then Ok FTMNetworkID
  else if bool_decide (prefix = AURORAPrefix) then Ok AURORANetworkID
  else if bool_decide (prefix = AVAXPrefix) then Ok AVAXNetworkID
  else Err "Invalid prefix for networkID".

(** The type of a network; the callers drop the error and go on with the value [0], which is
    [EVMNetworkType]. *)
Definition GetNetworkTypeByNetworkID (net : Z) : Z * option string :=
  if (net =? ETHNetworkID) || (net =? BSCNetworkID) || (net =? PLGNetworkID)
     || (net =? FTMNetworkID) || (net =? AVAXNetworkID)
  then (EVMNetworkType, None)
  else if net =? AURORANetworkID then (AURORANetworkID, None)
  else (0, Some "Not found networkID"%string).

(** *** The metadata types of the burning confirmations *)
Definition getBurningConfirmMetaType (net : Z) (isDepositToSC : bool) : outcome Z :=
  if net =? ETHNetworkID then Ok (if isDepositToSC then 243 else 241)
  else if net =? BSCNetworkID then Ok (if isDepositToSC then 152 else 253)
  else if net =? PLGNetworkID then Ok (if isDepositToSC then 154 else 153)
  else if net =? FTMNetworkID then Ok (if isDepositToSC then 156 else 155)
  else if net =? AURORANetworkID then Ok (if isDepositToSC then 161 else 159)
  else if net =? AVAXNetworkID then Ok (if isDepositToSC then 162 else 160)
  else Err "Invalid networkID".

(** The zero address that stands for the native token of a network
    ([rCommon.HexToAddress(common.NativeToken)]) behind the prefix of the network. *)
Definition nativeTokenAddress : string := string_of_list_ascii (replicate 20 "000"%char).
Definition nativeTokenOf (prefix : string) : string := prefix +:+ nativeTokenAddress.

Section arithmetic.
Context `{!BridgeAggParam}.

(** ** Amounts *)
Definition ConvertAmountByDecimal (amt : Z) (decimal : Z) (isToUnifiedDecimal : bool)
    : outcome Z :=
  if isToUnifiedDecimal then
    res ← bigDiv (amt * 10 ^ BaseDecimal) (10 ^ decimal);
    if isU64 res then Ok res else Err "Out of range unit64"
  else bigDiv (amt * 10 ^ decimal) (10 ^ BaseDecimal).

Definition CalculateIncDecimal (decimal baseDecimal : Z) : Z :=
  if baseDecimal <? decimal then baseDecimal else decimal.

Definition convertPTokenAmtToPUnifiedTokenAmt (extDec amt : Z) : outcome Z :=
  let pDecimal := CalculateIncDecimal extDec BaseDecimal in
  tmpAmount ← ConvertAmountByDecimal amt pDecimal true;
  if tmpAmount =? 0 then Err "amount is not enough for converting"
  else if isU64 tmpAmount then Ok (bigUint64 tmpAmount) else Err "convert amount is invalid".

(** ** Fees *)
Definition CalUnshieldFeeByShortageBurnAmount (burnAmount percentFeeWithDec : Z) : outcome Z :=
  q ← bigDiv (percentFeeWithDec * burnAmount) (percentFeeWithDec + PercentFeeDecimal);
  let fee := bigUint64 q in
  let fee := if (fee =? 0) && negb (percentFeeWithDec =? 0) then 1 else fee in
  if burnAmount <? fee then Err "Needed fee larger than shortage amount" else Ok fee.

Definition CalUnshieldFeeByShortageReceivedAmount (receivedAmount percentFeeWithDec : Z)
    : outcome Z :=
  q ← bigDiv (receivedAmount * percentFeeWithDec) PercentFeeDecimal;
  let fee := bigUint64 q in
  Ok (if (fee =? 0) && negb (percentFeeWithDec =? 0) then 1 else fee).

Definition lookupAmt (m : gmap Hash Z) (k : Hash) : Z := default 0 (m !! k).

(** What of a burned amount the vault cannot serve, when a part of its amount is promised to
    earlier entries of the same request. *)
Definition burnShortage (v : BridgeAggVaultState) (locked burningAmt : Z) : Z :=
  if amount v <=? lockedAmount v then burningAmt
  else
    let remainAmt := sub64 (amount v) (lockedAmount v) in
    let remainAmt := if remainAmt <=? locked then 0 else sub64 remainAmt locked in
    if remainAmt <? burningAmt then sub64 burningAmt remainAmt else 0.

(** The fee of burning an amount; also the promise this entry adds to [lockedVaultAmts]. *)
Definition CalUnshieldFeeByBurnAmount (v : BridgeAggVaultState) (burningAmt percentFeeWithDec : Z)
    (lockedVaultAmts : gmap Hash Z) : outcome (bool * Z * gmap Hash Z) :=
  let locked := lookupAmt lockedVaultAmts (incTokenID v) in
  let shortageAmt := burnShortage v locked burningAmt in
  fee ← (if 0 <? shortageAmt
         then CalUnshieldFeeByShortageBurnAmount shortageAmt percentFeeWithDec
         else Ok 0);
  Ok (negb (0 <? shortageAmt), fee,
      <[incTokenID v := sub64 (add64 locked burningAmt) fee]> lockedVaultAmts).

Definition CalUnshieldFeeByReceivedAmount (v : BridgeAggVaultState)
    (receivedAmt percentFeeWithDec : Z) : outcome (bool * Z) :=
  let shortageAmt :=
    if amount v <=? lockedAmount v then receivedAmt
    else
      let remainAmt := sub64 (amount v) (lockedAmount v) in
      if remainAmt <? receivedAmt then sub64 receivedAmt remainAmt else 0 in
  fee ← (if 0 <? shortageAmt
         then CalUnshieldFeeByShortageReceivedAmount shortageAmt percentFeeWithDec
         else Ok 0);
  Ok (negb (0 <? shortageAmt), fee).

End arithmetic.

(** ** Refilling a vault *)
Definition CalRewardForRefillVault (v : BridgeAggVaultState) (shieldAmt : Z) : outcome Z :=
  if waitingUnshieldAmount v =? 0 then Ok 0
  else if waitingUnshieldAmount v <=? shieldAmt then Ok (waitingUnshieldFee v)
  else
    res ← bigDiv (shieldAmt * waitingUnshieldFee v) (waitingUnshieldAmount v);
    if isU64 res then Ok (bigUint64 res) else Err "Out of range uint64".

(** The refilled vault is a clone; after an error the caller keeps the vault it had. *)
Definition refillMethods (v : BridgeAggVaultState) (shieldAmt reward : Z)
    : M BridgeAggVaultState unit :=
  UpdateAmount shieldAmt AddOperator;;
  if 0 <? waitingUnshieldAmount v then
    (if waitingUnshieldAmount v <=? shieldAmt then
       modifyS (SetWaitingUnshieldAmount 0);;
       UpdateLockedAmount (waitingUnshieldAmount v) AddOperator
     else
       UpdateWaitingUnshieldAmount shieldAmt SubOperator;;
       UpdateLockedAmount shieldAmt AddOperator);;
    UpdateWaitingUnshieldFee reward SubOperator
  else mret tt.

Definition updateVaultForRefill (v : BridgeAggVaultState) (shieldAmt reward : Z)
    : outcome BridgeAggVaultState :=
  '(_, res) ← runM (refillMethods v shieldAmt reward) v; Ok res.

(** ** The invariant of a vault

    What waits for money has locked everything there is: as long as something is missing, the
    whole amount is locked. *)
Record wf_vault (v : BridgeAggVaultState) : Prop := {
  wv_amount : in_u64 (amount v);
  wv_locked : 0 ≤ lockedAmount v ≤ amount v;
  wv_waiting : in_u64 (waitingUnshieldAmount v);
  wv_fee : in_u64 (waitingUnshieldFee v);
  wv_short : 0 < waitingUnshieldAmount v → lockedAmount v = amount v;
  wv_decimal : 0 ≤ extDecimal v < 256 }.

(** What the vault owes to the requests that wait, and what of its amount backs unified tokens
    in circulation: the tokens of waiting requests are burned already, and a reward that was
    set aside will be minted again. *)
Definition promised (v : BridgeAggVaultState) : Z := lockedAmount v + waitingUnshieldAmount v.
Definition backing (v : BridgeAggVaultState) : Z := amount v - promised v - waitingUnshieldFee v.

(** Nothing but the counters of a vault ever changes. *)
Definition same_token (v v' : BridgeAggVaultState) : Prop :=
  extDecimal v' = extDecimal v ∧ networkID v' = networkID v ∧ incTokenID v' = incTokenID v.

Lemma same_token_refl v : same_token v v.
Proof. repeat split. Qed.

Lemma same_token_trans v1 v2 v3 : same_token v1 v2 → same_token v2 v3 → same_token v1 v3.
Proof. unfold same_token. intuition congruence. Qed.

#[export] Hint Resolve same_token_refl : go.

Lemma NewVault_wf dec net tok : 0 ≤ dec < 256 → wf_vault (NewVault dec net tok).
Proof. intros Hd. split; cbn; unfold in_u64; pose proof word64_pos; lia. Qed.

(** *** Checked updates *)
Lemma updateCounter_add cur x : in_u64 cur → in_u64 x →
  updateCounter cur x AddOperator =
  if cur + x <? word64 then Ok (cur + x)
  else Err "increase vault counter out of range uint64".
Proof.
  intros Hc Hx. unfold updateCounter. cbn.
  destruct (add64_wrap cur x Hc Hx) as [[-> ?]|[-> ?]]; unfold in_u64 in *.
  - rewrite (proj2 (Z.ltb_ge (cur + x) cur)), (proj2 (Z.ltb_lt (cur + x) word64)) by lia. done.
  - rewrite (proj2 (Z.ltb_lt (cur + x - word64) cur)), (proj2 (Z.ltb_ge (cur + x) word64)) by lia.
    done.
Qed.

Lemma updateCounter_sub cur x : in_u64 cur → in_u64 x →
  updateCounter cur x SubOperator =
  if x <=? cur then Ok (cur - x) else Err "decrease vault counter out of range uint64".
Proof.
  intros Hc Hx. unfold updateCounter. cbn.
  destruct (sub64_wrap cur x Hc Hx) as [[-> ?]|[-> ?]]; unfold in_u64 in *.
  - rewrite (proj2 (Z.ltb_ge cur (cur - x))), (proj2 (Z.leb_le x cur)) by lia. done.
  - rewrite (proj2 (Z.ltb_lt cur (cur - x + word64))), (proj2 (Z.leb_gt x cur)) by lia. done.
Qed.

Lemma updateField_run get set x op v :
  updateField get set x op v =
  match updateCounter (get v) x op with
  | Ok n => (Ok tt, set n v)
  | Err e => (Err e, v)
  | Panic => (Panic, v)
  | OutOfFuel => (OutOfFuel, v)
  end.
Proof. unfold updateField, mbind, M_bind, getS, lift, modifyS. by destruct updateCounter. Qed.

Lemma updateField_Ok get set x op v u v' :
  updateField get set x op v = (Ok u, v') →
  ∃ n, updateCounter (get v) x op = Ok n ∧ v' = set n v.
Proof. rewrite updateField_run. destruct updateCounter; intros [= <-]; eauto. Qed.

Lemma updateCounter_add_Ok cur x n : in_u64 cur → in_u64 x →
  updateCounter cur x AddOperator = Ok n → n = cur + x ∧ in_u64 n.
Proof.
  intros Hc Hx. rewrite updateCounter_add by done. destruct (Z.ltb_spec (cur + x) word64); [|done].
  intros [= <-]. unfold in_u64 in *. lia.
Qed.

Lemma updateCounter_sub_Ok cur x n : in_u64 cur → in_u64 x →
  updateCounter cur x SubOperator = Ok n → n = cur - x ∧ x ≤ cur.
Proof.
  intros Hc Hx. rewrite updateCounter_sub by done. destruct (Z.leb_spec x cur); [|done].
  intros [= <-]. lia.
Qed.

(** *** The reward of a refill never exceeds the fees that were left *)
Lemma CalReward_bound v s : wf_vault v → in_u64 s →
  ∃ r, CalRewardForRefillVault v s = Ok r ∧ 0 ≤ r ≤ waitingUnshieldFee v.
Proof.
  intros [HA HL HW HF _ Hdec] Hs. unfold CalRewardForRefillVault, in_u64 in *.
  destruct (Z.eqb_spec (waitingUnshieldAmount v) 0); [exists 0; split; [done|lia]|].
  destruct (Z.leb_spec (waitingUnshieldAmount v) s); [eexists; split; [done|lia]|].
  rewrite bigDiv_pos by lia. cbn.
  assert (0 ≤ s * waitingUnshieldFee v / waitingUnshieldAmount v ≤ waitingUnshieldFee v) as Hr.
  { split; [apply Z.div_pos; nia|apply Z.div_le_upper_bound; nia]. }
  rewrite (proj2 (in_u64_iff _)) by (unfold in_u64; lia).
  rewrite bigUint64_small by (unfold in_u64; lia). eauto.
Qed.

(** A refill pays the whole fee exactly when it covers all that is missing. *)
Lemma CalReward_full v s : 0 < waitingUnshieldAmount v ≤ s →
  CalRewardForRefillVault v s = Ok (waitingUnshieldFee v).
Proof.
  intros Hs. unfold CalRewardForRefillVault.
  destruct (Z.eqb_spec (waitingUnshieldAmount v) 0); [lia|].
  by destruct (Z.leb_spec (waitingUnshieldAmount v) s); [|lia].
Qed.

(** What a refill with a reward within the fees does to a vault. *)
Record refilled (v v' : BridgeAggVaultState) (s r : Z) : Prop := {
  rf_amount : amount v' = amount v + s;
  rf_promised : promised v' = promised v;
  rf_waiting : waitingUnshieldAmount v' = Z.max 0 (waitingUnshieldAmount v - s);
  rf_fee : waitingUnshieldFee v' = if 0 <? waitingUnshieldAmount v then waitingUnshieldFee v - r
                                   else waitingUnshieldFee v;
  rf_token : same_token v v' }.

Lemma refill_spec v s r : wf_vault v → in_u64 s → 0 ≤ r ≤ waitingUnshieldFee v →
  amount v + s < word64 →
  ∃ v', updateVaultForRefill v s r = Ok v' ∧ wf_vault v' ∧ refilled v v' s r.
Proof.
  intros [HA HL HW HF Hsh Hdec] Hs Hr Hov. unfold updateVaultForRefill, refillMethods, runM.
  unfold UpdateAmount, UpdateLockedAmount, UpdateWaitingUnshieldAmount, UpdateWaitingUnshieldFee.
  unfold in_u64 in *.
  unfold mbind at 2, M_bind. rewrite updateField_run, updateCounter_add by (unfold in_u64; lia).
  rewrite (proj2 (Z.ltb_lt (amount v + s) word64)) by lia.
  destruct (Z.ltb_spec 0 (waitingUnshieldAmount v)).
  2: { eexists; split; [reflexivity|]. split.
    - split; cbn; unfold in_u64; lia.
    - split; cbn; unfold promised; cbn; rewrite ?(proj2 (Z.ltb_ge 0 (waitingUnshieldAmount v))) by lia;
        first [lia|by repeat split]. }
  specialize (Hsh ltac:(lia)).
  destruct (Z.leb_spec (waitingUnshieldAmount v) s).
  - unfold mbind, M_bind, modifyS. rewrite updateField_run. cbn [lockedAmount SetAmount SetWaitingUnshieldAmount].
    rewrite updateCounter_add by (unfold in_u64; lia).
    rewrite (proj2 (Z.ltb_lt (lockedAmount v + waitingUnshieldAmount v) word64)) by lia.
    rewrite updateField_run. cbn [waitingUnshieldFee SetAmount SetWaitingUnshieldAmount SetLockedAmount].
    rewrite updateCounter_sub by (unfold in_u64; lia).
    rewrite (proj2 (Z.leb_le r (waitingUnshieldFee v))) by lia.
    eexists; split; [reflexivity|]. split.
    + split; cbn; unfold in_u64; lia.
    + split; cbn; unfold promised; cbn; rewrite ?(proj2 (Z.ltb_lt 0 (waitingUnshieldAmount v))) by lia;
        first [lia|by repeat split].
  - unfold mbind, M_bind. rewrite updateField_run. cbn [waitingUnshieldAmount SetAmount].
    rewrite updateCounter_sub by (unfold in_u64; lia).
    rewrite (proj2 (Z.leb_le s (waitingUnshieldAmount v))) by lia.
    rewrite updateField_run. cbn [lockedAmount SetAmount SetWaitingUnshieldAmount].
    rewrite updateCounter_add by (unfold in_u64; lia).
    rewrite (proj2 (Z.ltb_lt (lockedAmount v + s) word64)) by lia.
    rewrite updateField_run. cbn [waitingUnshieldFee SetAmount SetWaitingUnshieldAmount SetLockedAmount].
    rewrite updateCounter_sub by (unfold in_u64; lia).
    rewrite (proj2 (Z.leb_le r (waitingUnshieldFee v))) by lia.
    eexists; split; [reflexivity|]. split.
    + split; cbn; unfold in_u64; lia.
    + split; cbn; unfold promised; cbn; rewrite ?(proj2 (Z.ltb_lt 0 (waitingUnshieldAmount v))) by lia;
        first [lia|by repeat split].
Qed.

(** The only way a refill fails is that the amount of the vault would not fit its word. *)
Lemma refill_overflow v s r : wf_vault v → in_u64 s → word64 ≤ amount v + s →
  updateVaultForRefill v s r = Err "increase vault counter out of range uint64".
Proof.
  intros [HA _ _ _ _ _] Hs Hov. unfold updateVaultForRefill, refillMethods, runM.
  unfold UpdateAmount. unfold mbind at 2, M_bind.
  rewrite updateField_run, updateCounter_add by done.
  by rewrite (proj2 (Z.ltb_ge (amount v + s) word64)).
Qed.

Lemma refill_Ok v s r v' : wf_vault v → in_u64 s → 0 ≤ r ≤ waitingUnshieldFee v →
  updateVaultForRefill v s r = Ok v' →
  wf_vault v' ∧ refilled v v' s r ∧ amount v + s < word64.
Proof.
  intros Hv Hs Hr HOk. destruct (Z.lt_ge_cases (amount v + s) word64) as [Hlt|Hge].
  - destruct (refill_spec v s r Hv Hs Hr Hlt) as (v2 & E & ? & ?).
    rewrite HOk in E. injection E as <-. done.
  - by rewrite (refill_overflow v s r Hv Hs Hge) in HOk.
Qed.

(** With the reward the producer computes, a refill mints what it adds to the backing. *)
Lemma refill_backing v s r v' : wf_vault v → in_u64 s →
  CalRewardForRefillVault v s = Ok r → updateVaultForRefill v s r = Ok v' →
  wf_vault v' ∧ backing v' = backing v + s + r ∧ promised v' = promised v ∧ same_token v v'.
Proof.
  intros Hv Hs Hr Hu. destruct (CalReward_bound v s Hv Hs) as (r' & E & Hb).
  rewrite Hr in E. injection E as <-.
  destruct (refill_Ok v s r v' Hv Hs Hb Hu) as (Hv' & [HA HP HW HF HT] & _).
  split; [done|]. split; [|done]. unfold backing. rewrite HA, HP, HF.
  destruct (Z.ltb_spec 0 (waitingUnshieldAmount v)); [lia|].
  destruct Hv as [_ _ HWv _ _ _]. unfold in_u64 in HWv.
  unfold CalRewardForRefillVault in Hr.
  rewrite (proj2 (Z.eqb_eq (waitingUnshieldAmount v) 0)) in Hr by lia.
  injection Hr as <-. lia.
Qed.

(** *** The fee of an unshield never exceeds the shortage it is charged for *)
Section fees.
Context `{!BridgeAggParam, !GoodBridgeAggParam}.

Lemma shortage_fee burn percent : 0 < burn < word64 → in_u64 percent →
  ∃ fee, CalUnshieldFeeByShortageBurnAmount burn percent = Ok fee ∧ 0 ≤ fee ≤ burn.
Proof.
  intros Hb Hp. unfold CalUnshieldFeeByShortageBurnAmount, in_u64 in *.
  pose proof good_PercentFeeDecimal. rewrite bigDiv_pos by lia. cbn.
  assert (0 ≤ percent * burn / (percent + PercentFeeDecimal) ≤ burn) as Hq.
  { split; [apply Z.div_pos; nia|apply Z.div_le_upper_bound; nia]. }
  rewrite bigUint64_small by (unfold in_u64; lia).
  set (q := percent * burn / (percent + PercentFeeDecimal)) in *.
  destruct (Z.eqb_spec q 0); cbn.
  - destruct (Z.eqb_spec percent 0); cbn.
    + destruct (Z.ltb_spec burn q); [lia|]. eauto.
    + destruct (Z.ltb_spec burn 1); [lia|]. eexists; split; [done|lia].
  - destruct (Z.ltb_spec burn q); [lia|]. eauto.
Qed.

(** What the fee is charged on: the entry of a request that finds [avail] free. *)
Definition free (v : BridgeAggVaultState) (locked : gmap Hash Z) : Z :=
  Z.max 0 (amount v - lockedAmount v - lookupAmt locked (incTokenID v)).

Lemma burnShortage_eq v burn locked : wf_vault v → 0 < burn < word64 →
  0 ≤ lookupAmt locked (incTokenID v) →
  burnShortage v (lookupAmt locked (incTokenID v)) burn = Z.max 0 (burn - free v locked).
Proof.
  intros [HA HL _ _ _ Hdec] Hb Hl0. unfold burnShortage, free, in_u64 in *.
  set (l := lookupAmt locked (incTokenID v)) in *.
  destruct (Z.leb_spec (amount v) (lockedAmount v)); [lia|]. cbv zeta.
  rewrite (sub64_exact (amount v)) by (unfold in_u64; lia).
  destruct (Z.leb_spec (amount v - lockedAmount v) l).
  - destruct (Z.ltb_spec 0 burn); [|lia]. rewrite sub64_exact by (unfold in_u64; lia). lia.
  - rewrite sub64_exact by (unfold in_u64; lia).
    destruct (Z.ltb_spec (amount v - lockedAmount v - l) burn); [|lia].
    rewrite sub64_exact by (unfold in_u64; lia). lia.
Qed.

Lemma burn_fee v burn percent locked :
  wf_vault v → 0 < burn < word64 → in_u64 percent →
  0 ≤ lookupAmt locked (incTokenID v) → lookupAmt locked (incTokenID v) + burn < word64 →
  ∃ fee, CalUnshieldFeeByBurnAmount v burn percent locked =
    Ok (burn <=? free v locked, fee,
        <[incTokenID v := lookupAmt locked (incTokenID v) + burn - fee]> locked) ∧
    0 ≤ fee ≤ Z.max 0 (burn - free v locked) ∧ (burn ≤ free v locked → fee = 0).
Proof.
  intros Hv Hb Hp Hl0 Hl. unfold CalUnshieldFeeByBurnAmount. cbv zeta.
  rewrite (burnShortage_eq v burn locked Hv Hb Hl0) by done.
  set (l := lookupAmt locked (incTokenID v)) in *.
  set (sh := Z.max 0 (burn - free v locked)).
  assert (0 ≤ free v locked) by (unfold free; lia).
  destruct (Z.ltb_spec 0 sh).
  - destruct (shortage_fee sh percent ltac:(lia) Hp) as (fee & -> & Hf). cbn.
    exists fee. split; [|split; lia].
    rewrite (proj2 (Z.leb_gt burn (free v locked))) by lia. do 3 f_equal.
    unfold add64. rewrite (u64_small (l + burn)) by (unfold in_u64; lia).
    apply sub64_exact; unfold in_u64; lia.
  - cbn. exists 0. split; [|split; lia].
    rewrite (proj2 (Z.leb_le burn (free v locked))) by lia. do 3 f_equal.
    unfold add64. rewrite (u64_small (l + burn)) by (unfold in_u64; lia).
    apply sub64_exact; unfold in_u64; lia.
Qed.
End fees.

(** *** Converting between decimals never creates value *)
Section decimals.
Context `{!BridgeAggParam, !GoodBridgeAggParam}.

Lemma pow10_pos d : 0 ≤ d → 0 < 10 ^ d.
Proof. intros. apply Z.pow_pos_nonneg; lia. Qed.

Lemma Convert_to x d y : 0 ≤ d → ConvertAmountByDecimal x d true = Ok y →
  y = x * 10 ^ BaseDecimal / 10 ^ d ∧ in_u64 y.
Proof.
  intros Hd. unfold ConvertAmountByDecimal. pose proof (pow10_pos d Hd).
  rewrite bigDiv_pos by done. cbn.
  destruct (isU64 _) eqn:E; [|done]. intros [= <-]. by apply in_u64_iff in E.
Qed.

Lemma Convert_from y d : 
  ConvertAmountByDecimal y d false = Ok (y * 10 ^ d / 10 ^ BaseDecimal).
Proof. apply bigDiv_pos, pow10_pos, good_BaseDecimal. Qed.

(** What was brought in and is taken out again is never more, and nothing is lost when the
    external token has no more decimals than the unified one. *)
Lemma Convert_back x d y : 0 ≤ d → 0 ≤ x → ConvertAmountByDecimal x d true = Ok y →
  ∃ z, ConvertAmountByDecimal y d false = Ok z ∧ z ≤ x ∧ (d ≤ BaseDecimal → z = x).
Proof.
  intros Hd Hx (-> & _)%Convert_to; [|done]. rewrite Convert_from. eexists. split; [done|].
  pose proof good_BaseDecimal as HB. pose proof (pow10_pos d Hd). pose proof (pow10_pos _ HB). split.
  - apply Z.div_le_upper_bound; [lia|].
    pose proof (Z.mul_div_le (x * 10 ^ BaseDecimal) (10 ^ d) ltac:(lia)).
    rewrite (Z.mul_comm _ (10 ^ d)), (Z.mul_comm _ x). done.
  - intros Hle. replace (10 ^ BaseDecimal) with (10 ^ (BaseDecimal - d) * 10 ^ d).
    2: { rewrite <- Z.pow_add_r by lia. f_equal. lia. }
    rewrite Z.mul_assoc, Z.div_mul by lia.
    assert (0 ≤ BaseDecimal - d) as HBd by lia. pose proof (pow10_pos _ HBd).
    rewrite <- Z.mul_assoc. apply Z.div_mul. nia.
Qed.

Lemma convertPToken_pos dec amt x : 0 ≤ dec → 0 ≤ amt →
  convertPTokenAmtToPUnifiedTokenAmt dec amt = Ok x → 0 < x < word64.
Proof.
  intros Hd Ha. unfold convertPTokenAmtToPUnifiedTokenAmt.
  intros (y & Hy & HOk)%outcome_bind_Ok.
  pose proof good_BaseDecimal. apply Convert_to in Hy as [Ey Hy].
  2: { unfold CalculateIncDecimal. destruct (Z.ltb_spec BaseDecimal dec); lia. }
  destruct (Z.eqb_spec y 0); [done|]. rewrite (proj2 (in_u64_iff y)) in HOk by done.
  injection HOk as <-. rewrite bigUint64_small by done. unfold in_u64 in Hy. lia.
Qed.

(** The decimals of a vault are those of the token: converting a [pToken], which has at most
    [BaseDecimal] decimals, never loses anything. *)
Lemma convertPToken_exact dec amt x : 0 ≤ dec →
  convertPTokenAmtToPUnifiedTokenAmt dec amt = Ok x →
  x = amt * 10 ^ (BaseDecimal - Z.min dec BaseDecimal).
Proof.
  intros Hd. unfold convertPTokenAmtToPUnifiedTokenAmt, CalculateIncDecimal.
  pose proof good_BaseDecimal. intros (y & Hy & HOk)%outcome_bind_Ok.
  replace (if BaseDecimal <? dec then BaseDecimal else dec) with (Z.min dec BaseDecimal) in Hy
    by (destruct (Z.ltb_spec BaseDecimal dec); lia).
  apply Convert_to in Hy as [-> Hy]; [|lia].
  destruct (Z.eqb_spec (amt * 10 ^ BaseDecimal / 10 ^ Z.min dec BaseDecimal) 0); [done|].
  rewrite (proj2 (in_u64_iff _)) in HOk by done. injection HOk as <-.
  rewrite bigUint64_small by done.
  replace (10 ^ BaseDecimal)
    with (10 ^ (BaseDecimal - Z.min dec BaseDecimal) * 10 ^ Z.min dec BaseDecimal).
  2: { rewrite <- Z.pow_add_r by lia. f_equal. lia. }
  rewrite Z.mul_assoc. apply Z.div_mul.
  assert (0 ≤ Z.min dec BaseDecimal) as Hm by lia. pose proof (pow10_pos _ Hm). lia.
Qed.
End decimals.

(** *** Networks and prefixes name each other *)
Lemma network_prefix net p : getPrefixByNetworkID net = Ok p → GetNetworkIDByPrefix p = Ok net.
Proof.
  unfold getPrefixByNetworkID.
  repeat match goal with
    | |- context [net =? ?n] => destruct (Z.eqb_spec net n) as [->|_]; [intros [= <-]; reflexivity|]
    end. intros [=].
Qed.

Lemma prefix_network p net : GetNetworkIDByPrefix p = Ok net → getPrefixByNetworkID net = Ok p.
Proof.
  unfold GetNetworkIDByPrefix.
  repeat (case_bool_decide; [subst; intros [= <-]; reflexivity|]). intros [=].
Qed.
