(* ===== verification/BridgeDB.v ===== *)
(** What the bridge aggregator reads and writes besides its own state: the values a block under
    construction accumulates ([metadata/common/accumulatedvalues.go]) and the bridge records of
    the state database ([dataaccessobject/statedb/accessor_bridge.go]): the bridged tokens with
    their amounts and the external transactions that were issued already. *)
From S2P Require Import Prelude Hash BridgeVault.
From Stdlib Require Import String.

Local Open Scope Z_scope.

(** ** Accumulated values of a block

    The tokens are kept in slices of pointers, which [Clone] fills with nil entries: the model
    keeps them as options. *)
Record AccumulatedValues := mkAC {
  UniqETHTxsUsed : list string;
  UniqBSCTxsUsed : list string;
  UniqPRVEVMTxsUsed : list string;
  UniqPLGTxsUsed : list string;
  UniqFTMTxsUsed : list string;
  UniqNEARTxsUsed : list string;
  UniqAURORATxsUsed : list string;
  UniqAVAXTxsUsed : list string;
  DBridgeTokenPair : gmap Hash string;
  CBridgeTokens : list (option Hash);
  InitTokens : list (option Hash) }.

Definition emptyAC : AccumulatedValues := mkAC [] [] [] [] [] [] [] [] ∅ [] [].

(** The list of a network. *)
Definition uniqTxsOf (net : Z) (ac : AccumulatedValues) : list string :=
  if net =? ETHNetworkID then UniqETHTxsUsed ac
  else if net =? BSCNetworkID then UniqBSCTxsUsed ac
  else if net =? PLGNetworkID then UniqPLGTxsUsed ac
  else if net =? FTMNetworkID then UniqFTMTxsUsed ac
  else if net =? AURORANetworkID then UniqAURORATxsUsed ac
  else if net =? AVAXNetworkID then UniqAVAXTxsUsed ac
  else if net =? NEARNetworkID then UniqNEARTxsUsed ac
  else [].

Definition UpdateUniqTxsUsed (net : Z) (l : list string) : M AccumulatedValues unit :=
  let put f := modifyS f in
  if net =? ETHNetworkID then put (λ '(mkAC _ b c d e f g h p q r), mkAC l b c d e f g h p q r)
  else if net =? BSCNetworkID then put (λ '(mkAC a _ c d e f g h p q r), mkAC a l c d e f g h p q r)
  else if net =? PLGNetworkID then put (λ '(mkAC a b c _ e f g h p q r), mkAC a b c l e f g h p q r)
  else if net =? FTMNetworkID then put (λ '(mkAC a b c d _ f g h p q r), mkAC a b c d l f g h p q r)
  else if net =? AURORANetworkID then
    put (λ '(mkAC a b c d e f _ h p q r), mkAC a b c d e f l h p q r)
  else if net =? AVAXNetworkID then put (λ '(mkAC a b c d e f g _ p q r), mkAC a b c d e f g l p q r)
  else if net =? NEARNetworkID then put (λ '(mkAC a b c d e _ g h p q r), mkAC a b c d e l g h p q r)
  else fail "Invalid networkID".

Definition setDBridgeTokenPair (k : Hash) (ext : string) (ac : AccumulatedValues)
    : AccumulatedValues :=
  let '(mkAC a b c d e f g h p q r) := ac in mkAC a b c d e f g h (<[k:=ext]> p) q r.

(** Copying a slice of pointers: the copies are appended behind as many nil pointers; a nil
    entry of the original is dereferenced. *)
Definition cloneTokens (l : list (option Hash)) : outcome (list (option Hash)) :=
  if forallb (λ o, bool_decide (is_Some o)) l
  then Ok (replicate (List.length l) None ++ l) else Panic.

(** [AccumulatedValues.Clone]: the lists of the networks NEAR, AURORA and AVAX are not among
    the fields it copies. *)
Definition AC_Clone (ac : AccumulatedValues) : outcome AccumulatedValues :=
  c ← cloneTokens (CBridgeTokens ac);
  i ← cloneTokens (InitTokens ac);
  Ok (mkAC (UniqETHTxsUsed ac) (UniqBSCTxsUsed ac) (UniqPRVEVMTxsUsed ac) (UniqPLGTxsUsed ac)
        (UniqFTMTxsUsed ac) [] [] [] (DBridgeTokenPair ac) c i).

(** The loop over the centralized tokens stops at a match and panics at a nil entry. *)
Fixpoint hasToken (tok : Hash) (l : list (option Hash)) : outcome bool :=
  match l with
  | [] => Ok false
  | None :: _ => Panic
  | Some t :: l => if decide (t = tok) then Ok true else hasToken tok l
  end.

Definition AC_CanProcessTokenPair (ac : AccumulatedValues) (externalTokenID : string)
    (incToken : Hash) : outcome bool :=
  found ← hasToken incToken (CBridgeTokens ac);
  if (found : bool) then Ok false
  else match DBridgeTokenPair ac !! incToken with
       | Some ext => Ok (bool_decide (ext = externalTokenID))
       | None => Ok (negb (bool_decide (externalTokenID ∈ (map_to_list (DBridgeTokenPair ac)).*2)))
       end.

Definition CanProcessCIncToken (ac : AccumulatedValues) (incToken : Hash) : bool :=
  negb (bool_decide (is_Some (DBridgeTokenPair ac !! incToken))).

Definition CanProcessTokenInit (ac : AccumulatedValues) (pTokenID : Hash) : outcome bool :=
  if bool_decide (is_Some (DBridgeTokenPair ac !! pTokenID)) then Ok false
  else c ← hasToken pTokenID (CBridgeTokens ac);
       if (c : bool) then Ok false
       else i ← hasToken pTokenID (InitTokens ac); Ok (negb i).

(** ** Bridge records of the state database *)
Record BridgeTokenInfo := mkBridgeTokenInfo {
  ti_externalTokenID : string;
  ti_amount : Z }.

(** The records are stored under a hash of the token and the kind; the model keys them by both. *)
Record BridgeDB := mkBridgeDB {
  tokenInfos : gmap (bool * Hash) BridgeTokenInfo;
  txHashIssued : gset (Z * string) }.

Definition IsBridgeTokenExistedByType (db : BridgeDB) (tok : Hash) (isCentralized : bool) : bool :=
  bool_decide (is_Some (tokenInfos db !! (isCentralized, tok))).

(** The external identifiers of all tokens of one kind. *)
Definition externalTokenIDs (db : BridgeDB) (isCentralized : bool) : list string :=
  (λ kt, ti_externalTokenID kt.2) <$>
    filter (λ kt, kt.1.1 = isCentralized) (map_to_list (tokenInfos db)).

Definition DB_CanProcessTokenPair (db : BridgeDB) (externalTokenID : string) (tok : Hash)
    (privacyTokenExisted : bool) : bool :=
  if bool_decide (externalTokenID = ""%string) || bool_decide (tok = ""%string) then false
  else if IsBridgeTokenExistedByType db tok true then false
  else if negb (IsBridgeTokenExistedByType db tok false) && privacyTokenExisted then false
  else match tokenInfos db !! (false, tok) with
       | Some t => bool_decide (ti_externalTokenID t = externalTokenID)
       | None => negb (bool_decide (externalTokenID ∈ externalTokenIDs db false))
       end.

Definition BridgePlusOperator : string := "+".
Definition BridgeMinusOperator : string := "-".

(** A missing record is created, with the amount [0] when the amount should shrink; an
    existing amount never falls below [0], and every operator but ["+"] shrinks it. *)
Definition UpdateBridgeTokenInfo (tok : Hash) (ext : string) (isCentralized : bool)
    (updatingAmount : Z) (updateType : string) (db : BridgeDB) : BridgeDB :=
  let t :=
    match tokenInfos db !! (isCentralized, tok) with
    | None =>
        mkBridgeTokenInfo ext
          (if bool_decide (updateType = BridgeMinusOperator) then 0 else updatingAmount)
    | Some t =>
        mkBridgeTokenInfo (ti_externalTokenID t)
          (if bool_decide (updateType = BridgePlusOperator) then add64 (ti_amount t) updatingAmount
           else if ti_amount t <=? updatingAmount then 0
           else sub64 (ti_amount t) updatingAmount)
    end in
  mkBridgeDB (<[(isCentralized, tok) := t]> (tokenInfos db)) (txHashIssued db).

Definition insertTxHashIssued (net : Z) (uniqTx : string) (db : BridgeDB) : BridgeDB :=
  mkBridgeDB (tokenInfos db) ({[(net, uniqTx)]} ∪ txHashIssued db).

(** The issuing records of the networks the aggregator serves; for another network the table of
    functions has no entry. *)
Definition isAggNetwork (net : Z) : bool :=
  (net =? PLGNetworkID) || (net =? BSCNetworkID) || (net =? ETHNetworkID)
  || (net =? FTMNetworkID) || (net =? AURORANetworkID) || (net =? AVAXNetworkID).

Definition GetInsertTxHashIssuedFuncByNetworkID (net : Z)
    : option (string → BridgeDB → BridgeDB) :=
  if isAggNetwork net then Some (insertTxHashIssued net) else None.

(** ** The checks of [metadata/bridge/utils.go] *)

(** [findExternalTokenID] reads the list of centralized tokens, then the decentralized ones. *)
Definition nonEmptyExt (o : option BridgeTokenInfo) : option string :=
  match o with
  | Some t => if bool_decide (ti_externalTokenID t = ""%string) then None
              else Some (ti_externalTokenID t)
  | None => None
  end.

Definition findExternalTokenID (db : BridgeDB) (tok : Hash) : outcome string :=
  match nonEmptyExt (tokenInfos db !! (true, tok)) with
  | Some ext => Ok ext
  | None =>
      match nonEmptyExt (tokenInfos db !! (false, tok)) with
      | Some ext => Ok ext
      | None => Err "invalid tokenID"
      end
  end.

Definition ExternalBridgeTokenLength : nat := 20.

Definition FindExternalTokenID (db : BridgeDB) (tok : Hash) (prefix : string) : outcome string :=
  ext ← findExternalTokenID db tok;
  if bool_decide (prefix = NEARPrefix) then Ok ext
  else if (String.length ext <? ExternalBridgeTokenLength)%nat then Err "invalid external token id"
  else
    let prefixLen := String.length prefix in
    if ((0 <? prefixLen)%nat
        && negb (bool_decide (prefix = String.substring 0 prefixLen ext)))
       || negb (String.length ext =? ExternalBridgeTokenLength + prefixLen)%nat
    then Err "invalid prefix in external tokenID"
    else Ok ext.

Definition TrimNetworkPrefix (fullTokenID prefix : string) : outcome string :=
  let n := String.length prefix in
  if negb (bool_decide (String.substring 0 n fullTokenID = prefix))
  then Err "invalid prefix in external tokenID"
  else
    let result := String.substring n (String.length fullTokenID - n) fullTokenID in
    if negb (String.length result =? ExternalBridgeTokenLength)%nat
    then Err "invalid length for un-prefixed external address"
    else Ok result.

(** Whether a token identifier is taken in some shard: the token records of the shards are not
    part of this model. *)
Class TokenRegistry := CheckTokenIDExisted : Hash → bool.

Definition VerifyTokenPair `{!TokenRegistry} (db : BridgeDB) (ac : AccumulatedValues) (tok : Hash)
    (ext : string) : outcome unit :=
  canProcess ← AC_CanProcessTokenPair ac ext tok;
  if negb canProcess then Err "pair is invalid in current block"
  else if negb (DB_CanProcessTokenPair db ext tok (CheckTokenIDExisted tok))
  then Err "pair is invalid with previous blocks"
  else Ok tt.

(** ** Lemmas *)

(** A clone starts with as many nil entries as the original has tokens: the second clone of a
    block in which a centralized token was issued panics, and so does a token pair check. *)
Lemma AC_Clone_twice ac ac' : CBridgeTokens ac ≠ [] → AC_Clone ac = Ok ac' →
  AC_Clone ac' = Panic ∧ ∀ ext tok, AC_CanProcessTokenPair ac' ext tok = Panic.
Proof.
  intros Hne. unfold AC_Clone. intros (c & Hc & (i & Hi & [= <-])%outcome_bind_Ok)%outcome_bind_Ok.
  unfold cloneTokens in Hc. destruct (forallb _ _); [|done]. injection Hc as <-.
  unfold AC_CanProcessTokenPair. cbn.
  destruct (CBridgeTokens ac) as [|o l]; [done|]. done.
Qed.

Lemma AC_Clone_ok ac : CBridgeTokens ac = [] → InitTokens ac = [] →
  AC_Clone ac = Ok (mkAC (UniqETHTxsUsed ac) (UniqBSCTxsUsed ac) (UniqPRVEVMTxsUsed ac)
    (UniqPLGTxsUsed ac) (UniqFTMTxsUsed ac) [] [] [] (DBridgeTokenPair ac) [] []).
Proof. unfold AC_Clone. by intros -> ->. Qed.

(** The networks whose list survives the clone. *)
Definition clonedNetwork (net : Z) : bool :=
  (net =? ETHNetworkID) || (net =? BSCNetworkID) || (net =? PLGNetworkID) || (net =? FTMNetworkID).

Lemma AC_Clone_uniq net ac ac' : clonedNetwork net = true → AC_Clone ac = Ok ac' →
  uniqTxsOf net ac' = uniqTxsOf net ac.
Proof.
  intros Hn. unfold AC_Clone. intros (c & _ & (i & _ & [= <-])%outcome_bind_Ok)%outcome_bind_Ok.
  unfold clonedNetwork in Hn. unfold uniqTxsOf. cbn.
  repeat (destruct (net =? _); [done|]). done.
Qed.

Lemma UpdateUniq_spec net net' l ac : isAggNetwork net = true →
  ∃ ac', UpdateUniqTxsUsed net l ac = (Ok tt, ac') ∧
    uniqTxsOf net ac' = l ∧ (net' ≠ net → uniqTxsOf net' ac' = uniqTxsOf net' ac).
Proof.
  destruct ac as [a b c d e f g h p q r]. unfold isAggNetwork. intros Hn.
  rewrite !orb_true_iff, !Z.eqb_eq in Hn.
  destruct Hn as [[[[[->| ->]| ->]| ->]| ->]| ->];
    (eexists; split; [reflexivity|]; split; [reflexivity|]); intros Hne; unfold uniqTxsOf;
    repeat match goal with
      | |- context [net' =? ?n] => destruct (Z.eqb_spec net' n) as [->|_]; [done|]
      end; done.
Qed.
