(* ===== verification/BridgeState.v ===== *)
(** The state of the bridge aggregator and the instructions it writes
    ([blockchain/bridgeagg/state.go], the state updates of [utils.go],
    [dataaccessobject/statedb/stateobject_bridge_agg_waitunshieldreq.go] and the request and
    instruction types of [metadata/bridge]). *)
From S2P Require Import Prelude Hash BridgeVault.
From Stdlib Require Import String.

Local Open Scope Z_scope.

(** *** Requests to leave the network that wait for money *)
Record WaitingUnshieldReqData := mkWaitingData {
  wd_IncTokenID : Hash;
  wd_BurningAmount : Z;
  wd_RemoteAddress : string;
  wd_Fee : Z;
  wd_ExternalTokenID : string;
  wd_ExternalReceivedAmt : Z;
  wd_BurningConfirmMetaType : Z }.

Record BridgeAggWaitingUnshieldReq := mkWaitingReq {
  unshieldID : Hash;
  wr_data : list WaitingUnshieldReqData;
  beaconHeight : Z }.

#[export] Instance WaitingUnshieldReqData_eq_dec : EqDecision WaitingUnshieldReqData.
Proof. solve_decision. Defined.
#[export] Instance BridgeAggWaitingUnshieldReq_eq_dec : EqDecision BridgeAggWaitingUnshieldReq.
Proof. solve_decision. Defined.

(** The amount a waiting entry pays out: [data.BurningAmount - data.Fee] on [uint64]. *)
Definition receivedAmount (d : WaitingUnshieldReqData) : Z :=
  sub64 (wd_BurningAmount d) (wd_Fee d).

Abbreviation Vaults := (gmap Hash BridgeAggVaultState).

(** The key of a waiting request in the state database is made of the hashes of the two
    identifiers; here it is the pair. *)
Record State := mkState {
  unifiedTokenVaults : gmap Hash Vaults;
  waitingUnshieldReqs : gmap Hash (list BridgeAggWaitingUnshieldReq);
  param : option Z;
  newWaitingUnshieldReqs : gmap Hash (list BridgeAggWaitingUnshieldReq);
  deletedWaitingUnshieldReqKeyHashes : list (Hash * Hash) }.

Definition NewState : State := mkState ∅ ∅ None ∅ [].

Definition with_vaults (m : gmap Hash Vaults) (s : State) : State :=
  mkState m (waitingUnshieldReqs s) (param s) (newWaitingUnshieldReqs s)
    (deletedWaitingUnshieldReqKeyHashes s).
Definition with_waiting (m : gmap Hash (list BridgeAggWaitingUnshieldReq)) (s : State) : State :=
  mkState (unifiedTokenVaults s) m (param s) (newWaitingUnshieldReqs s)
    (deletedWaitingUnshieldReqKeyHashes s).
Definition with_param (p : option Z) (s : State) : State :=
  mkState (unifiedTokenVaults s) (waitingUnshieldReqs s) p (newWaitingUnshieldReqs s)
    (deletedWaitingUnshieldReqKeyHashes s).
Definition with_new (m : gmap Hash (list BridgeAggWaitingUnshieldReq)) (s : State) : State :=
  mkState (unifiedTokenVaults s) (waitingUnshieldReqs s) (param s) m
    (deletedWaitingUnshieldReqKeyHashes s).
Definition with_deleted (l : list (Hash * Hash)) (s : State) : State :=
  mkState (unifiedTokenVaults s) (waitingUnshieldReqs s) (param s) (newWaitingUnshieldReqs s) l.

(** [State.Clone] copies everything but the temporary state, which it resets. *)
Definition Clone (s : State) : State :=
  mkState (unifiedTokenVaults s) (waitingUnshieldReqs s) (param s) ∅ [].

Definition CloneVaultsByUnifiedTokenID (s : State) (unifiedTokenID : Hash) : outcome Vaults :=
  match unifiedTokenVaults s !! unifiedTokenID with
  | Some vaults => Ok vaults
  | None => Err "Can't find unifiedTokenID"
  end.

Definition vaultOf (s : State) (unifiedTokenID tok : Hash) : option BridgeAggVaultState :=
  match unifiedTokenVaults s !! unifiedTokenID with Some vs => vs !! tok | None => None end.

(** The list of requests of a token; a missing entry reads as nil. *)
Definition reqsOf (m : gmap Hash (list BridgeAggWaitingUnshieldReq)) (k : Hash)
    : list BridgeAggWaitingUnshieldReq := default [] (m !! k).

(** A vault that is not in the map reads as nil, and its methods panic. *)
Definition derefVault (vaults : Vaults) (k : Hash) : outcome BridgeAggVaultState :=
  match vaults !! k with Some v => Ok v | None => Panic end.

(** ** Updating the vaults for an unshield request *)

(** The three updates walk over the entries of a request; an entry runs methods on its vault
    and stores it back. *)
Definition updateVaults (f : WaitingUnshieldReqData → M BridgeAggVaultState unit)
    : Vaults → list WaitingUnshieldReqData → outcome Vaults :=
  fix go vaults datas :=
    match datas with
    | [] => Ok vaults
    | d :: datas =>
        v ← derefVault vaults (wd_IncTokenID d);
        '(_, v) ← runM (f d) v;
        go (<[wd_IncTokenID d := v]> vaults) datas
    end.

Definition newWaitingMethods (d : WaitingUnshieldReqData) : M BridgeAggVaultState unit :=
  v ← getS;
  let receiveAmt := receivedAmount d in
  let remainAmt := sub64 (amount v) (lockedAmount v) in
  let matchUnshieldAmt := if remainAmt <? receiveAmt then remainAmt else receiveAmt in
  UpdateLockedAmount matchUnshieldAmt AddOperator;;
  UpdateWaitingUnshieldAmount (sub64 receiveAmt matchUnshieldAmt) AddOperator;;
  UpdateWaitingUnshieldFee (wd_Fee d) AddOperator.

Definition newMatchedMethods (d : WaitingUnshieldReqData) : M BridgeAggVaultState unit :=
  UpdateAmount (wd_BurningAmount d) SubOperator.

Definition matchedWaitMethods (d : WaitingUnshieldReqData) : M BridgeAggVaultState unit :=
  UpdateAmount (receivedAmount d) SubOperator;;
  UpdateLockedAmount (receivedAmount d) SubOperator.

Definition updateStateForNewWaitingUnshieldReq (vaults : Vaults) (req : BridgeAggWaitingUnshieldReq)
    : outcome Vaults := updateVaults newWaitingMethods vaults (wr_data req).
Definition updateStateForNewMatchedUnshieldReq (vaults : Vaults) (req : BridgeAggWaitingUnshieldReq)
    : outcome Vaults := updateVaults newMatchedMethods vaults (wr_data req).
Definition updateStateForMatchedWaitUnshieldReq (vaults : Vaults) (req : BridgeAggWaitingUnshieldReq)
    : outcome Vaults := updateVaults matchedWaitMethods vaults (wr_data req).

(** ** The queue of waiting requests *)
Definition addWaitingUnshieldReq (req : BridgeAggWaitingUnshieldReq) (unifiedTokenID : Hash)
    : M State unit :=
  modifyS (λ s, with_waiting (<[unifiedTokenID := reqsOf (waitingUnshieldReqs s) unifiedTokenID ++ [req]]>
                                (waitingUnshieldReqs s)) s);;
  modifyS (λ s, with_new (<[unifiedTokenID := reqsOf (newWaitingUnshieldReqs s) unifiedTokenID ++ [req]]>
                            (newWaitingUnshieldReqs s)) s).

(** The list without its first request of that identifier. *)
Fixpoint removeReq (id : Hash) (reqs : list BridgeAggWaitingUnshieldReq)
    : option (list BridgeAggWaitingUnshieldReq) :=
  match reqs with
  | [] => None
  | r :: reqs => if decide (unshieldID r = id) then Some reqs else cons r <$> removeReq id reqs
  end.

Definition deleteWaitingUnshieldReq (req : BridgeAggWaitingUnshieldReq) (unifiedTokenID : Hash)
    : M State unit :=
  s ← getS;
  match removeReq (unshieldID req) (reqsOf (waitingUnshieldReqs s) unifiedTokenID) with
  | None => fail "Can not find waiting unshield req to delete"
  | Some reqs =>
      modifyS (with_waiting (<[unifiedTokenID := reqs]> (waitingUnshieldReqs s)));;
      modifyS (λ s, with_deleted (deletedWaitingUnshieldReqKeyHashes s
                                    ++ [(unifiedTokenID, unshieldID req)]) s)
  end.

(** *** Statuses *)
Definition RejectedStatusStr : string := "rejected".
Definition AcceptedStatusStr : string := "accepted".
Definition WaitingStatusStr : string := "waiting".
Definition FilledStatusStr : string := "filled".

Definition getStatusByteFromStatuStr (statusStr : string) : outcome Z :=
  if bool_decide (statusStr = RejectedStatusStr) then Ok 0
  else if bool_decide (statusStr = AcceptedStatusStr) then Ok 1
  else if bool_decide (statusStr = WaitingStatusStr) then Ok 2
  else if bool_decide (statusStr = FilledStatusStr) then Ok 3
  else Err "Invalid status string".

Definition setVaults (unifiedTokenID : Hash) (vaults : Vaults) : M State unit :=
  modifyS (λ s, with_vaults (<[unifiedTokenID := vaults]> (unifiedTokenVaults s)) s).

(** The vaults are cloned before anything else happens and are stored back only when the whole
    update succeeded; a filled request leaves the queue before that. *)
Definition updateStateForUnshield (unifiedTokenID : Hash) (req : BridgeAggWaitingUnshieldReq)
    (statusStr : string) : M State unit :=
  s ← getS;
  vaults ← lift (CloneVaultsByUnifiedTokenID s unifiedTokenID);
  if bool_decide (statusStr = WaitingStatusStr) then
    updatedVaults ← lift (updateStateForNewWaitingUnshieldReq vaults req);
    setVaults unifiedTokenID updatedVaults;;
    addWaitingUnshieldReq req unifiedTokenID
  else if bool_decide (statusStr = FilledStatusStr) then
    deleteWaitingUnshieldReq req unifiedTokenID;;
    updatedVaults ← lift (updateStateForMatchedWaitUnshieldReq vaults req);
    setVaults unifiedTokenID updatedVaults
  else if bool_decide (statusStr = AcceptedStatusStr) then
    updatedVaults ← lift (updateStateForNewMatchedUnshieldReq vaults req);
    setVaults unifiedTokenID updatedVaults
  else fail "Invalid unshield instruction status".

Definition updateStateForModifyParam (newPercentFeeWithDec : Z) (s : State) : State :=
  with_param (Some newPercentFeeWithDec) s.

Definition InitBridgeAggParamDefault `{!BridgeAggParam} (s : State) : State :=
  match param s with
  | Some _ => s
  | None => with_param (Some DefaultPercentFeeWithDecimal) s
  end.
