(* ===== verification/BridgeInvariant.v ===== *)
(** The invariant of the bridge aggregator: what the vaults promise is what the queue of waiting
    requests is owed, and what backs the unified tokens changes exactly by what is minted and
    burned. *)
From S2P Require Import Prelude Hash BridgeVault BridgeDB BridgeState.
From Stdlib Require Import String.

Local Open Scope Z_scope.

(** ** Well-formed requests *)
Record wf_data (d : WaitingUnshieldReqData) : Prop := {
  wd_burn : 0 < wd_BurningAmount d < word64;
  wd_fee_le : 0 ≤ wd_Fee d ≤ wd_BurningAmount d }.

Lemma received_eq d : wf_data d → receivedAmount d = wd_BurningAmount d - wd_Fee d.
Proof. intros [Hb Hf]. unfold receivedAmount. apply sub64_exact; unfold in_u64; lia. Qed.

(** What entries pay out of the vault of a token, and what they burn for it. *)
Definition sumOf (f : WaitingUnshieldReqData → Z) (t : Hash) (ds : list WaitingUnshieldReqData) : Z :=
  list_sum (λ d, if decide (wd_IncTokenID d = t) then f d else 0) ds.
Definition dueTo : Hash → list WaitingUnshieldReqData → Z := sumOf receivedAmount.
Definition burnedOf (ds : list WaitingUnshieldReqData) : Z := list_sum wd_BurningAmount ds.
Definition owed (reqs : list BridgeAggWaitingUnshieldReq) (t : Hash) : Z :=
  list_sum (λ r, dueTo t (wr_data r)) reqs.

Lemma list_sum_zero {A} (f : A → Z) l : (∀ a, a ∈ l → f a = 0) → list_sum f l = 0.
Proof.
  induction l as [|a l IH]; [done|]. intros Hf. rewrite list_sum_cons, (Hf a) by by left.
  rewrite IH; [done|]. intros b Hb. apply Hf. by right.
Qed.

Lemma sumOf_cons f t d ds :
  sumOf f t (d :: ds) = (if decide (wd_IncTokenID d = t) then f d else 0) + sumOf f t ds.
Proof. apply list_sum_cons. Qed.

Lemma owed_app l1 l2 t : owed (l1 ++ l2) t = owed l1 t + owed l2 t.
Proof. apply list_sum_app. Qed.

Lemma owed_singleton r t : owed [r] t = dueTo t (wr_data r).
Proof. unfold owed. rewrite list_sum_cons. unfold list_sum. cbn. lia. Qed.

Lemma owed_perm l1 l2 t : l1 ≡ₚ l2 → owed l1 t = owed l2 t.
Proof. apply list_sum_Permutation. Qed.

Lemma dueTo_nonneg t ds : Forall wf_data ds → 0 ≤ dueTo t ds.
Proof.
  intros Hds. apply list_sum_nonneg. eapply Forall_impl; [exact Hds|].
  intros d Hd. cbn. case_decide; [|lia]. rewrite received_eq by done. destruct Hd. lia.
Qed.

Lemma dueTo_elem t d ds : Forall wf_data ds → d ∈ ds → wd_IncTokenID d = t →
  receivedAmount d ≤ dueTo t ds.
Proof.
  induction ds as [|d' ds IH]; [by intros _ ?%not_elem_of_nil|].
  intros [Hd' Hds]%Forall_cons [->|Hin]%elem_of_cons Ht; unfold dueTo; rewrite sumOf_cons;
    fold (dueTo t ds); pose proof (dueTo_nonneg t ds Hds).
  - rewrite decide_True by done. lia.
  - specialize (IH Hds Hin Ht). pose proof (received_eq d' Hd') as E.
    destruct Hd'. case_decide; lia.
Qed.

(** ** Vaults *)
Definition wf_vaults (vs : Vaults) : Prop :=
  map_Forall (λ t v, wf_vault v ∧ incTokenID v = t) vs.
Definition promises (vs : Vaults) (f : Hash → Z) : Prop :=
  ∀ t v, vs !! t = Some v → promised v = f t.
Definition totalBacking (vs : Vaults) : Z := map_sum backing vs.

Lemma wf_vaults_insert vs t v : wf_vaults vs → wf_vault v → incTokenID v = t →
  wf_vaults (<[t := v]> vs).
Proof. intros. by apply map_Forall_insert_2. Qed.

Lemma promises_insert vs f g t v :
  promises vs f → promised v = g t → (∀ t', t' ≠ t → g t' = f t') → promises (<[t := v]> vs) g.
Proof.
  intros Hp Hv Hg t' v'. destruct (decide (t' = t)) as [->|Hne].
  - rewrite lookup_insert_eq. by intros [= <-].
  - rewrite lookup_insert_ne by done. intros ?%Hp. by rewrite Hg.
Qed.

Lemma totalBacking_insert vs t v v' : vs !! t = Some v →
  totalBacking (<[t := v']> vs) = totalBacking vs - backing v + backing v'.
Proof. intros Hl. unfold totalBacking. rewrite map_sum_insert, Hl. cbn. lia. Qed.

(** The walk over the entries of a request: an invariant of the vaults and the entries that
    are left. *)
Lemma updateVaults_ind f (P : Vaults → list WaitingUnshieldReqData → Prop) vs ds vs' :
  (∀ vs d ds v v', P vs (d :: ds) → vs !! wd_IncTokenID d = Some v → f d v = (Ok tt, v') →
     P (<[wd_IncTokenID d := v']> vs) ds) →
  P vs ds → updateVaults f vs ds = Ok vs' → P vs' [].
Proof.
  intros Hstep. revert vs. induction ds as [|d ds IH]; intros vs HP; cbn.
  - by intros [= <-].
  - unfold derefVault. destruct (vs !! wd_IncTokenID d) as [v|] eqn:Hv; [|done]. cbn.
    unfold runM. destruct (f d v) as [[[]| | |] v'] eqn:Hf; cbn; try done.
    apply IH. eauto.
Qed.

(** The tokens of the vaults stay the same, and every entry has its vault. *)
Lemma updateVaults_dom f vs ds vs' :
  updateVaults f vs ds = Ok vs' →
  dom vs' = dom vs ∧ Forall (λ d, is_Some (vs !! wd_IncTokenID d)) ds.
Proof.
  revert vs. induction ds as [|d ds IH]; intros vs; cbn; [by intros [= <-]|].
  unfold derefVault. destruct (vs !! wd_IncTokenID d) as [v|] eqn:Hv; [|done]. cbn.
  unfold runM. destruct (f d v) as [[[]| | |] v']; cbn; try done.
  intros [Hdom Hall]%IH. rewrite dom_insert_lookup_L in Hdom by eauto. split; [done|].
  constructor; [by eauto|]. eapply Forall_impl; [exact Hall|]. intros d' [w Hw].
  destruct (decide (wd_IncTokenID d' = wd_IncTokenID d)) as [->|]; [by eauto|].
  rewrite lookup_insert_ne in Hw by done. eauto.
Qed.

(** The walk never panics when the vaults exist: the counters are checked. *)
Lemma updateField_returns get set x op v : returns (updateField get set x op v).1.
Proof.
  rewrite updateField_run. unfold updateCounter.
  destruct (op =? SubOperator); [cbv zeta; by destruct (_ <? _)|].
  destruct (op =? AddOperator); [cbv zeta; by destruct (_ <? _)|done].
Qed.

Definition neverPanics (m : M BridgeAggVaultState unit) : Prop := ∀ v, returns (m v).1.

Lemma neverPanics_bind {A} (m : M BridgeAggVaultState A) f : (∀ v, returns (m v).1) →
  (∀ a, neverPanics (f a)) → neverPanics (m ≫= f).
Proof.
  intros Hm Hf v. specialize (Hm v). unfold mbind, M_bind.
  destruct (m v) as [[a| | |] v']; [apply Hf|done..].
Qed.

Lemma methods_neverPanic d : neverPanics (newWaitingMethods d) ∧ neverPanics (newMatchedMethods d) ∧
  neverPanics (matchedWaitMethods d).
Proof.
  split_and!; unfold newWaitingMethods, newMatchedMethods, matchedWaitMethods;
    repeat (cbv zeta; first [intros ?; apply updateField_returns
      |apply neverPanics_bind; [intros ?; first [apply updateField_returns|done]|intros ?]]).
Qed.

Lemma updateVaults_returns f vs ds : (∀ d, neverPanics (f d)) →
  (∀ d, d ∈ ds → is_Some (vs !! wd_IncTokenID d)) → returns (updateVaults f vs ds).
Proof.
  intros Hf. revert vs. induction ds as [|d ds IH]; intros vs Hall; [done|]. cbn.
  destruct (Hall d) as [v Hv]; [by left|]. unfold derefVault. rewrite Hv. cbn.
  specialize (Hf d v). unfold runM. destruct (f d v) as [[[]| | |] v']; [|done..]. cbn. apply IH.
  intros d' Hd'. destruct (decide (wd_IncTokenID d' = wd_IncTokenID d)) as [->|Hne].
  - rewrite lookup_insert_eq. eauto.
  - rewrite lookup_insert_ne by done. apply Hall. by right.
Qed.

(** *** One entry *)
Lemma newWaiting_spec d v v' : wf_data d → wf_vault v → newWaitingMethods d v = (Ok tt, v') →
  wf_vault v' ∧ same_token v v' ∧ amount v' = amount v ∧
  promised v' = promised v + receivedAmount d ∧ backing v' = backing v - wd_BurningAmount d.
Proof.
  intros Hd Hv. rewrite (received_eq d Hd). destruct Hd as [Hb Hf].
  destruct Hv as [HA HL HW HF Hsh Hdec]. unfold in_u64 in *.
  unfold newWaitingMethods. rewrite getS_bind, (received_eq d) by by split.
  rewrite (sub64_exact (amount v)) by (unfold in_u64; lia).
  set (r := wd_BurningAmount d - wd_Fee d).
  set (m := if amount v - lockedAmount v <? r then amount v - lockedAmount v else r).
  assert (m = Z.min r (amount v - lockedAmount v)) as Hm.
  { unfold m. destruct (Z.ltb_spec (amount v - lockedAmount v) r); lia. }
  clearbody m. rewrite sub64_exact by (unfold in_u64; lia).
  intros ([] & v1 & (n1 & Hn1 & ->)%updateField_Ok & Hr)%M_bind_Ok.
  apply M_bind_Ok in Hr as ([] & v2 & (n2 & Hn2 & ->)%updateField_Ok & Hr).
  apply updateField_Ok in Hr as (n3 & Hn3 & ->). cbn in *.
  apply updateCounter_add_Ok in Hn1 as [-> ?]; [|unfold in_u64; lia..].
  apply updateCounter_add_Ok in Hn2 as [-> ?]; [|unfold in_u64; lia..].
  apply updateCounter_add_Ok in Hn3 as [-> ?]; [|unfold in_u64; lia..].
  unfold in_u64 in *. split; [split; cbn; unfold in_u64; lia|].
  split; [by repeat split|]. unfold backing, promised. cbn. lia.
Qed.

Lemma newMatched_spec d v v' : wf_data d → wf_vault v →
  wd_BurningAmount d ≤ amount v - lockedAmount v → newMatchedMethods d v = (Ok tt, v') →
  wf_vault v' ∧ same_token v v' ∧ amount v' = amount v - wd_BurningAmount d ∧
  lockedAmount v' = lockedAmount v ∧
  promised v' = promised v ∧ backing v' = backing v - wd_BurningAmount d.
Proof.
  intros [Hb Hf] [HA HL HW HF Hsh Hdec] Hfree (n & Hn & ->)%updateField_Ok. unfold in_u64 in *.
  apply updateCounter_sub_Ok in Hn as [-> ?]; [|unfold in_u64; lia..].
  split; [split; cbn; unfold in_u64; lia|]. split; [by repeat split|].
  unfold backing, promised. cbn. lia.
Qed.

Lemma matchedWait_spec d v v' : wf_data d → wf_vault v → matchedWaitMethods d v = (Ok tt, v') →
  wf_vault v' ∧ same_token v v' ∧ amount v' = amount v - receivedAmount d ∧
  promised v' = promised v - receivedAmount d ∧ backing v' = backing v.
Proof.
  intros Hd [HA HL HW HF Hsh Hdec]. unfold matchedWaitMethods. rewrite (received_eq d Hd).
  destruct Hd as [Hb Hf]. unfold in_u64 in *.
  intros ([] & v1 & (n1 & Hn1 & ->)%updateField_Ok & (n2 & Hn2 & ->)%updateField_Ok)%M_bind_Ok.
  cbn in *.
  apply updateCounter_sub_Ok in Hn1 as [-> ?]; [|unfold in_u64; lia..].
  apply updateCounter_sub_Ok in Hn2 as [-> ?]; [|unfold in_u64; lia..].
  split; [split; cbn; unfold in_u64; lia|]. split; [by repeat split|].
  unfold backing, promised. cbn. lia.
Qed.

(** A filled entry never fails when its vault holds the money and owes it. *)
Lemma matchedWait_total d v : wf_data d → wf_vault v → receivedAmount d ≤ amount v →
  receivedAmount d ≤ promised v → ∃ v', matchedWaitMethods d v = (Ok tt, v').
Proof.
  intros Hd [HA HL HW HF Hsh Hdec] Ha Hp. unfold promised, in_u64 in *.
  rewrite (received_eq d Hd) in *. destruct Hd as [Hb Hf].
  unfold matchedWaitMethods, mbind, M_bind, UpdateAmount, UpdateLockedAmount.
  rewrite received_eq by by split.
  rewrite updateField_run, updateCounter_sub by (unfold in_u64; lia).
  rewrite (proj2 (Z.leb_le _ (amount v))) by lia.
  rewrite updateField_run, updateCounter_sub by (cbn; unfold in_u64; lia). cbn.
  rewrite (proj2 (Z.leb_le _ (lockedAmount v))) by (destruct (Z.eq_dec (waitingUnshieldAmount v) 0); lia).
  eauto.
Qed.

(** *** A whole request *)

(** The entries that are left still add to, or take from, what the vaults promise. *)
Lemma newWaiting_vaults vs req f vs' :
  Forall wf_data (wr_data req) → wf_vaults vs → promises vs f →
  updateStateForNewWaitingUnshieldReq vs req = Ok vs' →
  wf_vaults vs' ∧ promises vs' (λ t, f t + dueTo t (wr_data req)) ∧
  totalBacking vs' = totalBacking vs - burnedOf (wr_data req).
Proof.
  intros Hds Hwf Hp Hu.
  eapply (updateVaults_ind _ (λ ws ds, Forall wf_data ds ∧ wf_vaults ws ∧
    promises ws (λ t, f t + dueTo t (wr_data req) - dueTo t ds) ∧
    totalBacking ws = totalBacking vs - burnedOf (wr_data req) + burnedOf ds)) in Hu as (_ & ? & Hp' & HB).
  - split; [done|]. split; [|unfold burnedOf, list_sum in *; cbn in *; lia].
    intros t v Hv. rewrite (Hp' t v Hv). unfold dueTo at 2, sumOf, list_sum. cbn. lia.
  - intros ws d ds v v' ([Hd Hds']%Forall_cons & Hws & Hpr & HT) Hv Hf.
    destruct (map_Forall_lookup_1 _ _ _ _ Hws Hv) as [Hwv Htok].
    destruct (newWaiting_spec d v v' Hd Hwv Hf) as (Hw' & (_ & _ & Ht') & _ & Hpv & Hbv).
    split; [done|]. split; [apply wf_vaults_insert; [done..|congruence]|]. split.
    + eapply promises_insert; [exact Hpr|..].
      * rewrite Hpv, (Hpr _ _ Hv). unfold dueTo at 2 4. rewrite sumOf_cons, decide_True by done. lia.
      * intros t Hne. unfold dueTo at 4. by rewrite sumOf_cons, decide_False by done.
    + rewrite (totalBacking_insert _ _ _ _ Hv), HT, Hbv. unfold burnedOf.
      rewrite (list_sum_cons _ d). lia.
  - split; [done|]. split; [done|]. split; [|lia]. intros t v Hv. rewrite (Hp t v Hv). lia.
Qed.

Lemma matchedWait_vaults vs req f vs' :
  Forall wf_data (wr_data req) → wf_vaults vs → promises vs f →
  updateStateForMatchedWaitUnshieldReq vs req = Ok vs' →
  wf_vaults vs' ∧ promises vs' (λ t, f t - dueTo t (wr_data req)) ∧
  totalBacking vs' = totalBacking vs.
Proof.
  intros Hds Hwf Hp Hu.
  eapply (updateVaults_ind _ (λ ws ds, Forall wf_data ds ∧ wf_vaults ws ∧
    promises ws (λ t, f t - dueTo t (wr_data req) + dueTo t ds) ∧
    totalBacking ws = totalBacking vs)) in Hu as (_ & ? & Hp' & HB).
  - split; [done|]. split; [|done].
    intros t v Hv. rewrite (Hp' t v Hv). unfold dueTo at 2, sumOf, list_sum. cbn. lia.
  - intros ws d ds v v' ([Hd Hds']%Forall_cons & Hws & Hpr & HT) Hv Hf.
    destruct (map_Forall_lookup_1 _ _ _ _ Hws Hv) as [Hwv Htok].
    destruct (matchedWait_spec d v v' Hd Hwv Hf) as (Hw' & (_ & _ & Ht') & _ & Hpv & Hbv).
    split; [done|]. split; [apply wf_vaults_insert; [done..|congruence]|]. split.
    + eapply promises_insert; [exact Hpr|..].
      * rewrite Hpv, (Hpr _ _ Hv). unfold dueTo at 2 4. rewrite sumOf_cons, decide_True by done. lia.
      * intros t Hne. unfold dueTo at 4. by rewrite sumOf_cons, decide_False by done.
    + rewrite (totalBacking_insert _ _ _ _ Hv), HT, Hbv. lia.
  - split; [done|]. split; [done|]. split; [|done]. intros t v Hv. rewrite (Hp t v Hv). lia.
Qed.

(** What a vault can pay at once. *)
Definition within (vs : Vaults) (ds : list WaitingUnshieldReqData) : Prop :=
  ∀ t v, vs !! t = Some v → sumOf wd_BurningAmount t ds ≤ amount v - lockedAmount v.

Lemma sum_burn_nonneg t ds : Forall wf_data ds → 0 ≤ sumOf wd_BurningAmount t ds.
Proof.
  intros Hds. apply list_sum_nonneg. eapply Forall_impl; [exact Hds|].
  intros d [Hb _]. cbn. case_decide; lia.
Qed.

Lemma newMatched_vaults vs req f vs' :
  Forall wf_data (wr_data req) → wf_vaults vs → promises vs f → within vs (wr_data req) →
  updateStateForNewMatchedUnshieldReq vs req = Ok vs' →
  wf_vaults vs' ∧ promises vs' f ∧
  totalBacking vs' = totalBacking vs - burnedOf (wr_data req).
Proof.
  intros Hds Hwf Hp Hin Hu.
  eapply (updateVaults_ind _ (λ ws ds, Forall wf_data ds ∧ wf_vaults ws ∧
    promises ws f ∧ within ws ds ∧
    totalBacking ws = totalBacking vs - burnedOf (wr_data req) + burnedOf ds))
    in Hu as (_ & ? & Hp' & _ & HB).
  - split; [done|]. split; [done|]. unfold burnedOf, list_sum in *; cbn in *; lia.
  - intros ws d ds v v' ([Hd Hds']%Forall_cons & Hws & Hpr & Hwi & HT) Hv Hf.
    destruct (map_Forall_lookup_1 _ _ _ _ Hws Hv) as [Hwv Htok].
    pose proof (Hwi _ _ Hv) as Hbud. rewrite sumOf_cons, decide_True in Hbud by done.
    pose proof (sum_burn_nonneg (wd_IncTokenID d) ds Hds').
    destruct (newMatched_spec d v v' Hd Hwv ltac:(lia) Hf)
      as (Hw' & (_ & _ & Ht') & HA & HL & Hpv & Hbv).
    split; [done|]. split; [apply wf_vaults_insert; [done..|congruence]|]. split; [|split].
    + eapply promises_insert; [exact Hpr|by rewrite Hpv, (Hpr _ _ Hv)|done].
    + intros t w. destruct (decide (t = wd_IncTokenID d)) as [->|Hne].
      * rewrite lookup_insert_eq. intros [= <-]. lia.
      * rewrite lookup_insert_ne by done. intros Hw. specialize (Hwi t w Hw).
        rewrite sumOf_cons, decide_False in Hwi by done. lia.
    + rewrite (totalBacking_insert _ _ _ _ Hv), HT, Hbv. unfold burnedOf.
      rewrite (list_sum_cons _ d). lia.
  - do 4 (split; [done|]). lia.
Qed.

(** ** The state *)
Definition datasOf (reqs : list BridgeAggWaitingUnshieldReq) : list WaitingUnshieldReqData :=
  mjoin (wr_data <$> reqs).

Record wf_state (s : State) : Prop := {
  ws_vaults : ∀ u vs, unifiedTokenVaults s !! u = Some vs →
    wf_vaults vs ∧ promises vs (owed (reqsOf (waitingUnshieldReqs s) u));
  ws_reqs : ∀ u r, r ∈ reqsOf (waitingUnshieldReqs s) u → Forall wf_data (wr_data r) ∧
    ∀ d, d ∈ wr_data r → is_Some (vaultOf s u (wd_IncTokenID d));
  ws_ids : ∀ u, NoDup (unshieldID <$> reqsOf (waitingUnshieldReqs s) u);
  ws_param : ∀ p, param s = Some p → in_u64 p }.

(** What backs a unified token in circulation. *)
Definition backingOf (s : State) (u : Hash) : Z :=
  match unifiedTokenVaults s !! u with Some vs => totalBacking vs | None => 0 end.

(** The part of the state that outlives a block: everything but the temporary lists. *)
Definition same_core (s s' : State) : Prop :=
  unifiedTokenVaults s' = unifiedTokenVaults s ∧
  waitingUnshieldReqs s' = waitingUnshieldReqs s ∧ param s' = param s.

Lemma same_core_refl s : same_core s s.
Proof. done. Qed.
Lemma same_core_sym s s' : same_core s s' → same_core s' s.
Proof. unfold same_core. intuition congruence. Qed.
Lemma same_core_Clone s : same_core s (Clone s).
Proof. done. Qed.

Lemma same_core_wf s s' : same_core s s' → wf_state s → wf_state s'.
Proof.
  intros (Hv & Hw & Hp) [H1 H2 H3 H4]. split; rewrite ?Hv, ?Hw, ?Hp; [done| |done..].
  intros u r Hr. destruct (H2 u r Hr) as [? Hd]. split; [done|]. intros d Hin.
  destruct (Hd d Hin) as [v E]. exists v. unfold vaultOf in *. by rewrite Hv.
Qed.

Lemma same_core_backing s s' u : same_core s s' → backingOf s' u = backingOf s u.
Proof. unfold backingOf. by intros (-> & _ & _). Qed.

Lemma NewState_wf : wf_state NewState.
Proof.
  split; cbn.
  - intros u vs. by rewrite lookup_empty.
  - intros u r. unfold reqsOf. rewrite lookup_empty. by intros ?%not_elem_of_nil.
  - intros u. unfold reqsOf. rewrite lookup_empty. constructor.
  - done.
Qed.

Lemma reqsOf_insert m u u' l : reqsOf (<[u := l]> m) u' = if decide (u' = u) then l else reqsOf m u'.
Proof.
  unfold reqsOf. case_decide; [by subst; rewrite lookup_insert_eq|by rewrite lookup_insert_ne].
Qed.

(** Replacing the vaults of one token and its queue keeps the invariant when the two still
    agree. *)
Record replaced (s s' : State) (u : Hash) (vs' : Vaults) (l : list BridgeAggWaitingUnshieldReq)
    : Prop := {
  rp_vaults : unifiedTokenVaults s' = <[u := vs']> (unifiedTokenVaults s);
  rp_queue : ∀ u', reqsOf (waitingUnshieldReqs s') u' =
    if decide (u' = u) then l else reqsOf (waitingUnshieldReqs s) u';
  rp_param : param s' = param s }.

Lemma wf_state_update s s' u vs vs' l :
  wf_state s → unifiedTokenVaults s !! u = Some vs → replaced s s' u vs' l → dom vs' = dom vs →
  wf_vaults vs' → promises vs' (owed l) →
  (∀ r, r ∈ l → Forall wf_data (wr_data r) ∧ ∀ d, d ∈ wr_data r → is_Some (vs !! wd_IncTokenID d)) →
  NoDup (unshieldID <$> l) → wf_state s'.
Proof.
  intros [H1 H2 H3 H4] Hu [Ev Eq Ep] Hdom Hwf Hp Hl Hnd. split.
  - intros u' ws. rewrite Ev, Eq. destruct (decide (u' = u)) as [->|Hne].
    + rewrite lookup_insert_eq. by intros [= <-].
    + rewrite lookup_insert_ne by done. apply H1.
  - intros u' r. rewrite Eq. unfold vaultOf. rewrite Ev. destruct (decide (u' = u)) as [->|Hne].
    + rewrite lookup_insert_eq. intros Hr. destruct (Hl r Hr) as [? Hd]. split; [done|].
      intros d Hin. apply elem_of_dom. rewrite Hdom. apply elem_of_dom, Hd, Hin.
    + rewrite lookup_insert_ne by done. apply H2.
  - intros u'. rewrite Eq. case_decide; [done|apply H3].
  - by rewrite Ep.
Qed.

Lemma replaced_same_queue s u vs' :
  replaced s (with_vaults (<[u := vs']> (unifiedTokenVaults s)) s) u vs'
    (reqsOf (waitingUnshieldReqs s) u).
Proof. split; [done| |done]. intros u'. cbn. by case_decide; subst. Qed.

(** The requests of the queue of a token have their vaults among those of the token. *)
Lemma queue_vaults s u vs : wf_state s → unifiedTokenVaults s !! u = Some vs →
  ∀ r, r ∈ reqsOf (waitingUnshieldReqs s) u → Forall wf_data (wr_data r) ∧
    ∀ d, d ∈ wr_data r → is_Some (vs !! wd_IncTokenID d).
Proof.
  intros Hs Hc r Hr. destruct (ws_reqs s Hs u r Hr) as [? Hd]. split; [done|]. intros d Hin.
  destruct (Hd d Hin) as [v E]. unfold vaultOf in E. rewrite Hc in E. eauto.
Qed.

Lemma backing_replaced s s' u vs' l u' : replaced s s' u vs' l →
  backingOf s' u' = if decide (u' = u) then totalBacking vs' else backingOf s u'.
Proof.
  intros [Ev _ _]. unfold backingOf. rewrite Ev.
  case_decide; [by subst; rewrite lookup_insert_eq|by rewrite lookup_insert_ne].
Qed.

(** *** The queue *)
Lemma removeReq_spec id reqs reqs' : removeReq id reqs = Some reqs' →
  ∃ r, unshieldID r = id ∧ r ∈ reqs ∧ reqs ≡ₚ r :: reqs' ∧ reqs' `sublist_of` reqs.
Proof.
  revert reqs'. induction reqs as [|r reqs IH]; cbn; [done|]. intros reqs'.
  destruct (decide (unshieldID r = id)) as [E|].
  - intros [= <-]. exists r. split; [done|]. split; [left|]. split; [done|]. by apply sublist_cons.
  - destruct (removeReq id reqs) as [l|]; cbn; [|done]. intros [= <-].
    destruct (IH l eq_refl) as (r' & E & Hin & Hp & Hs). exists r'. split; [done|].
    split; [by right|]. split; [|by apply sublist_skip]. rewrite Hp. apply perm_swap.
Qed.

Lemma removeReq_Some r reqs : r ∈ reqs → is_Some (removeReq (unshieldID r) reqs).
Proof.
  induction reqs as [|r' reqs IH]; [by intros ?%not_elem_of_nil|].
  cbn. destruct (decide _); [by eauto|]. intros [->|Hin]%elem_of_cons; [done|].
  destruct (IH Hin) as [l ->]. cbn. eauto.
Qed.

(** Identifiers are unique in a queue, so the removed request is the one that was meant. *)
Lemma removeReq_unique r reqs reqs' : NoDup (unshieldID <$> reqs) → r ∈ reqs →
  removeReq (unshieldID r) reqs = Some reqs' → reqs ≡ₚ r :: reqs'.
Proof.
  intros Hnd Hin Hr. destruct (removeReq_spec _ _ _ Hr) as (r' & E & Hin' & Hp & _).
  replace r with r'; [done|].
  apply list_elem_of_lookup in Hin as [i Hi]. apply list_elem_of_lookup in Hin' as [j Hj].
  assert (i = j) as ->; [|congruence].
  eapply NoDup_lookup; [exact Hnd|rewrite list_lookup_fmap, Hi; done|].
  rewrite list_lookup_fmap, Hj. cbn. by rewrite E.
Qed.

(** ** The updates of the state for a request *)

(** The change of the backing by a burned amount of one token. *)
Definition changed (s s' : State) (u : Hash) (delta : Z) : Prop :=
  ∀ u', backingOf s' u' = backingOf s u' + if decide (u' = u) then delta else 0.

Lemma changed_refl s s' u : same_core s s' → changed s s' u 0.
Proof. intros Hc u'. rewrite (same_core_backing _ _ _ Hc). case_decide; lia. Qed.

Lemma CloneVaults_Ok s u vs : CloneVaultsByUnifiedTokenID s u = Ok vs ↔
  unifiedTokenVaults s !! u = Some vs.
Proof.
  unfold CloneVaultsByUnifiedTokenID.
  destruct (unifiedTokenVaults s !! u); split; intros [=]; subst; done.
Qed.

(** Running the update: the vaults exist, the request is checked against them, and only then
    is anything stored. *)
Lemma run_waiting u req s : updateStateForUnshield u req WaitingStatusStr s =
  match CloneVaultsByUnifiedTokenID s u with
  | Ok vs =>
      match updateStateForNewWaitingUnshieldReq vs req with
      | Ok vs' =>
          (Ok tt, mkState (<[u := vs']> (unifiedTokenVaults s))
             (<[u := reqsOf (waitingUnshieldReqs s) u ++ [req]]> (waitingUnshieldReqs s)) (param s)
             (<[u := reqsOf (newWaitingUnshieldReqs s) u ++ [req]]> (newWaitingUnshieldReqs s))
             (deletedWaitingUnshieldReqKeyHashes s))
      | Err e => (Err e, s) | Panic => (Panic, s) | OutOfFuel => (OutOfFuel, s)
      end
  | Err e => (Err e, s) | Panic => (Panic, s) | OutOfFuel => (OutOfFuel, s)
  end.
Proof.
  unfold updateStateForUnshield. rewrite getS_bind. unfold mbind, M_bind, lift.
  destruct (CloneVaultsByUnifiedTokenID s u) as [vs| | |]; [|done..].
  rewrite bool_decide_true by done.
  by destruct (updateStateForNewWaitingUnshieldReq vs req).
Qed.

Lemma run_accepted u req s : updateStateForUnshield u req AcceptedStatusStr s =
  match CloneVaultsByUnifiedTokenID s u with
  | Ok vs =>
      match updateStateForNewMatchedUnshieldReq vs req with
      | Ok vs' => (Ok tt, with_vaults (<[u := vs']> (unifiedTokenVaults s)) s)
      | Err e => (Err e, s) | Panic => (Panic, s) | OutOfFuel => (OutOfFuel, s)
      end
  | Err e => (Err e, s) | Panic => (Panic, s) | OutOfFuel => (OutOfFuel, s)
  end.
Proof.
  unfold updateStateForUnshield. rewrite getS_bind. unfold mbind, M_bind, lift.
  destruct (CloneVaultsByUnifiedTokenID s u) as [vs| | |]; [|done..].
  rewrite !bool_decide_false by done. rewrite bool_decide_true by done.
  by destruct (updateStateForNewMatchedUnshieldReq vs req).
Qed.

Definition dequeued (u : Hash) (req : BridgeAggWaitingUnshieldReq)
    (reqs : list BridgeAggWaitingUnshieldReq) (s : State) : State :=
  mkState (unifiedTokenVaults s) (<[u := reqs]> (waitingUnshieldReqs s)) (param s)
    (newWaitingUnshieldReqs s) (deletedWaitingUnshieldReqKeyHashes s ++ [(u, unshieldID req)]).

Lemma run_filled u req s : updateStateForUnshield u req FilledStatusStr s =
  match CloneVaultsByUnifiedTokenID s u with
  | Ok vs =>
      match removeReq (unshieldID req) (reqsOf (waitingUnshieldReqs s) u) with
      | None => (Err "Can not find waiting unshield req to delete"%string, s)
      | Some reqs =>
          let s1 := dequeued u req reqs s in
          match updateStateForMatchedWaitUnshieldReq vs req with
          | Ok vs' => (Ok tt, with_vaults (<[u := vs']> (unifiedTokenVaults s)) s1)
          | Err e => (Err e, s1) | Panic => (Panic, s1) | OutOfFuel => (OutOfFuel, s1)
          end
      end
  | Err e => (Err e, s) | Panic => (Panic, s) | OutOfFuel => (OutOfFuel, s)
  end.
Proof.
  unfold updateStateForUnshield. rewrite getS_bind. unfold mbind, M_bind, lift.
  destruct (CloneVaultsByUnifiedTokenID s u) as [vs| | |]; [|done..].
  rewrite bool_decide_false by done. rewrite bool_decide_true by done.
  unfold deleteWaitingUnshieldReq, getS, modifyS, mbind, M_bind, fail.
  destruct (removeReq _ _) as [reqs|]; [|done].
  by destruct (updateStateForMatchedWaitUnshieldReq vs req).
Qed.

Lemma changed_replaced s s' u vs vs' l delta : replaced s s' u vs' l →
  unifiedTokenVaults s !! u = Some vs → totalBacking vs' = totalBacking vs + delta →
  changed s s' u delta.
Proof.
  intros Hr Hc HB u'. rewrite (backing_replaced _ _ _ _ _ _ Hr). case_decide; [subst|lia].
  unfold backingOf. by rewrite Hc.
Qed.

Lemma wf_waiting s u req s' : wf_state s → Forall wf_data (wr_data req) →
  unshieldID req ∉ (unshieldID <$> reqsOf (waitingUnshieldReqs s) u) →
  updateStateForUnshield u req WaitingStatusStr s = (Ok tt, s') →
  wf_state s' ∧ changed s s' u (- burnedOf (wr_data req)).
Proof.
  intros Hs Hds Hid. rewrite run_waiting.
  destruct (CloneVaultsByUnifiedTokenID s u) as [vs| | |] eqn:Hc; [|done..].
  apply CloneVaults_Ok in Hc. destruct (updateStateForNewWaitingUnshieldReq vs req) as [vs'| | |] eqn:Hu;
    [|done..]. intros [= <-].
  destruct (ws_vaults s Hs u vs Hc) as [Hwf Hp].
  destruct (newWaiting_vaults _ _ _ _ Hds Hwf Hp Hu) as (Hwf' & Hp' & HB).
  destruct (updateVaults_dom _ _ _ _ Hu) as [Hdom Hall].
  match goal with |- wf_state ?x ∧ _ =>
    assert (replaced s x u vs' (reqsOf (waitingUnshieldReqs s) u ++ [req])) as Hrep end.
  { split; [done|intros u'; apply reqsOf_insert|done]. }
  split; [|by eapply changed_replaced; [done..|lia]].
  eapply wf_state_update; [done..| | |].
  - intros t v Hv. rewrite (Hp' t v Hv), owed_app, owed_singleton. done.
  - intros r [Hr| ->%list_elem_of_singleton]%elem_of_app; [by eapply queue_vaults|].
    split; [done|]. by apply Forall_forall.
  - rewrite fmap_app. apply NoDup_app. split; [apply (ws_ids s Hs)|]. split; [|apply NoDup_singleton].
    intros x Hx ->%list_elem_of_singleton. done.
Qed.

Lemma wf_accepted s u req s' : wf_state s → Forall wf_data (wr_data req) →
  (∀ vs, unifiedTokenVaults s !! u = Some vs → within vs (wr_data req)) →
  updateStateForUnshield u req AcceptedStatusStr s = (Ok tt, s') →
  wf_state s' ∧ changed s s' u (- burnedOf (wr_data req)).
Proof.
  intros Hs Hds Hin. rewrite run_accepted.
  destruct (CloneVaultsByUnifiedTokenID s u) as [vs| | |] eqn:Hc; [|done..].
  apply CloneVaults_Ok in Hc. destruct (updateStateForNewMatchedUnshieldReq vs req) as [vs'| | |] eqn:Hu;
    [|done..]. intros [= <-].
  destruct (ws_vaults s Hs u vs Hc) as [Hwf Hp].
  destruct (newMatched_vaults _ _ _ _ Hds Hwf Hp (Hin vs Hc) Hu) as (Hwf' & Hp' & HB).
  destruct (updateVaults_dom _ _ _ _ Hu) as [Hdom _].
  pose proof (replaced_same_queue s u vs') as Hrep.
  split; [|by eapply changed_replaced; [done..|lia]].
  eapply wf_state_update; [done..|by eapply queue_vaults|apply (ws_ids s Hs)].
Qed.

(** A request that leaves the queue is paid from what its vaults promised. *)
Lemma wf_filled s u req s' : wf_state s → req ∈ reqsOf (waitingUnshieldReqs s) u →
  updateStateForUnshield u req FilledStatusStr s = (Ok tt, s') →
  wf_state s' ∧ changed s s' u 0.
Proof.
  intros Hs Hreq. rewrite run_filled.
  destruct (CloneVaultsByUnifiedTokenID s u) as [vs| | |] eqn:Hc; [|done..].
  apply CloneVaults_Ok in Hc. destruct (removeReq _ _) as [l|] eqn:Hrm; [|done].
  cbv zeta. destruct (updateStateForMatchedWaitUnshieldReq vs req) as [vs'| | |] eqn:Hu; [|done..].
  intros [= <-].
  destruct (ws_vaults s Hs u vs Hc) as [Hwf Hp].
  destruct (ws_reqs s Hs u req Hreq) as [Hds _].
  destruct (matchedWait_vaults _ _ _ _ Hds Hwf Hp Hu) as (Hwf' & Hp' & HB).
  destruct (updateVaults_dom _ _ _ _ Hu) as [Hdom _].
  pose proof (removeReq_unique _ _ _ (ws_ids s Hs u) Hreq Hrm) as Hperm.
  match goal with |- wf_state ?x ∧ _ => assert (replaced s x u vs' l) as Hrep end.
  { split; [done|intros u'; apply reqsOf_insert|done]. }
  split; [|by eapply changed_replaced; [done..|lia]].
  eapply wf_state_update; [done..| | |].
  - intros t v Hv. rewrite (Hp' t v Hv), (owed_perm _ _ t Hperm).
    unfold owed at 1. rewrite list_sum_cons. fold (owed l t). lia.
  - intros r Hr. eapply queue_vaults; [done..|]. rewrite Hperm. by right.
  - pose proof (ws_ids s Hs u) as Hnd. rewrite Hperm in Hnd. by apply NoDup_cons in Hnd as [_ ?].
Qed.
