(* ===== verification/BridgeProducer.v ===== *)
(** The producer of the bridge aggregator ([blockchain/bridgeagg/state_producer.go]): the
    instructions the beacon writes for requests to convert into a unified token, to leave the
    network and to call an external contract, for the queue of waiting requests, for the fee
    parameter and for new unified tokens.  Shield requests are in [BridgeShield]. *)
From S2P Require Import Prelude Hash BridgeVault BridgeDB BridgeState.
From Stdlib Require Import String.

Local Open Scope Z_scope.

(** ** Requests ([metadata/bridge]) *)
Record Action (A : Type) := mkAction { act_Meta : A; act_TxReqID : Hash; act_ExtraData : list string }.
Arguments mkAction {_} _ _ _.
Arguments act_Meta {_} _.
Arguments act_TxReqID {_} _.
Arguments act_ExtraData {_} _.

(** An action together with the shard and the beacon height it came with
    ([UnshieldActionForProducer]). *)
Record UnshieldAction (A : Type) := mkUnshieldAction {
  ua_Meta : A;
  ua_TxReqID : Hash;
  ua_ShardID : Z;
  ua_BeaconHeight : Z }.
Arguments mkUnshieldAction {_} _ _ _ _.
Arguments ua_Meta {_} _.
Arguments ua_TxReqID {_} _.
Arguments ua_ShardID {_} _.
Arguments ua_BeaconHeight {_} _.

Record ConvertTokenToUnifiedTokenRequest := mkConvertReq {
  cr_TokenID : Hash;
  cr_UnifiedTokenID : Hash;
  cr_Amount : Z;
  cr_Receiver : string }.

Record UnshieldRequestData := mkUnshieldData {
  ud_IncTokenID : Hash;
  ud_BurningAmount : Z;
  ud_MinExpectedAmount : Z;
  ud_RemoteAddress : string }.

Record UnshieldRequest := mkUnshieldRequest {
  ur_UnifiedTokenID : Hash;
  ur_Data : list UnshieldRequestData;
  ur_Receiver : string;
  ur_IsDepositToSC : bool }.

Record BurnForCallRequestData := mkBurnForCallData {
  bd_BurningAmount : Z;
  bd_ExternalNetworkID : Z;
  bd_IncTokenID : Hash;
  bd_ExternalCalldata : string;
  bd_ExternalCallAddress : string;
  bd_ReceiveToken : string;
  bd_RedepositReceiver : string;
  bd_WithdrawAddress : string }.

Record BurnForCallRequest := mkBurnForCallRequest {
  br_BurnTokenID : Hash;
  br_Data : list BurnForCallRequestData }.

(** [config.Vault] *)
Record ConfigVault := mkConfigVault {
  cv_ExternalDecimal : Z;
  cv_ExternalTokenID : string;
  cv_NetworkID : Z }.

(** ** Instructions

    An instruction has a metadata type, a status, a shard and a content; the content is a JSON
    object, here one constructor per type of object. *)
Record AcceptedConvertTokenToUnifiedToken := mkAcceptedConvert {
  ac_UnifiedTokenID : Hash;
  ac_TokenID : Hash;
  ac_Receiver : string;
  ac_ConvertPUnifiedAmount : Z;
  ac_ConvertPTokenAmount : Z;
  ac_Reward : Z;
  ac_TxReqID : Hash }.

Record AcceptedShieldRequestData := mkAcceptedShieldData {
  as_ShieldAmount : Z;
  as_Reward : Z;
  as_UniqTx : string;
  as_ExternalTokenID : string;
  as_NetworkID : Z;
  as_IncTokenID : Hash }.

Record AcceptedInstShieldRequest := mkAcceptedShield {
  ai_Receiver : string;
  ai_UnifiedTokenID : Hash;
  ai_TxReqID : Hash;
  ai_Data : list AcceptedShieldRequestData }.

Record AcceptedReshieldRequest := mkAcceptedReshield {
  rr_UnifiedTokenID : option Hash;
  rr_Receiver : string;
  rr_TxReqID : Hash;
  rr_ReshieldData : AcceptedShieldRequestData }.

Record AcceptedUnshieldRequestInst := mkAcceptedUnshield {
  au_UnifiedTokenID : Hash;
  au_IsDepositToSC : bool;
  au_WaitingUnshieldReq : BridgeAggWaitingUnshieldReq }.

(** What a rejection gives back, for the requests that burned something. *)
Record Refund := mkRefund { rj_TokenID : Hash; rj_Amount : Z; rj_Receiver : string }.

Inductive Content :=
  | ModifyParamContent (txReqID : Hash) (percentFeeWithDec : Z)
  | ConvertContent (c : AcceptedConvertTokenToUnifiedToken)
  | ShieldContent (c : AcceptedInstShieldRequest)
  | ReshieldContent (c : AcceptedReshieldRequest)
  | UnshieldContent (c : AcceptedUnshieldRequestInst)
  | RejectContent (txReqID : Hash) (errorCode : Z) (data : option Refund).

Record Instruction := mkInstruction {
  in_MetaType : Z;
  in_Status : string;
  in_ShardID : Z;
  in_Content : Content }.

(** The confirmation an external contract acts on. *)
Record BurningConfirm := mkBurningConfirm {
  bc_MetaType : Z;
  bc_ExternalTokenID : string;
  bc_RemoteAddress : string;
  bc_Amount : Z;
  bc_TxID : Hash;
  bc_IncTokenID : Hash;
  bc_BeaconHeight : Z }.

Record BurnForCallConfirm := mkBurnForCallConfirm {
  bf_NetworkID : Z;
  bf_ExternalTokenID : string;
  bf_ExternalCallAddress : string;
  bf_Amount : Z;
  bf_TxID : Hash;
  bf_ReceiveToken : string;
  bf_WithdrawAddress : string;
  bf_RedepositReceiver : string;
  bf_ExternalCalldata : string;
  bf_BeaconHeight : Z }.

Inductive BeaconInst :=
  | AggInst (i : Instruction)
  | AddTokenInst (newListTokens : list (Hash * list (Hash * ConfigVault)))
  | ConfirmInst (c : BurningConfirm)
  | CallConfirmInst (c : BurnForCallConfirm)
  | OtherInst.

Definition BridgeAggModifyParamMeta : Z := 340.
Definition BridgeAggConvertTokenToUnifiedTokenRequestMeta : Z := 341.
Definition IssuingUnifiedTokenRequestMeta : Z := 343.
Definition BurningUnifiedTokenRequestMeta : Z := 345.
Definition BurnForCallConfirmMeta : Z := 158.
Definition BurnForCallRequestMeta : Z := 348.
Definition IssuingReshieldResponseMeta : Z := 350.
Definition BridgeShardID : Z := 1.

(** The codes of [blockchain/bridgeagg/error.go]. *)
Definition OtherError : Z := 1.
Definition NotFoundUnifiedTokenIDError : Z := 1000.
Definition InvalidPTokenIDError : Z := 1001.
Definition InvalidNetworkIDError : Z := 1002.
Definition InvalidConvertAmountError : Z := 1004.
Definition CalRewardError : Z := 1005.
Definition ProducerUpdateStateError : Z := 1006.
Definition UnmarshalShieldProofError : Z := 1008.
Definition ExtractDataFromReceiptError : Z := 1011.
Definition CheckVaultUnshieldError : Z := 1013.
Definition InsufficientFundsVaultError : Z := 1017.
Definition NoValidShieldEventError : Z := 1018.

(** *** Builders of [utils.go] *)
Definition buildRejectedInst (metaType shardID : Z) (txReqID : Hash) (code : Z)
    (data : option Refund) : BeaconInst :=
  AggInst (mkInstruction metaType RejectedStatusStr shardID (RejectContent txReqID code data)).

Definition buildAcceptedInst (metaType shardID : Z) (content : Content) : BeaconInst :=
  AggInst (mkInstruction metaType AcceptedStatusStr shardID content).

Definition buildRejectedConvertReqInst (meta : ConvertTokenToUnifiedTokenRequest) (shardID : Z)
    (txReqID : Hash) (code : Z) : BeaconInst :=
  buildRejectedInst BridgeAggConvertTokenToUnifiedTokenRequestMeta shardID txReqID code
    (Some (mkRefund (cr_TokenID meta) (cr_Amount meta) (cr_Receiver meta))).

(** The sums of burned amounts wrap around. *)
Definition sum64 (l : list Z) : Z := foldl add64 0 l.

Definition buildRejectedUnshieldReqInst (meta : UnshieldRequest) (shardID : Z) (txReqID : Hash)
    (code : Z) : BeaconInst :=
  buildRejectedInst BurningUnifiedTokenRequestMeta shardID txReqID code
    (Some (mkRefund (ur_UnifiedTokenID meta) (sum64 (ud_BurningAmount <$> ur_Data meta))
             (ur_Receiver meta))).

Definition buildUnshieldInst (unifiedTokenID : Hash) (isDepositToSC : bool)
    (req : BridgeAggWaitingUnshieldReq) (status : string) (shardID : Z) : BeaconInst :=
  AggInst (mkInstruction BurningUnifiedTokenRequestMeta status shardID
             (UnshieldContent (mkAcceptedUnshield unifiedTokenID isDepositToSC req))).

(** [TotalBurningAmount] returns [0] with its error, which the builder drops. *)
Fixpoint TotalBurningAmount (acc : Z) (datas : list BurnForCallRequestData) : Z :=
  match datas with
  | [] => acc
  | d :: datas =>
      let acc := add64 acc (bd_BurningAmount d) in
      if acc <? bd_BurningAmount d then 0 else TotalBurningAmount acc datas
  end.

Definition buildRejectedBurnForCallReqInst (meta : BurnForCallRequest) (first : BurnForCallRequestData)
    (shardID : Z) (txReqID : Hash) (code : Z) : BeaconInst :=
  buildRejectedInst BurnForCallRequestMeta shardID txReqID code
    (Some (mkRefund (br_BurnTokenID meta) (TotalBurningAmount 0 (br_Data meta))
             (bd_RedepositReceiver first))).

Definition buildAcceptedBurnForCallReqInst (unifiedTokenID : option Hash)
    (req : BridgeAggWaitingUnshieldReq) (status : string) (shardID : Z) : BeaconInst :=
  AggInst (mkInstruction BurnForCallRequestMeta status shardID
             (UnshieldContent (mkAcceptedUnshield (default emptyHash unifiedTokenID) true req))).

(** The identifier of the [index]-th confirmation of a transaction is the hash of both. *)
Class ConfirmHash := confirmTxID : Hash → nat → Hash.

Section builders.
Context `{!ConfirmHash}.

Definition buildBurningConfirmInsts (req : BridgeAggWaitingUnshieldReq) (bh : Z)
    : list BeaconInst :=
  imap (λ index d,
    ConfirmInst (mkBurningConfirm (wd_BurningConfirmMetaType d) (wd_ExternalTokenID d)
      (wd_RemoteAddress d) (wd_ExternalReceivedAmt d) (confirmTxID (unshieldID req) index)
      (wd_IncTokenID d) bh)) (wr_data req).

(** The addresses come from the entry of that index; a missing entry is an index error. *)
Definition buildBurnForCallConfirmInsts (req : BurnForCallRequest) (id : Hash)
    (udata : WaitingUnshieldReqData) (externalTokenID : string) (net : Z) (index : nat) (bh : Z)
    : outcome (list BeaconInst) :=
  match br_Data req !! index with
  | None => Panic
  | Some d =>
      Ok [CallConfirmInst (mkBurnForCallConfirm net externalTokenID (bd_ExternalCallAddress d)
            (wd_ExternalReceivedAmt udata) (confirmTxID id index) (bd_ReceiveToken d)
            (bd_WithdrawAddress d) (bd_RedepositReceiver d) (bd_ExternalCalldata d) bh)]
  end.
End builders.

(** A handler drops the error of a call and writes a rejection instead; it never returns an
    error of its own. *)
Definition orReject {A} (m : outcome A) (r : list BeaconInst) (k : A → M State (list BeaconInst))
    : M State (list BeaconInst) :=
  match m with
  | Ok a => k a
  | Err _ => mret r
  | Panic => panic
  | OutOfFuel => λ s, (OutOfFuel, s)
  end.

(** ** Parameter and conversion

    The content of an action is decoded first; one that cannot be decoded yields nothing. *)
Definition modifyParam (action : option (Action Z)) (shardID : Z) : M State (list BeaconInst) :=
  match action with
  | None => mret []
  | Some a =>
      modifyS (updateStateForModifyParam (act_Meta a));;
      mret [buildAcceptedInst BridgeAggModifyParamMeta shardID
              (ModifyParamContent (act_TxReqID a) (act_Meta a))]
  end.

Section producer.
Context `{!BridgeAggParam}.

Definition convert (action : option (Action ConvertTokenToUnifiedTokenRequest)) (shardID : Z)
    : M State (list BeaconInst) :=
  match action with
  | None => mret []
  | Some a =>
      let meta := act_Meta a in
      let rejected code := [buildRejectedConvertReqInst meta shardID (act_TxReqID a) code] in
      s ← getS;
      orReject (CloneVaultsByUnifiedTokenID s (cr_UnifiedTokenID meta))
        (rejected NotFoundUnifiedTokenIDError) (λ clonedVaults,
      match clonedVaults !! cr_TokenID meta with
      | None => mret (rejected InvalidPTokenIDError)
      | Some vault =>
          orReject (convertPTokenAmtToPUnifiedTokenAmt (extDecimal vault) (cr_Amount meta))
            (rejected InvalidConvertAmountError) (λ amt,
          orReject (CalRewardForRefillVault vault amt) (rejected CalRewardError) (λ reward,
          orReject (updateVaultForRefill vault amt reward)
            (rejected ProducerUpdateStateError) (λ vault',
          setVaults (cr_UnifiedTokenID meta) (<[cr_TokenID meta := vault']> clonedVaults);;
          mret [buildAcceptedInst BridgeAggConvertTokenToUnifiedTokenRequestMeta shardID
                  (ConvertContent (mkAcceptedConvert (cr_UnifiedTokenID meta) (cr_TokenID meta)
                     (cr_Receiver meta) amt (cr_Amount meta) reward (act_TxReqID a)))])))
      end)
  end.

(** ** New unshield requests *)
Definition checkNewEntry (db : BridgeDB) (vaults : Vaults) (isDepositToSC : bool) (percent : Z)
    (data : UnshieldRequestData) (lockedVaultAmts : gmap Hash Z)
    : outcome (bool * WaitingUnshieldReqData * gmap Hash Z) :=
  match vaults !! ud_IncTokenID data with
  | None => Err "Can not found vault with incTokenID"
  | Some v =>
      '(isEnoughVaultTmp, fee, lockedVaultAmts) ←
        CalUnshieldFeeByBurnAmount v (ud_BurningAmount data) percent lockedVaultAmts;
      if negb isEnoughVaultTmp && isDepositToSC
      then Err "Not enough vaults for unshield to deposit to SC"
      else
        let actualAmt := sub64 (ud_BurningAmount data) fee in
        if actualAmt <? ud_MinExpectedAmount data then Err "Min expected amount is invalid"
        else
          prefix ← getPrefixByNetworkID (networkID v);
          externalTokenID ← FindExternalTokenID db (ud_IncTokenID data) prefix;
          let dec :=
            if bool_decide (nativeTokenOf prefix = externalTokenID) then extDecimal v
            else if BaseDecimal <? extDecimal v then BaseDecimal else extDecimal v in
          extReceivedAmt ← ConvertAmountByDecimal actualAmt dec false;
          if extReceivedAmt =? 0 then Err "Cannot received unshield amount equal to 0"
          else
            metaType ← getBurningConfirmMetaType (networkID v) isDepositToSC;
            Ok (isEnoughVaultTmp,
                mkWaitingData (ud_IncTokenID data) (ud_BurningAmount data) (ud_RemoteAddress data)
                  fee externalTokenID extReceivedAmt metaType,
                lockedVaultAmts)
  end.

Fixpoint checkNewEntries (db : BridgeDB) (vaults : Vaults) (isDepositToSC : bool) (percent : Z)
    (datas : list UnshieldRequestData) (lockedVaultAmts : gmap Hash Z)
    : outcome (bool * list WaitingUnshieldReqData) :=
  match datas with
  | [] => Ok (true, [])
  | d :: datas =>
      '(enough, wd, lockedVaultAmts) ←
        checkNewEntry db vaults isDepositToSC percent d lockedVaultAmts;
      '(enoughAll, wds) ← checkNewEntries db vaults isDepositToSC percent datas lockedVaultAmts;
      Ok (enough && enoughAll, wd :: wds)
  end.

Definition checkVaultForNewUnshieldReq (vaults : Vaults) (datas : list UnshieldRequestData)
    (isDepositToSC : bool) (percent : Z) (db : BridgeDB)
    : outcome (bool * list WaitingUnshieldReqData) :=
  checkNewEntries db vaults isDepositToSC percent datas ∅.

(** [state.param.PercentFeeWithDec()]: the parameter may be a nil pointer. *)
Definition PercentFeeWithDec (s : State) : outcome Z :=
  match param s with Some p => Ok p | None => Panic end.

(** Keep the cloned state when the update succeeds; otherwise the handler rejects the request
    and returns the state it was given. *)
Definition commitOr (m : M State unit) (cloned : State) (r : list BeaconInst)
    (insts : list BeaconInst) : M State (list BeaconInst) :=
  match m cloned with
  | (Ok _, s') => modifyS (λ _, s');; mret insts
  | (Err _, _) => mret r
  | (Panic, _) => panic
  | (OutOfFuel, _) => λ s, (OutOfFuel, s)
  end.

Section confirming.
Context `{!ConfirmHash}.

Definition unshield (db : BridgeDB) (a : UnshieldAction UnshieldRequest)
    (beaconHeightForConfirmInst : Z) : M State (list BeaconInst) :=
  let meta := ua_Meta a in
  let rejected code := [buildRejectedUnshieldReqInst meta (ua_ShardID a) (ua_TxReqID a) code] in
  s ← getS;
  let clonedState := Clone s in
  orReject (CloneVaultsByUnifiedTokenID clonedState (ur_UnifiedTokenID meta))
    (rejected NotFoundUnifiedTokenIDError) (λ vaults,
  percent ← lift (PercentFeeWithDec clonedState);
  orReject (checkVaultForNewUnshieldReq vaults (ur_Data meta) (ur_IsDepositToSC meta) percent db)
    (rejected CheckVaultUnshieldError) (λ '(isEnoughVault, datas),
  let req := mkWaitingReq (ua_TxReqID a) datas (ua_BeaconHeight a) in
  let statusStr := if (isEnoughVault : bool) then AcceptedStatusStr else WaitingStatusStr in
  let confirms :=
    if (isEnoughVault : bool) then buildBurningConfirmInsts req beaconHeightForConfirmInst
    else [] in
  commitOr (updateStateForUnshield (ur_UnifiedTokenID meta) req statusStr) clonedState
    (rejected ProducerUpdateStateError)
    (confirms ++ [buildUnshieldInst (ur_UnifiedTokenID meta) (ur_IsDepositToSC meta) req statusStr
                    (ua_ShardID a)]))).

(** ** The queue of waiting requests *)

(** Whether every entry of a request fits what the earlier requests of the queue leave in its
    vault; each entry is checked on its own. *)
Fixpoint vaultsEnough (vaults : Vaults) (datas : list WaitingUnshieldReqData)
    (lockedVaults : gmap Hash Z) : outcome bool :=
  match datas with
  | [] => Ok true
  | d :: datas =>
      v ← derefVault vaults (wd_IncTokenID d);
      let locked := lookupAmt lockedVaults (wd_IncTokenID d) in
      if amount v <=? locked then Ok false
      else if sub64 (amount v) locked <? receivedAmount d then Ok false
      else vaultsEnough vaults datas lockedVaults
  end.

Definition lockData (locked : gmap Hash Z) (d : WaitingUnshieldReqData) : gmap Hash Z :=
  <[wd_IncTokenID d := add64 (lookupAmt locked (wd_IncTokenID d)) (receivedAmount d)]> locked.

Definition checkVaultForWaitUnshieldReq (vaults : Vaults) (datas : list WaitingUnshieldReqData)
    (lockedVaults : gmap Hash Z) : outcome (bool * gmap Hash Z) :=
  isEnough ← vaultsEnough vaults datas lockedVaults;
  Ok (isEnough, if (isEnough : bool) then lockedVaults else foldl lockData lockedVaults datas).

(** The requests of one unified token, in the order of the queue. *)
Fixpoint fillQueue (unifiedTokenID : Hash) (bh : Z) (reqs : list BridgeAggWaitingUnshieldReq)
    (locked : gmap Hash Z) (clonedState : State) : outcome (list BeaconInst * State) :=
  match reqs with
  | [] => Ok ([], clonedState)
  | req :: reqs =>
      match unifiedTokenVaults clonedState !! unifiedTokenID with
      | None => fillQueue unifiedTokenID bh reqs locked clonedState
      | Some vaults =>
          '(isEnough, locked) ← checkVaultForWaitUnshieldReq vaults (wr_data req) locked;
          if negb isEnough then fillQueue unifiedTokenID bh reqs locked clonedState
          else
            match updateStateForUnshield unifiedTokenID req FilledStatusStr clonedState with
            | (Ok _, clonedState) =>
                '(insts, clonedState) ← fillQueue unifiedTokenID bh reqs locked clonedState;
                Ok (buildBurningConfirmInsts req bh
                      ++ buildUnshieldInst unifiedTokenID false req FilledStatusStr BridgeShardID
                      :: insts, clonedState)
            | (Err _, clonedState) => fillQueue unifiedTokenID bh reqs locked clonedState
            | (Panic, _) => Panic
            | (OutOfFuel, _) => OutOfFuel
            end
      end
  end.

(** The loop over the unified tokens goes in the order of Go's map iteration, [order]. *)
Fixpoint fillTokens (order : list Hash) (bh : Z)
    (waiting : gmap Hash (list BridgeAggWaitingUnshieldReq)) (clonedState : State)
    : outcome (list BeaconInst * State) :=
  match order with
  | [] => Ok ([], clonedState)
  | u :: order =>
      '(insts1, clonedState) ← fillQueue u bh (reqsOf waiting u) ∅ clonedState;
      '(insts2, clonedState) ← fillTokens order bh waiting clonedState;
      Ok (insts1 ++ insts2, clonedState)
  end.

Definition handleWaitingUnshieldReqs (order : list Hash) (bh : Z) : M State (list BeaconInst) :=
  s ← getS;
  '(insts, clonedState) ← lift (fillTokens order bh (waitingUnshieldReqs s) (Clone s));
  modifyS (λ _, clonedState);;
  mret insts.
End confirming.
End producer.
