(* ===== verification/BridgeCall.v ===== *)
(** Burning for a call of an external contract and adding unified tokens
    ([blockchain/bridgeagg/state_producer.go], [burnForCall] and [addToken]), the manager
    ([manager.go]) that runs the handlers of a block, and the sanity checks of the requests
    ([metadata/bridge]). *)
From S2P Require Import Prelude Hash BridgeVault BridgeDB BridgeState BridgeProducer.
From Stdlib Require Import Ascii String.

Local Open Scope Z_scope.

Section burn_for_call.
Context `{!BridgeAggParam, !ConfirmHash}.

Definition callUnshieldData (d : BurnForCallRequestData) : UnshieldRequestData :=
  mkUnshieldData (bd_IncTokenID d) (bd_BurningAmount d) (bd_BurningAmount d) "".

(** The confirmations of a call paid from the vaults: entry [i] of the request with entry [i]
    of the checked data. *)
Fixpoint unifiedCallConfirms (meta : BurnForCallRequest) (id : Hash) (bh : Z) (i : nat)
    (datas : list BurnForCallRequestData) (wds : list WaitingUnshieldReqData)
    : outcome (list BeaconInst) :=
  match datas, wds with
  | [], _ => Ok []
  | _ :: _, [] => Panic
  | d :: datas, wd :: wds =>
      netPrefix ← getPrefixByNetworkID (bd_ExternalNetworkID d);
      extAddress ← TrimNetworkPrefix (wd_ExternalTokenID wd) netPrefix;
      insts ← buildBurnForCallConfirmInsts meta id wd extAddress (bd_ExternalNetworkID d) i bh;
      rest ← unifiedCallConfirms meta id bh (S i) datas wds;
      Ok (insts ++ rest)
  end.

(** The confirmations of a call paid with a plain bridged token.  Every entry is confirmed with
    the index [0]. *)
Definition plainCallEntry (db : BridgeDB) (meta : BurnForCallRequest) (id : Hash) (bh : Z)
    (d : BurnForCallRequestData) : outcome (list BeaconInst * WaitingUnshieldReqData) :=
  if negb (bool_decide (bd_IncTokenID d = br_BurnTokenID meta))
  then Err "non-unified burnTokenID mismatch"
  else
    netPrefix ← getPrefixByNetworkID (bd_ExternalNetworkID d);
    tokenID ← FindExternalTokenID db (bd_IncTokenID d) netPrefix;
    extAddress ← TrimNetworkPrefix tokenID netPrefix;
    let amt :=
      if bool_decide (tokenID = nativeTokenOf netPrefix) then bd_BurningAmount d * 1000000000
      else bd_BurningAmount d in
    let wdata := mkWaitingData (bd_IncTokenID d) (bd_BurningAmount d) "" 0 tokenID amt
                   BurnForCallConfirmMeta in
    insts ← buildBurnForCallConfirmInsts meta id wdata extAddress (bd_ExternalNetworkID d) 0 bh;
    Ok (insts, wdata).

Fixpoint plainCallEntries (db : BridgeDB) (meta : BurnForCallRequest) (id : Hash) (bh : Z)
    (datas : list BurnForCallRequestData)
    : outcome (list BeaconInst * list WaitingUnshieldReqData) :=
  match datas with
  | [] => Ok ([], [])
  | d :: datas =>
      '(insts, wdata) ← plainCallEntry db meta id bh d;
      '(rest, wdatas) ← plainCallEntries db meta id bh datas;
      Ok (insts ++ rest, wdata :: wdatas)
  end.

Definition burnForCall (db : BridgeDB) (a : UnshieldAction BurnForCallRequest) (bh : Z)
    : M State (list BeaconInst) :=
  let meta := ua_Meta a in
  match br_Data meta with
  | [] => panic
  | first :: _ =>
      let rejected code :=
        [buildRejectedBurnForCallReqInst meta first (ua_ShardID a) (ua_TxReqID a) code] in
      s ← getS;
      let clonedState := Clone s in
      if negb (bool_decide (br_BurnTokenID meta = bd_IncTokenID first)) then
        orReject (CloneVaultsByUnifiedTokenID clonedState (br_BurnTokenID meta))
          (rejected NotFoundUnifiedTokenIDError) (λ vaults,
        percent ← lift (PercentFeeWithDec clonedState);
        orReject (checkVaultForNewUnshieldReq vaults (callUnshieldData <$> br_Data meta) true percent db)
          (rejected CheckVaultUnshieldError) (λ '(isEnoughVault, datas),
        if (isEnoughVault : bool) then
          let req := mkWaitingReq (ua_TxReqID a) datas (ua_BeaconHeight a) in
          orReject (unifiedCallConfirms meta (unshieldID req) bh 0 (br_Data meta) datas)
            (rejected ProducerUpdateStateError) (λ insts,
          commitOr (updateStateForUnshield (br_BurnTokenID meta) req AcceptedStatusStr) clonedState
            (rejected ProducerUpdateStateError)
            (insts ++ [buildAcceptedBurnForCallReqInst (Some (br_BurnTokenID meta)) req
                         AcceptedStatusStr (ua_ShardID a)]))
        else mret (rejected InsufficientFundsVaultError)))
      else
        match CloneVaultsByUnifiedTokenID clonedState (br_BurnTokenID meta) with
        | Ok _ => mret (rejected ProducerUpdateStateError)
        | _ =>
            orReject (plainCallEntries db meta (ua_TxReqID a) bh (br_Data meta))
              (rejected ProducerUpdateStateError) (λ '(insts, wdatas),
            modifyS (λ _, clonedState);;
            mret (insts ++ [buildAcceptedBurnForCallReqInst None
                     (mkWaitingReq (ua_TxReqID a) wdatas (ua_BeaconHeight a))
                     AcceptedStatusStr (ua_ShardID a)]))
        end
  end.

(** ** New unshield and call requests of a block, in the order the beacon sorted them *)
Inductive UnshieldActionForProducer :=
  | UnshieldAct (a : UnshieldAction UnshieldRequest)
  | BurnForCallAct (a : UnshieldAction BurnForCallRequest).

Definition runUnshieldAction (db : BridgeDB) (bh : Z) (a : UnshieldActionForProducer)
    : M State (list BeaconInst) :=
  match a with
  | UnshieldAct a => unshield db a bh
  | BurnForCallAct a => burnForCall db a bh
  end.

Fixpoint BuildNewUnshieldInstructions (db : BridgeDB) (bh : Z) (acts : list UnshieldActionForProducer)
    : M State (list BeaconInst) :=
  match acts with
  | [] => mret []
  | a :: acts =>
      insts ← runUnshieldAction db bh a;
      rest ← BuildNewUnshieldInstructions db bh acts;
      mret (insts ++ rest)
  end.
End burn_for_call.

(** ** Adding unified tokens

    Parsing an external address is go-ethereum's. *)
Class EVMAddress := {
  HexToAddress : string → string;
  IsHexAddress : string → bool }.

Section add_token.
Context `{!BridgeAggParam, !EVMAddress, !TokenRegistry}.

Definition GetExternalTokenIDByNetworkID (externalTokenID : string) (net : Z) : outcome string :=
  prefix ← getPrefixByNetworkID net;
  match GetNetworkTypeByNetworkID net with
  | (_, Some e) => Err e
  | (_, None) => Ok (prefix +:+ HexToAddress externalTokenID)
  end.

Definition PDEXCoinID : Hash := string_of_list_ascii (ascii_of_nat 6 :: replicate 31 "000"%char).

(** The tokens of the database by identifier, centralized ones first as in the list they are
    collected from, so that a decentralized record overwrites a centralized one. *)
Definition bridgeTokenIndex (db : BridgeDB) (tok : Hash) : option BridgeTokenInfo :=
  match tokenInfos db !! (false, tok) with
  | Some t => Some t
  | None => tokenInfos db !! (true, tok)
  end.

Definition knownExternalTokenID (db : BridgeDB) (ext : string) : bool :=
  bool_decide (ext ∈ externalTokenIDs db true ++ externalTokenIDs db false).

Definition hexAddressLength : nat := 42.

Definition validateConfigVault (db : BridgeDB) (tokenID : Hash) (vault : ConfigVault)
    : outcome unit :=
  let net := cv_NetworkID vault in
  let ext := cv_ExternalTokenID vault in
  if negb (isAggNetwork net) then Err "Cannot find networkID"
  else if cv_ExternalDecimal vault =? 0 then Err "ExternalTokenID cannot be 0"
  else if bool_decide (ext = ""%string) then Err "ExternalTokenID can not be empty"
  else if bool_decide (tokenID = PRVCoinID) || bool_decide (tokenID = PDEXCoinID)
  then Err "incTokenID is prv or pdex"
  else
    externalTokenID ← GetExternalTokenIDByNetworkID ext net;
    _ ← (match bridgeTokenIndex db tokenID with
         | Some t =>
             if bool_decide (ti_externalTokenID t = externalTokenID) then Ok tt
             else Err "ExternalTokenID is not valid with data from db"
         | None =>
             if knownExternalTokenID db externalTokenID then Err "ExternalTokenID has existed"
             else if CheckTokenIDExisted tokenID then Err "tokenID has existed"
             else Ok tt
         end : outcome unit);
    if negb (String.length ext =? hexAddressLength)%nat then Err "invalid length"
    else if negb (bool_decide (String.substring 0 2 ext = "0x"%string)) then Err "invalid format"
    else if negb (IsHexAddress (String.substring 2 40 ext)) then Err "invalid format"
    else Ok tt.

(** The sets the validation of a configuration fills: the unified tokens and the vault tokens
    seen so far. *)
Record AddTokenAcc := mkAddTokenAcc {
  at_vaults : gmap Hash Vaults;
  at_ac : AccumulatedValues;
  at_unified : gset Hash;
  at_inc : gset Hash }.

Definition addVault (db : BridgeDB) (s : State) (unifiedTokenID : Hash)
    (acc : AddTokenAcc * gset string) (tv : Hash * ConfigVault)
    : outcome (AddTokenAcc * gset string) :=
  let '(mkAddTokenAcc vs ac us incs, exts) := acc in
  let '(tokenID, vault) := tv in
  if bool_decide (tokenID = emptyHash) then Err "incTokenID cannot be empty"
  else if bool_decide (tokenID ∈ us) then Err "Duplicate incTokenID with unifiedTokenID"
  else
    _ ← validateConfigVault db tokenID vault;
    if bool_decide (is_Some (vaultOf s unifiedTokenID tokenID))
    then Err "Add an existed vault"
    else
      externalTokenID ← GetExternalTokenIDByNetworkID (cv_ExternalTokenID vault) (cv_NetworkID vault);
      if bool_decide (externalTokenID ∈ exts) then Err "Duplicate externalTokenID"
      else
        let v := NewVault (cv_ExternalDecimal vault) (cv_NetworkID vault) tokenID in
        let vaults := default ∅ (vs !! unifiedTokenID) in
        Ok (mkAddTokenAcc (<[unifiedTokenID := <[tokenID := v]> vaults]> vs)
              (setDBridgeTokenPair unifiedTokenID UnifiedTokenPrefix
                 (setDBridgeTokenPair tokenID externalTokenID ac))
              us ({[tokenID]} ∪ incs),
            {[externalTokenID]} ∪ exts).

Fixpoint foldOk {A B} (f : B → A → outcome B) (b : B) (l : list A) : outcome B :=
  match l with
  | [] => Ok b
  | a :: l => b ← f b a; foldOk f b l
  end.

Definition addUnifiedToken (db : BridgeDB) (s : State) (acc : AddTokenAcc)
    (uv : Hash * list (Hash * ConfigVault)) : outcome AddTokenAcc :=
  let '(mkAddTokenAcc vs ac us incs) := acc in
  let '(unifiedTokenID, vaults) := uv in
  if bool_decide (unifiedTokenID = PRVCoinID) || bool_decide (unifiedTokenID = PDEXCoinID)
  then Err "unifiedTokenID is prv or pdex"
  else if bool_decide (unifiedTokenID = emptyHash) then Err "Found empty unifiedTokenID"
  else if bool_decide (unifiedTokenID ∈ us) then Err "Duplicate unifiedTokenID"
  else if bool_decide (unifiedTokenID ∈ incs) then Err "Duplicate incTokenID"
  else
    let found := bool_decide (is_Some (vs !! unifiedTokenID)) in
    if CheckTokenIDExisted unifiedTokenID && negb found
    then Err "unifiedTokenID has existed in privacy tokens"
    else
      let vs := if found then vs else <[unifiedTokenID := ∅]> vs in
      '(acc, _) ← foldOk (addVault db s unifiedTokenID)
                    (mkAddTokenAcc vs ac ({[unifiedTokenID]} ∪ us) incs, ∅) vaults;
      Ok acc.

(** [unifiedTokens] is the configuration of the checkpoint, in the order of Go's map iteration;
    every failed check leaves the state and the accumulated values alone. *)
Definition addToken (db : BridgeDB) (unifiedTokens : option (list (Hash * list (Hash * ConfigVault))))
    (s : State) (ac : AccumulatedValues) : outcome (list BeaconInst * State * AccumulatedValues) :=
  match unifiedTokens with
  | None => Ok ([], s, ac)
  | Some uts =>
      clonedAC ← AC_Clone ac;
      match foldOk (addUnifiedToken db s)
              (mkAddTokenAcc (unifiedTokenVaults s) clonedAC ∅ ∅) uts with
      | Ok acc =>
          if bool_decide (at_inc acc = ∅) then Ok ([], s, ac)
          else Ok ([AddTokenInst uts], with_vaults (at_vaults acc) s, at_ac acc)
      | Err _ => Ok ([], s, ac)
      | Panic => Panic
      | OutOfFuel => OutOfFuel
      end
  end.
End add_token.

(** ** Sanity of unshield requests ([ValidateSanityData])

    [burned] is what the transaction burns: the amount and the token; the checks of the receiver
    and of the kind of transaction are left out. *)
Fixpoint saneEntries (unifiedTokenID : Hash) (total : Z) (datas : list UnshieldRequestData)
    : option Z :=
  match datas with
  | [] => Some total
  | d :: datas =>
      if negb (bool_decide (is_Some (hex_decode (list_ascii_of_string (ud_RemoteAddress d)))))
         || (ud_BurningAmount d =? 0) || bool_decide (ud_IncTokenID d = emptyHash)
         || bool_decide (ud_IncTokenID d = unifiedTokenID)
         || (ud_BurningAmount d <? ud_MinExpectedAmount d)
      then None
      else
        let total := add64 total (ud_BurningAmount d) in
        if total <? ud_BurningAmount d then None else saneEntries unifiedTokenID total datas
  end.

Definition UnshieldRequest_ValidateSanityData (maxLenOfPath : Z) (r : UnshieldRequest)
    (burned : Z * Hash) : bool :=
  negb (bool_decide (ur_UnifiedTokenID r = emptyHash))
  && (0 <? Z.of_nat (List.length (ur_Data r)))
  && (Z.of_nat (List.length (ur_Data r)) <=? maxLenOfPath)
  && match saneEntries (ur_UnifiedTokenID r) 0 (ur_Data r) with
     | None => false
     | Some total =>
         bool_decide (burned.2 = ur_UnifiedTokenID r)
         && (burned.1 =? total) && negb (burned.1 =? 0)
         && forallb (λ t, negb (bool_decide (t = PRVCoinID)) && negb (bool_decide (t = PDEXCoinID)))
              (ur_UnifiedTokenID r :: (ud_IncTokenID <$> ur_Data r))
     end.
