(* ===== verification/BridgeShield.v ===== *)
(** Shield requests: proofs of deposits on external networks turned into unified tokens
    ([blockchain/bridgeagg/state_producer.go], [shield], with the helpers of [utils.go] and
    [metadata/bridge/utils.go]).  Reading a receipt is go-ethereum's work and a parameter of the
    model; what the node does with the events of a receipt is modelled. *)
From S2P Require Import Prelude Hash InstructionText BridgeVault BridgeDB BridgeState BridgeProducer.
From Stdlib Require Import String.

Local Open Scope Z_scope.

(** A [Deposit] event and a [Redeposit] event of a receipt. *)
Record DepositLog := mkDepositLog { dl_token : string; dl_incAddress : string; dl_amount : Z }.
Record RedepositLog := mkRedepositLog {
  rl_token : string; rl_receiver : string; rl_amount : Z; rl_itx : string; rl_shard : Z }.

(** What the node gets from its libraries: parsing of proofs and receipts, the events of a
    receipt that a contract emitted, and payment addresses.  [redepositLogs] fails when a
    [Redeposit] event has a malformed field. *)
Class EVM := {
  Receipt : Type;
  contractAddress : Z → string;
  parseProof : string → option (string * Z);
  parseReceipt : string → option Receipt;
  depositLog : Receipt → string → option DepositLog;
  redepositLogs : Receipt → string → option (list RedepositLog);
  validPaymentAddress : string → bool;
  shardOfAddress : string → Z }.

(** [metadata/bridge.EVMInfo] *)
Record EVMInfo := mkEVMInfo {
  ei_ContractAddress : string;
  ei_Prefix : string;
  ei_Network : Z;
  ei_ListTxUsedInBlock : list string }.

Record DepositEventData := mkDepositEvent {
  de_Amount : Z;
  de_ReceiverStr : string;
  de_ExternalTokenID : string;
  de_IncTxID : string;
  de_ShardID : Z;
  de_IsOneTime : bool }.

Record ShieldRequestData := mkShieldData {
  sd_Proof : string;
  sd_NetworkID : Z;
  sd_IncTokenID : Hash }.

Record ShieldRequest := mkShieldRequest {
  sr_Data : list ShieldRequestData;
  sr_UnifiedTokenID : Hash }.

Definition IsBridgeTxHashUsedInBlock (uniqTx : string) (uniqTxsUsed : list string) : bool :=
  bool_decide (uniqTx ∈ uniqTxsUsed).

Definition ValidateDoubleShieldProof (uniqTx : string) (listTxUsed : list string) (net : Z)
    (db : BridgeDB) : bool :=
  if IsBridgeTxHashUsedInBlock uniqTx listTxUsed then false
  else negb (bool_decide ((net, uniqTx) ∈ txHashIssued db)).

Section shield.
Context `{!BridgeAggParam, !EVM, !TokenRegistry}.

Definition GetEVMInfoByNetworkID (net : Z) (ac : AccumulatedValues) : outcome EVMInfo :=
  if isAggNetwork net then
    prefix ← getPrefixByNetworkID net;
    Ok (mkEVMInfo (contractAddress net) prefix net (uniqTxsOf net ac))
  else Err "Invalid networkID".

Definition ExtractIssueEVMDataFromReceipt (r : Receipt) (contract prefix expectedIncAddrStr : string)
    : outcome (Z * string * string) :=
  match depositLog r contract with
  | None => Err "could not find or parse log map"
  | Some l =>
      if negb (bool_decide (expectedIncAddrStr = ""%string))
         && negb (bool_decide (dl_incAddress l = expectedIncAddrStr))
      then Err "different incognito address from bridge log map"
      else if bool_decide (expectedIncAddrStr = ""%string)
              && negb (validPaymentAddress (dl_incAddress l))
      then Err "invalid incognito address from bridge log map"
      else Ok (dl_amount l, dl_incAddress l, prefix +:+ dl_token l)
  end.

Definition ExtractRedepositEVMDataFromReceipt (r : Receipt) (contract prefix : string)
    : outcome (list DepositEventData) :=
  match redepositLogs r contract with
  | None => Err "could not parse redeposit event"
  | Some ls =>
      Ok ((λ l, mkDepositEvent (rl_amount l) (rl_receiver l) (prefix +:+ rl_token l) (rl_itx l)
                  (rl_shard l) true) <$> ls)
  end.

(** The receipt and the identifier of the external transaction.  The identifier of an EVM proof
    is built from the proof before the error of parsing it is looked at, so a proof or receipt
    that does not parse is a nil dereference. *)
Definition readProof (data : ShieldRequestData) (extra : option string)
    : outcome (outcome (string * Receipt)) :=
  match extra with
  | None => Panic
  | Some extra =>
      if fst (GetNetworkTypeByNetworkID (sd_NetworkID data)) =? EVMNetworkType then
        match parseProof (sd_Proof data), parseReceipt extra with
        | Some (blockHash, txIndex), Some r => Ok (Ok (blockHash +:+ FormatInt txIndex, r))
        | _, _ => Panic
        end
      else
        match parseReceipt extra with
        | Some r => Ok (Ok (sd_Proof data, r))
        | None => Ok (Err "unmarshal receipt")
        end
  end.

(** What the events of a request leave behind. *)
Record ShieldAcc := mkShieldAcc {
  sa_vaults : Vaults;
  sa_ac : AccumulatedValues;
  sa_used : list string;
  sa_valid : bool;
  sa_accepted : list AcceptedShieldRequestData;
  sa_reshield : list BeaconInst }.

(** One event: [Err] stands for the [continue] of the loop, with what the iteration changed
    before it; only the list of used transactions and the accumulated values can have changed. *)
Definition shieldEvent (db : BridgeDB) (ac : AccumulatedValues) (unified txReqID : Hash)
    (data : ShieldRequestData) (info : EVMInfo) (acc : ShieldAcc) (d : DepositEventData)
    : outcome ShieldAcc :=
  vault ← derefVault (sa_vaults acc) (sd_IncTokenID data);
  if negb (ValidateDoubleShieldProof (de_IncTxID d) (sa_used acc) (ei_Network info) db) then Ok acc
  else
    match VerifyTokenPair db ac (sd_IncTokenID data) (de_ExternalTokenID d) with
    | Panic => Panic
    | OutOfFuel => OutOfFuel
    | Err _ => Ok acc
    | Ok _ =>
        let dec :=
          if bool_decide (nativeTokenOf (ei_Prefix info) = de_ExternalTokenID d)
          then extDecimal vault
          else if BaseDecimal <? extDecimal vault then BaseDecimal else extDecimal vault in
        match ConvertAmountByDecimal (de_Amount d) dec true with
        | Panic => Panic
        | OutOfFuel => OutOfFuel
        | Err _ => Ok acc
        | Ok incAmount =>
            let incAmount := bigUint64 incAmount in
            match CalRewardForRefillVault vault incAmount with
            | Panic => Panic
            | OutOfFuel => OutOfFuel
            | Err _ => Ok acc
            | Ok reward =>
                let used := sa_used acc ++ [de_IncTxID d] in
                match UpdateUniqTxsUsed (sd_NetworkID data) used (sa_ac acc) with
                | (Ok _, clonedAC) =>
                    match updateVaultForRefill vault incAmount reward with
                    | Ok vault' =>
                        let sdata := mkAcceptedShieldData incAmount reward (de_IncTxID d)
                                       (de_ExternalTokenID d) (sd_NetworkID data)
                                       (sd_IncTokenID data) in
                        let vaults := <[sd_IncTokenID data := vault']> (sa_vaults acc) in
                        if de_IsOneTime d then
                          Ok (mkShieldAcc vaults clonedAC used true (sa_accepted acc)
                                (sa_reshield acc ++
                                   [buildAcceptedInst IssuingReshieldResponseMeta (de_ShardID d)
                                      (ReshieldContent (mkAcceptedReshield (Some unified)
                                         (de_ReceiverStr d) txReqID sdata))]))
                        else
                          Ok (mkShieldAcc vaults clonedAC used true (sa_accepted acc ++ [sdata])
                                (sa_reshield acc))
                    | _ => Ok (mkShieldAcc (sa_vaults acc) clonedAC used (sa_valid acc)
                                 (sa_accepted acc) (sa_reshield acc))
                    end
                | (_, clonedAC) =>
                    Ok (mkShieldAcc (sa_vaults acc) clonedAC used (sa_valid acc) (sa_accepted acc)
                          (sa_reshield acc))
                end
            end
        end
    end.

Fixpoint shieldEvents (db : BridgeDB) (ac : AccumulatedValues) (unified txReqID : Hash)
    (data : ShieldRequestData) (info : EVMInfo) (acc : ShieldAcc) (ds : list DepositEventData)
    : outcome ShieldAcc :=
  match ds with
  | [] => Ok acc
  | d :: ds =>
      acc ← shieldEvent db ac unified txReqID data info acc d;
      shieldEvents db ac unified txReqID data info acc ds
  end.

(** The result of an entry: the accumulator and the payment address the deposits of the request
    go to, or the code of a rejection. *)
Inductive entryResult := Accepted (acc : ShieldAcc) (incAddrStr : string) | RejectedWith (code : Z).

(** The events of the receipt of an entry: the redeposits, then the deposit. *)
Definition receiptEvents (r : Receipt) (info : EVMInfo) (uniqTx incAddrStr : string)
    : option (list DepositEventData * string) :=
  let redeposits :=
    ExtractRedepositEVMDataFromReceipt r (ei_ContractAddress info) (ei_Prefix info) in
  match ExtractIssueEVMDataFromReceipt r (ei_ContractAddress info) (ei_Prefix info) incAddrStr with
  | Ok (extAmount, incAddr, extTokenID) =>
      let l := match redeposits with Ok l => l | _ => [] end in
      Some (l ++ [mkDepositEvent extAmount incAddr extTokenID uniqTx (shardOfAddress incAddr) false],
            incAddr)
  | _ => match redeposits with Ok l => Some (l, incAddrStr) | _ => None end
  end.

Definition shieldEntry (db : BridgeDB) (ac : AccumulatedValues) (unified txReqID : Hash)
    (acc : ShieldAcc) (incAddrStr : string) (data : ShieldRequestData) (extra : option string)
    : outcome entryResult :=
  match sa_vaults acc !! sd_IncTokenID data with
  | None => Ok (RejectedWith InvalidPTokenIDError)
  | Some vault =>
      if negb (networkID vault =? sd_NetworkID data) then Ok (RejectedWith InvalidNetworkIDError)
      else
        read ← readProof data extra;
        match read with
        | Ok (uniqTx, r) =>
            match GetEVMInfoByNetworkID (sd_NetworkID data) (sa_ac acc) with
            | Ok info =>
                match receiptEvents r info uniqTx incAddrStr with
                | None => Ok (RejectedWith ExtractDataFromReceiptError)
                | Some (events, incAddrStr) =>
                    acc ← shieldEvents db ac unified txReqID data info
                            (mkShieldAcc (sa_vaults acc) (sa_ac acc) (ei_ListTxUsedInBlock info)
                               false (sa_accepted acc) (sa_reshield acc)) events;
                    Ok (if sa_valid acc then Accepted acc incAddrStr
                        else RejectedWith NoValidShieldEventError)
                end
            | _ => Ok (RejectedWith InvalidNetworkIDError)
            end
        | _ => Ok (RejectedWith UnmarshalShieldProofError)
        end
  end.

Fixpoint shieldEntries (db : BridgeDB) (ac : AccumulatedValues) (unified txReqID : Hash)
    (extras : list string) (i : nat) (acc : ShieldAcc) (incAddrStr : string)
    (datas : list ShieldRequestData) : outcome entryResult :=
  match datas with
  | [] => Ok (Accepted acc incAddrStr)
  | d :: datas =>
      r ← shieldEntry db ac unified txReqID acc incAddrStr d (extras !! i);
      match r with
      | RejectedWith code => Ok (RejectedWith code)
      | Accepted acc incAddrStr =>
          shieldEntries db ac unified txReqID extras (S i) acc incAddrStr datas
      end
  end.

Definition rejectShield (shardID : Z) (txReqID : Hash) (code : Z) : BeaconInst :=
  buildRejectedInst IssuingUnifiedTokenRequestMeta shardID txReqID code None.

Definition acceptedShieldInsts (unified txReqID : Hash) (acc : ShieldAcc) (incAddrStr : string)
    : list BeaconInst :=
  (if bool_decide (sa_accepted acc = []) then []
   else [buildAcceptedInst IssuingUnifiedTokenRequestMeta (shardOfAddress incAddrStr)
           (ShieldContent (mkAcceptedShield incAddrStr unified txReqID (sa_accepted acc)))])
  ++ sa_reshield acc.

(** The handler threads the state and the accumulated values of the block. *)
Definition shield (db : BridgeDB) (action : option (Action ShieldRequest)) (shardID : Z)
    : M (State * AccumulatedValues) (list BeaconInst) :=
  match action with
  | None => mret []
  | Some a =>
      let meta := act_Meta a in
      let unified := sr_UnifiedTokenID meta in
      '(s, ac) ← getS;
      match CloneVaultsByUnifiedTokenID s unified with
      | Ok clonedVaults =>
          clonedAC ← lift (AC_Clone ac);
          res ← lift (shieldEntries db ac unified (act_TxReqID a) (act_ExtraData a) 0
                        (mkShieldAcc clonedVaults clonedAC [] false [] []) "" (sr_Data meta));
          match res with
          | RejectedWith code => mret [rejectShield shardID (act_TxReqID a) code]
          | Accepted acc incAddrStr =>
              modifyS (λ _,
                (with_vaults (<[unified := sa_vaults acc]> (unifiedTokenVaults s)) s,
                 setDBridgeTokenPair unified UnifiedTokenPrefix (sa_ac acc)));;
              mret (acceptedShieldInsts unified (act_TxReqID a) acc incAddrStr)
          end
      | _ => mret [rejectShield shardID (act_TxReqID a) NotFoundUnifiedTokenIDError]
      end
  end.
End shield.
