(* ===== verification/BridgeProcessor.v ===== *)
(** The processor of the bridge aggregator ([blockchain/bridgeagg/state_processor.go]) and the
    manager ([manager.go]): every node applies the instructions of a block to its state, counts
    what each token gained and lost and stores the difference. *)
From S2P Require Import Prelude Hash BridgeVault BridgeDB BridgeState BridgeProducer BridgeCall BridgeShield.
From Stdlib Require Import String.

Local Open Scope Z_scope.

(** [metadata.UpdatingInfo] *)
Record UpdatingInfo := mkUpdatingInfo {
  CountUpAmt : Z;
  DeductAmt : Z;
  ui_TokenID : Hash;
  ui_ExternalTokenID : string;
  ui_IsCentralized : bool }.

(** What the processor stores about the requests. *)
Inductive RequestStatus :=
  | ModifyParamStatus (status percentFeeWithDec errorCode : Z)
  | ConvertStatus (status convertPUnifiedAmount reward errorCode : Z)
  | ShieldStatus (status errorCode : Z) (data : list (Z * Z))
  | UnshieldStatus (status errorCode : Z) (data : list (Z * Z)).

Inductive StatusType := ModifyParamPrefix | ConvertPrefix | ShieldPrefix | UnshieldPrefix.

#[export] Instance StatusType_eq_dec : EqDecision StatusType.
Proof. solve_decision. Defined.

(** The state a block is processed in: the aggregator's own, the bridge records, the statuses
    (the latest first), the counters per token, and the identifiers of the confirmations that
    the plain bridge must skip. *)
Record ProcState := mkProcState {
  ps_state : State;
  ps_db : BridgeDB;
  ps_status : list (StatusType * Hash * RequestStatus);
  ps_infos : gmap Hash UpdatingInfo;
  ps_unshieldTxIDs : gset Hash }.

Definition onState {A} (m : M State A) : M ProcState A :=
  zoom ps_state (λ s p, mkProcState s (ps_db p) (ps_status p) (ps_infos p) (ps_unshieldTxIDs p)) m.
Definition onDB (f : BridgeDB → BridgeDB) : M ProcState unit :=
  modifyS (λ p, mkProcState (ps_state p) (f (ps_db p)) (ps_status p) (ps_infos p) (ps_unshieldTxIDs p)).
Definition onInfos (f : gmap Hash UpdatingInfo → gmap Hash UpdatingInfo) : M ProcState unit :=
  modifyS (λ p, mkProcState (ps_state p) (ps_db p) (ps_status p) (f (ps_infos p)) (ps_unshieldTxIDs p)).
Definition onTxIDs (f : gset Hash → gset Hash) : M ProcState unit :=
  modifyS (λ p, mkProcState (ps_state p) (ps_db p) (ps_status p) (ps_infos p) (f (ps_unshieldTxIDs p))).
Definition TrackBridgeAggStatus (ty : StatusType) (txReqID : Hash) (st : RequestStatus)
    : M ProcState unit :=
  modifyS (λ p, mkProcState (ps_state p) (ps_db p) ((ty, txReqID, st) :: ps_status p) (ps_infos p)
                  (ps_unshieldTxIDs p)).

(** An entry of the counters is created with the amount or grows by it, wrapping around. *)
Definition countUp (tok : Hash) (ext : string) (amt : Z) (infos : gmap Hash UpdatingInfo)
    : gmap Hash UpdatingInfo :=
  <[tok := match infos !! tok with
           | Some i => mkUpdatingInfo (add64 (CountUpAmt i) amt) (DeductAmt i) (ui_TokenID i)
                         (ui_ExternalTokenID i) (ui_IsCentralized i)
           | None => mkUpdatingInfo amt 0 tok ext false
           end]> infos.
Definition deduct (tok : Hash) (ext : string) (amt : Z) (infos : gmap Hash UpdatingInfo)
    : gmap Hash UpdatingInfo :=
  <[tok := match infos !! tok with
           | Some i => mkUpdatingInfo (CountUpAmt i) (add64 (DeductAmt i) amt) (ui_TokenID i)
                         (ui_ExternalTokenID i) (ui_IsCentralized i)
           | None => mkUpdatingInfo 0 amt tok ext false
           end]> infos.

(** Decoding the content of an instruction into the wrong type of object is an error here; the
    producer never writes such an instruction. *)
Definition decodeError {A} : M ProcState A := fail "Can not unmarshal instruction".

Definition modifyParam_process (i : Instruction) : M ProcState unit :=
  if negb (bool_decide (in_Status i = AcceptedStatusStr))
  then fail "Invalid status of modify param instruction"
  else
    match in_Content i with
    | ModifyParamContent txReqID percent =>
        onState (modifyS (updateStateForModifyParam percent));;
        TrackBridgeAggStatus ModifyParamPrefix txReqID (ModifyParamStatus 1 percent 0)
    | _ => decodeError
    end.

Definition convert_process (i : Instruction) : M ProcState unit :=
  if bool_decide (in_Status i = AcceptedStatusStr) then
    match in_Content i with
    | ConvertContent c =>
        p ← getS;
        match unifiedTokenVaults (ps_state p) !! ac_UnifiedTokenID c with
        | None => fail "UnifiedTokenID is not found"
        | Some vaults =>
            match vaults !! ac_TokenID c with
            | None => fail "TokenID is invalid"
            | Some vault =>
                vault' ← lift (updateVaultForRefill vault (ac_ConvertPUnifiedAmount c) (ac_Reward c));
                onState (setVaults (ac_UnifiedTokenID c) (<[ac_TokenID c := vault']> vaults));;
                onInfos (deduct (ac_TokenID c) "" (ac_ConvertPTokenAmount c));;
                onInfos (countUp (ac_UnifiedTokenID c) UnifiedTokenPrefix (ac_ConvertPUnifiedAmount c));;
                TrackBridgeAggStatus ConvertPrefix (ac_TxReqID c)
                  (ConvertStatus 1 (ac_ConvertPUnifiedAmount c) (ac_Reward c) 0)
            end
        end
    | _ => decodeError
    end
  else if bool_decide (in_Status i = RejectedStatusStr) then
    match in_Content i with
    | RejectContent txReqID code _ =>
        TrackBridgeAggStatus ConvertPrefix txReqID (ConvertStatus 0 0 0 code)
    | _ => decodeError
    end
  else fail "Can not recognize status".

(** The loop over the accepted data works on cloned vaults; the identifiers of the external
    transactions are stored as it goes. *)
Fixpoint shieldDatas (datas : list AcceptedShieldRequestData) (vaults : Vaults)
    : M ProcState Vaults :=
  match datas with
  | [] => mret vaults
  | d :: datas =>
      match vaults !! as_IncTokenID d with
      | None => fail "Can not found vault"
      | Some vault =>
          vault' ← lift (updateVaultForRefill vault (as_ShieldAmount d) (as_Reward d));
          match GetInsertTxHashIssuedFuncByNetworkID (as_NetworkID d) with
          | None => fail "cannot find networkID"
          | Some insertTx =>
              onDB (insertTx (as_UniqTx d));;
              shieldDatas datas (<[as_IncTokenID d := vault']> vaults)
          end
      end
  end.

Definition shield_process (i : Instruction) : M ProcState unit :=
  if bool_decide (in_Status i = AcceptedStatusStr) then
    match in_Content i with
    | ShieldContent c =>
        p ← getS;
        clonedVaults ← lift (CloneVaultsByUnifiedTokenID (ps_state p) (ai_UnifiedTokenID c));
        vaults ← shieldDatas (ai_Data c) clonedVaults;
        let mintAmt := add64 (sum64 (as_ShieldAmount <$> ai_Data c)) (sum64 (as_Reward <$> ai_Data c)) in
        onState (setVaults (ai_UnifiedTokenID c) vaults);;
        onInfos (countUp (ai_UnifiedTokenID c) UnifiedTokenPrefix mintAmt);;
        TrackBridgeAggStatus ShieldPrefix (ai_TxReqID c)
          (ShieldStatus 1 0 ((λ d, (as_ShieldAmount d, as_Reward d)) <$> ai_Data c))
    | _ => decodeError
    end
  else if bool_decide (in_Status i = RejectedStatusStr) then
    match in_Content i with
    | RejectContent txReqID code _ =>
        TrackBridgeAggStatus ShieldPrefix txReqID (ShieldStatus 0 code [])
    | _ => decodeError
    end
  else fail "Can not recognize status".

Definition reshield_process (i : Instruction) : M ProcState unit :=
  if bool_decide (in_Status i = AcceptedStatusStr) then
    match in_Content i with
    | ReshieldContent c =>
        let d := rr_ReshieldData c in
        (match rr_UnifiedTokenID c with
         | None => mret tt
         | Some unified =>
             p ← getS;
             clonedVaults ← lift (CloneVaultsByUnifiedTokenID (ps_state p) unified);
             match clonedVaults !! as_IncTokenID d with
             | None => fail "Can not found vault"
             | Some vault =>
                 vault' ← lift (updateVaultForRefill vault (as_ShieldAmount d) (as_Reward d));
                 onState (setVaults unified (<[as_IncTokenID d := vault']> clonedVaults))
             end
         end);;
        match GetInsertTxHashIssuedFuncByNetworkID (as_NetworkID d) with
        | None => fail "cannot find networkID"
        | Some insertTx =>
            onDB (insertTx (as_UniqTx d));;
            onInfos (countUp (default (as_IncTokenID d) (rr_UnifiedTokenID c))
                       (match rr_UnifiedTokenID c with
                        | None => as_ExternalTokenID d | Some _ => UnifiedTokenPrefix end)
                       (add64 (as_ShieldAmount d) (as_Reward d)));;
            TrackBridgeAggStatus ShieldPrefix (rr_TxReqID c)
              (ShieldStatus 1 0 [(as_ShieldAmount d, as_Reward d)])
        end
    | _ => decodeError
    end
  else fail "invalid status for reshield processing".

Section confirming.
Context `{!ConfirmHash}.

(** The confirmations of a request are numbered like its entries. *)
Definition confirmIDs (req : BridgeAggWaitingUnshieldReq) : list Hash :=
  imap (λ index _, confirmTxID (unshieldID req) index) (wr_data req).

Definition unshield_process (i : Instruction) : M ProcState unit :=
  statusByte ← lift (getStatusByteFromStatuStr (in_Status i));
  if bool_decide (in_Status i = RejectedStatusStr) then
    match in_Content i with
    | RejectContent txReqID code _ =>
        TrackBridgeAggStatus UnshieldPrefix txReqID (UnshieldStatus statusByte code [])
    | _ => decodeError
    end
  else
    match in_Content i with
    | UnshieldContent c =>
        let req := au_WaitingUnshieldReq c in
        let unified := au_UnifiedTokenID c in
        onState (updateStateForUnshield unified req (in_Status i));;
        (if bool_decide (in_Status i = WaitingStatusStr) || bool_decide (in_Status i = AcceptedStatusStr)
         then
           p ← getS;
           if negb (IsBridgeTokenExistedByType (ps_db p) unified false)
           then fail "Not found bridge token"
           else onInfos (deduct unified UnifiedTokenPrefix
                           (sum64 (wd_BurningAmount <$> wr_data req)))
         else mret tt);;
        (if bool_decide (in_Status i = AcceptedStatusStr) || bool_decide (in_Status i = FilledStatusStr)
         then onTxIDs (λ ids, list_to_set (confirmIDs req) ∪ ids) else mret tt);;
        TrackBridgeAggStatus UnshieldPrefix (unshieldID req)
          (UnshieldStatus statusByte 0 ((λ d, (receivedAmount d, wd_Fee d)) <$> wr_data req))
    | _ => decodeError
    end.

Definition burnForCall_process (i : Instruction) : M ProcState unit :=
  statusByte ← lift (getStatusByteFromStatuStr (in_Status i));
  if bool_decide (in_Status i = RejectedStatusStr) then
    match in_Content i with
    | RejectContent txReqID code _ =>
        TrackBridgeAggStatus UnshieldPrefix txReqID (UnshieldStatus statusByte code [])
    | _ => decodeError
    end
  else
    match in_Content i with
    | UnshieldContent c =>
        let req := au_WaitingUnshieldReq c in
        if negb (bool_decide (au_UnifiedTokenID c = emptyHash)) then unshield_process i
        else
          match wr_data req with
          | [] => panic
          | first :: _ =>
              p ← getS;
              if negb (IsBridgeTokenExistedByType (ps_db p) (wd_IncTokenID first) false)
              then fail "Not found bridge token"
              else
                onInfos (deduct (wd_IncTokenID first) (wd_ExternalTokenID first)
                           (sum64 (wd_BurningAmount <$> wr_data req)));;
                TrackBridgeAggStatus UnshieldPrefix (unshieldID req)
                  (UnshieldStatus statusByte 0 ((λ d, (wd_BurningAmount d, 0)) <$> wr_data req))
          end
    | _ => decodeError
    end.

(** Adding tokens creates a record for every token and an empty vault for every listed one, also
    over a vault that exists. *)
Fixpoint addVaults_process `{!EVMAddress} (unified : Hash) (vaults : list (Hash * ConfigVault))
    (s : State) (db : BridgeDB) : outcome (State * BridgeDB) :=
  match vaults with
  | [] => Ok (s, db)
  | (tokenID, vault) :: vaults =>
      ext ← GetExternalTokenIDByNetworkID (cv_ExternalTokenID vault) (cv_NetworkID vault);
      let db := UpdateBridgeTokenInfo tokenID ext false 0 BridgePlusOperator db in
      let v := NewVault (cv_ExternalDecimal vault) (cv_NetworkID vault) tokenID in
      let vs := default ∅ (unifiedTokenVaults s !! unified) in
      addVaults_process unified vaults
        (with_vaults (<[unified := <[tokenID := v]> vs]> (unifiedTokenVaults s)) s) db
  end.

Fixpoint addToken_process `{!EVMAddress} (uts : list (Hash * list (Hash * ConfigVault)))
    (s : State) (db : BridgeDB) : outcome (State * BridgeDB) :=
  match uts with
  | [] => Ok (s, db)
  | (unified, vaults) :: uts =>
      let s := with_vaults (<[unified := default ∅ (unifiedTokenVaults s !! unified)]>
                              (unifiedTokenVaults s)) s in
      let db := UpdateBridgeTokenInfo unified UnifiedTokenPrefix false 0 BridgePlusOperator db in
      '(s, db) ← addVaults_process unified vaults s db;
      addToken_process uts s db
  end.

Section manager.
Context `{!BridgeAggParam, !EVMAddress}.

(** ** One instruction and the whole block *)
Definition processInst (i : BeaconInst) : M ProcState unit :=
  match i with
  | AddTokenInst uts =>
      p ← getS;
      '(s, db) ← lift (addToken_process uts (Clone (ps_state p)) (ps_db p));
      modifyS (λ p, mkProcState s db (ps_status p) (ps_infos p) (ps_unshieldTxIDs p))
  | AggInst i =>
      let ty := in_MetaType i in
      if ty =? BridgeAggConvertTokenToUnifiedTokenRequestMeta then convert_process i
      else if ty =? IssuingUnifiedTokenRequestMeta then shield_process i
      else if ty =? BurningUnifiedTokenRequestMeta then unshield_process i
      else if ty =? BridgeAggModifyParamMeta then modifyParam_process i
      else if ty =? BurnForCallRequestMeta then burnForCall_process i
      else if ty =? IssuingReshieldResponseMeta then reshield_process i
      else mret tt
  | ConfirmInst _ | CallConfirmInst _ | OtherInst => mret tt
  end.

Fixpoint processInsts (insts : list BeaconInst) : M ProcState unit :=
  match insts with
  | [] => mret tt
  | i :: insts => processInst i;; processInsts insts
  end.

(** The net change of a token; equal counters leave the operator empty and the amount [0]. *)
Definition netChange (i : UpdatingInfo) : Z * string :=
  if DeductAmt i <? CountUpAmt i then (sub64 (CountUpAmt i) (DeductAmt i), BridgePlusOperator)
  else if CountUpAmt i <? DeductAmt i then (sub64 (DeductAmt i) (CountUpAmt i), BridgeMinusOperator)
  else (0, ""%string).

Definition storeInfo (db : BridgeDB) (i : UpdatingInfo) : BridgeDB :=
  UpdateBridgeTokenInfo (ui_TokenID i) (ui_ExternalTokenID i) (ui_IsCentralized i)
    (fst (netChange i)) (snd (netChange i)) db.

(** The counters are stored in the order of Go's map iteration; every token has one entry. *)
Definition storeInfos (infos : gmap Hash UpdatingInfo) (db : BridgeDB) : BridgeDB :=
  foldl storeInfo db (map_to_list infos).*2.

Definition Process (insts : list BeaconInst) (s : State) (db : BridgeDB)
    : outcome (State * BridgeDB * gset Hash) :=
  '(_, p) ← runM (processInsts insts)
              (mkProcState (InitBridgeAggParamDefault s) db [] ∅ ∅);
  Ok (ps_state p, storeInfos (ps_infos p) (ps_db p), ps_unshieldTxIDs p).
End manager.
End confirming.

(** ** Building the instructions of a block

    Conversions first, then shields, the queue, and the parameter; the requests of a block come
    as pairs of a shard and the decoded content. *)
Section build.
Context `{!BridgeAggParam, !ConfirmHash, !EVM, !TokenRegistry}.

Record BlockActions := mkBlockActions {
  ConvertActions : list (Z * option (Action ConvertTokenToUnifiedTokenRequest));
  ShieldActions : list (Z * option (Action ShieldRequest));
  ModifyParamActions : list (Z * option (Action Z)) }.

Fixpoint runActions {S A} (f : A → M S (list BeaconInst)) (acts : list A)
    : M S (list BeaconInst) :=
  match acts with
  | [] => mret []
  | a :: acts => insts ← f a; rest ← runActions f acts; mret (insts ++ rest)
  end.

Definition onFst {S T A} (m : M S A) : M (S * T) A := zoom fst (λ s st, (s, snd st)) m.

Definition BuildInstructions (db : BridgeDB) (order : list Hash) (beaconHeight : Z)
    (acts : BlockActions) : M (State * AccumulatedValues) (list BeaconInst) :=
  modifyS (λ st, (InitBridgeAggParamDefault (fst st), snd st));;
  i1 ← runActions (λ a, onFst (convert (snd a) (fst a))) (ConvertActions acts);
  i2 ← runActions (λ a, shield db (snd a) (fst a)) (ShieldActions acts);
  i3 ← onFst (handleWaitingUnshieldReqs order beaconHeight);
  i4 ← runActions (λ a, onFst (modifyParam (snd a) (fst a))) (ModifyParamActions acts);
  mret (i1 ++ i2 ++ i3 ++ i4).
End build.
