(* ===== verification/BridgeSound.v ===== *)
(** Producer and processor of the bridge aggregator agree: every node can apply the
    instructions the producer wrote, ends with the same vaults, keeps the invariant, and what
    backs a unified token changes by what the instructions mint and burn.

    First, what an accepted check of a new unshield request ([checkVaultForNewUnshieldReq] of
    [blockchain/bridgeagg/utils.go]) guarantees about the entries, the fees and the vaults. *)
From S2P Require Import Prelude Hash BridgeVault BridgeDB BridgeState BridgeInvariant BridgeProducer BridgeCall BridgeShield BridgeProcessor.
From Stdlib Require Import String.

Local Open Scope Z_scope.

(** What the sanity check of a request guarantees about the amounts. *)
Record saneAmounts (datas : list UnshieldRequestData) : Prop := {
  sa_pos : Forall (λ d, 0 < ud_BurningAmount d) datas;
  sa_total : list_sum ud_BurningAmount datas < word64 }.

Lemma saneEntries_spec u datas total total' :
  Forall (λ d, in_u64 (ud_BurningAmount d)) datas → in_u64 total →
  saneEntries u total datas = Some total' →
  Forall (λ d, 0 < ud_BurningAmount d) datas ∧
  total' = total + list_sum ud_BurningAmount datas ∧ in_u64 total'.
Proof.
  revert total. induction datas as [|d datas IH]; intros total Hd Ht; cbn.
  - intros [= <-]. split; [constructor|]. split; [unfold list_sum; cbn; lia|done].
  - apply Forall_cons in Hd as [Hd Hds]. destruct (negb _ || _ || _ || _ || _) eqn:E; [done|].
    rewrite !orb_false_iff in E. destruct E as [[[[_ E] _] _] _]. apply Z.eqb_neq in E.
    destruct (add64_wrap total (ud_BurningAmount d) Ht Hd) as [[-> Hw]|[-> Hw]];
      destruct (Z.ltb_spec (total + ud_BurningAmount d) (ud_BurningAmount d)); unfold in_u64 in *;
      try (intros [=]; lia); try lia.
    + intros (Hpos & -> & ?)%IH; [|done|lia]. rewrite list_sum_cons.
      split; [constructor; [lia|done]|]. split; lia.
    + destruct (Z.ltb_spec (total + ud_BurningAmount d - word64) (ud_BurningAmount d)); [done|lia].
Qed.

Lemma sanity_amounts maxLen r burned :
  Forall (λ d, in_u64 (ud_BurningAmount d)) (ur_Data r) →
  UnshieldRequest_ValidateSanityData maxLen r burned = true →
  saneAmounts (ur_Data r) ∧ ur_UnifiedTokenID r ≠ emptyHash ∧
  burned = (list_sum ud_BurningAmount (ur_Data r), ur_UnifiedTokenID r).
Proof.
  intros Hd. unfold UnshieldRequest_ValidateSanityData.
  destruct (saneEntries _ _ _) as [total|] eqn:E; [|rewrite !andb_true_iff; by intros [_ ?]].
  apply saneEntries_spec in E as (Hpos & -> & Ht); [|done|unfold in_u64; pose proof word64_pos; lia].
  rewrite !andb_true_iff, negb_true_iff, bool_decide_eq_false, !bool_decide_eq_true, Z.eqb_eq.
  intros ([[? _] _] & [[Ht' Hb] _] & _). destruct burned as [b t]. cbn in *.
  split; [split; [done|unfold in_u64 in Ht; lia]|]. split; [done|]. by subst.
Qed.

Lemma burns_nonneg datas : Forall (λ d, 0 < ud_BurningAmount d) datas →
  0 ≤ list_sum ud_BurningAmount datas.
Proof. intros Hp. apply list_sum_nonneg. eapply Forall_impl; [exact Hp|]. cbn. lia. Qed.

Section checks.
Context `{!BridgeAggParam, !GoodBridgeAggParam}.
Variable db : BridgeDB.

(** What an accepted entry promises: the burned amount of the request, a fee that leaves at
    least the amount the user expects, nothing charged when the money is there, and something
    paid on the other network. *)
Record checked (d : UnshieldRequestData) (wd : WaitingUnshieldReqData) : Prop := {
  ck_token : wd_IncTokenID wd = ud_IncTokenID d;
  ck_burn : wd_BurningAmount wd = ud_BurningAmount d;
  ck_address : wd_RemoteAddress wd = ud_RemoteAddress d;
  ck_min : ud_MinExpectedAmount d ≤ receivedAmount wd;
  ck_paid : wd_ExternalReceivedAmt wd ≠ 0;
  ck_data : wf_data wd }.

Lemma checkNewEntry_spec vs dep percent d locked enough wd locked' :
  wf_vaults vs → in_u64 percent → 0 < ud_BurningAmount d →
  0 ≤ lookupAmt locked (ud_IncTokenID d) →
  lookupAmt locked (ud_IncTokenID d) + ud_BurningAmount d < word64 →
  checkNewEntry db vs dep percent d locked = Ok (enough, wd, locked') →
  ∃ v, vs !! ud_IncTokenID d = Some v ∧ checked d wd ∧
    enough = (ud_BurningAmount d <=? free v locked) ∧ (dep = true → enough = true) ∧
    (enough = true → wd_Fee wd = 0) ∧
    locked' = <[ud_IncTokenID d := lookupAmt locked (ud_IncTokenID d) + receivedAmount wd]> locked.
Proof.
  intros Hvs Hpc Hpos Hl0 Hl. unfold checkNewEntry.
  destruct (vs !! ud_IncTokenID d) as [v|] eqn:Hv; [|done]. intros Hrest. exists v.
  split; [done|]. revert Hrest.
  destruct (map_Forall_lookup_1 _ _ _ _ Hvs Hv) as [Hwv Htok].
  destruct (burn_fee v (ud_BurningAmount d) percent locked Hwv) as (fee & -> & Hfee & Hfree);
    [lia|done|by rewrite Htok..|]. cbn. rewrite Htok in *.
  set (en := ud_BurningAmount d <=? free v locked) in *.
  destruct (negb en && dep) eqn:Hdep; [done|].
  assert (0 ≤ free v locked) as Hfr by (unfold free; lia).
  assert (0 ≤ fee ≤ ud_BurningAmount d) as Hfb by lia.
  rewrite (sub64_exact (ud_BurningAmount d) fee) by (unfold in_u64; lia).
  destruct (Z.ltb_spec (ud_BurningAmount d - fee) (ud_MinExpectedAmount d)); [done|].
  intros (prefix & Hpre & Hrest)%outcome_bind_Ok.
  apply outcome_bind_Ok in Hrest as (ext & Hext & Hrest).
  apply outcome_bind_Ok in Hrest as (amt & Hamt & Hrest).
  destruct (Z.eqb_spec amt 0); [done|].
  apply outcome_bind_Ok in Hrest as (mt & Hmt & Hrest). injection Hrest as <- <- <-.
  assert (wf_data (mkWaitingData (ud_IncTokenID d) (ud_BurningAmount d) (ud_RemoteAddress d) fee
            ext amt mt)) as Hwd by (split; cbn; lia).
  pose proof (received_eq _ Hwd) as Er. cbn in Er.
  split; [split; cbn; try done; rewrite Er; lia|]. split; [done|]. split.
  { intros ->. by destruct en. }
  split; [intros He; apply Hfree; subst en; lia|]. rewrite Er. f_equal. lia.
Qed.

(** All entries: the promises of the earlier ones are held against the later ones, so that an
    accepted request fits its vaults as a whole. *)
Lemma checkNewEntries_spec vs dep percent datas locked enough wds :
  wf_vaults vs → in_u64 percent → Forall (λ d, 0 < ud_BurningAmount d) datas →
  (∀ t, 0 ≤ lookupAmt locked t) →
  (∀ t, lookupAmt locked t + list_sum ud_BurningAmount datas < word64) →
  checkNewEntries db vs dep percent datas locked = Ok (enough, wds) →
  Forall2 checked datas wds ∧ (dep = true → enough = true) ∧
  (enough = true → Forall (λ wd, wd_Fee wd = 0) wds ∧
     ∀ t v, vs !! t = Some v → sumOf wd_BurningAmount t wds ≤ free v locked).
Proof.
  intros Hvs Hpc. revert locked enough wds.
  induction datas as [|d datas IH]; intros locked enough wds Hpos Hl0 Hl; cbn.
  - intros [= <- <-]. split; [constructor|]. split; [done|]. intros _. split; [constructor|].
    intros t v _. unfold sumOf, list_sum, free. cbn. lia.
  - apply Forall_cons in Hpos as [Hp Hps]. pose proof (burns_nonneg datas Hps).
    intros ([[en wd] locked'] & He & Hr)%outcome_bind_Ok.
    apply outcome_bind_Ok in Hr as ([ens wds'] & Hes & Hr). injection Hr as <- <-.
    pose proof (Hl (ud_IncTokenID d)) as Hld. rewrite list_sum_cons in Hld.
    destruct (checkNewEntry_spec _ _ _ _ _ _ _ _ Hvs Hpc Hp (Hl0 _) ltac:(lia) He)
      as (v & Hv & Hck & Hen & Hdep & Hfee & ->).
    pose proof (ck_data _ _ Hck) as Hwd. pose proof (received_eq _ Hwd) as Er.
    rewrite (ck_burn _ _ Hck) in Er. destruct Hwd as [Hb Hf]. rewrite (ck_burn _ _ Hck) in Hb, Hf.
    assert (∀ t, lookupAmt (<[ud_IncTokenID d := lookupAmt locked (ud_IncTokenID d) + receivedAmount wd]> locked) t
       = lookupAmt locked t + if decide (t = ud_IncTokenID d) then receivedAmount wd else 0) as El.
    { intros t. unfold lookupAmt at 1. case_decide; [subst; by rewrite lookup_insert_eq|].
      rewrite lookup_insert_ne by done. unfold lookupAmt. lia. }
    destruct (IH _ _ _ Hps ltac:(intros t; rewrite El; specialize (Hl0 t); case_decide; lia)
      ltac:(intros t; rewrite El; specialize (Hl t); rewrite list_sum_cons in Hl; case_decide; lia) Hes)
      as (Hall & Hdeps & Hens).
    split; [by constructor|]. split; [intros Hd; by rewrite Hdep, Hdeps|].
    intros Hb2. apply andb_true_iff in Hb2 as [-> ->].
    destruct (Hens eq_refl) as [Hfs Hbud]. specialize (Hfee eq_refl).
    split; [by constructor|]. intros t w Hw. rewrite sumOf_cons, (ck_token _ _ Hck).
    specialize (Hbud t w Hw). destruct (decide (ud_IncTokenID d = t)) as [<-|Hne].
    + rewrite Hv in Hw. injection Hw as <-. symmetry in Hen. apply Z.leb_le in Hen.
      unfold free in *. destruct (map_Forall_lookup_1 _ _ _ _ Hvs Hv) as [_ Htok].
      rewrite Htok in *. rewrite El, decide_True in Hbud by done.
      rewrite (ck_burn _ _ Hck). lia.
    + unfold free in *. destruct (map_Forall_lookup_1 _ _ _ _ Hvs Hw) as [_ Htok].
      rewrite Htok in *. rewrite El, decide_False in Hbud by done. lia.
Qed.

Lemma Forall2_wf datas wds : Forall2 checked datas wds → Forall wf_data wds.
Proof. induction 1 as [|? ? ? ? []]; by constructor. Qed.

Lemma Forall2_burned datas wds : Forall2 checked datas wds →
  burnedOf wds = list_sum ud_BurningAmount datas.
Proof.
  induction 1 as [|d wd ? ? [? Hb _ _ _ _] _ IH]; [done|]. unfold burnedOf in *.
  rewrite !list_sum_cons, Hb, IH. done.
Qed.

(** The check of a whole request. *)
Lemma checkVault_spec vs datas dep percent enough wds :
  wf_vaults vs → in_u64 percent → saneAmounts datas →
  checkVaultForNewUnshieldReq vs datas dep percent db = Ok (enough, wds) →
  Forall2 checked datas wds ∧ Forall wf_data wds ∧
  burnedOf wds = list_sum ud_BurningAmount datas ∧ (dep = true → enough = true) ∧
  (enough = true → Forall (λ wd, wd_Fee wd = 0) wds ∧ within vs wds).
Proof.
  intros Hvs Hpc [Hpos Htot] Hc.
  apply checkNewEntries_spec in Hc as (Hall & Hdep & Hen); [|done..| |].
  - split; [done|]. split; [by eapply Forall2_wf|]. split; [by apply Forall2_burned|].
    split; [done|]. intros ->. destruct (Hen eq_refl) as [Hfs Hb]. split; [done|].
    intros t v Hv. specialize (Hb t v Hv). unfold free, lookupAmt in Hb.
    rewrite lookup_empty in Hb. cbn in Hb.
    destruct (map_Forall_lookup_1 _ _ _ _ Hvs Hv) as [[_ ? _ _ _ _] _]. lia.
  - intros t. unfold lookupAmt. rewrite lookup_empty. cbn. lia.
  - intros t. unfold lookupAmt. rewrite lookup_empty. cbn. lia.
Qed.

(** The check of an entry always ends, and without a panic. *)
Lemma checkNewEntries_returns vs dep percent datas locked :
  wf_vaults vs → in_u64 percent → Forall (λ d, 0 < ud_BurningAmount d) datas →
  (∀ t, 0 ≤ lookupAmt locked t) →
  (∀ t, lookupAmt locked t + list_sum ud_BurningAmount datas < word64) →
  returns (checkNewEntries db vs dep percent datas locked).
Proof.
  intros Hvs Hpc. revert locked. induction datas as [|d datas IH]; intros locked Hpos Hl0 Hl; [done|].
  apply Forall_cons in Hpos as [Hp Hps]. pose proof (burns_nonneg datas Hps).
  pose proof (Hl (ud_IncTokenID d)) as Hld. rewrite list_sum_cons in Hld.
  pose proof (Hl0 (ud_IncTokenID d)) as Hl0d.
  cbn. apply outcome_bind_returns.
  - unfold checkNewEntry. destruct (vs !! ud_IncTokenID d) as [v|] eqn:Hv; [|done].
    destruct (map_Forall_lookup_1 _ _ _ _ Hvs Hv) as [Hwv Htok].
    destruct (burn_fee v (ud_BurningAmount d) percent locked Hwv) as (fee & -> & _);
      [lia|done|by rewrite Htok; try lia..|]. cbn.
    destruct (negb _ && dep); [done|]. destruct (_ <? _); [done|].
    apply outcome_bind_returns.
    { unfold getPrefixByNetworkID. by repeat destruct (_ =? _). }
    intros prefix _. apply outcome_bind_returns.
    { unfold FindExternalTokenID. apply outcome_bind_returns.
      - unfold findExternalTokenID. by repeat destruct (nonEmptyExt _).
      - intros ext _. repeat case_match; done. }
    intros ext _. apply outcome_bind_returns; [by rewrite bigDiv_pos by apply pow10_pos, good_BaseDecimal|].
    intros amt _. destruct (_ =? _); [done|]. apply outcome_bind_returns; [|done].
    unfold getBurningConfirmMetaType. by repeat destruct (_ =? _).
  - intros [[en wd] locked'] He.
    destruct (checkNewEntry_spec _ _ _ _ _ _ _ _ Hvs Hpc Hp (Hl0 _) ltac:(lia) He)
      as (v & Hv & Hck & _ & _ & _ & ->).
    pose proof (ck_data _ _ Hck) as Hwd. pose proof (received_eq _ Hwd) as Er.
    rewrite (ck_burn _ _ Hck) in Er. destruct Hwd as [Hb Hf]. rewrite (ck_burn _ _ Hck) in Hb, Hf.
    assert (∀ t, lookupAmt (<[ud_IncTokenID d := lookupAmt locked (ud_IncTokenID d) + receivedAmount wd]> locked) t
       = lookupAmt locked t + if decide (t = ud_IncTokenID d) then receivedAmount wd else 0) as El.
    { intros t. unfold lookupAmt at 1. case_decide; [subst; by rewrite lookup_insert_eq|].
      rewrite lookup_insert_ne by done. unfold lookupAmt. lia. }
    apply outcome_bind_returns; [|by intros [? ?]]. apply IH; [done|..]; intros t; rewrite El.
    + specialize (Hl0 t). case_decide; lia.
    + specialize (Hl t). rewrite list_sum_cons in Hl. case_decide; lia.
Qed.
End checks.

(** ** The ledger of an instruction *)
Definition shieldMint (d : AcceptedShieldRequestData) : Z := as_ShieldAmount d + as_Reward d.

Definition forToken (u u' : Hash) (x : Z) : Z := if decide (u' = u) then x else 0.

(** What an instruction mints of a unified token: the amounts and the rewards the response
    transactions pay. *)
Definition mintedBy (u : Hash) (i : BeaconInst) : Z :=
  match i with
  | AggInst (mkInstruction _ _ _ c) =>
      match c with
      | ConvertContent c => forToken u (ac_UnifiedTokenID c) (ac_ConvertPUnifiedAmount c + ac_Reward c)
      | ShieldContent c => forToken u (ai_UnifiedTokenID c) (list_sum shieldMint (ai_Data c))
      | ReshieldContent c =>
          match rr_UnifiedTokenID c with
          | Some u' => forToken u u' (shieldMint (rr_ReshieldData c))
          | None => 0
          end
      | _ => 0
      end
  | _ => 0
  end.

(** What it burns for good, and what a rejection gives back of a burned token.  A call paid with
    a plain token names the zero identifier as its unified token. *)
Definition burnedBy (u : Hash) (i : BeaconInst) : Z :=
  match i with
  | AggInst (mkInstruction _ st _ (UnshieldContent c)) =>
      if bool_decide (st = FilledStatusStr) || bool_decide (au_UnifiedTokenID c = emptyHash) then 0
      else forToken u (au_UnifiedTokenID c) (burnedOf (wr_data (au_WaitingUnshieldReq c)))
  | _ => 0
  end.

Definition refundedBy (tok : Hash) (i : BeaconInst) : Z :=
  match i with
  | AggInst (mkInstruction _ _ _ (RejectContent _ _ (Some r))) => forToken tok (rj_TokenID r) (rj_Amount r)
  | _ => 0
  end.

Definition netMint (u : Hash) (insts : list BeaconInst) : Z :=
  list_sum (λ i, mintedBy u i - burnedBy u i) insts.

Lemma netMint_app u a b : netMint u (a ++ b) = netMint u a + netMint u b.
Proof. apply list_sum_app. Qed.

Lemma netMint_nil u : netMint u [] = 0.
Proof. done. Qed.

Lemma netMint_one u i : netMint u [i] = mintedBy u i - burnedBy u i.
Proof. unfold netMint. rewrite list_sum_cons. unfold list_sum. cbn. lia. Qed.

(** ** Producer state and processor state

    The producer works on a clone; it may have dropped requests from its queue that the nodes
    still hold. *)
Record sim (p r : State) : Prop := {
  sm_vaults : unifiedTokenVaults p = unifiedTokenVaults r;
  sm_param : param p = param r;
  sm_queue : ∀ u, reqsOf (waitingUnshieldReqs p) u `sublist_of` reqsOf (waitingUnshieldReqs r) u }.

Lemma sim_core s r : same_core r s → sim s r.
Proof. intros (? & E & ?). split; [done..|]. intros u. by rewrite E. Qed.

Lemma sim_Clone p r : sim p r → sim (Clone p) r.
Proof. by intros []. Qed.

Definition registered (s : State) (db : BridgeDB) : Prop :=
  ∀ u, is_Some (unifiedTokenVaults s !! u) → IsBridgeTokenExistedByType db u false = true.

(** A state a block can be processed in. *)
Record good (p : ProcState) : Prop := {
  gd_state : wf_state (ps_state p);
  gd_registered : registered (ps_state p) (ps_db p);
  gd_empty : unifiedTokenVaults (ps_state p) !! emptyHash = None }.

(** What processing the instructions of a handler achieves: [s'] is the producer's state after
    the handler and [ids] the identifiers that may have joined a queue. *)
Record applied (p p' : ProcState) (s' : State) (insts : list BeaconInst) (ids : list Hash) : Prop := {
  ap_sim : sim s' (ps_state p');
  ap_good : good p';
  ap_ledger : ∀ u, backingOf (ps_state p') u = backingOf (ps_state p) u + netMint u insts;
  ap_ids : ∀ u x, x ∈ unshieldID <$> reqsOf (waitingUnshieldReqs (ps_state p')) u →
    x ∈ unshieldID <$> reqsOf (waitingUnshieldReqs (ps_state p)) u ∨ x ∈ ids;
  ap_issued : txHashIssued (ps_db p) ⊆ txHashIssued (ps_db p');
  ap_tokens : dom (tokenInfos (ps_db p)) ⊆ dom (tokenInfos (ps_db p')) }.

Lemma applied_refl p s : sim s (ps_state p) → good p → applied p p s [] [].
Proof.
  intros. split; [done|done| |by left|done|done]. intros u. rewrite netMint_nil. lia.
Qed.

Lemma applied_trans p p1 p2 s1 s2 i1 i2 ids1 ids2 :
  applied p p1 s1 i1 ids1 → applied p1 p2 s2 i2 ids2 → applied p p2 s2 (i1 ++ i2) (ids1 ++ ids2).
Proof.
  intros [S1 G1 L1 I1 T1 D1] [S2 G2 L2 I2 T2 D2]. split; [done|done| | |set_solver|set_solver].
  - intros u. rewrite netMint_app, L2, L1. lia.
  - intros u x [Hx|Hx]%I2; [|by right; apply elem_of_app; right].
    apply I1 in Hx as [|]; [by left|right; apply elem_of_app; by left].
Qed.

(** A change of the processor's bookkeeping alone. *)
Lemma applied_bookkeeping p p' s insts : sim s (ps_state p) → good p →
  ps_state p' = ps_state p → ps_db p' = ps_db p → (∀ u, netMint u insts = 0) →
  applied p p' s insts [].
Proof.
  intros Hs [? ? ?] E1 E2 Hz. split; rewrite ?E1, ?E2; [done| |by intros u; rewrite Hz; lia|by left|done|done].
  split; by rewrite ?E1, ?E2.
Qed.

Section processing.
Context `{!BridgeAggParam, !ConfirmHash, !EVMAddress}.

Lemma processInsts_app a b p p' :
  processInsts (a ++ b) p = (Ok tt, p') ↔
  ∃ p1, processInsts a p = (Ok tt, p1) ∧ processInsts b p1 = (Ok tt, p').
Proof.
  revert p. induction a as [|i a IH]; intros p; cbn [processInsts app].
  - split; [by exists p|]. by intros (p1 & [= <-] & ?).
  - rewrite M_bind_Ok. split.
    + intros ([] & p1 & Hm1 & (p2 & Hm2 & Hm3)%IH). exists p2. rewrite M_bind_Ok. eauto.
    + intros (p2 & ([] & p1 & Hm1 & Hm2)%M_bind_Ok & Hm3). exists (), p1. split; [done|].
      apply IH. eauto.
Qed.

Lemma processInsts_one i p p' : processInst i p = (Ok tt, p') → processInsts [i] p = (Ok tt, p').
Proof. intros Hi. cbn. rewrite M_bind_Ok. by exists (), p'. Qed.

(** A handler is sound when the nodes can process what it wrote. *)
Definition sound_at (s s' : State) (insts : list BeaconInst) (p : ProcState) (ids : list Hash) : Prop :=
  sim s (ps_state p) → good p →
  ∃ p', processInsts insts p = (Ok tt, p') ∧ applied p p' s' insts ids.

Lemma sound_nil s p : sound_at s s [] p [].
Proof. intros Hs Hg. exists p. split; [done|]. by apply applied_refl. Qed.

Lemma sound_app s s1 s2 i1 i2 p ids1 ids2 :
  sound_at s s1 i1 p ids1 → (∀ p1, applied p p1 s1 i1 ids1 → sound_at s1 s2 i2 p1 ids2) →
  sound_at s s2 (i1 ++ i2) p (ids1 ++ ids2).
Proof.
  intros Hm1 Hm2 Hs Hg. destruct (Hm1 Hs Hg) as (p1 & E1 & A1).
  destruct (Hm2 p1 A1 (ap_sim _ _ _ _ _ A1) (ap_good _ _ _ _ _ A1)) as (p2 & E2 & A2).
  exists p2. split; [apply processInsts_app; eauto|by eapply applied_trans].
Qed.

(** *** Instructions that only leave a trace *)

(** A rejection is recorded with its code. *)
Lemma sound_reject s p ty sid txReqID code data :
  ty = BridgeAggConvertTokenToUnifiedTokenRequestMeta ∨ ty = IssuingUnifiedTokenRequestMeta ∨
  ty = BurningUnifiedTokenRequestMeta ∨ ty = BurnForCallRequestMeta →
  sound_at s s [buildRejectedInst ty sid txReqID code data] p [].
Proof.
  intros Hty Hs Hg.
  assert (∃ p', processInst (buildRejectedInst ty sid txReqID code data) p = (Ok tt, p') ∧
    ps_state p' = ps_state p ∧ ps_db p' = ps_db p) as (p' & E & E1 & E2).
  { destruct Hty as [->|[->|[->| ->]]]; eexists; cbn;
      [unfold convert_process|unfold shield_process|unfold unshield_process
      |unfold burnForCall_process]; cbn [in_Status in_Content];
      rewrite ?(bool_decide_false (RejectedStatusStr = AcceptedStatusStr)) by done;
      rewrite ?bool_decide_true by done; (split; [reflexivity|done]). }
  exists p'. split; [by apply processInsts_one|]. apply applied_bookkeeping; [done..|].
  intros u. rewrite netMint_one. cbn. lia.
Qed.

(** Confirmations are for the external contracts; the processor passes them over. *)
Definition isConfirm (i : BeaconInst) : Prop :=
  match i with ConfirmInst _ | CallConfirmInst _ => True | _ => False end.

Lemma process_confirms insts p : Forall isConfirm insts → processInsts insts p = (Ok tt, p).
Proof.
  induction 1 as [|i insts Hi _ IH]; [done|]. cbn [processInsts]. rewrite M_bind_Ok.
  exists (), p. by destruct i.
Qed.

Lemma netMint_confirms u insts : Forall isConfirm insts → netMint u insts = 0.
Proof.
  induction 1 as [|i insts Hi _ IH]; [done|]. unfold netMint in *. rewrite list_sum_cons, IH.
  destruct i; try done. 
Qed.

Lemma sound_confirms s p insts : Forall isConfirm insts → sound_at s s insts p [].
Proof.
  intros Hc Hs Hg. exists p. split; [by apply process_confirms|].
  apply applied_bookkeeping; [done..|]. intros. by apply netMint_confirms.
Qed.

Lemma buildBurningConfirm_confirms req bh : Forall isConfirm (buildBurningConfirmInsts req bh).
Proof.
  unfold buildBurningConfirmInsts. apply Forall_forall. intros i Hi.
  apply list_elem_of_lookup in Hi as [k Hk]. rewrite list_lookup_imap in Hk.
  destruct (wr_data req !! k); cbn in Hk; [|done]. by injection Hk as <-.
Qed.

(** *** The update of an unshield request on both sides *)
Lemma removeReq_sublist id lP lR lP' : lP `sublist_of` lR → NoDup (unshieldID <$> lR) →
  removeReq id lP = Some lP' → ∃ lR', removeReq id lR = Some lR' ∧ lP' `sublist_of` lR'.
Proof.
  intros Hs. revert lP'. induction Hs as [|x l1 l2 Hs IH|x l1 l2 Hs IH]; intros lP'; cbn; [done| |].
  - intros [Hx Hnd]%NoDup_cons. destruct (decide (unshieldID x = id)).
    + intros [= <-]. eauto.
    + destruct (removeReq id l1) as [l|] eqn:Hr; cbn; [|done]. intros [= <-].
      destruct (IH l Hnd eq_refl) as (l' & -> & ?). cbn. eexists. split; [done|].
      by apply sublist_skip.
  - intros [Hx Hnd]%NoDup_cons Hr. destruct (IH lP' Hnd Hr) as (l' & Hl' & Hsub).
    destruct (decide (unshieldID x = id)) as [E|].
    + exfalso. apply Hx. rewrite E. apply removeReq_spec in Hl' as (r & <- & Hin & _).
      by apply list_elem_of_fmap_2.
    + rewrite Hl'. cbn. eexists. split; [done|]. by apply sublist_cons.
Qed.

Lemma sim_replaced sP sR u vs lP lR sP' sR' :
  sim sP sR → lP `sublist_of` lR → replaced sP sP' u vs lP → replaced sR sR' u vs lR → sim sP' sR'.
Proof.
  intros [Ev Ep Eq] Hl [Ev1 Eq1 Ep1] [Ev2 Eq2 Ep2]. split; [congruence..|].
  intros u'. rewrite Eq1, Eq2. by case_decide.
Qed.

Definition knownStatus (st : string) : Prop :=
  st = WaitingStatusStr ∨ st = AcceptedStatusStr ∨ st = FilledStatusStr.

Lemma update_sim u req st sP sP' sR : sim sP sR → knownStatus st →
  NoDup (unshieldID <$> reqsOf (waitingUnshieldReqs sR) u) →
  updateStateForUnshield u req st sP = (Ok tt, sP') →
  ∃ sR', updateStateForUnshield u req st sR = (Ok tt, sR') ∧ sim sP' sR'.
Proof.
  intros Hsim Hst Hnd. pose proof Hsim as [Ev Ep Eq]. unfold knownStatus in Hst.
  assert (CloneVaultsByUnifiedTokenID sR u = CloneVaultsByUnifiedTokenID sP u) as Ec
    by (unfold CloneVaultsByUnifiedTokenID; by rewrite Ev).
  destruct Hst as [->|[->| ->]].
  - rewrite !run_waiting, Ec. destruct (CloneVaultsByUnifiedTokenID sP u) as [vs| | |]; [|done..].
    destruct (updateStateForNewWaitingUnshieldReq vs req) as [vs'| | |]; [|done..].
    intros [= <-]. eexists. split; [done|].
    eapply (sim_replaced sP sR u vs'); [done| |split; [done|intros; apply reqsOf_insert|done]..].
    apply sublist_app; [apply Eq|done].
  - rewrite !run_accepted, Ec. destruct (CloneVaultsByUnifiedTokenID sP u) as [vs| | |]; [|done..].
    destruct (updateStateForNewMatchedUnshieldReq vs req) as [vs'| | |]; [|done..].
    intros [= <-]. eexists. split; [done|].
    eapply (sim_replaced sP sR u vs'); [done| |apply replaced_same_queue..]. apply Eq.
  - rewrite !run_filled, Ec. destruct (CloneVaultsByUnifiedTokenID sP u) as [vs| | |]; [|done..].
    destruct (removeReq _ (reqsOf (waitingUnshieldReqs sP) u)) as [lP|] eqn:Hr; [|done]. cbv zeta.
    destruct (removeReq_sublist _ _ _ _ (Eq u) Hnd Hr) as (lR & -> & Hsub).
    destruct (updateStateForMatchedWaitUnshieldReq vs req) as [vs'| | |]; [|done..].
    intros [= <-]. eexists. split; [done|].
    eapply (sim_replaced sP sR u vs'); [done|exact Hsub|split; [done|intros; apply reqsOf_insert|done]..].
Qed.

(** The vaults of a token are never dropped by an update. *)
Lemma update_vaults_dom u req st s s' : knownStatus st →
  updateStateForUnshield u req st s = (Ok tt, s') →
  dom (unifiedTokenVaults s') = dom (unifiedTokenVaults s).
Proof.
  intros [->|[->| ->]]; [rewrite run_waiting|rewrite run_accepted|rewrite run_filled];
    destruct (CloneVaultsByUnifiedTokenID s u) as [vs| | |] eqn:Hc; try done;
    apply CloneVaults_Ok in Hc.
  - destruct (updateStateForNewWaitingUnshieldReq vs req); [|done..]. intros [= <-].
    cbn. rewrite dom_insert_lookup_L; eauto.
  - destruct (updateStateForNewMatchedUnshieldReq vs req); [|done..]. intros [= <-].
    cbn. rewrite dom_insert_lookup_L; eauto.
  - destruct (removeReq _ _); [|done]. cbv zeta.
    destruct (updateStateForMatchedWaitUnshieldReq vs req); [|done..]. intros [= <-].
    cbn. rewrite dom_insert_lookup_L; eauto.
Qed.

Lemma good_same_dom p p' : good p → wf_state (ps_state p') →
  dom (unifiedTokenVaults (ps_state p')) = dom (unifiedTokenVaults (ps_state p)) →
  tokenInfos (ps_db p') = tokenInfos (ps_db p) → good p'.
Proof.
  intros [Hw Hr He] Hw' Hd Hi. split; [done| |].
  - intros u Hu. apply elem_of_dom in Hu. rewrite Hd in Hu. apply elem_of_dom in Hu.
    specialize (Hr u Hu). unfold IsBridgeTokenExistedByType in *. by rewrite Hi.
  - apply not_elem_of_dom. rewrite Hd. by apply not_elem_of_dom.
Qed.

(** Processing the instruction of an unshield: the update of the state, the record of the token
    and the counters. *)
Lemma process_unshield u dep req st sid p s' : knownStatus st → good p →
  updateStateForUnshield u req st (ps_state p) = (Ok tt, s') →
  ∃ p', processInst (buildUnshieldInst u dep req st sid) p = (Ok tt, p') ∧
    ps_state p' = s' ∧ ps_db p' = ps_db p.
Proof.
  intros Hst Hg Hu. pose proof (update_vaults_dom _ _ _ _ _ Hst Hu) as Hdom.
  assert (IsBridgeTokenExistedByType (ps_db p) u false = true) as Hreg.
  { apply (gd_registered p Hg). apply elem_of_dom. rewrite <- Hdom.
    unfold updateStateForUnshield in Hu. rewrite getS_bind in Hu.
    apply M_bind_Ok in Hu as (vs & s1 & Hc & _). unfold lift in Hc. injection Hc as Hc _.
    apply CloneVaults_Ok in Hc. rewrite Hdom. apply elem_of_dom. eauto. }
  cbn. unfold unshield_process. cbn [in_Status in_Content au_WaitingUnshieldReq au_UnifiedTokenID].
  assert (st ≠ RejectedStatusStr) as Hnr by (by destruct Hst as [->|[->| ->]]).
  assert (∃ b, getStatusByteFromStatuStr st = Ok b) as [b Hb]
    by (destruct Hst as [->|[->| ->]]; eexists; reflexivity).
  rewrite Hb, (bool_decide_false _ Hnr). unfold mbind, M_bind, lift, onState, zoom.
  rewrite Hu. unfold getS. cbn [ps_db ps_state ps_infos].
  destruct (bool_decide (st = WaitingStatusStr) || bool_decide (st = AcceptedStatusStr));
    cbn [ps_db]; rewrite ?Hreg; cbn;
    destruct (bool_decide (st = AcceptedStatusStr) || bool_decide (st = FilledStatusStr));
    eexists; (split; [reflexivity|done]).
Qed.

(** The same instruction under the type of a call. *)
Lemma process_call u req p sid s' : good p → u ≠ emptyHash →
  updateStateForUnshield u req AcceptedStatusStr (ps_state p) = (Ok tt, s') →
  ∃ p', processInst (buildAcceptedBurnForCallReqInst (Some u) req AcceptedStatusStr sid) p = (Ok tt, p') ∧
    ps_state p' = s' ∧ ps_db p' = ps_db p.
Proof.
  intros Hg Hne Hu.
  destruct (process_unshield u true req AcceptedStatusStr sid p s' ltac:(by right; left) Hg Hu)
    as (p' & Hp & E). exists p'. split; [|done]. rewrite <- Hp. cbn.
  unfold burnForCall_process. cbn [in_Status in_Content au_UnifiedTokenID].
  unfold mbind at 1, M_bind at 1, lift. change (getStatusByteFromStatuStr AcceptedStatusStr) with (Ok 1 : outcome Z).
  rewrite bool_decide_false by done. by rewrite bool_decide_false.
Qed.

(** What an unshield instruction with its update does, by its status. *)
Lemma unshield_applied u req st p p' sP' i : knownStatus st → good p →
  updateStateForUnshield u req st (ps_state p) = (Ok tt, ps_state p') → ps_db p' = ps_db p →
  sim sP' (ps_state p') → wf_state (ps_state p') →
  changed (ps_state p) (ps_state p') u (if decide (st = FilledStatusStr) then 0
                                        else - burnedOf (wr_data req)) →
  (∀ u', netMint u' [i] = if decide (st = FilledStatusStr) then 0
                          else forToken u' u (- burnedOf (wr_data req))) →
  applied p p' sP' [i] (if decide (st = WaitingStatusStr) then [unshieldID req] else []).
Proof.
  intros Hst Hg Hu Hdb Hsim Hwf Hch Hnet. split; [done| | | |by rewrite Hdb|by rewrite Hdb].
  - eapply good_same_dom; [done|done|by eapply update_vaults_dom|by rewrite Hdb].
  - intros u'. rewrite Hch, Hnet. unfold forToken.
    repeat case_decide; subst; try done; lia.
  - intros u' x. revert Hu. destruct Hst as [->|[->| ->]];
      [rewrite run_waiting|rewrite run_accepted|rewrite run_filled];
      destruct (CloneVaultsByUnifiedTokenID _ u) as [vs| | |]; try done.
    + destruct (updateStateForNewWaitingUnshieldReq vs req); [|done..]. intros [= <-]. cbn [waitingUnshieldReqs].
      rewrite reqsOf_insert. destruct (decide (u' = u)) as [->|]; [|by left].
      rewrite fmap_app, elem_of_app. intros [|Hx]; [by left|right].
      by rewrite decide_True.
    + destruct (updateStateForNewMatchedUnshieldReq vs req); [|done..]. intros [= <-]. by left.
    + destruct (removeReq _ _) as [l|] eqn:Hr; [|done]. cbv zeta.
      destruct (updateStateForMatchedWaitUnshieldReq vs req); [|done..]. intros [= <-]. cbn [waitingUnshieldReqs with_vaults dequeued].
      rewrite reqsOf_insert. destruct (decide (u' = u)) as [->|]; [|by left].
      apply removeReq_spec in Hr as (r & _ & _ & Hp & _). intros Hx. left. rewrite Hp. by right.
Qed.

(** ** Handlers *)
Lemma orReject_cases {A} (m : outcome A) r (k : A → M State (list BeaconInst)) s x s' :
  orReject m r k s = (Ok x, s') →
  (∃ a, m = Ok a ∧ k a s = (Ok x, s')) ∨ (x = r ∧ s' = s).
Proof.
  unfold orReject. destruct m as [a|e| |]; [eauto|..]; intros [=]; subst; auto.
Qed.

Lemma commitOr_cases m cloned r insts s x s' :
  commitOr m cloned r insts s = (Ok x, s') →
  (x = insts ∧ m cloned = (Ok tt, s')) ∨ (x = r ∧ s' = s).
Proof.
  unfold commitOr. destruct (m cloned) as [[[]| | |] s1]; intros [=]; subst; auto.
Qed.

(** A single instruction whose processing is known. *)
Lemma sound_one s s' i p ids :
  (sim s (ps_state p) → good p →
   ∃ p', processInst i p = (Ok tt, p') ∧ applied p p' s' [i] ids) → sound_at s s' [i] p ids.
Proof.
  intros Hone Hs Hg. destruct (Hone Hs Hg) as (p' & E & A). exists p'.
  split; [by apply processInsts_one|done].
Qed.

Lemma sim_vaults_of s p u vs : sim s (ps_state p) → good p → unifiedTokenVaults s !! u = Some vs →
  wf_vaults vs ∧ promises vs (owed (reqsOf (waitingUnshieldReqs (ps_state p)) u)) ∧ u ≠ emptyHash.
Proof.
  intros [Ev _ _] [Hw _ He] Hu. rewrite Ev in Hu. destruct (ws_vaults _ Hw u vs Hu). 
  split; [done|]. split; [done|]. intros ->. congruence.
Qed.

Lemma sound_modifyParam action sid s s' insts p :
  (∀ a, action = Some a → in_u64 (act_Meta a)) →
  modifyParam action sid s = (Ok insts, s') → sound_at s s' insts p [].
Proof.
  intros Ha. unfold modifyParam. destruct action as [a|]; [|intros [= <- <-]; apply sound_nil].
  specialize (Ha a eq_refl). intros [= <- <-]. apply sound_one. intros [Ev Ep Eq] [[W1 W2 W3 W4] Hr He].
  eexists. split.
  { cbn. unfold modifyParam_process. cbn [in_Status in_Content].
    rewrite bool_decide_true by done. reflexivity. }
  split; cbn.
  - split; [done..|]. done.
  - split; [|done..]. cbn. split; cbn; [done..|]. by intros ? [= <-].
  - intros u. rewrite netMint_one. cbn. change (backingOf _ u) with (backingOf (ps_state p) u). lia.
  - by left.
  - done.
  - done.
Qed.

Context `{!GoodBridgeAggParam}.

(** *** Converting *)
Lemma process_convert sid c p v vs v' : good p →
  unifiedTokenVaults (ps_state p) !! ac_UnifiedTokenID c = Some vs →
  vs !! ac_TokenID c = Some v →
  updateVaultForRefill v (ac_ConvertPUnifiedAmount c) (ac_Reward c) = Ok v' →
  ∃ p', processInst (buildAcceptedInst BridgeAggConvertTokenToUnifiedTokenRequestMeta sid
                       (ConvertContent c)) p = (Ok tt, p') ∧
    ps_state p' = with_vaults (<[ac_UnifiedTokenID c := <[ac_TokenID c := v']> vs]>
                                 (unifiedTokenVaults (ps_state p))) (ps_state p) ∧
    ps_db p' = ps_db p.
Proof.
  intros Hg Hu Hv Hr. cbn. unfold convert_process. cbn [in_Status in_Content].
  rewrite bool_decide_true by done. rewrite getS_bind, Hu, Hv.
  unfold mbind, M_bind, lift. rewrite Hr. eexists. split; [reflexivity|done].
Qed.

(** Replacing the vaults of a token by others that promise the same. *)
Lemma applied_vaults p p' s u vs vs' insts :
  sim s (ps_state p) → good p → unifiedTokenVaults s !! u = Some vs →
  wf_vaults vs' → promises vs' (owed (reqsOf (waitingUnshieldReqs (ps_state p)) u)) →
  dom vs' = dom vs →
  ps_state p' = with_vaults (<[u := vs']> (unifiedTokenVaults (ps_state p))) (ps_state p) →
  tokenInfos (ps_db p') = tokenInfos (ps_db p) → txHashIssued (ps_db p) ⊆ txHashIssued (ps_db p') →
  (∀ u', netMint u' insts = forToken u' u (totalBacking vs' - totalBacking vs)) →
  applied p p' (with_vaults (<[u := vs']> (unifiedTokenVaults s)) s) insts [].
Proof.
  intros Hs Hg Hu Hw Hpr Hdom Ep Ei Etx Hnet. pose proof Hs as [Ev Epar Eq].
  rewrite Ev in Hu. destruct (gd_state p Hg) as [W1 W2 W3 W4].
  pose proof (replaced_same_queue (ps_state p) u vs') as Hrep. rewrite <- Ep in Hrep.
  split.
  - rewrite Ep. split; cbn; [by rewrite Ev|done..].
  - eapply good_same_dom; [done| |rewrite Ep; cbn; by rewrite dom_insert_lookup_L; eauto|done].
    eapply wf_state_update; [by apply Hg|done..| | |by eapply queue_vaults; [apply Hg|..]|apply W3];
      done.
  - intros u'. rewrite Hnet, (backing_replaced _ _ _ _ _ u' Hrep). unfold forToken.
    destruct (decide (u' = u)) as [->|Hne].
    + rewrite decide_True by done. unfold backingOf. rewrite Hu. lia.
    + rewrite decide_False by congruence. lia.
  - intros u' x. rewrite Ep. by left.
  - done.
  - by rewrite Ei.
Qed.

Lemma applied_vault p p' s u vs t v v' insts :
  sim s (ps_state p) → good p → unifiedTokenVaults s !! u = Some vs → vs !! t = Some v →
  wf_vault v' → promised v' = promised v → incTokenID v' = incTokenID v →
  ps_state p' = with_vaults (<[u := <[t := v']> vs]> (unifiedTokenVaults (ps_state p))) (ps_state p) →
  tokenInfos (ps_db p') = tokenInfos (ps_db p) → txHashIssued (ps_db p) ⊆ txHashIssued (ps_db p') →
  (∀ u', netMint u' insts = forToken u' u (backing v' - backing v)) →
  applied p p' (with_vaults (<[u := <[t := v']> vs]> (unifiedTokenVaults s)) s) insts [].
Proof.
  intros Hs Hg Hu Hv Hw Hp Ht Ep Ei Etx Hnet.
  destruct (sim_vaults_of _ _ _ _ Hs Hg Hu) as (Hwv & Hpr & _).
  destruct (map_Forall_lookup_1 _ _ _ _ Hwv Hv) as [_ Htok].
  apply (applied_vaults p p' s u vs); try done.
  - apply wf_vaults_insert; [done..|congruence].
  - eapply promises_insert; [exact Hpr| |done]. by rewrite Hp, (Hpr _ _ Hv).
  - by rewrite dom_insert_lookup_L; eauto.
  - intros u'. rewrite Hnet, (totalBacking_insert _ _ _ _ Hv). f_equal. lia.
Qed.

Lemma sound_convert action sid s s' insts p :
  (∀ a, action = Some a → in_u64 (cr_Amount (act_Meta a))) →
  convert action sid s = (Ok insts, s') → sound_at s s' insts p [].
Proof.
  intros Ha. unfold convert. destruct action as [a|]; [|intros [= <- <-]; apply sound_nil].
  specialize (Ha a eq_refl). rewrite getS_bind.
  assert (∀ code, sound_at s s [buildRejectedConvertReqInst (act_Meta a) sid (act_TxReqID a) code] p [])
    as Hrej by (intros code; apply sound_reject; by left).
  intros [(vs & Hc & Hk)|[-> ->]]%orReject_cases; [|done]. apply CloneVaults_Ok in Hc.
  destruct (vs !! cr_TokenID (act_Meta a)) as [v|] eqn:Hv; [|injection Hk as <- <-; done].
  apply orReject_cases in Hk as [(amt & Hamt & Hk)|[-> ->]]; [|done].
  apply orReject_cases in Hk as [(rw & Hrw & Hk)|[-> ->]]; [|done].
  apply orReject_cases in Hk as [(v' & Hv' & Hk)|[-> ->]]; [|done].
  injection Hk as <- <-. apply sound_one. intros Hs Hg.
  destruct (sim_vaults_of _ _ _ _ Hs Hg Hc) as (Hwv & _ & _).
  destruct (map_Forall_lookup_1 _ _ _ _ Hwv Hv) as [Hwf Htok].
  assert (0 < amt < word64) as Hpos.
  { eapply convertPToken_pos; [|apply Ha|exact Hamt]. apply (wv_decimal v Hwf). }
  destruct (refill_backing v amt rw v' Hwf ltac:(unfold in_u64; lia) Hrw Hv') as (Hw' & HB & HP & HT).
  pose proof Hs as [Ev _ _]. rewrite Ev in Hc.
  edestruct (process_convert sid (mkAcceptedConvert (cr_UnifiedTokenID (act_Meta a))
    (cr_TokenID (act_Meta a)) (cr_Receiver (act_Meta a)) amt (cr_Amount (act_Meta a)) rw (act_TxReqID a)))
    as (p' & Hp & Es & Ed); [done..|].
  exists p'. split; [done|]. eapply applied_vault; [done|done|by rewrite Ev|done|done|done|apply HT|done
    |by rewrite Ed|by rewrite Ed|].
  intros u'. rewrite netMint_one. cbn. unfold forToken. case_decide; lia.
Qed.

(** *** Leaving the network *)
Lemma unshield_one s p u dep req st sP' sid i ids :
  knownStatus st → sim s (ps_state p) → good p →
  updateStateForUnshield u req st s = (Ok tt, sP') →
  i = buildUnshieldInst u dep req st sid ∨
    (i = buildAcceptedBurnForCallReqInst (Some u) req st sid ∧ st = AcceptedStatusStr) →
  (∀ sR', updateStateForUnshield u req st (ps_state p) = (Ok tt, sR') →
     wf_state sR' ∧ changed (ps_state p) sR' u (if decide (st = FilledStatusStr) then 0
                                               else - burnedOf (wr_data req))) →
  ids = (if decide (st = WaitingStatusStr) then [unshieldID req] else []) →
  ∃ p', processInst i p = (Ok tt, p') ∧ applied p p' sP' [i] ids ∧
    updateStateForUnshield u req st (ps_state p) = (Ok tt, ps_state p').
Proof.
  intros Hst Hs Hg Hu Hi Hspec ->.
  destruct (update_sim u req st s sP' (ps_state p) Hs Hst (ws_ids _ (gd_state p Hg) u) Hu)
    as (sR' & HuR & Hsim).
  assert (u ≠ emptyHash) as Hne.
  { destruct Hg as [_ _ He]. intros ->. unfold updateStateForUnshield in HuR.
    rewrite getS_bind in HuR. apply M_bind_Ok in HuR as (vs & s1 & Hc & _).
    injection Hc as Hc _. apply CloneVaults_Ok in Hc. congruence. }
  assert (∃ p', processInst i p = (Ok tt, p') ∧ ps_state p' = sR' ∧ ps_db p' = ps_db p)
    as (p' & Hp & Es & Ed).
  { destruct Hi as [->|[-> ->]]; [by apply process_unshield|by apply process_call]. }
  exists p'. split; [done|]. destruct (Hspec sR' HuR) as [Hw Hch]. subst sR'. split; [|done].
  eapply unshield_applied; [done..|].
  intros u'. rewrite netMint_one. destruct Hi as [->|[-> ->]]; cbn; unfold forToken.
  - destruct (decide (st = FilledStatusStr)) as [->|Hnf].
    + rewrite bool_decide_true by done. cbn. lia.
    + rewrite (bool_decide_false _ Hnf), (bool_decide_false (u = emptyHash)) by done. cbn.
      case_decide; lia.
  - rewrite (bool_decide_false (u = emptyHash)) by done.
    rewrite (bool_decide_false (AcceptedStatusStr = FilledStatusStr)) by done. cbn.
    rewrite (decide_False (P := AcceptedStatusStr = FilledStatusStr)) by done.
    unfold forToken. destruct (decide (u = u')); lia.
Qed.

Definition fresh (p : ProcState) (id : Hash) : Prop :=
  ∀ u, id ∉ unshieldID <$> reqsOf (waitingUnshieldReqs (ps_state p)) u.

Lemma sim_percent s p percent s1 : sim s (ps_state p) → good p →
  lift (S := State) (PercentFeeWithDec (Clone s)) s1 = (Ok percent, s1) → in_u64 percent.
Proof.
  intros [_ Ep _] [[_ _ _ W4] _ _]. unfold PercentFeeWithDec. cbn.
  destruct (param s) as [pc|] eqn:E; [|done]. intros [= <-]. apply W4. congruence.
Qed.

Lemma applied_weaken p p' s insts ids ids' : applied p p' s insts ids →
  (∀ x, x ∈ ids → x ∈ ids') → applied p p' s insts ids'.
Proof. intros [? ? ? Hi ? ?] Hsub. split; [done..| |done|done]. intros u x [|]%Hi; eauto. Qed.

Lemma sound_weaken s s' insts p ids ids' : sound_at s s' insts p ids →
  (∀ x, x ∈ ids → x ∈ ids') → sound_at s s' insts p ids'.
Proof.
  intros Hsd Hsub Hs Hg. destruct (Hsd Hs Hg) as (p' & ? & ?). exists p'. split; [done|].
  by eapply applied_weaken.
Qed.

Lemma sound_unshield db a bh s s' insts p :
  saneAmounts (ur_Data (ua_Meta a)) → fresh p (ua_TxReqID a) →
  unshield db a bh s = (Ok insts, s') → sound_at s s' insts p [ua_TxReqID a].
Proof.
  intros Hsane Hfr. unfold unshield. rewrite getS_bind. cbv zeta.
  assert (∀ code, sound_at s s [buildRejectedUnshieldReqInst (ua_Meta a) (ua_ShardID a) (ua_TxReqID a) code]
    p [ua_TxReqID a]) as Hrej.
  { intros code. eapply sound_weaken; [apply sound_reject; auto|by intros ? ?%not_elem_of_nil]. }
  intros [(vs & Hc & Hk)|[-> ->]]%orReject_cases; [|done]. apply CloneVaults_Ok in Hc. cbn in Hc.
  apply M_bind_Ok in Hk as (percent & s1 & Hpc & Hk).
  assert (s1 = s) as -> by (unfold lift in Hpc; congruence).
  apply orReject_cases in Hk as [([enough wds] & Hck & Hk)|[-> ->]]; [|done].
  apply commitOr_cases in Hk as [[-> Hu]|[-> ->]]; [|done].
  intros Hs Hg. pose proof (sim_percent _ _ _ _ Hs Hg Hpc) as Hpu.
  destruct (sim_vaults_of _ _ _ _ Hs Hg Hc) as (Hwv & _ & Hne).
  destruct (checkVault_spec _ _ _ _ _ _ _ Hwv Hpu Hsane Hck) as (_ & Hds & _ & _ & Hen).
  set (req := mkWaitingReq (ua_TxReqID a) wds (ua_BeaconHeight a)) in *.
  change ([ua_TxReqID a]) with ([] ++ [ua_TxReqID a]).
  assert (sound_at s s (if enough then buildBurningConfirmInsts req bh else []) p []) as Hcf.
  { destruct enough; [apply sound_confirms, buildBurningConfirm_confirms|apply sound_nil]. }
  revert Hs Hg. apply (sound_app _ _ _ _ _ _ _ _ Hcf). intros p1 Hap. apply sound_one. intros Hs Hg.
  destruct Hap as [_ _ _ Hids _ _]. pose proof Hs as [Ev _ _].
  edestruct (unshield_one (Clone s) p1 (ur_UnifiedTokenID (ua_Meta a))
    (ur_IsDepositToSC (ua_Meta a)) req (if enough then AcceptedStatusStr else WaitingStatusStr) s')
    as (p' & Hp & Hap' & _); [|by apply sim_Clone|done|exact Hu|by left| |reflexivity|].
  - destruct enough; [by right; left|by left].
  - intros sR' HuR. destruct enough.
    + rewrite decide_False by done. apply (wf_accepted _ _ req _ (gd_state p1 Hg) Hds); [|done].
      intros vs' Hvs'. rewrite Ev in Hc. rewrite Hc in Hvs'. injection Hvs' as <-. by apply Hen.
    + rewrite decide_False by done. apply (wf_waiting _ _ req _ (gd_state p1 Hg) Hds); [|done].
      intros Hin. apply Hids in Hin as [Hin|Hin]; [by apply (Hfr _ Hin)|by apply not_elem_of_nil in Hin].
  - exists p'. split; [exact Hp|]. eapply applied_weaken; [exact Hap'|].
    destruct enough; [rewrite decide_False by done; by intros ? ?%not_elem_of_nil|by rewrite decide_True].
Qed.

(** *** The queue of waiting requests *)

(** Filling a request leaves the other requests and the queues of the other tokens alone. *)
Lemma filled_queue u req s s' : NoDup (unshieldID <$> reqsOf (waitingUnshieldReqs s) u) →
  req ∈ reqsOf (waitingUnshieldReqs s) u →
  updateStateForUnshield u req FilledStatusStr s = (Ok tt, s') →
  reqsOf (waitingUnshieldReqs s) u ≡ₚ req :: reqsOf (waitingUnshieldReqs s') u ∧
  ∀ u', u' ≠ u → reqsOf (waitingUnshieldReqs s') u' = reqsOf (waitingUnshieldReqs s) u'.
Proof.
  intros Hnd Hreq. rewrite run_filled.
  destruct (CloneVaultsByUnifiedTokenID s u) as [vs| | |]; [|done..].
  destruct (removeReq _ _) as [l|] eqn:Hrm; [|done]. cbv zeta.
  destruct (updateStateForMatchedWaitUnshieldReq vs req); [|done..]. intros [= <-].
  cbn [waitingUnshieldReqs with_vaults dequeued]. split.
  - rewrite reqsOf_insert, decide_True by done. by apply removeReq_unique.
  - intros u' Hne. by rewrite reqsOf_insert, decide_False.
Qed.

(** A request that could not be filled may be gone from the producer's clone, but nothing else
    changed. *)
Lemma filled_err_sim u req s s' e p : sim s (ps_state p) →
  updateStateForUnshield u req FilledStatusStr s = (Err e, s') → sim s' (ps_state p).
Proof.
  intros [Ev Ep Eq]. rewrite run_filled.
  destruct (CloneVaultsByUnifiedTokenID s u) as [vs| | |];
    [|intros [= _ <-]; done|done|done].
  destruct (removeReq _ _) as [l|] eqn:Hrm; [|intros [= _ <-]; done]. cbv zeta.
  destruct (updateStateForMatchedWaitUnshieldReq vs req); [done| |done..]. intros [= _ <-].
  split; cbn; [done..|]. intros u'. rewrite reqsOf_insert. case_decide; [subst|done].
  apply removeReq_spec in Hrm as (_ & _ & _ & _ & Hsub). by etrans.
Qed.

Definition untouched (p p' : ProcState) (u : Hash) : Prop :=
  ∀ u', u' ≠ u → reqsOf (waitingUnshieldReqs (ps_state p')) u' =
                 reqsOf (waitingUnshieldReqs (ps_state p)) u'.

Lemma sound_fillQueue u bh reqs locked s insts s' p :
  NoDup (unshieldID <$> reqs) → (∀ r, r ∈ reqs → r ∈ reqsOf (waitingUnshieldReqs (ps_state p)) u) →
  fillQueue u bh reqs locked s = Ok (insts, s') → sim s (ps_state p) → good p →
  ∃ p', processInsts insts p = (Ok tt, p') ∧ applied p p' s' insts [] ∧ untouched p p' u.
Proof.
  revert locked s insts p. induction reqs as [|req reqs IH]; intros locked s insts p Hnd Hin.
  { intros [= <- <-] Hs Hg. exists p. split; [done|]. split; [by apply applied_refl|done]. }
  cbn [fillQueue]. apply NoDup_cons in Hnd as [Hnot Hnd].
  assert (∀ r, r ∈ reqs → r ∈ reqsOf (waitingUnshieldReqs (ps_state p)) u) as Hin'
    by (intros r Hr; apply Hin; by right).
  destruct (unifiedTokenVaults s !! u) as [vs|]; [|by apply IH].
  intros ([enough locked'] & Hck & Hrest)%outcome_bind_Ok Hs Hg.
  destruct enough; cbn in Hrest; [|by eapply IH].
  destruct (updateStateForUnshield u req FilledStatusStr s) as [[[]|e| |] s1] eqn:Hu; [| |done..].
  2: { eapply IH; [done..|exact Hrest|by eapply filled_err_sim|done]. }
  apply outcome_bind_Ok in Hrest as ([insts' s2] & Hfill & [= <- <-]).
  pose proof (ws_ids _ (gd_state p Hg) u) as HndR. assert (req ∈ req :: reqs) as Hhd by left.
  destruct (unshield_one s p u false req FilledStatusStr s1 BridgeShardID
    (buildUnshieldInst u false req FilledStatusStr BridgeShardID) [])
    as (p1 & Hp1 & Hap1 & HuR); [by right; right|done|done|done|by left| |by rewrite decide_False|].
  { intros sR' HuR. rewrite decide_True by done. apply wf_filled with req; [apply Hg|by apply Hin|done]. }
  destruct (filled_queue _ _ _ _ HndR (Hin req Hhd) HuR) as [Hperm Hother].
  destruct (IH locked' s1 insts' p1 Hnd) as (p2 & Hp2 & Hap2 & Hun).
  - intros r Hr. pose proof (Hin' r Hr) as HrR. rewrite Hperm in HrR.
    apply elem_of_cons in HrR as [->|]; [|done]. exfalso. apply Hnot. by apply list_elem_of_fmap_2.
  - done.
  - apply Hap1.
  - apply Hap1.
  - exists p2. split; [|split].
    + rewrite processInsts_app. exists p. split; [apply process_confirms, buildBurningConfirm_confirms|].
      cbn [processInsts]. rewrite M_bind_Ok. by exists (), p1.
    + eapply (applied_trans p p p2 s s2 _ _ [] []).
      * apply applied_bookkeeping; [done..|].
        intros u'. apply netMint_confirms, buildBurningConfirm_confirms.
      * by eapply (applied_trans p p1 p2 s1 s2 [_] insts' [] []).
    + intros u' Hne. by rewrite (Hun u' Hne), (Hother u' Hne).
Qed.

Lemma sound_fillTokens order bh waiting s insts s' p :
  NoDup order →
  (∀ u, u ∈ order → reqsOf waiting u `sublist_of` reqsOf (waitingUnshieldReqs (ps_state p)) u) →
  fillTokens order bh waiting s = Ok (insts, s') → sound_at s s' insts p [].
Proof.
  revert s insts p. induction order as [|u order IH]; intros s insts p Hnd Hq.
  { intros [= <- <-]. apply sound_nil. }
  cbn. apply NoDup_cons in Hnd as [Hu Hnd].
  intros ([i1 s1] & Hf1 & Hr)%outcome_bind_Ok. apply outcome_bind_Ok in Hr as ([i2 s2] & Hf2 & [= <- <-]).
  intros Hs Hg. assert (u ∈ u :: order) as Hhd by left.
  pose proof (ws_ids _ (gd_state p Hg) u) as HndR.
  destruct (sound_fillQueue u bh (reqsOf waiting u) ∅ s i1 s1 p) as (p1 & Hp1 & Hap1 & Hun); [| |exact Hf1|done|done|].
  - eapply sublist_NoDup; [exact HndR|]. apply fmap_sublist, Hq, Hhd.
  - intros r Hr. eapply elem_of_submseteq; [exact Hr|by apply sublist_submseteq, Hq].
  - destruct (IH s1 i2 p1 Hnd) as (p2 & Hp2 & Hap2); [|exact Hf2|apply Hap1|apply Hap1|].
    + intros u' Hu'. rewrite Hun by (intros ->; done). apply Hq. by right.
    + exists p2. split; [apply processInsts_app; eauto|].
      by eapply (applied_trans p p1 p2 s1 s2 i1 i2 [] []).
Qed.

(** The iteration order is any order of the tokens that have a queue. *)
Definition mapOrder {A} (m : gmap Hash A) (order : list Hash) : Prop :=
  order ≡ₚ (map_to_list m).*1.

Lemma sound_handleWaiting order bh s insts s' p :
  mapOrder (waitingUnshieldReqs s) order →
  handleWaitingUnshieldReqs order bh s = (Ok insts, s') → sound_at s s' insts p [].
Proof.
  intros Hord. unfold handleWaitingUnshieldReqs. rewrite getS_bind.
  intros ([i1 s1] & s2 & Hf & Hr)%M_bind_Ok. injection Hf as Hf <-. injection Hr as <- <-.
  intros Hs Hg. eapply sound_fillTokens; [| |exact Hf|by apply sim_Clone|done].
  - rewrite Hord. apply NoDup_fst_map_to_list.
  - intros u _. apply Hs.
Qed.

(** *** Calling an external contract *)
Lemma unifiedCallConfirms_confirms meta id bh i datas wds insts :
  unifiedCallConfirms meta id bh i datas wds = Ok insts → Forall isConfirm insts.
Proof.
  revert i wds insts. induction datas as [|d datas IH]; intros i wds insts; cbn.
  { intros [= <-]. constructor. }
  destruct wds as [|wd wds]; [done|].
  intros (np & _ & Hr)%outcome_bind_Ok. apply outcome_bind_Ok in Hr as (ext & _ & Hr).
  apply outcome_bind_Ok in Hr as (i1 & Hb & Hr). apply outcome_bind_Ok in Hr as (i2 & Hi2 & [= <-]).
  apply Forall_app. split; [|by eapply IH].
  unfold buildBurnForCallConfirmInsts in Hb. destruct (br_Data meta !! i); [|done].
  injection Hb as <-. by repeat constructor.
Qed.

Lemma plainCallEntry_spec db meta id bh d insts wd :
  plainCallEntry db meta id bh d = Ok (insts, wd) →
  Forall isConfirm insts ∧ wd_IncTokenID wd = br_BurnTokenID meta ∧
  wd_BurningAmount wd = bd_BurningAmount d ∧
  is_Ok (findExternalTokenID db (br_BurnTokenID meta)).
Proof.
  unfold plainCallEntry. destruct (bool_decide _) eqn:E; [|done]. apply bool_decide_eq_true in E. cbn.
  intros (np & _ & Hr)%outcome_bind_Ok. apply outcome_bind_Ok in Hr as (tk & Htk & Hr).
  apply outcome_bind_Ok in Hr as (ext & _ & Hr). apply outcome_bind_Ok in Hr as (i1 & Hb & [= <- <-]).
  split; [|split; [done|split; [done|]]].
  - unfold buildBurnForCallConfirmInsts in Hb. destruct (br_Data meta !! 0%nat); [|done].
    injection Hb as <-. by repeat constructor.
  - unfold FindExternalTokenID in Htk. rewrite E in Htk.
    apply outcome_bind_Ok in Htk as (e & -> & _). by exists e.
Qed.

Lemma plainCallEntries_spec db meta id bh datas insts wds :
  plainCallEntries db meta id bh datas = Ok (insts, wds) →
  Forall isConfirm insts ∧
  Forall2 (λ d wd, wd_IncTokenID wd = br_BurnTokenID meta ∧
             wd_BurningAmount wd = bd_BurningAmount d) datas wds ∧
  (datas ≠ [] → is_Ok (findExternalTokenID db (br_BurnTokenID meta))).
Proof.
  revert insts wds. induction datas as [|d datas IH]; intros insts wds; cbn.
  { intros [= <- <-]. repeat constructor. done. }
  intros ([i1 wd] & Hp & Hr)%outcome_bind_Ok. apply outcome_bind_Ok in Hr as ([i2 wds'] & Hr & [= <- <-]).
  apply plainCallEntry_spec in Hp as (Hc & Ht & Hb & Hf). apply IH in Hr as (Hc' & Hall & _).
  split; [by apply Forall_app|]. split; [by constructor|done].
Qed.

(** Centralized tokens have no address on another network. *)
Definition centralNoAddress (db : BridgeDB) : Prop :=
  ∀ t i, tokenInfos db !! (true, t) = Some i → ti_externalTokenID i = ""%string.

Lemma findExternal_registered db t : centralNoAddress db → is_Ok (findExternalTokenID db t) →
  IsBridgeTokenExistedByType db t false = true.
Proof.
  intros Hc [e He]. unfold findExternalTokenID, nonEmptyExt in He.
  unfold IsBridgeTokenExistedByType. apply bool_decide_eq_true.
  destruct (tokenInfos db !! (true, t)) as [i|] eqn:Ei.
  - rewrite (Hc t i Ei), bool_decide_true in He by done.
    destruct (tokenInfos db !! (false, t)); [eauto|done].
  - destruct (tokenInfos db !! (false, t)); [eauto|done].
Qed.

(** The instruction of a call paid with a plain token touches the counters only. *)
Lemma process_plain_call req p sid first rest :
  wr_data req = first :: rest → IsBridgeTokenExistedByType (ps_db p) (wd_IncTokenID first) false = true →
  ∃ p', processInst (buildAcceptedBurnForCallReqInst None req AcceptedStatusStr sid) p = (Ok tt, p') ∧
    ps_state p' = ps_state p ∧ ps_db p' = ps_db p.
Proof.
  intros Hw Hreg. cbn. unfold burnForCall_process. cbn [in_Status in_Content au_UnifiedTokenID au_WaitingUnshieldReq].
  unfold mbind at 1, M_bind at 1, lift. change (getStatusByteFromStatuStr AcceptedStatusStr) with (Ok 1 : outcome Z).
  rewrite bool_decide_false by done. cbn [default]. rewrite bool_decide_true by done. cbn [negb].
  rewrite Hw, getS_bind, Hreg. cbn [negb]. eexists. split; [reflexivity|done].
Qed.

(** What the request of a call must satisfy: the sanity check of its amounts, and a first entry. *)
Definition saneCall (r : BurnForCallRequest) : Prop :=
  br_Data r ≠ [] ∧ saneAmounts (callUnshieldData <$> br_Data r).

Lemma sound_burnForCall db a bh s s' insts p :
  saneCall (ua_Meta a) → centralNoAddress db →
  dom (tokenInfos db) ⊆ dom (tokenInfos (ps_db p)) →
  burnForCall db a bh s = (Ok insts, s') → sound_at s s' insts p [].
Proof.
  intros [Hne Hsane] Hcen Hdb. unfold burnForCall. destruct (br_Data (ua_Meta a)) as [|first rest] eqn:Hd; [done|].
  rewrite getS_bind. cbv zeta.
  assert (∀ code, sound_at s s [buildRejectedBurnForCallReqInst (ua_Meta a) first (ua_ShardID a)
    (ua_TxReqID a) code] p []) as Hrej by (intros code; apply sound_reject; auto).
  destruct (negb _).
  - intros [(vs & Hc & Hk)|[-> ->]]%orReject_cases; [|done]. apply CloneVaults_Ok in Hc. cbn in Hc.
    apply M_bind_Ok in Hk as (percent & s1 & Hpc & Hk).
    assert (s1 = s) as -> by (unfold lift in Hpc; congruence).
    apply orReject_cases in Hk as [([enough wds] & Hck & Hk)|[-> ->]]; [|done].
    destruct enough; [|injection Hk as <- <-; done].
    apply orReject_cases in Hk as [(confirms & Hcf & Hk)|[-> ->]]; [|done].
    apply commitOr_cases in Hk as [[-> Hu]|[-> ->]]; [|done].
    intros Hs Hg. pose proof (sim_percent _ _ _ _ Hs Hg Hpc) as Hpu.
    destruct (sim_vaults_of _ _ _ _ Hs Hg Hc) as (Hwv & _ & Hne').
    destruct (checkVault_spec _ _ _ _ _ _ _ Hwv Hpu Hsane Hck) as (_ & Hds & _ & _ & Hen).
    set (req := mkWaitingReq (ua_TxReqID a) wds (ua_BeaconHeight a)) in *.
    revert Hs Hg. apply (sound_app s s s' _ _ p [] []).
    { by apply sound_confirms; eapply unifiedCallConfirms_confirms. }
    intros p1 Hap. apply sound_one. intros Hs Hg. pose proof Hs as [Ev _ _].
    edestruct (unshield_one (Clone s) p1 (br_BurnTokenID (ua_Meta a)) true req AcceptedStatusStr s'
      (ua_ShardID a)) as (p' & Hp & Hap' & _); [by right; left|by apply sim_Clone|done|exact Hu
      |right; split; [reflexivity|done]| |reflexivity|].
    + intros sR' HuR. rewrite decide_False by done.
      apply (wf_accepted _ _ req _ (gd_state p1 Hg) Hds); [|done].
      intros vs' Hvs'. rewrite Ev in Hc. rewrite Hc in Hvs'. injection Hvs' as <-. by apply Hen.
    + exists p'. split; [exact Hp|]. rewrite decide_False in Hap' by done. done.
  - destruct (CloneVaultsByUnifiedTokenID (Clone s) (br_BurnTokenID (ua_Meta a))) as [vs| | |] eqn:Hc;
      [by intros [= <- <-]| | |];
      (intros [([confirms wds] & Hpl & Hk)|[-> ->]]%orReject_cases; [|done]);
      (unfold CloneVaultsByUnifiedTokenID in Hc; destruct (unifiedTokenVaults _ !! _); [done|]); try done.
    injection Hk as <- <-. apply plainCallEntries_spec in Hpl as (Hcf & Hall & Hf).
    rewrite <- Hd in Hf. 
    apply Forall2_cons_inv_l in Hall as (wd & wds' & [Ht _] & _ & ->).
    apply (sound_app s s (Clone s) _ _ p [] [] (sound_confirms s p _ Hcf)).
    intros p1 Hap. apply sound_one. intros Hs Hg.
    destruct (process_plain_call (mkWaitingReq (ua_TxReqID a) (wd :: wds') (ua_BeaconHeight a)) p1
      (ua_ShardID a) wd wds' eq_refl) as (p' & Hp & Es & Ed).
    { rewrite Ht. specialize (Hf ltac:(by rewrite Hd)).
      pose proof (findExternal_registered _ _ Hcen Hf) as Hreg.
      unfold IsBridgeTokenExistedByType in *. apply bool_decide_eq_true in Hreg.
      apply bool_decide_eq_true. apply elem_of_dom. apply elem_of_dom in Hreg.
      pose proof (ap_tokens _ _ _ _ _ Hap). set_solver. }
    exists p'. split; [exact Hp|]. apply applied_bookkeeping; [by apply sim_Clone|done..|].
    intros u'. rewrite netMint_one. cbn. rewrite (bool_decide_true (emptyHash = emptyHash)) by done.
    rewrite orb_true_r. lia.
Qed.

(** *** The new unshield and call requests of a block *)
Definition actionID (a : UnshieldActionForProducer) : Hash :=
  match a with UnshieldAct a => ua_TxReqID a | BurnForCallAct a => ua_TxReqID a end.

Definition saneAction (a : UnshieldActionForProducer) : Prop :=
  match a with
  | UnshieldAct a => saneAmounts (ur_Data (ua_Meta a))
  | BurnForCallAct a => saneCall (ua_Meta a)
  end.

Lemma sound_runUnshieldAction db a bh s s' insts p :
  saneAction a → fresh p (actionID a) → centralNoAddress db →
  dom (tokenInfos db) ⊆ dom (tokenInfos (ps_db p)) →
  runUnshieldAction db bh a s = (Ok insts, s') → sound_at s s' insts p [actionID a].
Proof.
  destruct a as [a|a]; cbn.
  - intros Hsane Hfr _ _. by apply sound_unshield.
  - intros Hsane _ Hcen Hdb Hr. eapply sound_weaken; [by eapply sound_burnForCall|].
    by intros ? ?%not_elem_of_nil.
Qed.

Lemma sound_newUnshields db bh acts s s' insts p :
  Forall saneAction acts → NoDup (actionID <$> acts) → Forall (λ a, fresh p (actionID a)) acts →
  centralNoAddress db → dom (tokenInfos db) ⊆ dom (tokenInfos (ps_db p)) →
  BuildNewUnshieldInstructions db bh acts s = (Ok insts, s') →
  sound_at s s' insts p (actionID <$> acts).
Proof.
  revert s insts p. induction acts as [|a acts IH]; intros s insts p Hsane Hnd Hfr Hcen Hdb.
  { intros [= <- <-]. apply sound_nil. }
  apply Forall_cons in Hsane as [Ha Hsane]. apply Forall_cons in Hfr as [Hfa Hfr].
  apply NoDup_cons in Hnd as [Hnot Hnd]. cbn [BuildNewUnshieldInstructions].
  intros (i1 & s1 & Hr1 & Hr)%M_bind_Ok. apply M_bind_Ok in Hr as (i2 & s2 & Hr2 & [= <- <-]).
  change (actionID <$> a :: acts) with ([actionID a] ++ (actionID <$> acts)).
  apply (sound_app s s1 s2).
  { by eapply sound_runUnshieldAction. }
  intros p1 Hap. eapply IH; [done..| |done| |exact Hr2].
  - apply Forall_forall. intros a' Ha' u Hin. destruct Hap as [_ _ _ Hids _ _].
    apply Hids in Hin as [Hin|Hin].
    + rewrite Forall_forall in Hfr. by apply (Hfr a' Ha' u).
    + apply list_elem_of_singleton in Hin. apply Hnot.
      change (actionID a ∈ actionID <$> acts). rewrite <- Hin. by apply list_elem_of_fmap_2.
  - pose proof (ap_tokens _ _ _ _ _ Hap). set_solver.
Qed.

End processing.
