(* ===== verification/BridgeShieldSound.v ===== *)
(** Shield requests on both sides: the producer's walk over the events of the receipts and the
    processor's walk over the accepted data fill the same vaults, what is minted is backed, and
    an external deposit is credited once. *)
From S2P Require Import Prelude Hash BridgeVault BridgeDB BridgeState BridgeInvariant BridgeProducer BridgeCall BridgeShield BridgeProcessor BridgeSound.
From Stdlib Require Import String.

Local Open Scope Z_scope.

(** ** A run of refills *)
Inductive refills `{!BridgeAggParam} (vs : Vaults) : list AcceptedShieldRequestData → Vaults → Prop :=
  | refills_nil : refills vs [] vs
  | refills_snoc ds vs1 d v v' :
      refills vs ds vs1 → vs1 !! as_IncTokenID d = Some v →
      isAggNetwork (as_NetworkID d) = true → in_u64 (as_ShieldAmount d) →
      CalRewardForRefillVault v (as_ShieldAmount d) = Ok (as_Reward d) →
      updateVaultForRefill v (as_ShieldAmount d) (as_Reward d) = Ok v' →
      refills vs (ds ++ [d]) (<[as_IncTokenID d := v']> vs1).

(** The records of the external transactions the processor leaves. *)
Definition creditOf (d : AcceptedShieldRequestData) : Z * string := (as_NetworkID d, as_UniqTx d).
Definition issueAll (ds : list AcceptedShieldRequestData) (db : BridgeDB) : BridgeDB :=
  mkBridgeDB (tokenInfos db) (list_to_set (creditOf <$> ds) ∪ txHashIssued db).

Definition on_db (db : BridgeDB) (p : ProcState) : ProcState :=
  mkProcState (ps_state p) db (ps_status p) (ps_infos p) (ps_unshieldTxIDs p).

Lemma issueAll_nil db : issueAll [] db = db.
Proof. destruct db. unfold issueAll. cbn. f_equal. set_solver. Qed.

Lemma issueAll_cons d ds db :
  issueAll ds (insertTxHashIssued (as_NetworkID d) (as_UniqTx d) db) = issueAll (d :: ds) db.
Proof. unfold issueAll, insertTxHashIssued. cbn. f_equal. set_solver. Qed.

Lemma NoDup_snoc_2 {A} (l : list A) x : x ∉ l → NoDup l → NoDup (l ++ [x]).
Proof.
  intros Hx Hl. apply NoDup_app. split; [done|]. split; [|apply NoDup_singleton].
  intros y Hy ->%list_elem_of_singleton. done.
Qed.

Lemma bigUint64_in_u64 x : in_u64 (bigUint64 x).
Proof. apply u64_bound. Qed.

Section shields.
Context `{!BridgeAggParam, !ConfirmHash, !EVMAddress, !EVM, !TokenRegistry}.

(** The processor's loop, from the front. *)
Lemma shieldDatas_app ds1 ds2 vs p :
  shieldDatas (ds1 ++ ds2) vs p = (vs1 ← shieldDatas ds1 vs; shieldDatas ds2 vs1) p.
Proof.
  revert vs p. induction ds1 as [|d ds1 IH]; intros vs p; cbn [shieldDatas app]; [done|].
  unfold mbind, M_bind, lift.
  destruct (vs !! as_IncTokenID d) as [v|]; [|done].
  destruct (updateVaultForRefill v _ _) as [v'| | |]; [|done..].
  destruct (GetInsertTxHashIssuedFuncByNetworkID _); [|done].
  unfold onDB, modifyS. cbn. apply IH.
Qed.

Lemma refills_processed vs ds vs' p : refills vs ds vs' →
  shieldDatas ds vs p = (Ok vs', on_db (issueAll ds (ps_db p)) p).
Proof.
  intros Hr. revert p. induction Hr as [|ds vs1 d v v' Hr IH Hv Hn Ha Hrw Hu]; intros p.
  { cbn. rewrite issueAll_nil. by destruct p. }
  rewrite shieldDatas_app. unfold mbind, M_bind. rewrite IH. cbn [shieldDatas].
  rewrite Hv. unfold mbind, M_bind, lift. rewrite Hu.
  unfold GetInsertTxHashIssuedFuncByNetworkID. rewrite Hn. cbn. unfold on_db. cbn. f_equal. f_equal.
  unfold issueAll, insertTxHashIssued. cbn. f_equal. rewrite fmap_app, list_to_set_app_L. set_solver.
Qed.

(** A run of refills adds to the backing what it mints, and promises nothing new. *)
Lemma refills_spec vs ds vs' f : refills vs ds vs' → wf_vaults vs → promises vs f →
  wf_vaults vs' ∧ promises vs' f ∧ dom vs' = dom vs ∧
  totalBacking vs' = totalBacking vs + list_sum shieldMint ds.
Proof.
  intros Hr Hw Hp. induction Hr as [|ds vs1 d v v' Hr IH Hv Hn Ha Hrw Hu].
  { split; [done|]. split; [done|]. split; [done|]. unfold list_sum. cbn. lia. }
  destruct IH as (Hw1 & Hp1 & Hd1 & Hb1). destruct (map_Forall_lookup_1 _ _ _ _ Hw1 Hv) as [Hwf Htok].
  destruct (refill_backing v _ _ v' Hwf Ha Hrw Hu) as (Hw' & HB & HP & (_ & _ & HT)).
  split; [apply wf_vaults_insert; [done..|congruence]|].
  split; [eapply promises_insert; [exact Hp1| |done]; by rewrite HP, (Hp1 _ _ Hv)|].
  split; [rewrite dom_insert_lookup_L; eauto|].
  rewrite (totalBacking_insert _ _ _ _ Hv), list_sum_app, list_sum_cons, Hb1.
  unfold list_sum at 3. cbn. unfold shieldMint at 3. lia.
Qed.

(** ** The producer's walk *)

Definition reshieldInst (unified txReqID : Hash) (r : Z * string * AcceptedShieldRequestData) : BeaconInst :=
  buildAcceptedInst IssuingReshieldResponseMeta r.1.1
    (ReshieldContent (mkAcceptedReshield (Some unified) r.1.2 txReqID r.2)).

(** An accepted event and what it leaves in the accumulator. *)
Record accepts (unified txReqID : Hash) (net : Z) (tok : Hash) (acc : ShieldAcc)
    (d : DepositEventData) (acc' : ShieldAcc) (v v' : BridgeAggVaultState)
    (sd : AcceptedShieldRequestData) : Prop := {
  ac_vault : sa_vaults acc !! tok = Some v;
  ac_tok : as_IncTokenID sd = tok;
  ac_credit : creditOf sd = (net, de_IncTxID d);
  ac_amount : in_u64 (as_ShieldAmount sd);
  ac_reward : CalRewardForRefillVault v (as_ShieldAmount sd) = Ok (as_Reward sd);
  ac_refill : updateVaultForRefill v (as_ShieldAmount sd) (as_Reward sd) = Ok v';
  ac_vaults : sa_vaults acc' = <[tok := v']> (sa_vaults acc);
  ac_outputs : if (de_IsOneTime d : bool)
    then (sa_accepted acc' = sa_accepted acc ∧
          sa_reshield acc' = sa_reshield acc ++ [reshieldInst unified txReqID (de_ShardID d, de_ReceiverStr d, sd)])
    else (sa_accepted acc' = sa_accepted acc ++ [sd] ∧ sa_reshield acc' = sa_reshield acc) }.

Definition same_outputs (acc acc' : ShieldAcc) : Prop :=
  sa_vaults acc' = sa_vaults acc ∧ sa_accepted acc' = sa_accepted acc ∧
  sa_reshield acc' = sa_reshield acc.

(** Either the event is passed over with nothing recorded, or its transaction was new and is
    recorded now, whether it is accepted or the vault overflows. *)
Lemma shieldEvent_cases db ac unified txReqID data info acc d acc' :
  isAggNetwork (sd_NetworkID data) = true → ei_Network info = sd_NetworkID data →
  shieldEvent db ac unified txReqID data info acc d = Ok acc' →
  (same_outputs acc acc' ∧ sa_used acc' = sa_used acc ∧ sa_ac acc' = sa_ac acc) ∨
  ((de_IncTxID d ∉ sa_used acc) ∧ ((sd_NetworkID data, de_IncTxID d) ∉ txHashIssued db) ∧
   sa_used acc' = sa_used acc ++ [de_IncTxID d] ∧
   UpdateUniqTxsUsed (sd_NetworkID data) (sa_used acc') (sa_ac acc) = (Ok tt, sa_ac acc') ∧
   (same_outputs acc acc' ∨
    ∃ v v' sd, accepts unified txReqID (sd_NetworkID data) (sd_IncTokenID data) acc d acc' v v' sd)).
Proof.
  intros Hn Hinfo. unfold shieldEvent, derefVault.
  destruct (sa_vaults acc !! sd_IncTokenID data) as [v|] eqn:Hv; [|done].
  cbn [mbind outcome_bind].
  destruct (ValidateDoubleShieldProof _ _ _ _) eqn:Hdbl; cbn [negb]; [|intros [= <-]; by left].
  destruct (VerifyTokenPair _ _ _ _); [|intros [= <-]; by left|done..].
  destruct (ConvertAmountByDecimal _ _ _) as [amt| | |]; [|intros [= <-]; by left|done..].
  cbv zeta. destruct (CalRewardForRefillVault v _) as [rw| | |] eqn:Hrw; [|intros [= <-]; by left|done..].
  destruct (UpdateUniq_spec (sd_NetworkID data) 0 (sa_used acc ++ [de_IncTxID d]) (sa_ac acc) Hn)
    as (ac' & Hac & _). rewrite Hac.
  unfold ValidateDoubleShieldProof, IsBridgeTxHashUsedInBlock in Hdbl. rewrite Hinfo in Hdbl.
  destruct (bool_decide_reflect (de_IncTxID d ∈ sa_used acc)); [done|].
  apply negb_true_iff, bool_decide_eq_false in Hdbl.
  destruct (updateVaultForRefill v _ _) as [v'| | |] eqn:Hu;
    intros Hacc; right; (do 2 (split; [done|])).
  1: { destruct (de_IsOneTime d) eqn:Hone; injection Hacc as <-; cbn;
       (do 2 (split; [done|])); right;
       exists v, v', (mkAcceptedShieldData (bigUint64 amt) rw (de_IncTxID d) (de_ExternalTokenID d)
                   (sd_NetworkID data) (sd_IncTokenID data));
       (split; [exact Hv|reflexivity|reflexivity|apply bigUint64_in_u64|exact Hrw|exact Hu|reflexivity|]);
       rewrite Hone; done. }
  all: injection Hacc as <-; cbn; (do 2 (split; [done|])); by left.
Qed.

(** What a walk has done: the instructions of the redeposits, the refills (when the request has
    deposits or redeposits only, they happened in the order of the outputs), and the external
    transactions it credited, each new and recorded. *)
Definition outputs (acc : ShieldAcc) (rs : list (Z * string * AcceptedShieldRequestData)) :=
  sa_accepted acc ++ rs.*2.

Record walked (db : BridgeDB) (unified txReqID : Hash) (vs0 : Vaults) (ac0 : AccumulatedValues)
    (acc : ShieldAcc) (rs : list (Z * string * AcceptedShieldRequestData)) : Prop := {
  wk_reshield : sa_reshield acc = reshieldInst unified txReqID <$> rs;
  wk_refills : sa_accepted acc = [] ∨ rs = [] → refills vs0 (outputs acc rs) (sa_vaults acc);
  wk_kept : ∀ net x, x ∈ uniqTxsOf net ac0 → x ∈ uniqTxsOf net (sa_ac acc);
  wk_new : ∀ sd, sd ∈ outputs acc rs → (creditOf sd ∉ txHashIssued db) ∧
    (as_UniqTx sd ∉ uniqTxsOf (as_NetworkID sd) ac0) ∧
    as_UniqTx sd ∈ uniqTxsOf (as_NetworkID sd) (sa_ac acc);
  wk_once : NoDup (creditOf <$> outputs acc rs) }.

(** Recording a transaction keeps what was recorded. *)
Lemma recorded net x ac ac' : isAggNetwork net = true →
  UpdateUniqTxsUsed net (uniqTxsOf net ac ++ [x]) ac = (Ok tt, ac') →
  uniqTxsOf net ac' = uniqTxsOf net ac ++ [x] ∧
  ∀ net' y, y ∈ uniqTxsOf net' ac' ↔ y ∈ uniqTxsOf net' ac ∨ (net' = net ∧ y = x).
Proof.
  intros Hn Hu.
  assert (∀ net', uniqTxsOf net ac' = uniqTxsOf net ac ++ [x] ∧
    (net' ≠ net → uniqTxsOf net' ac' = uniqTxsOf net' ac)) as Hspec.
  { intros net'. destruct (UpdateUniq_spec net net' (uniqTxsOf net ac ++ [x]) ac Hn) as (ac2 & E & ?).
    rewrite Hu in E. by injection E as ->. }
  split; [by apply (Hspec 0)|]. intros net' y. destruct (Hspec net') as [E1 E2].
  destruct (decide (net' = net)) as [->|Hne]; [rewrite E1|rewrite E2 by done]; set_solver.
Qed.

Lemma walked_start db unified txReqID vs ac l b :
  walked db unified txReqID vs ac (mkShieldAcc vs ac l b [] []) [].
Proof.
  split; cbn; [done|intros _; constructor|done|by intros ? ?%not_elem_of_nil|constructor].
Qed.

(** One event. *)
Lemma walked_event db ac unified txReqID data info vs0 ac0 acc rs d acc' :
  isAggNetwork (sd_NetworkID data) = true → ei_Network info = sd_NetworkID data →
  sa_used acc = uniqTxsOf (sd_NetworkID data) (sa_ac acc) →
  walked db unified txReqID vs0 ac0 acc rs →
  shieldEvent db ac unified txReqID data info acc d = Ok acc' →
  sa_used acc' = uniqTxsOf (sd_NetworkID data) (sa_ac acc') ∧
  ∃ rs', walked db unified txReqID vs0 ac0 acc' rs'.
Proof.
  intros Hn Hinfo Hused [W1 W2 W3 W4 W5] Hev.
  destruct (shieldEvent_cases _ _ _ _ _ _ _ _ _ Hn Hinfo Hev)
    as [((Ev & Ea & Er) & Eu & Eac)|(Hnew & Hdb & Eu & Eac & Hcase)].
  { rewrite Eu, Eac. split; [done|]. exists rs. unfold outputs in *.
    split; unfold outputs; rewrite ?Ev, ?Ea, ?Er, ?Eac; done. }
  rewrite Eu, Hused in Eac. destruct (recorded _ _ _ _ Hn Eac) as [E1 E2].
  split; [by rewrite Eu, E1, Hused|].
  assert (∀ net x, x ∈ uniqTxsOf net ac0 → x ∈ uniqTxsOf net (sa_ac acc')) as Hkept.
  { intros net x Hx. apply E2. left. by apply W3. }
  assert (∀ sd, sd ∈ outputs acc rs → as_UniqTx sd ∈ uniqTxsOf (as_NetworkID sd) (sa_ac acc')) as Hmore.
  { intros sd Hsd. apply E2. left. by apply W4. }
  destruct Hcase as [(Ev & Ea & Er)|(v & v' & sd & [A1 A2 A3 A4 A5 A6 A7 A8])].
  { exists rs. unfold outputs in *. split; unfold outputs; rewrite ?Ev, ?Ea, ?Er; try done.
    intros sd Hsd. specialize (W4 sd Hsd). split_and!; try apply W4. by apply Hmore. }
  injection A3 as Enet Etx.
  assert (creditOf sd ∉ creditOf <$> outputs acc rs) as Hfresh.
  { intros (sd' & E & Hsd')%list_elem_of_fmap. injection E as En Et. apply Hnew. rewrite Hused, <- Enet, <- Etx.
    rewrite En, Et. by apply W4. }
  assert (∀ l : list AcceptedShieldRequestData, (∀ x, x ∈ l ↔ x ∈ outputs acc rs ∨ x = sd) → ∀ sd', sd' ∈ l →
    (creditOf sd' ∉ txHashIssued db) ∧ (as_UniqTx sd' ∉ uniqTxsOf (as_NetworkID sd') ac0) ∧
    as_UniqTx sd' ∈ uniqTxsOf (as_NetworkID sd') (sa_ac acc')) as Hall.
  { intros l Hl sd' [Hsd'| ->]%Hl.
    - specialize (W4 sd' Hsd'). split_and!; try apply W4. by apply Hmore.
    - unfold creditOf. rewrite Enet, Etx. split; [done|]. split.
      + intros ?%W3. by rewrite Hused in Hnew.
      + apply E2. by right. }
  assert (∀ vs1, vs1 = sa_vaults acc → refills vs0 (outputs acc rs) vs1 →
    refills vs0 (outputs acc rs ++ [sd]) (sa_vaults acc')) as Hsnoc.
  { intros vs1 -> Hr. rewrite A7, <- A2. eapply refills_snoc; [done|by rewrite A2|by rewrite Enet|done..]. }
  destruct (de_IsOneTime d); destruct A8 as [Ea Er].
  - exists (rs ++ [(de_ShardID d, de_ReceiverStr d, sd)]).
    assert (outputs acc' (rs ++ [(de_ShardID d, de_ReceiverStr d, sd)]) = outputs acc rs ++ [sd]) as Eo.
    { unfold outputs. by rewrite Ea, fmap_app, app_assoc. }
    split; rewrite ?Eo.
    + by rewrite Er, W1, fmap_app.
    + intros [Hnil|[_ [=]]%app_nil]. eapply Hsnoc; [done|]. apply W2. left. by rewrite <- Ea.
    + done.
    + apply Hall. intros x. by rewrite elem_of_app, list_elem_of_singleton.
    + rewrite fmap_app. apply NoDup_snoc_2; [done|exact W5].
  - exists rs.
    assert (outputs acc' rs ≡ₚ outputs acc rs ++ [sd]) as Eo.
    { unfold outputs. rewrite Ea. solve_Permutation. }
    split.
    + by rewrite Er.
    + intros [Hnil|Hnil].
      * rewrite Ea in Hnil. by apply app_nil in Hnil as [_ [=]].
      * assert (outputs acc' rs = outputs acc rs ++ [sd]) as ->.
        { unfold outputs. subst rs. cbn. by rewrite !app_nil_r, Ea. }
        eapply Hsnoc, W2; [done|]. by right.
    + done.
    + apply Hall. intros x. by rewrite Eo, elem_of_app, list_elem_of_singleton.
    + rewrite Eo, fmap_app. apply NoDup_snoc_2; [done|exact W5].
Qed.

Lemma walked_events db ac unified txReqID data info vs0 ac0 acc rs ds acc' :
  isAggNetwork (sd_NetworkID data) = true → ei_Network info = sd_NetworkID data →
  sa_used acc = uniqTxsOf (sd_NetworkID data) (sa_ac acc) →
  walked db unified txReqID vs0 ac0 acc rs →
  shieldEvents db ac unified txReqID data info acc ds = Ok acc' →
  ∃ rs', walked db unified txReqID vs0 ac0 acc' rs'.
Proof.
  intros Hn Hinfo. revert acc rs. induction ds as [|d ds IH]; intros acc rs Hused Hw.
  { intros [= <-]. eauto. }
  cbn [shieldEvents]. intros (acc1 & Hev & Hrest)%outcome_bind_Ok.
  destruct (walked_event _ _ _ _ _ _ _ _ _ _ _ _ Hn Hinfo Hused Hw Hev) as (Hused1 & rs1 & Hw1).
  eauto.
Qed.

Lemma walked_entry db ac unified txReqID vs0 ac0 acc rs incAddr data extra acc' incAddr' :
  walked db unified txReqID vs0 ac0 acc rs →
  shieldEntry db ac unified txReqID acc incAddr data extra = Ok (Accepted acc' incAddr') →
  ∃ rs', walked db unified txReqID vs0 ac0 acc' rs'.
Proof.
  intros Hw. unfold shieldEntry. destruct (sa_vaults acc !! _) as [v|]; [|done].
  destruct (negb _); [done|]. intros (read & _ & Hr)%outcome_bind_Ok.
  destruct read as [[uniqTx r]| | |]; [|done..].
  destruct (GetEVMInfoByNetworkID _ _) as [info| | |] eqn:Hinfo; [|done..].
  unfold GetEVMInfoByNetworkID in Hinfo. destruct (isAggNetwork (sd_NetworkID data)) eqn:Hn; [|done].
  apply outcome_bind_Ok in Hinfo as (prefix & _ & [= <-]).
  destruct (receiptEvents _ _ _ _) as [[events inc]|]; [|done].
  apply outcome_bind_Ok in Hr as (acc1 & Hev & Hr). destruct (sa_valid acc1); [|done].
  injection Hr as <- <-.
  refine (walked_events _ _ _ _ _ _ _ _ _ rs _ _ Hn _ _ _ Hev); [done..|by destruct Hw; split].
Qed.

Lemma walked_entries db ac unified txReqID extras i vs0 ac0 acc rs incAddr datas acc' incAddr' :
  walked db unified txReqID vs0 ac0 acc rs →
  shieldEntries db ac unified txReqID extras i acc incAddr datas = Ok (Accepted acc' incAddr') →
  ∃ rs', walked db unified txReqID vs0 ac0 acc' rs'.
Proof.
  revert i acc rs incAddr. induction datas as [|d datas IH]; intros i acc rs incAddr Hw.
  { intros [= <- <-]. eauto. }
  cbn [shieldEntries]. intros (r & Hr & Hrest)%outcome_bind_Ok.
  destruct r as [acc1 inc1|]; [|done]. destruct (walked_entry _ _ _ _ _ _ _ _ _ _ _ _ _ Hw Hr).
  eauto.
Qed.

(** A request is passed over, rejected with no trace, or accepted as a whole. *)
Lemma shield_cases db action sid s ac insts s' ac' :
  shield db action sid (s, ac) = (Ok insts, (s', ac')) →
  (insts = [] ∨ ∃ txReqID code, insts = [rejectShield sid txReqID code]) ∧ s' = s ∧ ac' = ac ∨
  ∃ unified txReqID vs clonedAC acc incAddr rs,
    unifiedTokenVaults s !! unified = Some vs ∧ AC_Clone ac = Ok clonedAC ∧
    walked db unified txReqID vs clonedAC acc rs ∧
    insts = acceptedShieldInsts unified txReqID acc incAddr ∧
    s' = with_vaults (<[unified := sa_vaults acc]> (unifiedTokenVaults s)) s ∧
    ac' = setDBridgeTokenPair unified UnifiedTokenPrefix (sa_ac acc).
Proof.
  unfold shield. destruct action as [a|]; [|intros [= <- <- <-]; left; eauto].
  rewrite getS_bind.
  destruct (CloneVaultsByUnifiedTokenID s _) as [vs| | |] eqn:Hc;
    try (intros [= <- <- <-]; left; by eauto 6).
  apply CloneVaults_Ok in Hc.
  intros (cac & st & Hcac & Hr)%M_bind_Ok. unfold lift in Hcac. injection Hcac as Hcac <-.
  apply M_bind_Ok in Hr as (res & st & Hres & Hr). unfold lift in Hres. injection Hres as Hres <-.
  destruct res as [acc incAddr|code]; [|injection Hr as <- <- <-; left; by eauto 6].
  right. injection Hr as <- <- <-.
  destruct (walked_entries _ _ _ _ _ _ _ _ _ [] _ _ _ _ (walked_start _ _ _ _ _ _ _) Hres) as [rs Hw].
  exists (sr_UnifiedTokenID (act_Meta a)), (act_TxReqID a), vs, cac, acc, incAddr, rs. split_and!; done.
Qed.

(** ** The request on both sides *)
Lemma process_shield sid c p vs vs' : unifiedTokenVaults (ps_state p) !! ai_UnifiedTokenID c = Some vs →
  refills vs (ai_Data c) vs' →
  ∃ p', processInst (buildAcceptedInst IssuingUnifiedTokenRequestMeta sid (ShieldContent c)) p = (Ok tt, p') ∧
    ps_state p' = with_vaults (<[ai_UnifiedTokenID c := vs']> (unifiedTokenVaults (ps_state p))) (ps_state p) ∧
    ps_db p' = issueAll (ai_Data c) (ps_db p).
Proof.
  intros Hu Hr. cbn. unfold shield_process. cbn [in_Status in_Content].
  rewrite bool_decide_true by done. rewrite getS_bind. unfold CloneVaultsByUnifiedTokenID. rewrite Hu.
  unfold mbind at 1, M_bind at 1, lift. unfold mbind at 1, M_bind at 1.
  rewrite (refills_processed _ _ _ p Hr). eexists. split; [reflexivity|done].
Qed.

Lemma process_reshield u txReqID r p vs v v' : unifiedTokenVaults (ps_state p) !! u = Some vs →
  vs !! as_IncTokenID r.2 = Some v → isAggNetwork (as_NetworkID r.2) = true →
  updateVaultForRefill v (as_ShieldAmount r.2) (as_Reward r.2) = Ok v' →
  ∃ p', processInst (reshieldInst u txReqID r) p = (Ok tt, p') ∧
    ps_state p' = with_vaults (<[u := <[as_IncTokenID r.2 := v']> vs]> (unifiedTokenVaults (ps_state p)))
                    (ps_state p) ∧
    ps_db p' = insertTxHashIssued (as_NetworkID r.2) (as_UniqTx r.2) (ps_db p).
Proof.
  intros Hu Hv Hn Hr. cbn. unfold reshield_process. cbn [in_Status in_Content rr_ReshieldData rr_UnifiedTokenID].
  rewrite bool_decide_true by done. unfold GetInsertTxHashIssuedFuncByNetworkID. rewrite Hn.
  unfold mbind at 1, M_bind at 1. rewrite getS_bind. unfold CloneVaultsByUnifiedTokenID. rewrite Hu.
  unfold mbind at 1, M_bind at 1, lift. rewrite Hv. unfold mbind at 1, M_bind at 1. rewrite Hr.
  eexists. split; [reflexivity|done].
Qed.

Lemma with_vaults_id s u vs : unifiedTokenVaults s !! u = Some vs →
  with_vaults (<[u := vs]> (unifiedTokenVaults s)) s = s.
Proof. intros Hu. unfold with_vaults. rewrite insert_id by done. by destruct s. Qed.

Lemma sound_reshields s p u txReqID vs rs vs' : unifiedTokenVaults s !! u = Some vs →
  refills vs (rs.*2) vs' →
  sound_at s (with_vaults (<[u := vs']> (unifiedTokenVaults s)) s) (reshieldInst u txReqID <$> rs) p [].
Proof.
  intros Hu Hr. remember (rs.*2) as ds eqn:Eds. revert rs Eds.
  induction Hr as [|ds vs1 d v v' Hr IH Hv Hn Ha Hrw Hup]; intros rs Eds.
  { symmetry in Eds. apply fmap_nil_inv in Eds as ->. rewrite with_vaults_id by done. apply sound_nil. }
  symmetry in Eds. apply fmap_app_inv in Eds as (rs1 & l & -> & Hl & ->).
  destruct l as [|r [|? ?]]; [done| |done]. injection Hl as ->. rewrite fmap_app.
  set (s1 := with_vaults (<[u := vs1]> (unifiedTokenVaults s)) s).
  apply (sound_app s s1 _ _ _ p [] []); [by apply IH|]. intros p1 _. apply sound_one. intros Hs Hg.
  assert (unifiedTokenVaults s1 !! u = Some vs1) as Hu1 by apply lookup_insert_eq.
  pose proof Hs as [Ev _ _].
  destruct (process_reshield u txReqID r p1 vs1 v v') as (p' & Hp & Es & Ed); [by rewrite <- Ev|done..|].
  exists p'. split; [done|].
  destruct (sim_vaults_of _ _ _ _ Hs Hg Hu1) as (Hwv & _ & _).
  destruct (map_Forall_lookup_1 _ _ _ _ Hwv Hv) as [Hwf Htok].
  destruct (refill_backing v _ _ v' Hwf Ha Hrw Hup) as (Hw' & HB & HP & HT).
  replace (with_vaults _ s) with
    (with_vaults (<[u := <[as_IncTokenID r.2 := v']> vs1]> (unifiedTokenVaults s1)) s1)
    by (unfold s1, with_vaults; cbn; by rewrite insert_insert_eq).
  eapply (applied_vault p1 p' s1 u vs1 (as_IncTokenID r.2) v v'); [done..|apply HT|done|by rewrite Ed| |].
  - rewrite Ed. cbn. set_solver.
  - intros u'. rewrite netMint_one. cbn. unfold forToken, shieldMint. case_decide; lia.
Qed.

(** *** Requests that mix deposits and redeposits

    The processor fills the vaults with the deposits of a request before its redeposits, the
    producer in the order of the receipts: the theorems are about blocks where no request has
    both. *)
Definition shieldTxs (insts : list BeaconInst) : list Hash :=
  omap (λ i, match i with AggInst (mkInstruction _ _ _ (ShieldContent c)) => Some (ai_TxReqID c)
             | _ => None end) insts.
Definition reshieldTxs (insts : list BeaconInst) : list Hash :=
  omap (λ i, match i with AggInst (mkInstruction _ _ _ (ReshieldContent c)) => Some (rr_TxReqID c)
             | _ => None end) insts.
Definition unmixed (insts : list BeaconInst) : Prop :=
  Forall (λ t, t ∉ reshieldTxs insts) (shieldTxs insts).

Lemma unmixed_app a b : unmixed (a ++ b) → unmixed a ∧ unmixed b.
Proof.
  unfold unmixed, shieldTxs, reshieldTxs. rewrite !omap_app, Forall_app.
  intros [Ha Hb]. split; (eapply Forall_impl; [eassumption|]); cbn; intros t Ht Hin; apply Ht, elem_of_app;
    auto.
Qed.

Lemma unmixed_request u txReqID acc incAddr rs : sa_reshield acc = reshieldInst u txReqID <$> rs →
  unmixed (acceptedShieldInsts u txReqID acc incAddr) → sa_accepted acc = [] ∨ rs = [].
Proof.
  intros Er. unfold acceptedShieldInsts. rewrite Er.
  destruct (bool_decide_reflect (sa_accepted acc = [])) as [|Hne]; [by left|].
  destruct rs as [|r rs]; [by right|]. intros [Hx _]%Forall_cons. exfalso. apply Hx. cbn. by left.
Qed.

Lemma sound_shield db action sid s ac insts s' ac' p : unmixed insts →
  shield db action sid (s, ac) = (Ok insts, (s', ac')) → sound_at s s' insts p [].
Proof.
  intros Hun [([->|(txReqID & code & ->)] & -> & ->)|
    (u & txReqID & vs & cac & acc & incAddr & rs & Hu & _ & Hw & -> & -> & _)]%shield_cases.
  - apply sound_nil.
  - apply sound_reject. auto.
  - destruct Hw as [Er Hre _ _ _]. pose proof (unmixed_request _ _ _ _ _ Er Hun) as Hone.
    specialize (Hre Hone). unfold outputs in Hre. unfold acceptedShieldInsts. rewrite Er.
    destruct (bool_decide_reflect (sa_accepted acc = [])) as [Ea|Hne].
    { rewrite Ea in Hre. by apply (sound_reshields s p u txReqID vs). }
    destruct Hone as [| ->]; [done|]. cbn in Hre. rewrite app_nil_r in *. cbn. apply sound_one. intros Hs Hg.
    destruct (sim_vaults_of _ _ _ _ Hs Hg Hu) as (Hwv & Hpr & _). pose proof Hs as [Ev _ _].
    destruct (refills_spec _ _ _ _ Hre Hwv Hpr) as (Hwv' & Hpr' & Hdom & Hb).
    edestruct (process_shield (shardOfAddress incAddr) (mkAcceptedShield incAddr u txReqID (sa_accepted acc)))
      as (p' & Hp & Es & Ed); [cbn; rewrite <- Ev; exact Hu|exact Hre|].
    exists p'. split; [exact Hp|]. cbn in Es, Ed.
    apply (applied_vaults p p' s u vs); [done..|by rewrite Ed| |].
    + rewrite Ed. cbn. set_solver.
    + intros u'. rewrite netMint_one, Hb. cbn. unfold forToken. case_decide; lia.
Qed.
End shields.
