(* ===== verification/BridgeBlock.v ===== *)
(** A beacon block of the bridge aggregator: the checkpoints that add unified tokens
    ([blockchain/bridgeagg/manager.go], [BuildAddTokenInstruction]), the order the new unshield
    requests are handled in ([blockchain/beaconproducer.go], [generateBridgeAggInstruction]) and
    the calls of [blockchain/beaconstatefulinsts.go] in their order; with the proof that every
    node can process what a block holds. *)
From S2P Require Import Prelude Hash InstructionText BridgeVault BridgeDB BridgeState BridgeInvariant BridgeProducer BridgeCall BridgeShield BridgeProcessor BridgeSound BridgeShieldSound.
From Stdlib Require Import String.

Local Open Scope Z_scope.

(** ** Checkpoints

    The features that were triggered, with the heights they were triggered at, by name; a name
    of a checkpoint is the prefix and a decimal number. *)
Definition unifiedTokenTriggerPrefix : string := "unified_token_".

Definition isCheckpoint (k : string) : bool :=
  let n := String.length unifiedTokenTriggerPrefix in
  (n <? String.length k)%nat && bool_decide (String.substring 0 n k = unifiedTokenTriggerPrefix).

Definition checkpointOf (k : string) : outcome Z :=
  let n := String.length unifiedTokenTriggerPrefix in
  InstructionText.checked (ParseUint (String.substring n (String.length k - n) k)).

(** The checkpoints that were triggered in the block before. *)
Definition validCheckpoints (beaconHeight : Z) (triggeredFeature : gmap string Z)
    : outcome (list Z) :=
  checkpoints ← mapErr checkpointOf
                  (filter (λ k, Is_true (isCheckpoint k)) (map_to_list triggeredFeature).*1);
  Ok (filter (λ c, beaconHeight = add64 (default 0 (triggeredFeature !! (unifiedTokenTriggerPrefix +:+ FormatUint c))) 1)
        (merge_sort Z.le checkpoints)).

(** [config.UnifiedToken()]: the tokens of a checkpoint, in the order of Go's map iteration. *)
Abbreviation UnifiedTokens := (list (Hash * list (Hash * ConfigVault))).

Section build.
Context `{!BridgeAggParam, !ConfirmHash, !EVM, !EVMAddress, !TokenRegistry}.

Fixpoint addTokens (db : BridgeDB) (config : Z → option UnifiedTokens) (checkpoints : list Z)
    : M (State * AccumulatedValues) (list BeaconInst) :=
  match checkpoints with
  | [] => mret []
  | c :: checkpoints =>
      '(s, ac) ← getS;
      '(insts, s, ac) ← lift (addToken db (config c) s ac);
      modifyS (λ _, (s, ac));;
      rest ← addTokens db config checkpoints;
      mret (insts ++ rest)
  end.

Definition BuildAddTokenInstruction (db : BridgeDB) (config : Z → option UnifiedTokens)
    (beaconHeight : Z) (triggeredFeature : gmap string Z)
    : M (State * AccumulatedValues) (list BeaconInst) :=
  checkpoints ← lift (validCheckpoints beaconHeight triggeredFeature);
  addTokens db config checkpoints.

(** ** The order of the new unshield requests

    They are collected from maps and sorted by the beacon height of their shard block and the
    text of their transaction; equal elements keep their order. *)
Definition actionHeight (a : UnshieldActionForProducer) : Z :=
  match a with UnshieldAct a => ua_BeaconHeight a | BurnForCallAct a => ua_BeaconHeight a end.

Definition less (a b : UnshieldActionForProducer) : bool :=
  if actionHeight a =? actionHeight b
  then String.ltb (Hash_String (actionID a)) (Hash_String (actionID b))
  else actionHeight a <? actionHeight b.

Fixpoint insertAction (a : UnshieldActionForProducer) (l : list UnshieldActionForProducer)
    : list UnshieldActionForProducer :=
  match l with
  | [] => [a]
  | b :: l' => if less b a then b :: insertAction a l' else a :: l
  end.

Definition sortActions (l : list UnshieldActionForProducer) : list UnshieldActionForProducer :=
  foldr insertAction [] l.

Definition generateBridgeAggInstruction (db : BridgeDB) (beaconHeight : Z)
    (unshieldActions : list UnshieldActionForProducer) : M State (list BeaconInst) :=
  BuildNewUnshieldInstructions db beaconHeight (sortActions unshieldActions).

(** ** The block *)
Definition BuildBlock (db : BridgeDB) (order : list Hash) (beaconHeight : Z)
    (triggeredFeature : gmap string Z) (config : Z → option UnifiedTokens) (acts : BlockActions)
    (unshieldActions : list UnshieldActionForProducer)
    : M (State * AccumulatedValues) (list BeaconInst) :=
  i1 ← BuildAddTokenInstruction db config beaconHeight triggeredFeature;
  i2 ← BuildInstructions db order beaconHeight acts;
  i3 ← onFst (generateBridgeAggInstruction db beaconHeight unshieldActions);
  mret (i1 ++ i2 ++ i3).
End build.

(** ** Sorting does not depend on the order of collection *)
Definition actionKey (a : UnshieldActionForProducer) : Z * string :=
  (actionHeight a, Hash_String (actionID a)).

Lemma less_spec a b : less a b = true ↔
  actionHeight a < actionHeight b ∨
  (actionHeight a = actionHeight b ∧ String.compare (Hash_String (actionID a)) (Hash_String (actionID b)) = Lt).
Proof.
  unfold less, String.ltb. destruct (Z.eqb_spec (actionHeight a) (actionHeight b)) as [E|E].
  - destruct (String.compare _ _); split; (done || lia || (intros [?|[? ?]]; (done || lia)) || auto).
  - rewrite Z.ltb_lt. split; [auto|]. by intros [?|[? ?]].
Qed.

Lemma less_trans a b c : less a b = true → less b c = true → less a c = true.
Proof.
  rewrite !less_spec. intros [?|[? ?]] [?|[? ?]]; [left; lia..|right].
  split; [lia|]. by eapply string_compare_Lt_trans.
Qed.

Lemma less_total a b : actionKey a ≠ actionKey b →
  (less a b = true ∧ less b a = false) ∨ (less a b = false ∧ less b a = true).
Proof.
  intros Hne. unfold less. rewrite (Z.eqb_sym (actionHeight b)).
  destruct (Z.eqb_spec (actionHeight a) (actionHeight b)) as [E|E].
  - unfold String.ltb. rewrite (String.compare_antisym (Hash_String (actionID a))).
    destruct (String.compare _ _) eqn:Ec; cbn; auto. exfalso. apply Hne.
    apply string_compare_Eq in Ec. unfold actionKey. congruence.
  - destruct (Z.ltb_spec (actionHeight a) (actionHeight b)), (Z.ltb_spec (actionHeight b) (actionHeight a));
      auto; lia.
Qed.

Lemma insertAction_lt a b l : less a b = true → less b a = false →
  insertAction a (insertAction b l) = insertAction b (insertAction a l).
Proof.
  intros Hab Hba. induction l as [|c l IH]; cbn; [by rewrite Hab, Hba|].
  destruct (less c b) eqn:Hcb; cbn.
  - destruct (less c a) eqn:Hca; cbn; rewrite ?Hab, ?Hcb; [by rewrite IH|done].
  - rewrite Hba. destruct (less c a) eqn:Hca; cbn.
    + by rewrite (less_trans _ _ _ Hca Hab) in Hcb.
    + rewrite Hab. by rewrite Hcb.
Qed.

Lemma insertAction_comm a b l : actionKey a ≠ actionKey b →
  insertAction a (insertAction b l) = insertAction b (insertAction a l).
Proof.
  intros [[? ?]|[? ?]]%less_total; [|symmetry]; by apply insertAction_lt.
Qed.

Lemma insertAction_perm a l : insertAction a l ≡ₚ a :: l.
Proof.
  induction l as [|b l IH]; [done|]. cbn. destruct (less b a); [|done]. rewrite IH. apply Permutation_swap.
Qed.

Lemma sortActions_perm l : sortActions l ≡ₚ l.
Proof. induction l as [|a l IH]; [done|]. cbn. by rewrite insertAction_perm, IH. Qed.

Lemma sortActions_unique l1 l2 : l1 ≡ₚ l2 → NoDup (actionKey <$> l1) → sortActions l1 = sortActions l2.
Proof.
  induction 1 as [|a l1 l2 _ IH|a b l|l1 l2 l3 Hm1 IH1 Hm2 IH2]; intros Hnd; [done| | |].
  - apply NoDup_cons in Hnd as [_ Hnd]. cbn. f_equal. by apply IH.
  - apply NoDup_cons in Hnd as [Hne _]. cbn. apply insertAction_comm. intros E. apply Hne.
    cbn. rewrite E. by left.
  - rewrite IH1 by done. apply IH2. by rewrite <- Hm1.
Qed.

(** ** Adding tokens

    What a run of additions leaves: the vaults that were there, and new ones that hold and
    promise nothing. *)
Record grown (s s' : State) : Prop := {
  gr_old : ∀ u t v, vaultOf s u t = Some v → vaultOf s' u t = Some v;
  gr_new : ∀ u t v, vaultOf s' u t = Some v → vaultOf s u t = Some v ∨
    (vaultOf s u t = None ∧ wf_vault v ∧ incTokenID v = t ∧ promised v = 0 ∧ backing v = 0);
  gr_dom : dom (unifiedTokenVaults s) ⊆ dom (unifiedTokenVaults s');
  gr_backing : ∀ u, backingOf s' u = backingOf s u;
  gr_queue : waitingUnshieldReqs s' = waitingUnshieldReqs s;
  gr_param : param s' = param s }.

Lemma grown_refl s : grown s s.
Proof. split; auto. Qed.

Lemma grown_Clone s s' : grown s s' → grown s (Clone s').
Proof. intros [G1 G2 G3 G4 G5 G6]. by split. Qed.

Lemma NewVault_empty dec net t : 0 ≤ dec < 256 →
  wf_vault (NewVault dec net t) ∧ promised (NewVault dec net t) = 0 ∧ backing (NewVault dec net t) = 0.
Proof. intros Hd. split; [by apply NewVault_wf|done]. Qed.

(** A list of vaults of a new token. *)
Lemma grown_unified s s' u : grown s s' →
  grown s (with_vaults (<[u := default ∅ (unifiedTokenVaults s' !! u)]> (unifiedTokenVaults s')) s').
Proof.
  intros [G1 G2 G3 G4 G5 G6]. set (s2 := with_vaults _ s').
  assert (∀ u' t, vaultOf s2 u' t = vaultOf s' u' t) as Ev.
  { intros u' t. unfold vaultOf, s2. cbn. destruct (decide (u' = u)) as [->|].
    - rewrite lookup_insert_eq. by destruct (unifiedTokenVaults s' !! u).
    - by rewrite lookup_insert_ne. }
  split; [| | | |done|done].
  - intros u' t v. rewrite Ev. apply G1.
  - intros u' t v. rewrite Ev. apply G2.
  - cbn. rewrite dom_insert_L. set_solver.
  - intros u'. rewrite <- G4. unfold backingOf, s2. cbn. destruct (decide (u' = u)) as [->|].
    + rewrite lookup_insert_eq. by destruct (unifiedTokenVaults s' !! u).
    + by rewrite lookup_insert_ne.
Qed.

Lemma grown_vault s s' u t v : grown s s' → vaultOf s u t = None →
  wf_vault v → incTokenID v = t → promised v = 0 → backing v = 0 →
  grown s (with_vaults (<[u := <[t := v]> (default ∅ (unifiedTokenVaults s' !! u))]>
                          (unifiedTokenVaults s')) s').
Proof.
  intros [G1 G2 G3 G4 G5 G6] Hn Hw Ht Hp Hb. set (s2 := with_vaults _ s').
  assert (∀ u' t', vaultOf s2 u' t' = if decide (u' = u ∧ t' = t) then Some v else vaultOf s' u' t') as Ev.
  { intros u' t'. unfold vaultOf, s2. cbn. destruct (decide (u' = u)) as [->|].
    - rewrite lookup_insert_eq. destruct (decide (t' = t)) as [->|].
      + rewrite lookup_insert_eq, decide_True by done. done.
      + rewrite lookup_insert_ne, decide_False by naive_solver.
        by destruct (unifiedTokenVaults s' !! u).
    - rewrite lookup_insert_ne, decide_False by naive_solver. done. }
  split; [| | | |done|done].
  - intros u' t' v' Hv. rewrite Ev. destruct (decide _) as [[-> ->]|]; [congruence|auto].
  - intros u' t' v'. rewrite Ev. destruct (decide _) as [[-> ->]|]; [|auto].
    intros [= <-]. right. auto.
  - cbn. rewrite dom_insert_L. set_solver.
  - intros u'. rewrite <- G4. unfold backingOf, s2. cbn. destruct (decide (u' = u)) as [->|].
    2: by rewrite lookup_insert_ne.
    rewrite lookup_insert_eq. unfold totalBacking. rewrite map_sum_insert, Hb.
    assert (vaultOf s' u t = default ∅ (unifiedTokenVaults s' !! u) !! t) as El.
    { unfold vaultOf. by destruct (unifiedTokenVaults s' !! u). }
    rewrite <- El. destruct (vaultOf s' u t) as [w|] eqn:Ew; cbn.
    + apply G2 in Ew as [|(_ & _ & _ & _ & ->)]; [congruence|].
      destruct (unifiedTokenVaults s' !! u); cbn; [lia|]. rewrite map_sum_empty. lia.
    + destruct (unifiedTokenVaults s' !! u); cbn; [lia|]. rewrite map_sum_empty. lia.
Qed.

(** The queue is owed the same: it never names a vault that was not there. *)
Lemma grown_wf s s' : grown s s' → wf_state s → wf_state s'.
Proof.
  intros [G1 G2 G3 G4 G5 G6] [W1 W2 W3 W4].
  assert (∀ u t, vaultOf s u t = None → owed (reqsOf (waitingUnshieldReqs s) u) t = 0) as Howed.
  { intros u t Hn. apply list_sum_zero. intros r Hr. apply list_sum_zero. intros d Hd.
    case_decide as Et; [|done]. destruct (W2 u r Hr) as [_ Hv]. destruct (Hv d Hd) as [v Hv'].
    congruence. }
  split; rewrite ?G5, ?G6; [| |done..].
  - intros u vs Hu. split.
    + intros t v Hv. assert (vaultOf s' u t = Some v) as E by (unfold vaultOf; by rewrite Hu).
      apply G2 in E as [E|(_ & ? & ? & _)]; [|done]. unfold vaultOf in E.
      destruct (unifiedTokenVaults s !! u) as [vs0|] eqn:Eu; [|done].
      destruct (W1 u vs0 Eu) as [Hw _]. apply (Hw t v E).
    + intros t v Hv. assert (vaultOf s' u t = Some v) as E by (unfold vaultOf; by rewrite Hu).
      apply G2 in E as [E|(E & _ & _ & -> & _)]; [|by rewrite Howed].
      unfold vaultOf in E. destruct (unifiedTokenVaults s !! u) as [vs0|] eqn:Eu; [|done].
      destruct (W1 u vs0 Eu) as [_ Hp]. apply (Hp t v E).
  - intros u r Hr. destruct (W2 u r Hr) as [? Hv]. split; [done|]. intros d Hd.
    destruct (Hv d Hd) as [v E]. eauto.
Qed.

Definition saneVault (tv : Hash * ConfigVault) : Prop := 0 ≤ cv_ExternalDecimal tv.2 < 256.

Section blocks.
Context `{!BridgeAggParam, !ConfirmHash, !EVM, !EVMAddress, !TokenRegistry}.

(** The processor follows the producer through the vaults of a token. *)
Lemma addVaults_follows db0 s u l acc exts acc' exts' sp db : Forall saneVault l →
  foldOk (addVault db0 s u) (acc, exts) l = Ok (acc', exts') →
  unifiedTokenVaults sp = at_vaults acc → grown s sp → u ∈ dom (at_vaults acc) →
  ∃ db', addVaults_process u l sp db = Ok (with_vaults (at_vaults acc') sp, db') ∧
    grown s (with_vaults (at_vaults acc') sp) ∧ dom (at_vaults acc') = dom (at_vaults acc) ∧
    dom (tokenInfos db) ⊆ dom (tokenInfos db') ∧ txHashIssued db' = txHashIssued db.
Proof.
  intros Hl. revert acc exts sp db. induction Hl as [|[t cv] l Hv Hl IH]; intros acc exts sp db.
  { intros [= <- <-] <- Hg Hu. exists db. replace (with_vaults (unifiedTokenVaults sp) sp) with sp by by destruct sp.
    done. }
  cbn [foldOk]. intros ([acc1 exts1] & Hone & Hrest)%outcome_bind_Ok Ev Hg Hu.
  destruct acc as [vs ac us incs]. cbn [at_vaults] in *. unfold addVault in Hone.
  destruct (bool_decide (t = emptyHash)); [done|]. destruct (bool_decide (t ∈ us)); [done|].
  apply outcome_bind_Ok in Hone as (x & _ & Hone).
  destruct (bool_decide_reflect (is_Some (vaultOf s u t))) as [|Hnone]; [done|].
  apply eq_None_not_Some in Hnone.
  apply outcome_bind_Ok in Hone as (ext & Hext & Hone). destruct (bool_decide (ext ∈ exts)); [done|].
  injection Hone as <- <-. cbn [addVaults_process]. rewrite Hext. cbn [mbind outcome_bind].
  destruct (NewVault_empty (cv_ExternalDecimal cv) (cv_NetworkID cv) t Hv) as (Hw & Hp & Hb).
  pose proof (grown_vault s sp u t _ Hg Hnone Hw eq_refl Hp Hb) as Hg'. rewrite Ev in *.
  match type of Hg' with grown _ ?sp1 =>
    destruct (IH _ _ sp1 (UpdateBridgeTokenInfo t ext false 0 BridgePlusOperator db) Hrest)
      as (db' & Hr & Hg2 & Hd & Ht & Hi); [reflexivity|exact Hg'|cbn; rewrite dom_insert_L; set_solver|] end.
  exists db'. split; [exact Hr|]. split; [exact Hg2|]. split.
  { cbn in Hd. rewrite Hd, dom_insert_L. set_solver. }
  split; [|done]. cbn in Ht. rewrite dom_insert_L in Ht. set_solver.
Qed.

Lemma addToken_follows db0 s uts acc acc' sp db : Forall (λ ut, Forall saneVault ut.2) uts →
  foldOk (addUnifiedToken db0 s) acc uts = Ok acc' →
  unifiedTokenVaults sp = at_vaults acc → grown s sp →
  ∃ db', addToken_process uts sp db = Ok (with_vaults (at_vaults acc') sp, db') ∧
    grown s (with_vaults (at_vaults acc') sp) ∧
    dom (tokenInfos db) ⊆ dom (tokenInfos db') ∧ txHashIssued db' = txHashIssued db ∧
    (∀ u, u ∈ dom (at_vaults acc') → u ∈ dom (at_vaults acc) ∨
       (u ≠ emptyHash ∧ (false, u) ∈ dom (tokenInfos db'))).
Proof.
  intros Hl. revert acc sp db. induction Hl as [|[u vaults] uts Hv Hl IH]; intros acc sp db.
  { intros [= <-] <- Hg. exists db. replace (with_vaults (unifiedTokenVaults sp) sp) with sp by by destruct sp.
    split_and!; auto. }
  cbn [foldOk]. intros (acc1 & Hone & Hrest)%outcome_bind_Ok Ev Hg.
  destruct acc as [vs ac us incs]. cbn [at_vaults] in *. unfold addUnifiedToken in Hone.
  destruct (_ || _); [done|]. destruct (bool_decide_reflect (u = emptyHash)) as [|Hne]; [done|].
  destruct (bool_decide (u ∈ us)); [done|]. destruct (bool_decide (u ∈ incs)); [done|].
  cbv zeta in Hone. destruct (_ && _); [done|].
  apply outcome_bind_Ok in Hone as ([acc2 exts2] & Hone & [= <-]).
  pose proof (grown_unified s sp u Hg) as Hg1. rewrite Ev in Hg1.
  assert ((if bool_decide (is_Some (vs !! u)) then vs else <[u:=∅]> vs) = <[u := default ∅ (vs !! u)]> vs) as Evs.
  { destruct (vs !! u) eqn:Eu; cbn; [|done]. by rewrite insert_id. }
  rewrite Evs in Hone. cbn [addToken_process]. rewrite Ev.
  destruct (addVaults_follows db0 s u vaults _ _ _ _
    (with_vaults (<[u := default ∅ (vs !! u)]> vs) sp)
    (UpdateBridgeTokenInfo u UnifiedTokenPrefix false 0 BridgePlusOperator db) Hv Hone)
    as (db1 & Hr1 & Hg2 & Hd1 & Ht1 & Hi1); [done|exact Hg1|cbn; rewrite dom_insert_L; set_solver|].
  rewrite Hr1. cbn [mbind outcome_bind].
  destruct (IH _ (with_vaults (at_vaults acc2) sp) db1 Hrest eq_refl Hg2) as (db2 & Hr2 & Hg3 & Ht2 & Hi2 & Hu2).
  exists db2. split; [exact Hr2|]. split; [exact Hg3|]. cbn in Ht1, Hi1. rewrite dom_insert_L in Ht1.
  split; [set_solver|]. split; [congruence|]. intros u' Hu'.
  destruct (Hu2 u' Hu') as [Hin|]; [|by right]. rewrite Hd1 in Hin. cbn in Hin.
  rewrite dom_insert_L in Hin. apply elem_of_union in Hin as [->%elem_of_singleton|]; [|by left].
  right. set_solver.
Qed.

(** Adding a token reads the vaults of the state only. *)
Lemma addUnifiedToken_ext db0 s1 s2 : unifiedTokenVaults s1 = unifiedTokenVaults s2 →
  addUnifiedToken db0 s1 = addUnifiedToken db0 s2.
Proof. destruct s1, s2. cbn. by intros ->. Qed.

(** The processor works on a clone of its state. *)
Lemma sound_addToken db0 uts s ac insts s' ac' p :
  (∀ l, uts = Some l → Forall (λ ut, Forall saneVault ut.2) l) →
  addToken db0 uts s ac = Ok (insts, s', ac') →
  sound_at s s' insts p [] ∧ waitingUnshieldReqs s' = waitingUnshieldReqs s.
Proof.
  intros Hsane. unfold addToken. destruct uts as [l|]; [|intros [= <- <- <-]; by split; [apply sound_nil|]].
  specialize (Hsane l eq_refl). intros (cac & _ & Hr)%outcome_bind_Ok.
  destruct (foldOk _ _ _) as [acc| | |] eqn:Hf; [|injection Hr as <- <- <-; by split; [apply sound_nil|]|done..].
  destruct (bool_decide (at_inc acc = ∅)); injection Hr as <- <- <-; [by split; [apply sound_nil|]|].
  split; [|done]. apply sound_one. intros [Ev Ep Eq] [Hw Hreg He].
  rewrite (addUnifiedToken_ext db0 s (Clone (ps_state p)) Ev), Ev in Hf.
  set (sR := with_vaults (at_vaults acc) (Clone (ps_state p))).
  destruct (addToken_follows db0 _ l _ acc (Clone (ps_state p)) (ps_db p) Hsane Hf eq_refl (grown_refl _))
    as (db' & Hr & Hg & Ht & Hi & Hd). cbn [at_vaults] in Hd. fold sR in Hr, Hg.
  assert (grown (ps_state p) sR) as HgR by (destruct Hg; by split).
  exists (mkProcState sR db' (ps_status p) (ps_infos p) (ps_unshieldTxIDs p)).
  split; [cbn; rewrite getS_bind; unfold mbind, M_bind, lift; by rewrite Hr|].
  pose proof (grown_wf _ _ HgR Hw) as HwR.
  split; cbn [ps_state ps_db].
  - by split.
  - split; [done| |].
    + intros u [vs Hu]. cbn in *. assert (u ∈ dom (at_vaults acc)) as Hin by (apply elem_of_dom; eauto).
      unfold IsBridgeTokenExistedByType. apply bool_decide_eq_true, elem_of_dom.
      destruct (Hd u Hin) as [Hold|[_ ?]]; [|done]. apply Ht, elem_of_dom.
      apply elem_of_dom in Hold. specialize (Hreg u Hold).
      by apply bool_decide_eq_true in Hreg.
    + cbn. apply not_elem_of_dom. intros [Hold|[? _]]%Hd; [|done].
      by apply not_elem_of_dom in He.
  - intros u. rewrite netMint_one. cbn. rewrite (gr_backing _ _ HgR u). lia.
  - intros u x. cbn. by left.
  - by rewrite Hi.
  - done.
Qed.

(** ** The handlers of a block in sequence

    On the pair of the state and the accumulated values: processing follows, and the queue the
    producer iterates over is not touched. *)
Definition follows (f : M (State * AccumulatedValues) (list BeaconInst)) : Prop :=
  ∀ st insts st' p, unmixed insts → f st = (Ok insts, st') →
    sound_at (fst st) (fst st') insts p [] ∧ waitingUnshieldReqs (fst st') = waitingUnshieldReqs (fst st).

Lemma follows_ret : follows (mret []).
Proof. intros st insts st' p _ [= <- <-]. split; [apply sound_nil|done]. Qed.

Lemma follow_app f g : follows f → follows g →
  follows (a ← f; b ← g; mret (a ++ b)).
Proof.
  intros Hf Hg st insts st' p Hun (a & st1 & Ha & Hr)%M_bind_Ok.
  apply M_bind_Ok in Hr as (b & st2 & Hb & [= <- <-]). apply unmixed_app in Hun as [Hua Hub].
  destruct (Hf st a st1 p Hua Ha) as [S1 Q1]. split.
  - apply (sound_app (fst st) (fst st1) (fst st2) a b p [] [] S1). intros p1 _. by apply (Hg st1 b st2).
  - destruct (Hg st1 b st2 p Hub Hb) as [_ Q2]. congruence.
Qed.

Lemma follows_runActions {A} (f : A → M (State * AccumulatedValues) (list BeaconInst)) acts :
  (∀ a, a ∈ acts → follows (f a)) → follows (runActions f acts).
Proof.
  induction acts as [|a acts IH]; intros Hf; [apply follows_ret|].
  cbn [runActions]. apply follow_app; [apply Hf; by left|]. apply IH. intros b Hb. apply Hf. by right.
Qed.

Lemma onFst_Ok {A} (m : M State A) (st st' : State * AccumulatedValues) a :
  onFst m st = (Ok a, st') → m (fst st) = (Ok a, fst st').
Proof.
  unfold onFst, zoom. destruct (m (fst st)) as [r s]. by intros [= -> <-].
Qed.

Lemma follows_onFst (m : M State (list BeaconInst)) :
  (∀ s insts s' p, m s = (Ok insts, s') → sound_at s s' insts p [] ∧
     waitingUnshieldReqs s' = waitingUnshieldReqs s) → follows (onFst m).
Proof. intros Hm st insts st' p _ Hr%onFst_Ok. by apply Hm. Qed.

Lemma follows_shield db sid action : follows (shield db action sid).
Proof.
  intros [s ac] insts [s' ac'] p Hun Hr. split; [by eapply sound_shield|].
  apply shield_cases in Hr as [(_ & -> & _)|(? & ? & ? & ? & ? & ? & ? & _ & _ & _ & _ & -> & _)]; done.
Qed.

Lemma follows_addTokens db config cps :
  (∀ c l, config c = Some l → Forall (λ ut, Forall saneVault ut.2) l) →
  follows (addTokens db config cps).
Proof.
  intros Hsane. induction cps as [|c cps IH]; [apply follows_ret|].
  intros [s ac] insts st' p Hun. cbn [addTokens]. rewrite getS_bind.
  intros ([[i1 s1] ac1] & st & Ha & Hr)%M_bind_Ok. injection Ha as Ha <-.
  apply M_bind_Ok in Hr as ([] & st & [= <-] & Hr).
  apply M_bind_Ok in Hr as (i2 & st2 & Hr2 & [= <- <-]). apply unmixed_app in Hun as [_ Hun].
  destruct (sound_addToken db (config c) s ac i1 s1 ac1 p (Hsane c) Ha) as [S1 Q1].
  split.
  - apply (sound_app s s1 (fst st2) i1 i2 p [] [] S1). intros p1 _. by apply (IH (s1, ac1) i2 st2).
  - destruct (IH (s1, ac1) i2 st2 p Hun Hr2) as [_ Q2]. by rewrite Q2.
Qed.

Lemma Init_queue s : waitingUnshieldReqs (InitBridgeAggParamDefault s) = waitingUnshieldReqs s.
Proof. unfold InitBridgeAggParamDefault. by destruct (param s). Qed.

(** The default parameter may as well be there before the tokens are added. *)
Lemma addToken_Init db0 uts s ac insts s' ac' : addToken db0 uts s ac = Ok (insts, s', ac') →
  addToken db0 uts (InitBridgeAggParamDefault s) ac = Ok (insts, InitBridgeAggParamDefault s', ac').
Proof.
  unfold addToken. destruct uts as [l|]; [|by intros [= <- <- <-]].
  assert (unifiedTokenVaults (InitBridgeAggParamDefault s) = unifiedTokenVaults s) as E
    by (unfold InitBridgeAggParamDefault; by destruct (param s)).
  rewrite (addUnifiedToken_ext db0 _ s E), E.
  destruct (AC_Clone ac) as [cac| | |]; [cbn|done..].
  destruct (foldOk _ _ _) as [acc| | |]; [|by intros [= <- <- <-]|done..].
  destruct (bool_decide _); intros [= <- <- <-]; [done|].
  unfold InitBridgeAggParamDefault. cbn. by destruct (param s).
Qed.

Lemma addTokens_Init db config cps s ac insts s' ac' :
  addTokens db config cps (s, ac) = (Ok insts, (s', ac')) →
  addTokens db config cps (InitBridgeAggParamDefault s, ac) = (Ok insts, (InitBridgeAggParamDefault s', ac')).
Proof.
  revert s ac insts. induction cps as [|c cps IH]; intros s ac insts; [by intros [= <- <- <-]|].
  cbn [addTokens]. rewrite !getS_bind.
  intros ([[i1 s1] ac1] & st & Ha & Hr)%M_bind_Ok. injection Ha as Ha <-.
  apply M_bind_Ok in Hr as ([] & st & [= <-] & Hr).
  apply M_bind_Ok in Hr as (i2 & st2 & Hr2 & [= <- ->]).
  rewrite M_bind_Ok. exists (i1, InitBridgeAggParamDefault s1, ac1). eexists.
  split; [unfold lift; by rewrite (addToken_Init _ _ _ _ _ _ _ Ha)|].
  rewrite M_bind_Ok. eexists (), _. split; [done|]. rewrite M_bind_Ok. eauto.
Qed.

Context `{!GoodBridgeAggParam}.

Lemma convert_queue action sid s insts s' :
  convert action sid s = (Ok insts, s') → waitingUnshieldReqs s' = waitingUnshieldReqs s.
Proof.
  unfold convert. destruct action as [a|]; [|by intros [= _ <-]]. rewrite getS_bind.
  intros [(vs & _ & Hk)|[_ ->]]%orReject_cases; [|done].
  destruct (vs !! _) as [v|]; [|by injection Hk as _ <-].
  do 3 (apply orReject_cases in Hk as [(? & _ & Hk)|[_ ->]]; [|done]).
  by injection Hk as _ <-.
Qed.

(** What the requests of a block satisfy: amounts are [uint64], and the sanity checks of the
    metadata let unshield requests through. *)
Record saneActions (acts : BlockActions) : Prop := {
  sn_convert : ∀ sid a, (sid, Some a) ∈ ConvertActions acts → in_u64 (cr_Amount (act_Meta a));
  sn_modify : ∀ sid a, (sid, Some a) ∈ ModifyParamActions acts → in_u64 (act_Meta a) }.

Lemma sound_BuildInstructions db order bh acts st insts st' p :
  saneActions acts → mapOrder (waitingUnshieldReqs (fst st)) order →
  unmixed insts → BuildInstructions db order bh acts st = (Ok insts, st') →
  sound_at (InitBridgeAggParamDefault (fst st)) (fst st') insts p [].
Proof.
  intros [Hconv Hmod] Hord Hun. unfold BuildInstructions.
  intros ([] & st0 & Hst0 & Hr)%M_bind_Ok.
  assert (fst st0 = InitBridgeAggParamDefault (fst st)) as E0 by by injection Hst0 as <-.
  rewrite <- Init_queue in Hord. rewrite <- E0 in *. clear E0 Hst0. revert Hr.
  intros (i1 & st1 & R1 & Hr)%M_bind_Ok. apply M_bind_Ok in Hr as (i2 & st2 & R2 & Hr).
  apply M_bind_Ok in Hr as (i3 & st3 & R3%onFst_Ok & Hr). apply M_bind_Ok in Hr as (i4 & st4 & R4 & [= <- <-]).
  apply unmixed_app in Hun as [U1 Hun]. apply unmixed_app in Hun as [U2 Hun]. apply unmixed_app in Hun as [_ U4].
  assert (follows (runActions (λ a, onFst (convert a.2 a.1)) (ConvertActions acts))) as F1.
  { apply follows_runActions. intros [sid [a|]] Hin; apply follows_onFst; intros s i s' p' Hc; cbn [fst snd] in Hc;
      (split; [|by eapply convert_queue]); (eapply sound_convert; [|exact Hc]).
    - intros ? [= <-]. by eapply Hconv.
    - done. }
  assert (follows (runActions (λ a, shield db a.2 a.1) (ShieldActions acts))) as F2.
  { apply follows_runActions. intros [sid a] _. apply follows_shield. }
  assert (follows (runActions (λ a, onFst (modifyParam a.2 a.1)) (ModifyParamActions acts))) as F4.
  { apply follows_runActions. intros [sid [a|]] Hin; apply follows_onFst; intros s i s' p' Hc; cbn [fst snd] in Hc.
    - split; [eapply sound_modifyParam; [|exact Hc]|by injection Hc as _ <-].
      intros ? [= <-]. by eapply Hmod.
    - injection Hc as <- <-. split; [apply sound_nil|done]. }
  destruct (F1 _ _ _ p U1 R1) as [_ Q1]. destruct (F2 _ _ _ p U2 R2) as [_ Q2].
  apply (sound_app _ (fst st1) _ i1 _ p [] []); [by apply F1|]. intros p1 _.
  apply (sound_app _ (fst st2) _ i2 _ p1 [] []); [by apply F2|]. intros p2 _.
  apply (sound_app _ (fst st3) _ i3 _ p2 [] []); [|intros p3 _; by apply F4].
  eapply sound_handleWaiting; [|exact R3]. by rewrite Q2, Q1.
Qed.
End blocks.
