(* ===== verification/BridgeExample.v ===== *)
(** A small bridge to try the definitions on: one unified token with a vault on Ethereum, the
    libraries as concrete functions, and the requests of a few blocks.  The witnesses of the
    bridge's theorems and the examples of its odd corners run it. *)
From S2P Require Import Prelude Hash InstructionText BridgeVault BridgeDB BridgeState BridgeInvariant BridgeProducer BridgeCall BridgeShield BridgeProcessor BridgeSound BridgeShieldSound BridgeBlock.
From Stdlib Require Import Ascii String.

Local Open Scope Z_scope.

#[local] Existing Instance mainnetBridgeAggParam.

(** Identifiers of 32 bytes and addresses of 20. *)
Definition hashOf (c : ascii) : Hash := string_of_list_ascii (replicate 32 c).
Definition addressOf20 (c : ascii) : string := string_of_list_ascii (replicate 20 c).

Definition exUnified : Hash := hashOf "U".
Definition exToken : Hash := hashOf "t".
Definition exToken2 : Hash := hashOf "w".
Definition exExternal : string := addressOf20 "e".
Definition exExternal2 : string := addressOf20 "f".

(** A configured address is ["0x"] and forty copies of a digit; the digit [e] or [f] is the
    address.  A receipt is named by its amount and its kind: a deposit of the first or the second
    external token, a redeposit, or both. *)
#[local] Instance exAddress : EVMAddress := {|
  HexToAddress s := match String.get 2 s with Some c => addressOf20 c | None => ""%string end;
  IsHexAddress _ := true |}.

#[local] Instance exConfirm : ConfirmHash := λ id i, id +:+ FormatInt (Z.of_nat i).

#[local] Instance exRegistry : TokenRegistry := λ _, false.

Record exReceipt := mkReceipt {
  er_deposit : option DepositLog;
  er_redeposits : list RedepositLog }.

Definition exDeposit (ext : string) (amt : Z) : DepositLog := mkDepositLog ext "alice" amt.
Definition exRedeposit (ext : string) (amt : Z) (itx : string) : RedepositLog :=
  mkRedepositLog ext "bob" amt itx 0.

(** One unit of the unified token (nine decimals) is [10 ^ 9] of an external token with eighteen,
    capped to nine decimals for tokens other than the native one. *)
Definition exReceiptOf (s : string) : option exReceipt :=
  if bool_decide (s = "d10"%string) then Some (mkReceipt (Some (exDeposit exExternal 10)) [])
  else if bool_decide (s = "d1000"%string) then Some (mkReceipt (Some (exDeposit exExternal 1000)) [])
  else if bool_decide (s = "e1000"%string) then Some (mkReceipt (Some (exDeposit exExternal2 1000)) [])
  else if bool_decide (s = "r1000"%string) then
    Some (mkReceipt None [exRedeposit exExternal 600 "itx1"; exRedeposit exExternal 400 "itx2"])
  else if bool_decide (s = "mixed"%string) then
    Some (mkReceipt (Some (exDeposit exExternal 1000000)) [exRedeposit exExternal 400000 "itx3"])
  else None.

#[local] Instance exEVM : EVM := {|
  Receipt := exReceipt;
  contractAddress _ := "contract"%string;
  parseProof s := if bool_decide (s = ""%string) then None else Some (s, 0);
  parseReceipt := exReceiptOf;
  depositLog r _ := er_deposit r;
  redepositLogs r _ := Some (er_redeposits r);
  validPaymentAddress _ := true;
  shardOfAddress _ := 0 |}.

Definition exConfigAddress (c : ascii) : string := "0x" +:+ string_of_list_ascii (replicate 40 c).

(** The checkpoint [1] lists the token on Ethereum, the checkpoint [2] one on Avalanche. *)
Definition exConfig (c : Z) : option UnifiedTokens :=
  if c =? 1 then Some [(exUnified, [(exToken, mkConfigVault 9 (exConfigAddress "e") ETHNetworkID)])]
  else if c =? 2 then Some [(exUnified, [(exToken2, mkConfigVault 9 (exConfigAddress "f") AVAXNetworkID)])]
  else None.

Definition noActions : BlockActions := mkBlockActions [] [] [].
Definition exShield (tx proof receipt : string) (net : Z) (tok : Hash) : Z * option (Action ShieldRequest) :=
  (0, Some (mkAction (mkShieldRequest [mkShieldData proof net tok] exUnified) tx [receipt])).
Definition exUnshield (tx : string) (tok : Hash) (amt : Z) (bh : Z) : UnshieldActionForProducer :=
  UnshieldAct (mkUnshieldAction (mkUnshieldRequest exUnified [mkUnshieldData tok amt 0 "00"] "alice" false)
                 tx 0 bh).

Definition emptyDB : BridgeDB := mkBridgeDB ∅ ∅.
Definition exTrigger (c h : Z) : gmap string Z :=
  {[ unifiedTokenTriggerPrefix +:+ FormatUint c := h ]}.

(** A chain of blocks run by the producer and a node. *)
Definition exBlock (s : State) (db : BridgeDB) (order : list Hash) (bh : Z) (trig : gmap string Z)
    (acts : BlockActions) (us : list UnshieldActionForProducer)
    : outcome (list BeaconInst * (State * BridgeDB)) :=
  match BuildBlock db order bh trig exConfig acts us (s, emptyAC) with
  | (Ok insts, _) => '(s2, db2, _) ← Process insts s db; Ok (insts, (s2, db2))
  | (Err e, _) => Err e
  | (Panic, _) => Panic
  | (OutOfFuel, _) => OutOfFuel
  end.

(** ** The hypotheses of the theorems, checked *)
Lemma exConfig_sane c l : exConfig c = Some l → Forall (λ ut, Forall saneVault ut.2) l.
Proof.
  unfold exConfig. destruct (c =? 1); [intros [= <-]|destruct (c =? 2); [intros [= <-]|done]];
    repeat constructor; cbn; lia.
Qed.

Definition centralCheck (db : BridgeDB) : bool :=
  forallb (λ ki, negb ki.1.1 || bool_decide (ti_externalTokenID ki.2 = ""%string)) (map_to_list (tokenInfos db)).

Lemma centralCheck_spec db : centralCheck db = true → centralNoAddress db.
Proof.
  unfold centralCheck. rewrite forallb_forall. intros Hall t i Hi.
  specialize (Hall ((true, t), i)). apply elem_of_map_to_list, list_elem_of_In in Hi.
  apply Hall in Hi. cbn in Hi. by apply bool_decide_eq_true in Hi.
Qed.

Definition freshCheck (s : State) (us : list UnshieldActionForProducer) : bool :=
  forallb (λ a, forallb (λ kq, negb (bool_decide (actionID a ∈ unshieldID <$> kq.2)))
                  (map_to_list (waitingUnshieldReqs s))) us.

Lemma freshCheck_spec s us : freshCheck s us = true → ∀ a u, a ∈ us →
  actionID a ∉ unshieldID <$> reqsOf (waitingUnshieldReqs s) u.
Proof.
  unfold freshCheck. rewrite forallb_forall. intros Hall a u Ha.
  apply list_elem_of_In, Hall in Ha. rewrite forallb_forall in Ha. unfold reqsOf.
  destruct (waitingUnshieldReqs s !! u) as [q|] eqn:Eq; [|by apply not_elem_of_nil].
  apply elem_of_map_to_list, list_elem_of_In, Ha in Eq. by apply negb_true_iff, bool_decide_eq_false in Eq.
Qed.

Lemma exBlock_Ok s db order bh trig acts us insts s2 db2 :
  exBlock s db order bh trig acts us = Ok (insts, (s2, db2)) →
  ∃ st' ids, BuildBlock db order bh trig exConfig acts us (s, emptyAC) = (Ok insts, st') ∧
    Process insts s db = Ok (s2, db2, ids).
Proof.
  unfold exBlock. destruct (BuildBlock _ _ _ _ _ _ _ _) as [[i| | |] st'] eqn:Eb; [|done..].
  intros ([[s3 db3] ids] & Hp & [= <- <- <-])%outcome_bind_Ok. exists st', ids. done.
Qed.

(** ** Three blocks: a token is added; a deposit comes in, a request is paid and another one,
    larger than what is left, waits; a second deposit lets the waiting request be paid. *)
Definition exActs2 : BlockActions :=
  mkBlockActions [] [exShield "tx1" "p1" "d1000" ETHNetworkID exToken] [].
Definition exUnshields2 : list UnshieldActionForProducer :=
  [exUnshield "tx3" exToken 900 11; exUnshield "tx2" exToken 300 11].
Definition exActs3 : BlockActions :=
  mkBlockActions [] [exShield "tx4" "p2" "d1000" ETHNetworkID exToken] [].

Definition resultOf (r : outcome (list BeaconInst * (State * BridgeDB))) : list BeaconInst * (State * BridgeDB) :=
  match r with Ok x => x | _ => ([], (NewState, emptyDB)) end.

Definition exRun1 := exBlock NewState emptyDB [] 11 (exTrigger 1 10) noActions [].
Definition exSt1 : State := (resultOf exRun1).2.1.
Definition exDB1 : BridgeDB := (resultOf exRun1).2.2.
Definition exRun2 := exBlock exSt1 exDB1 [] 12 ∅ exActs2 exUnshields2.
Definition exSt2 : State := (resultOf exRun2).2.1.
Definition exDB2 : BridgeDB := (resultOf exRun2).2.2.
Definition exRun3 := exBlock exSt2 exDB2 [exUnified] 13 ∅ exActs3 [].
Definition exSt3 : State := (resultOf exRun3).2.1.
Definition exDB3 : BridgeDB := (resultOf exRun3).2.2.

Definition succeeds {A} (r : outcome A) : bool := match r with Ok _ => true | _ => false end.

Lemma resultOf_Ok r : succeeds r = true →
  r = Ok ((resultOf r).1, ((resultOf r).2.1, (resultOf r).2.2)).
Proof. by destruct r as [[? [? ?]]| | |]. Qed.

Lemma exRun1_Ok : exBlock NewState emptyDB [] 11 (exTrigger 1 10) noActions [] = Ok ((resultOf exRun1).1, (exSt1, exDB1)).
Proof. apply (resultOf_Ok exRun1). vm_compute. reflexivity. Qed.
Lemma exRun2_Ok : exBlock exSt1 exDB1 [] 12 ∅ exActs2 exUnshields2 = Ok ((resultOf exRun2).1, (exSt2, exDB2)).
Proof. apply (resultOf_Ok exRun2). vm_compute. reflexivity. Qed.
Lemma exRun3_Ok : exBlock exSt2 exDB2 [exUnified] 13 ∅ exActs3 [] = Ok ((resultOf exRun3).1, (exSt3, exDB3)).
Proof. apply (resultOf_Ok exRun3). vm_compute. reflexivity. Qed.

(** The waiting request left its fee to the second deposit. *)
Example exRuns : (λ s, (λ v, (amount v, lockedAmount v, waitingUnshieldAmount v, waitingUnshieldFee v))
    <$> vaultOf s exUnified exToken) <$> [exSt1; exSt2; exSt3]
  = [Some (0, 0, 0, 0); Some (700, 700, 199, 1); Some (801, 0, 0, 0)].
Proof. vm_compute. reflexivity. Qed.
