(* ===== verification/BridgeSolvency.v ===== *)
(** The solvency of the bridge aggregator: every node can process the block a producer built, the
    vaults hold what the queue is owed, the rewards set aside and the unified tokens in
    circulation, and this along every chain of blocks. *)
From S2P Require Import Prelude Hash InstructionText BridgeVault BridgeDB BridgeState BridgeInvariant BridgeProducer BridgeCall BridgeShield BridgeProcessor BridgeSound BridgeShieldSound BridgeBlock BridgeExample.
From Stdlib Require Import String.

Local Open Scope Z_scope.

(** A state and bridge records a block can start from. *)
Record consistent (s : State) (db : BridgeDB) : Prop := {
  cs_state : wf_state s;
  cs_registered : registered s db;
  cs_empty : unifiedTokenVaults s !! emptyHash = None }.

(** What a block is built from: any order of the map iterations, requests that passed the checks
    of their metadata, and transactions that were not handled before. *)
Record saneBlock (s : State) (db : BridgeDB) (order : list Hash) (config : Z → option UnifiedTokens)
    (acts : BlockActions) (unshieldActions : list UnshieldActionForProducer) : Prop := {
  sb_actions : saneActions acts;
  sb_config : ∀ c l, config c = Some l → Forall (λ ut, Forall saneVault ut.2) l;
  sb_order : mapOrder (waitingUnshieldReqs s) order;
  sb_unshields : Forall saneAction unshieldActions;
  sb_ids : NoDup (actionID <$> unshieldActions);
  sb_fresh : ∀ a u, a ∈ unshieldActions → actionID a ∉ unshieldID <$> reqsOf (waitingUnshieldReqs s) u;
  sb_central : centralNoAddress db }.

Section solvency.
Context `{!BridgeAggParam, !GoodBridgeAggParam, !ConfirmHash, !EVM, !EVMAddress, !TokenRegistry}.

Lemma sound_block db order bh triggered config acts unshields s ac insts st' p :
  saneBlock s db order config acts unshields → unmixed insts →
  BuildBlock db order bh triggered config acts unshields (s, ac) = (Ok insts, st') →
  waitingUnshieldReqs (ps_state p) = waitingUnshieldReqs s →
  dom (tokenInfos db) ⊆ dom (tokenInfos (ps_db p)) →
  sound_at (InitBridgeAggParamDefault s) (fst st') insts p (actionID <$> sortActions unshields).
Proof.
  intros [Sa Sc So Su Si Sf Sd] Hun Hb Hq Hdb. unfold BuildBlock in Hb.
  apply M_bind_Ok in Hb as (i1 & [s1 ac1] & R1 & Hr). apply M_bind_Ok in Hr as (i2 & st2 & R2 & Hr).
  apply M_bind_Ok in Hr as (i3 & st3 & R3%onFst_Ok & [= <- <-]).
  apply unmixed_app in Hun as [U1 Hun]. apply unmixed_app in Hun as [U2 _].
  apply M_bind_Ok in R1 as (cps & st & E & R1). injection E as _ <-.
  pose proof (addTokens_Init _ _ _ _ _ _ _ _ R1) as R1'.
  destruct (follows_addTokens db config cps Sc _ i1 _ p U1 R1) as [_ Q1]. cbn in Q1.
  destruct (follows_addTokens db config cps Sc _ i1 _ p U1 R1') as [S1 _]. cbn [fst] in S1.
  pose proof (sortActions_perm unshields) as Hperm.
  remember (actionID <$> sortActions unshields) as ids eqn:Hids.
  apply (sound_app _ (InitBridgeAggParamDefault s1) _ i1 _ p [] _ S1). intros p1 Ap1.
  refine (sound_app _ (fst st2) (fst st3) i2 i3 p1 [] ids _ _).
  { eapply (sound_BuildInstructions db order bh acts (s1, ac1)); [done| |done|done]. cbn. by rewrite Q1. }
  intros p2 Ap2. subst ids.
  eapply sound_newUnshields; [| | |exact Sd| |exact R3].
  - by rewrite Hperm.
  - by rewrite Hperm.
  - rewrite Hperm. apply Forall_forall. intros a Ha u Hin.
    apply (ap_ids _ _ _ _ _ Ap2) in Hin as [Hin|?%not_elem_of_nil]; [|done].
    apply (ap_ids _ _ _ _ _ Ap1) in Hin as [Hin|?%not_elem_of_nil]; [|done].
    rewrite Hq in Hin. by apply (Sf a u).
  - pose proof (ap_tokens _ _ _ _ _ Ap1). pose proof (ap_tokens _ _ _ _ _ Ap2). set_solver.
Qed.

(** *** After the instructions: storing the counters *)
Lemma storeInfo_dom db i : dom (tokenInfos db) ⊆ dom (tokenInfos (storeInfo db i)).
Proof. unfold storeInfo, UpdateBridgeTokenInfo. cbn. rewrite dom_insert_L. set_solver. Qed.

Lemma storeInfos_dom infos db : dom (tokenInfos db) ⊆ dom (tokenInfos (storeInfos infos db)).
Proof.
  unfold storeInfos. generalize (map_to_list infos).*2 as l. intros l. revert db.
  induction l as [|i l IH]; intros db; [done|]. cbn. etrans; [apply storeInfo_dom|apply IH].
Qed.

Lemma registered_grows s db db' : dom (tokenInfos db) ⊆ dom (tokenInfos db') →
  registered s db → registered s db'.
Proof.
  intros Hd Hr u Hu. specialize (Hr u Hu). unfold IsBridgeTokenExistedByType in *.
  apply bool_decide_eq_true, elem_of_dom in Hr. apply bool_decide_eq_true, elem_of_dom. set_solver.
Qed.

Lemma consistent_grows s db db' : dom (tokenInfos db) ⊆ dom (tokenInfos db') →
  consistent s db → consistent s db'.
Proof. intros Hd [C1 C2 C3]. split; [done|by eapply registered_grows|done]. Qed.

Lemma Init_same s : unifiedTokenVaults (InitBridgeAggParamDefault s) = unifiedTokenVaults s ∧
  waitingUnshieldReqs (InitBridgeAggParamDefault s) = waitingUnshieldReqs s.
Proof. unfold InitBridgeAggParamDefault. by destruct (param s). Qed.

Lemma Init_wf s : in_u64 DefaultPercentFeeWithDecimal → wf_state s → wf_state (InitBridgeAggParamDefault s).
Proof.
  intros Hd Hw. unfold InitBridgeAggParamDefault. destruct (param s); [done|]. destruct Hw as [W1 W2 W3 W4].
  split; cbn; [done..|]. by intros ? [= <-].
Qed.

(** The block on a node. *)
Lemma block_follows db order bh triggered config acts unshields s ac insts st' :
  in_u64 DefaultPercentFeeWithDecimal → consistent s db →
  saneBlock s db order config acts unshields → unmixed insts →
  BuildBlock db order bh triggered config acts unshields (s, ac) = (Ok insts, st') →
  ∃ s2 db2 txIDs, Process insts s db = Ok (s2, db2, txIDs) ∧ sim (fst st') s2 ∧ consistent s2 db2 ∧
    ∀ u, backingOf s2 u = backingOf s u + netMint u insts.
Proof.
  intros Hdef [C1 C2 C3] Hsane Hun Hb. destruct (Init_same s) as [E1 E2].
  set (p := mkProcState (InitBridgeAggParamDefault s) db [] ∅ ∅).
  destruct (sound_block _ _ _ _ _ _ _ _ _ _ _ p Hsane Hun Hb) as (p' & Hp & [A1 A2 A3 A4 A5 A6]).
  - done.
  - done.
  - by split.
  - split; cbn; [by apply Init_wf| |by rewrite E1]. intros u. cbn. rewrite E1. apply C2.
  - exists (ps_state p'), (storeInfos (ps_infos p') (ps_db p')), (ps_unshieldTxIDs p').
    split; [unfold Process, runM; fold p; by rewrite Hp|]. split; [done|]. split.
    + apply (consistent_grows _ (ps_db p')); [apply storeInfos_dom|]. by destruct A2.
    + intros u. rewrite A3. unfold backingOf. cbn. by rewrite E1.
Qed.

(** ** Chains of blocks

    Every block is built and processed from the state the last one left; the rest of the beacon
    chain may register tokens and issue other deposits in between. *)
Inductive bridgeChain : list (list BeaconInst) → State → BridgeDB → Prop :=
  | chain_start db : bridgeChain [] NewState db
  | chain_block blocks s db order bh triggered config acts unshields ac insts st' s2 db2 txIDs db3 :
      bridgeChain blocks s db →
      saneBlock s db order config acts unshields → unmixed insts →
      BuildBlock db order bh triggered config acts unshields (s, ac) = (Ok insts, st') →
      Process insts s db = Ok (s2, db2, txIDs) →
      dom (tokenInfos db2) ⊆ dom (tokenInfos db3) → txHashIssued db2 ⊆ txHashIssued db3 →
      bridgeChain (blocks ++ [insts]) s2 db3.

Lemma start_consistent db : consistent NewState db.
Proof. split; [apply NewState_wf| |done]. intros u [vs Hu]. cbn in Hu. by rewrite lookup_empty in Hu. Qed.

Lemma chain_ledger blocks s db : in_u64 DefaultPercentFeeWithDecimal → bridgeChain blocks s db →
  consistent s db ∧ ∀ u, backingOf s u = netMint u (mjoin blocks).
Proof.
  intros Hdef. induction 1 as [db|blocks s db order bh triggered config acts unshields ac insts st'
    s2 db2 txIDs db3 _ [Hc Hl] Hsane Hun Hb Hp Hdb _].
  { split; [apply start_consistent|]. intros u. unfold backingOf. cbn. by rewrite lookup_empty. }
  destruct (block_follows _ _ _ _ _ _ _ _ _ _ _ Hdef Hc Hsane Hun Hb) as (s2' & db2' & ids & E & _ & Hc2 & Hl2).
  rewrite Hp in E. injection E as <- <- <-. split; [by eapply consistent_grows|].
  intros u. rewrite Hl2, Hl, join_app. change (mjoin [insts]) with (insts ++ []). by rewrite app_nil_r, netMint_app.
Qed.

Lemma totalBacking_parts vs : totalBacking vs =
  map_sum amount vs - map_sum promised vs - map_sum waitingUnshieldFee vs.
Proof.
  unfold totalBacking. induction vs as [|t v vs Hn IH] using map_ind; [by rewrite !map_sum_empty|].
  rewrite !map_sum_insert_new, IH by done. unfold backing. lia.
Qed.

(** C10: every node follows the producer of a bridge block. The block is built from a consistent
    state in whatever order the map iterations come; it is sane ([saneBlock]: the requests
    passed the checks of their metadata, no unshield transaction was handled before or comes
    twice, the decimals in the configuration fit a byte, and centralized tokens have no external
    address), and no shield request of it brings both a deposit and a redeposit ([unmixed]; the
    divergences show what happens to such a request); the configured default fee fits 64 bits.
    Then every node that starts from the state the producer started from processes the
    instructions the producer wrote without an error, ends with the producer's vaults and
    parameter, and keeps the invariants; the backing of every unified token (what its vaults
    hold beyond what they owe and have set aside) changes exactly by what the instructions mint
    and burn. *)
Theorem block_processed db order bh triggered config acts unshields s ac insts s' ac' :
  in_u64 DefaultPercentFeeWithDecimal → consistent s db →
  saneBlock s db order config acts unshields → unmixed insts →
  BuildBlock db order bh triggered config acts unshields (s, ac) = (Ok insts, (s', ac')) →
  ∃ s2 db2 txIDs, Process insts s db = Ok (s2, db2, txIDs) ∧
    unifiedTokenVaults s2 = unifiedTokenVaults s' ∧ param s2 = param s' ∧ consistent s2 db2 ∧
    ∀ u, backingOf s2 u = backingOf s u + netMint u insts.
Proof.
  intros Hdef Hc Hsane Hun Hb.
  destruct (block_follows _ _ _ _ _ _ _ _ _ _ _ Hdef Hc Hsane Hun Hb) as (s2 & db2 & ids & Hp & [E1 E2 _] & Hc2 & Hl).
  exists s2, db2, ids. by rewrite <- E1, <- E2.
Qed.

(** C4: the bridge is solvent. Take any chain of built and processed blocks that starts from the
    empty bridge, each of them sane ([saneBlock]: the requests passed the checks of their
    metadata, no unshield transaction was handled before or comes twice, the decimals in the
    configuration fit a byte, and centralized tokens have no external address) and without a
    shield request that brings both a deposit and a redeposit ([unmixed]), with a default fee
    that fits 64 bits. At its end the vaults of a unified token hold exactly the tokens in
    circulation (minted less burned), what the waiting requests are owed, and the rewards set
    aside; vault by vault the promise is what the queue is owed, and no vault has locked more
    than it holds. *)
Theorem bridge_solvent blocks s db u vs :
  in_u64 DefaultPercentFeeWithDecimal → bridgeChain blocks s db →
  unifiedTokenVaults s !! u = Some vs →
  map_sum amount vs = netMint u (mjoin blocks) + map_sum promised vs + map_sum waitingUnshieldFee vs ∧
  ∀ t v, vs !! t = Some v →
    0 ≤ lockedAmount v ∧ lockedAmount v ≤ amount v ∧ amount v < word64 ∧ 0 ≤ waitingUnshieldFee v ∧
    lockedAmount v + waitingUnshieldAmount v = owed (reqsOf (waitingUnshieldReqs s) u) t.
Proof.
  intros Hdef Hch Hu. destruct (chain_ledger _ _ _ Hdef Hch) as [[[W1 _ _ _] _ _] Hl].
  destruct (W1 u vs Hu) as [Hw Hp]. specialize (Hl u). unfold backingOf in Hl.
  rewrite Hu, totalBacking_parts in Hl. split; [lia|]. intros t v Hv.
  destruct (map_Forall_lookup_1 _ _ _ _ Hw Hv) as [[Ha Hlk _ Hf _ _] _]. unfold in_u64 in *.
  split_and!; [lia..|]. by apply Hp.
Qed.
End solvency.

(** ** The three blocks of the example *)
#[local] Existing Instances mainnetBridgeAggParam exAddress exConfirm exRegistry exEVM.
#[local] Existing Instance mainnet_good.

Lemma default_u64 : in_u64 DefaultPercentFeeWithDecimal.
Proof. by vm_compute. Qed.

Lemma exSane s db order acts us :
  ConvertActions acts = [] → ModifyParamActions acts = [] → Forall saneAction us →
  order = (map_to_list (waitingUnshieldReqs s)).*1 →
  forallb (λ a, bool_decide (a ∈ [exUnified])) order &&
  freshCheck s us && centralCheck db && bool_decide (NoDup (actionID <$> us)) = true →
  saneBlock s db order exConfig acts us.
Proof.
  intros Ec Em Hus Hord Hchk. rewrite !andb_true_iff in Hchk. destruct Hchk as [[[_ Hf] Hc] Hn].
  split; [|exact exConfig_sane|unfold mapOrder; by rewrite Hord|done| |by apply freshCheck_spec|by apply centralCheck_spec].
  - split; intros sid a; rewrite ?Ec, ?Em; by intros ?%not_elem_of_nil.
  - by apply bool_decide_eq_true in Hn.
Qed.

Lemma exUnshield_sane tx tok amt bh : 0 < amt < word64 → saneAction (exUnshield tx tok amt bh).
Proof. intros Ha. split; cbn; [constructor; [cbn; lia|constructor]|unfold list_sum; cbn; lia]. Qed.

Lemma exSane1 : saneBlock NewState emptyDB [] exConfig noActions [].
Proof. apply exSane; [done..|vm_compute; reflexivity]. Qed.
Lemma exSane2 : saneBlock exSt1 exDB1 [] exConfig exActs2 exUnshields2.
Proof.
  apply exSane; [done|done| |vm_compute; reflexivity|vm_compute; reflexivity].
  repeat constructor; apply exUnshield_sane; by vm_compute.
Qed.
Lemma exSane3 : saneBlock exSt2 exDB2 [exUnified] exConfig exActs3 [].
Proof. apply exSane; [done..|vm_compute; reflexivity|vm_compute; reflexivity]. Qed.

Lemma exUnmixed : unmixed (resultOf exRun1).1 ∧ unmixed (resultOf exRun2).1 ∧ unmixed (resultOf exRun3).1.
Proof. split_and!; unfold unmixed; apply (bool_decide_unpack _); vm_compute; exact I. Qed.

Lemma exChain_step blocks s db order bh trig acts us (r : list BeaconInst * (State * BridgeDB)) s2 db2 :
  bridgeChain blocks s db → saneBlock s db order exConfig acts us → unmixed r.1 →
  exBlock s db order bh trig acts us = Ok (r.1, (s2, db2)) → bridgeChain (blocks ++ [r.1]) s2 db2.
Proof. intros Hc Hs Hu (st' & ids & Hb & Hp)%exBlock_Ok. by eapply chain_block. Qed.

Definition exBlocks2 : list (list BeaconInst) := ([] ++ [(resultOf exRun1).1]) ++ [(resultOf exRun2).1].

Lemma exChain2 : bridgeChain exBlocks2 exSt2 exDB2.
Proof.
  pose proof (exChain_step _ _ _ _ _ _ _ _ (resultOf exRun1) _ _ (chain_start emptyDB) exSane1
    (proj1 exUnmixed) exRun1_Ok) as Hc1.
  exact (exChain_step _ _ _ _ _ _ _ _ (resultOf exRun2) _ _ Hc1 exSane2
    (proj1 (proj2 exUnmixed)) exRun2_Ok).
Qed.

Lemma block_processed_witness : ∃ insts s' ac' s2 db2 txIDs,
  BuildBlock exDB2 [exUnified] 13 ∅ exConfig exActs3 [] (exSt2, emptyAC) = (Ok insts, (s', ac')) ∧
  Process insts exSt2 exDB2 = Ok (s2, db2, txIDs) ∧
  unifiedTokenVaults s2 = unifiedTokenVaults s' ∧ consistent s2 db2 ∧
  backingOf s2 exUnified = backingOf exSt2 exUnified + netMint exUnified insts.
Proof.
  destruct (exBlock_Ok _ _ _ _ _ _ _ _ _ _ exRun3_Ok) as ([s' ac'] & ids & Hb & _).
  destruct (block_processed exDB2 [exUnified] 13 ∅ exConfig exActs3 [] exSt2 emptyAC (resultOf exRun3).1
    s' ac' default_u64 (proj1 (chain_ledger _ _ _ default_u64 exChain2)) exSane3 (proj2 (proj2 exUnmixed)) Hb)
    as (s2 & db2 & ids2 & Hp & Ev & _ & Hc & Hl).
  exists (resultOf exRun3).1, s', ac', s2, db2, ids2. auto.
Defined.

Lemma exHeld : map_sum amount <$> (unifiedTokenVaults exSt2 !! exUnified) = Some 700.
Proof. vm_compute. reflexivity. Qed.

Lemma bridge_solvent_witness : ∃ vs, unifiedTokenVaults exSt2 !! exUnified = Some vs ∧
  map_sum amount vs = netMint exUnified (mjoin exBlocks2) +
    map_sum promised vs + map_sum waitingUnshieldFee vs ∧ map_sum amount vs = 700.
Proof.
  destruct (fmap_Some_1 _ _ _ exHeld) as (vs & E & Hsum). exists vs.
  exact (conj E (conj (proj1 (bridge_solvent _ exSt2 exDB2 exUnified vs default_u64 exChain2 E)) (eq_sym Hsum))).
Defined.
