(* ===== verification/BridgeOnce.v ===== *)
(** An external deposit is credited at most once: within a request, within a block and along the
    chain. *)
From S2P Require Import Prelude Hash InstructionText BridgeVault BridgeDB BridgeState BridgeInvariant BridgeProducer BridgeCall BridgeShield BridgeProcessor BridgeSound BridgeShieldSound BridgeBlock BridgeExample BridgeSolvency.
From Stdlib Require Import String.

Local Open Scope Z_scope.

(** The deposits an instruction credits: the network and the transaction. *)
Definition creditsOf (i : BeaconInst) : list (Z * string) :=
  match i with
  | AggInst (mkInstruction _ _ _ (ShieldContent c)) => creditOf <$> ai_Data c
  | AggInst (mkInstruction _ _ _ (ReshieldContent c)) => [creditOf (rr_ReshieldData c)]
  | _ => []
  end.
Definition credited (insts : list BeaconInst) : list (Z * string) := mjoin (creditsOf <$> insts).

Lemma credited_app a b : credited (a ++ b) = credited a ++ credited b.
Proof. unfold credited. by rewrite fmap_app, join_app. Qed.

Definition creditless (insts : list BeaconInst) : Prop := credited insts = [].

Lemma creditless_app a b : creditless a → creditless b → creditless (a ++ b).
Proof. unfold creditless. rewrite credited_app. by intros -> ->. Qed.

Lemma creditless_confirms insts : Forall isConfirm insts → creditless insts.
Proof.
  induction 1 as [|i l Hi _ IH]; [done|]. unfold creditless in *.
  change (creditsOf i ++ credited l = []). rewrite IH. by destruct i.
Qed.

(** The type and the status of an instruction that credits a deposit. *)
Definition wellTyped (i : BeaconInst) : Prop :=
  match i with
  | AggInst (mkInstruction ty st _ (ShieldContent (mkAcceptedShield _ _ _ (_ :: _)))) =>
      ty = IssuingUnifiedTokenRequestMeta ∧ st = AcceptedStatusStr
  | AggInst (mkInstruction ty st _ (ReshieldContent _)) =>
      ty = IssuingReshieldResponseMeta ∧ st = AcceptedStatusStr
  | _ => True
  end.

Lemma creditless_typed insts : creditless insts → Forall wellTyped insts.
Proof.
  induction insts as [|i insts IH]; [constructor|].
  intros [Hi Hl]%app_nil. constructor; [|by apply IH].
  destruct i as [[ty st sid c]| | | |]; [|done..]. destruct c as [| |[? ? ? [|]]| | |]; done.
Qed.

Section handlers.
Context `{!BridgeAggParam, !ConfirmHash, !EVM, !EVMAddress, !TokenRegistry}.

(** ** Only shields credit anything *)
Definition neverCredits {S} (m : M S (list BeaconInst)) : Prop :=
  ∀ s insts s', m s = (Ok insts, s') → creditless insts.

Lemma never_ret {S} l : creditless l → neverCredits (S := S) (mret l).
Proof. by intros Hl s insts s' [= <- _]. Qed.

Lemma never_bind {S A} (m : M S A) f : (∀ a, neverCredits (f a)) → neverCredits (m ≫= f).
Proof. intros Hf s insts s' (a & s1 & _ & Hr)%M_bind_Ok. by eapply Hf. Qed.

Lemma never_app {S} (f g : M S (list BeaconInst)) : neverCredits f → neverCredits g →
  neverCredits (a ← f; b ← g; mret (a ++ b)).
Proof.
  intros Hf Hg s insts s' (a & s1 & Ha & Hr)%M_bind_Ok. apply M_bind_Ok in Hr as (b & s2 & Hb & [= <- _]).
  apply creditless_app; [by eapply Hf|by eapply Hg].
Qed.

Lemma never_run {S A} (f : A → M S (list BeaconInst)) acts : (∀ a, neverCredits (f a)) →
  neverCredits (runActions f acts).
Proof. intros Hf. induction acts as [|a acts IH]; [by apply never_ret|]. by apply never_app. Qed.

Lemma never_orReject {A} (m : outcome A) r k : creditless r → (∀ a, neverCredits (k a)) →
  neverCredits (orReject m r k).
Proof. intros Hr Hk s insts s' [(a & _ & Ha)|[-> _]]%orReject_cases; [by eapply Hk|done]. Qed.

Lemma never_commitOr m cloned r insts : creditless r → creditless insts →
  neverCredits (commitOr m cloned r insts).
Proof. by intros Hr Hi s x s' [[-> _]|[-> _]]%commitOr_cases. Qed.

Lemma never_onFst {T} (m : M State (list BeaconInst)) : neverCredits m → neverCredits (onFst (T := T) m).
Proof.
  intros Hm st insts st' Hr. unfold onFst, zoom in Hr. destruct (m (fst st)) as [r s] eqn:E.
  injection Hr as -> <-. by eapply Hm.
Qed.

Lemma never_convert action sid : neverCredits (convert action sid).
Proof.
  unfold convert. destruct action as [a|]; [|by apply never_ret]. apply never_bind. intros s. cbv zeta.
  apply never_orReject; [done|]. intros vs. destruct (vs !! _); [|by apply never_ret].
  repeat (apply never_orReject; [done|intros]). apply never_bind. intros. by apply never_ret.
Qed.

Lemma never_modifyParam action sid : neverCredits (modifyParam action sid).
Proof. unfold modifyParam. destruct action; [apply never_bind; intros|]; by apply never_ret. Qed.

Lemma never_unshield db a bh : neverCredits (unshield db a bh).
Proof.
  unfold unshield. apply never_bind. intros s. cbv zeta. apply never_orReject; [done|]. intros vs.
  apply never_bind. intros percent. apply never_orReject; [done|]. intros [enough ds].
  apply never_commitOr; [done|]. apply creditless_app; [|done]. destruct enough; [|done].
  apply creditless_confirms, buildBurningConfirm_confirms.
Qed.

Lemma never_burnForCall db a bh : neverCredits (burnForCall db a bh).
Proof.
  unfold burnForCall. cbv zeta. destruct (br_Data _) as [|first rest] eqn:Hd; [by intros s i s' [=]|].
  apply never_bind. intros s. destruct (negb _).
  - apply never_orReject; [done|]. intros vs. apply never_bind. intros percent.
    apply never_orReject; [done|]. intros [enough ds]. destruct enough; [|by apply never_ret].
    unfold orReject. destruct (unifiedCallConfirms _ _ _ _ _ _) as [insts| | |] eqn:Hc;
      [|by apply never_ret|by intros ? ? ? [=]..].
    apply never_commitOr; [done|]. apply creditless_app; [|done].
    by eapply creditless_confirms, unifiedCallConfirms_confirms.
  - destruct (CloneVaultsByUnifiedTokenID _ _) as [| | |]; try by apply never_ret.
    all: unfold orReject; destruct (plainCallEntries _ _ _ _ _) as [[insts wds]| | |] eqn:Hc;
      [|by apply never_ret|by intros ? ? ? [=]..].
    all: apply never_bind; intros; apply never_ret, creditless_app; [|done].
    all: apply creditless_confirms; by apply plainCallEntries_spec in Hc as [Hc _].
Qed.

Lemma fillQueue_creditless u bh reqs locked s insts s' :
  fillQueue u bh reqs locked s = Ok (insts, s') → creditless insts.
Proof.
  revert locked s insts s'. induction reqs as [|req reqs IH]; intros locked s insts s'; [by intros [= <- _]|].
  cbn [fillQueue]. destruct (unifiedTokenVaults s !! u); [|by apply IH].
  intros ([enough locked'] & _ & Hrest)%outcome_bind_Ok. destruct enough; cbn in Hrest; [|by eapply IH].
  destruct (updateStateForUnshield _ _ _ _) as [[[]|e| |] s1]; [|by eapply IH|done..].
  apply outcome_bind_Ok in Hrest as ([insts' s2] & Hfill%IH & [= <- _]).
  apply creditless_app; [apply creditless_confirms, buildBurningConfirm_confirms|done].
Qed.

Lemma never_handleWaiting order bh : neverCredits (handleWaitingUnshieldReqs order bh).
Proof.
  unfold handleWaitingUnshieldReqs. apply never_bind. intros s s1 insts s'.
  intros ([i1 s2] & s3 & Hf & Hr)%M_bind_Ok. injection Hf as Hf <-. injection Hr as <- _.
  revert Hf. generalize (Clone s) as c. revert i1 s2. induction order as [|u order IH]; intros i1 s2 c.
  { by intros [= <- _]. }
  cbn. intros ([j1 s4] & Hf1%fillQueue_creditless & Hr)%outcome_bind_Ok.
  apply outcome_bind_Ok in Hr as ([j2 s5] & Hf2%IH & [= <- _]). by apply creditless_app.
Qed.

Lemma never_addTokens db config cps : neverCredits (addTokens db config cps).
Proof.
  induction cps as [|c cps IH]; [by apply never_ret|]. cbn [addTokens]. apply never_bind. intros [s ac].
  intros st insts st' ([[i1 s1] ac1] & st1 & Ha & Hr)%M_bind_Ok. injection Ha as Ha _.
  apply M_bind_Ok in Hr as ([] & st2 & _ & Hr). apply M_bind_Ok in Hr as (i2 & st3 & Htwo%IH & [= <- _]).
  apply creditless_app; [|done]. revert Ha. unfold addToken. destruct (config c); [|by intros [= <- _ _]].
  intros (cac & _ & Hr)%outcome_bind_Ok.
  destruct (foldOk _ _ _); [destruct (bool_decide _)|..]; first [done|by injection Hr as <- _ _].
Qed.

Lemma never_newUnshields db bh acts : neverCredits (BuildNewUnshieldInstructions db bh acts).
Proof.
  induction acts as [|a acts IH]; [by apply never_ret|]. cbn [BuildNewUnshieldInstructions].
  apply never_app; [|done]. destruct a; [apply never_unshield|apply never_burnForCall].
Qed.

(** ** The shields of a block *)
Lemma credited_accepted u txReqID acc incAddr rs : sa_reshield acc = reshieldInst u txReqID <$> rs →
  credited (acceptedShieldInsts u txReqID acc incAddr) = creditOf <$> outputs acc rs.
Proof.
  intros Er. unfold acceptedShieldInsts, outputs. rewrite Er, credited_app, fmap_app. f_equal.
  - destruct (bool_decide_reflect (sa_accepted acc = [])) as [->|_]; [done|]. unfold credited. cbn.
    by rewrite app_nil_r.
  - clear Er. induction rs as [|r rs IH]; [done|]. change (creditOf r.2 :: credited (reshieldInst u txReqID <$> rs)
      = creditOf r.2 :: (creditOf <$> rs.*2)). f_equal. exact IH.
Qed.

Lemma setPair_uniq k ext ac net : uniqTxsOf net (setDBridgeTokenPair k ext ac) = uniqTxsOf net ac.
Proof. by destruct ac. Qed.

(** What the shields credited: nothing that was issued in an earlier block, and on the networks
    whose list survives the clone of the accumulated values nothing twice. *)
Record once (db : BridgeDB) (ac ac' : AccumulatedValues) (cs : list (Z * string)) : Prop := {
  on_new : ∀ c, c ∈ cs → c ∉ txHashIssued db;
  on_nodup : NoDup (filter (λ c, Is_true (clonedNetwork c.1)) cs);
  on_fresh : ∀ c, c ∈ cs → clonedNetwork c.1 = true → c.2 ∉ uniqTxsOf c.1 ac;
  on_recorded : ∀ c, c ∈ cs → clonedNetwork c.1 = true → c.2 ∈ uniqTxsOf c.1 ac';
  on_kept : ∀ net x, clonedNetwork net = true → x ∈ uniqTxsOf net ac → x ∈ uniqTxsOf net ac' }.

Lemma once_nil db ac : once db ac ac [].
Proof. split; [by intros ? ?%not_elem_of_nil|constructor|by intros ? ?%not_elem_of_nil..|done]. Qed.

Lemma once_app db ac ac1 ac2 a b : once db ac ac1 a → once db ac1 ac2 b → once db ac ac2 (a ++ b).
Proof.
  intros [N1 D1 F1 R1 K1] [N2 D2 F2 R2 K2]. split.
  - intros c [?|?]%elem_of_app; auto.
  - rewrite filter_app. apply NoDup_app. split; [done|]. split; [|done].
    intros c [Hc Ha]%list_elem_of_filter [_ Hb]%list_elem_of_filter.
    apply Is_true_true in Hc. by apply (F2 c Hb Hc), R1.
  - intros c [Hc|Hc]%elem_of_app Hn; [auto|]. intros Hx. by apply (F2 c Hc Hn), K1.
  - intros c [Hc|Hc]%elem_of_app Hn; auto.
  - auto.
Qed.

Lemma shield_once db action sid s ac insts s' ac' :
  shield db action sid (s, ac) = (Ok insts, (s', ac')) → once db ac ac' (credited insts).
Proof.
  intros [(Hi & _ & ->)|(u & txReqID & vs & cac & acc & incAddr & rs & _ & Hcl & Hw & -> & _ & ->)]%shield_cases.
  { destruct Hi as [->|(? & ? & ->)]; apply once_nil. }
  destruct Hw as [W1 _ W3 W4 W5]. rewrite (credited_accepted _ _ _ _ rs W1).
  assert (∀ c, c ∈ creditOf <$> outputs acc rs → (c ∉ txHashIssued db) ∧ (c.2 ∉ uniqTxsOf c.1 cac) ∧
    c.2 ∈ uniqTxsOf c.1 (sa_ac acc)) as Hc.
  { intros c (sd & -> & Hsd)%list_elem_of_fmap. by apply W4. }
  split.
  - intros c Hin. by apply Hc.
  - by apply NoDup_filter.
  - intros c Hin Hn. rewrite <- (AC_Clone_uniq _ _ _ Hn Hcl). by apply Hc.
  - intros c Hin Hn. rewrite setPair_uniq. by apply Hc.
  - intros net x Hn Hx. rewrite setPair_uniq. apply W3. by rewrite (AC_Clone_uniq _ _ _ Hn Hcl).
Qed.

Lemma shields_typed db acts st insts st' :
  runActions (λ a, shield db a.2 a.1) acts st = (Ok insts, st') → Forall wellTyped insts.
Proof.
  revert st insts st'. induction acts as [|a acts IH]; intros st insts st'; [intros [= <- _]; constructor|].
  cbn [runActions]. intros (i1 & st1 & Hone & Hr)%M_bind_Ok. apply M_bind_Ok in Hr as (i2 & st2 & Htwo%IH & [= <- <-]).
  apply Forall_app. split; [|done]. destruct st as [s ac], st1 as [s1 ac1].
  apply shield_cases in Hone as [([->|(? & ? & ->)] & _)|(u & t & vs & cac & acc & inc & rs & _ & _ & Hw & -> & _)];
    [constructor|by repeat constructor|].
  unfold acceptedShieldInsts. rewrite (wk_reshield _ _ _ _ _ _ _ Hw). apply Forall_app. split.
  - destruct (bool_decide _); repeat constructor. cbn. by destruct (sa_accepted acc).
  - apply Forall_fmap, Forall_true. intros r. done.
Qed.

Lemma shields_once db acts st insts st' :
  runActions (λ a, shield db a.2 a.1) acts st = (Ok insts, st') →
  once db (snd st) (snd st') (credited insts).
Proof.
  revert st insts st'. induction acts as [|a acts IH]; intros st insts st'; [intros [= <- <-]; apply once_nil|].
  cbn [runActions]. intros (i1 & st1 & Hone & Hr)%M_bind_Ok. apply M_bind_Ok in Hr as (i2 & st2 & Htwo & [= <- <-]).
  rewrite credited_app. destruct st as [s ac], st1 as [s1 ac1]. eapply once_app; [by eapply shield_once|].
  by apply (IH (s1, ac1)).
Qed.

Lemma BuildBlock_once db order bh triggered config acts unshields st insts st' :
  BuildBlock db order bh triggered config acts unshields st = (Ok insts, st') →
  (∀ c, c ∈ credited insts → (c ∉ txHashIssued db)) ∧
  NoDup (filter (λ c, Is_true (clonedNetwork c.1)) (credited insts)) ∧
  Forall wellTyped insts.
Proof.
  unfold BuildBlock. intros (i1 & st1 & R1 & Hr)%M_bind_Ok. apply M_bind_Ok in Hr as (i2 & st2 & R2 & Hr).
  apply M_bind_Ok in Hr as (i3 & st3 & R3 & [= <- _]).
  assert (creditless i1) as C1.
  { unfold BuildAddTokenInstruction in R1. apply M_bind_Ok in R1 as (cps & ? & _ & R1). by eapply never_addTokens. }
  assert (creditless i3) as C3 by (eapply never_onFst; [apply never_newUnshields|exact R3]).
  unfold BuildInstructions in R2. apply M_bind_Ok in R2 as ([] & st4 & _ & R2).
  apply M_bind_Ok in R2 as (j1 & st5 & J1 & R2). apply M_bind_Ok in R2 as (j2 & st6 & J2 & R2).
  apply M_bind_Ok in R2 as (j3 & st7 & J3 & R2). apply M_bind_Ok in R2 as (j4 & st8 & J4 & [= <- _]).
  assert (creditless j1) as D1 by (eapply never_run; [|exact J1]; intros; apply never_onFst, never_convert).
  assert (creditless j3) as D3 by (eapply never_onFst; [apply never_handleWaiting|exact J3]).
  assert (creditless j4) as D4 by (eapply never_run; [|exact J4]; intros; apply never_onFst, never_modifyParam).
  split_and!.
  3: { rewrite !Forall_app. split_and!; try (by apply creditless_typed). by eapply shields_typed. }
  all: unfold creditless in *; rewrite !credited_app, C1, C3, D1, D3, D4; cbn; rewrite !app_nil_r;
    apply (shields_once _ _ _ _ _ J2).
Qed.

(** ** What processing records *)
Lemma shieldDatas_issued ds vs p vs' p' : shieldDatas ds vs p = (Ok vs', p') →
  txHashIssued (ps_db p') = list_to_set (creditOf <$> ds) ∪ txHashIssued (ps_db p).
Proof.
  revert vs p. induction ds as [|d ds IH]; intros vs p; cbn [shieldDatas]; [intros [= _ <-]; cbn; set_solver|].
  destruct (vs !! _); [|done]. intros (v' & p1 & Hv & Hr)%M_bind_Ok. injection Hv as _ <-.
  unfold GetInsertTxHashIssuedFuncByNetworkID in Hr. destruct (isAggNetwork _); [|done].
  apply M_bind_Ok in Hr as ([] & p2 & [= <-] & Hr%IH). cbn in Hr. rewrite Hr. cbn. set_solver.
Qed.

Definition issued (p : ProcState) : gset (Z * string) := txHashIssued (ps_db p).
Definition keepsIssued {A} (m : M ProcState A) : Prop := ∀ p a p', m p = (Ok a, p') → issued p ⊆ issued p'.

Lemma keeps_bind {A B} (m : M ProcState A) (f : A → M ProcState B) :
  keepsIssued m → (∀ a, keepsIssued (f a)) → keepsIssued (m ≫= f).
Proof. intros Hm Hf p b p' (a & p1 & Ha%Hm & Hb%Hf)%M_bind_Ok. by etrans. Qed.

Lemma keeps_same {A} (m : M ProcState A) : (∀ p, ps_db (m p).2 = ps_db p) → keepsIssued m.
Proof. intros Hm p a p' E. unfold issued. specialize (Hm p). rewrite E in Hm. cbn in Hm. by rewrite Hm. Qed.

Lemma keeps_onState {A} (m : M State A) : keepsIssued (onState m).
Proof. apply keeps_same. intros p. unfold onState, zoom. by destruct (m (ps_state p)). Qed.

Ltac keeps :=
  repeat match goal with
    | |- keepsIssued (onState _) => apply keeps_onState
    | |- keepsIssued (_ ≫= _) => apply keeps_bind; [|intros ?]
    | |- context [isAggNetwork ?n] => destruct (isAggNetwork n)
    | |- keepsIssued (match ?x with _ => _ end) => destruct x
    | |- keepsIssued _ => by apply keeps_same
    end.

Lemma shieldDatas_keeps ds vs : keepsIssued (shieldDatas ds vs).
Proof. intros p a p' E. unfold issued. rewrite (shieldDatas_issued _ _ _ _ _ E). set_solver. Qed.

Lemma addVaults_issued u vaults s db s' db' : addVaults_process u vaults s db = Ok (s', db') →
  txHashIssued db' = txHashIssued db.
Proof.
  revert s db. induction vaults as [|[t cv] vaults IH]; intros s db; [by intros [= _ <-]|].
  cbn [addVaults_process]. by intros (ext & _ & ->%IH)%outcome_bind_Ok.
Qed.

Lemma addToken_issued uts s db s' db' : addToken_process uts s db = Ok (s', db') →
  txHashIssued db' = txHashIssued db.
Proof.
  revert s db. induction uts as [|[u vaults] uts IH]; intros s db; [by intros [= _ <-]|].
  cbn [addToken_process]. intros ([s1 db1] & E%addVaults_issued & ->%IH)%outcome_bind_Ok. by rewrite E.
Qed.

Lemma unshield_keeps i : keepsIssued (unshield_process i).
Proof. unfold unshield_process. keeps. Qed.

Lemma processInst_keeps i : keepsIssued (processInst i).
Proof.
  destruct i as [i|uts| | |]; cbn [processInst]; [|..]; try by apply keeps_same.
  - repeat case_match; try by apply keeps_same.
    + unfold convert_process. keeps.
    + unfold shield_process. keeps. apply shieldDatas_keeps.
    + apply unshield_keeps.
    + unfold modifyParam_process. keeps.
    + unfold burnForCall_process. keeps. apply unshield_keeps.
    + unfold reshield_process, GetInsertTxHashIssuedFuncByNetworkID. keeps;
        try (intros ? ? ? [= _ <-]; unfold issued; cbn; set_solver).
  - intros p a p'. rewrite getS_bind. intros ([s1 db1] & p1 & Ha & Hr)%M_bind_Ok.
    injection Ha as Ha <-. injection Hr as _ <-. unfold issued. cbn. by rewrite (addToken_issued _ _ _ _ _ Ha).
Qed.

Lemma processInsts_keeps insts : keepsIssued (processInsts insts).
Proof.
  induction insts as [|i insts IH]; [by apply keeps_same|]. cbn [processInsts].
  apply keeps_bind; [apply processInst_keeps|done].
Qed.

(** A credit that is processed is recorded. *)
Lemma process_records i p p' : wellTyped i → processInst i p = (Ok tt, p') →
  ∀ c, c ∈ creditsOf i → c ∈ issued p'.
Proof.
  destruct i as [[ty st sid cont]| | | |]; try (by intros _ _ ? ?%not_elem_of_nil).
  destruct cont as [| |[inc u t [|d ds]]|r| |]; cbn [wellTyped creditsOf];
    try (by intros _ _ ? ?%not_elem_of_nil); intros [-> ->] Hp c Hc.
  - change (shield_process (mkInstruction IssuingUnifiedTokenRequestMeta AcceptedStatusStr sid
      (ShieldContent (mkAcceptedShield inc u t (d :: ds)))) p = (Ok tt, p')) in Hp.
    unfold shield_process in Hp. cbn [in_Status in_Content] in Hp. rewrite bool_decide_true in Hp by done.
    rewrite getS_bind in Hp. apply M_bind_Ok in Hp as (vs & p1 & Hvs & Hp). injection Hvs as _ <-.
    apply M_bind_Ok in Hp as (vs' & p1 & Hds%shieldDatas_issued & Hp).
    assert (c ∈ issued p1) as Hc1.
    { unfold issued. rewrite Hds. apply elem_of_union. left. by apply elem_of_list_to_set. }
    cbv zeta in Hp.
    eapply (keeps_bind (onState _)); [apply keeps_onState| |exact Hp|exact Hc1].
    intros. apply keeps_bind; [by apply keeps_same|]. intros. by apply keeps_same.
  - change (reshield_process (mkInstruction IssuingReshieldResponseMeta AcceptedStatusStr sid
      (ReshieldContent r)) p = (Ok tt, p')) in Hp.
    unfold reshield_process in Hp. cbn [in_Status in_Content] in Hp. rewrite bool_decide_true in Hp by done.
    apply M_bind_Ok in Hp as ([] & p1 & _ & Hp). unfold GetInsertTxHashIssuedFuncByNetworkID in Hp.
    destruct (isAggNetwork _); [|done]. apply M_bind_Ok in Hp as ([] & p2 & E & Hp). injection E as <-.
    apply list_elem_of_singleton in Hc as ->.
    eapply (keeps_bind (onInfos _)); [by apply keeps_same| |exact Hp|].
    + intros. by apply keeps_same.
    + unfold issued. cbn. apply elem_of_union. left. by apply elem_of_singleton.
Qed.

Lemma processInsts_record insts p p' : Forall wellTyped insts → processInsts insts p = (Ok tt, p') →
  ∀ c, c ∈ credited insts → c ∈ issued p'.
Proof.
  intros Hty. revert p. induction Hty as [|i insts Hi _ IH]; intros p; [by intros _ ? ?%not_elem_of_nil|].
  cbn [processInsts]. intros ([] & p1 & Hp1 & Hr)%M_bind_Ok c [Hc|Hc]%elem_of_app; [|by eapply IH].
  eapply processInsts_keeps; [exact Hr|]. by eapply process_records.
Qed.

Lemma storeInfos_issued infos db : txHashIssued (storeInfos infos db) = txHashIssued db.
Proof.
  unfold storeInfos. generalize (map_to_list infos).*2 as l. intros l. revert db.
  induction l as [|i l IH]; intros db; [done|]. cbn. by rewrite IH.
Qed.

Lemma Process_issued insts s db s2 db2 ids : Forall wellTyped insts → Process insts s db = Ok (s2, db2, ids) →
  txHashIssued db ⊆ txHashIssued db2 ∧ ∀ c, c ∈ credited insts → c ∈ txHashIssued db2.
Proof.
  intros Hty. unfold Process, runM. set (p := mkProcState _ db [] ∅ ∅).
  destruct (processInsts insts p) as [[[]| | |] p'] eqn:E; [|done..]. intros [= _ <- _].
  rewrite storeInfos_issued. split; [apply (processInsts_keeps _ p () p' E)|by eapply processInsts_record].
Qed.

(** Any chain of blocks, from any state and any record of deposits [db0]: each block is built
    against the database before it and processed; in between the database may grow. *)
Inductive builtChain (db0 : BridgeDB) : list (list BeaconInst) → State → BridgeDB → Prop :=
  | built_start s : builtChain db0 [] s db0
  | built_block blocks s db order bh triggered config acts unshields ac insts st' s2 db2 txIDs db3 :
      builtChain db0 blocks s db →
      BuildBlock db order bh triggered config acts unshields (s, ac) = (Ok insts, st') →
      Process insts s db = Ok (s2, db2, txIDs) →
      txHashIssued db2 ⊆ txHashIssued db3 →
      builtChain db0 (blocks ++ [insts]) s2 db3.

(** The chains of [BridgeSolvency] are such chains. *)
Lemma bridgeChain_built blocks s db : bridgeChain blocks s db → ∃ db0, builtChain db0 blocks s db.
Proof.
  induction 1 as [db|blocks s db order bh triggered config acts unshields ac insts st' s2 db2 txIDs db3
    _ [db0 IH] _ _ Hb Hp _ Hdb]; [exists db; constructor|].
  exists db0. by econstructor.
Qed.

Lemma snoc_split {A} (l : list A) x pre b post : l ++ [x] = pre ++ b :: post →
  (post = [] ∧ l = pre ∧ x = b) ∨ ∃ post', post = post' ++ [x] ∧ l = pre ++ b :: post'.
Proof.
  destruct post as [|y post _] using rev_ind; intros E.
  - left. apply app_inj_tail in E as [-> ->]. done.
  - right. exists post. rewrite app_comm_cons, app_assoc in E. apply app_inj_tail in E as [-> ->]. done.
Qed.

(** C11: a deposit on an external network is credited once.  On any chain of blocks that are built
    and processed, from any state: on Ethereum, BSC, Polygon and Fantom, whose lists of used
    transactions the clone of the accumulated values keeps, no pair of a network and a
    transaction is credited twice, within a block or across blocks; on every network, what a
    block credits was neither on record at the start of the chain nor credited by an earlier
    block; and every credit ends up on record.  *)
Theorem deposit_credited_once db0 blocks s db :
  builtChain db0 blocks s db →
  NoDup (filter (λ c, Is_true (clonedNetwork c.1)) (credited (mjoin blocks))) ∧
  (∀ pre b post, blocks = pre ++ b :: post → ∀ c, c ∈ credited b →
     (c ∉ txHashIssued db0) ∧ c ∉ credited (mjoin pre)) ∧
  txHashIssued db0 ⊆ txHashIssued db ∧
  (∀ c, c ∈ credited (mjoin blocks) → c ∈ txHashIssued db).
Proof.
  induction 1 as [s|blocks s db order bh triggered config acts unshields ac insts st' s2 db2 txIDs db3
    _ (IH1 & IH2 & IH3 & IH4) Hb Hp Hdb].
  { split; [constructor|]. split; [by intros [] ? ?|]. split; [done|]. by intros ? ?%not_elem_of_nil. }
  apply BuildBlock_once in Hb as (Hnew & Hnd & Hty). apply Process_issued in Hp as [Hk Hrec]; [|done].
  assert (mjoin (blocks ++ [insts]) = mjoin blocks ++ insts) as ->.
  { rewrite join_app. change (mjoin [insts]) with (insts ++ []). by rewrite app_nil_r. }
  rewrite credited_app. split_and!.
  - rewrite filter_app. apply NoDup_app. split; [done|]. split; [|done].
    intros c [_ Ha]%list_elem_of_filter [_ Hc]%list_elem_of_filter. by apply (Hnew c Hc), IH4.
  - intros pre b post [(-> & -> & ->)|(post' & _ & E)]%snoc_split c Hc; [|by eapply IH2].
    split; intros Hin; apply (Hnew c Hc); [by apply IH3|by apply IH4].
  - by etrans; [exact IH3|etrans].
  - intros c [Hc|Hc]%elem_of_app; apply Hdb; [apply Hk; by apply IH4|by apply Hrec].
Qed.
End handlers.

#[local] Existing Instances mainnetBridgeAggParam exAddress exConfirm exRegistry exEVM.

Lemma deposit_credited_once_witness : ∃ db0, builtChain db0 exBlocks2 exSt2 exDB2 ∧
  NoDup (filter (λ c, Is_true (clonedNetwork c.1)) (credited (mjoin exBlocks2))) ∧
  ∀ c, c ∈ credited (mjoin exBlocks2) → c ∈ txHashIssued exDB2.
Proof.
  destruct (bridgeChain_built _ _ _ exChain2) as [db0 Hchain]. exists db0. split; [exact Hchain|].
  destruct (deposit_credited_once db0 exBlocks2 exSt2 exDB2 Hchain) as (H1 & _ & _ & H4). split; [exact H1|exact H4].
Defined.
