(* ===== verification/BridgeQueue.v ===== *)
(** The queue of waiting unshield requests: filling it always ends, and a request is paid as soon
    as its vaults hold what the requests before it and the request itself are owed. *)
From S2P Require Import Prelude Hash InstructionText BridgeVault BridgeDB BridgeState BridgeInvariant BridgeProducer BridgeCall BridgeShield BridgeProcessor BridgeSound BridgeShieldSound BridgeBlock BridgeExample BridgeSolvency.
From Stdlib Require Import String.

Local Open Scope Z_scope.

(** ** The update of a filled request *)
Lemma matchedWait_amounts vs req vs' : Forall wf_data (wr_data req) → wf_vaults vs →
  updateStateForMatchedWaitUnshieldReq vs req = Ok vs' →
  ∀ t v, vs !! t = Some v → ∃ v', vs' !! t = Some v' ∧ amount v' = amount v - dueTo t (wr_data req).
Proof.
  intros Hds Hwf Hu.
  eapply (updateVaults_ind _ (λ ws ds, Forall wf_data ds ∧ wf_vaults ws ∧ ∀ t v, vs !! t = Some v →
    ∃ w, ws !! t = Some w ∧ amount w = amount v - dueTo t (wr_data req) + dueTo t ds)) in Hu as (_ & _ & Ha).
  - intros t v Hv. destruct (Ha t v Hv) as (w & Hw & E). exists w. split; [done|].
    unfold dueTo at 2, sumOf, list_sum in E. cbn in E. lia.
  - intros ws d ds v v' (Hd & Hw & Ha) Hv Hf. apply Forall_cons in Hd as [Hd Hds'].
    destruct (map_Forall_lookup_1 _ _ _ _ Hw Hv) as [Hwv Ht].
    destruct (matchedWait_spec d v v' Hd Hwv Hf) as (Hwv' & (_ & _ & Et) & Eam & _).
    split; [done|]. split; [apply wf_vaults_insert; [done..|congruence]|].
    intros t v0 Hv0. destruct (Ha t v0 Hv0) as (w & Hwt & E). unfold dueTo in E at 2. rewrite sumOf_cons in E.
    fold (dueTo t ds) in E. destruct (decide (t = wd_IncTokenID d)) as [->|Hne].
    + rewrite decide_True in E by done. rewrite Hwt in Hv. injection Hv as ->.
      exists v'. rewrite lookup_insert_eq. split; [done|]. lia.
    + rewrite decide_False in E by congruence. exists w. rewrite lookup_insert_ne by done. split; [done|]. lia.
  - split; [done|]. split; [done|]. intros t v Hv. exists v. split; [done|]. lia.
Qed.

(** With distinct vaults that hold and owe the money, the update succeeds. *)
Lemma matchedWait_vaults_total vs ds : Forall wf_data ds → wf_vaults vs →
  NoDup (wd_IncTokenID <$> ds) →
  (∀ d, d ∈ ds → ∃ v, vs !! wd_IncTokenID d = Some v ∧ receivedAmount d ≤ amount v ∧
     receivedAmount d ≤ promised v) →
  ∃ vs', updateVaults matchedWaitMethods vs ds = Ok vs'.
Proof.
  revert vs. induction ds as [|d ds IH]; intros vs Hds Hw Hnd Hall; [by exists vs|].
  apply Forall_cons in Hds as [Hd Hds]. apply NoDup_cons in Hnd as [Hnot Hnd]. cbn.
  destruct (Hall d) as (v & Hv & Ha & Hp); [by left|]. unfold derefVault. rewrite Hv. cbn.
  destruct (map_Forall_lookup_1 _ _ _ _ Hw Hv) as [Hwv Ht].
  destruct (matchedWait_total d v Hd Hwv Ha Hp) as [v' Hf]. unfold runM. rewrite Hf. cbn.
  destruct (matchedWait_spec d v v' Hd Hwv Hf) as (Hwv' & (_ & _ & Et) & _).
  apply IH; [done|apply wf_vaults_insert; [done..|congruence]|done|].
  intros d' Hd'. destruct (Hall d') as (w & Hw' & ?); [by right|]. exists w.
  rewrite lookup_insert_ne; [done|]. intros E. apply Hnot. rewrite E. by apply list_elem_of_fmap_2.
Qed.

(** ** The check of a request *)
Lemma vaultsEnough_Ok vs ds locked : (∀ d, d ∈ ds → is_Some (vs !! wd_IncTokenID d)) →
  is_Ok (vaultsEnough vs ds locked).
Proof.
  induction ds as [|d ds IH]; intros Hall; [by exists true|]. cbn.
  destruct (Hall d) as [v Hv]; [by left|]. unfold derefVault. rewrite Hv. cbn.
  destruct (amount v <=? _); [by eexists|]. destruct (_ <? _); [by eexists|].
  apply IH. intros d' Hd'. apply Hall. by right.
Qed.

(** What the vault of an entry must hold for the entry to pass. *)
Definition affordable (vs : Vaults) (locked : gmap Hash Z) (ahead : Hash → Z)
    (d : WaitingUnshieldReqData) : Prop :=
  ∃ v, vs !! wd_IncTokenID d = Some v ∧ 0 < receivedAmount d ∧
    ahead (wd_IncTokenID d) + lookupAmt locked (wd_IncTokenID d) + receivedAmount d ≤ amount v.

Lemma vaultsEnough_true vs ds locked : wf_vaults vs → (∀ t, 0 ≤ lookupAmt locked t) →
  (∀ d, d ∈ ds → affordable vs locked (λ _, 0) d) → vaultsEnough vs ds locked = Ok true.
Proof.
  intros Hw Hl. induction ds as [|d ds IH]; intros Hall; [done|]. cbn.
  destruct (Hall d) as (v & Hv & Hr & Ha); [by left|]. unfold derefVault. rewrite Hv. cbn.
  destruct (map_Forall_lookup_1 _ _ _ _ Hw Hv) as [[Hav _ _ _ _ _] _].
  specialize (Hl (wd_IncTokenID d)). unfold in_u64 in Hav.
  destruct (Z.leb_spec (amount v) (lookupAmt locked (wd_IncTokenID d))); [lia|].
  rewrite sub64_exact by (unfold in_u64; lia).
  destruct (Z.ltb_spec (amount v - lookupAmt locked (wd_IncTokenID d)) (receivedAmount d)); [lia|].
  apply IH. intros d' Hd'. apply Hall. by right.
Qed.

Lemma add64_exact x y : 0 ≤ x → 0 ≤ y → x + y < word64 → add64 x y = x + y.
Proof. intros. apply u64_small. unfold in_u64. lia. Qed.

(** Reserving the entries of a request that has to wait on. *)
Lemma lockData_at ds locked t : Forall wf_data ds → (∀ t, 0 ≤ lookupAmt locked t) →
  (∀ t, 0 ≤ lookupAmt (foldl lockData locked ds) t) ∧
  (lookupAmt locked t + dueTo t ds < word64 →
   lookupAmt (foldl lockData locked ds) t = lookupAmt locked t + dueTo t ds).
Proof.
  intros Hds. revert locked. induction Hds as [|d ds Hd Hds IH]; intros locked Hl.
  { split; [done|]. unfold dueTo, sumOf, list_sum. cbn. lia. }
  cbn [foldl]. pose proof (dueTo_nonneg t ds Hds) as Hn. unfold dueTo at 1 2. rewrite sumOf_cons. fold (dueTo t ds).
  assert (0 ≤ receivedAmount d) as Hr by (rewrite received_eq by done; destruct Hd; lia).
  assert (∀ t', lookupAmt (lockData locked d) t' = if decide (wd_IncTokenID d = t')
    then add64 (lookupAmt locked t') (receivedAmount d) else lookupAmt locked t') as El.
  { intros t'. unfold lockData, lookupAmt. case_decide as E; [subst; by rewrite lookup_insert_eq|].
    by rewrite lookup_insert_ne. }
  assert (∀ t', 0 ≤ lookupAmt (lockData locked d) t') as Hl'.
  { intros t'. rewrite El. case_decide; [|done]. apply u64_bound. }
  destruct (IH _ Hl') as [Hpos Heq]. split; [exact Hpos|]. intros Hlt. rewrite Heq, El.
  - case_decide; [|lia]. specialize (Hl t). rewrite add64_exact; lia.
  - rewrite El. case_decide; [|lia]. specialize (Hl t). rewrite add64_exact; lia.
Qed.

(** ** One request of the queue *)
Record fillable (vs : Vaults) (reqs : list BridgeAggWaitingUnshieldReq) : Prop := {
  fb_wf : wf_vaults vs;
  fb_data : ∀ r, r ∈ reqs → Forall wf_data (wr_data r);
  fb_vault : ∀ r d, r ∈ reqs → d ∈ wr_data r → is_Some (vs !! wd_IncTokenID d);
  fb_owed : ∀ t v, vs !! t = Some v → owed reqs t ≤ promised v }.

(** The requests that are left are in the queue of the clone, each once. *)
Record queued (c : State) (u : Hash) (reqs : list BridgeAggWaitingUnshieldReq) : Prop := {
  qd_once : NoDup (unshieldID <$> reqs);
  qd_ids : NoDup (unshieldID <$> reqsOf (waitingUnshieldReqs c) u);
  qd_in : ∀ r, r ∈ reqs → r ∈ reqsOf (waitingUnshieldReqs c) u }.

Lemma owed_cons r reqs t : owed (r :: reqs) t = dueTo t (wr_data r) + owed reqs t.
Proof. exact (list_sum_cons (λ r, dueTo t (wr_data r)) r reqs). Qed.

Lemma fillable_tail vs r reqs : fillable vs (r :: reqs) → fillable vs reqs.
Proof.
  intros [F1 F2 F3 F4]. split; [done|intros ? ?; apply F2; by right|intros ? ? ?; apply F3; by right|].
  intros t v Hv. specialize (F4 t v Hv). rewrite owed_cons in F4.
  pose proof (dueTo_nonneg t (wr_data r) (F2 r (list_elem_of_here _ _))). lia.
Qed.

Lemma queued_tail c u r reqs : queued c u (r :: reqs) → queued c u reqs.
Proof. intros [Q1 Q2 Q3]. apply NoDup_cons in Q1 as [_ Q1]. split; [done..|]. intros ? ?. apply Q3. by right. Qed.

(** Dequeuing the first one leaves the others. *)
Lemma queued_dequeued c c' u r reqs l : queued c u (r :: reqs) →
  removeReq (unshieldID r) (reqsOf (waitingUnshieldReqs c) u) = Some l →
  reqsOf (waitingUnshieldReqs c') u = l → queued c' u reqs.
Proof.
  intros [Q1 Q2 Q3] Hr El. apply NoDup_cons in Q1 as [Hnot Q1].
  pose proof (removeReq_unique _ _ _ Q2 (Q3 r (list_elem_of_here _ _)) Hr) as Hperm.
  split; [done| |]; rewrite El.
  - rewrite Hperm in Q2. by apply NoDup_cons in Q2 as [_ ?].
  - intros r' Hr'. pose proof (Q3 r' (list_elem_of_further _ _ _ Hr')) as Hin. rewrite Hperm in Hin.
    apply elem_of_cons in Hin as [->|]; [|done]. exfalso. apply Hnot. by apply list_elem_of_fmap_2.
Qed.

Section queue.
Context `{!ConfirmHash}.

(** What a turn of the loop does with the first request: it is paid, or left alone, and then the
    money it is owed may be reserved. *)
Record turn (u : Hash) (bh : Z) (r : BridgeAggWaitingUnshieldReq) (reqs : list BridgeAggWaitingUnshieldReq)
    (locked : gmap Hash Z) (c : State) (vs : Vaults) (paid : bool) (locked' : gmap Hash Z) (c' : State)
    (vs' : Vaults) : Prop := {
  tn_run : fillQueue u bh (r :: reqs) locked c =
    ('(insts, c2) ← fillQueue u bh reqs locked' c';
     Ok ((if paid : bool then buildBurningConfirmInsts r bh
            ++ [buildUnshieldInst u false r FilledStatusStr BridgeShardID] else []) ++ insts, c2));
  tn_vaults : unifiedTokenVaults c' = <[u := vs']> (unifiedTokenVaults c);
  tn_others : ∀ u', u' ≠ u → reqsOf (waitingUnshieldReqs c') u' = reqsOf (waitingUnshieldReqs c) u';
  tn_fillable : fillable vs' reqs;
  tn_queued : queued c' u reqs;
  tn_locked : ∀ t, 0 ≤ lookupAmt locked' t;
  tn_left : ∀ t v, vs !! t = Some v → lookupAmt locked t + dueTo t (wr_data r) < word64 →
    ∃ v', vs' !! t = Some v' ∧
      amount v - lookupAmt locked t - dueTo t (wr_data r) ≤ amount v' - lookupAmt locked' t }.


Lemma bind_skip {A B} (m : outcome (A * B)) (f : A → A) : (∀ a, f a = a) →
  m = ('(a, b) ← m; Ok (f a, b)).
Proof. intros Hf. destruct m as [[a b]| | |]; [cbn; by rewrite Hf|done..]. Qed.

Lemma fill_turn u bh r reqs locked c vs : unifiedTokenVaults c !! u = Some vs →
  fillable vs (r :: reqs) → queued c u (r :: reqs) → (∀ t, 0 ≤ lookupAmt locked t) →
  ∃ paid locked' c' vs', turn u bh r reqs locked c vs paid locked' c' vs' ∧
    (NoDup (wd_IncTokenID <$> wr_data r) → (∀ d, d ∈ wr_data r → affordable vs locked (λ _, 0) d) → paid = true).
Proof.
  intros Hu Hf Hq Hl. pose proof (fb_data _ _ Hf r (list_elem_of_here _ _)) as Hds.
  pose proof (λ d, fb_vault _ _ Hf r d (list_elem_of_here _ _)) as Hvs.
  pose proof (fb_wf _ _ Hf) as Hwf. pose proof (fillable_tail _ _ _ Hf) as Hft.
  pose proof (queued_tail _ _ _ _ Hq) as Hqt.
  destruct (vaultsEnough_Ok vs (wr_data r) locked Hvs) as [enough Hen].
  assert (unifiedTokenVaults c = <[u := vs]> (unifiedTokenVaults c)) as Eid by by rewrite insert_id.
  destruct enough; [|
    exists false, (foldl lockData locked (wr_data r)), c, vs; split; [split; try done|]].
  2: { cbn [fillQueue]. rewrite Hu. unfold checkVaultForWaitUnshieldReq. rewrite Hen. cbn. by apply bind_skip. }
  2: { by apply lockData_at. }
  2: { intros t v Hv Hlt. exists v. split; [done|].
    destruct (lockData_at (wr_data r) locked t Hds Hl) as [_ ->]; [lia|done]. }
  2: { intros _ Haff. by rewrite (vaultsEnough_true _ _ _ Hwf Hl Haff) in Hen. }
  destruct (removeReq_Some r _ (qd_in _ _ _ Hq r (list_elem_of_here _ _))) as [l Hrm].
  pose proof (run_filled u r c) as Hrun.
  rewrite (proj2 (CloneVaults_Ok c u vs) Hu), Hrm in Hrun. cbv zeta in Hrun.
  pose proof (updateVaults_returns matchedWaitMethods vs (wr_data r)
    (λ d, proj2 (proj2 (methods_neverPanic d))) Hvs) as Hret.
  fold (updateStateForMatchedWaitUnshieldReq vs r) in Hret.
  assert (∀ m, m = dequeued u r l c ∨ (∃ ws, m = with_vaults (<[u := ws]> (unifiedTokenVaults c)) (dequeued u r l c)) →
    queued m u reqs ∧ ∀ u', u' ≠ u → reqsOf (waitingUnshieldReqs m) u' = reqsOf (waitingUnshieldReqs c) u') as Hm.
  { intros m Hm. assert (waitingUnshieldReqs m = <[u := l]> (waitingUnshieldReqs c)) as Em
      by by destruct Hm as [->|[ws ->]].
    split.
    - eapply queued_dequeued; [exact Hq|exact Hrm|]. by rewrite Em, reqsOf_insert, decide_True.
    - intros u' Hne. by rewrite Em, reqsOf_insert, decide_False. }
  destruct (updateStateForMatchedWaitUnshieldReq vs r) as [vs'|e| |] eqn:Hup; [| |done..].
  - destruct (matchedWait_vaults vs r (λ t, from_option promised 0 (vs !! t)) vs' Hds Hwf) as (Hwf' & Hp' & _);
      [by intros t v ->|done|].
    destruct (updateVaults_dom _ _ _ _ Hup) as [Hdom _].
    destruct (Hm (with_vaults (<[u := vs']> (unifiedTokenVaults c)) (dequeued u r l c))) as [Hq' Ho']; [by right; eexists|].
    exists true, locked, (with_vaults (<[u := vs']> (unifiedTokenVaults c)) (dequeued u r l c)), vs'.
    split; [|done]. split; [|done|done| |done|done|].
    + cbn [fillQueue]. rewrite Hu. unfold checkVaultForWaitUnshieldReq. rewrite Hen. cbn [mbind outcome_bind negb].
      rewrite Hrun. destruct (fillQueue _ _ _ _ _) as [[insts c2]| | |]; [|done..]. cbn.
      by rewrite <- app_assoc.
    + split; [done|apply Hft| |].
      * intros r' d Hr' Hd. apply elem_of_dom. rewrite Hdom. apply elem_of_dom. by apply (fb_vault _ _ Hft r').
      * intros t v' Hv'. rewrite (Hp' t v' Hv').
        assert (is_Some (vs !! t)) as [v Hv] by (apply elem_of_dom; rewrite <- Hdom; apply elem_of_dom; eauto).
        rewrite Hv. cbn. pose proof (fb_owed _ _ Hf t v Hv) as Ho. rewrite owed_cons in Ho. lia.
    + intros t v Hv _. destruct (matchedWait_amounts _ _ _ Hds Hwf Hup t v Hv) as (v' & ? & E).
      exists v'. split; [done|]. lia.
  - destruct (Hm (dequeued u r l c)) as [Hq' Ho']; [by left|].
    exists false, locked, (dequeued u r l c), vs. split; [split; [|done|done|done|done|done|]|].
    + cbn [fillQueue]. rewrite Hu. unfold checkVaultForWaitUnshieldReq. rewrite Hen. cbn [mbind outcome_bind negb].
      rewrite Hrun. by apply bind_skip.
    + intros t v Hv _. exists v. split; [done|]. pose proof (dueTo_nonneg t (wr_data r) Hds). lia.
    + intros Hnd Haff. exfalso.
      destruct (matchedWait_vaults_total vs (wr_data r) Hds Hwf Hnd) as [ws Hws].
      2: { unfold updateStateForMatchedWaitUnshieldReq in Hup. congruence. }
      intros d Hd. destruct (Haff d Hd) as (v & Hv & Hpos & Ha). exists v. specialize (Hl (wd_IncTokenID d)).
      split; [done|]. split; [lia|]. pose proof (fb_owed _ _ Hf _ v Hv) as Ho. rewrite owed_cons in Ho.
      pose proof (dueTo_elem _ d _ Hds Hd eq_refl).
      assert (0 ≤ owed reqs (wd_IncTokenID d)); [|lia]. apply list_sum_nonneg, Forall_forall. intros r' Hr'.
      apply dueTo_nonneg, (fb_data _ _ Hft r' Hr').
Qed.

(** ** The queue of a token *)
Definition elsewhere (u : Hash) (c c' : State) : Prop := ∀ u', u' ≠ u →
  unifiedTokenVaults c' !! u' = unifiedTokenVaults c !! u' ∧
  reqsOf (waitingUnshieldReqs c') u' = reqsOf (waitingUnshieldReqs c) u'.

Lemma turn_elsewhere u bh r reqs locked c vs paid locked' c' vs' :
  turn u bh r reqs locked c vs paid locked' c' vs' → elsewhere u c c'.
Proof.
  intros Ht u' Hne. rewrite (tn_vaults _ _ _ _ _ _ _ _ _ _ _ Ht), lookup_insert_ne by done.
  split; [done|]. by apply (tn_others _ _ _ _ _ _ _ _ _ _ _ Ht).
Qed.

(** What is written for a request that is paid. *)
Definition paysOut (u : Hash) (bh : Z) (r : BridgeAggWaitingUnshieldReq) (insts : list BeaconInst) : Prop :=
  buildUnshieldInst u false r FilledStatusStr BridgeShardID ∈ insts ∧
  ∀ i, i ∈ buildBurningConfirmInsts r bh → i ∈ insts.

Lemma paysOut_app u bh r a b : paysOut u bh r a ∨ paysOut u bh r b → paysOut u bh r (a ++ b).
Proof.
  intros [[P1 P2]|[P1 P2]]; split; intros; apply elem_of_app; auto.
Qed.

(** The loop ends, and what it does to the queue of a token stays there. *)
Lemma fillQueue_total u bh reqs locked c :
  (∀ vs, unifiedTokenVaults c !! u = Some vs → fillable vs reqs) → queued c u reqs →
  (∀ t, 0 ≤ lookupAmt locked t) →
  ∃ insts c', fillQueue u bh reqs locked c = Ok (insts, c') ∧ elsewhere u c c'.
Proof.
  revert locked c. induction reqs as [|r reqs IH]; intros locked c Hf Hq Hl; [by exists [], c|].
  destruct (unifiedTokenVaults c !! u) as [vs|] eqn:Hu.
  - destruct (fill_turn u bh r reqs locked c vs Hu (Hf vs eq_refl) Hq Hl) as (paid & locked' & c1 & vs' & Ht & _).
    destruct (IH locked' c1) as (insts & c' & Hr & Ho).
    + intros vs1 Hvs1. rewrite (tn_vaults _ _ _ _ _ _ _ _ _ _ _ Ht), lookup_insert_eq in Hvs1.
      injection Hvs1 as <-. apply Ht.
    + apply Ht.
    + apply Ht.
    + rewrite (tn_run _ _ _ _ _ _ _ _ _ _ _ Ht), Hr. cbn. eexists _, c'. split; [done|].
      intros u' Hne. destruct (Ho u' Hne) as [-> ->]. by apply (turn_elsewhere _ _ _ _ _ _ _ _ _ _ _ Ht).
  - cbn [fillQueue]. rewrite Hu. apply IH; [by rewrite Hu|by eapply queued_tail|done].
Qed.

(** A request is paid when its vaults hold what is ahead of it and itself. *)
Lemma fillQueue_pays u bh q1 req q2 locked c vs insts c' : unifiedTokenVaults c !! u = Some vs →
  fillable vs (q1 ++ req :: q2) → queued c u (q1 ++ req :: q2) → (∀ t, 0 ≤ lookupAmt locked t) →
  NoDup (wd_IncTokenID <$> wr_data req) →
  (∀ d, d ∈ wr_data req → affordable vs locked (owed q1) d) →
  fillQueue u bh (q1 ++ req :: q2) locked c = Ok (insts, c') → paysOut u bh req insts.
Proof.
  intros Hu Hf Hq Hl Hnd. revert locked c vs insts c' Hu Hf Hq Hl.
  induction q1 as [|h q1 IH]; intros locked c vs insts c' Hu Hf Hq Hl Haff; cbn [app] in *;
    destruct (fill_turn u bh _ _ locked c vs Hu Hf Hq Hl) as (paid & locked' & c1 & vs' & Ht & Hpaid);
    rewrite (tn_run _ _ _ _ _ _ _ _ _ _ _ Ht); intros ([i2 c2] & Hr & [= <- <-])%outcome_bind_Ok.
  - rewrite Hpaid by done. apply paysOut_app. left. split; [|intros]; apply elem_of_app; [right|by left].
    by apply list_elem_of_singleton.
  - apply paysOut_app. right.
    eapply (IH locked' c1 vs'); [|apply Ht|apply Ht|apply Ht| |exact Hr].
    + rewrite (tn_vaults _ _ _ _ _ _ _ _ _ _ _ Ht). apply lookup_insert_eq.
    + intros d Hd. destruct (Haff d Hd) as (v & Hv & Hpos & Ha). rewrite owed_cons in Ha.
      pose proof (fb_data _ _ Hf h (list_elem_of_here _ _)) as Hds.
      assert (0 ≤ owed q1 (wd_IncTokenID d)) as Ho.
      { apply list_sum_nonneg, Forall_forall. intros r' Hr'. apply dueTo_nonneg, (fb_data _ _ Hf r').
        right. apply elem_of_app. by left. }
      destruct (map_Forall_lookup_1 _ _ _ _ (fb_wf _ _ Hf) Hv) as [[Hav _ _ _ _ _] _]. unfold in_u64 in Hav.
      destruct (tn_left _ _ _ _ _ _ _ _ _ _ _ Ht (wd_IncTokenID d) v Hv) as (v' & Hv' & Hleft); [lia|].
      exists v'. split; [done|]. split; [done|]. lia.
Qed.

Lemma wf_fillable s u vs : wf_state s → unifiedTokenVaults s !! u = Some vs →
  fillable vs (reqsOf (waitingUnshieldReqs s) u).
Proof.
  intros Hs Hu. destruct (ws_vaults s Hs u vs Hu) as [Hw Hp]. split; [done| | |].
  - intros r Hr. by apply (ws_reqs s Hs u r).
  - intros r d Hr Hd. by apply (queue_vaults s u vs Hs Hu r Hr).
  - intros t v Hv. by rewrite (Hp t v Hv).
Qed.

Lemma wf_queued s u : wf_state s → queued s u (reqsOf (waitingUnshieldReqs s) u).
Proof. intros Hs. split; [apply (ws_ids s Hs)..|done]. Qed.

(** ** All tokens *)
Definition untouchedAt (s c : State) (u : Hash) : Prop :=
  unifiedTokenVaults c !! u = unifiedTokenVaults s !! u ∧
  reqsOf (waitingUnshieldReqs c) u = reqsOf (waitingUnshieldReqs s) u.

Lemma lookupAmt_empty t : 0 ≤ lookupAmt ∅ t.
Proof. unfold lookupAmt. by rewrite lookup_empty. Qed.

Lemma fillable_at s c u vs : wf_state s → untouchedAt s c u → unifiedTokenVaults c !! u = Some vs →
  fillable vs (reqsOf (waitingUnshieldReqs s) u) ∧ queued c u (reqsOf (waitingUnshieldReqs s) u).
Proof.
  intros Hs [E1 E2] Hu. split; [apply wf_fillable; [done|congruence]|].
  destruct (wf_queued s u Hs) as [Q1 Q2 Q3]. split; rewrite ?E2; done.
Qed.

Lemma fillTokens_total s order bh c : wf_state s → NoDup order → (∀ u, u ∈ order → untouchedAt s c u) →
  ∃ insts c', fillTokens order bh (waitingUnshieldReqs s) c = Ok (insts, c').
Proof.
  intros Hs. revert c. induction order as [|u order IH]; intros c Hnd Hun; [by exists [], c|].
  apply NoDup_cons in Hnd as [Hnot Hnd]. pose proof (Hun u (list_elem_of_here _ _)) as [E1 E2]. cbn.
  destruct (fillQueue_total u bh (reqsOf (waitingUnshieldReqs s) u) ∅ c) as (i1 & c1 & -> & Ho).
  - intros vs Hvs. apply wf_fillable; [done|congruence].
  - destruct (wf_queued s u Hs) as [Q1 Q2 Q3]. split; rewrite ?E2; done.
  - apply lookupAmt_empty.
  - cbn. destruct (IH c1 Hnd) as (i2 & c2 & ->); [|cbn; eauto].
    intros u' Hu'. destruct (Hun u' (list_elem_of_further _ _ _ Hu')) as [E3 E4].
    destruct (Ho u') as [E5 E6]; [by intros ->|]. split; congruence.
Qed.

Lemma fillTokens_pays s order bh c u q1 req q2 vs insts c' : wf_state s → NoDup order →
  (∀ u, u ∈ order → untouchedAt s c u) → u ∈ order → unifiedTokenVaults s !! u = Some vs →
  reqsOf (waitingUnshieldReqs s) u = q1 ++ req :: q2 → NoDup (wd_IncTokenID <$> wr_data req) →
  (∀ d, d ∈ wr_data req → affordable vs ∅ (owed q1) d) →
  fillTokens order bh (waitingUnshieldReqs s) c = Ok (insts, c') → paysOut u bh req insts.
Proof.
  intros Hs Hnd Hun Hin Hu Hq Hndr Haff. revert c insts c' Hnd Hun Hin.
  induction order as [|u0 order IH]; intros c insts c' Hnd Hun Hin; [by apply not_elem_of_nil in Hin|].
  apply NoDup_cons in Hnd as [Hnot Hnd]. cbn. pose proof (Hun u0 (list_elem_of_here _ _)) as Hun0.
  intros ([i1 c1] & Hf & Hr)%outcome_bind_Ok. apply outcome_bind_Ok in Hr as ([i2 c2] & Hr & [= <- <-]).
  apply paysOut_app. apply elem_of_cons in Hin as [->|Hin].
  - left. destruct Hun0 as [E1 E2]. destruct (fillable_at s c u0 vs Hs) as [F Q]; [done|congruence|].
    rewrite Hq in F, Q, Hf. eapply (fillQueue_pays u0 bh q1 req q2 ∅ c vs); [congruence|done..|exact Hf].
  - right. eapply IH; [exact Hnd| |exact Hin|exact Hr]. intros u' Hu'.
    destruct (Hun u' (list_elem_of_further _ _ _ Hu')) as [E3 E4].
    destruct (fillQueue_total u0 bh (reqsOf (waitingUnshieldReqs s) u0) ∅ c) as (j1 & d1 & Hf1 & Ho).
    + intros vs0 Hvs0. destruct Hun0. apply wf_fillable; [done|congruence].
    + destruct Hun0 as [_ E2]. destruct (wf_queued s u0 Hs) as [Q1 Q2 Q3]. split; rewrite ?E2; done.
    + apply lookupAmt_empty.
    + rewrite Hf in Hf1. injection Hf1 as <- <-. destruct (Ho u') as [E5 E6]; [by intros ->|]. split; congruence.
Qed.

(** C12: no waiting request starves.  In a well-formed state of the bridge (the invariant that
    every block preserves), handling the queue of a block ends without an error or a panic, in
    whatever order the tokens come and whatever waits; and it pays every request with at least
    one entry, with at most one entry per vault and positive amounts to receive, whose vaults
    hold what the requests ahead of it and the request itself are owed: its confirmations and its
    filled instruction are among the instructions. *)
Theorem waiting_request_paid order bh s :
  wf_state s → mapOrder (waitingUnshieldReqs s) order →
  ∃ insts s', handleWaitingUnshieldReqs order bh s = (Ok insts, s') ∧
  ∀ u q1 req q2,
    reqsOf (waitingUnshieldReqs s) u = q1 ++ req :: q2 → NoDup (wd_IncTokenID <$> wr_data req) →
    (∀ d, d ∈ wr_data req → ∃ v, vaultOf s u (wd_IncTokenID d) = Some v ∧ 0 < receivedAmount d ∧
       owed q1 (wd_IncTokenID d) + receivedAmount d ≤ amount v) →
    wr_data req ≠ [] →
    buildUnshieldInst u false req FilledStatusStr BridgeShardID ∈ insts ∧
    ∀ i, i ∈ buildBurningConfirmInsts req bh → i ∈ insts.
Proof.
  intros Hs Hord.
  assert (NoDup order) as Hndo by (rewrite Hord; apply NoDup_fst_map_to_list).
  assert (∀ u', u' ∈ order → untouchedAt s (Clone s) u') as Hun by done.
  destruct (fillTokens_total s order bh (Clone s) Hs Hndo Hun) as (insts & c' & Hf).
  exists insts, c'. split; [unfold handleWaitingUnshieldReqs; rewrite getS_bind; unfold mbind, M_bind, lift; by rewrite Hf|].
  intros u q1 req q2 Hq Hnd Haff Hne.
  assert (u ∈ order) as Hin.
  { rewrite Hord. unfold reqsOf in Hq. destruct (waitingUnshieldReqs s !! u) as [q|] eqn:E; [|by destruct q1].
    apply list_elem_of_fmap. exists (u, q). by rewrite elem_of_map_to_list. }
  assert (∃ vs, unifiedTokenVaults s !! u = Some vs) as [vs Hu].
  { destruct (wr_data req) as [|d ds]; [done|]. destruct (Haff d (list_elem_of_here _ _)) as (v & Hv & _).
    unfold vaultOf in Hv. destruct (unifiedTokenVaults s !! u); [eauto|done]. }
  eapply (fillTokens_pays s order bh (Clone s) u q1 req q2 vs); [done..| |exact Hf].
  intros d Hd. destruct (Haff d Hd) as (v & Hv & Hpos & Ha). exists v. unfold vaultOf in Hv. rewrite Hu in Hv.
  unfold lookupAmt. rewrite lookup_empty. cbn. split; [done|]. split; [done|]. lia.
Qed.
End queue.

(** ** The example: after the second deposit the waiting request can be paid *)
#[local] Existing Instances mainnetBridgeAggParam mainnet_good exAddress exConfirm exRegistry exEVM.

Definition exShieldRun : outcome (list BeaconInst) * (State * AccumulatedValues) :=
  shield exDB2 (exShield "tx4" "p2" "d1000" ETHNetworkID exToken).2 0 (exSt2, emptyAC).
Definition exShieldInsts : list BeaconInst := match exShieldRun.1 with Ok i => i | _ => [] end.
Definition exNode3 : ProcState := (processInsts exShieldInsts (mkProcState exSt2 exDB2 [] ∅ ∅)).2.
Definition exWaiting : BridgeAggWaitingUnshieldReq :=
  mkWaitingReq "tx3" [mkWaitingData exToken 900 "00" 1 exExternal 899 241] 11.

Lemma run_Ok {S A} (r : outcome (list A) * S) : succeeds r.1 = true →
  r = (Ok (match r.1 with Ok i => i | _ => [] end), r.2).
Proof. by destruct r as [[?| | |] ?]. Qed.

Lemma exNode3_wf : wf_state (ps_state exNode3).
Proof.
  assert (exShieldRun = (Ok exShieldInsts, exShieldRun.2)) as Hrun
    by (apply (run_Ok exShieldRun); vm_compute; reflexivity).
  assert (unmixed exShieldInsts) as Hun by (apply (bool_decide_unpack _); vm_compute; exact I).
  pose proof (proj1 (chain_ledger _ _ _ default_u64 exChain2)) as [C1 C2 C3].
  destruct (exShieldRun.2) as [s' ac'] eqn:E2.
  destruct (sound_shield exDB2 _ 0 exSt2 emptyAC exShieldInsts s' ac' (mkProcState exSt2 exDB2 [] ∅ ∅) Hun Hrun)
    as (p' & Hp & [_ Hg _ _ _ _]); [by split|by split|].
  unfold exNode3. rewrite Hp. apply Hg.
Qed.

Lemma exNode3_queue : reqsOf (waitingUnshieldReqs (ps_state exNode3)) exUnified = [] ++ exWaiting :: [] ∧
  (map_to_list (waitingUnshieldReqs (ps_state exNode3))).*1 = [exUnified] ∧
  (λ v, amount v) <$> vaultOf (ps_state exNode3) exUnified exToken = Some 1700.
Proof. split_and!; vm_compute; reflexivity. Qed.

Lemma waiting_request_paid_witness : ∃ insts s',
  handleWaitingUnshieldReqs [exUnified] 13 (ps_state exNode3) = (Ok insts, s') ∧
  buildUnshieldInst exUnified false exWaiting FilledStatusStr BridgeShardID ∈ insts.
Proof.
  destruct exNode3_queue as (Hq & Ho & Hv).
  destruct (waiting_request_paid [exUnified] 13 (ps_state exNode3) exNode3_wf) as (insts & s' & Hr & Hpaid).
  - unfold mapOrder. by rewrite Ho.
  - exists insts, s'. split; [exact Hr|].
    refine (proj1 (Hpaid exUnified [] exWaiting [] Hq _ _ _)); [apply NoDup_singleton| |discriminate].
    intros d ->%list_elem_of_singleton. apply fmap_Some_1 in Hv as (v & Hv & Ha). exists v.
    split; [exact Hv|]. rewrite <- Ha. split; reflexivity || (unfold owed, list_sum; cbn; vm_compute; discriminate).
Defined.
