(* ===== verification/BridgeRequests.v ===== *)
(** A new unshield request on every branch: it is rejected and refunded, paid at once, or queued. *)
From S2P Require Import Prelude Hash InstructionText BridgeVault BridgeDB BridgeState BridgeInvariant BridgeProducer BridgeCall BridgeShield BridgeProcessor BridgeSound BridgeShieldSound BridgeBlock BridgeExample BridgeSolvency.
From Stdlib Require Import String.

Local Open Scope Z_scope.

Definition burned (u : Hash) (insts : list BeaconInst) : Z := list_sum (burnedBy u) insts.
Definition refunded (u : Hash) (insts : list BeaconInst) : Z := list_sum (refundedBy u) insts.

Lemma confirms_settle u insts : Forall isConfirm insts → burned u insts = 0 ∧ refunded u insts = 0.
Proof.
  induction 1 as [|i l Hi _ [IH1 IH2]]; [done|]. unfold burned, refunded in *.
  rewrite !list_sum_cons, IH1, IH2. by destruct i.
Qed.

Section requests.
Context `{!BridgeAggParam, !GoodBridgeAggParam, !ConfirmHash}.

(** An entry that passed the check has its vault. *)
Lemma checked_vaults db vs dep percent datas locked enough wds :
  checkNewEntries db vs dep percent datas locked = Ok (enough, wds) →
  ∀ d, d ∈ wds → is_Some (vs !! wd_IncTokenID d).
Proof.
  revert locked enough wds. induction datas as [|d datas IH]; intros locked enough wds; cbn [checkNewEntries].
  { by intros [= _ <-] ? ?%not_elem_of_nil. }
  intros ([[e wd] l1] & Hone & Hr)%outcome_bind_Ok. apply outcome_bind_Ok in Hr as ([e2 wds2] & Hrest & [= _ <-]).
  intros d' [->|Hd']%elem_of_cons; [|by eapply IH].
  unfold checkNewEntry in Hone. destruct (vs !! ud_IncTokenID d) as [v|] eqn:Hv; [|done].
  apply outcome_bind_Ok in Hone as ([[en fee] l2] & _ & Hone). destruct (_ && _); [done|].
  cbv zeta in Hone. destruct (_ <? _); [done|].
  apply outcome_bind_Ok in Hone as (pre & _ & Hone). apply outcome_bind_Ok in Hone as (ext & _ & Hone).
  apply outcome_bind_Ok in Hone as (amt & _ & Hone). destruct (amt =? 0); [done|].
  apply outcome_bind_Ok in Hone as (ty & _ & [= _ <- _]). cbn. eauto.
Qed.

Lemma updateState_returns u req st s vs : knownStatus st → unifiedTokenVaults s !! u = Some vs →
  (∀ d, d ∈ wr_data req → is_Some (vs !! wd_IncTokenID d)) → st ≠ FilledStatusStr →
  returns (updateStateForUnshield u req st s).1.
Proof.
  intros Hst Hu Hds Hnf. apply CloneVaults_Ok in Hu.
  destruct Hst as [->|[->| ->]]; [rewrite run_waiting|rewrite run_accepted|done]; rewrite Hu.
  - pose proof (updateVaults_returns newWaitingMethods vs (wr_data req) (λ d, proj1 (methods_neverPanic d)) Hds) as Hr.
    fold (updateStateForNewWaitingUnshieldReq vs req) in Hr.
    by destruct (updateStateForNewWaitingUnshieldReq vs req).
  - pose proof (updateVaults_returns newMatchedMethods vs (wr_data req) (λ d, proj1 (proj2 (methods_neverPanic d))) Hds) as Hr.
    fold (updateStateForNewMatchedUnshieldReq vs req) in Hr.
    by destruct (updateStateForNewMatchedUnshieldReq vs req).
Qed.

Lemma sum64_exact l : Forall (λ x, 0 ≤ x) l → list_sum id l < word64 → sum64 l = list_sum id l.
Proof.
  unfold sum64. intros Hl. assert (∀ acc, 0 ≤ acc → acc + list_sum id l < word64 →
    foldl add64 acc l = acc + list_sum id l) as Hgen; [|intros; by rewrite Hgen; lia].
  induction Hl as [|x l Hx Hl IH]; intros acc Ha Hlt; [cbn; unfold list_sum; cbn; lia|].
  rewrite list_sum_cons in *. unfold id at 1 in Hlt. cbn [foldl].
  assert (0 ≤ list_sum id l) by by apply list_sum_nonneg.
  assert (add64 acc x = acc + x) as -> by (apply u64_small; unfold in_u64; lia).
  rewrite IH by lia. unfold id at 2. lia.
Qed.

Lemma saneAmounts_sum64 datas : saneAmounts datas →
  sum64 (ud_BurningAmount <$> datas) = list_sum ud_BurningAmount datas.
Proof.
  intros [Hpos Htot]. assert (list_sum id (ud_BurningAmount <$> datas) = list_sum ud_BurningAmount datas) as E
    by by rewrite list_sum_fmap.
  rewrite sum64_exact, E; [done| |by rewrite E]. apply Forall_fmap. eapply Forall_impl; [exact Hpos|].
  cbn. lia.
Qed.

(** What the instructions of a request say about the tokens its transaction burned. *)
Record settles (u : Hash) (total b r : Z) (insts : list BeaconInst) : Prop := {
  st_burned : burned u insts = b;
  st_refunded : refunded u insts = r;
  st_total : b + r = total }.

Lemma reject_settles a code : saneAmounts (ur_Data (ua_Meta a)) →
  settles (ur_UnifiedTokenID (ua_Meta a)) (list_sum ud_BurningAmount (ur_Data (ua_Meta a))) 0
    (list_sum ud_BurningAmount (ur_Data (ua_Meta a)))
    [buildRejectedUnshieldReqInst (ua_Meta a) (ua_ShardID a) (ua_TxReqID a) code].
Proof.
  intros Hsane. split; unfold burned, refunded, list_sum; cbn; [done| |unfold list_sum; lia].
  unfold forToken. rewrite decide_True by done. rewrite saneAmounts_sum64 by done. unfold list_sum. lia.
Qed.

Lemma inst_settles u dep req st sid cf : u ≠ emptyHash → st ≠ FilledStatusStr → Forall isConfirm cf →
  settles u (burnedOf (wr_data req)) (burnedOf (wr_data req)) 0 (cf ++ [buildUnshieldInst u dep req st sid]).
Proof.
  intros Hne Hst Hcf. destruct (confirms_settle u cf Hcf) as [E1 E2]. unfold burned, refunded in *.
  split; unfold burned, refunded; rewrite ?list_sum_app, ?E1, ?E2; unfold list_sum; cbn; [|done|lia].
  rewrite bool_decide_false by done. rewrite bool_decide_false by done. cbn. unfold forToken.
  rewrite decide_True by done. lia.
Qed.

(** C13: a new unshield request on every branch.  The handler always returns.  Either the request
    is rejected, the state stays as it was and everything that was burned is refunded; or it is
    paid at once, without a fee, one confirmation per entry, and nothing is queued; or it joins
    the end of the queue and nothing is confirmed.  Every entry of an accepted or waiting request
    leaves at least the amount its user asked for.  What was burned is either refunded or counted
    as burned, never both and never neither. *)
Theorem unshield_settles db a bh s :
  wf_state s → param s ≠ None → ur_UnifiedTokenID (ua_Meta a) ≠ emptyHash → saneAmounts (ur_Data (ua_Meta a)) →
  let u := ur_UnifiedTokenID (ua_Meta a) in
  let total := list_sum ud_BurningAmount (ur_Data (ua_Meta a)) in
  let req wds := mkWaitingReq (ua_TxReqID a) wds (ua_BeaconHeight a) in
  let inst wds st := buildUnshieldInst u (ur_IsDepositToSC (ua_Meta a)) (req wds) st (ua_ShardID a) in
  ∃ insts s', unshield db a bh s = (Ok insts, s') ∧
  ((∃ code, insts = [buildRejectedUnshieldReqInst (ua_Meta a) (ua_ShardID a) (ua_TxReqID a) code] ∧
      s' = s ∧ settles u total 0 total insts) ∨
   ∃ wds, Forall2 checked (ur_Data (ua_Meta a)) wds ∧ settles u total total 0 insts ∧
     ((Forall (λ wd, wd_Fee wd = 0) wds ∧
       insts = buildBurningConfirmInsts (req wds) bh ++ [inst wds AcceptedStatusStr] ∧
       waitingUnshieldReqs s' = waitingUnshieldReqs s) ∨
      (ur_IsDepositToSC (ua_Meta a) = false ∧ insts = [inst wds WaitingStatusStr] ∧
       reqsOf (waitingUnshieldReqs s') u = reqsOf (waitingUnshieldReqs s) u ++ [req wds]))).
Proof.
  intros Hs Hpar Hne Hsane u total req inst.
  pose proof (λ code, reject_settles a code Hsane) as Hrej.
  unfold unshield. rewrite getS_bind. cbv zeta. unfold orReject at 1.
  change (CloneVaultsByUnifiedTokenID (Clone s) (ur_UnifiedTokenID (ua_Meta a))) with
    (CloneVaultsByUnifiedTokenID s u).
  unfold CloneVaultsByUnifiedTokenID. destruct (unifiedTokenVaults s !! u) as [vs|] eqn:Hu.
  2: { eexists _, s. split; [reflexivity|]. left. eauto. }
  destruct (param s) as [percent|] eqn:Epar; [|done].
  assert (PercentFeeWithDec (Clone s) = Ok percent) as Ep by (unfold PercentFeeWithDec; cbn; by rewrite Epar).
  unfold mbind, M_bind, lift. rewrite Ep.
  destruct (ws_vaults s Hs u vs Hu) as [Hwv _]. pose proof (ws_param s Hs percent Epar) as Hpu.
  pose proof Hsane as [Hpos Htot].
  assert (returns (checkVaultForNewUnshieldReq vs (ur_Data (ua_Meta a)) (ur_IsDepositToSC (ua_Meta a)) percent db)) as Hret.
  { apply checkNewEntries_returns; [done..| |]; intros t; unfold lookupAmt; rewrite lookup_empty; cbn; lia. }
  unfold orReject. destruct (checkVaultForNewUnshieldReq _ _ _ _ _) as [[enough wds]|e| |] eqn:Hck;
    [|eexists _, s; split; [reflexivity|]; left; by eauto|done..].
  destruct (checkVault_spec _ _ _ _ _ _ _ Hwv Hpu Hsane Hck) as (Hall & Hds & Hb & Hdep & Hen).
  pose proof (checked_vaults _ _ _ _ _ _ _ _ Hck) as Hvs.
  pose proof (updateState_returns u (req wds) (if enough then AcceptedStatusStr else WaitingStatusStr) (Clone s) vs) as Hr.
  assert (knownStatus (if enough then AcceptedStatusStr else WaitingStatusStr)) as Hk
    by (destruct enough; [by right; left|by left]).
  specialize (Hr Hk Hu Hvs ltac:(by destruct enough)). unfold commitOr. fold u. fold (req wds).
  destruct (updateStateForUnshield u (req wds) _ (Clone s)) as [[[]|e| |] s1] eqn:Hup;
    [|eexists _, s; split; [reflexivity|]; left; by eauto|done..].
  eexists _, s1. split; [reflexivity|]. right. exists wds. split; [done|].
  split; [unfold total; rewrite <- Hb; apply (inst_settles u _ (req wds)); [done|by destruct enough|];
    destruct enough; [apply buildBurningConfirm_confirms|constructor]|].
  destruct enough.
  - left. destruct (Hen eq_refl) as [Hfee _]. split; [done|]. split; [done|].
    rewrite run_accepted in Hup. rewrite (proj2 (CloneVaults_Ok (Clone s) u vs) Hu) in Hup.
    destruct (updateStateForNewMatchedUnshieldReq _ _); [|done..]. by injection Hup as <-.
  - right. split; [by destruct (ur_IsDepositToSC (ua_Meta a)); [specialize (Hdep eq_refl)|]|]. split; [done|].
    rewrite run_waiting in Hup. rewrite (proj2 (CloneVaults_Ok (Clone s) u vs) Hu) in Hup.
    destruct (updateStateForNewWaitingUnshieldReq _ _); [|done..]. injection Hup as <-. cbn.
    by rewrite reqsOf_insert, decide_True.
Qed.
End requests.

#[local] Existing Instances mainnetBridgeAggParam mainnet_good exAddress exConfirm exRegistry exEVM.

Lemma unshield_settles_witness : param exSt2 ≠ None ∧ ∃ insts s',
  unshield exDB2 (mkUnshieldAction (mkUnshieldRequest exUnified [mkUnshieldData exToken 100 0 "00"] "alice" false)
                    "tx5" 0 12) 13 exSt2 = (Ok insts, s') ∧
  burned exUnified insts + refunded exUnified insts = 100.
Proof.
  assert (param exSt2 ≠ None) as Hp by (vm_compute; discriminate). split; [exact Hp|].
  edestruct (unshield_settles exDB2 (mkUnshieldAction (mkUnshieldRequest exUnified
    [mkUnshieldData exToken 100 0 "00"] "alice" false) "tx5" 0 12) 13 exSt2) as (insts & s' & Hr & Hc).
  - apply (proj1 (chain_ledger _ _ _ default_u64 exChain2)).
  - exact Hp.
  - discriminate.
  - exact (exUnshield_sane "tx5" exToken 100 12 ltac:(split; reflexivity)).
  - exists insts, s'. split; [exact Hr|].
    destruct Hc as [(? & _ & _ & [Eb Er _])|(? & _ & [Eb Er _] & _)];
      exact (eq_trans (f_equal2 Z.add Eb Er) eq_refl).
Defined.
