(* ===== verification/BridgeDivergence.v ===== *)
(** Where the bridge aggregator does something else than it means to: each theorem runs the
    definitions on a small concrete case. *)
From S2P Require Import Prelude Hash InstructionText BridgeVault BridgeDB BridgeState BridgeInvariant BridgeProducer BridgeCall BridgeShield BridgeProcessor BridgeSound BridgeShieldSound BridgeBlock BridgeExample BridgeSolvency BridgeOnce.
From Stdlib Require Import Ascii String.

Local Open Scope Z_scope.

#[local] Existing Instances mainnetBridgeAggParam exAddress exConfirm exRegistry exEVM.

(** ** A deposit credited twice

    Two requests of one block prove the same deposit.  On Ethereum the second one is rejected. *)
Definition twiceBlock (checkpoint net : Z) (receipt : string) (tok : Hash) :=
  exBlock NewState emptyDB [] 11 (exTrigger checkpoint 10)
    (mkBlockActions [] [exShield "tx1" "p1" receipt net tok; exShield "tx2" "p1" receipt net tok] []) [].

Theorem twice_on_ethereum : succeeds (twiceBlock 1 ETHNetworkID "d1000" exToken) = true ∧
  credited (resultOf (twiceBlock 1 ETHNetworkID "d1000" exToken)).1 = [(ETHNetworkID, "p10"%string)].
Proof. split; vm_compute; reflexivity. Qed.

(** On Avalanche, whose list of used transactions the clone of the accumulated values drops,
    a block that proves one deposit in two requests credits it twice: both requests are accepted,
    every node processes the block, and the amount is minted twice. *)
Theorem twice_on_avalanche : succeeds (twiceBlock 2 AVAXNetworkID "e1000" exToken2) = true ∧
  credited (resultOf (twiceBlock 2 AVAXNetworkID "e1000" exToken2)).1 =
    [(AVAXNetworkID, "p10"%string); (AVAXNetworkID, "p10"%string)] ∧
  netMint exUnified (resultOf (twiceBlock 2 AVAXNetworkID "e1000" exToken2)).1 = 2000.
Proof. split_and!; vm_compute; reflexivity. Qed.

(** ** A block that cannot be built

    A centralized token that was issued earlier in the block is in the accumulated values; the
    first shield request clones them with a nil entry, the second one panics. *)
Definition issuedAC : AccumulatedValues := mkAC [] [] [] [] [] [] [] [] ∅ [Some (hashOf "c")] [].

Theorem shield_after_issue_panics :
  (BuildInstructions exDB1 [] 12
     (mkBlockActions [] [exShield "tx1" "p1" "d1000" ETHNetworkID exToken;
                         exShield "tx2" "p2" "d1000" ETHNetworkID exToken] []) (exSt1, issuedAC)).1 = Panic.
Proof. vm_compute. reflexivity. Qed.

(** A proof that does not parse is dereferenced. *)
Theorem shield_unparsable_panics :
  (BuildInstructions exDB1 [] 12
     (mkBlockActions [] [exShield "tx1" "" "d1000" ETHNetworkID exToken] []) (exSt1, emptyAC)).1 = Panic.
Proof. vm_compute. reflexivity. Qed.

(** ** Producer and nodes apart

    A receipt with a redeposit and a deposit: the producer refills the vault in that order, the
    nodes with the deposit first, so that a reward they pay stays in the fees of the vault. *)
Definition mixedRun := exBlock exSt1 exDB1 [] 12 ∅ exActs2 [exUnshield "tx2" exToken 900000 11].
Definition mixedState : State := (resultOf mixedRun).2.1.
Definition mixedDB : BridgeDB := (resultOf mixedRun).2.2.
Definition mixedBlock :=
  BuildBlock mixedDB [exUnified] 13 ∅ exConfig
    (mkBlockActions [] [exShield "tx4" "p2" "mixed" ETHNetworkID exToken] []) [] (mixedState, emptyAC).

Definition feeOf (s : State) : option Z := waitingUnshieldFee <$> vaultOf s exUnified exToken.

Definition mixedInsts : list BeaconInst := match mixedBlock.1 with Ok i => i | _ => [] end.
Definition mixedProcess := Process mixedInsts mixedState mixedDB.
Definition mixedNode : State := match mixedProcess with Ok (s, _, _) => s | _ => NewState end.

(** With a redeposit and a deposit on one vault in one request, the producer and the nodes
    end with different vaults: the producer has paid out all of the fees, the nodes keep a part
    of what was paid and will pay it again. *)
Theorem mixed_receipt_diverges :
  succeeds mixedBlock.1 = true ∧ succeeds mixedProcess = true ∧
  feeOf mixedState = Some 673 ∧ feeOf mixedBlock.2.1 = Some 0 ∧ feeOf mixedNode = Some 299.
Proof. split_and!; vm_compute; reflexivity. Qed.

(** ** The queue

    Entries are checked one by one: two entries of 6 pass against a vault of 10, the update fails,
    the request is neither paid nor reserved for, and the request behind it takes the money. *)
Definition pairReq : BridgeAggWaitingUnshieldReq :=
  mkWaitingReq "r1" [mkWaitingData exToken 6 "" 0 exExternal 6 241; mkWaitingData exToken 6 "" 0 exExternal 6 241] 1.
Definition nextReq : BridgeAggWaitingUnshieldReq :=
  mkWaitingReq "r2" [mkWaitingData exToken 5 "" 0 exExternal 5 241] 2.
Definition pairState : State :=
  mkState {[exUnified := {[exToken := mkVault 10 10 7 0 9 ETHNetworkID exToken]}]}
    {[exUnified := [pairReq; nextReq]]} (Some 750) ∅ [].

Theorem pair_request_overtaken : (handleWaitingUnshieldReqs [exUnified] 9 pairState).1 =
  Ok (buildBurningConfirmInsts nextReq 9 ++ [buildUnshieldInst exUnified false nextReq FilledStatusStr BridgeShardID]).
Proof. vm_compute. reflexivity. Qed.

(** The order of the tokens is the order of a Go map: two nodes can write different instructions
    from one state. *)
Definition exUnified2 : Hash := hashOf "V".
Definition req1 : BridgeAggWaitingUnshieldReq := mkWaitingReq "r1" [mkWaitingData exToken 5 "" 0 exExternal 5 241] 1.
Definition req2 : BridgeAggWaitingUnshieldReq := mkWaitingReq "r2" [mkWaitingData exToken2 5 "" 0 exExternal2 5 241] 1.
Definition twoTokens : State :=
  mkState {[exUnified := {[exToken := mkVault 10 5 0 0 9 ETHNetworkID exToken]};
            exUnified2 := {[exToken2 := mkVault 10 5 0 0 9 ETHNetworkID exToken2]}]}
    {[exUnified := [req1]; exUnified2 := [req2]]} (Some 750) ∅ [].

Theorem queue_order_matters :
  mapOrder (waitingUnshieldReqs twoTokens) [exUnified; exUnified2] ∧
  mapOrder (waitingUnshieldReqs twoTokens) [exUnified2; exUnified] ∧
  (handleWaitingUnshieldReqs [exUnified; exUnified2] 9 twoTokens).1 ≠
  (handleWaitingUnshieldReqs [exUnified2; exUnified] 9 twoTokens).1.
Proof.
  assert (map_to_list (waitingUnshieldReqs twoTokens) ≡ₚ [(exUnified, [req1]); (exUnified2, [req2])]) as Hm.
  { unfold twoTokens. cbn [waitingUnshieldReqs]. rewrite map_to_list_insert by done.
    apply Permutation_skip. by rewrite map_to_list_singleton. }
  unfold mapOrder. split_and!; [by rewrite Hm|rewrite Hm; apply Permutation_swap|].
  vm_compute. discriminate.
Qed.

(** ** Calls paid with a plain token

    Every entry is confirmed with the index 0: the confirmations of two entries have the same
    identifier and the addresses of the first. *)
Definition callDB : BridgeDB := mkBridgeDB {[(false, exToken) := mkBridgeTokenInfo exExternal 100]} ∅.
Definition callOf (address : string) (amt : Z) : BurnForCallRequestData :=
  mkBurnForCallData amt ETHNetworkID exToken "data" address "rt" "rr" "wa".
Definition plainCall : UnshieldAction BurnForCallRequest :=
  mkUnshieldAction (mkBurnForCallRequest exToken [callOf "a" 3; callOf "b" 4]) "tx9" 0 11.

Definition callIDs (insts : list BeaconInst) : list (Hash * string * Z) :=
  omap (λ i, match i with
    | CallConfirmInst c => Some (bf_TxID c, bf_ExternalCallAddress c, bf_Amount c) | _ => None end) insts.

Theorem plain_call_ids_repeat : ∃ insts,
  (burnForCall callDB plainCall 12 exSt1).1 = Ok insts ∧
  callIDs insts = [("tx90"%string, "a"%string, 3); ("tx90"%string, "a"%string, 4)].
Proof. eexists. split; vm_compute; reflexivity. Qed.

(** ** The supply on record

    A conversion that refills a vault mints the reward too, but the record of the unified token
    grows by the converted amount alone. *)
Definition convertInst : Instruction :=
  mkInstruction BridgeAggConvertTokenToUnifiedTokenRequestMeta AcceptedStatusStr 0
    (ConvertContent (mkAcceptedConvert exUnified exToken "alice" 898327 898327 673 "tx6")).

Theorem convert_record_short :
  mintedBy exUnified (AggInst convertInst) = 899000 ∧
  (CountUpAmt <$> (ps_infos (convert_process convertInst (mkProcState mixedState mixedDB [] ∅ ∅)).2 !! exUnified))
    = Some 898327.
Proof. split; vm_compute; reflexivity. Qed.
