(* ===== verification/Float64.v ===== *)
(** Go's [float64] on the values that occur here: finite numbers that are not negative, the
    infinity and NaN.  A finite number is a fraction; every operation computes the exact result
    and rounds it to the nearest number of 53 bits, ties to even (IEEE 754). *)
From S2P Require Import Prelude.

Local Open Scope Z_scope.

Inductive f64 := Fin (num den : Z) | Inf | NaN.

(** The exponent of the last of the 53 bits of [n / d], [-1074] for the smallest numbers. *)
Definition lastBit (n d : Z) : Z :=
  let e := Z.log2 n - Z.log2 d - 52 in
  let e := if n * 2 ^ Z.max 0 (- e) <? 2 ^ 52 * (d * 2 ^ Z.max 0 e) then e - 1 else e in
  Z.max e (-1074).

(** [n / d] to the nearest integer, ties to even. *)
Definition nearestEven (n d : Z) : Z :=
  let q := n / d in
  let r := n mod d in
  if (d <? 2 * r) || ((2 * r =? d) && Z.odd q) then q + 1 else q.

Definition round (n d : Z) : f64 :=
  let e := lastBit n d in
  let m := nearestEven (n * 2 ^ Z.max 0 (- e)) (d * 2 ^ Z.max 0 e) in
  if m =? 0 then Fin 0 1
  else if 2 ^ 1024 <=? m * 2 ^ Z.max 0 e then Inf
  else Fin (m * 2 ^ Z.max 0 e) (2 ^ Z.max 0 (- e)).

Definition floatOf (x : Z) : f64 := round x 1.

Definition fadd (x y : f64) : f64 :=
  match x, y with
  | Fin a b, Fin c d => round (a * d + c * b) (b * d)
  | NaN, _ | _, NaN => NaN
  | _, _ => Inf
  end.

Definition fmul (x y : f64) : f64 :=
  match x, y with
  | Fin a b, Fin c d => round (a * c) (b * d)
  | NaN, _ | _, NaN => NaN
  | Fin a _, Inf | Inf, Fin a _ => if a =? 0 then NaN else Inf
  | Inf, Inf => Inf
  end.

Definition fdiv (x y : f64) : f64 :=
  match x, y with
  | Fin a b, Fin c d =>
      if c =? 0 then (if a =? 0 then NaN else Inf) else round (a * d) (b * c)
  | NaN, _ | _, NaN => NaN
  | Fin _ _, Inf => Fin 0 1
  | Inf, Fin _ _ => Inf
  | Inf, Inf => NaN
  end.

(** The conversion to [uint64] drops the fraction; what it gives for a number out of range
    depends on the machine. *)
Class OutOfRange := outOfRange : f64 → Z.

Definition toUint64 `{!OutOfRange} (x : f64) : Z :=
  match x with
  | Fin a b => if a / b <? word64 then a / b else u64 (outOfRange x)
  | _ => u64 (outOfRange x)
  end.

Example third : fdiv (floatOf 1) (floatOf 3) = Fin 6004799503160661 18014398509481984.
Proof. vm_compute. reflexivity. Qed.
Example above53 : floatOf (2 ^ 53 + 1) = Fin (2 ^ 53) 1 ∧ floatOf (2 ^ 53 + 3) = Fin (2 ^ 53 + 4) 1.
Proof. split; vm_compute; reflexivity. Qed.

(** ** Values

    [below x n d]: the number is finite, well formed and at most [n / d]. *)
Definition wf_f64 (x : f64) : Prop :=
  match x with Fin a b => 0 ≤ a ∧ 0 < b | _ => False end.
Definition below (x : f64) (n d : Z) : Prop :=
  match x with Fin a b => a * d ≤ n * b | _ => False end.
Definition above (x : f64) (n d : Z) : Prop :=
  match x with Fin a b => n * b ≤ a * d | _ => False end.

Lemma nearestEven_bounds n d : 0 < d → 2 * (nearestEven n d * d) ≤ 2 * n + d ∧ n / d ≤ nearestEven n d.
Proof.
  intros Hd. unfold nearestEven. pose proof (Z.div_mod n d) as Hq. pose proof (Z.mod_pos_bound n d Hd).
  destruct ((d <? 2 * (n mod d)) || _) eqn:E; [|nia].
  apply orb_true_iff in E as [E%Z.ltb_lt|[E%Z.eqb_eq _]%andb_true_iff]; nia.
Qed.

Lemma nearestEven_le n d k : 0 < d → n ≤ k * d → nearestEven n d ≤ k.
Proof.
  intros Hd Hle. unfold nearestEven. pose proof (Z.div_mod n d) as Hq. pose proof (Z.mod_pos_bound n d Hd).
  destruct ((d <? 2 * (n mod d)) || _) eqn:E; [|nia].
  apply orb_true_iff in E as [E%Z.ltb_lt|[E%Z.eqb_eq _]%andb_true_iff]; nia.
Qed.

Lemma nearestEven_ge n d k : 0 < d → k * d ≤ n → k ≤ nearestEven n d.
Proof.
  intros Hd Hle. pose proof (nearestEven_bounds n d Hd) as [_ Hn].
  pose proof (Z.div_le_lower_bound n d k Hd ltac:(lia)). lia.
Qed.

(** The scaled fraction whose nearest integer is the mantissa. *)
Definition scaledNum (n d : Z) : Z := n * 2 ^ Z.max 0 (- lastBit n d).
Definition scaledDen (n d : Z) : Z := d * 2 ^ Z.max 0 (lastBit n d).

Lemma pow2_pos e : 0 < 2 ^ Z.max 0 e.
Proof. apply Z.pow_pos_nonneg; lia. Qed.

Lemma scaled_pos n d : 0 < n → 0 < d → 0 < scaledNum n d ∧ 0 < scaledDen n d.
Proof.
  intros. unfold scaledNum, scaledDen.
  pose proof (pow2_pos (lastBit n d)). pose proof (pow2_pos (- lastBit n d)). nia.
Qed.

(** Scaling by one bit less doubles the fraction. *)
Lemma scale_step n d e : 0 < n → 0 < d →
  2 * (n * 2 ^ Z.max 0 (- e)) * (d * 2 ^ Z.max 0 (e - 1))
  = n * 2 ^ Z.max 0 (- (e - 1)) * (d * 2 ^ Z.max 0 e).
Proof.
  intros. destruct (Z.le_gt_cases e 0) as [He|He].
  - rewrite (Z.max_r 0 (- e)), (Z.max_l 0 (e - 1)), (Z.max_r 0 (- (e - 1))), (Z.max_l 0 e) by lia.
    replace (- (e - 1)) with (Z.succ (- e)) by lia. rewrite Z.pow_succ_r by lia. lia.
  - rewrite (Z.max_l 0 (- e)), (Z.max_r 0 (e - 1)), (Z.max_l 0 (- (e - 1))), (Z.max_r 0 e) by lia.
    replace e with (Z.succ (e - 1)) at 2 by lia. rewrite Z.pow_succ_r by lia. lia.
Qed.

Lemma log2_bounds n : 0 < n → 2 ^ Z.log2 n ≤ n < 2 * 2 ^ Z.log2 n.
Proof.
  intros Hn. pose proof (Z.log2_spec n Hn). rewrite Z.pow_succ_r in H by apply Z.log2_nonneg. done.
Qed.

(** The first guess of the exponent is at most one too large. *)
Lemma guess_bounds n d : 0 < n → 0 < d →
  let e := Z.log2 n - Z.log2 d - 52 in
  2 ^ 51 * (d * 2 ^ Z.max 0 e) < n * 2 ^ Z.max 0 (- e) ∧
  n * 2 ^ Z.max 0 (- e) < 2 ^ 53 * (d * 2 ^ Z.max 0 e).
Proof.
  intros Hn Hd e. pose proof (log2_bounds n Hn). pose proof (log2_bounds d Hd).
  pose proof (Z.log2_nonneg n). pose proof (Z.log2_nonneg d).
  assert (2 ^ Z.log2 n * 2 ^ Z.max 0 (- e) = 2 ^ 52 * (2 ^ Z.log2 d * 2 ^ Z.max 0 e)) as Heq.
  { rewrite <-!Z.pow_add_r by lia. f_equal. lia. }
  pose proof (pow2_pos e). pose proof (pow2_pos (- e)).
  change (2 ^ 51) with 2251799813685248. change (2 ^ 52) with 4503599627370496 in *.
  change (2 ^ 53) with 9007199254740992. nia.
Qed.

Lemma lastBit_spec n d : 0 < n → 0 < d → -1074 < lastBit n d →
  2 ^ 52 * scaledDen n d ≤ scaledNum n d.
Proof.
  intros Hn Hd. unfold scaledDen, scaledNum, lastBit. cbv zeta.
  pose proof (guess_bounds n d Hn Hd) as [Hlo _]. cbv zeta in Hlo.
  set (e := Z.log2 n - Z.log2 d - 52) in *.
  destruct (Z.ltb_spec (n * 2 ^ Z.max 0 (- e)) (2 ^ 52 * (d * 2 ^ Z.max 0 e))) as [Hlt|Hge]; intros Hl.
  - rewrite (Z.max_l (e - 1) (-1074)) by lia. pose proof (scale_step n d e Hn Hd) as Hs.
    pose proof (pow2_pos e). pose proof (pow2_pos (e - 1)).
    set (N := n * 2 ^ Z.max 0 (- e)) in *. set (N' := n * 2 ^ Z.max 0 (- (e - 1))) in *.
    assert (0 < d * 2 ^ Z.max 0 e) as HD by nia. assert (0 < d * 2 ^ Z.max 0 (e - 1)) as HD' by nia.
    set (D := d * 2 ^ Z.max 0 e) in *. set (D' := d * 2 ^ Z.max 0 (e - 1)) in *.
    change (2 ^ 51) with 2251799813685248 in Hlo. change (2 ^ 52) with 4503599627370496.
    apply (Zmult_le_reg_r _ _ D); [lia|]. rewrite <-Hs.
    transitivity (2 * (2251799813685248 * D) * D'); [lia|].
    apply Z.mul_le_mono_nonneg_r; lia.
  - rewrite (Z.max_l e (-1074)) by lia. lia.
Qed.

(** The exponent is not negative when the fraction has more than 53 bits, and never as small as
    [-1074] for a fraction of at least one. *)
Lemma lastBit_ge n d : 0 < d → d ≤ n → -1074 < lastBit n d.
Proof.
  intros Hd Hle. unfold lastBit. cbv zeta.
  pose proof (Z.log2_le_mono d n Hle).
  destruct (_ <? _); lia.
Qed.

Lemma round_Fin n d : 0 < n → 0 < d →
  let m := nearestEven (scaledNum n d) (scaledDen n d) in
  m * 2 ^ Z.max 0 (lastBit n d) < 2 ^ 1024 →
  wf_f64 (round n d) ∧ ∀ a b, round n d = Fin a b →
    0 ≤ m ∧ a * 2 ^ Z.max 0 (- lastBit n d) = m * 2 ^ Z.max 0 (lastBit n d) * b.
Proof.
  intros Hn Hd m Hm. pose proof (scaled_pos n d Hn Hd) as [HN HD].
  assert (0 ≤ m) as H0. { apply nearestEven_ge; lia. }
  pose proof (pow2_pos (lastBit n d)). pose proof (pow2_pos (- lastBit n d)).
  unfold round. fold (scaledNum n d) (scaledDen n d). fold m. cbv zeta.
  destruct (Z.eqb_spec m 0) as [->|Hne]; [split; [cbn; lia|]; intros a b [= <- <-]; lia|].
  destruct (Z.leb_spec (2 ^ 1024) (m * 2 ^ Z.max 0 (lastBit n d))) as [Hge|_]; [lia|].
  split; [cbn; nia|]. intros a b [= <- <-]. lia.
Qed.

Lemma lastBit_below n d : 0 < n → 0 < d → scaledNum n d < 2 ^ 53 * scaledDen n d.
Proof.
  intros Hn Hd. unfold scaledDen, scaledNum, lastBit. cbv zeta.
  pose proof (guess_bounds n d Hn Hd) as [_ Hhi]. cbv zeta in Hhi.
  set (e := Z.log2 n - Z.log2 d - 52) in *.
  assert (∃ e', (if n * 2 ^ Z.max 0 (- e) <? 2 ^ 52 * (d * 2 ^ Z.max 0 e) then e - 1 else e) = e' ∧
    n * 2 ^ Z.max 0 (- e') < 2 ^ 53 * (d * 2 ^ Z.max 0 e')) as (e' & -> & He').
  { destruct (Z.ltb_spec (n * 2 ^ Z.max 0 (- e)) (2 ^ 52 * (d * 2 ^ Z.max 0 e))) as [Hlt|Hge];
      [|eexists; split; [done|done]].
    eexists. split; [done|]. pose proof (scale_step n d e Hn Hd) as Hs.
    pose proof (pow2_pos e). pose proof (pow2_pos (e - 1)).
    assert (0 < d * 2 ^ Z.max 0 e) as HD by nia. assert (0 < d * 2 ^ Z.max 0 (e - 1)) as HD' by nia.
    apply (Zmult_lt_reg_r _ _ (d * 2 ^ Z.max 0 e)); [lia|]. rewrite <-Hs.
    change (2 ^ 52) with 4503599627370496 in *. change (2 ^ 53) with 9007199254740992. nia. }
  destruct (Z.le_gt_cases (-1074) e') as [Hle|Hgt]; [by rewrite (Z.max_l e' (-1074)) by lia|].
  rewrite (Z.max_r e' (-1074)) by lia. rewrite (Z.max_r 0 (- e')), (Z.max_l 0 e') in He' by lia.
  change (Z.max 0 (- -1074)) with 1074. change (Z.max 0 (-1074)) with 0.
  assert (2 ^ 1074 ≤ 2 ^ (- e')) by (apply Z.pow_le_mono_r; lia). nia.
Qed.

Lemma round_0 d : 0 < d → round 0 d = Fin 0 1.
Proof.
  intros Hd. unfold round. cbv zeta. rewrite Z.mul_0_l. pose proof (pow2_pos (lastBit 0 d)).
  assert (nearestEven 0 (d * 2 ^ Z.max 0 (lastBit 0 d)) = 0) as ->; [|done].
  apply Z.le_antisymm; [apply nearestEven_le; nia|apply nearestEven_ge; nia].
Qed.

Lemma pow53_1024 : 2 ^ 53 < 2 ^ 1024.
Proof. apply Z.pow_lt_mono_r; lia. Qed.

(** Rounding does not pass a number of 53 bits: upwards. *)
Lemma round_below n d k j : 0 ≤ n → 0 < d → 0 ≤ j ≤ 1074 → k ≤ 2 ^ 53 →
  n * 2 ^ j ≤ k * d → wf_f64 (round n d) ∧ below (round n d) k (2 ^ j).
Proof.
  intros Hn0 Hd [Hj Hj'] Hk Hle. destruct (Z.eq_dec n 0) as [->|Hne].
  { rewrite round_0 by done. cbn. split; [lia|]. nia. }
  assert (0 < n) as Hn by lia. pose proof (scaled_pos n d Hn Hd) as [HN HD].
  pose proof (lastBit_below n d Hn Hd) as Hhi. pose proof (lastBit_spec n d Hn Hd) as Hlo.
  pose proof (round_Fin n d Hn Hd) as Hr. cbv zeta in Hr.
  set (m := nearestEven (scaledNum n d) (scaledDen n d)) in *.
  assert (∀ K, scaledNum n d ≤ K * scaledDen n d → m ≤ K) as Hmle by (intros; apply nearestEven_le; lia).
  assert (∀ K, K * scaledDen n d ≤ scaledNum n d → K ≤ m) as Hmge by (intros; apply nearestEven_ge; lia).
  clearbody m.
  pose proof (Z.pow_pos_nonneg 2 j ltac:(lia) Hj) as Hpj.
  destruct (Z.le_gt_cases (lastBit n d) (- j)) as [He|He].
  - unfold scaledNum, scaledDen in *. rewrite (Z.max_r 0 (- lastBit n d)), (Z.max_l 0 (lastBit n d)) in * by lia.
    assert (2 ^ (- lastBit n d) = 2 ^ j * 2 ^ (- lastBit n d - j)) as Hsplit.
    { rewrite <-Z.pow_add_r by lia. f_equal. lia. }
    pose proof (Z.pow_pos_nonneg 2 (- lastBit n d - j) ltac:(lia) ltac:(lia)) as Hps.
    set (P := 2 ^ (- lastBit n d - j)) in *. rewrite Hsplit in *.
    assert (m ≤ k * P) as Hm. { apply Hmle. change (2 ^ 0) with 1. nia. }
    assert (m ≤ 2 ^ 53) as Hm53. { apply Hmle. lia. }
    pose proof pow53_1024. destruct Hr as [Hwf Hval]; [change (2 ^ 0) with 1; lia|]. split; [done|].
    destruct (round n d) as [a b| |]; [|done..]. destruct (Hval a b eq_refl) as [_ Ha]. cbn.
    cbn in Hwf. apply (Zmult_le_reg_r _ _ P); [lia|]. change (2 ^ 0) with 1 in Ha. nia.
  - specialize (Hlo ltac:(lia)). pose proof (pow2_pos (lastBit n d)). pose proof (pow2_pos (- lastBit n d)).
    set (P := 2 ^ Z.max 0 (lastBit n d)) in *. set (R := 2 ^ Z.max 0 (- lastBit n d)) in *.
    assert (2 * R ≤ 2 ^ j * P) as Hpow.
    { subst P R. rewrite <-Z.pow_add_r by lia. rewrite <-(Z.pow_succ_r 2) by lia. apply Z.pow_le_mono_r; lia. }
    assert (scaledNum n d = n * R) as HNR by done. assert (scaledDen n d = d * P) as HDP by done.
    assert (scaledNum n d ≤ 2 ^ 52 * scaledDen n d) as Hhi'.
    { rewrite HNR, HDP. change (2 ^ 52) with 4503599627370496. change (2 ^ 53) with 9007199254740992 in Hk.
      assert (n * (2 * R) ≤ n * (2 ^ j * P)) by nia. assert (n * 2 ^ j * P ≤ 9007199254740992 * d * P) by nia. lia. }
    assert (m = 2 ^ 52) as Hm.
    { apply Z.le_antisymm; [apply Hmle; lia|apply Hmge; lia]. }
    assert (n * R = m * (d * P)) as Heq by (rewrite Hm; lia).
    assert (m * P * 2 ^ j ≤ k * R) as Hval'.
    { apply (Zmult_le_reg_r _ _ d); [lia|]. nia. }
    assert (m * P ≤ 2 ^ 53) as Hfin.
    { destruct (Z.le_gt_cases 0 (lastBit n d)) as [Hp|Hp].
      - subst R. rewrite (Z.max_l 0 (- lastBit n d)) in Hval' by lia. change (2 ^ 0) with 1 in Hval'. nia.
      - subst P. rewrite (Z.max_l 0 (lastBit n d)), Hm by lia. done. }
    pose proof pow53_1024. destruct Hr as [Hwf Hv]; [lia|]. split; [done|].
    destruct (round n d) as [a b| |]; [|done..]. destruct (Hv a b eq_refl) as [_ Ha]. cbn. cbn in Hwf.
    apply (Zmult_le_reg_r _ _ R); [lia|]. nia.
Qed.

Lemma round_val n d a b : 0 < n → 0 < d → round n d = Fin a b →
  a * 2 ^ Z.max 0 (- lastBit n d)
  = nearestEven (scaledNum n d) (scaledDen n d) * 2 ^ Z.max 0 (lastBit n d) * b.
Proof.
  intros Hn Hd. unfold round. fold (scaledNum n d) (scaledDen n d). cbv zeta.
  set (m := nearestEven _ _). destruct (Z.eqb_spec m 0) as [->|Hne]; [intros [= <- <-]; lia|].
  destruct (Z.leb_spec (2 ^ 1024) (m * 2 ^ Z.max 0 (lastBit n d))) as [Hge|_]; [done|]. intros [= <- <-]. lia.
Qed.

(** Rounding does not pass an integer of 53 bits: downwards. *)
Lemma round_above n d k : 0 < n → 0 < d → k ≤ 2 ^ 53 → k * d ≤ n → n ≤ 2 ^ 53 * d →
  wf_f64 (round n d) ∧ above (round n d) k 1.
Proof.
  intros Hn Hd Hk Hle Hup.
  destruct (round_below n d (2 ^ 53) 0 ltac:(lia) Hd ltac:(lia) ltac:(lia) ltac:(lia)) as [Hwf _]. split; [done|].
  pose proof (round_val n d) as Hv. pose proof (scaled_pos n d Hn Hd) as [HN HD].
  assert (∀ K, K * scaledDen n d ≤ scaledNum n d →
    K ≤ nearestEven (scaledNum n d) (scaledDen n d)) as Hmge by (intros; apply nearestEven_ge; lia).
  destruct (round n d) as [a b| |]; [|done..]. cbn in Hwf. specialize (Hv a b Hn Hd eq_refl). cbn.
  set (m := nearestEven (scaledNum n d) (scaledDen n d)) in *. clearbody m.
  destruct (Z.le_gt_cases (lastBit n d) 0) as [He|He].
  - unfold scaledNum, scaledDen in *. rewrite (Z.max_r 0 (- lastBit n d)), (Z.max_l 0 (lastBit n d)) in * by lia.
    change (2 ^ 0) with 1 in *. pose proof (Z.pow_pos_nonneg 2 (- lastBit n d) ltac:(lia) ltac:(lia)) as Hps.
    set (R := 2 ^ (- lastBit n d)) in *. assert (k * R ≤ m) as Hm by (apply Hmge; nia).
    apply (Zmult_le_reg_r _ _ R); [lia|]. nia.
  - pose proof (lastBit_spec n d Hn Hd ltac:(lia)) as Hlo. apply Hmge in Hlo.
    rewrite (Z.max_l 0 (- lastBit n d)), (Z.max_r 0 (lastBit n d)) in Hv by lia. change (2 ^ 0) with 1 in Hv.
    assert (2 ^ 1 ≤ 2 ^ lastBit n d) as HP by (apply Z.pow_le_mono_r; lia).
    change (2 ^ 1) with 2 in HP. set (P := 2 ^ lastBit n d) in *.
    change (2 ^ 53) with 9007199254740992 in *. change (2 ^ 52) with 4503599627370496 in *.
    assert (9007199254740992 ≤ m * P) by nia. nia.
Qed.

(** Rounding adds at most a part in [2 ^ 53]. *)
Lemma round_rel n d : 0 < d → d ≤ n → n ≤ 2 ^ 200 * d →
  wf_f64 (round n d) ∧ below (round n d) (n * (2 ^ 53 + 1)) (d * 2 ^ 53).
Proof.
  intros Hd Hle Hup. assert (0 < n) as Hn by lia. pose proof (scaled_pos n d Hn Hd) as [HN HD].
  pose proof (round_Fin n d Hn Hd) as Hr. cbv zeta in Hr.
  pose proof (lastBit_spec n d Hn Hd (lastBit_ge n d Hd Hle)) as Hlo.
  pose proof (lastBit_below n d Hn Hd) as Hhi.
  pose proof (nearestEven_bounds (scaledNum n d) (scaledDen n d) HD) as [Hm _].
  assert (nearestEven (scaledNum n d) (scaledDen n d) ≤ 2 ^ 53) as Hm53 by (apply nearestEven_le; lia).
  set (m := nearestEven (scaledNum n d) (scaledDen n d)) in *. clearbody m.
  pose proof (pow2_pos (lastBit n d)). pose proof (pow2_pos (- lastBit n d)).
  assert (scaledNum n d = n * 2 ^ Z.max 0 (- lastBit n d)) as HNR by done.
  assert (scaledDen n d = d * 2 ^ Z.max 0 (lastBit n d)) as HDP by done.
  set (P := 2 ^ Z.max 0 (lastBit n d)) in *. set (R := 2 ^ Z.max 0 (- lastBit n d)) in *.
  assert (m * P < 2 ^ 1024) as Hfin.
  { destruct (Z.le_gt_cases 0 (lastBit n d)) as [Hp|Hp].
    - assert (R = 1) as HR1 by (subst R; rewrite Z.max_l by lia; done).
      assert (m * P ≤ 2 * 2 ^ 200) as Hb.
      { apply (Zmult_le_reg_r _ _ d); [lia|]. rewrite HNR, HDP, HR1 in *.
        change (2 ^ 52) with 4503599627370496 in Hlo. lia. }
      assert (2 * 2 ^ 200 < 2 ^ 1024); [|lia]. rewrite <-Z.pow_succ_r by lia. apply Z.pow_lt_mono_r; lia.
    - assert (P = 1) as -> by (subst P; rewrite Z.max_l by lia; done). pose proof pow53_1024. lia. }
  destruct (Hr Hfin) as [Hwf Hv]. split; [done|].
  destruct (round n d) as [a b| |]; [|done..]. destruct (Hv a b eq_refl) as [Hm0 Ha]. cbn in Hwf. unfold below.
  change (2 ^ 53) with 9007199254740992 in *. change (2 ^ 52) with 4503599627370496 in *.
  apply (Zmult_le_reg_r _ _ R); [lia|].
  assert (9007199254740992 * (m * scaledDen n d) ≤ 9007199254740993 * scaledNum n d) as Hmain by lia.
  rewrite HNR, HDP in Hmain.
  transitivity (9007199254740992 * (m * (d * P)) * b); [nia|].
  transitivity (9007199254740993 * (n * R) * b); [|lia]. apply Z.mul_le_mono_nonneg_r; lia.
Qed.

(** Integers of 53 bits convert without an error. *)
Lemma floatOf_exact x : 0 ≤ x ≤ 2 ^ 53 → ∃ b, 0 < b ∧ floatOf x = Fin (x * b) b.
Proof.
  intros [H0 Hx]. unfold floatOf. destruct (Z.eq_dec x 0) as [->|Hne]; [by exists 1; rewrite round_0|].
  destruct (round_below x 1 x 0 H0 ltac:(lia) ltac:(lia) Hx ltac:(lia)) as [Hwf Hb].
  destruct (round_above x 1 x ltac:(lia) ltac:(lia) Hx ltac:(lia) ltac:(lia)) as [_ Ha].
  destruct (round x 1) as [a b| |]; [|done..]. cbn in *. exists b. split; [lia|]. f_equal. lia.
Qed.

Lemma fmul_int x y : 0 ≤ x → 0 ≤ y → x * y ≤ 2 ^ 53 → x ≤ 2 ^ 53 → y ≤ 2 ^ 53 →
  wf_f64 (fmul (floatOf x) (floatOf y)) ∧ below (fmul (floatOf x) (floatOf y)) (x * y) 1.
Proof.
  intros Hx Hy Hxy Hx' Hy'. destruct (floatOf_exact x) as (b & Hb & ->); [lia|].
  destruct (floatOf_exact y) as (c & Hc & ->); [lia|]. cbn.
  destruct (round_below (x * b * (y * c)) (b * c) (x * y) 0) as [Hwf Hbl]; [nia|nia|lia|lia|nia|]. done.
Qed.

Lemma fdiv_int x y n : wf_f64 x → below x n 1 → 0 < y ≤ 2 ^ 53 → n ≤ 2 ^ 53 →
  wf_f64 (fdiv x (floatOf y)) ∧ below (fdiv x (floatOf y)) n 1.
Proof.
  intros Hw Hb Hy Hn. destruct (floatOf_exact y) as (c & Hc & ->); [lia|].
  destruct x as [a b| |]; [|done..]. cbn in *. destruct (Z.eqb_spec (y * c) 0) as [Hz|_]; [nia|].
  destruct (round_below (a * c) (b * (y * c)) n 0) as [Hwf Hbl]; [nia|nia|lia|lia| |done].
  change (2 ^ 0) with 1. assert (0 ≤ n * b * c) by nia. transitivity (n * b * c); nia.
Qed.

(** ** A weighted share

    [uint64(w * float64(X) / (w + b))] is at most [X] when [X] has 52 bits: the products and the
    quotient are rounded up by less than one. *)
Lemma float_share `{!OutOfRange} w b X : 0 < w ≤ 2 ^ 52 → 0 ≤ X < 2 ^ 52 →
  wf_f64 b → below b (2 ^ 52) 1 →
  0 ≤ toUint64 (fdiv (fmul (floatOf w) (floatOf X)) (fadd (floatOf w) b)) ≤ X.
Proof.
  intros Hw HX Hwfb Hb. change (2 ^ 52) with 4503599627370496 in *.
  assert (4503599627370496 < 2 ^ 53) as H53 by (change (2 ^ 53) with 9007199254740992; lia).
  destruct (floatOf_exact w) as (c & Hc & ->); [lia|]. destruct (floatOf_exact X) as (d & Hd & ->); [lia|].
  destruct b as [bn bd| |]; [|done..]. cbn [wf_f64 below] in *. cbn [fmul fadd].
  assert (0 < w * c * bd) as Hwpos by (apply Z.mul_pos_pos; [|lia]; apply Z.mul_pos_pos; lia).
  assert (0 ≤ bn * c) by nia.
  destruct (round_above (w * c * bd + bn * c) (c * bd) w) as [HWwf HW]; [lia|nia|lia|nia| |].
  { change (2 ^ 53) with 9007199254740992. nia. }
  destruct (round (w * c * bd + bn * c) (c * bd)) as [wn wd| |]; [|done..]. cbn in HWwf, HW.
  assert (0 < wn) as Hwn by nia.
  assert (∃ pn pd, round (w * c * (X * d)) (c * d) = Fin pn pd ∧ 0 ≤ pn ∧ 0 < pd ∧
    pn * 2 ^ 53 ≤ w * X * (2 ^ 53 + 1) * pd) as (pn & pd & -> & Hpn & Hpd & Hp).
  { destruct (Z.eq_dec X 0) as [->|HX0]; [exists 0, 1; rewrite Z.mul_0_l, Z.mul_0_r, round_0 by nia; split_and!; [done|lia..]|].
    assert (1 ≤ w * X) as Hwx by nia.
    assert (w * X ≤ 4503599627370496 * 4503599627370496) as Hwx' by nia.
    replace (w * c * (X * d)) with (w * X * (c * d)) by lia. assert (0 < c * d) as Hcd by nia.
    destruct (round_rel (w * X * (c * d)) (c * d)) as [Hwf Hbl]; [done|nia| |].
    { apply Z.mul_le_mono_nonneg_r; [nia|].
      etransitivity; [exact Hwx'|]. by vm_compute. }
    destruct (round (w * X * (c * d)) (c * d)) as [pn pd| |]; [|done..]. cbn [wf_f64 below] in *.
    exists pn, pd. split_and!; [done|lia|lia|].
    apply (Zmult_le_reg_r _ _ (c * d)); [nia|]. transitivity (pn * (c * d * 2 ^ 53)); [lia|].
    etransitivity; [exact Hbl|]. lia. }
  cbn [fdiv]. destruct (Z.eqb_spec wn 0) as [?|_]; [lia|].
  destruct (round_below (pn * wd) (pd * wn) (2 * X + 1) 1) as [Hwf Hbl]; [nia|nia|lia|lia| |].
  { change (2 ^ 1) with 2. change (2 ^ 53) with 9007199254740992 in *.
    apply (Zmult_le_reg_r _ _ 9007199254740992); [lia|].
    transitivity (2 * wd * (pn * 9007199254740992)); [lia|].
    transitivity (2 * wd * (w * X * (9007199254740992 + 1) * pd)); [apply Z.mul_le_mono_nonneg_l; lia|].
    transitivity (2 * X * (9007199254740992 + 1) * pd * (w * wd)); [lia|].
    transitivity (2 * X * (9007199254740992 + 1) * pd * wn); [apply Z.mul_le_mono_nonneg_l; nia|].
    transitivity ((2 * X + 1) * 9007199254740992 * (pd * wn)); [|lia].
    replace (2 * X * (9007199254740992 + 1) * pd * wn) with (2 * X * (9007199254740992 + 1) * (pd * wn)) by lia.
    apply Z.mul_le_mono_nonneg_r; nia. }
  destruct (round (pn * wd) (pd * wn)) as [a e| |]; [|done..]. cbn [wf_f64 below] in *. change (2 ^ 1) with 2 in Hbl.
  unfold toUint64. assert (0 ≤ a / e) by (apply Z.div_pos; lia).
  assert (a / e < X + 1) by (apply Z.div_lt_upper_bound; nia).
  destruct (Z.ltb_spec (a / e) word64) as [_|Hge]; [lia|]. unfold word64 in Hge. lia.
Qed.
