(* ===== verification/Rewards.v ===== *)
(** Rewards of validators ([blockchain/salary.go], [committeestate/consensus_reward_rule.go],
    [dataaccessobject/statedb/accessor_reward.go]): what a block is worth, the requests the
    beacon chain books, the split of an epoch between beacon validators, shard validators, the
    DAO and custodians, the instructions, and what the shards credit. *)
From S2P Require Import Prelude Hash Timeslot Float64.
From Stdlib Require Import Ascii String.

Local Open Scope Z_scope.

(** *** Configuration ([config.Param()]) and constants *)
Class RewardConfig := {
  BasicReward : Z;
  MaxReward : Z;
  BlockTimeParam : list (string * Z);
  FeatureVersion : gmap string Z;
  MinBeaconBlockInterval : Z;
  EnableSlashingHeightV2 : Z;
  MaxShardNumber : Z;
  IncognitoDAOPk : string }.

Definition BLOCK_PRODUCINGV3_VERSION : Z := 7.
Definition INSTANT_FINALITY_VERSION_V2 : Z := 9.
Definition ADJUST_BLOCKTIME_VERSION : Z := 10.
Definition LowerBoundPercentForIncDAO : Z := 3.
Definition UpperBoundPercentForIncDAO : Z := 10.
Definition MaxSubsetCommittees : Z := 2.

(** [byte(i)] for an index. *)
Definition byteOf (i : nat) : Z := Z.of_nat i mod 256.

(** Unsigned division. *)
Definition uDiv (x y : Z) : outcome Z := if y =? 0 then Panic else Ok (x / y).
Definition mul64 (x y : Z) : Z := u64 (x * y).

(** [dst[key] += value] for every entry of [src]. *)
Definition plusMap (src dst : gmap Hash Z) : gmap Hash Z :=
  union_with (λ s d, Some (add64 d s)) src dst.

(** ** The reward of a block *)
Section amounts.
Context `{!RewardConfig}.

(** [365.25 * 24 * 60 * 60] seconds. *)
Definition getNoBlkPerYear (blockCreationTimeSeconds : Z) : outcome Z :=
  uDiv 31557600 blockCreationTimeSeconds.

(** A year takes nine percent off. *)
Fixpoint decay (n : nat) (reward : Z) : Z :=
  match n with O => reward | S n => decay n (mul64 reward 91 / 100) end.

Definition getRewardAmountV2 (basicReward year : Z) : Z := decay (Z.to_nat year) basicReward.

Definition getRewardAmount (blkHeight : Z) : outcome Z :=
  blockInYear ← getNoBlkPerYear (u64 MinBeaconBlockInterval);
  n ← uDiv (sub64 blkHeight 1) blockInYear;
  Ok (decay (Z.to_nat n) BasicReward).

Definition blockTime (feature : string) : Z := blockTimeOf BlockTimeParam feature.

(** The block time of a version is that of the last anchor before a feature the version lacks. *)
Fixpoint blockTimeLoop (blkVersion : Z) (anchors : list anchorTime) (cur : Z) : Z :=
  match anchors with
  | [] => cur
  | a :: anchors =>
      if blkVersion <? default 0 (FeatureVersion !! Feature a) then cur
      else blockTimeLoop blkVersion anchors (Timeslot a)
  end.

Definition GetBlockTimeByBlockVersion (blkVersion : Z) (ts : TSManager) : Z :=
  blockTimeLoop blkVersion (Anchors ts) (blockTime BLOCKTIME_DEFAULT).

Definition GetBasicRewardByVersion (version : Z) (ts : TSManager) : outcome Z :=
  uDiv (mul64 BasicReward (u64 (GetBlockTimeByBlockVersion version ts)))
    (u64 (blockTime BLOCKTIME_DEFAULT)).

(** The blocks up to a height, each counted by its block time in units of the default one. *)
Definition countBlocks (startBlk endBlk prevBlockTime : Z) : outcome Z :=
  uDiv (mul64 (sub64 endBlk startBlk) (u64 prevBlockTime)) (u64 (blockTime BLOCKTIME_DEFAULT)).

Fixpoint yearLoop (anchors : list anchorTime) (blkHeight : Z) (startBlk endBlk prevBlockTime total : Z)
    : outcome Z :=
  match anchors with
  | [] =>
      if endBlk <? blkHeight then
        c ← countBlocks startBlk blkHeight prevBlockTime; Ok (add64 total c)
      else Ok total
  | a :: anchors =>
      let endBlk := if blkHeight <? BlockHeight a then blkHeight else BlockHeight a in
      c ← countBlocks startBlk endBlk prevBlockTime;
      yearLoop anchors blkHeight endBlk endBlk (blockTime (Feature a)) (add64 total c)
  end.

Definition getYearOfBlockChain (ts : TSManager) (blkHeight : Z) : outcome Z :=
  totalBlock ← yearLoop (Anchors ts) blkHeight 0 0 (blockTime BLOCKTIME_DEFAULT) 0;
  perYear ← getNoBlkPerYear (u64 (blockTime BLOCKTIME_DEFAULT));
  uDiv totalBlock perYear.

(** The time slots of the beacon chain and of the shards, as the best beacon view has them. *)
Record RewardView := mkRewardView {
  rv_TSManager : TSManager;
  rv_ShardTSManager : gmap Z TSManager }.

Definition GetYearOfShard (v : RewardView) (shardID blkHeight : Z) : outcome Z :=
  match rv_ShardTSManager v !! shardID with
  | None => Panic
  | Some ts => getYearOfBlockChain ts blkHeight
  end.

Definition GetRewardAmount (v : RewardView) (shardID shardVersion shardHeight : Z) : outcome Z :=
  if shardVersion <? ADJUST_BLOCKTIME_VERSION then getRewardAmount shardHeight
  else
    basicReward ← GetBasicRewardByVersion shardVersion (rv_TSManager v);
    year ← GetYearOfShard v shardID shardHeight;
    Ok (getRewardAmountV2 basicReward year).

Definition getPercentForIncognitoDAOV2 (year : Z) : Z :=
  if UpperBoundPercentForIncDAO - LowerBoundPercentForIncDAO <? year
  then LowerBoundPercentForIncDAO else UpperBoundPercentForIncDAO - year.

Definition GetBlockTimeInterval (blkTimeFeature : string) : Z :=
  default MinBeaconBlockInterval ((list_to_map BlockTimeParam : gmap string Z) !! blkTimeFeature).

Definition GetNumberBlkPerYear (blkTimeFeature : string) : outcome Z :=
  getNoBlkPerYear (u64 (GetBlockTimeInterval blkTimeFeature)).

(** What was minted before the limit was introduced, from the heights of the shards. *)
Fixpoint mintedYears (n : nat) (year blkPerYear total : Z) : Z :=
  match n with
  | O => total
  | S n => mintedYears n (year + 1) blkPerYear
             (add64 total (mul64 (getRewardAmountV2 BasicReward year) blkPerYear))
  end.

Definition mintedShard (blkPerYear height total : Z) : outcome Z :=
  years ← uDiv height blkPerYear;
  Ok (add64 (mintedYears (Z.to_nat years) 1 blkPerYear total)
        (mul64 (height mod blkPerYear) (getRewardAmountV2 BasicReward (add64 years 1)))).

Fixpoint mintedShards (n : nat) (sID blkPerYear : Z) (shardHeights : gmap Z Z) (total : Z)
    : outcome Z :=
  match n with
  | O => Ok total
  | S n =>
      total ← mintedShard blkPerYear (default 0 (shardHeights !! sID)) total;
      mintedShards n (sID + 1) blkPerYear shardHeights total
  end.

Definition CalculateMintedPRVWithDefaultBlocktime (activeShards : nat) (shardHeights : gmap Z Z)
    : outcome Z :=
  blkPerYear ← GetNumberBlkPerYear BLOCKTIME_DEFAULT;
  mintedShards activeShards 0 blkPerYear shardHeights 0.
End amounts.

(** ** The requests of an epoch, in the reward database of the beacon chain

    Keyed by epoch, shard, subset and token; without subsets in the other table. *)
Record RewardDB := mkRewardDB {
  rewardRequests : gmap (Z * Z * Hash) Z;
  rewardRequestsV3 : gmap (Z * Z * Z * Hash) Z }.

Definition AddShardRewardRequest (epoch shardID : Z) (tokenID : Hash) (rewardAmount : Z)
    (db : RewardDB) : RewardDB :=
  let key := (epoch, shardID, tokenID) in
  let amt := match rewardRequests db !! key with
             | Some r => add64 rewardAmount r | None => rewardAmount end in
  mkRewardDB (<[key := amt]> (rewardRequests db)) (rewardRequestsV3 db).

Definition AddShardRewardRequestMultiset (epoch shardID subsetID : Z) (tokenID : Hash)
    (rewardAmount : Z) (db : RewardDB) : RewardDB :=
  let key := (epoch, shardID, subsetID, tokenID) in
  let amt := match rewardRequestsV3 db !! key with
             | Some r => add64 rewardAmount r | None => rewardAmount end in
  mkRewardDB (rewardRequests db) (<[key := amt]> (rewardRequestsV3 db)).

Definition GetRewardOfShardByEpoch (db : RewardDB) (epoch shardID : Z) (tokenID : Hash) : Z :=
  default 0 (rewardRequests db !! (epoch, shardID, tokenID)).

Definition GetRewardOfShardByEpochMultiset (db : RewardDB) (epoch shardID subsetID : Z)
    (tokenID : Hash) : Z :=
  default 0 (rewardRequestsV3 db !! (epoch, shardID, subsetID, tokenID)).

(** A token occurs once per shard that booked it; the other list has no repetitions. *)
Definition GetAllTokenIDForReward (db : RewardDB) (epoch : Z) : list Hash :=
  (λ kv, kv.1.2) <$> filter (λ kv, kv.1.1.1 = epoch) (map_to_list (rewardRequests db)).

Definition GetAllTokenIDForRewardMultiset (db : RewardDB) (epoch : Z) : list Hash :=
  elements (list_to_set ((λ kv, kv.1.2) <$>
    filter (λ kv, kv.1.1.1.1 = epoch) (map_to_list (rewardRequestsV3 db))) : gset Hash).

(** ** Booking the rewards of accepted blocks *)

(** The instructions of a beacon block; a missing map of fees is a nil map. *)
Inductive AcceptInst :=
  | AcceptBlockRewardV3 (shardID subsetID : Z) (txsFee : option (gmap Hash Z)) (shardBlockHeight : Z)
  | AcceptBlockRewardV1 (shardID : Z) (txsFee : option (gmap Hash Z)) (shardBlockHeight : Z)
  | OtherAccept.

Record RewardBlock := mkRewardBlock {
  rb_Version : Z;
  rb_Epoch : Z;
  rb_ShardStates : gmap Z (list (Z * Z));
  rb_Instructions : list AcceptInst }.

Section booking.
Context `{!RewardConfig}.

(** The version of a block among the shard states (height and version) of the beacon block; a
    later state of the same height replaces an earlier one. *)
Definition shardBlockVersion (blk : RewardBlock) (shardIDs : list Z) (shardID height : Z) : Z :=
  if bool_decide (shardID ∈ shardIDs) then
    default (rb_Version blk)
      ((list_to_map (reverse (default [] (rb_ShardStates blk !! shardID))) : gmap Z Z) !! height)
  else rb_Version blk.

(** The limit of what is ever minted; the state is the database and the amount minted. *)
Definition capReward (headerVersion rewardAmount : Z) : M (RewardDB * Z) Z :=
  '(db, minted) ← getS;
  if INSTANT_FINALITY_VERSION_V2 <=? headerVersion then
    let rewardAmount :=
      if MaxReward <? add64 minted rewardAmount
      then (if minted <? MaxReward then sub64 MaxReward minted else 0)
      else rewardAmount in
    modifyS (λ _, (db, add64 minted rewardAmount));;
    mret rewardAmount
  else mret rewardAmount.

Definition addFees (book : Hash → Z → RewardDB → RewardDB) (fees : gmap Hash Z) (db : RewardDB)
    : RewardDB :=
  foldl (λ db kv, if kv.2 =? 0 then db else book kv.1 kv.2 db) db (map_to_list fees).

Definition addPRV (rewardAmount : Z) (fees : gmap Hash Z) : gmap Hash Z :=
  <[PRVCoinID := add64 (default 0 (fees !! PRVCoinID)) rewardAmount]> fees.

Definition bookInstruction (v : RewardView) (shardIDs : list Z) (blk : RewardBlock) (i : AcceptInst)
    : M (RewardDB * Z) unit :=
  match i with
  | AcceptBlockRewardV3 shardID subsetID txsFee height =>
      amt ← lift (GetRewardAmount v shardID (shardBlockVersion blk shardIDs shardID height) height);
      amt ← capReward (rb_Version blk) amt;
      match txsFee with
      | None => panic
      | Some fees =>
          modifyS (λ st, (addFees (AddShardRewardRequestMultiset (rb_Epoch blk) shardID subsetID)
                            (addPRV amt fees) st.1, st.2))
      end
  | AcceptBlockRewardV1 shardID txsFee height =>
      amt ← lift (GetRewardAmount v shardID (shardBlockVersion blk shardIDs shardID height) height);
      amt ← capReward (rb_Version blk) amt;
      modifyS (λ st, (addFees (AddShardRewardRequest (rb_Epoch blk) shardID)
                        (addPRV amt (default ∅ txsFee)) st.1, st.2))
  | OtherAccept => mret tt
  end.

Fixpoint bookInstructions (v : RewardView) (shardIDs : list Z) (blk : RewardBlock)
    (insts : list AcceptInst) : M (RewardDB * Z) unit :=
  match insts with
  | [] => mret tt
  | i :: insts => bookInstruction v shardIDs blk i;; bookInstructions v shardIDs blk insts
  end.

Definition addShardRewardRequestToBeacon (v : RewardView) (shardIDs : list Z) (blk : RewardBlock)
    : M (RewardDB * Z) unit :=
  bookInstructions v shardIDs blk (rb_Instructions blk).

(** The first block under the limit starts the count from the heights of the shards in the
    block before it ([beaconprocess.go]). *)
Definition startMinted (activeShards : nat) (prevBlk blk : RewardBlock) (minted : Z) : outcome Z :=
  if (rb_Version blk =? INSTANT_FINALITY_VERSION_V2) && (rb_Version prevBlk <? INSTANT_FINALITY_VERSION_V2)
  then
    if bool_decide (map_Forall (λ _ l, l ≠ []) (rb_ShardStates prevBlk))
    then CalculateMintedPRVWithDefaultBlocktime activeShards
           ((λ l, default 0 (fst <$> last l)) <$> rb_ShardStates prevBlk)
    else Panic
  else Ok minted.
End booking.

(** ** Splitting the reward of a shard ([consensus_reward_rule.go]) *)
Record SplitRewardEnvironment := mkSplitEnv {
  se_ShardID : Z;
  se_SubsetID : Z;
  se_TotalReward : gmap Hash Z;
  se_IsSplitRewardForCustodian : bool;
  se_PercentCustodianReward : Z;
  se_DAOPercent : Z;
  se_ActiveShards : Z;
  se_MaxSubsetCommittees : Z;
  se_BeaconCommittee : list string;
  se_ShardCommittee : gmap Z (list string) }.

(** The four parts of one amount. *)
Record Parts := mkParts { forBeacon : Z; forShard : Z; forIncDAO : Z; forCustodian : Z }.

(** The maps a rule returns; custodians have an entry only when they get a share. *)
Record SplitResult := mkSplit {
  rewardForBeacon : gmap Hash Z;
  rewardForShard : gmap Hash Z;
  rewardForIncDAO : gmap Hash Z;
  rewardForCustodian : gmap Hash Z }.

Definition splitMaps (env : SplitRewardEnvironment) (parts : Z → Parts) : SplitResult :=
  let m := parts <$> se_TotalReward env in
  mkSplit (forBeacon <$> m) (forShard <$> m) (forIncDAO <$> m)
    (if se_IsSplitRewardForCustodian env then forCustodian <$> m else ∅).

(** The DAO's share of an amount and the custodians' share of that. *)
Definition daoAndCustodians (env : SplitRewardEnvironment) (totalReward : Z) : Z :=
  mul64 (u64 (se_DAOPercent env)) totalReward / 100.
Definition custodianPart (env : SplitRewardEnvironment) (dao : Z) : Z :=
  if se_IsSplitRewardForCustodian env then mul64 (se_PercentCustodianReward env) dao / 100 else 0.

Definition RewardSplitRuleV1 (env : SplitRewardEnvironment) : outcome SplitResult :=
  let devPercent := u64 (se_DAOPercent env) in
  let divisor := mul64 (add64 (u64 (se_ActiveShards env)) 2) 100 in
  if bool_decide (se_TotalReward env = ∅) then Ok (mkSplit ∅ ∅ ∅ ∅)
  else if divisor =? 0 then Panic
  else Ok (splitMaps env (λ totalReward,
    let beacon := mul64 2 (mul64 (sub64 100 devPercent) totalReward) / divisor in
    let dao := daoAndCustodians env totalReward in
    let custodian := custodianPart env dao in
    mkParts beacon (sub64 totalReward (add64 beacon dao)) (sub64 dao custodian) custodian)).

Section floats.
Context `{!OutOfRange}.

(** The parts of an amount when the shard gets its share by weight and the beacon the rest. *)
Definition weightedParts (env : SplitRewardEnvironment) (shardWeight beaconWeight : f64)
    (totalReward : Z) : Parts :=
  let dao := daoAndCustodians env totalReward in
  let validators := sub64 totalReward dao in
  let shard := toUint64 (fdiv (fmul shardWeight (floatOf validators)) (fadd shardWeight beaconWeight)) in
  let custodian := custodianPart env dao in
  mkParts (sub64 totalReward (add64 shard dao)) shard (sub64 dao custodian) custodian.

Definition committeeOf (env : SplitRewardEnvironment) : list string :=
  default [] (se_ShardCommittee env !! se_ShardID env).
Definition lenOf {A} (l : list A) : Z := Z.of_nat (List.length l).

Definition RewardSplitRuleV2 (env : SplitRewardEnvironment) : outcome SplitResult :=
  let shardWeight := floatOf (lenOf (committeeOf env)) in
  let beaconWeight := fdiv (fmul (floatOf 2) (floatOf (lenOf (se_BeaconCommittee env))))
                        (floatOf (Z.of_nat (size (se_ShardCommittee env)))) in
  if bool_decide (se_TotalReward env = ∅) then Ok (mkSplit ∅ ∅ ∅ ∅)
  else Ok (splitMaps env (weightedParts env shardWeight beaconWeight)).

(** The members of a subset: the first one takes those left over. *)
Definition subsetSize (env : SplitRewardEnvironment) : Z :=
  let n := lenOf (committeeOf env) in
  let k := se_MaxSubsetCommittees env in
  if (negb (n mod k =? 0)) && (se_SubsetID env mod k =? 0) then n / k + n mod k else n / k.

Definition RewardSplitRuleV3 (env : SplitRewardEnvironment) : outcome SplitResult :=
  if se_MaxSubsetCommittees env =? 0 then Panic
  else
    let shardSubsetWeight := floatOf (subsetSize env) in
    let beaconWeight := fdiv (floatOf (lenOf (se_BeaconCommittee env)))
                          (floatOf (Z.of_nat (size (se_ShardCommittee env)))) in
    if bool_decide (se_TotalReward env = ∅) then Ok (mkSplit ∅ ∅ ∅ ∅)
    else Ok (splitMaps env (weightedParts env shardSubsetWeight beaconWeight)).

Definition GetRewardSplitRule (blockVersion : Z) : SplitRewardEnvironment → outcome SplitResult :=
  if INSTANT_FINALITY_VERSION_V2 <=? blockVersion then RewardSplitRuleV2
  else if BLOCK_PRODUCINGV3_VERSION <=? blockVersion then RewardSplitRuleV3
  else RewardSplitRuleV1.

(** ** The rewards of an epoch *)

(** The state of the beacon chain the rewards depend on. *)
Record EpochView := mkEpochView {
  ev_RewardView : RewardView;
  ev_RewardDB : RewardDB;
  ev_ActiveShards : nat;
  ev_BeaconCommittee : list string;
  ev_ShardCommittee : gmap Z (list string) }.

(** The sums over the shards; [ep_Shards] has a map per shard, or per subset of a shard. *)
Record EpochRewards := mkEpoch {
  ep_Beacon : gmap Hash Z;
  ep_Shards : list (gmap Hash Z);
  ep_IncDAO : gmap Hash Z;
  ep_Custodian : gmap Hash Z }.

(** What an epoch booked, without the tokens that booked nothing. *)
Definition collectRewards (get : Hash → Z) (coins : list Hash) : gmap Hash Z :=
  foldl (λ m c, if get c =? 0 then delete c m else <[c := get c]> m) ∅ coins.

Definition addSplit (r : SplitResult) (acc : EpochRewards) : EpochRewards :=
  mkEpoch (plusMap (rewardForBeacon r) (ep_Beacon acc))
    (ep_Shards acc ++ [plusMap (rewardForShard r) ∅])
    (plusMap (rewardForIncDAO r) (ep_IncDAO acc))
    (plusMap (rewardForCustodian r) (ep_Custodian acc)).

Fixpoint splitAll (rule : SplitRewardEnvironment → outcome SplitResult)
    (envs : list SplitRewardEnvironment) (acc : EpochRewards) : outcome EpochRewards :=
  match envs with
  | [] => Ok acc
  | env :: envs => r ← rule env; splitAll rule envs (addSplit r acc)
  end.

Context `{!RewardConfig}.

Definition NewSplitRewardEnvironmentV1 (shardID : Z) (totalReward : gmap Hash Z) (isSplit : bool)
    (percentCustodian daoPercent activeShards : Z) (v : EpochView) : SplitRewardEnvironment :=
  mkSplitEnv shardID 0 totalReward isSplit percentCustodian daoPercent activeShards 1
    (ev_BeaconCommittee v) (ev_ShardCommittee v).

Definition NewSplitRewardEnvironmentMultiset (shardID subsetID : Z) (totalReward : gmap Hash Z)
    (isSplit : bool) (percentCustodian daoPercent : Z) (v : EpochView) : SplitRewardEnvironment :=
  mkSplitEnv shardID subsetID totalReward isSplit percentCustodian daoPercent 0 MaxSubsetCommittees
    (ev_BeaconCommittee v) (ev_ShardCommittee v).

(** What a shard, or a subset of a shard, booked. *)
Definition totalRewards (v : EpochView) (epoch : Z) (id : nat) : gmap Hash Z :=
  collectRewards (GetRewardOfShardByEpoch (ev_RewardDB v) epoch (byteOf id))
    (GetAllTokenIDForReward (ev_RewardDB v) epoch).
Definition totalRewardsMultiset (v : EpochView) (epoch : Z) (id sub : nat) : gmap Hash Z :=
  collectRewards (GetRewardOfShardByEpochMultiset (ev_RewardDB v) epoch (byteOf id) (byteOf sub))
    (GetAllTokenIDForRewardMultiset (ev_RewardDB v) epoch).

(** The shards with their subsets, in the order of the loops. *)
Definition subsets (n : nat) : list (nat * nat) :=
  id ← seq 0 n; sub ← seq 0 (Z.to_nat MaxSubsetCommittees); [(id, sub)].

Definition calculateReward (rule : SplitRewardEnvironment → outcome SplitResult) (v : EpochView)
    (beaconHeight epoch : Z) (isSplit : bool) (percentCustodian : Z) : outcome EpochRewards :=
  year ← getYearOfBlockChain (rv_TSManager (ev_RewardView v)) beaconHeight;
  splitAll rule
    ((λ id, NewSplitRewardEnvironmentV1 (byteOf id) (totalRewards v epoch id) isSplit
              percentCustodian (getPercentForIncognitoDAOV2 year) (Z.of_nat (ev_ActiveShards v)) v)
       <$> seq 0 (ev_ActiveShards v))
    (mkEpoch ∅ [] ∅ ∅).

Definition calculateRewardMultiset (rule : SplitRewardEnvironment → outcome SplitResult)
    (v : EpochView) (beaconHeight epoch : Z) (isSplit : bool) (percentCustodian : Z)
    : outcome EpochRewards :=
  year ← getYearOfBlockChain (rv_TSManager (ev_RewardView v)) beaconHeight;
  splitAll rule
    ((λ '(id, sub), NewSplitRewardEnvironmentMultiset (byteOf id) (byteOf sub)
              (totalRewardsMultiset v epoch id sub) isSplit percentCustodian
              (getPercentForIncognitoDAOV2 year) v)
       <$> subsets (ev_ActiveShards v))
    (mkEpoch ∅ [] ∅ ∅).
End floats.
