(* ===== verification/RewardPay.v ===== *)
(** The instructions that pay an epoch's rewards, what the shards credit for them, and the
    credits of a validator ([blockchain/salary.go], [metadata/beaconblockreward.go],
    [metadata/devblockreward.go], [dataaccessobject/statedb/accessor_reward.go]). *)
From S2P Require Import Prelude Hash Timeslot Float64 Rewards.
From Stdlib Require Import Ascii String.

Local Open Scope Z_scope.

(** ** Credits: per public key and token, in the reward database of a shard

    The database names a record by the base58 text of a public key; here it is the key itself,
    a string of bytes. *)
Definition RewardState := gmap string (gmap Hash Z).

Definition AddCommitteeReward (pk : string) (committeeReward : Z) (tokenID : Hash)
    (st : RewardState) : RewardState :=
  let m := default ∅ (st !! pk) in
  let amount := match m !! tokenID with
                | Some a => add64 committeeReward a | None => committeeReward end in
  <[pk := <[tokenID := amount]> m]> st.

Definition GetCommitteeReward (st : RewardState) (pk : string) (tokenID : Hash) : Z :=
  match st !! pk with
  | None => 0
  | Some m => default 0 (m !! tokenID)
  end.

Definition RemoveCommitteeReward (pk : string) (withdrawAmount : Z) (tokenID : Hash)
    : M RewardState unit :=
  st ← getS;
  match st !! pk with
  | None => mret tt
  | Some m =>
      let currentReward := default 0 (m !! tokenID) in
      if currentReward <? withdrawAmount then fail "RemoveCommitteeRewardError"
      else
        let remain := sub64 currentReward withdrawAmount in
        let m := if remain =? 0 then delete tokenID m else <[tokenID := remain]> m in
        modifyS (λ st, if bool_decide (m = ∅) then delete pk st else <[pk := m]> st)
  end.

(** ** The instructions *)
Inductive SalaryInst :=
  | BeaconReward (shardID : Z) (payTo : string) (reward : gmap Hash Z)
  | IncDAOReward (shardID : Z) (reward : gmap Hash Z)
  | ShardReceiveRewardV1 (shardID epoch : Z) (reward : gmap Hash Z)
  | ShardReceiveRewardV3 (shardID subsetID epoch : Z) (reward : gmap Hash Z)
  | OtherSalary.

Section building.
Context `{!OutOfRange, !RewardConfig}.

(** [pk[i]]. *)
Definition byteAt (pk : string) (i : nat) : outcome Z :=
  match String.get i pk with
  | Some c => Ok (Z.of_N (N_of_ascii c))
  | None => Panic
  end.

Definition GetShardIDFromLastByte (b : Z) : outcome Z :=
  if MaxShardNumber =? 0 then Panic else Ok (Z.rem b MaxShardNumber).

(** The shard of a key by its last byte, and by the last byte a key should have. *)
Definition shardOfLast (pk : string) : outcome Z :=
  b ← byteAt pk (String.length pk - 1); GetShardIDFromLastByte b.
Definition shardOfKey (pk : string) : outcome Z :=
  b ← byteAt pk 31; GetShardIDFromLastByte b.

Definition BuildInstForBeaconReward (reward : gmap Hash Z) (payToPublicKey : string)
    : outcome SalaryInst :=
  shardID ← shardOfLast payToPublicKey;
  Ok (BeaconReward shardID payToPublicKey reward).

Fixpoint beaconInsts (baseRewards : gmap Hash Z) (receivers : list string) : outcome (list SalaryInst) :=
  match receivers with
  | [] => Ok []
  | pk :: receivers =>
      i ← BuildInstForBeaconReward baseRewards pk;
      is_ ← beaconInsts baseRewards receivers;
      Ok (i :: is_)
  end.

Definition buildInstRewardForBeacons (totalReward : gmap Hash Z) (rewardReceiver : list string)
    : outcome (list SalaryInst) :=
  let n := lenOf rewardReceiver in
  if (n =? 0) && negb (bool_decide (totalReward = ∅)) then Panic
  else beaconInsts ((λ value, value / n) <$> totalReward) rewardReceiver.

Definition BuildInstForIncDAOReward (reward : gmap Hash Z) : outcome SalaryInst :=
  shardID ← shardOfLast IncognitoDAOPk;
  Ok (IncDAOReward shardID reward).

Definition buildInstRewardForIncDAO (totalReward : gmap Hash Z) : outcome (list SalaryInst) :=
  i ← BuildInstForIncDAOReward totalReward; Ok [i].

(** One instruction per shard, or subset of a shard, that earned something. *)
Definition buildInstructionRewardForShards (epoch : Z) (totalRewards : list (gmap Hash Z))
    : list SalaryInst :=
  (λ kr, ShardReceiveRewardV1 (byteOf kr.1) epoch kr.2) <$>
    filter (λ kr, kr.2 ≠ ∅) (zip (seq 0 (List.length totalRewards)) totalRewards).

Definition buildInstructionRewardForShardsV3 (epoch : Z) (activeShards : nat)
    (totalRewards : list (gmap Hash Z)) : list SalaryInst :=
  (λ kr, ShardReceiveRewardV3 (byteOf kr.1.1) (byteOf kr.1.2) epoch kr.2) <$>
    filter (λ kr, kr.2 ≠ ∅) (zip (subsets activeShards) totalRewards).

(** The exchange's part of what the DAO got in the native coin. *)
Definition splitPdex (isSplitRewardForPdex : bool) (pdexRewardPercent : Z) (dao : gmap Hash Z)
    : outcome (gmap Hash Z * Z) :=
  let prvReward := default 0 (dao !! PRVCoinID) in
  if (0 <? prvReward) && isSplitRewardForPdex then
    let temp := prvReward * pdexRewardPercent / 100 in
    if isU64 temp then Ok (<[PRVCoinID := sub64 prvReward temp]> dao, temp)
    else Err "Reward for Pdex is not uint64"
  else Ok (dao, 0).

(** The instructions of an epoch, what the custodians get and what the exchange gets.  The
    receivers are the keys [GetNonSlashingRewardReceiver] returns for the beacon committee. *)
Definition buildRewardInstructionByEpoch (v : EpochView) (receivers : outcome (list string))
    (blkHeight epoch : Z) (isSplitRewardForCustodian : bool) (percentCustodianRewards : Z)
    (isSplitRewardForPdex : bool) (pdexRewardPercent : Z) (blockVersion : Z)
    : outcome (list SalaryInst * gmap Hash Z * Z) :=
  let rule := GetRewardSplitRule blockVersion in
  let subsetVersion :=
    (BLOCK_PRODUCINGV3_VERSION <=? blockVersion) && (blockVersion <? INSTANT_FINALITY_VERSION_V2) in
  total ← (if subsetVersion
           then calculateRewardMultiset rule v blkHeight epoch isSplitRewardForCustodian
                  percentCustodianRewards
           else calculateReward rule v blkHeight epoch isSplitRewardForCustodian
                  percentCustodianRewards);
  let instRewardForShards :=
    if subsetVersion
    then buildInstructionRewardForShardsV3 epoch (ev_ActiveShards v) (ep_Shards total)
    else buildInstructionRewardForShards epoch (ep_Shards total) in
  instRewardForBeacons ← (if bool_decide (ep_Beacon total = ∅) then Ok []
                          else rs ← receivers; buildInstRewardForBeacons (ep_Beacon total) rs);
  '(instRewardForIncDAO, rewardForPdex) ←
    (if bool_decide (ep_IncDAO total = ∅) then Ok ([], 0)
     else '(dao, pdex) ← splitPdex isSplitRewardForPdex pdexRewardPercent (ep_IncDAO total);
          is_ ← buildInstRewardForIncDAO dao; Ok (is_, pdex));
  Ok (instRewardForBeacons ++ instRewardForIncDAO ++ instRewardForShards,
      ep_Custodian total, rewardForPdex).
End building.

(** ** Paying on a shard *)

(** A member of a committee and the key its reward goes to. *)
Record Staker := mkStaker { CommitteePublicKey : string; RewardReceiverPk : string }.

(** What the beacon chain stored about the committees of an epoch: the members of every shard
    before and after the change of [EnableSlashingHeightV2], the members slashed in an epoch,
    and the epoch of the best beacon view. *)
Record CommitteeStore := mkCommitteeStore {
  cs_CommitteeStakeInfo : Z → outcome (gmap Z (list Staker));
  cs_CommitteeStakeInfoSlashingVersion : Z → outcome (gmap Z (list Staker));
  cs_SlashingCommittee : Z → gmap Z (list string);
  cs_BestEpoch : Z }.

Definition filterNonSlashingCommittee (committees : list Staker) (slashing : list string) : list Staker :=
  filter (λ c, CommitteePublicKey c ∉ slashing) committees.

Definition GetNonSlashingCommittee (cs : CommitteeStore) (committees : list Staker)
    (epoch shardID : Z) : outcome (list Staker) :=
  if cs_BestEpoch cs <=? epoch then Err "Can't get committee to pay salary"
  else Ok (filterNonSlashingCommittee committees (default [] (cs_SlashingCommittee cs epoch !! shardID))).

(** The members of a subset. *)
Definition getCommitteeToPayRewardMultiset (committees : list Staker) (subsetID : Z) : list Staker :=
  snd <$> filter (λ ic, Z.of_nat ic.1 mod MaxSubsetCommittees = subsetID)
            (zip (seq 0 (List.length committees)) committees).

(** Crediting a key with every entry of a map. *)
Definition addRewards (pk : string) (reward : gmap Hash Z) (st : RewardState) : RewardState :=
  foldl (λ st kv, AddCommitteeReward pk kv.2 kv.1 st) st (map_to_list reward).

Section paying.
Context `{!RewardConfig}.

Fixpoint addShardCommitteeRewardLoop (shardID : Z) (share : gmap Hash Z) (stakers : list Staker)
    : M RewardState unit :=
  match stakers with
  | [] => mret tt
  | candidate :: stakers =>
      sh ← lift (shardOfKey (RewardReceiverPk candidate));
      (if sh =? shardID then modifyS (addRewards (RewardReceiverPk candidate) share) else mret tt);;
      addShardCommitteeRewardLoop shardID share stakers
  end.

Definition addShardCommitteeReward (shardID : Z) (reward : gmap Hash Z) (stakers : list Staker)
    : M RewardState unit :=
  addShardCommitteeRewardLoop shardID ((λ value, value / lenOf stakers) <$> reward) stakers.

(** The committee an instruction pays. *)
Definition stakersToPay (cs : CommitteeStore) (confirmBeaconHeight shardToProcess epoch : Z)
    (choose : list Staker → list Staker) : outcome (list Staker) :=
  if confirmBeaconHeight <? EnableSlashingHeightV2 then
    cInfos ← cs_CommitteeStakeInfo cs epoch;
    Ok (choose (default [] (cInfos !! shardToProcess)))
  else
    cInfosV2 ← cs_CommitteeStakeInfoSlashingVersion cs epoch;
    GetNonSlashingCommittee cs (choose (default [] (cInfosV2 !! shardToProcess))) epoch shardToProcess.

Definition processSalaryInstruction (cs : CommitteeStore) (confirmBeaconHeight shardID : Z)
    (i : SalaryInst) : M RewardState unit :=
  match i with
  | ShardReceiveRewardV3 shardToProcess subsetID epoch reward =>
      if epoch =? 0 then mret tt
      else
        stakers ← lift (stakersToPay cs confirmBeaconHeight shardToProcess epoch
                          (λ l, getCommitteeToPayRewardMultiset l subsetID));
        addShardCommitteeReward shardID reward stakers
  | BeaconReward shardToProcess payTo reward =>
      if shardToProcess =? shardID then modifyS (addRewards payTo reward) else mret tt
  | IncDAOReward shardToProcess reward =>
      if shardToProcess =? shardID then modifyS (addRewards IncognitoDAOPk reward) else mret tt
  | ShardReceiveRewardV1 shardToProcess epoch reward =>
      stakers ← lift (stakersToPay cs confirmBeaconHeight shardToProcess epoch id);
      addShardCommitteeReward shardID reward stakers
  | OtherSalary => mret tt
  end.

(** The instructions of the beacon blocks a shard block confirms. *)
Fixpoint processSalaryInstructions (cs : CommitteeStore) (confirmBeaconHeight shardID : Z)
    (insts : list SalaryInst) : M RewardState unit :=
  match insts with
  | [] => mret tt
  | i :: insts =>
      processSalaryInstruction cs confirmBeaconHeight shardID i;;
      processSalaryInstructions cs confirmBeaconHeight shardID insts
  end.
End paying.
