(* ===== verification/RewardEpoch.v ===== *)
(** The split of a reward is exact: beacon, shard, DAO and custodians get non-negative parts
    that add up to the amount, under each of the three rules.  So is the split of an epoch over
    all shards, and the instructions built from it carry, with the parts of custodians and of
    the exchange, what the epoch booked, but for what the division among the beacon validators
    leaves. *)
From S2P Require Import Prelude Hash Timeslot Float64 Rewards RewardPay.
From Stdlib Require Import Ascii String.

Local Open Scope Z_scope.

(** *** Amounts *)
Definition partsTotal (p : Parts) : Z := forBeacon p + forShard p + forIncDAO p + forCustodian p.
Definition partsNonneg (p : Parts) : Prop :=
  0 ≤ forBeacon p ∧ 0 ≤ forShard p ∧ 0 ≤ forIncDAO p ∧ 0 ≤ forCustodian p.

(** The parts of a token. *)
Definition partsOf (r : SplitResult) (coin : Hash) : Parts :=
  mkParts (default 0 (rewardForBeacon r !! coin)) (default 0 (rewardForShard r !! coin))
    (default 0 (rewardForIncDAO r !! coin)) (default 0 (rewardForCustodian r !! coin)).

(** Percentages are percentages, amounts stay below what [float64] holds exactly. *)
Record saneSplit (env : SplitRewardEnvironment) : Prop := mkSaneSplit {
  ss_dao : 0 ≤ se_DAOPercent env ≤ 100;
  ss_custodian : 0 ≤ se_PercentCustodianReward env ≤ 100;
  ss_shards : 0 ≤ se_ActiveShards env ≤ 2 ^ 32;
  ss_amounts : map_Forall (λ _ x, 0 ≤ x < 2 ^ 52) (se_TotalReward env);
  ss_beacon : lenOf (se_BeaconCommittee env) ≤ 2 ^ 32;
  ss_committees : 0 < Z.of_nat (size (se_ShardCommittee env)) ≤ 2 ^ 32;
  ss_committee : 0 < lenOf (committeeOf env) ≤ 2 ^ 32;
  ss_subsets : 0 < se_MaxSubsetCommittees env < 256;
  ss_subset : 0 < subsetSize env }.

Lemma mul64_small x y n : 0 ≤ x → 0 ≤ y → x * y ≤ n → n < word64 → mul64 x y = x * y.
Proof. intros. unfold mul64. apply u64_small. unfold in_u64. lia. Qed.

Section exact.
Context (env : SplitRewardEnvironment) (T : Z).
Hypothesis Hdao : 0 ≤ se_DAOPercent env ≤ 100.
Hypothesis Hcust : 0 ≤ se_PercentCustodianReward env ≤ 100.
Hypothesis HT : 0 ≤ T < 2 ^ 52.

Lemma dao_value : daoAndCustodians env T = se_DAOPercent env * T / 100.
Proof.
  unfold daoAndCustodians. change (2 ^ 52) with 4503599627370496 in HT.
  rewrite (u64_small (se_DAOPercent env)) by (unfold in_u64, word64; lia).
  rewrite (mul64_small _ _ 450359962737049600); [done|lia|lia|nia|reflexivity].
Qed.

Lemma dao_bounds : 0 ≤ daoAndCustodians env T ≤ T ∧ 100 * daoAndCustodians env T ≤ se_DAOPercent env * T.
Proof.
  rewrite dao_value. change (2 ^ 52) with 4503599627370496 in HT.
  pose proof (div_spec (se_DAOPercent env * T) 100). pose proof (div_nonneg (se_DAOPercent env * T) 100).
  nia.
Qed.

Lemma custodian_bounds : let d := daoAndCustodians env T in 0 ≤ custodianPart env d ≤ d.
Proof.
  cbv zeta. pose proof dao_bounds as [Hd _]. generalize dependent (daoAndCustodians env T).
  change (2 ^ 52) with 4503599627370496 in HT. intros d Hd. unfold custodianPart.
  destruct (se_IsSplitRewardForCustodian env); [|lia].
  rewrite (mul64_small _ _ 450359962737049600); [|lia|lia|nia|reflexivity].
  pose proof (div_spec (se_PercentCustodianReward env * d) 100).
  pose proof (div_nonneg (se_PercentCustodianReward env * d) 100). nia.
Qed.

(** Whatever one side of the validators gets, the other gets the rest. *)
Lemma rest_exact x : 0 ≤ x ≤ T - daoAndCustodians env T →
  let d := daoAndCustodians env T in let c := custodianPart env d in
  0 ≤ sub64 T (add64 x d) ∧ 0 ≤ sub64 d c ∧ sub64 T (add64 x d) + x + sub64 d c + c = T.
Proof.
  intros Hx d c. pose proof dao_bounds as [Hd _]. pose proof custodian_bounds as Hc.
  cbv zeta in Hc. fold d in Hx, Hd, Hc. fold c in Hc. clearbody d. clearbody c.
  change (2 ^ 52) with 4503599627370496 in HT.
  unfold add64. rewrite (u64_small (x + d)) by (unfold in_u64, word64; lia).
  rewrite !sub64_exact; unfold in_u64, word64; lia.
Qed.
End exact.

Section rules.
Context `{!OutOfRange} (env : SplitRewardEnvironment) (Hsane : saneSplit env).

(** The shard's part by weight. *)
Lemma weightedParts_exact w b T : 0 < w ≤ 2 ^ 52 → wf_f64 b → below b (2 ^ 52) 1 → 0 ≤ T < 2 ^ 52 →
  partsNonneg (weightedParts env (floatOf w) b T) ∧ partsTotal (weightedParts env (floatOf w) b T) = T.
Proof.
  intros Hw Hb Hb2 HT. pose proof (dao_bounds env T (ss_dao _ Hsane) HT) as [Hd _].
  assert (sub64 T (daoAndCustodians env T) = T - daoAndCustodians env T) as He.
  { change (2 ^ 52) with 4503599627370496 in HT. apply sub64_exact; unfold in_u64, word64; lia. }
  assert (0 ≤ T - daoAndCustodians env T < 2 ^ 52) as HX by lia.
  pose proof (float_share w b _ Hw HX Hb Hb2) as Hs.
  pose proof (custodian_bounds env T (ss_dao _ Hsane) (ss_custodian _ Hsane) HT) as Hc.
  pose proof (rest_exact env T (ss_dao _ Hsane) (ss_custodian _ Hsane) HT _ Hs) as (H1 & H2 & H3).
  unfold partsNonneg, partsTotal, weightedParts; cbn [forBeacon forShard forIncDAO forCustodian].
  rewrite He. cbv zeta in Hc, H1, H2, H3. lia.
Qed.

(** The weight of the beacon committee per shard. *)
Lemma beaconWeight_ok x n k : wf_f64 x → below x n 1 → 0 ≤ n ≤ 2 ^ 33 → 0 < k ≤ 2 ^ 32 →
  wf_f64 (fdiv x (floatOf k)) ∧ below (fdiv x (floatOf k)) (2 ^ 52) 1.
Proof.
  intros Hx Hn Hnb Hk. apply fdiv_int; [done| | |].
  - destruct x as [a b| |]; [|done..]. cbn in *.
    change (2 ^ 52) with 4503599627370496. change (2 ^ 33) with 8589934592 in Hnb. nia.
  - change (2 ^ 32) with 4294967296 in Hk. change (2 ^ 53) with 9007199254740992. lia.
  - by vm_compute.
Qed.

(** The maps of the rule, from the parts of each amount. *)
Lemma splitMaps_exact (parts : Z → Parts) coin :
  (∀ T, 0 ≤ T < 2 ^ 52 → partsNonneg (parts T) ∧ partsTotal (parts T) = T) →
  (∀ T, 0 ≤ T < 2 ^ 52 → se_IsSplitRewardForCustodian env = false → forCustodian (parts T) = 0) →
  partsNonneg (partsOf (splitMaps env parts) coin) ∧
  partsTotal (partsOf (splitMaps env parts) coin) = default 0 (se_TotalReward env !! coin).
Proof.
  intros Hp Hc. unfold partsOf, splitMaps. cbn [rewardForBeacon rewardForShard rewardForIncDAO rewardForCustodian].
  destruct (se_TotalReward env !! coin) as [T|] eqn:HT.
  - pose proof (ss_amounts _ Hsane _ _ HT) as HTb. specialize (Hp T HTb). specialize (Hc T HTb).
    destruct (se_IsSplitRewardForCustodian env); rewrite ?lookup_empty, !lookup_fmap, HT; cbn;
      [by destruct (parts T)|].
    unfold partsNonneg, partsTotal in *. cbn. rewrite Hc in Hp by done. lia.
  - unfold partsNonneg, partsTotal.
    destruct (se_IsSplitRewardForCustodian env); rewrite ?lookup_empty, !lookup_fmap, HT; cbn; lia.
Qed.

Lemma no_rewards coin : se_TotalReward env = ∅ →
  partsNonneg (partsOf (mkSplit ∅ ∅ ∅ ∅) coin) ∧
  partsTotal (partsOf (mkSplit ∅ ∅ ∅ ∅) coin) = default 0 (se_TotalReward env !! coin).
Proof. intros ->. unfold partsNonneg, partsTotal, partsOf; cbn. rewrite lookup_empty. cbn. lia. Qed.

Lemma partsV1_exact T : 0 ≤ T < 2 ^ 52 →
  let divisor := mul64 (add64 (u64 (se_ActiveShards env)) 2) 100 in
  let beacon := mul64 2 (mul64 (sub64 100 (u64 (se_DAOPercent env))) T) / divisor in
  divisor ≠ 0 ∧ 0 ≤ beacon ≤ T - daoAndCustodians env T.
Proof.
  intros HT. pose proof (ss_shards _ Hsane) as HA. pose proof (ss_dao _ Hsane) as HD.
  pose proof (dao_bounds env T HD HT) as [_ Hd]. cbv zeta.
  change (2 ^ 52) with 4503599627370496 in HT. change (2 ^ 32) with 4294967296 in HA.
  rewrite (u64_small (se_ActiveShards env)), (u64_small (se_DAOPercent env)) by (unfold in_u64, word64; lia).
  assert (add64 (se_ActiveShards env) 2 = se_ActiveShards env + 2) as ->.
  { unfold add64. apply u64_small. unfold in_u64, word64. lia. }
  assert (sub64 100 (se_DAOPercent env) = 100 - se_DAOPercent env) as ->.
  { apply sub64_exact; unfold in_u64, word64; lia. }
  rewrite (mul64_small (se_ActiveShards env + 2) 100 429496730000) by (unfold word64; lia).
  rewrite (mul64_small (100 - _) T 450359962737049600) by (unfold word64; nia).
  rewrite (mul64_small 2 _ 900719925474099200) by (unfold word64; nia).
  split; [lia|]. set (A := se_ActiveShards env) in *. set (D := se_DAOPercent env) in *.
  assert (0 ≤ (100 - D) * T) as Hn by nia.
  pose proof (div_spec (2 * ((100 - D) * T)) ((A + 2) * 100) ltac:(lia)) as Hb.
  pose proof (div_nonneg (2 * ((100 - D) * T)) ((A + 2) * 100) ltac:(lia) ltac:(lia)) as Hb0.
  set (b := 2 * ((100 - D) * T) / ((A + 2) * 100)) in *. clearbody b.
  assert (2 * 100 * b ≤ (A + 2) * 100 * b) by nia. lia.
Qed.

Lemma RewardSplitRuleV1_exact : ∃ r, RewardSplitRuleV1 env = Ok r ∧
  ∀ coin, partsNonneg (partsOf r coin) ∧ partsTotal (partsOf r coin) = default 0 (se_TotalReward env !! coin).
Proof.
  unfold RewardSplitRuleV1. case_bool_decide as He; [eexists; split; [done|]; intros; by apply no_rewards|].
  destruct (Z.eqb_spec (mul64 (add64 (u64 (se_ActiveShards env)) 2) 100) 0) as [Hz|_].
  { destruct (partsV1_exact 0) as [Hd _]; [|by rewrite Hz in Hd]. done. }
  eexists. split; [done|]. intros coin. apply splitMaps_exact.
  - intros T HT. pose proof (partsV1_exact T HT) as [_ Hb]. cbv zeta in Hb.
    pose proof (custodian_bounds env T (ss_dao _ Hsane) (ss_custodian _ Hsane) HT) as Hc.
    pose proof (rest_exact env T (ss_dao _ Hsane) (ss_custodian _ Hsane) HT _ Hb) as (H1 & H2 & H3).
    unfold partsNonneg, partsTotal; cbn [forBeacon forShard forIncDAO forCustodian].
    cbv zeta in Hc, H1, H2, H3. lia.
  - intros T HT Hf. cbn. unfold custodianPart. by rewrite Hf.
Qed.

(** The weighted rules. *)
Lemma weighted_rule w b : 0 < w ≤ 2 ^ 52 → wf_f64 b → below b (2 ^ 52) 1 →
  ∃ r, (if bool_decide (se_TotalReward env = ∅) then Ok (mkSplit ∅ ∅ ∅ ∅)
        else Ok (splitMaps env (weightedParts env (floatOf w) b))) = Ok r ∧
  ∀ coin, partsNonneg (partsOf r coin) ∧ partsTotal (partsOf r coin) = default 0 (se_TotalReward env !! coin).
Proof.
  intros Hw Hb Hb2. case_bool_decide as He; [eexists; split; [done|]; intros; by apply no_rewards|].
  eexists. split; [done|]. intros coin. apply splitMaps_exact.
  - intros T HT. by apply weightedParts_exact.
  - intros T HT Hf. cbn. unfold custodianPart. by rewrite Hf.
Qed.

Lemma subsetSize_le : subsetSize env ≤ 2 ^ 33.
Proof.
  unfold subsetSize. pose proof (ss_subsets _ Hsane). pose proof (ss_committee _ Hsane) as [Hn Hn2].
  set (n := lenOf (committeeOf env)) in *. set (k := se_MaxSubsetCommittees env) in *.
  change (2 ^ 32) with 4294967296 in Hn2. change (2 ^ 33) with 8589934592.
  assert (n / k ≤ n) by (apply Z.div_le_upper_bound; nia).
  pose proof (Z.mod_le n k). destruct (_ && _); lia.
Qed.

Lemma GetRewardSplitRule_exact version : ∃ r, GetRewardSplitRule version env = Ok r ∧
  ∀ coin, partsNonneg (partsOf r coin) ∧ partsTotal (partsOf r coin) = default 0 (se_TotalReward env !! coin).
Proof.
  assert (0 ≤ lenOf (se_BeaconCommittee env)) as Hn by (unfold lenOf; lia).
  pose proof (ss_beacon _ Hsane) as Hn2. pose proof (ss_committees _ Hsane) as Hk.
  pose proof (ss_committee _ Hsane) as Hc. pose proof (ss_subset _ Hsane) as Hs.
  pose proof subsetSize_le as Hs2.
  change (2 ^ 32) with 4294967296 in Hn2, Hc. change (2 ^ 33) with 8589934592 in Hs2.
  unfold GetRewardSplitRule. destruct (_ <=? version); [|destruct (_ <=? version)].
  - unfold RewardSplitRuleV2. destruct (fmul_int 2 (lenOf (se_BeaconCommittee env))) as [Hwf Hbl];
      [lia|lia|change (2 ^ 53) with 9007199254740992; lia..|].
    destruct (beaconWeight_ok _ _ (Z.of_nat (size (se_ShardCommittee env))) Hwf Hbl) as [Hb Hb2]; [|done|].
    { change (2 ^ 33) with 8589934592. lia. }
    apply weighted_rule; [|done|done]. change (2 ^ 52) with 4503599627370496. lia.
  - unfold RewardSplitRuleV3. destruct (Z.eqb_spec (se_MaxSubsetCommittees env) 0) as [Hz|_].
    { pose proof (ss_subsets _ Hsane). lia. }
    destruct (floatOf_exact (lenOf (se_BeaconCommittee env))) as (c & Hc0 & He);
      [change (2 ^ 53) with 9007199254740992; lia|].
    destruct (beaconWeight_ok (floatOf (lenOf (se_BeaconCommittee env))) (lenOf (se_BeaconCommittee env))
      (Z.of_nat (size (se_ShardCommittee env)))) as [Hb Hb2]; [rewrite He; cbn; nia..| | |].
    { change (2 ^ 33) with 8589934592. lia. } { done. }
    apply weighted_rule; [|done|done]. change (2 ^ 52) with 4503599627370496. lia.
  - apply RewardSplitRuleV1_exact.
Qed.
End rules.

(** *** Amounts by token *)
Definition amountOf (m : gmap Hash Z) (coin : Hash) : Z := default 0 (m !! coin).
Definition nonnegMap (m : gmap Hash Z) : Prop := ∀ coin, 0 ≤ amountOf m coin.

Definition epochTotal (e : EpochRewards) (coin : Hash) : Z :=
  amountOf (ep_Beacon e) coin + list_sum (λ m, amountOf m coin) (ep_Shards e) +
  amountOf (ep_IncDAO e) coin + amountOf (ep_Custodian e) coin.
Definition epochNonneg (e : EpochRewards) : Prop :=
  nonnegMap (ep_Beacon e) ∧ Forall nonnegMap (ep_Shards e) ∧ nonnegMap (ep_IncDAO e) ∧
  nonnegMap (ep_Custodian e).

Definition bookedIn (envs : list SplitRewardEnvironment) (coin : Hash) : Z :=
  list_sum (λ env, amountOf (se_TotalReward env) coin) envs.

(** What an epoch booked for a token, over the shards or over their subsets. *)
Definition isSubsetVersion (blockVersion : Z) : bool :=
  (BLOCK_PRODUCINGV3_VERSION <=? blockVersion) && (blockVersion <? INSTANT_FINALITY_VERSION_V2).
Definition bookedOf (v : EpochView) (epoch blockVersion : Z) (coin : Hash) : Z :=
  if isSubsetVersion blockVersion
  then list_sum (λ ij, GetRewardOfShardByEpochMultiset (ev_RewardDB v) epoch (byteOf ij.1) (byteOf ij.2) coin)
         (subsets (ev_ActiveShards v))
  else list_sum (λ i, GetRewardOfShardByEpoch (ev_RewardDB v) epoch (byteOf i) coin)
         (seq 0 (ev_ActiveShards v)).

(** The amounts are below what [float64] holds, every shard has a committee. *)
Record saneView (v : EpochView) : Prop := mkSaneView {
  sv_shards : (ev_ActiveShards v ≤ 256)%nat;
  sv_requests : map_Forall (λ _ x, 0 ≤ x < 2 ^ 52) (rewardRequests (ev_RewardDB v));
  sv_requestsV3 : map_Forall (λ _ x, 0 ≤ x < 2 ^ 52) (rewardRequestsV3 (ev_RewardDB v));
  sv_beacon : lenOf (ev_BeaconCommittee v) ≤ 2 ^ 32;
  sv_committees : Z.of_nat (size (ev_ShardCommittee v)) ≤ 2 ^ 32;
  sv_committee : ∀ i, (i < ev_ActiveShards v)%nat →
    ∃ l, ev_ShardCommittee v !! byteOf i = Some l ∧ 2 ≤ lenOf l ≤ 2 ^ 32 }.

(** The default block time is set, and a year has blocks. *)
Definition saneBlockTime `{!RewardConfig} : Prop := 0 < blockTime BLOCKTIME_DEFAULT ≤ 31557600.

(** *** Sums *)
Lemma plusMap_amount src dst coin : nonnegMap src → nonnegMap dst →
  amountOf dst coin + amountOf src coin < word64 →
  amountOf (plusMap src dst) coin = amountOf dst coin + amountOf src coin.
Proof.
  intros Hs Hd. specialize (Hs coin). specialize (Hd coin). revert Hs Hd. unfold amountOf, plusMap.
  rewrite lookup_union_with. destruct (src !! coin) as [s|], (dst !! coin) as [d|]; cbn; intros; try lia.
  unfold add64. apply u64_small. unfold in_u64. lia.
Qed.

Lemma amountOf_empty coin : amountOf ∅ coin = 0.
Proof. unfold amountOf. by rewrite lookup_empty. Qed.

Lemma plusMap_empty src coin : amountOf (plusMap src ∅) coin = amountOf src coin.
Proof. unfold amountOf, plusMap. rewrite lookup_union_with, lookup_empty. by destruct (src !! coin). Qed.

Lemma list_sum_nil {A} (f : A → Z) : list_sum f [] = 0.
Proof. done. Qed.

Lemma list_sum_bound {A} (f : A → Z) l b : Forall (λ a, 0 ≤ f a ≤ b) l →
  0 ≤ list_sum f l ≤ Z.of_nat (List.length l) * b.
Proof.
  induction 1 as [|a l Ha Hl IH]; [done|]. rewrite list_sum_cons. cbn [List.length].
  rewrite Nat2Z.inj_succ. lia.
Qed.

Lemma list_sum_ext {A} (f g : A → Z) l : (∀ a, a ∈ l → f a = g a) → list_sum f l = list_sum g l.
Proof.
  induction l as [|a l IH]; [done|]. intros Hfg. rewrite !list_sum_cons, (Hfg a) by set_solver.
  rewrite IH; [done|]. intros. apply Hfg. set_solver.
Qed.

(** *** The split over all shards *)
Section split.
Context `{!OutOfRange}.

Lemma addSplit_total r e coin : epochNonneg e → (∀ c, partsNonneg (partsOf r c)) →
  (∀ c, epochTotal e c + partsTotal (partsOf r c) < word64) →
  epochNonneg (addSplit r e) ∧
  epochTotal (addSplit r e) coin = epochTotal e coin + partsTotal (partsOf r coin).
Proof.
  intros (Hb & Hs & Hd & Hc) Hr Hlt.
  assert (∀ c, 0 ≤ list_sum (λ m, amountOf m c) (ep_Shards e)) as Hsum.
  { intros c. apply list_sum_nonneg. eapply Forall_impl; [exact Hs|]. intros m Hm. apply Hm. }
  assert (∀ c, amountOf (plusMap (rewardForBeacon r) (ep_Beacon e)) c =
      amountOf (ep_Beacon e) c + amountOf (rewardForBeacon r) c ∧
    amountOf (plusMap (rewardForIncDAO r) (ep_IncDAO e)) c =
      amountOf (ep_IncDAO e) c + amountOf (rewardForIncDAO r) c ∧
    amountOf (plusMap (rewardForCustodian r) (ep_Custodian e)) c =
      amountOf (ep_Custodian e) c + amountOf (rewardForCustodian r) c) as Hplus.
  { intros c. specialize (Hlt c). pose proof (Hr c) as (H1 & H2 & H3 & H4). pose proof (Hsum c).
    unfold epochTotal, partsTotal in Hlt. cbn in Hlt, H1, H2, H3, H4. specialize (Hb c) as Hb'.
    specialize (Hd c) as Hd'. specialize (Hc c) as Hc'. unfold amountOf in *.
    split_and!; apply plusMap_amount; try done; try (intros c'; apply Hr); unfold amountOf; lia. }
  split.
  - split_and!; cbn.
    + intros c. destruct (Hplus c) as (-> & _). pose proof (Hr c) as (H1 & _). cbn in H1.
      specialize (Hb c). unfold amountOf in *. lia.
    + apply Forall_app. split; [done|]. apply Forall_singleton. intros c. rewrite plusMap_empty. apply Hr.
    + intros c. destruct (Hplus c) as (_ & -> & _). pose proof (Hr c) as (_ & _ & H1 & _). cbn in H1.
      specialize (Hd c). unfold amountOf in *. lia.
    + intros c. destruct (Hplus c) as (_ & _ & ->). pose proof (Hr c) as (_ & _ & _ & H1). cbn in H1.
      specialize (Hc c). unfold amountOf in *. lia.
  - destruct (Hplus coin) as (E1 & E2 & E3). unfold epochTotal, addSplit.
    cbn [ep_Beacon ep_Shards ep_IncDAO ep_Custodian].
    rewrite E1, E2, E3, list_sum_app, list_sum_cons, plusMap_empty.
    rewrite list_sum_nil.
    change (partsTotal (partsOf r coin)) with (amountOf (rewardForBeacon r) coin +
      amountOf (rewardForShard r) coin + amountOf (rewardForIncDAO r) coin +
      amountOf (rewardForCustodian r) coin). lia.
Qed.

Lemma splitAll_exact version envs e : Forall saneSplit envs → epochNonneg e →
  (∀ c, epochTotal e c + bookedIn envs c < word64) →
  ∃ e', splitAll (GetRewardSplitRule version) envs e = Ok e' ∧ epochNonneg e' ∧
    List.length (ep_Shards e') = (List.length (ep_Shards e) + List.length envs)%nat ∧
    ∀ c, epochTotal e' c = epochTotal e c + bookedIn envs c.
Proof.
  intros Hs. revert e. induction Hs as [|env envs Henv Hs IH]; intros e He Hlt.
  { exists e. cbn. split_and!; [done|done|lia|]. intros c. unfold bookedIn. rewrite list_sum_nil. lia. }
  cbn [splitAll]. destruct (GetRewardSplitRule_exact env Henv version) as (r & -> & Hr). cbn [mbind outcome_bind].
  assert (∀ c, 0 ≤ bookedIn envs c) as Hpos.
  { intros c. apply list_sum_nonneg. eapply Forall_impl; [exact Hs|]. intros env' Hs'. unfold amountOf.
    destruct (_ !! c) eqn:E; cbn; [|done]. pose proof (ss_amounts _ Hs' _ _ E) as [HE _]. exact HE. }
  assert (∀ c, partsTotal (partsOf r c) = amountOf (se_TotalReward env) c) as Ht by (intros c; apply Hr).
  assert (∀ c, epochTotal e c + partsTotal (partsOf r c) < word64) as Hlt'.
  { intros c. specialize (Hlt c). specialize (Hpos c). rewrite Ht. unfold bookedIn in *.
    rewrite list_sum_cons in Hlt. lia. }
  assert (∀ c, epochNonneg (addSplit r e) ∧
    epochTotal (addSplit r e) c = epochTotal e c + partsTotal (partsOf r c)) as Hadd.
  { intros c. apply addSplit_total; [done|intros; apply Hr|done]. }
  destruct (IH (addSplit r e)) as (e' & -> & Hn & Hl & Htot).
  { apply (Hadd PRVCoinID). }
  { intros c. destruct (Hadd c) as [_ ->]. rewrite Ht. specialize (Hlt c). unfold bookedIn in *.
    rewrite list_sum_cons in Hlt. lia. }
  exists e'. split_and!; [done|done| |].
  - rewrite Hl. unfold addSplit; cbn. rewrite length_app. cbn. lia.
  - intros c. rewrite Htot. destruct (Hadd c) as [_ ->]. rewrite Ht. unfold bookedIn.
    rewrite list_sum_cons. lia.
Qed.
End split.

(** *** What an epoch booked *)
Lemma collectRewards_amount get coins c : (∀ c, get c ≠ 0 → c ∈ coins) →
  amountOf (collectRewards get coins) c = get c.
Proof.
  intros Hall. assert (∀ m, amountOf (foldl (λ m c, if get c =? 0 then delete c m else <[c := get c]> m) m coins) c
    = if bool_decide (c ∈ coins) then get c else amountOf m c) as Hf.
  { clear Hall. induction coins as [|c' coins IH]; intros m; cbn [foldl]; [by case_bool_decide; [set_solver|]|].
    rewrite IH. destruct (decide (c = c')) as [<-|Hne].
    - rewrite (bool_decide_eq_true_2 (c ∈ c :: coins)) by set_solver. case_bool_decide; [done|].
      unfold amountOf. destruct (Z.eqb_spec (get c) 0) as [Hz|_]; rewrite ?lookup_delete_eq, ?lookup_insert_eq; cbn; lia.
    - assert (c ∈ c' :: coins ↔ c ∈ coins) as Hiff by set_solver.
      rewrite (bool_decide_ext _ _ Hiff). case_bool_decide; [done|]. unfold amountOf.
      destruct (get c' =? 0); [by rewrite lookup_delete_ne|by rewrite lookup_insert_ne]. }
  unfold collectRewards. rewrite Hf. case_bool_decide as Hin; [done|]. rewrite amountOf_empty.
  destruct (Z.eq_dec (get c) 0) as [->|Hz]; [done|]. by apply Hall in Hz.
Qed.

Lemma totalRewards_amount v epoch id c :
  amountOf (totalRewards v epoch id) c = GetRewardOfShardByEpoch (ev_RewardDB v) epoch (byteOf id) c.
Proof.
  apply (collectRewards_amount (GetRewardOfShardByEpoch (ev_RewardDB v) epoch (byteOf id))).
  intros c'. unfold GetRewardOfShardByEpoch, GetAllTokenIDForReward.
  destruct (_ !! _) as [x|] eqn:E; [|done]. intros _. apply list_elem_of_fmap.
  exists ((epoch, byteOf id, c'), x). split; [done|]. apply list_elem_of_filter. split; [done|].
  by apply elem_of_map_to_list.
Qed.

Lemma totalRewardsMultiset_amount v epoch id sub c :
  amountOf (totalRewardsMultiset v epoch id sub) c =
  GetRewardOfShardByEpochMultiset (ev_RewardDB v) epoch (byteOf id) (byteOf sub) c.
Proof.
  apply (collectRewards_amount (GetRewardOfShardByEpochMultiset (ev_RewardDB v) epoch (byteOf id) (byteOf sub))).
  intros c'. unfold GetRewardOfShardByEpochMultiset, GetAllTokenIDForRewardMultiset.
  destruct (_ !! _) as [x|] eqn:E; [|done]. intros _. apply elem_of_elements, elem_of_list_to_set, list_elem_of_fmap.
  exists ((epoch, byteOf id, byteOf sub, c'), x). split; [done|]. apply list_elem_of_filter. split; [done|].
  by apply elem_of_map_to_list.
Qed.

(** Amounts within a bound, from their sum by token. *)
Lemma amounts_of_collected get coins : (∀ c, 0 ≤ get c < 2 ^ 52) →
  map_Forall (λ _ x, 0 ≤ x < 2 ^ 52) (collectRewards get coins).
Proof.
  intros Hg. unfold collectRewards. assert (map_Forall (λ (_ : Hash) x, 0 ≤ x < 2 ^ 52) (∅ : gmap Hash Z)) as H0.
  { intros ? ?. by rewrite lookup_empty. }
  revert H0. generalize (∅ : gmap Hash Z). induction coins as [|c coins IH]; intros m Hm; [done|].
  cbn [foldl]. apply IH. destruct (_ =? 0); [by apply map_Forall_delete|].
  apply map_Forall_insert_2; [apply Hg|done].
Qed.

Section epoch.
Context `{!OutOfRange, !RewardConfig}.

(** The year is defined when the default block time is sane. *)
Lemma uDiv_pos x y : 0 < y → uDiv x y = Ok (x / y).
Proof. intros Hy. unfold uDiv. destruct (Z.eqb_spec y 0); [lia|done]. Qed.

Lemma getYearOfBlockChain_Ok ts h : saneBlockTime → ∃ year, getYearOfBlockChain ts h = Ok year ∧ 0 ≤ year.
Proof.
  intros Hbt. unfold saneBlockTime in Hbt.
  assert (u64 (blockTime BLOCKTIME_DEFAULT) = blockTime BLOCKTIME_DEFAULT) as Hu.
  { apply u64_small. unfold in_u64, word64. lia. }
  assert (∀ a b c, ∃ z, countBlocks a b c = Ok z ∧ 0 ≤ z) as Hcount.
  { intros a b c. unfold countBlocks. rewrite Hu, uDiv_pos by lia. eexists. split; [done|].
    apply div_nonneg; [apply u64_bound|lia]. }
  assert (∀ anchors h a b c t, 0 ≤ t → ∃ z, yearLoop anchors h a b c t = Ok z ∧ 0 ≤ z) as Hloop.
  { clear h ts. intros anchors. induction anchors as [|x anchors IH]; intros h a b c t Ht; cbn [yearLoop].
    - destruct (_ <? _); [|by exists t]. destruct (Hcount a h c) as (z & -> & Hz). cbn.
      eexists. split; [done|]. apply u64_bound.
    - destruct (Hcount a (if h <? BlockHeight x then h else BlockHeight x) c) as (z & -> & Hz). cbn [mbind outcome_bind].
      apply IH. apply u64_bound. }
  unfold getYearOfBlockChain. destruct (Hloop (Anchors ts) h 0 0 (blockTime BLOCKTIME_DEFAULT) 0) as (z & -> & Hz); [done|].
  cbn [mbind outcome_bind]. unfold getNoBlkPerYear. rewrite Hu, uDiv_pos by lia. cbn [mbind outcome_bind].
  assert (0 < 31557600 / blockTime BLOCKTIME_DEFAULT).
  { apply Z.div_str_pos. lia. }
  rewrite uDiv_pos by done. eexists. split; [done|]. apply div_nonneg; lia.
Qed.

Lemma daoPercent_ok year : 0 ≤ year → 0 ≤ getPercentForIncognitoDAOV2 year ≤ 100.
Proof.
  intros. unfold getPercentForIncognitoDAOV2, UpperBoundPercentForIncDAO, LowerBoundPercentForIncDAO.
  destruct (Z.ltb_spec (10 - 3) year); lia.
Qed.

Context (v : EpochView) (Hv : saneView v) (Hbt : saneBlockTime).
Context (isSplit : bool) (percent : Z) (Hpercent : 0 ≤ percent ≤ 100).

Lemma committees_nonempty i : (i < ev_ActiveShards v)%nat → 0 < Z.of_nat (size (ev_ShardCommittee v)) ≤ 2 ^ 32.
Proof.
  intros Hi. split; [|apply Hv]. destruct (sv_committee _ Hv i Hi) as (l & Hl & _).
  destruct (decide (size (ev_ShardCommittee v) = 0%nat)) as [Hz|]; [|lia].
  apply map_size_empty_inv in Hz. by rewrite Hz, lookup_empty in Hl.
Qed.

Lemma GetReward_bound epoch s c : 0 ≤ GetRewardOfShardByEpoch (ev_RewardDB v) epoch s c < 2 ^ 52.
Proof.
  unfold GetRewardOfShardByEpoch. destruct (rewardRequests (ev_RewardDB v) !! (epoch, s, c)) as [x|] eqn:E.
  - exact (sv_requests _ Hv _ _ E).
  - split; reflexivity || done.
Qed.

Lemma GetRewardMultiset_bound epoch s j c :
  0 ≤ GetRewardOfShardByEpochMultiset (ev_RewardDB v) epoch s j c < 2 ^ 52.
Proof.
  unfold GetRewardOfShardByEpochMultiset.
  destruct (rewardRequestsV3 (ev_RewardDB v) !! (epoch, s, j, c)) as [x|] eqn:E.
  - exact (sv_requestsV3 _ Hv _ _ E).
  - split; reflexivity || done.
Qed.

Lemma envV1_sane epoch year i : (i < ev_ActiveShards v)%nat → 0 ≤ year →
  saneSplit (NewSplitRewardEnvironmentV1 (byteOf i) (totalRewards v epoch i) isSplit percent
    (getPercentForIncognitoDAOV2 year) (Z.of_nat (ev_ActiveShards v)) v).
Proof.
  intros Hi Hy. destruct (sv_committee _ Hv i Hi) as (l & Hl & Hlen). pose proof (sv_shards _ Hv).
  assert (committeeOf (NewSplitRewardEnvironmentV1 (byteOf i) (totalRewards v epoch i) isSplit percent
    (getPercentForIncognitoDAOV2 year) (Z.of_nat (ev_ActiveShards v)) v) = l) as Hc.
  { unfold committeeOf; cbn. by rewrite Hl. }
  split; try rewrite Hc; cbn [se_DAOPercent se_PercentCustodianReward se_ActiveShards se_TotalReward
    se_BeaconCommittee se_ShardCommittee se_MaxSubsetCommittees NewSplitRewardEnvironmentV1].
  - by apply daoPercent_ok.
  - done.
  - change (2 ^ 32) with 4294967296. lia.
  - apply amounts_of_collected. intros c. apply GetReward_bound.
  - apply Hv.
  - by apply (committees_nonempty i).
  - lia.
  - lia.
  - unfold subsetSize. rewrite Hc. cbn. rewrite Z.mod_1_r, Z.div_1_r. cbn. lia.
Qed.

Lemma envMultiset_sane epoch year i sub : (i < ev_ActiveShards v)%nat → (sub < 2)%nat → 0 ≤ year →
  saneSplit (NewSplitRewardEnvironmentMultiset (byteOf i) (byteOf sub) (totalRewardsMultiset v epoch i sub)
    isSplit percent (getPercentForIncognitoDAOV2 year) v).
Proof.
  intros Hi Hsub Hy. destruct (sv_committee _ Hv i Hi) as (l & Hl & Hlen).
  assert (committeeOf (NewSplitRewardEnvironmentMultiset (byteOf i) (byteOf sub) (totalRewardsMultiset v epoch i sub)
    isSplit percent (getPercentForIncognitoDAOV2 year) v) = l) as Hc.
  { unfold committeeOf; cbn. by rewrite Hl. }
  split; try rewrite Hc; cbn [se_DAOPercent se_PercentCustodianReward se_ActiveShards se_TotalReward
    se_BeaconCommittee se_ShardCommittee se_MaxSubsetCommittees NewSplitRewardEnvironmentMultiset].
  - by apply daoPercent_ok.
  - done.
  - by vm_compute.
  - apply amounts_of_collected. intros c. apply GetRewardMultiset_bound.
  - apply Hv.
  - by apply (committees_nonempty i).
  - lia.
  - done.
  - unfold subsetSize. rewrite Hc. cbn [se_MaxSubsetCommittees NewSplitRewardEnvironmentMultiset se_SubsetID].
    unfold MaxSubsetCommittees. pose proof (div_spec (lenOf l) 2). pose proof (Z.mod_pos_bound (lenOf l) 2).
    destruct (_ && _); lia.
Qed.

Lemma elem_of_subsets n i j : (i, j) ∈ subsets n ↔ (i < n)%nat ∧ (j < 2)%nat.
Proof.
  unfold subsets. rewrite list_elem_of_bind. change (Z.to_nat MaxSubsetCommittees) with 2%nat. split.
  - intros (a & Ha & Hs). apply list_elem_of_bind in Ha as (b & Hb & Hj).
    apply list_elem_of_singleton in Hb as [= -> ->]. apply elem_of_seq in Hs, Hj. lia.
  - intros [Hi Hj]. exists i. split; [|apply elem_of_seq; lia]. apply list_elem_of_bind.
    exists j. split; [by apply list_elem_of_singleton|apply elem_of_seq; lia].
Qed.

Lemma length_subsets n : List.length (subsets n) = (2 * n)%nat.
Proof.
  unfold subsets. change (Z.to_nat MaxSubsetCommittees) with 2%nat.
  assert (∀ k, List.length (id ← seq k n; sub ← seq 0 2; [(id, sub)]) = (2 * n)%nat) as Hk; [|apply Hk].
  induction n as [|n IH]; intros k; [done|]. cbn [seq mbind list_bind] in *.
  rewrite length_app, IH. cbn. lia.
Qed.

Lemma bookedOf_bound epoch version c : 0 ≤ bookedOf v epoch version c < word64.
Proof.
  assert (512 * (2 ^ 52) < word64) as Hw by reflexivity. pose proof (sv_shards _ Hv). unfold bookedOf.
  destruct (isSubsetVersion version).
  - destruct (list_sum_bound (λ ij, GetRewardOfShardByEpochMultiset (ev_RewardDB v) epoch (byteOf ij.1) (byteOf ij.2) c)
      (subsets (ev_ActiveShards v)) (2 ^ 52)) as [Hlo Hhi].
    { apply Forall_forall. intros ij _. pose proof (GetRewardMultiset_bound epoch (byteOf ij.1) (byteOf ij.2) c). lia. }
    rewrite length_subsets in Hhi. split; [done|]. change (2 ^ 52) with 4503599627370496 in *. lia.
  - destruct (list_sum_bound (λ i, GetRewardOfShardByEpoch (ev_RewardDB v) epoch (byteOf i) c)
      (seq 0 (ev_ActiveShards v)) (2 ^ 52)) as [Hlo Hhi].
    { apply Forall_forall. intros i _. pose proof (GetReward_bound epoch (byteOf i) c). lia. }
    rewrite length_seq in Hhi. split; [done|]. change (2 ^ 52) with 4503599627370496 in *. lia.
Qed.

(** The rewards of an epoch as the version of the block calculates them. *)
Definition calculateRewardOf (version h epoch : Z) : outcome EpochRewards :=
  if isSubsetVersion version
  then calculateRewardMultiset (GetRewardSplitRule version) v h epoch isSplit percent
  else calculateReward (GetRewardSplitRule version) v h epoch isSplit percent.

Lemma calculateReward_exact version h epoch : ∃ e, calculateRewardOf version h epoch = Ok e ∧
  epochNonneg e ∧
  List.length (ep_Shards e) = (if isSubsetVersion version then 2 * ev_ActiveShards v else ev_ActiveShards v)%nat ∧
  ∀ c, epochTotal e c = bookedOf v epoch version c.
Proof.
  destruct (getYearOfBlockChain_Ok (rv_TSManager (ev_RewardView v)) h Hbt) as (year & Hyear & Hy).
  pose proof (bookedOf_bound epoch version) as Hbound.
  assert (epochNonneg (mkEpoch ∅ [] ∅ ∅)) as Hn0.
  { split_and!; try apply Forall_nil; try done; intros c; by rewrite amountOf_empty. }
  assert (∀ c, epochTotal (mkEpoch ∅ [] ∅ ∅) c = 0) as Ht0.
  { intros c. unfold epochTotal; cbn. rewrite !amountOf_empty. done. }
  unfold calculateRewardOf, calculateReward, calculateRewardMultiset. rewrite Hyear.
  unfold bookedOf in *. destruct (isSubsetVersion version); cbn [mbind outcome_bind].
  - match goal with |- context [splitAll _ (?f <$> ?l) _] => assert (Forall saneSplit (f <$> l)) as Hs;
      [|assert (∀ c, bookedIn (f <$> l) c = list_sum (λ ij, GetRewardOfShardByEpochMultiset (ev_RewardDB v) epoch
          (byteOf ij.1) (byteOf ij.2) c) l) as Hbk] end.
    + apply Forall_fmap, Forall_forall. intros [i j] [Hi Hj]%elem_of_subsets. by apply envMultiset_sane.
    + intros c. unfold bookedIn. rewrite list_sum_fmap. apply list_sum_ext. intros [i j] _. cbn.
      apply totalRewardsMultiset_amount.
    + destruct (splitAll_exact version _ _ Hs Hn0) as (e & -> & Hn & Hl & Ht).
      { intros c. rewrite Ht0, Hbk. apply Hbound. }
      exists e. split_and!; [done|done| |].
      * rewrite Hl, length_fmap, length_subsets. cbn. lia.
      * intros c. rewrite Ht, Ht0, Hbk. lia.
  - match goal with |- context [splitAll _ (?f <$> ?l) _] => assert (Forall saneSplit (f <$> l)) as Hs;
      [|assert (∀ c, bookedIn (f <$> l) c = list_sum (λ i, GetRewardOfShardByEpoch (ev_RewardDB v) epoch
          (byteOf i) c) l) as Hbk] end.
    + apply Forall_fmap, Forall_forall. intros i Hi%elem_of_seq. apply envV1_sane; [lia|done].
    + intros c. unfold bookedIn. rewrite list_sum_fmap. apply list_sum_ext. intros i _. cbn.
      apply totalRewards_amount.
    + destruct (splitAll_exact version _ _ Hs Hn0) as (e & -> & Hn & Hl & Ht).
      { intros c. rewrite Ht0, Hbk. apply Hbound. }
      exists e. split_and!; [done|done| |].
      * rewrite Hl, length_fmap, length_seq. cbn. lia.
      * intros c. rewrite Ht, Ht0, Hbk. lia.
Qed.
End epoch.
