(* ===== verification/RewardLedger.v ===== *)
(** What the shards credit for the instructions of an epoch: a receiver is credited on the shard
    of its key and on no other, and over all shards an instruction pays its reward, but for what
    the division among the committee leaves. *)
From S2P Require Import Prelude Hash Timeslot Float64 Rewards RewardPay RewardEpoch.
From Stdlib Require Import Ascii String.

Local Open Scope Z_scope.

(** *** Credits of a shard, by token *)
Definition credits (st : RewardState) (coin : Hash) : Z := map_sum (λ m, amountOf m coin) st.
Definition wfCredits (st : RewardState) : Prop := map_Forall (λ _ m, nonnegMap m) st.

(** The reward of an instruction. *)
Definition instReward (i : SalaryInst) (coin : Hash) : Z :=
  match i with
  | BeaconReward _ _ r | IncDAOReward _ r | ShardReceiveRewardV1 _ _ r
  | ShardReceiveRewardV3 _ _ _ r => amountOf r coin
  | OtherSalary => 0
  end.
Definition instNonneg (i : SalaryInst) : Prop := ∀ coin, 0 ≤ instReward i coin.

Definition validKey (pk : string) : Prop := String.length pk = 32%nat.

(** The amounts of a token in a list of entries. *)
Definition entriesOf (l : list (Hash * Z)) (coin : Hash) : Z :=
  list_sum (λ kv, if decide (kv.1 = coin) then kv.2 else 0) l.

(** The committee an instruction pays. *)
Definition committeeFor `{!RewardConfig} (cs : CommitteeStore) (h : Z) (i : SalaryInst) : outcome (list Staker) :=
  match i with
  | ShardReceiveRewardV3 shard sub epoch _ =>
      stakersToPay cs h shard epoch (λ l, getCommitteeToPayRewardMultiset l sub)
  | ShardReceiveRewardV1 shard epoch _ => stakersToPay cs h shard epoch id
  | _ => Ok []
  end.

(** What a shard can pay out: committees with members, keys of 32 bytes. *)
Definition payable `{!RewardConfig} (cs : CommitteeStore) (h : Z) (i : SalaryInst) : Prop :=
  instNonneg i ∧
  match i with
  | BeaconReward shard _ _ | IncDAOReward shard _ => 0 ≤ shard < MaxShardNumber
  | ShardReceiveRewardV3 _ _ epoch _ =>
      epoch ≠ 0 ∧ ∃ l, committeeFor cs h i = Ok l ∧ l ≠ [] ∧ Forall (λ c, validKey (RewardReceiverPk c)) l
  | ShardReceiveRewardV1 _ _ _ =>
      ∃ l, committeeFor cs h i = Ok l ∧ l ≠ [] ∧ Forall (λ c, validKey (RewardReceiverPk c)) l
  | OtherSalary => True
  end.

(** The members of a committee whose key belongs to a shard. *)
Definition membersOn `{!RewardConfig} (shard : Z) (l : list Staker) : Z :=
  list_sum (λ c, match shardOfKey (RewardReceiverPk c) with
                 | Ok s => if s =? shard then 1 else 0
                 | _ => 0
                 end) l.

Definition creditOn `{!RewardConfig} (cs : CommitteeStore) (h shard : Z) (i : SalaryInst) (coin : Hash) : Z :=
  match i with
  | BeaconReward s _ r | IncDAOReward s r => if s =? shard then amountOf r coin else 0
  | OtherSalary => 0
  | _ => match committeeFor cs h i with
         | Ok l => membersOn shard l * (instReward i coin / lenOf l)
         | _ => 0
         end
  end.

(** What all shards together pay for an instruction. *)
Definition paidFor `{!RewardConfig} (cs : CommitteeStore) (h : Z) (i : SalaryInst) (coin : Hash) : Z :=
  match i with
  | BeaconReward _ _ r | IncDAOReward _ r => amountOf r coin
  | OtherSalary => 0
  | _ => match committeeFor cs h i with
         | Ok l => lenOf l * (instReward i coin / lenOf l)
         | _ => 0
         end
  end.

(** Every shard confirms the beacon block and processes its instructions. *)
Fixpoint payAll `{!RewardConfig} (cs : CommitteeStore) (h : Z) (insts : list SalaryInst)
    (sts : list (Z * RewardState)) : outcome (list (Z * RewardState)) :=
  match sts with
  | [] => Ok []
  | (shard, st) :: sts =>
      '(_, st') ← runM (processSalaryInstructions cs h shard insts) st;
      sts' ← payAll cs h insts sts;
      Ok ((shard, st') :: sts')
  end.

Definition creditsAll (sts : list (Z * RewardState)) (coin : Hash) : Z :=
  list_sum (λ st, credits st.2 coin) sts.

(** All shards, each once. *)
Record allShards `{!RewardConfig} (sts : list (Z * RewardState)) : Prop := mkAllShards {
  as_nodup : NoDup sts.*1;
  as_all : ∀ s, 0 ≤ s < MaxShardNumber → s ∈ sts.*1;
  as_wf : Forall (λ st, wfCredits st.2) sts }.

(** Running a sequence. *)
Lemma run_bind {S A B} (m : M S A) (k : A → M S B) s a s1 : m s = (Ok a, s1) → (m ≫= k) s = k a s1.
Proof. intros Hm. unfold mbind, M_bind. by rewrite Hm. Qed.
Lemma run_lift {S A B} (m : outcome A) (k : A → M S B) s a : m = Ok a → (lift m ≫= k) s = k a s.
Proof. intros ->. done. Qed.

(** ** One key *)
Lemma credits_nonneg st coin : wfCredits st → 0 ≤ credits st coin.
Proof. intros Hst. apply map_sum_nonneg. intros k m Hm. exact (Hst k m Hm coin). Qed.

Lemma amountOf_insert m coin x c :
  amountOf (<[coin := x]> m) c = if decide (coin = c) then x else amountOf m c.
Proof.
  unfold amountOf. destruct (decide (coin = c)) as [<-|Hne];
    [by rewrite lookup_insert_eq|by rewrite lookup_insert_ne].
Qed.

Lemma AddCommitteeReward_credits pk x coin st :
  wfCredits st → 0 ≤ x → credits st coin + x < word64 →
  wfCredits (AddCommitteeReward pk x coin st) ∧
  ∀ c, credits (AddCommitteeReward pk x coin st) c = credits st c + (if decide (coin = c) then x else 0).
Proof.
  intros Hwf Hx Hlt. unfold AddCommitteeReward.
  assert (nonnegMap (default ∅ (st !! pk))) as Hm.
  { destruct (st !! pk) as [m|] eqn:E; [exact (Hwf _ _ E)|]. intros c. cbn. by rewrite amountOf_empty. }
  assert (amountOf (default ∅ (st !! pk)) coin ≤ credits st coin) as Hle.
  { destruct (st !! pk) as [m|] eqn:E; cbn; [|rewrite amountOf_empty; by apply credits_nonneg].
    apply (map_sum_elem_le (λ m, amountOf m coin) st pk m); [|done]. intros k m' Hm'. exact (Hwf k m' Hm' coin). }
  set (m := default ∅ (st !! pk)) in *.
  assert (match m !! coin with Some a => add64 x a | None => x end = amountOf m coin + x) as ->.
  { specialize (Hm coin). revert Hle Hm. unfold amountOf. destruct (m !! coin) as [a|]; cbn; intros; [|lia].
    unfold add64. rewrite u64_small; [lia|]. unfold in_u64. lia. }
  split.
  - apply map_Forall_insert_2; [|done]. intros c. rewrite amountOf_insert. pose proof (Hm c).
    destruct (decide (coin = c)) as [<-|]; lia.
  - intros c. unfold credits, RewardState in *. rewrite map_sum_insert, amountOf_insert.
    assert (from_option (λ m, amountOf m c) 0 (st !! pk) = amountOf m c) as ->.
    { subst m. destruct (st !! pk); [done|]. cbn. by rewrite amountOf_empty. }
    destruct (decide (coin = c)) as [<-|]; lia.
Qed.

(** A map of rewards, entry by entry. *)
Lemma entriesOf_map m c : entriesOf (map_to_list m) c = amountOf m c.
Proof.
  unfold entriesOf. induction m as [|k x m Hk IH] using map_ind; [by rewrite map_to_list_empty|].
  rewrite (list_sum_Permutation _ _ _ (map_to_list_insert m k x Hk)), list_sum_cons, IH, amountOf_insert. cbn.
  destruct (decide (k = c)) as [<-|]; [|done]. unfold amountOf. rewrite Hk. cbn. lia.
Qed.

Lemma entriesOf_nonneg l c : Forall (λ kv : Hash * Z, 0 ≤ kv.2) l → 0 ≤ entriesOf l c.
Proof.
  intros Hl. apply list_sum_nonneg. eapply Forall_impl; [exact Hl|]. intros [k x] Hx. cbn in *.
  by destruct (decide (k = c)).
Qed.

Lemma addRewards_credits pk m st : wfCredits st → nonnegMap m →
  (∀ c, credits st c + amountOf m c < word64) →
  wfCredits (addRewards pk m st) ∧ ∀ c, credits (addRewards pk m st) c = credits st c + amountOf m c.
Proof.
  intros Hwf Hm Hlt. unfold addRewards.
  assert (Forall (λ kv : Hash * Z, 0 ≤ kv.2) (map_to_list m)) as Hl.
  { apply Forall_forall. intros [k x] Hk%elem_of_map_to_list. specialize (Hm k). unfold amountOf in Hm.
    by rewrite Hk in Hm. }
  assert (∀ c, credits st c + entriesOf (map_to_list m) c < word64) as Hlt'.
  { intros c. by rewrite entriesOf_map. }
  setoid_rewrite <- entriesOf_map. clear Hlt Hm. revert st Hwf Hlt'.
  induction Hl as [|[k x] l Hx Hl IH]; intros st Hwf Hlt.
  { split; [done|]. intros c. cbn [foldl]. unfold entriesOf. rewrite list_sum_nil. lia. }
  cbn [foldl fst snd] in *. destruct (AddCommitteeReward_credits pk x k st Hwf Hx) as [Hwf' Hc].
  { specialize (Hlt k). unfold entriesOf in Hlt. rewrite list_sum_cons in Hlt. cbn in Hlt.
    rewrite decide_True in Hlt by done. pose proof (entriesOf_nonneg l k Hl). unfold entriesOf in *. lia. }
  assert (∀ c, entriesOf ((k, x) :: l) c = (if decide (k = c) then x else 0) + entriesOf l c) as Hcons.
  { intros c. unfold entriesOf. by rewrite list_sum_cons. }
  destruct (IH _ Hwf') as [Hwf'' Hc'].
  { intros c. rewrite Hc. specialize (Hlt c). rewrite Hcons in Hlt. lia. }
  split; [done|]. intros c. rewrite Hc', Hc, Hcons. lia.
Qed.

(** ** One shard *)
Section shard.
Context `{!RewardConfig}.
Hypothesis Hshards : 0 < MaxShardNumber.

Lemma shardOfKey_valid pk : validKey pk → ∃ s, shardOfKey pk = Ok s ∧ 0 ≤ s < MaxShardNumber.
Proof.
  intros Hpk. unfold shardOfKey, byteAt.
  assert (∀ (p : string) n, (n < String.length p)%nat → ∃ c, String.get n p = Some c) as Hget.
  { clear. intros p. induction p as [|c p IH]; cbn; intros n Hn; [lia|]. destruct n; [by exists c|]. apply IH. lia. }
  destruct (Hget pk 31%nat) as (c & ->); [unfold validKey in Hpk; lia|]. cbn [mbind outcome_bind].
  unfold GetShardIDFromLastByte. destruct (Z.eqb_spec MaxShardNumber 0); [lia|].
  eexists. split; [done|]. apply Z.rem_bound_pos; lia.
Qed.

Lemma shardOfLast_valid pk : validKey pk → shardOfLast pk = shardOfKey pk.
Proof. unfold validKey, shardOfLast, shardOfKey. by intros ->. Qed.

(** The loop over a committee. *)
Lemma addLoop_credits shard share l st :
  wfCredits st → nonnegMap share → Forall (λ c, validKey (RewardReceiverPk c)) l →
  (∀ c, credits st c + lenOf l * amountOf share c < word64) →
  ∃ st', runM (addShardCommitteeRewardLoop shard share l) st = Ok (tt, st') ∧ wfCredits st' ∧
    ∀ c, credits st' c = credits st c + membersOn shard l * amountOf share c.
Proof.
  intros Hwf Hshare Hl. revert st Hwf. induction Hl as [|x l Hx Hl IH]; intros st Hwf Hlt.
  { exists st. split_and!; [done|done|]. intros c. unfold membersOn. rewrite list_sum_nil. lia. }
  destruct (shardOfKey_valid _ Hx) as (s & Hs & _).
  assert (∀ c, 0 ≤ lenOf l * amountOf share c) as Hpos.
  { intros c. apply Z.mul_nonneg_nonneg; [unfold lenOf; lia|apply Hshare]. }
  assert (∀ c, lenOf (x :: l) * amountOf share c = amountOf share c + lenOf l * amountOf share c) as Hcons.
  { intros c. unfold lenOf. cbn [List.length]. rewrite Nat2Z.inj_succ. lia. }
  assert (membersOn shard (x :: l) = (if s =? shard then 1 else 0) + membersOn shard l) as Hm.
  { unfold membersOn. by rewrite list_sum_cons, Hs. }
  cbn [addShardCommitteeRewardLoop]. rewrite Hm. clear Hm. destruct (Z.eqb_spec s shard) as [->|Hne].
  - destruct (addRewards_credits (RewardReceiverPk x) share st Hwf Hshare) as [Hwf' Hc].
    { intros c. specialize (Hlt c). rewrite Hcons in Hlt. specialize (Hpos c). lia. }
    destruct (IH _ Hwf') as (st' & Hrun & Hwf'' & Hc').
    { intros c. rewrite Hc. specialize (Hlt c). rewrite Hcons in Hlt. lia. }
    exists st'. split_and!; [|done|].
    + apply runM_Ok. apply runM_Ok in Hrun. rewrite (run_lift _ _ _ _ Hs), Z.eqb_refl. exact Hrun.
    + intros c. rewrite Hc', Hc. lia.
  - destruct (IH st Hwf) as (st' & Hrun & Hwf'' & Hc').
    { intros c. specialize (Hlt c). rewrite Hcons in Hlt. pose proof (Hshare c). lia. }
    exists st'. split_and!; [|done|].
    + apply runM_Ok. apply runM_Ok in Hrun. rewrite (run_lift _ _ _ _ Hs).
      destruct (Z.eqb_spec s shard); [done|]. exact Hrun.
    + intros c. rewrite Hc'. lia.
Qed.

Lemma share_amount (m : gmap Hash Z) n c : amountOf ((λ x, x / n) <$> m) c = amountOf m c / n.
Proof. unfold amountOf. rewrite lookup_fmap. by destruct (m !! c). Qed.

Lemma lenOf_pos {A} (l : list A) : l ≠ [] → 0 < lenOf l.
Proof. destruct l; [done|]. intros _. unfold lenOf. cbn [List.length]. lia. Qed.

Lemma addShard_credits shard reward l st :
  wfCredits st → nonnegMap reward → l ≠ [] → Forall (λ c, validKey (RewardReceiverPk c)) l →
  (∀ c, credits st c + amountOf reward c < word64) →
  ∃ st', runM (addShardCommitteeReward shard reward l) st = Ok (tt, st') ∧ wfCredits st' ∧
    ∀ c, credits st' c = credits st c + membersOn shard l * (amountOf reward c / lenOf l).
Proof.
  intros Hwf Hr Hne Hl Hlt. pose proof (lenOf_pos l Hne) as Hn. unfold addShardCommitteeReward.
  destruct (addLoop_credits shard ((λ value, value / lenOf l) <$> reward) l st) as (st' & Hrun & Hwf' & Hc); [done| |done| |].
  - intros c. rewrite share_amount. apply div_nonneg; [apply Hr|done].
  - intros c. rewrite share_amount. pose proof (div_spec (amountOf reward c) (lenOf l) Hn). specialize (Hlt c). lia.
  - exists st'. split_and!; [done|done|]. intros c. rewrite Hc, share_amount. done.
Qed.

Context (cs : CommitteeStore) (h : Z).

Lemma process_one shard i st : payable cs h i → wfCredits st →
  (∀ c, credits st c + instReward i c < word64) →
  ∃ st', runM (processSalaryInstruction cs h shard i) st = Ok (tt, st') ∧ wfCredits st' ∧
    ∀ c, credits st' c = credits st c + creditOn cs h shard i c.
Proof.
  intros [Hn Hp] Hwf Hlt. destruct i as [s pk r|s r|s e r|s sub e r|]; cbn [creditOn processSalaryInstruction] in *.
  - destruct (s =? shard); [|exists st; split_and!; [done|done|intros; lia]].
    destruct (addRewards_credits pk r st Hwf Hn Hlt) as [Hwf' Hc]. by exists (addRewards pk r st).
  - destruct (s =? shard); [|exists st; split_and!; [done|done|intros; lia]].
    destruct (addRewards_credits IncognitoDAOPk r st Hwf Hn Hlt) as [Hwf' Hc]. by exists (addRewards IncognitoDAOPk r st).
  - destruct Hp as (l & Hl & Hne & Hv). rewrite Hl. cbn [committeeFor] in Hl.
    destruct (addShard_credits shard r l st Hwf Hn Hne Hv Hlt) as (st' & Hrun & Hrest).
    exists st'. split; [|exact Hrest]. apply runM_Ok. apply runM_Ok in Hrun. by rewrite (run_lift _ _ _ _ Hl).
  - destruct Hp as (He & l & Hl & Hne & Hv). rewrite Hl. cbn [committeeFor] in Hl.
    destruct (addShard_credits shard r l st Hwf Hn Hne Hv Hlt) as (st' & Hrun & Hrest).
    exists st'. split; [|exact Hrest]. apply runM_Ok. apply runM_Ok in Hrun.
    destruct (Z.eqb_spec e 0); [done|]. by rewrite (run_lift _ _ _ _ Hl).
  - exists st. split_and!; [done|done|intros; lia].
Qed.

Lemma process_list shard insts st : Forall (payable cs h) insts → wfCredits st →
  (∀ c, credits st c + list_sum (λ i, instReward i c) insts < word64) →
  (∀ i c, i ∈ insts → creditOn cs h shard i c ≤ instReward i c) →
  ∃ st', runM (processSalaryInstructions cs h shard insts) st = Ok (tt, st') ∧ wfCredits st' ∧
    ∀ c, credits st' c = credits st c + list_sum (λ i, creditOn cs h shard i c) insts.
Proof.
  intros Hp. revert st. induction Hp as [|i insts Hi Hp IH]; intros st Hwf Hlt Hle.
  { exists st. split_and!; [done|done|]. intros c. rewrite list_sum_nil. lia. }
  assert (∀ c, 0 ≤ list_sum (λ i, instReward i c) insts) as Hpos.
  { intros c. apply list_sum_nonneg. eapply Forall_impl; [exact Hp|]. intros j [Hj _]. apply Hj. }
  destruct (process_one shard i st Hi Hwf) as (st1 & Hrun1 & Hwf1 & Hc1).
  { intros c. specialize (Hlt c). rewrite list_sum_cons in Hlt. specialize (Hpos c). lia. }
  destruct (IH st1 Hwf1) as (st' & Hrun & Hwf' & Hc).
  { intros c. rewrite Hc1. specialize (Hlt c). rewrite list_sum_cons in Hlt.
    specialize (Hle i c ltac:(set_solver)). lia. }
  { intros j c Hj. apply Hle. set_solver. }
  exists st'. split_and!; [|done|].
  - apply runM_Ok. apply runM_Ok in Hrun1, Hrun. cbn [processSalaryInstructions].
    by rewrite (run_bind _ _ _ _ _ Hrun1).
  - intros c. rewrite Hc, Hc1, list_sum_cons. lia.
Qed.
End shard.

(** ** All shards *)
Lemma list_sum_add {A} (f g : A → Z) l : list_sum (λ a, f a + g a) l = list_sum f l + list_sum g l.
Proof. induction l as [|a l IH]; [done|]. rewrite !list_sum_cons, IH. lia. Qed.

Lemma list_sum_const0 {A} (l : list A) : list_sum (λ _, 0) l = 0.
Proof. induction l as [|a l IH]; [done|]. by rewrite list_sum_cons, IH. Qed.

Lemma list_sum_mul {A} (f : A → Z) x l : list_sum (λ a, f a * x) l = list_sum f l * x.
Proof. induction l as [|a l IH]; [done|]. rewrite !list_sum_cons, IH. lia. Qed.

Lemma list_sum_swap {A B} (f : A → B → Z) (l : list A) (k : list B) :
  list_sum (λ a, list_sum (f a) k) l = list_sum (λ b, list_sum (λ a, f a b) l) k.
Proof.
  induction l as [|a l IH]; [by rewrite list_sum_nil, list_sum_const0|].
  rewrite list_sum_cons, IH, <- list_sum_add. apply list_sum_ext. intros b _. by rewrite list_sum_cons.
Qed.

(** A shard is counted once. *)
Lemma count_once (x : Z) l : NoDup l → x ∈ l → ∀ v, list_sum (λ s, if x =? s then v else 0) l = v.
Proof.
  intros Hl Hx v. induction Hl as [|s l Hs Hl IH]; [set_solver|]. rewrite list_sum_cons.
  destruct (Z.eqb_spec x s) as [->|Hne].
  - rewrite (list_sum_ext _ (λ _, 0)), list_sum_const0; [lia|]. intros t Ht.
    destruct (Z.eqb_spec s t) as [->|]; [done|done].
  - rewrite IH; [lia|set_solver].
Qed.

Section all.
Context `{!RewardConfig}.
Hypothesis Hshards : 0 < MaxShardNumber.

Lemma membersOn_bounds shard l : 0 ≤ membersOn shard l ≤ lenOf l.
Proof.
  unfold membersOn, lenOf. destruct (list_sum_bound (λ c, match shardOfKey (RewardReceiverPk c) with
    | Ok s => if s =? shard then 1 else 0 | _ => 0 end) l 1) as [Hlo Hhi]; [|lia].
  apply Forall_forall. intros c _. destruct (shardOfKey _) as [s| | |]; [|lia..]. destruct (s =? shard); lia.
Qed.

Lemma membersOn_all shards l : NoDup shards → (∀ s, 0 ≤ s < MaxShardNumber → s ∈ shards) →
  Forall (λ c, validKey (RewardReceiverPk c)) l → list_sum (λ s, membersOn s l) shards = lenOf l.
Proof.
  intros Hnd Hall Hl. unfold membersOn. rewrite list_sum_swap.
  induction Hl as [|c l Hc Hl IH]; [done|]. rewrite list_sum_cons, IH.
  destruct (shardOfKey_valid Hshards _ Hc) as (s & -> & Hs). rewrite count_once; [|done|by apply Hall].
  unfold lenOf. cbn [List.length]. lia.
Qed.

Context (cs : CommitteeStore) (h : Z).

Lemma shares_le c (l : list Staker) n : 0 ≤ c → 0 ≤ n ≤ lenOf l → n * (c / lenOf l) ≤ c.
Proof.
  intros Hc Hn. destruct (Z.eq_dec (lenOf l) 0) as [Hz|Hz]; [replace n with 0 by lia; lia|].
  pose proof (div_spec c (lenOf l) ltac:(lia)). pose proof (div_nonneg c (lenOf l) Hc ltac:(lia)). nia.
Qed.

Lemma creditOn_le shard i c : payable cs h i → creditOn cs h shard i c ≤ instReward i c.
Proof.
  intros [Hn _]. specialize (Hn c). unfold creditOn. destruct i as [s pk r|s r|s e r|s sub e r|]; cbn [instReward] in *;
    try (destruct (s =? shard); lia); try done.
  - destruct (committeeFor _ _ _) as [l| | |]; [|done..]. apply shares_le; [done|apply membersOn_bounds].
  - destruct (committeeFor _ _ _) as [l| | |]; [|done..]. apply shares_le; [done|apply membersOn_bounds].
Qed.

Lemma creditOn_nonneg shard i c : payable cs h i → 0 ≤ creditOn cs h shard i c.
Proof.
  intros [Hn _]. specialize (Hn c). unfold creditOn. destruct i as [s pk r|s r|s e r|s sub e r|]; cbn [instReward] in *;
    try (destruct (s =? shard); lia); try done.
  - destruct (committeeFor _ _ _) as [l| | |]; [|done..]. apply Z.mul_nonneg_nonneg; [apply membersOn_bounds|].
    apply Z_div_nonneg_nonneg; [done|unfold lenOf; lia].
  - destruct (committeeFor _ _ _) as [l| | |]; [|done..]. apply Z.mul_nonneg_nonneg; [apply membersOn_bounds|].
    apply Z_div_nonneg_nonneg; [done|unfold lenOf; lia].
Qed.

(** What the shards credit for an instruction adds up to what it pays. *)
Lemma creditOn_all shards i c : NoDup shards → (∀ s, 0 ≤ s < MaxShardNumber → s ∈ shards) →
  payable cs h i → list_sum (λ s, creditOn cs h s i c) shards = paidFor cs h i c.
Proof.
  intros Hnd Hall [_ Hp]. destruct i as [s pk r|s r|s e r|s sub e r|]; cbn [creditOn paidFor].
  - apply (count_once s shards Hnd); by apply Hall.
  - apply (count_once s shards Hnd); by apply Hall.
  - destruct Hp as (l & -> & _ & Hl). rewrite list_sum_mul. f_equal. by apply membersOn_all.
  - destruct Hp as (_ & l & -> & _ & Hl). rewrite list_sum_mul. f_equal. by apply membersOn_all.
  - apply list_sum_const0.
Qed.

(** What an instruction pays is its reward but for less than a unit per member. *)
Lemma paidFor_bounds i c : payable cs h i →
  paidFor cs h i c ≤ instReward i c ∧
  instReward i c ≤ paidFor cs h i c + match committeeFor cs h i with Ok l => lenOf l | _ => 0 end.
Proof.
  intros [Hn Hp]. specialize (Hn c). destruct i as [s pk r|s r|s e r|s sub e r|]; cbn [paidFor instReward] in *;
    try (cbn [committeeFor]; unfold lenOf; cbn [List.length]; lia).
  - destruct Hp as (l & -> & Hne & _). pose proof (div_spec (amountOf r c) (lenOf l) (lenOf_pos l Hne)). lia.
  - destruct Hp as (_ & l & -> & Hne & _). pose proof (div_spec (amountOf r c) (lenOf l) (lenOf_pos l Hne)). lia.
Qed.

Lemma payAll_exact insts sts : Forall (payable cs h) insts → Forall (λ st, wfCredits st.2) sts →
  (∀ c, creditsAll sts c + list_sum (λ i, instReward i c) insts < word64) →
  ∃ sts', payAll cs h insts sts = Ok sts' ∧ sts'.*1 = sts.*1 ∧ Forall (λ st, wfCredits st.2) sts' ∧
    ∀ c, creditsAll sts' c =
      creditsAll sts c + list_sum (λ s, list_sum (λ i, creditOn cs h s i c) insts) sts.*1.
Proof.
  intros Hp Hwf. induction Hwf as [|[s st] sts Hst Hwf IH]; intros Hlt.
  { exists []. split_and!; [done|done|done|]. intros c. unfold creditsAll. rewrite !list_sum_nil. done. }
  assert (∀ c, creditsAll ((s, st) :: sts) c = credits st c + creditsAll sts c) as Hcons.
  { intros c. unfold creditsAll. by rewrite list_sum_cons. }
  assert (∀ c, 0 ≤ creditsAll sts c) as Hpos.
  { intros c. apply list_sum_nonneg. eapply Forall_impl; [exact Hwf|]. intros [? ?] ?. by apply credits_nonneg. }
  cbn in Hst. destruct (process_list Hshards cs h s insts st Hp Hst) as (st' & Hrun & Hwf' & Hc).
  { intros c. specialize (Hlt c). rewrite Hcons in Hlt. specialize (Hpos c). lia. }
  { intros i c Hi. apply creditOn_le. by eapply Forall_forall. }
  destruct IH as (sts' & Hpay & Hfst & Hwf'' & Hc').
  { intros c. specialize (Hlt c). rewrite Hcons in Hlt. pose proof (credits_nonneg st c Hst). lia. }
  exists ((s, st') :: sts'). split_and!.
  - cbn [payAll]. rewrite Hrun. cbn [mbind outcome_bind]. by rewrite Hpay.
  - cbn. by rewrite Hfst.
  - by constructor.
  - intros c. unfold creditsAll in *. rewrite !list_sum_cons, Hc'. cbn [fmap list_fmap fst snd].
    rewrite Hc, list_sum_cons. lia.
Qed.

Lemma payAll_paid insts sts : Forall (payable cs h) insts → allShards sts →
  (∀ c, creditsAll sts c + list_sum (λ i, instReward i c) insts < word64) →
  ∃ sts', payAll cs h insts sts = Ok sts' ∧ allShards sts' ∧
    ∀ c, creditsAll sts' c = creditsAll sts c + list_sum (λ i, paidFor cs h i c) insts.
Proof.
  intros Hp [Hnd Hall Hwf] Hlt. destruct (payAll_exact insts sts Hp Hwf Hlt) as (sts' & Hpay & Hfst & Hwf' & Hc).
  exists sts'. split_and!; [done|split; rewrite ?Hfst; done|].
  intros c. rewrite Hc, list_sum_swap. f_equal. apply list_sum_ext. intros i Hi.
  apply creditOn_all; [done|done|]. by eapply Forall_forall.
Qed.
End all.
