(* ===== verification/RewardsSound.v ===== *)
(** From booking to credit: what an epoch booked is what the shards credit, custodians and the
    exchange get, but for less than a unit per receiver. *)
From S2P Require Import Prelude Hash Timeslot Float64 Rewards RewardPay RewardEpoch RewardLedger.
From Stdlib Require Import Ascii String.

Local Open Scope Z_scope.

(** The members an instruction pays. *)
Definition membersPaid `{!RewardConfig} (cs : CommitteeStore) (h : Z) (i : SalaryInst) : Z :=
  match committeeFor cs h i with Ok l => lenOf l | _ => 0 end.

(** Every shard, and every subset of a shard, has members to pay in the epoch. *)
Definition payableEpoch `{!RewardConfig} (cs : CommitteeStore) (h epoch version : Z) (n : nat) : Prop :=
  epoch ≠ 0 ∧ ∀ i j, (i < n)%nat → (j < 2)%nat →
  ∃ l, stakersToPay cs h (byteOf i) epoch
         (if isSubsetVersion version then λ l, getCommitteeToPayRewardMultiset l (byteOf j) else id) = Ok l ∧
       l ≠ [] ∧ Forall (λ c, validKey (RewardReceiverPk c)) l.

(** *** The instructions *)
Lemma zip_filter_sum {K} (ks : list K) (ms : list (gmap Hash Z)) c : List.length ks = List.length ms →
  list_sum (λ kr, amountOf kr.2 c) (filter (λ kr, kr.2 ≠ ∅) (zip ks ms)) = list_sum (λ m, amountOf m c) ms.
Proof.
  revert ms. induction ks as [|k ks IH]; intros [|m ms]; cbn [zip zip_with List.length]; intros Hl; [done..|].
  rewrite list_sum_cons, filter_cons. cbn [snd]. destruct (decide (m ≠ ∅)) as [_|He].
  - rewrite list_sum_cons. cbn [snd]. by rewrite IH by lia.
  - rewrite IH by lia. apply dec_stable in He. rewrite He, amountOf_empty. lia.
Qed.

Lemma elem_of_zip_filter {K} (ks : list K) (ms : list (gmap Hash Z)) k m :
  (k, m) ∈ filter (λ kr, kr.2 ≠ ∅) (zip ks ms) → k ∈ ks ∧ m ∈ ms.
Proof.
  intros [_ Hin]%list_elem_of_filter. split; [by eapply elem_of_zip_l|by eapply elem_of_zip_r].
Qed.

Section sound.
Context `{!OutOfRange, !RewardConfig}.
Hypothesis Hshards : 0 < MaxShardNumber.

Lemma BuildInstForBeaconReward_Ok reward pk : validKey pk →
  ∃ s, BuildInstForBeaconReward reward pk = Ok (BeaconReward s pk reward) ∧ 0 ≤ s < MaxShardNumber.
Proof.
  intros Hpk. destruct (shardOfKey_valid Hshards pk Hpk) as (s & Hs & Hb). exists s.
  unfold BuildInstForBeaconReward. rewrite shardOfLast_valid by done. by rewrite Hs.
Qed.

Lemma beaconInsts_Ok cs h base rs : nonnegMap base → Forall validKey rs →
  ∃ is_, beaconInsts base rs = Ok is_ ∧ Forall (payable cs h) is_ ∧
    ∀ c, list_sum (λ i, instReward i c) is_ = lenOf rs * amountOf base c.
Proof.
  intros Hb. induction 1 as [|pk rs Hpk Hrs (is_ & Hi & Hp & Hs)].
  - exists []. split_and!; [done|by constructor|]. intros c. rewrite list_sum_nil. done.
  - destruct (BuildInstForBeaconReward_Ok base pk Hpk) as (s & Hbi & Hsb).
    exists (BeaconReward s pk base :: is_). split_and!.
    + cbn [beaconInsts]. rewrite Hbi. cbn [mbind outcome_bind]. by rewrite Hi.
    + constructor; [|done]. split; [exact Hb|done].
    + intros c. rewrite list_sum_cons, Hs. cbn [instReward]. unfold lenOf. cbn [List.length]. lia.
Qed.

(** Beacon validators get equal parts. *)
Lemma buildBeacons_Ok cs h total rs : nonnegMap total → rs ≠ [] → Forall validKey rs →
  ∃ is_, buildInstRewardForBeacons total rs = Ok is_ ∧ Forall (payable cs h) is_ ∧
    ∀ c, list_sum (λ i, instReward i c) is_ ≤ amountOf total c ≤
         list_sum (λ i, instReward i c) is_ + lenOf rs.
Proof.
  intros Ht Hne Hrs. pose proof (lenOf_pos rs Hne) as Hn. unfold buildInstRewardForBeacons.
  destruct (Z.eqb_spec (lenOf rs) 0); [lia|]. cbn [andb].
  destruct (beaconInsts_Ok cs h ((λ value, value / lenOf rs) <$> total) rs) as (is_ & Hi & Hp & Hs); [|done|].
  { intros c. rewrite share_amount. apply div_nonneg; [apply Ht|done]. }
  exists is_. split_and!; [done|done|]. intros c. rewrite Hs, share_amount.
  pose proof (div_spec (amountOf total c) (lenOf rs) Hn). lia.
Qed.

(** The exchange's part comes out of the DAO's. *)
Lemma splitPdex_Ok b percent dao : nonnegMap dao → 0 ≤ percent ≤ 100 → amountOf dao PRVCoinID < word64 →
  ∃ dao' pdex, splitPdex b percent dao = Ok (dao', pdex) ∧ nonnegMap dao' ∧ 0 ≤ pdex ∧
    ∀ c, amountOf dao' c + (if decide (c = PRVCoinID) then pdex else 0) = amountOf dao c.
Proof.
  intros Hd Hp Hlt. unfold splitPdex. fold (amountOf dao PRVCoinID). pose proof (Hd PRVCoinID) as Hx.
  set (x := amountOf dao PRVCoinID) in *. pose proof (eq_refl : x = amountOf dao PRVCoinID) as Hxe. clearbody x.
  destruct (_ && _); [|exists dao, 0; split_and!; [done|done|done|]; intros c; destruct (decide _); lia].
  pose proof (div_spec (x * percent) 100 ltac:(lia)) as Hdiv.
  pose proof (div_nonneg (x * percent) 100 ltac:(nia) ltac:(lia)) as Hdiv0.
  set (t := x * percent / 100) in *. clearbody t. assert (t ≤ x) as Htx by nia.
  assert (isU64 t = true) as -> by (apply in_u64_iff; unfold in_u64; lia).
  rewrite (sub64_exact x t) by (unfold in_u64; lia).
  exists (<[PRVCoinID := x - t]> dao), t. split_and!; [done| |done|].
  - intros c. rewrite amountOf_insert. destruct (decide _); [lia|apply Hd].
  - intros c. rewrite amountOf_insert. destruct (decide (PRVCoinID = c)) as [<-|Hne].
    + rewrite decide_True by done. lia.
    + rewrite decide_False by congruence. lia.
Qed.

Lemma buildDAO_Ok cs h dao : nonnegMap dao → validKey IncognitoDAOPk →
  ∃ is_, buildInstRewardForIncDAO dao = Ok is_ ∧ Forall (payable cs h) is_ ∧
    ∀ c, list_sum (λ i, instReward i c) is_ = amountOf dao c.
Proof.
  intros Hd Hk. destruct (shardOfKey_valid Hshards _ Hk) as (s & Hs & Hb).
  exists [IncDAOReward s dao]. split_and!.
  - unfold buildInstRewardForIncDAO, BuildInstForIncDAOReward. rewrite shardOfLast_valid by done. by rewrite Hs.
  - constructor; [split; [exact Hd|done]|constructor].
  - intros c. rewrite list_sum_cons, list_sum_nil. cbn [instReward]. lia.
Qed.

(** The shards' instructions, with or without subsets. *)
Definition shardInsts (version epoch : Z) (n : nat) (shards : list (gmap Hash Z)) : list SalaryInst :=
  if isSubsetVersion version then buildInstructionRewardForShardsV3 epoch n shards
  else buildInstructionRewardForShards epoch shards.

Lemma shardInsts_Ok cs h version epoch n shards : Forall nonnegMap shards →
  List.length shards = (if isSubsetVersion version then 2 * n else n)%nat →
  payableEpoch cs h epoch version n →
  Forall (payable cs h) (shardInsts version epoch n shards) ∧
  ∀ c, list_sum (λ i, instReward i c) (shardInsts version epoch n shards) =
       list_sum (λ m, amountOf m c) shards.
Proof.
  intros Hs Hl [He Hp]. unfold shardInsts. destruct (isSubsetVersion version).
  - unfold buildInstructionRewardForShardsV3. split.
    + apply Forall_fmap, Forall_forall. intros [[i j] m] [Hij Hm]%elem_of_zip_filter.
      apply elem_of_subsets in Hij as [Hi Hj]. destruct (Hp i j Hi Hj) as (l & Hst & Hne & Hk). split.
      * intros c. cbn. by eapply Forall_forall in Hs as Hsm; [apply Hsm|].
      * split; [done|]. by exists l.
    + intros c. rewrite list_sum_fmap. cbn [instReward]. apply zip_filter_sum. by rewrite length_subsets.
  - unfold buildInstructionRewardForShards. split.
    + apply Forall_fmap, Forall_forall. intros [i m] [Hi Hm]%elem_of_zip_filter.
      apply elem_of_seq in Hi. destruct (Hp i 0%nat ltac:(lia) ltac:(lia)) as (l & Hst & Hne & Hk). split.
      * intros c. cbn. by eapply Forall_forall in Hs as Hsm; [apply Hsm|].
      * by exists l.
    + intros c. rewrite list_sum_fmap. cbn [instReward]. apply zip_filter_sum. by rewrite length_seq.
Qed.

Lemma amount_le_total e c : epochNonneg e → amountOf (ep_IncDAO e) c ≤ epochTotal e c.
Proof.
  intros (Hb & Hs & _ & Hc). unfold epochTotal. specialize (Hb c). specialize (Hc c).
  assert (0 ≤ list_sum (λ m, amountOf m c) (ep_Shards e)).
  { apply list_sum_nonneg. eapply Forall_impl; [exact Hs|]. intros m Hm. apply Hm. }
  lia.
Qed.

Context (v : EpochView) (Hv : saneView v) (Hbt : saneBlockTime).
Context (HDAO : validKey IncognitoDAOPk).

Lemma buildRewardInstructionByEpoch_Ok cs h rs blkHeight epoch isSplit percent isPdex pdexPercent version :
  0 ≤ percent ≤ 100 → 0 ≤ pdexPercent ≤ 100 → rs ≠ [] → Forall validKey rs →
  payableEpoch cs h epoch version (ev_ActiveShards v) →
  ∃ insts cust pdex,
    buildRewardInstructionByEpoch v (Ok rs) blkHeight epoch isSplit percent isPdex pdexPercent version =
      Ok (insts, cust, pdex) ∧
    Forall (payable cs h) insts ∧ nonnegMap cust ∧ 0 ≤ pdex ∧
    ∀ c, let given := list_sum (λ i, instReward i c) insts + amountOf cust c +
                      (if decide (c = PRVCoinID) then pdex else 0) in
         given ≤ bookedOf v epoch version c ≤ given + lenOf rs.
Proof.
  intros Hpc Hpp Hne Hrs Hpay.
  destruct (calculateReward_exact v Hv Hbt isSplit percent Hpc version blkHeight epoch) as (e & Hcalc & Hn & Hlen & Htot).
  pose proof Hn as (Hb & Hs & Hd & Hcu). unfold calculateRewardOf in Hcalc.
  unfold buildRewardInstructionByEpoch. fold (isSubsetVersion version). rewrite Hcalc. cbn [mbind outcome_bind].
  fold (shardInsts version epoch (ev_ActiveShards v) (ep_Shards e)).
  destruct (shardInsts_Ok cs h version epoch _ _ Hs Hlen Hpay) as [HpS HsumS].
  assert (∃ is_, (if bool_decide (ep_Beacon e = ∅) then Ok []
    else buildInstRewardForBeacons (ep_Beacon e) rs) = Ok is_ ∧ Forall (payable cs h) is_ ∧
    ∀ c, list_sum (λ i, instReward i c) is_ ≤ amountOf (ep_Beacon e) c ≤
         list_sum (λ i, instReward i c) is_ + lenOf rs) as (isB & HiB & HpB & HsumB).
  { case_bool_decide as He; [|by apply buildBeacons_Ok]. exists []. split_and!; [done|constructor|].
    intros c. rewrite He, amountOf_empty, list_sum_nil. pose proof (lenOf_pos rs Hne). lia. }
  rewrite HiB. cbn [mbind outcome_bind].
  assert (∃ is_ pdex, (if bool_decide (ep_IncDAO e = ∅) then Ok ([], 0)
     else '(dao, pdex) ← splitPdex isPdex pdexPercent (ep_IncDAO e);
          is_ ← buildInstRewardForIncDAO dao; Ok (is_, pdex)) = Ok (is_, pdex) ∧ Forall (payable cs h) is_ ∧ 0 ≤ pdex ∧
    ∀ c, list_sum (λ i, instReward i c) is_ + (if decide (c = PRVCoinID) then pdex else 0) = amountOf (ep_IncDAO e) c)
    as (isD & pdex & HiD & HpD & Hpd & HsumD).
  { clear HiB. case_bool_decide as He.
    - exists [], 0. split_and!; [done|constructor|done|]. intros c.
      rewrite He, amountOf_empty, list_sum_nil. by destruct (decide _).
    - destruct (splitPdex_Ok isPdex pdexPercent (ep_IncDAO e) Hd Hpp) as (dao & pdex & -> & Hdn & Hp0 & Hsum).
      { pose proof (bookedOf_bound v Hv epoch version PRVCoinID). rewrite <- Htot in *.
        pose proof (amount_le_total e PRVCoinID Hn). lia. }
      destruct (buildDAO_Ok cs h dao Hdn HDAO) as (is_ & Hi & Hp & Hs'). exists is_, pdex.
      cbn [mbind outcome_bind]. rewrite Hi. split_and!; [done|done|done|]. intros c. by rewrite Hs', Hsum. }
  rewrite HiD. cbn [mbind outcome_bind]. eexists _, _, _. split_and!; [done| |done|done|].
  - apply Forall_app. split; [done|]. by apply Forall_app.
  - intros c. cbv zeta. rewrite !list_sum_app, HsumS, <- Htot. unfold epochTotal.
    specialize (HsumB c). specialize (HsumD c). lia.
Qed.

(** ** Booking, splitting and crediting together *)
Lemma dust_bounds cs h insts c : Forall (payable cs h) insts →
  list_sum (λ i, paidFor cs h i c) insts ≤ list_sum (λ i, instReward i c) insts ≤
  list_sum (λ i, paidFor cs h i c) insts + list_sum (membersPaid cs h) insts.
Proof.
  induction 1 as [|i insts Hi Hp IH]; [by rewrite !list_sum_nil|]. rewrite !list_sum_cons.
  pose proof (paidFor_bounds cs h i c Hi) as Hb. unfold membersPaid at 1. lia.
Qed.

(** C14: for every version of the block, an epoch's rewards are split, written into instructions
    and credited without failing, on a sane view with members to pay. The view has at most 256
    shards, each with a committee of 2 to 2^32 members, and booked amounts below 2^52
    ([saneView]); the default block time is between a second and a year ([saneBlockTime]); the
    epoch is not zero, and every shard, and every subset of a shard, has members to pay, with
    keys of 32 bytes ([payableEpoch]); there is a beacon validator, and the beacon validators'
    and the DAO's keys have 32 bytes; percentages are within 0 and 100; every shard credits,
    from non-negative credits, and credits plus bookings stay below 2^64. Then, for each token,
    what all shards credit, custodians get and the exchange gets is at most what the epoch
    booked, and misses it by at most one unit per beacon validator and per member of a paid
    committee. *)
Theorem rewards_conserved cs h rs blkHeight epoch isSplit percent isPdex pdexPercent version sts :
  0 ≤ percent ≤ 100 → 0 ≤ pdexPercent ≤ 100 → rs ≠ [] → Forall validKey rs →
  payableEpoch cs h epoch version (ev_ActiveShards v) → allShards sts →
  (∀ c, creditsAll sts c + bookedOf v epoch version c < word64) →
  ∃ insts cust pdex sts',
    buildRewardInstructionByEpoch v (Ok rs) blkHeight epoch isSplit percent isPdex pdexPercent version =
      Ok (insts, cust, pdex) ∧
    payAll cs h insts sts = Ok sts' ∧ allShards sts' ∧ nonnegMap cust ∧ 0 ≤ pdex ∧
    ∀ c, let given := creditsAll sts' c + amountOf cust c + (if decide (c = PRVCoinID) then pdex else 0) in
         given ≤ creditsAll sts c + bookedOf v epoch version c ≤
         given + lenOf rs + list_sum (membersPaid cs h) insts.
Proof.
  intros Hpc Hpp Hne Hrs Hpay Hall Hlt.
  destruct (buildRewardInstructionByEpoch_Ok cs h rs blkHeight epoch isSplit percent isPdex pdexPercent version)
    as (insts & cust & pdex & Hb & Hp & Hcu & Hpd & Hsum); [done..|].
  assert (∀ c, list_sum (λ i, instReward i c) insts ≤ bookedOf v epoch version c) as Hle.
  { intros c. specialize (Hsum c). specialize (Hcu c). cbv zeta in Hsum. destruct (decide _); lia. }
  destruct (payAll_paid Hshards cs h insts sts Hp Hall) as (sts' & Hpa & Hall' & Hc).
  { intros c. specialize (Hlt c). specialize (Hle c). lia. }
  exists insts, cust, pdex, sts'. split_and!; [done..|]. intros c. cbv zeta. rewrite Hc.
  specialize (Hsum c). cbv zeta in Hsum. pose proof (dust_bounds cs h insts c Hp). lia.
Qed.
End sound.

(** *** The weight of a subset is the number of its members *)
Lemma subset_count (l : list Staker) k j : 0 ≤ j < 2 →
  Z.of_nat (List.length (filter (λ ic : nat * Staker, Z.of_nat ic.1 mod MaxSubsetCommittees = j)
    (zip (seq k (List.length l)) l))) = (lenOf l + 1 - (Z.of_nat k + j) mod 2) / 2.
Proof.
  intros Hj. unfold lenOf, MaxSubsetCommittees. revert k. induction l as [|c l IH]; intros k.
  - cbn. Z.to_euclidean_division_equations. lia.
  - cbn [List.length seq zip zip_with]. rewrite filter_cons. cbn [fst]. specialize (IH (S k)).
    destruct (decide (Z.of_nat k mod 2 = j)) as [He|He]; cbn [List.length]; rewrite ?Nat2Z.inj_succ, IH;
      rewrite ?Nat2Z.inj_succ; Z.to_euclidean_division_equations; lia.
Qed.

Theorem subset_weight env sub : se_MaxSubsetCommittees env = MaxSubsetCommittees →
  se_SubsetID env = sub → 0 ≤ sub < 2 →
  ∀ stakers, lenOf stakers = lenOf (committeeOf env) →
  lenOf (getCommitteeToPayRewardMultiset stakers sub) = subsetSize env.
Proof.
  intros Hk Hs Hsub stakers Hl. unfold lenOf at 1, getCommitteeToPayRewardMultiset.
  rewrite length_fmap, subset_count by done. rewrite Hl. unfold subsetSize. rewrite Hk, Hs. unfold MaxSubsetCommittees.
  generalize (lenOf (committeeOf env)). intros n. cbn [Z.of_nat].
  assert (sub = 0 ∨ sub = 1) as [-> | ->] by lia; [change (0 mod 2 =? 0) with true|change (1 mod 2 =? 0) with false];
    destruct (Z.eqb_spec (n mod 2) 0); cbn [negb andb]; Z.to_euclidean_division_equations; lia.
Qed.
