(* ===== verification/RewardCap.v ===== *)
(** Booking: what a beacon block books for its shard blocks is their fees and newly minted coins,
    every minted coin is counted, and the count never passes the limit. *)
From S2P Require Import Prelude Hash Timeslot Float64 Rewards RewardPay RewardEpoch RewardLedger.
From Stdlib Require Import Ascii String.

Local Open Scope Z_scope.

(** *** Sums over keyed entries *)
Definition keyedSum {K A} `{Countable K} (f : K → A → Z) (m : gmap K A) : Z :=
  list_sum (λ kv, f kv.1 kv.2) (map_to_list m).

(** What both tables hold of a token. *)
Definition requestsOf (db : RewardDB) (c : Hash) : Z :=
  keyedSum (λ k x, if decide (k.2 = c) then x else 0) (rewardRequests db) +
  keyedSum (λ k x, if decide (k.2 = c) then x else 0) (rewardRequestsV3 db).

Definition wfRequests (db : RewardDB) : Prop :=
  map_Forall (λ _ x, 0 ≤ x) (rewardRequests db) ∧ map_Forall (λ _ x, 0 ≤ x) (rewardRequestsV3 db).

(** The fees of an instruction. *)
Definition feesOf (i : AcceptInst) (c : Hash) : Z :=
  match i with
  | AcceptBlockRewardV3 _ _ fees _ | AcceptBlockRewardV1 _ fees _ => amountOf (default ∅ fees) c
  | OtherAccept => 0
  end.

Definition shardOfAccept (i : AcceptInst) : option Z :=
  match i with
  | AcceptBlockRewardV3 s _ _ _ | AcceptBlockRewardV1 s _ _ => Some s
  | OtherAccept => None
  end.

(** Configuration and instructions the theorems assume: block times of at most an hour, a small
    basic reward, fees present and non-negative, shards known to the beacon chain. *)
Record saneRewards `{!RewardConfig} (v : RewardView) : Prop := mkSaneRewards {
  sr_blockTime : 0 < blockTime BLOCKTIME_DEFAULT ≤ 3600;
  sr_beacon : 0 < MinBeaconBlockInterval ≤ 3600;
  sr_basic : 0 ≤ BasicReward ≤ 2 ^ 40;
  sr_anchors : Forall (λ a, 0 ≤ Timeslot a ≤ 3600) (Anchors (rv_TSManager v)) }.

Definition goodAccept (v : RewardView) (i : AcceptInst) : Prop :=
  (∀ c, 0 ≤ feesOf i c) ∧
  match i with AcceptBlockRewardV3 _ _ None _ => False | _ => True end ∧
  match shardOfAccept i with Some s => is_Some (rv_ShardTSManager v !! s) | None => True end.

Section keyed.
Context {K A : Type} `{Countable K} (f : K → A → Z).

Lemma keyedSum_insert_new m k x : m !! k = None → keyedSum f (<[k := x]> m) = f k x + keyedSum f m.
Proof.
  intros Hk. unfold keyedSum. by rewrite (list_sum_Permutation _ _ _ (map_to_list_insert m k x Hk)), list_sum_cons.
Qed.

Lemma keyedSum_insert m k x :
  keyedSum f (<[k := x]> m) = keyedSum f m - from_option (f k) 0 (m !! k) + f k x.
Proof.
  rewrite <- insert_delete_eq, keyedSum_insert_new by apply lookup_delete_eq.
  destruct (m !! k) as [y|] eqn:E; cbn.
  - rewrite <- (insert_delete_id m k y E) at 2. rewrite keyedSum_insert_new by apply lookup_delete_eq. lia.
  - rewrite delete_id by done. lia.
Qed.

Lemma keyedSum_nonneg m : map_Forall (λ k x, 0 ≤ f k x) m → 0 ≤ keyedSum f m.
Proof.
  intros Hm. apply list_sum_nonneg, Forall_forall. intros [k x] Hin%elem_of_map_to_list. exact (Hm _ _ Hin).
Qed.

Lemma keyedSum_elem m k x : map_Forall (λ k x, 0 ≤ f k x) m → m !! k = Some x → f k x ≤ keyedSum f m.
Proof.
  intros Hm Hk. rewrite <- (insert_delete_id m k x Hk), keyedSum_insert_new by apply lookup_delete_eq.
  pose proof (keyedSum_nonneg (delete k m) (map_Forall_delete _ _ _ Hm)). lia.
Qed.
End keyed.

(** *** One entry *)
Lemma nonneg_tokens {K} `{Countable K} (t : K → Hash) (m : gmap K Z) c :
  map_Forall (λ _ x, 0 ≤ x) m → map_Forall (λ k x, 0 ≤ (if decide (t k = c) then x else 0)) m.
Proof. intros Hm k x Hk. specialize (Hm k x Hk). cbn in Hm. destruct (decide _); [exact Hm|done]. Qed.

Lemma requestsOf_nonneg db c : wfRequests db → 0 ≤ requestsOf db c.
Proof.
  intros [H1 H3]. unfold requestsOf.
  pose proof (keyedSum_nonneg _ _ (nonneg_tokens (λ k, k.2) _ c H1)).
  pose proof (keyedSum_nonneg _ _ (nonneg_tokens (λ k, k.2) _ c H3)). lia.
Qed.

(** Adding to an entry of a table. *)
Lemma add_entry {K} `{Countable K} (t : K → Hash) (m : gmap K Z) k x rest :
  map_Forall (λ _ x, 0 ≤ x) m → 0 ≤ x → 0 ≤ rest →
  keyedSum (λ k' x, if decide (t k' = t k) then x else 0) m + rest + x < word64 →
  let y := match m !! k with Some r => add64 x r | None => x end in
  map_Forall (λ _ x, 0 ≤ x) (<[k := y]> m) ∧
  ∀ c, keyedSum (λ k' x, if decide (t k' = c) then x else 0) (<[k := y]> m) =
       keyedSum (λ k' x, if decide (t k' = c) then x else 0) m + (if decide (t k = c) then x else 0).
Proof.
  intros Hm Hx Hrest Hlt y. assert (y = from_option id 0 (m !! k) + x ∧ 0 ≤ from_option id 0 (m !! k)) as [Hy Hpos].
  { subst y. destruct (m !! k) as [r|] eqn:E; cbn; [|lia].
    pose proof (keyedSum_elem _ m k r (nonneg_tokens t m (t k) Hm) E) as Hle. cbn in Hle.
    rewrite decide_True in Hle by done. specialize (Hm k r E). cbn in Hm.
    unfold add64. rewrite u64_small; [lia|]. unfold in_u64. lia. }
  split.
  - apply map_Forall_insert_2; [lia|done].
  - intros c. rewrite keyedSum_insert. destruct (decide (t k = c)); [|destruct (m !! k); cbn; lia].
    destruct (m !! k) as [r|]; cbn in *; lia.
Qed.

Lemma AddShardRewardRequest_exact epoch s t x db : wfRequests db → 0 ≤ x → requestsOf db t + x < word64 →
  wfRequests (AddShardRewardRequest epoch s t x db) ∧
  ∀ c, requestsOf (AddShardRewardRequest epoch s t x db) c = requestsOf db c + (if decide (t = c) then x else 0).
Proof.
  intros [H1 H3] Hx Hlt. unfold requestsOf in *.
  pose proof (keyedSum_nonneg _ _ (nonneg_tokens (λ k, k.2) _ t H3)) as Hrest.
  destruct (add_entry (λ k, k.2) (rewardRequests db) (epoch, s, t) x _ H1 Hx Hrest Hlt) as [Hwf Hsum].
  split; [by split|]. intros c. cbn [AddShardRewardRequest rewardRequests rewardRequestsV3].
  etransitivity; [apply (f_equal (λ z, z + _)), (Hsum c)|]. cbn. lia.
Qed.

Lemma AddShardRewardRequestMultiset_exact epoch s j t x db : wfRequests db → 0 ≤ x → requestsOf db t + x < word64 →
  wfRequests (AddShardRewardRequestMultiset epoch s j t x db) ∧
  ∀ c, requestsOf (AddShardRewardRequestMultiset epoch s j t x db) c = requestsOf db c + (if decide (t = c) then x else 0).
Proof.
  intros [H1 H3] Hx Hlt. unfold requestsOf in *.
  pose proof (keyedSum_nonneg _ _ (nonneg_tokens (λ k, k.2) _ t H1)) as Hrest.
  destruct (add_entry (λ k, k.2) (rewardRequestsV3 db) (epoch, s, j, t) x _ H3 Hx Hrest) as [Hwf Hsum]; [cbn in *; lia|].
  split; [by split|]. intros c. cbn [AddShardRewardRequestMultiset rewardRequests rewardRequestsV3].
  etransitivity; [apply (f_equal (λ z, _ + z)), (Hsum c)|]. cbn. lia.
Qed.

(** *** The fees of a block *)
Definition booksExactly (book : Hash → Z → RewardDB → RewardDB) : Prop :=
  ∀ t x db, wfRequests db → 0 ≤ x → requestsOf db t + x < word64 →
  wfRequests (book t x db) ∧
  ∀ c, requestsOf (book t x db) c = requestsOf db c + (if decide (t = c) then x else 0).

Lemma addFees_exact book fees db : booksExactly book → wfRequests db → nonnegMap fees →
  (∀ c, requestsOf db c + amountOf fees c < word64) →
  wfRequests (addFees book fees db) ∧
  ∀ c, requestsOf (addFees book fees db) c = requestsOf db c + amountOf fees c.
Proof.
  intros Hbook Hwf Hf Hlt. unfold addFees.
  assert (Forall (λ kv : Hash * Z, 0 ≤ kv.2) (map_to_list fees)) as Hl.
  { apply Forall_forall. intros [k x] Hk%elem_of_map_to_list. specialize (Hf k). unfold amountOf in Hf.
    by rewrite Hk in Hf. }
  setoid_rewrite <- entriesOf_map. setoid_rewrite <- entriesOf_map in Hlt. clear Hf. revert db Hwf Hlt.
  induction Hl as [|[k x] l Hx Hl IH]; intros db Hwf Hlt.
  { split; [done|]. intros c. cbn [foldl]. unfold entriesOf. rewrite list_sum_nil. lia. }
  assert (∀ c, entriesOf ((k, x) :: l) c = (if decide (k = c) then x else 0) + entriesOf l c) as Hcons.
  { intros c. unfold entriesOf. by rewrite list_sum_cons. }
  cbn [foldl fst snd] in *. destruct (Z.eqb_spec x 0) as [->|Hx0].
  { destruct (IH db Hwf) as [Hwf' Hc].
    - intros c. specialize (Hlt c). rewrite Hcons in Hlt. destruct (decide _); lia.
    - split; [done|]. intros c. rewrite Hc, Hcons. destruct (decide _); lia. }
  destruct (Hbook k x db Hwf Hx) as [Hwf' Hc].
  { specialize (Hlt k). rewrite Hcons, decide_True in Hlt by done.
    pose proof (entriesOf_nonneg l k Hl). lia. }
  destruct (IH _ Hwf') as [Hwf'' Hc'].
  { intros c. rewrite Hc. specialize (Hlt c). rewrite Hcons in Hlt. lia. }
  split; [done|]. intros c. rewrite Hc', Hc, Hcons. lia.
Qed.

Section cap.
Context `{!RewardConfig} (v : RewardView) (Hsane : saneRewards v).

Lemma decay_bound n r : 0 ≤ r ≤ 2 ^ 56 → 0 ≤ decay n r ≤ r.
Proof.
  change (2 ^ 56) with 72057594037927936. revert r. induction n as [|n IH]; intros r Hr; cbn [decay]; [lia|].
  assert (mul64 r 91 = r * 91) as -> by (apply (mul64_small _ _ 6557241057451442176); [lia..|reflexivity]).
  pose proof (div_spec (r * 91) 100 ltac:(lia)). pose proof (div_nonneg (r * 91) 100 ltac:(lia) ltac:(lia)).
  assert (r * 91 / 100 ≤ r) by lia. specialize (IH (r * 91 / 100) ltac:(lia)). lia.
Qed.

Lemma blockTimeLoop_bound version anchors cur : Forall (λ a, 0 ≤ Timeslot a ≤ 3600) anchors →
  0 ≤ cur ≤ 3600 → 0 ≤ blockTimeLoop version anchors cur ≤ 3600.
Proof.
  intros Ha. revert cur. induction Ha as [|a anchors Ha Hl IH]; intros cur Hc; cbn [blockTimeLoop]; [done|].
  destruct (_ <? _); [done|]. by apply IH.
Qed.

Lemma GetRewardAmount_Ok s version height : is_Some (rv_ShardTSManager v !! s) →
  ∃ a, GetRewardAmount v s version height = Ok a ∧ 0 ≤ a ≤ 2 ^ 52.
Proof.
  intros [ts Hts]. pose proof (sr_blockTime _ Hsane) as Hbt. pose proof (sr_basic _ Hsane) as Hbr.
  change (2 ^ 40) with 1099511627776 in Hbr. unfold GetRewardAmount. destruct (_ <? _).
  - pose proof (sr_beacon _ Hsane) as Hb. unfold getRewardAmount, getNoBlkPerYear.
    rewrite (u64_small MinBeaconBlockInterval) by (unfold in_u64, word64; lia).
    rewrite uDiv_pos by lia. cbn [mbind outcome_bind]. rewrite uDiv_pos by (apply Z.div_str_pos; lia).
    cbn [mbind outcome_bind]. eexists. split; [done|].
    pose proof (decay_bound (Z.to_nat (sub64 height 1 / (31557600 / MinBeaconBlockInterval))) BasicReward) as Hd.
    change (2 ^ 56) with 72057594037927936 in Hd. change (2 ^ 52) with 4503599627370496. lia.
  - unfold GetBasicRewardByVersion, GetBlockTimeByBlockVersion.
    assert (0 ≤ blockTime BLOCKTIME_DEFAULT ≤ 3600) as Hcur by lia.
    pose proof (blockTimeLoop_bound version _ _ (sr_anchors _ Hsane) Hcur) as Hl.
    set (bt := blockTimeLoop _ _ _) in *. clearbody bt.
    rewrite (u64_small bt), (u64_small (blockTime _)) by (unfold in_u64, word64; lia).
    rewrite (mul64_small BasicReward bt 3958241859993600) by (unfold word64; nia).
    rewrite uDiv_pos by lia. cbn [mbind outcome_bind]. unfold GetYearOfShard. rewrite Hts.
    destruct (getYearOfBlockChain_Ok ts height) as (year & -> & _); [unfold saneBlockTime; lia|].
    cbn [mbind outcome_bind]. eexists. split; [done|]. unfold getRewardAmountV2.
    assert (0 ≤ BasicReward * bt / blockTime BLOCKTIME_DEFAULT) by (apply div_nonneg; nia).
    assert (BasicReward * bt / blockTime BLOCKTIME_DEFAULT ≤ 3958241859993600) by (apply Z.div_le_upper_bound; nia).
    pose proof (decay_bound (Z.to_nat year) (BasicReward * bt / blockTime BLOCKTIME_DEFAULT)) as Hd.
    change (2 ^ 56) with 72057594037927936 in Hd. change (2 ^ 52) with 4503599627370496. lia.
Qed.

Hypothesis Hmax : 0 ≤ MaxReward < 2 ^ 63.

Lemma capReward_exact version a db minted : INSTANT_FINALITY_VERSION_V2 ≤ version →
  0 ≤ a ≤ 2 ^ 52 → 0 ≤ minted ≤ MaxReward →
  ∃ a', capReward version a (db, minted) = (Ok a', (db, minted + a')) ∧ 0 ≤ a' ∧ minted + a' ≤ MaxReward ∧
    a' = Z.min a (MaxReward - minted).
Proof.
  intros Hver Ha Hm. change (2 ^ 52) with 4503599627370496 in Ha. change (2 ^ 63) with 9223372036854775808 in Hmax.
  unfold capReward. rewrite getS_bind. destruct (Z.leb_spec INSTANT_FINALITY_VERSION_V2 version); [|lia].
  assert (add64 minted a = minted + a) as -> by (unfold add64; apply u64_small; unfold in_u64, word64; lia).
  exists (Z.min a (MaxReward - minted)).
  assert ((if MaxReward <? minted + a then if minted <? MaxReward then sub64 MaxReward minted else 0 else a)
    = Z.min a (MaxReward - minted)) as ->.
  { destruct (Z.ltb_spec MaxReward (minted + a)); [|lia]. destruct (Z.ltb_spec minted MaxReward); [|lia].
    rewrite sub64_exact by (unfold in_u64, word64; lia). lia. }
  assert (add64 minted (Z.min a (MaxReward - minted)) = minted + Z.min a (MaxReward - minted)) as ->.
  { unfold add64. apply u64_small. unfold in_u64, word64. lia. }
  split_and!; [done|lia|lia|done].
Qed.

Lemma addPRV_amount a fees c : 0 ≤ a → 0 ≤ amountOf fees PRVCoinID → amountOf fees PRVCoinID + a < word64 →
  amountOf (addPRV a fees) c = amountOf fees c + (if decide (c = PRVCoinID) then a else 0).
Proof.
  intros Ha Hf Hlt. unfold addPRV. rewrite amountOf_insert. fold (amountOf fees PRVCoinID).
  assert (add64 (amountOf fees PRVCoinID) a = amountOf fees PRVCoinID + a) as ->.
  { unfold add64. apply u64_small. unfold in_u64. lia. }
  destruct (decide (PRVCoinID = c)) as [<-|Hne]; [by rewrite decide_True|].
  rewrite decide_False by congruence. lia.
Qed.

Context (shardIDs : list Z) (blk : RewardBlock).
Hypothesis Hver : INSTANT_FINALITY_VERSION_V2 ≤ rb_Version blk.

(** Room for a token: neither fees nor minted coins overflow. *)
Definition room (db : RewardDB) (minted : Z) (fees : Hash → Z) : Prop :=
  ∀ c, requestsOf db c + fees c + (if decide (c = PRVCoinID) then MaxReward - minted else 0) < word64.

(** The booking shared by both kinds of instruction. *)
Lemma book_one book fees a db minted : booksExactly book → wfRequests db → nonnegMap fees →
  0 ≤ a → 0 ≤ minted → minted + a ≤ MaxReward → room db minted (amountOf fees) →
  wfRequests (addFees book (addPRV a fees) db) ∧
  ∀ c, requestsOf (addFees book (addPRV a fees) db) c =
       requestsOf db c + amountOf fees c + (if decide (c = PRVCoinID) then a else 0).
Proof.
  intros Hbook Hwf Hf Ha Hm Hma Hroom.
  assert (∀ c, amountOf (addPRV a fees) c = amountOf fees c + (if decide (c = PRVCoinID) then a else 0)) as Hadd.
  { intros c. apply addPRV_amount; [done|apply Hf|]. specialize (Hroom PRVCoinID).
    rewrite decide_True in Hroom by done. pose proof (requestsOf_nonneg db PRVCoinID Hwf). lia. }
  destruct (addFees_exact book (addPRV a fees) db Hbook Hwf) as [Hwf' Hc].
  - intros c. rewrite Hadd. specialize (Hf c). destruct (decide _); lia.
  - intros c. rewrite Hadd. specialize (Hroom c). destruct (decide _); lia.
  - split; [done|]. intros c. rewrite Hc, Hadd. lia.
Qed.

Lemma bookInstruction_exact i db minted : goodAccept v i → wfRequests db → 0 ≤ minted ≤ MaxReward →
  room db minted (feesOf i) →
  ∃ db' minted', bookInstruction v shardIDs blk i (db, minted) = (Ok tt, (db', minted')) ∧
    wfRequests db' ∧ minted ≤ minted' ≤ MaxReward ∧
    ∀ c, requestsOf db' c = requestsOf db c + feesOf i c + (if decide (c = PRVCoinID) then minted' - minted else 0).
Proof.
  intros (Hf & Hfee & Hs) Hwf Hm Hroom. destruct i as [s j fees hgt|s fees hgt|]; cbn [bookInstruction shardOfAccept] in *.
  - destruct fees as [fees|]; [|done]. destruct (GetRewardAmount_Ok s (shardBlockVersion blk shardIDs s hgt) hgt Hs) as (a & Ha & Hab).
    destruct (capReward_exact (rb_Version blk) a db minted Hver Hab Hm) as (a' & Hcap & Ha0 & Hmax' & _).
    rewrite (run_lift _ _ _ _ Ha), (run_bind _ _ _ _ _ Hcap).
    destruct (book_one (AddShardRewardRequestMultiset (rb_Epoch blk) s j) fees a' db minted) as [Hwf' Hc]; try done; [|lia|].
    { intros t x d. apply AddShardRewardRequestMultiset_exact. }
    exists (addFees (AddShardRewardRequestMultiset (rb_Epoch blk) s j) (addPRV a' fees) db), (minted + a').
    split_and!; [done|done|lia|done|]. intros c. rewrite Hc.
    change (feesOf (AcceptBlockRewardV3 s j (Some fees) hgt) c) with (amountOf fees c). destruct (decide _); lia.
  - destruct (GetRewardAmount_Ok s (shardBlockVersion blk shardIDs s hgt) hgt Hs) as (a & Ha & Hab).
    destruct (capReward_exact (rb_Version blk) a db minted Hver Hab Hm) as (a' & Hcap & Ha0 & Hmax' & _).
    rewrite (run_lift _ _ _ _ Ha), (run_bind _ _ _ _ _ Hcap).
    destruct (book_one (AddShardRewardRequest (rb_Epoch blk) s) (default ∅ fees) a' db minted) as [Hwf' Hc]; try done; [|lia|].
    { intros t x d. apply AddShardRewardRequest_exact. }
    exists (addFees (AddShardRewardRequest (rb_Epoch blk) s) (addPRV a' (default ∅ fees)) db), (minted + a').
    split_and!; [done|done|lia|done|]. intros c. rewrite Hc.
    cbn [feesOf]. destruct (decide _); lia.
  - exists db, minted. split_and!; [done|done|lia|lia|]. intros c. cbn [feesOf]. destruct (decide _); lia.
Qed.

(** C15: booking a beacon block under the limit always succeeds; it books for each token exactly
    the fees of the block's instructions, plus, in the native coin, what it mints; the count of
    minted coins rises by exactly that and never passes the limit. *)
Theorem minting_capped db minted :
  Forall (goodAccept v) (rb_Instructions blk) → wfRequests db → 0 ≤ minted ≤ MaxReward →
  room db minted (λ c, list_sum (λ i, feesOf i c) (rb_Instructions blk)) →
  ∃ db' minted',
    addShardRewardRequestToBeacon v shardIDs blk (db, minted) = (Ok tt, (db', minted')) ∧
    wfRequests db' ∧ minted ≤ minted' ≤ MaxReward ∧
    ∀ c, requestsOf db' c = requestsOf db c + list_sum (λ i, feesOf i c) (rb_Instructions blk) +
           (if decide (c = PRVCoinID) then minted' - minted else 0).
Proof.
  intros Hgood Hwf Hm Hroom. unfold addShardRewardRequestToBeacon.
  revert db minted Hwf Hm Hroom. induction Hgood as [|i insts Hi Hgood IH]; intros db minted Hwf Hm Hroom.
  { exists db, minted. split_and!; [done|done|lia|lia|]. intros c. rewrite list_sum_nil. destruct (decide _); lia. }
  assert (∀ c, 0 ≤ list_sum (λ i, feesOf i c) insts) as Hpos.
  { intros c. apply list_sum_nonneg. eapply Forall_impl; [exact Hgood|]. intros j [Hj _]. apply Hj. }
  destruct (bookInstruction_exact i db minted Hi Hwf Hm) as (db1 & m1 & Hrun & Hwf1 & Hm1 & Hc1).
  { intros c. specialize (Hroom c). cbv beta in Hroom. rewrite list_sum_cons in Hroom. specialize (Hpos c). lia. }
  destruct (IH db1 m1 Hwf1) as (db2 & m2 & Hrun2 & Hwf2 & Hm2 & Hc2); [lia| |].
  { intros c. specialize (Hroom c). cbv beta in *. rewrite list_sum_cons in Hroom. rewrite Hc1.
    destruct (decide _); lia. }
  exists db2, m2. split_and!; [|done|lia|lia|].
  - cbn [bookInstructions]. by rewrite (run_bind _ _ _ _ _ Hrun).
  - intros c. rewrite Hc2, Hc1, list_sum_cons. destruct (decide _); lia.
Qed.
End cap.
