(* ===== verification/RewardWithdraw.v ===== *)
(** Withdrawing rewards on a shard ([blockchain/accessor_transaction.go], [blockchain/salary.go],
    [blockchain/shardprocess.go]): the responses a block producer adds for the requests of a
    block, the check of a block by the others, and the debit of the credits; and that a block
    whose requests and responses are in order pays exactly what it debits. *)
From S2P Require Import Prelude Hash Timeslot Float64 Rewards RewardPay RewardEpoch RewardLedger.
From Stdlib Require Import Ascii String.

Local Open Scope Z_scope.

(** *** Transactions *)
Record PaymentAddress := mkPaymentAddress { Pk : string; OTAPublic : string }.

(** The coin a response mints ([GetTxMintData]). *)
Record MintCoin := mkMintCoin {
  coinVersion : Z;
  coinPublicKey : string;
  coinTxRandom : string;
  coinValue : Z;
  coinTokenID : Hash }.

Inductive RewardTx :=
  | WithdrawRequest (txHash : string) (address : PaymentAddress) (tokenID : Hash) (version : Z)
  | WithdrawResponse (txVersion : Z) (txRequest rewardPublicKey sharedRandom : string)
      (minted : option MintCoin)
  | OtherTx.

(** The one-time key of an address, from the curve arithmetic of the coins: nothing if the
    randomness is not valid for the address or not the coin's. *)
Class OneTimeKeys := oneTimeKey : PaymentAddress → string → string → option string.

(** The salary transaction of [transaction/transaction.go]: its version, the coin, the
    randomness it shares. *)
Class SalaryTxs := BuildTxSalary : PaymentAddress → Z → Hash → outcome (Z * MintCoin * string).

Definition AcceptedWithdrawRewardRequestVersion : list Z := [0; 1].

Section withdraw.
Context `{!OneTimeKeys}.

Definition CheckCoinValid (coin : MintCoin) (address : PaymentAddress) (sharedRandom : string)
    (amount : Z) : bool :=
  if coinVersion coin =? 1 then
    bool_decide (coinPublicKey coin = Pk address) && (amount =? coinValue coin)
  else
    (coinValue coin =? amount) &&
    match oneTimeKey address sharedRandom (coinTxRandom coin) with
    | Some k => bool_decide (k = coinPublicKey coin)
    | None => false
    end.

(** ** The check of a block *)
Fixpoint collectRequests (txs : list RewardTx) (table : gmap string (PaymentAddress * Hash))
    : outcome (gmap string (PaymentAddress * Hash)) :=
  match txs with
  | [] => Ok table
  | WithdrawRequest h address tokenID _ :: txs =>
      match table !! h with
      | None => collectRequests txs (<[h := (address, tokenID)]> table)
      | Some _ => Err "Double withdraw request"
      end
  | _ :: txs => collectRequests txs table
  end.

Fixpoint checkResponses (st : RewardState) (txs : list RewardTx)
    (table : gmap string (PaymentAddress * Hash)) : outcome unit :=
  match txs with
  | [] => Ok tt
  | WithdrawResponse _ req _ sharedRandom minted :: txs =>
      match table !! req with
      | None => Err "cannot found tx request for tx withdraw reward response"
      | Some (address, tokenID) =>
          match minted with
          | None => Err "It is not tx mint"
          | Some coin =>
              if negb (bool_decide (tokenID = coinTokenID coin)) then Err "token mismatch"
              else if CheckCoinValid coin address sharedRandom
                        (GetCommitteeReward st (Pk address) (coinTokenID coin))
              then checkResponses st txs (delete req table)
              else Err "Mint Coin is invalid for receiver or amount"
          end
      end
  | _ :: txs => checkResponses st txs table
  end.

(** The state is the credits of the best view of the shard. *)
Definition ValidateResponseTransactionFromTxsWithMetadata (st : RewardState) (txs : list RewardTx)
    : outcome unit :=
  table ← collectRequests txs ∅; checkResponses st txs table.

(** ** Storing a block: the responses debit the credits *)
Fixpoint processResponses (txs : list RewardTx) : M RewardState unit :=
  match txs with
  | [] => mret tt
  | WithdrawResponse txVersion _ rewardPublicKey _ minted :: txs =>
      match minted with
      | None => fail "RemoveCommitteeRewardError"
      | Some coin =>
          RemoveCommitteeReward (if txVersion =? 1 then coinPublicKey coin else rewardPublicKey)
            (coinValue coin) (coinTokenID coin);;
          processResponses txs
      end
  | _ :: txs => processResponses txs
  end.

(** ** The producer's responses *)
Context `{!SalaryTxs}.

Definition buildWithDrawTransactionResponse (st : RewardState) (h : string) (address : PaymentAddress)
    (tokenID : Hash) (version : Z) : outcome RewardTx :=
  let amount := GetCommitteeReward st (Pk address) tokenID in
  if amount =? 0 then Err "Not enough reward"
  else if negb (bool_decide (version ∈ AcceptedWithdrawRewardRequestVersion)) then Err "Invalid version"
  else
    '(txVersion, coin, sharedRandom) ← BuildTxSalary address amount tokenID;
    Ok (WithdrawResponse txVersion h (Pk address)
          (if txVersion =? 1 then EmptyString else sharedRandom) (Some coin)).

(** The first request of each key and token. *)
Definition firstRequests (txs : list RewardTx) : gmap (string * Hash) (string * PaymentAddress * Z) :=
  foldl (λ table tx,
    match tx with
    | WithdrawRequest h address tokenID version =>
        match table !! (Pk address, tokenID) with
        | None => <[(Pk address, tokenID) := (h, address, version)]> table
        | Some _ => table
        end
    | _ => table
    end) ∅ txs.

Definition responseOf (st : RewardState) (kv : (string * Hash) * (string * PaymentAddress * Z)) : option RewardTx :=
  let '((_, tokenID), (h, address, version)) := kv in
  match buildWithDrawTransactionResponse st h address tokenID version with
  | Ok tx => Some tx
  | _ => None
  end.

Definition BuildResponseTransactionFromTxsWithMetadata (st : RewardState) (txs : list RewardTx)
    : list RewardTx :=
  txs ++ omap (responseOf st) (map_to_list (firstRequests txs)).
End withdraw.

(** *** What a block pays and debits *)
Definition payment : Type := string * Hash * Z.

Definition paymentsOf (txs : list RewardTx) : list payment :=
  omap (λ tx, match tx with
              | WithdrawResponse txVersion _ key _ (Some coin) =>
                  Some (if txVersion =? 1 then coinPublicKey coin else key, coinTokenID coin, coinValue coin)
              | _ => None
              end) txs.

Definition paid (ps : list payment) (c : Hash) : Z :=
  list_sum (λ p, if decide (p.1.2 = c) then p.2 else 0) ps.

Definition requestsIn (txs : list RewardTx) : list (string * PaymentAddress * Hash * Z) :=
  omap (λ tx, match tx with
              | WithdrawRequest h address tokenID version => Some (h, address, tokenID, version)
              | _ => None
              end) txs.

(** The requests a block answers. *)
Definition answeredOf (txs : list RewardTx) : list string :=
  omap (λ tx, match tx with WithdrawResponse _ req _ _ _ => Some req | _ => None end) txs.

(** No two answered requests of a block name the same key and token. *)
Definition distinctAnswers (txs : list RewardTx) : Prop :=
  ∀ h1 a1 v1 h2 a2 v2 t, h1 ∈ answeredOf txs → h2 ∈ answeredOf txs →
  (h1, a1, t, v1) ∈ requestsIn txs → (h2, a2, t, v2) ∈ requestsIn txs → Pk a1 = Pk a2 → h1 = h2.

(** A response of version 1 mints a coin of version 1; another one names the key of its request. *)
Definition namesRequester (txs : list RewardTx) : Prop :=
  ∀ txVersion req key r coin, WithdrawResponse txVersion req key r (Some coin) ∈ txs →
  if txVersion =? 1 then coinVersion coin = 1
  else ∀ a t v, (req, a, t, v) ∈ requestsIn txs → key = Pk a.

(** ** Debits *)
Lemma GetCommitteeReward_amount st pk c :
  GetCommitteeReward st pk c = amountOf (default ∅ (st !! pk)) c.
Proof. unfold GetCommitteeReward. destruct (st !! pk); cbn; [done|by rewrite amountOf_empty]. Qed.

Lemma GetCommitteeReward_bounds st pk c : wfCredits st → 0 ≤ GetCommitteeReward st pk c ≤ credits st c.
Proof.
  intros Hwf. rewrite GetCommitteeReward_amount. destruct (st !! pk) as [m|] eqn:E; cbn.
  - split; [exact (Hwf pk m E c)|]. apply (map_sum_elem_le (λ m, amountOf m c) st pk m); [|done].
    intros k m' Hm'. exact (Hwf k m' Hm' c).
  - rewrite amountOf_empty. split; [done|]. by apply credits_nonneg.
Qed.

Lemma amountOf_delete m t c : amountOf (delete t m) c = if decide (t = c) then 0 else amountOf m c.
Proof.
  unfold amountOf. destruct (decide (t = c)) as [<-|Hne];
    [by rewrite lookup_delete_eq|by rewrite lookup_delete_ne].
Qed.

(** What a debit leaves. *)
Definition setReward (pk : string) (m : gmap Hash Z) (st : RewardState) : RewardState :=
  if bool_decide (m = ∅) then delete pk st else <[pk := m]> st.

Lemma setReward_get pk m st pk' c :
  GetCommitteeReward (setReward pk m st) pk' c =
  if decide (pk = pk') then amountOf m c else GetCommitteeReward st pk' c.
Proof.
  unfold setReward, GetCommitteeReward, RewardState in *. destruct (decide (pk = pk')) as [<-|Hne].
  - case_bool_decide as He; [by rewrite lookup_delete_eq, He, amountOf_empty|by rewrite lookup_insert_eq].
  - case_bool_decide; [by rewrite lookup_delete_ne|by rewrite lookup_insert_ne].
Qed.

Lemma setReward_wf pk m st : wfCredits st → nonnegMap m → wfCredits (setReward pk m st).
Proof.
  intros Hwf Hm. unfold setReward. case_bool_decide; [by apply map_Forall_delete|by apply map_Forall_insert_2].
Qed.

Lemma setReward_credits pk m st c :
  credits (setReward pk m st) c = credits st c - GetCommitteeReward st pk c + amountOf m c.
Proof.
  rewrite GetCommitteeReward_amount. unfold setReward, credits, RewardState in *.
  assert (from_option (λ m, amountOf m c) 0 (st !! pk) = amountOf (default ∅ (st !! pk)) c) as <-.
  { destruct (st !! pk); [done|]. cbn. by rewrite amountOf_empty. }
  case_bool_decide as He; [|by rewrite map_sum_insert].
  rewrite map_sum_delete, He, amountOf_empty. lia.
Qed.

Lemma RemoveCommitteeReward_exact pk amount t st : wfCredits st → (∀ c, credits st c < word64) →
  0 ≤ amount ≤ GetCommitteeReward st pk t →
  ∃ st', RemoveCommitteeReward pk amount t st = (Ok tt, st') ∧ wfCredits st' ∧
    (∀ pk' c, GetCommitteeReward st' pk' c =
       GetCommitteeReward st pk' c - (if decide (pk = pk' ∧ t = c) then amount else 0)) ∧
    ∀ c, credits st' c = credits st c - (if decide (t = c) then amount else 0).
Proof.
  intros Hwf Hlt Ham. pose proof (GetCommitteeReward_bounds st pk t Hwf) as Hb. specialize (Hlt t) as Hltt.
  unfold RemoveCommitteeReward. rewrite getS_bind. destruct (st !! pk) as [m|] eqn:E.
  - assert (∀ c, GetCommitteeReward st pk c = amountOf m c) as Hget.
    { intros c. rewrite GetCommitteeReward_amount, E. done. }
    fold (amountOf m t). rewrite Hget in Ham, Hb. destruct (Z.ltb_spec (amountOf m t) amount); [lia|].
    rewrite sub64_exact by (unfold in_u64; lia).
    set (m' := if amountOf m t - amount =? 0 then delete t m else <[t := amountOf m t - amount]> m).
    assert (∀ c, amountOf m' c = amountOf m c - (if decide (t = c) then amount else 0)) as Hm'.
    { intros c. subst m'. destruct (Z.eqb_spec (amountOf m t - amount) 0);
        rewrite ?amountOf_delete, ?amountOf_insert; destruct (decide (t = c)) as [<-|]; lia. }
    exists (setReward pk m' st). split_and!; [done| | |].
    + apply setReward_wf; [done|]. intros c. rewrite Hm'. pose proof (Hwf pk m E c).
      destruct (decide (t = c)) as [<-|]; lia.
    + intros pk' c. rewrite setReward_get. destruct (decide (pk = pk')) as [<-|Hne].
      * rewrite Hm', Hget. destruct (decide (t = c)) as [<-|Hnt].
        -- by rewrite decide_True.
        -- rewrite (decide_False (P := pk = pk ∧ t = c)) by tauto. lia.
      * rewrite decide_False by tauto. lia.
    + intros c. rewrite setReward_credits, Hget, Hm'. lia.
  - assert (GetCommitteeReward st pk t = 0) as Hz.
    { rewrite GetCommitteeReward_amount, E. cbn. by rewrite amountOf_empty. }
    assert (amount = 0) as -> by lia. exists st. split_and!; [done|done| |].
    + intros pk' c. destruct (decide _); lia.
    + intros c. destruct (decide _); lia.
Qed.

(** What a block debits a key of a token. *)
Definition debited (ps : list payment) (pk : string) (c : Hash) : Z :=
  list_sum (λ p, if decide (p.1.1 = pk ∧ p.1.2 = c) then p.2 else 0) ps.

Definition allMinted (txs : list RewardTx) : Prop :=
  ∀ txVersion req key r, WithdrawResponse txVersion req key r None ∉ txs.

Lemma debited_absent ps pk c : (pk, c) ∉ ps.*1 → debited ps pk c = 0.
Proof.
  intros Hn. unfold debited. rewrite (list_sum_ext _ (λ _, 0)), list_sum_const0; [done|].
  intros [[pk' t] x] Hin. cbn. destruct (decide _) as [[-> ->]|]; [|done].
  exfalso. apply Hn. apply list_elem_of_fmap. by exists ((pk, c), x).
Qed.

Lemma processResponses_exact txs st : wfCredits st → (∀ c, credits st c < word64) → allMinted txs →
  NoDup (paymentsOf txs).*1 →
  Forall (λ p, 0 ≤ p.2 ≤ GetCommitteeReward st p.1.1 p.1.2) (paymentsOf txs) →
  ∃ st', processResponses txs st = (Ok tt, st') ∧ wfCredits st' ∧
    (∀ pk c, GetCommitteeReward st' pk c = GetCommitteeReward st pk c - debited (paymentsOf txs) pk c) ∧
    ∀ c, credits st' c = credits st c - paid (paymentsOf txs) c.
Proof.
  revert st. induction txs as [|tx txs IH]; intros st Hwf Hlt Hm Hnd Hall.
  { exists st. split_and!; [done|done| |].
    - intros pk c. unfold debited; cbn [paymentsOf omap list_omap]. rewrite list_sum_nil. lia.
    - intros c. unfold paid; cbn [paymentsOf omap list_omap]. rewrite list_sum_nil. lia. }
  assert (allMinted txs) as Hm' by (intros v q k r Hin; eapply Hm; right; exact Hin).
  destruct tx as [h a t v|txVersion req key r [coin|]|]; cbn [processResponses paymentsOf omap list_omap] in *;
    fold (paymentsOf txs) in *.
  - by apply IH.
  - set (pk := if txVersion =? 1 then coinPublicKey coin else key) in *. rewrite fmap_cons in Hnd.
    apply NoDup_cons in Hnd as [Hnew Hnd]. apply Forall_cons in Hall as [Hp Hall]. cbn [fst snd] in *.
    destruct (RemoveCommitteeReward_exact pk (coinValue coin) (coinTokenID coin) st Hwf Hlt Hp)
      as (st1 & Hrun & Hwf1 & Hget1 & Hc1).
    destruct (IH st1 Hwf1) as (st' & Hrun' & Hwf' & Hget' & Hc'); [|done|done| |].
    + intros c. rewrite Hc1. specialize (Hlt c). destruct (decide _); lia.
    + apply Forall_forall. intros p Hin. eapply Forall_forall in Hall as Hpb; [|exact Hin]. cbn in Hpb.
      rewrite Hget1. destruct (decide _) as [[Hk Ht]|]; [|lia]. exfalso. apply Hnew.
      apply list_elem_of_fmap. exists p. split; [|done]. destruct p as [[? ?] ?]; cbn in *. congruence.
    + exists st'. split_and!; [by rewrite (run_bind _ _ _ _ _ Hrun)|done| |].
      * intros pk' c. rewrite Hget', Hget1. unfold debited. rewrite list_sum_cons. cbn [fst snd]. lia.
      * intros c. rewrite Hc', Hc1. unfold paid. rewrite list_sum_cons. cbn [fst snd]. lia.
  - exfalso. eapply Hm. left.
  - by apply IH.
Qed.

(** ** What the check ensures *)
Lemma collectRequests_spec txs table table' : collectRequests txs table = Ok table' →
  (∀ h a t v, (h, a, t, v) ∈ requestsIn txs → table' !! h = Some (a, t)) ∧
  (∀ h x, table !! h = Some x → table' !! h = Some x) ∧
  (∀ h a t, table' !! h = Some (a, t) → table !! h = Some (a, t) ∨ ∃ v, (h, a, t, v) ∈ requestsIn txs).
Proof.
  revert table. induction txs as [|tx txs IH]; intros table; cbn [collectRequests].
  { intros [= ->]. split_and!; [set_solver|done|by left]. }
  destruct tx as [h a t v|txVersion req key r coin|]; cbn [requestsIn omap list_omap]; [|by apply IH..].
  destruct (table !! h) as [x|] eqn:E; [done|]. intros (H1 & H2 & H3)%IH. split_and!.
  - intros h' a' t' v' [[= -> -> -> ->]|Hin]%elem_of_cons; [|by eapply H1].
    apply H2. by rewrite lookup_insert_eq.
  - intros h' x Hx. apply H2. rewrite lookup_insert_ne; [done|]. intros ->. by rewrite E in Hx.
  - intros h' a' t' [Hl|[v' Hin]]%H3.
    + destruct (decide (h = h')) as [<-|Hne].
      * rewrite lookup_insert_eq in Hl. injection Hl as [= -> ->]. right. exists v. left.
      * rewrite lookup_insert_ne in Hl by done. by left.
    + right. exists v'. by right.
Qed.

Section check.
Context `{!OneTimeKeys}.

Lemma checkResponses_spec st txs table : checkResponses st txs table = Ok tt →
  allMinted txs ∧ NoDup (answeredOf txs) ∧
  ∀ v req key r coin, WithdrawResponse v req key r (Some coin) ∈ txs →
    ∃ a, table !! req = Some (a, coinTokenID coin) ∧
      CheckCoinValid coin a r (GetCommitteeReward st (Pk a) (coinTokenID coin)) = true.
Proof.
  revert table. induction txs as [|tx txs IH]; intros table; cbn [checkResponses].
  { intros _. split_and!; [intros ? ? ? ?; set_solver|constructor|set_solver]. }
  destruct tx as [h a t v|v req key r coin|]; cbn [answeredOf omap list_omap].
  - intros (H1 & H2 & H3)%IH. split_and!; [|done|].
    + intros v' q k r' [?|Hin]%elem_of_cons; [done|]. by eapply H1.
    + intros v' q k r' c [?|Hin]%elem_of_cons; [done|]. by eapply H3.
  - destruct (table !! req) as [[a t]|] eqn:E; [|done]. destruct coin as [coin|]; [|done].
    case_bool_decide as Ht; cbn [negb]; [|done]. destruct (CheckCoinValid _ _ _ _) eqn:Hc; [|done].
    intros (H1 & H2 & H3)%IH. subst t. split_and!.
    + intros v' q k r' [?|Hin]%elem_of_cons; [done|]. by eapply H1.
    + constructor; [|done]. intros Hin. apply list_elem_of_omap in Hin as ([|v' q k r' c|] & Hin & Heq); [done| |done].
      injection Heq as ->. destruct c as [c|]; [|by eapply H1].
      destruct (H3 _ _ _ _ _ Hin) as (a' & Hl & _). by rewrite lookup_delete_eq in Hl.
    + intros v' q k r' c [Heq|Hin]%elem_of_cons.
      * injection Heq as -> -> -> -> ->. by exists a.
      * destruct (H3 _ _ _ _ _ Hin) as (a' & Hl & Hc'). exists a'. split; [|done].
        by apply lookup_delete_Some in Hl as [_ Hl].
  - intros (H1 & H2 & H3)%IH. split_and!; [|done|].
    + intros v' q k r' [?|Hin]%elem_of_cons; [done|]. by eapply H1.
    + intros v' q k r' c [?|Hin]%elem_of_cons; [done|]. by eapply H3.
Qed.

Lemma CheckCoinValid_value coin a r amount : CheckCoinValid coin a r amount = true → coinValue coin = amount.
Proof.
  unfold CheckCoinValid. destruct (coinVersion coin =? 1).
  - intros [_ Hv]%andb_true_iff. lia.
  - intros [Hv _]%andb_true_iff. lia.
Qed.

Lemma paymentsOf_elem txs p : p ∈ paymentsOf txs → ∃ v req key r coin,
  WithdrawResponse v req key r (Some coin) ∈ txs ∧
  p = (if v =? 1 then coinPublicKey coin else key, coinTokenID coin, coinValue coin).
Proof.
  intros ([|v q k r [coin|]|] & Hin & Heq)%list_elem_of_omap; try done.
  injection Heq as <-. by exists v, q, k, r, coin.
Qed.

Lemma paymentsOf_NoDup txs (target : string → option (string * Hash)) : NoDup (answeredOf txs) →
  (∀ v req key r coin, WithdrawResponse v req key r (Some coin) ∈ txs →
     target req = Some (if v =? 1 then coinPublicKey coin else key, coinTokenID coin)) →
  (∀ q1 q2 x, q1 ∈ answeredOf txs → q2 ∈ answeredOf txs → target q1 = Some x → target q2 = Some x → q1 = q2) →
  NoDup (paymentsOf txs).*1.
Proof.
  induction txs as [|tx txs IH]; [constructor|]. intros Hnd Ht Hinj.
  assert (answeredOf txs ⊆ answeredOf (tx :: txs)) as Hsub.
  { intros q Hq. destruct tx; cbn [answeredOf omap list_omap]; [done|by right|done]. }
  assert (NoDup (answeredOf txs) → NoDup (paymentsOf txs).*1) as IH'.
  { intros Hn. apply IH; [done| |].
    - intros v q k r c Hin. apply (Ht v q k r c). by right.
    - intros q1 q2 x H1 H2. apply Hinj; by apply Hsub. }
  destruct tx as [|v req key r [coin|]|]; cbn [paymentsOf answeredOf omap list_omap] in *;
    fold (paymentsOf txs) (answeredOf txs) in *; try (by apply IH').
  - apply NoDup_cons in Hnd as [Hnew Hnd]. rewrite fmap_cons. constructor; [|by apply IH']. cbn [fst].
    intros ([[pk t] x] & Heq & Hin)%list_elem_of_fmap. cbn [fst] in Heq. injection Heq as Hpk Htok.
    apply paymentsOf_elem in Hin as (v' & q' & k' & r' & c' & Hin & Hp). injection Hp as Hpk' Htok' _.
    assert (q' ∈ answeredOf txs) as Hq'.
    { apply list_elem_of_omap. by exists (WithdrawResponse v' q' k' r' (Some c')). }
    apply Hnew. rewrite (Hinj req q' (if v =? 1 then coinPublicKey coin else key, coinTokenID coin)); [done|left| | |].
    + by right.
    + apply (Ht v req key r coin). left.
    + rewrite (Ht v' q' k' r' c') by (by right). congruence.
  - apply NoDup_cons in Hnd as [_ Hnd]. by apply IH'.
Qed.

(** A block in order, accepted against the credits of the best view, debits the credits at the
    time it is stored, which only grew since, by what it pays. *)
Lemma accepted_exact best st txs :
  ValidateResponseTransactionFromTxsWithMetadata best txs = Ok tt →
  distinctAnswers txs → namesRequester txs →
  wfCredits best → wfCredits st → (∀ c, credits st c < word64) →
  (∀ pk c, GetCommitteeReward best pk c ≤ GetCommitteeReward st pk c) →
  ∃ st', processResponses txs st = (Ok tt, st') ∧ wfCredits st' ∧
    (∀ pk c x, (pk, c, x) ∈ paymentsOf txs → x = GetCommitteeReward best pk c) ∧
    NoDup (paymentsOf txs).*1 ∧
    (∀ pk c, GetCommitteeReward st' pk c = GetCommitteeReward st pk c - debited (paymentsOf txs) pk c) ∧
    ∀ c, credits st' c + paid (paymentsOf txs) c = credits st c.
Proof.
  intros Hval Hdist Hnames Hwfb Hwf Hlt Hle. unfold ValidateResponseTransactionFromTxsWithMetadata in Hval.
  destruct (collectRequests txs ∅) as [table| | |] eqn:Hcol; [|done..]. cbn [mbind outcome_bind] in Hval.
  destruct (checkResponses_spec _ _ _ Hval) as (Hmint & Hnd & Hresp).
  destruct (collectRequests_spec _ _ _ Hcol) as (Htab & _ & Hback).
  assert (∀ v req key r coin, WithdrawResponse v req key r (Some coin) ∈ txs → ∃ a ver,
    (req, a, coinTokenID coin, ver) ∈ requestsIn txs ∧ table !! req = Some (a, coinTokenID coin) ∧
    (if v =? 1 then coinPublicKey coin else key) = Pk a ∧
    coinValue coin = GetCommitteeReward best (Pk a) (coinTokenID coin)) as Hgood.
  { intros v req key r coin Hin. destruct (Hresp _ _ _ _ _ Hin) as (a & Hl & Hc). specialize (Hnames _ _ _ _ _ Hin).
    destruct (Hback _ _ _ Hl) as [Hn|[ver Hin']]; [by rewrite lookup_empty in Hn|].
    exists a, ver. split_and!; [done|done| |by eapply CheckCoinValid_value].
    destruct (v =? 1); [|by eapply Hnames]. unfold CheckCoinValid in Hc. rewrite Hnames in Hc. cbn in Hc.
    apply andb_true_iff in Hc as [Hc _]. by apply bool_decide_eq_true in Hc. }
  assert (NoDup (paymentsOf txs).*1) as Hndp.
  { apply (paymentsOf_NoDup txs (λ q, (λ at_ : PaymentAddress * Hash, (Pk at_.1, at_.2)) <$> table !! q)); [done| |].
    - intros v req key r coin Hin. destruct (Hgood _ _ _ _ _ Hin) as (a & ver & _ & -> & -> & _). done.
    - intros q1 q2 x Hq1 Hq2 H1 H2. destruct (table !! q1) as [[a1 t1]|] eqn:E1; [|done].
      destruct (table !! q2) as [[a2 t2]|] eqn:E2; [|done]. cbn in H1, H2. injection H1 as <-. injection H2 as Hpk ->.
      destruct (Hback _ _ _ E1) as [Hn|[v1 Hin1]]; [by rewrite lookup_empty in Hn|].
      destruct (Hback _ _ _ E2) as [Hn|[v2 Hin2]]; [by rewrite lookup_empty in Hn|].
      by eapply (Hdist q1 a1 v1 q2 a2 v2). }
  assert (∀ pk c x, (pk, c, x) ∈ paymentsOf txs → x = GetCommitteeReward best pk c) as Hpay.
  { intros pk c x (v & req & key & r & coin & Hin & [= -> -> ->])%paymentsOf_elem.
    destruct (Hgood _ _ _ _ _ Hin) as (a & ver & _ & _ & -> & Hx). exact Hx. }
  destruct (processResponses_exact txs st Hwf Hlt Hmint Hndp) as (st' & Hrun & Hwf' & Hget & Hc).
  { apply Forall_forall. intros [[pk c] x] Hin. cbn. rewrite (Hpay _ _ _ Hin).
    pose proof (GetCommitteeReward_bounds best pk c Hwfb). specialize (Hle pk c). lia. }
  exists st'. split_and!; [done..|]. intros c. rewrite Hc. lia.
Qed.
End check.

(** ** The producer's block *)
Section producer.
Context `{!OneTimeKeys, !SalaryTxs}.

(** The salary transaction pays the address the amount: the coin passes the check. *)
Definition salaryLaw : Prop := ∀ a amount t v coin r, BuildTxSalary a amount t = Ok (v, coin, r) →
  coinTokenID coin = t ∧ CheckCoinValid coin a (if v =? 1 then EmptyString else r) amount = true ∧
  (v = 1 → coinVersion coin = 1).

(** The transactions of a block before the responses: no responses, no repeated transaction,
    versions that metadata checks accept. *)
Record pendingTxs (txs : list RewardTx) : Prop := mkPendingTxs {
  pt_none : answeredOf txs = [];
  pt_version : Forall (λ x, x.2 ∈ AcceptedWithdrawRewardRequestVersion) (requestsIn txs);
  pt_nodup : NoDup ((λ x, x.1.1.1) <$> requestsIn txs) }.

Lemma firstRequests_spec txs :
  (∀ pk t h a v, firstRequests txs !! (pk, t) = Some (h, a, v) → Pk a = pk ∧ (h, a, t, v) ∈ requestsIn txs) ∧
  (∀ h a t v, (h, a, t, v) ∈ requestsIn txs → is_Some (firstRequests txs !! (Pk a, t))).
Proof.
  induction txs as [|tx txs IH] using rev_ind.
  { split; [intros pk t h a v; cbn; by rewrite lookup_empty|set_solver]. }
  unfold firstRequests, requestsIn. rewrite foldl_app, omap_app. fold (firstRequests txs) (requestsIn txs).
  destruct IH as [H1 H2]. destruct tx as [h a t v|v req key r coin|]; cbn [foldl omap list_omap];
    [|rewrite app_nil_r; by split..].
  destruct (firstRequests txs !! (Pk a, t)) as [x|] eqn:E; split.
  - intros pk t' h' a' v' (Hp & Hin)%H1. split; [done|]. apply elem_of_app. by left.
  - intros h' a' t' v' [Hin|Heq%list_elem_of_singleton]%elem_of_app; [by eapply H2|].
    injection Heq as -> -> -> ->. by rewrite E.
  - intros pk t' h' a' v' [[Hk Hv]|[Hk Hl]]%lookup_insert_Some.
    + injection Hk as <- <-. injection Hv as -> -> ->. split; [done|]. apply elem_of_app. right. by left.
    + apply H1 in Hl as [Hp Hin]. split; [done|]. apply elem_of_app. by left.
  - intros h' a' t' v' [Hin|Heq%list_elem_of_singleton]%elem_of_app.
    + destruct (decide ((Pk a, t) = (Pk a', t'))) as [->|Hne]; [by rewrite lookup_insert_eq|].
      rewrite lookup_insert_ne by done. by eapply H2.
    + injection Heq as -> -> -> ->. by rewrite lookup_insert_eq.
Qed.

Lemma collectRequests_Ok txs table : NoDup ((λ x, x.1.1.1) <$> requestsIn txs) →
  (∀ h, h ∈ (λ x, x.1.1.1) <$> requestsIn txs → table !! h = None) → is_Ok (collectRequests txs table).
Proof.
  revert table. induction txs as [|tx txs IH]; intros table Hnd Hno; [by exists table|].
  destruct tx as [h a t v|v req key r coin|]; cbn [collectRequests requestsIn omap list_omap] in *;
    fold (requestsIn txs) in *; [|by apply IH..].
  rewrite fmap_cons in Hnd, Hno. cbn [fst snd] in *. apply NoDup_cons in Hnd as [Hnew Hnd].
  rewrite (Hno h) by left. apply IH; [done|]. intros h' Hin. rewrite lookup_insert_ne; [apply Hno; by right|].
  intros ->. done.
Qed.

Lemma checkResponses_skip st txs1 txs2 table : answeredOf txs1 = [] →
  checkResponses st (txs1 ++ txs2) table = checkResponses st txs2 table.
Proof.
  induction txs1 as [|tx txs1 IH]; [done|]. destruct tx; cbn [answeredOf omap list_omap app checkResponses]; [|done|].
  - exact IH.
  - exact IH.
Qed.

(** A response answers its request in full. *)
Definition goodResponse (best : RewardState) (table : gmap string (PaymentAddress * Hash)) (tx : RewardTx) : Prop :=
  ∃ v req r coin a, tx = WithdrawResponse v req (Pk a) r (Some coin) ∧ table !! req = Some (a, coinTokenID coin) ∧
    CheckCoinValid coin a r (GetCommitteeReward best (Pk a) (coinTokenID coin)) = true ∧
    (v = 1 → coinVersion coin = 1).

Lemma checkResponses_Ok best txs table : Forall (goodResponse best table) txs → NoDup (answeredOf txs) →
  checkResponses best txs table = Ok tt.
Proof.
  intros Hall. revert table Hall. induction txs as [|tx txs IH]; intros table Hall Hnd; [done|].
  apply Forall_cons in Hall as [(v & req & r & coin & a & -> & Hl & Hc & _) Hall].
  cbn [answeredOf omap list_omap] in Hnd. apply NoDup_cons in Hnd as [Hnew Hnd].
  cbn [checkResponses]. rewrite Hl, bool_decide_eq_true_2 by done. cbn [negb]. rewrite Hc. apply IH; [|done].
  apply Forall_forall. intros tx Hin.
  destruct (proj1 (Forall_forall _ _) Hall tx Hin) as (v' & q' & r' & c' & a' & -> & Hl' & Hrest).
  exists v', q', r', c', a'. split_and!; [done| |by apply Hrest..]. rewrite lookup_delete_ne; [done|]. intros ->.
  apply Hnew. apply list_elem_of_omap. by exists (WithdrawResponse v' q' (Pk a') r' (Some c')).
Qed.

Lemma responseOf_good best pk t h a v tx : salaryLaw → Pk a = pk →
  responseOf best ((pk, t), (h, a, v)) = Some tx → ∃ v' r coin,
    tx = WithdrawResponse v' h (Pk a) r (Some coin) ∧ coinTokenID coin = t ∧
    CheckCoinValid coin a r (GetCommitteeReward best (Pk a) t) = true ∧ (v' = 1 → coinVersion coin = 1).
Proof.
  intros Hlaw <-. unfold responseOf, buildWithDrawTransactionResponse. destruct (_ =? 0); [done|].
  destruct (negb _); [done|]. destruct (BuildTxSalary _ _ _) as [[[v' coin] r]| | |] eqn:Hb; [|done..].
  cbn. intros [= <-]. destruct (Hlaw _ _ _ _ _ _ Hb) as (Ht & Hc & Hv). subst t. by exists v', (if v' =? 1 then EmptyString else r), coin.
Qed.

(** The responses of a block. *)
Definition responses (best : RewardState) (txs : list RewardTx) : list RewardTx :=
  omap (responseOf best) (map_to_list (firstRequests txs)).

Lemma answered_omap {A} (f : A → option RewardTx) (key : A → string) l :
  (∀ x tx, x ∈ l → f x = Some tx → answeredOf [tx] = [key x]) → NoDup (key <$> l) →
  NoDup (answeredOf (omap f l)) ∧ ∀ q, q ∈ answeredOf (omap f l) → q ∈ key <$> l.
Proof.
  induction l as [|x l IH]; intros Hf Hnd; [split; [constructor|set_solver]|].
  rewrite fmap_cons in Hnd. apply NoDup_cons in Hnd as [Hnew Hnd].
  destruct IH as [Hnd' Hin']; [intros; apply Hf; [by right|done]|done|]. cbn [omap list_omap].
  destruct (f x) as [tx|] eqn:E; [|split; [done|]; intros q Hq; rewrite fmap_cons; right; by apply Hin'].
  assert (answeredOf (tx :: omap f l) = key x :: answeredOf (omap f l)) as ->.
  { specialize (Hf x tx ltac:(left) E). change (tx :: omap f l) with ([tx] ++ omap f l).
    unfold answeredOf in *. by rewrite omap_app, Hf. }
  rewrite fmap_cons. split; [constructor; [|done]; intros Hin; by apply Hnew, Hin'|].
  intros q [->|Hq]%elem_of_cons; [left|right; by apply Hin'].
Qed.

Lemma request_unique txs h a t v a' t' v' : NoDup ((λ x, x.1.1.1) <$> requestsIn txs) →
  (h, a, t, v) ∈ requestsIn txs → (h, a', t', v') ∈ requestsIn txs → a = a' ∧ t = t' ∧ v = v'.
Proof.
  intros Hnd H1 H2. apply list_elem_of_lookup in H1 as [i Hi]. apply list_elem_of_lookup in H2 as [j Hj].
  assert (i = j) as ->.
  { eapply NoDup_lookup; [exact Hnd| |]; rewrite list_lookup_fmap; [by rewrite Hi|by rewrite Hj]. }
  rewrite Hi in Hj. by injection Hj as -> -> ->.
Qed.

Lemma responses_NoDup best txs : salaryLaw → pendingTxs txs → NoDup (answeredOf (responses best txs)).
Proof.
  intros Hlaw [_ _ Hnd]. apply (answered_omap _ (λ kv : (string * Hash) * (string * PaymentAddress * Z), kv.2.1.1)).
  - intros [[pk t] [[h a] v]] tx Hin Htx. apply elem_of_map_to_list in Hin.
    apply (proj1 (firstRequests_spec txs)) in Hin as [<- _].
    by destruct (responseOf_good best _ _ _ _ _ _ Hlaw eq_refl Htx) as (v' & r & coin & -> & _).
  - apply NoDup_fmap_2_strong; [|apply NoDup_map_to_list].
    intros [[pk1 t1] [[h1 a1] v1]] [[pk2 t2] [[h2 a2] v2]] Hin1%elem_of_map_to_list Hin2%elem_of_map_to_list.
    apply (proj1 (firstRequests_spec txs)) in Hin1 as [<- Hin1], Hin2 as [<- Hin2]. cbn. intros <-.
    by destruct (request_unique _ _ _ _ _ _ _ _ Hnd Hin1 Hin2) as (-> & -> & ->).
Qed.

Lemma responses_elem best txs tx : salaryLaw → tx ∈ responses best txs → ∃ h a t v v' r coin,
  (h, a, t, v) ∈ requestsIn txs ∧ firstRequests txs !! (Pk a, t) = Some (h, a, v) ∧
  tx = WithdrawResponse v' h (Pk a) r (Some coin) ∧ coinTokenID coin = t ∧
  CheckCoinValid coin a r (GetCommitteeReward best (Pk a) t) = true ∧ (v' = 1 → coinVersion coin = 1).
Proof.
  intros Hlaw ([[pk t] [[h a] v]] & Hin & Htx)%list_elem_of_omap. apply elem_of_map_to_list in Hin.
  destruct (proj1 (firstRequests_spec txs) _ _ _ _ _ Hin) as [<- Hreq].
  destruct (responseOf_good best _ _ _ _ _ _ Hlaw eq_refl Htx) as (v' & r & coin & -> & Ht & Hc & Hv).
  by exists h, a, t, v, v', r, coin.
Qed.

Lemma requestsIn_responses best txs : salaryLaw →
  requestsIn (BuildResponseTransactionFromTxsWithMetadata best txs) = requestsIn txs.
Proof.
  intros Hlaw. unfold BuildResponseTransactionFromTxsWithMetadata. fold (responses best txs).
  unfold requestsIn. rewrite omap_app. fold (requestsIn txs).
  assert (∀ l, (∀ tx, tx ∈ l → ∃ v q k r c, tx = WithdrawResponse v q k r c) → requestsIn l = []) as Hnone.
  { induction l as [|tx l IH]; [done|]. intros Hl. destruct (Hl tx) as (v & q & k & r & c & ->); [left|].
    cbn [requestsIn omap list_omap]. apply IH. intros; apply Hl; by right. }
  fold (requestsIn (responses best txs)). rewrite (Hnone (responses best txs)), app_nil_r; [done|].
  intros tx (h & a & t & v & v' & r & coin & _ & _ & -> & _)%responses_elem; [|done].
  by exists v', h, (Pk a), r, (Some coin).
Qed.

(** Every node accepts the producer's block. *)
Lemma producer_accepted best txs : salaryLaw → pendingTxs txs →
  ValidateResponseTransactionFromTxsWithMetadata best (BuildResponseTransactionFromTxsWithMetadata best txs) = Ok tt.
Proof.
  intros Hlaw Hpend. unfold ValidateResponseTransactionFromTxsWithMetadata.
  pose proof (requestsIn_responses best txs Hlaw) as Hreq.
  destruct (collectRequests_Ok (BuildResponseTransactionFromTxsWithMetadata best txs) ∅) as [table Htab].
  { rewrite Hreq. apply Hpend. } { intros; apply lookup_empty. }
  rewrite Htab. cbn [mbind outcome_bind]. destruct (collectRequests_spec _ _ _ Htab) as [Hl _]. rewrite Hreq in Hl.
  unfold BuildResponseTransactionFromTxsWithMetadata. rewrite checkResponses_skip by apply Hpend.
  apply checkResponses_Ok; [|by apply responses_NoDup]. apply Forall_forall.
  intros tx (h & a & t & v & v' & r & coin & Hin & _ & -> & <- & Hc & Hv)%responses_elem; [|done].
  exists v', h, r, coin, a. split_and!; [done| |done|done]. by eapply Hl.
Qed.

Lemma producer_in_order best txs : salaryLaw → pendingTxs txs →
  let block := BuildResponseTransactionFromTxsWithMetadata best txs in
  distinctAnswers block ∧ namesRequester block.
Proof.
  intros Hlaw Hpend. pose proof (requestsIn_responses best txs Hlaw) as Hreq. cbv zeta.
  assert (∀ tx, tx ∈ BuildResponseTransactionFromTxsWithMetadata best txs → ∀ v q k r c,
    tx = WithdrawResponse v q k r c → tx ∈ responses best txs) as Hresp.
  { intros tx Hin v q k r c ->. apply elem_of_app in Hin as [Hin|Hin]; [|done]. exfalso.
    assert (q ∈ answeredOf txs) as Hq by (apply list_elem_of_omap; by exists (WithdrawResponse v q k r c)).
    rewrite (pt_none _ Hpend) in Hq. set_solver. }
  split.
  - assert (∀ h, h ∈ answeredOf (BuildResponseTransactionFromTxsWithMetadata best txs) → ∀ a t v,
      (h, a, t, v) ∈ requestsIn txs → firstRequests txs !! (Pk a, t) = Some (h, a, v)) as Hfirst.
    { intros h (tx & Hin & Heq)%list_elem_of_omap a t v Hr. destruct tx as [|v' q k r c|]; [done| |done].
      injection Heq as ->. specialize (Hresp _ Hin _ _ _ _ _ eq_refl).
      apply responses_elem in Hresp as (h' & a' & t' & v'' & w & r' & coin & Hr' & Hf & [= -> -> -> -> ->] & _); [|done].
      destruct (request_unique _ _ _ _ _ _ _ _ (pt_nodup _ Hpend) Hr Hr') as (-> & -> & ->). done. }
    intros h1 a1 v1 h2 a2 v2 t H1 H2 Hr1 Hr2 Hpk. rewrite Hreq in Hr1, Hr2.
    pose proof (Hfirst _ H1 _ _ _ Hr1) as E1. pose proof (Hfirst _ H2 _ _ _ Hr2) as E2. rewrite Hpk in E1. congruence.
  - intros v q k r coin Hin. specialize (Hresp _ Hin _ _ _ _ _ eq_refl).
    apply responses_elem in Hresp as (h & a & t & v' & w & r' & c & Hr & _ & [= -> -> -> -> ->] & _ & _ & Hv); [|done].
    destruct (Z.eqb_spec w 1) as [Hw|]; [by apply Hv|]. rewrite Hreq. intros a' t' v'' Hr'.
    by destruct (request_unique _ _ _ _ _ _ _ _ (pt_nodup _ Hpend) Hr Hr') as (-> & _).
Qed.

Lemma debited_present ps pk c x : NoDup ps.*1 → (pk, c, x) ∈ ps → debited ps pk c = x.
Proof.
  intros Hnd (l1 & l2 & ->)%list_elem_of_split.
  rewrite fmap_app, fmap_cons in Hnd. apply NoDup_app in Hnd as (_ & Hd1 & Hnd2). apply NoDup_cons in Hnd2 as [Hd2 _].
  unfold debited. rewrite list_sum_app, list_sum_cons. fold (debited l1 pk c) (debited l2 pk c).
  rewrite !debited_absent; cbn.
  - rewrite decide_True by done. lia.
  - done.
  - intros Hin1. eapply Hd1; [exact Hin1|left].
Qed.

(** A request with a reward is answered. *)
Lemma request_answered best txs h a t v : salaryLaw → (∀ a x t, is_Ok (BuildTxSalary a x t)) → pendingTxs txs →
  (h, a, t, v) ∈ requestsIn txs → GetCommitteeReward best (Pk a) t ≠ 0 →
  ∃ x, (Pk a, t, x) ∈ paymentsOf (BuildResponseTransactionFromTxsWithMetadata best txs).
Proof.
  intros Hlaw Hok Hpend Hin Hne. destruct (proj2 (firstRequests_spec txs) _ _ _ _ Hin) as [[[h' a'] v'] Hf].
  destruct (proj1 (firstRequests_spec txs) _ _ _ _ _ Hf) as [Hpk Hin'].
  destruct (Hok a' (GetCommitteeReward best (Pk a') t) t) as [[[w coin] r] Hb].
  destruct (Hlaw _ _ _ _ _ _ Hb) as (Ht & Hc & Hv).
  pose proof (proj1 (Forall_forall _ _) (pt_version _ Hpend) _ Hin') as Hver. cbn in Hver.
  exists (coinValue coin). apply list_elem_of_omap.
  exists (WithdrawResponse w h' (Pk a') (if w =? 1 then EmptyString else r) (Some coin)). split.
  - apply elem_of_app. right. apply list_elem_of_omap. exists ((Pk a, t), (h', a', v')).
    split; [by apply elem_of_map_to_list|]. unfold responseOf, buildWithDrawTransactionResponse.
    rewrite Hpk. destruct (Z.eqb_spec (GetCommitteeReward best (Pk a) t) 0); [done|].
    rewrite bool_decide_eq_true_2 by done. cbn [negb]. rewrite <- Hpk, Hb. done.
  - rewrite Ht. do 2 f_equal. destruct (Z.eqb_spec w 1) as [Hw|]; [|by rewrite Hpk].
    unfold CheckCoinValid in Hc. rewrite (Hv Hw) in Hc. cbn in Hc. apply andb_true_iff in Hc as [Hc _].
    apply bool_decide_eq_true in Hc. by rewrite Hc, Hpk.
Qed.

(** C16: the responses a producer adds to a block's withdrawal requests pass the check of every
    node; storing the block debits the credits by exactly what the responses mint, and every key
    and token asked for, however often, is paid what the best view credits it, once. *)
Theorem withdrawals_settle best st txs : salaryLaw → (∀ a x t, is_Ok (BuildTxSalary a x t)) →
  pendingTxs txs → wfCredits best → wfCredits st → (∀ c, credits st c < word64) →
  (∀ pk c, GetCommitteeReward best pk c ≤ GetCommitteeReward st pk c) →
  let block := BuildResponseTransactionFromTxsWithMetadata best txs in
  ValidateResponseTransactionFromTxsWithMetadata best block = Ok tt ∧
  ∃ st', processResponses block st = (Ok tt, st') ∧ wfCredits st' ∧
    (∀ c, credits st' c + paid (paymentsOf block) c = credits st c) ∧
    (∀ pk c, GetCommitteeReward st' pk c = GetCommitteeReward st pk c - debited (paymentsOf block) pk c) ∧
    ∀ h a t v, (h, a, t, v) ∈ requestsIn txs →
      debited (paymentsOf block) (Pk a) t = GetCommitteeReward best (Pk a) t.
Proof.
  intros Hlaw Hok Hpend Hwfb Hwf Hlt Hle. cbv zeta.
  pose proof (producer_accepted best txs Hlaw Hpend) as Hval. split; [done|].
  destruct (producer_in_order best txs Hlaw Hpend) as [Hd Hn].
  destruct (accepted_exact best st _ Hval Hd Hn Hwfb Hwf Hlt Hle) as (st' & Hrun & Hwf' & Hpay & Hnd & Hget & Hc).
  exists st'. split_and!; [done..|]. intros h a t v Hin.
  destruct (decide ((Pk a, t) ∈ (paymentsOf (BuildResponseTransactionFromTxsWithMetadata best txs)).*1)) as [Hp|Hp].
  - apply list_elem_of_fmap in Hp as ([[pk c] x] & Heq & Hp). injection Heq as <- <-.
    by rewrite (debited_present _ _ _ _ Hnd Hp), (Hpay _ _ _ Hp).
  - rewrite debited_absent by done. destruct (Z.eq_dec (GetCommitteeReward best (Pk a) t) 0) as [Hz|Hz]; [done|].
    exfalso. apply Hp. destruct (request_answered best txs h a t v Hlaw Hok Hpend Hin Hz) as [x Hx].
    apply list_elem_of_fmap. by exists (Pk a, t, x).
Qed.
End producer.
