(* ===== verification/RewardExample.v ===== *)
(** Rewards under the parameters of the main network: the theorems at concrete states, and the
    cases outside their hypotheses. *)
From S2P Require Import Prelude Hash Timeslot Float64 Rewards RewardPay RewardEpoch RewardLedger RewardsSound RewardCap RewardWithdraw.
From Stdlib Require Import Ascii String.

Local Open Scope Z_scope.

(** Keys of 32 bytes that differ in the last one. *)
Definition keyOf (c : ascii) : string := string_of_list_ascii (replicate 31 "000"%char ++ [c]).

#[local] Instance mainnetRewards : RewardConfig := {|
  BasicReward := 1386666000;
  MaxReward := 95000000000000000;
  BlockTimeParam := [("blocktimedef"%string, 40); ("blocktime20s_15_9"%string, 20)];
  FeatureVersion := {["blocktime20s_15_9"%string := 10]};
  MinBeaconBlockInterval := 40;
  EnableSlashingHeightV2 := 1498517;
  MaxShardNumber := 2;
  IncognitoDAOPk := keyOf "a" |}.
#[local] Instance exOutOfRange : OutOfRange := λ _, 0.

(** *** An epoch of two shards *)
Definition exStakers : list Staker :=
  (λ c, mkStaker (String c EmptyString) (keyOf c)) <$> ["b"; "c"; "d"; "e"]%char.
Definition exMembers : list string := CommitteePublicKey <$> exStakers.
Definition exRewardView : RewardView := mkRewardView newTSManager {[0 := newTSManager; 1 := newTSManager]}.

(** Shard 0 booked 100 PRV and a fee of a token, shard 1 booked 7 PRV. *)
Definition exToken : Hash := keyOf "t".
Definition exDB : RewardDB := mkRewardDB
  {[ (5, 0, PRVCoinID) := 100000000000; (5, 0, exToken) := 12345; (5, 1, PRVCoinID) := 7000000001 ]} ∅.
Definition exView : EpochView := mkEpochView exRewardView exDB 2 (keyOf <$> ["x"; "y"; "z"]%char)
  {[0 := exMembers; 1 := exMembers]}.
Definition exStore : CommitteeStore := mkCommitteeStore
  (λ _, Ok {[0 := exStakers; 1 := exStakers]}) (λ _, Ok {[0 := exStakers; 1 := exStakers]})
  (λ _, {[0 := ["b"%string]]}) 6.
Definition exReceivers : list string := keyOf <$> ["x"; "y"; "z"]%char.

(** Concrete inequalities. *)
Ltac compute_le := vm_compute; repeat split; congruence.

Lemma exView_sane : saneView exView.
Proof.
  split.
  - cbn. lia.
  - cbn [exView ev_RewardDB exDB rewardRequests]. intros k x Hk.
    repeat (apply lookup_insert_Some in Hk as [[_ <-]|[_ Hk]]; [compute_le|]).
    apply lookup_singleton_Some in Hk as [_ <-]. compute_le.
  - apply map_Forall_empty.
  - compute_le.
  - compute_le.
  - intros i Hi. cbn in Hi. exists exMembers. destruct i as [|[|i]]; [| |lia];
      (split; [by vm_compute|compute_le]).
Qed.

Lemma keyOf_valid c : validKey (keyOf c).
Proof. reflexivity. Qed.

Lemma exStakers_ok l : l ⊆ exStakers → Forall (λ c, validKey (RewardReceiverPk c)) l.
Proof.
  intros Hl. apply Forall_forall. intros c Hc%Hl. unfold exStakers in Hc.
  apply list_elem_of_fmap in Hc as (x & -> & _). reflexivity.
Qed.

Lemma exPayable version h : payableEpoch exStore h 5 version 2.
Proof.
  split; [lia|]. intros i j Hi Hj.
  assert (∀ choose, choose = id ∨ (∃ j, (j < 2)%nat ∧ choose = λ l, getCommitteeToPayRewardMultiset l (byteOf j)) →
    ∃ l, stakersToPay exStore h (byteOf i) 5 choose = Ok l ∧ l ≠ [] ∧ l ⊆ exStakers) as Hall.
  { intros choose Hch. unfold stakersToPay.
    destruct i as [|[|i]]; [| |lia]; destruct Hch as [-> | (k & Hk & ->)]; try (destruct k as [|[|k]]; [| |lia]);
      destruct (h <? EnableSlashingHeightV2); cbn; eexists; split_and!; try reflexivity; try done; cbn; set_solver. }
  destruct (Hall (if isSubsetVersion version then λ l, getCommitteeToPayRewardMultiset l (byteOf j) else id))
    as (l & Hl & Hne & Hsub).
  { destruct (isSubsetVersion version); [right; by exists j|by left]. }
  exists l. split_and!; [done|done|]. by apply exStakers_ok.
Qed.

Definition exShards : list (Z * RewardState) := [(0, ∅); (1, ∅)].

Lemma exShards_all : allShards exShards.
Proof.
  split.
  - apply (bool_decide_unpack _). by vm_compute.
  - intros s Hs. cbn in *. assert (s = 0 ∨ s = 1) as [-> | ->] by lia; set_solver.
  - repeat constructor; apply map_Forall_empty.
Qed.

(** Height 100 of the beacon chain, block version 9, a fifth of the DAO's part for the exchange. *)
Lemma rewards_conserved_witness : ∃ insts cust pdex sts',
  buildRewardInstructionByEpoch exView (Ok exReceivers) 100 5 true 1 true 20 9 = Ok (insts, cust, pdex) ∧
  payAll exStore 2000000 insts exShards = Ok sts' ∧
  creditsAll sts' PRVCoinID + amountOf cust PRVCoinID + pdex ≤ 107000000001.
Proof.
  assert (0 < MaxShardNumber) as Hsh by reflexivity.
  assert (saneBlockTime) as Hbt by (split; [reflexivity|by vm_compute]).
  destruct (rewards_conserved Hsh exView exView_sane Hbt
    eq_refl exStore 2000000 exReceivers 100 5 true 1 true 20 9 exShards) as (insts & cust & pdex & sts' & Hb & Hp & _ & _ & _ & Hc).
  - lia.
  - lia.
  - done.
  - repeat constructor.
  - apply exPayable.
  - apply exShards_all.
  - intros c. replace (creditsAll exShards c) with 0 by reflexivity. apply (bookedOf_bound exView exView_sane 5 9 c).
  - exists insts, cust, pdex, sts'. split_and!; [exact Hb|exact Hp|].
    destruct (Hc PRVCoinID) as [Hle _]. rewrite decide_True in Hle by done.
    replace (creditsAll exShards PRVCoinID + bookedOf exView 5 9 PRVCoinID) with 107000000001 in Hle by (vm_compute; reflexivity).
    exact Hle.
Defined.

(** *** A block just below the limit *)
Definition exBlock : RewardBlock := mkRewardBlock 9 5 {[0 := [(10, 9); (11, 9)]]}
  [AcceptBlockRewardV1 0 (Some {[exToken := 7]}) 10; OtherAccept; AcceptBlockRewardV1 0 None 11].
Definition exMinted : Z := 95000000000000000 - 2000000000.
Definition exEmptyDB : RewardDB := mkRewardDB ∅ ∅.

Lemma exRewards_sane : saneRewards exRewardView.
Proof. split; [compute_le|compute_le|compute_le|constructor]. Qed.

Lemma exFees c : 0 ≤ amountOf {[exToken := 7]} c ≤ 7.
Proof.
  unfold amountOf. destruct (decide (exToken = c)) as [<-|Hne];
    [by rewrite lookup_singleton_eq|by rewrite lookup_singleton_ne].
Qed.

Lemma exBlock_good : Forall (goodAccept exRewardView) (rb_Instructions exBlock).
Proof.
  unfold exBlock; cbn [rb_Instructions]. apply Forall_cons; split; [|apply Forall_cons; split; [|apply Forall_cons; split; [|constructor]]].
  - split_and!; [intros c; apply exFees|done|by eexists].
  - by split_and!.
  - split_and!; [intros c; cbn [feesOf default]; by rewrite amountOf_empty|done|by eexists].
Qed.

(** The first block gets the full reward, the second one what is left. *)
Lemma minting_capped_witness : ∃ db' minted',
  addShardRewardRequestToBeacon exRewardView [0; 1] exBlock (exEmptyDB, exMinted) = (Ok tt, (db', minted')) ∧
  minted' ≤ 95000000000000000 ∧ requestsOf db' exToken = 7.
Proof.
  assert (0 ≤ MaxReward < 2 ^ 63) as Hmax by compute_le.
  assert (INSTANT_FINALITY_VERSION_V2 ≤ rb_Version exBlock) as Hver by compute_le.
  destruct (minting_capped exRewardView exRewards_sane Hmax [0; 1] exBlock Hver exEmptyDB exMinted)
    as (db' & minted' & Hrun & _ & Hm & Hc).
  - exact exBlock_good.
  - split; apply map_Forall_empty.
  - compute_le.
  - intros c. change (list_sum (λ i, feesOf i c) (rb_Instructions exBlock))
      with (amountOf {[exToken := 7]} c + (0 + (amountOf ∅ c + 0))).
    replace (requestsOf exEmptyDB c) with 0 by reflexivity. rewrite amountOf_empty.
    pose proof (exFees c) as Hf.
    change MaxReward with 95000000000000000. unfold exMinted, word64. destruct (decide _); lia.
  - exists db', minted'. split_and!; [exact Hrun|apply Hm|]. rewrite Hc. reflexivity.
Defined.

(** *** Withdrawals *)
#[local] Instance exOneTimeKeys : OneTimeKeys := λ a _ _, Some (OTAPublic a).
#[local] Instance exSalaryTxs : SalaryTxs := λ a x t, Ok (1, mkMintCoin 1 (Pk a) EmptyString x t, EmptyString).

Definition exAddress : PaymentAddress := mkPaymentAddress (keyOf "b") "one-time".
Definition exCredits : RewardState := {[keyOf "b" := {[PRVCoinID := 50]}]}.
Definition exRequests : list RewardTx :=
  [WithdrawRequest "h1" exAddress PRVCoinID 1; OtherTx; WithdrawRequest "h2" exAddress PRVCoinID 1].

Lemma exCredits_wf : wfCredits exCredits.
Proof.
  unfold exCredits, RewardState. intros k m Hk. apply lookup_singleton_Some in Hk as [_ <-]. intros c. unfold amountOf.
  destruct (decide (PRVCoinID = c)) as [<-|Hne]; [by rewrite lookup_singleton_eq|by rewrite lookup_singleton_ne].
Qed.

Lemma exCredits_bound c : credits exCredits c < word64.
Proof.
  unfold credits, exCredits, RewardState. rewrite map_sum_singleton. unfold amountOf.
  destruct (decide (PRVCoinID = c)) as [<-|Hne]; [by rewrite lookup_singleton_eq|by rewrite lookup_singleton_ne].
Qed.

(** Two requests of the same key are paid once. *)
Lemma withdrawals_settle_witness :
  let block := BuildResponseTransactionFromTxsWithMetadata exCredits exRequests in
  ValidateResponseTransactionFromTxsWithMetadata exCredits block = Ok tt ∧
  ∃ st', processResponses block exCredits = (Ok tt, st') ∧
    credits st' PRVCoinID + paid (paymentsOf block) PRVCoinID = credits exCredits PRVCoinID.
Proof.
  destruct (withdrawals_settle exCredits exCredits exRequests) as (Hv & st' & Hrun & _ & Hc & _).
  - intros a x t v coin r [= <- <- <-]. cbn. split_and!; [done| |done].
    unfold CheckCoinValid. cbn. by rewrite bool_decide_eq_true_2, Z.eqb_refl by done.
  - intros a x t. by eexists.
  - split; [done| |apply (bool_decide_unpack _); by vm_compute].
    repeat constructor; cbn; set_solver.
  - apply exCredits_wf.
  - apply exCredits_wf.
  - apply exCredits_bound.
  - done.
  - split; [exact Hv|]. exists st'. split; [exact Hrun|apply Hc].
Defined.

(** *** Outside the hypotheses *)
Definition exCoin : MintCoin := mkMintCoin 1 (keyOf "b") EmptyString 50 PRVCoinID.

(** A producer that answers both requests of a key is not stopped: each answer is checked against
    the credits before the block, and the debit of a key without a record succeeds. *)
Example double_withdrawal :
  let block := exRequests ++ [WithdrawResponse 1 "h1" (keyOf "b") EmptyString (Some exCoin);
                              WithdrawResponse 1 "h2" (keyOf "b") EmptyString (Some exCoin)] in
  ValidateResponseTransactionFromTxsWithMetadata exCredits block = Ok tt ∧
  processResponses block exCredits = (Ok tt, ∅) ∧
  paid (paymentsOf block) PRVCoinID = 2 * credits exCredits PRVCoinID.
Proof. split_and!; vm_compute; reflexivity. Qed.

(** A response of version 2 debits the key it names, which no node compares with the request. *)
Example unnamed_withdrawal :
  let coin := mkMintCoin 2 "one-time" "random" 50 PRVCoinID in
  let block := [WithdrawRequest "h1" exAddress PRVCoinID 1;
                WithdrawResponse 2 "h1" (keyOf "q") "random" (Some coin)] in
  ValidateResponseTransactionFromTxsWithMetadata exCredits block = Ok tt ∧
  processResponses block exCredits = (Ok tt, exCredits) ∧
  paid (paymentsOf block) PRVCoinID = 50.
Proof. split_and!; vm_compute; reflexivity. Qed.

(** The count of what was minted takes nine percent off from the first year on; the rewards of
    the first year were paid in full. *)
Example first_year_undercounted :
  CalculateMintedPRVWithDefaultBlocktime 1 {[0 := 2]} = Ok (2 * 1261866060) ∧
  getRewardAmount 1 = Ok 1386666000 ∧ getRewardAmount 2 = Ok 1386666000.
Proof. split_and!; vm_compute; reflexivity. Qed.

(** The count knows the shards of one beacon block only. *)
Example other_shards_uncounted :
  let blk states := mkRewardBlock 8 5 states [] in
  startMinted 2 (blk {[0 := [(1000, 8)]]}) (mkRewardBlock 9 5 ∅ []) 0 =
  startMinted 1 (blk {[0 := [(1000, 8)]]}) (mkRewardBlock 9 5 ∅ []) 0.
Proof. vm_compute. reflexivity. Qed.

(** Beacon validators that are all gone stop the producer. *)
Example no_beacon_receivers : buildInstRewardForBeacons {[PRVCoinID := 1]} [] = Panic.
Proof. reflexivity. Qed.
