(* ===== verification/BftVote.v ===== *)
(** Votes and certificates of the beacon chain's BFT consensus ([consensus_v2/blsbft/message.go],
    [validation.go], [block_info.go], [actor_v3_vote.go], [actor_v3_prevote.go]).

    A vote names a block by its propose hash and is signed twice: a BLS signature on the propose
    hash, which is aggregated into the certificate of the block, and a confirmation by the
    bridge key on the vote's data.  Hashes are in their [String] form, byte slices are strings,
    and a committee key is given by its BLS key in base58 and its bridge key. *)
From S2P Require Import Prelude.
From Stdlib Require Import Ascii String.

Local Open Scope Z_scope.

(** [config.Param()]: a missing feature has no version. *)
Class BftConfig := {
  ByzantineDetectorHeight : Z;
  FeatureVersion : gmap string Z;
}.

Record CommitteePublicKey := mkKey { blsKey : string; bridgeKey : string }.

#[export] Instance CommitteePublicKey_eq : EqDecision CommitteePublicKey.
Proof. solve_decision. Defined.

Record MiningKey := mkMiningKey { GetPublicKey : CommitteePublicKey; blsPri : string; bridgePri : string }.

Record Block := mkBlock {
  GetHeight : Z;
  GetPrevHash : string;
  GetProduceTime : Z;
  GetProposeTime : Z;
  GetProposer : string;
  GetVersion : Z;
  FinalityHeight : Z;
  GetInstructions : list (list string);
  blockRest : string;   (* the rest of the header and of the body *)
}.

(** The signature schemes and the hash function ([signatureschemes], [common.HashB]), the hashes
    of a block, and what the other features add to a vote; [None] is a call that fails. *)
Class BftCrypto := {
  HashB : string → string;
  BriSign : string → string → option string;
  BriVerify : string → string → string → bool;
  BLSSign : string → string → Z → list string → option string;
  BLSCombine : list string → option string;
  BLSPairing : string → string → list Z → list string → bool;
  ProposeHash : Block → string;
  BlockHashOf : Block → string;
  HasBridgeInstructions : list (list string) → bool;
  PortalSign : string → list (list string) → option (list string);
  ToBase58 : CommitteePublicKey → string;
}.

(** [BeaconBlock.GetShardID]. *)
Definition GetShardID (b : Block) : Z := -1.

Record BFTVote := mkVote {
  Phase : string;
  PrevBlockHash : string;
  BlockHeight : Z;
  BlockHash : string;   (* the propose hash *)
  vHash : string;       (* the block hash *)
  Validator : string;
  BLS : string;
  BRI : string;
  Confirmation : string;
  IsValid : Z;          (* 0 not processed, 1 valid, -1 not valid *)
  ProduceTimeSlot : Z;
  ProposeTimeSlot : Z;
  CommitteeFromBlock : string;
  ChainID : Z;
  PortalSigs : list string;
}.

Definition set_IsValid (x : Z) (v : BFTVote) : BFTVote :=
  mkVote (Phase v) (PrevBlockHash v) (BlockHeight v) (BlockHash v) (vHash v) (Validator v)
    (BLS v) (BRI v) (Confirmation v) x (ProduceTimeSlot v) (ProposeTimeSlot v)
    (CommitteeFromBlock v) (ChainID v) (PortalSigs v).

Definition set_Confirmation (x : string) (v : BFTVote) : BFTVote :=
  mkVote (Phase v) (PrevBlockHash v) (BlockHeight v) (BlockHash v) (vHash v) (Validator v)
    (BLS v) (BRI v) x (IsValid v) (ProduceTimeSlot v) (ProposeTimeSlot v)
    (CommitteeFromBlock v) (ChainID v) (PortalSigs v).

(** The proof of lock change a proposer attaches to a block that it proposes again. *)
Record POLC := mkPOLC {
  polc_Idx : list Z;
  polc_Sig : list string;
  polc_BlockProposeHash : string;
  polc_BlockHash : string;
  polc_Timeslot : Z;
}.

(** A zero [common.Hash]. *)
Definition zeroHash : string := string_of_list_ascii (replicate 32 (ascii_of_nat 0)).

Definition emptyPOLC : POLC := mkPOLC [] [] EmptyString EmptyString 0.

Record ValidationData := mkValidationData {
  ProducerBLSSig : string;
  ProducerBriSig : string;
  ValidatiorsIdx : list Z;
  AggSig : string;
  BridgeSig : list string;
  PortalSig : list string;
}.

(** ** Encodings *)
Definition byteOf (v : Z) (i : Z) : ascii := ascii_of_N (Z.to_N (Z.shiftr v (8 * i) mod 256)).

(** Little endian, eight bytes. *)
Definition Uint64ToBytes (v : Z) : string := string_of_list_ascii (byteOf v <$> [0; 1; 2; 3; 4; 5; 6; 7]).
Definition Int64ToBytes (v : Z) : string := Uint64ToBytes (u64 v).

Fixpoint IndexOfStr_from (k : Z) (item : string) (l : list string) : Z :=
  match l with
  | [] => -1
  | v :: l => if decide (item = v) then k else IndexOfStr_from (k + 1) item l
  end.
Definition IndexOfStr (item : string) (l : list string) : Z := IndexOfStr_from 0 item l.

(** Go indexes a slice with an [int] and panics out of range. *)
Definition at_index {A} (l : list A) (i : Z) : outcome A :=
  if i <? 0 then Panic else from_option Ok Panic (l !! Z.to_nat i).

Definition ExtractPublickeysFromCommitteeKeyList (keyList : list CommitteePublicKey) : list string :=
  filter (λ k, k ≠ EmptyString) (blsKey <$> keyList).

Definition lenZ {A} (l : list A) : Z := Z.of_nat (List.length l).

(** More than two thirds, as the code writes it. *)
Definition twoThirds (n : Z) : Z := Z.quot (2 * n) 3.

Section WithConfig.
Context {cfg : BftConfig} {crypto : BftCrypto}.

(** ** Signing a vote *)

(** The data of [signVote] and of [validateVoteOwner]: below the height of the detector it is
    the propose hash and the two signatures, and nothing else of the vote. *)
Definition voteData (s : BFTVote) : string :=
  if BlockHeight s <? ByzantineDetectorHeight
  then BlockHash s +:+ BLS s +:+ BRI s
  else Phase s +:+ vHash s +:+ BlockHash s +:+ BLS s +:+ BRI s
       +:+ Uint64ToBytes (BlockHeight s) +:+ Int64ToBytes (ProduceTimeSlot s)
       +:+ Int64ToBytes (ProposeTimeSlot s) +:+ Validator s +:+ PrevBlockHash s
       +:+ CommitteeFromBlock s +:+ Int64ToBytes (ChainID s).

Definition signVote (key : MiningKey) (s : BFTVote) : option BFTVote :=
  sig ← BriSign (bridgePri key) (HashB (voteData s));
  mret (set_Confirmation sig s).

Definition validateVoteOwner (s : BFTVote) (ownerPk : string) : bool :=
  BriVerify ownerPk (HashB (voteData s)) (Confirmation s).

(** The slot function is the one of the view the block extends; a beacon block has the zero hash
    as its committee's block. *)
Definition CreatePreVote (slot : Z → Z) (userKey : MiningKey) (block : Block) : option BFTVote :=
  signVote userKey
    (mkVote "prevote" EmptyString 0 (ProposeHash block) (BlockHashOf block) (blsKey (GetPublicKey userKey))
       EmptyString EmptyString EmptyString 0 0 (slot (GetProposeTime block)) zeroHash (GetShardID block) []).

(** The last member whose key is the user's. *)
Definition selfIndex (userBLSPk : string) (committees : list CommitteePublicKey) : Z :=
  foldl (λ acc '(i, v), if decide (blsKey v = userBLSPk) then i else acc) 0
    (zip (Z.of_nat <$> seq 0 (List.length committees)) committees).

Definition CreateVote (slot : Z → Z) (userKey : MiningKey) (block : Block)
    (committees : list CommitteePublicKey) : option BFTVote :=
  let userBLSPk := blsKey (GetPublicKey userKey) in
  blsSig ← BLSSign (blsPri userKey) (ProposeHash block) (selfIndex userBLSPk committees) (blsKey <$> committees);
  bridgeSig ← (if HasBridgeInstructions (GetInstructions block)
               then BriSign (bridgePri userKey) (BlockHashOf block)
               else mret EmptyString);
  portalSigs ← PortalSign (bridgePri userKey) (GetInstructions block);
  signVote userKey
    (mkVote "vote" (GetPrevHash block) (GetHeight block) (ProposeHash block) EmptyString userBLSPk
       blsSig bridgeSig EmptyString 0 (slot (GetProduceTime block)) (slot (GetProposeTime block))
       zeroHash (GetShardID block) portalSigs).

(** ** Counting votes *)

(** The map from keys to committee positions: a repeated key has its last position. *)
Definition committeeIndex (signers : list CommitteePublicKey) : gmap string Z :=
  foldl (λ m '(i, v), <[blsKey v := i]> m) ∅ (zip (Z.of_nat <$> seq 0 (List.length signers)) signers).

(** One turn of the loop of [validateVote] and [validatePreVote]: the vote with its status. *)
Definition checkVote (signers : list CommitteePublicKey) (vote : BFTVote) : BFTVote :=
  if IsValid vote =? 0
  then
    match committeeIndex signers !! Validator vote ≫= (λ i, signers !! Z.to_nat i) with
    | None => vote
    | Some member =>
        if decide (bridgeKey member = EmptyString) then vote
        else set_IsValid (if validateVoteOwner vote (bridgeKey member) then 1 else -1) vote
    end
  else vote.

Definition countStatus (x : Z) (votes : gmap string BFTVote) : Z :=
  Z.of_nat (size (filter (λ kv, IsValid kv.2 = x) votes)).

Definition dropInvalid (votes : gmap string BFTVote) : gmap string BFTVote :=
  filter (λ kv, IsValid kv.2 ≠ -1) votes.

(** ** Certificates *)
Definition feature (f : string) : option Z := FeatureVersion !! f.

Definition GetLatestReduceFixNodeVersion : Z :=
  match feature "reduce_fix_node" with
  | Some v => v
  | None =>
      match feature "reduce_fix_node_v2" with
      | Some v => v
      | None => default 0 (feature "reduce_fix_node_v3")
      end
  end.

Definition validIdx (votes : gmap string BFTVote) (committees : list string) : list Z :=
  merge_sort Z.le
    (omap (λ kv : string * BFTVote,
       if IsValid kv.2 =? 1
       then let index := IndexOfStr kv.1 committees in
            if index =? -1 then None else Some index
       else None) (map_to_list votes)).

Definition votesAt (votes : gmap string BFTVote) (committees : list string) (idx : list Z)
    : outcome (list BFTVote) :=
  mapM (λ i, pk ← at_index committees i; from_option Ok Panic (votes !! pk)) idx.

(** The aggregated signature, the bridge signatures, the positions and the portal signatures. *)
Definition CombineVotes (votes : gmap string BFTVote) (committees : list string)
    : outcome (string * list string * list Z * list string) :=
  let validatorIdx := validIdx votes committees in
  if decide (validatorIdx = []) then Err "len(validatorIdx) == 0"
  else
    vs ← votesAt votes committees validatorIdx;
    match BLSCombine (BLS <$> vs) with
    | None => Err "CombineSignatureError"
    | Some aggSig => mret (aggSig, BRI <$> vs, validatorIdx, mjoin (PortalSigs <$> vs))
    end.

(** [blsmultisig.Verify]: the positions are in the committee and the pairings agree. *)
Definition Verify (sig data : string) (signersIdx : list Z) (committee : list string) : bool :=
  forallb (λ idx, (0 <=? idx) && (idx <? lenZ committee)) signersIdx &&
  (lenZ signersIdx <=? lenZ committee) && (1 <=? lenZ committee) &&
  BLSPairing sig data signersIdx committee.

Definition validateBLSSig (dataHash aggSig : string) (validatorIdx : list Z)
    (committee : list CommitteePublicKey) : bool :=
  Verify aggSig dataHash validatorIdx (blsKey <$> committee).

Definition validateSingleBLSSig (dataHash blsSig : string) (selfIdx : Z)
    (committee : list CommitteePublicKey) : bool :=
  Verify blsSig dataHash [selfIdx] (blsKey <$> committee).

(** When the aggregate does not verify, every vote whose own signature is wrong is marked. *)
Definition markBadVotes (dataHash : string) (committees : list CommitteePublicKey)
    (votes : gmap string BFTVote) : gmap string BFTVote :=
  map_imap (λ pk vote, Some
    (let index := IndexOfStr pk (ExtractPublickeysFromCommitteeKeyList committees) in
     if index =? -1 then vote
     else if validateSingleBLSSig dataHash (BLS vote) index committees then vote
     else set_IsValid (-1) vote)) votes.

(** The field of a block, [None] when it does not decode. *)
Definition createBLSAggregatedSignatures (committees : list CommitteePublicKey) (blockHash : string)
    (field : option ValidationData) : M (gmap string BFTVote) ValidationData :=
  votes ← getS;
  '(aggSig, brigSigs, validatorIdx, portalSigs) ←
     lift (CombineVotes votes (ExtractPublickeysFromCommitteeKeyList committees));
  match field with
  | None => fail "DecodeValidationData"
  | Some d =>
      let valData := mkValidationData (ProducerBLSSig d) (ProducerBriSig d) validatorIdx aggSig
                       brigSigs portalSigs in
      if validateBLSSig blockHash aggSig validatorIdx committees then mret valData
      else (modifyS (markBadVotes blockHash committees);;
            fail "ValidateCommitteeSig from combine signature fail")
  end.

Fixpoint increasing (l : list Z) : bool :=
  match l with
  | a :: (b :: _) as l' => if b <=? a then false else increasing l'
  | _ => true
  end.

Definition CheckValidationDataWithCommittee (idx : list Z) (committee : list CommitteePublicKey) : bool :=
  if lenZ committee <? 1 then false
  else if lenZ idx <? Z.quot (lenZ committee * 2) 3 + 1 then false
  else increasing idx.

Definition enoughFixNodes (version numFixNode : Z) (idx : list Z) : bool :=
  let reduceFixNodeVersion := GetLatestReduceFixNodeVersion in
  if negb (reduceFixNodeVersion =? 0) && (reduceFixNodeVersion <=? version)
  then twoThirds numFixNode <? lenZ (filter (λ v, v < numFixNode) idx)
  else true.

(** No error: the block's certificate is accepted. *)
Definition ValidateCommitteeSig (block : Block) (field : option ValidationData)
    (committee : list CommitteePublicKey) (numFixNode : Z) : bool :=
  match field with
  | None => false
  | Some valData =>
      enoughFixNodes (GetVersion block) numFixNode (ValidatiorsIdx valData) &&
      CheckValidationDataWithCommittee (ValidatiorsIdx valData) committee &&
      validateBLSSig (ProposeHash block) (AggSig valData) (ValidatiorsIdx valData) committee
  end.

(** ** What the definitions compute *)

Lemma increasing_lt a l : increasing (a :: l) = true → ∀ b, b ∈ l → a < b.
Proof.
  revert a. induction l as [|c l IH]; intros a Hi b Hb; [by apply not_elem_of_nil in Hb|].
  cbn in Hi. destruct (c <=? a) eqn:E; [done|]. apply Z.leb_gt in E.
  apply elem_of_cons in Hb as [-> |Hb]; [done|]. specialize (IH c Hi b Hb). lia.
Qed.

Lemma increasing_NoDup l : increasing l = true → NoDup l.
Proof.
  induction l as [|a l IH]; intros Hi; [constructor|]. constructor.
  - intros Ha. pose proof (increasing_lt _ _ Hi _ Ha). lia.
  - apply IH. destruct l as [|b l]; [done|]. cbn in Hi. by destruct (b <=? a).
Qed.

Lemma IndexOfStr_from_spec k item l :
  IndexOfStr_from k item l = -1 ∧ item ∉ l ∨
  ∃ i, IndexOfStr_from k item l = k + Z.of_nat i ∧ l !! i = Some item.
Proof.
  revert k. induction l as [|v l IH]; intros k; cbn; [left; split; [done|apply not_elem_of_nil]|].
  case_decide as Hd.
  - subst. right. exists O. split; [lia|done].
  - destruct (IH (k + 1)) as [[-> Hn]|(i & -> & Hi)].
    + left. split; [done|]. rewrite elem_of_cons. naive_solver.
    + right. exists (S i). split; [lia|done].
Qed.

End WithConfig.
