(* ===== verification/BftNode.v ===== *)
(** The state of a beacon validator in the BFT consensus and its voting phases
    ([consensus_v2/blsbft/actor_v3.go], [actor_v3_prevote.go], [actor_v3_vote.go],
    [block_info.go]).

    The proposals a node received are kept by propose hash; a pointer to one of them is its
    key.  Go ranges over the map in any order, so that every loop takes the order as an
    argument.  The consensus database of the node is part of its state, its writes succeed,
    and what a node sends is recorded in [sent], the newest first.  The chain is a snapshot:
    it does not change while one message or one tick is handled. *)
From S2P Require Import Prelude BftVote.

Local Open Scope Z_scope.

(** ** A received proposal: [ProposeBlockInfo]

    The fields that this actor does not use are left out. *)
Record ProposeBlockInfo := mkInfo {
  block : Block;
  field : option ValidationData;   (* of the block; None: it does not decode *)
  ReceiveTime : Z;
  SigningCommittees : list CommitteePublicKey;
  NumberOfFixNode : Z;
  UserKeySet : list MiningKey;
  Votes : gmap string BFTVote;
  PreVotes : gmap string BFTVote;
  info_IsValid : bool;
  HasNewPreVote : bool;
  HasNewVote : bool;
  IsVoted : bool;
  IsPreVoted : bool;
  IsCommitted : bool;
  ValidPreVotes : Z;
  ErrPreVotes : Z;
  ValidVotes : Z;
  ErrVotes : Z;
  LastValidateTime : option Z;   (* None: the zero time *)
  ValidPOLC : bool;
}.

Definition set_field (x : option ValidationData) (i : ProposeBlockInfo) : ProposeBlockInfo :=
  mkInfo (block i) x (ReceiveTime i) (SigningCommittees i) (NumberOfFixNode i) (UserKeySet i)
    (Votes i) (PreVotes i) (info_IsValid i) (HasNewPreVote i) (HasNewVote i) (IsVoted i)
    (IsPreVoted i) (IsCommitted i) (ValidPreVotes i) (ErrPreVotes i) (ValidVotes i) (ErrVotes i)
    (LastValidateTime i) (ValidPOLC i).
Definition add_vote (x : BFTVote) (i : ProposeBlockInfo) : ProposeBlockInfo :=
  mkInfo (block i) (field i) (ReceiveTime i) (SigningCommittees i) (NumberOfFixNode i)
    (UserKeySet i) (<[Validator x := x]> (Votes i)) (PreVotes i) (info_IsValid i)
    (HasNewPreVote i) true (IsVoted i) (IsPreVoted i) (IsCommitted i) (ValidPreVotes i)
    (ErrPreVotes i) (ValidVotes i) (ErrVotes i) (LastValidateTime i) (ValidPOLC i).
Definition add_prevote (x : BFTVote) (i : ProposeBlockInfo) : ProposeBlockInfo :=
  mkInfo (block i) (field i) (ReceiveTime i) (SigningCommittees i) (NumberOfFixNode i)
    (UserKeySet i) (Votes i) (<[Validator x := x]> (PreVotes i)) (info_IsValid i) true
    (HasNewVote i) (IsVoted i) (IsPreVoted i) (IsCommitted i) (ValidPreVotes i) (ErrPreVotes i)
    (ValidVotes i) (ErrVotes i) (LastValidateTime i) (ValidPOLC i).
Definition set_Votes (x : gmap string BFTVote) (i : ProposeBlockInfo) : ProposeBlockInfo :=
  mkInfo (block i) (field i) (ReceiveTime i) (SigningCommittees i) (NumberOfFixNode i)
    (UserKeySet i) x (PreVotes i) (info_IsValid i) (HasNewPreVote i) (HasNewVote i) (IsVoted i)
    (IsPreVoted i) (IsCommitted i) (ValidPreVotes i) (ErrPreVotes i) (ValidVotes i) (ErrVotes i)
    (LastValidateTime i) (ValidPOLC i).
Definition set_valid (i : ProposeBlockInfo) : ProposeBlockInfo :=
  mkInfo (block i) (field i) (ReceiveTime i) (SigningCommittees i) (NumberOfFixNode i)
    (UserKeySet i) (Votes i) (PreVotes i) true (HasNewPreVote i) (HasNewVote i) (IsVoted i)
    (IsPreVoted i) (IsCommitted i) (ValidPreVotes i) (ErrPreVotes i) (ValidVotes i) (ErrVotes i)
    (LastValidateTime i) (ValidPOLC i).
Definition set_LastValidateTime (x : Z) (i : ProposeBlockInfo) : ProposeBlockInfo :=
  mkInfo (block i) (field i) (ReceiveTime i) (SigningCommittees i) (NumberOfFixNode i)
    (UserKeySet i) (Votes i) (PreVotes i) (info_IsValid i) (HasNewPreVote i) (HasNewVote i)
    (IsVoted i) (IsPreVoted i) (IsCommitted i) (ValidPreVotes i) (ErrPreVotes i) (ValidVotes i)
    (ErrVotes i) (Some x) (ValidPOLC i).
Definition set_voted (i : ProposeBlockInfo) : ProposeBlockInfo :=
  mkInfo (block i) (field i) (ReceiveTime i) (SigningCommittees i) (NumberOfFixNode i)
    (UserKeySet i) (Votes i) (PreVotes i) (info_IsValid i) (HasNewPreVote i) (HasNewVote i) true
    (IsPreVoted i) (IsCommitted i) (ValidPreVotes i) (ErrPreVotes i) (ValidVotes i) (ErrVotes i)
    (LastValidateTime i) (ValidPOLC i).
Definition set_prevoted (i : ProposeBlockInfo) : ProposeBlockInfo :=
  mkInfo (block i) (field i) (ReceiveTime i) (SigningCommittees i) (NumberOfFixNode i)
    (UserKeySet i) (Votes i) (PreVotes i) (info_IsValid i) (HasNewPreVote i) (HasNewVote i)
    (IsVoted i) true (IsCommitted i) (ValidPreVotes i) (ErrPreVotes i) (ValidVotes i) (ErrVotes i)
    (LastValidateTime i) (ValidPOLC i).
Definition set_committed (i : ProposeBlockInfo) : ProposeBlockInfo :=
  mkInfo (block i) (field i) (ReceiveTime i) (SigningCommittees i) (NumberOfFixNode i)
    (UserKeySet i) (Votes i) (PreVotes i) (info_IsValid i) (HasNewPreVote i) (HasNewVote i)
    (IsVoted i) (IsPreVoted i) true (ValidPreVotes i) (ErrPreVotes i) (ValidVotes i) (ErrVotes i)
    (LastValidateTime i) (ValidPOLC i).
Definition set_prevotes_checked (pv v : gmap string BFTVote) (ok err : Z) (i : ProposeBlockInfo) : ProposeBlockInfo :=
  mkInfo (block i) (field i) (ReceiveTime i) (SigningCommittees i) (NumberOfFixNode i)
    (UserKeySet i) v pv (info_IsValid i) false (HasNewVote i) (IsVoted i) (IsPreVoted i)
    (IsCommitted i) ok err (ValidVotes i) (ErrVotes i) (LastValidateTime i) (ValidPOLC i).
Definition set_votes_checked (v : gmap string BFTVote) (ok err : Z) (i : ProposeBlockInfo) : ProposeBlockInfo :=
  mkInfo (block i) (field i) (ReceiveTime i) (SigningCommittees i) (NumberOfFixNode i)
    (UserKeySet i) v (PreVotes i) (info_IsValid i) (HasNewPreVote i) false (IsVoted i)
    (IsPreVoted i) (IsCommitted i) (ValidPreVotes i) (ErrPreVotes i) ok err (LastValidateTime i)
    (ValidPOLC i).
Definition set_POLC (i : ProposeBlockInfo) : ProposeBlockInfo :=
  mkInfo (block i) (field i) (ReceiveTime i) (SigningCommittees i) (NumberOfFixNode i)
    (UserKeySet i) (Votes i) (PreVotes i) (info_IsValid i) (HasNewPreVote i) (HasNewVote i)
    (IsVoted i) (IsPreVoted i) (IsCommitted i) (ValidPreVotes i) (ErrPreVotes i) (ValidVotes i)
    (ErrVotes i) (LastValidateTime i) true.
(** What [MarshalJSON] keeps of an info. *)
Definition MarshalJSON (i : ProposeBlockInfo) : ProposeBlockInfo :=
  mkInfo (block i) (field i) (ReceiveTime i) (SigningCommittees i) (NumberOfFixNode i)
    (UserKeySet i) ∅ ∅ (info_IsValid i) false (HasNewVote i) (IsVoted i) false (IsCommitted i) 0 0
    (ValidVotes i) (ErrVotes i) (LastValidateTime i) (ValidPOLC i).
(** [UnmarshalJSON], and the votes that [InitReceiveBlockByHash] reads back. *)
Definition UnmarshalJSON (votes prevotes : gmap string BFTVote) (i : ProposeBlockInfo) : ProposeBlockInfo :=
  mkInfo (block i) (field i) (ReceiveTime i) (SigningCommittees i) (NumberOfFixNode i)
    (UserKeySet i) votes prevotes (info_IsValid i) (HasNewPreVote i) true (IsVoted i)
    (IsPreVoted i) (IsCommitted i) (ValidPreVotes i) (ErrPreVotes i) (ValidVotes i) (ErrVotes i)
    (LastValidateTime i) (ValidPOLC i).

Record View := mkView {
  v_hash : string;
  v_height : Z;
  CalculateTimeSlot : Z → Z;
  GetCommittee : list CommitteePublicKey;
  GetProposerLength : Z;
  v_block : Block;   (* the view's own block *)
}.

(** The chain the node asks: views, blocks, validation and insertion of a block; [None] and
    [false] are errors. *)
Record Chain := mkChain {
  IsReady : bool;
  GetBestView : View;
  GetViewByHash : string → option View;
  GetFinalViewHeight : Z;
  GetBlockByHash : string → option Block;
  GetProposerByTimeSlot : Z → list CommitteePublicKey → CommitteePublicKey;
  CreateNewBlock : string → Z → option Block;
  CreateNewBlockFromOldBlock : Block → string → Z → option Block;
  ValidatePreSignBlock : Block → list CommitteePublicKey → bool;
  InsertBlock : Block → option ValidationData → bool;
}.

Record BFTPropose := mkPropose {
  p_Block : option Block;   (* None: it does not unmarshal *)
  p_field : option ValidationData;
  p_POLC : POLC;
}.

(** What a node does to the rest of the world. *)
Inductive Output :=
  | SendVote (v : BFTVote)
  | SendPropose (m : BFTPropose)
  | Inserted (b : Block) (d : option ValidationData) (previous : option ValidationData)
  | Replaced (hash proposeHash : string) (d : option ValidationData).

Record actorV3 := mkActor {
  userKeySet : list MiningKey;
  currentTime : Z;
  currentTimeSlot : Z;
  proposeHistory : gset Z;
  receiveBlockByHash : gmap string ProposeBlockInfo;
  currentBestViewHeight : Z;
  voteDB : gmap (string * string) BFTVote;        (* propose hash and validator *)
  blockDB : gmap string ProposeBlockInfo;
  historyDB : gset Z;
  sent : list Output;
}.

Definition set_receive (x : gmap string ProposeBlockInfo) (a : actorV3) : actorV3 :=
  mkActor (userKeySet a) (currentTime a) (currentTimeSlot a) (proposeHistory a) x
    (currentBestViewHeight a) (voteDB a) (blockDB a) (historyDB a) (sent a).
Definition set_voteDB (x : gmap (string * string) BFTVote) (a : actorV3) : actorV3 :=
  mkActor (userKeySet a) (currentTime a) (currentTimeSlot a) (proposeHistory a)
    (receiveBlockByHash a) (currentBestViewHeight a) x (blockDB a) (historyDB a) (sent a).
Definition set_blockDB (x : gmap string ProposeBlockInfo) (a : actorV3) : actorV3 :=
  mkActor (userKeySet a) (currentTime a) (currentTimeSlot a) (proposeHistory a)
    (receiveBlockByHash a) (currentBestViewHeight a) (voteDB a) x (historyDB a) (sent a).
Definition set_history (x y : gset Z) (a : actorV3) : actorV3 :=
  mkActor (userKeySet a) (currentTime a) (currentTimeSlot a) x (receiveBlockByHash a)
    (currentBestViewHeight a) (voteDB a) (blockDB a) y (sent a).
Definition set_clock (t slot height : Z) (a : actorV3) : actorV3 :=
  mkActor (userKeySet a) t slot (proposeHistory a) (receiveBlockByHash a) height (voteDB a)
    (blockDB a) (historyDB a) (sent a).
Definition set_sent (x : list Output) (a : actorV3) : actorV3 :=
  mkActor (userKeySet a) (currentTime a) (currentTimeSlot a) (proposeHistory a)
    (receiveBlockByHash a) (currentBestViewHeight a) (voteDB a) (blockDB a) (historyDB a) x.

Definition output (o : Output) : M actorV3 unit := modifyS (λ a, set_sent (o :: sent a) a).

(** Assign through the pointer to a proposal. *)
Definition updateInfo (p : string) (f : ProposeBlockInfo → ProposeBlockInfo) : M actorV3 unit :=
  modifyS (λ a, set_receive (alter f p (receiveBlockByHash a)) a).

(** Call a function and log its error. *)
Definition attempt {A} (m : M actorV3 A) : M actorV3 (option A) := λ a,
  match m a with
  | (Ok x, a') => (Ok (Some x), a')
  | (Err _, a') => (Ok None, a')
  | (Panic, a') => (Panic, a')
  | (OutOfFuel, a') => (OutOfFuel, a')
  end.

Definition ignore {A} (m : M actorV3 A) : M actorV3 unit := attempt m;; mret tt.

(** [for _, proposeBlockInfo := range a.receiveBlockByHash]. *)
Fixpoint forInfos (order : list string) (f : string → ProposeBlockInfo → M actorV3 unit) : M actorV3 unit :=
  match order with
  | [] => mret tt
  | p :: order =>
      a ← getS;
      match receiveBlockByHash a !! p with
      | Some info => f p info;; forInfos order f
      | None => forInfos order f
      end
  end.

Section WithConfig.
Context {cfg : BftConfig} {crypto : BftCrypto}.

(** ** The stores *)
Definition AddReceiveBlockByHash (blockHash : string) (info : ProposeBlockInfo) : M actorV3 unit :=
  modifyS (λ a, set_receive (<[blockHash := info]> (receiveBlockByHash a)) a);;
  modifyS (λ a, set_blockDB (<[blockHash := MarshalJSON info]> (blockDB a)) a).

Definition CleanReceiveBlockByHash (blockHash : string) : M actorV3 unit :=
  modifyS (λ a, set_blockDB (delete blockHash (blockDB a)) a);;
  modifyS (λ a, set_receive (delete blockHash (receiveBlockByHash a)) a);;
  modifyS (λ a, set_voteDB (filter (λ kv, kv.1.1 ≠ blockHash) (voteDB a)) a).

(** The database has one record for a validator and a block, so that a vote replaces the prevote
    of the same validator. *)
Definition AddVoteByBlockHashToDB (blockHash : string) (v : BFTVote) : M actorV3 unit :=
  modifyS (λ a, set_voteDB (<[(blockHash, Validator v) := v]> (voteDB a)) a).

Definition storedVotes (proposeHash : string) (db : gmap (string * string) BFTVote) : list (string * BFTVote) :=
  (λ kv : (string * string) * BFTVote, (kv.1.2, kv.2))
    <$> filter (λ kv : (string * string) * BFTVote, kv.1.1 = proposeHash) (map_to_list db).

Definition isVotePhase (v : BFTVote) : Prop := Phase v = EmptyString ∨ Phase v = "vote".

#[export] Instance isVotePhase_dec v : Decision (isVotePhase v).
Proof. unfold isVotePhase. apply _. Defined.

(** The votes and the prevotes. *)
Definition GetVotesByBlockHashFromDB (proposeHash : string) (db : gmap (string * string) BFTVote)
    : gmap string BFTVote * gmap string BFTVote :=
  let votes := storedVotes proposeHash db in
  (list_to_map (filter (λ kv : string * BFTVote, isVotePhase kv.2) votes),
   list_to_map (filter (λ kv : string * BFTVote, ¬ isVotePhase kv.2) votes)).

(** ** Locks *)

(** The block voted last, by propose time, at the height. *)
Definition getLockBlockHash (order : list string) (proposeBlockHeight : Z) (a : actorV3) : option ProposeBlockInfo :=
  foldl (λ acc p,
    match receiveBlockByHash a !! p with
    | None => acc
    | Some i =>
        if (GetHeight (block i) =? proposeBlockHeight) && IsVoted i
        then match acc with
             | Some l => if GetProposeTime (block l) <? GetProposeTime (block i) then Some i else acc
             | None => Some i
             end
        else acc
    end) None order.

Definition sameHash (i j : ProposeBlockInfo) : bool :=
  bool_decide (BlockHashOf (block i) = BlockHashOf (block j)).

(** ** Validating a proposal *)
Definition second : Z := 1000000000.

Definition validateBlock (c : Chain) (now : Z) (lockOrder : list string) (p : string)
    (info : ProposeBlockInfo) : M actorV3 unit :=
  if info_IsValid info then mret tt
  else if from_option (λ t, now - t <? second) false (LastValidateTime info) then mret tt
  else
    a ← getS;
    if negb (GetHeight (block info) =? add64 (currentBestViewHeight a) 1)
    then fail "Not expected height!"
    else if negb (ValidPOLC info) &&
            from_option (λ l, negb (sameHash l info)) false
              (getLockBlockHash lockOrder (add64 (currentBestViewHeight a) 1) a)
    then fail "Not expected locked blockhash!"
    else
      updateInfo p (set_LastValidateTime now);;
      if ValidatePreSignBlock c (block info) (SigningCommittees info)
      then updateInfo p set_valid
      else fail "Block is invalidated!".

(** ** Messages *)
Definition handlePreVoteMsg (voteMsg : BFTVote) : M actorV3 unit :=
  let v := set_IsValid 0 voteMsg in
  a ← getS;
  (match receiveBlockByHash a !! BlockHash v with
   | Some info =>
       match PreVotes info !! Validator v with
       | None => updateInfo (BlockHash v) (add_prevote v)
       | Some _ => mret tt
       end
   | None => mret tt
   end);;
  AddVoteByBlockHashToDB (BlockHash v) v.

Definition handleVoteMsg (voteMsg : BFTVote) : M actorV3 unit :=
  let v := set_IsValid 0 voteMsg in
  a ← getS;
  (match receiveBlockByHash a !! BlockHash v with
   | Some info =>
       match Votes info !! Validator v with
       | None => updateInfo (BlockHash v) (add_vote v)
       | Some _ => mret tt
       end
   | None => mret tt
   end);;
  AddVoteByBlockHashToDB (BlockHash v) v.

(** It is the invalid entries of the votes that are dropped, not of the prevotes. *)
Definition validatePreVote (info : ProposeBlockInfo) : ProposeBlockInfo :=
  if HasNewPreVote info
  then let pv := checkVote (SigningCommittees info) <$> PreVotes info in
       set_prevotes_checked pv (dropInvalid (Votes info)) (countStatus 1 pv) (countStatus (-1) pv) info
  else info.

Definition validateVote (info : ProposeBlockInfo) : ProposeBlockInfo :=
  if HasNewVote info
  then let v := checkVote (SigningCommittees info) <$> Votes info in
       set_votes_checked (dropInvalid v) (countStatus 1 v) (countStatus (-1) v) info
  else info.

(** ** Sending *)
Definition signerKeys (info : ProposeBlockInfo) : list MiningKey :=
  filter (λ k, IndexOfStr (blsKey (GetPublicKey k))
                 (ExtractPublickeysFromCommitteeKeyList (SigningCommittees info)) ≠ -1) (UserKeySet info).

Definition createAndSendPreVote (c : Chain) (userKey : MiningKey) (b : Block) : M actorV3 unit :=
  match GetViewByHash c (GetPrevHash b) with
  | None => panic
  | Some previousView =>
      match CreatePreVote (CalculateTimeSlot previousView) userKey b with
      | None => fail "CreatePreVote"
      | Some vote => output (SendVote vote)
      end
  end.

Definition createAndSendVote (c : Chain) (userKey : MiningKey) (b : Block)
    (signingCommittees : list CommitteePublicKey) : M actorV3 unit :=
  match GetViewByHash c (GetPrevHash b) with
  | None => panic
  | Some previousView =>
      match CreateVote (CalculateTimeSlot previousView) userKey b signingCommittees with
      | None => fail "CreateVote"
      | Some vote => output (SendVote vote)
      end
  end.

Fixpoint forKeys (keys : list MiningKey) (f : MiningKey → M actorV3 unit) : M actorV3 unit :=
  match keys with
  | [] => mret tt
  | k :: keys => f k;; forKeys keys f
  end.

(** [sendVote] in the phase "prevote". *)
Definition sendPreVotes (c : Chain) (info : ProposeBlockInfo) : M actorV3 unit :=
  forKeys (signerKeys info) (λ k, createAndSendPreVote c k (block info)).

(** [sendVote] in the phase "vote": the lock is set and stored before the vote is sent. *)
Definition sendVotes (c : Chain) (info : ProposeBlockInfo) : M actorV3 unit :=
  forKeys (signerKeys info) (λ k,
    AddReceiveBlockByHash (ProposeHash (block info)) (set_voted info);;
    createAndSendVote c k (block info) (SigningCommittees info)).

(** ** Prevote and vote *)
Definition shouldPrevote (c : Chain) (lockOrder : list string) (a : actorV3) (info : ProposeBlockInfo) : bool :=
  let bestView := GetBestView c in
  if negb (bool_decide (GetPrevHash (block info) = v_hash bestView)) then false
  else if negb (info_IsValid info) then false
  else if IsPreVoted info then false
  else if negb (currentTimeSlot a =? CalculateTimeSlot bestView (GetProposeTime (block info))) then false
  else
    ValidPOLC info ||
    match getLockBlockHash lockOrder (add64 (currentBestViewHeight a) 1) a with
    | None => true
    | Some l => sameHash l info
    end.

Definition maybePreVoteMsg (c : Chain) (order : list string) (lockOrder : string → list string) : M actorV3 unit :=
  forInfos order (λ p info,
    a ← getS;
    if shouldPrevote c (lockOrder p) a info
    then ignore (sendPreVotes c info);; updateInfo p set_prevoted
    else mret tt).

Definition shouldVote (c : Chain) (a : actorV3) (info : ProposeBlockInfo) : bool :=
  match GetViewByHash c (GetPrevHash (block info)) with
  | None => false
  | Some previousView =>
      (currentTimeSlot a =? CalculateTimeSlot previousView (GetProposeTime (block info))) &&
      IsPreVoted info && negb (IsVoted info) && info_IsValid info &&
      (twoThirds (lenZ (SigningCommittees info)) <? ValidPreVotes info)
  end.

Definition maybeVoteMsg (c : Chain) (order : list string) : M actorV3 unit :=
  forInfos order (λ p info,
    a ← getS;
    if shouldVote c a info then ignore (sendVotes c info) else mret tt).

(** ** Cleaning *)
Definition minute : Z := 60 * second.

(** The height two below the final one, as an unsigned integer. *)
Definition outdated (c : Chain) (now : Z) (info : ProposeBlockInfo) : bool :=
  (minute <? now - ReceiveTime info) &&
    (Z.of_nat (size (PreVotes info)) <=? twoThirds (lenZ (SigningCommittees info)))
  || (GetHeight (block info) <? sub64 (GetFinalViewHeight c) 2).

Definition handleCleanMem (c : Chain) (now : Z) (order : list string) : M actorV3 unit :=
  forInfos order (λ p info, if outdated c now info then CleanReceiveBlockByHash p else mret tt);;
  modifyS (λ a,
    let keep (h : gset Z) := filter (λ timeSlot, currentTimeSlot a ≤ timeSlot) h in
    set_history (keep (proposeHistory a)) (historyDB a ∖ (proposeHistory a ∖ keep (proposeHistory a))) a).

End WithConfig.
