(* ===== verification/BftActor.v ===== *)
(** The actor of a beacon validator: proposing and receiving blocks, proofs of lock change,
    committing, the loop over messages and ticks, and a restart from the consensus database
    ([consensus_v2/blsbft/actor_v3.go], [actor_v3_propose.go], [actor_v3_commit.go],
    [actor_v2.go] for the restart). *)
From S2P Require Import Prelude BftVote BftNode.

Local Open Scope Z_scope.

Section WithConfig.
Context {cfg : BftConfig} {crypto : BftCrypto}.

(** ** Proof of lock change *)

(** The prevotes that were checked, in the order of the range over the map. *)
Definition buildPOLCFromPreVote (slot : Z → Z) (info : ProposeBlockInfo) : POLC :=
  let committeeBLSString := ExtractPublickeysFromCommitteeKeyList (SigningCommittees info) in
  let valid := filter (λ kv : string * BFTVote, IsValid kv.2 = 1) (map_to_list (PreVotes info)) in
  mkPOLC ((λ kv, IndexOfStr kv.1 committeeBLSString) <$> valid)
         ((λ kv : string * BFTVote, Confirmation kv.2) <$> valid)
         (ProposeHash (block info)) (BlockHashOf (block info)) (slot (GetProposeTime (block info))).

(** The vote that the signature at one position of the proof must sign. *)
Definition polcVote (info : ProposeBlockInfo) (polc : POLC) (validator sig : string) : BFTVote :=
  mkVote EmptyString EmptyString 0 (polc_BlockProposeHash polc) (BlockHashOf (block info)) validator
    EmptyString EmptyString sig 0 0 (polc_Timeslot polc) zeroHash (GetShardID (block info)) [].

Fixpoint verifyPOLCSigs (info : ProposeBlockInfo) (polc : POLC) (i : Z) (idx : list Z) : outcome bool :=
  match idx with
  | [] => Ok true
  | index :: idx =>
      validator ← at_index (ExtractPublickeysFromCommitteeKeyList (SigningCommittees info)) index;
      sig ← at_index (polc_Sig polc) i;
      member ← at_index (SigningCommittees info) index;
      if decide (bridgeKey member = EmptyString) then Ok false
      else if validateVoteOwner (polcVote info polc validator sig) (bridgeKey member)
      then verifyPOLCSigs info polc (i + 1) idx
      else Ok false
  end.

(** The proof is for the lock's slot or a later one; the view of the lock must be known. *)
Definition newerThanLock (c : Chain) (polc : POLC) (lock : option ProposeBlockInfo) : outcome bool :=
  match lock with
  | None => Ok true
  | Some l =>
      match GetViewByHash c (GetPrevHash (block l)) with
      | None => Panic
      | Some previousView =>
          Ok (negb (polc_Timeslot polc <? CalculateTimeSlot previousView (GetProposeTime (block l))))
      end
  end.

Definition verifyPOLCFromPreVote (c : Chain) (info : ProposeBlockInfo) (polc : POLC)
    (lock : option ProposeBlockInfo) : outcome bool :=
  if decide (polc_Idx polc = []) then Ok false
  else if decide (BlockHashOf (block info) ≠ polc_BlockHash polc) then Ok false
  else
    newer ← newerThanLock c polc lock;
    if negb newer then Ok false
    else
      sigs ← verifyPOLCSigs info polc 0 (polc_Idx polc);
      Ok (sigs && (twoThirds (lenZ (SigningCommittees info)) <? lenZ (polc_Idx polc))).

(** ** Receiving a proposal *)

(** The beacon's committee is the one of the best view, whatever block the proposal extends. *)
Definition getCommitteeForNewBlock (c : Chain) : list CommitteePublicKey := GetCommittee (GetBestView c).

Definition newInfo (a : actorV3) (c : Chain) (now : Z) (b : Block) (d : option ValidationData)
    (previousView : View) : ProposeBlockInfo :=
  let '(votes, prevotes) := GetVotesByBlockHashFromDB (ProposeHash b) (voteDB a) in
  mkInfo b d now (getCommitteeForNewBlock c) (GetProposerLength previousView) (userKeySet a)
    votes prevotes false false false false false false 0 0 0 0 None false.

Definition handleProposeMsg (c : Chain) (now : Z) (lockOrder : list string) (proposeMsg : BFTPropose)
    : M actorV3 unit :=
  match p_Block proposeMsg with
  | None => fail "UnmarshalBlock"
  | Some b =>
      a ← getS;
      match receiveBlockByHash a !! ProposeHash b with
      | Some _ => fail "Already receive block"
      | None =>
          match GetBlockByHash c (GetPrevHash b) with
          | None => fail "Request sync block"
          | Some _ =>
              if GetHeight b <=? v_height (GetBestView c)
              then fail "Receive block create from old view. Rejected!"
              else
                match GetViewByHash c (GetPrevHash b) with
                | None => panic   (* previousView.GetProposerLength() *)
                | Some previousView =>
                    let info := newInfo a c now b (p_field proposeMsg) previousView in
                    ok ← lift (verifyPOLCFromPreVote c info (p_POLC proposeMsg)
                                 (getLockBlockHash lockOrder (GetHeight b) a));
                    AddReceiveBlockByHash (ProposeHash b) (if ok : bool then set_POLC info else info)
                end
          end
      end
  end.

(** ** Committing *)

(** [ValidateFixNodeMajority]. *)
Definition fixNodeVotes (info : ProposeBlockInfo) : outcome Z :=
  members ← mapM (λ i, at_index (SigningCommittees info) (Z.of_nat i))
                 (seq 0 (Z.to_nat (NumberOfFixNode info)));
  mret (lenZ (filter (λ cpk, from_option IsValid 0 (Votes info !! blsKey cpk) = 1) members)).

Definition ValidateFixNodeMajority (info : ProposeBlockInfo) : outcome bool :=
  let redduceFixNodeVersion := GetLatestReduceFixNodeVersion in
  if (redduceFixNodeVersion =? 0) || (GetVersion (block info) <? redduceFixNodeVersion) then Ok true
  else if NumberOfFixNode info =? 0 then Ok false
  else
    cnt ← fixNodeVotes info;
    mret (twoThirds (NumberOfFixNode info) <? cnt).

(** Aggregate the votes of a received proposal; a failure marks the bad ones. *)
Definition aggregate (p : string) (info : ProposeBlockInfo) : M actorV3 ValidationData := λ a,
  let '(r, votes) := createBLSAggregatedSignatures (SigningCommittees info) (ProposeHash (block info))
                       (field info) (Votes info) in
  (r, set_receive (alter (set_Votes votes) p (receiveBlockByHash a)) a).

Definition insert (c : Chain) (b : Block) (d previous : option ValidationData) : M actorV3 unit :=
  if InsertBlock c b d then output (Inserted b d previous) else fail "InsertBlock".

(** The certificate of the previous block with the votes that came late, when the node has it. *)
Definition previousData (p : string) : M actorV3 (option ValidationData) :=
  updateInfo p validateVote;;
  a ← getS;
  match receiveBlockByHash a !! p with
  | None => mret None
  | Some info =>
      d ← attempt (aggregate p info);
      match d with Some d => updateInfo p (set_field (Some d)) | None => mret tt end;;
      mret d
  end.

(** A previous block that the chain does not have is a nil pointer in the interface. *)
Definition commitBlock (c : Chain) (p : string) (v : ProposeBlockInfo) : M actorV3 unit :=
  validationData ← aggregate p v;
  updateInfo p (set_field (Some validationData));;
  match GetBlockByHash c (GetPrevHash (block v)) with
  | None => panic
  | Some previousBlock =>
      a ← getS;
      match receiveBlockByHash a !! ProposeHash previousBlock with
      | None => insert c (block v) (Some validationData) None
      | Some _ =>
          previous ← previousData (ProposeHash previousBlock);
          insert c (block v) (Some validationData) previous
      end
  end.

Definition maybeCommit (c : Chain) (order : list string) : M actorV3 unit :=
  forInfos order (λ p info,
    a ← getS;
    match GetViewByHash c (GetPrevHash (block info)) with
    | None => mret tt
    | Some previousView =>
        if (currentTimeSlot a =? CalculateTimeSlot previousView (GetProposeTime (block info))) &&
           negb (IsCommitted info) && (twoThirds (lenZ (SigningCommittees info)) <? ValidVotes info)
        then
          majority ← lift (ValidateFixNodeMajority info);
          if majority : bool then ignore (commitBlock c p info);; updateInfo p set_committed else mret tt
        else mret tt
    end).

(** ** Proposing *)

(** [GetSortedReceiveBlockByHeight] sorts by produce time; proposals of the same time are in the
    order of the range. *)
Fixpoint insertByTime (i : ProposeBlockInfo) (l : list ProposeBlockInfo) : list ProposeBlockInfo :=
  match l with
  | [] => [i]
  | j :: l' => if GetProduceTime (block j) <=? GetProduceTime (block i)
               then j :: insertByTime i l' else i :: l
  end.

Definition GetSortedReceiveBlockByHeight (order : list string) (blockHeight : Z) (a : actorV3)
    : list ProposeBlockInfo :=
  foldl (λ l i, insertByTime i l) []
    (filter (λ i, GetHeight (block i) = blockHeight) (omap (λ p, receiveBlockByHash a !! p) order)).

(** The locked block, whose prevotes are counted again, or the oldest valid one. *)
Definition getBlockForPropose (order : list string) (proposeBlockHeight : Z) : M actorV3 (option Block) :=
  a ← getS;
  match getLockBlockHash order proposeBlockHeight a with
  | Some l => updateInfo (ProposeHash (block l)) validatePreVote;; mret (Some (block l))
  | None => mret (block <$> head (filter (λ i, info_IsValid i = true)
                                    (GetSortedReceiveBlockByHeight order proposeBlockHeight a)))
  end.

(** [isUserKeyProposer]: the key to propose with, the last that matches. *)
Definition isUserKeyProposer (bestViewTimeSlot : Z) (proposerPk : CommitteePublicKey) (a : actorV3)
    : option MiningKey :=
  foldl (λ acc k,
    if bool_decide (blsKey proposerPk = blsKey (GetPublicKey k)) &&
       negb (bestViewTimeSlot =? currentTimeSlot a) &&
       negb (bool_decide (currentTimeSlot a ∈ proposeHistory a))
    then Some k else acc) None (userKeySet a).

Definition AddCurrentTimeSlotProposeHistory : M actorV3 unit :=
  modifyS (λ a, set_history ({[currentTimeSlot a]} ∪ proposeHistory a)
                            ({[currentTimeSlot a]} ∪ historyDB a) a).

Definition set_FinalityHeight (b : Block) : Block :=
  mkBlock (GetHeight b) (GetPrevHash b) (GetProduceTime b) (GetProposeTime b) (GetProposer b)
    (GetVersion b) (GetHeight b) (GetInstructions b) (blockRest b).

(** A failure leaves the block without its proposer's signature: the message is sent all the
    same. *)
Definition addValidationData (userMiningKey : MiningKey) (b : Block) : option ValidationData :=
  portalSigs ← PortalSign (bridgePri userMiningKey) (GetInstructions b);
  mret (mkValidationData (default EmptyString (BriSign (bridgePri userMiningKey) (ProposeHash b)))
          EmptyString [] EmptyString [] portalSigs).

(** A new block first renews the certificate of the block it extends. *)
Definition renewPrevious (c : Chain) : M actorV3 unit :=
  let bestHash := v_hash (GetBestView c) in
  match GetBlockByHash c bestHash with
  | None => panic
  | Some previousBlock =>
      let p := ProposeHash previousBlock in
      updateInfo p validateVote;;
      a ← getS;
      match receiveBlockByHash a !! p with
      | None => mret tt
      | Some info =>
          d ← attempt (aggregate p info);
          output (Replaced bestHash p d)
      end
  end.

Definition blockToPropose (c : Chain) (order : list string) (b58Str : string) : M actorV3 (option Block) :=
  old ← getBlockForPropose order (add64 (v_height (GetBestView c)) 1);
  match old with
  | None =>
      renewPrevious c;;
      a ← getS;
      mret (CreateNewBlock c b58Str (currentTime a))
  | Some b =>
      a ← getS;
      mret (CreateNewBlockFromOldBlock c b b58Str (currentTime a))
  end.

Definition maybeProposeBlock (c : Chain) (order lockOrder : list string) : M actorV3 unit :=
  a ← getS;
  let bestView := GetBestView c in
  let proposerPk := GetProposerByTimeSlot c (currentTimeSlot a) (GetCommittee bestView) in
  match isUserKeyProposer (CalculateTimeSlot bestView (GetProposeTime (v_block bestView))) proposerPk a with
  | None => mret tt
  | Some userProposeKey =>
      AddCurrentTimeSlotProposeHistory;;
      created ← blockToPropose c order (ToBase58 proposerPk);
      match created with
      | None => fail "BlockCreationError"
      | Some b =>
          let b := set_FinalityHeight b in
          a ← getS;
          let polc := match getLockBlockHash lockOrder (GetHeight b) a with
                      | Some l => buildPOLCFromPreVote (CalculateTimeSlot bestView) l
                      | None => emptyPOLC
                      end in
          output (SendPropose (mkPropose (Some b) (addValidationData userProposeKey b) polc))
      end
  end.

(** ** The loop of the actor *)

(** The order of every range over the proposals in one tick. *)
Record Orders := mkOrders {
  o_propose : list string;
  o_polc : list string;
  o_validate : list string;
  o_validateLock : string → list string;
  o_prevote : list string;
  o_prevoteLock : string → list string;
  o_vote : list string;
  o_commit : list string;
}.

(** Validate the proposals of the slot and count their votes. *)
Definition validateInfos (c : Chain) (now : Z) (o : Orders) : M actorV3 unit :=
  forInfos (o_validate o) (λ p info,
    a ← getS;
    if CalculateTimeSlot (GetBestView c) (GetProposeTime (block info)) =? currentTimeSlot a
    then
      ignore (validateBlock c now (o_validateLock o p) p info);;
      updateInfo p validatePreVote;;
      updateInfo p validateVote
    else mret tt).

(** The times are in nanoseconds; the slot is that of the Unix second. *)
Definition onTick (c : Chain) (now : Z) (o : Orders) : M actorV3 unit :=
  if negb (IsReady c) then mret tt
  else
    a ← getS;
    let bestView := GetBestView c in
    let slot := CalculateTimeSlot bestView (now / second) in
    modifyS (set_clock (now / second) slot (v_height bestView));;
    (if currentTimeSlot a =? slot then mret tt else ignore (maybeProposeBlock c (o_propose o) (o_polc o)));;
    validateInfos c now o;;
    maybePreVoteMsg c (o_prevote o) (o_prevoteLock o);;
    maybeVoteMsg c (o_vote o);;
    maybeCommit c (o_commit o).

Inductive Event :=
  | ProposeMsg (m : BFTPropose) (lockOrder : list string)
  | VoteMsg (v : BFTVote)
  | CleanMem (order : list string)
  | Tick (o : Orders).

(** [run]: one turn of the loop of a started actor. *)
Definition run (c : Chain) (now : Z) (e : Event) : M actorV3 unit :=
  match e with
  | ProposeMsg m lockOrder => ignore (handleProposeMsg c now lockOrder m)
  | VoteMsg v =>
      if decide (Phase v = "prevote") then handlePreVoteMsg v
      else if decide (Phase v = "vote") then handleVoteMsg v
      else mret tt
  | CleanMem order => handleCleanMem c now order
  | Tick o => onTick c now o
  end.

(** ** A restart *)
Definition InitReceiveBlockByHash (a : actorV3) : gmap string ProposeBlockInfo :=
  (λ stored, let '(votes, prevotes) := GetVotesByBlockHashFromDB (ProposeHash (block stored)) (voteDB a) in
             UnmarshalJSON votes prevotes stored) <$> blockDB a.

(** [newActorV3WithValue] on the database of a node that stopped. *)
Definition newActor (c : Chain) (now : Z) (order : list string) (keys : list MiningKey) : M actorV3 unit :=
  modifyS (λ a, mkActor keys 0 0 (historyDB a) (InitReceiveBlockByHash a) 0 (voteDB a) (blockDB a)
                  (historyDB a) []);;
  handleCleanMem c now order.

End WithConfig.
