(* ===== verification/BftInvariant.v ===== *)
(** Why the voting rule is safe, and the invariant of an honest validator.

    The first part is an argument about the votes that honest validators sent.  The log lists
    the votes and prevotes of the honest nodes, the newest first, each with the node that sent
    it.  [log_ok] says what the rule of [actorV3] makes true of every entry at the time it was
    sent; agreement on a height follows from it alone.

    The second part says that what an actor knows of the proposals it keeps is true of the votes
    that were sent, and that each step keeps the log of the votes in order: a property of the
    state and of the log.  The loops of the actor are handled by [keeps], which says that a call
    leaves it true however it ends. *)
From S2P Require Import Prelude BftVote BftNode BftActor.
From Stdlib Require Import Ascii.

Local Open Scope Z_scope.

(** What is known of the run: its blocks, the slot of a propose time, the height of a block by
    its hash, the committee of every height, and the node of every honest member, by BLS key. *)
Class BftRun := {
  runBlocks : Block → Prop;
  slotOf : Z → Z;
  heightOf : string → Z;
  committeeAt : Z → list CommitteePublicKey;
  host : string → option nat;
}.

Definition Log := list (nat * BFTVote).

Section WithRun.
Context {cfg : BftConfig} {crypto : BftCrypto} {bftrun : BftRun}.

Definition blockSlot (b : Block) : Z := slotOf (GetProposeTime b).
Definition membersAt (h : Z) : list string := blsKey <$> committeeAt h.
Definition byzantineAt (h : Z) : list string := filter (λ k, host k = None) (membersAt h).

(** Hash functions do not collide on the blocks of the run, whose heights are below the height
    of the detector, as in the configuration of the main network; a propose hash is 64
    hexadecimal digits.  Slots grow with time.  The committee has different, non-empty keys. *)
Class GoodRun : Prop := {
  propose_inj b b' : runBlocks b → runBlocks b' → ProposeHash b = ProposeHash b' → b = b';
  hash_height b b' : runBlocks b → runBlocks b' → BlockHashOf b = BlockHashOf b' → GetHeight b = GetHeight b';
  propose_len b : runBlocks b → String.length (ProposeHash b) = 64%nat;
  propose_hex b : runBlocks b → String.get 0 (ProposeHash b) ≠ Some "p"%char;
  slot_mono t t' : t ≤ t' → slotOf t ≤ slotOf t';
  height_legacy b : runBlocks b → 0 ≤ GetHeight b < ByzantineDetectorHeight;
  members_nodup h : NoDup (membersAt h);
  members_named h : EmptyString ∉ membersAt h;
}.

Definition signedFor (L : Log) (i : nat) (b : Block) : Prop :=
  ∃ v, (i, v) ∈ L ∧ BlockHash v = ProposeHash b.

Definition votedFor (L : Log) (i : nat) (b : Block) : Prop :=
  ∃ v, (i, v) ∈ L ∧ Phase v = "vote" ∧ BlockHash v = ProposeHash b.

(** More than two thirds of the committee, the honest ones among whom did [P]. *)
Definition quorum (b : Block) (P : nat → Prop) : Prop :=
  ∃ Q : gset string, (∀ k, k ∈ Q → k ∈ membersAt (GetHeight b)) ∧
    twoThirds (lenZ (committeeAt (GetHeight b))) < Z.of_nat (size Q) ∧
    ∀ k i, k ∈ Q → host k = Some i → P i.

Definition prevoteQuorum (L : Log) (b : Block) : Prop := quorum b (λ i, signedFor L i b).
Definition voteQuorum (L : Log) (b : Block) : Prop := quorum b (λ i, votedFor L i b).

(** Node [i] may sign for [b]: for every earlier block of the height it voted for, two thirds
    signed for [b]'s content in that slot or later. *)
Definition justified (L : Log) (i : nat) (b : Block) : Prop :=
  ∀ b1, runBlocks b1 → votedFor L i b1 → GetHeight b1 = GetHeight b → blockSlot b1 < blockSlot b →
  ∃ b2, runBlocks b2 ∧ prevoteQuorum L b2 ∧ BlockHashOf b2 = BlockHashOf b ∧ blockSlot b1 ≤ blockSlot b2.

Definition entry_ok (L : Log) (i : nat) (v : BFTVote) : Prop :=
  ∃ b, runBlocks b ∧ BlockHash v = ProposeHash b ∧ BlockHeight v < ByzantineDetectorHeight ∧
    (Phase v = "vote" → prevoteQuorum L b) ∧ justified L i b ∧
    ∀ v1 b1, (i, v1) ∈ L → runBlocks b1 → BlockHash v1 = ProposeHash b1 → blockSlot b1 ≤ blockSlot b.

Inductive log_ok : Log → Prop :=
  | log_nil : log_ok []
  | log_cons L i v : log_ok L → entry_ok L i v → log_ok ((i, v) :: L).

(** The honest validators sign for one content per slot and height: its proposer proposes once. *)
Definition one_per_slot (L : Log) : Prop :=
  ∀ i i' b b', runBlocks b → runBlocks b' → signedFor L i b → signedFor L i' b' →
  GetHeight b = GetHeight b' → blockSlot b = blockSlot b' → BlockHashOf b = BlockHashOf b'.

Context {good : GoodRun}.

Lemma quorum_mono b (P P' : nat → Prop) : (∀ i, P i → P' i) → quorum b P → quorum b P'.
Proof. intros HP (Q & Hin & Hn & Hall). exists Q. naive_solver. Qed.

Lemma signedFor_app l L i b : signedFor L i b → signedFor (l ++ L) i b.
Proof. intros (v & Hv & Hb). exists v. rewrite elem_of_app. eauto. Qed.

Lemma prevoteQuorum_app l L b : prevoteQuorum L b → prevoteQuorum (l ++ L) b.
Proof. apply quorum_mono. intros i. apply signedFor_app. Qed.

Lemma votedFor_signed L i b : votedFor L i b → signedFor L i b.
Proof. intros (v & ? & ? & ?). by exists v. Qed.

Lemma size_members h : Z.of_nat (size (list_to_set (membersAt h) : gset string)) = lenZ (committeeAt h).
Proof. rewrite size_list_to_set by apply members_nodup. unfold membersAt, lenZ. by rewrite length_fmap. Qed.

(** Two quorums of a height have an honest member in common. *)
Lemma quorum_meet b b' P P' : GetHeight b = GetHeight b' →
  3 * lenZ (byzantineAt (GetHeight b)) < lenZ (committeeAt (GetHeight b)) →
  quorum b P → quorum b' P' → ∃ i, P i ∧ P' i.
Proof.
  intros Hh Hbyz (Q & HQ & HQn & HP) (Q' & HQ' & HQn' & HP'). rewrite <- Hh in HQ', HQn'.
  set (C := list_to_set (membersAt (GetHeight b)) : gset string).
  set (B := list_to_set (byzantineAt (GetHeight b)) : gset string).
  assert (size (Q ∪ Q') ≤ size C)%nat as Hu.
  { apply subseteq_size. intros k. subst C. rewrite elem_of_union, elem_of_list_to_set. naive_solver. }
  pose proof (size_members (GetHeight b)) as HC. fold C in HC.
  assert (size B ≤ List.length (byzantineAt (GetHeight b)))%nat as HB.
  { subst B. generalize (byzantineAt (GetHeight b)). intros l. induction l as [|k l IH]; [done|].
    cbn. rewrite size_union_alt, size_singleton.
    pose proof (subseteq_size (list_to_set l ∖ {[k]}) (list_to_set l : gset string)). set_solver by lia. }
  pose proof (size_union_alt Q Q') as Ha.
  pose proof (size_difference_alt Q' Q) as Hd.
  assert (¬ Q ∩ Q' ⊆ B) as Hn.
  { intros Hs. apply subseteq_size in Hs. rewrite (intersection_comm_L Q) in Hs.
    unfold twoThirds, lenZ in *. rewrite !Z.quot_div_nonneg in HQn, HQn' by lia.
    pose proof (div_spec (2 * Z.of_nat (List.length (committeeAt (GetHeight b)))) 3).
    pose proof (subseteq_size (Q' ∩ Q) Q'). assert (Q' ∩ Q ⊆ Q') by set_solver. lia. }
  assert (∃ k, k ∈ Q ∧ k ∈ Q' ∧ k ∉ B) as (k & Hk & Hk' & HkB).
  { destruct (set_choose_or_empty ((Q ∩ Q') ∖ B)) as [[k Hk]|He]; [set_solver|]. destruct Hn.
    intros k Hk. destruct (decide (k ∈ B)); [done|]. set_solver. }
  destruct (host k) as [i|] eqn:E.
  - exists i. eauto.
  - destruct HkB. subst B. apply elem_of_list_to_set, list_elem_of_filter. auto.
Qed.

Lemma log_ok_suffix l L : log_ok (l ++ L) → log_ok L.
Proof. induction l as [|[i v] l IH]; [done|]. cbn. inversion 1; subst; auto. Qed.

Lemma log_entry l i v L : log_ok (l ++ (i, v) :: L) → entry_ok L i v.
Proof. intros H%log_ok_suffix. by inversion H. Qed.

(** A node signs in the order of the slots. *)
Lemma signed_order l i v L v1 b b1 : log_ok (l ++ (i, v) :: L) → runBlocks b → runBlocks b1 →
  BlockHash v = ProposeHash b → (i, v1) ∈ L → BlockHash v1 = ProposeHash b1 → blockSlot b1 ≤ blockSlot b.
Proof.
  intros (b' & Hb' & Hv & _ & _ & _ & Hs)%log_entry Hb Hb1 Hvb Hin Hv1.
  rewrite <- (propose_inj b' b) by congruence. eauto.
Qed.

(** A quorum for a block of the slot of [b1] or later, when two thirds voted for [b1], has the
    content of [b1]: by induction on the time at which the quorum was complete. *)
Lemma prevoteQuorum_content l L b1 b : log_ok (l ++ L) → one_per_slot (l ++ L) →
  3 * lenZ (byzantineAt (GetHeight b1)) < lenZ (committeeAt (GetHeight b1)) →
  runBlocks b1 → voteQuorum (l ++ L) b1 → runBlocks b → prevoteQuorum L b →
  GetHeight b1 = GetHeight b → blockSlot b1 ≤ blockSlot b → BlockHashOf b = BlockHashOf b1.
Proof.
  intros Hok Hone Hbyz Hb1 Hq. remember (List.length L) as n eqn:En. revert l L b Hok Hone Hq En.
  induction n as [n IH] using lt_wf_ind. intros l L b Hok Hone Hq En Hb Hp Hh Hs.
  destruct (quorum_meet b1 b _ _ Hh Hbyz Hq Hp) as (i & Hv & Hsg).
  destruct (decide (blockSlot b1 = blockSlot b)) as [Heq|Hne].
  { symmetry. apply (Hone i i); auto using votedFor_signed, signedFor_app. }
  destruct Hsg as (v & Hin & Hvb). apply list_elem_of_split in Hin as (l2 & l1 & ->).
  rewrite app_assoc in Hok, Hone, Hq, Hv.
  destruct Hv as (v1 & Hin1 & Hph1 & Hvb1).
  apply elem_of_app in Hin1 as [Hin1|[Hin1|Hin1]%elem_of_cons].
  - apply list_elem_of_split in Hin1 as (k2 & k1 & Hk). rewrite Hk in Hok.
    rewrite <- app_assoc in Hok. cbn in Hok.
    assert (blockSlot b ≤ blockSlot b1); [|lia].
    eapply (signed_order k2 i v1 (k1 ++ (i, v) :: l1) v); try done. rewrite elem_of_app. right. by left.
  - injection Hin1 as ->. rewrite Hvb in Hvb1. apply propose_inj in Hvb1; [|done..]. by subst.
  - destruct (log_entry _ _ _ _ Hok) as (b' & Hb' & Hvb' & _ & _ & Hj & _).
    rewrite (propose_inj b' b) in Hj by congruence.
    destruct (Hj b1) as (b2 & Hb2 & Hp2 & He & Hs2); [done|by exists v1|done|lia|].
    rewrite <- He.
    apply (IH (List.length l1)) with ((l ++ l2) ++ [(i, v)]) l1; rewrite <- ?(app_assoc (l ++ l2)); try done.
    + subst n. rewrite length_app. cbn. lia.
    + rewrite Hh. symmetry. by apply hash_height.
Qed.

(** Agreement on a height, of the log alone. *)
Lemma log_agreement L b1 b2 : log_ok L → one_per_slot L →
  3 * lenZ (byzantineAt (GetHeight b1)) < lenZ (committeeAt (GetHeight b1)) →
  runBlocks b1 → runBlocks b2 → GetHeight b1 = GetHeight b2 →
  voteQuorum L b1 → voteQuorum L b2 → BlockHashOf b1 = BlockHashOf b2.
Proof.
  assert (∀ b1 b2, log_ok L → one_per_slot L →
    3 * lenZ (byzantineAt (GetHeight b1)) < lenZ (committeeAt (GetHeight b1)) →
    runBlocks b1 → runBlocks b2 → GetHeight b1 = GetHeight b2 → blockSlot b1 ≤ blockSlot b2 →
    voteQuorum L b1 → voteQuorum L b2 → BlockHashOf b2 = BlockHashOf b1) as Hle.
  { clear b1 b2. intros b1 b2 Hok Hone Hbyz Hb1 Hb2 Hh Hs Hq1 Hq2.
    destruct (quorum_meet b1 b2 _ _ Hh Hbyz Hq1 Hq2) as (i & _ & v & Hin & Hph & Hvb).
    apply list_elem_of_split in Hin as (l2 & l1 & ->).
    destruct (log_entry _ _ _ _ Hok) as (b & Hb & Hvb' & _ & Hp & _).
    rewrite (propose_inj b b2) in Hp by congruence.
    eapply (prevoteQuorum_content (l2 ++ [(i, v)]) l1); rewrite <- ?(app_assoc l2); by auto. }
  intros Hok Hone Hbyz Hb1 Hb2 Hh Hq1 Hq2. destruct (Z.le_ge_cases (blockSlot b1) (blockSlot b2)).
  - symmetry. by apply Hle.
  - apply Hle; by rewrite <- ?Hh.
Qed.

End WithRun.

(** ** Calls that keep a property of the state *)
Definition keeps {S A} (P : S → Prop) (m : M S A) : Prop := ∀ s, P s → P (m s).2.

Lemma keeps_ret {S A} (P : S → Prop) (x : A) : keeps P (mret x).
Proof. by intros s. Qed.

Lemma keeps_fail {S A} (P : S → Prop) e : keeps P (fail e : M S A).
Proof. by intros s. Qed.

Lemma keeps_panic {S A} (P : S → Prop) : keeps P (panic : M S A).
Proof. by intros s. Qed.

Lemma keeps_lift {S A} (P : S → Prop) (x : outcome A) : keeps P (lift x).
Proof. by intros s. Qed.

Lemma keeps_getS {S} (P : S → Prop) : keeps P getS.
Proof. by intros s. Qed.

Lemma keeps_andThen {S A B} (P : S → Prop) (m : M S A) (f : A → M S B) :
  keeps P m → (∀ x, keeps P (f x)) → keeps P (m ≫= f).
Proof.
  intros Hm Hf s Hs. unfold mbind, M_bind. specialize (Hm s Hs).
  destruct (m s) as [[]]; [by apply Hf|done..].
Qed.

(** The state is read first. *)
Lemma keeps_read {S A} (P : S → Prop) (f : S → M S A) : (∀ s, P s → P (f s s).2) → keeps P (getS ≫= f).
Proof. intros Hf s Hs. rewrite getS_bind. by apply Hf. Qed.

Lemma keeps_modify {S} (P : S → Prop) (f : S → S) : (∀ s, P s → P (f s)) → keeps P (modifyS f).
Proof. intros Hf s Hs. by apply Hf. Qed.

Lemma keeps_attempt {A} (P : actorV3 → Prop) (m : M actorV3 A) : keeps P m → keeps P (attempt m).
Proof. intros Hm s Hs. specialize (Hm s Hs). unfold attempt. by destruct (m s) as [[]]. Qed.

Lemma keeps_ignore {A} (P : actorV3 → Prop) (m : M actorV3 A) : keeps P m → keeps P (ignore m).
Proof. intros Hm. apply keeps_andThen; [by apply keeps_attempt|]. intros _. apply keeps_ret. Qed.

Lemma keeps_forInfos (P : actorV3 → Prop) order f :
  (∀ p info a, P a → receiveBlockByHash a !! p = Some info → P (f p info a).2) → keeps P (forInfos order f).
Proof.
  intros Hf. induction order as [|p order IH]; [apply keeps_ret|]. apply keeps_read. intros a Ha.
  destruct (receiveBlockByHash a !! p) as [info|] eqn:E; [|by apply IH].
  unfold mbind, M_bind. specialize (Hf p info a Ha E). destruct (f p info a) as [[]]; [by apply IH|done..].
Qed.

Lemma keeps_forEach (P : actorV3 → Prop) order f :
  (∀ p info, keeps P (f p info)) → keeps P (forInfos order f).
Proof. intros Hf. apply keeps_forInfos. intros p info a Ha _. by apply Hf. Qed.

Lemma keeps_forKeys (P : actorV3 → Prop) keys f :
  (∀ k, keeps P (f k)) → keeps P (forKeys keys f).
Proof.
  intros Hf. induction keys as [|k keys IH]; [apply keeps_ret|]. apply keeps_andThen; [done|by intros _].
Qed.

(** A call from a given state, with what holds in between. *)
Lemma bind_holds {S A B} (P Q : S → Prop) (m : M S A) (f : A → M S B) s :
  Q (m s).2 → (∀ s', Q s' → P s') → (∀ x s', Q s' → P (f x s').2) → P ((m ≫= f) s).2.
Proof. intros Hm HQ Hf. unfold mbind, M_bind. destruct (m s) as [[]]; [by apply Hf|by apply HQ..]. Qed.

Lemma ignore_state {A} (m : M actorV3 A) a : (ignore m a).2 = (m a).2.
Proof. unfold ignore, attempt, mbind, M_bind. by destruct (m a) as [[]]. Qed.

Ltac keeps :=
  repeat match goal with
    | |- keeps _ (ignore _) => apply keeps_ignore
    | |- keeps _ (attempt _) => apply keeps_attempt
    | |- keeps _ (_ ≫= _) => apply keeps_andThen; [|intros ?]
    | |- keeps _ (mret _) => apply keeps_ret
    | |- keeps _ (fail _) => apply keeps_fail
    | |- keeps _ panic => apply keeps_panic
    | |- keeps _ getS => apply keeps_getS
    | |- keeps _ (lift _) => apply keeps_lift
    | |- keeps _ (match ?x with _ => _ end) => destruct x
    end.

(** ** Locks *)
Section Locks.
Context {crypto : BftCrypto}.

Definition lockAt (h : Z) (i : ProposeBlockInfo) : bool := (GetHeight (block i) =? h) && IsVoted i.

(** The lock is a voted proposal of the height, and none has a later propose time. *)
Lemma getLockBlockHash_spec order h a :
  match getLockBlockHash order h a with
  | None => ∀ p i, p ∈ order → receiveBlockByHash a !! p = Some i → lockAt h i = false
  | Some l => (∃ q, receiveBlockByHash a !! q = Some l) ∧ lockAt h l = true ∧
      ∀ p i, p ∈ order → receiveBlockByHash a !! p = Some i → lockAt h i = true →
        GetProposeTime (block i) ≤ GetProposeTime (block l)
  end.
Proof.
  unfold getLockBlockHash. induction order as [|p order IH] using rev_ind.
  { intros p i Hp. by apply not_elem_of_nil in Hp. }
  rewrite foldl_app. cbn [foldl]. set (acc := foldl _ None order) in *. clearbody acc.
  assert (∀ q, q ∈ order ++ [p] → q ∈ order ∨ q = p) as Hin.
  { intros q. rewrite elem_of_app, list_elem_of_singleton. done. }
  destruct (receiveBlockByHash a !! p) as [j|] eqn:E.
  2: { destruct acc as [l|]; [destruct IH as (Hl & Ha & Hall); split_and!; [done..|]|];
       intros q i [Hq| ->]%Hin Hi; [by eauto|congruence|by eauto|congruence]. }
  change ((GetHeight (block j) =? h) && IsVoted j) with (lockAt h j).
  destruct (lockAt h j) eqn:Ej.
  - destruct acc as [l|].
    + destruct IH as (Hl & Ha & Hall). destruct (Z.ltb_spec (GetProposeTime (block l)) (GetProposeTime (block j))).
      * split_and!; [by exists p|done|]. intros q i [Hq| ->]%Hin Hi Hv; [|by simplify_eq].
        specialize (Hall q i Hq Hi Hv). lia.
      * split_and!; [done..|]. intros q i [Hq| ->]%Hin Hi Hv; [by eapply Hall|by simplify_eq].
    + split_and!; [by exists p|done|]. intros q i [Hq| ->]%Hin Hi Hv; [|by simplify_eq].
      by rewrite (IH q i) in Hv.
  - destruct acc as [l|]; [destruct IH as (Hl & Ha & Hall); split_and!; [done..|]|];
      intros q i [Hq| ->]%Hin Hi; [by eauto|congruence|by eauto|congruence].
Qed.
End Locks.

(** ** Strings of votes *)
Lemma app_prefix_inj (s1 s2 t1 t2 : string) :
  s1 +:+ t1 = s2 +:+ t2 → String.length s1 = String.length s2 → s1 = s2.
Proof.
  revert s2. induction s1 as [|x s1 IH]; intros [|y s2] Heq Hlen; try done.
  cbn in *. injection Heq as -> Heq. injection Hlen as Hlen. f_equal. by apply IH.
Qed.

Lemma get_app (s t : string) : s ≠ EmptyString → String.get 0 (s +:+ t) = String.get 0 s.
Proof. by destruct s. Qed.

Section Invariant.
Context {cfg : BftConfig} {crypto : BftCrypto} {bftrun : BftRun}.

(** A confirmation that verifies under the key of an honest member was sent by that member's
    node: it signed the same data. *)
Definition unforged (L : Log) (v : BFTVote) : Prop :=
  ∀ h m i, m ∈ committeeAt h → host (blsKey m) = Some i → validateVoteOwner v (bridgeKey m) = true →
  ∃ v', (i, v') ∈ L ∧ voteData v' = voteData v.

Definition prevote_ok (L : Log) (p : string) (signers : list CommitteePublicKey) (k : string) (v : BFTVote) : Prop :=
  Validator v = k ∧ BlockHash v = p ∧ Phase v = "prevote" ∧ unforged L v ∧
  (IsValid v = 1 → ∃ m, m ∈ signers ∧ blsKey m = k ∧ validateVoteOwner v (bridgeKey m) = true).

(** A proposal that node [i] keeps, when its last slot was [T]. *)
Record info_ok (i : nat) (L : Log) (T : Z) (p : string) (info : ProposeBlockInfo) : Prop := {
  io_block : runBlocks (block info);
  io_key : ProposeHash (block info) = p;
  io_committee : SigningCommittees info = committeeAt (GetHeight (block info));
  io_prevotes k v : PreVotes info !! k = Some v → prevote_ok L p (SigningCommittees info) k v;
  io_count : ValidPreVotes info ≤ countStatus 1 (PreVotes info);
  io_valid : info_IsValid info = true → GetHeight (block info) = heightOf (GetPrevHash (block info)) + 1;
  io_voted : IsVoted info = true →
    IsPreVoted info = true ∧ twoThirds (lenZ (SigningCommittees info)) < ValidPreVotes info;
  io_prevoted : IsPreVoted info = true → blockSlot (block info) ≤ T ∧ justified L i (block info);
}.

(** A vote in the database. *)
Definition stored_ok (L : Log) (h k : string) (v : BFTVote) : Prop :=
  Validator v = k ∧ BlockHash v = h ∧ IsValid v = 0 ∧ (Phase v = "prevote" ∨ Phase v = "vote") ∧ unforged L v.

(** The proof of lock change that was accepted: a quorum for the same content, no older than the
    locks of the node that are older than the proposal. *)
Definition polc_ok (L : Log) (infos : gmap string ProposeBlockInfo) (info : ProposeBlockInfo) : Prop :=
  ∃ b2, runBlocks b2 ∧ prevoteQuorum L b2 ∧ BlockHashOf b2 = BlockHashOf (block info) ∧
    ∀ q l, infos !! q = Some l → IsVoted l = true → GetHeight (block l) = GetHeight (block info) →
      blockSlot (block l) < blockSlot (block info) → blockSlot (block l) ≤ blockSlot b2.

(** The state of node [i] against the log: below [floor] the proposals may be gone. *)
Record node_ok (i : nat) (L : Log) (floor : Z) (a : actorV3) : Prop := {
  no_infos p info : receiveBlockByHash a !! p = Some info → info_ok i L (currentTimeSlot a) p info;
  no_db h k v : voteDB a !! (h, k) = Some v → stored_ok L h k v;
  no_slots v b : (i, v) ∈ L → runBlocks b → BlockHash v = ProposeHash b → blockSlot b ≤ currentTimeSlot a;
  no_locks v b : (i, v) ∈ L → Phase v = "vote" → runBlocks b → BlockHash v = ProposeHash b →
    floor < GetHeight b → ∃ info, receiveBlockByHash a !! ProposeHash b = Some info ∧ IsVoted info = true;
  no_polc p info : receiveBlockByHash a !! p = Some info → ValidPOLC info = true →
    polc_ok L (receiveBlockByHash a) info;
}.

(** The log with what the node sent since. *)
Definition sentVotes (i : nat) (a : actorV3) : Log :=
  omap (λ o, match o with SendVote v => Some (i, v) | _ => None end) (sent a).
Definition logOf (i : nat) (L0 : Log) (a : actorV3) : Log := sentVotes i a ++ L0.

Definition node_inv (i : nat) (L0 : Log) (floor : Z) (a : actorV3) : Prop :=
  log_ok (logOf i L0 a) ∧ node_ok i (logOf i L0 a) floor a.

(** No proposal is for a later slot. *)
Definition timely (a : actorV3) : Prop :=
  ∀ p info, receiveBlockByHash a !! p = Some info → blockSlot (block info) ≤ currentTimeSlot a.

Context {good : GoodRun}.

(** *** Signatures *)
Lemma unforged_signed L v m i b h : log_ok L → unforged L v → runBlocks b → BlockHash v = ProposeHash b →
  Phase v = "prevote" ∨ BlockHeight v < ByzantineDetectorHeight →
  m ∈ committeeAt h → host (blsKey m) = Some i → validateVoteOwner v (bridgeKey m) = true → signedFor L i b.
Proof.
  intros HL Hu Hb Hvb Hph Hm Hi Hval. destruct (Hu h m i Hm Hi Hval) as (v' & Hin & Hd).
  exists v'. split; [done|]. apply list_elem_of_split in Hin as (l2 & l1 & ->).
  destruct (log_entry _ _ _ _ HL) as (b' & Hb' & Hvb' & Hleg & _).
  unfold voteData in Hd. rewrite (proj2 (Z.ltb_lt _ _) Hleg), Hvb', Hvb in Hd.
  destruct (Z.ltb_spec (BlockHeight v) ByzantineDetectorHeight) as [?|Hge].
  - apply app_prefix_inj in Hd; [congruence|]. by rewrite !propose_len.
  - destruct Hph as [Hph|?]; [|lia]. apply (f_equal (String.get 0)) in Hd. rewrite Hph in Hd.
    exfalso. apply (propose_hex b'); [done|]. rewrite get_app in Hd; [done|].
    intros He. pose proof (propose_len b' Hb') as Hlen. by rewrite He in Hlen.
Qed.

Lemma committee_bound b info : SigningCommittees info = committeeAt (GetHeight b) →
  ∀ m, m ∈ SigningCommittees info → blsKey m ∈ membersAt (GetHeight b).
Proof. intros -> m Hm. apply list_elem_of_fmap. eauto. Qed.

(** Enough checked prevotes are a quorum. *)
Lemma counted_quorum i L T p info : log_ok L → info_ok i L T p info →
  twoThirds (lenZ (SigningCommittees info)) < ValidPreVotes info → prevoteQuorum L (block info).
Proof.
  intros HL Hi Hn. pose proof (io_count _ _ _ _ _ Hi) as Hc. unfold countStatus in Hc.
  set (m := filter (λ kv, IsValid kv.2 = 1) (PreVotes info)) in *.
  assert (∀ k v, m !! k = Some v → PreVotes info !! k = Some v ∧ IsValid v = 1) as Hm.
  { intros k v. subst m. by rewrite map_lookup_filter_Some. }
  exists (dom m). rewrite <- (io_committee _ _ _ _ _ Hi), size_dom. split_and!.
  - intros k (v & Hk)%elem_of_dom. destruct (Hm k v Hk) as [Hp Hv].
    destruct (io_prevotes _ _ _ _ _ Hi k v Hp) as (_ & _ & _ & _ & Hx).
    destruct (Hx Hv) as (x & Hin & <- & _). by eapply committee_bound; [apply Hi|].
  - lia.
  - intros k j (v & Hk)%elem_of_dom Hj. destruct (Hm k v Hk) as [Hp Hv].
    destruct (io_prevotes _ _ _ _ _ Hi k v Hp) as (_ & Hb & Hph & Hu & Hx).
    destruct (Hx Hv) as (x & Hin & <- & Hval). rewrite (io_committee _ _ _ _ _ Hi) in Hin.
    eapply unforged_signed; [done|done|apply Hi| |by left|done|done|done].
    by rewrite Hb, (io_key _ _ _ _ _ Hi).
Qed.

(** *** Growth of the log *)

(** What node [i] adds is not older than its slot. *)
Definition grown (i : nat) (T : Z) (L L' : Log) : Prop := ∃ l, L' = l ++ L ∧
  ∀ v b, (i, v) ∈ l → runBlocks b → BlockHash v = ProposeHash b → T ≤ blockSlot b.

Lemma log_grown_refl i T L : grown i T L L.
Proof. exists []. split; [done|]. intros v b Hv. by apply not_elem_of_nil in Hv. Qed.

Lemma grown_other i j T L l : i ≠ j → (∀ x, x ∈ l → x.1 = j) → grown i T L (l ++ L).
Proof. intros Hij Hl. exists l. split; [done|]. intros v b Hv. by apply Hl in Hv. Qed.

Lemma grown_signed i j T L L' b : grown i T L L' → signedFor L j b → signedFor L' j b.
Proof. intros (l & -> & _). apply signedFor_app. Qed.

Lemma grown_quorum i T L L' b : grown i T L L' → prevoteQuorum L b → prevoteQuorum L' b.
Proof. intros (l & -> & _). apply prevoteQuorum_app. Qed.

Lemma unforged_grown i T L L' v : grown i T L L' → unforged L v → unforged L' v.
Proof.
  intros (l & -> & _) Hu h m j Hm Hj Hval. destruct (Hu h m j Hm Hj Hval) as (v' & ? & ?).
  exists v'. rewrite elem_of_app. auto.
Qed.

Lemma justified_grown i T L L' b : grown i T L L' → blockSlot b ≤ T → justified L i b → justified L' i b.
Proof.
  intros Hg HT Hj b1 Hb1 (v & Hin & Hph & Hv) Hh Hs. pose proof Hg as (l & -> & Hl).
  apply elem_of_app in Hin as [Hin|Hin].
  - specialize (Hl v b1 Hin Hb1 Hv). lia.
  - destruct (Hj b1 Hb1) as (b2 & ? & ? & ? & ?); [by exists v|done..|].
    exists b2. split_and!; [done|by apply prevoteQuorum_app|done..].
Qed.

Lemma prevote_ok_grown i T L L' p C k v : grown i T L L' → prevote_ok L p C k v → prevote_ok L' p C k v.
Proof. intros Hg (? & ? & ? & Hu & ?). split_and!; eauto using unforged_grown. Qed.

Lemma info_ok_grown i L L' T T' p info : grown i T L L' → T ≤ T' → info_ok i L T p info → info_ok i L' T' p info.
Proof.
  intros Hg HT []. constructor; eauto using prevote_ok_grown.
  intros Hp. destruct (io_prevoted0 Hp). split; [lia|]. by eapply justified_grown.
Qed.

Lemma stored_ok_grown i T L L' h k v : grown i T L L' → stored_ok L h k v → stored_ok L' h k v.
Proof. intros Hg (? & ? & ? & ? & ?). split_and!; eauto using unforged_grown. Qed.

Lemma polc_ok_grown i T L L' infos info : grown i T L L' → polc_ok L infos info → polc_ok L' infos info.
Proof. intros Hg (b2 & ? & ? & ? & ?). exists b2. split_and!; eauto using grown_quorum. Qed.

(** The other nodes do not disturb a node. *)
Lemma node_ok_other i j L l floor a : i ≠ j → (∀ x, x ∈ l → x.1 = j) → node_ok i L floor a → node_ok i (l ++ L) floor a.
Proof.
  intros Hij Hl []. pose proof (grown_other i j (currentTimeSlot a) L l Hij Hl) as Hg.
  assert (∀ v, (i, v) ∈ l ++ L → (i, v) ∈ L) as Hold.
  { intros v [Hv|Hv]%elem_of_app; [by apply Hl in Hv|done]. }
  constructor; eauto using info_ok_grown, stored_ok_grown, polc_ok_grown, Z.le_refl.
Qed.

End Invariant.
