(* ===== verification/BftSteps.v ===== *)
(** Every step of an honest validator keeps its invariant: receiving a proposal, a prevote or a
    vote, cleaning, and the phases of a tick; then the events as a whole, under the conditions in
    which each of them happens. *)
From S2P Require Import Prelude BftVote BftNode BftActor BftInvariant.

Local Open Scope Z_scope.

Section Phases.
Context {cfg : BftConfig} {crypto : BftCrypto} {bftrun : BftRun} {good : GoodRun}.
Context (i : nat) (L0 : Log) (floor : Z).

Local Abbreviation inv := (node_inv i L0 floor).
Local Abbreviation log := (logOf i L0).

(** *** Assignments to one proposal *)

(** An assignment that keeps the proposal's invariant, its block, its lock and the lack of a
    proof of lock change; a new lock is not older than any proposal. *)
Record refines (a : actorV3) (p : string) (info info' : ProposeBlockInfo) : Prop := {
  rf_ok : info_ok i (log a) (currentTimeSlot a) p info → info_ok i (log a) (currentTimeSlot a) p info';
  rf_block : block info' = block info;
  rf_polc : ValidPOLC info' = true → ValidPOLC info = true;
  rf_voted : IsVoted info = true → IsVoted info' = true;
  rf_new : IsVoted info' = true → IsVoted info = true ∨
    ∀ q j, receiveBlockByHash a !! q = Some j → blockSlot (block j) ≤ blockSlot (block info);
}.

Lemma refines_inv a p f : (∀ info, receiveBlockByHash a !! p = Some info → refines a p info (f info)) →
  inv a → inv (set_receive (alter f p (receiveBlockByHash a)) a).
Proof.
  intros Hf [HL Ha]. split; [done|]. change (log (set_receive _ a)) with (log a). destruct Ha.
  assert (∀ q j', alter f p (receiveBlockByHash a) !! q = Some j' → ∃ j, receiveBlockByHash a !! q = Some j ∧
    (q = p ∧ j' = f j ∧ refines a p j (f j) ∨ q ≠ p ∧ j' = j)) as Hal.
  { intros q j'. destruct (decide (q = p)) as [-> |Hq].
    - rewrite lookup_alter_eq. intros (j & ? & Hj)%fmap_Some. exists j. split; [done|]. left. auto.
    - rewrite lookup_alter_ne by done. intros Hj. exists j'. auto. }
  constructor; cbn; try done.
  - intros q j' (j & Hj & [(-> & -> & Hr)|[? ->]])%Hal; [by apply Hr; auto|by auto].
  - intros v b Hin Hph Hb Hv Hfl. destruct (no_locks v b Hin Hph Hb Hv Hfl) as (j & Hj & Hvt).
    destruct (decide (ProposeHash b = p)) as [<- |Hq].
    + exists (f j). rewrite lookup_alter_eq, Hj. split; [done|]. by apply (Hf j Hj).
    + exists j. by rewrite lookup_alter_ne.
  - intros q j' (j & Hj & Hcase)%Hal Hpolc.
    assert (ValidPOLC j = true ∧ block j' = block j) as [Hpj Hbj].
    { destruct Hcase as [(-> & -> & Hr)|[? ->]]; [|done]. split; apply Hr; done. }
    destruct (no_polc q j Hj Hpj) as (b2 & Hb2 & Hq2 & Hh2 & Hall). exists b2. rewrite Hbj. split_and!; [done..|].
    intros q1 l' (l & Hl & Hc)%Hal Hvl Hhl Hsl.
    destruct Hc as [(-> & -> & Hr)|[? ->]]; [|by eapply Hall].
    rewrite (rf_block _ _ _ _ Hr) in *. destruct (rf_new _ _ _ _ Hr Hvl) as [Hv|Hall']; [by eapply Hall|].
    specialize (Hall' q j Hj). lia.
Qed.

(** Fields of a proposal that the invariant does not read. *)
Lemma refines_same a p info info' : block info' = block info → SigningCommittees info' = SigningCommittees info →
  PreVotes info' = PreVotes info → ValidPreVotes info' = ValidPreVotes info →
  info_IsValid info' = info_IsValid info → IsVoted info' = IsVoted info →
  IsPreVoted info' = IsPreVoted info → ValidPOLC info' = ValidPOLC info → refines a p info info'.
Proof.
  intros Hb Hs Hp Hn Hv Hvt Hpv Hpo. constructor; rewrite ?Hb, ?Hvt, ?Hpo; auto.
  intros []. constructor; rewrite ?Hb, ?Hs, ?Hp, ?Hn, ?Hv, ?Hvt, ?Hpv; auto.
Qed.

(** *** Counting *)
Lemma committeeIndex_Some signers k x : committeeIndex signers !! k = Some x →
  ∃ m, signers !! Z.to_nat x = Some m ∧ blsKey m = k.
Proof.
  unfold committeeIndex. induction signers as [|m signers IH] using rev_ind; [done|].
  rewrite length_app, seq_app, fmap_app, zip_with_app by (rewrite length_fmap, length_seq; done).
  rewrite foldl_app. cbn. intros [[<- <-]|[Hne Hx]]%lookup_insert_Some.
  - exists m. rewrite Nat2Z.id, lookup_app_r, Nat.sub_diag by lia. done.
  - destruct (IH Hx) as (m' & Hm' & ?). exists m'. split; [|done]. by apply lookup_app_l_Some.
Qed.

Lemma checkVote_ok L p signers k v : prevote_ok L p signers k v → prevote_ok L p signers k (checkVote signers v).
Proof.
  intros (Hk & Hb & Hph & Hu & Hx). unfold checkVote. destruct (IsValid v =? 0) eqn:E0; [|by split_and!].
  destruct (committeeIndex signers !! Validator v) as [x|] eqn:Ex; [cbn [mbind option_bind]|by split_and!].
  destruct (committeeIndex_Some _ _ _ Ex) as (m & Hm & Hmk). rewrite Hm.
  case_decide; [by split_and!|]. split_and!; [done..|].
  intros Hv. exists m. split_and!; [by eapply list_elem_of_lookup_2|congruence|].
  change (validateVoteOwner (set_IsValid _ v) (bridgeKey m)) with (validateVoteOwner v (bridgeKey m)).
  cbn in Hv. by destruct (validateVoteOwner v (bridgeKey m)).
Qed.

Lemma checkVote_valid signers v : IsValid v = 1 → IsValid (checkVote signers v) = 1.
Proof. intros Hv. unfold checkVote. by rewrite Hv. Qed.

Lemma countStatus_mono x (m m' : gmap string BFTVote) :
  (∀ k v, m !! k = Some v → IsValid v = x → ∃ v', m' !! k = Some v' ∧ IsValid v' = x) →
  countStatus x m ≤ countStatus x m'.
Proof.
  intros Hm. unfold countStatus. rewrite <- !size_dom. apply inj_le, subseteq_size.
  intros k. rewrite !elem_of_dom. intros [v [Hk Hv]%map_lookup_filter_Some].
  destruct (Hm k v Hk Hv) as (v' & Hk' & Hv'). exists v'. by apply map_lookup_filter_Some.
Qed.

Lemma refines_validatePreVote a p info : refines a p info (validatePreVote info).
Proof.
  unfold validatePreVote. destruct (HasNewPreVote info); [|by apply refines_same].
  constructor; cbn; auto. intros [].
  assert (countStatus 1 (PreVotes info) ≤ countStatus 1 (checkVote (SigningCommittees info) <$> PreVotes info)) as Hc.
  { apply countStatus_mono. intros k v Hk Hv. exists (checkVote (SigningCommittees info) v).
    rewrite lookup_fmap, Hk. split; [done|by apply checkVote_valid]. }
  constructor; cbn; auto; [|lia|].
  - intros k v. rewrite lookup_fmap. intros (v0 & Hv0 & ->)%fmap_Some. apply checkVote_ok. eauto.
  - intros Hv. destruct (io_voted Hv). split; [done|lia].
Qed.

Lemma refines_validateVote a p info : refines a p info (validateVote info).
Proof. unfold validateVote. destruct (HasNewVote info); by apply refines_same. Qed.

Lemma refines_add_prevote a p info v : PreVotes info !! Validator v = None → IsValid v = 0 →
  BlockHash v = p → Phase v = "prevote" → unforged (log a) v → refines a p info (add_prevote v info).
Proof.
  intros Hn H0 Hb Hph Hu. constructor; cbn; auto. intros []. constructor; cbn; auto.
  - intros k w [[<- <-]|[? Hk]]%lookup_insert_Some; [|by eauto]. split_and!; [done..|]. lia.
  - etrans; [done|]. apply countStatus_mono. intros k w Hk Hw. exists w. split; [|done].
    rewrite lookup_insert_ne; [done|]. congruence.
Qed.

(** *** Messages sent *)

(** A vote or a prevote for a block of the current slot. *)
Lemma output_inv a v b : inv a → runBlocks b → BlockHash v = ProposeHash b →
  BlockHeight v < ByzantineDetectorHeight → blockSlot b = currentTimeSlot a → justified (log a) i b →
  (Phase v = "vote" → prevoteQuorum (log a) b ∧
    ∃ info, receiveBlockByHash a !! ProposeHash b = Some info ∧ IsVoted info = true) →
  inv (set_sent (SendVote v :: sent a) a).
Proof.
  intros [HL Ha] Hb Hv Hleg Hs Hj Hvote.
  assert (log (set_sent (SendVote v :: sent a) a) = (i, v) :: log a) as Hlog by done.
  assert (grown i (currentTimeSlot a) (log a) ((i, v) :: log a)) as Hg.
  { exists [(i, v)]. split; [done|]. intros w b' [= ->]%list_elem_of_singleton Hb' Hw.
    assert (b' = b) as -> by (apply propose_inj; congruence). lia. }
  unfold node_inv. rewrite Hlog. destruct Ha. split.
  - constructor; [done|]. exists b. split_and!; [done..|naive_solver|done|].
    intros v1 b1 Hin Hb1 Hv1. rewrite Hs. eauto.
  - constructor; cbn; eauto using info_ok_grown, stored_ok_grown, polc_ok_grown, Z.le_refl.
    + intros w b' [[= ->]|Hin]%elem_of_cons Hb' Hw; [|by eauto].
      assert (b' = b) as -> by (apply propose_inj; congruence). lia.
    + intros w b' [[= ->]|Hin]%elem_of_cons Hph Hb' Hw Hf; [|by eauto].
      assert (b' = b) as -> by (apply propose_inj; congruence). by apply Hvote.
Qed.

(** What is sent that is no vote, and the parts of the state the invariant does not read. *)
Lemma same_inv a a' : receiveBlockByHash a' = receiveBlockByHash a → voteDB a' = voteDB a →
  currentTimeSlot a' = currentTimeSlot a → log a' = log a → inv a → inv a'.
Proof.
  intros Hr Hd Ht Hl [HL []]. split; [by rewrite Hl|]. rewrite Hl. constructor; rewrite ?Hr, ?Hd, ?Ht; auto.
Qed.

(** ** The phases of a tick *)

(** During a tick the clock and the set of proposals do not change. *)
Record tick_inv (T H : Z) (D : gset string) (a : actorV3) : Prop := {
  ti_inv : inv a;
  ti_timely : timely a;
  ti_slot : currentTimeSlot a = T;
  ti_height : currentBestViewHeight a = H;
  ti_dom : dom (receiveBlockByHash a) = D;
}.

(** What the node relies on of the chain: every view has the slots of the run and its own height,
    a block that passes the validation extends its previous block by one, the final view is below
    the best one and does not go back. *)
Record good_chain (c : Chain) : Prop := {
  gc_slot v : v = GetBestView c ∨ (∃ h, GetViewByHash c h = Some v) → ∀ t, CalculateTimeSlot v t = slotOf t;
  gc_height : v_height (GetBestView c) = heightOf (v_hash (GetBestView c));
  gc_presign b : ValidatePreSignBlock c b (committeeAt (GetHeight b)) = true →
    GetHeight b = heightOf (GetPrevHash b) + 1;
  gc_final : floor ≤ GetFinalViewHeight c ≤ v_height (GetBestView c);
  gc_start : 2 ≤ GetFinalViewHeight c;
  gc_u64 : in_u64 (v_height (GetBestView c) + 1);
}.

Section Tick.
Context (T : Z) (D : gset string) (c : Chain) (Hc : good_chain c).

Local Abbreviation tick := (tick_inv T (v_height (GetBestView c)) D).

Lemma same_tick a a' : receiveBlockByHash a' = receiveBlockByHash a → voteDB a' = voteDB a →
  currentTimeSlot a' = currentTimeSlot a → currentBestViewHeight a' = currentBestViewHeight a →
  log a' = log a → tick a → tick a'.
Proof.
  intros Hr Hd Ht Hh Hl []. constructor; [by eapply same_inv| |congruence..].
  unfold timely in *. by rewrite Hr, Ht.
Qed.

Lemma update_tick a p f : (∀ info, receiveBlockByHash a !! p = Some info → refines a p info (f info)) →
  tick a → tick (set_receive (alter f p (receiveBlockByHash a)) a).
Proof.
  intros Hf []. constructor; cbn; [by apply refines_inv| |done|done|by rewrite dom_alter_L].
  intros q j'. cbn. destruct (decide (q = p)) as [-> |Hq].
  - rewrite lookup_alter_eq. intros (j & Hj & ->)%fmap_Some. rewrite (rf_block _ _ _ _ (Hf j Hj)). by eapply ti_timely0.
  - rewrite lookup_alter_ne by done. apply ti_timely0.
Qed.

Lemma keeps_update p f : (∀ a info, tick a → receiveBlockByHash a !! p = Some info → refines a p info (f info)) →
  keeps tick (updateInfo p f).
Proof. intros Hf. apply keeps_modify. intros a Ha. apply update_tick; auto. Qed.

Lemma keeps_update_same p f : (∀ a info, refines a p info (f info)) → keeps tick (updateInfo p f).
Proof. intros Hf. apply keeps_update. auto. Qed.

Lemma keeps_output o : (∀ v, o ≠ SendVote v) → keeps tick (output o).
Proof.
  intros Ho. apply keeps_modify. intros a. apply same_tick; try done.
  unfold logOf, sentVotes. cbn. destruct o; [|done..]. by destruct (Ho v).
Qed.

Lemma keeps_aggregate p info : keeps tick (aggregate p info).
Proof.
  intros a Ha. unfold aggregate. destruct (createBLSAggregatedSignatures _ _ _ _) as [r votes].
  apply update_tick; [|done]. intros j _. by apply refines_same.
Qed.

Lemma keeps_insert b d previous : keeps tick (insert c b d previous).
Proof. unfold insert. keeps. by apply keeps_output. Qed.

Lemma keeps_previousData p : keeps tick (previousData p).
Proof.
  unfold previousData. keeps; auto using keeps_aggregate; apply keeps_update_same; intros a info.
  - apply refines_validateVote.
  - by apply refines_same.
Qed.

Lemma keeps_commitBlock p v : keeps tick (commitBlock c p v).
Proof.
  unfold commitBlock. keeps; auto using keeps_aggregate, keeps_insert, keeps_previousData.
  apply keeps_update_same. intros a info. by apply refines_same.
Qed.

Lemma keeps_maybeCommit order : keeps tick (maybeCommit c order).
Proof.
  apply keeps_forEach. intros p info. keeps; auto using keeps_commitBlock.
  apply keeps_update_same. intros a' j. by apply refines_same.
Qed.

Lemma keeps_maybeProposeBlock order lockOrder : keeps tick (maybeProposeBlock c order lockOrder).
Proof.
  unfold maybeProposeBlock, blockToPropose, getBlockForPropose, renewPrevious, AddCurrentTimeSlotProposeHistory.
  keeps; auto using keeps_aggregate; try by apply keeps_output.
  - apply keeps_modify. intros a. by apply same_tick.
  - apply keeps_update_same. intros a j. apply refines_validatePreVote.
  - apply keeps_update_same. intros a j. apply refines_validateVote.
Qed.

(** A proposal at its place in the store, up to the fields that the phase changes. *)
Definition stored_block (p : string) (info : ProposeBlockInfo) (a : actorV3) : Prop :=
  ∃ j, receiveBlockByHash a !! p = Some j ∧ block j = block info.

Lemma tick_info a p info : tick a → receiveBlockByHash a !! p = Some info → info_ok i (log a) T p info.
Proof. intros [[_ []] ? <-]. auto. Qed.

Lemma validateBlock_tick now lockOrder p info a : tick a → receiveBlockByHash a !! p = Some info →
  tick (validateBlock c now lockOrder p info a).2.
Proof.
  intros Ha Hp. unfold validateBlock. destruct (info_IsValid info); [done|].
  destruct (from_option _ _ _); [done|]. rewrite getS_bind.
  destruct (negb _); [done|]. destruct (_ && _); [done|].
  apply (bind_holds tick (λ a, tick a ∧ stored_block p info a)); [|by intros a1 [? _]|].
  - split; [apply update_tick; [|done]; intros j' _; by apply refines_same|].
    exists (set_LastValidateTime now info). cbn. by rewrite lookup_alter_eq, Hp.
  - intros _ a1 [Ht (j & Hj & Hb)]. destruct (ValidatePreSignBlock _ _ _) eqn:Hv; [|done].
    apply update_tick; [|done]. intros j' Hj'. simplify_eq. constructor; cbn; auto.
    intros []. constructor; cbn; auto. intros _. rewrite Hb.
    destruct (tick_info _ _ _ Ha Hp). apply (gc_presign _ Hc). congruence.
Qed.

Lemma keeps_validateInfos now o : keeps tick (validateInfos c now o).
Proof.
  apply keeps_forInfos. intros p info a Ha Hp. rewrite getS_bind. destruct (_ =? _); [|done].
  apply (bind_holds tick tick); [|done|].
  - rewrite ignore_state. by apply validateBlock_tick.
  - intros _ a1 Ha1. revert a1 Ha1. change (keeps tick (updateInfo p validatePreVote;; updateInfo p validateVote)).
    keeps; apply keeps_update_same; intros; [apply refines_validatePreVote|apply refines_validateVote].
Qed.

(** *** Prevote *)

(** The slot of a block that extends the best view. *)
Lemma best_slot b : CalculateTimeSlot (GetBestView c) (GetProposeTime b) = blockSlot b.
Proof. apply (gc_slot _ Hc). by left. Qed.

(** The node may sign for a block that [shouldPrevote] accepts. *)
Lemma shouldPrevote_justified lockOrder a p info : tick a → (∀ q, q ∈ D → q ∈ lockOrder) →
  receiveBlockByHash a !! p = Some info → shouldPrevote c lockOrder a info = true →
  blockSlot (block info) = T ∧ justified (log a) i (block info).
Proof.
  intros Ha Hord Hp. unfold shouldPrevote. case_bool_decide as Hprev; [|done].
  destruct (info_IsValid info) eqn:Hval; [|done]. destruct (IsPreVoted info); [done|].
  rewrite best_slot. destruct (Z.eqb_spec (currentTimeSlot a) (blockSlot (block info))) as [Hslot|]; [|done].
  cbn [negb]. intros Hwhy. pose proof (tick_info _ _ _ Ha Hp) as Hi. destruct Ha as [[HL []] Htm <- Hhgt Hdom].
  split; [done|]. intros b1 Hb1 (v & Hin & Hph & Hv) Hh Hs.
  assert (GetHeight (block info) = v_height (GetBestView c) + 1) as Hhi.
  { rewrite (io_valid _ _ _ _ _ Hi Hval), Hprev, (gc_height _ Hc). done. }
  pose proof (gc_final _ Hc) as Hfin. pose proof (gc_u64 _ Hc) as Hu.
  destruct (no_locks v b1 Hin Hph Hb1 Hv) as (l1 & Hl1 & Hvt1); [lia|].
  pose proof (no_infos _ _ Hl1) as Hi1.
  assert (block l1 = b1) as Hbl by (apply propose_inj; [apply Hi1|done|apply Hi1]).
  destruct (ValidPOLC info) eqn:Hpolc.
  - destruct (no_polc p info Hp Hpolc) as (b2 & ? & ? & ? & Hall). exists b2. split_and!; [done..|].
    rewrite <- Hbl. by eapply Hall; rewrite ?Hbl.
  - rewrite Hhgt in Hwhy. unfold add64 in Hwhy. rewrite u64_small in Hwhy by done. cbn in Hwhy.
    pose proof (getLockBlockHash_spec lockOrder (v_height (GetBestView c) + 1) a) as Hlock.
    assert (lockAt (v_height (GetBestView c) + 1) l1 = true) as Hl1v.
    { unfold lockAt. rewrite Hvt1, Hbl. by destruct (Z.eqb_spec (GetHeight b1) (v_height (GetBestView c) + 1)); [|lia]. }
    assert (ProposeHash b1 ∈ lockOrder) as Hcov by (apply Hord; rewrite <- Hdom; by apply elem_of_dom).
    destruct (getLockBlockHash _ _ _) as [l|]; [|by rewrite (Hlock _ _ Hcov Hl1) in Hl1v].
    destruct Hlock as ((q & Hq) & Hlv & Hmax). specialize (Hmax _ _ Hcov Hl1 Hl1v).
    apply andb_true_iff in Hlv as [_ Hlv]. pose proof (no_infos q l Hq) as Hil.
    exists (block l). split_and!; [apply Hil| |by apply bool_decide_eq_true in Hwhy|].
    + eapply counted_quorum; [done|exact Hil|]. by apply Hil.
    + rewrite <- Hbl. by apply slot_mono.
Qed.

Lemma signVote_Some key s v : signVote key s = Some v → ∃ sig, v = set_Confirmation sig s.
Proof. unfold signVote. intros (sig & _ & [= <-])%bind_Some. by exists sig. Qed.

Lemma CreatePreVote_Some slot k b v : CreatePreVote slot k b = Some v →
  BlockHash v = ProposeHash b ∧ Phase v = "prevote" ∧ BlockHeight v = 0.
Proof. intros (sig & ->)%signVote_Some. done. Qed.

Lemma CreateVote_Some slot k b signers v : CreateVote slot k b signers = Some v →
  BlockHash v = ProposeHash b ∧ Phase v = "vote" ∧ BlockHeight v = GetHeight b.
Proof.
  unfold CreateVote. intros (bls & _ & Hv)%bind_Some. apply bind_Some in Hv as (bri & _ & Hv).
  apply bind_Some in Hv as (por & _ & (sig & ->)%signVote_Some). done.
Qed.

(** Between the messages of one block: the block is justified, of this slot, and stored. *)
Record signing (p : string) (info : ProposeBlockInfo) (a : actorV3) : Prop := {
  sg_tick : tick a;
  sg_stored : stored_block p info a;
  sg_slot : blockSlot (block info) = T;
  sg_justified : justified (log a) i (block info);
}.

Lemma signing_output p info a v : signing p info a → BlockHash v = ProposeHash (block info) →
  BlockHeight v < ByzantineDetectorHeight →
  (Phase v = "vote" → prevoteQuorum (log a) (block info) ∧
    ∃ j, receiveBlockByHash a !! p = Some j ∧ IsVoted j = true) →
  signing p info (set_sent (SendVote v :: sent a) a).
Proof.
  intros [Ha Hst Hs Hj] Hv Hleg Hvote. destruct Hst as (j & Hp & Hb).
  pose proof (tick_info _ _ _ Ha Hp) as Hi. rewrite <- Hb in *. rewrite (io_key _ _ _ _ _ Hi) in Hv.
  constructor; [|by exists j|by rewrite <- Hb|].
  - destruct Ha. constructor; try done. apply output_inv with (block j); try done.
    + apply Hi.
    + by rewrite (io_key _ _ _ _ _ Hi).
    + congruence.
    + by rewrite (io_key _ _ _ _ _ Hi).
  - rewrite <- Hb. apply (justified_grown i T (log a)); [|lia|done]. exists [(i, v)]. split; [done|].
    intros w b' [= ->]%list_elem_of_singleton Hb' Hw. rewrite (propose_inj b' (block j)); [lia|done|apply Hi|].
    by rewrite <- Hw, Hv, (io_key _ _ _ _ _ Hi).
Qed.

Lemma signing_preVotes p info : keeps (signing p info) (sendPreVotes c info).
Proof.
  apply keeps_forKeys. intros k. unfold createAndSendPreVote.
  destruct (GetViewByHash _ _) as [view|]; [|by keeps].
  destruct (CreatePreVote _ _ _) as [v|] eqn:Hv; [|by keeps].
  apply CreatePreVote_Some in Hv as (Hb & Hph & Hz). apply keeps_modify. intros a Ha.
  apply signing_output; [done..| |by rewrite Hph]. rewrite Hz.
  destruct Ha as [Ht (j & Hp & _) _ _]. destruct (tick_info _ _ _ Ht Hp) as [Hbl _ _ _ _ _ _ _].
  pose proof (height_legacy _ Hbl). lia.
Qed.

Lemma keeps_maybePreVoteMsg order lockOrder : (∀ p q, q ∈ D → q ∈ lockOrder p) →
  keeps tick (maybePreVoteMsg c order lockOrder).
Proof.
  intros Hord. apply keeps_forInfos. intros p info a Ha Hp. rewrite getS_bind.
  destruct (shouldPrevote _ _ _ _) eqn:Hs; [|done].
  destruct (shouldPrevote_justified _ _ _ _ Ha (Hord p) Hp Hs) as [HT Hj].
  apply (bind_holds tick (signing p info)); [|by intros a1 []|].
  - rewrite ignore_state. apply signing_preVotes. constructor; [done|by exists info|done..].
  - intros _ a1 [Ht (j & Hj1 & Hb) _ Hj2]. apply update_tick; [|done]. intros j' Hj'.
    rewrite Hj1 in Hj'. injection Hj' as <-.
    constructor; cbn; auto. intros []. constructor; cbn; auto.
    + intros Hv. split; [done|]. by apply io_voted.
    + rewrite Hb. intros _. split; [|done]. by rewrite HT, (ti_slot _ _ _ _ Ht).
Qed.

(** *** Vote *)

(** The vote of a proposal that [shouldVote] accepts: the lock is set first. *)
Lemma signing_vote p info a k : signing p info a → (∃ j, receiveBlockByHash a !! p = Some j ∧ (j = info ∨ j = set_voted info)) →
  ProposeHash (block info) = p → IsPreVoted info = true →
  twoThirds (lenZ (SigningCommittees info)) < ValidPreVotes info →
  let m := AddReceiveBlockByHash (ProposeHash (block info)) (set_voted info);;
           createAndSendVote c k (block info) (SigningCommittees info) in
  signing p info (m a).2 ∧ receiveBlockByHash (m a).2 !! p = Some (set_voted info).
Proof.
  intros [Ha Hst HT Hj] (j & Hp & Hjj) Hkey Hpv Hn m. subst m.
  assert (block j = block info) as Hb by (by destruct Hjj as [-> | ->]).
  set (P a' := signing p info a' ∧ receiveBlockByHash a' !! p = Some (set_voted info)).
  apply (bind_holds P P); [|done|].
  - unfold AddReceiveBlockByHash. subst P. cbn. rewrite Hkey.
    set (a1 := set_receive (<[p := set_voted info]> (receiveBlockByHash a)) a).
    assert (tick a1) as H1.
    { subst a1. replace (<[p := set_voted info]> (receiveBlockByHash a))
        with (alter (λ _, set_voted info) p (receiveBlockByHash a)).
      2: { apply map_eq. intros q. destruct (decide (q = p)) as [-> |].
           - by rewrite lookup_alter_eq, lookup_insert_eq, Hp.
           - by rewrite lookup_alter_ne, lookup_insert_ne. }
      apply update_tick; [|done]. intros j' Hj'. rewrite Hp in Hj'. injection Hj' as <-.
      constructor; cbn; auto.
      - intros Hi. destruct Hjj as [-> | ->]; [|done]. destruct Hi. constructor; cbn; auto.
      - by destruct Hjj as [-> | ->].
      - intros _. right. intros q l Hl. rewrite Hb, HT. destruct Ha as [_ Htm <- _ _]. by eapply Htm. }
    split; [|by apply lookup_insert_eq]. constructor; [|exists (set_voted info); by split; [apply lookup_insert_eq|]|done|done].
    by apply (same_tick a1).
  - intros _ a1 [Hs Hv]. unfold createAndSendVote. destruct (GetViewByHash _ _) as [view|]; [|done].
    destruct (CreateVote _ _ _ _) as [v|] eqn:Hcv; [|done]. apply CreateVote_Some in Hcv as (Hvb & Hph & Hh).
    split; [|done]. pose proof (tick_info _ _ _ (sg_tick _ _ _ Hs) Hv) as Hi.
    apply signing_output; [done..|rewrite Hh; by apply (height_legacy (block info)); apply Hi|].
    intros _. split; [|by eexists]. destruct (sg_tick _ _ _ Hs) as [[HL _] _ _ _ _].
    by apply (counted_quorum i (log a1) T p (set_voted info)).
Qed.

Lemma keeps_maybeVoteMsg order : keeps tick (maybeVoteMsg c order).
Proof.
  apply keeps_forInfos. intros p info a Ha Hp. rewrite getS_bind.
  destruct (shouldVote c a info) eqn:Hs; [|done]. rewrite ignore_state. unfold shouldVote in Hs.
  destruct (GetViewByHash c _) as [view|] eqn:Hview; [|done].
  rewrite (gc_slot _ Hc view) in Hs by eauto. rewrite !andb_true_iff in Hs.
  destruct Hs as [[[[HT Hpv] Hnv] Hval] Hn]. apply Z.eqb_eq in HT. apply Z.ltb_lt in Hn.
  pose proof (tick_info _ _ _ Ha Hp) as Hi.
  set (P a' := signing p info a' ∧ ∃ j, receiveBlockByHash a' !! p = Some j ∧ (j = info ∨ j = set_voted info)).
  assert (P a) as HPa.
  { split; [|exists info; auto]. constructor; [done|by exists info|by rewrite <- (ti_slot _ _ _ _ Ha)|by apply Hi]. }
  assert (keeps P (sendVotes c info)) as Hkeep.
  { apply keeps_forKeys. intros k a' [Hsg Hst].
    destruct (signing_vote p info a' k Hsg Hst (io_key _ _ _ _ _ Hi) Hpv Hn) as [H1 H2]. split; eauto. }
  by destruct (Hkeep a HPa) as [[] _].
Qed.

End Tick.

End Phases.

Section Steps.
Context {cfg : BftConfig} {crypto : BftCrypto} {bftrun : BftRun} {good : GoodRun}.
Context (i : nat) (L0 : Log).

Local Abbreviation inv := (node_inv i L0).
Local Abbreviation log := (logOf i L0).

(** ** Votes and prevotes *)
Lemma db_inv floor a h k v : stored_ok (log a) h k v → inv floor a →
  inv floor (set_voteDB (<[(h, k) := v]> (voteDB a)) a).
Proof.
  intros Hv [HL []]. split; [done|]. constructor; cbn; auto.
  intros h' k' v' [[[= <- <-] <-]|[_ ?]]%lookup_insert_Some; auto.
Qed.

Lemma handlePreVoteMsg_inv floor a v : unforged (log a) v → Phase v = "prevote" → inv floor a →
  inv floor (handlePreVoteMsg v a).2.
Proof.
  intros Hu Hph Ha. unfold handlePreVoteMsg. rewrite getS_bind. set (w := set_IsValid 0 v).
  assert (unforged (log a) w) as Hw by done.
  apply (bind_holds _ (λ a', inv floor a' ∧ log a' = log a)); [|by intros a1 [? _]|].
  - destruct (receiveBlockByHash a !! BlockHash w) as [info|] eqn:Hi; [|done].
    destruct (PreVotes info !! Validator w) eqn:Hn; [done|]. split; [|done].
    apply refines_inv; [|done]. intros j Hj. rewrite Hi in Hj. injection Hj as <-.
    by apply refines_add_prevote.
  - intros _ a1 [Ha1 Hl]. apply db_inv; [|done]. rewrite Hl. split_and!; auto.
Qed.

Lemma handleVoteMsg_inv floor a v : unforged (log a) v → Phase v = "vote" → inv floor a →
  inv floor (handleVoteMsg v a).2.
Proof.
  intros Hu Hph Ha. unfold handleVoteMsg. rewrite getS_bind. set (w := set_IsValid 0 v).
  assert (unforged (log a) w) as Hw by done.
  apply (bind_holds _ (λ a', inv floor a' ∧ log a' = log a)); [|by intros a1 [? _]|].
  - destruct (receiveBlockByHash a !! BlockHash w) as [info|] eqn:Hi; [|done].
    destruct (Votes info !! Validator w); [done|]. split; [|done].
    apply refines_inv; [|done]. intros j _. by apply refines_same.
  - intros _ a1 [Ha1 Hl]. apply db_inv; [|done]. rewrite Hl. split_and!; auto.
Qed.

(** ** Cleaning *)
Lemma floor_inv floor floor' a : floor ≤ floor' → inv floor a → inv floor' a.
Proof. intros Hf [HL []]. split; [done|]. constructor; auto. intros v b Hin Hph Hb Hv Hlt. apply (no_locks v); auto. lia. Qed.

Lemma delete_inv floor a p info : receiveBlockByHash a !! p = Some info →
  (IsVoted info = true → GetHeight (block info) ≤ floor) → inv floor a →
  inv floor (set_receive (delete p (receiveBlockByHash a)) a).
Proof.
  intros Hp Hv [HL []]. split; [done|]. change (log (set_receive _ a)) with (log a). constructor; cbn; auto.
  - intros q j [_ Hj]%lookup_delete_Some. auto.
  - intros v b Hin Hph Hb Hvb Hlt. destruct (no_locks v b Hin Hph Hb Hvb Hlt) as (j & Hj & Hvt).
    exists j. split; [|done]. rewrite lookup_delete_ne; [done|]. intros ->. rewrite Hp in Hj. injection Hj as ->.
    specialize (Hv Hvt). destruct (no_infos _ _ Hp).
    rewrite (propose_inj (block j) b) in Hv by (by auto). lia.
  - intros q j [_ Hj]%lookup_delete_Some Hpolc. destruct (no_polc q j Hj Hpolc) as (b2 & ? & ? & ? & Hall).
    exists b2. split_and!; [done..|]. intros q' l [_ Hl]%lookup_delete_Some. eauto.
Qed.

(** A lock has more than two thirds of prevotes, so that only its height can clean it. *)
Lemma handleCleanMem_inv floor c now order a : good_chain floor c → inv floor a →
  inv (GetFinalViewHeight c) (handleCleanMem c now order a).2.
Proof.
  intros Hc Ha. apply (floor_inv _ (GetFinalViewHeight c)) in Ha; [|apply (gc_final _ _ Hc)].
  revert a Ha. apply keeps_andThen.
  2: { intros _. apply keeps_modify. intros a. by apply same_inv. }
  apply keeps_forInfos. intros p info a Ha Hp. destruct (outdated c now info) eqn:Ho; [|done].
  destruct Ha as [HL Hn]. pose proof (no_infos _ _ _ _ Hn p info Hp) as Hi.
  assert (IsVoted info = true → GetHeight (block info) ≤ GetFinalViewHeight c) as Hv.
  { intros Hv. destruct (io_voted _ _ _ _ _ Hi Hv) as [_ Hmany]. pose proof (io_count _ _ _ _ _ Hi) as Hcount.
    assert (countStatus 1 (PreVotes info) ≤ Z.of_nat (size (PreVotes info))) as Hsize.
    { unfold countStatus. rewrite <- !size_dom. apply inj_le, subseteq_size, dom_filter_subseteq. }
    unfold outdated in Ho. apply orb_true_iff in Ho as [[_ Ho%Z.leb_le]%andb_true_iff|Ho%Z.ltb_lt]; [lia|].
    pose proof (gc_final _ _ Hc). pose proof (gc_start _ _ Hc). pose proof (gc_u64 _ _ Hc) as Hu.
    unfold in_u64 in Hu. rewrite sub64_exact in Ho by (unfold in_u64; lia). lia. }
  unfold CleanReceiveBlockByHash. cbn.
  assert (inv (GetFinalViewHeight c) (set_receive (delete p (receiveBlockByHash a)) a)) as [HL' []]
    by (eapply delete_inv; by eauto).
  split; [done|]. constructor; cbn; auto. intros h k v [Hkv _]%map_lookup_filter_Some. by apply no_db.
Qed.

(** ** A tick *)
Lemma clock_inv floor a t slot h : currentTimeSlot a ≤ slot → inv floor a → inv floor (set_clock t slot h a).
Proof.
  intros Ht [HL []]. split; [done|]. change (log (set_clock t slot h a)) with (log a). constructor; cbn; auto.
  - intros p info Hp. eapply info_ok_grown; [apply log_grown_refl|done|by auto].
  - intros v b Hin Hb Hv. etrans; [by eapply no_slots|done].
Qed.

Definition covers (infos : gmap string ProposeBlockInfo) (order : list string) : Prop :=
  ∀ q, q ∈ dom infos → q ∈ order.

Lemma onTick_inv floor c now o a : good_chain floor c → inv floor a →
  currentTimeSlot a ≤ slotOf (now / second) →
  (∀ p info, receiveBlockByHash a !! p = Some info → blockSlot (block info) ≤ slotOf (now / second)) →
  (∀ p, covers (receiveBlockByHash a) (o_prevoteLock o p)) →
  inv floor (onTick c now o a).2.
Proof.
  intros Hc Ha Ht Htm Hord. unfold onTick. destruct (negb _); [done|]. rewrite getS_bind. cbv zeta.
  rewrite (gc_slot _ _ Hc _ (or_introl eq_refl)).
  set (tick := tick_inv i L0 floor (slotOf (now / second)) (v_height (GetBestView c)) (dom (receiveBlockByHash a))).
  apply (bind_holds _ tick); [| |].
  - constructor; [by apply clock_inv|exact Htm|done..].
  - by intros a1 [].
  - intros _ a1 H1. match goal with |- node_inv _ _ _ (snd (?m a1)) => assert (keeps tick m) as Hk end.
    { subst tick. keeps; auto using keeps_maybeProposeBlock, keeps_validateInfos, keeps_maybePreVoteMsg,
        keeps_maybeVoteMsg, keeps_maybeCommit. }
    by destruct (Hk a1 H1).
Qed.

(** ** Proposals *)

(** A proof of lock change names a block of the run by its hashes and its slot, and no position
    of the committee twice; a signature of it that verifies was sent by its signer. *)
Record genuine (polc : POLC) (b2 : Block) : Prop := {
  gp_block : runBlocks b2;
  gp_propose : ProposeHash b2 = polc_BlockProposeHash polc;
  gp_hash : BlockHashOf b2 = polc_BlockHash polc;
  gp_slot : blockSlot b2 = polc_Timeslot polc;
  gp_nodup : NoDup (polc_Idx polc);
}.

Definition polc_unforged (L : Log) (polc : POLC) : Prop :=
  ∀ info validator sig, sig ∈ polc_Sig polc → unforged L (polcVote info polc validator sig).

Lemma at_index_Ok {A} (l : list A) k x : at_index l k = Ok x → 0 ≤ k ∧ l !! Z.to_nat k = Some x.
Proof.
  unfold at_index. destruct (Z.ltb_spec k 0); [done|]. destruct (l !! Z.to_nat k) eqn:E; [|done].
  intros [= ->]. done.
Qed.

Lemma verifyPOLCSigs_Ok info polc k idx : verifyPOLCSigs info polc k idx = Ok true → ∀ x, x ∈ idx →
  ∃ m, 0 ≤ x ∧ SigningCommittees info !! Z.to_nat x = Some m ∧
    ∃ validator sig, sig ∈ polc_Sig polc ∧ validateVoteOwner (polcVote info polc validator sig) (bridgeKey m) = true.
Proof.
  revert k. induction idx as [|y idx IH]; intros k Hv x Hx; [by apply not_elem_of_nil in Hx|]. cbn in Hv.
  apply outcome_bind_Ok in Hv as (validator & _ & Hv). apply outcome_bind_Ok in Hv as (sig & Hsig & Hv).
  apply outcome_bind_Ok in Hv as (m & [Hy Hm]%at_index_Ok & Hv). case_decide; [done|].
  destruct (validateVoteOwner _ _) eqn:Hval; [|done]. apply elem_of_cons in Hx as [-> |Hx]; [|by eapply IH].
  exists m. split_and!; [done..|]. exists validator, sig. split; [|done].
  apply at_index_Ok in Hsig as [_ Hsig]. by eapply list_elem_of_lookup_2.
Qed.

(** The members at more than two thirds of the positions, none named twice, are a quorum. *)
Lemma positions_quorum b idx (P : nat → Prop) : NoDup idx →
  twoThirds (lenZ (committeeAt (GetHeight b))) < lenZ idx →
  (∀ x, x ∈ idx → ∃ m, 0 ≤ x ∧ committeeAt (GetHeight b) !! Z.to_nat x = Some m ∧
    ∀ i, host (blsKey m) = Some i → P i) → quorum b P.
Proof.
  intros Hnd Hn Hall. set (ms := membersAt (GetHeight b)).
  assert (∀ x, x ∈ idx → 0 ≤ x ∧ ∃ k, ms !! Z.to_nat x = Some k ∧ ∀ i, host k = Some i → P i) as Hms.
  { intros x Hx. destruct (Hall x Hx) as (m & ? & Hm & ?). split; [done|]. exists (blsKey m).
    subst ms. unfold membersAt. by rewrite list_lookup_fmap, Hm. }
  exists (list_to_set (omap (λ x, ms !! Z.to_nat x) idx)). split_and!.
  - intros k (x & _ & Hk)%elem_of_list_to_set%list_elem_of_omap. by eapply list_elem_of_lookup_2.
  - rewrite size_list_to_set.
    + enough (List.length (omap (λ x, ms !! Z.to_nat x) idx) = List.length idx) as -> by done.
      clear Hnd Hn Hall. induction idx as [|x idx IH]; [done|]. cbn.
      destruct (Hms x (list_elem_of_here _ _)) as (_ & k & -> & _). cbn. f_equal. apply IH.
      intros y Hy. apply Hms. by right.
    + clear Hn Hall. induction idx as [|x idx IH]; [constructor|]. apply NoDup_cons in Hnd as [Hx Hnd]. cbn.
      destruct (Hms x (list_elem_of_here _ _)) as (Hx0 & k & Hk & _). rewrite Hk. constructor.
      * intros (y & Hy & Hky)%list_elem_of_omap. destruct (Hms y (list_elem_of_further _ _ _ Hy)) as (Hy0 & _).
        assert (Z.to_nat x = Z.to_nat y) by (eapply (NoDup_lookup ms); [apply members_nodup|done|done]).
        destruct Hx. by replace x with y by lia.
      * apply IH; [done|]. intros y Hy. apply Hms. by right.
  - intros k j (x & Hx & Hk)%elem_of_list_to_set%list_elem_of_omap Hi.
    destruct (Hms x Hx) as (_ & k' & Hk' & HP). apply HP. congruence.
Qed.

Lemma verified_quorum L c info polc lock b2 : log_ok L → genuine polc b2 → polc_unforged L polc →
  runBlocks (block info) → SigningCommittees info = committeeAt (GetHeight (block info)) →
  verifyPOLCFromPreVote c info polc lock = Ok true →
  prevoteQuorum L b2 ∧ BlockHashOf b2 = BlockHashOf (block info) ∧ newerThanLock c polc lock = Ok true.
Proof.
  intros HL [Hb2 Hp2 Hh2 _ Hnd] Hu Hb HC. unfold verifyPOLCFromPreVote. case_decide; [done|].
  case_decide as Hhash; [done|].
  intros (newer & Hnew & Hv)%outcome_bind_Ok. destruct newer; [|done]. cbn [negb] in Hv.
  apply outcome_bind_Ok in Hv as (sigs & Hsigs & [= Hv]). apply andb_true_iff in Hv as [-> Hn%Z.ltb_lt].
  assert (GetHeight b2 = GetHeight (block info)) as Hht by (apply hash_height; [done..|congruence]).
  split_and!; [|congruence|done]. rewrite HC, <- Hht in Hn.
  apply (positions_quorum b2 (polc_Idx polc)); [done..|]. intros x Hx. rewrite Hht, <- HC.
  destruct (verifyPOLCSigs_Ok _ _ _ _ Hsigs x Hx) as (m & Hx0 & Hm & validator & sig & Hsig & Hval).
  exists m. split_and!; [done..|]. intros i' Hi'. rewrite HC in Hm.
  eapply (unforged_signed L (polcVote info polc validator sig)); [done|by apply Hu|done|done| |
    by eapply list_elem_of_lookup_2|done|done].
  right. cbn. pose proof (height_legacy _ Hb). lia.
Qed.

Lemma storedVotes_elem h db k v : (k, v) ∈ storedVotes h db → db !! (h, k) = Some v.
Proof.
  unfold storedVotes. intros ([[h' k'] w] & [= -> ->] & [Hh Hin]%list_elem_of_filter)%list_elem_of_fmap.
  cbn in *. subst. by apply elem_of_map_to_list in Hin.
Qed.

Lemma stored_prevotes L h db k v : (∀ k v, db !! (h, k) = Some v → stored_ok L h k v) →
  (GetVotesByBlockHashFromDB h db).2 !! k = Some v → ∀ signers, prevote_ok L h signers k v.
Proof.
  intros Hdb Hk signers. cbn in Hk. apply elem_of_list_to_map_2, list_elem_of_filter in Hk as [Hph Hin].
  apply storedVotes_elem, Hdb in Hin as (? & ? & H0 & Hph' & Hu). unfold isVotePhase in Hph. cbn in Hph.
  split_and!; [done..|tauto|done|lia].
Qed.

Lemma handleProposeMsg_inv floor c now lockOrder m a : good_chain floor c → inv floor a →
  (∀ b, p_Block m = Some b → runBlocks b ∧ GetCommittee (GetBestView c) = committeeAt (GetHeight b)) →
  (polc_Idx (p_POLC m) = [] ∨ ∃ b2, genuine (p_POLC m) b2) → polc_unforged (log a) (p_POLC m) →
  covers (receiveBlockByHash a) lockOrder →
  inv floor (handleProposeMsg c now lockOrder m a).2.
Proof.
  intros Hc Ha Hm Hgen Hu Hord. unfold handleProposeMsg. destruct (p_Block m) as [b|]; [|done].
  destruct (Hm b eq_refl) as [Hb HC]. rewrite getS_bind.
  destruct (receiveBlockByHash a !! ProposeHash b) eqn:Hnew; [done|].
  destruct (GetBlockByHash _ _); [|done]. destruct (_ <=? _); [done|].
  destruct (GetViewByHash c (GetPrevHash b)) as [view|]; [|done]. unfold newInfo.
  destruct (GetVotesByBlockHashFromDB (ProposeHash b) (voteDB a)) as [votes prevotes] eqn:Edb. cbv zeta.
  set (info := mkInfo _ _ _ _ _ _ _ _ _ _ _ _ _ _ _ _ _ _ _ _).
  destruct (verifyPOLCFromPreVote c info (p_POLC m) _) as [ok| | |] eqn:Hver; [|done..].
  unfold mbind at 1, M_bind at 1, lift at 1. unfold AddReceiveBlockByHash.
  set (info' := if ok : bool then set_POLC info else info).
  assert (block info' = b ∧ IsVoted info' = false ∧ ValidPOLC info' = ok) as (Hb' & Hv' & Hok') by (by destruct ok).
  destruct Ha as [HL []].
  assert (info_ok i (log a) (currentTimeSlot a) (ProposeHash b) info') as Hinfo.
  { assert (∀ k v, prevotes !! k = Some v → prevote_ok (log a) (ProposeHash b) (GetCommittee (GetBestView c)) k v) as Hpv.
    { intros k v Hk. eapply stored_prevotes; [intros k' v'; by apply no_db|]. by rewrite Edb. }
    destruct ok; constructor; cbn; auto; try done; unfold countStatus; lia. }
  apply (same_inv i L0 floor (set_receive (<[ProposeHash b := info']> (receiveBlockByHash a)) a)); try done.
  split; [done|]. change (log (set_receive _ a)) with (log a). constructor; cbn; auto.
  - intros p j [[<- <-]|[_ Hj]]%lookup_insert_Some; auto.
  - intros v b1 Hin Hph Hb1 Hvb Hlt. destruct (no_locks v b1 Hin Hph Hb1 Hvb Hlt) as (j & Hj & Hvt). exists j.
    split; [|done]. rewrite lookup_insert_ne; [done|]. congruence.
  - intros p j [[<- <-]|[_ Hj]]%lookup_insert_Some Hpolc.
    + rewrite Hok' in Hpolc. rewrite Hpolc in Hver. destruct Hgen as [Hnil|(b2 & Hgen)].
      { unfold verifyPOLCFromPreVote in Hver. by rewrite decide_True in Hver. }
      destruct (verified_quorum (log a) c info (p_POLC m) _ b2 HL Hgen Hu Hb HC Hver) as (Hq & Hh & Hnewer).
      exists b2. split_and!; [apply Hgen|done|by rewrite Hb'|].
      intros q l [[<- <-]|[_ Hl]]%lookup_insert_Some Hvl Hhl _; [congruence|]. rewrite Hb' in Hhl.
      rewrite (gp_slot _ _ Hgen).
      pose proof (getLockBlockHash_spec lockOrder (GetHeight b) a) as Hlock.
      assert (lockAt (GetHeight b) l = true) as Hla.
      { unfold lockAt. rewrite Hvl, Hhl. by rewrite Z.eqb_refl. }
      assert (q ∈ lockOrder) as Hq' by (apply Hord, elem_of_dom; by exists l).
      destruct (getLockBlockHash _ _ _) as [k|]; [|by rewrite (Hlock _ _ Hq' Hl) in Hla].
      destruct Hlock as (_ & _ & Hmax). specialize (Hmax _ _ Hq' Hl Hla). cbn in Hnewer.
      destruct (GetViewByHash c (GetPrevHash (block k))) as [vw|] eqn:Evw; [|done].
      rewrite (gc_slot _ _ Hc vw) in Hnewer by eauto. injection Hnewer as Hnewer.
      apply negb_true_iff, Z.ltb_ge in Hnewer. etrans; [by apply slot_mono|done].
    + destruct (no_polc p j Hj Hpolc) as (b2 & ? & ? & ? & Hall). exists b2. split_and!; [done..|].
      intros q l [[<- <-]|[_ Hl]]%lookup_insert_Some Hvl; [congruence|]. by eapply Hall.
Qed.

End Steps.
