(* ===== verification/BftAgreement.v ===== *)
(** Agreement of the beacon chain: no two blocks of one height with different contents can both
    have a certificate, while fewer than a third of the committee is byzantine.

    The nodes of the honest validators run the actor of [BftActor]; everything else, the
    byzantine validators and the network included, is the choice of the next event and of its
    content.  What it cannot do is to sign for an honest validator. *)
From S2P Require Import Prelude BftVote BftNode BftActor BftInvariant BftSteps.

Local Open Scope Z_scope.

Section System.
Context {cfg : BftConfig} {crypto : BftCrypto} {bftrun : BftRun}.

(** A node, with the highest final view it has seen. *)
Record Node := mkNode { actor : actorV3; final : Z }.
Record Sys := mkSys { nodes : gmap nat Node; sysLog : Log }.

(** When an event may happen at a node.

    - A proposal is a block of the run; the best view's committee is the committee of its
      height; a proof of lock change, if it has one, is [genuine].
    - The clock does not go back, and no proposal is for a slot that has not come.
    - Each range over the proposals sees all of them. *)
Definition allowed (L : Log) (n : Node) (c : Chain) (now : Z) (e : Event) : Prop :=
  good_chain (final n) c ∧
  match e with
  | ProposeMsg m lockOrder =>
      (∀ b, p_Block m = Some b → runBlocks b ∧ GetCommittee (GetBestView c) = committeeAt (GetHeight b)) ∧
      (polc_Idx (p_POLC m) = [] ∨ ∃ b2, genuine (p_POLC m) b2) ∧ polc_unforged L (p_POLC m) ∧
      covers (receiveBlockByHash (actor n)) lockOrder
  | VoteMsg v => unforged L v
  | CleanMem _ => True
  | Tick o =>
      currentTimeSlot (actor n) ≤ slotOf (now / second) ∧
      (∀ p info, receiveBlockByHash (actor n) !! p = Some info → blockSlot (block info) ≤ slotOf (now / second)) ∧
      (∀ p, covers (receiveBlockByHash (actor n)) (o_prevoteLock o p))
  end.

(** One event at one node; what it sends goes into the log.  A node that panics stops. *)
Inductive step (s : Sys) : Sys → Prop :=
  | step_run i n c now e a' : nodes s !! i = Some n → allowed (sysLog s) n c now e →
      run c now e (actor n) = (Ok tt, a') →
      step s (mkSys (<[i := mkNode (set_sent [] a') (Z.max (final n) (GetFinalViewHeight c))]> (nodes s))
                    (sentVotes i a' ++ sysLog s))
  | step_crash i n c now e r a' : nodes s !! i = Some n → allowed (sysLog s) n c now e →
      run c now e (actor n) = (r, a') → r ≠ Ok tt →
      step s (mkSys (delete i (nodes s)) (sentVotes i a' ++ sysLog s)).

(** At the start the nodes have seen nothing. *)
Definition starts (s : Sys) : Prop :=
  sysLog s = [] ∧ ∀ i n, nodes s !! i = Some n →
    receiveBlockByHash (actor n) = ∅ ∧ voteDB (actor n) = ∅ ∧ sent (actor n) = [].

Definition sys_inv (s : Sys) : Prop :=
  log_ok (sysLog s) ∧ ∀ i n, nodes s !! i = Some n →
    node_ok i (sysLog s) (final n) (actor n) ∧ sent (actor n) = [].

(** An aggregated signature that verifies has the votes of its honest signers. *)
Definition bls_unforged (L : Log) (b : Block) (d : ValidationData) : Prop :=
  validateBLSSig (ProposeHash b) (AggSig d) (ValidatiorsIdx d) (committeeAt (GetHeight b)) = true →
  ∀ j m i, j ∈ ValidatiorsIdx d → committeeAt (GetHeight b) !! Z.to_nat j = Some m →
    host (blsKey m) = Some i → votedFor L i b.

Context {good : GoodRun}.

Lemma sys_inv_start s : starts s → sys_inv s.
Proof.
  intros [HL Hn]. split; [rewrite HL; constructor|]. intros i n Hi. destruct (Hn i n Hi) as (Hr & Hd & Hs).
  split; [|done]. rewrite HL. constructor; rewrite ?Hr, ?Hd; try done.
  - intros v b Hv. by apply not_elem_of_nil in Hv.
  - intros v b Hv. by apply not_elem_of_nil in Hv.
Qed.

(** The invariant of the node after any event. *)
Lemma run_inv i L n c now e : allowed L n c now e → node_inv i L (final n) (actor n) → sent (actor n) = [] →
  node_inv i L (Z.max (final n) (GetFinalViewHeight c)) (run c now e (actor n)).2.
Proof.
  intros [Hc Ha] Hn Hs. pose proof (gc_final _ _ Hc) as Hf. rewrite Z.max_r by lia.
  assert (logOf i L (actor n) = L) as Hlog by (unfold logOf, sentVotes; by rewrite Hs).
  destruct e as [m lockOrder|v|order|o]; cbn [run].
  - destruct Ha as (Hm & Hgen & Hu & Hord). rewrite ignore_state. apply (floor_inv _ _ (final n)); [lia|].
    apply handleProposeMsg_inv; rewrite ?Hlog; done.
  - apply (floor_inv _ _ (final n)); [lia|]. case_decide.
    { apply handlePreVoteMsg_inv; by rewrite ?Hlog. }
    case_decide; [|done]. apply handleVoteMsg_inv; by rewrite ?Hlog.
  - by apply handleCleanMem_inv with (final n).
  - destruct Ha as (? & ? & ?). apply (floor_inv _ _ (final n)); [lia|]. by apply onTick_inv.
Qed.

Lemma sent_fst i a x : x ∈ sentVotes i a → x.1 = i.
Proof. unfold sentVotes. intros (o & _ & Ho)%list_elem_of_omap. destruct o; by simplify_eq. Qed.

Lemma sys_inv_step s s' : sys_inv s → step s s' → sys_inv s'.
Proof.
  intros [HL Hs] Hstep.
  assert (∀ i n c now e a', nodes s !! i = Some n → allowed (sysLog s) n c now e → (run c now e (actor n)).2 = a' →
    log_ok (sentVotes i a' ++ sysLog s) ∧
    node_ok i (sentVotes i a' ++ sysLog s) (Z.max (final n) (GetFinalViewHeight c)) a' ∧
    ∀ j m, j ≠ i → nodes s !! j = Some m → node_ok j (sentVotes i a' ++ sysLog s) (final m) (actor m) ∧ sent (actor m) = []) as Hall.
  { intros i n c now e a' Hi Ha <-. destruct (Hs i n Hi) as [Hn Hsent].
    destruct (run_inv i _ _ _ _ _ Ha) as [HL' Hn']; [split|done|]; unfold logOf, sentVotes; rewrite ?Hsent; try done.
    split_and!; [done..|]. intros j m Hji Hj. destruct (Hs j m Hj) as [Hm Hmsent]. split; [|done].
    apply (node_ok_other j i); [done|apply sent_fst|done]. }
  destruct Hstep as [i n c now e a' Hi Ha Hr|i n c now e r a' Hi Ha Hr _];
    destruct (Hall i n c now e a' Hi Ha ltac:(by rewrite Hr)) as (HL' & Hn' & Hothers); (split; [done|]); cbn.
  - intros j m [[<- <-]|[Hne Hj]]%lookup_insert_Some; [|by apply Hothers]. split; [|done].
    destruct Hn'. by constructor.
  - intros j m [Hne Hj]%lookup_delete_Some. by apply Hothers.
Qed.

Lemma sys_inv_reach s s' : rtc step s s' → sys_inv s → sys_inv s'.
Proof. induction 1; eauto using sys_inv_step. Qed.

(** A certificate that the chain accepts is a quorum of votes. *)
Lemma certificate_quorum L b d k : bls_unforged L b d →
  ValidateCommitteeSig b (Some d) (committeeAt (GetHeight b)) k = true → voteQuorum L b.
Proof.
  intros Hu Hv. cbn in Hv. apply andb_true_iff in Hv as [[_ Hidx]%andb_true_iff Hbls].
  unfold CheckValidationDataWithCommittee in Hidx. destruct (Z.ltb_spec (lenZ (committeeAt (GetHeight b))) 1); [done|].
  destruct (Z.ltb_spec (lenZ (ValidatiorsIdx d)) (Z.quot (lenZ (committeeAt (GetHeight b)) * 2) 3 + 1)) as [|Hn]; [done|].
  apply increasing_NoDup in Hidx. specialize (Hu Hbls). unfold validateBLSSig, Verify in Hbls.
  apply andb_true_iff in Hbls as [[[Hr _]%andb_true_iff _]%andb_true_iff _]. rewrite forallb_forall in Hr.
  apply (positions_quorum b (ValidatiorsIdx d)); [done| |].
  - unfold twoThirds. rewrite Z.mul_comm. lia.
  - intros x Hx. specialize (Hr x (proj1 (list_elem_of_In _ _) Hx)). apply andb_true_iff in Hr as [H0 H1].
    apply Z.leb_le in H0. apply Z.ltb_lt in H1. unfold lenZ in H1. rewrite length_fmap in H1.
    destruct (lookup_lt_is_Some_2 (committeeAt (GetHeight b)) (Z.to_nat x)) as [m Hm]; [lia|]. exists m.
    split_and!; [done..|]. intros i Hi. by eapply Hu.
Qed.

(** C2: two certified blocks of one height have the same content, when less than a third of that
    height's committee is byzantine. The honest validators run the actor; their nodes start
    having seen nothing, and a node that stops does not come back. Any events may follow, in any
    order, within these bounds ([allowed], [GoodRun]): a proposal is a block of the run, below
    the height of the byzantine detector, and a proof of lock change it carries is genuine (it
    names a block of the run by its hashes and slot, no signer twice); clocks do not go back and
    no proposal is for a slot still to come; the chains of the nodes agree on the slots and the
    committee of a height, and their final views do not go back; hashes do not collide, members
    have different keys, and nobody signs for an honest validator. If the honest validators then
    signed for at most one content per slot and height, and the aggregated signatures of two
    certificates that the chain accepts are unforged, the two blocks have the same block hash.
    (Outside these bounds see the divergences: an old proof, a restart.) *)
Theorem beacon_agreement s0 s b1 b2 d1 d2 k1 k2 : starts s0 → rtc step s0 s → one_per_slot (sysLog s) →
  runBlocks b1 → runBlocks b2 → GetHeight b1 = GetHeight b2 →
  3 * lenZ (byzantineAt (GetHeight b1)) < lenZ (committeeAt (GetHeight b1)) →
  bls_unforged (sysLog s) b1 d1 → bls_unforged (sysLog s) b2 d2 →
  ValidateCommitteeSig b1 (Some d1) (committeeAt (GetHeight b1)) k1 = true →
  ValidateCommitteeSig b2 (Some d2) (committeeAt (GetHeight b2)) k2 = true →
  BlockHashOf b1 = BlockHashOf b2.
Proof.
  intros Hs0 Hr Hone Hb1 Hb2 Hh Hbyz Hu1 Hu2 Hc1 Hc2.
  destruct (sys_inv_reach _ _ Hr (sys_inv_start _ Hs0)) as [HL _].
  apply (log_agreement (sysLog s)); eauto using certificate_quorum.
Qed.

End System.
