(* ===== verification/BftCertificate.v ===== *)
(** The certificate a node aggregates is one that every node accepts, and the proof of lock change
    an honest proposer builds is one that every node verifies. *)
From S2P Require Import Prelude BftVote BftNode BftActor.

Local Open Scope Z_scope.

Section Certificate.
Context {cfg : BftConfig} {crypto : BftCrypto}.

(** Different members have different, non-empty keys. *)
Definition named (signers : list CommitteePublicKey) : Prop :=
  NoDup (blsKey <$> signers) ∧ EmptyString ∉ blsKey <$> signers.

Lemma Extract_named signers : named signers → ExtractPublickeysFromCommitteeKeyList signers = blsKey <$> signers.
Proof.
  intros [_ Hn]. unfold ExtractPublickeysFromCommitteeKeyList. revert Hn. generalize (blsKey <$> signers).
  intros l. induction l as [|k l IH]; intros Hn; [done|]. rewrite elem_of_cons in Hn.
  rewrite filter_cons_True by (intros ->; tauto). by rewrite IH by tauto.
Qed.

Lemma IndexOfStr_lookup keys k : NoDup keys → ∀ n, keys !! n = Some k → IndexOfStr k keys = Z.of_nat n.
Proof.
  intros Hnd n Hn. destruct (IndexOfStr_from_spec 0 k keys) as [[_ Hnot]|(j & Hj & Hk)].
  - destruct Hnot. by eapply list_elem_of_lookup_2.
  - unfold IndexOfStr. rewrite Hj, (NoDup_lookup _ _ _ _ Hnd Hk Hn). lia.
Qed.

Definition indexed (votes : gmap string BFTVote) (keys : list string) : list Z :=
  omap (λ kv : string * BFTVote,
    if IsValid kv.2 =? 1
    then let index := IndexOfStr kv.1 keys in if index =? -1 then None else Some index
    else None) (map_to_list votes).

Lemma validIdx_perm votes keys : validIdx votes keys ≡ₚ indexed votes keys.
Proof. apply merge_sort_Permutation. Qed.

Lemma indexed_elem votes keys x : NoDup keys → x ∈ indexed votes keys ↔
  ∃ k v, votes !! k = Some v ∧ IsValid v = 1 ∧ 0 ≤ x ∧ keys !! Z.to_nat x = Some k.
Proof.
  intros Hnd. unfold indexed. rewrite list_elem_of_omap. split.
  - intros ([k v] & Hin%elem_of_map_to_list & Hx). cbn in Hx.
    destruct (Z.eqb_spec (IsValid v) 1); [|done]. destruct (Z.eqb_spec (IndexOfStr k keys) (-1)) as [|Hne]; [done|].
    injection Hx as <-. exists k, v. destruct (IndexOfStr_from_spec 0 k keys) as [[? _]|(j & Hj & Hk)]; [done|].
    unfold IndexOfStr in *. rewrite Hj. split_and!; [done..|lia|]. by replace (Z.to_nat (0 + Z.of_nat j)) with j by lia.
  - intros (k & v & Hk & Hv & Hx & Hl). exists (k, v). rewrite elem_of_map_to_list. split; [done|]. cbn.
    rewrite Hv, (IndexOfStr_lookup _ _ Hnd _ Hl). cbn.
    destruct (Z.eqb_spec (Z.of_nat (Z.to_nat x)) (-1)); [lia|]. f_equal. lia.
Qed.

(** The positions of different validators are different. *)
Lemma indexed_NoDup votes keys : NoDup keys → NoDup (indexed votes keys).
Proof.
  intros Hnd. unfold indexed. pose proof (NoDup_fst_map_to_list votes) as Hf. revert Hf.
  generalize (map_to_list votes). intros l. induction l as [|[k v] l IH]; intros Hf; [constructor|].
  cbn in Hf. apply NoDup_cons in Hf as [Hk Hf]. cbn.
  destruct (IsValid v =? 1); [|by apply IH]. destruct (Z.eqb_spec (IndexOfStr k keys) (-1)) as [|Hne]; [by apply IH|].
  constructor; [|by apply IH]. intros ([k' v'] & Hin & Hx)%list_elem_of_omap. cbn in Hx.
  destruct (IsValid v' =? 1); [|done]. destruct (Z.eqb_spec (IndexOfStr k' keys) (-1)) as [|Hne']; [done|].
  injection Hx as Hx. destruct Hk. apply list_elem_of_fmap. exists (k', v'). split; [cbn|done].
  destruct (IndexOfStr_from_spec 0 k keys) as [[? _]|(j & Hj & Hkj)]; [done|].
  destruct (IndexOfStr_from_spec 0 k' keys) as [[? _]|(j' & Hj' & Hkj')]; [done|].
  unfold IndexOfStr in Hx. rewrite Hj, Hj' in Hx. assert (j' = j) as -> by lia. congruence.
Qed.

Lemma increasing_sorted l : Sorted Z.le l → NoDup l → increasing l = true.
Proof.
  induction l as [|a l IH]; intros Hs Hn; [done|]. apply NoDup_cons in Hn as [Ha Hn].
  apply Sorted_inv in Hs as [Hs Hh]. destruct l as [|b l]; [done|]. cbn.
  apply HdRel_inv in Hh. rewrite elem_of_cons in Ha. destruct (Z.leb_spec b a); [|by apply IH].
  assert (a = b) as -> by lia. tauto.
Qed.

Lemma validIdx_increasing votes keys : NoDup keys → increasing (validIdx votes keys) = true.
Proof.
  intros Hnd. apply increasing_sorted; [apply (Sorted_merge_sort Z.le)|].
  rewrite validIdx_perm. by apply indexed_NoDup.
Qed.

(** As many positions as valid votes, when the votes are the members'. *)
Lemma validIdx_length votes keys : (∀ k v, votes !! k = Some v → IsValid v = 1 → k ∈ keys) →
  lenZ (validIdx votes keys) = countStatus 1 votes.
Proof.
  intros Hm. unfold lenZ, countStatus. rewrite validIdx_perm. f_equal. rewrite map_filter_alt. cbn.
  rewrite map_size_list_to_map.
  2: { apply (sublist_NoDup _ ((map_to_list votes).*1)); [apply NoDup_fst_map_to_list|]. apply fmap_sublist, sublist_filter. }
  assert (∀ k v, (k, v) ∈ map_to_list votes → IsValid v = 1 → k ∈ keys) as Hl.
  { intros k v Hin%elem_of_map_to_list. by apply Hm. }
  unfold indexed. revert Hl. generalize (map_to_list votes). intros l. induction l as [|[k v] l IH]; intros Hl; [done|].
  rewrite filter_cons. cbn.
  destruct (Z.eqb_spec (IsValid v) 1) as [Hv|Hv].
  - rewrite decide_True by done. destruct (Z.eqb_spec (IndexOfStr k keys) (-1)) as [Hn|].
    + destruct (IndexOfStr_from_spec 0 k keys) as [[_ Hnot]|(j & Hj & _)]; [|unfold IndexOfStr in Hn; lia].
      destruct Hnot. apply (Hl k v); [left|done].
    + cbn. f_equal. apply IH. intros k' v' Hin. apply Hl. by right.
  - rewrite decide_False by done. apply IH. intros k' v' Hin. apply Hl. by right.
Qed.

(** ** Fixed nodes *)
Definition votedValid (votes : gmap string BFTVote) (m : CommitteePublicKey) : bool :=
  from_option IsValid 0 (votes !! blsKey m) =? 1.

Lemma members_count votes (signers : list CommitteePublicKey) l ms :
  mapM (λ i, at_index signers (Z.of_nat i)) l = Ok ms →
  lenZ (filter (λ cpk, from_option IsValid 0 (votes !! blsKey cpk) = 1) ms) =
  lenZ (filter (λ i, from_option (votedValid votes) false (signers !! i) = true) l).
Proof.
  revert ms. induction l as [|i l IH]; intros ms Hm; [cbn in Hm; by injection Hm as <-|].
  cbn in Hm. apply outcome_bind_Ok in Hm as (m & Hi & Hm). apply outcome_bind_Ok in Hm as (ms' & Hms & [= <-]).
  unfold at_index in Hi. destruct (Z.ltb_spec (Z.of_nat i) 0); [done|]. rewrite Nat2Z.id in Hi.
  destruct (signers !! i) as [m'|] eqn:E; [|done]. injection Hi as ->. specialize (IH _ Hms).
  rewrite !filter_cons. rewrite E. cbn. unfold votedValid, lenZ in *.
  destruct (Z.eqb_spec (from_option IsValid 0 (votes !! blsKey m)) 1).
  - rewrite !decide_True by done. cbn. lia.
  - rewrite !decide_False by done. done.
Qed.

(** The fixed nodes that voted have their positions in the certificate. *)
Lemma fixNodes_in_certificate info cnt : named (SigningCommittees info) → fixNodeVotes info = Ok cnt →
  cnt ≤ lenZ (filter (λ v, v < NumberOfFixNode info) (validIdx (Votes info) (blsKey <$> SigningCommittees info))).
Proof.
  intros [Hnd _] (ms & Hms & [= <-])%outcome_bind_Ok. rewrite (members_count _ _ _ _ Hms). unfold lenZ. apply inj_le.
  rewrite <- (length_fmap Z.of_nat). apply submseteq_length, NoDup_submseteq.
  - apply NoDup_fmap_2; [apply _|]. apply NoDup_filter, NoDup_seq.
  - intros x (i & -> & [Hv Hi]%list_elem_of_filter)%list_elem_of_fmap. apply elem_of_seq in Hi.
    apply list_elem_of_filter. split; [lia|]. rewrite validIdx_perm. apply indexed_elem; [done|].
    destruct (SigningCommittees info !! i) as [m|] eqn:E; [|done]. cbn in Hv. apply Z.eqb_eq in Hv.
    destruct (Votes info !! blsKey m) as [v|] eqn:Ev; [|done]. cbn in Hv. exists (blsKey m), v.
    split_and!; [done..|lia|]. rewrite Nat2Z.id, list_lookup_fmap. by rewrite E.
Qed.

(** C17: what a node aggregates from more than two thirds of valid votes of the members, the fixed
    nodes among them, is a certificate that the chain accepts. *)
Theorem aggregated_certificate_accepted info d : named (SigningCommittees info) →
  (∀ k v, Votes info !! k = Some v → IsValid v = 1 → k ∈ blsKey <$> SigningCommittees info) →
  twoThirds (lenZ (SigningCommittees info)) < countStatus 1 (Votes info) →
  ValidateFixNodeMajority info = Ok true →
  (createBLSAggregatedSignatures (SigningCommittees info) (ProposeHash (block info)) (field info) (Votes info)).1 = Ok d →
  ValidateCommitteeSig (block info) (Some d) (SigningCommittees info) (NumberOfFixNode info) = true.
Proof.
  intros Hnd Hm Hn Hfix Hd. unfold createBLSAggregatedSignatures in Hd. rewrite getS_bind in Hd.
  rewrite (Extract_named _ Hnd) in Hd. unfold CombineVotes in Hd. case_decide; [done|].
  destruct (votesAt _ _ _) as [vs| | |]; [|done..]. cbn in Hd.
  destruct (BLSCombine _) as [agg|]; [|done]. cbn in Hd.
  destruct (field info) as [f|]; [|done]. unfold mbind, M_bind, lift, mret, outcome_ret, M_ret in Hd. cbn in Hd.
  destruct (validateBLSSig _ _ _ (SigningCommittees info)) eqn:Hbls; [|done]. injection Hd as <-.
  set (idx := validIdx (Votes info) (blsKey <$> SigningCommittees info)) in *. cbn.
  rewrite Hbls, andb_true_r. apply andb_true_iff. split.
  - unfold enoughFixNodes. unfold ValidateFixNodeMajority in Hfix.
    destruct (Z.eqb_spec GetLatestReduceFixNodeVersion 0); [done|]. cbn [orb negb andb] in *.
    destruct (Z.ltb_spec (GetVersion (block info)) GetLatestReduceFixNodeVersion);
      [by rewrite (proj2 (Z.leb_gt _ _))|].
    rewrite (proj2 (Z.leb_le _ _)) by done. destruct (NumberOfFixNode info =? 0); [done|].
    apply outcome_bind_Ok in Hfix as (cnt & Hcnt & [= Hmaj]). apply Z.ltb_lt in Hmaj. apply Z.ltb_lt.
    pose proof (fixNodes_in_certificate _ _ Hnd Hcnt) as Hfx. fold idx in Hfx. lia.
  - unfold CheckValidationDataWithCommittee.
    unfold validateBLSSig, Verify in Hbls. apply andb_true_iff in Hbls as [[_ H1%Z.leb_le]%andb_true_iff _].
    unfold lenZ in H1. rewrite length_fmap in H1. fold (lenZ (SigningCommittees info)) in H1.
    rewrite (proj2 (Z.ltb_ge _ _)) by done.
    pose proof (validIdx_length (Votes info) (blsKey <$> SigningCommittees info) Hm) as Hlen. fold idx in Hlen.
    unfold twoThirds in Hn. rewrite (Z.mul_comm 2) in Hn. rewrite (proj2 (Z.ltb_ge _ _)) by lia.
    by apply validIdx_increasing, Hnd.
Qed.

(** ** The proof of lock change of an honest proposer *)

Lemma at_index_nat {A} (l : list A) n x : l !! n = Some x → at_index l (Z.of_nat n) = Ok x.
Proof. intros Hn. unfold at_index. destruct (Z.ltb_spec (Z.of_nat n) 0); [lia|]. by rewrite Nat2Z.id, Hn. Qed.

(** A checked prevote of a member, of the form in which the actor makes them. *)
Definition plainPrevote (info : ProposeBlockInfo) (k : string) (v : BFTVote) : Prop :=
  BlockHash v = ProposeHash (block info) ∧ BlockHeight v < ByzantineDetectorHeight ∧
  BLS v = EmptyString ∧ BRI v = EmptyString ∧
  ∃ m, m ∈ SigningCommittees info ∧ blsKey m = k ∧ bridgeKey m ≠ EmptyString ∧
    validateVoteOwner v (bridgeKey m) = true.

Lemma plain_vote_data info v polc pk : BlockHash v = ProposeHash (block info) → BlockHeight v < ByzantineDetectorHeight →
  BLS v = EmptyString → BRI v = EmptyString → 0 < ByzantineDetectorHeight →
  polc_BlockProposeHash polc = ProposeHash (block info) → ∀ info2 key,
  validateVoteOwner (polcVote info2 polc pk (Confirmation v)) key = validateVoteOwner v key.
Proof.
  intros Hb Hh Hbls Hbri Hd Hp info2 key. unfold validateVoteOwner, voteData. cbn.
  by rewrite (proj2 (Z.ltb_lt _ _) Hh), (proj2 (Z.ltb_lt _ _) Hd), Hb, Hbls, Hbri, Hp.
Qed.

Lemma verify_built info info2 polc pre rest : named (SigningCommittees info) →
  SigningCommittees info2 = SigningCommittees info → 0 < ByzantineDetectorHeight →
  polc_BlockProposeHash polc = ProposeHash (block info) →
  polc_Sig polc = (λ kv : string * BFTVote, Confirmation kv.2) <$> (pre ++ rest) →
  Forall (λ kv : string * BFTVote, plainPrevote info kv.1 kv.2) rest →
  verifyPOLCSigs info2 polc (lenZ pre)
    ((λ kv : string * BFTVote, IndexOfStr kv.1 (blsKey <$> SigningCommittees info)) <$> rest) = Ok true.
Proof.
  intros Hnd HC Hd Hp. revert pre. induction rest as [|[k v] rest IH]; intros pre Hsig Hall; [done|].
  apply Forall_cons in Hall as [(Hb & Hh & Hbls & Hbri & m & Hm & Hk & Hbk & Hval) Hall]. cbn [fmap list_fmap fst snd] in *.
  apply list_elem_of_lookup_1 in Hm as (n & Hn).
  assert ((blsKey <$> SigningCommittees info) !! n = Some k) as Hkn by (rewrite list_lookup_fmap, Hn; by rewrite <- Hk).
  rewrite (IndexOfStr_lookup _ k (proj1 Hnd) n Hkn). cbn [verifyPOLCSigs]. rewrite HC, (Extract_named _ Hnd).
  rewrite (at_index_nat _ n k Hkn). cbn [mbind outcome_bind].
  unfold lenZ. rewrite (at_index_nat (polc_Sig polc) (List.length pre) (Confirmation v)).
  2: { by rewrite Hsig, list_lookup_fmap, list_lookup_middle. }
  cbn [mbind outcome_bind]. rewrite (at_index_nat _ n m Hn). cbn [mbind outcome_bind].
  rewrite decide_False by done. rewrite (plain_vote_data info v polc k), Hval by done.
  specialize (IH (pre ++ [(k, v)])). unfold lenZ in IH. rewrite length_app in IH. cbn in IH.
  rewrite Nat2Z.inj_add in IH. apply IH; [|done]. by rewrite <- app_assoc.
Qed.

(** C18: the proof that a proposer builds from the prevotes of a block is accepted with every
    block of the same content. If every prevote marked as checked has the form in which the
    actor makes them ([plainPrevote]: it names the proposal it is kept for, is below the height
    of the byzantine detector, carries no BLS or bridge signature, and verifies under a member's
    bridge key), more than two thirds of the committee prevoted so, the members have different,
    non-empty keys, and the detector's height is positive, then every node with the same
    committee whose lock is not newer accepts the proof. (Checked prevotes of another form
    poison the proof: see the divergences.) *)
Theorem built_POLC_verifies c slot info info2 lock : named (SigningCommittees info) →
  SigningCommittees info2 = SigningCommittees info → BlockHashOf (block info2) = BlockHashOf (block info) →
  0 < ByzantineDetectorHeight →
  (∀ k v, PreVotes info !! k = Some v → IsValid v = 1 → plainPrevote info k v) →
  twoThirds (lenZ (SigningCommittees info)) < countStatus 1 (PreVotes info) →
  newerThanLock c (buildPOLCFromPreVote slot info) lock = Ok true →
  verifyPOLCFromPreVote c info2 (buildPOLCFromPreVote slot info) lock = Ok true.
Proof.
  intros Hnd HC Hh Hd Hplain Hn Hnew. unfold verifyPOLCFromPreVote.
  set (valid := filter (λ kv : string * BFTVote, IsValid kv.2 = 1) (map_to_list (PreVotes info))).
  assert (lenZ (polc_Idx (buildPOLCFromPreVote slot info)) = countStatus 1 (PreVotes info)) as Hlen.
  { cbn. unfold lenZ. rewrite length_fmap. unfold countStatus. f_equal. rewrite map_filter_alt, map_size_list_to_map; [done|].
    apply (sublist_NoDup _ ((map_to_list (PreVotes info)).*1)); [apply NoDup_fst_map_to_list|]. apply fmap_sublist, sublist_filter. }
  assert (0 ≤ twoThirds (lenZ (SigningCommittees info))) as H0.
  { unfold twoThirds, lenZ. apply Z.quot_pos; lia. }
  rewrite decide_False; [|intros He; rewrite He in Hlen; unfold lenZ in Hlen; cbn in Hlen; lia].
  rewrite decide_False by (cbn; naive_solver). rewrite Hnew. cbn [mbind outcome_bind negb].
  assert (verifyPOLCSigs info2 (buildPOLCFromPreVote slot info) 0 (polc_Idx (buildPOLCFromPreVote slot info)) = Ok true) as ->.
  { unfold buildPOLCFromPreVote at 2. cbn [polc_Idx]. rewrite (Extract_named _ Hnd).
    apply (verify_built info info2 _ [] valid); try done.
    apply Forall_forall. intros [k v] [Hv Hin%elem_of_map_to_list]%list_elem_of_filter. by apply Hplain. }
  cbn [mbind outcome_bind andb]. rewrite Hlen, HC. by rewrite (proj2 (Z.ltb_lt _ _) Hn).
Qed.

End Certificate.
