(* ===== verification/BftExample.v ===== *)
(** A beacon committee of four, one of them byzantine, run by the definitions: a proposal is
    prevoted and voted, proposed again in the next slot and committed, and a block with another
    content is refused by the locks.  The run shows that the hypotheses of the agreement theorem
    can hold. *)
From S2P Require Import Prelude BftVote BftNode BftActor BftInvariant BftSteps BftAgreement BftCertificate.
From Stdlib Require Import Ascii.

Local Open Scope Z_scope.

#[export] Instance BFTVote_eq : EqDecision BFTVote.
Proof. solve_decision. Defined.
#[export] Instance Block_eq : EqDecision Block.
Proof. solve_decision. Defined.
#[export] Instance POLC_eq : EqDecision POLC.
Proof. solve_decision. Defined.

(** ** The committee and the blocks *)
Fixpoint rep (n : nat) (c : ascii) : string := match n with O => EmptyString | S n => String c (rep n c) end.

#[local] Instance exCfg : BftConfig := {| ByzantineDetectorHeight := 1000000000000; FeatureVersion := ∅ |}.

(** A signature is the key and what it signs; an aggregate is all of them in a row. *)
Definition exSign (k d : string) : string := k +:+ d.
Definition exCombine (sigs : list string) : string := foldr String.append EmptyString sigs.

Definition exProposeHash (b : Block) : string :=
  rep 64 (if GetProposeTime b =? 100 then "1"%char else if GetProposeTime b =? 110 then "2"%char
          else if GetProposeTime b =? 120 then "3"%char else "4"%char).

#[local] Instance exCrypto : BftCrypto := {|
  HashB := λ s, s;
  BriSign := λ k d, Some (exSign k d);
  BriVerify := λ k d s, bool_decide (s = exSign k d);
  BLSSign := λ k d _ _, Some (exSign k d);
  BLSCombine := λ sigs, Some (exCombine sigs);
  BLSPairing := λ s d idx keys, bool_decide (s = exCombine (omap (λ j, (λ k, exSign k d) <$> keys !! Z.to_nat j) idx));
  ProposeHash := exProposeHash;
  BlockHashOf := blockRest;
  HasBridgeInstructions := λ _, false;
  PortalSign := λ _ _, Some [];
  ToBase58 := blsKey;
|}.

Definition exKeyName (i : nat) : string :=
  match i with 0 => "k0" | 1 => "k1" | 2 => "k2" | _ => "k3" end%nat.
Definition exMember (i : nat) : CommitteePublicKey := mkKey (exKeyName i) (exKeyName i).
Definition exKey (i : nat) : MiningKey := mkMiningKey (exMember i) (exKeyName i) (exKeyName i).
Definition exCommittee : list CommitteePublicKey := [exMember 0; exMember 1; exMember 2; exMember 3].

(** Proposed at the times 100, 110 and 120; the third has another content. *)
Definition exBlock (time : Z) (content : string) : Block := mkBlock 6 "prev" 100 time "k3" 9 0 [] content.
Definition exB1 : Block := exBlock 100 (rep 64 "a").
Definition exB2 : Block := exBlock 110 (rep 64 "a").
Definition exB3 : Block := exBlock 120 (rep 64 "b").

#[local] Instance exRunOf : BftRun := {|
  runBlocks := λ b, b ∈ [exB1; exB2; exB3];
  slotOf := λ t, t / 10;
  heightOf := λ h, if decide (h = "prev") then 5 else 0;
  committeeAt := λ _, exCommittee;
  host := λ k, if decide (k = "k0") then Some 0%nat else if decide (k = "k1") then Some 1%nat
               else if decide (k = "k2") then Some 2%nat else None;
|}.

Definition noData : ValidationData := mkValidationData EmptyString EmptyString [] EmptyString [] [].

(** ** The chain, at height five *)
Definition exPrevious : Block := mkBlock 5 EmptyString 90 90 "k3" 9 5 [] (rep 64 "c").
Definition exView : View := mkView "prev" 5 (λ t, t / 10) exCommittee 4 exPrevious.
Definition exChain : Chain := {|
  IsReady := true;
  GetBestView := exView;
  GetViewByHash := λ h, if decide (h = "prev") then Some exView else None;
  GetFinalViewHeight := 4;
  GetBlockByHash := λ h, if decide (h = "prev") then Some exPrevious else None;
  GetProposerByTimeSlot := λ _ _, exMember 3;
  CreateNewBlock := λ _ _, None;
  CreateNewBlockFromOldBlock := λ _ _ _, None;
  ValidatePreSignBlock := λ b _, (GetHeight b =? 6) && bool_decide (GetPrevHash b = "prev");
  InsertBlock := λ _ _, true;
|}.

Lemma exChain_good : good_chain 4 exChain.
Proof.
  constructor; try done.
  - intros v [-> |[h Hv]] t; [done|]. cbn in Hv. case_decide; by simplify_eq.
  - intros b Hv. apply andb_true_iff in Hv as [Hh%Z.eqb_eq Hp%bool_decide_eq_true]. rewrite Hp, Hh. done.
Qed.

Lemma exGood : GoodRun.
Proof.
  constructor; cbn [runBlocks exRunOf].
  - intros b b' Hb Hb'. rewrite !elem_of_cons in Hb, Hb'.
    destruct Hb as [-> |[-> |[-> |Hb]]]; [..|by apply not_elem_of_nil in Hb];
    (destruct Hb' as [-> |[-> |[-> |Hb']]]; [..|by apply not_elem_of_nil in Hb']); done.
  - intros b b' Hb Hb'. rewrite !elem_of_cons in Hb, Hb'.
    destruct Hb as [-> |[-> |[-> |Hb]]]; [..|by apply not_elem_of_nil in Hb];
    (destruct Hb' as [-> |[-> |[-> |Hb']]]; [..|by apply not_elem_of_nil in Hb']); done.
  - intros b Hb. rewrite !elem_of_cons in Hb. destruct Hb as [-> |[-> |[-> |Hb]]]; [done..|by apply not_elem_of_nil in Hb].
  - intros b Hb. rewrite !elem_of_cons in Hb. destruct Hb as [-> |[-> |[-> |Hb]]]; [done..|by apply not_elem_of_nil in Hb].
  - intros t t' Ht. cbn. apply Z.div_le_mono; lia.
  - intros b Hb. rewrite !elem_of_cons in Hb. destruct Hb as [-> |[-> |[-> |Hb]]]; [done..|by apply not_elem_of_nil in Hb].
  - intros h. apply (bool_decide_eq_true_1 _). by vm_compute.
  - intros h. apply (bool_decide_eq_true_1 _). by vm_compute.
Qed.

(** ** Running events

    An executable form of [allowed]: a proposal without proof of lock change, a vote that is in
    the log, and the ticks of one chain. *)
Definition storeKeys (a : actorV3) : list string := (map_to_list (receiveBlockByHash a)).*1.

Definition orderAll (keys : list string) : Orders :=
  mkOrders keys keys keys (λ _, keys) keys (λ _, keys) keys keys.

Inductive ExEvent :=
  | Receive (b : Block) (polc : POLC)
  | Deliver (from : nat) (phase : string) (b : Block)
  | Slot
  | Replay (from : nat) (b : Block)   (* a prevote that was sent, as a vote *)
  | Forge (v : BFTVote).

Definition set_Phase (x : string) (v : BFTVote) : BFTVote :=
  mkVote x (PrevBlockHash v) (BlockHeight v) (BlockHash v) (vHash v) (Validator v)
    (BLS v) (BRI v) (Confirmation v) (IsValid v) (ProduceTimeSlot v) (ProposeTimeSlot v)
    (CommitteeFromBlock v) (ChainID v) (PortalSigs v).

(** The message a node sent, from the log. *)
Definition findVote (L : Log) (from : nat) (phase : string) (b : Block) : option BFTVote :=
  snd <$> head (filter (λ x : nat * BFTVote, x.1 = from ∧ Phase x.2 = phase ∧ BlockHash x.2 = ProposeHash b) L).

Definition exEventOf (s : Sys) (a : actorV3) (e : ExEvent) : option Event :=
  match e with
  | Receive b polc => Some (ProposeMsg (mkPropose (Some b) (Some noData) polc) (storeKeys a))
  | Deliver from phase b => VoteMsg <$> findVote (sysLog s) from phase b
  | Slot => Some (Tick (orderAll (storeKeys a)))
  | Replay from b => (λ v, VoteMsg (set_Phase "vote" v)) <$> findVote (sysLog s) from "prevote" b
  | Forge v => Some (VoteMsg v)
  end.

(** One event at a node, at a time in seconds. *)
Definition exStep (s : Sys) (x : nat * Z * ExEvent) : option Sys :=
  let '(i, now, e) := x in
  n ← nodes s !! i;
  e ← exEventOf s (actor n) e;
  match run exChain (now * second) e (actor n) with
  | (Ok tt, a') => Some (mkSys (<[i := mkNode (set_sent [] a') (Z.max (final n) 4)]> (nodes s)) (sentVotes i a' ++ sysLog s))
  | _ => None
  end.

Definition exNode (i : nat) : Node := mkNode (mkActor [exKey i] 0 0 ∅ ∅ 0 ∅ ∅ ∅ []) 4.
Definition exStart : Sys := mkSys (<[0%nat := exNode 0]> (<[1%nat := exNode 1]> {[2%nat := exNode 2]})) [].

(** A slot in which every node receives [b], prevotes, hears the prevotes and votes. *)
Definition at3 (now : Z) (e : ExEvent) : list (nat * Z * ExEvent) := [(0%nat, now, e); (1%nat, now, e); (2%nat, now, e)].
Definition exRound (now : Z) (b : Block) (polc : POLC) : list (nat * Z * ExEvent) :=
  at3 now (Receive b polc) ++ at3 now Slot ++
  at3 (now + 1) (Deliver 0 "prevote" b) ++ at3 (now + 1) (Deliver 1 "prevote" b) ++ at3 (now + 1) (Deliver 2 "prevote" b) ++
  at3 (now + 2) Slot.

Definition exVotes (now : Z) (b : Block) : list (nat * Z * ExEvent) :=
  [(0%nat, now, Deliver 0 "vote" b); (0%nat, now, Deliver 1 "vote" b); (0%nat, now, Deliver 2 "vote" b); (0%nat, now, Slot)].

(** The first proposal is voted for and not committed; it is proposed again and committed by
    node 0; then another content is proposed, which the locks refuse. *)
Definition exEvents : list (nat * Z * ExEvent) :=
  exRound 100 exB1 emptyPOLC ++ exRound 110 exB2 emptyPOLC ++ exVotes 113 exB2 ++
  at3 120 (Receive exB3 emptyPOLC) ++ at3 120 Slot.

(** ** The run is a run of the system *)
Definition signedLog (L : Log) : bool :=
  forallb (λ x : nat * BFTVote, bool_decide (Confirmation x.2 = exSign (exKeyName x.1) (voteData x.2))) L.

Definition exAllowed (s : Sys) (x : nat * Z * ExEvent) : bool :=
  let '(i, now, e) := x in
  match nodes s !! i with
  | None => false
  | Some n =>
      (final n =? 4) &&
      match e with
      | Receive b polc => bool_decide (b ∈ [exB1; exB2; exB3]) && bool_decide (polc = emptyPOLC)
      | Deliver _ _ _ => signedLog (sysLog s)
      | Slot => (currentTimeSlot (actor n) <=? now / 10) &&
                forallb (λ kv : string * ProposeBlockInfo, blockSlot (block kv.2) <=? now / 10)
                  (map_to_list (receiveBlockByHash (actor n)))
      | _ => false
      end
  end.

Lemma exHost m i : m ∈ exCommittee → host (blsKey m) = Some i → m = exMember i ∧ (i < 3)%nat.
Proof.
  unfold exCommittee. rewrite !elem_of_cons.
  intros [-> |[-> |[-> |[-> |Hm]]]] Hi; [vm_compute in Hi..|by apply not_elem_of_nil in Hm];
    simplify_eq; (split; [done|lia]).
Qed.

Lemma signed_unforged L j v : signedLog L = true → (j, v) ∈ L → unforged L v.
Proof.
  intros Hs Hin h m i Hm Hi Hv. exists v. split; [|done]. unfold signedLog in Hs. rewrite forallb_forall in Hs.
  specialize (Hs _ (proj1 (list_elem_of_In _ _) Hin)). apply bool_decide_eq_true in Hs. cbn in Hs, Hv.
  apply bool_decide_eq_true in Hv. rewrite Hs in Hv. destruct (exHost m i Hm Hi) as [-> Hi3].
  apply app_prefix_inj in Hv.
  - destruct i as [|[|[|]]], j as [|[|[|]]]; try done; lia.
  - by destruct i as [|[|[|]]], j as [|[|[|]]].
Qed.

Lemma findVote_elem L from phase b v : findVote L from phase b = Some v → ∃ j, (j, v) ∈ L.
Proof.
  unfold findVote. intros ([j w] & Hh & ->)%fmap_Some. exists j.
  apply head_Some_elem_of, list_elem_of_filter in Hh. cbn. by destruct Hh.
Qed.

Lemma storeKeys_covers a : covers (receiveBlockByHash a) (storeKeys a).
Proof.
  intros q [info Hq]%elem_of_dom. unfold storeKeys. apply list_elem_of_fmap. exists (q, info).
  by rewrite elem_of_map_to_list.
Qed.

Lemma exStep_step s x s' : exAllowed s x = true → exStep s x = Some s' → step s s'.
Proof.
  destruct x as [[i now] e]. unfold exStep, exAllowed. destruct (nodes s !! i) as [n|] eqn:Hn; [|done].
  intros [Hf%Z.eqb_eq Hal]%andb_true_iff. cbn [mbind option_bind].
  destruct (exEventOf s (actor n) e) as [ev|] eqn:He; [|done]. cbn [mbind option_bind].
  destruct (run exChain (now * second) ev (actor n)) as [[[]| | |] a'] eqn:Hr; [|done..]. intros [= <-].
  apply (step_run s i n exChain (now * second) ev a'); [done| |done]. split; [rewrite Hf; apply exChain_good|].
  assert (now * second / second = now) as Hnow by (by apply Z.div_mul).
  destruct e as [b polc|from phase b| |from b|v]; cbn in He; try discriminate Hal.
  - injection He as <-. apply andb_true_iff in Hal as [Hb%bool_decide_eq_true Hp%bool_decide_eq_true].
    cbn. rewrite Hp. split_and!; [|by left| |apply storeKeys_covers].
    + by intros b' [= <-].
    + intros info v sig Hsig. by apply not_elem_of_nil in Hsig.
  - apply fmap_Some in He as (v & Hv & ->). destruct (findVote_elem _ _ _ _ _ Hv) as [j Hj].
    by eapply signed_unforged.
  - injection He as <-. apply andb_true_iff in Hal as [Ht%Z.leb_le Hall]. rewrite Hnow. split_and!; [done| |].
    + intros p info Hp. rewrite forallb_forall in Hall.
      specialize (Hall (p, info) (proj1 (list_elem_of_In _ _) (proj2 (elem_of_map_to_list _ _ _) Hp))).
      by apply Z.leb_le in Hall.
    + intros p. apply storeKeys_covers.
Qed.

(** Run and check at once. *)
Fixpoint exCheck (s : Sys) (xs : list (nat * Z * ExEvent)) : option Sys :=
  match xs with
  | [] => Some s
  | x :: xs => if exAllowed s x then s' ← exStep s x; exCheck s' xs else None
  end.

Lemma exCheck_reach s xs s' : exCheck s xs = Some s' → rtc step s s'.
Proof.
  revert s. induction xs as [|x xs IH]; intros s; cbn; [by intros [= <-]|].
  destruct (exAllowed s x) eqn:Ha; [|done]. intros (s1 & H1 & Hr)%bind_Some.
  eapply rtc_l; [by eapply exStep_step|by apply IH].
Qed.

Definition exEnd : Sys := default exStart (exCheck exStart exEvents).

(** What the honest nodes sent, from the first message on: none signed for the third block. *)
Example ex_log :
  (λ x : nat * BFTVote, (x.1, Phase x.2, String.substring 0 1 (BlockHash x.2))) <$> reverse (sysLog exEnd) =
  [(0%nat, "prevote", "1"); (1%nat, "prevote", "1"); (2%nat, "prevote", "1");
   (0%nat, "vote", "1"); (1%nat, "vote", "1"); (2%nat, "vote", "1");
   (0%nat, "prevote", "2"); (1%nat, "prevote", "2"); (2%nat, "prevote", "2");
   (0%nat, "vote", "2"); (1%nat, "vote", "2"); (2%nat, "vote", "2")].
Proof. vm_compute. reflexivity. Qed.

Lemma exEnd_reach : rtc step exStart exEnd.
Proof.
  apply (exCheck_reach exStart exEvents). unfold exEnd.
  assert (is_Some (exCheck exStart exEvents)) as [s ->]; [|done].
  apply (bool_decide_eq_true_1 _). vm_compute. reflexivity.
Qed.

Lemma exStart_starts : starts exStart.
Proof.
  split; [done|]. intros i n. cbn. intros [[<- <-]|[_ [[<- <-]|[_ [<- <-]%lookup_singleton_Some]]%lookup_insert_Some]]%lookup_insert_Some; done.
Qed.

(** ** The certificates *)

(** Made of the votes of the log that name a block. *)
Definition votesOf (L : Log) (b : Block) : gmap string BFTVote :=
  list_to_map ((λ x : nat * BFTVote, (Validator x.2, set_IsValid 1 x.2))
    <$> filter (λ x : nat * BFTVote, Phase x.2 = "vote" ∧ BlockHash x.2 = ProposeHash b) L).

Definition certOf (L : Log) (b : Block) : ValidationData :=
  match (createBLSAggregatedSignatures exCommittee (ProposeHash b) (Some noData) (votesOf L b)).1 with
  | Ok d => d
  | _ => noData
  end.

Definition exCert (b : Block) : ValidationData := certOf (sysLog exEnd) b.

Example exCert_1 : ValidatiorsIdx (exCert exB1) = [0; 1; 2].
Proof. vm_compute. reflexivity. Qed.

(** Node 0 committed the second proposal with the same positions. *)
Example exCommitted :
  match nodes exEnd !! 0%nat with
  | Some n => (λ i, (IsCommitted i, ValidatiorsIdx <$> field i)) <$> receiveBlockByHash (actor n) !! ProposeHash exB2
  | None => None
  end = Some (true, Some [0; 1; 2]).
Proof. vm_compute. reflexivity. Qed.

Definition votedForb (L : Log) (i : nat) (b : Block) : bool :=
  existsb (λ x : nat * BFTVote, bool_decide (x.1 = i) && bool_decide (Phase x.2 = "vote") &&
                                bool_decide (BlockHash x.2 = ProposeHash b)) L.

Lemma votedForb_true L i b : votedForb L i b = true → votedFor L i b.
Proof.
  unfold votedForb. rewrite existsb_exists. intros ([j v] & Hin & Hv). rewrite !andb_true_iff in Hv.
  destruct Hv as [[Hj%bool_decide_eq_true Hp%bool_decide_eq_true] Hb%bool_decide_eq_true]. cbn in *. subst j.
  exists v. by rewrite list_elem_of_In.
Qed.

Lemma ex_votes b i : b = exB1 ∨ b = exB2 → (i < 3)%nat → votedFor (sysLog exEnd) i b.
Proof.
  intros [-> | ->] Hi; apply votedForb_true; destruct i as [|[|[|]]]; try lia; by vm_compute.
Qed.

Lemma ex_unforged b : b = exB1 ∨ b = exB2 → bls_unforged (sysLog exEnd) b (exCert b).
Proof.
  intros Hb _ j m i _ Hm Hi. apply ex_votes; [done|].
  by destruct (exHost m i (list_elem_of_lookup_2 _ _ _ Hm) Hi).
Qed.

(** The third content was never signed for. *)
Lemma ex_one_per_slot : one_per_slot (sysLog exEnd).
Proof.
  assert (∀ i b, runBlocks b → signedFor (sysLog exEnd) i b → BlockHashOf b = rep 64 "a") as Ha.
  { intros i b Hb (v & Hin & Hv).
    assert (forallb (λ x : nat * BFTVote, negb (bool_decide (BlockHash x.2 = ProposeHash exB3))) (sysLog exEnd) = true) as Hno
      by by vm_compute.
    rewrite forallb_forall in Hno. specialize (Hno _ (proj1 (list_elem_of_In _ _) Hin)). cbn in Hno.
    apply negb_true_iff, bool_decide_eq_false in Hno. cbn in Hb. rewrite !elem_of_cons in Hb.
    destruct Hb as [-> |[-> |[-> |Hb]]]; [done..|by apply not_elem_of_nil in Hb]. }
  intros i i' b b' Hb Hb' Hs Hs' _ _. by rewrite (Ha i b), (Ha i' b').
Qed.

Lemma beacon_agreement_witness :
  exB1 ≠ exB2 ∧ BlockHashOf exB1 = BlockHashOf exB2 ∧ BlockHashOf exB1 ≠ BlockHashOf exB3.
Proof.
  split; [done|]. split; [|done].
  apply (@beacon_agreement _ _ _ exGood exStart exEnd exB1 exB2 (exCert exB1) (exCert exB2) 0 0).
  - apply exStart_starts.
  - apply exEnd_reach.
  - apply ex_one_per_slot.
  - by left.
  - right. by left.
  - done.
  - vm_compute. reflexivity.
  - apply ex_unforged. by left.
  - apply ex_unforged. by right.
  - vm_compute. reflexivity.
  - vm_compute. reflexivity.
Defined.

(** ** What node 0 knows at the end *)
Definition noInfo (b : Block) : ProposeBlockInfo := newInfo (actor (exNode 0)) exChain 0 b None exView.

Definition exInfo (b : Block) : ProposeBlockInfo :=
  default (noInfo b) (n ← nodes exEnd !! 0%nat; receiveBlockByHash (actor n) !! ProposeHash b).

Lemma exCommittee_named : named exCommittee.
Proof. split; apply (bool_decide_eq_true_1 _); by vm_compute. Qed.

Lemma exInfo_committee b : b = exB1 ∨ b = exB2 → SigningCommittees (exInfo b) = exCommittee.
Proof. intros [-> | ->]; vm_compute; reflexivity. Qed.

(** A check of all entries of a map. *)
Lemma check_entries {A} (P : string → A → bool) (m : gmap string A) :
  forallb (λ kv, P kv.1 kv.2) (map_to_list m) = true → ∀ k v, m !! k = Some v → P k v = true.
Proof.
  rewrite forallb_forall. intros Hall k v Hk.
  exact (Hall (k, v) (proj1 (list_elem_of_In _ _) (proj2 (elem_of_map_to_list _ _ _) Hk))).
Qed.

Lemma aggregated_certificate_accepted_witness :
  twoThirds (lenZ (SigningCommittees (exInfo exB2))) = 2 ∧
  ValidateCommitteeSig exB2 (Some (exCert exB2)) (SigningCommittees (exInfo exB2)) (NumberOfFixNode (exInfo exB2)) = true.
Proof.
  split; [by vm_compute|]. replace exB2 with (block (exInfo exB2)) at 1 by (vm_compute; reflexivity).
  apply (aggregated_certificate_accepted (exInfo exB2)).
  - rewrite (exInfo_committee exB2) by (by right). apply exCommittee_named.
  - intros k v Hk Hv. rewrite (exInfo_committee exB2) by (by right).
    apply (bool_decide_eq_true_1 _), (check_entries (λ k _, bool_decide (k ∈ blsKey <$> exCommittee)) (Votes (exInfo exB2)) ltac:(by vm_compute) k v Hk).
  - vm_compute. reflexivity.
  - vm_compute. reflexivity.
  - vm_compute. reflexivity.
Defined.

(** A checked prevote as [plainPrevote] wants it, with the member that signed it. *)
Definition plainb (b : Block) (k : string) (v : BFTVote) : bool :=
  bool_decide (BlockHash v = ProposeHash b) && (BlockHeight v <? ByzantineDetectorHeight) &&
  bool_decide (BLS v = EmptyString) && bool_decide (BRI v = EmptyString) &&
  existsb (λ m, bool_decide (blsKey m = k) && bool_decide (bridgeKey m ≠ EmptyString) && validateVoteOwner v (bridgeKey m)) exCommittee.

Lemma plainb_true b k v : b = exB1 ∨ b = exB2 → plainb b k v = true → plainPrevote (exInfo b) k v.
Proof.
  intros Hb. unfold plainb. rewrite !andb_true_iff, existsb_exists.
  intros [[[[H1%bool_decide_eq_true H2%Z.ltb_lt] H3%bool_decide_eq_true] H4%bool_decide_eq_true] (m & Hm & Hv)].
  rewrite !andb_true_iff in Hv. destruct Hv as [[Hk%bool_decide_eq_true Hbk%bool_decide_eq_true] Hval].
  assert (ProposeHash (block (exInfo b)) = ProposeHash b) as Hp by (destruct Hb as [-> | ->]; vm_compute; reflexivity).
  split_and!; [congruence|exact H2|exact H3|exact H4|]. exists m. rewrite (exInfo_committee b Hb).
  split_and!; [by apply list_elem_of_In|exact Hk|exact Hbk|exact Hval].
Qed.

(** The proof built for the first proposal is accepted with the second one, over the lock. *)
Lemma built_POLC_verifies_witness :
  verifyPOLCFromPreVote exChain (noInfo exB2) (buildPOLCFromPreVote (λ t, t / 10) (exInfo exB1)) (Some (exInfo exB1)) = Ok true.
Proof.
  apply (built_POLC_verifies exChain (λ t, t / 10) (exInfo exB1) (noInfo exB2) (Some (exInfo exB1))).
  - rewrite (exInfo_committee exB1) by (by left). apply exCommittee_named.
  - by rewrite (exInfo_committee exB1) by (by left).
  - vm_compute. reflexivity.
  - done.
  - intros k v Hk _. apply plainb_true; [by left|].
    apply (check_entries (plainb exB1) (PreVotes (exInfo exB1)) ltac:(by vm_compute) k v Hk).
  - vm_compute. reflexivity.
  - vm_compute. reflexivity.
Defined.
