(* ===== verification/BftDivergence.v ===== *)
(** Where the consensus of the beacon chain does not do what it means to: what a proof of lock
    change does not prove, what the signature of a vote does not cover, and what a node forgets. *)
From S2P Require Import Prelude BftVote BftNode BftActor BftInvariant BftSteps BftAgreement BftExample.
From Stdlib Require Import Ascii.

Local Open Scope Z_scope.

Section Rules.
Context {cfg : BftConfig} {crypto : BftCrypto}.

(** ** The proof of lock change *)

(** C19: below the height of the detector the check of a signature does not read the block's hash or
    the slot: a proof for one block is a proof for every block, in any slot. *)
Lemma polc_transfers c info1 info2 polc lock t : 0 < ByzantineDetectorHeight →
  SigningCommittees info1 = SigningCommittees info2 →
  verifyPOLCFromPreVote c info1 polc None = Ok true →
  let polc2 := mkPOLC (polc_Idx polc) (polc_Sig polc) (polc_BlockProposeHash polc) (BlockHashOf (block info2)) t in
  newerThanLock c polc2 lock = Ok true →
  verifyPOLCFromPreVote c info2 polc2 lock = Ok true.
Proof.
  intros Hd HC Hv polc2 Hn. unfold verifyPOLCFromPreVote in *. cbn [polc_Idx polc_BlockHash polc2].
  case_decide; [done|]. case_decide; [done|]. rewrite decide_False by tauto. rewrite Hn. cbn in Hv |- *.
  assert (∀ k idx, verifyPOLCSigs info2 polc2 k idx = verifyPOLCSigs info1 polc k idx) as Hs.
  { intros k idx. revert k. induction idx as [|x idx IH]; intros k; [done|]. cbn. rewrite <- HC.
    change (polc_Sig polc2) with (polc_Sig polc).
    destruct (at_index (ExtractPublickeysFromCommitteeKeyList _) x) as [pk| | |]; try done. cbn.
    destruct (at_index (polc_Sig polc) k) as [sig| | |]; try done. cbn.
    destruct (at_index (SigningCommittees info1) x) as [m| | |]; try done. cbn.
    case_decide; [done|].
    assert (validateVoteOwner (polcVote info2 polc2 pk sig) (bridgeKey m) = validateVoteOwner (polcVote info1 polc pk sig) (bridgeKey m)) as ->.
    { unfold validateVoteOwner, voteData. cbn. by rewrite (proj2 (Z.ltb_lt 0 _) Hd). }
    destruct (validateVoteOwner _ _); [apply IH|done]. }
  rewrite Hs, <- HC. apply Hv.
Qed.

(** The comment asks for a slot later than the lock's; the lock's own slot is accepted. *)
Lemma polc_same_slot c polc l view : GetViewByHash c (GetPrevHash (block l)) = Some view →
  polc_Timeslot polc = CalculateTimeSlot view (GetProposeTime (block l)) → newerThanLock c polc (Some l) = Ok true.
Proof. intros Hv Ht. cbn. rewrite Hv, Ht. by rewrite Z.ltb_irrefl. Qed.

(** ** A proposal that extends a block without a view stops the node *)
Lemma unknown_view_panics c now lockOrder m b a : p_Block m = Some b →
  receiveBlockByHash a !! ProposeHash b = None → is_Some (GetBlockByHash c (GetPrevHash b)) →
  v_height (GetBestView c) < GetHeight b → GetViewByHash c (GetPrevHash b) = None →
  (handleProposeMsg c now lockOrder m a).1 = Panic.
Proof.
  intros Hm Hn [pb Hp] Hh Hv. unfold handleProposeMsg. rewrite Hm, getS_bind, Hn, Hp.
  destruct (Z.leb_spec (GetHeight b) (v_height (GetBestView c))); [lia|]. by rewrite Hv.
Qed.

(** ** Votes *)

(** The confirmation does not cover the phase: a prevote is also a vote. *)
Lemma prevote_as_vote v pk : BlockHeight v < ByzantineDetectorHeight →
  validateVoteOwner (set_Phase "vote" v) pk = validateVoteOwner v pk.
Proof.
  intros Hh. unfold validateVoteOwner, voteData. cbn. by rewrite (proj2 (Z.ltb_lt _ _) Hh).
Qed.

(** A forged prevote stays, and keeps the validator's own out; a forged vote is dropped. *)
Lemma forged_prevote_stays info k v : PreVotes info !! k = Some v → IsValid v = -1 →
  PreVotes (validatePreVote info) !! k = Some v.
Proof.
  intros Hk Hv. unfold validatePreVote. destruct (HasNewPreVote info); [|done]. cbn.
  rewrite lookup_fmap, Hk. cbn. unfold checkVote. by rewrite Hv.
Qed.

Lemma own_prevote_ignored a p info v w : receiveBlockByHash a !! p = Some info →
  PreVotes info !! Validator w = Some v → BlockHash w = p →
  receiveBlockByHash (handlePreVoteMsg w a).2 !! p = Some info.
Proof.
  intros Hp Hv Hw. unfold handlePreVoteMsg. rewrite getS_bind. cbn. by rewrite Hw, Hp, Hv.
Qed.

Lemma forged_vote_dropped info k v : HasNewVote info = true → Votes info !! k = Some v → IsValid v = -1 →
  Votes (validateVote info) !! k = None.
Proof.
  intros Hn Hk Hv. unfold validateVote. rewrite Hn. cbn. unfold dropInvalid.
  apply map_lookup_filter_None. right. intros w. rewrite lookup_fmap, Hk. intros [= <-].
  unfold checkVote. rewrite Hv. cbn. rewrite Hv. tauto.
Qed.

(** Prevotes that came before their proposal wait for one more. *)
Lemma early_prevotes_uncounted a c now b d view :
  validatePreVote (newInfo a c now b d view) = newInfo a c now b d view.
Proof. unfold newInfo. by destruct (GetVotesByBlockHashFromDB _ _). Qed.

(** ** Cleaning on a young chain drops every proposal, the locks included *)
Lemma clean_underflow c now info : 0 ≤ GetFinalViewHeight c < 2 → 0 ≤ GetHeight (block info) < word64 - 2 →
  outdated c now info = true.
Proof.
  intros Hf Hh. unfold outdated. apply orb_true_iff. right. apply Z.ltb_lt.
  destruct (sub64_wrap (GetFinalViewHeight c) 2) as [[_ ?]|[-> _]]; unfold in_u64, word64 in *; lia.
Qed.

End Rules.

(** ** Runs of the committee of four *)
#[local] Existing Instances exCfg exCrypto exRunOf.

Definition runAll (xs : list (nat * Z * ExEvent)) : option Sys :=
  foldl (λ s x, s ← s; exStep s x) (Some exStart) xs.

(** Both blocks have a certificate that the chain accepts. *)
Definition bothCertified (s : option Sys) (b1 b2 : Block) : bool :=
  match s with
  | None => false
  | Some s => ValidateCommitteeSig b1 (Some (certOf (sysLog s) b1)) exCommittee 0 &&
              ValidateCommitteeSig b2 (Some (certOf (sysLog s) b2)) exCommittee 0
  end.

(** One byzantine member signs for its own block and names itself three times: the locks on the
    first block open, and two contents are certified. *)
Definition repeatedPOLC : POLC :=
  let sig := exSign "k3" (ProposeHash exB3) in
  mkPOLC [3; 3; 3] [sig; sig; sig] (ProposeHash exB3) (BlockHashOf exB3) 12.

Example repeated_index_breaks_agreement :
  bothCertified (runAll (exRound 100 exB1 emptyPOLC ++ exRound 120 exB3 repeatedPOLC)) exB1 exB3 = true ∧
  GetHeight exB1 = GetHeight exB3 ∧ BlockHashOf exB1 ≠ BlockHashOf exB3.
Proof. split; [vm_compute; reflexivity|done]. Qed.

(** The honest proof for the first content opens the lock on it for the other content. *)
Definition exProof : POLC := buildPOLCFromPreVote (λ t, t / 10) (exInfo exB1).

Lemma polc_transfers_witness : BlockHashOf exB1 ≠ BlockHashOf (block (noInfo exB3)) ∧
  verifyPOLCFromPreVote exChain (noInfo exB3)
    (mkPOLC (polc_Idx exProof) (polc_Sig exProof) (polc_BlockProposeHash exProof) (BlockHashOf (block (noInfo exB3))) 99)
    (Some (exInfo exB1)) = Ok true.
Proof.
  split; [by vm_compute|].
  refine (polc_transfers exChain (noInfo exB1) (noInfo exB3) exProof (Some (exInfo exB1)) 99 _ _ _ _).
  - done.
  - vm_compute. reflexivity.
  - vm_compute. reflexivity.
  - vm_compute. reflexivity.
Defined.

(** Without the proof the locks hold. *)
Example locks_hold :
  bothCertified (runAll (exRound 100 exB1 emptyPOLC ++ at3 120 (Receive exB3 emptyPOLC) ++ at3 120 Slot ++ at3 121 Slot)) exB1 exB3 = false.
Proof. vm_compute. reflexivity. Qed.

(** A proposer that sends two blocks for its slot gets both voted for: the votes of the slot do
    not look at the lock. *)
Definition exB4 : Block := exBlock 105 (rep 64 "b").

Example two_blocks_one_slot :
  let both e := at3 100 (e exB1) ++ at3 100 (e exB4) in
  bothCertified (runAll (both (λ b, Receive b emptyPOLC) ++ at3 106 Slot ++ both (Deliver 0 "prevote") ++
    both (Deliver 1 "prevote") ++ both (Deliver 2 "prevote") ++ at3 107 Slot)) exB1 exB4 = true ∧
  BlockHashOf exB1 ≠ BlockHashOf exB4.
Proof. split; [vm_compute; reflexivity|done]. Qed.

(** A position outside of the committee stops the node. *)
Example polc_index_panics :
  (handleProposeMsg exChain (120 * second) [] (mkPropose (Some exB3) (Some noData)
     (mkPOLC [4] [EmptyString] (ProposeHash exB3) (BlockHashOf exB3) 12)) (actor (exNode 0))).1 = Panic.
Proof. vm_compute. reflexivity. Qed.

(** The state of a proposal at node 0. *)
Definition infoAt (s : option Sys) (b : Block) : option ProposeBlockInfo :=
  s ← s; n ← nodes s !! 0%nat; receiveBlockByHash (actor n) !! ProposeHash b.

(** Prevotes sent again as votes are counted; the aggregate of their empty signatures fails, and
    the proposal is marked as committed all the same, with the validators' own votes kept out. *)
Example replayed_prevotes_stop_commit :
  (λ i, (ValidVotes i, IsCommitted i, AggSig <$> field i)) <$>
    infoAt (runAll (exRound 100 exB1 emptyPOLC ++
      [(0%nat, 103, Replay 0 exB1); (0%nat, 103, Replay 1 exB1); (0%nat, 103, Replay 2 exB1);
       (0%nat, 104, Deliver 0 "vote" exB1); (0%nat, 104, Deliver 1 "vote" exB1); (0%nat, 104, Deliver 2 "vote" exB1);
       (0%nat, 105, Slot)])) exB1
  = Some (3, true, Some EmptyString).
Proof. vm_compute. reflexivity. Qed.

(** A byzantine member adds a byte to its prevote and signs it: the prevote counts, and no proof
    of lock change that includes it verifies. *)
Definition oddPrevote : BFTVote :=
  let v := mkVote "prevote" EmptyString 0 (ProposeHash exB1) (BlockHashOf exB1) "k3" "x" EmptyString
             EmptyString 0 0 10 zeroHash (-1) [] in
  set_Confirmation (exSign "k3" (voteData v)) v.

Example poisoned_polc :
  (λ i, (ValidPreVotes i, verifyPOLCFromPreVote exChain i (buildPOLCFromPreVote (λ t, t / 10) i) None)) <$>
    infoAt (runAll (exRound 100 exB1 emptyPOLC ++ [(0%nat, 103, Forge oddPrevote); (0%nat, 104, Slot)])) exB1
  = Some (4, Ok false).
Proof. vm_compute. reflexivity. Qed.

(** The votes replace the prevotes in the database: a node that restarts a minute later has no
    prevotes, drops the block it voted for, and prevotes another content. *)
Definition restarted (a : actorV3) : actorV3 :=
  (newActor exChain (200 * second) (storeKeys a) [exKey 0] a).2.

Definition afterVotes : option Sys := runAll (exRound 100 exB1 emptyPOLC ++
  [(0%nat, 103, Deliver 0 "vote" exB1); (0%nat, 103, Deliver 1 "vote" exB1); (0%nat, 103, Deliver 2 "vote" exB1)]).

Example restart_unlocks :
  match afterVotes with
  | None => None
  | Some s =>
      match nodes s !! 0%nat with
      | None => None
      | Some n =>
          let a := restarted (actor n) in
          let a1 := (run exChain (205 * second) (ProposeMsg (mkPropose (Some (exBlock 205 (rep 64 "b"))) (Some noData) emptyPOLC) []) a).2 in
          let a2 := (run exChain (206 * second) (Tick (orderAll (storeKeys a1))) a1).2 in
          Some (IsVoted <$> receiveBlockByHash (actor n) !! ProposeHash exB1, storeKeys a,
                (λ x : nat * BFTVote, (Phase x.2, vHash x.2)) <$> sentVotes 0 a2)
      end
  end = Some (Some true, [], [("prevote", rep 64 "b")]).
Proof. vm_compute. reflexivity. Qed.
